(* ===== verification/_CoqProject ===== *)
-Q . S2P
Prelude.v
GoString.v
Float64.v
FloatInt.v
GoTime.v
GoSort.v
Net.v
GoUrl.v
Json.v
JsonFacts.v
Limiter.v
RedisLimiter.v
Balancer.v
Router.v
Registry.v
Pricing.v
Credentials.v
Guardrails.v
SemCache.v
ApiErr.v
Middleware.v
Egress.v
IpPolicy.v
AuditId.v
AuditLog.v
CoreStore.v
CoreProps.v
Console.v
ConsoleProps.v
GwTypes.v
Gateway.v
GatewayLogic.v
GatewaySpec.v
GatewayProps.v
Wire.v
Messages.v
SseLogic.v
MessagesProps.v
Responses.v
ResponsesProps.v
Endpoints.v
Sse.v
Providers.v
Anthropic.v
Gemini.v
ProviderProps.v
Regex.v
Evals.v
EvalWorker.v
EvalsProps.v
Heuristic.v
Plugins.v
PluginStores.v
PluginsProps.v
Migrate.v
MigrateProps.v
Bench.v
BenchProps.v
Metrics.v
MetricsProps.v
Recorders.v
RecordersProps.v
Mcp.v
McpProps.v
Reader.v
ReaderProps.v
Config.v
ConfigProps.v
Notify.v
Runtime.v
RuntimeProps.v
EvalConsole.v
EvalConsoleProps.v
Mail.v
MailProps.v
EvalBatch.v
EvalBatchProps.v
BenchConsole.v
BenchConsoleProps.v
