(* ===== verification/Prelude.v ===== *)
(** * Nexus: a verification development of the gateway's Go code

    Nexus is an LLM gateway: an OpenAI-compatible HTTP front end that
    authenticates virtual keys, enforces their limits, routes each request over
    a chain of models of several providers, and records evidence of what it did;
    with it come a console for administrators, the evaluation of recorded traffic,
    and the jobs around them.  This development models the program's own logic
    (src/internal and src/cmd/nexus) as executable definitions and proves the
    properties that make it correct.

    ** The parts and the files

    Each component has a file of definitions that follows the named Go files
    function by function; its theorems are at the end of that file or in the file of
    the same name with [Props].

    Foundations.
    - [Prelude]: results, machine integers ([int] is 64 bits, wrapped by
      [wrap64]), tactics and hint databases.  [GoString], [GoTime], [GoSort],
      [Net], [GoUrl]: what the code uses of Go's strings, time, sort, net and
      net/url.  [Float64], [FloatInt]: [float64] as the Standard Library's binary64,
      each operation rounded once, as on amd64.  [Json], [JsonFacts]:
      encoding/json on byte strings.

    The gateway (internal/gateway, limiter, balancer, router, guardrails, semcache,
    apierr, egress, ippolicy).
    - [Limiter], [RedisLimiter]: request rate and monthly spend in memory and in
      Redis, the concurrency cap, the console's token bucket; both rate limiters
      refine one log of admissions.
    - [Balancer], [Router], [Registry]: the rotation of a chain, its ranking, the
      look-up of providers and the refreshed catalog.
    - [Pricing], [Credentials], [Guardrails], [SemCache]: what a call costs, whose
      key it carries, which prompts and answers pass, which answers are reused.
    - [ApiErr], [Middleware]: public errors, and the chain of middlewares as [NewMux]
      composes it.
    - [GwTypes], [Gateway] with [GatewayLogic], [GatewaySpec], [GatewayProps]: the
      chat completions handler, a weakest-precondition calculus for its monad, the
      contract of each stage, its properties.
    - [Wire], [Messages], [Responses], [Endpoints] with [SseLogic],
      [MessagesProps], [ResponsesProps]: the JSON forms, the Anthropic Messages and
      OpenAI Responses endpoints, embeddings, images and moderations.
    - [Sse], [Providers], [Anthropic], [Gemini], [ProviderProps]: the upstream
      adapters, from a body's bytes to events.
    - [Egress], [IpPolicy]: which addresses may be dialled, how redirects are bounded
      and stripped, which address a request is said to come from.
    - [Mcp], [McpProps]: the MCP proxy and its tool calls.

    The control plane (internal/core, console, migrate, health; cmd/nexus).
    - [CoreStore], [CoreProps]: users, sessions, keys, credentials, invites, with
      the constraints of the migrations; [AuditId], [AuditLog]: the audit trail.
    - [Console], [ConsoleProps]: the router with its guards and the handlers of
      accounts, keys, credentials, invites and SSO.  [Mail], [MailProps]: invitation
      mail.
    - [Config], [ConfigProps], [Runtime], [RuntimeProps], [Notify]: the settings, how
      they change while the process runs, the failover alerts.
    - [Migrate], [MigrateProps]: migrations under the advisory lock, and readiness.

    Evidence and evaluation (internal/observability, evals, evalplugin, evaluators,
    evalbatch, benchmark, cron).
    - [Metrics], [MetricsProps], [Recorders], [RecordersProps], [Reader],
      [ReaderProps]: counters, where a trace goes, what the reads of traces answer.
    - [Regex], [Evals], [EvalWorker], [EvalsProps], [Heuristic]: the evaluators and
      the pool that runs them.
    - [Plugins], [PluginStores], [PluginsProps]: plugins, their registry, their two
      stores behind one interface, dispatch and collection.  [EvalConsole],
      [EvalConsoleProps]: the console's requests on profiles, plugins and keys.
    - [Bench], [BenchProps], [BenchConsole], [BenchConsoleProps], [EvalBatch],
      [EvalBatchProps]: benchmark runs with their timetable, their console, and the
      gates of a release.

    ** How they interact

    [Middleware.gated] and the mux wrap a handler over the interface
    [Limiter.LimiterOps], of which [Limiter.Memory.ops] is the in-memory
    implementation.  The handlers [Gateway.ChatCompletions], [Messages] and
    [Responses] share routing and dispatch; they call [Guardrails.CheckInput],
    [Registry.Resolve], a ranker (the class [GatewaySpec.Ranker], of which
    [Router.Rank] is an instance), [Balancer.RotateChain], [Credentials.Resolve],
    [Pricing.ResolveCostUSD] and the cache (the class [SemCache.TenantCache], met by
    both stores).  The events they read are those the adapters of [Sse] and
    [Providers] send.  [Console.serve] runs a handler over the tables of [CoreStore];
    [EvalConsole] works over the class [PluginStores.PluginStore], and its theorems
    over what [PluginStores.StoreLaws] promises of it.  The traces [Gateway] records
    are the ones [Recorders] fans out, [Evals] scores and [Reader] reads.

    ** How code becomes definitions

    A Go function is a Gallina function on the values it reads, in the order of
    its branches; a method that mutates its receiver returns the new receiver; a
    [(v, error)] result is [res]; a panic is [None] or a value of its own.  Maps
    are [gmap]s; a loop over a Go map whose result depends on the order takes
    the order as an argument.  A handler's effects are an explicit log: in
    [Middleware] the calls on the response writer, in [Gateway] also upstream
    calls, recorded traces, spend entries, cache accesses and notices.  Goroutines
    and replicas are step relations.  What is not in the repository's Go code is a
    parameter: the clock, UUIDs, providers, SHA-256 and encryption, the operator's
    regular expressions, YAML, templates, HTTP, Redis, and whether a database
    answers.  SQL is modelled by its effect on finite maps, the constraints of the
    migrations being definitions of their own; [Reader] also models the text of its
    statements.  Log lines have no counterpart.

    ** Bounds and fuel

    Recursion is structural; where a Go loop is not, the fuel is the quantity it
    decreases, and a theorem says that it suffices: [GwTypes.root_walk] moves to a
    smaller message index, self-correction counts up to its maximum, the catalog
    refresh counts its attempts, [ReaderProps.walk_pages] and the audit walk need one
    step more than there are rows.  Theorems about 64-bit arithmetic state the range
    they need: chains of at most a million models in [Balancer], at most 10000
    counters in [Limiter.memory_refines_log] (beyond which the sweep forgets), at most
    34 retries in [Registry.sync_all_or_nothing].

    ** What the theorems show

    - Requests: which effects a request can have and on whose behalf
      ([effects_authorized]), that every request gets one status line and, but for
      listed cases, one trace that agrees with it ([chat_one_status_one_trace]), the
      exact answers of the unary path ([unary_answer]), that failover reaches a
      healthy provider, the block protocol of the Messages stream and the
      consistency of the Responses stream.
    - The gate: exactly which requests pass ([gate_admits_only_authorized]); the
      limiters refine a log of admissions; the concurrency counter is the number in
      flight; a panic is contained.
    - Upstreams: the operator's key goes where it may, raw events are passed on up to
      their line endings ([passthrough_exact]), streams end with one signal, addresses
      and redirects are confined.
    - Tenants: the console's router opens exactly the listed routes
      ([console_effects_authorized]), administrators change their organisation only
      ([admin_confined_to_org], [plugin_requests_confined]), cached answers, plugins
      and tool calls stay with their tenant, invites are used once, sessions end.
    - Evidence: writers hand over what they accepted, in order and once
      ([flusher_exact]); with capture off content is not stored
      ([content_not_retained]); pages are complete ([pages_complete],
      [view_pages_complete]).
    - Jobs: the pool drains, migrations run once, benchmark keys do not outlive their
      run but for two leaks ([key_lives_with_run]).
    - Theorems of kind error pin what the code gets wrong; each is named by the
      finding that reports it.

    ** Not modelled

    The SQL back ends of the router's statistics and the HTTP client of the model
    list; dashboards, the Metabase client and the reader of MCP logs; score sinks and
    the vendors' adapters and pollers; the document server, the import from LangSmith
    and the local database; process start-up, flags and wiring; the console's pages
    on traces, statistics and spend beyond [Reader], the pre-flight of a provider, the
    test and fire requests of plugins, and its header, CORS and panic middlewares; the
    network inventory and the extraction of the schema contract.  Of PostgreSQL's
    advisory lock, the loss of the holder's session while it works is left out; a tool
    call looks up its connection and calls it in one step. *)

From Stdlib Require Export Ascii String ZArith Lia.
From stdpp Require Export base list gmap strings.
From Stdlib Require Import Sorting.Permutation.

Declare Scope go_scope.
Delimit Scope go_scope with go.

(** Results of a Go function returning [(v, err)]: either the value, or the
    error. *)
Inductive res (E A : Type) : Type :=
| Ok (a : A)
| Err (e : E).
Arguments Ok {E A} a.
Arguments Err {E A} e.

Definition res_bind {E A B : Type} (x : res E A) (k : A → res E B) : res E B :=
  match x with
  | Ok a => k a
  | Err e => Err e
  end.

Notation "'try' x ':=' c 'in' k" := (res_bind c (fun x => k))
  (at level 10, x binder, c at level 100, k at level 200) : go_scope.

(** ** Automation *)

Create HintDb go discriminated.
Create Rewrite HintDb go_int.

(** Case-split on every [if]/[match] scrutinee of the goal and the context and
    close the contradictory branches. *)
Ltac split_matches :=
  repeat (case_match || case_decide); simplify_eq/=; try done.

(** Turn the boolean tests produced by [split_matches] into propositions. *)
Ltac reflect_bools :=
  repeat match goal with
  | H : (_ =? _)%Z = true |- _ => apply Z.eqb_eq in H
  | H : (_ =? _)%Z = false |- _ => apply Z.eqb_neq in H
  | H : (_ <=? _)%Z = true |- _ => apply Z.leb_le in H
  | H : (_ <=? _)%Z = false |- _ => apply Z.leb_gt in H
  | H : (_ <? _)%Z = true |- _ => apply Z.ltb_lt in H
  | H : (_ <? _)%Z = false |- _ => apply Z.ltb_ge in H
  | H : (_ && _) = true |- _ => apply andb_prop in H as [? ?]
  | H : (_ || _) = false |- _ => apply orb_false_elim in H as [? ?]
  | H : negb _ = true |- _ => apply negb_true_iff in H
  | H : negb _ = false |- _ => apply negb_false_iff in H
  | H : String.eqb _ _ = true |- _ => apply String.eqb_eq in H
  | H : String.eqb _ _ = false |- _ => apply String.eqb_neq in H
  end.

(** ** Two's complement [int] (64 bits on every supported platform) *)

Definition int64_min : Z := (- 2 ^ 63)%Z.
Definition int64_max : Z := (2 ^ 63 - 1)%Z.

Definition wrap64 (z : Z) : Z := ((z + 2 ^ 63) mod 2 ^ 64 - 2 ^ 63)%Z.

Definition in_int64 (z : Z) : Prop := (int64_min ≤ z ≤ int64_max)%Z.

Lemma wrap64_id z : in_int64 z → wrap64 z = z.
Proof.
  unfold in_int64, int64_min, int64_max, wrap64. intros H.
  rewrite Z.mod_small; lia.
Qed.

Lemma wrap64_range z : in_int64 (wrap64 z).
Proof.
  unfold in_int64, int64_min, int64_max, wrap64.
  pose proof (Z.mod_pos_bound (z + 2 ^ 63) (2 ^ 64) ltac:(lia)). lia.
Qed.

#[export] Hint Resolve wrap64_range : go.
#[export] Hint Rewrite wrap64_id using (assumption || lia) : go_int.
