(* ===== verification/GoString.v ===== *)
(** * GoString: the part of Go's [strings], [strconv] and [sort] the sources use

    A Go [string] is an immutable sequence of bytes; [string] of the Standard
    Library is a sequence of 8-bit [ascii], so the two coincide and [len] is
    [String.length].  Each definition is the library function of the same name,
    restricted to what the call sites under src/ pass (a one-byte separator for
    [Cut], [IndexByte] and [Split]). *)

From stdpp Require Export pretty sorting.
From S2P Require Import Prelude.

Local Open Scope string_scope.
Local Open Scope nat_scope.

(** ** Prefixes and suffixes *)

Fixpoint HasPrefix (s prefix : string) {struct prefix} : bool :=
  match prefix, s with
  | "", _ => true
  | String p prefix', String c s' => if decide (p = c) then HasPrefix s' prefix' else false
  | String _ _, "" => false
  end.

Definition HasSuffix (s suffix : string) : bool :=
  HasPrefix (String.rev s) (String.rev suffix).

(** [TrimPrefix]: drop the prefix when it is there. *)
Fixpoint drop_bytes (n : nat) (s : string) : string :=
  match n, s with
  | O, _ => s
  | S n', String _ s' => drop_bytes n' s'
  | S _, "" => ""
  end.

Definition TrimPrefix (s prefix : string) : string :=
  if HasPrefix s prefix then drop_bytes (String.length prefix) s else s.

(** [s[:n]], for [n <= len(s)]. *)
Fixpoint take_bytes (n : nat) (s : string) : string :=
  match n, s with
  | O, _ => ""
  | S n', String c s' => String c (take_bytes n' s')
  | S _, "" => ""
  end.

(** ** Cutting and joining *)

(** [strings.Cut(s, sep)] for a one-byte separator: the text before and after
    the first occurrence, or [None] when [sep] does not occur. *)
Fixpoint Cut (s : string) (sep : ascii) : option (string * string) :=
  match s with
  | "" => None
  | String c s' =>
      if decide (c = sep) then Some ("", s')
      else match Cut s' sep with
           | Some (before, after) => Some (String c before, after)
           | None => None
           end
  end.

(** [strings.Split(s, sep)] for a one-byte separator; never empty. *)
Fixpoint Split (s : string) (sep : ascii) : list string :=
  match s with
  | "" => [""]
  | String c s' =>
      if decide (c = sep) then "" :: Split s' sep
      else match Split s' sep with
           | [] => [String c ""]
           | x :: xs => String c x :: xs
           end
  end.

Fixpoint Join (l : list string) (sep : string) : string :=
  match l with
  | [] => ""
  | [x] => x
  | x :: xs => x +:+ sep +:+ Join xs sep
  end.

(** [strings.IndexByte]. *)
Fixpoint IndexByte (s : string) (b : ascii) : option nat :=
  match s with
  | "" => None
  | String c s' => if decide (c = b) then Some O else S <$> IndexByte s' b
  end.

(** [strings.LastIndex(s, sub)]: the greatest offset at which [sub] occurs. *)
Fixpoint LastIndex (s sub : string) : option nat :=
  match s with
  | "" => if HasPrefix "" sub then Some O else None
  | String _ s' =>
      match LastIndex s' sub with
      | Some i => Some (S i)
      | None => if HasPrefix s sub then Some O else None
      end
  end.

(** [strings.Contains]. *)
Fixpoint Contains (s sub : string) : bool :=
  HasPrefix s sub ||
  match s with
  | "" => false
  | String _ s' => Contains s' sub
  end.

(** ** [strings.TrimSpace]

    The white space of [unicode.IsSpace] as the UTF-8 byte sequences Go decodes:
    the six ASCII characters, U+0085, U+00A0, U+1680, U+2000 to U+200A, U+2028,
    U+2029, U+202F, U+205F and U+3000. *)
Definition bytes (l : list nat) : string :=
  foldr (fun n s => String (ascii_of_nat n) s) "" l.

Definition space_encodings : list string :=
  map (fun n => bytes [n]) [9; 10; 11; 12; 13; 32] ++
  map bytes [[194; 133]; [194; 160]; [225; 154; 128]] ++
  map (fun n => bytes [226; 128; n])
    [128; 129; 130; 131; 132; 133; 134; 135; 136; 137; 138; 168; 169; 175] ++
  map bytes [[226; 129; 159]; [227; 128; 128]].

(** The number of bytes of the space character [s] starts with, if any. *)
Definition leading_space (encodings : list string) (s : string) : option nat :=
  match list_find (fun e => HasPrefix s e = true) encodings with
  | Some (_, e) => Some (String.length e)
  | None => None
  end.

(** Repeatedly drop a leading space; [fuel] is bounded by the length, because
    every step drops at least one byte. *)
Fixpoint trim_left (fuel : nat) (encodings : list string) (s : string) : string :=
  match fuel with
  | O => s
  | S fuel' =>
      match leading_space encodings s with
      | Some n => trim_left fuel' encodings (drop_bytes n s)
      | None => s
      end
  end.

Definition TrimLeftSpace (s : string) : string :=
  trim_left (String.length s) space_encodings s.

Definition TrimRightSpace (s : string) : string :=
  String.rev (trim_left (String.length s) (map String.rev space_encodings) (String.rev s)).

Definition TrimSpace (s : string) : string := TrimRightSpace (TrimLeftSpace s).

(** ** Numbers and order *)

(** [strconv.Itoa] of a non-negative [int]. *)
Definition Itoa (n : nat) : string := pretty n.

(** [sort.Strings]: ascending byte order. *)
Definition sort_Strings : list string → list string := merge_sort String.le.

(** ** Lemmas *)

Lemma HasPrefix_spec s p : HasPrefix s p = true ↔ ∃ r, s = p +:+ r.
Proof.
  revert s. induction p as [|c p IH]; intros s; simpl.
  - split; [intros _; by exists s | done].
  - destruct s as [|d s]; simpl.
    + split; [done | intros [r Hr]; discriminate Hr].
    + case_decide as E.
      * subst. rewrite IH. split; intros [r Hr].
        -- exists r. by rewrite Hr.
        -- exists r. by injection Hr.
      * split; [done|]. intros [r Hr]. injection Hr; congruence.
Qed.

Lemma HasPrefix_app p r : HasPrefix (p +:+ r) p = true.
Proof. apply HasPrefix_spec. by exists r. Qed.

Lemma HasPrefix_refl s : HasPrefix s s = true.
Proof. induction s as [|c s IH]; simpl; [done|]. by rewrite decide_True. Qed.

Lemma app_nil_r_string s : s +:+ "" = s.
Proof. induction s as [|c s IH]; [done|]. change (String c (s +:+ "") = String c s). by rewrite IH. Qed.

Lemma app_assoc_string s t u : (s +:+ t) +:+ u = s +:+ (t +:+ u).
Proof. induction s as [|c s IH]; [done|]. change (String c ((s +:+ t) +:+ u) = String c (s +:+ (t +:+ u))). by rewrite IH. Qed.

Lemma length_app_string s t : String.length (s +:+ t) = String.length s + String.length t.
Proof. induction s as [|c s IH]; [done|]. change (S (String.length (s +:+ t)) = S (String.length s + String.length t)). by rewrite IH. Qed.

Lemma take_app_len s t : take_bytes (String.length s) (s +:+ t) = s.
Proof. induction s as [|c s IH]; cbn; [by destruct t|by f_equal]. Qed.

Lemma drop_app_len s t : drop_bytes (String.length s) (s +:+ t) = t.
Proof. induction s as [|c s IH]; cbn; [done|apply IH]. Qed.

(** Two prefixes of one string: the shorter is a prefix of the longer. *)
Lemma HasPrefix_chain s p q :
  HasPrefix s p = true → HasPrefix s q = true →
  String.length p ≤ String.length q → HasPrefix q p = true.
Proof.
  revert s q. induction p as [|c p IH]; intros s q Hp Hq Hl; [done|].
  destruct q as [|d q]; simpl in *; [lia|].
  destruct s as [|e s]; [done|]. simpl in *.
  do 2 (case_decide; [|done]). subst. rewrite decide_True by done.
  apply (IH s); [done..|lia].
Qed.

Lemma HasPrefix_same_length s p q :
  HasPrefix s p = true → HasPrefix s q = true →
  String.length p = String.length q → p = q.
Proof.
  revert s q. induction p as [|c p IH]; intros s q Hp Hq Hl; destruct q as [|d q]; try done.
  destruct s as [|e s]; [done|]. simpl in *.
  do 2 (case_decide; [|done]). subst. f_equal. apply (IH s); [done..|lia].
Qed.

(** Membership of a byte. *)
Fixpoint byte_in (b : ascii) (s : string) : Prop :=
  match s with
  | "" => False
  | String c s' => c = b ∨ byte_in b s'
  end.

Lemma byte_in_app b s t : byte_in b (s +:+ t) ↔ byte_in b s ∨ byte_in b t.
Proof.
  induction s as [|c s IH].
  - simpl. tauto.
  - change (c = b ∨ byte_in b (s +:+ t) ↔ (c = b ∨ byte_in b s) ∨ byte_in b t). tauto.
Qed.

Lemma Cut_Some s sep before after :
  Cut s sep = Some (before, after) ↔
  s = before +:+ String sep after ∧ ¬ byte_in sep before.
Proof.
  revert before after. induction s as [|c s IH]; intros before after; simpl.
  - split; [done|]. intros [H _]. by destruct before.
  - case_decide as E.
    + subst. split.
      * intros [= <- <-]. split; [done|]. simpl. tauto.
      * intros [H1 H2]. destruct before as [|d before].
        -- injection H1 as ->. done.
        -- injection H1 as -> ->. simpl in H2. tauto.
    + destruct (Cut s sep) as [[b' a']|] eqn:HC.
      * destruct (IH b' a') as [IH1 _]. destruct (IH1 eq_refl) as [-> Hni].
        split.
        -- intros [= <- <-]. split; [done|]. simpl. tauto.
        -- intros [H1 H2]. destruct before as [|d before].
           ++ injection H1; congruence.
           ++ injection H1 as -> H1. simpl in H2.
              destruct (IH before after) as [_ IH2].
              specialize (IH2 (conj H1 (fun Hb => H2 (or_intror Hb)))).
              by simplify_eq.
      * split; [done|]. intros [H1 H2]. destruct before as [|d before].
        -- injection H1; congruence.
        -- injection H1 as -> H1. simpl in H2.
           destruct (IH before after) as [_ IH2].
           specialize (IH2 (conj H1 (fun Hb => H2 (or_intror Hb)))). done.
Qed.

Lemma Cut_None s sep : Cut s sep = None ↔ ¬ byte_in sep s.
Proof.
  induction s as [|c s IH]; simpl; [tauto|].
  case_decide as E; [subst; split; [done | tauto]|].
  destruct (Cut s sep) as [[b a]|] eqn:HC.
  - split; [done|]. intros H. exfalso. destruct IH as [_ IH].
    discriminate IH. tauto.
  - split; [|done]. intros _ [?|?]; [done|]. by apply IH.
Qed.

(** A separator that does not occur in the left parts makes concatenation
    injective. *)
Lemma app_sep_inj sep (s s' t t' : string) :
  ¬ byte_in sep s → ¬ byte_in sep s' →
  s +:+ String sep t = s' +:+ String sep t' → s = s' ∧ t = t'.
Proof.
  intros Hs Hs' Heq.
  assert (Cut (s +:+ String sep t) sep = Some (s, t)) as H1 by (apply Cut_Some; done).
  assert (Cut (s' +:+ String sep t') sep = Some (s', t')) as H2 by (apply Cut_Some; done).
  rewrite Heq in H1. by simplify_eq.
Qed.

(** Two decompositions of one string into parts of equal length agree. *)
Lemma app_length_inj (s s' t t' : string) :
  String.length s = String.length s' → s +:+ t = s' +:+ t' → s = s' ∧ t = t'.
Proof.
  revert s'. induction s as [|c s IH]; intros [|c' s'] Hl Heq; try done.
  injection Heq as -> Heq. injection Hl as Hl.
  destruct (IH s' Hl Heq) as [-> ->]. done.
Qed.

(** Decimal numerals contain only digits. *)
Definition is_digit (c : ascii) : bool :=
  let n := nat_of_ascii c in (48 <=? n) && (n <=? 57).

Lemma pretty_N_char_digit x : is_digit (pretty_N_char x) = true.
Proof. unfold pretty_N_char. by repeat case_match. Qed.

Lemma pretty_N_go_digits x s b :
  is_digit b = false → ¬ byte_in b s → ¬ byte_in b (pretty_N_go x s).
Proof.
  intros Hb. revert s. induction (N.lt_wf_0 x) as [x _ IH]; intros s Hs.
  destruct (decide (0 < x)%N) as [Hx|Hx].
  - rewrite pretty_N_go_step by done. apply IH.
    + by apply N.div_lt.
    + simpl. intros [E|?]; [|done]. by rewrite <- E, pretty_N_char_digit in Hb.
  - assert (x = 0%N) as -> by lia. by rewrite pretty_N_go_0.
Qed.

Lemma Itoa_digits n b : is_digit b = false → ¬ byte_in b (Itoa n).
Proof.
  intros Hb. unfold Itoa, pretty, pretty_nat, pretty, pretty_N. case_decide.
  - simpl. intros [E|[]]. subst b. vm_compute in Hb. discriminate.
  - apply pretty_N_go_digits; [done|]. simpl. tauto.
Qed.

Lemma Itoa_inj n m : Itoa n = Itoa m → n = m.
Proof. apply (inj (R:=(=)) pretty). Qed.

Lemma sort_Strings_perm l : sort_Strings l ≡ₚ l.
Proof. apply merge_sort_Permutation. Qed.

Lemma sort_Strings_sorted l : StronglySorted String.le (sort_Strings l).
Proof. apply (StronglySorted_merge_sort _ l). Qed.

Lemma elem_of_sort_Strings x l : x ∈ sort_Strings l ↔ x ∈ l.
Proof. by rewrite sort_Strings_perm. Qed.

#[export] Hint Resolve HasPrefix_app HasPrefix_refl Itoa_digits : go.
