(* ===== verification/Float64.v ===== *)
(** * Float64: Go's [float64]

    Go's [float64] is IEEE 754 binary64 with round-to-nearest-even; its
    operations are the executable ones of [SpecFloat] at precision 53 and
    maximal exponent 1024, with no axiom behind them.  Comparison operators
    follow IEEE: every one of them is [false] when an operand is NaN.

    The order lemmas go through [rank], an order embedding of the non-NaN
    values into lexicographically ordered integer triples. *)

From Stdlib Require Export Floats.SpecFloat.
From S2P Require Import Prelude.
Local Open Scope Z_scope.

Abbreviation float64 := spec_float (only parsing).

#[export] Instance float64_eq_dec : EqDecision float64.
Proof. solve_decision. Defined.

Definition prec : Z := 53.
Definition emax : Z := 1024.

Definition fadd : float64 → float64 → float64 := SFadd prec emax.
Definition fsub : float64 → float64 → float64 := SFsub prec emax.
Definition fmul : float64 → float64 → float64 := SFmul prec emax.
Definition fdiv : float64 → float64 → float64 := SFdiv prec emax.
Definition fsqrt : float64 → float64 := SFsqrt prec emax.
Definition fopp : float64 → float64 := SFopp.

Definition flt (a b : float64) : bool := SFltb a b.
Definition fle (a b : float64) : bool := SFleb a b.
Definition fgt (a b : float64) : bool := SFltb b a.
Definition fge (a b : float64) : bool := SFleb b a.
Definition feq (a b : float64) : bool := SFeqb a b.

(** [float64(n)] for an integer [n]: correctly rounded. *)
Definition of_Z (n : Z) : float64 := binary_normalize prec emax n 0 false.

(** The constant [n / d]: one correctly rounded division, which is the nearest
    double to the decimal literal when [n] and [d] are exact. *)
Definition lit (n d : Z) : float64 := fdiv (of_Z n) (of_Z d).

Definition fzero : float64 := S754_zero false.
Definition fone : float64 := of_Z 1.

Definition is_NaN (x : float64) : bool :=
  match x with S754_nan => true | _ => false end.

(** ** The order of the non-NaN values *)

(** Lexicographic key: class, then exponent, then mantissa, both negated below
    zero. *)
Definition rank (x : float64) : Z * Z * Z :=
  match x with
  | S754_infinity true => (-2, 0, 0)
  | S754_finite true m e => (-1, - e, Z.neg m)
  | S754_zero _ => (0, 0, 0)
  | S754_nan => (0, 0, 0)
  | S754_finite false m e => (1, e, Z.pos m)
  | S754_infinity false => (2, 0, 0)
  end.

Definition lex_lt (a b : Z * Z * Z) : Prop :=
  let '(a1, a2, a3) := a in
  let '(b1, b2, b3) := b in
  a1 < b1 ∨ (a1 = b1 ∧ (a2 < b2 ∨ (a2 = b2 ∧ a3 < b3))).

Lemma SFcompare_rank x y :
  is_NaN x = false → is_NaN y = false →
  match SFcompare x y with
  | Some Lt => lex_lt (rank x) (rank y)
  | Some Eq => rank x = rank y
  | Some Gt => lex_lt (rank y) (rank x)
  | None => False
  end.
Proof.
  destruct x as [?|[]| |[] m e], y as [?|[]| |[] m' e'];
    cbn [is_NaN SFcompare rank lex_lt]; intros; try done; try lia.
  - destruct (Z.compare_spec e e'); subst; [|lia..].
    change (Pos.compare_cont Eq m m') with (Pos.compare m m').
    destruct (Pos.compare_spec m m'); subst; simpl; try done; lia.
  - destruct (Z.compare_spec e e'); subst; [|lia..].
    change (Pos.compare_cont Eq m m') with (Pos.compare m m').
    destruct (Pos.compare_spec m m'); subst; simpl; try done; lia.
Qed.

Lemma SFcompare_None x y : SFcompare x y = None ↔ is_NaN x = true ∨ is_NaN y = true.
Proof.
  split.
  - intros H. destruct (is_NaN x) eqn:Hx; [by left|].
    destruct (is_NaN y) eqn:Hy; [by right|].
    pose proof (SFcompare_rank x y Hx Hy) as R. by rewrite H in R.
  - by intros [H|H]; [destruct x|destruct x, y].
Qed.

Lemma flt_rank x y :
  is_NaN x = false → is_NaN y = false → flt x y = true ↔ lex_lt (rank x) (rank y).
Proof.
  intros Hx Hy. pose proof (SFcompare_rank x y Hx Hy) as R.
  unfold flt, SFltb. destruct (SFcompare x y) as [[]|]; [..|done];
    destruct (rank x) as [[? ?] ?], (rank y) as [[? ?] ?]; simplify_eq/=;
    (split; [try done|]); intros; try done; lia.
Qed.

Lemma fle_rank x y :
  is_NaN x = false → is_NaN y = false → fle x y = true ↔ ¬ lex_lt (rank y) (rank x).
Proof.
  intros Hx Hy. pose proof (SFcompare_rank x y Hx Hy) as R.
  unfold fle, SFleb. destruct (SFcompare x y) as [[]|]; [..|done];
    destruct (rank x) as [[? ?] ?], (rank y) as [[? ?] ?]; simplify_eq/=;
    (split; [intros; try done; try lia|]); intros; try done; try lia.
Qed.

Lemma flt_NaN_l x y : flt x y = true → is_NaN x = false.
Proof. by destruct x, y. Qed.

Lemma flt_NaN_r x y : flt x y = true → is_NaN y = false.
Proof. by destruct x as [?|?| |[]], y as [?|?| |[]]. Qed.

Lemma fle_NaN_l x y : fle x y = true → is_NaN x = false.
Proof. by destruct x, y. Qed.

Lemma fle_NaN_r x y : fle x y = true → is_NaN y = false.
Proof. by destruct x as [?|?| |[]], y as [?|?| |[]]. Qed.

Lemma lex_lt_trans a b c : lex_lt a b → lex_lt b c → lex_lt a c.
Proof. destruct a as [[? ?] ?], b as [[? ?] ?], c as [[? ?] ?]; simpl; lia. Qed.

Lemma lex_lt_irrefl a : ¬ lex_lt a a.
Proof. destruct a as [[? ?] ?]; simpl; lia. Qed.

Lemma lex_lt_connected a b c : lex_lt a c → lex_lt a b ∨ lex_lt b c.
Proof. destruct a as [[? ?] ?], b as [[? ?] ?], c as [[? ?] ?]; simpl; lia. Qed.

Lemma flt_trans x y z : flt x y = true → flt y z = true → flt x z = true.
Proof.
  intros H1 H2.
  pose proof (flt_NaN_l _ _ H1). pose proof (flt_NaN_r _ _ H1). pose proof (flt_NaN_r _ _ H2).
  apply flt_rank in H1, H2; [|done..]. apply flt_rank; [done..|].
  eauto using lex_lt_trans.
Qed.

Lemma flt_irrefl x : flt x x = false.
Proof.
  destruct (flt x x) eqn:E; [|done]. pose proof (flt_NaN_l _ _ E).
  apply flt_rank in E; [|done..]. by apply lex_lt_irrefl in E.
Qed.

Lemma flt_asymm x y : flt x y = true → flt y x = false.
Proof.
  intros H. destruct (flt y x) eqn:E; [|done].
  pose proof (flt_trans _ _ _ H E) as F. by rewrite flt_irrefl in F.
Qed.

Lemma fle_not_flt x y : is_NaN x = false → is_NaN y = false → fle x y = negb (flt y x).
Proof.
  intros Hx Hy. destruct (flt y x) eqn:E; simpl.
  - apply not_true_is_false. rewrite fle_rank by done. apply flt_rank in E; auto.
  - apply fle_rank; [done..|]. intros L. apply flt_rank in L; [|done..]. congruence.
Qed.

Lemma fle_trans x y z : fle x y = true → fle y z = true → fle x z = true.
Proof.
  intros H1 H2.
  pose proof (fle_NaN_l _ _ H1). pose proof (fle_NaN_r _ _ H1). pose proof (fle_NaN_r _ _ H2).
  rewrite fle_rank in * by done. intros L.
  destruct (lex_lt_connected _ (rank y) _ L); auto.
Qed.

Lemma fle_total x y : is_NaN x = false → is_NaN y = false → fle x y = true ∨ fle y x = true.
Proof.
  intros Hx Hy. rewrite !fle_not_flt by done.
  destruct (flt y x) eqn:E; [right|by left]. by rewrite (flt_asymm _ _ E).
Qed.

Lemma fle_refl x : is_NaN x = false → fle x x = true.
Proof. intros H. by destruct (fle_total x x H H). Qed.

Lemma flt_fle x y : flt x y = true → fle x y = true.
Proof.
  intros H. rewrite fle_not_flt by eauto using flt_NaN_l, flt_NaN_r.
  by rewrite (flt_asymm _ _ H).
Qed.

(** Comparison with NaN is false on either side. *)
Lemma fcmp_NaN_l x : flt S754_nan x = false ∧ fle S754_nan x = false.
Proof. done. Qed.
Lemma fcmp_NaN_r x : flt x S754_nan = false ∧ fle x S754_nan = false.
Proof. by destruct x as [?|[]| |[]]. Qed.

#[export] Hint Resolve flt_NaN_l flt_NaN_r fle_NaN_l fle_NaN_r flt_fle : go.

(** ** Signs

    Sums, products and quotients of values that are not negative are not
    negative. *)

Definition nonneg (x : float64) : bool :=
  match x with
  | S754_zero _ | S754_infinity false | S754_finite false _ _ => true
  | _ => false
  end.

Definition finite_nonneg (x : float64) : bool :=
  match x with
  | S754_zero _ | S754_finite false _ _ => true
  | _ => false
  end.

Lemma iter_pos_inv {A} (f : A → A) (Q : A → Prop) :
  (∀ a, Q a → Q (f a)) → ∀ p a, Q a → Q (SpecFloat.iter_pos f p a).
Proof. intros Hf p. induction p; simpl; auto. Qed.

Lemma shr_fexp_nonneg m e l : 0 ≤ m → 0 ≤ shr_m (fst (shr_fexp prec emax m e l)).
Proof.
  intros Hm. unfold shr_fexp, shr.
  assert (0 ≤ shr_m (shr_record_of_loc m l)) as H0 by (destruct l as [|[]]; done).
  destruct (_ - e); cbn [fst]; [done| |done].
  apply (iter_pos_inv _ (fun r => 0 ≤ shr_m r)); [|done].
  intros [m' r s] H. cbn in *. destruct m' as [|[]|[]]; cbn; lia.
Qed.

Lemma round_nearest_even_nonneg m l : 0 ≤ m → 0 ≤ round_nearest_even m l.
Proof. intros H. destruct l as [|[]]; cbn; [lia| |lia..]. destruct (Z.even m); lia. Qed.

Lemma binary_round_aux_nonneg m e l :
  0 ≤ m → nonneg (binary_round_aux prec emax false m e l) = true.
Proof.
  intros Hm. unfold binary_round_aux.
  pose proof (shr_fexp_nonneg m e l Hm) as H1.
  destruct (shr_fexp prec emax m e l) as [mrs' e']. cbn [fst] in H1.
  set (m2 := round_nearest_even _ _).
  assert (0 ≤ m2) as H2 by (by apply round_nearest_even_nonneg).
  pose proof (shr_fexp_nonneg m2 e' loc_Exact H2) as H3.
  destruct (shr_fexp prec emax m2 e' loc_Exact) as [mrs'' e'']. cbn [fst] in H3.
  destruct (shr_m mrs''); [done|by destruct (_ <=? _)|lia].
Qed.

Lemma binary_normalize_nonneg m e : 0 ≤ m → nonneg (binary_normalize prec emax m e false) = true.
Proof.
  intros Hm. destruct m as [|m|m]; [done| |lia]. unfold binary_normalize, binary_round.
  destruct (shl_align _ _ _). apply binary_round_aux_nonneg. lia.
Qed.

Lemma of_Z_nonneg n : 0 ≤ n → nonneg (of_Z n) = true.
Proof. apply binary_normalize_nonneg. Qed.

Lemma fadd_nonneg x y : nonneg x = true → nonneg y = true → nonneg (fadd x y) = true.
Proof.
  destruct x as [[]|[]| |[] m e], y as [[]|[]| |[] m' e']; try done; intros _ _.
  unfold fadd, SFadd. apply binary_normalize_nonneg. cbn [cond_Zopp]. lia.
Qed.

Lemma fmul_nonneg x y : finite_nonneg x = true → finite_nonneg y = true → nonneg (fmul x y) = true.
Proof.
  destruct x as [[]|[]| |[] m e], y as [[]|[]| |[] m' e']; try done; intros _ _.
  unfold fmul, SFmul. apply binary_round_aux_nonneg. lia.
Qed.

Lemma div_eucl_nonneg a b : 0 ≤ a → 0 < b → 0 ≤ fst (Z.div_eucl a b).
Proof. intros. apply (Z.div_pos a b); lia. Qed.

(** A finite non-negative number over a positive one. *)
Lemma fdiv_nonneg x y :
  finite_nonneg x = true → nonneg y = true → feq y fzero = false → nonneg (fdiv x y) = true.
Proof.
  destruct x as [[]|[]| |[] m e], y as [[]|[]| |[] m' e']; try done; intros _ _ _.
  unfold fdiv, SFdiv, SFdiv_core_binary.
  match goal with |- context [Z.div_eucl ?a ?b] =>
    assert (0 ≤ fst (Z.div_eucl a b)) as Hq; [|destruct (Z.div_eucl a b) as [q r]] end.
  - apply div_eucl_nonneg; [|lia]. destruct (_ - _ - _); [lia| |lia].
    apply Z.shiftl_nonneg. lia.
  - by apply binary_round_aux_nonneg.
Qed.

Lemma nonneg_ge x : nonneg x = true → fge x fzero = true.
Proof. by destruct x as [[]|[]| |[] m e]. Qed.

Lemma nonneg_not_NaN x : nonneg x = true → is_NaN x = false.
Proof. by destruct x. Qed.

(** NaN is absorbing. *)
Lemma fadd_NaN_l x : fadd S754_nan x = S754_nan.
Proof. done. Qed.
Lemma fadd_NaN_r x : fadd x S754_nan = S754_nan.
Proof. by destruct x. Qed.
Lemma fmul_NaN_l x : fmul S754_nan x = S754_nan.
Proof. done. Qed.
Lemma fdiv_NaN_l x : fdiv S754_nan x = S754_nan.
Proof. done. Qed.
Lemma fdiv_NaN_r x : fdiv x S754_nan = S754_nan.
Proof. by destruct x. Qed.

#[export] Hint Resolve of_Z_nonneg fadd_nonneg nonneg_not_NaN : go.
