(* ===== verification/FloatInt.v ===== *)
(** * FloatInt: integers as [float64]

    Go converts counters and durations with [float64(n)].  Below [2^53] in
    magnitude the conversion is exact, so comparisons of converted numbers are
    comparisons of the integers. *)

From S2P Require Import Prelude Float64.
Local Open Scope Z_scope.

Lemma digits2_pos_bounds p :
  2 ^ (Zpos (digits2_pos p) - 1) ≤ Zpos p < 2 ^ Zpos (digits2_pos p).
Proof.
  induction p as [p IH|p IH|]; cbn [digits2_pos]; [..|cbn; lia];
    rewrite Pos2Z.inj_succ; unfold Z.succ; rewrite Z.add_simpl_r, Z.pow_add_r by lia;
    rewrite (Z.pow_sub_r 2 (Zpos (digits2_pos p)) 1) in IH by lia;
    set (b := 2 ^ Zpos (digits2_pos p)) in *; change (2 ^ 1) with 2 in *;
    [rewrite (Pos2Z.inj_xI p)|rewrite (Pos2Z.inj_xO p)];
    assert (b = 2 * (b / 2)) by (subst b; rewrite <- Z.pow_pred_r by lia;
      rewrite Z.mul_comm, Z.div_mul by lia; lia); lia.
Qed.

Lemma digits2_small p : Zpos p < 2 ^ 53 → Zpos (digits2_pos p) ≤ 53.
Proof.
  intros H. pose proof (digits2_pos_bounds p) as [Hl _].
  destruct (Z.le_gt_cases (Zpos (digits2_pos p)) 53) as [|Hgt]; [done|].
  assert (2 ^ 53 ≤ 2 ^ (Zpos (digits2_pos p) - 1)) by (apply Z.pow_le_mono_r; lia). lia.
Qed.

Lemma iter_xO_value p d : Zpos (Pos.iter xO p d) = Zpos p * 2 ^ Zpos d.
Proof.
  induction d as [|d IH] using Pos.peano_ind; [cbn; lia|].
  rewrite Pos.iter_succ, Pos2Z.inj_succ, Z.pow_succ_r by lia.
  rewrite (Pos2Z.inj_xO (Pos.iter xO p d)), IH. lia.
Qed.

Lemma digits2_iter_xO p d : Zpos (digits2_pos (Pos.iter xO p d)) = Zpos (digits2_pos p) + Zpos d.
Proof.
  induction d as [|d IH] using Pos.peano_ind; [cbn; lia|].
  rewrite Pos.iter_succ. cbn [digits2_pos]. rewrite Pos2Z.inj_succ, IH. lia.
Qed.

(** A mantissa of 53 digits is not rounded. *)
Lemma binary_round_aux_exact m e :
  Zpos (digits2_pos m) = 53 → -1074 ≤ e ≤ 971 →
  binary_round_aux prec emax false (Zpos m) e loc_Exact = S754_finite false m e.
Proof.
  intros Hm He. unfold binary_round_aux, shr_fexp. cbn [Zdigits2]. rewrite Hm.
  assert (fexp prec emax (53 + e) - e = 0) as ->
    by (unfold fexp, emin, prec, emax; lia).
  cbn [shr shr_record_of_loc shr_m loc_of_shr_record round_nearest_even Zdigits2]. rewrite Hm.
  assert (fexp prec emax (53 + e) - e = 0) as ->
    by (unfold fexp, emin, prec, emax; lia).
  cbn [shr shr_record_of_loc shr_m].
  destruct (Z.leb_spec e (emax - prec)) as [|H]; [done|]. unfold emax, prec in H. lia.
Qed.

(** The mantissa and exponent of a positive integer below [2^53]. *)
Lemma of_Z_exact p :
  Zpos p < 2 ^ 53 →
  ∃ m, of_Z (Zpos p) = S754_finite false m (Zpos (digits2_pos p) - 53) ∧
       Zpos m = Zpos p * 2 ^ (53 - Zpos (digits2_pos p)).
Proof.
  intros Hp. pose proof (digits2_small p Hp) as Hd.
  unfold of_Z, binary_normalize, binary_round.
  assert (fexp prec emax (Zpos (digits2_pos p) + 0) = Zpos (digits2_pos p) - 53) as ->
    by (unfold fexp, emin, prec, emax; lia).
  unfold shl_align. rewrite Z.sub_0_r.
  destruct (Zpos (digits2_pos p) - 53) as [|d|d] eqn:E; [|lia|].
  - exists p. rewrite binary_round_aux_exact by lia. split; [done|].
    replace (53 - Zpos (digits2_pos p)) with 0 by lia. lia.
  - exists (Pos.iter xO p d). rewrite binary_round_aux_exact; [|rewrite digits2_iter_xO; lia|lia].
    split; [done|]. rewrite iter_xO_value. f_equal. f_equal. lia.
Qed.

Lemma of_Z_compare a b :
  0 < a < 2 ^ 53 → 0 < b < 2 ^ 53 → SFcompare (of_Z a) (of_Z b) = Some (a ?= b).
Proof.
  intros Ha Hb. destruct a as [|p|]; [lia| |lia]. destruct b as [|q|]; [lia| |lia].
  destruct (of_Z_exact p ltac:(lia)) as (m & -> & Hm).
  destruct (of_Z_exact q ltac:(lia)) as (n & -> & Hn). cbn [SFcompare]. f_equal.
  pose proof (digits2_pos_bounds p) as [Hp1 Hp2]. pose proof (digits2_pos_bounds q) as [Hq1 Hq2].
  destruct (Z.compare_spec (Zpos (digits2_pos p) - 53) (Zpos (digits2_pos q) - 53)) as [E|E|E].
  - change (Pos.compare_cont Eq m n) with (Zpos m ?= Zpos n). rewrite Hm, Hn.
    replace (Zpos (digits2_pos q)) with (Zpos (digits2_pos p)) by lia.
    pose proof (digits2_small p ltac:(lia)).
    rewrite <- Zmult_compare_compat_r; [done|]. pose proof (Z.pow_pos_nonneg 2 (53 - Zpos (digits2_pos p))). lia.
  - symmetry. apply Z.compare_lt_iff.
    assert (2 ^ Zpos (digits2_pos p) ≤ 2 ^ (Zpos (digits2_pos q) - 1)) by (apply Z.pow_le_mono_r; lia). lia.
  - symmetry. apply Z.compare_gt_iff.
    assert (2 ^ Zpos (digits2_pos q) ≤ 2 ^ (Zpos (digits2_pos p) - 1)) by (apply Z.pow_le_mono_r; lia). lia.
Qed.

Lemma of_Z_fle a b :
  0 < a < 2 ^ 53 → 0 < b < 2 ^ 53 → fle (of_Z a) (of_Z b) = (a <=? b).
Proof.
  intros Ha Hb. unfold fle, SFleb. rewrite of_Z_compare by done. unfold Z.leb. by destruct (a ?= b).
Qed.

Lemma of_Z_flt a b :
  0 < a < 2 ^ 53 → 0 < b < 2 ^ 53 → flt (of_Z a) (of_Z b) = (a <? b).
Proof.
  intros Ha Hb. unfold flt, SFltb. rewrite of_Z_compare by done. unfold Z.ltb. by destruct (a ?= b).
Qed.
