(* ===== verification/GoTime.v ===== *)
(** * GoTime: the part of Go's [time] package the sources use

    A [time.Time] is modelled by its instant, in nanoseconds since the Unix
    epoch; every use in the sources is of the instant or of its UTC calendar
    fields.  A [time.Duration] is a signed 64-bit number of nanoseconds. *)

From S2P Require Import Prelude GoString Float64.
Local Open Scope Z_scope.

Definition Time := Z.
Definition Duration := Z.

Definition Nanosecond : Duration := 1.
Definition Millisecond : Duration := 1000000.
Definition Second : Duration := 1000000000.
Definition Minute : Duration := 60 * Second.
Definition Hour : Duration := 60 * Minute.

(** The zero [time.Time], January 1 of year 1, UTC. *)
Definition zero_time : Time := -62135596800 * Second.
Definition IsZero (t : Time) : bool := t =? zero_time.

Definition Before (t u : Time) : bool := t <? u.
Definition After (t u : Time) : bool := u <? t.
Definition Add (t : Time) (d : Duration) : Time := t + d.

(** [t.Sub(u)] saturates at the bounds of a [Duration]. *)
Definition Sub (t u : Time) : Duration :=
  Z.max int64_min (Z.min int64_max (t - u)).

(** [t.Unix()]: whole seconds, rounded down. *)
Definition Unix (t : Time) : Z := t / Second.

(** [d.Milliseconds()]: integer division truncates toward zero. *)
Definition Milliseconds (d : Duration) : Z := Z.quot d Millisecond.

(** [d.Seconds()] and [d.Hours()]: whole units plus the remainder. *)
Definition Seconds (d : Duration) : float64 :=
  fadd (of_Z (Z.quot d Second)) (fdiv (of_Z (Z.rem d Second)) (of_Z 1000000000)).
Definition Hours (d : Duration) : float64 :=
  fadd (of_Z (Z.quot d Hour)) (fdiv (of_Z (Z.rem d Hour)) (of_Z 3600000000000)).

(** ** UTC calendar fields (proleptic Gregorian calendar) *)

Record civil := Civil { c_year : Z; c_month : Z; c_day : Z }.

(** Year of the 400-year era, month index from March and day, from the day of
    the era. *)
Definition doe_fields (doe : Z) : Z * Z * Z :=
  let yoe := (doe - doe / 1460 + doe / 36524 - doe / 146096) / 365 in
  let doy := doe - (365 * yoe + yoe / 4 - yoe / 100) in
  let mp := (5 * doy + 2) / 153 in
  (yoe, mp, doy - (153 * mp + 2) / 5 + 1).

Definition civil_of_days (days : Z) : civil :=
  let z := days + 719468 in
  let era := z / 146097 in
  let '(yoe, mp, d) := doe_fields (z mod 146097) in
  let m := if mp <? 10 then mp + 3 else mp - 9 in
  Civil (yoe + era * 400 + (if m <=? 2 then 1 else 0)) m d.

Definition days_of_civil (c : civil) : Z :=
  let y := c_year c - (if c_month c <=? 2 then 1 else 0) in
  let era := y / 400 in
  let yoe := y mod 400 in
  let mp := if c_month c <=? 2 then c_month c + 9 else c_month c - 3 in
  let doy := (153 * mp + 2) / 5 + c_day c - 1 in
  era * 146097 + (yoe * 365 + yoe / 4 - yoe / 100 + doy) - 719468.

Definition day_ns : Z := 24 * Hour.
Definition date_of (t : Time) : civil := civil_of_days (t / day_ns).
Definition hour_of (t : Time) : Z := (t mod day_ns) / Hour.
Definition minute_of (t : Time) : Z := (t mod Hour) / Minute.

(** ** [Format] with a purely numeric layout *)

Fixpoint zeros (n : nat) : string :=
  match n with O => "" | S n' => String "0" (zeros n') end.

(** [appendInt(b, x, width)] of the time package. *)
Definition append_int (x : Z) (width : nat) : string :=
  let s := pretty (Z.to_N (Z.abs x)) in
  (if x <? 0 then "-" else "") +:+ zeros (width - String.length s) +:+ s.

(** ** The calendar round trip

    The year of the era is a monotone function of the day of the era, so
    checking it at the first and last day of each of the 400 years is enough;
    the month and day are checked on the 366 days of a year. *)

Definition year_start (yoe : Z) : Z := 365 * yoe + yoe / 4 - yoe / 100.
Definition doe_year (doe : Z) : Z :=
  (doe - doe / 1460 + doe / 36524 - doe / 146096) / 365.

Fixpoint all_below (n : nat) (P : Z → bool) (from : Z) : bool :=
  match n with
  | O => true
  | S n' => P from && all_below n' P (from + 1)
  end.

Lemma all_below_spec n P from :
  all_below n P from = true → ∀ z, from ≤ z < from + Z.of_nat n → P z = true.
Proof.
  revert from. induction n as [|n IH]; simpl; intros from H z Hz; [lia|].
  apply andb_prop in H as [H1 H2].
  destruct (Z.eq_dec z from) as [->|]; [done|]. apply (IH (from + 1)); [done|lia].
Qed.

(** First and last day of year [y] of the era; the last year has a leap day. *)
Definition year_end (y : Z) : Z := if y =? 399 then 146097 else year_start (y + 1).

Definition year_ok (y : Z) : bool :=
  (doe_year (year_start y) =? y) && (doe_year (year_end y - 1) =? y) &&
  (year_end y - year_start y <=? 366) && (year_end (y - 1) =? year_start y).

Lemma years_ok : all_below 399 year_ok 1 = true.
Proof. vm_compute. reflexivity. Qed.

Lemma year_0_ok : doe_year 0 = 0 ∧ doe_year 364 = 0 ∧ year_start 0 = 0 ∧ year_end 0 = 365.
Proof. vm_compute. auto. Qed.

Definition doy_ok (doy : Z) : bool :=
  let mp := (5 * doy + 2) / 153 in
  let d := doy - (153 * mp + 2) / 5 + 1 in
  (0 <=? mp) && (mp <? 12) && (1 <=? d) && (d <=? 31).

Lemma doys_ok : all_below 366 doy_ok 0 = true.
Proof. vm_compute. reflexivity. Qed.

Lemma doe_year_step doe : 0 ≤ doe → doe_year doe ≤ doe_year (doe + 1).
Proof.
  intros H. unfold doe_year. apply Z.div_le_mono; [lia|].
  Z.div_mod_to_equations. lia.
Qed.

Lemma doe_year_mono doe (n : nat) : 0 ≤ doe → doe_year doe ≤ doe_year (doe + Z.of_nat n).
Proof.
  intros H. induction n as [|n IH]; [rewrite Z.add_0_r; lia|].
  etrans; [exact IH|]. rewrite Nat2Z.inj_succ.
  replace (doe + Z.succ (Z.of_nat n)) with (doe + Z.of_nat n + 1) by lia.
  apply doe_year_step; lia.
Qed.

Lemma doe_year_le a b : 0 ≤ a ≤ b → doe_year a ≤ doe_year b.
Proof.
  intros H. replace b with (a + Z.of_nat (Z.to_nat (b - a))) by lia.
  apply doe_year_mono; lia.
Qed.

(** Every day of the era lies in one of its years. *)
Lemma doe_in_year (n : nat) doe :
  (n < 400)%nat → 0 ≤ doe < year_end (Z.of_nat n) →
  ∃ y, 0 ≤ y ≤ Z.of_nat n ∧ year_start y ≤ doe < year_end y.
Proof.
  destruct year_0_ok as (_ & _ & S0 & E0).
  induction n as [|n IH]; intros Hn Hd.
  - exists 0. change (Z.of_nat 0) with 0 in *. lia.
  - pose proof (all_below_spec _ _ _ years_ok (Z.of_nat (S n)) ltac:(lia)) as Hy.
    unfold year_ok in Hy. repeat (apply andb_prop in Hy as [Hy ?]). reflect_bools.
    replace (Z.of_nat (S n) - 1) with (Z.of_nat n) in * by lia.
    destruct (Z.lt_ge_cases doe (year_end (Z.of_nat n))) as [Hlt|Hge].
    + destruct IH as (y & ? & ?); [lia..|]. exists y. lia.
    + exists (Z.of_nat (S n)). lia.
Qed.

Lemma doe_fields_spec doe :
  0 ≤ doe < 146097 →
  let '(yoe, mp, d) := doe_fields doe in
  0 ≤ yoe < 400 ∧ 0 ≤ mp < 12 ∧ 1 ≤ d ≤ 31 ∧
  yoe * 365 + yoe / 4 - yoe / 100 + ((153 * mp + 2) / 5 + d - 1) = doe.
Proof.
  intros Hdoe. destruct (doe_in_year 399 doe) as (y & Hy & Hin); [lia|exact Hdoe|].
  assert (doe_year doe = y ∧ year_end y - year_start y ≤ 366) as [Hyoe Hlen].
  { destruct year_0_ok as (D0 & D1 & S0 & E0).
    destruct (Z.eq_dec y 0) as [->|Hne].
    - rewrite S0, E0 in *. split; [|lia].
      pose proof (doe_year_le 0 doe ltac:(lia)). pose proof (doe_year_le doe 364 ltac:(lia)). lia.
    - pose proof (all_below_spec _ _ _ years_ok y ltac:(lia)) as Hok.
      unfold year_ok in Hok. repeat (apply andb_prop in Hok as [Hok ?]). reflect_bools.
      split; [|lia].
      assert (0 ≤ year_start y) by (unfold year_start; Z.div_mod_to_equations; lia).
      pose proof (doe_year_le (year_start y) doe ltac:(lia)).
      pose proof (doe_year_le doe (year_end y - 1) ltac:(lia)). lia. }
  unfold doe_fields. fold (doe_year doe). rewrite Hyoe.
  change (365 * y + y / 4 - y / 100) with (year_start y).
  pose proof (all_below_spec _ _ _ doys_ok (doe - year_start y) ltac:(lia)) as Hd.
  unfold doy_ok in Hd. repeat (apply andb_prop in Hd as [Hd ?]). reflect_bools.
  split; [lia|]. split; [lia|]. split; [lia|]. unfold year_start. lia.
Qed.

Lemma days_of_civil_of_days days : days_of_civil (civil_of_days days) = days.
Proof.
  unfold civil_of_days.
  pose proof (Z.mod_pos_bound (days + 719468) 146097 ltac:(lia)) as Hb.
  pose proof (Z.div_mod (days + 719468) 146097 ltac:(lia)) as Hdm.
  set (era := (days + 719468) / 146097) in *.
  set (doe := (days + 719468) mod 146097) in *.
  pose proof (doe_fields_spec doe Hb) as Hok.
  destruct (doe_fields doe) as [[yoe mp] d]. destruct Hok as (? & ? & ? & ?).
  unfold days_of_civil; cbn [c_year c_month c_day].
  destruct (mp <? 10) eqn:Hmp; reflect_bools.
  - replace (mp + 3 <=? 2) with false by (symmetry; apply Z.leb_gt; lia).
    replace (yoe + era * 400 + 0 - 0) with (yoe + era * 400) by lia.
    rewrite Z.div_add, Z.mod_add, (Z.div_small yoe), (Z.mod_small yoe) by lia.
    replace (mp + 3 - 3) with mp by lia. lia.
  - replace (mp - 9 <=? 2) with true by (symmetry; apply Z.leb_le; lia).
    replace (yoe + era * 400 + 1 - 1) with (yoe + era * 400) by lia.
    rewrite Z.div_add, Z.mod_add, (Z.div_small yoe), (Z.mod_small yoe) by lia.
    replace (mp - 9 + 9) with mp by lia. lia.
Qed.

Lemma civil_of_days_inj d d' : civil_of_days d = civil_of_days d' → d = d'.
Proof. intros H. by rewrite <- (days_of_civil_of_days d), H, days_of_civil_of_days. Qed.

Lemma civil_of_days_range days :
  let c := civil_of_days days in 1 ≤ c_month c ≤ 12 ∧ 1 ≤ c_day c ≤ 31.
Proof.
  unfold civil_of_days.
  pose proof (Z.mod_pos_bound (days + 719468) 146097 ltac:(lia)) as Hb.
  pose proof (doe_fields_spec _ Hb) as Hok.
  destruct (doe_fields _) as [[yoe mp] d]. destruct Hok as (? & ? & ? & ?).
  cbn [c_month c_day]. destruct (mp <? 10) eqn:Hmp; reflect_bools; lia.
Qed.

(** ** Fixed-width numerals are injective *)

Definition digit_val (c : ascii) : Z := Z.of_nat (nat_of_ascii c) - 48.
Fixpoint num_val (acc : Z) (s : string) : Z :=
  match s with
  | "" => acc
  | String c s' => num_val (10 * acc + digit_val c) s'
  end.

Definition fixed_ok (width : nat) (z : Z) : bool :=
  (num_val 0 (append_int z width) =? z) && Nat.eqb (String.length (append_int z width)) width.

Lemma fixed2_ok : all_below 100 (fixed_ok 2) 0 = true.
Proof. vm_compute. reflexivity. Qed.
Lemma append_int_2 z : 0 ≤ z < 100 →
  num_val 0 (append_int z 2) = z ∧ String.length (append_int z 2) = 2%nat.
Proof.
  intros Hz. pose proof (all_below_spec _ _ _ fixed2_ok z ltac:(lia)) as H.
  apply andb_prop in H as [H1 H2]. by apply Z.eqb_eq in H1; apply Nat.eqb_eq in H2.
Qed.

Lemma pretty_N_go_digit x s :
  (0 < x < 10)%N → pretty_N_go x s = String (pretty_N_char x) s.
Proof.
  intros H. rewrite pretty_N_go_step by lia.
  rewrite N.div_small, N.mod_small by lia. done.
Qed.

Lemma append_int_4 z : 1000 ≤ z < 10000 →
  append_int z 4 = pretty (Z.to_N z) ∧ String.length (append_int z 4) = 4%nat.
Proof.
  intros Hz. unfold append_int. rewrite Z.abs_eq by lia.
  replace (z <? 0) with false by (symmetry; apply Z.ltb_ge; lia).
  assert (String.length (pretty (Z.to_N z)) = 4%nat) as L.
  { unfold pretty, pretty_N. rewrite decide_False by lia.
    set (x := Z.to_N z). assert (1000 ≤ x < 10000)%N as Hx by lia. clearbody x.
    assert (100 ≤ x / 10 < 1000)%N by
      (split; [apply N.div_le_lower_bound; lia | apply N.Div0.div_lt_upper_bound; lia]).
    assert (10 ≤ x / 10 / 10 < 100)%N by
      (split; [apply N.div_le_lower_bound; lia | apply N.Div0.div_lt_upper_bound; lia]).
    assert (1 ≤ x / 10 / 10 / 10 < 10)%N by
      (split; [apply N.div_le_lower_bound; lia | apply N.Div0.div_lt_upper_bound; lia]).
    rewrite pretty_N_go_step by lia. rewrite pretty_N_go_step by lia.
    rewrite pretty_N_go_step by lia. rewrite pretty_N_go_digit by lia. done. }
  rewrite L. done.
Qed.

Lemma append_int_2_app_inj z z' s s' :
  0 ≤ z < 100 → 0 ≤ z' < 100 →
  append_int z 2 +:+ s = append_int z' 2 +:+ s' → z = z' ∧ s = s'.
Proof.
  intros Hz Hz' Heq.
  destruct (append_int_2 z Hz) as [V L], (append_int_2 z' Hz') as [V' L'].
  destruct (app_length_inj _ _ _ _ (eq_trans L (eq_sym L')) Heq) as [E ->].
  split; [congruence|done].
Qed.

Lemma append_int_4_app_inj z z' s s' :
  1000 ≤ z < 10000 → 1000 ≤ z' < 10000 →
  append_int z 4 +:+ s = append_int z' 4 +:+ s' → z = z' ∧ s = s'.
Proof.
  intros Hz Hz' Heq.
  destruct (append_int_4 z Hz) as [V L], (append_int_4 z' Hz') as [V' L'].
  destruct (app_length_inj _ _ _ _ (eq_trans L (eq_sym L')) Heq) as [E ->].
  rewrite V, V' in E. apply (inj pretty) in E. split; [lia|done].
Qed.

(** Numerals of non-negative numbers have only digits. *)
Lemma append_int_no_byte b z w :
  is_digit b = false → 0 ≤ z → ¬ byte_in b (append_int z w).
Proof.
  intros Hb Hz. unfold append_int.
  replace (z <? 0) with false by (symmetry; apply Z.ltb_ge; lia).
  rewrite !byte_in_app. intros [[]|[H|H]].
  - revert H. generalize (w - String.length (pretty (Z.to_N (Z.abs z))))%nat.
    intros n. induction n as [|n IH]; simpl; [done|].
    intros [<-|?]; [done|auto].
  - pose proof (Itoa_digits (N.to_nat (Z.to_N (Z.abs z))) b Hb) as Hd.
    unfold Itoa, pretty, pretty_nat in Hd. rewrite N2Nat.id in Hd. done.
Qed.
