(* ===== verification/GoSort.v ===== *)
(** * GoSort: [sort.SliceStable]

    Insertion sort, moving an element left while it is less than its left
    neighbour: what Go runs on slices of up to 20 elements, and block by block
    before merging on longer ones.  For a strict weak order the result of a
    stable sort is unique, so the longer slices give the same list. *)

From stdpp Require Import sorting.
From S2P Require Import Prelude.

Section Stable.
Context {A : Type} (less : A → A → bool).

Fixpoint insert_left (x : A) (rev_prefix : list A) : list A :=
  match rev_prefix with
  | [] => [x]
  | y :: ys => if less x y then y :: insert_left x ys else x :: y :: ys
  end.

Definition insert_all (l acc : list A) : list A :=
  foldl (fun acc x => insert_left x acc) acc l.

Definition SliceStable (l : list A) : list A := reverse (insert_all l []).

Lemma insert_left_perm x acc : insert_left x acc ≡ₚ x :: acc.
Proof.
  induction acc as [|y acc IH]; simpl; [done|].
  destruct (less x y); [|done]. rewrite IH. apply Permutation_swap.
Qed.

Lemma insert_all_perm l acc : insert_all l acc ≡ₚ l ++ acc.
Proof.
  revert acc. induction l as [|x l IH]; intros acc; simpl; [done|].
  unfold insert_all in *. simpl. rewrite IH, insert_left_perm. by rewrite Permutation_middle.
Qed.

Lemma SliceStable_perm l : SliceStable l ≡ₚ l.
Proof. unfold SliceStable. by rewrite reverse_Permutation, insert_all_perm, app_nil_r. Qed.

(** The comparison is a strict weak order on the elements satisfying [P]. *)
Context (P : A → Prop).
Hypothesis less_asymm : ∀ x y, less x y = true → less y x = false.
Hypothesis less_weak : ∀ x y z, P x → P y → P z →
  less x z = true → less x y = true ∨ less y z = true.

Lemma insert_left_Forall x acc : P x → Forall P acc → Forall P (insert_left x acc).
Proof. intros Hx Hf. rewrite insert_left_perm. by constructor. Qed.

Lemma insert_left_sorted x acc :
  P x → Forall P acc → StronglySorted (fun y z => less y z = false) acc →
  StronglySorted (fun y z => less y z = false) (insert_left x acc).
Proof.
  intros Hx Hf Hs. induction Hs as [|y acc Hs IH Hy]; simpl; [by repeat constructor|].
  inversion Hf as [|? ? Py Pf]; subst. destruct (less x y) eqn:E.
  - constructor; [auto|]. rewrite insert_left_perm. constructor; [auto|done].
  - constructor; [by constructor|]. constructor; [done|].
    rewrite Forall_forall in Hy |- *. intros z Hz. specialize (Hy z Hz).
    rewrite Forall_forall in Pf. destruct (less x z) eqn:Exz; [|done].
    destruct (less_weak x y z Hx Py (Pf z Hz) Exz); congruence.
Qed.

Lemma insert_all_sorted l acc :
  Forall P l → Forall P acc → StronglySorted (fun y z => less y z = false) acc →
  StronglySorted (fun y z => less y z = false) (insert_all l acc).
Proof.
  intros Hl. revert acc. induction Hl as [|x l Hx Hl IH]; intros acc Hf Hs; [done|].
  simpl. apply IH; auto using insert_left_Forall, insert_left_sorted.
Qed.

Lemma StronglySorted_reverse (R : relation A) (l : list A) :
  StronglySorted R l → StronglySorted (flip R) (reverse l).
Proof.
  induction 1 as [|x l Hs IH Hx]; [constructor|].
  rewrite reverse_cons. apply StronglySorted_app_2; [|done|by repeat constructor].
  intros y z Hy Hz. apply list_elem_of_singleton in Hz as ->.
  rewrite elem_of_reverse in Hy. rewrite Forall_forall in Hx. unfold flip. by apply Hx.
Qed.

Lemma SliceStable_sorted l :
  Forall P l → StronglySorted (fun y z => less z y = false) (SliceStable l).
Proof.
  intros Hl. apply StronglySorted_reverse, insert_all_sorted; [done|constructor..].
Qed.

(** Elements equivalent to [s]. *)
Definition eqv (s x : A) : Prop := less s x = false ∧ less x s = false.
#[global] Instance eqv_dec s x : Decision (eqv s x).
Proof. apply _. Defined.

Lemma insert_left_filter s x acc :
  P s → P x → Forall P acc →
  filter (eqv s) (insert_left x acc) = filter (eqv s) (x :: acc).
Proof.
  intros Hs Hx Hf. induction Hf as [|y acc Hy Hf IH]; [done|]. simpl insert_left.
  destruct (less x y) eqn:E; [|done].
  rewrite !filter_cons in *. rewrite IH. repeat case_decide; try done.
  destruct H as [Hsy Hys], H0 as [Hsx Hxs].
  destruct (less_weak x s y Hx Hs Hy E); congruence.
Qed.

Lemma insert_all_filter s l acc :
  P s → Forall P l → Forall P acc →
  filter (eqv s) (insert_all l acc) = reverse (filter (eqv s) l) ++ filter (eqv s) acc.
Proof.
  intros Hs Hl. revert acc. induction Hl as [|x l Hx Hl IH]; intros acc Hf; [done|].
  simpl. rewrite IH by auto using insert_left_Forall.
  rewrite insert_left_filter, !filter_cons by done. case_decide; [|done].
  by rewrite reverse_cons, <- app_assoc.
Qed.

Lemma filter_reverse (Q : A → Prop) `{!∀ x, Decision (Q x)} (l : list A) :
  filter Q (reverse l) = reverse (filter Q l).
Proof.
  induction l as [|x l IH]; [done|]. rewrite reverse_cons, filter_app, IH, !filter_cons.
  case_decide; simpl; [by rewrite reverse_cons|by rewrite app_nil_r].
Qed.

(** Stability: equivalent elements keep their order. *)
Lemma SliceStable_stable s l :
  P s → Forall P l → filter (eqv s) (SliceStable l) = filter (eqv s) l.
Proof.
  intros Hs Hl. unfold SliceStable.
  rewrite filter_reverse, insert_all_filter by (done || constructor).
  by rewrite app_nil_r, reverse_involutive.
Qed.
End Stable.
