(* ===== verification/Net.v ===== *)
(** * Net: the part of Go's [net], [net/netip] and [strings] the policies use

    Addresses, prefixes and their textual forms as [net/netip] parses them (which
    [net.ParseIP] calls too), [net.SplitHostPort], and ASCII case folding.  The
    zone of an IPv6 address is kept: [Prefix.Contains] is false for an address
    with a zone, which matters to the code that relies on it. *)

From S2P Require Import Prelude GoString.
Local Open Scope string_scope.
Local Open Scope Z_scope.

(** ** Case *)

Definition lower_byte (c : ascii) : ascii :=
  let n := nat_of_ascii c in
  if ((65 <=? n) && (n <=? 90))%nat then ascii_of_nat (n + 32) else c.

(** [strings.ToLower] of ASCII text; [strings.EqualFold] of ASCII texts. *)
Fixpoint ToLower (s : string) : string :=
  match s with
  | "" => ""
  | String c s' => String (lower_byte c) (ToLower s')
  end.

(** The ASCII part of [strings.EqualFold]; that the Kelvin sign folds onto k, the long
    s onto s and other letters onto each other is left out. *)
Definition EqualFold (s t : string) : bool := String.eqb (ToLower s) (ToLower t).

(** ** Addresses *)

(** [netip.Addr]: 32 or 128 bits, the latter with a zone ([""] is none). *)
Inductive Addr :=
| Addr4 (a : Z)
| Addr6 (a : Z) (zone : string).

#[export] Instance Addr_eq_dec : EqDecision Addr.
Proof. solve_decision. Defined.

Definition Is4 (x : Addr) : bool := match x with Addr4 _ => true | Addr6 _ _ => false end.
Definition Is6 (x : Addr) : bool := negb (Is4 x).
Definition Zone (x : Addr) : string := match x with Addr4 _ => "" | Addr6 _ z => z end.
Definition WithoutZone (x : Addr) : Addr := match x with Addr4 a => Addr4 a | Addr6 a _ => Addr6 a "" end.
Definition addr_bits (x : Addr) : Z := match x with Addr4 a | Addr6 a _ => a end.

(** The value fits its width. *)
Definition valid_addr (x : Addr) : Prop :=
  match x with
  | Addr4 a => 0 ≤ a < 2 ^ 32
  | Addr6 a _ => 0 ≤ a < 2 ^ 128
  end.

(** The prefix [::ffff:0:0/96]. *)
Definition Is4In6 (x : Addr) : bool :=
  match x with
  | Addr4 _ => false
  | Addr6 a _ => Z.shiftr a 32 =? 65535
  end.

Definition Unmap (x : Addr) : Addr :=
  match x with
  | Addr6 a _ => if Is4In6 x then Addr4 (Z.land a (Z.ones 32)) else x
  | Addr4 _ => x
  end.

Definition IsLoopback (x : Addr) : bool :=
  match Unmap x with
  | Addr4 a => Z.shiftr a 24 =? 127
  | Addr6 a _ => a =? 1
  end.

(** [169.254.0.0/16] and [fe80::/10]. *)
Definition IsLinkLocalUnicast (x : Addr) : bool :=
  match Unmap x with
  | Addr4 a => Z.shiftr a 16 =? 169 * 256 + 254
  | Addr6 a _ => Z.shiftr a 118 =? 1018
  end.

(** [224.0.0.0/24] and [ff02::/16] up to the flag bits. *)
Definition IsLinkLocalMulticast (x : Addr) : bool :=
  match Unmap x with
  | Addr4 a => Z.shiftr a 8 =? 224 * 65536
  | Addr6 a _ => Z.land (Z.shiftr a 112) 65295 =? 65282
  end.

(** ** Prefixes *)

(** [netip.PrefixFrom] drops the zone; here its callers do. *)
Record Prefix := PrefixFrom { p_Addr : Addr; p_Bits : Z }.

#[export] Instance Prefix_eq_dec : EqDecision Prefix.
Proof. solve_decision. Defined.

Definition width (x : Addr) : Z := if Is4 x then 32 else 128.

(** [Prefix.Contains]: never across families, and never for an address with a
    zone. *)
Definition PrefixContains (p : Prefix) (x : Addr) : bool :=
  String.eqb (Zone x) "" && Bool.eqb (Is4 (p_Addr p)) (Is4 x) &&
  (Z.shiftr (addr_bits x) (width x - p_Bits p) =? Z.shiftr (addr_bits (p_Addr p)) (width x - p_Bits p)).

Definition Masked_prefix (p : Prefix) : Prefix :=
  let sh := width (p_Addr p) - p_Bits p in
  let m a := Z.shiftl (Z.shiftr a sh) sh in
  PrefixFrom (match p_Addr p with Addr4 a => Addr4 (m a) | Addr6 a z => Addr6 (m a) z end) (p_Bits p).

(** ** Parsing *)

Definition digit_val (c : ascii) : option Z :=
  let n := nat_of_ascii c in
  if ((48 <=? n) && (n <=? 57))%nat then Some (Z.of_nat n - 48) else None.

Definition hex_val (c : ascii) : option Z :=
  let n := nat_of_ascii c in
  if ((48 <=? n) && (n <=? 57))%nat then Some (Z.of_nat n - 48)
  else if ((97 <=? n) && (n <=? 102))%nat then Some (Z.of_nat n - 87)
  else if ((65 <=? n) && (n <=? 70))%nat then Some (Z.of_nat n - 55)
  else None.

(** A decimal octet: digits, no leading zero, at most 255. *)
Fixpoint octet_digits (acc : Z) (s : string) : option Z :=
  match s with
  | "" => Some acc
  | String c s' =>
      match digit_val c with
      | None => None
      | Some d => if acc =? 0 then None else
                  let v := acc * 10 + d in if 255 <? v then None else octet_digits v s'
      end
  end.

Definition octet (s : string) : option Z :=
  match s with
  | "" => None
  | String c "" => digit_val c
  | String c s' => match digit_val c with Some d => octet_digits d s' | None => None end
  end.

Definition parseIPv4 (s : string) : option Z :=
  match octet <$> Split s "." with
  | [Some a; Some b; Some c; Some d] => Some (((a * 256 + b) * 256 + c) * 256 + d)
  | _ => None
  end.

(** One hexadecimal group: its value, how many digits, the rest. *)
Fixpoint hex_group (acc : Z) (off : nat) (s : string) : option (Z * nat * string) :=
  match s with
  | "" => Some (acc, off, "")
  | String c s' =>
      match hex_val c with
      | None => Some (acc, off, s)
      | Some d => if (3 <? off)%nat then None else hex_group (acc * 16 + d) (S off) s'
      end
  end.

(** The loop of [parseIPv6]: the 16-bit groups read so far, where the [::] stands
    among them, and what is left when the loop stops.  Each round appends a
    group and there are at most eight, so [fuel] is eight. *)
Fixpoint v6_loop (fuel : nat) (groups : list Z) (ellipsis : option nat) (s : string) :
    option (list Z * option nat * string) :=
  match fuel with
  | O => Some (groups, ellipsis, s)
  | S fuel' =>
      match hex_group 0 0 s with
      | None => None
      | Some (acc, off, rest) =>
          if (off =? 0)%nat then None
          else
            let n := length groups in
            match rest with
            | "" => Some ((groups ++ [acc])%list, ellipsis, "")
            | String c rest' =>
                if Ascii.eqb c "." then
                  if match ellipsis with None => negb (n =? 6)%nat | Some _ => false end then None
                  else if (6 <? n)%nat then None
                  else match parseIPv4 s with
                       | None => None
                       | Some v => Some ((groups ++ [Z.shiftr v 16; Z.land v 65535])%list, ellipsis, "")
                       end
                else if negb (Ascii.eqb c ":") then None
                else
                  let groups' := (groups ++ [acc])%list in
                  match rest' with
                  | "" => None
                  | String c2 rest2 =>
                      if Ascii.eqb c2 ":" then
                        match ellipsis with
                        | Some _ => None
                        | None =>
                            match rest2 with
                            | "" => Some (groups', Some (S n), "")
                            | _ => v6_loop fuel' groups' (Some (S n)) rest2
                            end
                        end
                      else v6_loop fuel' groups' ellipsis rest'
                  end
            end
      end
  end.

Definition combine_groups (l : list Z) : Z := foldl (fun acc g => acc * 65536 + g) 0 l.

Definition v6_finish (r : list Z * option nat * string) : option Z :=
  let '(groups, ellipsis, rest) := r in
  if negb (String.eqb rest "") then None
  else
    let n := length groups in
    match ellipsis with
    | None => if (n =? 8)%nat then Some (combine_groups groups) else None
    | Some k => if (n <? 8)%nat
                then Some (combine_groups (take k groups ++ replicate (8 - n) 0 ++ drop k groups))
                else None
    end.

Definition parseIPv6_body (s : string) : option Z :=
  if HasPrefix s "::" then
    let s' := drop_bytes 2 s in
    if String.eqb s' "" then Some 0 else v6_loop 8 [] (Some 0%nat) s' ≫= v6_finish
  else v6_loop 8 [] None s ≫= v6_finish.

Definition parseIPv6 (s : string) : option Addr :=
  match Cut s "%" with
  | None => (fun a => Addr6 a "") <$> parseIPv6_body s
  | Some (body, zone) => if String.eqb zone "" then None else (fun a => Addr6 a zone) <$> parseIPv6_body body
  end.

(** The first of [.], [:] and [%] decides the family. *)
Fixpoint addr_kind (s : string) : option ascii :=
  match s with
  | "" => None
  | String c s' =>
      if Ascii.eqb c "." || Ascii.eqb c ":" || Ascii.eqb c "%" then Some c else addr_kind s'
  end.

Definition ParseAddr (s : string) : option Addr :=
  match addr_kind s with
  | Some c => if Ascii.eqb c "." then Addr4 <$> parseIPv4 s
              else if Ascii.eqb c ":" then parseIPv6 s else None
  | None => None
  end.

(** The value of decimal digits. *)
Fixpoint decimal (acc : Z) (s : string) : option Z :=
  match s with
  | "" => Some acc
  | String c s' => match digit_val c with Some d => decimal (acc * 10 + d) s' | None => None end
  end.

(** [strconv.Atoi]: a sign or none, decimal digits, the range of [int]. *)
Definition Atoi (s : string) : option Z :=
  let '(neg, ds) := match s with
                    | String c s' => if Ascii.eqb c "-" then (true, s') else if Ascii.eqb c "+" then (false, s') else (false, s)
                    | "" => (false, "")
                    end in
  if String.eqb ds "" then None
  else match decimal 0 ds with
       | None => None
       | Some n => let n := if (neg : bool) then - n else n in
                   if (int64_min <=? n) && (n <=? int64_max) then Some n else None
       end.

Definition prefix_bits (s : string) : option Z :=
  match s with
  | "" => None
  | String c "" => digit_val c
  | String c _ => if Ascii.eqb c "0" then None else decimal 0 s
  end.

Definition ParsePrefix (s : string) : option Prefix :=
  match LastIndex s "/" with
  | None => None
  | Some i =>
      match ParseAddr (take_bytes i s) with
      | None => None
      | Some a =>
          if negb (String.eqb (Zone a) "") then None
          else match prefix_bits (drop_bytes (S i) s) with
               | None => None
               | Some b => if width a <? b then None else Some (PrefixFrom a b)
               end
      end
  end.

(** [net.ParseIP]: no zone; the result as the 16-byte form is compared, so an
    IPv4-mapped address and its IPv4 form are one. *)
Definition ParseIP (s : string) : option Addr :=
  match ParseAddr s with
  | Some a => if String.eqb (Zone a) "" then Some (Unmap a) else None
  | None => None
  end.

(** ** [net.SplitHostPort]: host and port, or [None] for its errors *)

Definition has_byte (b : ascii) (s : string) : bool :=
  match IndexByte s b with Some _ => true | None => false end.

Definition SplitHostPort (hostport : string) : option (string * string) :=
  match LastIndex hostport ":" with
  | None => None
  | Some i =>
      let port := drop_bytes (S i) hostport in
      if HasPrefix hostport "[" then
        match IndexByte hostport "]" with
        | None => None
        | Some e =>
            if negb (S e =? i)%nat then None
            else
              let host := take_bytes (e - 1) (drop_bytes 1 hostport) in
              if has_byte "[" (drop_bytes 1 hostport) || has_byte "]" (drop_bytes (S e) hostport) then None
              else Some (host, port)
        end
      else
        let host := take_bytes i hostport in
        if has_byte ":" host || has_byte "[" hostport || has_byte "]" hostport then None
        else Some (host, port)
  end.

(** ** Facts *)

Example parse_examples :
  ParseAddr "169.254.169.254" = Some (Addr4 2852039166) ∧
  ParseAddr "fd00:ec2::254%eth0" = Some (Addr6 (Z.shiftl 64768 112 + Z.shiftl 3778 96 + 596) "eth0") ∧
  ParseAddr "::ffff:10.0.0.1" = Some (Addr6 (Z.shiftl 65535 32 + 167772161) "") ∧
  ParseAddr "1.2.3.04" = None ∧ ParseAddr "1::2::3" = None ∧ ParseAddr "1:2:3:4:5:6:7::8" = None ∧
  ParsePrefix "10.0.0.0/8" = Some (PrefixFrom (Addr4 167772160) 8) ∧
  SplitHostPort "[::1]:80" = Some ("::1", "80") ∧ SplitHostPort "a:b:c" = None.
Proof. vm_compute. repeat split. Qed.

Lemma PrefixContains_zone p x : Zone x ≠ "" → PrefixContains p x = false.
Proof. intros H. unfold PrefixContains. by apply String.eqb_neq in H as ->. Qed.

Lemma Unmap_zone_free x : Zone x = "" → Zone (Unmap x) = "".
Proof. destruct x as [a|a z]; [done|]. intros H. unfold Unmap. by destruct (Is4In6 _). Qed.

Lemma Unmap_Unmap x : Unmap (Unmap x) = Unmap x.
Proof. destruct x as [a|a z]; [done|]. unfold Unmap. destruct (Is4In6 (Addr6 a z)) eqn:E; [done|]. by rewrite E. Qed.

(** ** Parsed addresses fit their width *)

Lemma digit_val_range c d : digit_val c = Some d → 0 ≤ d < 10.
Proof.
  unfold digit_val. case_match eqn:E; intros; simplify_eq.
  apply andb_prop in E as [E1%Nat.leb_le E2%Nat.leb_le]. lia.
Qed.

Lemma hex_val_range c d : hex_val c = Some d → 0 ≤ d < 16.
Proof.
  unfold hex_val. repeat case_match; intros; simplify_eq;
    repeat match goal with H : (_ && _) = true |- _ => apply andb_prop in H as [?%Nat.leb_le ?%Nat.leb_le] end; lia.
Qed.

Lemma octet_digits_range s : ∀ acc v, 0 ≤ acc ≤ 255 → octet_digits acc s = Some v → 0 ≤ v ≤ 255.
Proof.
  induction s as [|c s IH]; intros acc v Ha; cbn; [by intros [= <-]|].
  destruct (digit_val c) as [d|] eqn:Ed; [|done]. apply digit_val_range in Ed.
  destruct (acc =? 0); [done|]. destruct (Z.ltb_spec 255 (acc * 10 + d)); [done|]. apply IH. lia.
Qed.

Lemma octet_range s v : octet s = Some v → 0 ≤ v ≤ 255.
Proof.
  unfold octet. destruct s as [|c [|c' s]]; [done|intros H%digit_val_range; lia|].
  destruct (digit_val c) as [d|] eqn:Ed; [|done]. apply digit_val_range in Ed. apply octet_digits_range. lia.
Qed.

Lemma parseIPv4_range s v : parseIPv4 s = Some v → 0 ≤ v < 2 ^ 32.
Proof.
  unfold parseIPv4. intros H.
  destruct (octet <$> Split s ".") as [|[a|] [|[b|] [|[c|] [|[d|] [|]]]]] eqn:E; try done. injection H as <-.
  assert (Forall (fun o => ∀ x, o = Some x → 0 ≤ x ≤ 255) (octet <$> Split s ".")) as Hr.
  { apply Forall_fmap, Forall_forall. intros t _ x. apply octet_range. }
  rewrite E, !Forall_cons in Hr. destruct Hr as (Ha & Hb & Hc & Hd & _).
  specialize (Ha _ eq_refl). specialize (Hb _ eq_refl). specialize (Hc _ eq_refl). specialize (Hd _ eq_refl). lia.
Qed.

Definition group_range (g : Z) : Prop := 0 ≤ g < 65536.

Lemma hex_group_range s : ∀ acc off v n r, (off ≤ 4)%nat → 0 ≤ acc < 16 ^ Z.of_nat off →
  hex_group acc off s = Some (v, n, r) → group_range v.
Proof.
  assert (∀ acc off, (off ≤ 4)%nat → 0 ≤ acc < 16 ^ Z.of_nat off → group_range acc) as Hb.
  { intros acc off Ho Ha. unfold group_range.
    assert (16 ^ Z.of_nat off ≤ 16 ^ 4) by (apply Z.pow_le_mono_r; lia). lia. }
  induction s as [|c s IH]; intros acc off v n r Ho Ha; cbn [hex_group]; [intros [= <- _ _]; exact (Hb _ _ Ho Ha)|].
  destruct (hex_val c) as [d|] eqn:Ed; [|intros [= <- _ _]; by eapply Hb].
  apply hex_val_range in Ed. destruct (Nat.ltb_spec 3 off); [done|]. apply IH; [lia|].
  rewrite Nat2Z.inj_succ, Z.pow_succ_r by lia. lia.
Qed.

Lemma v6_loop_range fuel : ∀ gs e s gs' e' r,
  Forall group_range gs → v6_loop fuel gs e s = Some (gs', e', r) → Forall group_range gs'.
Proof.
  induction fuel as [|fuel IH]; intros gs e s gs' e' r Hgs; cbn [v6_loop]; [intros [= <- _ _]; exact Hgs|].
  destruct (hex_group 0 0 s) as [[[acc off] rest]|] eqn:Eh; [|done].
  apply hex_group_range in Eh; [|lia|cbn; lia]. destruct (off =? 0)%nat; [done|]. cbv zeta.
  assert (Forall group_range (gs ++ [acc])%list) as Hgs' by (apply Forall_app; split; [done|by constructor]).
  destruct rest as [|c rest']; [by intros [= <- _ _]|]. destruct (Ascii.eqb c ".").
  - intros H. destruct (parseIPv4 s) as [v|] eqn:E4; [|by repeat case_match]. apply parseIPv4_range in E4.
    assert (gs' = (gs ++ [Z.shiftr v 16; Z.land v 65535])%list) as -> by (repeat case_match; congruence). apply Forall_app. split; [done|]. constructor; [|constructor; [|constructor]]; unfold group_range.
    + rewrite Z.shiftr_div_pow2 by lia. change (2 ^ 16) with 65536. Z.div_mod_to_equations. lia.
    + change 65535 with (Z.ones 16). rewrite Z.land_ones by lia. apply Z.mod_pos_bound. lia.
  - case_match; [done|]. destruct rest' as [|c2 rest2]; [done|]. destruct (Ascii.eqb c2 ":"); [|by apply IH].
    destruct e; [done|]. destruct rest2; [by intros [= <- _ _]|by apply IH].
Qed.

Lemma combine_range gs : Forall group_range gs → 0 ≤ combine_groups gs < 65536 ^ Z.of_nat (length gs).
Proof.
  intros H. unfold combine_groups.
  assert (∀ acc n, 0 ≤ acc < 65536 ^ Z.of_nat n →
    0 ≤ foldl (fun acc g => acc * 65536 + g) acc gs < 65536 ^ Z.of_nat (n + length gs)) as Hg.
  { induction H as [|g gs Hg _ IH]; intros acc n Ha; cbn [foldl length]; [by rewrite Nat.add_0_r|].
    rewrite <- Nat.add_succ_comm. apply IH. unfold group_range in Hg. rewrite Nat2Z.inj_succ, Z.pow_succ_r; lia. }
  apply (Hg 0 0%nat). done.
Qed.

Lemma v6_finish_range gs e r a : Forall group_range gs → v6_finish (gs, e, r) = Some a → 0 ≤ a < 2 ^ 128.
Proof.
  intros Hgs. unfold v6_finish. case_match; [done|].
  assert (∀ l, Forall group_range l → length l = 8%nat → 0 ≤ combine_groups l < 2 ^ 128) as Hb.
  { intros l Hl Hlen. apply combine_range in Hl. rewrite Hlen in Hl. exact Hl. }
  destruct e as [k|].
  - destruct (Nat.ltb_spec (length gs) 8); [|done]. intros [= <-]. apply Hb.
    + repeat (apply Forall_app; split); [by apply Forall_take| |by apply Forall_drop].
      apply Forall_replicate. unfold group_range. lia.
    + rewrite !length_app, length_take, length_replicate, length_drop. lia.
  - destruct (Nat.eqb_spec (length gs) 8); [|done]. intros [= <-]. by apply Hb.
Qed.

Lemma ParseAddr_valid s a : ParseAddr s = Some a → valid_addr a.
Proof.
  unfold ParseAddr. destruct (addr_kind s) as [c|]; [|done]. destruct (Ascii.eqb c ".").
  { intros H. destruct (parseIPv4 s) eqn:E; [|done]. injection H as <-.
    by apply parseIPv4_range in E. }
  destruct (Ascii.eqb c ":"); [|done].
  assert (∀ t v, parseIPv6_body t = Some v → 0 ≤ v < 2 ^ 128) as Hb.
  { intros t v. unfold parseIPv6_body. destruct (HasPrefix t "::").
    - case_match; [intros [= <-]; lia|]. intros ([[gs e] r] & Hl & Hf)%bind_Some.
      eapply v6_finish_range; [|exact Hf]. by eapply v6_loop_range.
    - intros ([[gs e] r] & Hl & Hf)%bind_Some. eapply v6_finish_range; [|exact Hf]. by eapply v6_loop_range. }
  unfold parseIPv6. intros H. repeat case_match; try done;
    (destruct (parseIPv6_body _) eqn:E; [|done]); injection H as <-; by eapply Hb.
Qed.

Lemma valid_Unmap x : valid_addr x → valid_addr (Unmap x).
Proof.
  destruct x as [a|a z]; [done|]. intros H. unfold Unmap. destruct (Is4In6 _); [|done].
  cbn in *. rewrite Z.land_ones by lia. apply Z.mod_pos_bound. lia.
Qed.

Lemma ParseIP_valid s a : ParseIP s = Some a → valid_addr a ∧ Unmap a = a ∧ Zone a = "".
Proof.
  unfold ParseIP. destruct (ParseAddr s) as [x|] eqn:E; [|done]. apply ParseAddr_valid in E.
  destruct (String.eqb_spec (Zone x) ""); [|done]. intros [= <-].
  split_and!; [by apply valid_Unmap|apply Unmap_Unmap|by apply Unmap_zone_free].
Qed.
