(* ===== verification/GoUrl.v ===== *)
(** * GoUrl: the part of Go's [net/url] the policies read

    [url.Parse] as far as the scheme, the host and the user information, and
    every reason for which it refuses a text, as in Go 1.26: an IP literal in
    brackets has to be an IPv6 address at the start of the host, and a host
    without brackets holds one colon at most.  Paths, queries and fragments are
    checked for their escapes and dropped. *)

From S2P Require Import Prelude GoString Net.
Local Open Scope string_scope.
Local Open Scope Z_scope.

(** ** Bytes *)

Definition byte (c : ascii) : Z := Z.of_nat (nat_of_ascii c).

Definition is_alpha (c : ascii) : bool :=
  let n := byte c in ((97 <=? n) && (n <=? 122)) || ((65 <=? n) && (n <=? 90)).

Definition is_num (c : ascii) : bool := let n := byte c in (48 <=? n) && (n <=? 57).

Fixpoint byte_of (set : string) (c : ascii) : bool :=
  match set with
  | "" => false
  | String d set' => Ascii.eqb c d || byte_of set' c
  end.

(** [stringContainsCTLByte]. *)
Fixpoint has_ctl (s : string) : bool :=
  match s with
  | "" => false
  | String c s' => (byte c <? 32) || (byte c =? 127) || has_ctl s'
  end.

(** ** Escapes *)

Inductive encoding := encodePath | encodeHost | encodeZone | encodeUserPassword | encodeFragment.

Definition host_mode (m : encoding) : bool := match m with encodeHost | encodeZone => true | _ => false end.

(** [shouldEscape] of the host and zone modes; the double quote is byte 34. *)
Definition bad_host_byte (c : ascii) : bool :=
  negb (is_alpha c || is_num c || byte_of "!$&'()*+,;=:[]<>-_.~" c || (byte c =? 34)).

Fixpoint unescape (m : encoding) (s : string) : option string :=
  match s with
  | "" => Some ""
  | String c s' =>
      if Ascii.eqb c "%" then
        match s' with
        | String h (String l s'') =>
            match hex_val h, hex_val l with
            | Some a, Some b =>
                let v := a * 16 + b in
                if (match m with encodeHost => (a <? 8) && negb (v =? 37) | _ => false end) then None
                else if (match m with
                         | encodeZone => negb (v =? 37) && negb (v =? 32) &&
                                         bad_host_byte (ascii_of_nat (Z.to_nat v))
                         | _ => false
                         end) then None
                else String (ascii_of_nat (Z.to_nat v)) <$> unescape m s''
            | _, _ => None
            end
        | _ => None
        end
      else if host_mode m && (byte c <? 128) && bad_host_byte c then None
      else String c <$> unescape m s'
  end.

(** ** Scheme *)

(** [getScheme]: an error, or the scheme ([""] when there is none) and the rest. *)
Fixpoint scheme_from (i : nat) (seen rest whole : string) : option (string * string) :=
  match rest with
  | "" => Some ("", whole)
  | String c rest' =>
      if is_alpha c then scheme_from (S i) (seen +:+ String c "") rest' whole
      else if is_num c || byte_of "+-." c then
        if (i =? 0)%nat then Some ("", whole) else scheme_from (S i) (seen +:+ String c "") rest' whole
      else if Ascii.eqb c ":" then if (i =? 0)%nat then None else Some (seen, rest')
      else Some ("", whole)
  end.

Definition getScheme (rawURL : string) : option (string * string) := scheme_from 0 "" rawURL rawURL.

(** ** Authority *)

Fixpoint all_digits (s : string) : bool :=
  match s with
  | "" => true
  | String c s' => match digit_val c with Some _ => all_digits s' | None => false end
  end.

(** [validOptionalPort]. *)
Definition validOptionalPort (port : string) : bool :=
  match port with
  | "" => true
  | String c digits => Ascii.eqb c ":" && all_digits digits
  end.

(** The first [%25]. *)
Fixpoint index_zone (s : string) : option nat :=
  if HasPrefix s "%25" then Some O
  else match s with "" => None | String _ s' => S <$> index_zone s' end.

(** What stands between the brackets, unescaped. *)
Definition ip_literal (hostname : string) : option string :=
  match index_zone hostname with
  | Some z => h ← unescape encodeHost (take_bytes z hostname);
              zone ← unescape encodeZone (drop_bytes z hostname); Some (h +:+ zone)
  | None => unescape encodeHost hostname
  end.

Definition parseHost (host : string) : option string :=
  match LastIndex host "[" with
  | Some (S _) => None
  | Some O =>
      match LastIndex host "]" with
      | None => None
      | Some close =>
          let colonPort := drop_bytes (S close) host in
          if negb (validOptionalPort colonPort) then None
          else
            name ← ip_literal (take_bytes (close - 1) (drop_bytes 1 host));
            port ← unescape encodeHost colonPort;
            match ParseAddr name with
            | Some (Addr6 _ _) => Some ("[" +:+ name +:+ "]" +:+ port)
            | _ => None
            end
      end
  | None =>
      match IndexByte host ":" with
      | Some i => if validOptionalPort (drop_bytes i host) then unescape encodeHost host else None
      | None => unescape encodeHost host
      end
  end.

Definition validUserinfo (s : string) : bool :=
  forallb (fun c => is_alpha c || is_num c || byte_of "-._:~!$&'()*+,;=%@" c) (String.list_ascii_of_string s).

(** [parseAuthority]: whether there is user information, and the host. *)
Definition parseAuthority (authority : string) : option (bool * string) :=
  match LastIndex authority "@" with
  | None => pair false <$> parseHost authority
  | Some i =>
      host ← parseHost (drop_bytes (S i) authority);
      let userinfo := take_bytes i authority in
      if negb (validUserinfo userinfo) then None
      else
        let '(name, password) := default (userinfo, "") (Cut userinfo ":") in
        _ ← unescape encodeUserPassword name;
        _ ← unescape encodeUserPassword password;
        Some (true, host)
  end.

(** ** URLs *)

(** What the policies read of [url.URL]: the scheme, the host with its port,
    whether there is user information. *)
Record URL := mkURL { u_Scheme : string; u_Host : string; u_User : bool }.

Definition cut_or (s : string) (sep : ascii) : string * string := default (s, "") (Cut s sep).

(** [parse] without the fragment. *)
Definition parse_url (rawURL : string) : option URL :=
  if has_ctl rawURL then None
  else if String.eqb rawURL "*" then Some (mkURL "" "" false)
  else
    sr ← getScheme rawURL;
    let '(scheme, rest) := (ToLower (fst sr), fst (cut_or (snd sr) "?")) in
    if negb (HasPrefix rest "/") && negb (String.eqb scheme "") then Some (mkURL scheme "" false)
    else if negb (HasPrefix rest "/") && has_byte ":" (fst (cut_or rest "/")) then None
    else if (negb (String.eqb scheme "") || negb (HasPrefix rest "///")) && HasPrefix rest "//" then
      let authority := drop_bytes 2 rest in
      let '(authority, path) :=
        match IndexByte authority "/" with
        | Some i => (take_bytes i authority, drop_bytes i authority)
        | None => (authority, "")
        end in
      uh ← parseAuthority authority;
      _ ← unescape encodePath path;
      Some (mkURL scheme (snd uh) (fst uh))
    else
      _ ← unescape encodePath rest;
      Some (mkURL scheme "" false).

Definition Parse (rawURL : string) : option URL :=
  let '(u, frag) := cut_or rawURL "#" in
  url ← parse_url u;
  _ ← unescape encodeFragment frag;
  Some url.

(** [URL.Hostname]: the host without a port of digits and without brackets. *)
Definition Hostname (u : URL) : string :=
  let host := u_Host u in
  let host :=
    match LastIndex host ":" with
    | Some i => if all_digits (drop_bytes (S i) host) then take_bytes i host else host
    | None => host
    end in
  if HasPrefix host "[" && HasSuffix host "]"
  then take_bytes (String.length host - 2) (drop_bytes 1 host) else host.

Example parse_urls :
  Parse "https://User:pw@Console.Example.com:8443/login?x=1#f" = Some (mkURL "https" "Console.Example.com:8443" true) ∧
  Parse "HTTP://[::1]:80/" = Some (mkURL "http" "[::1]:80" false) ∧
  Parse "http://[fe80::1%25en0]/" = Some (mkURL "http" "[fe80::1%en0]" false) ∧
  Parse "null" = Some (mkURL "" "" false) ∧ Parse "//host" = Some (mkURL "" "host" false) ∧
  Parse "mailto:a@b" = Some (mkURL "mailto" "" false) ∧
  Parse "http://a:80:80" = None ∧ Parse "http://a[::1]" = None ∧ Parse "http://[1.2.3.4]" = None ∧
  Parse "http://a b" = None ∧ Parse "http://a%20b" = None ∧ Parse "a:b:c" = Some (mkURL "a" "" false) ∧
  Parse "1a:b" = None ∧ Parse ":x" = None ∧ Parse "http://h/%zz" = None ∧
  Hostname (mkURL "http" "[::1]:80" false) = "::1" ∧ Hostname (mkURL "http" "a:b" false) = "a:b".
Proof. vm_compute. repeat split. Qed.
