(* ===== verification/Json.v ===== *)
(** * Json: the part of Go's [encoding/json] the sources use

    Texts are byte strings.  [scan_value] recognises one value at the head of a
    text; [members] and [elements] give an object's and an array's parts with the
    raw text of each value, which is what a [json.RawMessage] holds; [decode_*]
    store a raw value into a field the way [json.Unmarshal] does.  [Marshal]
    prints a value compactly, escaping HTML characters, as [json.Marshal] does
    (invalid UTF-8 becomes U+FFFD).  The limit of 10000 on the nesting depth is
    left out; of a key that occurs twice in one object the last occurrence
    counts; keys are matched to fields by ASCII case folding. *)

From S2P Require Import Prelude GoString Float64 Net.
Local Open Scope string_scope.
Local Open Scope nat_scope.

(** ** Bytes *)

Definition code (c : ascii) : nat := nat_of_ascii c.
Definition byte (n : nat) : ascii := ascii_of_nat n.
Definition dq : string := String (byte 34) "".
Definition backslash : string := String (byte 92) "".

(** Texts in this development write single quotes for double ones. *)
Fixpoint J (s : string) : string :=
  match s with
  | "" => ""
  | String c s' => String (if code c =? 39 then byte 34 else c) (J s')
  end.

Definition is_ws (c : ascii) : bool :=
  (code c =? 32) || (code c =? 9) || (code c =? 10) || (code c =? 13).

Fixpoint ws (s : string) : string :=
  match s with
  | String c s' => if is_ws c then ws s' else s
  | "" => ""
  end.

(** ** UTF-8 *)

Definition between (lo hi : nat) (c : ascii) : bool := (lo <=? code c) && (code c <=? hi).
Definition cont (c : ascii) : bool := between 128 191 c.

(** The width of the valid encoding a text starts with; 0 when there is none. *)
Definition utf8_width (s : string) : nat :=
  match s with
  | "" => 0
  | String c s1 =>
      if code c <=? 127 then 1
      else match s1 with
           | "" => 0
           | String c1 s2 =>
               if between 194 223 c then if cont c1 then 2 else 0
               else match s2 with
                    | "" => 0
                    | String c2 s3 =>
                        if between 224 239 c then
                          if cont c2 &&
                             (if code c =? 224 then between 160 191 c1
                              else if code c =? 237 then between 128 159 c1 else cont c1)
                          then 3 else 0
                        else match s3 with
                             | "" => 0
                             | String c3 _ =>
                                 if between 240 244 c && cont c2 && cont c3 &&
                                    (if code c =? 240 then between 144 191 c1
                                     else if code c =? 244 then between 128 143 c1 else cont c1)
                                 then 4 else 0
                             end
                    end
           end
  end.

(** [utf8.AppendRune]; code points are [N]. *)
Definition byteN (n : N) : ascii := ascii_of_N n.
Definition bytesN (l : list N) : string := foldr (fun n s => String (byteN n) s) "" l.

Definition EncodeRune (r : N) : string :=
  (if r <? 128 then bytesN [r]
   else if r <? 2048 then bytesN [192 + r / 64; 128 + r mod 64]
   else if r <? 65536 then bytesN [224 + r / 4096; 128 + r / 64 mod 64; 128 + r mod 64]
   else bytesN [240 + r / 262144; 128 + r / 4096 mod 64; 128 + r / 64 mod 64; 128 + r mod 64])%N.

Definition replacement : string := bytes [239; 191; 189].

(** ** Strings *)

Definition hex_N (c : ascii) : option N := Z.to_N <$> hex_val c.

Definition hex4 (s : string) : option (N * string) :=
  match s with
  | String a (String b (String c (String d r))) =>
      match hex_N a, hex_N b, hex_N c, hex_N d with
      | Some a, Some b, Some c, Some d => Some (4096 * a + 256 * b + 16 * c + d, r)%N
      | _, _, _, _ => None
      end
  | _ => None
  end.

Definition is_surrogate (r : N) : bool := ((55296 <=? r) && (r <=? 57343))%N.

(** [utf16.DecodeRune]; [None] is U+FFFD. *)
Definition DecodeRune16 (r1 r2 : N) : option N :=
  (if (55296 <=? r1) && (r1 <=? 56319) && (56320 <=? r2) && (r2 <=? 57343)
   then Some ((r1 - 55296) * 1024 + (r2 - 56320) + 65536) else None)%N.

(** The character after [\u] and what is left. *)
Definition unicode_escape (s : string) : option (string * string) :=
  match hex4 s with
  | None => None
  | Some (r, t) =>
      if is_surrogate r then
        match t with
        | String b (String u t') =>
            if (code b =? 92) && (code u =? 117) then
              match hex4 t' with
              | Some (r2, t2) =>
                  match DecodeRune16 r r2 with
                  | Some r' => Some (EncodeRune r', t2)
                  | None => Some (replacement, t)
                  end
              | None => Some (replacement, t)
              end
            else Some (replacement, t)
        | _ => Some (replacement, t)
        end
      else Some (EncodeRune r, t)
  end.

Definition simple_escape (c : ascii) : option ascii :=
  let n := code c in
  if (n =? 34) || (n =? 92) || (n =? 47) then Some c
  else if n =? 98 then Some (byte 8)
  else if n =? 102 then Some (byte 12)
  else if n =? 110 then Some (byte 10)
  else if n =? 114 then Some (byte 13)
  else if n =? 116 then Some (byte 9)
  else None.

(** The text of a string literal after its opening quote: the decoded string and
    what follows the closing quote.  Each round consumes at least one byte. *)
Fixpoint parse_string (fuel : nat) (s : string) : option (string * string) :=
  match fuel, s with
  | O, _ | _, "" => None
  | S fuel', String c s' =>
      if code c =? 34 then Some ("", s')
      else if code c =? 92 then
        match s' with
        | "" => None
        | String e s'' =>
            if code e =? 117 then
              match unicode_escape s'' with
              | None => None
              | Some (out, t) => prod_map (String.append out) id <$> parse_string fuel' t
              end
            else match simple_escape e with
                 | None => None
                 | Some b => prod_map (String b) id <$> parse_string fuel' s''
                 end
        end
      else if code c <? 32 then None
      else match utf8_width s with
           | O => prod_map (String.append replacement) id <$> parse_string fuel' s'
           | w => prod_map (String.append (take_bytes w s)) id <$> parse_string fuel' (drop_bytes w s)
           end
  end.

(** ** Numbers *)

Fixpoint digits (s : string) : string * string :=
  match s with
  | String c s' => if is_digit c then prod_map (String c) id (digits s') else ("", s)
  | "" => ("", "")
  end.

Definition scan_int (s : string) : option string :=
  match s with
  | String c s' =>
      if code c =? 48 then Some s' else if is_digit c then Some (digits s').2 else None
  | "" => None
  end.

Definition scan_frac (s : string) : option string :=
  match s with
  | String c s' =>
      if code c =? 46 then match digits s' with ("", _) => None | (_, r) => Some r end else Some s
  | "" => Some ""
  end.

Definition scan_exp (s : string) : option string :=
  match s with
  | String c s' =>
      if (code c =? 101) || (code c =? 69) then
        let s' := match s' with
                  | String g r => if (code g =? 43) || (code g =? 45) then r else s'
                  | "" => ""
                  end in
        match digits s' with ("", _) => None | (_, r) => Some r end
      else Some s
  | "" => Some ""
  end.

Definition scan_number (s : string) : option string :=
  let s := match s with String c s' => if code c =? 45 then s' else s | "" => "" end in
  r ← scan_int s; r ← scan_frac r; scan_exp r.

(** ** Values *)

(** The text [s] starts with, when [rest] is its tail. *)
Definition upto (s rest : string) : string := take_bytes (String.length s - String.length rest) s.

Fixpoint scan_value (fuel : nat) (s : string) : option string :=
  match fuel, s with
  | O, _ | _, "" => None
  | S fuel', String c s' =>
      let n := code c in
      if n =? 34 then snd <$> parse_string (S (String.length s')) s'
      else if n =? 123 then
        match ws s' with
        | String d r => if code d =? 125 then Some r else snd <$> scan_members fuel' (ws s')
        | "" => None
        end
      else if n =? 91 then
        match ws s' with
        | String d r => if code d =? 93 then Some r else snd <$> scan_elements fuel' (ws s')
        | "" => None
        end
      else if HasPrefix s "true" || HasPrefix s "null" then Some (drop_bytes 4 s)
      else if HasPrefix s "false" then Some (drop_bytes 5 s)
      else scan_number s
  end
(** At the key of a member: the members up to the closing brace. *)
with scan_members (fuel : nat) (s : string) : option (list (string * string) * string) :=
  match fuel, s with
  | O, _ | _, "" => None
  | S fuel', String c s' =>
      if negb (code c =? 34) then None
      else match parse_string (S (String.length s')) s' with
      | None => None
      | Some (key, r) =>
          match ws r with
          | String d r =>
              if negb (code d =? 58) then None
              else let s1 := ws r in
                match scan_value fuel' s1 with
                | None => None
                | Some r =>
                    let raw := upto s1 r in
                    match ws r with
                    | String d r =>
                        if code d =? 125 then Some ([(key, raw)], r)
                        else if code d =? 44 then
                          prod_map (cons (key, raw)) id <$> scan_members fuel' (ws r)
                        else None
                    | "" => None
                    end
                end
          | "" => None
          end
      end
  end
with scan_elements (fuel : nat) (s : string) : option (list string * string) :=
  match fuel with
  | O => None
  | S fuel' =>
      match scan_value fuel' s with
      | None => None
      | Some r =>
          let raw := upto s r in
          match ws r with
          | String d r =>
              if code d =? 93 then Some ([raw], r)
              else if code d =? 44 then prod_map (cons raw) id <$> scan_elements fuel' (ws r)
              else None
          | "" => None
          end
      end
  end.

(** Two calls per byte are enough. *)
Definition scan_fuel (s : string) : nat := S (S (2 * String.length s)).

(** A whole text that is one value: the value's text without the white space
    around it. *)
Definition value_text (s : string) : option string :=
  let s := ws s in
  match scan_value (scan_fuel s) s with
  | Some r => if String.eqb (ws r) "" then Some (upto s r) else None
  | None => None
  end.

Definition Valid (s : string) : bool := match value_text s with Some _ => true | None => false end.

(** ** Decoding *)

Definition is_quote (c : ascii) : bool := code c =? 34.

Definition members (raw : string) : option (list (string * string)) :=
  match raw with
  | String c s =>
      if code c =? 123 then
        match ws s with
        | String d _ => if code d =? 125 then Some [] else fst <$> scan_members (scan_fuel raw) (ws s)
        | "" => None
        end
      else None
  | "" => None
  end.

Definition elements (raw : string) : option (list string) :=
  match raw with
  | String c s =>
      if code c =? 91 then
        match ws s with
        | String d _ => if code d =? 93 then Some [] else fst <$> scan_elements (scan_fuel raw) (ws s)
        | "" => None
        end
      else None
  | "" => None
  end.

(** [store A]: a raw value stored over the old contents of a field, and whether
    there was an error (the decoder goes on after a type error). *)
Definition store (A : Type) : Type := string → A → A * bool.

Definition st_raw : store string := fun raw _ => (raw, false).

Definition st_string : store string := fun raw old =>
  if String.eqb raw "null" then (old, false)
  else match raw with
       | String c s =>
           if is_quote c then
             match parse_string (S (String.length s)) s with Some (v, _) => (v, false) | None => (old, true) end
           else (old, true)
       | "" => (old, true)
       end.

Definition st_bool : store bool := fun raw old =>
  if String.eqb raw "null" then (old, false)
  else if String.eqb raw "true" then (true, false)
  else if String.eqb raw "false" then (false, false) else (old, true).

(** [strconv.ParseInt] of a number literal. *)
Definition ParseInt (lit : string) : option Z :=
  let '(neg, ds) := match lit with
                    | String c s => if code c =? 45 then (true, s) else (false, lit)
                    | "" => (false, "")
                    end in
  match digits ds with
  | (d, "") =>
      if String.eqb d "" then None
      else
        v ← decimal 0%Z d;
        let v := if (neg : bool) then (- v)%Z else v in
        if ((int64_min <=? v) && (v <=? int64_max))%Z then Some v else None
  | _ => None
  end.

Definition st_int : store Z := fun raw old =>
  if String.eqb raw "null" then (old, false)
  else match ParseInt raw with Some v => (v, false) | None => (old, true) end.

(** [strconv.ParseFloat] of a JSON number: the nearest double, an error when it
    overflows. *)
Definition round_ratio (p e : Z) (neg : bool) (m : Z) (e10 : Z) : float64 :=
  if (e10 <? 0)%Z then
    match m with
    | Zpos _ =>
        let '(q, x, l) := SFdiv_core_binary p e m 0 (10 ^ (- e10)) 0 in
        binary_round_aux p e neg q x l
    | _ => S754_zero neg
    end
  else binary_normalize p e ((if neg then -1 else 1) * m * 10 ^ e10)%Z 0 neg.

Definition ParseFloatAt (p ex : Z) (lit : string) : option float64 :=
  let '(neg, s) := match lit with
                   | String c s => if code c =? 45 then (true, s) else (false, lit)
                   | "" => (false, "")
                   end in
  let '(ip, s) := digits s in
  let '(fp, s) := match s with
                  | String c s' => if code c =? 46 then digits s' else ("", s)
                  | "" => ("", "")
                  end in
  e ← match s with
      | "" => Some 0%Z
      | String _ s' =>
          match s' with
          | String g r =>
              if code g =? 43 then decimal 0%Z r
              else if code g =? 45 then Z.opp <$> decimal 0%Z r else decimal 0%Z s'
          | "" => None
          end
      end;
  m ← decimal 0%Z (ip +:+ fp);
  match round_ratio p ex neg m (e - Z.of_nat (String.length fp))%Z with
  | S754_infinity _ => None
  | f => Some f
  end.

Definition ParseFloat : string → option float64 := ParseFloatAt prec emax.
Definition ParseFloat32 : string → option float64 := ParseFloatAt 24 128.

Definition is_number (raw : string) : bool :=
  match raw with String c _ => is_digit c || (code c =? 45) | "" => false end.

Definition st_float_by (parse : string → option float64) : store float64 := fun raw old =>
  if String.eqb raw "null" then (old, false)
  else if is_number raw then match parse raw with Some v => (v, false) | None => (old, true) end
  else (old, true).

Definition st_float : store float64 := st_float_by ParseFloat.
Definition st_float32 : store float64 := st_float_by ParseFloat32.

(** A pointer: [nil] on [null]. *)
Definition st_ptr {A} (zero : A) (st : store A) : store (option A) := fun raw old =>
  if String.eqb raw "null" then (None, false)
  else let '(v, e) := st raw (default zero old) in (Some v, e).

Definition st_list {A} (zero : A) (st : store A) : store (list A) := fun raw old =>
  if String.eqb raw "null" then ([], false)
  else match elements raw with
       | Some l => (map (fun r => fst (st r zero)) l, existsb (fun r => snd (st r zero)) l)
       | None => (old, true)
       end.

(** The members a struct is filled from; none for [null]. *)
Definition struct_members (raw : string) : list (string * string) * bool :=
  if String.eqb raw "null" then ([], false)
  else match members raw with Some ms => (ms, false) | None => ([], true) end.

(** The value of the field [name] after the members, from [zero]. *)
Definition field {A} (name : string) (st : store A) (zero : A) (ms : list (string * string)) : A * bool :=
  foldl (fun '(v, e) '(k, raw) =>
    if EqualFold k name then let '(v', e') := st raw v in (v', e || e') else (v, e)) (zero, false) ms.

(** Filling a struct field by field: errors accumulate. *)
Definition dec_bind {A B} (c : A * bool) (k : A → B * bool) : B * bool :=
  let '(a, e) := c in let '(b, e') := k a in (b, e || e').
Notation "'fill' x ':=' c 'in' k" := (dec_bind c (fun x => k))
  (at level 10, x binder, c at level 100, k at level 200) : go_scope.

(** A type with an [UnmarshalJSON] of its own; [None] is its error. *)
Definition st_own {A} (f : string → option A) : store A := fun raw old =>
  match f raw with Some v => (v, false) | None => (old, true) end.

(** [if err := json.Unmarshal(...); err != nil]. *)
Definition ok_or {A} (d : A * bool) : option A := if snd d then None else Some (fst d).

(** [map[string]json.RawMessage]. *)
Definition st_rawmap : store (gmap string string) := fun raw old =>
  if String.eqb raw "null" then (∅, false)
  else match members raw with
       | Some ms => (foldl (fun m '(k, v) => <[k := v]> m) old ms, false)
       | None => (old, true)
       end.

(** [json.Unmarshal]: nothing is stored unless the whole text is one value. *)
Definition Unmarshal {A} (st : store A) (zero : A) (text : string) : A * bool :=
  match value_text text with
  | None => (zero, true)
  | Some raw => st raw zero
  end.

(** [json.NewDecoder(r).Decode]: the first value of the text. *)
Definition DecodeFirst {A} (st : store A) (zero : A) (text : string) : A * bool :=
  let s := ws text in
  match scan_value (scan_fuel s) s with
  | Some r => st (upto s r) zero
  | None => (zero, true)
  end.

(** ** Encoding *)

(** What is marshalled: [JRaw] is a [json.RawMessage] ([""] is nil), [JNum] a
    formatted number. *)
#[local] Unset Elimination Schemes.
Inductive json :=
| JNull
| JBool (b : bool)
| JNum (text : string)
| JStr (s : string)
| JRaw (text : string)
| JArr (l : list json)
| JObj (l : list (string * json)).
#[local] Set Elimination Schemes.

Lemma json_ind (P : json → Prop) :
  P JNull → (∀ b, P (JBool b)) → (∀ t, P (JNum t)) → (∀ s, P (JStr s)) → (∀ t, P (JRaw t)) →
  (∀ l, Forall P l → P (JArr l)) → (∀ l, Forall (fun kv => P kv.2) l → P (JObj l)) → ∀ v, P v.
Proof.
  intros Hn Hb Hnum Hs Hr Ha Ho. fix IH 1. intros [|b|t|s|t|l|l]; [apply Hn|apply Hb|apply Hnum|apply Hs|apply Hr|..].
  - apply Ha. induction l as [|x l IHl]; constructor; [apply IH|apply IHl].
  - apply Ho. induction l as [|[k x] l IHl]; constructor; [apply IH|apply IHl].
Qed.

(** A struct's members are in the order of its fields, a map's are sorted. *)
Definition key_le (a b : string * json) : Prop := String.le a.1 b.1.
#[export] Instance key_le_dec : RelDecision key_le.
Proof. intros a b. unfold key_le. apply _. Defined.
Definition jmap (l : list (string * json)) : json := JObj (merge_sort key_le l).

Definition jint (z : Z) : json := JNum (pretty z).

(** A text as encodings, [None] for a byte that starts none. *)
Fixpoint runes (fuel : nat) (s : string) : list (option string) :=
  match fuel, s with
  | O, _ | _, "" => []
  | S fuel', String c s' =>
      match utf8_width s with
      | O => None :: runes fuel' s'
      | w => Some (take_bytes w s) :: runes fuel' (drop_bytes w s)
      end
  end.

Definition utf8_runes (s : string) : list (option string) := runes (String.length s) s.

Definition hex_lower (n : nat) : ascii := if n <? 10 then byte (48 + n) else byte (87 + n).

(** [\u00XX]. *)
Definition u_escape (n : nat) : string :=
  backslash +:+ "u00" +:+ String (hex_lower (n / 16)) (String (hex_lower (n mod 16)) "").

Definition escape_byte (c : ascii) : string :=
  let n := code c in
  if (n =? 34) || (n =? 92) then backslash +:+ String c ""
  else if n =? 8 then backslash +:+ "b"
  else if n =? 12 then backslash +:+ "f"
  else if n =? 10 then backslash +:+ "n"
  else if n =? 13 then backslash +:+ "r"
  else if n =? 9 then backslash +:+ "t"
  else if (n <? 32) || (n =? 60) || (n =? 62) || (n =? 38) then u_escape n
  else String c "".

Definition encode_rune (r : option string) : string :=
  match r with
  | None => backslash +:+ "ufffd"
  | Some (String c "") => escape_byte c
  | Some e =>
      if String.eqb e (bytes [226; 128; 168]) then backslash +:+ "u2028"
      else if String.eqb e (bytes [226; 128; 169]) then backslash +:+ "u2029"
      else e
  end.

Definition concat_s (l : list string) : string := foldr String.append "" l.

Definition quote_body (s : string) : string := concat_s (map encode_rune (utf8_runes s)).
Definition json_quote (s : string) : string := dq +:+ quote_body s +:+ dq.

(** [json.Compact] with HTML escaping, of a valid text. *)
Fixpoint compact (in_string escaped : bool) (s : string) : string :=
  match s with
  | "" => ""
  | String c s' =>
      if in_string then
        if escaped then String c (compact true false s')
        else if code c =? 34 then String c (compact false false s')
        else if code c =? 92 then String c (compact true true s')
        else if (code c =? 60) || (code c =? 62) || (code c =? 38) then u_escape (code c) +:+ compact true false s'
        else match s' with
             | String c1 (String c2 s'') =>
                 if (code c =? 226) && (code c1 =? 128) && ((code c2 =? 168) || (code c2 =? 169))
                 then (if code c2 =? 168 then backslash +:+ "u2028" else backslash +:+ "u2029") +:+
                      compact true false s''
                 else String c (compact true false s')
             | _ => String c (compact true false s')
             end
      else if is_ws c then compact false false s'
      else String c (compact (code c =? 34) false s')
  end.

Fixpoint marshal (v : json) : option string :=
  match v with
  | JNull => Some "null"
  | JBool b => Some (if b then "true" else "false")
  | JNum t => Some t
  | JStr s => Some (json_quote s)
  | JRaw t => if String.eqb t "" then Some "null" else compact false false <$> value_text t
  | JArr l =>
      ts ← (fix go (l : list json) : option (list string) :=
              match l with
              | [] => Some []
              | x :: l' => t ← marshal x; ts ← go l'; Some (t :: ts)
              end) l;
      Some ("[" +:+ Join ts "," +:+ "]")
  | JObj l =>
      ts ← (fix go (l : list (string * json)) : option (list string) :=
              match l with
              | [] => Some []
              | (k, x) :: l' => t ← marshal x; ts ← go l'; Some ((json_quote k +:+ ":" +:+ t) :: ts)
              end) l;
      Some ("{" +:+ Join ts "," +:+ "}")
  end.

(** [b, _ := json.Marshal(v)]: nil bytes on an error. *)
Definition Marshal (v : json) : string := default "" (marshal v).
