(* ===== verification/JsonFacts.v ===== *)
(** * JsonFacts: reading back what [Json.Marshal] printed

    A marshalled string decodes to itself with invalid bytes replaced, and the
    scanner finds in a marshalled object exactly the members it was built from.
    Shared by the components that encode and decode wire types. *)

From S2P Require Import Prelude GoString Float64 Net Json.
Local Open Scope string_scope.
Local Open Scope nat_scope.

(** ** Byte strings *)

Lemma append_cons c s t : String c s +:+ t = String c (s +:+ t).
Proof. done. Qed.

Lemma append_nil_l s : "" +:+ s = s.
Proof. done. Qed.

Lemma upto_app s t : upto (s +:+ t) t = s.
Proof. unfold upto. rewrite length_app_string, Nat.add_sub. apply take_app_len. Qed.

Lemma take_drop_bytes n s : take_bytes n s +:+ drop_bytes n s = s.
Proof. revert s. induction n as [|n IH]; intros [|c s]; cbn; try done. by rewrite append_cons, IH. Qed.

Lemma length_take_bytes n s : n ≤ String.length s → String.length (take_bytes n s) = n.
Proof. revert s. induction n as [|n IH]; intros [|c s] H; cbn in *; try lia. rewrite IH; lia. Qed.

Lemma length_drop_bytes n s : String.length (drop_bytes n s) = String.length s - n.
Proof. revert s. induction n as [|n IH]; intros [|c s]; cbn; try lia. apply IH. Qed.

(** ** Encodings *)

(** A complete encoding, whatever follows it. *)
Definition rune_ok (e : string) : Prop :=
  e ≠ "" ∧ ∀ t, utf8_width (e +:+ t) = String.length e.

#[local] Arguments code : simpl never.
#[local] Arguments between : simpl never.
#[local] Arguments cont : simpl never.
#[local] Arguments Nat.leb : simpl never.

Local Ltac width_case :=
  intros _; split; [split; [done|intros t; cbn [take_bytes]; rewrite ?append_cons; cbn]|cbn; lia].

Lemma rune_ok_width s : utf8_width s ≠ 0 → rune_ok (take_bytes (utf8_width s) s) ∧ utf8_width s ≤ String.length s.
Proof.
  unfold rune_ok. destruct s as [|c s1]; [done|]. cbn [utf8_width].
  destruct (code c <=? 127) eqn:E0; [by width_case; rewrite E0|].
  destruct s1 as [|c1 s2]; [done|]. destruct (between 194 223 c) eqn:E1.
  { destruct (cont c1) eqn:C1; [|done]. width_case. by rewrite E0, E1, C1. }
  destruct s2 as [|c2 s3]; [done|]. destruct (between 224 239 c) eqn:E2.
  { match goal with |- context[if ?b then 3 else 0] => destruct b eqn:C2 end; [|done].
    width_case. by rewrite E0, E1, E2, C2. }
  destruct s3 as [|c3 s4]; [done|].
  match goal with |- context[if ?b then 4 else 0] => destruct b eqn:C3 end; [|done].
  width_case. by rewrite E0, E1, E2, C3.
Qed.

Lemma runes_ok f s : Forall (fun o => ∀ e, o = Some e → rune_ok e) (runes f s).
Proof.
  revert s. induction f as [|f IH]; intros s; cbn [runes]; [constructor|]. destruct s as [|c s]; [constructor|].
  destruct (utf8_width (String c s)) as [|w] eqn:E; constructor; try done.
  intros e [= <-]. change (rune_ok (take_bytes (S w) (String c s))). rewrite <- E. apply rune_ok_width. by rewrite E.
Qed.

(** The text with each invalid byte replaced by U+FFFD. *)
Definition to_valid (s : string) : string := concat_s (map (default replacement) (utf8_runes s)).

Definition utf8_valid (s : string) : bool :=
  forallb (fun o => match o with Some _ => true | None => false end) (utf8_runes s).

Lemma runes_concat f s :
  String.length s ≤ f → forallb (fun o => match o with Some _ => true | None => false end) (runes f s) = true →
  concat_s (map (default replacement) (runes f s)) = s.
Proof.
  revert s. induction f as [|f IH]; intros s Hf H; cbn [runes] in *; [destruct s; [done|cbn in Hf; lia]|].
  destruct s as [|c s]; [done|]. destruct (utf8_width (String c s)) as [|w] eqn:E; [done|].
  cbn [map forallb concat_s foldr default] in *. fold concat_s.
  assert (Hw : utf8_width (String c s) ≠ 0) by lia. destruct (rune_ok_width _ Hw) as [_ Hlen]. rewrite E in Hlen.
  rewrite IH; [apply take_drop_bytes| |done]. rewrite length_drop_bytes. cbn in Hf. cbn [String.length]. lia.
Qed.

Lemma to_valid_id s : utf8_valid s = true → to_valid s = s.
Proof. intros H. apply runes_concat; [done|exact H]. Qed.

(** ** Strings *)

Lemma parse_string_ascii f c t :
  code c <= 127 →
  parse_string (S f) (escape_byte c +:+ t) = prod_map (String.append (String c "")) id <$> parse_string f t.
Proof.
  destruct c as [[] [] [] [] [] [] [] []]; intros H;
    first [reflexivity | exfalso; vm_compute in H; lia].
Qed.

(** A multi-byte encoding starts with a byte above 127. *)
Lemma rune_multi c e : rune_ok (String c e) → code c <= 127 ↔ e = "".
Proof.
  intros [_ H]. specialize (H ""). rewrite app_nil_r_string in H. cbn in H. split.
  - intros Hc. apply Nat.leb_le in Hc. rewrite Hc in H. by destruct e.
  - intros ->. destruct (Nat.leb_spec (code c) 127); [done|]. by destruct (between 194 223 c).
Qed.

Lemma parse_string_multi f c e t :
  rune_ok (String c e) → 127 < code c →
  parse_string (S f) (String c e +:+ t) = prod_map (String.append (String c e)) id <$> parse_string f t.
Proof.
  intros [Hne H] Hc. specialize (H t). rewrite append_cons in *. cbn [parse_string].
  destruct (Nat.eqb_spec (code c) 34); [lia|]. destruct (Nat.eqb_spec (code c) 92); [lia|].
  destruct (Nat.ltb_spec (code c) 32); [lia|]. rewrite H. cbn [String.length].
  change (S (String.length e)) with (String.length (String c e)). rewrite <- append_cons.
  by rewrite take_app_len, drop_app_len.
Qed.

Lemma parse_string_rune f o t :
  (∀ e, o = Some e → rune_ok e) →
  parse_string (S f) (encode_rune o +:+ t) =
    prod_map (String.append (default replacement o)) id <$> parse_string f t.
Proof.
  intros Ho. destruct o as [e|]; [|reflexivity]. specialize (Ho e eq_refl).
  destruct e as [|c e]; [by destruct Ho|]. cbn [encode_rune default].
  destruct e as [|c1 e]; [apply parse_string_ascii; by apply (rune_multi c "")|].
  destruct (String.eqb_spec (String c (String c1 e)) (bytes [226; 128; 168])) as [->|_]; [reflexivity|].
  destruct (String.eqb_spec (String c (String c1 e)) (bytes [226; 128; 169])) as [->|_]; [reflexivity|].
  apply parse_string_multi; [done|]. apply Nat.nle_gt. intros H. by apply (rune_multi _ _ Ho) in H.
Qed.

Lemma encode_rune_nonempty o : (∀ e, o = Some e → rune_ok e) → 0 < String.length (encode_rune o).
Proof.
  destruct o as [[|c e]|]; intros H; [by destruct (H _ eq_refl)|..|vm_compute; lia]. cbn [encode_rune].
  destruct e; [destruct c as [[] [] [] [] [] [] [] []]; vm_compute; lia|].
  repeat case_match; first [vm_compute; lia | cbn; lia].
Qed.

Lemma parse_string_runes l f r :
  Forall (fun o => ∀ e, o = Some e → rune_ok e) l →
  String.length (concat_s (map encode_rune l)) < f →
  parse_string f (concat_s (map encode_rune l) +:+ dq +:+ r) =
    Some (concat_s (map (default replacement) l), r).
Proof.
  intros Hl. revert f. induction Hl as [|o l Ho Hl IH]; intros f Hf; (destruct f as [|f]; [lia|]); [reflexivity|].
  cbn [map concat_s foldr] in *. fold concat_s in *. rewrite length_app_string in Hf.
  pose proof (encode_rune_nonempty o Ho).
  rewrite app_assoc_string, parse_string_rune by done.
  change (foldr String.append "") with concat_s in *. rewrite IH by lia. done.
Qed.

(** Reading a quoted string back. *)
Lemma parse_quote s f r :
  String.length (quote_body s) < f → parse_string f (quote_body s +:+ dq +:+ r) = Some (to_valid s, r).
Proof. intros H. apply parse_string_runes; [apply runes_ok|done]. Qed.

(** ** Values *)

(** What may follow a number in a marshalled text. *)
Definition stops (r : string) : Prop :=
  match r with "" => True | String c _ => code c = 44 ∨ code c = 93 ∨ code c = 125 end.

(** Values the scanner reads back: numbers are JSON numbers, nothing raw. *)
Fixpoint wf_json (v : json) : Prop :=
  match v with
  | JNum t => is_number t = true ∧ ∀ r, stops r → scan_number (t +:+ r) = Some r
  | JRaw _ => False
  | JArr l => (fix go (l : list json) : Prop := match l with [] => True | x :: l' => wf_json x ∧ go l' end) l
  | JObj l => (fix go (l : list (string * json)) : Prop :=
                 match l with [] => True | (_, x) :: l' => wf_json x ∧ go l' end) l
  | _ => True
  end.

(** The texts of elements and members; the inner loops of [marshal]. *)
Definition marshal_list : list json → option (list string) :=
  fix go (l : list json) : option (list string) :=
    match l with
    | [] => Some []
    | x :: l' => t ← marshal x; ts ← go l'; Some (t :: ts)
    end.

Definition marshal_members : list (string * json) → option (list string) :=
  fix go (l : list (string * json)) : option (list string) :=
    match l with
    | [] => Some []
    | (k, x) :: l' => t ← marshal x; ts ← go l'; Some ((json_quote k +:+ ":" +:+ t) :: ts)
    end.

Lemma marshal_arr l : marshal (JArr l) = (ts ← marshal_list l; Some ("[" +:+ Join ts "," +:+ "]")).
Proof. done. Qed.
Lemma marshal_obj l : marshal (JObj l) = (ts ← marshal_members l; Some ("{" +:+ Join ts "," +:+ "}")).
Proof. done. Qed.

Lemma wf_arr l : wf_json (JArr l) ↔ Forall wf_json l.
Proof. cbn. induction l as [|x l IH]; [by split|]. by rewrite Forall_cons, IH. Qed.
Lemma wf_obj l : wf_json (JObj l) ↔ Forall (fun kv => wf_json kv.2) l.
Proof. cbn. induction l as [|[k x] l IH]; [by split|]. by rewrite Forall_cons, IH. Qed.

(** A value without raw parts always marshals. *)
Fixpoint no_raw (v : json) : Prop :=
  match v with
  | JRaw _ => False
  | JArr l => (fix go (l : list json) : Prop := match l with [] => True | x :: l' => no_raw x ∧ go l' end) l
  | JObj l => (fix go (l : list (string * json)) : Prop :=
                 match l with [] => True | (_, x) :: l' => no_raw x ∧ go l' end) l
  | _ => True
  end.

Lemma no_raw_arr l : no_raw (JArr l) ↔ Forall no_raw l.
Proof. cbn. induction l as [|x l IH]; [by split|]. by rewrite Forall_cons, IH. Qed.
Lemma no_raw_obj l : no_raw (JObj l) ↔ Forall (fun kv => no_raw kv.2) l.
Proof. cbn. induction l as [|[k x] l IH]; [by split|]. by rewrite Forall_cons, IH. Qed.

Lemma marshal_no_raw v : no_raw v → is_Some (marshal v).
Proof.
  induction v as [| | | |t|l IH|l IH] using json_ind; intros Hwf; [by eexists|by eexists|by eexists|by eexists|done|..].
  - rewrite marshal_arr. apply no_raw_arr in Hwf.
    assert (is_Some (marshal_list l)) as [ts ->]; [|by eexists].
    induction IH as [|x l Hx _ IHl]; [by eexists|]. apply Forall_cons in Hwf as [Hw Hwf]. cbn.
    destruct (Hx Hw) as [t ->]. destruct (IHl Hwf) as [ts ->]. by eexists.
  - rewrite marshal_obj. apply no_raw_obj in Hwf.
    assert (is_Some (marshal_members l)) as [ts ->]; [|by eexists].
    induction IH as [|[k x] l Hx _ IHl]; [by eexists|]. apply Forall_cons in Hwf as [Hw Hwf]. cbn.
    destruct (Hx Hw) as [t Ht]. cbn in Ht. rewrite Ht. destruct (IHl Hwf) as [ts ->]. by eexists.
Qed.

Lemma wf_no_raw v : wf_json v → no_raw v.
Proof.
  induction v as [| | | |t|l IH|l IH] using json_ind; intros Hwf; try done.
  - apply wf_arr in Hwf. apply no_raw_arr. eapply Forall_impl; [apply Forall_and; split; [exact IH|exact Hwf]|].
    intros x [H1 H2]. auto.
  - apply wf_obj in Hwf. apply no_raw_obj. eapply Forall_impl; [apply Forall_and; split; [exact IH|exact Hwf]|].
    intros x [H1 H2]. auto.
Qed.

(** A well-formed value always marshals. *)
Lemma marshal_total v : wf_json v → is_Some (marshal v).
Proof. intros H. by apply marshal_no_raw, wf_no_raw. Qed.

Lemma ws_stop c s : is_ws c = false → ws (String c s) = String c s.
Proof. intros H. cbn. by rewrite H. Qed.

Lemma stops_ws r : stops r → ws r = r.
Proof.
  destruct r as [|c r]; [done|]. intros H. apply ws_stop. unfold is_ws.
  destruct H as [->|[->| ->]]; reflexivity.
Qed.

(** The first byte of a marshalled value is not white space. *)
Definition visible (s : string) : Prop :=
  match s with "" => False | String c _ => is_ws c = false ∧ code c ≠ 93 ∧ code c ≠ 125 end.

Lemma is_number_visible t r : is_number t = true → visible (t +:+ r).
Proof.
  destruct t as [|c t]; [done|]. unfold is_number. rewrite append_cons. cbn.
  destruct c as [[] [] [] [] [] [] [] []]; intros H; first [by vm_compute in H | by vm_compute].
Qed.

Lemma marshal_visible v t r : wf_json v → marshal v = Some t → visible (t +:+ r).
Proof.
  destruct v as [|b|t'|s|t'|l|l]; intros Hwf H; cbn in H; simplify_eq; try done; try (by vm_compute).
  - by destruct b.
  - apply is_number_visible. by destruct Hwf.
  - by apply bind_Some in H as (ts & _ & [= <-]).
  - by apply bind_Some in H as (ts & _ & [= <-]).
Qed.

Lemma visible_ws s : visible s → ws s = s.
Proof. destruct s as [|c s]; [done|]. intros [H _]. by apply ws_stop. Qed.

(** What the scanner is to do with a value. *)
Definition scans (v : json) : Prop :=
  ∀ t f r, marshal v = Some t → 2 * String.length t ≤ f → stops r → scan_value f (t +:+ r) = Some r.

Definition member_texts (l : list (string * json)) : list (string * string) :=
  map (fun kv => (to_valid kv.1, Marshal kv.2)) l.

Lemma Marshal_some v t : marshal v = Some t → Marshal v = t.
Proof. unfold Marshal. by intros ->. Qed.

(** One member at the head of the text: its key, and its value up to [rest]. *)
Lemma scan_members_head k x t f rest :
  wf_json x → scans x → marshal x = Some t → stops rest → rest ≠ "" →
  2 * String.length (json_quote k +:+ ":" +:+ t) < S f →
  scan_members (S f) ((json_quote k +:+ ":" +:+ t) +:+ rest) =
    match rest with
    | String d r =>
        if code d =? 125 then Some ([(to_valid k, t)], r)
        else if code d =? 44 then prod_map (cons (to_valid k, t)) id <$> scan_members f (ws r)
        else None
    | "" => None
    end.
Proof.
  intros Hwf Hs Ht Hr Hne Hf. unfold json_quote in *. rewrite !app_assoc_string, !length_app_string in *.
  change (dq +:+ ?z) with (String (byte 34) z). cbn [scan_members].
  change (negb (code (byte 34) =? 34)) with false. cbn iota.
  rewrite parse_quote by (rewrite !length_app_string; lia).
  change (":" +:+ t +:+ rest) with (String ":" (t +:+ rest)).
  rewrite ws_stop by done. cbn iota. change (negb (code ":" =? 58)) with false. cbn iota zeta.
  rewrite (visible_ws (t +:+ rest)) by (by eapply marshal_visible).
  cbn [String.length dq] in Hf. rewrite (Hs t) by (done || (cbn in Hf; lia)).
  rewrite upto_app, (stops_ws rest) by done. done.
Qed.

Lemma scan_members_marshal l ts f r :
  l ≠ [] → Forall (fun kv => wf_json kv.2) l → Forall (fun kv => scans kv.2) l →
  marshal_members l = Some ts → 2 * String.length (Join ts ",") < f →
  scan_members f (Join ts "," +:+ "}" +:+ r) = Some (member_texts l, r).
Proof.
  intros Hne Hwf Hs. revert ts f Hne. induction Hs as [|[k x] l Hx _ IH]; intros ts f Hne Hm Hf; [done|].
  apply Forall_cons in Hwf as [Hwx Hwf]. cbn in Hm, Hx, Hwx.
  apply bind_Some in Hm as (t & Ht & Hm). apply bind_Some in Hm as (ts' & Hts & [= <-]).
  destruct f as [|f]; [lia|]. destruct l as [|kv l].
  - cbn in Hts. simplify_eq. cbn [Join] in *.
    rewrite (scan_members_head k x t f ("}" +:+ r)) by (done || by (right; right)).
    cbn -[Marshal]. by rewrite (Marshal_some _ _ Ht).
  - assert (ts' ≠ []) as Hts' by (destruct kv; cbn in Hts; repeat (apply bind_Some in Hts as (? & _ & Hts)); by simplify_eq).
    destruct ts' as [|t1 ts']; [done|].
    assert (∀ X : string, Join (X :: t1 :: ts') "," = X +:+ String "," (Join (t1 :: ts') ",")) as HJ by done.
    rewrite HJ in *. rewrite length_app_string in Hf. cbn [String.length] in Hf.
    rewrite app_assoc_string.
    rewrite (scan_members_head k x t f) by (done || (by left) || lia).
    rewrite append_cons. change (code "," =? 125) with false. change (code "," =? 44) with true. cbn iota.
    assert (ws (Join (t1 :: ts') "," +:+ "}" +:+ r) = Join (t1 :: ts') "," +:+ "}" +:+ r) as ->.
    { destruct kv as [k1 x1]. cbn in Hts. apply bind_Some in Hts as (? & _ & Hts).
      apply bind_Some in Hts as (tl & _ & [= <- <-]). cbn [Join].
      destruct tl; unfold json_quote; by rewrite !app_assoc_string. }
    rewrite IH by (done || lia). cbn -[Marshal]. by rewrite (Marshal_some _ _ Ht).
Qed.

Lemma scan_elements_marshal l ts f r :
  l ≠ [] → Forall wf_json l → Forall scans l → marshal_list l = Some ts →
  2 * String.length (Join ts ",") < f → scan_elements f (Join ts "," +:+ "]" +:+ r) = Some (ts, r).
Proof.
  intros Hne Hwf Hs. revert ts f Hne. induction Hs as [|x l Hx _ IH]; intros ts f Hne Hm Hf; [done|].
  apply Forall_cons in Hwf as [Hwx Hwf]. cbn in Hm.
  apply bind_Some in Hm as (t & Ht & Hm). apply bind_Some in Hm as (ts' & Hts & [= <-]).
  destruct f as [|f]; [lia|]. cbn [scan_elements]. destruct l as [|y l].
  - cbn in Hts. simplify_eq. cbn [Join] in *.
    rewrite (Hx t) by (done || lia || by (right; left)). by rewrite upto_app, stops_ws by (by right; left).
  - destruct ts' as [|t1 ts']; [by cbn in Hts; repeat (apply bind_Some in Hts as (? & _ & Hts)); simplify_eq|].
    assert (∀ X : string, Join (X :: t1 :: ts') "," = X +:+ String "," (Join (t1 :: ts') ",")) as HJ by done.
    rewrite HJ in *. rewrite length_app_string in Hf. cbn [String.length] in Hf.
    rewrite app_assoc_string. rewrite (Hx t) by (done || lia || by left).
    rewrite upto_app, stops_ws by (by left). rewrite append_cons.
    change (code "," =? 93) with false. change (code "," =? 44) with true. cbn iota zeta.
    assert (ws (Join (t1 :: ts') "," +:+ "]" +:+ r) = Join (t1 :: ts') "," +:+ "]" +:+ r) as ->.
    { apply visible_ws. cbn in Hts. apply bind_Some in Hts as (? & Hy & Hts).
      apply bind_Some in Hts as (tl & _ & [= <- <-]). apply Forall_cons in Hwf as [Hwy _]. cbn [Join].
      destruct tl; rewrite ?app_assoc_string; by eapply marshal_visible. }
    by rewrite IH by (done || lia).
Qed.

Lemma scan_marshal v : wf_json v → scans v.
Proof.
  induction v as [|b|t|s|t|l IH|l IH] using json_ind; intros Hwf t' f r Ht Hf Hr.
  - cbn in Ht. simplify_eq. cbn in Hf. destruct f; [lia|]. reflexivity.
  - cbn in Ht. simplify_eq. destruct b; cbn in Hf; (destruct f; [lia|]); reflexivity.
  - cbn in Ht. simplify_eq. destruct Hwf as [Hn Hs]. rewrite <- (Hs r Hr).
    destruct t' as [|c t']; [done|]. destruct f as [|f]; [cbn in Hf; lia|].
    destruct c as [[] [] [] [] [] [] [] []]; first [by vm_compute in Hn | reflexivity].
  - cbn in Ht. simplify_eq. unfold json_quote in *. rewrite !length_app_string in Hf. cbn in Hf.
    destruct f as [|f]; [lia|]. rewrite !app_assoc_string.
    change (dq +:+ ?z) with (String (byte 34) z) at 1. cbn [scan_value].
    change (code (byte 34) =? 34) with true. cbn iota.
    by rewrite parse_quote by (rewrite !length_app_string; lia).
  - done.
  - rewrite marshal_arr in Ht. apply bind_Some in Ht as (ts & Hts & [= <-]). apply wf_arr in Hwf.
    rewrite !length_app_string in Hf. cbn in Hf. destruct f as [|f]; [lia|].
    rewrite !app_assoc_string. change ("[" +:+ ?z) with (String "[" z). destruct l as [|x l].
    { cbn in Hts. simplify_eq. reflexivity. }
    assert (Forall scans (x :: l)) as Hsc by (eapply Forall_impl; [apply Forall_and; split; [exact IH|exact Hwf]|]; by intros v [H1 H2]; apply H1).
    assert (visible (Join ts "," +:+ "]" +:+ r)) as Hv.
    { cbn in Hts. apply bind_Some in Hts as (? & Hy & Hts). apply bind_Some in Hts as (ts' & _ & [= <-]).
      apply Forall_cons in Hwf as [Hwx _]. cbn [Join]. destruct ts'; rewrite ?app_assoc_string; by eapply marshal_visible. }
    cbn [scan_value]. change (code "[" =? 34) with false. change (code "[" =? 123) with false.
    change (code "[" =? 91) with true. cbn iota. rewrite (visible_ws _ Hv).
    rewrite (scan_elements_marshal (x :: l)) by (done || lia).
    destruct (Join ts "," +:+ "]" +:+ r) as [|d q]; [done|]. destruct Hv as (_ & Hd & _).
    by destruct (Nat.eqb_spec (code d) 93).
  - rewrite marshal_obj in Ht. apply bind_Some in Ht as (ts & Hts & [= <-]). apply wf_obj in Hwf.
    rewrite !length_app_string in Hf. cbn in Hf. destruct f as [|f]; [lia|].
    rewrite !app_assoc_string. change ("{" +:+ ?z) with (String "{" z). destruct l as [|x l].
    { cbn in Hts. simplify_eq. reflexivity. }
    assert (Forall (fun kv => scans kv.2) (x :: l)) as Hsc by (eapply Forall_impl; [apply Forall_and; split; [exact IH|exact Hwf]|]; by intros v [H1 H2]; apply H1).
    assert (∃ d q, Join ts "," +:+ "}" +:+ r = String d q ∧ code d = 34) as (d & q & Hq & Hd).
    { destruct x as [k x]. cbn in Hts. apply bind_Some in Hts as (? & Hy & Hts).
      apply bind_Some in Hts as (ts' & _ & [= <-]). cbn [Join]. unfold json_quote.
      destruct ts'; rewrite !app_assoc_string; by eexists (byte 34), _. }
    cbn [scan_value]. change (code "{" =? 34) with false. change (code "{" =? 123) with true. cbn iota.
    assert (ws (Join ts "," +:+ "}" +:+ r) = Join ts "," +:+ "}" +:+ r) as ->.
    { rewrite Hq. apply ws_stop. unfold is_ws. by rewrite Hd. }
    rewrite (scan_members_marshal (x :: l)) by (done || lia). rewrite Hq.
    destruct (Nat.eqb_spec (code d) 125); [lia|]. done.
Qed.

(** ** Whole texts *)

Lemma value_text_marshal v : wf_json v → value_text (Marshal v) = Some (Marshal v).
Proof.
  intros Hwf. destruct (marshal_total v Hwf) as [t Ht]. rewrite (Marshal_some _ _ Ht).
  pose proof (marshal_visible v t "" Hwf Ht) as Hv. rewrite app_nil_r_string in Hv.
  unfold value_text. rewrite (visible_ws t Hv). pose proof (scan_marshal v Hwf t (scan_fuel t) "" Ht) as Hs.
  rewrite app_nil_r_string in Hs. rewrite Hs by (done || (unfold scan_fuel; lia)). cbn.
  by rewrite <- (app_nil_r_string t), upto_app at 1.
Qed.

Lemma members_marshal l : wf_json (JObj l) → members (Marshal (JObj l)) = Some (member_texts l).
Proof.
  intros Hwf. destruct (marshal_total _ Hwf) as [t Ht]. rewrite (Marshal_some _ _ Ht).
  rewrite marshal_obj in Ht. apply bind_Some in Ht as (ts & Hts & [= <-]). apply wf_obj in Hwf.
  destruct l as [|[k x] l]; [cbn in Hts; by simplify_eq|].
  assert (Forall (fun kv => scans kv.2) ((k, x) :: l)) as Hsc
    by (eapply Forall_impl; [exact Hwf|]; intros v; apply scan_marshal).
  pose proof (scan_members_marshal ((k, x) :: l) ts (scan_fuel ("{" +:+ Join ts "," +:+ "}")) "") as H.
  assert (∃ q, Join ts "," +:+ "}" = String (byte 34) q) as [q Hq].
  { cbn in Hts. apply bind_Some in Hts as (? & Hy & Hts). apply bind_Some in Hts as (ts' & _ & [= <-]).
    cbn [Join]. unfold json_quote. destruct ts'; rewrite !app_assoc_string; by eexists. }
  change ("{" +:+ ?z) with (String "{" z) in *. unfold members.
  change (code "{" =? 123) with true. cbn iota. rewrite app_nil_r_string in H.
  assert (ws (Join ts "," +:+ "}") = Join ts "," +:+ "}") as -> by (rewrite Hq; by apply ws_stop).
  rewrite H; [|done..|]. { by rewrite Hq. }
  unfold scan_fuel. cbn [String.length]. rewrite length_app_string. cbn. lia.
Qed.

Lemma st_string_marshal s old : st_string (Marshal (JStr s)) old = (to_valid s, false).
Proof.
  rewrite (Marshal_some (JStr s) (json_quote s) eq_refl). unfold st_string, json_quote.
  change (dq +:+ quote_body s +:+ dq) with (String (byte 34) (quote_body s +:+ dq)).
  destruct (String.eqb_spec (String (byte 34) (quote_body s +:+ dq)) "null"); [done|].
  change (is_quote (byte 34)) with true. cbn iota.
  pose proof (parse_quote s (S (String.length (quote_body s +:+ dq))) "") as H. rewrite app_nil_r_string in H.
  rewrite H; [done|]. rewrite length_app_string. cbn. lia.
Qed.

(** ** Integers *)

Lemma decimal_pretty_go x s : decimal 0 (pretty_N_go x s) = decimal (Z.of_N x) s.
Proof.
  revert s. induction (N.lt_wf_0 x) as [x _ IH]; intros s.
  destruct (decide (0 < x)%N) as [Hx|Hx].
  - rewrite pretty_N_go_step by done. rewrite IH by (by apply N.div_lt). cbn [decimal].
    assert (∀ d, (d < 10)%N → digit_val (pretty_N_char d) = Some (Z.of_N d)) as Hd.
    { intros d Hd. destruct d as [|p]; [reflexivity|]. do 4 (destruct p as [p|p|]; try reflexivity; try lia). }
    rewrite Hd by (apply N.mod_lt; lia). f_equal. rewrite (N.div_mod x 10) at 3 by lia. lia.
  - assert (x = 0%N) as -> by lia. by rewrite pretty_N_go_0.
Qed.

Lemma decimal_pretty x : decimal 0 (pretty x) = Some (Z.of_N x).
Proof. unfold pretty, pretty_N. case_decide; [by subst|]. by rewrite decimal_pretty_go. Qed.

Fixpoint all_digit (s : string) : bool :=
  match s with "" => true | String c s' => is_digit c && all_digit s' end.

Lemma all_digit_pretty_go x s : all_digit s = true → all_digit (pretty_N_go x s) = true.
Proof.
  revert s. induction (N.lt_wf_0 x) as [x _ IH]; intros s Hs.
  destruct (decide (0 < x)%N) as [Hx|Hx].
  - rewrite pretty_N_go_step by done. apply IH; [by apply N.div_lt|]. cbn [all_digit].
    by rewrite pretty_N_char_digit, Hs.
  - assert (x = 0%N) as -> by lia. by rewrite pretty_N_go_0.
Qed.

Lemma all_digit_pretty (x : N) : all_digit (pretty x) = true.
Proof. unfold pretty, pretty_N. case_decide; [done|]. by apply all_digit_pretty_go. Qed.

Lemma stops_not_digit r : stops r → digits r = ("", r).
Proof.
  destruct r as [|c r]; [done|]. intros H. cbn. unfold is_digit. change (nat_of_ascii c) with (code c).
  destruct H as [->|[->| ->]]; reflexivity.
Qed.

Lemma digits_app s r : all_digit s = true → stops r → digits (s +:+ r) = (s, r).
Proof.
  intros Hs Hr. induction s as [|c s IH]; [by apply stops_not_digit|].
  cbn in Hs. apply andb_prop in Hs as [Hc Hs]. rewrite append_cons. cbn. rewrite Hc. by rewrite IH.
Qed.

Lemma stops_tail r : stops r → scan_frac r = Some r ∧ scan_exp r = Some r.
Proof.
  destruct r as [|c r]; [done|]. cbn. intros [->|[->| ->]]; done.
Qed.

Lemma pretty_go_head x s : (0 < x)%N → ∃ c q, pretty_N_go x s = String c q ∧ code c ≠ 48.
Proof.
  revert s. induction (N.lt_wf_0 x) as [x _ IH]; intros s Hx. rewrite pretty_N_go_step by done.
  destruct (decide (0 < x / 10)%N) as [Hq|Hq]; [apply IH; [by apply N.div_lt|done]|].
  apply N.nlt_ge, N.le_0_r in Hq as E. rewrite E, pretty_N_go_0. eexists _, _. split; [done|].
  assert (x < 10)%N by (apply N.div_small_iff in E; lia). rewrite N.mod_small by done.
  destruct x as [|p]; [lia|]. do 4 (destruct p as [p|p|]; try (vm_compute; congruence); try lia).
Qed.

Lemma scan_int_pretty (x : N) r : stops r → scan_int (pretty x +:+ r) = Some r.
Proof.
  intros Hr. pose proof (all_digit_pretty x) as Hd. unfold pretty, pretty_N in *. case_decide as Hx; [by subst|].
  destruct (pretty_go_head x "") as (c & q & E & Hc); [lia|]. rewrite E in *. cbn in Hd. apply andb_prop in Hd as [H1 H2].
  rewrite append_cons. cbn. destruct (Nat.eqb_spec (code c) 48); [done|]. rewrite H1. by rewrite digits_app.
Qed.

Lemma pretty_head_digit (x : N) : ∃ c q, pretty x = String c q ∧ is_digit c = true.
Proof.
  pose proof (all_digit_pretty x) as Hd. unfold pretty, pretty_N in *. case_decide as Hx; [by eexists _, _|].
  destruct (pretty_go_head x "") as (c & q & E & Hc); [lia|]. rewrite E in *. cbn in Hd.
  apply andb_prop in Hd as [H1 _]. by eexists _, _.
Qed.

Lemma is_digit_not_minus c : is_digit c = true → (code c =? 45) = false.
Proof. unfold is_digit, code. intros H. apply andb_prop in H as [H%Nat.leb_le _]. apply Nat.eqb_neq. lia. Qed.

Lemma jint_wf z : wf_json (jint z).
Proof.
  assert (∀ x : N, is_number (pretty x) = true ∧ ∀ r, stops r → scan_number (pretty x +:+ r) = Some r) as H.
  { intros x. destruct (pretty_head_digit x) as (c & q & E & Hc). split; [rewrite E; cbn; by rewrite Hc|].
    intros r Hr. unfold scan_number. rewrite E, append_cons. rewrite (is_digit_not_minus c Hc).
    rewrite <- append_cons, <- E, scan_int_pretty by done. cbn. destruct (stops_tail r Hr) as [H1 H2].
    rewrite H1. cbn. by rewrite H2. }
  cbn. destruct z as [|p|p]; [apply (H 0%N)|apply (H (Npos p))|]. split; [done|]. intros r Hr.
  destruct (H (Npos p)) as [_ Hs]. specialize (Hs r Hr). unfold scan_number in *.
  destruct (pretty_head_digit (Npos p)) as (c & q & E & Hc).
  change (pretty (Z.neg p)) with (String "-" (pretty (Npos p))). rewrite append_cons.
  change (code "-" =? 45) with true. cbn iota. rewrite E, append_cons in Hs |- *.
  by rewrite (is_digit_not_minus c Hc) in Hs.
Qed.

Lemma ParseInt_pretty z : in_int64 z → ParseInt (pretty z) = Some z.
Proof.
  assert (∀ (neg : bool) (x : N), in_int64 (if neg then - Z.of_N x else Z.of_N x)%Z →
    (match digits (pretty x) with
     | (d, "") => if String.eqb d "" then None else
         v ← decimal 0%Z d; let v := if neg then (- v)%Z else v in
         if ((int64_min <=? v) && (v <=? int64_max))%Z then Some v else None
     | _ => None end) = Some (if neg then - Z.of_N x else Z.of_N x)%Z) as H.
  { intros neg x [H1 H2]. rewrite <- (app_nil_r_string (pretty x)), digits_app by (done || apply all_digit_pretty).
    destruct (pretty_head_digit x) as (c & q & E & _). rewrite E at 1. cbn [String.eqb].
    rewrite decimal_pretty. cbn. apply Z.leb_le in H1, H2. destruct neg; by rewrite H1, H2. }
  intros Hz. unfold ParseInt. destruct z as [|p|p].
  - reflexivity.
  - specialize (H false (Npos p) Hz). destruct (pretty_head_digit (Npos p)) as (c & q & E & Hc).
    change (pretty (Z.pos p)) with (pretty (Npos p)). rewrite E in *. rewrite (is_digit_not_minus c Hc). exact H.
  - specialize (H true (Npos p) Hz). change (pretty (Z.neg p)) with (String "-" (pretty (Npos p))).
    change (code "-" =? 45) with true. exact H.
Qed.

Lemma st_int_marshal z old : in_int64 z → st_int (Marshal (jint z)) old = (z, false).
Proof.
  intros Hz. rewrite (Marshal_some (jint z) (pretty z) eq_refl). unfold st_int. rewrite ParseInt_pretty by done.
  destruct (String.eqb_spec (pretty z) "null") as [E|E]; [|done]. pose proof (jint_wf z) as [Hn _]. by rewrite E in Hn.
Qed.

(** ** Structs *)

Lemma Marshal_obj_head l : wf_json (JObj l) → ∃ q, Marshal (JObj l) = String "{" q.
Proof.
  intros Hwf. destruct (marshal_total _ Hwf) as [t Ht]. rewrite (Marshal_some _ _ Ht).
  rewrite marshal_obj in Ht. apply bind_Some in Ht as (ts & _ & [= <-]). by eexists.
Qed.

Lemma struct_members_marshal l :
  wf_json (JObj l) → struct_members (Marshal (JObj l)) = (member_texts l, false).
Proof.
  intros Hwf. unfold struct_members. rewrite members_marshal by done.
  destruct (Marshal_obj_head l Hwf) as [q ->]. done.
Qed.

Lemma elements_marshal l :
  wf_json (JArr l) → elements (Marshal (JArr l)) = Some (map Marshal l).
Proof.
  intros Hwf. destruct (marshal_total _ Hwf) as [t Ht]. rewrite (Marshal_some _ _ Ht).
  rewrite marshal_arr in Ht. apply bind_Some in Ht as (ts & Hts & [= <-]). apply wf_arr in Hwf.
  assert (ts = map Marshal l) as <-.
  { clear -Hts. revert ts Hts. induction l as [|x l IH]; intros ts Hts; cbn in Hts; [by simplify_eq|].
    apply bind_Some in Hts as (t & Ht & Hts). apply bind_Some in Hts as (ts' & Hts' & [= <-]).
    cbn [map]. by rewrite (Marshal_some _ _ Ht), <- (IH ts'). }
  destruct l as [|x l]; [cbn in Hts; by simplify_eq|].
  assert (Forall scans (x :: l)) as Hsc by (eapply Forall_impl; [exact Hwf|apply scan_marshal]).
  pose proof (scan_elements_marshal (x :: l) ts (scan_fuel ("[" +:+ Join ts "," +:+ "]")) "") as H.
  rewrite app_nil_r_string in H.
  assert (visible (Join ts "," +:+ "]")) as Hv.
  { cbn in Hts. apply bind_Some in Hts as (? & Hy & Hts). apply bind_Some in Hts as (ts' & _ & [= <-]).
    apply Forall_cons in Hwf as [Hwx _]. cbn [Join]. destruct ts'; rewrite ?app_assoc_string; by eapply marshal_visible. }
  change ("[" +:+ ?z) with (String "[" z) in *. unfold elements.
  change (code "[" =? 91) with true. cbn iota. rewrite (visible_ws _ Hv), H; [|done..|].
  - destruct (Join ts "," +:+ "]") as [|d q]; [done|]. destruct Hv as (_ & Hd & _).
    by destruct (Nat.eqb_spec (code d) 93).
  - unfold scan_fuel. cbn [String.length]. rewrite length_app_string. cbn. lia.
Qed.

Lemma Unmarshal_marshal {A} (st : store A) zero v :
  wf_json v → Unmarshal st zero (Marshal v) = st (Marshal v) zero.
Proof. intros H. unfold Unmarshal. by rewrite value_text_marshal. Qed.

Lemma DecodeFirst_marshal {A} (st : store A) zero v :
  wf_json v → DecodeFirst st zero (Marshal v) = st (Marshal v) zero.
Proof.
  intros Hwf. destruct (marshal_total v Hwf) as [t Ht]. rewrite (Marshal_some _ _ Ht).
  pose proof (marshal_visible v t "" Hwf Ht) as Hv. rewrite app_nil_r_string in Hv.
  unfold DecodeFirst. rewrite (visible_ws t Hv). pose proof (scan_marshal v Hwf t (scan_fuel t) "" Ht) as Hs.
  rewrite app_nil_r_string in Hs. rewrite Hs by (done || (unfold scan_fuel; lia)). cbn.
  by rewrite <- (app_nil_r_string t), upto_app at 1.
Qed.

(** The text of an object, with the white space of a line around it. *)
Lemma rev_app_spec s t : String.rev_app s t = String.rev s +:+ t.
Proof.
  revert t. unfold String.rev. induction s as [|c s IH]; intros t; [done|]. cbn.
  by rewrite IH, (IH (String c "")), app_assoc_string.
Qed.

Lemma rev_cons c s : String.rev (String c s) = String.rev s +:+ String c "".
Proof. unfold String.rev at 1. cbn. apply rev_app_spec. Qed.

Lemma rev_app_string s t : String.rev (s +:+ t) = String.rev t +:+ String.rev s.
Proof.
  induction s as [|c s IH]; [by rewrite app_nil_r_string|].
  by rewrite append_cons, !rev_cons, IH, app_assoc_string.
Qed.

Lemma rev_involutive_string s : String.rev (String.rev s) = s.
Proof. induction s as [|c s IH]; [done|]. rewrite rev_cons, rev_app_string, IH. done. Qed.

Lemma trim_right_brace s : TrimRightSpace (s +:+ "}") = s +:+ "}".
Proof.
  unfold TrimRightSpace. rewrite rev_app_string. change (String.rev "}" +:+ ?z) with (String "}" z).
  rewrite length_app_string, Nat.add_comm. cbn [String.length Nat.add trim_left].
  assert (∀ z, leading_space (map String.rev space_encodings) (String "}" z) = None) as -> by (intros z; vm_compute; reflexivity).
  change (String "}" (String.rev s)) with (String.rev "}" +:+ String.rev s).
  by rewrite <- rev_app_string, rev_involutive_string.
Qed.

Lemma trim_left_letter c s :
  c = "d"%char ∨ c = "{"%char → TrimLeftSpace (String c s) = String c s.
Proof. by intros [-> | ->]; unfold TrimLeftSpace; cbn [String.length trim_left]; vm_compute leading_space. Qed.

(** A list of values, each read back by [st]. *)
Lemma st_list_marshal {A B} (st : store A) zero old (f : B → json) (g : B → A) (l : list B) :
  wf_json (JArr (map f l)) → (∀ b, b ∈ l → st (Marshal (f b)) zero = (g b, false)) →
  st_list zero st (Marshal (JArr (map f l))) old = (map g l, false).
Proof.
  intros Hwf Hst. unfold st_list. rewrite elements_marshal by done.
  assert (Marshal (JArr (map f l)) ≠ "null") as Hn.
  { destruct (marshal_total _ Hwf) as [t Ht]. rewrite (Marshal_some _ _ Ht). rewrite marshal_arr in Ht.
    by apply bind_Some in Ht as (ts & _ & [= <-]). }
  apply String.eqb_neq in Hn. rewrite Hn, !map_map. clear Hwf Hn. f_equal.
  - apply map_ext_in. intros b Hb. rewrite Hst; [done|by apply list_elem_of_In].
  - apply not_true_iff_false. rewrite existsb_exists. intros (x & Hx & E).
    apply in_map_iff in Hx as (b & <- & Hb). rewrite Hst in E; [done|by apply list_elem_of_In].
Qed.

(** *** Fields of known members *)

Section Fields.
#[local] Arguments EqualFold : simpl never.
Context {A : Type} (name : string) (st : store A).

Lemma field_nil z : field name st z [] = (z, false).
Proof. done. Qed.

Lemma field_miss k raw ms z : EqualFold k name = false → field name st z ((k, raw) :: ms) = field name st z ms.
Proof. intros H. unfold field. cbn. by rewrite H. Qed.

Lemma field_absent ms z :
  existsb (fun kv => EqualFold kv.1 name) ms = false → ∀ e, foldl (fun '(v, e) '(k, raw) =>
    if EqualFold k name then let '(v', e') := st raw v in (v', e || e') else (v, e)) (z, e) ms = (z, e).
Proof.
  induction ms as [|[k raw] ms IH]; [done|]. cbn. intros H e. apply orb_false_elim in H as [H1 H2].
  rewrite H1. by apply IH.
Qed.

Lemma field_hit k raw ms z :
  EqualFold k name = true → existsb (fun kv => EqualFold kv.1 name) ms = false →
  field name st z ((k, raw) :: ms) = st raw z.
Proof.
  intros H1 H2. unfold field. cbn. rewrite H1. destruct (st raw z) as [v e]. by rewrite field_absent.
Qed.
End Fields.

(** The fields of a struct read from members with known keys. *)
Ltac known_fields :=
  unfold member_texts; cbn [map fst snd app];
  repeat first
    [ rewrite field_miss by (lazy; reflexivity)
    | rewrite field_hit by (lazy; reflexivity)
    | rewrite field_nil ].
