(* ===== verification/Limiter.v ===== *)
(** * Limiter: src/internal/limiter

    The three limiters of the package: [Memory] (requests per minute and spend
    per month of a virtual key), [ConcurrencyCap] (requests in flight per key)
    and [IPLimiter] (token bucket per client address).  The clock is an
    argument, and so is the order in which Go's [range] visits a map, wherever
    the result can depend on it. *)

From S2P Require Import Prelude GoString Float64 GoTime.
Local Open Scope string_scope.
Local Open Scope Z_scope.

(** ** Windows and bucket keys (limiter.go) *)

Definition minuteWindow (t : Time) : string :=
  append_int (c_year (date_of t)) 4 +:+ append_int (c_month (date_of t)) 2 +:+
  append_int (c_day (date_of t)) 2 +:+ append_int (hour_of t) 2 +:+
  append_int (minute_of t) 2.

Definition monthWindow (t : Time) : string :=
  append_int (c_year (date_of t)) 4 +:+ append_int (c_month (date_of t)) 2.

Definition rpmKey (keyID win : string) : string :=
  "nexus:rpm:" +:+ keyID +:+ ":" +:+ win.
Definition spendKey (keyID win : string) : string :=
  "nexus:spend:" +:+ keyID +:+ ":" +:+ win.

(** The operations of the [Limiter] interface, over the state [S] of an
    implementation.  [E] is the type of errors. *)
Record LimiterOps (E S : Type) := {
  op_Allow : string → Z → S → res E bool * S;
  op_MonthlySpend : string → S → res E float64;
  op_AddSpend : string → float64 → S → res E unit * S
}.
Arguments op_Allow {E S}.
Arguments op_MonthlySpend {E S}.
Arguments op_AddSpend {E S}.

(** ** Memory (memory.go) *)
Module Memory.

Record Memory := mkMemory {
  rpm : gmap string Z;
  spend : gmap string float64
}.

Definition NewMemory : Memory := mkMemory ∅ ∅.

(** The sweep of [Allow]: [range] over the map in [order], deleting the visited
    bucket while the map is large. *)
Definition sweep (k : string) (order : list string) (m : gmap string Z) : gmap string Z :=
  foldl (fun m existing =>
    if bool_decide (existing ≠ k) && (10000 <? Z.of_nat (size m))
    then delete existing m else m) m order.

Definition Allow (now : Time) (order : list string) (keyID : string) (rpmLimit : Z)
    (m : Memory) : bool * Memory :=
  if rpmLimit <=? 0 then (true, m)
  else
    let k := rpmKey keyID (minuteWindow now) in
    let swept := sweep k order (rpm m) in
    let n := wrap64 (default 0 (swept !! k) + 1) in
    (n <=? rpmLimit, mkMemory (<[k := n]> swept) (spend m)).

Definition MonthlySpend (now : Time) (keyID : string) (m : Memory) : float64 :=
  default fzero (spend m !! spendKey keyID (monthWindow now)).

Definition AddSpend (now : Time) (keyID : string) (costUSD : float64) (m : Memory) : Memory :=
  if fle costUSD fzero then m
  else
    let k := spendKey keyID (monthWindow now) in
    mkMemory (rpm m) (<[k := fadd (default fzero (spend m !! k)) costUSD]> (spend m)).

(** [Memory] as a [Limiter]; it never returns an error. *)
Definition ops (E : Type) (now : Time) (order : list string) : LimiterOps E Memory := {|
  op_Allow keyID rpmLimit m := let '(b, m') := Allow now order keyID rpmLimit m in (Ok b, m');
  op_MonthlySpend keyID m := Ok (MonthlySpend now keyID m);
  op_AddSpend keyID c m := (Ok tt, AddSpend now keyID c m)
|}.

End Memory.

(** ** ConcurrencyCap (concurrency.go) *)
Module Cap.

Record ConcurrencyCap := mkCap {
  perKey : gmap string Z;
  maxPerKey : Z
}.

Definition NewConcurrencyCap (max : Z) : ConcurrencyCap := mkCap ∅ max.

(** A nil receiver is [None]. *)
Definition Acquire (c : option ConcurrencyCap) (keyID : string) : bool * option ConcurrencyCap :=
  match c with
  | None => (true, None)
  | Some s =>
      if maxPerKey s <=? 0 then (true, c)
      else
        let n := default 0 (perKey s !! keyID) in
        if maxPerKey s <=? n then (false, c)
        else (true, Some (mkCap (<[keyID := wrap64 (n + 1)]> (perKey s)) (maxPerKey s)))
  end.

Definition Release (c : option ConcurrencyCap) (keyID : string) : option ConcurrencyCap :=
  match c with
  | None => None
  | Some s =>
      if maxPerKey s <=? 0 then c
      else
        let n := default 0 (perKey s !! keyID) in
        let m1 := if 0 <? n then <[keyID := n - 1]> (perKey s) else perKey s in
        let m2 := if default 0 (m1 !! keyID) =? 0 then delete keyID m1 else m1 in
        Some (mkCap m2 (maxPerKey s))
  end.

Definition Max (c : option ConcurrencyCap) : Z :=
  match c with None => 0 | Some s => maxPerKey s end.

Definition Inflight (c : option ConcurrencyCap) (keyID : string) : Z :=
  match c with None => 0 | Some s => default 0 (perKey s !! keyID) end.

End Cap.

(** ** IPLimiter (iplimiter.go) *)
Module IP.

Record bucket := mkBucket { tokens : float64; last : Time }.

Record IPLimiter := mkIPLimiter {
  capacity : Z;
  refill : Duration;
  gcInterval : Duration;
  buckets : gmap string bucket;
  lastGC : Time
}.

Definition NewIPLimiter (capacity : Z) (refill : Duration) : IPLimiter :=
  mkIPLimiter capacity refill refill ∅ zero_time.

(** [gcLocked]: every bucket is visited once and the test looks at that bucket
    alone, so the visiting order does not matter and the loop is a filter. *)
Definition gcLocked (refill : Duration) (now : Time) (bs : gmap string bucket) : gmap string bucket :=
  filter (fun kb => Before (last (snd kb)) (Add now (- refill)) = false) bs.

Definition refilled (l : IPLimiter) (now : Time) (b : bucket) : float64 :=
  let elapsed := Seconds (Sub now (last b)) in
  let rate := fdiv (of_Z (capacity l)) (Seconds (refill l)) in
  let t := fadd (tokens b) (fmul elapsed rate) in
  if fgt t (of_Z (capacity l)) then of_Z (capacity l) else t.

Definition Allow (now : Time) (key : string) (l : IPLimiter) : bool * IPLimiter :=
  if capacity l <=? 0 then (true, l)
  else
    let '(bs, gc) :=
      if gcInterval l <=? Sub now (lastGC l)
      then (gcLocked (refill l) now (buckets l), now)
      else (buckets l, lastGC l) in
    let b := default (mkBucket (of_Z (capacity l)) now) (bs !! key) in
    let t := refilled l now b in
    let '(ok, t') := if flt t fone then (false, t) else (true, fsub t fone) in
    (ok, mkIPLimiter (capacity l) (refill l) (gcInterval l) (<[key := mkBucket t' now]> bs) gc).

End IP.

(** ** Windows identify minutes and months *)

(** Instants from the Unix epoch to the end of year 9999. *)
Definition valid_time (t : Time) : Prop := 0 ≤ t < 253402300800 * Second.

Lemma valid_time_year t : valid_time t → 1000 ≤ c_year (date_of t) < 10000.
Proof.
  unfold valid_time, date_of, day_ns, Hour, Minute, Second. intros Ht.
  set (days := t / _).
  assert (0 ≤ days < 2932897) as Hd by (subst days; Z.div_mod_to_equations; lia).
  pose proof (days_of_civil_of_days days) as Hr.
  pose proof (civil_of_days_range days) as [Hm Hdd].
  destruct (civil_of_days days) as [y m d]. unfold days_of_civil in Hr.
  cbn [c_year c_month c_day] in *.
  destruct (m <=? 2) eqn:Hle; reflect_bools; Z.div_mod_to_equations; lia.
Qed.

Lemma hour_minute_range t : 0 ≤ hour_of t < 24 ∧ 0 ≤ minute_of t < 60.
Proof.
  unfold hour_of, minute_of, day_ns, Hour, Minute, Second. Z.div_mod_to_equations. lia.
Qed.

Lemma minute_index t :
  t / Minute = t / day_ns * 1440 + hour_of t * 60 + minute_of t.
Proof.
  unfold hour_of, minute_of, day_ns, Hour, Minute, Second. Z.div_mod_to_equations. lia.
Qed.

Lemma append_int_2_length z : 0 ≤ z < 100 → String.length (append_int z 2) = 2%nat.
Proof. intros H. by apply append_int_2. Qed.
Lemma append_int_4_length z : 1000 ≤ z < 10000 → String.length (append_int z 4) = 4%nat.
Proof. intros H. by apply append_int_4. Qed.

Ltac window_bounds t :=
  let H := fresh in
  pose proof (civil_of_days_range (t / day_ns)) as H; fold (date_of t) in H;
  pose proof (hour_minute_range t).

Lemma minuteWindow_length t : valid_time t → String.length (minuteWindow t) = 12%nat.
Proof.
  intros Ht. pose proof (valid_time_year t Ht). window_bounds t. unfold minuteWindow.
  rewrite !length_app_string, append_int_4_length, !append_int_2_length by (simpl in *; lia).
  done.
Qed.

Lemma monthWindow_length t : valid_time t → String.length (monthWindow t) = 6%nat.
Proof.
  intros Ht. pose proof (valid_time_year t Ht). window_bounds t. unfold monthWindow.
  rewrite !length_app_string, append_int_4_length, !append_int_2_length by (simpl in *; lia).
  done.
Qed.

Lemma minuteWindow_minute t t' :
  valid_time t → valid_time t' → minuteWindow t = minuteWindow t' → t / Minute = t' / Minute.
Proof.
  intros Ht Ht' Heq. pose proof (valid_time_year t Ht). pose proof (valid_time_year t' Ht').
  window_bounds t. window_bounds t'. unfold minuteWindow in Heq. cbn beta zeta in *.
  apply append_int_4_app_inj in Heq as [Ey Heq]; [|lia..].
  apply append_int_2_app_inj in Heq as [Em Heq]; [|lia..].
  apply append_int_2_app_inj in Heq as [Ed Heq]; [|lia..].
  apply append_int_2_app_inj in Heq as [Eh Heq]; [|lia..].
  rewrite <- (app_nil_r_string (append_int (minute_of t) 2)) in Heq.
  rewrite <- (app_nil_r_string (append_int (minute_of t') 2)) in Heq.
  apply append_int_2_app_inj in Heq as [En _]; [|lia..].
  assert (t / day_ns = t' / day_ns) as Eday.
  { apply civil_of_days_inj. fold (date_of t) (date_of t').
    destruct (date_of t), (date_of t'). simpl in *. congruence. }
  rewrite (minute_index t), (minute_index t'). congruence.
Qed.

Lemma minuteWindow_eq t t' : t / Minute = t' / Minute → minuteWindow t = minuteWindow t'.
Proof.
  intros E. assert (t / day_ns = t' / day_ns ∧ hour_of t = hour_of t' ∧ minute_of t = minute_of t')
    as (Ed & Eh & Em).
  { unfold hour_of, minute_of, day_ns, Hour, Minute, Second in *. Z.div_mod_to_equations. lia. }
  unfold minuteWindow, date_of. by rewrite Ed, Eh, Em.
Qed.

(** A bucket key determines the virtual key and the window, whatever bytes the
    virtual key holds, because windows have a fixed length. *)
Lemma suffix_length_inj (s s' t t' : string) :
  String.length t = String.length t' → s +:+ t = s' +:+ t' → s = s' ∧ t = t'.
Proof.
  intros Hl Heq. apply app_length_inj; [|done].
  apply (f_equal String.length) in Heq. rewrite !length_app_string in Heq. lia.
Qed.

Lemma rpmKey_inj k k' w w' :
  String.length w = String.length w' → rpmKey k w = rpmKey k' w' → k = k' ∧ w = w'.
Proof.
  intros Hl Heq. unfold rpmKey in Heq. apply app_length_inj in Heq as [_ Heq]; [|done].
  apply suffix_length_inj in Heq as [-> Heq].
  - apply app_length_inj in Heq as [_ ->]; done.
  - rewrite !length_app_string. by rewrite Hl.
Qed.

Lemma spendKey_inj k k' w w' :
  String.length w = String.length w' → spendKey k w = spendKey k' w' → k = k' ∧ w = w'.
Proof.
  intros Hl Heq. unfold spendKey in Heq. apply app_length_inj in Heq as [_ Heq]; [|done].
  apply suffix_length_inj in Heq as [-> Heq].
  - apply app_length_inj in Heq as [_ ->]; done.
  - rewrite !length_app_string. by rewrite Hl.
Qed.

(** ** Memory refines a log of calls *)
Module MemorySpec.
Import Memory.

(** One call of [Allow]: when, the map visiting order, who, and the limit. *)
Record event := mkEvent { ev_now : Time; ev_order : list string; ev_key : string; ev_limit : Z }.

(** The abstract limiter keeps the log of counted calls (key and minute) and
    admits a call while fewer than [limit] calls are logged for its key in its
    minute. *)
Abbreviation log := (list (string * Z)).

Definition count (st : log) (k : string) (minute : Z) : Z :=
  Z.of_nat (length (filter (fun e => e = (k, minute)) st)).

Definition allow (e : event) (st : log) : bool * log :=
  if ev_limit e <=? 0 then (true, st)
  else (count st (ev_key e) (ev_now e / Minute) <? ev_limit e,
        (ev_key e, ev_now e / Minute) :: st).

Fixpoint run_spec (evs : list event) (st : log) : list bool :=
  match evs with
  | [] => []
  | e :: evs' => let '(b, st') := allow e st in b :: run_spec evs' st'
  end.

Fixpoint run_memory (evs : list event) (m : Memory) : list bool :=
  match evs with
  | [] => []
  | e :: evs' =>
      let '(b, m') := Allow (ev_now e) (ev_order e) (ev_key e) (ev_limit e) m in
      b :: run_memory evs' m'
  end.

Definition sim (st : log) (m : Memory) : Prop :=
  (∀ k t, valid_time t →
     default 0 (rpm m !! rpmKey k (minuteWindow t)) = count st k (t / Minute)) ∧
  (size (rpm m) ≤ length st)%nat.

Lemma count_cons st k k' mi mi' :
  count ((k', mi') :: st) k mi =
  count st k mi + (if decide ((k', mi') = (k, mi)) then 1 else 0).
Proof.
  unfold count. rewrite filter_cons. case_decide; simpl length; lia.
Qed.

Lemma sweep_small k order m : Z.of_nat (size m) ≤ 10000 → sweep k order m = m.
Proof.
  intros Hs. unfold sweep. induction order as [|x order IH]; [done|]. simpl.
  replace (10000 <? Z.of_nat (size m)) with false by (symmetry; apply Z.ltb_ge; lia).
  by rewrite andb_false_r.
Qed.

Lemma sim_step st m e :
  sim st m → valid_time (ev_now e) → Z.of_nat (length st) ≤ 10000 →
  fst (Allow (ev_now e) (ev_order e) (ev_key e) (ev_limit e) m) = fst (allow e st) ∧
  sim (snd (allow e st)) (snd (Allow (ev_now e) (ev_order e) (ev_key e) (ev_limit e) m)).
Proof.
  intros [Hc Hsz] Ht Hlen. unfold Allow, allow.
  destruct (ev_limit e <=? 0) eqn:Hl; [done|]. cbn [fst snd].
  rewrite sweep_small by lia. rewrite Hc by done.
  set (n := count st (ev_key e) (ev_now e / Minute)).
  assert (0 ≤ n ≤ 10000) as Hn.
  { subst n. unfold count.
    pose proof (length_filter (fun e' => e' = (ev_key e, ev_now e / Minute)) st). lia. }
  rewrite wrap64_id by (unfold in_int64, int64_min, int64_max; lia).
  split; [destruct (Z.leb_spec (n + 1) (ev_limit e)), (Z.ltb_spec n (ev_limit e)); lia|].
  split; cbn [rpm].
  - intros k t Hvt. rewrite count_cons, lookup_insert. case_decide as E.
    + apply rpmKey_inj in E as [<- E]; [|by rewrite !minuteWindow_length].
      apply minuteWindow_minute in E; [|done..]. simpl. rewrite E.
      rewrite decide_True by done. rewrite <- E. subst n. lia.
    + rewrite Hc by done. rewrite decide_False; [lia|].
      intros [= <- E']. apply E. by rewrite (minuteWindow_eq _ _ E').
  - destruct (decide (is_Some (rpm m !! rpmKey (ev_key e) (minuteWindow (ev_now e))))) as [Hs|Hs].
    + rewrite map_size_insert_Some by done. simpl. lia.
    + rewrite map_size_insert_None by (by apply eq_None_not_Some). simpl. lia.
Qed.

Lemma run_refines evs st m :
  sim st m → Forall (fun e => valid_time (ev_now e)) evs →
  Z.of_nat (length st) + Z.of_nat (length evs) ≤ 10000 →
  run_memory evs m = run_spec evs st.
Proof.
  revert st m. induction evs as [|e evs IH]; intros st m Hsim Hf Hlen; [done|].
  inversion Hf as [|? ? Ht Hf']; subst. simpl length in Hlen.
  destruct (sim_step st m e Hsim Ht ltac:(lia)) as [Hb Hsim']. simpl.
  assert (length (snd (allow e st)) ≤ S (length st))%nat as Hgrow.
  { unfold allow. case_match; simpl; lia. }
  destruct (Allow _ _ _ _ m) as [b m'], (allow e st) as [b' st']. simpl in *. subst b'.
  f_equal. apply IH; [done..|lia].
Qed.

Lemma sim_init : sim [] NewMemory.
Proof. split; [|done]. intros. simpl. by rewrite lookup_empty. Qed.

(** Calls admitted to key [k] in minute [mi]. *)
Fixpoint granted (evs : list event) (bs : list bool) (k : string) (mi : Z) : Z :=
  match evs, bs with
  | e :: evs', b :: bs' =>
      (if bool_decide (ev_key e = k) && (ev_now e / Minute =? mi) && b then 1 else 0)
      + granted evs' bs' k mi
  | _, _ => 0
  end.

Lemma spec_bound evs st k mi L :
  Forall (fun e => ev_key e = k → ev_now e / Minute = mi → ev_limit e = L) evs → 0 < L →
  granted evs (run_spec evs st) k mi ≤ Z.max 0 (L - count st k mi).
Proof.
  intros Hf HL. revert st. induction Hf as [|e evs Hlim Hf IH]; intros st; simpl; [lia|].
  destruct (allow e st) as [b st'] eqn:Ha. simpl. specialize (IH st').
  unfold allow in Ha. destruct (decide (ev_key e = k ∧ ev_now e / Minute = mi)) as [[Ek Em]|Hne].
  - rewrite (Hlim Ek Em) in Ha. destruct (Z.leb_spec L 0); [lia|].
    injection Ha as <- <-. rewrite bool_decide_true by done.
    rewrite Em, Z.eqb_refl. rewrite count_cons, Ek, Em, decide_True in IH by done.
    rewrite Ek. destruct (Z.ltb_spec (count st k mi) L); simpl; lia.
  - assert (bool_decide (ev_key e = k) && (ev_now e / Minute =? mi) = false) as ->.
    { destruct (bool_decide_reflect (ev_key e = k)); [|done].
      simpl. apply Z.eqb_neq. tauto. }
    simpl. assert (count st' k mi = count st k mi) as <-; [|lia].
    destruct (ev_limit e <=? 0); injection Ha as _ <-; [done|].
    rewrite count_cons, decide_False; [lia|]. intros [= ? ?]. tauto.
Qed.

End MemorySpec.

(** ** The concurrency cap as a transition system *)
Module CapSpec.
Import Cap.

(** A configuration: the cap, and the keys of the admitted requests that have
    not finished.  A request arrives and is admitted or refused; an admitted
    request finishes, in any order, and releases its key. *)
Definition config : Type := option ConcurrencyCap * list string.

Inductive step : config → config → Prop :=
| step_admit c c' fl k :
    Acquire c k = (true, c') → step (c, fl) (c', k :: fl)
| step_refuse c c' fl k :
    Acquire c k = (false, c') → step (c, fl) (c', fl)
| step_finish c fl fl' k :
    fl ≡ₚ k :: fl' → step (c, fl) (Release c k, fl').

Definition occ (k : string) (fl : list string) : Z :=
  Z.of_nat (length (filter (fun x => x = k) fl)).

Definition inv (max : Z) (cf : config) : Prop :=
  ∃ s, fst cf = Some s ∧ maxPerKey s = max ∧
  ∀ k, perKey s !! k = (if decide (occ k (snd cf) = 0) then None else Some (occ k (snd cf))) ∧
       occ k (snd cf) ≤ max.

Lemma occ_cons k x fl : occ k (x :: fl) = occ k fl + (if decide (x = k) then 1 else 0).
Proof. unfold occ. rewrite filter_cons. case_decide; simpl length; lia. Qed.

Lemma occ_perm k fl fl' : fl ≡ₚ fl' → occ k fl = occ k fl'.
Proof. intros H. unfold occ. by rewrite H. Qed.

Lemma occ_nonneg k fl : 0 ≤ occ k fl.
Proof. unfold occ. lia. Qed.

Lemma inv_inflight max cf k : inv max cf → Inflight (fst cf) k = occ k (snd cf).
Proof.
  intros (s & -> & _ & H). destruct (H k) as [E _]. simpl. rewrite E.
  case_decide; simpl; lia.
Qed.

Lemma inv_init max : 0 < max → inv max (Some (NewConcurrencyCap max), []).
Proof.
  intros H. exists (NewConcurrencyCap max). split_and!; [done..|].
  intros k. unfold occ. simpl. rewrite lookup_empty. split; [done|lia].
Qed.

Lemma inv_step max cf cf' : 0 < max ≤ int64_max → inv max cf → step cf cf' → inv max cf'.
Proof.
  intros Hmax Hinv Hstep. pose proof (fun k => inv_inflight _ _ k Hinv) as Hfl.
  destruct Hinv as (s & Hs & Hm & Hk).
  destruct Hstep as [c c' fl k Ha|c c' fl k Ha|c fl fl' k Hp]; simpl in *; subst c.
  - unfold Acquire in Ha. rewrite Hm in Ha.
    destruct (Z.leb_spec max 0); [lia|].
    specialize (Hfl k) as Hflk. simpl in Hflk. rewrite Hflk in Ha.
    destruct (Z.leb_spec max (occ k fl)); [done|]. injection Ha as <-.
    eexists. split_and!; [done..|]. intros k'. cbn [fst snd] in *. destruct (Hk k') as [Ek Hle].
    pose proof (occ_nonneg k fl). rewrite occ_cons. cbn [perKey]. rewrite lookup_insert.
    unfold int64_max in Hmax.
    rewrite wrap64_id by (unfold in_int64, int64_min, int64_max; lia).
    destruct (decide (k = k')) as [<-|Hne].
    + rewrite decide_False by lia. split; [done|lia].
    + rewrite Z.add_0_r. done.
  - unfold Acquire in Ha. repeat case_match; simplify_eq. by exists s.
  - unfold Release. rewrite Hm. destruct (Z.leb_spec max 0); [lia|].
    specialize (Hfl k) as Hflk. simpl in Hflk. rewrite Hflk.
    assert (occ k fl = occ k fl' + 1) as Eocc.
    { rewrite (occ_perm k _ _ Hp), occ_cons, decide_True by done. lia. }
    pose proof (occ_nonneg k fl'). destruct (Z.ltb_spec 0 (occ k fl)); [|lia].
    rewrite lookup_insert_eq. simpl. eexists. split_and!; [done..|]. cbn [perKey].
    intros k'. cbn [fst snd] in *. destruct (Hk k') as [Ek Hle].
    pose proof (occ_perm k' _ _ Hp) as Ep. rewrite occ_cons in Ep.
    destruct (Z.eqb_spec (occ k fl - 1) 0) as [E0|E0].
    + rewrite delete_insert_eq, lookup_delete. destruct (decide (k = k')) as [<-|Hne].
      * rewrite decide_True by lia. split; [done|lia].
      * rewrite Z.add_0_r in Ep. rewrite <- Ep. done.
    + rewrite lookup_insert. destruct (decide (k = k')) as [<-|Hne].
      * rewrite decide_False by lia. split; [f_equal; lia|lia].
      * rewrite Z.add_0_r in Ep. rewrite <- Ep. done.
Qed.

Lemma inv_reachable max cf :
  0 < max ≤ int64_max → rtc step (Some (NewConcurrencyCap max), []) cf → inv max cf.
Proof.
  intros Hmax Hr. assert (inv max (Some (NewConcurrencyCap max), [])) as Hi by (apply inv_init; lia).
  induction Hr; [done|]. eauto using inv_step.
Qed.

End CapSpec.

(** ** The token bucket at one instant *)
Module IPSpec.
Import IP.

Lemma Sub_diag t : Sub t t = 0.
Proof. unfold Sub. rewrite Z.sub_diag. reflexivity. Qed.

(** [n] requests of one client at one instant. *)
Fixpoint burst (n : nat) (now : Time) (key : string) (l : IPLimiter) : list bool :=
  match n with
  | O => []
  | S n' => let '(b, l') := Allow now key l in b :: burst n' now key l'
  end.

(** The limiter after the bucket of [key] holds [j] tokens at [now]. *)
Definition holds (now : Time) (key : string) (j : Z) (l : IPLimiter) : Prop :=
  capacity l = 30 ∧ refill l = Minute ∧ gcInterval l = Minute ∧ lastGC l = now ∧
  buckets l !! key = Some (mkBucket (of_Z j) now).

Definition token_ok (j : Z) : bool :=
  let t := fadd (of_Z j) (fmul (Seconds 0) (fdiv (of_Z 30) (Seconds Minute))) in
  negb (fgt t (of_Z 30)) && negb (flt t fone) &&
  match SFcompare (fsub t fone) (of_Z (j - 1)), fsub t fone, of_Z (j - 1) with
  | Some Eq, S754_finite s m e, S754_finite s' m' e' =>
      Bool.eqb s s' && Pos.eqb m m' && Z.eqb e e'
  | Some Eq, S754_zero s, S754_zero s' => Bool.eqb s s'
  | _, _, _ => false
  end.

Lemma tokens_ok : all_below 30 token_ok 1 = true.
Proof. vm_compute. reflexivity. Qed.

Lemma token_spend j : 1 ≤ j ≤ 30 →
  let t := fadd (of_Z j) (fmul (Seconds 0) (fdiv (of_Z 30) (Seconds Minute))) in
  fgt t (of_Z 30) = false ∧ flt t fone = false ∧ fsub t fone = of_Z (j - 1).
Proof.
  intros Hj t. pose proof (all_below_spec _ _ _ tokens_ok j ltac:(lia)) as H.
  unfold token_ok in H. fold t in H. apply andb_prop in H as [H H3].
  apply andb_prop in H as [H1 H2].
  apply negb_true_iff in H1, H2. split_and!; [done..|].
  destruct (SFcompare _ _) as [[]|]; [|done..].
  destruct (fsub t fone) as [s| | |s m e], (of_Z (j - 1)) as [s'| | |s' m' e']; try done.
  - apply eqb_prop in H3 as ->. done.
  - apply andb_prop in H3 as [H3 He]. apply andb_prop in H3 as [Hs Hm].
    apply eqb_prop in Hs as ->. apply Pos.eqb_eq in Hm as ->. apply Z.eqb_eq in He as ->. done.
Qed.

Lemma Allow_holds now key j l :
  holds now key j l → 1 ≤ j ≤ 30 →
  fst (Allow now key l) = true ∧ holds now key (j - 1) (snd (Allow now key l)).
Proof.
  intros (Hc & Hr & Hg & Hl & Hb) Hj. destruct (token_spend j Hj) as (T1 & T2 & T3).
  unfold Allow. rewrite Hc, Hg, Hl, Sub_diag. change (30 <=? 0) with false.
  change (Minute <=? 0) with false. cbv beta iota zeta. rewrite Hb. cbn [default from_option id].
  unfold refilled. rewrite Hc, Hr. cbn [tokens last]. rewrite Sub_diag, T1, T2. cbn [fst snd].
  split; [done|]. rewrite T3. repeat split; try done. cbn [buckets]. apply lookup_insert_eq.
Qed.

Lemma Allow_empty now key l :
  holds now key 0 l →
  fst (Allow now key l) = false ∧ holds now key 0 (snd (Allow now key l)).
Proof.
  intros (Hc & Hr & Hg & Hl & Hb).
  unfold Allow. rewrite Hc, Hg, Hl, Sub_diag. change (30 <=? 0) with false.
  change (Minute <=? 0) with false. cbv beta iota zeta. rewrite Hb. cbn [default from_option id].
  unfold refilled. rewrite Hc, Hr. cbn [tokens last]. rewrite Sub_diag.
  assert (fgt (fadd (of_Z 0) (fmul (Seconds 0) (fdiv (of_Z 30) (Seconds Minute)))) (of_Z 30) = false) as ->
    by (vm_compute; reflexivity).
  assert (fadd (of_Z 0) (fmul (Seconds 0) (fdiv (of_Z 30) (Seconds Minute))) = of_Z 0) as ->
    by (vm_compute; reflexivity).
  assert (flt (of_Z 0) fone = true) as -> by (vm_compute; reflexivity).
  split; [done|]. repeat split; try done. cbn [buckets snd]. apply lookup_insert_eq.
Qed.

Lemma burst_empty n now key l : holds now key 0 l → burst n now key l = replicate n false.
Proof.
  revert l. induction n as [|n IH]; intros l H; [done|]. simpl.
  destruct (Allow_empty now key l H) as [E H']. destruct (Allow now key l) as [b l'].
  simpl in *. subst b. f_equal. by apply IH.
Qed.

Lemma burst_holds n (j : nat) now key l :
  holds now key (Z.of_nat j) l → (j ≤ 30)%nat →
  burst (j + n) now key l = (replicate j true ++ replicate n false)%list.
Proof.
  revert l. induction j as [|j IH]; intros l H Hj.
  - simpl. by apply burst_empty.
  - destruct (Allow_holds now key _ l H ltac:(lia)) as [E H']. simpl.
    destruct (Allow now key l) as [b l']. simpl in *. subst b. f_equal.
    apply IH; [|lia]. by replace (Z.of_nat j) with (Z.of_nat (S j) - 1) by lia.
Qed.

(** A first request finds no bucket and is served from a full one. *)
Lemma Allow_fresh now key :
  valid_time now →
  fst (Allow now key (NewIPLimiter 30 Minute)) = true ∧
  holds now key 29 (snd (Allow now key (NewIPLimiter 30 Minute))).
Proof.
  intros Ht. unfold valid_time in Ht.
  destruct (token_spend 30 ltac:(lia)) as (T1 & T2 & T3). unfold Allow, NewIPLimiter.
  cbn [capacity gcInterval lastGC buckets refill]. change (30 <=? 0) with false.
  assert ((Minute <=? Sub now zero_time) = true) as ->.
  { apply Z.leb_le. unfold Sub, Minute, Second, zero_time, int64_max, int64_min, Second in *. lia. }
  cbv beta iota zeta. unfold gcLocked. rewrite map_filter_empty, lookup_empty. cbn [default from_option].
  unfold refilled. cbn [capacity refill tokens last]. rewrite Sub_diag, T1, T2. cbn [fst snd].
  split; [done|]. rewrite T3. repeat split; try done. apply lookup_insert_eq.
Qed.

(** So does a request under a name that has no bucket yet, whatever the others
    have used up. *)
Lemma Allow_unseen now key l :
  capacity l = 30 → refill l = Minute → buckets l !! key = None →
  fst (Allow now key l) = true ∧ capacity (snd (Allow now key l)) = 30 ∧ refill (snd (Allow now key l)) = Minute ∧
  ∀ k, k ≠ key → buckets l !! k = None → buckets (snd (Allow now key l)) !! k = None.
Proof.
  intros Hc Hr Hk. destruct (token_spend 30 ltac:(lia)) as (T1 & T2 & T3). unfold Allow. rewrite Hc. change (30 <=? 0) with false.
  set (p := if _ <=? _ then _ else _).
  assert (∀ k, buckets l !! k = None → fst p !! k = None) as Hp.
  { intros k H. subst p. destruct (_ <=? _); [|done]. cbn. unfold gcLocked. by rewrite map_lookup_filter, H. }
  destruct p as [bs gc]. cbn in Hp. rewrite (Hp _ Hk). cbn [default from_option].
  unfold refilled. rewrite Hc, Hr. cbn [tokens last]. rewrite Sub_diag, T1, T2. cbn [fst snd capacity refill buckets].
  split_and!; try done. intros k Hne H. rewrite lookup_insert_ne by done. auto.
Qed.

End IPSpec.

(** ** Properties *)

(** [C4] The in-memory limiter refines the abstract one: over any sequence of up
    to 10000 calls from an empty limiter, whatever keys, limits, clock readings
    and map visiting orders, [Memory.Allow] answers exactly as the log of calls
    does (a call is admitted while fewer than its limit were made by the same
    virtual key in the same UTC minute; a limit of zero or less always admits). *)
Theorem memory_refines_log (evs : list MemorySpec.event) :
  Forall (fun e => valid_time (MemorySpec.ev_now e)) evs →
  Z.of_nat (length evs) ≤ 10000 →
  MemorySpec.run_memory evs Memory.NewMemory = MemorySpec.run_spec evs [].
Proof. intros Hf Hl. apply MemorySpec.run_refines; [apply MemorySpec.sim_init|done|exact Hl]. Qed.

(** Rate-limit safety: while the limiter holds at most 10000 buckets' worth of
    calls, a virtual key whose limit in a minute is [L > 0] is admitted at most
    [L] times in that minute. *)
Theorem memory_rpm_bound (evs : list MemorySpec.event) (k : string) (mi L : Z) :
  Forall (fun e => valid_time (MemorySpec.ev_now e)) evs →
  Z.of_nat (length evs) ≤ 10000 →
  Forall (fun e => MemorySpec.ev_key e = k → MemorySpec.ev_now e / Minute = mi →
                   MemorySpec.ev_limit e = L) evs →
  0 < L →
  MemorySpec.granted evs (MemorySpec.run_memory evs Memory.NewMemory) k mi ≤ L.
Proof.
  intros Hf Hl Hlim HL.
  rewrite (MemorySpec.run_refines evs [] _ MemorySpec.sim_init Hf Hl).
  pose proof (MemorySpec.spec_bound evs [] k mi L Hlim HL) as H.
  change (MemorySpec.count [] k mi) with 0 in H. lia.
Qed.

(** The sweep of [Memory.Allow] deletes live buckets: when more than 10000
    buckets exist, a call for one key makes the first visited bucket of another
    key disappear, in whatever window it lies, so that other key's next call in
    the same minute is admitted however many calls it already made. *)
Theorem memory_sweep_forgets (now : Time) (k k' : string) (rest : list string)
    (limit limit' : Z) (m : Memory.Memory) (order' : list string) :
  10000 < Z.of_nat (size (Memory.rpm m)) →
  Z.of_nat (size (Memory.rpm m)) ≤ 10001 →
  rpmKey k' (minuteWindow now) ≠ rpmKey k (minuteWindow now) →
  is_Some (Memory.rpm m !! rpmKey k' (minuteWindow now)) →
  is_Some (Memory.rpm m !! rpmKey k (minuteWindow now)) →
  0 < limit → 0 < limit' →
  fst (Memory.Allow now order' k' limit'
        (snd (Memory.Allow now (rpmKey k' (minuteWindow now) :: rest) k limit m))) = true.
Proof.
  intros Hbig Hsmall Hne Hk' Hk Hl Hl'. unfold Memory.Allow.
  destruct (Z.leb_spec limit 0), (Z.leb_spec limit' 0); [lia..|]. cbn [snd fst Memory.rpm].
  set (key := rpmKey k (minuteWindow now)) in *. set (key' := rpmKey k' (minuteWindow now)) in *.
  assert (Memory.sweep key (key' :: rest) (Memory.rpm m) = delete key' (Memory.rpm m)) as ->.
  { unfold Memory.sweep at 1. cbn [foldl]. rewrite bool_decide_true by done.
    destruct (Z.ltb_spec 10000 (Z.of_nat (size (Memory.rpm m)))); [|lia]. simpl.
    fold (Memory.sweep key rest (delete key' (Memory.rpm m))).
    apply MemorySpec.sweep_small. rewrite map_size_delete_Some by done. lia. }
  rewrite MemorySpec.sweep_small.
  - rewrite lookup_insert_ne, lookup_delete_eq by done. simpl. apply Z.leb_le.
    rewrite wrap64_id by (unfold in_int64, int64_min, int64_max; lia). lia.
  - rewrite map_size_insert_Some, map_size_delete_Some by (try rewrite lookup_delete_ne by done; done).
    lia.
Qed.

(** [C34] The concurrency cap: in every configuration reachable by admissions,
    refusals and completions in any order, the counter the cap reports for a key
    is exactly the number of its requests in flight, never above the maximum, and
    the map holds a bucket only for keys with a request in flight. *)
Theorem cap_bounds_inflight (max : Z) (cf : CapSpec.config) (k : string) :
  0 < max ≤ int64_max →
  rtc CapSpec.step (Some (Cap.NewConcurrencyCap max), []) cf →
  Cap.Inflight (fst cf) k = CapSpec.occ k (snd cf) ∧
  CapSpec.occ k (snd cf) ≤ max ∧
  (CapSpec.occ k (snd cf) = 0 →
   ∃ s, fst cf = Some s ∧ Cap.perKey s !! k = None).
Proof.
  intros Hmax Hr. pose proof (CapSpec.inv_reachable _ _ Hmax Hr) as Hi.
  pose proof (CapSpec.inv_inflight _ _ k Hi). destruct Hi as (s & Es & _ & Hk).
  destruct (Hk k) as [E Hle]. split_and!; [done..|].
  intros H0. exists s. by rewrite E, decide_True.
Qed.

(** A request is admitted exactly when its key has fewer requests in flight
    than the maximum. *)
Theorem cap_admits_iff (max : Z) (cf : CapSpec.config) (k : string) :
  0 < max ≤ int64_max →
  rtc CapSpec.step (Some (Cap.NewConcurrencyCap max), []) cf →
  fst (Cap.Acquire (fst cf) k) = true ↔ CapSpec.occ k (snd cf) < max.
Proof.
  intros Hmax Hr. pose proof (CapSpec.inv_reachable _ _ Hmax Hr) as Hi.
  pose proof (CapSpec.inv_inflight _ _ k Hi) as Hf. destruct Hi as (s & Es & Em & _).
  rewrite Es in *. simpl in *. rewrite Hf, Em.
  destruct (Z.leb_spec max 0); [lia|].
  destruct (Z.leb_spec max (CapSpec.occ k (snd cf))); simpl; split; intros; try done; lia.
Qed.

(** The console's login, registration and SSO limiter (30 requests a minute):
    of any number of requests of one client at one instant, exactly the first 30
    are admitted. *)
Theorem ip_burst_is_capacity (now : Time) (key : string) (n : nat) :
  valid_time now →
  IPSpec.burst (30 + n) now key (IP.NewIPLimiter 30 Minute) =
  (replicate 30 true ++ replicate n false)%list.
Proof.
  intros Ht. destruct (IPSpec.Allow_fresh now key Ht) as [E H].
  change (30 + n)%nat with (S (29 + n)). cbn [IPSpec.burst].
  destruct (IP.Allow now key _) as [b l]. simpl in E, H. subst b.
  cbn [replicate app]. f_equal. apply (IPSpec.burst_holds n 29); [exact H|lia].
Qed.

(** ** Witnesses *)

Definition noon : Time := 1769947200 * Second.

Definition two_calls : list MemorySpec.event :=
  [MemorySpec.mkEvent noon [] "vk1" 1; MemorySpec.mkEvent (noon + Second) [] "vk1" 1;
   MemorySpec.mkEvent (noon + Minute) [] "vk1" 1].

Lemma two_calls_valid : Forall (fun e => valid_time (MemorySpec.ev_now e)) two_calls.
Proof. repeat constructor; simpl; unfold noon, Second, Minute, Second; lia. Qed.

Lemma memory_refines_log_witness :
  MemorySpec.run_spec two_calls [] = [true; false; true] ∧
  MemorySpec.run_memory two_calls Memory.NewMemory = MemorySpec.run_spec two_calls [].
Proof.
  split; [vm_compute; reflexivity|].
  apply (memory_refines_log two_calls); [exact two_calls_valid | simpl; lia].
Defined.

Lemma memory_rpm_bound_witness :
  MemorySpec.granted two_calls (MemorySpec.run_memory two_calls Memory.NewMemory) "vk1" (noon / Minute) ≤ 1.
Proof.
  apply (memory_rpm_bound two_calls "vk1" (noon / Minute) 1);
    [exact two_calls_valid | simpl; lia | repeat constructor | lia].
Defined.

(** A limiter holding 10001 live buckets. *)
Definition filler : gmap string Z :=
  list_to_map ((fun i => (Itoa i, 1)) <$> seq 0 (Z.to_nat 9999)).
Definition crowded : Memory.Memory :=
  Memory.mkMemory (<[rpmKey "a" (minuteWindow noon) := 1]>
    (<[rpmKey "b" (minuteWindow noon) := 600]> filler)) ∅.

Lemma filler_colon s : byte_in ":" s → filler !! s = None.
Proof.
  intros H. unfold filler. apply not_elem_of_list_to_map. intros Hin.
  apply list_elem_of_fmap in Hin as [[x v] [-> Hin]].
  apply list_elem_of_fmap in Hin as [i [[= -> ->] _]].
  revert H. apply Itoa_digits. reflexivity.
Qed.

Lemma size_filler : Z.of_nat (size filler) = 9999.
Proof.
  unfold filler. rewrite map_size_list_to_map.
  - rewrite length_fmap, length_seq. lia.
  - rewrite <- list_fmap_compose. apply NoDup_fmap_2; [|apply NoDup_seq].
    intros i j E. by apply Itoa_inj.
Qed.

Lemma rpmKey_colon k w : byte_in ":" (rpmKey k w).
Proof. unfold rpmKey. rewrite !byte_in_app. left. simpl. tauto. Qed.

Lemma rpmKey_a_b : rpmKey "b" (minuteWindow noon) ≠ rpmKey "a" (minuteWindow noon).
Proof. intros [E _]%rpmKey_inj; [discriminate E | done]. Qed.

Lemma size_crowded : Z.of_nat (size (Memory.rpm crowded)) = 10001.
Proof.
  unfold crowded. cbn [Memory.rpm].
  rewrite map_size_insert_None, map_size_insert_None.
  - pose proof size_filler. lia.
  - apply filler_colon, rpmKey_colon.
  - rewrite lookup_insert_ne by exact rpmKey_a_b. apply filler_colon, rpmKey_colon.
Qed.

(** 600 calls were counted for key [b] this minute; a call of key [a] sweeps that
    bucket away, and [b] is admitted again under a limit of one. *)
Lemma memory_sweep_forgets_witness :
  fst (Memory.Allow noon [] "b" 1
        (snd (Memory.Allow noon [rpmKey "b" (minuteWindow noon)] "a" 60 crowded))) = true.
Proof.
  apply (memory_sweep_forgets noon "a" "b" [] 60 1 crowded []).
  - rewrite size_crowded. lia.
  - rewrite size_crowded. lia.
  - exact rpmKey_a_b.
  - unfold crowded. cbn [Memory.rpm]. rewrite lookup_insert_ne by (intros E; by apply rpmKey_a_b).
    rewrite lookup_insert_eq. by eexists.
  - unfold crowded. cbn [Memory.rpm]. rewrite lookup_insert_eq. by eexists.
  - lia.
  - lia.
Defined.

Lemma cap_run :
  rtc CapSpec.step (Some (Cap.NewConcurrencyCap 2), [])
    (Some (Cap.mkCap (<["k" := 1]> ∅) 2), ["k"]).
Proof.
  eapply rtc_l; [apply CapSpec.step_admit with (k := "k"); reflexivity|].
  apply rtc_refl.
Qed.

Lemma cap_bounds_inflight_witness :
  Cap.Inflight (Some (Cap.mkCap (<["k" := 1]> ∅) 2)) "k" = CapSpec.occ "k" ["k"] ∧
  CapSpec.occ "k" ["k"] ≤ 2 ∧
  (CapSpec.occ "k" ["k"] = 0 →
   ∃ s, Some (Cap.mkCap (<["k" := 1]> ∅) 2) = Some s ∧ Cap.perKey s !! "k" = None).
Proof. apply (cap_bounds_inflight 2 (Some (Cap.mkCap (<["k" := 1]> ∅) 2), ["k"]) "k"); [unfold int64_max; lia | exact cap_run]. Defined.

Lemma cap_admits_iff_witness :
  fst (Cap.Acquire (Some (Cap.mkCap (<["k" := 1]> ∅) 2)) "k") = true ↔ CapSpec.occ "k" ["k"] < 2.
Proof. apply (cap_admits_iff 2 (Some (Cap.mkCap (<["k" := 1]> ∅) 2), ["k"]) "k"); [unfold int64_max; lia | exact cap_run]. Defined.

Lemma ip_burst_is_capacity_witness :
  IPSpec.burst (30 + 2) noon "auth-login:10.0.0.1" (IP.NewIPLimiter 30 Minute) =
  (replicate 30 true ++ replicate 2 false)%list.
Proof. apply (ip_burst_is_capacity noon _ 2). unfold valid_time, noon, Second; lia. Defined.
