(* ===== verification/RedisLimiter.v ===== *)
(** * RedisLimiter: src/internal/limiter/redis.go

    The limiter every replica of the gateway shares.  Redis itself is not this
    program's code: it is the record [client] of the commands the limiter sends,
    and [server_laws] states what the Redis documentation promises of them (a
    MULTI/EXEC of INCR and EXPIRE is applied as a whole, the key then lives for
    the given time on the server's clock and other keys are not touched; a
    failed EXEC has been applied or has not).  The clock of the calling replica
    and the clock of the server are different arguments. *)

From S2P Require Import Prelude GoString Float64 GoTime Limiter.
Local Open Scope string_scope.
Local Open Scope Z_scope.

(** ** The commands *)

Inductive cmd :=
| Incr (k : string)
| IncrByFloat (k : string) (v : float64)
| Expire (k : string) (d : Duration).

Inductive reply := RInt (n : Z) | RFloat (v : float64) | RBool (b : bool).

(** What the limiter calls: [TxPipeline().Exec] at a server instant, and [GET]
    read as a number ([Ok None] is [redis.Nil]). *)
Record client (E S : Type) := mkClient {
  Exec : Time → list cmd → S → res E (list reply) * S;
  GetFloat64 : Time → string → S → res E (option float64)
}.
Arguments Exec {E S}.
Arguments GetFloat64 {E S}.

(** [incr.Val()]: the zero value when the command has no integer reply. *)
Definition incr_Val (rs : list reply) : Z :=
  match rs with RInt n :: _ => n | _ => 0 end.

Module Redis.
Section ops.
Context {E S : Type} (rdb : client E S).

(** [srv] is the server's clock when the command runs, [now] is [r.now()]. *)
Definition Allow (srv now : Time) (keyID : string) (rpmLimit : Z) (s : S) : res E bool * S :=
  if rpmLimit <=? 0 then (Ok true, s)
  else
    let k := rpmKey keyID (minuteWindow now) in
    match Exec rdb srv [Incr k; Expire k (2 * Minute)] s with
    | (Err e, s') => (Err e, s')
    | (Ok rs, s') => (Ok (incr_Val rs <=? rpmLimit), s')
    end.

Definition MonthlySpend (srv now : Time) (keyID : string) (s : S) : res E float64 :=
  match GetFloat64 rdb srv (spendKey keyID (monthWindow now)) s with
  | Err e => Err e
  | Ok None => Ok fzero
  | Ok (Some v) => Ok v
  end.

Definition AddSpend (srv now : Time) (keyID : string) (costUSD : float64) (s : S) : res E unit * S :=
  if fle costUSD fzero then (Ok tt, s)
  else
    let k := spendKey keyID (monthWindow now) in
    match Exec rdb srv [IncrByFloat k costUSD; Expire k (62 * 24 * Hour)] s with
    | (Err e, s') => (Err e, s')
    | (Ok _, s') => (Ok tt, s')
    end.

(** [Redis] as a [Limiter]. *)
Definition ops (srv now : Time) : LimiterOps E S := {|
  op_Allow := Allow srv now;
  op_MonthlySpend := MonthlySpend srv now;
  op_AddSpend := AddSpend srv now
|}.

End ops.
End Redis.

(** ** What Redis promises *)

(** [peek t k s] is the integer a live key holds at the server instant [t]. *)
Definition bumped {S} (peek : Time → string → S → option Z) (srv : Time) (k : string)
    (d : Duration) (s s' : S) : Prop :=
  ∀ t k', srv ≤ t →
    peek t k' s' =
    if decide (k' = k)
    then (if t <? srv + d then Some (default 0 (peek srv k s) + 1) else None)
    else peek t k' s.

Class server_laws {E S} (rdb : client E S) (peek : Time → string → S → option Z) := {
  exec_ok : ∀ srv k d s rs s',
    Exec rdb srv [Incr k; Expire k d] s = (Ok rs, s') →
    incr_Val rs = default 0 (peek srv k s) + 1 ∧ bumped peek srv k d s s';
  exec_err : ∀ srv k d s e s',
    Exec rdb srv [Incr k; Expire k d] s = (Err e, s') →
    bumped peek srv k d s s' ∨ (∀ t k', srv ≤ t → peek t k' s' = peek t k' s)
}.

(** ** Replicas sharing the server *)

(** One call of [Allow] by some replica: the server's clock, the replica's clock,
    the virtual key and its limit. *)
Record call := mkCall { c_srv : Time; c_now : Time; c_key : string; c_limit : Z }.

Definition event_of (c : call) : MemorySpec.event :=
  MemorySpec.mkEvent (c_now c) [] (c_key c) (c_limit c).

Fixpoint run_redis {E S} (rdb : client E S) (cs : list call) (s : S) : list (res E bool) :=
  match cs with
  | [] => []
  | c :: cs' =>
      let '(r, s') := Redis.Allow rdb (c_srv c) (c_now c) (c_key c) (c_limit c) s in
      r :: run_redis rdb cs' s'
  end.

(** Replica clocks within thirty seconds of the server's, which does not go back. *)
Definition in_step (c : call) : Prop :=
  valid_time (c_now c) ∧ - (30 * Second) < c_now c - c_srv c < 30 * Second.

Fixpoint ordered (T : Time) (cs : list call) : Prop :=
  match cs with [] => True | c :: cs' => T ≤ c_srv c ∧ ordered (c_srv c) cs' end.

Fixpoint no_failure {E} (rs : list (res E bool)) : Prop :=
  match rs with [] => True | Ok _ :: rs' => no_failure rs' | Err _ :: _ => False end.

(** Calls answered "admitted" for key [k] in minute [mi]. *)
Fixpoint admitted {E} (cs : list call) (rs : list (res E bool)) (k : string) (mi : Z) : Z :=
  match cs, rs with
  | c :: cs', r :: rs' =>
      (match r with
       | Ok true => if bool_decide (c_key c = k) && (c_now c / Minute =? mi) then 1 else 0
       | _ => 0
       end) + admitted cs' rs' k mi
  | _, _ => 0
  end.

Module RedisSpec.

(** Applied increments: key, minute and server instant. *)
Abbreviation entry := (string * Z * Time)%type.

Definition hits (l : list entry) (k : string) (mi : Z) : Z :=
  Z.of_nat (length (filter (fun e : entry => e.1 = (k, mi)) l)).

Lemma hits_cons l k mi k' mi' τ :
  hits ((k', mi', τ) :: l) k mi = hits l k mi + (if decide ((k', mi') = (k, mi)) then 1 else 0).
Proof. unfold hits. rewrite filter_cons. cbn [fst]. case_decide; cbn [length]; lia. Qed.

Lemma hits_nonneg l k mi : 0 ≤ hits l k mi.
Proof. unfold hits. lia. Qed.

Lemma hits_count l k mi : hits l k mi = MemorySpec.count (fst <$> l) k mi.
Proof.
  unfold MemorySpec.count. induction l as [|[[k' mi'] τ] l IH]; [done|].
  rewrite hits_cons, IH. cbn [fmap list_fmap fst]. rewrite filter_cons. case_decide; cbn [length]; lia.
Qed.

Section sim.
Context {E S : Type} (rdb : client E S) (peek : Time → string → S → option Z).
Context `{!server_laws rdb peek}.

Definition fresh_bucket (l : list entry) (k : string) (mi : Z) (t : Time) : Prop :=
  ∀ τ, (k, mi, τ) ∈ l → t < τ + 2 * Minute.

Definition recent (l : list entry) (T : Time) : Prop :=
  ∀ k mi τ, (k, mi, τ) ∈ l →
    τ ≤ T ∧ mi * Minute - 30 * Second < τ < (mi + 1) * Minute + 30 * Second.

(** While a bucket is live it holds the number of applied increments. *)
Definition agree (l : list entry) (T : Time) (s : S) : Prop :=
  ∀ k tm t, valid_time tm → T ≤ t → fresh_bucket l k (tm / Minute) t →
    default 0 (peek t (rpmKey k (minuteWindow tm)) s) = hits l k (tm / Minute).

Lemma agree_later l T T' s : T ≤ T' → agree l T s → agree l T' s.
Proof. intros H Ha k tm t Ht Hle Hl. apply Ha; [done|lia|done]. Qed.

Lemma recent_later l T T' : T ≤ T' → recent l T → recent l T'.
Proof. intros H Ha k mi τ Hin. destruct (Ha _ _ _ Hin). lia. Qed.

(** The bucket of a call's minute is live when the call arrives. *)
Lemma live_at_call l T c :
  recent l T → in_step c → fresh_bucket l (c_key c) (c_now c / Minute) (c_srv c).
Proof.
  intros Hr [_ Hs] τ Hin. destruct (Hr _ _ _ Hin) as [_ Hτ].
  unfold Minute, Second in *. Z.div_mod_to_equations. lia.
Qed.

Lemma recent_push l T c :
  T ≤ c_srv c → recent l T → in_step c →
  recent ((c_key c, c_now c / Minute, c_srv c) :: l) (c_srv c).
Proof.
  intros HT Hr [_ Hs] k mi τ Hin. apply elem_of_cons in Hin as [[= -> -> ->]|Hin].
  - unfold Minute, Second in *. Z.div_mod_to_equations. lia.
  - destruct (Hr _ _ _ Hin). lia.
Qed.

Lemma agree_push l T c s s' :
  T ≤ c_srv c → recent l T → in_step c → agree l T s →
  bumped peek (c_srv c) (rpmKey (c_key c) (minuteWindow (c_now c))) (2 * Minute) s s' →
  agree ((c_key c, c_now c / Minute, c_srv c) :: l) (c_srv c) s'.
Proof.
  intros HT Hr Hin Ha Hb k tm t Hvt Ht Hl. rewrite Hb, hits_cons by done.
  assert (fresh_bucket l k (tm / Minute) t) as Hl' by (intros τ ?; apply Hl; by right).
  case_decide as Ek.
  - apply rpmKey_inj in Ek as [-> Ew]; [|destruct Hin; by rewrite !minuteWindow_length].
    apply minuteWindow_minute in Ew; [|done|by destruct Hin].
    assert (t < c_srv c + 2 * Minute) by (apply Hl; rewrite Ew; by left).
    destruct (Z.ltb_spec t (c_srv c + 2 * Minute)); [|lia]. cbn [default from_option id].
    rewrite Ew, decide_True by done.
    rewrite (Ha (c_key c) (c_now c)); [lia|by destruct Hin|done|by eapply live_at_call].
  - rewrite (Ha k tm) by (try lia; done). rewrite decide_False; [lia|].
    intros [= <- Em]. apply Ek. by rewrite (minuteWindow_eq _ _ Em).
Qed.

(** One call, seen against the applied increments. *)
Lemma allow_step l T c s :
  T ≤ c_srv c → recent l T → in_step c → agree l T s → 0 < c_limit c →
  match Redis.Allow rdb (c_srv c) (c_now c) (c_key c) (c_limit c) s with
  | (Ok b, s') =>
      b = (hits l (c_key c) (c_now c / Minute) <? c_limit c) ∧
      agree ((c_key c, c_now c / Minute, c_srv c) :: l) (c_srv c) s'
  | (Err _, s') =>
      agree ((c_key c, c_now c / Minute, c_srv c) :: l) (c_srv c) s' ∨ agree l (c_srv c) s'
  end.
Proof.
  intros HT Hr Hin Ha Hlim. unfold Redis.Allow. destruct (Z.leb_spec (c_limit c) 0); [lia|].
  destruct (Exec rdb _ _ s) as [[rs|e] s'] eqn:He.
  - apply exec_ok in He as [Hv Hb]. split; [|by eapply agree_push].
    rewrite Hv, (Ha (c_key c) (c_now c)); [|by destruct Hin|done|by eapply live_at_call].
    set (n := hits _ _ _). destruct (Z.leb_spec (n + 1) (c_limit c)), (Z.ltb_spec n (c_limit c)); lia.
  - apply exec_err in He as [Hb|Hs]; [left; by eapply agree_push|right].
    intros k tm t Hvt Ht Hl. rewrite Hs by done. apply Ha; [done|lia|done].
Qed.

Lemma allow_unlimited c s :
  c_limit c ≤ 0 →
  Redis.Allow rdb (c_srv c) (c_now c) (c_key c) (c_limit c) s = (Ok true, s).
Proof. intros H. unfold Redis.Allow. by destruct (Z.leb_spec (c_limit c) 0); [|lia]. Qed.

Lemma run_exact cs l T s :
  recent l T → agree l T s → Forall in_step cs → ordered T cs →
  no_failure (run_redis rdb cs s) →
  run_redis rdb cs s = Ok <$> MemorySpec.run_spec (event_of <$> cs) (fst <$> l).
Proof.
  revert l T s. induction cs as [|c cs IH]; intros l T s Hr Ha Hf Ho Hn; [done|].
  inversion Hf as [|? ? Hc Hf']; subst. destruct Ho as [HT Ho].
  cbn [run_redis fmap list_fmap MemorySpec.run_spec] in *. unfold MemorySpec.allow.
  cbn [event_of MemorySpec.ev_limit MemorySpec.ev_key MemorySpec.ev_now].
  destruct (Z.leb_spec (c_limit c) 0) as [Hle|Hlt].
  - rewrite allow_unlimited in * by done. cbn [no_failure fmap list_fmap] in *. f_equal.
    apply (IH l (c_srv c)); [by eapply recent_later|by eapply agree_later|done..].
  - pose proof (allow_step l T c s HT Hr Hc Ha Hlt) as Hstep.
    destruct (Redis.Allow _ _ _ _ _ s) as [[b|e] s']; [|done]. destruct Hstep as [-> Ha'].
    cbn [no_failure fmap list_fmap] in *. rewrite <- hits_count. f_equal.
    apply (IH ((c_key c, c_now c / Minute, c_srv c) :: l) (c_srv c));
      [by eapply recent_push|done..].
Qed.

Lemma admitted_step c cs (r : res E bool) rs k mi :
  admitted (c :: cs) (r :: rs) k mi =
  (match r with
   | Ok true => if bool_decide (c_key c = k) && (c_now c / Minute =? mi) then 1 else 0
   | _ => 0 end) + admitted cs rs k mi.
Proof. done. Qed.

Lemma run_bounded cs l T s k mi L :
  recent l T → agree l T s → Forall in_step cs → ordered T cs → 0 < L →
  Forall (fun c => c_key c = k → c_now c / Minute = mi → c_limit c = L) cs →
  admitted cs (run_redis rdb cs s) k mi ≤ Z.max 0 (L - hits l k mi).
Proof.
  intros Hr Ha Hf Ho HL. revert l T s Hr Ha Hf Ho.
  induction cs as [|c cs IH]; intros l T s Hr Ha Hf Ho Hlim; [cbn; lia|].
  inversion Hf as [|? ? Hc Hf']; subst. inversion Hlim as [|? ? Hcl Hlim']; subst.
  destruct Ho as [HT Ho]. cbn [run_redis].
  destruct (Z.leb_spec (c_limit c) 0) as [Hle|Hlt].
  - rewrite allow_unlimited, admitted_step by done.
    pose proof (IH l (c_srv c) s ltac:(by eapply recent_later) ltac:(by eapply agree_later) Hf' Ho Hlim').
    case_bool_decide; cbn [andb]; [|lia].
    destruct (Z.eqb_spec (c_now c / Minute) mi); [|lia]. pose proof (Hcl ltac:(done) ltac:(done)). lia.
  - pose proof (allow_step l T c s HT Hr Hc Ha Hlt) as Hstep.
    pose proof (recent_push l T c HT Hr Hc) as Hr'. pose proof (hits_nonneg l k mi).
    destruct (Redis.Allow _ _ _ _ _ s) as [[b|e] s']; rewrite admitted_step.
    + destruct Hstep as [-> Ha'].
      pose proof (IH _ _ _ Hr' Ha' Hf' Ho Hlim') as Hi. rewrite hits_cons in Hi.
      case_bool_decide as Ek; cbn [andb];
        [|rewrite decide_False in Hi by congruence; case_match; lia].
      destruct (Z.eqb_spec (c_now c / Minute) mi) as [Em|Em];
        [|rewrite decide_False in Hi by congruence; case_match; lia].
      rewrite decide_True in Hi by congruence. rewrite (Hcl Ek Em), Ek, Em.
      destruct (Z.ltb_spec (hits l k mi) L); lia.
    + destruct Hstep as [Ha'|Ha'].
      * pose proof (IH _ _ _ Hr' Ha' Hf' Ho Hlim') as Hi. rewrite hits_cons in Hi.
        case_decide; lia.
      * pose proof (IH _ _ _ (recent_later _ _ _ HT Hr) Ha' Hf' Ho Hlim'). lia.
Qed.

End sim.

Lemma recent_nil T : recent [] T.
Proof. intros ??? H. by apply elem_of_nil in H. Qed.

End RedisSpec.

(** ** Properties *)

(** A server that holds no bucket yet. *)
Definition fresh {S} (peek : Time → string → S → option Z) (T : Time) (s : S) : Prop :=
  ∀ t k w, T ≤ t → peek t (rpmKey k w) s = None.

Section props.
Context {E S : Type} (rdb : client E S) (peek : Time → string → S → option Z).
Context `{!server_laws rdb peek}.

(** [C21] The Redis limiter refines the abstract limiter the in-memory one refines:
    whatever replicas call it in whatever order, with clocks within thirty
    seconds of the server's, the answers of a run in which no command fails are
    those of the log of calls of all replicas together. *)
Theorem redis_refines_log (cs : list call) (T : Time) (s : S) :
  fresh peek T s → Forall in_step cs → ordered T cs →
  no_failure (run_redis rdb cs s) →
  run_redis rdb cs s = Ok <$> MemorySpec.run_spec (event_of <$> cs) [].
Proof.
  intros Hs Hf Ho Hn. apply (RedisSpec.run_exact rdb peek cs [] T s); try done.
  - apply RedisSpec.recent_nil.
  - intros k tm t _ Ht _. by rewrite Hs.
Qed.

(** Commands may fail, before or after Redis applied them: a key whose limit in a
    minute is [L] is still admitted at most [L] times in it over all replicas. *)
Theorem redis_rpm_bound (cs : list call) (T : Time) (s : S) (k : string) (mi L : Z) :
  fresh peek T s → Forall in_step cs → ordered T cs → 0 < L →
  Forall (fun c => c_key c = k → c_now c / Minute = mi → c_limit c = L) cs →
  admitted cs (run_redis rdb cs s) k mi ≤ L.
Proof.
  intros Hs Hf Ho HL Hlim.
  pose proof (RedisSpec.run_bounded rdb peek cs [] T s k mi L (RedisSpec.recent_nil T)) as H.
  change (RedisSpec.hits [] k mi) with 0 in H. rewrite Z.sub_0_r in H.
  rewrite Z.max_r in H by lia. apply H; [|done..]. intros k' tm t _ Ht _. by rewrite Hs.
Qed.

End props.

(** ** A server *)

(** A concrete server: values with the instant they expire, and a set of server
    instants at which the connection fails after the commands were applied. *)
Abbreviation store := (gmap string (Z * Time)).

Definition store_peek (t : Time) (k : string) (s : store) : option Z :=
  match s !! k with Some (n, x) => if t <? x then Some n else None | None => None end.

Definition store_exec (down : Time → bool) (srv : Time) (cs : list cmd) (s : store)
    : res string (list reply) * store :=
  match cs with
  | [Incr k; Expire _ d] =>
      let n := default 0 (store_peek srv k s) + 1 in
      let s' := <[k := (n, srv + d)]> s in
      if down srv then (Err "i/o timeout", s') else (Ok [RInt n; RBool true], s')
  | _ => (Ok [], s)
  end.

Definition store_client (down : Time → bool) : client string store :=
  mkClient _ _ (store_exec down) (fun _ _ _ => Ok None).

Lemma store_bumped srv k d s :
  bumped store_peek srv k d s (<[k := (default 0 (store_peek srv k s) + 1, srv + d)]> s).
Proof.
  intros t k' Ht. unfold store_peek at 1. rewrite lookup_insert.
  destruct (decide (k = k')) as [->|Hne].
  - by rewrite decide_True.
  - rewrite decide_False by congruence. done.
Qed.

#[export] Instance store_laws down : server_laws (store_client down) store_peek.
Proof.
  split; intros srv k d s x s'; cbn [store_client Exec store_exec];
    case_match; intros [= <- <-].
  - split; [done|apply store_bumped].
  - left. apply store_bumped.
Qed.

Lemma store_fresh T : fresh store_peek T ∅.
Proof. intros t k w _. unfold store_peek. by rewrite lookup_empty. Qed.

(** Two replicas, one twenty seconds ahead of the server and one twenty behind. *)
Definition two_replicas : list call :=
  [mkCall noon (noon + 20 * Second) "vk1" 1;
   mkCall (noon + 30 * Second) (noon + 10 * Second) "vk1" 1;
   mkCall (noon + 31 * Second) (noon + 51 * Second) "vk2" 1].

Lemma two_replicas_ok : Forall in_step two_replicas ∧ ordered noon two_replicas.
Proof.
  split; [|unfold two_replicas, noon, Second; cbn; lia].
  unfold two_replicas, in_step, valid_time, noon, Second. repeat constructor; cbn; lia.
Qed.

Lemma redis_refines_log_witness :
  run_redis (store_client (fun _ => false)) two_replicas ∅ = [Ok true; Ok false; Ok true] ∧
  run_redis (store_client (fun _ => false)) two_replicas ∅
    = Ok <$> MemorySpec.run_spec (event_of <$> two_replicas) [].
Proof.
  split; [vm_compute; reflexivity|].
  apply (redis_refines_log (store_client (fun _ => false)) store_peek two_replicas noon ∅);
    [apply store_fresh|apply two_replicas_ok|apply two_replicas_ok|vm_compute; exact I].
Defined.

(** The first call times out after Redis counted it: the second is refused. *)
Lemma redis_rpm_bound_witness :
  run_redis (store_client (Z.eqb noon)) two_replicas ∅ = [Err "i/o timeout"; Ok false; Ok true] ∧
  admitted two_replicas (run_redis (store_client (Z.eqb noon)) two_replicas ∅) "vk1" (noon / Minute) ≤ 1.
Proof.
  split; [vm_compute; reflexivity|].
  apply (redis_rpm_bound (store_client (Z.eqb noon)) store_peek two_replicas noon ∅);
    [apply store_fresh|apply two_replicas_ok|apply two_replicas_ok|lia|repeat constructor].
Defined.
