(* ===== verification/Balancer.v ===== *)
(** * Balancer: src/internal/balancer/roundrobin.go

    Smooth weighted round-robin over a ranked chain: index [i] of [n] candidates
    has weight [n - i].  A Go slice index out of range is a panic, [None] here. *)

From S2P Require Import Prelude GoString.
Local Open Scope string_scope.
Local Open Scope Z_scope.

Record swrrState := mkState {
  fingerprint : string;
  current : list Z
}.

(** [WeightedRR]: the per-group states. *)
Abbreviation WeightedRR := (gmap string swrrState).

Definition NewWeightedRR : WeightedRR := ∅.

Definition nul : string := String (ascii_of_nat 0) "".

(** The loop of [Next] from index [i], for [fuel] more iterations; it runs with
    [fuel = n] from [0], exactly the source's [for i := 0; i < n; i++]. *)
Fixpoint next_loop (fuel i n : nat) (total : Z) (best : nat) (cur : list Z)
    : option (Z * nat * list Z) :=
  match fuel with
  | O => Some (total, best, cur)
  | S fuel' =>
      let wi := Z.of_nat n - Z.of_nat i in
      let total' := wrap64 (total + wi) in
      match cur !! i with
      | None => None
      | Some ci =>
          let cur' := <[i := wrap64 (ci + wi)]> cur in
          match cur' !! i, cur' !! best with
          | Some ci', Some cb =>
              next_loop fuel' (S i) n total' (if cb <? ci' then i else best) cur'
          | _, _ => None
          end
      end
  end.

Definition Next (w : WeightedRR) (groupKey : string) (ranked : list string)
    : option (nat * WeightedRR) :=
  let n := length ranked in
  if (n <=? 1)%nat then Some (O, w)
  else
    let fp := Join ranked nul in
    let fresh := mkState fp (replicate n 0) in
    let st := match w !! groupKey with
              | Some st => if decide (fingerprint st = fp) then st else fresh
              | None => fresh
              end in
    match next_loop n 0 n 0 0 (current st) with
    | None => None
    | Some (total, best, cur) =>
        match cur !! best with
        | None => None
        | Some cb =>
            Some (best, <[groupKey := mkState (fingerprint st) (<[best := wrap64 (cb - total)]> cur)]> w)
        end
    end.

(** [RotateChain]: [None] is the nil balancer. *)
Definition RotateChain (groupKey : string) (ranked : list string) (w : option WeightedRR)
    : option (list string * option WeightedRR) :=
  match w with
  | None => Some (ranked, None)
  | Some w' =>
      if (length ranked <=? 1)%nat then Some (ranked, w)
      else
        match Next w' groupKey ranked with
        | None => None
        | Some (i, w'') =>
            match ranked !! i with
            | None => None
            | Some m =>
                (* [append(out, ranked[i])], then every other index in order *)
                Some (m :: flat_map (fun jm => if decide (fst jm = i) then [] else [snd jm])
                             (zip (seq 0 (length ranked)) ranked), Some w'')
            end
        end
  end.

(** ** Sums and weights *)

Definition sumZ (l : list Z) : Z := foldr Z.add 0 l.

Definition weight (n i : nat) : Z := Z.of_nat n - Z.of_nat i.
Definition weights (n : nat) : list Z := weight n <$> seq 0 n.

Lemma sumZ_insert (l : list Z) (i : nat) (x y : Z) :
  l !! i = Some y → sumZ (<[i := x]> l) = sumZ l - y + x.
Proof.
  revert i. induction l as [|z l IH]; intros [|i] H; simplify_eq/=; [lia|].
  rewrite (IH i H). lia.
Qed.

Lemma sumZ_zip_add (l k : list Z) :
  length l = length k → sumZ (zip_with Z.add l k) = sumZ l + sumZ k.
Proof.
  revert k. induction l as [|x l IH]; intros [|y k] H; simplify_eq/=; [done|].
  rewrite IH by done. lia.
Qed.

Lemma sumZ_nonneg_zero (l : list Z) :
  Forall (fun x => 0 ≤ x) l → sumZ l = 0 → Forall (fun x => x = 0) l.
Proof.
  induction 1 as [|x l Hx Hl IH]; simpl; intros H; constructor.
  - assert (0 ≤ sumZ l) by (clear - Hl; induction Hl; simpl; lia). lia.
  - apply IH. assert (0 ≤ sumZ l) by (clear - Hl; induction Hl; simpl; lia). lia.
Qed.

Lemma sumZ_ge (l : list Z) (b : Z) :
  Forall (fun y => - b ≤ y) l → - b * Z.of_nat (length l) ≤ sumZ l.
Proof.
  induction 1 as [|y l Hy Hf IH]; [simpl; lia|].
  cbn [length sumZ foldr] in *. fold (sumZ l) in *. rewrite Nat2Z.inj_succ, Z.mul_succ_r. lia.
Qed.

Lemma sumZ_lower (l : list Z) (b x : Z) (i : nat) :
  0 ≤ b → Forall (fun y => - b ≤ y) l → l !! i = Some x →
  x ≤ sumZ l + b * Z.of_nat (length l).
Proof.
  intros Hb Hf. revert i. induction Hf as [|y l Hy Hf IH]; intros i Hi; [done|].
  cbn [length sumZ foldr] in *. fold (sumZ l) in *. rewrite Nat2Z.inj_succ, Z.mul_succ_r.
  destruct i as [|i]; simplify_eq/=.
  - pose proof (sumZ_ge l b Hf). lia.
  - specialize (IH i Hi). lia.
Qed.

Lemma sumZ_max (l : list Z) (m : Z) :
  Forall (fun y => y ≤ m) l → sumZ l ≤ m * Z.of_nat (length l).
Proof.
  induction 1 as [|y l Hy Hf IH]; [simpl; lia|].
  cbn [length sumZ foldr] in *. fold (sumZ l) in *. rewrite Nat2Z.inj_succ, Z.mul_succ_r. lia.
Qed.

Lemma sumZ_weights_seq n k : (k ≤ n)%nat →
  2 * sumZ (weight n <$> seq (n - k) k) = Z.of_nat k * (Z.of_nat k + 1).
Proof.
  induction k as [|k IH]; intros Hk; [done|].
  replace (n - k)%nat with (S (n - S k)) in IH by lia. specialize (IH ltac:(lia)).
  cbn [seq fmap list_fmap sumZ foldr]. fold (sumZ (weight n <$> seq (S (n - S k)) k)).
  unfold weight at 1. rewrite Nat2Z.inj_sub, !Nat2Z.inj_succ by lia. lia.
Qed.

Definition total_weight (n : nat) : Z := sumZ (weights n).

Lemma total_weight_double n : 2 * total_weight n = Z.of_nat n * (Z.of_nat n + 1).
Proof.
  unfold total_weight, weights. pose proof (sumZ_weights_seq n n ltac:(lia)) as H.
  by rewrite Nat.sub_diag in H.
Qed.

Lemma length_weights n : length (weights n) = n.
Proof. unfold weights. by rewrite length_fmap, length_seq. Qed.

Lemma lookup_weights n i : (i < n)%nat → weights n !! i = Some (weight n i).
Proof. intros H. unfold weights. by rewrite list_lookup_fmap, lookup_seq_lt. Qed.

(** ** The loop adds the weights and finds a maximum *)

(** Values for which 64-bit arithmetic is exact: [n] candidates with [n] at most
    a million, running weights within [n * total_weight n]. *)
Definition small (n : nat) : Prop := (2 ≤ n)%nat ∧ Z.of_nat n ≤ 1000000.
Definition bounded (n : nat) (cur : list Z) : Prop :=
  Forall (fun c => - (Z.of_nat n * total_weight n) ≤ c ≤ Z.of_nat n * total_weight n) cur.

Lemma total_weight_pos n : (1 ≤ n)%nat → Z.of_nat n ≤ total_weight n.
Proof. intros H. pose proof (total_weight_double n). nia. Qed.

Lemma small_total n : small n → 0 < total_weight n ≤ 1000000000000 ∧
  Z.of_nat n * total_weight n ≤ 1000000000000000000.
Proof.
  intros [H1 H2]. pose proof (total_weight_double n). pose proof (total_weight_pos n ltac:(lia)).
  nia.
Qed.

Record loop_inv (n i : nat) (cur0 cur : list Z) (total : Z) (best : nat) : Prop := {
  li_len : length cur = n;
  li_total : total = sumZ (take i (weights n));
  li_done : ∀ j c, (j < i)%nat → cur0 !! j = Some c → cur !! j = Some (c + weight n j);
  li_todo : ∀ j, (i ≤ j)%nat → cur !! j = cur0 !! j;
  li_best : (best ≤ i)%nat ∧ (best < n)%nat ∧ (best = i → i = 0%nat);
  li_max : ∀ j c b, (j < i)%nat → cur !! j = Some c → cur !! best = Some b → c ≤ b
}.

Lemma sumZ_app l k : sumZ (l ++ k) = sumZ l + sumZ k.
Proof. induction l as [|x l IH]; simpl; [done|]. rewrite IH. lia. Qed.

Lemma take_weights_range n i : 0 ≤ sumZ (take i (weights n)) ≤ total_weight n.
Proof.
  unfold total_weight. rewrite <- (take_drop i (weights n)) at 3. rewrite sumZ_app.
  assert (∀ l, Forall (fun x => 0 ≤ x) l → 0 ≤ sumZ l) as Hnn
    by (induction 1; simpl; lia).
  assert (Forall (fun x => 0 ≤ x) (weights n)) as Hw.
  { unfold weights. apply Forall_fmap, Forall_forall. intros j Hj%elem_of_seq.
    unfold compose, weight. lia. }
  pose proof (Hnn _ (Forall_take _ i _ Hw)). pose proof (Hnn _ (Forall_drop _ i _ Hw)). lia.
Qed.

Lemma loop_step n i cur0 cur total best :
  small n → bounded n cur0 → length cur0 = n → (i < n)%nat →
  loop_inv n i cur0 cur total best →
  ∃ ci cb, cur !! i = Some ci ∧
    let cur' := <[i := wrap64 (ci + weight n i)]> cur in
    cur' !! i = Some (ci + weight n i) ∧ cur' !! best = Some cb ∧
    loop_inv n (S i) cur0 cur' (wrap64 (total + weight n i))
      (if cb <? ci + weight n i then i else best).
Proof.
  intros Hsm Hbd Hl0 Hi [Hlen Htot Hdone Htodo (Hb1 & Hb2 & Hb3) Hmax].
  pose proof (small_total n Hsm) as (Ht & Hnt). assert (Z.of_nat n ≤ 1000000) as Hn by apply Hsm.
  destruct (lookup_lt_is_Some_2 cur i ltac:(lia)) as [ci Hci].
  assert (cur0 !! i = Some ci) as Hci0 by (by rewrite <- Htodo).
  assert (- (Z.of_nat n * total_weight n) ≤ ci ≤ Z.of_nat n * total_weight n) as Hcb
    by (by eapply (Forall_lookup_1 _ _ _ _ Hbd)).
  assert (0 < weight n i ≤ Z.of_nat n) as Hw by (unfold weight; lia).
  assert (wrap64 (ci + weight n i) = ci + weight n i) as Ew.
  { apply wrap64_id. unfold in_int64, int64_min, int64_max. lia. }
  assert (wrap64 (total + weight n i) = total + weight n i) as Et.
  { rewrite Htot. apply wrap64_id. pose proof (take_weights_range n i).
    unfold in_int64, int64_min, int64_max. lia. }
  set (cur' := <[i := ci + weight n i]> cur).
  assert (cur' !! i = Some (ci + weight n i)) as Hi'
    by (subst cur'; apply list_lookup_insert_eq; lia).
  assert (length cur' = n) as Hlen' by (subst cur'; by rewrite length_insert).
  destruct (lookup_lt_is_Some_2 cur' best ltac:(lia)) as [cb Hcb'].
  exists ci, cb. split; [done|]. cbn zeta. rewrite Ew, Et. fold cur'. split_and!; [done..|].
  assert (∀ j, j ≠ i → cur' !! j = cur !! j) as Hne
    by (intros j Hj; subst cur'; by apply list_lookup_insert_ne).
  split.
  - done.
  - rewrite Htot, (take_S_r _ _ (weight n i)) by (by apply lookup_weights).
    rewrite sumZ_app. simpl. lia.
  - intros j c Hj Hc. destruct (decide (j = i)) as [->|Hji].
    + rewrite Hci0 in Hc. by simplify_eq.
    + rewrite Hne by done. apply Hdone; [lia|done].
  - intros j Hj. rewrite Hne by lia. apply Htodo. lia.
  - destruct (cb <? ci + weight n i); split_and!; lia.
  - intros j c b Hj Hc Hb. destruct (Z.ltb_spec cb (ci + weight n i)) as [Hlt|Hge].
    + rewrite Hi' in Hb. simplify_eq. destruct (decide (j = i)) as [->|Hji].
      { rewrite Hi' in Hc. simplify_eq. lia. }
      rewrite Hne in Hc by done.
      destruct (decide (best = i)) as [->|Hbi]; [lia|].
      rewrite Hne in Hcb' by done.
      pose proof (Hmax j c cb ltac:(lia) Hc Hcb'). lia.
    + rewrite Hcb' in Hb. simplify_eq. destruct (decide (j = i)) as [->|Hji].
      { rewrite Hi' in Hc. simplify_eq. lia. }
      rewrite Hne in Hc by done.
      destruct (decide (best = i)) as [->|Hbi]; [lia|].
      rewrite Hne in Hcb' by done. by apply (Hmax j c b ltac:(lia)).
Qed.

Lemma loop_run fuel n i cur0 cur total best :
  small n → bounded n cur0 → length cur0 = n → (i + fuel = n)%nat →
  loop_inv n i cur0 cur total best →
  ∃ total' best' cur', next_loop fuel i n total best cur = Some (total', best', cur') ∧
    loop_inv n n cur0 cur' total' best'.
Proof.
  intros Hsm Hbd Hl0. revert i cur total best. induction fuel as [|fuel IH]; intros i cur total best Hf Hinv.
  - replace i with n in Hinv by lia. simpl. eauto.
  - destruct (loop_step n i cur0 cur total best Hsm Hbd Hl0 ltac:(lia) Hinv)
      as (ci & cb & Hci & Hi' & Hb' & Hinv').
    cbn [next_loop]. fold (weight n i). rewrite Hci, Hi', Hb'.
    apply IH; [lia|done].
Qed.

(** What one turn of the loop computes. *)
Lemma next_loop_spec n cur0 :
  small n → bounded n cur0 → length cur0 = n →
  ∃ best v, next_loop n 0 n 0 0 cur0 = Some (total_weight n, best, zip_with Z.add cur0 (weights n)) ∧
    zip_with Z.add cur0 (weights n) !! best = Some v ∧ (best < n)%nat ∧
    Forall (fun c => c ≤ v) (zip_with Z.add cur0 (weights n)).
Proof.
  intros Hsm Hbd Hl0.
  assert (loop_inv n 0 cur0 cur0 0 0) as Hinit.
  { destruct Hsm. split; try done; intros; lia. }
  destruct (loop_run n n 0 cur0 cur0 0 0%nat Hsm Hbd Hl0 ltac:(lia) Hinit)
    as (total & best & cur & Hrun & [Hlen Htot Hdone Htodo (Hb1 & Hb2 & Hb3) Hmax]).
  assert (cur = zip_with Z.add cur0 (weights n)) as Ecur.
  { apply list_eq. intros j. rewrite lookup_zip_with.
    destruct (decide (j < n)%nat) as [Hj|Hj].
    - destruct (lookup_lt_is_Some_2 cur0 j ltac:(lia)) as [c Hc].
      rewrite (Hdone j c Hj Hc), Hc, lookup_weights by done. done.
    - rewrite (lookup_ge_None_2 cur), (lookup_ge_None_2 cur0) by lia. done. }
  destruct (lookup_lt_is_Some_2 cur best ltac:(lia)) as [v Hv].
  exists best, v. rewrite <- Ecur. split_and!; [|done..|].
  - rewrite Hrun, Htot. unfold total_weight.
    rewrite take_ge by (by rewrite length_weights). done.
  - apply Forall_lookup. intros j c Hc. apply (Hmax j c v); [|done..].
    apply lookup_lt_Some in Hc. lia.
Qed.

(** ** Rounds *)

(** Group [key] holds running weights [cur] for the chain [ranked]. *)
Definition group_state (w : WeightedRR) (key : string) (ranked : list string) (cur : list Z) : Prop :=
  w !! key = Some (mkState (Join ranked nul) cur) ∨
  (cur = replicate (length ranked) 0 ∧
   match w !! key with Some st => fingerprint st ≠ Join ranked nul | None => True end).

(** The picks of [t] consecutive calls. *)
Fixpoint picks (t : nat) (w : WeightedRR) (key : string) (ranked : list string)
    : option (list nat * WeightedRR) :=
  match t with
  | O => Some ([], w)
  | S t' =>
      match Next w key ranked with
      | None => None
      | Some (i, w') =>
          match picks t' w' key ranked with
          | None => None
          | Some (ps, w'') => Some (i :: ps, w'')
          end
      end
  end.

Definition occurrences (i : nat) (ps : list nat) : Z :=
  Z.of_nat (length (filter (fun x => x = i) ps)).

Lemma occurrences_cons i x ps :
  occurrences i (x :: ps) = occurrences i ps + (if decide (x = i) then 1 else 0).
Proof. unfold occurrences. rewrite filter_cons. case_decide; simpl length; lia. Qed.

(** Running weights between calls: they sum to zero and stay above minus the
    total weight. *)
Definition cur_inv (n : nat) (cur : list Z) : Prop :=
  length cur = n ∧ sumZ cur = 0 ∧ Forall (fun c => - (total_weight n - 1) ≤ c) cur.

Lemma cur_inv_bounded n cur : small n → cur_inv n cur → bounded n cur.
Proof.
  intros Hsm (Hl & Hs & Hf). pose proof (small_total n Hsm) as (Ht & _).
  apply Forall_lookup. intros i c Hc.
  pose proof (sumZ_lower cur (total_weight n - 1) c i ltac:(lia) Hf Hc) as Hu.
  pose proof (Forall_lookup_1 _ _ _ _ Hf Hc) as Hlo. simpl in Hlo.
  rewrite Hs, Hl in Hu. destruct Hsm. nia.
Qed.

Lemma cur_inv_zero n : small n → cur_inv n (replicate n 0).
Proof.
  intros Hsm. pose proof (small_total n Hsm) as (Ht & _). split_and!.
  - apply length_replicate.
  - clear. induction n; simpl; lia.
  - apply Forall_replicate. lia.
Qed.

(** The running weights after picking [best]. *)
Definition advance (n best : nat) (cur : list Z) : list Z :=
  alter (fun v => v - total_weight n) best (zip_with Z.add cur (weights n)).

Lemma lookup_advance n best cur i c :
  length cur = n → cur !! i = Some c →
  advance n best cur !! i =
  Some (c + weight n i - (if decide (best = i) then total_weight n else 0)).
Proof.
  intros Hl Hc. unfold advance. pose proof (lookup_lt_Some _ _ _ Hc).
  assert (zip_with Z.add cur (weights n) !! i = Some (c + weight n i)) as E.
  { rewrite lookup_zip_with, Hc, lookup_weights by lia. done. }
  destruct (decide (best = i)) as [->|Hne].
  - rewrite list_lookup_alter, decide_True by done. by rewrite E.
  - rewrite list_lookup_alter_ne, E by done. f_equal. lia.
Qed.

Lemma Next_spec w key ranked cur :
  small (length ranked) → group_state w key ranked cur → cur_inv (length ranked) cur →
  ∃ i, (i < length ranked)%nat ∧
    Next w key ranked = Some (i, <[key := mkState (Join ranked nul) (advance (length ranked) i cur)]> w) ∧
    cur_inv (length ranked) (advance (length ranked) i cur).
Proof.
  set (n := length ranked). intros Hsm Hg Hinv. pose proof (cur_inv_bounded n cur Hsm Hinv) as Hbd.
  pose proof (small_total n Hsm) as (Ht & Hnt). destruct Hinv as (Hl & Hs & Hf).
  destruct (next_loop_spec n cur Hsm Hbd Hl) as (best & v & Hrun & Hv & Hb & Hmax).
  exists best. split; [done|].
  assert (length (zip_with Z.add cur (weights n)) = n) as Hlz.
  { rewrite length_zip_with, length_weights. lia. }
  assert (sumZ (zip_with Z.add cur (weights n)) = total_weight n) as Hsum.
  { rewrite sumZ_zip_add by (by rewrite length_weights). unfold total_weight. lia. }
  assert (1 ≤ v) as Hv1.
  { pose proof (sumZ_max _ v Hmax) as Hm. rewrite Hsum, Hlz in Hm. destruct Hsm. nia. }
  assert (v ≤ Z.of_nat n * total_weight n + Z.of_nat n) as Hv2.
  { rewrite lookup_zip_with in Hv. destruct (cur !! best) as [c|] eqn:Hc; [|done].
    rewrite lookup_weights in Hv by done. simplify_eq/=.
    pose proof (Forall_lookup_1 _ _ _ _ Hbd Hc) as Hcb. simpl in Hcb. unfold weight. lia. }
  assert (wrap64 (v - total_weight n) = v - total_weight n) as Ew.
  { apply wrap64_id. destruct Hsm. unfold in_int64, int64_min, int64_max. lia. }
  assert (advance n best cur = <[best := v - total_weight n]> (zip_with Z.add cur (weights n))) as Eadv.
  { unfold advance. apply list_eq. intros j. destruct (decide (best = j)) as [<-|Hne].
    - rewrite list_lookup_alter, decide_True, Hv by done. rewrite list_lookup_insert_eq by lia. done.
    - rewrite list_lookup_alter_ne, list_lookup_insert_ne by done. done. }
  split.
  - unfold Next. fold n. destruct (Nat.leb_spec n 1); [destruct Hsm; lia|].
    match goal with |- context [current ?st] => set (s := st) end.
    assert (current s = cur ∧ fingerprint s = Join ranked nul) as [Ec Ef].
    { subst s. destruct Hg as [->|[-> Hm]].
      - simpl. by rewrite decide_True.
      - destruct (w !! key) as [st|]; [by rewrite decide_False|done]. }
    rewrite Ec, Hrun, Hv, Ef, Ew, Eadv. done.
  - rewrite Eadv. split_and!.
    + by rewrite length_insert.
    + rewrite (sumZ_insert _ _ _ _ Hv), Hsum. lia.
    + apply Forall_insert; [|lia]. apply Forall_lookup. intros j c Hc.
      rewrite lookup_zip_with in Hc. destruct (cur !! j) as [cj|] eqn:Hcj; [|done].
      pose proof (lookup_lt_Some _ _ _ Hcj). rewrite lookup_weights in Hc by lia. simplify_eq/=.
      pose proof (Forall_lookup_1 _ _ _ _ Hf Hcj) as Hlo. simpl in Hlo. unfold weight. lia.
Qed.

(** After [t] calls every running weight is [t] times the weight of its index
    minus the total weight times the number of its picks. *)
Lemma picks_spec t w key ranked cur :
  small (length ranked) → group_state w key ranked cur → cur_inv (length ranked) cur →
  ∃ ps w' cur', picks t w key ranked = Some (ps, w') ∧ length ps = t ∧
    Forall (fun i => (i < length ranked)%nat) ps ∧
    (w' !! key = Some (mkState (Join ranked nul) cur') ∨ (t = 0%nat ∧ w' = w ∧ cur' = cur)) ∧
    cur_inv (length ranked) cur' ∧
    ∀ i c, cur !! i = Some c →
      cur' !! i = Some (c + Z.of_nat t * weight (length ranked) i
                        - total_weight (length ranked) * occurrences i ps).
Proof.
  set (n := length ranked). intros Hsm. revert w cur.
  induction t as [|t IH]; intros w cur Hg Hinv.
  - exists [], w, cur. split_and!; try done; [by right|]. intros i c Hc. rewrite Hc. f_equal.
    unfold occurrences. simpl. lia.
  - destruct (Next_spec w key ranked cur Hsm Hg Hinv) as (b & Hb & Hnext & Hinv').
    destruct (IH (<[key := mkState (Join ranked nul) (advance n b cur)]> w) (advance n b cur))
      as (ps & w' & cur' & Hp & Hlen & Hf & Hg' & Hinv'' & Hlk).
    { left. apply lookup_insert_eq. } { done. }
    exists (b :: ps), w', cur'. split_and!; [|by simpl; f_equal|by constructor| |done|].
    + cbn [picks]. fold n in Hnext. rewrite Hnext, Hp. done.
    + left. destruct Hg' as [Hg'|(_ & -> & ->)]; [done|]. apply lookup_insert_eq.
    + intros i c Hc.
      rewrite (Hlk i _ (lookup_advance n b cur i c (proj1 Hinv) Hc)), occurrences_cons.
      f_equal. rewrite Nat2Z.inj_succ. case_decide; lia.
Qed.

(** ** Reachable balancers never panic *)

Definition nul_free (l : list string) : Prop :=
  Forall (fun s => ¬ byte_in (ascii_of_nat 0) s) l.

Lemma Join_inj l l' :
  l ≠ [] → l' ≠ [] → nul_free l → nul_free l' → Join l nul = Join l' nul → l = l'.
Proof.
  revert l'. induction l as [|x l IH]; intros [|x' l'] Hne Hne' Hf Hf' E; try done.
  inversion Hf as [|? ? Hx Hl]; inversion Hf' as [|? ? Hx' Hl']; subst.
  destruct l as [|y l], l' as [|y' l'].
  - simpl in E. by subst.
  - simpl in E. subst x. exfalso. apply Hx. rewrite byte_in_app. right. simpl. by left.
  - simpl in E. subst x'. exfalso. apply Hx'. rewrite byte_in_app. right. simpl. by left.
  - change (Join (x :: y :: l) nul) with (x +:+ String (ascii_of_nat 0) (Join (y :: l) nul)) in E.
    change (Join (x' :: y' :: l') nul) with (x' +:+ String (ascii_of_nat 0) (Join (y' :: l') nul)) in E.
    apply app_sep_inj in E as [-> E]; [|done..]. f_equal. by apply IH.
Qed.

Inductive reachable : WeightedRR → Prop :=
| reach_new : reachable NewWeightedRR
| reach_next w key ranked i w' :
    reachable w → nul_free ranked → Z.of_nat (length ranked) ≤ 1000000 →
    Next w key ranked = Some (i, w') → reachable w'.

Definition wf (w : WeightedRR) : Prop :=
  ∀ key st, w !! key = Some st →
    ∃ ranked, nul_free ranked ∧ small (length ranked) ∧
      fingerprint st = Join ranked nul ∧ cur_inv (length ranked) (current st).

Lemma wf_group w key ranked :
  wf w → nul_free ranked → small (length ranked) →
  ∃ cur, group_state w key ranked cur ∧ cur_inv (length ranked) cur.
Proof.
  intros Hwf Hnf Hsm. destruct (w !! key) as [st|] eqn:Hst.
  - destruct (decide (fingerprint st = Join ranked nul)) as [E|E].
    + destruct (Hwf _ _ Hst) as (r & Hr & Hsr & Ef & Hinv).
      assert (r = ranked) as ->.
      { destruct Hsm, Hsr. apply Join_inj; [intros ->; simpl in *; lia|intros ->; simpl in *; lia|done|done|congruence]. }
      exists (current st). split; [|done]. left. rewrite Hst, <- E. by destruct st.
    + exists (replicate (length ranked) 0). split; [|by apply cur_inv_zero].
      right. by rewrite Hst.
  - exists (replicate (length ranked) 0). split; [|by apply cur_inv_zero].
    right. by rewrite Hst.
Qed.

Lemma wf_Next w key ranked :
  wf w → nul_free ranked → Z.of_nat (length ranked) ≤ 1000000 →
  ∃ i w', Next w key ranked = Some (i, w') ∧ wf w' ∧
    (ranked ≠ [] → (i < length ranked)%nat).
Proof.
  intros Hwf Hnf Hle. destruct (decide (length ranked ≤ 1)%nat) as [H1|H1].
  - exists 0%nat, w. unfold Next. destruct (Nat.leb_spec (length ranked) 1); [|lia].
    split_and!; [done..|]. intros Hne. destruct ranked; [done|simpl; lia].
  - assert (small (length ranked)) as Hsm by (split; lia).
    destruct (wf_group w key ranked Hwf Hnf Hsm) as (cur & Hg & Hinv).
    destruct (Next_spec w key ranked cur Hsm Hg Hinv) as (i & Hi & E & Hinv').
    exists i, (<[key := mkState (Join ranked nul) (advance (length ranked) i cur)]> w).
    split_and!; [done| |done]. intros k st. rewrite lookup_insert. case_decide.
    + intros [= <-]. by exists ranked.
    + apply Hwf.
Qed.

Lemma reachable_wf w : reachable w → wf w.
Proof.
  induction 1 as [|w key ranked i w' Hr IH Hnf Hle E].
  - intros k st. unfold NewWeightedRR. by rewrite lookup_empty.
  - destruct (wf_Next w key ranked IH Hnf Hle) as (i' & w'' & E' & Hwf & _).
    rewrite E in E'. by simplify_eq.
Qed.

(** The copying loop of [RotateChain] keeps every index but [i], in order. *)
Lemma rotate_rest (ranked : list string) (i k : nat) :
  flat_map (fun jm => if decide (fst jm = (k + i)%nat) then [] else [snd jm])
    (zip (seq k (length ranked)) ranked) =
  (take i ranked ++ drop (S i) ranked)%list.
Proof.
  revert i k. induction ranked as [|m ranked IH]; intros i k; [by destruct i|].
  cbn [length seq zip zip_with flat_map fst snd]. destruct i as [|i].
  - rewrite decide_True by lia. simpl. rewrite drop_0.
    clear IH. assert (∀ (l : list string) j, (k < j)%nat →
      flat_map (fun jm => if decide (fst jm = (k + 0)%nat) then [] else [snd jm])
        (zip (seq j (length l)) l) = l) as H.
    { induction l as [|x l IHl]; intros j Hj; [done|]. cbn [length seq zip zip_with flat_map fst snd].
      rewrite decide_False by lia. simpl. f_equal. apply IHl. lia. }
    apply H. lia.
  - rewrite decide_False by lia. simpl. f_equal.
    replace (k + S i)%nat with (S k + i)%nat by lia. apply IH.
Qed.

(** ** Properties *)

(** [C17] Weighted fairness: over one period of [1 + 2 + ... + n] consecutive calls
    from a fresh balancer, the candidate of rank [i] is picked exactly [n - i]
    times, no call panics, and the running weights are all zero again, so the
    next period repeats. *)
Theorem swrr_period (key : string) (ranked : list string) :
  (2 ≤ length ranked)%nat → Z.of_nat (length ranked) ≤ 1000000 →
  ∃ ps w', picks (Z.to_nat (total_weight (length ranked))) NewWeightedRR key ranked = Some (ps, w') ∧
    Z.of_nat (length ps) = total_weight (length ranked) ∧
    (∀ i, (i < length ranked)%nat → occurrences i ps = Z.of_nat (length ranked) - Z.of_nat i) ∧
    w' !! key = Some (mkState (Join ranked nul) (replicate (length ranked) 0)).
Proof.
  intros H1 H2. set (n := length ranked) in *. assert (small n) as Hsm by done.
  pose proof (small_total n Hsm) as (Ht & _).
  destruct (picks_spec (Z.to_nat (total_weight n)) NewWeightedRR key ranked (replicate n 0) Hsm)
    as (ps & w' & cur' & Hp & Hlen & Hf & Hg & (Hl & Hs & Hlo) & Hlk).
  { right. unfold NewWeightedRR. by rewrite lookup_empty. } { by apply cur_inv_zero. }
  exists ps, w'. fold n in Hlk, Hl, Hlo. rewrite Z2Nat.id in Hlk by lia.
  assert (∀ i, (i < n)%nat → cur' !! i = Some (total_weight n * (weight n i - occurrences i ps))) as Hc.
  { intros i Hi. rewrite (Hlk i 0) by (by apply lookup_replicate_2). f_equal. lia. }
  assert (Forall (fun c => c = 0) cur') as Hz.
  { apply sumZ_nonneg_zero; [|done]. apply Forall_lookup. intros i c Hci.
    pose proof (lookup_lt_Some _ _ _ Hci) as Hi. rewrite Hl in Hi.
    pose proof (Forall_lookup_1 _ _ _ _ Hlo Hci) as Hb. simpl in Hb.
    rewrite (Hc i Hi) in Hci. injection Hci as <-. set (x := weight n i - occurrences i ps) in *.
    destruct (Z.lt_ge_cases x 0); nia. }
  split_and!; [done|lia| |].
  - intros i Hi. pose proof (Forall_lookup_1 _ _ _ _ Hz (Hc i Hi)) as E. simpl in E.
    unfold weight in E. nia.
  - assert (cur' = replicate n 0) as ->.
    { symmetry. apply replicate_as_Forall. split; [done|]. eapply Forall_impl; [exact Hz|]. by intros ? ->. }
    destruct Hg as [Hg|(Ht0 & _)]; [done|lia].
Qed.

(** Rotation: on any reachable balancer and any chain of model ids, the chain
    returned starts with the picked model and continues with the others in their
    ranked order (so it is a permutation of the input and failover order is
    kept), and the call does not panic. *)
Theorem rotate_chain_shape (w : WeightedRR) (key : string) (ranked : list string) :
  reachable w → nul_free ranked → ranked ≠ [] → Z.of_nat (length ranked) ≤ 1000000 →
  ∃ i m w', RotateChain key ranked (Some w) =
    Some (m :: (take i ranked ++ drop (S i) ranked)%list, Some w') ∧
    ranked !! i = Some m ∧
    m :: (take i ranked ++ drop (S i) ranked)%list ≡ₚ ranked.
Proof.
  intros Hr Hnf Hne Hle. unfold RotateChain.
  destruct (Nat.leb_spec (length ranked) 1) as [H1|H1].
  - destruct ranked as [|m [|? ?]]; [done| |simpl in *; lia].
    exists 0%nat, m, w. done.
  - destruct (wf_Next w key ranked (reachable_wf w Hr) Hnf Hle) as (i & w' & E & _ & Hi).
    specialize (Hi Hne). destruct (lookup_lt_is_Some_2 ranked i Hi) as [m Hm].
    rewrite E, Hm. exists i, m, w'. rewrite <- (rotate_rest ranked i 0). split_and!; [done..|].
    rewrite (rotate_rest ranked i 0). rewrite <- (take_drop_middle ranked i m Hm) at 3.
    apply Permutation_middle.
Qed.

(** ** Witnesses *)

Lemma swrr_period_witness :
  ∃ ps w', picks (Z.to_nat (total_weight 3)) NewWeightedRR "auto" ["a"; "b"; "c"] = Some (ps, w') ∧
    Z.of_nat (length ps) = total_weight 3 ∧
    (∀ i, (i < 3)%nat → occurrences i ps = Z.of_nat 3 - Z.of_nat i) ∧
    w' !! "auto" = Some (mkState (Join ["a"; "b"; "c"] nul) (replicate 3 0)).
Proof. apply (swrr_period "auto" ["a"; "b"; "c"]); simpl; lia. Defined.

Lemma abc_nul_free : nul_free ["a"; "b"; "c"].
Proof. repeat constructor; simpl; intros [H|[]]; discriminate H. Qed.

Lemma rotate_chain_shape_witness :
  ∃ i m w', RotateChain "auto" ["a"; "b"; "c"] (Some NewWeightedRR) =
    Some (m :: (take i ["a"; "b"; "c"] ++ drop (S i) ["a"; "b"; "c"])%list, Some w') ∧
    ["a"; "b"; "c"] !! i = Some m ∧
    m :: (take i ["a"; "b"; "c"] ++ drop (S i) ["a"; "b"; "c"])%list ≡ₚ ["a"; "b"; "c"].
Proof.
  apply (rotate_chain_shape NewWeightedRR "auto" ["a"; "b"; "c"]);
    [apply reach_new | exact abc_nul_free | discriminate | simpl; lia].
Defined.
