(* ===== verification/Router.v ===== *)
(** * Router: src/internal/router (router.go, bench_provider.go, bench_freshness.go)

    Quality-aware ranking of candidate models.  The statistics provider and the
    benchmark source are interfaces of the Go code, parameters here; [math.Exp]
    is a parameter as well.  Floating point is binary64 without fused
    multiply-add, as Go compiles it on amd64. *)

From S2P Require Import Prelude GoString GoSort Float64 GoTime.
Local Open Scope string_scope.
Local Open Scope Z_scope.

Record ModelStats := mkStats {
  Model : string;
  Quality : float64;
  QualitySamples : Z;
  PassRate : float64;
  SafetyPassRate : float64;
  SafetySamples : Z;
  AvgLatencyMs : float64;
  AvgCostUSD : float64;
  Samples : Z;
  EffQuality : float64
}.

(** The zero value of the struct, what a Go map returns for a missing key. *)
Definition zero_stats : ModelStats :=
  mkStats "" fzero 0 fzero fzero 0 fzero fzero 0 fzero.

Record Weights := mkWeights { WQuality : float64; WCost : float64; WLatency : float64 }.

Definition DefaultWeights : Weights := mkWeights (lit 6 10) (lit 2 10) (lit 2 10).

Definition explorationQuality : float64 := lit 75 100.
Definition judgeWeight : float64 := lit 7 10.
Definition safetyWeight : float64 := lit 3 10.

Definition effectiveQuality (s : ModelStats) : float64 :=
  let hasJudge := 0 <? QualitySamples s in
  let hasSafety := 0 <? SafetySamples s in
  if hasJudge && hasSafety
  then fadd (fmul judgeWeight (Quality s)) (fmul safetyWeight (SafetyPassRate s))
  else if hasJudge then Quality s
  else if hasSafety then SafetyPassRate s
  else explorationQuality.

Definition maxFloat64 (a b : float64) : float64 := if fgt a b then a else b.

Definition normalize (w : Weights) : Weights :=
  let q := maxFloat64 fzero (WQuality w) in
  let c := maxFloat64 fzero (WCost w) in
  let l := maxFloat64 fzero (WLatency w) in
  let sum := fadd (fadd q c) l in
  if fle sum fzero then DefaultWeights
  else mkWeights (fdiv q sum) (fdiv c sum) (fdiv l sum).

(** A [StatsProvider]: the statistics for a window, or an error. *)
Definition StatsProvider (E : Type) : Type := Duration → res E (gmap string ModelStats).

Record Router (E : Type) := mkRouter {
  provider : option (StatsProvider E);
  weights : Weights;
  window : Duration;
  stats : gmap string ModelStats
}.
Arguments mkRouter {E}.
Arguments provider {E}.
Arguments weights {E}.
Arguments window {E}.
Arguments stats {E}.

Definition with_eff (s : ModelStats) : ModelStats :=
  mkStats (Model s) (Quality s) (QualitySamples s) (PassRate s) (SafetyPassRate s)
    (SafetySamples s) (AvgLatencyMs s) (AvgCostUSD s) (Samples s) (effectiveQuality s).

(** [Refresh]: the error, if any, and the router after the call. *)
Definition Refresh {E} (r : Router E) : option E * Router E :=
  match provider r with
  | None => (None, r)
  | Some p =>
      match p (window r) with
      | Err e => (Some e, r)
      | Ok s => (None, mkRouter (provider r) (weights r) (window r) (with_eff <$> s))
      end
  end.

(** [New], without the background goroutine that calls [Refresh] on a timer: a
    failed first refresh is logged and ignored. *)
Definition New {E} (p : option (StatsProvider E)) (w : Weights) (win : Duration) : Router E :=
  let win' := if win <=? 0 then Hour else win in
  snd (Refresh (mkRouter p (normalize w) win' ∅)).

Definition SetWeights {E} (r : Router E) (w : Weights) : Router E :=
  mkRouter (provider r) (normalize w) (window r) (stats r).
Definition SetWindow {E} (r : Router E) (win : Duration) : Router E :=
  mkRouter (provider r) (weights r) (if win <=? 0 then Hour else win) (stats r).
Definition KnownModels {E} (r : Router E) : list string :=
  sort_Strings (map_to_list (stats r)).*1.

(** ** Rank *)

Record cand := mkCand {
  c_model : string;
  c_quality : float64;
  c_lat : float64;
  c_cost : float64;
  c_score : float64;
  c_known : bool
}.

Definition minMax {A} (items : list A) (f : A → float64) : float64 * float64 :=
  match items with
  | [] => (fzero, fzero)
  | x :: xs =>
      foldl (fun '(mn, mx) it =>
        let v := f it in
        (if flt v mn then v else mn, if fgt v mx then v else mx)) (f x, f x) xs
  end.

Definition invNorm (v min max : float64) : float64 :=
  if fle max min then fone else fdiv (fsub max v) (fsub max min).

(** The candidate vector of one model, [None] when the quality gate drops it. *)
Definition candidate (st : gmap string ModelStats) (minQuality : float64) (m : string) : option cand :=
  let s := default zero_stats (st !! m) in
  let ok := bool_decide (is_Some (st !! m)) in
  let known := ok && (0 <? Samples s) in
  let quality := if ok then effectiveQuality s else explorationQuality in
  if fgt minQuality fzero && flt quality minQuality then None
  else Some (mkCand m quality (if known then AvgLatencyMs s else fzero)
               (if known then AvgCostUSD s else fzero) fzero known).

(** Sums of latency, cost and count over the known candidates. *)
Definition known_sums (cs : list cand) : float64 * float64 * float64 :=
  foldl (fun '(lat, cost, n) c =>
    if c_known c then (fadd lat (c_lat c), fadd cost (c_cost c), fadd n fone) else (lat, cost, n))
    (fzero, fzero, fzero) cs.

Definition fill_unknown (meanLat meanCost : float64) (c : cand) : cand :=
  if c_known c then c
  else mkCand (c_model c) (c_quality c) meanLat meanCost (c_score c) (c_known c).

Definition set_score (w : Weights) (lat cost : float64 * float64) (c : cand) : cand :=
  let latScore := invNorm (c_lat c) (fst lat) (snd lat) in
  let costScore := invNorm (c_cost c) (fst cost) (snd cost) in
  mkCand (c_model c) (c_quality c) (c_lat c) (c_cost c)
    (fadd (fadd (fmul (WQuality w) (c_quality c)) (fmul (WLatency w) latScore))
          (fmul (WCost w) costScore))
    (c_known c).

(** The scored candidates, before sorting. *)
Definition score_all (w : Weights) (cs : list cand) : list cand :=
  let '(sumLat, sumCost, n) := known_sums cs in
  let meanLat := if fgt n fzero then fdiv sumLat n else sumLat in
  let meanCost := if fgt n fzero then fdiv sumCost n else sumCost in
  let filled := fill_unknown meanLat meanCost <$> cs in
  let lat := minMax filled c_lat in
  let cost := minMax filled c_cost in
  set_score w lat cost <$> filled.

Definition better (a b : cand) : bool := fgt (c_score a) (c_score b).

Definition Rank {E} (r : Router E) (candidates : list string) (minQuality : float64) : list string :=
  match candidates with
  | [] => []
  | _ =>
      let cs := omap (candidate (stats r) minQuality) candidates in
      match cs with
      | [] => []
      | [c] => [c_model c]
      | _ => c_model <$> SliceStable better (score_all (weights r) cs)
      end
  end.

Definition Select {E} (r : Router E) (candidates : list string) (minQuality : float64) : option string :=
  head (Rank r candidates minQuality).

(** ** Benchmark blend (bench_provider.go, bench_freshness.go) *)

Record BenchmarkStats := mkBench { AvgScore : float64; CompletedAt : Time }.

Definition BenchmarkScoreSource (E : Type) : Type := res E (gmap string BenchmarkStats).

Record CombinedProvider (E : Type) := mkCombined {
  primary : option (StatsProvider E);
  bench : option (BenchmarkScoreSource E);
  benchmarkWeight : float64;
  decayHalfLife : Duration
}.
Arguments mkCombined {E}.
Arguments primary {E}.
Arguments bench {E}.
Arguments benchmarkWeight {E}.
Arguments decayHalfLife {E}.

Definition NewCombinedStatsProvider {E} (p : option (StatsProvider E))
    (b : option (BenchmarkScoreSource E)) (w : float64) (halfLife : Duration) : CombinedProvider E :=
  let w1 := if flt w fzero then fzero else w in
  let w2 := if fgt w1 fone then fone else w1 in
  mkCombined p b w2 halfLife.

Section Blend.
(** [math.Exp] and the constant [-math.Ln2]. *)
Context (exp : float64 → float64) (negLn2 : float64).

Definition Freshness (b : BenchmarkStats) (halfLife : Duration) (now : Time) : float64 :=
  if halfLife <=? 0 then fone
  else
    let age := Sub now (CompletedAt b) in
    let age' := if age <? 0 then 0 else age in
    exp (fdiv (fmul negLn2 (Hours age')) (Hours halfLife)).

Definition blendQuality (judge : float64) (b : BenchmarkStats) (wB : float64)
    (halfLife : Duration) (now : Time) : float64 :=
  if fle wB fzero then judge
  else
    let freshness :=
      if 0 <? halfLife then
        let age := Sub now (CompletedAt b) in
        let age' := if age <? 0 then 0 else age in
        exp (fdiv (fmul negLn2 (Hours age')) (Hours halfLife))
      else fone in
    let wBench := fmul wB freshness in
    let wBench' := if fgt wBench fone then fone else wBench in
    fadd (fmul judge (fsub fone wBench')) (fmul (AvgScore b) wBench').

Definition blend_one (wB : float64) (halfLife : Duration) (now : Time)
    (s : ModelStats) (b : BenchmarkStats) : ModelStats :=
  mkStats (Model s) (blendQuality (Quality s) b wB halfLife now)
    (if 0 <? QualitySamples s then wrap64 (QualitySamples s + 1) else 1)
    (PassRate s) (SafetyPassRate s) (SafetySamples s) (AvgLatencyMs s) (AvgCostUSD s)
    (Samples s) (EffQuality s).

(** The loop updates one key per benchmark row, so it is a pointwise merge. *)
Definition blend_all (wB : float64) (halfLife : Duration) (now : Time)
    (st : gmap string ModelStats) (bs : gmap string BenchmarkStats) : gmap string ModelStats :=
  merge (fun s b => match b with
                    | Some b' => Some (blend_one wB halfLife now (default zero_stats s) b')
                    | None => s
                    end) st bs.

Definition CombinedModelStats {E} (c : CombinedProvider E) (now : Time) : StatsProvider E :=
  fun win =>
    match primary c with
    | None => Ok ∅
    | Some p =>
        match p win with
        | Err e => Err e
        | Ok st =>
            match bench c with
            | None => Ok st
            | Some src =>
                if feq (benchmarkWeight c) fzero then Ok st
                else match src with
                     | Err _ => Ok st
                     | Ok bs => Ok (blend_all (benchmarkWeight c) (decayHalfLife c) now st bs)
                     end
            end
        end
    end.
End Blend.

(** ** Lemmas on ranking *)

(** The quality the gate looks at. *)
Definition model_quality (st : gmap string ModelStats) (m : string) : float64 :=
  match st !! m with
  | Some s => effectiveQuality s
  | None => explorationQuality
  end.

Definition passes (st : gmap string ModelStats) (minQuality : float64) (m : string) : bool :=
  negb (fgt minQuality fzero && flt (model_quality st m) minQuality).

Lemma candidate_spec st mq m :
  match candidate st mq m with
  | Some c => passes st mq m = true ∧ c_model c = m ∧ c_quality c = model_quality st m
  | None => passes st mq m = false
  end.
Proof.
  unfold candidate, passes, model_quality. destruct (st !! m) as [s|]; simpl.
  - by destruct (fgt mq fzero && flt (effectiveQuality s) mq).
  - by destruct (fgt mq fzero && flt explorationQuality mq).
Qed.

Lemma candidates_models st mq (l : list string) :
  c_model <$> omap (candidate st mq) l = filter (fun m => passes st mq m = true) l.
Proof.
  induction l as [|m l IH]; [done|]. pose proof (candidate_spec st mq m) as H.
  csimpl. rewrite filter_cons. destruct (candidate st mq m) as [c|].
  - destruct H as (H & Hm & _). rewrite decide_True by done. csimpl. by rewrite Hm, <- IH.
  - rewrite decide_False by congruence. done.
Qed.

Lemma score_all_models w cs : c_model <$> score_all w cs = c_model <$> cs.
Proof.
  unfold score_all. destruct (known_sums cs) as [[? ?] ?].
  rewrite <- !list_fmap_compose. apply list_fmap_ext. intros i c _.
  unfold compose, set_score, fill_unknown. by destruct (c_known c).
Qed.

(** [Rank] is the sorted list of scored candidates in every case; the early
    returns are shortcuts. *)
Lemma Rank_sorted {E} (r : Router E) (l : list string) mq :
  Rank r l mq =
  c_model <$> SliceStable better (score_all (weights r) (omap (candidate (stats r) mq) l)).
Proof.
  unfold Rank. destruct l as [|m l]; [done|].
  destruct (omap _ (m :: l)) as [|c [|c' cs]]; [done| |done].
  pose proof (score_all_models (weights r) [c]) as H.
  destruct (score_all (weights r) [c]) as [|d [|]]; [done| |done].
  injection H as H. change ([c_model c] = [c_model d]). by rewrite H.
Qed.

Lemma better_asymm a b : better a b = true → better b a = false.
Proof. unfold better, fgt. apply flt_asymm. Qed.

Lemma better_weak a b c :
  is_NaN (c_score a) = false → is_NaN (c_score b) = false → is_NaN (c_score c) = false →
  better a c = true → better a b = true ∨ better b c = true.
Proof.
  unfold better, fgt. fold flt. change SFltb with flt. intros Ha Hb Hc H.
  rewrite !flt_rank in * by done. destruct (lex_lt_connected _ (rank (c_score b)) _ H); auto.
Qed.

Lemma insert_all_never {A} (less : A → A → bool) l acc :
  Forall (fun x => ∀ y, less x y = false) l → insert_all less l acc = (reverse l ++ acc)%list.
Proof.
  intros H. revert acc. induction H as [|x l Hx Hl IH]; intros acc; [done|].
  simpl. rewrite IH, reverse_cons, <- app_assoc. f_equal.
  destruct acc; simpl; [done|]. by rewrite Hx.
Qed.

Lemma score_all_NaN w cs :
  WQuality w = S754_nan → Forall (fun c => c_score c = S754_nan) (score_all w cs).
Proof.
  intros H. unfold score_all. destruct (known_sums cs) as [[? ?] ?].
  apply Forall_fmap, Forall_true. intros c. unfold compose, set_score. cbn [c_score].
  by rewrite H.
Qed.

(** ** Lemmas on weights *)

Lemma maxFloat64_clamp x : is_NaN x = false → nonneg (maxFloat64 fzero x) = true.
Proof. by destruct x as [[]|[]| |[] m e]. Qed.

(** Finite inputs. *)
Definition is_finite (x : float64) : bool :=
  match x with S754_zero _ | S754_finite _ _ _ => true | _ => false end.

Lemma maxFloat64_finite x : is_finite x = true → finite_nonneg (maxFloat64 fzero x) = true.
Proof. by destruct x as [[]|[]| |[] m e]. Qed.

Lemma finite_nonneg_nonneg x : finite_nonneg x = true → nonneg x = true.
Proof. by destruct x as [[]|[]| |[] m e]. Qed.

Lemma positive_not_zero x : nonneg x = true → fle x fzero = false → feq x fzero = false.
Proof. by destruct x as [[]|[]| |[] m e]. Qed.

(** ** Properties *)

(** [C18] Ranking neither invents nor loses models: the result is a permutation of
    the candidates that pass the minimum-quality gate (blended quality not below
    the minimum, or no positive minimum), with repetitions kept. *)
Theorem rank_permutes_gated {E} (r : Router E) (candidates : list string) (minQuality : float64) :
  Rank r candidates minQuality ≡ₚ
  filter (fun m => passes (stats r) minQuality m = true) candidates.
Proof.
  rewrite Rank_sorted, SliceStable_perm, score_all_models. by rewrite candidates_models.
Qed.

(** When no score is NaN the ranked models are in descending score order, and
    models of equal score keep the order in which they were given. *)
Theorem rank_sorted_stable {E} (r : Router E) (candidates : list string) (minQuality : float64) :
  let scored := score_all (weights r) (omap (candidate (stats r) minQuality) candidates) in
  Forall (fun c => is_NaN (c_score c) = false) scored →
  ∃ sorted, Rank r candidates minQuality = c_model <$> sorted ∧ sorted ≡ₚ scored ∧
    StronglySorted (fun a b => flt (c_score a) (c_score b) = false) sorted ∧
    ∀ s, is_NaN (c_score s) = false →
      filter (eqv better s) sorted = filter (eqv better s) scored.
Proof.
  intros scored Hn. exists (SliceStable better scored). split_and!.
  - apply Rank_sorted.
  - apply SliceStable_perm.
  - apply (SliceStable_sorted better (fun c => is_NaN (c_score c) = false));
      auto using better_asymm, better_weak.
  - intros s Hs. apply (SliceStable_stable better (fun c => is_NaN (c_score c) = false));
      auto using better_weak.
Qed.

(** Finite weights normalise to weights that are neither NaN nor negative,
    whatever their signs and even when their sum overflows. *)
Theorem normalize_finite (w : Weights) :
  is_finite (WQuality w) = true → is_finite (WCost w) = true → is_finite (WLatency w) = true →
  let n := normalize w in
  (nonneg (WQuality n) && nonneg (WCost n) && nonneg (WLatency n)) = true.
Proof.
  intros Hq Hc Hl. unfold normalize.
  apply maxFloat64_finite in Hq, Hc, Hl.
  set (q := maxFloat64 fzero (WQuality w)) in *. set (c := maxFloat64 fzero (WCost w)) in *.
  set (l := maxFloat64 fzero (WLatency w)) in *. set (sum := fadd (fadd q c) l).
  assert (nonneg sum = true) as Hs by (subst sum; auto using fadd_nonneg, finite_nonneg_nonneg).
  destruct (fle sum fzero) eqn:E; [done|]. cbn [WQuality WCost WLatency].
  pose proof (positive_not_zero _ Hs E). by rewrite !fdiv_nonneg.
Qed.

(** A NaN quality weight (which NEXUS_ROUTE_W_QUALITY=NaN parses to) survives
    [normalize]: all weights become NaN and every ranking degenerates to the
    gated candidates in the order they were given. *)
Theorem nan_weight_disables_ranking {E} (r : Router E) (w : Weights)
    (candidates : list string) (minQuality : float64) :
  WQuality w = S754_nan →
  normalize w = mkWeights S754_nan S754_nan S754_nan ∧
  Rank (SetWeights r w) candidates minQuality =
    filter (fun m => passes (stats r) minQuality m = true) candidates.
Proof.
  intros H. assert (normalize w = mkWeights S754_nan S754_nan S754_nan) as En.
  { unfold normalize. rewrite H. change (maxFloat64 fzero S754_nan) with S754_nan.
    rewrite !fadd_NaN_l, !fdiv_NaN_r. done. }
  split; [done|]. rewrite Rank_sorted. unfold SetWeights. cbn [weights stats].
  rewrite En. set (cs := omap _ _).
  assert (Forall (fun x => ∀ y, better x y = false)
            (score_all (mkWeights S754_nan S754_nan S754_nan) cs)) as Hb.
  { eapply Forall_impl; [by apply score_all_NaN|]. intros x Hx y. unfold better, fgt.
    rewrite Hx. apply fcmp_NaN_r. }
  unfold SliceStable. rewrite insert_all_never by done.
  rewrite app_nil_r, reverse_involutive, score_all_models. apply candidates_models.
Qed.

(** Blending benchmark scores: a model without a benchmark row keeps its
    statistics, every other statistic of a blended model is kept, and a failing
    benchmark query, an absent source or a zero weight leaves all statistics
    unchanged. *)
Theorem combined_stats_frame {E} (exp : float64 → float64) (k : float64)
    (c : CombinedProvider E) (now : Time) (win : Duration) (p : StatsProvider E)
    (st out : gmap string ModelStats) (m : string) :
  primary c = Some p → p win = Ok st →
  CombinedModelStats exp k c now win = Ok out →
  match bench c with
  | Some (Ok bs) =>
      if feq (benchmarkWeight c) fzero then out !! m = st !! m
      else match bs !! m with
           | None => out !! m = st !! m
           | Some b => ∃ s, out !! m = Some s ∧
               Quality s = blendQuality exp k (Quality (default zero_stats (st !! m))) b
                             (benchmarkWeight c) (decayHalfLife c) now ∧
               SafetyPassRate s = SafetyPassRate (default zero_stats (st !! m)) ∧
               AvgLatencyMs s = AvgLatencyMs (default zero_stats (st !! m)) ∧
               AvgCostUSD s = AvgCostUSD (default zero_stats (st !! m)) ∧
               Samples s = Samples (default zero_stats (st !! m))
           end
  | _ => out = st
  end.
Proof.
  intros Hp Hst. unfold CombinedModelStats. rewrite Hp, Hst.
  destruct (bench c) as [[bs|e]|].
  - destruct (feq (benchmarkWeight c) fzero); [by intros [= ->]|].
    intros [= <-]. unfold blend_all. rewrite lookup_merge.
    destruct (bs !! m) as [b|]; [|by destruct (st !! m)].
    destruct (st !! m) as [s|]; simpl; (eexists; split; [reflexivity|done]).
  - destruct (feq (benchmarkWeight c) fzero); by intros [= ->].
  - by intros [= ->].
Qed.

(** A model that has a benchmark row and no statistics at all is blended with a
    judge score of zero: with the default weight one half and no decay, a
    benchmark of 0.9 yields a routing quality of 0.45, below the 0.75 an entirely
    unmeasured model gets. *)
Theorem bench_only_model_halved {E} (exp : float64 → float64) (k : float64)
    (win : Duration) (now : Time) (out : gmap string ModelStats) :
  CombinedModelStats exp k
    (NewCombinedStatsProvider (E := E) (Some (fun _ => Ok ∅))
       (Some (Ok (<["m" := mkBench (lit 9 10) now]> ∅))) (lit 5 10) 0) now win = Ok out →
  ∃ s, out !! "m" = Some s ∧ effectiveQuality s = lit 45 100 ∧
    flt (effectiveQuality s) explorationQuality = true ∧
    model_quality ∅ "m" = explorationQuality.
Proof.
  assert (benchmarkWeight (NewCombinedStatsProvider (E := E) (Some (fun _ => Ok ∅))
       (Some (Ok (<["m" := mkBench (lit 9 10) now]> ∅))) (lit 5 10) 0) = lit 5 10) as Ew
    by (vm_compute; reflexivity).
  unfold CombinedModelStats. rewrite Ew. cbn [primary bench NewCombinedStatsProvider decayHalfLife].
  assert (feq (lit 5 10) fzero = false) as -> by (vm_compute; reflexivity).
  intros [= <-]. unfold blend_all. rewrite lookup_merge, lookup_insert_eq, lookup_empty.
  eexists. split; [done|]. unfold blend_one, effectiveQuality.
  cbn [QualitySamples SafetySamples zero_stats default Quality from_option id].
  unfold blendQuality. cbn [AvgScore CompletedAt]. split_and!; vm_compute; reflexivity.
Qed.

(** ** Witnesses *)

Definition stats_a : ModelStats :=
  mkStats "a" (lit 9 10) 10 fone fone 4 (of_Z 800) (lit 1 100) 20 fzero.
Definition stats_b : ModelStats :=
  mkStats "b" (lit 5 10) 10 fone fone 0 (of_Z 200) (lit 1 1000) 20 fzero.
Definition two_models : gmap string ModelStats := <["a" := stats_a]> (<["b" := stats_b]> ∅).
Definition router_ab : Router string := New (Some (fun _ => Ok two_models)) DefaultWeights Hour.

Lemma rank_sorted_stable_witness :
  let scored := score_all (weights router_ab) (omap (candidate (stats router_ab) fzero) ["b"; "a"]) in
  ∃ sorted, Rank router_ab ["b"; "a"] fzero = c_model <$> sorted ∧ sorted ≡ₚ scored ∧
    StronglySorted (fun a b => flt (c_score a) (c_score b) = false) sorted ∧
    ∀ s, is_NaN (c_score s) = false →
      filter (eqv better s) sorted = filter (eqv better s) scored.
Proof.
  apply (rank_sorted_stable router_ab ["b"; "a"] fzero).
  vm_compute. repeat constructor.
Defined.

Lemma normalize_finite_witness :
  let n := normalize (mkWeights (lit 6 10) (lit (-2) 10) (lit 2 10)) in
  (nonneg (WQuality n) && nonneg (WCost n) && nonneg (WLatency n)) = true.
Proof.
  apply (normalize_finite (mkWeights (lit 6 10) (lit (-2) 10) (lit 2 10))); vm_compute; reflexivity.
Defined.

Lemma nan_weight_disables_ranking_witness :
  normalize (mkWeights S754_nan fone fone) = mkWeights S754_nan S754_nan S754_nan ∧
  Rank (SetWeights router_ab (mkWeights S754_nan fone fone)) ["b"; "a"] fzero =
    filter (fun m => passes (stats router_ab) fzero m = true) ["b"; "a"].
Proof. apply (nan_weight_disables_ranking router_ab (mkWeights S754_nan fone fone)). reflexivity. Defined.

Definition combined_ab : CombinedProvider string :=
  NewCombinedStatsProvider (Some (fun _ => Ok two_models))
    (Some (Ok (<["a" := mkBench (lit 1 2) 0]> ∅))) (lit 5 10) 0.
Definition combined_out : gmap string ModelStats :=
  blend_all (fun x => x) fzero (lit 5 10) 0 0 two_models (<["a" := mkBench (lit 1 2) 0]> ∅).

Lemma combined_stats_frame_witness :
  combined_out !! "b" = two_models !! "b".
Proof.
  assert (benchmarkWeight combined_ab = lit 5 10) as Ew by (vm_compute; reflexivity).
  assert (CombinedModelStats (fun x => x) fzero combined_ab 0 Hour = Ok combined_out) as E.
  { unfold CombinedModelStats. rewrite Ew. reflexivity. }
  pose proof (combined_stats_frame (fun x => x) fzero combined_ab 0 Hour (fun _ => Ok two_models)
                two_models combined_out "b" eq_refl eq_refl E) as H.
  rewrite Ew in H. exact H.
Defined.

Lemma bench_only_model_halved_witness :
  ∃ s, blend_all (fun x => x) fzero (lit 5 10) 0 0 ∅ (<["m" := mkBench (lit 9 10) 0]> ∅) !! "m" = Some s ∧
    effectiveQuality s = lit 45 100 ∧
    flt (effectiveQuality s) explorationQuality = true ∧
    model_quality ∅ "m" = explorationQuality.
Proof.
  apply (bench_only_model_halved (E := string) (fun x => x) fzero Hour 0).
  vm_compute. reflexivity.
Defined.
