(* ===== verification/Registry.v ===== *)
(** * Registry: src/internal/gateway (scope.go, provider.go, dynamic_provider.go,
    model_sync.go)

    The registry maps provider names and model ids to adapters.  A Go interface
    value is compared by identity, so a provider is an identity with its constant
    name; what its [Models()] and capability methods return at the time of a call
    is the parameter [caps].  A loop over a Go map visits the entries in an
    unspecified order: the definitions whose result depends on it take the order
    as an argument. *)

From S2P Require Import Prelude GoString GoTime.
Local Open Scope string_scope.
Local Open Scope Z_scope.

(** ** scope.go *)

Definition ScopePublic : string := "public".
Definition ScopeOrg : string := "org".
Definition ScopeUser : string := "user".

Record ScopeHint := mkHint { h_Scope : string; h_OwnerID : string }.

Definition zero_hint : ScopeHint := mkHint "" "".
Definition IsZero_hint (h : ScopeHint) : bool := String.eqb (h_Scope h) "".

(** ** provider.go *)

Record Provider := mkProvider { p_id : positive; p_name : string }.

#[export] Instance Provider_eq_dec : EqDecision Provider.
Proof. solve_decision. Defined.

(** What the adapter answers: its chat models, and the model lists of the
    optional interfaces it implements. *)
Record Caps := mkCaps {
  Models : list string;
  EmbeddingModels : option (list string);
  ImageModels : option (list string);
  ModerationModels : option (list string)
}.

Record Registry := mkRegistry {
  providers : gmap string Provider;
  byModel : gmap string Provider;
  modelHints : gmap string ScopeHint;
  providerHint : gmap string ScopeHint
}.

Definition NewRegistry : Registry := mkRegistry ∅ ∅ ∅ ∅.

(** The loop [for _, m := range models] of [RegisterHint] and [UpdateModels]. *)
Definition index_models (p : Provider) (hint : ScopeHint) (models : list string)
    (bm : gmap string Provider) (mh : gmap string ScopeHint) :
    gmap string Provider * gmap string ScopeHint :=
  foldl (fun '(bm, mh) m => (<[m := p]> bm, <[m := hint]> mh)) (bm, mh) models.

(** The loop that deletes the ids indexed under [p]. *)
Definition unindex (p : Provider) (bm : gmap string Provider) (mh : gmap string ScopeHint) :
    gmap string Provider * gmap string ScopeHint :=
  foldl (fun '(b, h) '(id, existing) =>
    if decide (existing = p) then (delete id b, delete id h) else (b, h))
    (bm, mh) (map_to_list bm).

(** [models] is what [p.Models()] returns. *)
Definition RegisterHint (r : Registry) (name : string) (hint : ScopeHint) (p : Provider)
    (models : list string) : Registry :=
  let hint := if IsZero_hint hint then mkHint ScopePublic "" else hint in
  let '(bm, mh) := index_models p hint models (byModel r) (modelHints r) in
  mkRegistry (<[name := p]> (providers r)) bm mh (<[name := hint]> (providerHint r)).

Definition Register (r : Registry) (p : Provider) (models : list string) : Registry :=
  RegisterHint r (p_name p) zero_hint p models.

Definition HintForName (r : Registry) (name : string) : ScopeHint * bool :=
  match providerHint r !! name with
  | None => (mkHint ScopePublic "", false)
  | Some h => (h, true)
  end.

Definition HintForModel (r : Registry) (model : string) : ScopeHint * bool :=
  match modelHints r !! model with
  | None => (mkHint ScopePublic "", false)
  | Some h => (h, true)
  end.

Definition UpdateModels (r : Registry) (name : string) (models : list string) : bool * Registry :=
  match providers r !! name with
  | None => (false, r)
  | Some p =>
      let hint := default zero_hint (providerHint r !! name) in
      let '(bm, mh) := unindex p (byModel r) (modelHints r) in
      let '(bm, mh) := index_models p hint models bm mh in
      (true, mkRegistry (providers r) bm mh (providerHint r))
  end.

(** [None] is the error [no provider registered for model]. *)
Definition Resolve (r : Registry) (model : string) : option (Provider * string) :=
  let exact := (fun p => (p, model)) <$> byModel r !! model in
  match Cut model "/" with
  | Some (name, rest) =>
      match providers r !! name with
      | Some p => Some (p, rest)
      | None => exact
      end
  | None => exact
  end.

Definition ProviderFor (r : Registry) (name : string) : option Provider := providers r !! name.

Definition AllModels (r : Registry) : list string := sort_Strings (map_to_list (byModel r)).*1.

Section Capabilities.
Context (caps : Provider → Caps).

(** The union of the lists [f] gives, sorted: the loops over [seen]. *)
Definition all_of (f : Caps → option (list string)) (r : Registry) : list string :=
  sort_Strings (elements
    (foldr (fun '(_, p) (seen : gset string) =>
       match f (caps p) with
       | Some ms => list_to_set ms ∪ seen
       | None => seen
       end) ∅ (map_to_list (providers r)))).

Definition AllEmbeddingModels (r : Registry) : list string := all_of EmbeddingModels r.
Definition AllModerationModels (r : Registry) : list string := all_of ModerationModels r.
Definition AllImageModels (r : Registry) : list string := all_of ImageModels r.

Definition mem (m : string) (ms : list string) : bool := bool_decide (m ∈ ms).

(** [order] is the order in which the loop visits the providers. *)
Fixpoint find_provider {A : Type} (f : Provider → option A) (order : list Provider) : option A :=
  match order with
  | [] => None
  | p :: order' => match f p with Some a => Some a | None => find_provider f order' end
  end.

Definition ResolveEmbedding (order : list Provider) (model : string) : option Provider :=
  match Cut model "/" with
  | Some (name, rest) =>
      find_provider (fun p =>
        match EmbeddingModels (caps p) with
        | Some ms => if String.eqb (p_name p) name && mem rest ms then Some p else None
        | None => None
        end) order
  | None =>
      find_provider (fun p =>
        match EmbeddingModels (caps p) with
        | Some ms => if mem model ms then Some p else None
        | None => None
        end) order
  end.

Definition ResolveModeration (order : list Provider) (model : string) : option (Provider * string) :=
  find_provider (fun p =>
    match ModerationModels (caps p) with
    | None => None
    | Some ms =>
        match find (fun m => String.eqb model "" || String.eqb model m) ms with
        | Some m => Some (p, m)
        | None =>
            match Cut model "/" with
            | Some (name, rest) =>
                if String.eqb (p_name p) name && mem rest ms then Some (p, rest) else None
            | None => None
            end
        end
    end) order.

Definition ResolveImage (order : list Provider) (model : string) : option (Provider * string) :=
  match Cut model "/" with
  | Some (name, rest) =>
      find_provider (fun p =>
        match ImageModels (caps p) with
        | Some ms => if String.eqb (p_name p) name && mem rest ms then Some (p, rest) else None
        | None => None
        end) order
  | None =>
      find_provider (fun p =>
        match ImageModels (caps p) with
        | None => None
        | Some ms =>
            match ms with
            | m :: _ =>
                if String.eqb model "" then Some (p, m)
                else if mem model ms then Some (p, model) else None
            | [] => None
            end
        end) order
  end.

Record ProviderCapability := mkCapability {
  pc_Name : string;
  pc_Scope : string;
  pc_Chat : bool;
  pc_Stream : bool;
  pc_Embeddings : bool;
  pc_Images : bool;
  pc_Moderations : bool;
  pc_ChatModels : list string;
  pc_EmbeddingModels : list string;
  pc_ImageModels : list string;
  pc_ModerationModels : list string;
  pc_Health : string
}.

Definition capability (r : Registry) (name : string) (p : Provider) : ProviderCapability :=
  let c := caps p in
  mkCapability name (h_Scope (default zero_hint (providerHint r !! name)))
    true true
    (bool_decide (is_Some (EmbeddingModels c))) (bool_decide (is_Some (ImageModels c)))
    (bool_decide (is_Some (ModerationModels c)))
    (Models c) (default [] (EmbeddingModels c)) (default [] (ImageModels c))
    (default [] (ModerationModels c))
    (match Models c with [] => "empty" | _ => "registered" end).

Definition ProviderCapabilities (r : Registry) : list ProviderCapability :=
  omap (fun name => capability r name <$> providers r !! name)
    (sort_Strings (map_to_list (providers r)).*1).
End Capabilities.

(** ** dynamic_provider.go *)

Record DynamicProvider := mkDynamic { dp_name : string; dp_models : list string }.

Definition NewDynamicProvider (name : string) : DynamicProvider := mkDynamic name [].
Definition Dynamic_Models (d : DynamicProvider) : list string := dp_models d.

(** [Set]: the previous list, and the provider with the new one. *)
Definition Dynamic_Set (d : DynamicProvider) (models : list string) : list string * DynamicProvider :=
  (dp_models d, mkDynamic (dp_name d) models).
Definition SnapshotLen (d : DynamicProvider) : Z := Z.of_nat (length (dp_models d)).

(** ** model_sync.go *)

Record DynamicSyncCounters := mkCounters {
  ctr_success : Z;
  ctr_error : Z;
  ctr_lastOK : Z;
  ctr_lastErr : Z
}.

Definition Export (c : DynamicSyncCounters) : Z * Z * Z * Z :=
  (ctr_success c, ctr_error c, ctr_lastOK c, ctr_lastErr c).

(** [countNew(a, b)], the number of elements of [a] that [b] lacks. *)
Definition countNew (a b : list string) : Z :=
  match a with
  | [] => 0
  | _ => foldl (fun n x => if mem x b then n else n + 1) 0 a
  end.

(** A failed fetch: cancelled by the context, or another error. *)
Inductive fetch_error := Canceled | FetchFailed.

(** How one refresh ends.  [Panicked] is [rand.Int63n] of a number below one. *)
Inductive sync_outcome := Refreshed (added removed : Z) | Stopped | KeptPrevious | Panicked.

Record sync_state := mkSync {
  s_reg : Registry;
  s_dp : DynamicProvider;
  s_ctr : DynamicSyncCounters;
  s_attempts : nat;
  s_waits : list Duration
}.

(** [time.Duration(1<<attempt) * time.Second], capped at a minute. *)
Definition backoff (attempt : Z) : Duration :=
  let shifted := if attempt <? 64 then wrap64 (Z.shiftl 1 attempt) else 0 in
  let b := wrap64 (shifted * Second) in
  if 60 * Second <? b then 60 * Second else b.

Section Sync.
(** What the environment answers at attempt [i]: the fetch, the clock read after
    it, and whether the context ends during the wait that follows. *)
Context (fetcher : Z → res fetch_error (list string)) (unixNano : Z → Z) (done : Z → bool).

Definition count_error (c : DynamicSyncCounters) (now : Z) : DynamicSyncCounters :=
  mkCounters (ctr_success c) ((ctr_error c + 1) mod 2 ^ 64) (ctr_lastOK c) now.

Definition count_success (c : DynamicSyncCounters) (now : Z) : DynamicSyncCounters :=
  mkCounters ((ctr_success c + 1) mod 2 ^ 64) (ctr_error c) now (ctr_lastErr c).

(** The code after the retry loop. *)
Definition commit (models : list string) (now : Z) (s : sync_state) : sync_outcome * sync_state :=
  let '(prev, dp) := Dynamic_Set (s_dp s) models in
  let '(_, reg) := UpdateModels (s_reg s) (dp_name dp) models in
  (Refreshed (countNew prev models) (countNew models prev),
   mkSync reg dp (count_success (s_ctr s) now) (s_attempts s) (s_waits s)).

(** The retry loop from [attempt] on; [left] is the number of attempts left. *)
Fixpoint retry (left : nat) (attempt maxRetries : Z) (s : sync_state) : sync_outcome * sync_state :=
  match left with
  | O => (KeptPrevious, s)
  | S left' =>
      let s := mkSync (s_reg s) (s_dp s) (s_ctr s) (S (s_attempts s)) (s_waits s) in
      match fetcher attempt with
      | Ok models => commit models (unixNano attempt) s
      | Err e =>
          let s := mkSync (s_reg s) (s_dp s) (count_error (s_ctr s) (unixNano attempt))
                     (s_attempts s) (s_waits s) in
          match e with
          | Canceled => (Stopped, s)
          | FetchFailed =>
              if attempt =? maxRetries then (KeptPrevious, s)
              else
                let b := backoff attempt in
                if Z.quot b 4 <=? 0 then (Panicked, s)
                else if done attempt then (Stopped, s)
                else retry left' (attempt + 1) maxRetries
                       (mkSync (s_reg s) (s_dp s) (s_ctr s) (s_attempts s) (b :: s_waits s))
          end
      end
  end.

Definition runOnce (maxRetries : Z) (reg : Registry) (dp : DynamicProvider)
    (ctr : DynamicSyncCounters) : sync_outcome * sync_state :=
  retry (Z.to_nat (maxRetries + 1)) 0 maxRetries (mkSync reg dp ctr 0 []).
End Sync.

(** [StartDynamicSync]'s defaults. *)
Definition sync_interval (interval : Duration) : Duration :=
  if interval <=? 0 then 30 * Minute else interval.
Definition sync_retries (maxRetries : Z) : Z := if maxRetries <=? 0 then 3 else maxRetries.

(** * Theorems *)

(** ** The index loops *)

Lemma index_models_lookup p hint models bm mh k :
  (index_models p hint models bm mh).1 !! k = (if decide (k ∈ models) then Some p else bm !! k) ∧
  (index_models p hint models bm mh).2 !! k = (if decide (k ∈ models) then Some hint else mh !! k).
Proof.
  unfold index_models. revert bm mh.
  induction models as [|m models IH]; intros bm mh; simpl.
  { done. }
  destruct (IH (<[m := p]> bm) (<[m := hint]> mh)) as [-> ->].
  destruct (decide (k = m)) as [->|Hne].
  - rewrite !(decide_True (P := m ∈ m :: models)) by apply elem_of_cons, or_introl, eq_refl.
    destruct (decide (m ∈ models)); [done|]. by rewrite !lookup_insert_eq.
  - rewrite !lookup_insert_ne by done.
    clear IH. repeat case_decide; rewrite ?elem_of_cons in *; intuition congruence.
Qed.

Lemma unindex_fold_lookup p (l : list (string * Provider)) (b : gmap string Provider)
    (h : gmap string ScopeHint) k :
  let r := foldl (fun '(b, h) '(id, existing) =>
    if decide (existing = p) then (delete id b, delete id h) else (b, h)) (b, h) l in
  (r.1 !! k = if decide ((k, p) ∈ l) then None else b !! k) ∧
  (r.2 !! k = if decide ((k, p) ∈ l) then None else h !! k).
Proof.
  revert b h. induction l as [|[id e] l IH]; intros b h; simpl.
  { done. }
  destruct (decide (e = p)) as [->|Hne].
  - destruct (IH (delete id b) (delete id h)) as [-> ->].
    destruct (decide (k = id)) as [->|Hk].
    + rewrite !(decide_True (P := (id, p) ∈ (id, p) :: l)) by apply elem_of_cons, or_introl, eq_refl.
      rewrite !lookup_delete_eq. by destruct (decide _).
    + rewrite !lookup_delete_ne by done.
      clear IH. repeat case_decide; rewrite ?elem_of_cons in *; intuition congruence.
  - destruct (IH b h) as [-> ->].
    clear IH. repeat case_decide; rewrite ?elem_of_cons in *; intuition congruence.
Qed.

Lemma unindex_lookup p bm mh k :
  (unindex p bm mh).1 !! k = (if decide (bm !! k = Some p) then None else bm !! k) ∧
  (unindex p bm mh).2 !! k = (if decide (bm !! k = Some p) then None else mh !! k).
Proof.
  destruct (unindex_fold_lookup p (map_to_list bm) bm mh k) as [H1 H2].
  unfold unindex. rewrite H1, H2.
  destruct (decide ((k, p) ∈ map_to_list bm)) as [H|H]; rewrite elem_of_map_to_list in H;
    destruct (decide (bm !! k = Some p)); done.
Qed.

(** The index after an update, entry by entry. *)
Lemma UpdateModels_lookup r name models p k :
  providers r !! name = Some p →
  let r' := (UpdateModels r name models).2 in
  (UpdateModels r name models).1 = true ∧
  providers r' = providers r ∧ providerHint r' = providerHint r ∧
  (byModel r' !! k =
     if decide (k ∈ models) then Some p
     else if decide (byModel r !! k = Some p) then None else byModel r !! k) ∧
  (modelHints r' !! k =
     if decide (k ∈ models) then Some (default zero_hint (providerHint r !! name))
     else if decide (byModel r !! k = Some p) then None else modelHints r !! k).
Proof.
  intros Hp. unfold UpdateModels. rewrite Hp.
  pose proof (unindex_lookup p (byModel r) (modelHints r) k) as HU.
  destruct (unindex p (byModel r) (modelHints r)) as [bm mh]; simpl in HU. destruct HU as [HU1 HU2].
  pose proof (index_models_lookup p (default zero_hint (providerHint r !! name)) models bm mh k) as HI.
  destruct (index_models p _ models bm mh) as [bm' mh']; simpl in *. destruct HI as [-> ->].
  by rewrite HU1, HU2.
Qed.

Lemma RegisterHint_lookup r name hint p models k :
  let hint' := if IsZero_hint hint then mkHint ScopePublic "" else hint in
  let r' := RegisterHint r name hint p models in
  providers r' = <[name := p]> (providers r) ∧
  providerHint r' = <[name := hint']> (providerHint r) ∧
  (byModel r' !! k = if decide (k ∈ models) then Some p else byModel r !! k) ∧
  (modelHints r' !! k = if decide (k ∈ models) then Some hint' else modelHints r !! k).
Proof.
  unfold RegisterHint.
  pose proof (index_models_lookup p (if IsZero_hint hint then mkHint ScopePublic "" else hint)
                models (byModel r) (modelHints r) k) as HI.
  destruct (index_models _ _ _ _ _) as [bm mh]; simpl in *. by destruct HI as [-> ->].
Qed.

(** ** Reachable registries *)

Inductive registry_op :=
| OpRegister (name : string) (hint : ScopeHint) (p : Provider) (models : list string)
| OpUpdate (name : string) (models : list string).

Definition apply_op (r : Registry) (o : registry_op) : Registry :=
  match o with
  | OpRegister name hint p models => RegisterHint r name hint p models
  | OpUpdate name models => (UpdateModels r name models).2
  end.

(** Every model id carries a hint exactly when it is routable, every provider
    name carries one exactly when it is registered, and no hint is blank. *)
Record registry_inv (r : Registry) : Prop := {
  inv_models : ∀ m, is_Some (byModel r !! m) ↔ is_Some (modelHints r !! m);
  inv_names : ∀ n, is_Some (providers r !! n) ↔ is_Some (providerHint r !! n);
  inv_model_scope : ∀ m h, modelHints r !! m = Some h → IsZero_hint h = false;
  inv_name_scope : ∀ n h, providerHint r !! n = Some h → IsZero_hint h = false
}.

Lemma registry_inv_new : registry_inv NewRegistry.
Proof.
  split; simpl; intros *; rewrite ?lookup_empty; try done; split; intros [? [=]].
Qed.

Lemma hint_default_nonzero hint :
  IsZero_hint (if IsZero_hint hint then mkHint ScopePublic "" else hint) = false.
Proof. by destruct (IsZero_hint hint) eqn:E. Qed.

Lemma registry_inv_register r name hint p models :
  registry_inv r → registry_inv (RegisterHint r name hint p models).
Proof.
  intros [H1 H2 H3 H4].
  pose proof (hint_default_nonzero hint) as Hz. split.
  - intros m. destruct (RegisterHint_lookup r name hint p models m) as (_ & _ & -> & ->).
    destruct (decide (m ∈ models)); [|apply H1]. split; eauto.
  - intros n. destruct (RegisterHint_lookup r name hint p models n) as (-> & -> & _).
    destruct (decide (n = name)) as [->|Hn].
    + rewrite !lookup_insert_eq. split; eauto.
    + rewrite !lookup_insert_ne by done. apply H2.
  - intros m h. destruct (RegisterHint_lookup r name hint p models m) as (_ & _ & _ & ->).
    destruct (decide (m ∈ models)); [by intros [= <-]|apply H3].
  - intros n h. destruct (RegisterHint_lookup r name hint p models n) as (_ & -> & _).
    destruct (decide (n = name)) as [->|Hn].
    + rewrite lookup_insert_eq. by intros [= <-].
    + rewrite lookup_insert_ne by done. apply H4.
Qed.

Lemma registry_inv_update r name models :
  registry_inv r → registry_inv (UpdateModels r name models).2.
Proof.
  intros Hinv. destruct (providers r !! name) as [p|] eqn:Hp;
    [|unfold UpdateModels; by rewrite Hp].
  destruct Hinv as [H1 H2 H3 H4].
  assert (∃ h, providerHint r !! name = Some h) as [h0 Hh0] by (apply H2; eauto).
  split.
  - intros m. destruct (UpdateModels_lookup r name models p m Hp) as (_ & _ & _ & -> & ->).
    repeat destruct (decide _); try apply H1; split; intros [? ?]; eauto; done.
  - intros n. destruct (UpdateModels_lookup r name models p n Hp) as (_ & -> & -> & _). apply H2.
  - intros m h. destruct (UpdateModels_lookup r name models p m Hp) as (_ & _ & _ & _ & ->).
    repeat destruct (decide _); intros E; simplify_eq; [rewrite Hh0|]; eauto.
  - intros n h. destruct (UpdateModels_lookup r name models p n Hp) as (_ & _ & -> & _). apply H4.
Qed.

Lemma registry_inv_run ops r : registry_inv r → registry_inv (foldl apply_op r ops).
Proof.
  revert r. induction ops as [|[] ops IH]; intros r Hr; simpl; [done|apply IH..];
    [by apply registry_inv_register|by apply registry_inv_update].
Qed.

(** ** Capability lookups *)

Lemma find_provider_Some {A} (f : Provider → option A) order a :
  find_provider f order = Some a → ∃ p, p ∈ order ∧ f p = Some a.
Proof.
  induction order as [|p order IH]; simpl; [done|].
  destruct (f p) eqn:E; intros H; simplify_eq.
  - exists p. split; [apply elem_of_cons; by left|done].
  - destruct (IH H) as (q & ? & ?). exists q. split; [apply elem_of_cons; by right|done].
Qed.

Lemma find_provider_None {A} (f : Provider → option A) order p :
  find_provider f order = None → p ∈ order → f p = None.
Proof.
  induction order as [|q order IH]; simpl; [by rewrite elem_of_nil|].
  destruct (f q) eqn:E; [done|]. rewrite elem_of_cons. intros H [->|]; auto.
Qed.

(** ** Refreshing the catalog *)

Lemma backoff_range a : 0 ≤ a ≤ 33 → Second ≤ backoff a ≤ 60 * Second.
Proof.
  intros Ha.
  pose (ok := fun a => (Second <=? backoff a) && (backoff a <=? 60 * Second)).
  assert (Hall : all_below 34 ok 0 = true) by (vm_compute; reflexivity).
  pose proof (all_below_spec _ _ _ Hall a ltac:(lia)) as H.
  unfold ok in H. reflect_bools. split; assumption.
Qed.

Lemma backoff_wait a : 0 ≤ a ≤ 33 → (Z.quot (backoff a) 4 <=? 0) = false.
Proof.
  intros Ha. apply backoff_range in Ha. apply Z.leb_gt.
  pose proof (Z.quot_le_mono Second (backoff a) 4 ltac:(lia) ltac:(lia)) as H.
  change (Z.quot Second 4) with 250000000 in H. lia.
Qed.

Section SyncProofs.
Context (fetcher : Z → res fetch_error (list string)) (unixNano : Z → Z) (done : Z → bool).

(** The attempts before [i] all fail and none of the waits is interrupted. *)
Definition reaches (from i : Z) : Prop :=
  ∀ j, from ≤ j < i → fetcher j = Err FetchFailed ∧ done j = false.

Lemma reaches_next from i : from < i → reaches from i →
  fetcher from = Err FetchFailed ∧ done from = false ∧ reaches (from + 1) i.
Proof.
  intros H HR. destruct (HR from ltac:(lia)) as [H1 H2]. split_and!; try done.
  intros j Hj. apply HR. lia.
Qed.

Lemma retry_success left attempt mr s i models :
  attempt + Z.of_nat left = mr + 1 → 0 ≤ attempt ≤ i → i ≤ mr → mr ≤ 34 →
  reaches attempt i → fetcher i = Ok models →
  let '(o, s') := retry fetcher unixNano done left attempt mr s in
  o = Refreshed (countNew (dp_models (s_dp s)) models) (countNew models (dp_models (s_dp s))) ∧
  s_reg s' = (UpdateModels (s_reg s) (dp_name (s_dp s)) models).2 ∧
  s_dp s' = mkDynamic (dp_name (s_dp s)) models ∧
  ctr_success (s_ctr s') = (ctr_success (s_ctr s) + 1) mod 2 ^ 64 ∧
  Z.of_nat (s_attempts s') = Z.of_nat (s_attempts s) + (i - attempt) + 1.
Proof.
  revert attempt s. induction left as [|left IH]; intros attempt s Hl Ha Hi Hmr HR Hf; [lia|].
  cbn [retry]. destruct (Z.eq_dec attempt i) as [->|Hne].
  - rewrite Hf. unfold commit; simpl.
    destruct (UpdateModels (s_reg s) (dp_name (s_dp s)) models) as [b reg] eqn:E; simpl.
    split_and!; [done..|lia].
  - destruct (reaches_next attempt i ltac:(lia) HR) as (-> & Hd & HR').
    rewrite (proj2 (Z.eqb_neq attempt mr)) by lia. cbv zeta.
    rewrite backoff_wait by lia. rewrite Hd.
    match goal with |- context [retry _ _ _ left _ _ ?s1] =>
      specialize (IH (attempt + 1) s1 ltac:(lia) ltac:(lia) Hi Hmr HR' Hf) end.
    destruct (retry _ _ _ left _ _ _) as [o s']; cbn -[Z.of_nat] in IH.
    destruct IH as (? & ? & ? & ? & ?). split_and!; [done..|lia].
Qed.

Lemma retry_failure left attempt mr s :
  attempt + Z.of_nat left = mr + 1 → 0 ≤ attempt → mr ≤ 34 →
  (∀ i models, attempt ≤ i ≤ mr → reaches attempt i → fetcher i ≠ Ok models) →
  let '(o, s') := retry fetcher unixNano done left attempt mr s in
  (o = Stopped ∨ o = KeptPrevious) ∧ s_reg s' = s_reg s ∧ s_dp s' = s_dp s ∧
  ctr_success (s_ctr s') = ctr_success (s_ctr s) ∧
  (s_attempts s' ≤ s_attempts s + left)%nat.
Proof.
  revert attempt s. induction left as [|left IH]; intros attempt s Hl Ha Hmr HN; cbn [retry].
  { split_and!; auto; lia. }
  destruct (fetcher attempt) as [models|[|]] eqn:Hf.
  - destruct (HN attempt models ltac:(lia)); [intros j Hj; lia|done].
  - split_and!; simpl; auto; lia.
  - destruct (attempt =? mr) eqn:Hm; [split_and!; simpl; auto; lia|]. apply Z.eqb_neq in Hm.
    cbv zeta. rewrite backoff_wait by lia.
    destruct (done attempt) eqn:Hd; [split_and!; simpl; auto; lia|].
    match goal with |- context [retry _ _ _ left _ _ ?s1] =>
      specialize (IH (attempt + 1) s1 ltac:(lia) ltac:(lia) Hmr) end.
    assert (HN' : ∀ i models, attempt + 1 ≤ i ≤ mr → reaches (attempt + 1) i → fetcher i ≠ Ok models).
    { intros i models Hi HR. apply HN; [lia|]. intros j Hj.
      destruct (Z.eq_dec j attempt) as [->|]; [done|apply HR; lia]. }
    specialize (IH HN').
    destruct (retry _ _ _ left _ _ _) as [o s']; cbn in IH.
    destruct IH as (? & ? & ? & ? & ?). split_and!; auto; lia.
Qed.

Lemma retry_panic left attempt mr s :
  0 ≤ attempt ≤ 34 → (Z.of_nat left > 34 - attempt) → 34 < mr →
  reaches attempt 34 → fetcher 34 = Err FetchFailed →
  (retry fetcher unixNano done left attempt mr s).1 = Panicked.
Proof.
  revert attempt s. induction left as [|left IH]; intros attempt s Ha Hl Hmr HR Hf; [lia|].
  cbn [retry]. destruct (Z.eq_dec attempt 34) as [->|Hne].
  - rewrite Hf, (proj2 (Z.eqb_neq 34 mr)) by lia. done.
  - destruct (reaches_next attempt 34 ltac:(lia) HR) as (-> & Hd & HR').
    rewrite (proj2 (Z.eqb_neq attempt mr)) by lia. cbv zeta.
    rewrite backoff_wait by lia. rewrite Hd. apply IH; auto; lia.
Qed.
End SyncProofs.

(** * Claims *)

(** [UpdateModels] on a registered name makes the listed ids, and no
    other id, route to that provider's adapter: an id of the list resolves to
    it with the provider's own visibility hint, an id that was indexed under it
    and is not listed is forgotten together with its hint, and every other id
    keeps its adapter and its hint.  An unregistered name changes nothing. *)
Theorem update_models_exact (r : Registry) (name : string) (models : list string) (m : string) :
  registry_inv r →
  let '(ok, r') := UpdateModels r name models in
  match providers r !! name with
  | None => ok = false ∧ r' = r
  | Some p =>
      ok = true ∧
      (byModel r' !! m = Some p ↔ m ∈ models) ∧
      (m ∈ models → HintForModel r' m = HintForName r name) ∧
      (m ∉ models → byModel r !! m = Some p → HintForModel r' m = (mkHint ScopePublic "", false)) ∧
      (m ∉ models → byModel r !! m ≠ Some p →
         byModel r' !! m = byModel r !! m ∧ HintForModel r' m = HintForModel r m)
  end.
Proof.
  intros Hinv. destruct (providers r !! name) as [p|] eqn:Hp;
    [|unfold UpdateModels; by rewrite Hp].
  assert (is_Some (providerHint r !! name)) as [h Hh] by (apply (inv_names r Hinv); by eauto).
  pose proof (UpdateModels_lookup r name models p m Hp) as (Hok & _ & _ & HB & HM).
  destruct (UpdateModels r name models) as [ok r']; simpl in *.
  unfold HintForModel, HintForName. rewrite HB, HM, Hh.
  repeat case_decide; split_and!; try done; intuition congruence.
Qed.

(** In every registry built by registrations and catalog updates a model
    id has a visibility hint exactly when it is routable, so the visibility
    filter never judges a routable model by the default of an unknown one, and
    no stored hint is blank. *)
Theorem registry_hints_total (ops : list registry_op) (model : string) :
  let r := foldl apply_op NewRegistry ops in
  (snd (HintForModel r model) = true ↔ model ∈ AllModels r) ∧
  IsZero_hint (fst (HintForModel r model)) = false ∧
  ∀ name, snd (HintForName r name) = true ↔ is_Some (ProviderFor r name).
Proof.
  intros r. destruct (registry_inv_run ops NewRegistry registry_inv_new) as [H1 H2 H3 H4].
  fold r in H1, H2, H3, H4. unfold HintForModel, HintForName, ProviderFor, AllModels.
  assert (HA : model ∈ sort_Strings (map_to_list (byModel r)).*1 ↔ is_Some (byModel r !! model)).
  { rewrite elem_of_sort_Strings, list_elem_of_fmap. split.
    - intros ([k p] & -> & Hin). rewrite elem_of_map_to_list in Hin. eauto.
    - intros [p Hp]. exists (model, p). by rewrite elem_of_map_to_list. }
  rewrite HA, H1. split_and!.
  - destruct (modelHints r !! model); simpl; split; eauto; [done|by intros [? ?]].
  - destruct (modelHints r !! model) eqn:E; simpl; eauto.
  - intros name. rewrite H2. destruct (providerHint r !! name); simpl; split; eauto; [done|by intros [? ?]].
Qed.

(** A catalog refresh with a retry budget of at most 34 is all or
    nothing: if some attempt within the budget succeeds before the context
    ends, the advertised list and the registry index are both replaced by what
    that attempt fetched and one success is counted; otherwise both are left
    exactly as they were, after at most one attempt more than the budget. *)
Theorem sync_all_or_nothing (fetcher : Z → res fetch_error (list string))
    (unixNano : Z → Z) (done : Z → bool) (mr : Z)
    (reg : Registry) (dp : DynamicProvider) (ctr : DynamicSyncCounters) :
  0 ≤ mr ≤ 34 →
  let '(o, s) := runOnce fetcher unixNano done mr reg dp ctr in
  (∀ i models, 0 ≤ i ≤ mr → reaches fetcher done 0 i → fetcher i = Ok models →
     (∃ added removed, o = Refreshed added removed) ∧
     s_reg s = (UpdateModels reg (dp_name dp) models).2 ∧
     s_dp s = mkDynamic (dp_name dp) models ∧
     ctr_success (s_ctr s) = (ctr_success ctr + 1) mod 2 ^ 64 ∧
     Z.of_nat (s_attempts s) = i + 1) ∧
  ((∀ i models, 0 ≤ i ≤ mr → reaches fetcher done 0 i → fetcher i ≠ Ok models) →
     (o = Stopped ∨ o = KeptPrevious) ∧ s_reg s = reg ∧ s_dp s = dp ∧
     ctr_success (s_ctr s) = ctr_success ctr ∧ Z.of_nat (s_attempts s) ≤ mr + 1).
Proof.
  intros Hmr. unfold runOnce.
  pose proof (retry_success fetcher unixNano done (Z.to_nat (mr + 1)) 0 mr (mkSync reg dp ctr 0 [])) as HS.
  pose proof (retry_failure fetcher unixNano done (Z.to_nat (mr + 1)) 0 mr (mkSync reg dp ctr 0 [])) as HF.
  destruct (retry _ _ _ _ _ _ _) as [o s]; cbn -[Z.of_nat Z.to_nat] in HS, HF. split.
  - intros i models Hi HR Hf.
    destruct (HS i models ltac:(lia) ltac:(lia) ltac:(lia) ltac:(lia) HR Hf) as (? & ? & ? & ? & ?).
    split_and!; eauto. lia.
  - intros HN. destruct (HF ltac:(lia) ltac:(lia) ltac:(lia) HN) as (? & ? & ? & ? & ?).
    split_and!; auto. lia.
Qed.

(** With a retry budget of 35 or more and an upstream that keeps
    failing, the refresh panics: the shift of the thirty-fifth back-off
    overflows to a negative duration, and the jitter is drawn below it. *)
Theorem sync_backoff_overflow (fetcher : Z → res fetch_error (list string))
    (unixNano : Z → Z) (done : Z → bool) (mr : Z)
    (reg : Registry) (dp : DynamicProvider) (ctr : DynamicSyncCounters) :
  34 < mr → (∀ i, 0 ≤ i ≤ 34 → fetcher i = Err FetchFailed ∧ done i = false) →
  fst (runOnce fetcher unixNano done mr reg dp ctr) = Panicked.
Proof.
  intros Hmr HF. apply retry_panic; try lia; [|apply HF; lia].
  intros j Hj. apply HF. lia.
Qed.

(** Whatever order the providers are visited in, an embedding model
    written [name/rest] resolves exactly when a registered embedding adapter
    called [name] lists [rest], and one without a slash exactly when some
    adapter lists it; an id that itself contains a slash is found under no
    other spelling, although the chat lookup falls back to the exact id. *)
Theorem resolve_embedding_iff (caps : Provider → Caps) (order : list Provider) (model : string) :
  is_Some (ResolveEmbedding caps order model) ↔
  ∃ p ms, p ∈ order ∧ EmbeddingModels (caps p) = Some ms ∧
    match Cut model "/" with
    | Some (name, rest) => p_name p = name ∧ rest ∈ ms
    | None => model ∈ ms
    end.
Proof.
  unfold ResolveEmbedding, mem. split.
  - destruct (Cut model "/") as [[name rest]|];
      intros [q H]; apply find_provider_Some in H as (p & Hin & H);
      destruct (EmbeddingModels (caps p)) as [ms|] eqn:E; try done;
      exists p, ms; case_match; try done; reflect_bools;
      repeat match goal with H : bool_decide _ = true |- _ => apply bool_decide_eq_true in H end;
      auto.
  - intros (p & ms & Hin & E & H).
    destruct (Cut model "/") as [[name rest]|];
      match goal with |- is_Some ?t => destruct t eqn:EF; [by eauto|exfalso] end;
      apply (find_provider_None _ _ p) in EF; auto; simpl in EF; rewrite E in EF;
      [destruct H as [<- H]; rewrite String.eqb_refl in EF|];
      rewrite bool_decide_eq_true_2 in EF; done.
Qed.

(** ** Witnesses *)

Definition openai : Provider := mkProvider 1 "openai".
Definition registry_openai : Registry := Register NewRegistry openai ["gpt-4o"; "o3"].

Lemma update_models_exact_witness :
  let r' := (UpdateModels registry_openai "openai" ["gpt-5"; "o3"]).2 in
  byModel r' !! "gpt-5" = Some openai ∧ HintForModel r' "gpt-4o" = (mkHint ScopePublic "", false).
Proof.
  assert (Hinv : registry_inv registry_openai)
    by (apply (registry_inv_run [OpRegister "openai" zero_hint openai ["gpt-4o"; "o3"]]), registry_inv_new).
  pose proof (update_models_exact registry_openai "openai" ["gpt-5"; "o3"] "gpt-5" Hinv) as H1.
  pose proof (update_models_exact registry_openai "openai" ["gpt-5"; "o3"] "gpt-4o" Hinv) as H2.
  change (providers registry_openai !! "openai") with (Some openai) in H1, H2.
  destruct (UpdateModels registry_openai "openai" ["gpt-5"; "o3"]) as [ok r'].
  destruct H1 as (_ & H1 & _), H2 as (_ & _ & _ & H2 & _). split.
  - apply H1. apply elem_of_cons. by left.
  - apply H2; [|vm_compute; reflexivity].
    apply (bool_decide_unpack _). vm_compute. exact I.
Defined.

Definition second_try (i : Z) : res fetch_error (list string) :=
  if i =? 1 then Ok ["gpt-5"] else Err FetchFailed.

Lemma sync_all_or_nothing_witness :
  s_dp (snd (runOnce second_try (fun i => i) (fun _ => false) 3 registry_openai
               (NewDynamicProvider "openai") (mkCounters 0 0 0 0))) = mkDynamic "openai" ["gpt-5"].
Proof.
  pose proof (sync_all_or_nothing second_try (fun i => i) (fun _ => false) 3 registry_openai
    (NewDynamicProvider "openai") (mkCounters 0 0 0 0) ltac:(lia)) as H.
  destruct (runOnce _ _ _ _ _ _ _) as [o s]. destruct H as [H _].
  refine (proj1 (proj2 (proj2 (H 1 ["gpt-5"] ltac:(lia) _ eq_refl)))).
  intros j Hj. replace j with 0 by lia. done.
Defined.

Lemma sync_backoff_overflow_witness :
  fst (runOnce (fun _ => Err FetchFailed) (fun i => i) (fun _ => false) 40 registry_openai
         (NewDynamicProvider "openai") (mkCounters 0 0 0 0)) = Panicked.
Proof. apply sync_backoff_overflow; [lia|done]. Defined.
