(* ===== verification/Pricing.v ===== *)
(** * Pricing: src/internal/gateway (pricing.go, pricing_check.go, and the usage
    types of types.go)

    The static price tables, the resolution of a model id to a price, the basic
    and the detail-aware cost of a call, and the background comparison of the
    tables with a published catalog.  Token counts are [int]; prices are
    [float64] US dollars per million tokens. *)

From S2P Require Import Prelude GoString GoTime Float64.
Local Open Scope string_scope.
Local Open Scope Z_scope.

(** ** types.go: Usage *)

Record PromptTokenDetails := mkPromptDetails {
  CachedTokens : Z;
  pd_TextTokens : Z;
  pd_AudioTokens : Z;
  pd_ImageTokens : Z
}.

Record CompletionTokenDetails := mkCompletionDetails {
  ReasoningTokens : Z;
  cd_TextTokens : Z;
  cd_AudioTokens : Z;
  AcceptedPredictionTokens : Z;
  RejectedPredictionTokens : Z
}.

Record Usage := mkUsage {
  PromptTokens : Z;
  CompletionTokens : Z;
  TotalTokens : Z;
  EstimatedCost : float64;
  CostUSD_reported : float64;
  PromptDetails : option PromptTokenDetails;
  CompletionDetails : option CompletionTokenDetails
}.

Definition Prompt_HasDetail (d : option PromptTokenDetails) : bool :=
  match d with
  | None => false
  | Some d => negb (CachedTokens d =? 0) || negb (pd_TextTokens d =? 0) ||
              negb (pd_AudioTokens d =? 0) || negb (pd_ImageTokens d =? 0)
  end.

Definition Completion_HasDetail (d : option CompletionTokenDetails) : bool :=
  match d with
  | None => false
  | Some d => negb (ReasoningTokens d =? 0) || negb (cd_TextTokens d =? 0) ||
              negb (cd_AudioTokens d =? 0) || negb (AcceptedPredictionTokens d =? 0) ||
              negb (RejectedPredictionTokens d =? 0)
  end.

(** ** pricing.go: the tables *)

Record price := mkPrice { inPerM : float64; outPerM : float64 }.

Record detailedPrice := mkDetailed {
  dp_price : price;
  cachedInPerM : float64;
  reasoningOutPerM : float64
}.

(** A price literal, in cents. *)
Definition usd (cents : Z) : float64 := lit cents 100.

Definition pricingTable : gmap string price := list_to_map [
  ("gpt-4o", mkPrice (usd 250) (usd 1000));
  ("gpt-4o-mini", mkPrice (usd 15) (usd 60));
  ("gpt-4.1", mkPrice (usd 200) (usd 800));
  ("gpt-4.1-mini", mkPrice (usd 40) (usd 160));
  ("gpt-4.1-nano", mkPrice (usd 10) (usd 40));
  ("o3", mkPrice (usd 200) (usd 800));
  ("o4-mini", mkPrice (usd 110) (usd 440));
  ("claude-opus-4-1", mkPrice (usd 1500) (usd 7500));
  ("claude-sonnet-4-5", mkPrice (usd 300) (usd 1500));
  ("claude-haiku-4-5", mkPrice (usd 100) (usd 500));
  ("claude-3-7-sonnet-latest", mkPrice (usd 300) (usd 1500));
  ("claude-3-5-haiku-latest", mkPrice (usd 80) (usd 400));
  ("gemini-2.5-pro", mkPrice (usd 125) (usd 1000));
  ("gemini-2.5-flash", mkPrice (usd 30) (usd 250));
  ("gemini-2.0-flash", mkPrice (usd 10) (usd 40));
  ("groq/llama-3.3-70b-versatile", mkPrice (usd 59) (usd 79));
  ("groq/llama-3.3-70b-specdec", mkPrice (usd 59) (usd 79));
  ("groq/llama-3.1-8b-instant", mkPrice (usd 5) (usd 8));
  ("groq/llama-3.1-70b-versatile", mkPrice (usd 59) (usd 79));
  ("groq/llama3-8b-8192", mkPrice (usd 5) (usd 8));
  ("groq/llama3-70b-8192", mkPrice (usd 59) (usd 79));
  ("groq/mixtral-8x7b-32768", mkPrice (usd 27) (usd 27));
  ("groq/gemma2-9b-it", mkPrice (usd 20) (usd 20));
  ("groq/llama-guard-3-8b", mkPrice (usd 20) (usd 20));
  ("mistral/mistral-large-latest", mkPrice (usd 200) (usd 600));
  ("mistral/mistral-medium-latest", mkPrice (usd 40) (usd 200));
  ("mistral/mistral-small-latest", mkPrice (usd 20) (usd 60));
  ("mistral/mistral-small-2409", mkPrice (usd 20) (usd 60));
  ("mistral/codestral-latest", mkPrice (usd 30) (usd 90));
  ("mistral/codestral-2405", mkPrice (usd 30) (usd 90));
  ("mistral/open-mistral-7b", mkPrice (usd 25) (usd 25));
  ("mistral/open-mixtral-8x7b", mkPrice (usd 27) (usd 27));
  ("mistral/ministral-8b-latest", mkPrice (usd 10) (usd 10));
  ("mistral/ministral-3b-latest", mkPrice (usd 4) (usd 4));
  ("mistral/pixtral-12b-2409", mkPrice (usd 15) (usd 15));
  ("grid/text-standard", mkPrice (usd 20) (usd 50));
  ("grid/text-prime", mkPrice (usd 50) (usd 150));
  ("grid/text-max", mkPrice (usd 150) (usd 450));
  ("grid/code-standard", mkPrice (usd 30) (usd 90));
  ("grid/code-prime", mkPrice (usd 70) (usd 210));
  ("grid/code-max", mkPrice (usd 210) (usd 630));
  ("grid/agent-standard", mkPrice (usd 40) (usd 120));
  ("grid/agent-prime", mkPrice (usd 100) (usd 300));
  ("grid/agent-max", mkPrice (usd 300) (usd 900))].

Definition detailedPricingTable : gmap string detailedPrice := list_to_map [
  ("claude-opus-4-1", mkDetailed (mkPrice (usd 1500) (usd 7500)) (usd 150) fzero);
  ("claude-sonnet-4-5", mkDetailed (mkPrice (usd 300) (usd 1500)) (usd 30) fzero);
  ("claude-haiku-4-5", mkDetailed (mkPrice (usd 100) (usd 500)) (usd 10) fzero);
  ("claude-3-7-sonnet-latest", mkDetailed (mkPrice (usd 300) (usd 1500)) (usd 30) fzero);
  ("claude-3-5-haiku-latest", mkDetailed (mkPrice (usd 80) (usd 400)) (usd 8) fzero);
  ("o3", mkDetailed (mkPrice (usd 200) (usd 800)) fzero (usd 800));
  ("o4-mini", mkDetailed (mkPrice (usd 110) (usd 440)) fzero (usd 440))].

Definition familyAliases : list (string * string) := [
  ("gpt-4o-mini", "gpt-4o-mini");
  ("gpt-4o", "gpt-4o");
  ("gpt-4.1-mini", "gpt-4.1-mini");
  ("gpt-4.1-nano", "gpt-4.1-nano");
  ("gpt-4.1", "gpt-4.1");
  ("o4-mini", "o4-mini");
  ("o3", "o3");
  ("claude-3-7-sonnet", "claude-3-7-sonnet-latest");
  ("claude-3-5-haiku", "claude-3-5-haiku-latest");
  ("claude-opus", "claude-opus-4-1");
  ("claude-sonnet", "claude-sonnet-4-5");
  ("claude-haiku", "claude-haiku-4-5");
  ("gemini-2.5-pro", "gemini-2.5-pro");
  ("gemini-2.5-flash", "gemini-2.5-flash");
  ("gemini-2.0-flash", "gemini-2.0-flash");
  ("text-standard", "grid/text-standard");
  ("text-prime", "grid/text-prime");
  ("text-max", "grid/text-max");
  ("code-standard", "grid/code-standard");
  ("code-prime", "grid/code-prime");
  ("code-max", "grid/code-max");
  ("agent-standard", "grid/agent-standard");
  ("agent-prime", "grid/agent-prime");
  ("agent-max", "grid/agent-max")].


(** ** Resolving a model id *)

Fixpoint walk_alias (l : list (string * string)) (model : string) : option price :=
  match l with
  | [] => None
  | (prefix, family) :: l' =>
      if String.eqb prefix model then
        match pricingTable !! family with
        | Some p => Some p
        | None => walk_alias l' model
        end
      else if HasPrefix model prefix then
        match pricingTable !! family with
        | Some p => Some p
        | None => walk_alias l' model
        end
      else walk_alias l' model
  end.

Definition matchAlias (model : string) : option price := walk_alias familyAliases model.

Fixpoint walk_alias_detail (l : list (string * string)) (model : string) : option detailedPrice :=
  match l with
  | [] => None
  | (prefix, family) :: l' =>
      if String.eqb prefix model || HasPrefix model prefix then
        match detailedPricingTable !! family with
        | Some dp => Some dp
        | None => walk_alias_detail l' model
        end
      else walk_alias_detail l' model
  end.

Definition matchAliasDetail (model : string) : option detailedPrice :=
  walk_alias_detail familyAliases model.

(** The chain shared by [matchPrice] and [matchDetailed]: the exact id, the id
    without its provider prefix, the alias of that, the alias of the raw id. *)
Definition match_chain {A : Type} (table : string → option A) (alias : string → option A)
    (model : string) : option A :=
  if String.eqb model "" then None
  else match table model with
       | Some p => Some p
       | None =>
           match Cut model "/" with
           | Some (_, rest) =>
               match table rest with
               | Some p => Some p
               | None =>
                   match alias rest with
                   | Some p => Some p
                   | None => alias model
                   end
               end
           | None => alias model
           end
       end.

Definition matchPrice (model : string) : option price :=
  match_chain (fun k => pricingTable !! k) matchAlias model.
Definition matchDetailed (model : string) : option detailedPrice :=
  match_chain (fun k => detailedPricingTable !! k) matchAliasDetail model.

(** ** The cost of a call *)

Definition million : float64 := of_Z 1000000.

Definition applyBasic (p : price) (inTokens outTokens : Z) : float64 :=
  fadd (fmul (fdiv (of_Z inTokens) million) (inPerM p))
       (fmul (fdiv (of_Z outTokens) million) (outPerM p)).

Definition applyDetailed (dp : detailedPrice) (inTokens outTokens : Z) (usage : option Usage) : float64 :=
  let cachedInRate := if feq (cachedInPerM dp) fzero then inPerM (dp_price dp) else cachedInPerM dp in
  let reasoningOutRate :=
    if feq (reasoningOutPerM dp) fzero then outPerM (dp_price dp) else reasoningOutPerM dp in
  let cachedIn :=
    match usage with
    | Some u =>
        match PromptDetails u with
        | Some d => if 0 <? CachedTokens d
                    then if inTokens <? CachedTokens d then inTokens else CachedTokens d
                    else 0
        | None => 0
        end
    | None => 0
    end in
  let '(regularOut, reasoningOut) :=
    match usage with
    | Some u =>
        match CompletionDetails u with
        | Some d => if 0 <? ReasoningTokens d
                    then let r := if outTokens <? ReasoningTokens d then outTokens else ReasoningTokens d in
                         (wrap64 (outTokens - r), r)
                    else (outTokens, 0)
        | None => (outTokens, 0)
        end
    | None => (outTokens, 0)
    end in
  let uncached := wrap64 (inTokens - cachedIn) in
  let uncached := if uncached <? 0 then 0 else uncached in
  let regularOut := if regularOut <? 0 then outTokens else regularOut in
  fadd (fadd (fadd (fmul (fdiv (of_Z uncached) million) (inPerM (dp_price dp)))
                   (fmul (fdiv (of_Z cachedIn) million) cachedInRate))
             (fmul (fdiv (of_Z regularOut) million) (outPerM (dp_price dp))))
       (fmul (fdiv (of_Z reasoningOut) million) reasoningOutRate).

(** The second id is tried when it is there and differs from the first. *)
Definition either {A : Type} (f : string → option A) (requestModel responseModel : string) : option A :=
  match f requestModel with
  | Some a => Some a
  | None =>
      if negb (String.eqb responseModel "") && negb (String.eqb responseModel requestModel)
      then f responseModel else None
  end.

Definition costForModel (requestModel responseModel : string) (inTokens outTokens : Z)
    (useDetail : bool) (usage : option Usage) : float64 :=
  match (if useDetail then either matchDetailed requestModel responseModel else None) with
  | Some dp => applyDetailed dp inTokens outTokens usage
  | None =>
      match either matchPrice requestModel responseModel with
      | Some p => applyBasic p inTokens outTokens
      | None => fzero
      end
  end.

Definition lookupDetailedFamily (requestModel responseModel : string) : string :=
  match matchDetailed requestModel with
  | Some _ => requestModel
  | None =>
      if negb (String.eqb responseModel "") && negb (String.eqb responseModel requestModel)
      then match matchDetailed responseModel with Some _ => responseModel | None => "" end
      else ""
  end.

Definition CostUSD (requestModel responseModel : string) (inTokens outTokens : Z) : float64 :=
  costForModel requestModel responseModel inTokens outTokens false None.

Definition CostUSAGECost (requestModel responseModel : string) (usage : option Usage) : float64 :=
  match usage with
  | None => CostUSD requestModel responseModel 0 0
  | Some u =>
      let detail := Prompt_HasDetail (PromptDetails u) || Completion_HasDetail (CompletionDetails u) in
      if detail && negb (String.eqb (lookupDetailedFamily requestModel responseModel) "")
      then costForModel requestModel responseModel (PromptTokens u) (CompletionTokens u) true usage
      else costForModel requestModel responseModel (PromptTokens u) (CompletionTokens u) false None
  end.

Definition ResolveCostUSD (upstreamReported : float64) (requestModel responseModel : string)
    (usage : option Usage) : float64 :=
  if fgt upstreamReported fzero then upstreamReported
  else match usage with
       | None => CostUSD requestModel responseModel 0 0
       | Some u =>
           let detail := Prompt_HasDetail (PromptDetails u) || Completion_HasDetail (CompletionDetails u) in
           if detail && negb (String.eqb (lookupDetailedFamily requestModel responseModel) "")
           then costForModel requestModel responseModel (PromptTokens u) (CompletionTokens u) true usage
           else CostUSD requestModel responseModel (PromptTokens u) (CompletionTokens u)
       end.

(** ** pricing_check.go *)

Definition catalogKeys : gmap string (list string) := list_to_map [
  ("gpt-4o", ["gpt-4o"; "openai/gpt-4o"]);
  ("gpt-4o-mini", ["gpt-4o-mini"; "openai/gpt-4o-mini"]);
  ("gpt-4.1", ["gpt-4.1"; "openai/gpt-4.1"]);
  ("gpt-4.1-mini", ["gpt-4.1-mini"; "openai/gpt-4.1-mini"]);
  ("gpt-4.1-nano", ["gpt-4.1-nano"; "openai/gpt-4.1-nano"]);
  ("o3", ["o3"; "openai/o3"]);
  ("o4-mini", ["o4-mini"; "openai/o4-mini"]);
  ("claude-opus-4-1", ["claude-opus-4-1"; "anthropic/claude-opus-4-1"]);
  ("claude-sonnet-4-5", ["claude-sonnet-4-5"; "anthropic/claude-sonnet-4-5"]);
  ("claude-haiku-4-5", ["claude-haiku-4-5"; "anthropic/claude-haiku-4-5"]);
  ("claude-3-7-sonnet-latest", ["claude-3-7-sonnet-latest"; "anthropic/claude-3-7-sonnet-latest"]);
  ("claude-3-5-haiku-latest", ["claude-3-5-haiku-latest"; "anthropic/claude-3-5-haiku-latest"]);
  ("gemini-2.5-pro", ["gemini-2.5-pro"; "gemini/gemini-2.5-pro"]);
  ("gemini-2.5-flash", ["gemini-2.5-flash"; "gemini/gemini-2.5-flash"]);
  ("gemini-2.0-flash", ["gemini-2.0-flash"; "gemini/gemini-2.0-flash"]);
  ("groq/llama-3.3-70b-versatile", ["groq/llama-3.3-70b-versatile"; "llama-3.3-70b-versatile"]);
  ("groq/llama-3.3-70b-specdec", ["groq/llama-3.3-70b-specdec"; "llama-3.3-70b-specdec"]);
  ("groq/llama-3.1-8b-instant", ["groq/llama-3.1-8b-instant"; "llama-3.1-8b-instant"]);
  ("groq/llama-3.1-70b-versatile", ["groq/llama-3.1-70b-versatile"; "llama-3.1-70b-versatile"]);
  ("groq/llama3-8b-8192", ["groq/llama3-8b-8192"; "llama3-8b-8192"]);
  ("groq/llama3-70b-8192", ["groq/llama3-70b-8192"; "llama3-70b-8192"]);
  ("groq/mixtral-8x7b-32768", ["groq/mixtral-8x7b-32768"; "mixtral-8x7b-32768"]);
  ("groq/gemma2-9b-it", ["groq/gemma2-9b-it"; "gemma2-9b-it"]);
  ("groq/llama-guard-3-8b", ["groq/llama-guard-3-8b"; "llama-guard-3-8b"]);
  ("mistral/mistral-large-latest", ["mistral/mistral-large-latest"; "mistral-large-latest"]);
  ("mistral/mistral-medium-latest", ["mistral/mistral-medium-latest"; "mistral-medium-latest"]);
  ("mistral/mistral-small-latest", ["mistral/mistral-small-latest"; "mistral-small-latest"]);
  ("mistral/mistral-small-2409", ["mistral/mistral-small-2409"; "mistral-small-2409"]);
  ("mistral/codestral-latest", ["mistral/codestral-latest"; "codestral-latest"]);
  ("mistral/codestral-2405", ["mistral/codestral-2405"; "codestral-2405"]);
  ("mistral/open-mistral-7b", ["mistral/open-mistral-7b"; "open-mistral-7b"]);
  ("mistral/open-mixtral-8x7b", ["mistral/open-mixtral-8x7b"; "open-mixtral-8x7b"]);
  ("mistral/ministral-8b-latest", ["mistral/ministral-8b-latest"; "ministral-8b-latest"]);
  ("mistral/ministral-3b-latest", ["mistral/ministral-3b-latest"; "ministral-3b-latest"]);
  ("mistral/pixtral-12b-2409", ["mistral/pixtral-12b-2409"; "pixtral-12b-2409"])].


Record PricingDrift := mkDrift {
  d_Model : string;
  OursIn : float64;
  OursOut : float64;
  CatalogIn : float64;
  CatalogOut : float64
}.

Record catalogPrice := mkCatalog { InputCostPerToken : float64; OutputCostPerToken : float64 }.

(** [math.Abs] and [math.Max]. *)
Definition Abs (x : float64) : float64 :=
  match x with
  | S754_zero _ => S754_zero false
  | S754_infinity _ => S754_infinity false
  | S754_nan => S754_nan
  | S754_finite _ m e => S754_finite false m e
  end.

Definition Max (x y : float64) : float64 :=
  if is_NaN x || is_NaN y then
    match x, y with
    | S754_infinity false, _ | _, S754_infinity false => S754_infinity false
    | _, _ => S754_nan
    end
  else if feq x fzero && feq y fzero then (match x with S754_zero true => y | _ => x end)
  else if fgt x y then x else y.

Definition pricingDriftAbsFloor : float64 := lit 1 100.
Definition pricingDriftRelTol : float64 := lit 1 100.

Definition priceDrifted (ours catalog : float64) : bool :=
  let delta := Abs (fsub ours catalog) in
  if fle delta pricingDriftAbsFloor then false
  else
    let denom := Max (Abs ours) (Abs catalog) in
    if feq denom fzero then fgt delta fzero
    else fgt (fdiv delta denom) pricingDriftRelTol.

(** The catalog after JSON decoding: under each key the entry, or [None] when
    the entry does not decode as a price. *)
Fixpoint pick_alias (raw : gmap string (option catalogPrice)) (aliases : list string) : option catalogPrice :=
  match aliases with
  | [] => None
  | alias :: aliases' =>
      match raw !! alias with
      | Some (Some p) =>
          if fle (InputCostPerToken p) fzero || fle (OutputCostPerToken p) fzero
          then pick_alias raw aliases' else Some p
      | _ => pick_alias raw aliases'
      end
  end.

Definition pickCatalogPrices (raw : gmap string (option catalogPrice)) : gmap string catalogPrice :=
  omap (pick_alias raw) catalogKeys.

Definition drift_of (catalog : gmap string catalogPrice) (model : string) (ours : price) : option PricingDrift :=
  if HasPrefix model "grid/" then None
  else match catalog !! model with
       | None => None
       | Some p =>
           let catIn := fmul (InputCostPerToken p) million in
           let catOut := fmul (OutputCostPerToken p) million in
           if negb (priceDrifted (inPerM ours) catIn) && negb (priceDrifted (outPerM ours) catOut)
           then None
           else Some (mkDrift model (inPerM ours) (outPerM ours) catIn catOut)
       end.

(** [order]: the entries of [pricingTable] in the order the loop visits them. *)
Definition driftAgainstTable (order : list (string * price)) (catalog : gmap string catalogPrice) :
    list PricingDrift :=
  omap (fun '(model, ours) => drift_of catalog model ours) order.

Record PricingCheckSnapshot := mkSnapshot {
  Enabled : bool;
  CheckedAt : Time;
  Source : string;
  Drifts : list PricingDrift;
  LastError : string;
  BillingUnchanged : bool;
  ErrorsTotal : Z
}.

Definition DefaultPricingCatalogURL : string :=
  "https://raw.githubusercontent.com/BerriAI/litellm/main/model_prices_and_context_window.json".

Record PricingChecker := mkChecker {
  pc_url : string;
  pc_interval : Duration;
  pc_maxBytes : Z;
  pc_snap : PricingCheckSnapshot
}.

Definition NewPricingChecker (url : string) (interval : Duration) (maxBytes : Z) : PricingChecker :=
  let url := TrimSpace url in
  let url := if String.eqb url "" then DefaultPricingCatalogURL else url in
  let interval := if interval <=? 0 then 6 * Hour else interval in
  let maxBytes := if maxBytes <=? 0 then 8388608 else maxBytes in
  mkChecker url interval maxBytes (mkSnapshot true zero_time url [] "" true 0).

(** What the HTTP client returned: a transport error, or a status and a body. *)
Inductive catalog_response :=
| TransportError (e : string)
| Response (status : Z) (body : string).

Section Check.
(** [json.Unmarshal] of the catalog, and [fmt.Errorf]'s text of a status. *)
Context (decode : string → res string (gmap string (option catalogPrice)))
        (status_error : string → Z → string) (size_error : Z → string)
        (order : list (string * price)).

Definition compareCatalogJSON (body : string) : res string (list PricingDrift) :=
  match decode body with
  | Err e => Err ("catalog json: " +:+ e)
  | Ok raw => Ok (driftAgainstTable order (pickCatalogPrices raw))
  end.

Definition fetchAndCompare (c : PricingChecker) (resp : catalog_response) : res string (list PricingDrift) :=
  match resp with
  | TransportError e => Err e
  | Response status body =>
      if (status <? 200) || (300 <=? status) then Err (status_error (pc_url c) status)
      else if pc_maxBytes c <? Z.of_nat (String.length body) then Err (size_error (pc_maxBytes c))
      else compareCatalogJSON body
  end.

(** [RunOnce]: the checker after the call, and the snapshot handed out. *)
Definition PricingRunOnce (c : PricingChecker) (resp : catalog_response) (now : Time) : PricingChecker :=
  let s := pc_snap c in
  let snap :=
    match fetchAndCompare c resp with
    | Err e => mkSnapshot true now (pc_url c) (Drifts s) e true ((ErrorsTotal s + 1) mod 2 ^ 64)
    | Ok drifts => mkSnapshot true now (pc_url c) drifts "" true (ErrorsTotal s)
    end in
  mkChecker (pc_url c) (pc_interval c) (pc_maxBytes c) snap.
End Check.

(** * Theorems *)

#[local] Opaque pricingTable detailedPricingTable familyAliases.

(** ** The alias walk *)

Definition known_family (a : string * string) : bool := bool_decide (is_Some (pricingTable !! a.2)).

(** No alias is a prefix of a later one. *)
Fixpoint narrower_first (l : list (string * string)) : bool :=
  match l with
  | [] => true
  | a :: l' => forallb (fun b => negb (HasPrefix b.1 a.1)) l' && narrower_first l'
  end.

Definition matches (model : string) (a : string * string) : bool := HasPrefix model a.1.

Lemma walk_alias_find l model :
  forallb known_family l = true →
  walk_alias l model = find (matches model) l ≫= fun a => pricingTable !! a.2.
Proof.
  induction l as [|[prefix family] l IH]; cbn [forallb find walk_alias]; [done|].
  intros H. apply andb_prop in H as [Hk H]. specialize (IH H).
  apply bool_decide_eq_true in Hk as [p Hp]. simpl in Hp. rewrite Hp.
  unfold matches; simpl. destruct (String.eqb prefix model) eqn:E.
  - apply String.eqb_eq in E as ->. rewrite HasPrefix_refl. simpl. by rewrite Hp.
  - destruct (HasPrefix model prefix); simpl; [by rewrite Hp|done].
Qed.

Lemma find_first_longest l model a :
  narrower_first l = true → find (matches model) l = Some a →
  a ∈ l ∧ HasPrefix model a.1 = true ∧
  ∀ b, b ∈ l → HasPrefix model b.1 = true → (String.length b.1 ≤ String.length a.1)%nat.
Proof.
  induction l as [|x l IH]; cbn [find narrower_first]; [done|].
  intros H Hf. apply andb_prop in H as [Hx H]. unfold matches in Hf at 1.
  destruct (HasPrefix model x.1) eqn:E; simplify_eq.
  - split_and!; [apply elem_of_cons; by left|done|]. intros b Hb Hp.
    apply elem_of_cons in Hb as [->|Hb]; [done|].
    apply forallb_forall with (x := b) in Hx; [|by apply list_elem_of_In].
    apply negb_true_iff in Hx. destruct (decide (String.length b.1 ≤ String.length a.1)%nat); [done|].
    exfalso. rewrite (HasPrefix_chain model a.1 b.1) in Hx; [done..|lia].
  - destruct (IH H Hf) as (Hin & Hp & Hmax). split_and!; [apply elem_of_cons; by right|done|].
    intros b Hb Hbp. apply elem_of_cons in Hb as [->|Hb]; [congruence|auto].
Qed.

Lemma families_known : forallb known_family familyAliases = true.
Proof. vm_compute. reflexivity. Qed.

Lemma aliases_narrower_first : narrower_first familyAliases = true.
Proof. vm_compute. reflexivity. Qed.

(** ** The two tables agree *)

Definition feqb_exact (x y : float64) : bool := bool_decide (x = y).

Definition price_eqb (p q : price) : bool :=
  feqb_exact (inPerM p) (inPerM q) && feqb_exact (outPerM p) (outPerM q).

Lemma price_eqb_eq p q : price_eqb p q = true → p = q.
Proof.
  unfold price_eqb, feqb_exact. destruct p, q; simpl. intros H.
  apply andb_prop in H as [H1%bool_decide_eq_true H2%bool_decide_eq_true]. by subst.
Qed.

(** The base rates of a detailed entry are those of the basic lookup [q]. *)
Definition agrees (d : option detailedPrice) (q : option price) : bool :=
  match d, q with
  | Some dp, Some p => price_eqb (dp_price dp) p
  | Some _, None => false
  | None, _ => true
  end.

Lemma agrees_Some d dp q : agrees d q = true → d = Some dp → q = Some (dp_price dp).
Proof. intros H ->. destruct q; [|done]. apply price_eqb_eq in H. by subst. Qed.

(** An alias with a detailed family is comparable with no other alias, and its
    detailed entry has the base rates of the basic table. *)
Definition alias_ok (a : string * string) : bool :=
  match detailedPricingTable !! a.2 with
  | None => true
  | Some dp =>
      agrees (Some dp) (pricingTable !! a.2) &&
      forallb (fun b => bool_decide (a = b) || negb (HasPrefix b.1 a.1) && negb (HasPrefix a.1 b.1))
        familyAliases
  end.

Lemma aliases_ok : forallb alias_ok familyAliases = true.
Proof. vm_compute. reflexivity. Qed.

Lemma walk_detail_Some l model dp :
  walk_alias_detail l model = Some dp →
  ∃ a, a ∈ l ∧ HasPrefix model a.1 = true ∧ detailedPricingTable !! a.2 = Some dp.
Proof.
  induction l as [|[prefix family] l IH]; cbn [walk_alias_detail]; [done|].
  assert (Hrec : walk_alias_detail l model = Some dp →
    ∃ a, a ∈ (prefix, family) :: l ∧ HasPrefix model a.1 = true ∧
         detailedPricingTable !! a.2 = Some dp).
  { intros H. destruct (IH H) as (a & ? & ?). exists a. split; [apply elem_of_cons; by right|done]. }
  destruct (String.eqb prefix model || HasPrefix model prefix) eqn:E; [|done].
  destruct (detailedPricingTable !! family) as [dp'|] eqn:Ed; [|done].
  intros [= ->]. exists (prefix, family). split_and!; [apply elem_of_cons; by left| |done].
  apply orb_prop in E as [E|E]; [apply String.eqb_eq in E as <-; apply HasPrefix_refl|done].
Qed.

Lemma alias_detail_agrees model dp :
  matchAliasDetail model = Some dp → matchAlias model = Some (dp_price dp).
Proof.
  intros H. apply walk_detail_Some in H as (a & Hin & Hp & Hd).
  unfold matchAlias. rewrite walk_alias_find by apply families_known.
  pose proof (proj1 (forallb_forall _ _) aliases_ok a (proj1 (list_elem_of_In _ _) Hin)) as Ha.
  unfold alias_ok in Ha. rewrite Hd in Ha. apply andb_prop in Ha as [Hag Hun].
  assert (Hlone : ∀ b, b ∈ familyAliases → HasPrefix model b.1 = true → b = a).
  { intros b Hb Hbp. apply list_elem_of_In in Hb.
    apply (proj1 (forallb_forall _ _) Hun) in Hb. apply orb_prop in Hb as [Hb|Hb].
    - by apply bool_decide_eq_true in Hb.
    - apply andb_prop in Hb as [H1%negb_true_iff H2%negb_true_iff].
      destruct (Nat.le_ge_cases (String.length a.1) (String.length b.1)).
      + by rewrite (HasPrefix_chain model a.1 b.1) in H1.
      + by rewrite (HasPrefix_chain model b.1 a.1) in H2. }
  destruct (find (matches model) familyAliases) as [b|] eqn:Ef; simpl.
  - apply find_some in Ef as [Hb Hbp]. apply list_elem_of_In in Hb.
    rewrite (Hlone b Hb Hbp). by apply (agrees_Some _ _ _ Hag).
  - apply find_none with (x := a) in Ef; [|by apply list_elem_of_In].
    unfold matches in Ef. congruence.
Qed.

(** Every exact key of the basic table: what the detailed table says of it, of
    its stripped form and of their aliases agrees with its entry. *)
Definition key_ok (k : string) (p : price) : bool :=
  agrees (matchDetailed k) (Some p) && agrees (matchAliasDetail k) (Some p) && negb (String.eqb k "").

Lemma keys_ok : forallb (fun '(k, p) => key_ok k p) (map_to_list pricingTable) = true.
Proof. vm_compute. reflexivity. Qed.

Lemma key_agrees k p : pricingTable !! k = Some p →
  agrees (matchDetailed k) (Some p) = true ∧ agrees (matchAliasDetail k) (Some p) = true ∧
  String.eqb k "" = false.
Proof.
  intros H. apply elem_of_map_to_list, list_elem_of_In in H.
  apply (proj1 (forallb_forall _ _) keys_ok) in H. unfold key_ok in H.
  apply andb_prop in H as [[H1 H2]%andb_prop H3%negb_true_iff]. auto.
Qed.

Definition detailed_key_ok (k : string) (dp : detailedPrice) : bool :=
  agrees (Some dp) (pricingTable !! k) && negb (String.eqb k "").

Lemma detailed_keys_ok :
  forallb (fun '(k, dp) => detailed_key_ok k dp) (map_to_list detailedPricingTable) = true.
Proof. vm_compute. reflexivity. Qed.

Lemma detailed_key_agrees k dp :
  detailedPricingTable !! k = Some dp → pricingTable !! k = Some (dp_price dp).
Proof.
  intros H. apply elem_of_map_to_list, list_elem_of_In in H.
  apply (proj1 (forallb_forall _ _) detailed_keys_ok), andb_prop in H as [H _].
  by apply (agrees_Some _ _ _ H).
Qed.

(** The alias step of the two chains, with the table step before it. *)
Lemma table_or_alias_agrees k dp :
  matchAliasDetail k = Some dp →
  match pricingTable !! k with Some p => Some p | None => matchAlias k end = Some (dp_price dp).
Proof.
  intros H. destruct (pricingTable !! k) as [p|] eqn:E.
  - destruct (key_agrees k p E) as (_ & Ha & _). by apply (agrees_Some _ _ _ Ha).
  - by apply alias_detail_agrees.
Qed.

(** A model with a provider prefix is resolved by what follows the prefix. *)
Definition prefix_is_no_alias (model : string) : Prop :=
  Cut model "/" = None ∨ matchAliasDetail model = None.

Lemma matchDetailed_agrees model dp :
  prefix_is_no_alias model → matchDetailed model = Some dp → matchPrice model = Some (dp_price dp).
Proof.
  intros Hp HD. unfold matchPrice, match_chain.
  destruct (pricingTable !! model) as [p|] eqn:E.
  { destruct (key_agrees model p E) as (Ha & _ & ->). by apply (agrees_Some _ _ _ Ha HD). }
  unfold matchDetailed, match_chain in HD.
  destruct (String.eqb model ""); [discriminate HD|].
  destruct (detailedPricingTable !! model) as [d|] eqn:Ed.
  { apply detailed_key_agrees in Ed. congruence. }
  destruct (Cut model "/") as [[name rest]|] eqn:Ec.
  - destruct Hp as [Hp|Hp]; [congruence|]. rewrite Hp in HD.
    destruct (detailedPricingTable !! rest) as [d|] eqn:Er.
    + injection HD as ->. by rewrite (detailed_key_agrees rest dp Er).
    + destruct (matchAliasDetail rest) as [d|] eqn:Ear; [|discriminate HD]. injection HD as ->.
      pose proof (table_or_alias_agrees rest dp Ear) as H.
      destruct (pricingTable !! rest); [exact H|]. by rewrite H.
  - by apply alias_detail_agrees.
Qed.

(** ** Costs are non-negative *)

Definition positive_finite (x : float64) : bool :=
  match x with S754_finite false _ _ => true | _ => false end.

Lemma fmul_pos_nonneg x y :
  nonneg x = true → positive_finite y = true → nonneg (fmul x y) = true.
Proof.
  intros Hx Hy. destruct y as [|?| |[] m e]; try done.
  destruct x as [[]|[]| |[] m' e']; try done. by apply fmul_nonneg.
Qed.

Lemma fdiv_pos_nonneg x y :
  nonneg x = true → positive_finite y = true → nonneg (fdiv x y) = true.
Proof.
  intros Hx Hy. destruct y as [|?| |[] m e]; try done.
  destruct x as [[]|[]| |[] m' e']; try done. by apply fdiv_nonneg.
Qed.

Lemma component_nonneg n rate :
  0 ≤ n → positive_finite rate = true → nonneg (fmul (fdiv (of_Z n) million) rate) = true.
Proof.
  intros Hn Hr. apply fmul_pos_nonneg; [|done]. apply fdiv_pos_nonneg; [by apply of_Z_nonneg|done].
Qed.

Definition price_ok (p : price) : bool := positive_finite (inPerM p) && positive_finite (outPerM p).

Lemma prices_ok : forallb (fun '(_, p) => price_ok p) (map_to_list pricingTable) = true.
Proof. vm_compute. reflexivity. Qed.

Definition rate_or_zero (x : float64) : bool := feq x fzero || positive_finite x.
Definition detailed_ok (d : detailedPrice) : bool :=
  price_ok (dp_price d) && rate_or_zero (cachedInPerM d) && rate_or_zero (reasoningOutPerM d).

Lemma detailed_prices_ok : forallb (fun '(_, d) => detailed_ok d) (map_to_list detailedPricingTable) = true.
Proof. vm_compute. reflexivity. Qed.

Lemma match_chain_table {A} (table : string → option A) alias model a :
  (∀ k b, alias k = Some b → ∃ k', table k' = Some b) →
  match_chain table alias model = Some a → ∃ k, table k = Some a.
Proof.
  intros Ha. unfold match_chain.
  destruct (String.eqb model ""); [discriminate|].
  destruct (table model) eqn:E1; [intros [= ->]; eauto|].
  destruct (Cut model "/") as [[name rest]|]; [|eauto].
  destruct (table rest) eqn:E2; [intros [= ->]; eauto|].
  destruct (alias rest) eqn:E3; [intros [= ->]; eauto|eauto].
Qed.

Lemma matchPrice_ok model p : matchPrice model = Some p → price_ok p = true.
Proof.
  intros H. apply match_chain_table in H as [k H].
  - apply elem_of_map_to_list, list_elem_of_In in H.
    exact (proj1 (forallb_forall _ _) prices_ok _ H).
  - intros k b Hk. unfold matchAlias in Hk. rewrite walk_alias_find in Hk by apply families_known.
    apply bind_Some in Hk as (a & _ & Hk). by exists a.2.
Qed.

Lemma matchDetailed_ok model d : matchDetailed model = Some d → detailed_ok d = true.
Proof.
  intros H. apply match_chain_table in H as [k H].
  - apply elem_of_map_to_list, list_elem_of_In in H.
    exact (proj1 (forallb_forall _ _) detailed_prices_ok _ H).
  - intros k b Hk. apply walk_detail_Some in Hk as (a & _ & _ & Hk). by exists a.2.
Qed.

Lemma either_Some {A} (f : string → option A) m1 m2 a :
  either f m1 m2 = Some a → f m1 = Some a ∨ f m2 = Some a.
Proof.
  unfold either. destruct (f m1); [auto|]. destruct (_ && _); [auto|discriminate].
Qed.

Lemma applyBasic_nonneg p i o : price_ok p = true → 0 ≤ i → 0 ≤ o → nonneg (applyBasic p i o) = true.
Proof.
  intros [H1 H2]%andb_prop Hi Ho. apply fadd_nonneg; by apply component_nonneg.
Qed.

(** The counts [applyDetailed] multiplies by the rates. *)
Lemma split_counts n k : 0 ≤ n ≤ int64_max →
  let part := if 0 <? k then if n <? k then n else k else 0 in
  0 ≤ part ≤ n ∧ wrap64 (n - part) = n - part.
Proof.
  intros Hn part. assert (0 ≤ part ≤ n).
  { unfold part. destruct (0 <? k) eqn:E1; [destruct (n <? k) eqn:E2|]; reflect_bools; lia. }
  split; [done|]. apply wrap64_id. unfold in_int64, int64_min, int64_max in *. lia.
Qed.

(** The share of cached and of reasoning tokens the formula uses: never
    negative and never more than the headline count. *)
Definition cached_share (u : Usage) : Z :=
  match PromptDetails u with
  | Some d => if 0 <? CachedTokens d
              then if PromptTokens u <? CachedTokens d then PromptTokens u else CachedTokens d
              else 0
  | None => 0
  end.
Definition reasoning_share (u : Usage) : Z :=
  match CompletionDetails u with
  | Some d => if 0 <? ReasoningTokens d
              then if CompletionTokens u <? ReasoningTokens d then CompletionTokens u else ReasoningTokens d
              else 0
  | None => 0
  end.

Lemma cached_share_range u : 0 ≤ PromptTokens u ≤ int64_max →
  0 ≤ cached_share u ≤ PromptTokens u ∧
  wrap64 (PromptTokens u - cached_share u) = PromptTokens u - cached_share u.
Proof.
  intros H. unfold cached_share. destruct (PromptDetails u) as [d|].
  - by apply (split_counts (PromptTokens u) (CachedTokens d)).
  - by apply (split_counts (PromptTokens u) 0).
Qed.

Lemma reasoning_share_range u : 0 ≤ CompletionTokens u ≤ int64_max →
  0 ≤ reasoning_share u ≤ CompletionTokens u ∧
  wrap64 (CompletionTokens u - reasoning_share u) = CompletionTokens u - reasoning_share u.
Proof.
  intros H. unfold reasoning_share. destruct (CompletionDetails u) as [d|].
  - by apply (split_counts (CompletionTokens u) (ReasoningTokens d)).
  - by apply (split_counts (CompletionTokens u) 0).
Qed.

Definition cached_rate (dp : detailedPrice) : float64 :=
  if feq (cachedInPerM dp) fzero then inPerM (dp_price dp) else cachedInPerM dp.
Definition reasoning_rate (dp : detailedPrice) : float64 :=
  if feq (reasoningOutPerM dp) fzero then outPerM (dp_price dp) else reasoningOutPerM dp.
Definition component (n : Z) (rate : float64) : float64 := fmul (fdiv (of_Z n) million) rate.

(** With counts in the range of a Go [int] the cost is the sum of the four
    components, each billed once. *)
Lemma applyDetailed_components dp u :
  0 ≤ PromptTokens u ≤ int64_max → 0 ≤ CompletionTokens u ≤ int64_max →
  applyDetailed dp (PromptTokens u) (CompletionTokens u) (Some u) =
  fadd (fadd (fadd (component (PromptTokens u - cached_share u) (inPerM (dp_price dp)))
                   (component (cached_share u) (cached_rate dp)))
             (component (CompletionTokens u - reasoning_share u) (outPerM (dp_price dp))))
       (component (reasoning_share u) (reasoning_rate dp)).
Proof.
  intros Hi Ho.
  destruct (cached_share_range u Hi) as [Hc Hcw], (reasoning_share_range u Ho) as [Hr Hrw].
  assert (Hsplit : match CompletionDetails u with
    | Some d => if 0 <? ReasoningTokens d
                then let r := if CompletionTokens u <? ReasoningTokens d then CompletionTokens u
                              else ReasoningTokens d in
                     (wrap64 (CompletionTokens u - r), r)
                else (CompletionTokens u, 0)
    | None => (CompletionTokens u, 0)
    end = (CompletionTokens u - reasoning_share u, reasoning_share u)).
  { revert Hrw. unfold reasoning_share. destruct (CompletionDetails u) as [d|];
      [destruct (0 <? ReasoningTokens d)|]; intros Hrw; cbv zeta; rewrite ?Hrw; f_equal; lia. }
  unfold applyDetailed, component, cached_rate, reasoning_rate.
  cbv beta iota zeta in Hsplit |- *. rewrite Hsplit. cbv beta iota. fold (cached_share u). rewrite Hcw.
  rewrite (proj2 (Z.ltb_ge (PromptTokens u - cached_share u) 0)) by lia.
  rewrite (proj2 (Z.ltb_ge (CompletionTokens u - reasoning_share u) 0)) by lia.
  reflexivity.
Qed.

Lemma rate_default x base :
  positive_finite base = true → rate_or_zero x = true →
  positive_finite (if feq x fzero then base else x) = true.
Proof. unfold rate_or_zero. by destruct (feq x fzero). Qed.

Lemma applyDetailed_nonneg dp u :
  detailed_ok dp = true → 0 ≤ PromptTokens u ≤ int64_max → 0 ≤ CompletionTokens u ≤ int64_max →
  nonneg (applyDetailed dp (PromptTokens u) (CompletionTokens u) (Some u)) = true.
Proof.
  intros Hok Hi Ho. rewrite applyDetailed_components by done.
  destruct (cached_share_range u Hi) as [Hc _], (reasoning_share_range u Ho) as [Hr _].
  apply andb_prop in Hok as [[[Hp1 Hp2]%andb_prop Hcr]%andb_prop Hrr].
  unfold component, cached_rate, reasoning_rate.
  repeat apply fadd_nonneg; apply component_nonneg; try lia; try done; by apply rate_default.
Qed.

(** * Claims *)

(** The alias walk is a longest-prefix match: for every model id the
    price it returns is that of a family whose alias is a prefix of the id and
    at least as long as every other alias that is, and it returns nothing only
    when no alias is a prefix of the id. *)
Theorem alias_longest_prefix (model : string) :
  match matchAlias model with
  | Some p => ∃ a, a ∈ familyAliases ∧ HasPrefix model a.1 = true ∧ pricingTable !! a.2 = Some p ∧
      ∀ b, b ∈ familyAliases → HasPrefix model b.1 = true →
           (String.length b.1 ≤ String.length a.1)%nat
  | None => ∀ b, b ∈ familyAliases → HasPrefix model b.1 = false
  end.
Proof.
  unfold matchAlias. rewrite walk_alias_find by apply families_known.
  destruct (find (matches model) familyAliases) as [a|] eqn:E; simpl.
  - destruct (find_first_longest _ _ _ aliases_narrower_first E) as (Hin & Hp & Hmax).
    pose proof (proj1 (forallb_forall _ _) families_known a (proj1 (list_elem_of_In _ _) Hin)) as Hk.
    apply bool_decide_eq_true in Hk as [p Hk]. rewrite Hk. eauto.
  - intros b Hb. apply list_elem_of_In in Hb. by apply (find_none _ _ E) in Hb.
Qed.

(** A model that is billed by components is billed at the same base rates
    as without them: when the detailed lookup finds an entry, the basic lookup
    finds the price that entry extends.  The ids excepted are those whose
    provider prefix itself begins like a detailed alias. *)
Theorem detailed_extends_basic (model : string) (dp : detailedPrice) :
  prefix_is_no_alias model → matchDetailed model = Some dp → matchPrice model = Some (dp_price dp).
Proof. apply matchDetailed_agrees. Qed.

(** A recorded cost is never negative and never NaN, for any model ids,
    any cost the provider reports (NaN included), any non-negative token counts
    and any token details, consistent with the counts or not. *)
Theorem cost_nonneg (reported : float64) (requestModel responseModel : string) (u : Usage) :
  0 ≤ PromptTokens u ≤ int64_max → 0 ≤ CompletionTokens u ≤ int64_max →
  nonneg (ResolveCostUSD reported requestModel responseModel (Some u)) = true.
Proof.
  intros Hi Ho. unfold ResolveCostUSD.
  destruct (fgt reported fzero) eqn:Eg; [by destruct reported as [?|[]| |[]]|].
  assert (Hbasic : nonneg (CostUSD requestModel responseModel (PromptTokens u) (CompletionTokens u)) = true).
  { unfold CostUSD, costForModel.
    destruct (either matchPrice requestModel responseModel) as [p|] eqn:E; [|done].
    apply applyBasic_nonneg; [|lia..].
    apply either_Some in E as [E|E]; by apply matchPrice_ok in E. }
  cbv zeta. destruct (_ && _); [|done].
  unfold costForModel. destruct (either matchDetailed requestModel responseModel) as [d|] eqn:E;
    [|exact Hbasic].
  apply applyDetailed_nonneg; [|done..].
  apply either_Some in E as [E|E]; by apply matchDetailed_ok in E.
Qed.

(** A call with token details on a model with a detailed entry is billed
    as the sum of four components whose counts add up to the headline counts:
    the cached and the reasoning share, capped at those counts, at their own
    rates and the rest at the base rates. *)
Theorem detailed_cost_components (reported : float64) (model : string) (dp : detailedPrice) (u : Usage) :
  fgt reported fzero = false →
  matchDetailed model = Some dp → model ≠ "" →
  Prompt_HasDetail (PromptDetails u) || Completion_HasDetail (CompletionDetails u) = true →
  0 ≤ PromptTokens u ≤ int64_max → 0 ≤ CompletionTokens u ≤ int64_max →
  0 ≤ cached_share u ≤ PromptTokens u ∧ 0 ≤ reasoning_share u ≤ CompletionTokens u ∧
  ResolveCostUSD reported model model (Some u) =
  fadd (fadd (fadd (component (PromptTokens u - cached_share u) (inPerM (dp_price dp)))
                   (component (cached_share u) (cached_rate dp)))
             (component (CompletionTokens u - reasoning_share u) (outPerM (dp_price dp))))
       (component (reasoning_share u) (reasoning_rate dp)).
Proof.
  intros Hr Hm Hne Hd Hi Ho. split_and!; try apply cached_share_range; try apply reasoning_share_range; try done.
  unfold ResolveCostUSD, lookupDetailedFamily, costForModel, either.
  rewrite Hr, Hm, Hd, (proj2 (String.eqb_neq model "") Hne). simpl.
  by apply applyDetailed_components.
Qed.

(** A failed catalog check never loses what is known: the reported drifts
    stay those of the last successful comparison; after a success they are
    exactly the table entries whose price differs beyond the tolerance from the
    catalog's, the spot-market ones left out. *)
Theorem pricing_check_keeps_drifts decode status_error size_error order
    (c : PricingChecker) (resp : catalog_response) (now : Time) :
  let c' := PricingRunOnce decode status_error size_error order c resp now in
  match fetchAndCompare decode status_error size_error order c resp with
  | Err e => Drifts (pc_snap c') = Drifts (pc_snap c) ∧ LastError (pc_snap c') = e
  | Ok drifts =>
      Drifts (pc_snap c') = drifts ∧ LastError (pc_snap c') = "" ∧
      ∃ status body raw, resp = Response status body ∧ decode body = Ok raw ∧
      ∀ d, d ∈ drifts ↔ ∃ p cp,
        (d_Model d, p) ∈ order ∧ HasPrefix (d_Model d) "grid/" = false ∧
        pickCatalogPrices raw !! d_Model d = Some cp ∧
        d = mkDrift (d_Model d) (inPerM p) (outPerM p)
              (fmul (InputCostPerToken cp) million) (fmul (OutputCostPerToken cp) million) ∧
        (priceDrifted (OursIn d) (CatalogIn d) = true ∨ priceDrifted (OursOut d) (CatalogOut d) = true)
  end.
Proof.
  intros c'. unfold c', PricingRunOnce.
  destruct (fetchAndCompare _ _ _ _ _ _) as [drifts|e] eqn:E; cbn [pc_snap Drifts LastError]; [|done].
  split_and!; [done..|].
  unfold fetchAndCompare, compareCatalogJSON in E.
  destruct resp as [e|status body]; [done|]. destruct (_ || _); [done|]. destruct (_ <? _); [done|].
  destruct (decode body) as [raw|e] eqn:Eb; [|done]. injection E as <-.
  exists status, body, raw. split_and!; [done..|]. intros d.
  unfold driftAgainstTable. rewrite list_elem_of_omap. unfold drift_of. split.
  - intros ([m p] & Hin & H). destruct (HasPrefix m "grid/") eqn:Eg; [done|].
    destruct (pickCatalogPrices raw !! m) as [cp|] eqn:Ec; [|done].
    destruct (_ && _) eqn:Ed; [done|]. injection H as <-. cbn [d_Model OursIn OursOut CatalogIn CatalogOut]. exists p, cp.
    split_and!; [assumption..|reflexivity|]. apply andb_false_iff in Ed. by rewrite !negb_false_iff in Ed.
  - intros (p & cp & Hin & Hg & Hc & Hd & Hdr). exists (d_Model d, p). split; [done|].
    rewrite Hg, Hc. rewrite Hd in Hdr |- *; cbn [d_Model OursIn OursOut CatalogIn CatalogOut] in *.
    destruct Hdr as [->| ->]; cbn [negb andb]; [done|]. by rewrite andb_false_r.
Qed.

(** ** Witnesses and boundary cases *)

(** A provider name that begins like a detailed alias is where the two lookups
    part: no registered provider is called that. *)
Lemma detailed_prefix_boundary :
  matchDetailed "o3/gpt-4o" = detailedPricingTable !! "o3" ∧
  matchPrice "o3/gpt-4o" = pricingTable !! "gpt-4o".
Proof. split; vm_compute; reflexivity. Qed.

(** Cached tokens are cheaper than the basic formula makes them: the component
    cost of a fully cached prompt is below [applyBasic]. *)
Lemma detailed_below_basic :
  flt (applyDetailed (mkDetailed (mkPrice (usd 100) (usd 500)) (usd 10) fzero) 1000 0
         (Some (mkUsage 1000 0 1000 fzero fzero (Some (mkPromptDetails 1000 0 0 0)) None)))
      (applyBasic (mkPrice (usd 100) (usd 500)) 1000 0) = true.
Proof. vm_compute. reflexivity. Qed.

Definition cached_usage : Usage :=
  mkUsage 1000 20 1020 fzero fzero (Some (mkPromptDetails 400 0 0 0)) None.

Definition haiku : detailedPrice := mkDetailed (mkPrice (usd 100) (usd 500)) (usd 10) fzero.

Lemma haiku_detailed : matchDetailed "claude-haiku-4-5" = Some haiku.
Proof. vm_compute. reflexivity. Qed.

Lemma detailed_extends_basic_witness : matchPrice "claude-haiku-4-5" = Some (dp_price haiku).
Proof.
  apply detailed_extends_basic; [left; reflexivity|exact haiku_detailed].
Defined.

Lemma cost_nonneg_witness :
  nonneg (ResolveCostUSD S754_nan "claude-haiku-4-5" "" (Some cached_usage)) = true.
Proof. apply cost_nonneg; vm_compute; split; discriminate. Defined.

Lemma detailed_cost_components_witness :
  cached_share cached_usage = 400 ∧
  ResolveCostUSD fzero "claude-haiku-4-5" "claude-haiku-4-5" (Some cached_usage) =
  fadd (fadd (fadd (component 600 (usd 100)) (component 400 (usd 10)))
             (component 20 (usd 500))) (component 0 (usd 500)).
Proof.
  split; [reflexivity|].
  refine (proj2 (proj2 (detailed_cost_components fzero "claude-haiku-4-5" haiku cached_usage
    eq_refl haiku_detailed _ eq_refl _ _))); [discriminate|vm_compute; split; discriminate..].
Defined.
