(* ===== verification/Credentials.v ===== *)
(** * Credentials: src/internal/gateway (credential_resolver.go, credential_ctx.go)

    Bring-your-own-key resolution with its cache.  The credential source (the
    control-plane store) is an interface of the Go code: what it answers to a
    call is an argument.  [Resolve] reads the clock twice, before the look-up
    and when it stores, so both readings are arguments.  The last section splits
    a call at its lock boundaries and interleaves calls. *)

From S2P Require Import Prelude GoString GoTime.
Local Open Scope string_scope.
Local Open Scope Z_scope.

Record ResolvedCredential := mkResolved {
  rc_Secret : string;
  rc_BaseURL : string;
  rc_Source : string;
  rc_ID : string
}.
Definition no_credential : ResolvedCredential := mkResolved "" "" "" "".

Inductive KeyMode := KeyModeShared | KeyModeBYOK | KeyModeStrictBYOK.

#[export] Instance KeyMode_eq_dec : EqDecision KeyMode.
Proof. solve_decision. Defined.

Definition ParseKeyMode (s : string) : KeyMode :=
  if String.eqb s "byok" then KeyModeBYOK
  else if String.eqb s "strict_byok" || String.eqb s "strict-byok" then KeyModeStrictBYOK
  else KeyModeShared.

Record cacheEntry := mkEntry {
  e_cred : ResolvedCredential;
  e_found : bool;
  e_expires : Time
}.

Record CredentialResolver := mkResolver {
  ttl : Duration;
  cache : gmap string cacheEntry
}.

Definition NewCredentialResolver (t : Duration) : CredentialResolver := mkResolver t ∅.

Definition NUL : ascii := ascii_of_nat 0.
Definition sep : string := String NUL "".

Definition cache_key (orgID userID provider : string) : string :=
  orgID +:+ sep +:+ userID +:+ sep +:+ provider.

(** A fresh entry of the cache. *)
Definition cached (cr : CredentialResolver) (key : string) (now : Time) : option cacheEntry :=
  if 0 <? ttl cr then
    match cache cr !! key with
    | Some e => if Before now (e_expires e) then Some e else None
    | None => None
    end
  else None.

Definition store (cr : CredentialResolver) (key : string) (cred : ResolvedCredential) (found : bool)
    (now : Time) : CredentialResolver :=
  if 0 <? ttl cr then mkResolver (ttl cr) (<[key := mkEntry cred found (Add now (ttl cr))]> (cache cr))
  else cr.

(** [Resolve] on a resolver with a source.  [answer] is what the source answers
    if it is asked; the third component tells whether it was. *)
Definition Resolve {E : Type} (cr : CredentialResolver) (orgID userID provider : string)
    (now now' : Time) (answer : res E (ResolvedCredential * bool)) :
    res E (ResolvedCredential * bool) * CredentialResolver * bool :=
  let key := cache_key orgID userID provider in
  match cached cr key now with
  | Some e => (Ok (e_cred e, e_found e), cr, false)
  | None =>
      match answer with
      | Err err => (Err err, cr, true)
      | Ok (cred, found) => (Ok (cred, found), store cr key cred found now', true)
      end
  end.

(** [Resolve] on a nil resolver or one without a source. *)
Definition Resolve_nil {E : Type} : res E (ResolvedCredential * bool) := Ok (no_credential, false).

Definition Invalidate (cr : CredentialResolver) : CredentialResolver := mkResolver (ttl cr) ∅.

(** ** credential_ctx.go *)

Record CallerCredential := mkCaller { cc_Secret : string; cc_BaseURL : string; cc_Source : string }.

(** The request context's slot for the credential. *)
Definition WithCallerCredential (ctx : option CallerCredential) (c : CallerCredential) :
    option CallerCredential := Some c.

Definition CallerCredentialFrom (ctx : option CallerCredential) : option CallerCredential :=
  match ctx with
  | Some c => if String.eqb (cc_Secret c) "" then None else Some c
  | None => None
  end.

(** * The cache in sequence

    A history of whole calls: each resolve carries the clock readings and the
    answer the source would give at that time. *)

Section Sequential.
Context {E : Type}.

Inductive cred_op :=
| OpResolve (orgID userID provider : string) (now now' : Time) (answer : res E (ResolvedCredential * bool))
| OpInvalidate.

(** What the source was asked since the last invalidation, latest first. *)
Record asked := mkAsked {
  a_org : string; a_user : string; a_provider : string;
  a_time : Time; a_cred : ResolvedCredential; a_found : bool
}.

Definition run_op (st : CredentialResolver * list asked) (o : cred_op) : CredentialResolver * list asked :=
  let '(cr, log) := st in
  match o with
  | OpInvalidate => (Invalidate cr, [])
  | OpResolve org user prov now now' answer =>
      let '(r, cr', was_asked) := Resolve cr org user prov now now' answer in
      (cr', match was_asked, r with
            | true, Ok (c, f) => mkAsked org user prov now' c f :: log
            | _, _ => log
            end)
  end.

Definition run (t : Duration) (ops : list cred_op) : CredentialResolver * list asked :=
  foldl run_op (NewCredentialResolver t, []) ops.

(** The ids the control plane hands out contain no NUL byte. *)
Definition plain (s : string) : Prop := ¬ byte_in NUL s.
Definition plain_op (o : cred_op) : Prop :=
  match o with
  | OpResolve org user prov _ _ _ => plain org ∧ plain user ∧ plain prov
  | OpInvalidate => True
  end.

(** Every cached entry was answered by the source for that very caller and
    provider since the last invalidation. *)
Definition cache_inv (st : CredentialResolver * list asked) : Prop :=
  let '(cr, log) := st in
  (∀ a, a ∈ log → plain (a_org a) ∧ plain (a_user a) ∧ plain (a_provider a)) ∧
  ∀ key e, cache cr !! key = Some e →
    ∃ a, a ∈ log ∧ key = cache_key (a_org a) (a_user a) (a_provider a) ∧
      e = mkEntry (a_cred a) (a_found a) (Add (a_time a) (ttl cr)).

Lemma cache_key_inj o u p o' u' p' :
  plain o → plain u → plain o' → plain u' →
  cache_key o u p = cache_key o' u' p' → o = o' ∧ u = u' ∧ p = p'.
Proof.
  unfold cache_key, sep. intros Ho Hu Ho' Hu' H.
  apply app_sep_inj in H as [-> H]; [|done..].
  by apply app_sep_inj in H as [-> ->].
Qed.

Lemma cache_inv_step st o : plain_op o → cache_inv st → cache_inv (run_op st o).
Proof.
  destruct st as [cr log]. intros Hp [Hlog Hinv].
  destruct o as [org user prov now now' answer|]; simpl.
  - unfold Resolve. destruct (cached cr (cache_key org user prov) now) as [e|]; [by split|].
    destruct answer as [[c f]|err]; [|by split]. split.
    + intros a Ha. apply elem_of_cons in Ha as [->|Ha]; [done|by apply Hlog].
    + intros key e. unfold store. destruct (0 <? ttl cr); simpl.
      * destruct (decide (key = cache_key org user prov)) as [->|Hne].
        -- rewrite lookup_insert_eq. intros [= <-]. eexists. split; [apply elem_of_cons; by left|done].
        -- rewrite lookup_insert_ne by done. intros H. destruct (Hinv _ _ H) as (a & Ha & ?).
           exists a. split; [apply elem_of_cons; by right|done].
      * intros H. destruct (Hinv _ _ H) as (a & Ha & ?). exists a.
        split; [apply elem_of_cons; by right|done].
  - split; [intros a Ha; by apply elem_of_nil in Ha|]. intros key e; cbn [cache Invalidate NewCredentialResolver]. by rewrite lookup_empty.
Qed.

Lemma cache_inv_run t ops : Forall plain_op ops → cache_inv (run t ops).
Proof.
  unfold run. assert (H0 : cache_inv (NewCredentialResolver t, [])).
  { split; [intros a Ha; by apply elem_of_nil in Ha|]. intros key e; cbn [cache Invalidate NewCredentialResolver]. by rewrite lookup_empty. }
  revert H0. generalize (NewCredentialResolver t, @nil asked).
  induction ops as [|o ops IH]; intros st H0 HF; simpl; [done|].
  apply Forall_cons in HF as [Ho HF]. apply IH; [by apply cache_inv_step|done].
Qed.

Lemma run_op_ttl st o : ttl (run_op st o).1 = ttl st.1.
Proof.
  destruct st as [cr log], o as [org user prov now now' answer|]; simpl; [|done].
  unfold Resolve. destruct (cached _ _ _); [done|]. destruct answer as [[c f]|]; [|done].
  unfold store. simpl. by destruct (0 <? ttl cr).
Qed.

Lemma run_ttl t ops : ttl (run t ops).1 = t.
Proof.
  unfold run. change t with (ttl (NewCredentialResolver t, @nil asked).1) at 2.
  generalize (NewCredentialResolver t, @nil asked).
  induction ops as [|o ops IH]; intros st; simpl; [done|]. by rewrite IH, run_op_ttl.
Qed.
End Sequential.
Arguments cred_op E : clear implicits.

(** * The cache under concurrency

    A call holds the lock for the look-up and, separately, for the store; the
    source is asked in between.  A step is one locked region or one answer of the
    source, whose contents may change at any time. *)

Record call := mkCall { k_org : string; k_user : string; k_provider : string }.

(** A call that has missed the cache, and one whose answer is not stored yet. *)
Inductive pending := Missed (c : call) | Answered (c : call) (cred : ResolvedCredential) (found : bool).

Record world := mkWorld {
  w_cr : CredentialResolver;
  w_src : call → ResolvedCredential * bool;
  w_pending : list pending;
  w_clock : Time
}.

Definition call_key (c : call) : string := cache_key (k_org c) (k_user c) (k_provider c).

Inductive action :=
| Served (c : call) (cred : ResolvedCredential) (found : bool)   (* a call returned from the cache *)
| Returned (c : call) (cred : ResolvedCredential) (found : bool) (* a call returned after storing *)
| Rotated | Invalidated | Internal.

Inductive step : world → action → world → Prop :=
| step_hit w c e :
    cached (w_cr w) (call_key c) (w_clock w) = Some e →
    step w (Served c (e_cred e) (e_found e)) w
| step_miss w c :
    cached (w_cr w) (call_key c) (w_clock w) = None →
    step w Internal (mkWorld (w_cr w) (w_src w) (Missed c :: w_pending w) (w_clock w))
| step_answer w l c l' :
    w_pending w = (l ++ Missed c :: l')%list →
    step w Internal (mkWorld (w_cr w) (w_src w)
      (l ++ Answered c (w_src w c).1 (w_src w c).2 :: l')%list (w_clock w))
| step_store w l c cred found l' :
    w_pending w = (l ++ Answered c cred found :: l')%list →
    step w (Returned c cred found)
      (mkWorld (store (w_cr w) (call_key c) cred found (w_clock w)) (w_src w) (l ++ l')%list (w_clock w))
| step_rotate w src' :
    step w Rotated (mkWorld (w_cr w) src' (w_pending w) (w_clock w))
| step_invalidate w :
    step w Invalidated (mkWorld (Invalidate (w_cr w)) (w_src w) (w_pending w) (w_clock w))
| step_tick w t :
    w_clock w ≤ t → step w Internal (mkWorld (w_cr w) (w_src w) (w_pending w) t).

Inductive steps : world → list action → world → Prop :=
| steps_nil w : steps w [] w
| steps_cons w a w' l w'' : step w a w' → steps w' l w'' → steps w (a :: l) w''.

(** * Claims *)

(** Over any history of whole calls and invalidations, what [Resolve]
    answers without an error is what the source answered for the same
    organisation, user and provider: just now, or at an earlier call since the
    last invalidation, stored less than the cache lifetime before.  A secret is
    never served to another caller or for another provider. *)
Theorem resolve_fresh {E : Type} (t : Duration) (ops : list (cred_op E)) (org user prov : string)
    (now now' : Time) (answer : res E (ResolvedCredential * bool)) (c : ResolvedCredential) (f : bool) :
  Forall plain_op ops → plain org → plain user → plain prov →
  let '(cr, log) := run t ops in
  fst (fst (Resolve cr org user prov now now' answer)) = Ok (c, f) →
  answer = Ok (c, f) ∨
  ∃ a, a ∈ log ∧ a_org a = org ∧ a_user a = user ∧ a_provider a = prov ∧
       a_cred a = c ∧ a_found a = f ∧ now < Add (a_time a) t.
Proof.
  intros HF Ho Hu Hp. pose proof (cache_inv_run t ops HF) as Hinv. pose proof (run_ttl t ops) as Ht.
  destruct (run t ops) as [cr log]; simpl in Ht. destruct Hinv as [Hlog Hinv].
  unfold Resolve, cached. intros H.
  destruct (0 <? ttl cr); [|left; by destruct answer as [[]|]].
  destruct (cache cr !! _) as [e|] eqn:Ec; [|left; by destruct answer as [[]|]].
  destruct (Before now (e_expires e)) eqn:Eb; [|left; by destruct answer as [[]|]].
  right. simplify_eq/=. destruct (Hinv _ _ Ec) as (a & Ha & Hk & ->). exists a.
  destruct (Hlog a Ha) as (H1 & H2 & H3).
  apply cache_key_inj in Hk as (-> & -> & ->); [|done..].
  split_and!; try done. unfold Before in Eb. reflect_bools. simpl in Eb. done.
Qed.

(** Invalidation does not take effect for a call in flight: there is a
    schedule in which a credential is rotated, the cache is invalidated after
    the rotation, and a later call is still served the old secret from the
    cache. *)
Theorem invalidate_misses_inflight (c : call) (old new : ResolvedCredential) (t : Duration) (now : Time) :
  0 < t → Before now (Add now t) = true →
  ∃ w, steps (mkWorld (NewCredentialResolver t) (fun _ => (old, true)) [] now)
             [Internal; Internal; Rotated; Invalidated; Returned c old true; Served c old true] w ∧
       w_src w c = (new, true).
Proof.
  intros Ht Hb. set (key := call_key c).
  set (cr := mkResolver t (<[key := mkEntry old true (Add now t)]> ∅)).
  exists (mkWorld cr (fun _ => (new, true)) [] now). split; [|done].
  assert (Hpos : (0 <? t) = true) by (by apply Z.ltb_lt).
  eapply steps_cons; [apply (step_miss _ c); unfold cached; cbn; by rewrite Hpos|].
  eapply steps_cons; [apply (step_answer _ [] c []); done|].
  eapply steps_cons; [apply (step_rotate _ (fun _ => (new, true)))|].
  eapply steps_cons; [apply step_invalidate|].
  eapply steps_cons; [apply (step_store _ [] c old true []); done|].
  cbn. unfold store, Invalidate. cbn. rewrite Hpos. fold key. fold cr.
  eapply steps_cons; [|apply steps_nil].
  apply (step_hit _ c (mkEntry old true (Add now t))).
  unfold cached. cbn. rewrite Hpos. fold key. rewrite lookup_insert_eq. cbn. by rewrite Hb.
Qed.

(** ** Witnesses *)

Definition alice_key : ResolvedCredential := mkResolved "sk-alice" "" "user" "c1".
Definition first_call : cred_op string :=
  OpResolve "acme" "alice" "openai" 1000 1001 (Ok (alice_key, true)).

Lemma resolve_fresh_witness :
  ∃ a, a ∈ snd (run Minute [first_call]) ∧ a_user a = "alice" ∧ a_cred a = alice_key.
Proof.
  pose proof (resolve_fresh (E := string) Minute [first_call] "acme" "alice" "openai" 2000 2001
    (Err "down") alice_key true) as H.
  assert (plain "acme" ∧ plain "alice" ∧ plain "openai") as (Ho & Hu & Hp)
    by (split_and!; intros Hin; vm_compute in Hin; intuition discriminate).
  assert (Forall plain_op [first_call]) as HF by (apply Forall_cons; split; [done|by apply Forall_nil]).
  specialize (H HF Ho Hu Hp). unfold run in *. cbn [foldl] in *.
  destruct (run_op (NewCredentialResolver Minute, []) first_call) as [cr log] eqn:E.
  destruct H as [H|(a & Ha & Hr)].
  - vm_compute in E. injection E as <- <-. vm_compute. reflexivity.
  - discriminate.
  - exists a. simpl. destruct Hr as (_ & ? & _ & ? & _). auto.
Defined.

Lemma invalidate_misses_inflight_witness :
  ∃ w, steps (mkWorld (NewCredentialResolver Minute) (fun _ => (alice_key, true)) [] 0)
    [Internal; Internal; Rotated; Invalidated;
     Returned (mkCall "acme" "alice" "openai") alice_key true;
     Served (mkCall "acme" "alice" "openai") alice_key true] w ∧
    w_src w (mkCall "acme" "alice" "openai") = (no_credential, true).
Proof. apply invalidate_misses_inflight; [reflexivity|vm_compute; reflexivity]. Defined.
