(* ===== verification/Guardrails.v ===== *)
(** * Guardrails: src/internal/guardrails (guardrails.go, schema.go)

    Inline checks of prompts and responses.  The built-in patterns are regular
    expressions of Go's regexp package, modelled by their syntax and the
    leftmost-first backtracking match the package implements; an operator's deny
    pattern is what [regexp.Compile] made of it, so it enters as its source text
    and its match function.  JSON decoding and the JSON Schema validator are
    parameters. *)

From S2P Require Import Prelude GoString.
Local Open Scope string_scope.
Local Open Scope Z_scope.

(** ** Regular expressions

    All classes are ASCII, so a byte at or above 128 matches none of them and is
    no word character: matching bytes is matching runes. *)

Inductive re :=
| Cls (f : ascii → bool)          (* one character of a class *)
| StarCls (f : ascii → bool)      (* greedy repetition of a class *)
| Seq (a b : re)
| Opt (a : re)                    (* greedy option *)
| WordB                           (* \b *)
| Eps.

Fixpoint times (n : nat) (a : re) : re :=
  match n with O => Eps | S n' => Seq a (times n' a) end.
(** [a{0,n}], the greedy nest of options Go compiles it to. *)
Fixpoint upto_times (n : nat) (a : re) : re :=
  match n with O => Eps | S n' => Opt (Seq a (upto_times n' a)) end.
Definition range (m n : nat) (a : re) : re := Seq (times m a) (upto_times (n - m) a).
Definition plus (f : ascii → bool) : re := Seq (Cls f) (StarCls f).
Definition seq_of (l : list re) : re := foldr Seq Eps l.

Definition between (lo hi : nat) (c : ascii) : bool :=
  (lo <=? nat_of_ascii c)%nat && (nat_of_ascii c <=? hi)%nat.
Definition digit (c : ascii) : bool := between 48 57 c.
Definition alpha (c : ascii) : bool := between 97 122 c || between 65 90 c.
Definition one_of (s : string) (c : ascii) : bool :=
  existsb (Ascii.eqb c) (String.list_ascii_of_string s).
Definition word (c : ascii) : bool := alpha c || digit c || Ascii.eqb c "_".
(** [\s]: tab, newline, form feed, carriage return, space. *)
Definition space (c : ascii) : bool :=
  existsb (fun n => (nat_of_ascii c =? n)%nat) [9; 10; 12; 13; 32]%nat.

Definition wordb (prev : option ascii) (s : string) : bool :=
  let next := match s with "" => None | String c _ => Some c end in
  xorb (match prev with Some c => word c | None => false end)
       (match next with Some c => word c | None => false end).

Fixpoint star_match {A} (f : ascii → bool) (prev : option ascii) (s : string)
    (k : option ascii → string → option A) {struct s} : option A :=
  match s with
  | "" => k prev ""
  | String c s' =>
      if f c then match star_match f (Some c) s' k with Some x => Some x | None => k prev s end
      else k prev s
  end.

(** The match at one position, trying the greedy choice first; [k] is the rest
    of the match. *)
Fixpoint match_here {A} (r : re) (prev : option ascii) (s : string)
    (k : option ascii → string → option A) : option A :=
  match r with
  | Cls f => match s with
             | "" => None
             | String c s' => if f c then k (Some c) s' else None
             end
  | StarCls f => star_match f prev s k
  | Seq a b => match_here a prev s (fun p s' => match_here b p s' k)
  | Opt a => match match_here a prev s k with Some x => Some x | None => k prev s end
  | WordB => if wordb prev s then k prev s else None
  | Eps => k prev s
  end.

(** The text left after the match at this position. *)
Definition match_rest (r : re) (prev : option ascii) (s : string) : option string :=
  match_here r prev s (fun _ s' => Some s').

Fixpoint search (r : re) (prev : option ascii) (s : string) : bool :=
  match match_rest r prev s with
  | Some _ => true
  | None => match s with "" => false | String c s' => search r (Some c) s' end
  end.

Definition MatchString (r : re) (s : string) : bool := search r None s.

(** [ReplaceAllString] for a pattern that matches no empty text and a template
    without [$]. *)
Fixpoint replace_matches (r : re) (mask : string) (prev : option ascii) (s : string) (skip : nat) : string :=
  match s with
  | "" => ""
  | String c s' =>
      match skip with
      | S n => replace_matches r mask (Some c) s' n
      | O => match match_rest r prev s with
             | Some rest =>
                 mask +:+ replace_matches r mask (Some c) s' (String.length s - String.length rest - 1)
             | None => String c (replace_matches r mask (Some c) s' 0)
             end
      end
  end.
Definition ReplaceAllString (r : re) (s mask : string) : string := replace_matches r mask None s 0.

(** ** The built-in patterns *)

Definition sep_ws (c : ascii) : bool := space c || one_of ".-" c.

Definition reEmail : re :=
  seq_of [plus (fun c => alpha c || digit c || one_of "._%+-" c); Cls (Ascii.eqb "@");
          plus (fun c => alpha c || digit c || one_of ".-" c); Cls (Ascii.eqb ".");
          times 2 (Cls alpha); StarCls alpha].

Definition rePhone : re :=
  seq_of [WordB;
          Opt (seq_of [Opt (Cls (Ascii.eqb "+")); range 1 3 (Cls digit); Opt (Cls sep_ws)]);
          Opt (Cls (Ascii.eqb "(")); times 3 (Cls digit); Opt (Cls (Ascii.eqb ")")); Opt (Cls sep_ws);
          times 3 (Cls digit); Opt (Cls sep_ws); times 4 (Cls digit); WordB].

Definition reSSN : re :=
  seq_of [WordB; times 3 (Cls digit); Cls (Ascii.eqb "-"); times 2 (Cls digit); Cls (Ascii.eqb "-");
          times 4 (Cls digit); WordB].

Definition reCard : re :=
  seq_of [WordB; range 13 16 (Seq (Cls digit) (Opt (Cls (one_of " -")))); WordB].

Definition redactionMask : string := "[REDACTED]".

(** ** guardrails.go *)

Record Config := mkConfig {
  Enabled : bool;
  BlockPIIInput : bool;
  RedactPIIOutput : bool;
  MaxInputChars : Z;
  DenyPatterns : list string;
  ValidateJSONOutput : bool
}.

Record Finding := mkFinding { Blocked : bool; Rule : string; Reason : string }.
Definition allow : Finding := mkFinding false "" "".

(** A compiled deny pattern: [re.String()] and [re.MatchString]. *)
Record compiled := mkCompiled { re_String : string; re_Match : string → bool }.

Record Guard := mkGuard { cfg : Config; denyCompiled : list compiled }.

Definition New (compile : string → option compiled) (c : Config) : option Guard :=
  if negb (Enabled c) then None
  else Some (mkGuard c (omap (fun p =>
         let p := TrimSpace p in if String.eqb p "" then None else compile p) (DenyPatterns c))).

Definition Active (g : option Guard) : bool :=
  match g with
  | None => false
  | Some g => BlockPIIInput (cfg g) || RedactPIIOutput (cfg g) || (0 <? MaxInputChars (cfg g)) ||
              (0 <? Z.of_nat (length (denyCompiled g))) || ValidateJSONOutput (cfg g)
  end.

Definition piiHits (text : string) : list string :=
  ((if MatchString reEmail text then ["email"] else []) ++
   (if MatchString reSSN text then ["ssn"] else []) ++
   (if MatchString rePhone text then ["phone"] else []) ++
   (if MatchString reCard text then ["card"] else []))%list.

Definition CheckInput (g : option Guard) (prompt : string) : Finding :=
  match g with
  | None => allow
  | Some g =>
      if (0 <? MaxInputChars (cfg g)) && (MaxInputChars (cfg g) <? Z.of_nat (String.length prompt)) then
        mkFinding true "max_input_chars" "request prompt exceeds the configured maximum length"
      else
        let hits := if BlockPIIInput (cfg g) then piiHits prompt else [] in
        match hits with
        | _ :: _ => mkFinding true "pii_input"
                      ("request prompt contains disallowed PII: " +:+ Join hits ", ")
        | [] =>
            match find (fun d => re_Match d prompt) (denyCompiled g) with
            | Some d => mkFinding true "deny_pattern"
                          ("request prompt matches a blocked pattern: " +:+ re_String d)
            | None => allow
            end
        end
  end.

Definition RedactOutput (g : option Guard) (text : string) : string * bool :=
  match g with
  | None => (text, false)
  | Some g =>
      if negb (RedactPIIOutput (cfg g)) || String.eqb text "" then (text, false)
      else
        let redacted := foldl (fun t r => ReplaceAllString r t redactionMask) text
                          [reEmail; reSSN; rePhone; reCard] in
        (redacted, negb (String.eqb redacted text))
  end.

(** ** schema.go *)

Definition summarizeSchemaErr (msg : string) : string :=
  if (300 <? Z.of_nat (String.length msg)) then take_bytes 300 msg +:+ "..." else msg.

Section JSON.
(** [json.Unmarshal] into an interface, and the schema library: compiling a
    schema and validating a document, each with its error text. *)
Context {doc schema : Type} (unmarshal : string → res string doc)
        (compileSchema : string → option schema) (validate : schema → doc → option string).

(** [None] is a nil or empty schema. *)
Definition CheckJSONOutput (g : option Guard) (output schema_bytes : string) : Finding :=
  match g with
  | None => allow
  | Some g =>
      if negb (ValidateJSONOutput (cfg g)) then allow
      else if String.eqb output "" then
        mkFinding true "json_output" "response is empty but a JSON response_format was requested"
      else match unmarshal output with
           | Err e => mkFinding true "json_output" ("response is not valid JSON: " +:+ e)
           | Ok d =>
               if String.eqb schema_bytes "" then allow
               else match compileSchema schema_bytes with
                    | None => allow
                    | Some sch =>
                        match validate sch d with
                        | Some e => mkFinding true "json_schema"
                            ("response does not conform to the requested JSON schema: " +:+
                             summarizeSchemaErr e)
                        | None => allow
                        end
                    end
           end
  end.
End JSON.

Definition fence : string := "```".
Definition newline : ascii := ascii_of_nat 10.
Definition dquote : ascii := ascii_of_nat 34.
Definition backslash : ascii := ascii_of_nat 92.

Definition stripCodeFence (s : string) : string :=
  if negb (HasPrefix s fence) then s
  else match IndexByte s newline with
       | None => s
       | Some nl =>
           let s := drop_bytes (nl + 1) s in
           let s := match LastIndex s fence with Some idx => take_bytes idx s | None => s end in
           TrimSpace s
       end.

(** The first loop of [extractBracketed]: the text from the first bracket on,
    with that bracket and its closing one. *)
Fixpoint find_open (s : string) : option (ascii * ascii * string) :=
  match s with
  | "" => None
  | String c s' =>
      if Ascii.eqb c "{" then Some ("{"%char, "}"%char, s)
      else if Ascii.eqb c "[" then Some ("["%char, "]"%char, s)
      else find_open s'
  end.

(** The second loop: the text up to the bracket that closes [depth] levels. *)
Fixpoint close_from (open close : ascii) (depth : Z) (inStr esc : bool) (s : string) : option string :=
  match s with
  | "" => None
  | String c s' =>
      let go depth inStr esc := String c <$> close_from open close depth inStr esc s' in
      if inStr then
        if esc then go depth true false
        else if Ascii.eqb c backslash then go depth true true
        else if Ascii.eqb c dquote then go depth false false
        else go depth true false
      else if Ascii.eqb c dquote then go depth true esc
      else if Ascii.eqb c open then go (depth + 1) false esc
      else if Ascii.eqb c close then
        if depth - 1 =? 0 then Some (String c "") else go (depth - 1) false esc
      else go depth false esc
  end.

Definition extractBracketed (s : string) : option string :=
  match find_open s with
  | None => None
  | Some (open, close, t) => close_from open close 0 false false t
  end.

Definition RepairJSON (s : string) : string * bool :=
  let trimmed := TrimSpace s in
  let candidate := stripCodeFence trimmed in
  let candidate := match extractBracketed candidate with Some ext => ext | None => candidate end in
  let candidate := TrimSpace candidate in
  if String.eqb candidate "" || String.eqb candidate trimmed then (s, false) else (candidate, true).

(** * Theorems *)

(** ** Input checks *)

Lemma find_existsb {A} (f : A → bool) l :
  existsb f l = match find f l with Some _ => true | None => false end.
Proof. induction l as [|x l IH]; simpl; [done|]. by destruct (f x). Qed.

(** ** Bracket extraction *)

Fixpoint no_bracket (s : string) : bool :=
  match s with
  | "" => true
  | String c s' => negb (Ascii.eqb c "{") && negb (Ascii.eqb c "[") && no_bracket s'
  end.

Lemma find_open_spec s open close t :
  find_open s = Some (open, close, t) →
  ∃ pre c t', s = pre +:+ t ∧ no_bracket pre = true ∧ t = String c t' ∧ c = open.
Proof.
  induction s as [|c s IH]; cbn [find_open]; [done|].
  destruct (Ascii.eqb c "{") eqn:E1.
  { intros [= <- <- <-]. apply Ascii.eqb_eq in E1 as ->. by exists "", "{"%char, s. }
  destruct (Ascii.eqb c "[") eqn:E2.
  { intros [= <- <- <-]. apply Ascii.eqb_eq in E2 as ->. by exists "", "["%char, s. }
  intros H. destruct (IH H) as (pre & c' & t' & -> & Hn & -> & ->).
  exists (String c pre), open, t'. split_and!; try done. cbn [no_bracket]. by rewrite E1, E2.
Qed.

Lemma find_open_app pre s :
  no_bracket pre = true → find_open (pre +:+ s) = find_open s.
Proof.
  induction pre as [|c pre IH]; [done|].
  change (String c pre +:+ s) with (String c (pre +:+ s)). cbn [no_bracket find_open]. intros H.
  apply andb_prop in H as [[H1%negb_true_iff H2%negb_true_iff]%andb_prop H3].
  rewrite H1, H2. by apply IH.
Qed.

(** The scan stops inside the text it was given: what it returns is a prefix,
    and scanning that prefix alone gives it back, whatever follows. *)
Lemma close_from_prefix open close depth inStr esc s t :
  close_from open close depth inStr esc s = Some t →
  ∃ post, s = t +:+ post ∧
    ∀ post', close_from open close depth inStr esc (t +:+ post') = Some t.
Proof.
  revert depth inStr esc t. induction s as [|c s IH]; intros depth inStr esc t; cbn [close_from]; [done|].
  assert (Hgo : ∀ depth' inStr' esc',
    String c <$> close_from open close depth' inStr' esc' s = Some t →
    (∀ u, close_from open close depth inStr esc (String c u) =
          String c <$> close_from open close depth' inStr' esc' u) →
    ∃ post, String c s = t +:+ post ∧
      ∀ post', close_from open close depth inStr esc (t +:+ post') = Some t).
  { intros d' i' e' H Hstep. apply fmap_Some in H as (t0 & Ht0 & ->).
    destruct (IH _ _ _ _ Ht0) as (post & -> & Hpost). exists post. split; [done|]. intros post'.
    change (String c t0 +:+ post') with (String c (t0 +:+ post')). by rewrite Hstep, Hpost. }
  destruct inStr.
  - destruct esc; [intros H; by apply (Hgo _ _ _ H)|].
    destruct (Ascii.eqb c backslash) eqn:E1.
    { intros H. apply (Hgo _ _ _ H). intros u. cbn [close_from]. by rewrite E1. }
    destruct (Ascii.eqb c dquote) eqn:E2; intros H; apply (Hgo _ _ _ H); intros u; cbn [close_from];
      by rewrite E1, E2.
  - destruct (Ascii.eqb c dquote) eqn:E1.
    { intros H. apply (Hgo _ _ _ H). intros u. cbn [close_from]. by rewrite E1. }
    destruct (Ascii.eqb c open) eqn:E2.
    { intros H. apply (Hgo _ _ _ H). intros u. cbn [close_from]. by rewrite E1, E2. }
    destruct (Ascii.eqb c close) eqn:E3.
    2:{ intros H. apply (Hgo _ _ _ H). intros u. cbn [close_from]. by rewrite E1, E2, E3. }
    destruct (depth - 1 =? 0) eqn:E4.
    2:{ intros H. apply (Hgo _ _ _ H). intros u. cbn [close_from]. by rewrite E1, E2, E3, E4. }
    intros [= <-]. exists s. split; [done|]. intros post'.
    change (String c "" +:+ post') with (String c post'). cbn [close_from]. by rewrite E1, E2, E3, E4.
Qed.

Lemma find_open_head c t open close :
  find_open (String c t) = Some (open, close, String c t) →
  ∀ t', find_open (String c t') = Some (open, close, String c t').
Proof.
  cbn [find_open]. destruct (Ascii.eqb c "{"); [by intros [= <- <-]|].
  destruct (Ascii.eqb c "["); [by intros [= <- <-]|].
  intros H. exfalso. destruct (find_open_spec _ _ _ _ H) as (pre & c' & t1 & Hs & _).
  assert (Hl : String.length t = String.length (pre +:+ String c t)) by (by rewrite Hs at 1).
  rewrite length_app_string in Hl. simpl in Hl. lia.
Qed.

Lemma find_open_at s open close t :
  find_open s = Some (open, close, t) → find_open t = Some (open, close, t).
Proof.
  induction s as [|c s IH]; cbn [find_open]; [done|].
  destruct (Ascii.eqb c "{") eqn:E1.
  { intros [= <- <- <-]. cbn [find_open]. by rewrite E1. }
  destruct (Ascii.eqb c "[") eqn:E2.
  { intros [= <- <- <-]. cbn [find_open]. by rewrite E1, E2. }
  exact IH.
Qed.

Lemma extract_parts s t :
  extractBracketed s = Some t →
  ∃ pre post, s = pre +:+ t +:+ post ∧ no_bracket pre = true ∧ extractBracketed t = Some t ∧ t ≠ "".
Proof.
  unfold extractBracketed. destruct (find_open s) as [[[open close] u]|] eqn:Ef; [|done].
  pose proof (find_open_at _ _ _ _ Ef) as Eu.
  destruct (find_open_spec _ _ _ _ Ef) as (pre & c & u' & -> & Hn & -> & ->).
  intros H. destruct (close_from_prefix _ _ _ _ _ _ _ H) as (post & Hu & Hpost).
  assert (∃ t', t = String open t') as [t' ->].
  { destruct t as [|c t]; [|injection Hu as <- _; eauto].
    specialize (Hpost ""). discriminate Hpost. }
  exists pre, post. split_and!; [by rewrite Hu|done| |done].
  rewrite (find_open_head _ _ _ _ Eu t'). specialize (Hpost ""). by rewrite app_nil_r_string in Hpost.
Qed.

Lemma extract_wrapped pre t post :
  no_bracket pre = true → extractBracketed t = Some t → extractBracketed (pre +:+ t +:+ post) = Some t.
Proof.
  intros Hn H. unfold extractBracketed. rewrite find_open_app by done. revert H. unfold extractBracketed.
  destruct (find_open t) as [[[open close] u]|] eqn:Ef; [|done].
  pose proof (find_open_at _ _ _ _ Ef) as Eu.
  destruct (find_open_spec _ _ _ _ Ef) as (p & c & u' & -> & Hp & -> & ->). intros H.
  destruct (close_from_prefix _ _ _ _ _ _ _ H) as (post' & Hu & Hpost).
  assert (p = "") as ->.
  { destruct p as [|d p]; [done|]. exfalso.
    assert (Hl : String.length (String open u') =
                 String.length ((String d p +:+ String open u') +:+ post')) by (by rewrite Hu at 1).
    rewrite !length_app_string in Hl. simpl in Hl. lia. }
  change ("" +:+ String open u') with (String open u') in *.
  change (String open u' +:+ post) with (String open (u' +:+ post)).
  rewrite (find_open_head _ _ _ _ Eu (u' +:+ post)). apply Hpost.
Qed.

(** ** Redaction *)

Lemma search_none r prev s :
  search r prev s = false → ∀ mask, replace_matches r mask prev s 0 = s.
Proof.
  revert prev. induction s as [|c s IH]; intros prev H mask; [done|].
  cbn [search] in H. cbn [replace_matches]. destruct (match_rest r prev (String c s)); [done|].
  f_equal. by apply IH.
Qed.

(** * Claims *)

(** A prompt is blocked exactly when it is longer than a positive maximum, or
    blocking of personal data is on and one of the built-in patterns matches,
    or a compiled deny pattern matches; length is reported before personal
    data, and personal data before a deny pattern.  No guard blocks nothing. *)
Theorem check_input_iff (g : Guard) (prompt : string) :
  let long := (0 <? MaxInputChars (cfg g)) && (MaxInputChars (cfg g) <? Z.of_nat (String.length prompt)) in
  let pii := BlockPIIInput (cfg g) &&
             (MatchString reEmail prompt || MatchString reSSN prompt ||
              MatchString rePhone prompt || MatchString reCard prompt) in
  let denied := existsb (fun d => re_Match d prompt) (denyCompiled g) in
  Blocked (CheckInput (Some g) prompt) = long || pii || denied ∧
  Rule (CheckInput (Some g) prompt) =
    (if long then "max_input_chars" else if pii then "pii_input"
     else if denied then "deny_pattern" else "") ∧
  Blocked (CheckInput None prompt) = false.
Proof.
  intros long pii denied. unfold CheckInput. fold long.
  destruct long; [done|]. rewrite orb_false_l. unfold denied. rewrite find_existsb.
  unfold pii, piiHits. destruct (BlockPIIInput (cfg g)); cbn [andb].
  - destruct (MatchString reEmail prompt); [done|]. destruct (MatchString reSSN prompt); [done|].
    destruct (MatchString rePhone prompt); [done|]. destruct (MatchString reCard prompt); [done|].
    cbn [orb app]. by destruct (find _ _).
  - by destruct (find _ _).
Qed.

(** [extractBracketed] returns the first bracketed value and nothing else: the
    text it returns is cut out of the input after a part without brackets and
    is its own extraction, and any text of that form surrounded by such a part
    and by anything at all is found again unchanged. *)
Theorem extract_bracketed_exact (s t : string) :
  extractBracketed s = Some t ↔
  t ≠ "" ∧ extractBracketed t = Some t ∧ ∃ pre post, s = pre +:+ t +:+ post ∧ no_bracket pre = true.
Proof.
  split.
  - intros H. destruct (extract_parts s t H) as (pre & post & Hs & Hn & Ht & Hne). eauto 6.
  - intros (_ & Ht & pre & post & -> & Hn). by apply extract_wrapped.
Qed.

(** A JSON value the model wrapped in prose or in a code fence is recovered: when
    the trimmed response without its fence is a bracketed value between a part
    without brackets and any rest, [RepairJSON] returns exactly that value,
    unless it is the whole response already. *)
Theorem repair_recovers_value (s pre t post : string) :
  stripCodeFence (TrimSpace s) = pre +:+ t +:+ post → no_bracket pre = true →
  extractBracketed t = Some t → TrimSpace t = t → t ≠ "" → t ≠ TrimSpace s →
  RepairJSON s = (t, true).
Proof.
  intros Hs Hn Ht Htr Hne Hneq. unfold RepairJSON.
  rewrite Hs, (extract_wrapped pre t post Hn Ht), Htr.
  by rewrite (proj2 (String.eqb_neq _ _) Hne), (proj2 (String.eqb_neq _ _) Hneq).
Qed.

(** Redaction touches only personal data: a response in which no built-in
    pattern matches is returned as it is and not reported as redacted. *)
Theorem redact_clean_noop (g : option Guard) (text : string) :
  piiHits text = [] → RedactOutput g text = (text, false).
Proof.
  unfold piiHits, RedactOutput, MatchString. intros H.
  destruct (search reEmail None text) eqn:E1; [done|].
  destruct (search reSSN None text) eqn:E2; [done|].
  destruct (search rePhone None text) eqn:E3; [done|].
  destruct (search reCard None text) eqn:E4; [done|].
  destruct g as [g|]; [|done]. destruct (_ || _); [done|].
  cbn [foldl]. unfold ReplaceAllString. rewrite (search_none _ _ _ E1), (search_none _ _ _ E2), (search_none _ _ _ E3), (search_none _ _ _ E4).
  by rewrite String.eqb_refl.
Qed.

(** ** Witnesses *)

Definition strict_cfg : Config := mkConfig true true true 0 [] true.
Definition strict_guard : Guard := mkGuard strict_cfg [].

Lemma redaction_examples :
  RedactOutput (Some strict_guard) "mail bob@example.com or 555-123-4567" =
    ("mail [REDACTED] or [REDACTED]", true) ∧
  piiHits "ssn 123-45-6789 card 4111 1111 1111 1111" = ["ssn"; "card"].
Proof. split; vm_compute; reflexivity. Qed.

Definition prose : string := "Sure: [1, 2] ok".

Lemma repair_recovers_value_witness : RepairJSON prose = ("[1, 2]", true).
Proof.
  apply (repair_recovers_value prose "Sure: " "[1, 2]" " ok");
    [vm_compute; reflexivity|reflexivity|vm_compute; reflexivity|vm_compute; reflexivity
    |discriminate|vm_compute; discriminate].
Defined.

Lemma redact_clean_noop_witness : RedactOutput (Some strict_guard) "hello" = ("hello", false).
Proof. apply redact_clean_noop. vm_compute. reflexivity. Defined.
