(* ===== verification/SemCache.v ===== *)
(** * SemCache: src/internal/semcache (cache.go, embed.go)

    The semantic response cache: keys, exact and nearest-neighbour look-up, the
    in-process and the Redis store, and the service in front of them.  What a
    store promises its clients is the class [TenantCache]; the service is proved
    against it and both stores are instances, faults of the connection included.  SHA-256, the embeddings endpoint
    and the JSON codec of the Redis entries are parameters.  An embedding is a
    list of [float64], which holds every [float32] exactly. *)

From S2P Require Import Prelude GoString Float64 GoTime.
Local Open Scope string_scope.
Local Open Scope Z_scope.

(** ** embed.go *)

Record Config := mkConfig {
  Enabled : bool;
  TTL : Duration;
  Threshold : float64;
  MaxEntriesPerModel : Z;
  Timeout : Duration;
  ExactMatch : bool
}.

Definition cosineSimilarity (a b : list float64) : float64 :=
  match a with
  | [] => fzero
  | _ =>
      if negb (length a =? length b)%nat then fzero
      else
        let '(dot, na, nb) :=
          foldl (fun '(dot, na, nb) '(x, y) =>
            (fadd dot (fmul x y), fadd na (fmul x x), fadd nb (fmul y y)))
            (fzero, fzero, fzero) (zip a b) in
        if feq na fzero || feq nb fzero then fzero
        else fdiv dot (fmul (fsqrt na) (fsqrt nb))
  end.

Definition truncate (s : string) (n : nat) : string :=
  if (String.length s <=? n)%nat then s else take_bytes n s +:+ "...".

(** ** cache.go *)

(** A byte slice is [None] when nil. *)
Record Hit := mkHit { ResponseJSON : option string; Similarity : float64 }.

Record storedEntry := mkEntry {
  Embedding : list float64;
  Response : option string;
  ExpiresAt : Z;
  PromptHash : string
}.

Definition redisKey (scope model : string) : string :=
  "nexus:sem:" +:+ Itoa (String.length scope) +:+ ":" +:+ scope +:+ ":" +:+ model.

Definition effectiveConfig (cfg : Config) : Config :=
  mkConfig (Enabled cfg)
    (if TTL cfg <=? 0 then 24 * Hour else TTL cfg)
    (if fle (Threshold cfg) fzero then lit 92 100 else Threshold cfg)
    (if MaxEntriesPerModel cfg <=? 0 then 500 else MaxEntriesPerModel cfg)
    (if Timeout cfg <=? 0 then 5 * Second else Timeout cfg)
    (ExactMatch cfg).

#[export] Instance storedEntry_eq_dec : EqDecision storedEntry.
Proof. solve_decision. Defined.

Definition expired (e : storedEntry) (now : Z) : bool := (0 <? ExpiresAt e) && (ExpiresAt e <? now).

Fixpoint find_exact (hash : string) (entries : list storedEntry) (now : Z) : option Hit :=
  match entries with
  | [] => None
  | e :: entries' =>
      if expired e now then find_exact hash entries' now
      else if negb (String.eqb (PromptHash e) "") && String.eqb (PromptHash e) hash
      then Some (mkHit (Response e) fone)
      else find_exact hash entries' now
  end.

Definition findExact (hash : string) (entries : list storedEntry) (now : Z) : option Hit :=
  if String.eqb hash "" then None else find_exact hash entries now.

(** The loop of [findBest]: best similarity so far and its response. *)
Definition best_step (vec : list float64) (threshold : float64) (now : Z)
    (best : float64 * option string) (e : storedEntry) : float64 * option string :=
  if expired e now then best
  else
    let sim := cosineSimilarity vec (Embedding e) in
    if fge sim threshold && fgt sim (fst best) then (sim, Response e) else best.

Definition findBest (vec : list float64) (entries : list storedEntry) (threshold : float64) (now : Z) :
    option Hit :=
  let '(bestSim, bestResp) := foldl (best_step vec threshold now) (fzero, None) entries in
  match bestResp with
  | None => None
  | Some _ => Some (mkHit bestResp bestSim)
  end.

(** The look-up both stores share, on the entries of the key. *)
Definition lookup_entries (hash : string → string) (cfg : Config) (prompt : string) (vec : list float64)
    (entries : list storedEntry) (now : Z) : option Hit :=
  match (if ExactMatch cfg then findExact (hash prompt) entries now else None) with
  | Some h => Some h
  | None =>
      if ExactMatch cfg && (length vec =? 0)%nat then None
      else findBest vec entries (Threshold cfg) now
  end.

Definition new_entry (hash : string → string) (cfg : Config) (prompt : string) (vec : list float64)
    (resp : option string) (now : Time) : storedEntry :=
  mkEntry vec resp (Unix (Add now (TTL cfg))) (hash prompt).

(** *** The in-process store *)

Record Memory := mkMemory { m_cfg : Config; m_data : gmap string (list storedEntry) }.

Definition NewMemory (cfg : Config) : Memory := mkMemory (effectiveConfig cfg) ∅.

Definition entries_of (m : Memory) (key : string) : list storedEntry := default [] (m_data m !! key).

Definition Memory_Lookup (hash : string → string) (m : Memory) (scope model prompt : string)
    (vec : list float64) (now : Time) : option Hit :=
  lookup_entries hash (m_cfg m) prompt vec (entries_of m (redisKey scope model)) (Unix now).

(** [append([]byte(nil), b...)]: a copy of no bytes is nil. *)
Definition copy_bytes (b : option string) : option string :=
  match b with Some "" | None => None | Some s => Some s end.

Definition Memory_Store (hash : string → string) (m : Memory) (scope model prompt : string)
    (vec : list float64) (resp : option string) (now : Time) : Memory :=
  let key := redisKey scope model in
  let l := new_entry hash (m_cfg m) prompt vec (copy_bytes resp) now :: entries_of m key in
  let l := if MaxEntriesPerModel (m_cfg m) <? Z.of_nat (length l)
           then take (Z.to_nat (MaxEntriesPerModel (m_cfg m))) l else l in
  mkMemory (m_cfg m) (<[key := l]> (m_data m)).

Definition Memory_UpdateConfig (m : Memory) (cfg : Config) : Memory :=
  mkMemory (effectiveConfig cfg) (m_data m).

(** *** The Redis store

    A Redis list per key; [LPush] puts an element in front, [LTrim 0 n] and
    [LRange 0 n] keep the first [n + 1]. *)

Record Redis := mkRedis { r_cfg : Config; r_lists : gmap string (list string) }.

Section RedisStore.
Context (hash : string → string)
        (marshal : storedEntry → option string) (unmarshal : string → option storedEntry).

Definition upto (cfg : Config) : nat := Z.to_nat (MaxEntriesPerModel cfg).

(** [lrange_err] is the error of [LRange], if any. *)
Definition Redis_Lookup (c : Redis) (scope model prompt : string) (vec : list float64) (now : Time)
    (lrange_err : option string) : res string (option Hit) :=
  match lrange_err with
  | Some e => Err e
  | None =>
      let raws := take (upto (r_cfg c)) (default [] (r_lists c !! redisKey scope model)) in
      Ok (lookup_entries hash (r_cfg c) prompt vec (omap unmarshal raws) (Unix now))
  end.

(** [exec_err] is the error of the pipeline, if any, and whether the server ran it
    nevertheless. *)
Definition Redis_Store (c : Redis) (scope model prompt : string) (vec : list float64)
    (resp : option string) (now : Time) (exec_err : option (string * bool)) : Redis * option string :=
  match marshal (new_entry hash (r_cfg c) prompt vec resp now) with
  | None => (c, Some "json: unsupported value")
  | Some raw =>
      let key := redisKey scope model in
      let c' := mkRedis (r_cfg c)
                  (<[key := take (upto (r_cfg c)) (raw :: default [] (r_lists c !! key))]> (r_lists c)) in
      match exec_err with
      | None => (c', None)
      | Some (e, ran) => (if ran then c' else c, Some e)
      end
  end.

Definition Redis_UpdateConfig (c : Redis) (cfg : Config) : Redis := mkRedis (effectiveConfig cfg) (r_lists c).
End RedisStore.

(** ** What a store promises

    [s_*] describe one completed [Store]; [tc_holds st log] says that the store
    holds nothing but entries of the logged calls. *)

Record stored := mkStored {
  s_scope : string;
  s_model : string;
  s_hash : string;
  s_vec : list float64;
  s_resp : option string;
  s_expires : Z
}.

Definition entry_of (l : stored) : storedEntry := mkEntry (s_vec l) (s_resp l) (s_expires l) (s_hash l).

(** Why a logged call may answer a look-up: the same tenant and model, not
    expired, and the same prompt hash or a similarity of at least the
    threshold. *)
Definition answers (hash : string → string) (cfg : Config) (l : stored) (scope model prompt : string)
    (vec : list float64) (now : Time) (h : Hit) : Prop :=
  s_scope l = scope ∧ s_model l = model ∧ expired (entry_of l) (Unix now) = false ∧
  s_resp l = ResponseJSON h ∧
  ((ExactMatch cfg = true ∧ s_hash l = hash prompt ∧ Similarity h = fone) ∨
   (Similarity h = cosineSimilarity vec (s_vec l) ∧ fge (Similarity h) (Threshold cfg) = true)).

(** The text of a byte slice. *)
Definition text_of (b : option string) : string := default "" b.

(** The [Cache] interface with [UpdateConfig], which both implementations have; the
    last arguments of a look-up and of a store are the faults of the connection. *)
Class TenantCache (hash : string → string) (S : Type) := {
  tc_cfg : S → Config;
  tc_lookup : S → string → string → string → list float64 → Time → option string → res string (option Hit);
  tc_store : S → string → string → string → list float64 → option string → Time →
    option (string * bool) → S * option string;
  tc_update : S → Config → S;
  tc_holds : S → list stored → Prop;
  tc_store_holds : ∀ s scope model prompt vec resp now fault log,
    tc_holds s log →
    let s' := (tc_store s scope model prompt vec resp now fault).1 in
    tc_holds s' log ∨
    ∃ resp', text_of resp' = text_of resp ∧
      tc_holds s' (mkStored scope model (hash prompt) vec resp' (Unix (Add now (TTL (tc_cfg s)))) :: log);
  tc_update_holds : ∀ s cfg log, tc_holds s log → tc_holds (tc_update s cfg) log;
  tc_lookup_sound : ∀ s scope model prompt vec now fault h log,
    tc_holds s log → tc_lookup s scope model prompt vec now fault = Ok (Some h) →
    ∃ l, l ∈ log ∧ answers hash (tc_cfg s) l scope model prompt vec now h
}.

(** ** Service *)

Section ServiceOver.
Context {hash : string → string} {S : Type} {T : TenantCache hash S}.

Record Service := mkService { sv_cache : S; sv_embedder : bool; sv_cfg : Config }.

Definition NewService (cache : option S) (embedder : bool) (cfg : Config) : option Service :=
  match cache with
  | None => None
  | Some c =>
      if negb (Enabled cfg) then None
      else if negb embedder && negb (ExactMatch cfg) then None
      else Some (mkService c embedder (effectiveConfig cfg))
  end.

(** [embed] is what the embedder answers, [fault] and [fault'] the faults of the two
    look-ups; the last component tells whether the embedder was called. *)
Definition Service_Lookup (sv : Service) (scope model prompt : string) (embed : res string (list float64))
    (now now' : Time) (fault fault' : option string) : res string (option Hit * list float64) * bool :=
  let embedded :=
    match embed with
    | Err e => (Err e, true)
    | Ok vec =>
        match tc_lookup (sv_cache sv) scope model prompt vec now' fault' with
        | Err e => (Err e, true)
        | Ok hit => (Ok (hit, vec), true)
        end
    end in
  if ExactMatch (sv_cfg sv) then
    match tc_lookup (sv_cache sv) scope model prompt [] now fault with
    | Err e => (Err e, false)
    | Ok (Some h) => (Ok (Some h, []), false)
    | Ok None => if negb (sv_embedder sv) then (Ok (None, []), false) else embedded
    end
  else embedded.

(** [Store], with the error it returns. *)
Definition Service_Store (sv : Service) (scope model prompt : string) (vec : list float64)
    (embed : res string (list float64)) (resp : option string) (now : Time)
    (fault : option (string * bool)) : Service * option string :=
  let put v := let '(c, err) := tc_store (sv_cache sv) scope model prompt v resp now fault in
               (mkService c (sv_embedder sv) (sv_cfg sv), err) in
  if negb (sv_embedder sv) && (length vec =? 0)%nat then put []
  else if (length vec =? 0)%nat then
    match embed with
    | Ok v => put v
    | Err e => (sv, Some e)
    end
  else put vec.

Definition Service_UpdateConfig (sv : Service) (cfg : Config) : Service :=
  mkService (tc_update (sv_cache sv) cfg) (sv_embedder sv) (effectiveConfig cfg).
End ServiceOver.
Arguments Service S : clear implicits.

(** * Theorems *)

(** ** Keys *)

Lemma digits_no_colon n : ¬ byte_in ":" (Itoa n).
Proof. by apply Itoa_digits. Qed.

Lemma redisKey_injective scope model scope' model' :
  redisKey scope model = redisKey scope' model' → scope = scope' ∧ model = model'.
Proof.
  unfold redisKey. intros H.
  assert (H' : Itoa (String.length scope) +:+ String ":" (scope +:+ String ":" model) =
               Itoa (String.length scope') +:+ String ":" (scope' +:+ String ":" model')).
  { by apply app_length_inj in H as [_ H]. }
  apply app_sep_inj in H' as [Hl H']; [|apply digits_no_colon..].
  apply Itoa_inj in Hl. apply app_length_inj in H' as [-> H']; [|done].
  by injection H' as ->.
Qed.

(** ** Look-up *)

Lemma find_exact_sound hash entries now h :
  find_exact hash entries now = Some h →
  ∃ e, e ∈ entries ∧ expired e now = false ∧ PromptHash e = hash ∧ h = mkHit (Response e) fone.
Proof.
  induction entries as [|e entries IH]; cbn [find_exact]; [discriminate|].
  assert (Hrec : find_exact hash entries now = Some h →
    ∃ e', e' ∈ e :: entries ∧ expired e' now = false ∧ PromptHash e' = hash ∧ h = mkHit (Response e') fone).
  { intros H. destruct (IH H) as (e' & ? & ?). exists e'. split; [apply elem_of_cons; by right|done]. }
  destruct (expired e now) eqn:Ex; [done|].
  destruct (negb (String.eqb (PromptHash e) "") && String.eqb (PromptHash e) hash) eqn:Eh; [|done].
  intros [= <-]. exists e. apply andb_prop in Eh as [_ Eh%String.eqb_eq].
  split_and!; try done. apply elem_of_cons. by left.
Qed.

(** A live entry that reaches the threshold. *)
Definition eligible (vec : list float64) (threshold : float64) (now : Z) (e : storedEntry) : Prop :=
  expired e now = false ∧ fge (cosineSimilarity vec (Embedding e)) threshold = true.

(** The loop's invariant: the best so far is zero, or an eligible entry's. *)
Lemma best_fold_sound vec threshold now entries b r sim resp :
  foldl (best_step vec threshold now) (b, r) entries = (sim, resp) →
  (sim = b ∧ resp = r) ∨
  ∃ e, e ∈ entries ∧ eligible vec threshold now e ∧
       sim = cosineSimilarity vec (Embedding e) ∧ resp = Response e.
Proof.
  revert b r. induction entries as [|e entries IH]; intros b r H; simpl in H; [left; by simplify_eq|].
  destruct (best_step vec threshold now (b, r) e) as [b' r'] eqn:Es.
  apply IH in H as [[-> ->]|(e' & Hin & Hr)].
  - unfold best_step in Es. cbn [fst] in Es. destruct (expired e now) eqn:Ex; [left; by simplify_eq|].
    cbv zeta in Es. destruct (_ && _) eqn:Ea; [|left; by simplify_eq].
    apply andb_prop in Ea as [Ea _]. right. exists e. injection Es as <- <-.
    split_and!; try done. apply elem_of_cons. by left.
  - right. exists e'. split; [apply elem_of_cons; by right|done].
Qed.

Lemma findBest_sound vec entries threshold now h :
  findBest vec entries threshold now = Some h →
  ∃ e, e ∈ entries ∧ eligible vec threshold now e ∧
       h = mkHit (Response e) (cosineSimilarity vec (Embedding e)).
Proof.
  unfold findBest. destruct (foldl _ _ entries) as [sim resp] eqn:E.
  destruct resp as [resp|]; [|discriminate]. intros [= <-].
  apply best_fold_sound in E as [[_ ?]|(e & Hin & He & -> & ->)]; [discriminate|eauto].
Qed.

Lemma lookup_entries_sound hash cfg prompt vec entries now h :
  lookup_entries hash cfg prompt vec entries now = Some h →
  ∃ e, e ∈ entries ∧ expired e now = false ∧ ResponseJSON h = Response e ∧
    ((ExactMatch cfg = true ∧ PromptHash e = hash prompt ∧ Similarity h = fone) ∨
     (Similarity h = cosineSimilarity vec (Embedding e) ∧ fge (Similarity h) (Threshold cfg) = true)).
Proof.
  unfold lookup_entries. intros H.
  assert (Hb : findBest vec entries (Threshold cfg) now = Some h →
    ∃ e, e ∈ entries ∧ expired e now = false ∧ ResponseJSON h = Response e ∧
    ((ExactMatch cfg = true ∧ PromptHash e = hash prompt ∧ Similarity h = fone) ∨
     (Similarity h = cosineSimilarity vec (Embedding e) ∧ fge (Similarity h) (Threshold cfg) = true))).
  { intros Hf. apply findBest_sound in Hf as (e & Hin & [Hx Hs] & ->). exists e. split_and!; auto. }
  destruct (ExactMatch cfg) eqn:Em; cbn [andb] in H; [|by apply Hb].
  destruct (findExact (hash prompt) entries now) as [h'|] eqn:Ef.
  - injection H as ->. unfold findExact in Ef. destruct (String.eqb (hash prompt) ""); [discriminate|].
    apply find_exact_sound in Ef as (e & Hin & Hx & Hh & ->). exists e. split_and!; auto.
  - destruct (length vec =? 0)%nat; [discriminate|by apply Hb].
Qed.

(** ** The stores keep their promise *)

Definition memory_holds (m : Memory) (log : list stored) : Prop :=
  ∀ key e, e ∈ entries_of m key →
    ∃ l, l ∈ log ∧ key = redisKey (s_scope l) (s_model l) ∧ e = entry_of l.

Lemma entries_of_insert cfg d key l : entries_of (mkMemory cfg (<[key := l]> d)) key = l.
Proof. unfold entries_of. cbn [m_data]. by rewrite lookup_insert_eq. Qed.

Lemma memory_store_holds hash m scope model prompt vec resp now log :
  memory_holds m log →
  memory_holds (Memory_Store hash m scope model prompt vec resp now)
    (mkStored scope model (hash prompt) vec (copy_bytes resp) (Unix (Add now (TTL (m_cfg m)))) :: log).
Proof.
  intros H key e. unfold Memory_Store, entries_of at 1. cbn [m_data].
  destruct (decide (key = redisKey scope model)) as [->|Hne].
  - rewrite lookup_insert_eq. intros He.
    assert (He' : e ∈ new_entry hash (m_cfg m) prompt vec (copy_bytes resp) now
                   :: entries_of m (redisKey scope model)).
    { cbn in He. destruct (_ <? _); [|done]. by apply elem_of_take in He as (i & He & _); eapply list_elem_of_lookup_2. }
    apply elem_of_cons in He' as [->|He'].
    + eexists. split; [apply elem_of_cons; by left|done].
    + destruct (H _ _ He') as (l & Hl & ?). exists l. split; [apply elem_of_cons; by right|done].
  - rewrite lookup_insert_ne by done. intros He. destruct (H key e He) as (l & Hl & ?).
    exists l. split; [apply elem_of_cons; by right|done].
Qed.

Lemma memory_lookup_sound hash m scope model prompt vec now h log :
  memory_holds m log → Memory_Lookup hash m scope model prompt vec now = Some h →
  ∃ l, l ∈ log ∧ answers hash (m_cfg m) l scope model prompt vec now h.
Proof.
  intros Hm Hh. apply lookup_entries_sound in Hh as (e & Hin & Hx & Hr & Hw).
  destruct (Hm _ _ Hin) as (l & Hl & Hk & ->). apply redisKey_injective in Hk as [-> ->].
  exists l. split; [done|]. split_and!; auto.
Qed.

Lemma copy_bytes_text b : text_of (copy_bytes b) = text_of b.
Proof. by destruct b as [[]|]. Qed.

#[export] Instance memory_cache (hash : string → string) : TenantCache hash Memory.
Proof.
  refine {|
    tc_cfg := m_cfg;
    tc_lookup s scope model prompt vec now _ := Ok (Memory_Lookup hash s scope model prompt vec now);
    tc_store s scope model prompt vec resp now _ := (Memory_Store hash s scope model prompt vec resp now, None);
    tc_update := Memory_UpdateConfig;
    tc_holds := memory_holds
  |}.
  - intros s scope model prompt vec resp now fault log H. right. exists (copy_bytes resp).
    split; [apply copy_bytes_text|by apply memory_store_holds].
  - done.
  - intros s scope model prompt vec now fault h log H [= Hh]. by apply memory_lookup_sound.
Defined.

(** The Redis store, for a codec that reads back what it wrote and, like
    [encoding/json], decodes a text to one value only. *)
Section RedisPromise.
Context (hash : string → string)
        (marshal : storedEntry → option string) (unmarshal : string → option storedEntry)
        (codec_roundtrip : ∀ e raw, marshal e = Some raw → unmarshal raw = Some e).

Definition redis_holds (c : Redis) (log : list stored) : Prop :=
  ∀ key raw e, raw ∈ default [] (r_lists c !! key) → unmarshal raw = Some e →
    ∃ l, l ∈ log ∧ key = redisKey (s_scope l) (s_model l) ∧ e = entry_of l.

(** What the list of a key holds after an entry is pushed on it. *)
Lemma redis_insert_holds c log scope model l0 raw0 key raw e :
  redis_holds c log → s_scope l0 = scope → s_model l0 = model → unmarshal raw0 = Some (entry_of l0) →
  raw ∈ default [] (<[redisKey scope model := take (upto (r_cfg c))
          (raw0 :: default [] (r_lists c !! redisKey scope model))]> (r_lists c) !! key) →
  unmarshal raw = Some e →
  ∃ l, l ∈ l0 :: log ∧ key = redisKey (s_scope l) (s_model l) ∧ e = entry_of l.
Proof.
  intros H <- <- Em.
  assert (Hold : raw ∈ default [] (r_lists c !! key) → unmarshal raw = Some e →
    ∃ l, l ∈ l0 :: log ∧ key = redisKey (s_scope l) (s_model l) ∧ e = entry_of l).
  { intros Hr He. destruct (H key raw e Hr He) as (l & Hl & ?). exists l.
    split; [apply elem_of_cons; by right|done]. }
  destruct (decide (key = redisKey (s_scope l0) (s_model l0))) as [->|Hne].
  - rewrite lookup_insert_eq. cbn [default from_option id]. intros Hr He.
    apply elem_of_take in Hr as (i & Hr & _). apply list_elem_of_lookup_2, elem_of_cons in Hr as [->|Hr].
    + rewrite Em in He. injection He as <-. exists l0. split; [apply elem_of_cons; by left|done].
    + by apply Hold.
  - rewrite lookup_insert_ne by done. apply Hold.
Qed.

Lemma redis_store_holds c scope model prompt vec resp now fault log :
  redis_holds c log →
  let c' := (Redis_Store hash marshal c scope model prompt vec resp now fault).1 in
  redis_holds c' log ∨
  redis_holds c' (mkStored scope model (hash prompt) vec resp (Unix (Add now (TTL (r_cfg c)))) :: log).
Proof.
  intros H. unfold Redis_Store. destruct (marshal _) as [raw0|] eqn:Em; [|by left].
  destruct fault as [[err [|]]|]; cbn [fst]; [right|by left|right];
  (apply codec_roundtrip in Em; intros key raw e; cbn [r_lists];
   by eapply redis_insert_holds).
Qed.

Lemma redis_lookup_sound c scope model prompt vec now fault h log :
  redis_holds c log → Redis_Lookup hash unmarshal c scope model prompt vec now fault = Ok (Some h) →
  ∃ l, l ∈ log ∧ answers hash (r_cfg c) l scope model prompt vec now h.
Proof.
  intros Hm. unfold Redis_Lookup. destruct fault; [done|]. intros [= Hh].
  apply lookup_entries_sound in Hh as (e & Hin & Hx & Hr & Hw).
  apply list_elem_of_omap in Hin as (raw & Hraw & He).
  apply elem_of_take in Hraw as (i & Hraw & _). apply list_elem_of_lookup_2 in Hraw.
  destruct (Hm _ _ _ Hraw He) as (l & Hl & Hk & ->). apply redisKey_injective in Hk as [-> ->].
  exists l. split; [done|]. split_and!; auto.
Qed.

Definition redis_cache : TenantCache hash Redis.
Proof.
  refine {|
    tc_cfg := r_cfg;
    tc_lookup := Redis_Lookup hash unmarshal;
    tc_store := Redis_Store hash marshal;
    tc_update := Redis_UpdateConfig;
    tc_holds := redis_holds;
    tc_lookup_sound := redis_lookup_sound
  |}.
  - intros s scope model prompt vec resp now fault log H.
    destruct (redis_store_holds s scope model prompt vec resp now fault log H); [by left|right].
    by exists resp.
  - done.
Defined.
End RedisPromise.

(** ** Nearest neighbour *)

(** The similarity the loop returns is at least that of every eligible entry. *)
Lemma best_fold_max vec threshold now entries b r sim resp e :
  is_NaN b = false →
  foldl (best_step vec threshold now) (b, r) entries = (sim, resp) →
  is_NaN sim = false ∧ fle b sim = true ∧
  (e ∈ entries → eligible vec threshold now e → fge sim (cosineSimilarity vec (Embedding e)) = true).
Proof.
  revert b r. induction entries as [|x entries IH]; intros b r Hb H; simpl in H.
  { simplify_eq. split_and!; [done|by apply fle_refl|by intros ?%elem_of_nil]. }
  destruct (best_step vec threshold now (b, r) x) as [b' r'] eqn:Es.
  assert (Hb' : is_NaN b' = false ∧ fle b b' = true ∧
    (eligible vec threshold now x → fge b' (cosineSimilarity vec (Embedding x)) = true)).
  { unfold best_step in Es. cbn [fst] in Es. destruct (expired x now) eqn:Ex.
    - simplify_eq. split_and!; [done|by apply fle_refl|]. intros [? _]. congruence.
    - cbv zeta in Es. destruct (fge _ threshold) eqn:Et; cbn [andb] in Es.
      + destruct (fgt (cosineSimilarity vec (Embedding x)) b) eqn:Eg; injection Es as <- <-.
        * split_and!; [by apply flt_NaN_r in Eg|by apply flt_fle|].
          intros _. apply fle_refl. by apply flt_NaN_r in Eg.
        * split_and!; [done|by apply fle_refl|]. intros [_ Hs].
          unfold fge. change (SFleb ?x ?y) with (fle x y). unfold fgt in Eg. change (SFltb ?x ?y) with (flt x y) in Eg.
          rewrite fle_not_flt; [by rewrite Eg|by apply fle_NaN_r in Hs|done].
      + injection Es as <- <-. split_and!; [done|by apply fle_refl|]. intros [_ Hs]. congruence. }
  destruct Hb' as (Hn & Hle & Hx). destruct (IH b' r' Hn H) as (Hs & Hle' & Hin).
  split_and!; [done|by eapply fle_trans|].
  intros [->|He]%elem_of_cons Hel; [|by apply Hin].
  by eapply fle_trans; [apply Hx|].
Qed.

(** ** Histories of the service *)

Section History.
Context {hash : string → string} {S : Type} {T : TenantCache hash S}.

(** One call of [Store]: its arguments, what the embedder answers it, the clock, and
    the fault of the store's connection. *)
Record store_call := mkStoreCall {
  sc_scope : string; sc_model : string; sc_prompt : string; sc_vec : list float64;
  sc_embed : res string (list float64); sc_resp : option string; sc_now : Time;
  sc_fault : option (string * bool)
}.

Inductive cache_op := OpStore (c : store_call) | OpConfig (cfg : Config).

Definition do_op (sv : Service S) (o : cache_op) : Service S :=
  match o with
  | OpStore c =>
      (Service_Store sv (sc_scope c) (sc_model c) (sc_prompt c) (sc_vec c) (sc_embed c) (sc_resp c)
         (sc_now c) (sc_fault c)).1
  | OpConfig cfg => Service_UpdateConfig sv cfg
  end.

(** The vector a call stores: the one given, else the embedder's, else none. *)
Definition vector_of (embedder : bool) (c : store_call) (v : list float64) : Prop :=
  match sc_vec c with
  | [] => if embedder then sc_embed c = Ok v else v = []
  | given => v = given
  end.

(** A logged entry is what one call of the history stored, under the lifetime in
    force then. *)
Definition from_history (sv : Service S) (ops : list cache_op) (l : stored) : Prop :=
  ∃ before c after, ops = (before ++ OpStore c :: after)%list ∧
    s_scope l = sc_scope c ∧ s_model l = sc_model c ∧ s_hash l = hash (sc_prompt c) ∧
    text_of (s_resp l) = text_of (sc_resp c) ∧ vector_of (sv_embedder sv) c (s_vec l) ∧
    s_expires l = Unix (Add (sc_now c) (TTL (tc_cfg (sv_cache (foldl do_op sv before))))).

Lemma from_history_app sv ops ops' l : from_history sv ops l → from_history sv (ops ++ ops')%list l.
Proof.
  intros (before & c & after & -> & H). exists before, c, (after ++ ops')%list. by rewrite <- app_assoc.
Qed.

Lemma do_op_embedder sv o : sv_embedder (do_op sv o) = sv_embedder sv.
Proof.
  destruct o as [c|cfg]; [|done]. unfold do_op, Service_Store.
  repeat (case_match; try done); simplify_eq; done.
Qed.

Lemma run_embedder ops sv : sv_embedder (foldl do_op sv ops) = sv_embedder sv.
Proof. revert sv. induction ops as [|o ops IH]; intros sv; [done|]. cbn. by rewrite IH, do_op_embedder. Qed.

(** A store leaves the log as it was, or adds its entry. *)
Lemma do_store_holds sv c log :
  tc_holds (sv_cache sv) log →
  tc_holds (sv_cache (do_op sv (OpStore c))) log ∨
  ∃ l, tc_holds (sv_cache (do_op sv (OpStore c))) (l :: log) ∧
    s_scope l = sc_scope c ∧ s_model l = sc_model c ∧ s_hash l = hash (sc_prompt c) ∧
    text_of (s_resp l) = text_of (sc_resp c) ∧ vector_of (sv_embedder sv) c (s_vec l) ∧
    s_expires l = Unix (Add (sc_now c) (TTL (tc_cfg (sv_cache sv)))).
Proof.
  intros H. cbn [do_op]. unfold Service_Store.
  assert (Hput : ∀ v, vector_of (sv_embedder sv) c v →
    let sv' := (let '(k, err) := tc_store (sv_cache sv) (sc_scope c) (sc_model c) (sc_prompt c) v
                                   (sc_resp c) (sc_now c) (sc_fault c) in
                (mkService k (sv_embedder sv) (sv_cfg sv), err)).1 in
    tc_holds (sv_cache sv') log ∨
    ∃ l, tc_holds (sv_cache sv') (l :: log) ∧
      s_scope l = sc_scope c ∧ s_model l = sc_model c ∧ s_hash l = hash (sc_prompt c) ∧
      text_of (s_resp l) = text_of (sc_resp c) ∧ vector_of (sv_embedder sv) c (s_vec l) ∧
      s_expires l = Unix (Add (sc_now c) (TTL (tc_cfg (sv_cache sv))))).
  { intros v Hv. pose proof (tc_store_holds (sv_cache sv) (sc_scope c) (sc_model c) (sc_prompt c) v
      (sc_resp c) (sc_now c) (sc_fault c) log H) as Hst. cbv zeta in *.
    destruct (tc_store _ _ _ _ v _ _ _) as [k err]. cbn in *. destruct Hst as [|(resp' & Ht & Hl)]; [by left|right].
    by eexists. }
  unfold vector_of in *. destruct (sc_vec c) as [|x xs]; cbn [length Nat.eqb andb]; [|rewrite andb_false_r; by apply Hput].
  destruct (sv_embedder sv); cbn [negb andb]; [|by apply Hput].
  destruct (sc_embed c) as [v|e]; [by apply Hput|by left].
Qed.

Lemma run_holds sv ops :
  tc_holds (sv_cache sv) [] →
  ∃ log, tc_holds (sv_cache (foldl do_op sv ops)) log ∧ ∀ l, l ∈ log → from_history sv ops l.
Proof.
  intros H0. induction ops as [|o ops IH] using rev_ind.
  { exists []. split; [done|]. by intros l ?%elem_of_nil. }
  destruct IH as (log & Hlog & Hfrom). rewrite foldl_app. cbn [foldl].
  assert (∀ l, l ∈ log → from_history sv (ops ++ [o]) l) as Hfrom' by (intros; by apply from_history_app, Hfrom).
  destruct o as [c|cfg].
  - destruct (do_store_holds _ c log Hlog) as [|(l & Hl & Hr)]; [by exists log|].
    exists (l :: log). split; [done|]. intros l' [->|Hin]%elem_of_cons; [|by apply Hfrom'].
    rewrite run_embedder in Hr. by exists ops, c, [].
  - exists log. split; [|done]. by apply tc_update_holds.
Qed.

(** The store call a hit at one of the times [ts] for the vector [vec] comes from. *)
Definition came_from (sv : Service S) (ops : list cache_op) (scope model prompt : string) (ts : list Time)
    (h : Hit) (vec : list float64) : Prop :=
  let cfg := tc_cfg (sv_cache (foldl do_op sv ops)) in
  ∃ before c after v t, ops = (before ++ OpStore c :: after)%list ∧ t ∈ ts ∧
    sc_scope c = scope ∧ sc_model c = model ∧ text_of (ResponseJSON h) = text_of (sc_resp c) ∧
    (let expires := Unix (Add (sc_now c) (TTL (tc_cfg (sv_cache (foldl do_op sv before))))) in
     0 < expires → Unix t ≤ expires) ∧
    vector_of (sv_embedder sv) c v ∧
    (ExactMatch cfg = true ∧ hash (sc_prompt c) = hash prompt ∧ Similarity h = fone ∨
     Similarity h = cosineSimilarity vec v ∧ fge (Similarity h) (Threshold cfg) = true).

Definition hit_provenance (sv : Service S) (ops : list cache_op) (scope model prompt : string)
    (embed : res string (list float64)) (now now' : Time) (fault fault' : option string) : Prop :=
  ∀ h vec,
    (Service_Lookup (foldl do_op sv ops) scope model prompt embed now now' fault fault').1 = Ok (Some h, vec) →
    came_from sv ops scope model prompt [now; now'] h vec.

Lemma service_hit sv ops scope model prompt embed now now' fault fault' :
  tc_holds (sv_cache sv) [] → hit_provenance sv ops scope model prompt embed now now' fault fault'.
Proof.
  intros H0 h vec HL. destruct (run_holds sv ops H0) as (log & Hlog & Hfrom).
  set (sv' := foldl do_op sv ops) in *.
  assert (Hany : ∀ t f, t ∈ [now; now'] → tc_lookup (sv_cache sv') scope model prompt vec t f = Ok (Some h) →
    came_from sv ops scope model prompt [now; now'] h vec).
  { intros t f Ht Hh. unfold came_from. cbv zeta. fold sv'.
    destruct (tc_lookup_sound _ _ _ _ _ _ _ _ _ Hlog Hh) as (l & Hl & <- & <- & Hx & <- & Hw).
    destruct (Hfrom l Hl) as (before & c & after & -> & Hs & Hm & Hc & Hr & Hv & He).
    exists before, c, after, (s_vec l), t. rewrite <- Hc. split_and!; try done.
    rewrite <- He. unfold expired in Hx. cbn in Hx. apply andb_false_iff in Hx as [Hx|Hx]; reflect_bools; lia. }
  unfold Service_Lookup in HL.
  set (emb := match embed with Err e => (Err e, true) | Ok _ => _ end) in HL.
  assert (emb.1 = Ok (Some h, vec) → came_from sv ops scope model prompt [now; now'] h vec) as Hemb.
  { subst emb. destruct embed as [v|e]; [|done].
    destruct (tc_lookup (sv_cache sv') scope model prompt v now' fault') as [hit|e] eqn:E; [|done].
    cbn. intros [= -> ->]. eapply Hany; [|exact E]. set_solver. }
  destruct (ExactMatch (sv_cfg sv')); [|by apply Hemb].
  destruct (tc_lookup (sv_cache sv') scope model prompt [] now fault) as [[h'|]|e] eqn:E; [|..|done].
  - cbn in HL. injection HL as -> <-. eapply Hany; [|exact E]. set_solver.
  - destruct (negb (sv_embedder sv')); [done|]. by apply Hemb.
Qed.
End History.

(** * Claims *)

(** The key of a cache list determines the tenant scope and the model: no two
    pairs share a list, whatever characters the model id, which the caller
    chooses, contains. *)
Theorem redis_key_injective (scope model scope' model' : string) :
  redisKey scope model = redisKey scope' model' → scope = scope' ∧ model = model'.
Proof. apply redisKey_injective. Qed.

(** [C16] Tenant isolation, for the service over a fresh in-process store and over an
    empty Redis: after any history of stores, for whatever tenants and models, with
    failing connections and changes of the configuration in between, a hit returns
    the response of a store made for the very scope and model, not expired under the
    lifetime in force when it was made, and stored either under the same prompt hash
    (with exact matching on, at similarity one) or under a vector whose cosine
    similarity to the looked-up one is the reported similarity and at least the
    threshold.  The codec of the Redis entries reads back what it wrote. *)
Theorem service_tenant_isolation (hash : string → string) (marshal : storedEntry → option string)
    (unmarshal : string → option storedEntry)
    (codec : ∀ e raw, marshal e = Some raw → unmarshal raw = Some e)
    (cfg : Config) (embedder : bool) (ops : list cache_op) (scope model prompt : string)
    (embed : res string (list float64)) (now now' : Time) (fault fault' : option string) :
  (∀ sv, NewService (Some (NewMemory cfg)) embedder cfg = Some sv →
     hit_provenance (T := memory_cache hash) sv ops scope model prompt embed now now' fault fault') ∧
  (∀ sv, NewService (Some (mkRedis (effectiveConfig cfg) ∅)) embedder cfg = Some sv →
     hit_provenance (T := redis_cache hash marshal unmarshal codec)
       sv ops scope model prompt embed now now' fault fault').
Proof.
  assert (∀ (S : Type) (c : S) sv, NewService (Some c) embedder cfg = Some sv → sv_cache sv = c) as Hnew.
  { intros S c sv. unfold NewService. destruct (negb (Enabled cfg)); [done|].
    destruct (_ && _); [done|]. by intros [= <-]. }
  split; intros sv Hsv; apply service_hit; rewrite (Hnew _ _ _ Hsv).
  - intros key e. unfold entries_of. cbn. rewrite lookup_empty. by intros ?%elem_of_nil.
  - intros key raw e. cbn. rewrite lookup_empty. by intros ?%elem_of_nil.
Qed.

(** The nearest-neighbour scan is exact: a hit is a live entry whose similarity
    reaches the threshold and is at least that of every other such entry, and
    when every entry has a response a miss means that no live entry reaches
    the threshold with a positive similarity. *)
Theorem find_best_optimal (vec : list float64) (entries : list storedEntry) (threshold : float64) (now : Z) :
  match findBest vec entries threshold now with
  | Some h => ∃ e, e ∈ entries ∧ eligible vec threshold now e ∧
      h = mkHit (Response e) (cosineSimilarity vec (Embedding e)) ∧
      ∀ e', e' ∈ entries → eligible vec threshold now e' →
            fge (Similarity h) (cosineSimilarity vec (Embedding e')) = true
  | None => Forall (fun e => is_Some (Response e)) entries →
      ∀ e, e ∈ entries → eligible vec threshold now e →
           fgt (cosineSimilarity vec (Embedding e)) fzero = false
  end.
Proof.
  pose proof (fun sim resp e => best_fold_max vec threshold now entries fzero None sim resp e eq_refl) as Hmax.
  destruct (findBest vec entries threshold now) as [h|] eqn:Ef.
  - pose proof Ef as Ef'. apply findBest_sound in Ef' as (e & Hin & He & ->). exists e.
    split_and!; try done. intros e' Hin' He'. unfold findBest in Ef.
    destruct (foldl _ _ entries) as [sim resp] eqn:E. destruct resp; [|discriminate].
    injection Ef as _ <-. by apply (Hmax _ _ e' eq_refl).
  - intros HF e Hin He. unfold findBest in Ef. destruct (foldl _ _ entries) as [sim resp] eqn:E.
    destruct resp; [discriminate|].
    destruct (Hmax sim None e eq_refl) as (_ & _ & Hge). specialize (Hge Hin He).
    apply best_fold_sound in E as [[-> _]|(e0 & Hin0 & _ & _ & Hr)].
    + unfold fge in Hge. unfold fgt. change (SFleb ?x ?y) with (fle x y) in Hge.
      change (SFltb ?x ?y) with (flt x y).
      rewrite fle_not_flt in Hge; [by apply negb_true_iff|by apply fle_NaN_l in Hge|done].
    + apply list_elem_of_In in Hin0. apply (proj1 (List.Forall_forall _ _) HF) in Hin0.
      rewrite <- Hr in Hin0. by destruct Hin0.
Qed.

(** A response stored with exact matching on is returned to the same tenant for
    the same model and prompt until it expires, without an embedding, and the
    list of a key never grows beyond the configured number of entries. *)
Theorem memory_store_lookup (hash : string → string) (m : Memory) (scope model prompt : string)
    (vec : list float64) (resp : string) (now later : Time) :
  ExactMatch (m_cfg m) = true → 0 < MaxEntriesPerModel (m_cfg m) → hash prompt ≠ "" → resp ≠ "" →
  Unix later ≤ Unix (Add now (TTL (m_cfg m))) →
  let m' := Memory_Store hash m scope model prompt vec (Some resp) now in
  Memory_Lookup hash m' scope model prompt [] later = Some (mkHit (Some resp) fone) ∧
  Z.of_nat (length (entries_of m' (redisKey scope model))) ≤
    Z.max (MaxEntriesPerModel (m_cfg m)) (Z.of_nat (length (entries_of m (redisKey scope model)))).
Proof.
  intros Hx Hmax Hh Hr Ht m'.
  assert (Hc : copy_bytes (Some resp) = Some resp) by (by destruct resp).
  set (e := new_entry hash (m_cfg m) prompt vec (Some resp) now).
  assert (Hl : ∃ l, entries_of m' (redisKey scope model) = e :: l ∧
    (Z.of_nat (length (e :: l)) ≤
     Z.max (MaxEntriesPerModel (m_cfg m)) (Z.of_nat (length (entries_of m (redisKey scope model)))))).
  { unfold m', Memory_Store. rewrite entries_of_insert, Hc. fold e. destruct (Z.ltb_spec (MaxEntriesPerModel (m_cfg m))
      (Z.of_nat (length (e :: entries_of m (redisKey scope model))))) as [Hlt|Hge].
    - destruct (Z.to_nat (MaxEntriesPerModel (m_cfg m))) as [|n] eqn:En; [lia|].
      exists (take n (entries_of m (redisKey scope model))). split; [reflexivity|].
      cbn [length]. rewrite length_take. lia.
    - exists (entries_of m (redisKey scope model)). split; [reflexivity|]. lia. }
  destruct Hl as (l & Hl & Hlen). rewrite Hl. split; [|done].
  unfold Memory_Lookup, lookup_entries. rewrite Hl. unfold m'. cbn [m_cfg Memory_Store]. rewrite Hx.
  unfold findExact. rewrite (proj2 (String.eqb_neq _ _) Hh). cbn [find_exact].
  assert (expired e (Unix later) = false) as ->.
  { unfold expired, e. cbn [new_entry ExpiresAt]. apply andb_false_intro2, Z.ltb_ge. done. }
  unfold e. cbn [new_entry PromptHash Response].
  by rewrite (proj2 (String.eqb_neq _ _) Hh), String.eqb_refl.
Qed.

(** ** Witnesses *)

Definition noon_ns : Time := 1769947200 * Second.
Definition demo_hash (s : string) : string := "h" +:+ s.
Definition demo_cfg : Config := mkConfig true 0 fzero 0 0 true.
Definition demo_cache : Memory := NewMemory demo_cfg.

Lemma redis_key_injective_witness :
  redisKey "org" "a:gpt-4o" ≠ redisKey "org:a" "gpt-4o" ∧ "org" = "org" ∧ "m" = "m".
Proof.
  split; [by vm_compute|]. apply (redis_key_injective "org" "m" "org" "m"). reflexivity.
Defined.

Definition demo_call (model : string) : cache_op :=
  OpStore (mkStoreCall "acme" model "hi" [] (Err "none") (Some "{}") noon_ns None).
Definition demo_history : list cache_op :=
  [demo_call "gpt-4o"; OpConfig demo_cfg; demo_call "gpt-4o-mini"].

(** A codec: an entry's prompt hash and response between marks. *)
Definition toy_marshal (e : storedEntry) : option string :=
  if decide (e = mkEntry [] (Some "{}") (Unix (Add noon_ns (24 * Hour))) (demo_hash "hi")) then Some "entry" else None.
Definition toy_unmarshal (raw : string) : option storedEntry :=
  if String.eqb raw "entry" then Some (mkEntry [] (Some "{}") (Unix (Add noon_ns (24 * Hour))) (demo_hash "hi")) else None.

Lemma toy_codec e raw : toy_marshal e = Some raw → toy_unmarshal raw = Some e.
Proof. unfold toy_marshal. case_decide; [|done]. intros [= <-]. by subst. Qed.

Definition demo_service : Service Memory := mkService demo_cache false (effectiveConfig demo_cfg).
Definition demo_redis : Service Redis :=
  mkService (mkRedis (effectiveConfig demo_cfg) ∅) false (effectiveConfig demo_cfg).

Lemma service_tenant_isolation_witness :
  hit_provenance (T := memory_cache demo_hash) demo_service demo_history "acme" "gpt-4o" "hi" (Err "none")
    noon_ns noon_ns None None ∧
  hit_provenance (T := redis_cache demo_hash toy_marshal toy_unmarshal toy_codec) demo_redis demo_history
    "acme" "gpt-4o" "hi" (Err "none") noon_ns noon_ns None None ∧
  (Service_Lookup (T := memory_cache demo_hash) (foldl (do_op (T := memory_cache demo_hash)) demo_service demo_history)
     "acme" "gpt-4o" "hi" (Err "none") noon_ns noon_ns None None).1 = Ok (Some (mkHit (Some "{}") fone), []) ∧
  (let T := redis_cache demo_hash toy_marshal toy_unmarshal toy_codec in
   Service_Lookup (T := T) (foldl (do_op (T := T)) demo_redis demo_history)
     "acme" "gpt-4o" "hi" (Err "none") noon_ns noon_ns None None).1 = Ok (Some (mkHit (Some "{}") fone), []).
Proof.
  destruct (service_tenant_isolation demo_hash toy_marshal toy_unmarshal toy_codec demo_cfg false demo_history
    "acme" "gpt-4o" "hi" (Err "none") noon_ns noon_ns None None) as [Hm Hr].
  split; [apply Hm; reflexivity|]. split; [apply Hr; reflexivity|]. split; vm_compute; reflexivity.
Defined.

Lemma memory_store_lookup_witness :
  Memory_Lookup demo_hash (Memory_Store demo_hash demo_cache "acme" "gpt-4o" "hi" [] (Some "{}") noon_ns)
    "acme" "gpt-4o" "hi" [] (noon_ns + Hour) = Some (mkHit (Some "{}") fone).
Proof.
  apply (memory_store_lookup demo_hash demo_cache "acme" "gpt-4o" "hi" [] "{}" noon_ns (noon_ns + Hour));
    [reflexivity|reflexivity|discriminate|discriminate|vm_compute; discriminate].
Defined.
