(* ===== verification/ApiErr.v ===== *)
(** * ApiErr: src/internal/apierr and src/internal/resp

    The public error contract: the codes with their status and message, the
    redaction of protected substrings, and the one path that logs a cause and
    renders a body.  An [http.ResponseWriter] is the list of calls made on it, in
    order; [sent_status] is the status net/http puts on the wire for it. *)

From S2P Require Import Prelude GoString.
Local Open Scope string_scope.
Local Open Scope Z_scope.

(** ** The response writer *)

Inductive wcall :=
| SetHeader (key value : string)
| WriteHeader (code : Z)
| Write (body : string)
| Flush.

(** The first [WriteHeader] wins; a [Write] or [Flush] before it, and a handler
    that returns without writing, send 200. *)
Fixpoint sent_status (w : list wcall) : Z :=
  match w with
  | [] => 200
  | SetHeader _ _ :: w' => sent_status w'
  | WriteHeader c :: _ => c
  | Write _ :: _ | Flush :: _ => 200
  end.

(** ** apierr.go *)

Inductive Code :=
| CodeInvalidRequest | CodeUnauthorized | CodeUnauthenticated | CodeForbidden
| CodeNotFound | CodeConflict | CodeRateLimited | CodeRequestTooLarge
| CodeBudgetExceeded | CodeConcurrencyLimit | CodeEgressDenied
| CodeEvalPluginInvalid | CodeModelNotAllowed | CodeInviteInvalid
| CodeSSOStateInvalid | CodeSchemaContractViolation | CodeAdminRequired
| CodeUpstreamError | CodeDependencyUnavailable | CodeInternalError.

#[export] Instance Code_eq_dec : EqDecision Code.
Proof. solve_decision. Defined.

(** The wire string of a code. *)
Definition code_string (c : Code) : string :=
  match c with
  | CodeInvalidRequest => "invalid_request"
  | CodeUnauthorized => "unauthorized"
  | CodeUnauthenticated => "unauthenticated"
  | CodeForbidden => "forbidden"
  | CodeNotFound => "not_found"
  | CodeConflict => "conflict"
  | CodeRateLimited => "rate_limited"
  | CodeRequestTooLarge => "request_too_large"
  | CodeBudgetExceeded => "budget_exceeded"
  | CodeConcurrencyLimit => "concurrency_limit"
  | CodeEgressDenied => "egress_denied"
  | CodeEvalPluginInvalid => "eval_plugin_invalid"
  | CodeModelNotAllowed => "model_not_allowed"
  | CodeInviteInvalid => "invite_invalid"
  | CodeSSOStateInvalid => "sso_state_invalid"
  | CodeSchemaContractViolation => "schema_contract_violation"
  | CodeAdminRequired => "admin_required"
  | CodeUpstreamError => "upstream_error"
  | CodeDependencyUnavailable => "dependency_unavailable"
  | CodeInternalError => "internal_error"
  end.

Definition defaultMessage (c : Code) : string :=
  match c with
  | CodeInvalidRequest => "the request was invalid"
  | CodeUnauthorized => "authentication is required"
  | CodeForbidden => "access is forbidden for the caller"
  | CodeNotFound => "the resource was not found"
  | CodeConflict => "the request conflicts with the current state"
  | CodeRateLimited => "too many requests, try again shortly"
  | CodeBudgetExceeded => "the spend or quota limit was exceeded"
  | CodeUpstreamError => "the upstream provider returned an error"
  | CodeDependencyUnavailable => "an internal dependency is not currently available"
  | CodeInternalError => "an internal error occurred, contact support with the request id"
  | _ => "an error occurred"
  end.

Definition Message (c : Code) (msg : string) : string :=
  if String.eqb msg "" then defaultMessage c else msg.

Definition HTTPStatus (c : Code) : Z :=
  match c with
  | CodeInvalidRequest => 400
  | CodeUnauthorized => 401
  | CodeForbidden => 403
  | CodeNotFound => 404
  | CodeConflict => 409
  | CodeRateLimited => 429
  | CodeBudgetExceeded => 402
  | CodeUpstreamError => 502
  | CodeDependencyUnavailable => 503
  | CodeInternalError => 500
  | _ => 500
  end.

Record Body := mkBody { b_Code : Code; b_Message : string; b_RequestID : string }.

Section Render.
(** [json.Encode] of the body. *)
Context (encode : Body → string).

Definition Render (status : Z) (code : Code) (requestID message : string) : list wcall :=
  ((if String.eqb requestID "" then [] else [SetHeader "X-Request-Id" requestID]) ++
   [SetHeader "Content-Type" "application/json"; WriteHeader status;
    Write (encode (mkBody code (Message code message) requestID))])%list.
End Render.

(** ** Redaction *)

(** [strings.ReplaceAll(s, old, new)] for a non-empty [old]: scan from the left,
    after a match skip the bytes it covers. *)
Fixpoint replace_from (old new s : string) (skip : nat) : string :=
  match s with
  | "" => ""
  | String c s' =>
      match skip with
      | S k => replace_from old new s' k
      | O => if HasPrefix s old then new +:+ replace_from old new s' (String.length old - 1)
             else String c (replace_from old new s' 0)
      end
  end.

Definition ReplaceAll (s old new : string) : string := replace_from old new s 0.

Definition SUB : ascii := ascii_of_nat 26.
Definition redacted_tag : string := "[NEXUS_REDACTED]".
Definition redactedMarker : string := String SUB redacted_tag +:+ String SUB "".

Definition slackPrefix : string := "xoxb-".
Definition ghTokenPrefix : string := "ghp_".

Definition protectedSignatures : list string := [
  "SQLSTATE"; "ERROR:"; "pq:"; "goroutine "; ".go:"; "/Users/"; "/home/";
  "127.0.0.1"; "localhost"; "metadata.google.internal"; "sk-"; slackPrefix; ghTokenPrefix;
  "postgres://"; "clickhouse://"; "redis://"; "AKIA"; "PRIVATE KEY";
  "prompt_content="; "messages=["; "org_id="].

Definition Scrub (s : string) : string :=
  foldl (fun s sig => ReplaceAll s sig redactedMarker) s protectedSignatures.

(** ** resp.go *)

(** [scrubChain] on the messages of the error chain, outermost first. *)
Definition scrubChain (chain : list string) : string := Join (Scrub <$> chain) " | ".

(** [hex.Encode] of one byte, and the UUID-shaped fallback id from 16 random
    bytes. *)
Definition hex_digit (n : Z) : string :=
  default "" ((fun c => String c "") <$> String.get (Z.to_nat n) "0123456789abcdef").
Definition hex_byte (b : Z) : string := hex_digit (Z.shiftr b 4) +:+ hex_digit (Z.land b 15).
Definition hex_encode (bs : list Z) : string := foldr (fun b s => hex_byte b +:+ s) "" bs.

Definition reqIDFallback (random : option (list Z)) : string :=
  match random with
  | None => "panic-no-rand-00000000-0000-4000-8000-000000000000"
  | Some bs =>
      let bs := <[6%nat := Z.lor (Z.land (default 0 (bs !! 6%nat)) 15) 64]> bs in
      let bs := <[8%nat := Z.lor (Z.land (default 0 (bs !! 8%nat)) 63) 128]> bs in
      Join [hex_encode (take 4 bs); hex_encode (take 2 (drop 4 bs)); hex_encode (take 2 (drop 6 bs));
            hex_encode (take 2 (drop 8 bs)); hex_encode (take 6 (drop 10 bs))] "-"
  end.

(** The log line of [HTTP]. *)
Record log_line := mkLog { l_code : Code; l_status : Z; l_request_id : string; l_cause : string }.

Section HTTP.
Context (encode : Body → string).

(** [HTTP]: the log line and the writer calls.  [ctx_id] is the id the request
    context carries, [random] what [crypto/rand] gives. *)
Definition HTTP (statusCode : Z) (code : option Code) (requestID ctx_id : string)
    (cause : list string) (random : option (list Z)) : log_line * list wcall :=
  let requestID := if String.eqb requestID "" then ctx_id else requestID in
  let requestID := if String.eqb requestID "" then "panic-" +:+ reqIDFallback random else requestID in
  let code := default CodeInternalError code in
  let statusCode := if statusCode =? 0 then HTTPStatus code else statusCode in
  (mkLog code statusCode requestID (scrubChain cause),
   ((if String.eqb requestID "" then [] else [SetHeader "X-Request-Id" requestID]) ++
    Render encode statusCode code requestID (Message code ""))%list).
End HTTP.

(** * Theorems *)

(** ** Redaction *)

(** Strings a signature can be: not empty, without the marker's control
    character, and not part of its tag. *)
Definition redactable (q : string) : Prop :=
  q ≠ "" ∧ ¬ byte_in SUB q ∧ Contains redacted_tag q = false.

Lemma Contains_cons c s q : Contains (String c s) q = HasPrefix (String c s) q || Contains s q.
Proof. by destruct q. Qed.

Lemma Contains_empty q : q ≠ "" → Contains "" q = false.
Proof. by destruct q. Qed.

(** A prefix without the byte [b] of a text cut at [b] ends before it. *)
Lemma HasPrefix_before a b t q :
  ¬ byte_in b q → HasPrefix (a +:+ String b t) q = true → HasPrefix a q = true.
Proof.
  revert a. induction q as [|d q IH]; intros a Hb H; [by destruct a|].
  destruct a as [|c a].
  - change ("" +:+ String b t) with (String b t) in H. cbn [HasPrefix] in H.
    destruct (decide (d = b)) as [->|]; [|discriminate H]. destruct Hb. by left.
  - change (String c a +:+ String b t) with (String c (a +:+ String b t)) in H. cbn [HasPrefix] in H |- *.
    destruct (decide (d = c)); [|done]. apply IH; [|done]. intros Hq. apply Hb. by right.
Qed.

Lemma Contains_split a b t q :
  ¬ byte_in b q → Contains (a +:+ String b t) q = true → q ≠ "" →
  Contains a q = true ∨ Contains t q = true.
Proof.
  intros Hb H Hq. induction a as [|c a IH].
  - change ("" +:+ String b t) with (String b t) in H. rewrite Contains_cons in H.
    apply orb_prop in H as [H|H]; [|by right].
    apply (HasPrefix_before "" b t q Hb) in H. destruct q; done.
  - change (String c a +:+ String b t) with (String c (a +:+ String b t)) in H.
    rewrite Contains_cons in H |- *. apply orb_prop in H as [H|H].
    + left. apply (HasPrefix_before (String c a) b t q Hb) in H. by rewrite H.
    + destruct (IH H) as [->|]; [left; apply orb_true_r|by right].
Qed.

Lemma Contains_after_marker t q :
  redactable q → Contains (redactedMarker +:+ t) q = true → Contains t q = true.
Proof.
  intros (Hne & Hb & Ht) H.
  change (redactedMarker +:+ t) with ("" +:+ String SUB (redacted_tag +:+ String SUB t)) in H.
  apply Contains_split in H as [H|H]; [by rewrite Contains_empty in H| |done..].
  apply Contains_split in H as [H|H]; [congruence|done..].
Qed.

(** The scan keeps what it does not replace. *)
Lemma HasPrefix_replace old s q :
  ¬ byte_in SUB q → HasPrefix (replace_from old redactedMarker s 0) q = true → HasPrefix s q = true.
Proof.
  revert q. induction s as [|c s IH]; intros q Hb H; [exact H|].
  cbn [replace_from] in H. destruct (HasPrefix (String c s) old).
  - destruct q as [|d q]; [done|]. exfalso.
    unfold redactedMarker in H.
    change ((String SUB redacted_tag +:+ String SUB "") +:+ ?t)
      with (String SUB ((redacted_tag +:+ String SUB "") +:+ t)) in H.
    cbn [HasPrefix] in H. destruct (decide (d = SUB)) as [->|]; [|discriminate H]. apply Hb. by left.
  - destruct q as [|d q]; [done|]. cbn [HasPrefix] in H |- *.
    destruct (decide (d = c)); [|done]. apply IH; [|done]. intros Hq. apply Hb. by right.
Qed.

Lemma replace_keeps_out old s skip q :
  redactable q → Contains (replace_from old redactedMarker s skip) q = true →
  Contains s q = true ∧ q ≠ old.
Proof.
  intros Hr. pose proof Hr as (Hne & Hb & _). revert skip.
  induction s as [|c s IH]; intros skip H; cbn [replace_from] in H.
  { by rewrite Contains_empty in H. }
  rewrite Contains_cons. destruct skip as [|k].
  - destruct (HasPrefix (String c s) old) eqn:E.
    + apply Contains_after_marker in H; [|done]. apply IH in H as [-> ?]. split; [apply orb_true_r|done].
    + rewrite Contains_cons in H. apply orb_prop in H as [H|H].
      * assert (HasPrefix (String c s) q = true) as Hp.
        { apply (HasPrefix_replace old _ q Hb). cbn [replace_from]. by rewrite E. }
        rewrite Hp. split; [done|]. congruence.
      * apply IH in H as [-> ?]. split; [apply orb_true_r|done].
  - apply IH in H as [-> ?]. split; [apply orb_true_r|done].
Qed.

Definition redactable_b (q : string) : bool :=
  negb (String.eqb q "") && bool_decide (SUB ∉ String.list_ascii_of_string q) &&
  negb (Contains redacted_tag q).

Lemma byte_in_list b s : byte_in b s ↔ b ∈ String.list_ascii_of_string s.
Proof.
  induction s as [|c s IH]; simpl; [by rewrite elem_of_nil|]. rewrite elem_of_cons, IH. clear IH. intuition congruence.
Qed.

Lemma signatures_redactable sig : sig ∈ protectedSignatures → redactable sig.
Proof.
  intros H. assert (Hall : forallb redactable_b protectedSignatures = true) by (vm_compute; reflexivity).
  apply list_elem_of_In in H. apply (proj1 (forallb_forall _ _) Hall) in H.
  unfold redactable_b in H. apply andb_prop in H as [[H1 H2]%andb_prop H3].
  apply negb_true_iff, String.eqb_neq in H1. apply bool_decide_eq_true in H2.
  apply negb_true_iff in H3. split_and!; [done|by rewrite byte_in_list|done].
Qed.

Lemma scrub_fold_out sigs s q :
  redactable q → Contains s q = false →
  Contains (foldl (fun s sig => ReplaceAll s sig redactedMarker) s sigs) q = false.
Proof.
  intros Hr. revert s. induction sigs as [|sig sigs IH]; intros s H; simpl; [done|].
  apply IH. destruct (Contains (ReplaceAll s sig redactedMarker) q) eqn:E; [|done].
  apply replace_keeps_out in E as [E _]; [congruence|done].
Qed.

Lemma scrub_fold_removes sigs s q :
  redactable q → q ∈ sigs →
  Contains (foldl (fun s sig => ReplaceAll s sig redactedMarker) s sigs) q = false.
Proof.
  intros Hr Hin. revert s. induction sigs as [|sig sigs IH]; intros s; [by apply elem_of_nil in Hin|].
  apply elem_of_cons in Hin as [<-|Hin]; simpl; [|by apply IH].
  apply scrub_fold_out; [done|].
  destruct (Contains (ReplaceAll s q redactedMarker) q) eqn:E; [|done].
  by apply replace_keeps_out in E as [_ ?].
Qed.

(** * Claims *)

(** Whatever the text, [Scrub] leaves no protected signature in it: the
    replacements are made one signature after another, and no later one joins
    two pieces into a signature an earlier one had removed. *)
Theorem scrub_removes_all (s sig : string) :
  sig ∈ protectedSignatures → Contains (Scrub s) sig = false.
Proof. intros H. apply scrub_fold_removes; [by apply signatures_redactable|done]. Qed.

(** An error response carries one non-empty request id, the same in the
    log line, the X-Request-Id header and the body, sends the status that is
    logged, and its body is a function of the code and that id alone: no part
    of the cause reaches the client. *)
Theorem http_error_correlated (encode : Body → string) (statusCode : Z) (code : option Code)
    (requestID ctx_id : string) (cause : list string) (random : option (list Z)) :
  let '(line, calls) := HTTP encode statusCode code requestID ctx_id cause random in
  l_request_id line ≠ "" ∧
  calls = [SetHeader "X-Request-Id" (l_request_id line); SetHeader "X-Request-Id" (l_request_id line);
           SetHeader "Content-Type" "application/json"; WriteHeader (l_status line);
           Write (encode (mkBody (l_code line) (defaultMessage (l_code line)) (l_request_id line)))] ∧
  sent_status calls = l_status line ∧
  (requestID ≠ "" → l_request_id line = requestID) ∧
  (statusCode = 0 → l_status line = HTTPStatus (l_code line)).
Proof.
  unfold HTTP.
  set (id0 := if String.eqb requestID "" then ctx_id else requestID).
  set (id := if String.eqb id0 "" then "panic-" +:+ reqIDFallback random else id0).
  assert (Hid : String.eqb id "" = false).
  { unfold id. destruct (String.eqb id0 "") eqn:E; [done|done]. }
  assert (Hm : ∀ c, Message c (Message c "") = defaultMessage c) by (by intros []).
  unfold Render. rewrite Hid, Hm. simpl.
  split_and!; [by apply String.eqb_neq|done|done| |by intros ->].
  intros Hr. apply String.eqb_neq in Hr. unfold id, id0. by rewrite Hr, Hr.
Qed.

(** ** Witness and boundary cases *)

Lemma scrub_removes_all_witness :
  Contains (Scrub "dial postgres://u:p@127.0.0.1") "postgres://" = false ∧
  Scrub "key sk-1" = "key " +:+ redactedMarker +:+ "1".
Proof.
  split; [|vm_compute; reflexivity]. apply scrub_removes_all.
  apply (bool_decide_unpack _). vm_compute. exact I.
Defined.

(** Half of the codes have no envelope of their own. *)
Lemma codes_without_status :
  HTTPStatus CodeUnauthenticated = 500 ∧ HTTPStatus CodeRequestTooLarge = 500 ∧
  HTTPStatus CodeConcurrencyLimit = 500 ∧ HTTPStatus CodeModelNotAllowed = 500 ∧
  HTTPStatus CodeAdminRequired = 500.
Proof. done. Qed.
