(* ===== verification/Middleware.v ===== *)
(** * Middleware: src/internal/gateway (middleware.go, server.go)

    The chain in front of the gateway handlers: request id, panic recovery,
    access log, authentication, rate and budget enforcement, concurrency cap.
    A handler maps a request context and the shared state to the calls it makes
    on the response writer, whether it panicked, and the new state.  Chains are
    proved against the [Limiter] interface of Limiter.v and the concurrency cap;
    authentication is the Go code's [VKeyAuthenticator] function type. *)

From S2P Require Import Prelude GoString Float64 GoTime Limiter ApiErr.
Local Open Scope string_scope.
Local Open Scope Z_scope.

Record AuthResult := mkAuth {
  OrgID : string;
  UserID : string;
  VKeyID : string;
  AllowedModels : list string;
  RPMLimit : Z;
  MonthlyBudget : float64;
  MinQuality : float64
}.

(** The values the chain puts in the request context.  A missing value reads as
    the zero value of its type, so absence and zero are not distinguished. *)
Record reqCtx := mkCtx {
  ctx_RequestID : string;
  ctx_OrgID : string;
  ctx_UserID : string;
  ctx_VKeyID : string;
  ctx_AllowedModels : list string;
  ctx_RPMLimit : Z;
  ctx_MonthlyBudget : float64;
  ctx_MinQuality : float64
}.

Definition background : reqCtx := mkCtx "" "" "" "" [] 0 fzero fzero.

Definition OrgIDFrom (c : reqCtx) : string := ctx_OrgID c.
Definition UserIDFrom (c : reqCtx) : string := ctx_UserID c.

(** The headers the chain reads. *)
Record Request := mkRequest { h_Authorization : string; h_XRequestId : string }.

(** What running a handler gives: writer calls, panicked or not, state. *)
Record outcome (W : Type) := mkOutcome { o_calls : list wcall; o_panic : bool; o_state : W }.
Arguments mkOutcome {W}.
Arguments o_calls {W}.
Arguments o_panic {W}.
Arguments o_state {W}.

Definition Handler (W : Type) : Type := Request → reqCtx → W → outcome W.

(** ASCII lower case; [EqualFold] against a prefix made of the letters b, e, a
    and r, which have no other case folding than their ASCII one. *)
Definition lower (c : ascii) : ascii :=
  let n := nat_of_ascii c in
  if (65 <=? n)%nat && (n <=? 90)%nat then ascii_of_nat (n + 32) else c.
Definition ToLower (s : string) : string :=
  String.string_of_list_ascii (map lower (String.list_ascii_of_string s)).
Definition EqualFold (s t : string) : bool := String.eqb (ToLower s) (ToLower t).

Definition bearerToken (r : Request) : string :=
  let h := h_Authorization r in
  if (7 <? Z.of_nat (String.length h)) && EqualFold (take_bytes 7 h) "Bearer "
  then TrimSpace (drop_bytes 7 h)
  else "".

Section Chain.
Context {W : Type} (encode_error : string → string → string).

(** [writeError] of handler.go: the id of the context on the header, the scrubbed
    message and the error type in the body. *)
Definition writeError (c : reqCtx) (status : Z) (errType msg : string) : list wcall :=
  ((if String.eqb (ctx_RequestID c) "" then [] else [SetHeader "X-Request-Id" (ctx_RequestID c)]) ++
   [SetHeader "Content-Type" "application/json"; WriteHeader status;
    Write (encode_error (Scrub msg) errType)])%list.

Definition reject (w : W) (calls : list wcall) : outcome W := mkOutcome calls false w.

(** [RequestID]; [uuid] is [uuid.NewString()]. *)
Definition RequestID (uuid : string) (next : Handler W) : Handler W := fun r c w =>
  let id := if String.eqb (h_XRequestId r) "" then uuid else h_XRequestId r in
  let o := next r (mkCtx id (ctx_OrgID c) (ctx_UserID c) (ctx_VKeyID c) (ctx_AllowedModels c)
                     (ctx_RPMLimit c) (ctx_MonthlyBudget c) (ctx_MinQuality c)) w in
  mkOutcome (SetHeader "X-Request-Id" id :: o_calls o) (o_panic o) (o_state o).

Definition Recover (next : Handler W) : Handler W := fun r c w =>
  let o := next r c w in
  if o_panic o
  then mkOutcome (o_calls o ++ writeError c 500 "internal_error" "internal server error")%list
         false (o_state o)
  else o.

(** [statusWriter]: the status and whether something was written. *)
Definition sw_call (sw : Z * bool) (c : wcall) : Z * bool :=
  let '(status, wrote) := sw in
  match c with
  | WriteHeader code => if wrote then sw else (code, true)
  | Write _ => (status, true)
  | SetHeader _ _ | Flush => sw
  end.

(** The status the access log records. *)
Definition logged_status (calls : list wcall) : Z := fst (foldl sw_call (200, false) calls).

Definition Auth (auth : option (string → option AuthResult)) (next : Handler W) : Handler W := fun r c w =>
  match auth with
  | None =>
      next r (mkCtx (ctx_RequestID c) "default" (ctx_UserID c) "" (ctx_AllowedModels c)
                (ctx_RPMLimit c) (ctx_MonthlyBudget c) (ctx_MinQuality c)) w
  | Some auth =>
      let token := bearerToken r in
      if String.eqb token "" then
        reject w (writeError c 401 "authentication_error" "missing or malformed Authorization header")
      else match auth token with
           | None => reject w (writeError c 401 "authentication_error" "invalid virtual key")
           | Some a =>
               next r (mkCtx (ctx_RequestID c) (OrgID a) (UserID a) (VKeyID a) (AllowedModels a)
                         (RPMLimit a) (MonthlyBudget a) (MinQuality a)) w
           end
  end.
End Chain.

(** The state the chain shares with the handlers: the limiter's, the cap and
    what is behind them. *)
Record world (L I : Type) := mkWorld { w_lim : L; w_cap : option Cap.ConcurrencyCap; w_inner : I }.
Arguments mkWorld {L I}.
Arguments w_lim {L I}.
Arguments w_cap {L I}.
Arguments w_inner {L I}.

Section Enforcement.
Context {E L I : Type} (encode_error : string → string → string).

Definition set_lim (w : world L I) (l : L) : world L I := mkWorld l (w_cap w) (w_inner w).
Definition set_cap (w : world L I) (c : option Cap.ConcurrencyCap) : world L I :=
  mkWorld (w_lim w) c (w_inner w).

(** The budget check of [Enforce]: is the key's month spent? *)
Definition over_budget (lim : LimiterOps E L) (c : reqCtx) (l : L) : bool :=
  fgt (ctx_MonthlyBudget c) fzero &&
  match op_MonthlySpend lim (ctx_VKeyID c) l with
  | Ok spent => fge spent (ctx_MonthlyBudget c)
  | Err _ => false
  end.

Definition Enforce (lim : option (LimiterOps E L)) (next : Handler (world L I)) : Handler (world L I) :=
  fun r c w =>
  match lim with
  | None => next r c w
  | Some lim =>
      if String.eqb (ctx_VKeyID c) "" then next r c w
      else if over_budget lim c (w_lim w) then
        reject w (writeError encode_error c 402 "budget_exceeded"
                    "monthly budget exhausted for this virtual key")
      else
        let '(answer, l') := op_Allow lim (ctx_VKeyID c) (ctx_RPMLimit c) (w_lim w) in
        match answer with
        | Ok false =>
            reject (set_lim w l')
              (SetHeader "Retry-After" "60" ::
               writeError encode_error c 429 "rate_limit_exceeded"
                 "requests-per-minute limit exceeded for this virtual key")
        | _ => next r c (set_lim w l')
        end
  end.

(** [enabled] is whether the middleware was given a cap.  [Release] is deferred,
    so it runs when the handler panics too. *)
Definition Concurrency (enabled : bool) (next : Handler (world L I)) : Handler (world L I) :=
  fun r c w =>
  if negb enabled || String.eqb (ctx_VKeyID c) "" then next r c w
  else
    let '(ok, cap) := Cap.Acquire (w_cap w) (ctx_VKeyID c) in
    if negb ok then
      reject (set_cap w cap)
        (SetHeader "Retry-After" "1" ::
         writeError encode_error c 429 "concurrency_exceeded"
           "too many concurrent requests for this virtual key; retry shortly")
    else
      let o := next r c (set_cap w cap) in
      mkOutcome (o_calls o) (o_panic o)
        (set_cap (o_state o) (Cap.Release (w_cap (o_state o)) (ctx_VKeyID c))).

(** [NewMux]'s group of authenticated routes, with the chain around it; the
    access log changes nothing. *)
Definition gated (auth : option (string → option AuthResult)) (lim : option (LimiterOps E L))
    (capEnabled : bool) (h : Handler (world L I)) : Handler (world L I) :=
  Auth encode_error auth (Enforce lim (Concurrency capEnabled h)).

Definition mux (uuid : string) (auth : option (string → option AuthResult))
    (lim : option (LimiterOps E L)) (capEnabled : bool) (h : Handler (world L I)) : Handler (world L I) :=
  RequestID uuid (Recover encode_error (gated auth lim capEnabled h)).
End Enforcement.

(** * Theorems *)

(** ** Response writer *)

(** No [Flush] before the header is written. *)
Fixpoint header_first (calls : list wcall) : bool :=
  match calls with
  | [] => true
  | SetHeader _ _ :: calls' => header_first calls'
  | WriteHeader _ :: _ | Write _ :: _ => true
  | Flush :: _ => false
  end.

Lemma sw_wrote status calls : foldl sw_call (status, true) calls = (status, true).
Proof. induction calls as [|[] calls IH]; simpl; done. Qed.

Lemma sent_status_app calls calls' :
  sent_status (calls ++ calls')%list =
  (if existsb (fun c => match c with SetHeader _ _ => false | _ => true end) calls
   then sent_status calls else sent_status calls').
Proof. induction calls as [|[] calls IH]; simpl; done. Qed.

(** ** The cap around a handler *)

(** A release undoes an admission, whatever else is in flight. *)
Lemma acquire_release max c fl k c' :
  0 < max ≤ int64_max → CapSpec.inv max (c, fl) → Cap.Acquire c k = (true, c') → Cap.Release c' k = c.
Proof.
  intros Hmax (s & Hs & Hm & Hk) Ha. simpl in Hs. subst c. unfold Cap.Acquire in Ha. rewrite Hm in Ha.
  destruct (Z.leb_spec max 0); [lia|]. destruct (Hk k) as [Ek Hle]. cbn [snd] in *.
  pose proof (CapSpec.occ_nonneg k fl) as H0.
  assert (Hd : default 0 (Cap.perKey s !! k) = CapSpec.occ k fl) by (rewrite Ek; case_decide; simpl; lia).
  rewrite Hd in Ha. destruct (Z.leb_spec max (CapSpec.occ k fl)); [done|]. injection Ha as <-.
  unfold int64_max in Hmax.
  unfold Cap.Release. cbn [Cap.maxPerKey Cap.perKey]. destruct (Z.leb_spec max 0); [lia|].
  rewrite wrap64_id by (unfold in_int64, int64_min, int64_max; lia).
  rewrite lookup_insert_eq. cbn [default from_option id]. destruct (Z.ltb_spec 0 (CapSpec.occ k fl + 1)); [|lia].
  rewrite lookup_insert_eq. cbn [default from_option id]. rewrite insert_insert_eq.
  f_equal. destruct s as [m mx]; cbn in *. subst mx. f_equal. apply map_eq. intros k'.
  destruct (Z.eqb_spec (CapSpec.occ k fl + 1 - 1) 0) as [E0|E0].
  - rewrite delete_insert_eq. destruct (decide (k' = k)) as [->|Hne].
    + rewrite lookup_delete_eq, Ek. by rewrite decide_True by lia.
    + by rewrite lookup_delete_ne by done.
  - destruct (decide (k' = k)) as [->|Hne].
    + rewrite lookup_insert_eq, Ek, decide_False by lia. f_equal. lia.
    + by rewrite lookup_insert_ne by done.
Qed.

(** ** Requests per minute, end to end *)

Section EndToEnd.
Context {I : Type} (encode_error : string → string → string) (auth : string → option AuthResult).

(** An arrival: the clock, the order the limiter's sweep visits, the request. *)
Record arrival := mkArrival { ar_now : Time; ar_order : list string; ar_req : Request }.

(** A handler behind the chain; [served] logs the requests that reach it. *)
Definition served_world := world Memory.Memory (list (string * Z) * I).

Definition logging (now : Time) (h : Handler (world Memory.Memory I)) : Handler served_world := fun r c w =>
  let '(log, i) := w_inner w in
  let o := h r c (mkWorld (w_lim w) (w_cap w) i) in
  mkOutcome (o_calls o) (o_panic o)
    (mkWorld (w_lim (o_state o)) (w_cap (o_state o))
       ((ctx_VKeyID c, now / Minute) :: log, w_inner (o_state o))).

Definition arrive (h : Handler (world Memory.Memory I)) (capEnabled : bool)
    (w : served_world) (a : arrival) : served_world :=
  o_state (gated (E := string) encode_error (Some auth)
             (Some (Memory.ops string (ar_now a) (ar_order a))) capEnabled
             (logging (ar_now a) h) (ar_req a) background w).

(** A handler records spend but leaves the request counters alone. *)
Definition keeps_rpm (h : Handler (world Memory.Memory I)) : Prop :=
  ∀ r c w, Memory.rpm (w_lim (o_state (h r c w))) = Memory.rpm (w_lim w).

Context (k : string) (mi L : Z).

Definition rpm_inv (n : nat) (w : served_world) : Prop :=
  ∃ st, MemorySpec.sim st (w_lim w) ∧ (length st ≤ n)%nat ∧
    MemorySpec.count (fst (w_inner w)) k mi ≤ MemorySpec.count st k mi ∧
    MemorySpec.count (fst (w_inner w)) k mi ≤ L.

Lemma sim_rpm st m m' : Memory.rpm m' = Memory.rpm m → MemorySpec.sim st m → MemorySpec.sim st m'.
Proof. unfold MemorySpec.sim. by intros ->. Qed.

(** What lies behind [Enforce]: the state is that of a rejection, or the handler
    ran once on it. *)
Lemma Concurrency_log (h : Handler (world Memory.Memory I)) now capEnabled r c (w : served_world) :
  keeps_rpm h →
  let w' := o_state (Concurrency encode_error capEnabled (logging now h) r c w) in
  Memory.rpm (w_lim w') = Memory.rpm (w_lim w) ∧
  (fst (w_inner w') = fst (w_inner w) ∨ fst (w_inner w') = (ctx_VKeyID c, now / Minute) :: fst (w_inner w)).
Proof.
  intros Hh. unfold Concurrency, logging.
  destruct (negb capEnabled || String.eqb (ctx_VKeyID c) "").
  - destruct (w_inner w) as [log i] eqn:E; simpl. rewrite Hh. auto.
  - destruct (Cap.Acquire (w_cap w) (ctx_VKeyID c)) as [[] cap]; simpl; [|auto].
    destruct (w_inner w) as [log i] eqn:E; simpl. rewrite Hh. auto.
Qed.

Lemma allow_grows e st :
  (length (snd (MemorySpec.allow e st)) ≤ S (length st))%nat ∧
  MemorySpec.count st k mi ≤ MemorySpec.count (snd (MemorySpec.allow e st)) k mi.
Proof.
  unfold MemorySpec.allow. destruct (_ <=? 0); simpl; [lia|].
  rewrite MemorySpec.count_cons. case_decide; lia.
Qed.

Lemma rpm_inv_step h capEnabled n w a :
  keeps_rpm h → k ≠ "" → 0 < L → Z.of_nat n ≤ 10000 → valid_time (ar_now a) →
  (∀ t res, auth t = Some res → VKeyID res = k → RPMLimit res = L) →
  rpm_inv n w → rpm_inv (S n) (arrive h capEnabled w a).
Proof.
  intros Hh Hk HL Hn Ht Hlim (st & Hsim & Hlen & Hle & HleL).
  assert (Hsame : ∀ w' : served_world, Memory.rpm (w_lim w') = Memory.rpm (w_lim w) →
            fst (w_inner w') = fst (w_inner w) → rpm_inv (S n) w').
  { intros w' Hr Hi. exists st. rewrite Hi. split_and!; [by eapply sim_rpm|lia|done..]. }
  unfold arrive, gated, Auth. destruct (String.eqb (bearerToken (ar_req a)) ""); [by apply Hsame|].
  destruct (auth (bearerToken (ar_req a))) as [res|] eqn:Ea; [|by apply Hsame].
  unfold Enforce. cbn [ctx_VKeyID ctx_RPMLimit].
  destruct (String.eqb (VKeyID res) "") eqn:Ek.
  { apply String.eqb_eq in Ek.
    match goal with |- rpm_inv _ (o_state (Concurrency _ _ _ ?r ?c w)) =>
      destruct (Concurrency_log h (ar_now a) capEnabled r c w Hh) as [Hr [Hi|Hi]] end;
      [by apply Hsame|].
    exists st. rewrite Hi. cbn [ctx_VKeyID]. rewrite MemorySpec.count_cons, decide_False by congruence.
    split_and!; [by eapply sim_rpm|lia|lia|lia]. }
  destruct (over_budget _ _ _); [by apply Hsame|].
  pose (e := MemorySpec.mkEvent (ar_now a) (ar_order a) (VKeyID res) (RPMLimit res)).
  destruct (MemorySpec.sim_step st (w_lim w) e Hsim Ht ltac:(lia)) as [Hb Hsim'].
  cbn [e MemorySpec.ev_now MemorySpec.ev_order MemorySpec.ev_key MemorySpec.ev_limit] in Hb, Hsim'.
  cbn [Memory.ops op_Allow].
  destruct (Memory.Allow (ar_now a) (ar_order a) (VKeyID res) (RPMLimit res) (w_lim w)) as [b m'].
  cbn [fst snd] in Hb, Hsim'.
  pose proof (allow_grows e st) as Hgrow.
  destruct b.
  - match goal with |- rpm_inv _ (o_state (Concurrency _ _ _ ?r ?c ?w')) =>
      destruct (Concurrency_log h (ar_now a) capEnabled r c w' Hh) as [Hr Hi] end.
    exists (snd (MemorySpec.allow e st)). split; [by eapply sim_rpm|]. split; [lia|].
    cbn [w_inner set_lim] in Hi. destruct Hi as [->| ->]; [lia|]. cbn [ctx_VKeyID].
    rewrite MemorySpec.count_cons. case_decide as Hd; [|lia]. injection Hd as Hd1 Hd2.
    rewrite <- Hd1 in *. revert Hb. unfold MemorySpec.allow.
    cbn [e MemorySpec.ev_now MemorySpec.ev_key MemorySpec.ev_limit].
    rewrite (Hlim _ _ Ea eq_refl). destruct (Z.leb_spec L 0); [lia|]. cbn [fst snd].
    rewrite MemorySpec.count_cons, Hd2, decide_True by done. intros Hb. symmetry in Hb.
    apply Z.ltb_lt in Hb. lia.
  - exists (snd (MemorySpec.allow e st)). cbn [reject o_state set_lim w_lim w_inner].
    split_and!; [done|lia|lia|lia].
Qed.

Lemma rpm_inv_run h capEnabled arrivals n w :
  keeps_rpm h → k ≠ "" → 0 < L → Z.of_nat (n + length arrivals) ≤ 10000 →
  Forall (fun a => valid_time (ar_now a)) arrivals →
  (∀ t res, auth t = Some res → VKeyID res = k → RPMLimit res = L) →
  rpm_inv n w → rpm_inv (n + length arrivals) (foldl (arrive h capEnabled) w arrivals).
Proof.
  intros Hh Hk HL. revert n w. induction arrivals as [|a arrivals IH]; intros n w Hn HF Hlim Hinv.
  { by rewrite Nat.add_0_r. }
  apply Forall_cons in HF as [Ha HF]. simpl in Hn |- *. rewrite <- Nat.add_succ_comm.
  apply IH; [lia|done..|]. apply rpm_inv_step; auto. lia.
Qed.
End EndToEnd.

(** * Claims *)

(** The reasons for which the chain refuses a caller it has authenticated as [a]. *)
Definition budget_spent {E L} (lim : option (LimiterOps E L)) (a : AuthResult) (l : L) : Prop :=
  ∃ ops spent, lim = Some ops ∧ VKeyID a ≠ "" ∧ fgt (MonthlyBudget a) fzero = true ∧
    op_MonthlySpend ops (VKeyID a) l = Ok spent ∧ fge spent (MonthlyBudget a) = true.
Definition rate_refused {E L} (lim : option (LimiterOps E L)) (a : AuthResult) (l : L) : Prop :=
  ∃ ops, lim = Some ops ∧ VKeyID a ≠ "" ∧ fst (op_Allow ops (VKeyID a) (RPMLimit a) l) = Ok false.
Definition cap_full (enabled : bool) (a : AuthResult) (cap : option Cap.ConcurrencyCap) : Prop :=
  enabled = true ∧ VKeyID a ≠ "" ∧ fst (Cap.Acquire cap (VKeyID a)) = false.

Definition accepted (auth : string → option AuthResult) (r : Request) (a : AuthResult) : Prop :=
  bearerToken r ≠ "" ∧ auth (bearerToken r) = Some a.

(** The context a handler sees: that of the key's holder. *)
Definition holder (c : reqCtx) (a : AuthResult) : reqCtx :=
  mkCtx (ctx_RequestID c) (OrgID a) (UserID a) (VKeyID a) (AllowedModels a) (RPMLimit a) (MonthlyBudget a) (MinQuality a).

(** The request was answered with [status] and nothing behind the chain changed. *)
Definition refused_with {L I} (status : Z) (w : world L I) (o : outcome (world L I)) : Prop :=
  sent_status (o_calls o) = status ∧ o_panic o = false ∧ w_inner (o_state o) = w_inner w.

(** The handler ran once, in the context [c], on a state that differs from [w] only
    in the limiter and the cap, and its answer and effects are the request's. *)
Definition served_by {L I} (h : Handler (world L I)) (r : Request) (c : reqCtx) (w : world L I)
    (o : outcome (world L I)) : Prop :=
  ∃ w1, w_inner w1 = w_inner w ∧ o_calls o = o_calls (h r c w1) ∧ o_panic o = o_panic (h r c w1) ∧
    w_lim (o_state o) = w_lim (o_state (h r c w1)) ∧ w_inner (o_state o) = w_inner (o_state (h r c w1)).

Lemma reject_status {L I} (encode_error : string → string → string) c s t m l (w w' : world L I) :
  Forall (fun x => match x with SetHeader _ _ => True | _ => False end) l → w_inner w' = w_inner w →
  refused_with s w (reject w' (l ++ writeError encode_error c s t m)%list).
Proof.
  intros Hl Hw. split_and!; try done. cbn [reject o_calls].
  induction Hl as [|[] l Hx Hl IH]; try done. unfold writeError. by destruct (String.eqb (ctx_RequestID c) "").
Qed.

Lemma Concurrency_exact {L I : Type} (encode_error : string → string → string) (enabled : bool)
    (h : Handler (world L I)) (r : Request) (c : reqCtx) (a : AuthResult) (w w' : world L I) :
  w_inner w' = w_inner w →
  let o := Concurrency encode_error enabled h r (holder c a) w' in
  (cap_full enabled a (w_cap w') → refused_with 429 w o) ∧
  (¬ cap_full enabled a (w_cap w') → served_by h r (holder c a) w o).
Proof.
  intros Hw. unfold Concurrency, cap_full. cbn [ctx_VKeyID holder].
  destruct enabled; cbn [negb orb]; [|split; [by intros []|intros _; by exists w']].
  destruct (String.eqb_spec (VKeyID a) "") as [E|E]; [split; [by intros (_ & ? & _)|intros _; by exists w']|].
  destruct (Cap.Acquire (w_cap w') (VKeyID a)) as [[] cap]; cbn [fst negb]; split; try (by intros (_ & _ & ?)).
  - intros _. by exists (set_cap w' cap).
  - intros _. by apply (reject_status encode_error _ 429 _ _ [SetHeader "Retry-After" "1"]); [repeat constructor|].
  - intros H. by destruct H.
Qed.

(** [C5] Which requests get through the chain, exactly.  A request whose bearer token is
    missing or not accepted is answered 401.  One accepted as [a] is answered 402
    when a limiter is set, the key has an id and a budget, and the limiter reports
    the month's spend as reaching it; else 429 when the limiter refuses the rate or
    the concurrency cap is full; and nothing behind the chain changes.  In every
    other case the handler runs once, in the context of the key's holder.  So the
    chain lets a request through when the limiter is missing or fails, and for a
    key without an id. *)
Theorem gate_admits_only_authorized {E L I : Type} (encode_error : string → string → string)
    (auth : string → option AuthResult) (lim : option (LimiterOps E L)) (capEnabled : bool)
    (h : Handler (world L I)) (r : Request) (c : reqCtx) (w : world L I) :
  let o := gated encode_error (Some auth) lim capEnabled h r c w in
  ((∀ a, ¬ accepted auth r a) → refused_with 401 w o) ∧
  ∀ a, accepted auth r a →
    (budget_spent lim a (w_lim w) → refused_with 402 w o) ∧
    (¬ budget_spent lim a (w_lim w) → rate_refused lim a (w_lim w) ∨ cap_full capEnabled a (w_cap w) →
     refused_with 429 w o) ∧
    (¬ budget_spent lim a (w_lim w) → ¬ rate_refused lim a (w_lim w) → ¬ cap_full capEnabled a (w_cap w) →
     served_by h r (holder c a) w o).
Proof.
  intros o. subst o. unfold gated, Auth, accepted.
  destruct (String.eqb_spec (bearerToken r) "") as [Et|Et].
  { split; [intros _; by apply (reject_status _ _ 401 _ _ [])|]. by intros a [? _]. }
  destruct (auth (bearerToken r)) as [a|] eqn:Ea.
  2: { split; [intros _; by apply (reject_status _ _ 401 _ _ [])|]. by intros a [_ ?]. }
  split; [intros H; by destruct (H a)|]. intros a' [_ [= <-]]. clear Ea. fold (holder c a).
  unfold Enforce, budget_spent, rate_refused. cbn [ctx_VKeyID ctx_RPMLimit holder].
  assert (∀ w', w_inner w' = w_inner w → w_cap w' = w_cap w →
    let o := Concurrency encode_error capEnabled h r (holder c a) w' in
    (cap_full capEnabled a (w_cap w) → refused_with 429 w o) ∧
    (¬ cap_full capEnabled a (w_cap w) → served_by h r (holder c a) w o)) as Hcap
    by (intros w' Hi <-; by apply Concurrency_exact).
  destruct lim as [ops|].
  2: { destruct (Hcap w eq_refl eq_refl) as [H1 H2]. split_and!; [by intros (? & ? & [=] & _)| |auto].
       intros _ [(? & [=] & _)|?]; auto. }
  destruct (String.eqb_spec (VKeyID a) "") as [Ek|Ek].
  { destruct (Hcap w eq_refl eq_refl) as [H1 H2]. split_and!; [by intros (? & ? & _ & ? & _)| |auto].
    intros _ [(? & _ & ? & _)|?]; [done|auto]. }
  destruct (over_budget ops (holder c a) (w_lim w)) eqn:Eb;
    unfold over_budget in Eb; cbn [ctx_MonthlyBudget ctx_VKeyID holder] in Eb.
  { apply andb_prop in Eb as [Eb Es]. destruct (op_MonthlySpend ops (VKeyID a) (w_lim w)) as [spent|e] eqn:Em; [|done].
    split_and!; [intros _; by apply (reject_status _ _ 402 _ _ [])|..]; intros Hn; exfalso; apply Hn; by eexists _, _. }
  split_and!.
  { intros (ops' & spent & [= <-] & _ & Hb & Hs & Hge). rewrite Hb, Hs in Eb. cbn in Eb. congruence. }
  all: intros _; destruct (op_Allow ops (VKeyID a) (RPMLimit a) (w_lim w)) as [ans l'] eqn:El;
    destruct (Hcap (set_lim w l') eq_refl eq_refl) as [H1 H2].
  - intros [(ops' & [= <-] & _ & Hf)|Hc].
    + rewrite El in Hf. cbn in Hf. subst ans.
      by apply (reject_status _ _ 429 _ _ [SetHeader "Retry-After" "60"]); [repeat constructor|].
    + destruct ans as [[]|e]; [auto| |auto].
      by apply (reject_status _ _ 429 _ _ [SetHeader "Retry-After" "60"]); [repeat constructor|].
  - intros Hn Hc. destruct ans as [[]|e]; [auto| |auto]. exfalso. apply Hn. exists ops. by rewrite El.
Qed.

(** A slot of the concurrency cap is given back on every way out: after
    the cap's middleware has run a handler that does not itself touch the cap,
    the cap is exactly what it was, whether the request was refused, answered,
    or ended in a panic. *)
Theorem concurrency_released {L I : Type} (encode_error : string → string → string) (max : Z)
    (h : Handler (world L I)) (r : Request) (c : reqCtx) (w : world L I) (fl : list string) :
  0 < max ≤ int64_max → CapSpec.inv max (w_cap w, fl) →
  (∀ w', w_cap (o_state (h r c w')) = w_cap w') →
  w_cap (o_state (Concurrency encode_error true h r c w)) = w_cap w.
Proof.
  intros Hmax Hinv Hh. unfold Concurrency. cbn [negb orb].
  destruct (String.eqb (ctx_VKeyID c) ""); [apply Hh|].
  destruct (Cap.Acquire (w_cap w) (ctx_VKeyID c)) as [ok cap] eqn:Ea. destruct ok; cbn [negb].
  - cbn [o_state set_cap w_cap]. rewrite Hh. cbn [set_cap w_cap].
    by apply (acquire_release max _ fl _ _ Hmax Hinv).
  - cbn [reject o_state set_cap w_cap]. unfold Cap.Acquire in Ea.
    destruct (w_cap w); [|done]. by repeat case_match; simplify_eq.
Qed.

(** [C38] No panic escapes the chain, and a panic of the handler before it has
    written anything is answered with status 500; one after the header was
    sent leaves the status that was sent. *)
Theorem panic_contained {E L I : Type} (encode_error : string → string → string) (uuid : string)
    (auth : option (string → option AuthResult)) (lim : option (LimiterOps E L)) (capEnabled : bool)
    (h : Handler (world L I)) (r : Request) (c : reqCtx) (w : world L I) :
  let o := mux encode_error uuid auth lim capEnabled h r c w in
  let id := if String.eqb (h_XRequestId r) "" then uuid else h_XRequestId r in
  let inner := gated encode_error auth lim capEnabled h r
                 (mkCtx id (ctx_OrgID c) (ctx_UserID c) (ctx_VKeyID c) (ctx_AllowedModels c)
                    (ctx_RPMLimit c) (ctx_MonthlyBudget c) (ctx_MinQuality c)) w in
  o_panic o = false ∧ o_state o = o_state inner ∧
  sent_status (o_calls o) =
    (if o_panic inner &&
        negb (existsb (fun x => match x with SetHeader _ _ => false | _ => true end) (o_calls inner))
     then 500 else sent_status (o_calls inner)).
Proof.
  intros o id inner. subst o. unfold mux, RequestID, Recover. fold id. fold inner.
  destruct (o_panic inner) eqn:Ep; cbn [o_panic o_state o_calls sent_status andb]; [|done].
  split_and!; [done..|]. rewrite sent_status_app.
  destruct (existsb _ (o_calls inner)); cbn [negb]; [done|].
  unfold writeError. cbn [ctx_RequestID]. by destruct (String.eqb id "").
Qed.

(** The status in the access log is the status on the wire, for every
    sequence of writer calls that does not flush before writing the header. *)
Theorem access_log_status (calls : list wcall) :
  header_first calls = true → logged_status calls = sent_status calls.
Proof.
  unfold logged_status. induction calls as [|[k v|code|body|] calls IH].
  - done.
  - exact IH.
  - intros _. cbn [foldl sw_call]. by rewrite sw_wrote.
  - intros _. cbn [foldl sw_call]. by rewrite sw_wrote.
  - discriminate.
Qed.

(** Rate limiting end to end: of any sequence of up to 10000 requests
    through authentication, enforcement over the in-memory limiter and the
    concurrency cap, at most [L] per UTC minute reach the handler for a key
    whose requests-per-minute limit is [L > 0]. *)
Theorem rpm_end_to_end {I : Type} (encode_error : string → string → string)
    (auth : string → option AuthResult) (h : Handler (world Memory.Memory I)) (capEnabled : bool)
    (cap : option Cap.ConcurrencyCap) (i : I) (arrivals : list arrival) (k : string) (mi L : Z) :
  keeps_rpm h → k ≠ "" → 0 < L → Z.of_nat (length arrivals) ≤ 10000 →
  Forall (fun a => valid_time (ar_now a)) arrivals →
  (∀ t res, auth t = Some res → VKeyID res = k → RPMLimit res = L) →
  MemorySpec.count
    (fst (w_inner (foldl (arrive encode_error auth h capEnabled)
                     (mkWorld Memory.NewMemory cap ([], i)) arrivals))) k mi ≤ L.
Proof.
  intros Hh Hk HL Hn HF Hlim.
  destruct (rpm_inv_run encode_error auth k mi L h capEnabled arrivals 0
    (mkWorld Memory.NewMemory cap ([], i)) Hh Hk HL Hn HF Hlim) as (st & _ & _ & _ & H); [|exact H].
  exists []. split_and!; [apply MemorySpec.sim_init|done|done|]. unfold MemorySpec.count. simpl. lia.
Qed.

(** ** Witnesses *)

Definition enc_plain (msg errType : string) : string := errType +:+ ": " +:+ msg.
Definition ok_handler {I} : Handler (world Memory.Memory I) := fun _ _ w =>
  mkOutcome [WriteHeader 200; Write "{}"] false w.
Definition panicking {I} : Handler (world Memory.Memory I) := fun _ _ w => mkOutcome [] true w.
Definition one_key (t : string) : option AuthResult :=
  if String.eqb t "nx-1" then Some (mkAuth "acme" "" "vk1" [] 1 fzero fzero) else None.
Definition with_key : Request := mkRequest "bearer nx-1" "".

Lemma concurrency_released_witness :
  w_cap (o_state (Concurrency enc_plain true panicking with_key
    (mkCtx "" "acme" "" "vk1" [] 0 fzero fzero)
    (mkWorld Memory.NewMemory (Some (Cap.NewConcurrencyCap 2)) tt))) =
  Some (Cap.NewConcurrencyCap 2).
Proof.
  refine (concurrency_released enc_plain 2 panicking with_key
    (mkCtx "" "acme" "" "vk1" [] 0 fzero fzero)
    (mkWorld Memory.NewMemory (Some (Cap.NewConcurrencyCap 2)) tt) [] _ _ _);
    [unfold int64_max; lia|apply CapSpec.inv_init; lia|done].
Defined.

Lemma access_log_status_witness :
  logged_status [SetHeader "a" "b"; WriteHeader 429; Write "{}"; WriteHeader 500] = 429.
Proof. by rewrite (access_log_status [SetHeader "a" "b"; WriteHeader 429; Write "{}"; WriteHeader 500] eq_refl). Defined.

(** A flush before the header makes the two differ. *)
Lemma flush_first_boundary :
  logged_status [Flush; WriteHeader 500] = 500 ∧ sent_status [Flush; WriteHeader 500] = 200.
Proof. done. Qed.

Definition two_arrivals : list arrival :=
  [mkArrival noon [] with_key; mkArrival (noon + Second) [] with_key].

Lemma rpm_end_to_end_witness :
  MemorySpec.count
    (fst (w_inner (foldl (arrive enc_plain one_key ok_handler false)
                     (mkWorld Memory.NewMemory None ([], tt)) two_arrivals))) "vk1" (noon / Minute) ≤ 1.
Proof.
  apply rpm_end_to_end; [done|done|lia|simpl; lia| |].
  - apply Forall_cons; split; [|apply Forall_cons; split; [|by apply Forall_nil]];
      unfold valid_time; vm_compute; split; congruence.
  - intros t res. unfold one_key. destruct (String.eqb t "nx-1"); [|done]. by intros [= <-].
Defined.
