(* ===== verification/Egress.v ===== *)
(** * Egress: src/internal/egress (egress.go, default.go)

    The guard every outbound HTTP client goes through: which addresses a
    destination of each trust class may resolve to, how URLs are vetted in the
    proxy and in-cluster modes, which dials are let through, and how redirects
    are bounded and stripped of credentials.

    An error is its kind (what [errors.Is] tells apart); message texts are left
    out.  [url.Parse] is a parameter; the resolver's answer is an argument of
    each call that asks it, since DNS may change between two of them. *)

From S2P Require Import Prelude GoString GoTime Net GoUrl.
Local Open Scope string_scope.
Local Open Scope Z_scope.

(** ** Classes and tables *)

Inductive Class := Operator | Tenant.

#[export] Instance Class_eq_dec : EqDecision Class.
Proof. solve_decision. Defined.

(** [netip.MustParsePrefix] of the literals below. *)
Definition MustParsePrefix (s : string) : Prefix :=
  default (PrefixFrom (Addr4 0) 0) (ParsePrefix s).

Definition alwaysBlocked : list Prefix :=
  MustParsePrefix <$> ["0.0.0.0/8"; "::/128"; "224.0.0.0/4"; "ff00::/8"; "255.255.255.255/32"].

Definition metadataBlocked : list Prefix :=
  MustParsePrefix <$> ["169.254.0.0/16"; "fe80::/10"; "fd00:ec2::/32"].

Definition tenantBlocked : list Prefix :=
  MustParsePrefix <$>
    ["127.0.0.0/8"; "::1/128"; "10.0.0.0/8"; "172.16.0.0/12"; "192.168.0.0/16"; "100.64.0.0/10";
     "fc00::/7"; "192.0.0.0/24"; "192.0.2.0/24"; "198.51.100.0/24"; "203.0.113.0/24"; "198.18.0.0/15"].

(** ** Policy and guard *)

Record Policy := mkPolicy {
  TenantAllowedCIDRs : list Prefix;
  MaxRedirects : Z;
  allowLoopback : bool;
  DefaultTimeout : Duration;
  ProxyURL : string;
  PublicDestinationsBlocked : bool;
  AllowedInternalHosts : list string
}.

Definition defaultMaxRedirects : Z := 3.
Definition defaultTimeout : Duration := 30 * Second.

(** A [Guard] is its policy; the resolver is an argument where it is asked. *)
Definition New (p : Policy) : Policy :=
  mkPolicy (TenantAllowedCIDRs p)
    (if MaxRedirects p <=? 0 then defaultMaxRedirects else MaxRedirects p)
    (allowLoopback p)
    (if DefaultTimeout p <=? 0 then defaultTimeout else DefaultTimeout p)
    (ProxyURL p) (PublicDestinationsBlocked p) (AllowedInternalHosts p).

Inductive egress_err := ErrInvalidURL | ErrBlockedDestination | ErrPublicDestination | ErrUnresolvable.

#[export] Instance egress_err_eq_dec : EqDecision egress_err.
Proof. solve_decision. Defined.

(** [None] is [nil]: permitted. *)
Definition verdict : Type := option egress_err.

Definition prefixHas (p : Prefix) (addr : Addr) : bool :=
  if negb (Bool.eqb (Is4 (p_Addr p)) (Is4 addr)) then false else PrefixContains p addr.

Definition checkAddr (g : Policy) (class : Class) (addr : Addr) : verdict :=
  let addr := Unmap addr in
  if existsb (fun p => prefixHas p addr) alwaysBlocked then Some ErrBlockedDestination
  else if existsb (fun p => prefixHas p addr) metadataBlocked then Some ErrBlockedDestination
  else match class with
       | Operator => None
       | Tenant =>
           if IsLinkLocalUnicast addr || IsLinkLocalMulticast addr then Some ErrBlockedDestination
           else if IsLoopback addr then
             if negb (allowLoopback g) then Some ErrBlockedDestination else None
           else if existsb (fun p => prefixHas p addr) (TenantAllowedCIDRs g) then None
           else if existsb (fun p => prefixHas p addr) tenantBlocked then Some ErrBlockedDestination
           else None
       end.

(** ** Destinations *)

(** The resolver's answer: [None] is an error. *)
Definition dns : Type := string → option (list Addr).

Section Guard.
Context (url_Parse : string → option URL) (g : Policy).

Definition parseDestination (rawURL : string) : option URL :=
  match url_Parse rawURL with
  | None => None
  | Some u =>
      let scheme := ToLower (u_Scheme u) in
      if negb (String.eqb scheme "http" || String.eqb scheme "https") then None
      else if String.eqb (Hostname u) "" then None
      else if u_User u then None
      else Some u
  end.

(** The first refusal among the answers. *)
Fixpoint check_all (class : Class) (addrs : list Addr) : verdict :=
  match addrs with
  | [] => None
  | a :: addrs' => match checkAddr g class a with Some e => Some e | None => check_all class addrs' end
  end.

Definition checkURLStatic (d : dns) (rawURL : string) (class : Class) : verdict :=
  match parseDestination rawURL with
  | None => Some ErrInvalidURL
  | Some u =>
      let host := Hostname u in
      match ParseAddr host with
      | Some addr => checkAddr g class addr
      | None =>
          match d host with
          | None => Some ErrUnresolvable
          | Some [] => Some ErrUnresolvable
          | Some addrs => check_all class addrs
          end
      end
  end.

(** ** The in-cluster allow-list *)

(** An entry without its port. *)
Definition entry_host (raw : string) : string :=
  match SplitHostPort raw with Some (h, _) => h | None => raw end.

Definition entry_allows (addr : Addr) (raw : string) : bool :=
  if Contains raw "/" then
    match ParsePrefix raw with Some p => PrefixContains p addr | None => false end
  else match ParseAddr (entry_host raw) with Some a => bool_decide (a = addr) | None => false end.

Definition literalAddrAllowedByOverride (addr : Addr) : bool :=
  existsb (entry_allows addr) (AllowedInternalHosts g).

Definition literalInUnreservedPrivateSpace (addr : Addr) : bool :=
  existsb (fun pfx => match ParsePrefix pfx with Some p => PrefixContains p addr | None => false end)
    ["10.0.0.0/8"; "172.16.0.0/12"; "192.168.0.0/16"].

Definition addrInInternalAllowList (addr : Addr) : bool :=
  match checkAddr g Tenant addr with
  | Some _ => false
  | None => existsb (entry_allows addr) (AllowedInternalHosts g)
  end.

Definition hostInInternalAllowList (host : string) : bool :=
  existsb (fun raw => negb (Contains raw "/") && String.eqb (entry_host raw) host) (AllowedInternalHosts g).

Definition checkURLInClusterOnly (d : dns) (rawURL : string) : verdict :=
  match parseDestination rawURL with
  | None => Some ErrInvalidURL
  | Some u =>
      let host := Hostname u in
      match ParseAddr host with
      | Some addr =>
          let refused := match checkAddr g Tenant addr with Some _ => true | None => false end in
          if refused && negb (literalInUnreservedPrivateSpace addr) then Some ErrBlockedDestination
          else if negb (literalAddrAllowedByOverride addr) then Some ErrPublicDestination
          else None
      | None =>
          match d host with
          | None => Some ErrUnresolvable
          | Some [] => Some ErrUnresolvable
          | Some addrs =>
              match check_all Tenant addrs with
              | Some e => Some e
              | None =>
                  if hostInInternalAllowList host then None
                  else if forallb literalAddrAllowedByOverride addrs then None
                  else Some ErrPublicDestination
              end
          end
      end
  end.

Definition CheckURL (d : dns) (rawURL : string) (class : Class) : verdict :=
  if PublicDestinationsBlocked g && bool_decide (class = Tenant)
  then checkURLInClusterOnly d rawURL
  else checkURLStatic d rawURL class.

Definition matchedByInternalAllowList (d : dns) (rawURL : string) : bool :=
  match parseDestination rawURL with
  | None => false
  | Some u =>
      let host := Hostname u in
      match ParseAddr host with
      | Some addr => literalAddrAllowedByOverride addr
      | None =>
          match d host with
          | None => false
          | Some [] => false
          | Some addrs => forallb literalAddrAllowedByOverride addrs && hostInInternalAllowList host
          end
      end
  end.

(** [d] and [d'] are the answers to the two resolutions of one vetting. *)
Definition vetForModes (d d' : dns) (rawURL : string) (class : Class) : verdict :=
  if negb (PublicDestinationsBlocked g) then CheckURL d rawURL class
  else
    let candidate := CheckURL d rawURL class in
    let candidate := if matchedByInternalAllowList d' rawURL then None else candidate in
    match candidate with
    | Some e => Some e
    | None =>
        match parseDestination rawURL with
        | None => Some ErrInvalidURL
        | Some u =>
            let host := Hostname u in
            match ParseAddr host with
            | Some _ => None
            | None => if hostInInternalAllowList host then None else Some ErrPublicDestination
            end
        end
    end.

(** ** Dials and clients *)

Definition checkDialAddress (class : Class) (address : string) : verdict :=
  match SplitHostPort address with
  | None => Some ErrBlockedDestination
  | Some (host, _) =>
      match ParseAddr host with
      | None => Some ErrBlockedDestination
      | Some addr => checkAddr g class addr
      end
  end.

(** What stands between a client and the network: the dial hook, or the URL
    vetting in front of a transport with or without an explicit proxy. *)
Inductive transport := DialGuarded | URLVetted (explicit_proxy : bool).

Definition Client (timeout : Duration) : Duration * transport :=
  (if timeout <=? 0 then DefaultTimeout g else timeout,
   if String.eqb (ProxyURL g) "" && negb (PublicDestinationsBlocked g) then DialGuarded
   else URLVetted (negb (String.eqb (ProxyURL g) "") &&
                   match url_Parse (ProxyURL g) with Some _ => true | None => false end)).

(** [vettingRoundTripper.RoundTrip]: the request reaches the transport or not. *)
Definition RoundTrip (class : Class) (d d' : dns) (rawURL : string) : verdict :=
  vetForModes d d' rawURL class.

(** ** Redirects *)

Definition stripPort (hostport : string) : string :=
  match SplitHostPort hostport with Some (h, _) => h | None => hostport end.

Definition sameHost (a b : string) : bool := EqualFold (stripPort a) (stripPort b).

(** Canonical header names; a [Header] is a map of them. *)
Definition Header : Type := gmap string string.

Definition vendorKeyHeaders : list string :=
  ["X-Api-Key"; "Api-Key"; "X-Goog-Api-Key"; "X-Datadog-Api-Key"; "X-Dd-Api-Key"; "Dd-Api-Key";
   "X-Arize-Api-Key"; "X-Confident-Api-Key"; "Anthropic-Version"; "X-Langsmith-Api-Key";
   "X-Nexus-Signature"].

Definition strippedHeaders : list string :=
  (["Authorization"; "Proxy-Authorization"; "Cookie"] ++ vendorKeyHeaders)%list.

Definition del_all (names : list string) (hd : Header) : Header :=
  foldl (fun h n => delete n h) hd names.

Record Request := mkRequest { rq_URL : URL; rq_Header : Header }.

(** [via] holds the requests made so far, oldest first; [None] refuses the hop,
    and an empty [via] is not passed by [http.Client]. *)
Definition checkRedirect (req : Request) (via : list Request) : option Request :=
  if MaxRedirects g <=? Z.of_nat (length via) then None
  else match last via with
       | None => None
       | Some prev =>
           let req :=
             if negb (sameHost (u_Host (rq_URL prev)) (u_Host (rq_URL req)))
             then mkRequest (rq_URL req) (del_all strippedHeaders (rq_Header req)) else req in
           if EqualFold (u_Scheme (rq_URL prev)) "https" && EqualFold (u_Scheme (rq_URL req)) "http"
           then None else Some req
       end.

(** [http.Client] on a redirect: the next request carries the headers of the
    very first one (less those [net/http] itself withholds, [strip]), and then
    [CheckRedirect] sees it. *)
Definition next_hop (strip : Header → Header) (first : Request) (via : list Request) (u : URL) :
    option Request :=
  checkRedirect (mkRequest u (strip (rq_Header first))) via.

(** The requests sent while following [locations], oldest first. *)
Fixpoint follow (strip : Header → Header) (first : Request) (via : list Request) (locations : list URL) :
    list Request :=
  match locations with
  | [] => via
  | u :: locations' =>
      match next_hop strip first via u with
      | None => via
      | Some req => follow strip first (via ++ [req])%list locations'
      end
  end.
End Guard.

(** ** default.go *)

(** The process-wide guard: [None] before [SetDefault]. *)
Definition SetDefault (cur : option Policy) (g : option Policy) : option Policy :=
  match g with None => cur | Some _ => g end.

Definition zero_policy : Policy := mkPolicy [] 0 false 0 "" false [].

Definition Default (cur : option Policy) : Policy :=
  match cur with Some g => g | None => New zero_policy end.

Definition CheckConfiguredURL (url_Parse : string → option URL) (cur : option Policy) (d : dns)
    (rawURL : string) (class : Class) : verdict :=
  match CheckURL url_Parse (Default cur) d rawURL class with
  | Some ErrUnresolvable => None
  | v => v
  end.

(** [Err] carries the offending entry. *)
Fixpoint parse_cidrs (fields : list string) (out : list Prefix) : res string (list Prefix) :=
  match fields with
  | [] => Ok out
  | field :: fields' =>
      let field := TrimSpace field in
      if String.eqb field "" then parse_cidrs fields' out
      else match ParsePrefix field with
           | Some p => parse_cidrs fields' (out ++ [Masked_prefix p])%list
           | None =>
               match ParseAddr field with
               | None => Err field
               | Some addr => parse_cidrs fields' (out ++ [PrefixFrom (WithoutZone addr) (width addr)])%list
               end
           end
  end.

Definition ParseTenantAllowedCIDRs (raw : string) : res string (list Prefix) :=
  let raw := TrimSpace raw in
  if String.eqb raw "" then Ok [] else parse_cidrs (Split raw ",") [].

(** * Theorems *)

(** ** Networks as intervals *)

(** The zone-free addresses of the block of [2 ^ (width - bits)] addresses that
    holds the prefix's address. *)
Definition in_net (p : Prefix) (x : Addr) : Prop :=
  let size := 2 ^ (width x - p_Bits p) in
  let start := addr_bits (p_Addr p) / size * size in
  Zone x = "" ∧ Is4 (p_Addr p) = Is4 x ∧ start ≤ addr_bits x < start + size.

Definition valid_prefix (p : Prefix) : Prop := 0 ≤ p_Bits p ≤ width (p_Addr p).

Lemma div_eq_interval a b n : 0 < n → a / n = b / n ↔ b / n * n ≤ a < b / n * n + n.
Proof.
  intros Hn. pose proof (Z.div_mod a n ltac:(lia)). pose proof (Z.mod_pos_bound a n Hn). split.
  - intros <-. lia.
  - intros Hr. symmetry. apply Z.div_unique with (r := a - n * (b / n)); lia.
Qed.

Lemma prefixHas_net p x : valid_prefix p → prefixHas p x = true ↔ in_net p x.
Proof.
  intros [H0 H1]. unfold prefixHas, PrefixContains, in_net.
  destruct (Bool.eqb_spec (Is4 (p_Addr p)) (Is4 x)) as [E|E]; cbn [negb]; [|split; [done|by intros (_ & ? & _)]].
  assert (width (p_Addr p) = width x) as Hw by (unfold width; by rewrite E).
  rewrite andb_true_r, andb_true_iff, Z.eqb_eq, !Z.shiftr_div_pow2, div_eq_interval by lia.
  rewrite String.eqb_eq. tauto.
Qed.

Lemma blocked_net l x :
  Forall valid_prefix l → existsb (fun p => prefixHas p x) l = true ↔ ∃ p, p ∈ l ∧ in_net p x.
Proof.
  intros Hl. rewrite existsb_exists. split.
  - intros (p & Hp & H). apply list_elem_of_In in Hp. exists p. split; [done|].
    apply prefixHas_net; [by eapply Forall_forall in Hl|done].
  - intros (p & Hp & H). exists p. split; [by apply list_elem_of_In|].
    apply prefixHas_net; [by eapply Forall_forall in Hl|done].
Qed.

Lemma not_blocked_net l x :
  Forall valid_prefix l → existsb (fun p => prefixHas p x) l = false ↔ ∀ p, p ∈ l → ¬ in_net p x.
Proof.
  intros Hl. rewrite <- not_true_iff_false, blocked_net by done. split.
  - intros H p Hp Hn. apply H. by exists p.
  - intros H (p & Hp & Hn). by apply (H p).
Qed.

Lemma tables_valid : Forall valid_prefix alwaysBlocked ∧ Forall valid_prefix metadataBlocked ∧
  Forall valid_prefix tenantBlocked.
Proof.
  assert (∀ l, forallb (fun p => (0 <=? p_Bits p) && (p_Bits p <=? width (p_Addr p))) l = true →
    Forall valid_prefix l) as H.
  { intros l. rewrite forallb_forall. intros Hl. apply Forall_forall. intros p Hp%list_elem_of_In.
    apply Hl in Hp. unfold valid_prefix. lia. }
  split_and!; apply H; vm_compute; reflexivity.
Qed.

(** ** The predicates of [netip] that the tables repeat *)

Ltac compute_table t := let l := eval vm_compute in t in change t with l.

(** Unfold a membership test on a concrete table down to comparisons of shifts. *)
Ltac unfold_tests :=
  unfold prefixHas, PrefixContains, width; cbn -[Z.shiftr Z.eqb Z.land];
  repeat match goal with
  | |- context [Z.sub (Zpos ?x) (Zpos ?y)] =>
      let v := eval vm_compute in (Z.sub (Zpos x) (Zpos y)) in change (Z.sub (Zpos x) (Zpos y)) with v
  end.

Lemma link_local_unicast_metadata x :
  Zone x = "" → Unmap x = x → IsLinkLocalUnicast x = true →
  existsb (fun p => prefixHas p x) metadataBlocked = true.
Proof.
  intros Hz Hu. unfold IsLinkLocalUnicast. rewrite Hu.
  compute_table metadataBlocked.
  destruct x as [a|a z]; cbn in Hz; [|subst z]; intros H; apply Z.eqb_eq in H;
    unfold_tests; rewrite H; reflexivity.
Qed.

Lemma link_local_multicast_reserved x :
  valid_addr x → Zone x = "" → Unmap x = x → IsLinkLocalMulticast x = true →
  existsb (fun p => prefixHas p x) alwaysBlocked = true.
Proof.
  intros Hv Hz Hu. unfold IsLinkLocalMulticast. rewrite Hu.
  compute_table alwaysBlocked.
  destruct x as [a|a z]; cbn in Hz, Hv; [|subst z]; intros H; apply Z.eqb_eq in H;
    unfold_tests.
  - assert (Z.shiftr a 28 = 14) as ->.
    { replace 28 with (8 + 20) by lia. rewrite <- Z.shiftr_shiftr, H by lia. reflexivity. }
    rewrite orb_true_r. reflexivity.
  - assert (Z.shiftr a 120 = 255) as ->.
    { replace 120 with (112 + 8) by lia. rewrite <- Z.shiftr_shiftr by lia.
      set (y := Z.shiftr a 112) in *. assert (0 ≤ y < 2 ^ 16) as Hy.
      { unfold y. rewrite Z.shiftr_div_pow2 by lia. split; [apply Z.div_pos; lia|].
        apply Z.div_lt_upper_bound; lia. }
      assert (0 ≤ Z.shiftr y 8 < 2 ^ 8) as Hy8.
      { rewrite Z.shiftr_div_pow2 by lia. split; [apply Z.div_pos; lia|].
        apply Z.div_lt_upper_bound; lia. }
      apply (f_equal (fun v => Z.shiftr v 8)) in H. rewrite Z.shiftr_land in H.
      change (Z.shiftr 65295 8) with (Z.ones 8) in H. rewrite Z.land_ones in H by lia.
      rewrite Z.mod_small in H by done. exact H. }
    rewrite !orb_true_r. reflexivity.
Qed.

Definition loopbackNets : list Prefix := MustParsePrefix <$> ["127.0.0.0/8"; "::1/128"].

Lemma loopback_nets x :
  Zone x = "" → Unmap x = x → IsLoopback x = existsb (fun p => prefixHas p x) loopbackNets.
Proof.
  intros Hz Hu. unfold IsLoopback. rewrite Hu.
  compute_table loopbackNets.
  destruct x as [a|a z]; cbn in Hz; [|subst z]; unfold_tests.
  - by rewrite orb_false_r.
  - rewrite Z.shiftr_0_r. by rewrite orb_false_r.
Qed.

(** ** What a class may reach *)

(** The policy in terms of networks: nothing reserved or link-local for anyone;
    for a tenant, loopback only when opened, and a private network only when the
    operator listed a range that holds the address. *)
Definition reachable (g : Policy) (class : Class) (x : Addr) : Prop :=
  (∀ p, p ∈ (alwaysBlocked ++ metadataBlocked)%list → ¬ in_net p x) ∧
  (class = Tenant →
     if existsb (fun p => prefixHas p x) loopbackNets then allowLoopback g = true
     else (∃ p, p ∈ TenantAllowedCIDRs g ∧ in_net p x) ∨ (∀ p, p ∈ tenantBlocked → ¬ in_net p x)).

(** [C19] The address check is exactly the policy: an address without a zone, in its
    IPv4 form when it is IPv4-mapped, is let through for a class if and only if
    that class may reach it. *)
Theorem check_addr_iff (g : Policy) (class : Class) (x : Addr) :
  valid_addr x → Zone x = "" → Forall valid_prefix (TenantAllowedCIDRs g) →
  checkAddr g class x = None ↔ reachable g class (Unmap x).
Proof.
  intros Hv%valid_Unmap Hz%Unmap_zone_free Hg. destruct tables_valid as (Ha & Hm & Ht).
  unfold checkAddr, reachable. pose proof (Unmap_Unmap x) as Hu. set (y := Unmap x) in *. clearbody y.
  setoid_rewrite elem_of_app.
  destruct (existsb _ alwaysBlocked) eqn:E1.
  { split; [done|]. intros [H _]. apply blocked_net in E1 as (p & Hp & Hn); [|done]. by destruct (H p); [left|]. }
  destruct (existsb _ metadataBlocked) eqn:E2.
  { split; [done|]. intros [H _]. apply blocked_net in E2 as (p & Hp & Hn); [|done]. by destruct (H p); [right|]. }
  pose proof (proj1 (not_blocked_net _ _ Ha) E1) as N1.
  pose proof (proj1 (not_blocked_net _ _ Hm) E2) as N2.
  assert (∀ p, p ∈ alwaysBlocked ∨ p ∈ metadataBlocked → ¬ in_net p y) as Hnone
    by (intros p [Hp|Hp]; [by apply N1|by apply N2]).
  destruct class; [by split|].
  destruct (IsLinkLocalUnicast y) eqn:Eu; [by rewrite link_local_unicast_metadata in E2|].
  destruct (IsLinkLocalMulticast y) eqn:Em; [by rewrite link_local_multicast_reserved in E1|]. cbn [orb].
  rewrite loopback_nets by done. destruct (existsb _ loopbackNets).
  { destruct (allowLoopback g); cbn [negb]; [by split|]. split; [done|]. intros [_ H]. by discriminate H. }
  destruct (existsb _ (TenantAllowedCIDRs g)) eqn:E3.
  { apply (blocked_net _ _ Hg) in E3. split; [|done]. intros _. split; [done|]. intros _. by left. }
  pose proof (proj1 (not_blocked_net _ _ Hg) E3) as N3. destruct (existsb _ tenantBlocked) eqn:E4.
  - apply (blocked_net _ _ Ht) in E4 as (p & Hp & Hn). split; [done|]. intros [_ H].
    destruct (H eq_refl) as [(q & Hq & Hnq)|H']; [by destruct (N3 q)|by destruct (H' p)].
  - pose proof (proj1 (not_blocked_net _ _ Ht) E4) as N4. split; [|done]. intros _. split; [done|]. intros _. by right.
Qed.

(** An IPv6 zone evades every network of the policy: such an address is let
    through for any class and any policy unless it is loopback, link-local or
    IPv4-mapped, although the same address without the zone may be refused. *)
Theorem zoned_address_evades_policy (g : Policy) (class : Class) (a : Z) (z : string) :
  z ≠ "" → Is4In6 (Addr6 a z) = false → IsLoopback (Addr6 a z) = false →
  IsLinkLocalUnicast (Addr6 a z) = false → IsLinkLocalMulticast (Addr6 a z) = false →
  checkAddr g class (Addr6 a z) = None.
Proof.
  intros Hz H4 Hl Hu Hm.
  assert (∀ l, existsb (fun p => prefixHas p (Addr6 a z)) l = false) as Hno.
  { intros l. induction l as [|p l IH]; [done|]. cbn. rewrite IH, orb_false_r. unfold prefixHas.
    case_match; [done|]. by apply PrefixContains_zone. }
  assert (Unmap (Addr6 a z) = Addr6 a z) as Hun by (unfold Unmap; by rewrite H4).
  unfold checkAddr. rewrite Hun, !Hno, Hu, Hm, Hl. by destruct class.
Qed.

(** ** The in-cluster mode *)

Section InCluster.
Context (url_Parse : string → option URL) (g : Policy).

Lemma in_cluster_literal d d' rawURL u addr :
  PublicDestinationsBlocked g = true → parseDestination url_Parse rawURL = Some u →
  ParseAddr (Hostname u) = Some addr →
  vetForModes url_Parse g d d' rawURL Tenant = None ↔ literalAddrAllowedByOverride g addr = true.
Proof.
  intros Hm Hp Ha. unfold vetForModes, CheckURL, matchedByInternalAllowList, checkURLInClusterOnly.
  rewrite Hm, Hp, Ha. cbn [negb andb]. rewrite bool_decide_true by done.
  destruct (literalAddrAllowedByOverride g addr); [done|]. split; [|done].
  by destruct (checkAddr g Tenant addr), (literalInUnreservedPrivateSpace addr).
Qed.

Lemma matched_name d' rawURL u :
  parseDestination url_Parse rawURL = Some u → ParseAddr (Hostname u) = None →
  matchedByInternalAllowList url_Parse g d' rawURL = true ↔
  hostInInternalAllowList g (Hostname u) = true ∧
  ∃ addrs, d' (Hostname u) = Some addrs ∧ addrs ≠ [] ∧
    forallb (literalAddrAllowedByOverride g) addrs = true.
Proof.
  intros Hp Ha. unfold matchedByInternalAllowList. rewrite Hp, Ha.
  destruct (d' (Hostname u)) as [[|a addrs]|].
  - split; [done|]. intros (_ & l & [= <-] & ? & _). done.
  - rewrite andb_true_iff. split; [intros [H1 H2]; split; [done|by exists (a :: addrs)]|].
    intros (Hh & l & [= <-] & _ & Hall). done.
  - split; [done|]. by intros (_ & l & ? & _).
Qed.

(** Requests in the in-cluster mode: a tenant's request to a literal address is
    sent exactly when the operator's list holds that address; to a name, exactly
    when the list holds the name and either every answer of the second
    resolution is listed or the first resolution passes the configuration-time
    check.  No other request is sent. *)
Theorem in_cluster_iff (d d' : dns) (rawURL : string) :
  PublicDestinationsBlocked g = true →
  vetForModes url_Parse g d d' rawURL Tenant = None ↔
  ∃ u, parseDestination url_Parse rawURL = Some u ∧
    match ParseAddr (Hostname u) with
    | Some addr => literalAddrAllowedByOverride g addr = true
    | None =>
        hostInInternalAllowList g (Hostname u) = true ∧
        (checkURLInClusterOnly url_Parse g d rawURL = None ∨
         ∃ addrs, d' (Hostname u) = Some addrs ∧ addrs ≠ [] ∧
           forallb (literalAddrAllowedByOverride g) addrs = true)
    end.
Proof.
  intros Hm. destruct (parseDestination url_Parse rawURL) as [u|] eqn:Hp.
  2: { unfold vetForModes, matchedByInternalAllowList, CheckURL, checkURLInClusterOnly. rewrite Hm, Hp.
       rewrite bool_decide_true by done. split; [done|]. by intros (u & ? & _). }
  transitivity (match ParseAddr (Hostname u) with
    | Some addr => literalAddrAllowedByOverride g addr = true
    | None => hostInInternalAllowList g (Hostname u) = true ∧
        (checkURLInClusterOnly url_Parse g d rawURL = None ∨
         ∃ addrs, d' (Hostname u) = Some addrs ∧ addrs ≠ [] ∧
           forallb (literalAddrAllowedByOverride g) addrs = true) end).
  2: { split; [by exists u|]. intros (u' & [= <-] & H). done. }
  destruct (ParseAddr (Hostname u)) as [addr|] eqn:Ha; [by eapply in_cluster_literal|].
  pose proof (matched_name d' rawURL u Hp Ha) as Hmatch. unfold vetForModes, CheckURL.
  rewrite Hm, Hp, Ha. cbn [negb andb]. rewrite bool_decide_true by done.
  destruct (matchedByInternalAllowList url_Parse g d' rawURL).
  { destruct (proj1 Hmatch eq_refl) as [Hh Hall]. rewrite Hh. split; [|done]. intros _. split; [done|by right]. }
  destruct (checkURLInClusterOnly url_Parse g d rawURL).
  { split; [done|]. intros [Hh [?|Hall]]; [done|]. by discriminate (proj2 Hmatch). }
  destruct (hostInInternalAllowList g (Hostname u)); [|by split; [|intros [? _]]].
  split; [|done]. intros _. split; [done|by left].
Qed.
End InCluster.

(** ** Redirects *)

Section Redirects.
Context (g : Policy) (strip : Header → Header) (first : Request).

(** A followed hop: no downgrade, and no credential when the host changes. *)
Definition hop_ok (prev req : Request) : Prop :=
  (EqualFold (u_Scheme (rq_URL prev)) "https" = true → EqualFold (u_Scheme (rq_URL req)) "http" = false) ∧
  (sameHost (u_Host (rq_URL prev)) (u_Host (rq_URL req)) = false →
   ∀ n, n ∈ strippedHeaders → rq_Header req !! n = None).

Lemma del_all_lookup names hd n : n ∈ names → del_all names hd !! n = None.
Proof.
  unfold del_all. revert hd. induction names as [|m names IH]; intros hd Hn; [by apply not_elem_of_nil in Hn|].
  cbn [foldl]. apply elem_of_cons in Hn as [->|Hn]; [|by apply IH]. clear IH.
  assert (∀ l (h : Header), h !! m = None → foldl (fun h n => delete n h) h l !! m = None) as H.
  { induction l as [|x l IHl]; intros h0 Hh; [done|]. cbn [foldl]. apply IHl, lookup_delete_None. by right. }
  apply H. apply lookup_delete_eq.
Qed.

Lemma checkRedirect_ok req via req' prev :
  checkRedirect g req via = Some req' → last via = Some prev →
  Z.of_nat (length via) < MaxRedirects g ∧ hop_ok prev req'.
Proof.
  unfold checkRedirect. intros H Hl. destruct (Z.leb_spec (MaxRedirects g) (Z.of_nat (length via))); [done|].
  split; [done|]. rewrite Hl in H.
  destruct (sameHost (u_Host (rq_URL prev)) (u_Host (rq_URL req))) eqn:Eh; cbn [negb] in H;
    destruct (EqualFold (u_Scheme (rq_URL prev)) "https") eqn:E1;
    destruct (EqualFold (u_Scheme (rq_URL req)) "http") eqn:E2; cbn [rq_URL andb] in H; rewrite ?E2 in H; simplify_eq;
    (split; cbn [rq_URL rq_Header]; [by rewrite ?E1, ?E2|]); rewrite Eh; try done; intros _ n Hn;
    by apply del_all_lookup.
Qed.

(** [C37] Following redirects stops after the configured number of requests, never goes
    from https to http, and the request after a change of host carries none of
    the credential headers. *)
Theorem redirects_bounded_and_stripped (locations : list URL) :
  let l := follow g strip first [first] locations in
  Z.of_nat (length l) ≤ Z.max 1 (MaxRedirects g) ∧
  ∀ i prev req, l !! i = Some prev → l !! S i = Some req → hop_ok prev req.
Proof.
  assert (∀ via, via ≠ [] → Z.of_nat (length via) ≤ Z.max 1 (MaxRedirects g) →
    (∀ i prev req, via !! i = Some prev → via !! S i = Some req → hop_ok prev req) →
    let l := follow g strip first via locations in
    Z.of_nat (length l) ≤ Z.max 1 (MaxRedirects g) ∧
    ∀ i prev req, l !! i = Some prev → l !! S i = Some req → hop_ok prev req) as H;
    [|apply H; [done|cbn; lia|by intros [|i] prev req]].
  induction locations as [|u locations IH]; intros via Hne Hlen Hok; [done|]. cbn [follow].
  unfold next_hop. destruct (checkRedirect g _ via) as [req|] eqn:E; [|done].
  destruct (last via) as [prev|] eqn:Hl; [|by apply last_None in Hl].
  destruct (checkRedirect_ok _ _ _ _ E Hl) as [Hlt Hhop]. apply IH.
  - by destruct via.
  - rewrite length_app. cbn. lia.
  - intros i p r Hp Hr. destruct (decide (S i < length via)%nat) as [Hi|Hi].
    + rewrite lookup_app_l in Hp, Hr by lia. by eapply Hok.
    + pose proof (lookup_lt_Some _ _ _ Hr) as Hi'. rewrite length_app in Hi'. cbn in Hi'.
      assert (S i = length via) as Ei by lia. rewrite Ei, list_lookup_middle in Hr by done. simplify_eq.
      rewrite last_lookup, <- Ei in Hl. cbn in Hl. rewrite lookup_app_l in Hp by lia. by simplify_eq.
Qed.
End Redirects.

(** ** The operator's ranges *)

Lemma digit_val_nonneg c d : digit_val c = Some d → 0 ≤ d.
Proof.
  unfold digit_val. case_match eqn:E; intros; simplify_eq.
  apply andb_prop in E as [E%Nat.leb_le _]. lia.
Qed.

Lemma decimal_nonneg s : ∀ acc v, 0 ≤ acc → decimal acc s = Some v → 0 ≤ v.
Proof.
  induction s as [|c s IH]; intros acc v Ha H; cbn in H; [by simplify_eq|].
  destruct (digit_val c) as [d|] eqn:E; [|done]. apply digit_val_nonneg in E. eapply IH; [|done]. lia.
Qed.

Lemma ParsePrefix_valid s p : ParsePrefix s = Some p → valid_prefix p.
Proof.
  unfold ParsePrefix. destruct (LastIndex s "/") as [i|]; [|done].
  destruct (ParseAddr _) as [a|]; [|done]. case_match; [done|].
  destruct (prefix_bits _) as [b|] eqn:Eb; [|done].
  destruct (Z.ltb_spec (width a) b) as [|Hb]; [done|]. intros; simplify_eq. split; [|done]. cbn.
  unfold prefix_bits in Eb. repeat case_match; try done;
    [by eapply digit_val_nonneg|by eapply decimal_nonneg in Eb].
Qed.

Lemma Masked_net p x : valid_prefix p → in_net (Masked_prefix p) x ↔ in_net p x.
Proof.
  intros [H0 H1]. unfold in_net, Masked_prefix.
  assert (∀ a w, p_Bits p ≤ w → Z.shiftl (Z.shiftr a (w - p_Bits p)) (w - p_Bits p) / 2 ^ (w - p_Bits p) =
    a / 2 ^ (w - p_Bits p)) as Hm.
  { intros a w Hw. rewrite Z.shiftl_mul_pow2, Z.shiftr_div_pow2, Z.div_mul by lia. done. }
  destruct (p_Addr p) as [a|a z], x as [b|b z']; cbn [p_Addr p_Bits addr_bits Is4 Zone width] in *;
    try (split; by intros (_ & ? & _)); by rewrite Hm.
Qed.

Lemma single_net a x : in_net (PrefixFrom (WithoutZone a) (width a)) x ↔ x = WithoutZone a.
Proof.
  unfold in_net. destruct a as [a|a z], x as [b|b z']; cbn [p_Addr p_Bits addr_bits Is4 Zone WithoutZone];
    unfold width; cbn [Is4]; try (split; [by intros (_ & ? & _)|done]);
    rewrite Z.sub_diag, Z.pow_0_r, Z.div_1_r;
    (split; [intros (Hz & _ & ?); cbn in Hz; subst; f_equal; lia|intros H; simplify_eq; split_and!; first [done|lia]]).
Qed.

(** The addresses an entry stands for. *)
Definition field_net (f : string) (x : Addr) : Prop :=
  match ParsePrefix f with
  | Some p => in_net p x
  | None => ∃ a, ParseAddr f = Some a ∧ x = WithoutZone a
  end.

Lemma parse_cidrs_ok fields : ∀ out ps,
  parse_cidrs fields out = Ok ps →
  ∃ new, ps = (out ++ new)%list ∧
    Forall2 (fun f p => valid_prefix p ∧ ∀ x, in_net p x ↔ field_net f x)
      (filter (fun f => f ≠ "") (TrimSpace <$> fields)) new.
Proof.
  induction fields as [|f fields IH]; intros out ps H; cbn [parse_cidrs] in H.
  { simplify_eq. exists []. by rewrite app_nil_r. }
  rewrite fmap_cons, filter_cons. destruct (String.eqb_spec (TrimSpace f) "") as [E|E].
  { rewrite decide_False by tauto. by apply IH. }
  rewrite decide_True by done. unfold field_net at 1.
  destruct (ParsePrefix (TrimSpace f)) as [p|] eqn:Ep.
  - apply IH in H as (new & -> & Hn). exists (Masked_prefix p :: new). rewrite <- app_assoc. split; [done|].
    constructor; [|done]. pose proof (ParsePrefix_valid _ _ Ep) as Hv. unfold field_net. rewrite Ep. split.
    + unfold valid_prefix, Masked_prefix, width in *. by destruct (p_Addr p).
    + intros x. by apply Masked_net.
  - destruct (ParseAddr (TrimSpace f)) as [a|] eqn:Ea; [|done].
    apply IH in H as (new & -> & Hn). exists (PrefixFrom (WithoutZone a) (width a) :: new).
    rewrite <- app_assoc. split; [done|]. constructor; [|done]. unfold field_net. rewrite Ep. split.
    + unfold valid_prefix, width. destruct a; cbn; lia.
    + intros x. rewrite single_net, Ea. split; [by exists a|]. by intros (? & [= <-] & ->).
Qed.

(** What the operator's list of ranges parses to: when it is accepted, each
    non-empty entry gives, in order, one well-formed prefix that holds exactly
    the addresses of the range or the single address it names. *)
Theorem allowed_cidrs_exact (raw : string) (ps : list Prefix) :
  ParseTenantAllowedCIDRs raw = Ok ps →
  Forall2 (fun f p => valid_prefix p ∧ ∀ x, in_net p x ↔ field_net f x)
    (filter (fun f => f ≠ "") (TrimSpace <$> Split (TrimSpace raw) ",")) ps.
Proof.
  unfold ParseTenantAllowedCIDRs. destruct (String.eqb_spec (TrimSpace raw) "") as [E|E].
  - intros [= <-]. rewrite E. constructor.
  - intros H. by apply parse_cidrs_ok in H as (new & -> & Hn).
Qed.

(** Credentials leak on the second hop: [http.Client] rebuilds each hop's headers
    from the first request, and [checkRedirect] compares a hop only with the one
    before it, so after a redirect to another host a second redirect within that
    host carries every vendor key header of the first request, which [net/http]
    does not withhold itself. *)
Theorem redirect_leaks_on_second_hop (g : Policy) (strip : Header → Header) (first : Request)
    (u1 u2 : URL) (name key : string) :
  2 < MaxRedirects g → (∀ hd, strip hd !! name = hd !! name) →
  rq_Header first !! name = Some key →
  EqualFold (u_Scheme u1) "http" = false → EqualFold (u_Scheme u2) "http" = false →
  sameHost (u_Host u1) (u_Host u2) = true →
  ∃ r1 r2, follow g strip first [first] [u1; u2] = [first; r1; r2] ∧
    rq_URL r2 = u2 ∧ rq_Header r2 !! name = Some key.
Proof.
  intros Hmax Hstrip Hkey Hs1 Hs2 Hsame. cbn [follow]. unfold next_hop, checkRedirect.
  destruct (Z.leb_spec (MaxRedirects g) (Z.of_nat (length [first]))) as [H|_]; [cbn in H; lia|].
  cbn [last]. set (r1 := if negb (sameHost (u_Host (rq_URL first)) _) then _ else _).
  assert (rq_URL r1 = u1) as E1 by (unfold r1; by case_match). rewrite E1, Hs1, andb_false_r.
  cbn [app length last]. destruct (Z.leb_spec (MaxRedirects g) (Z.of_nat 2)) as [H|_]; [lia|].
  rewrite E1. cbn [rq_URL]. rewrite Hsame. cbn [negb rq_URL]. rewrite Hs2, andb_false_r.
  eexists r1, _. split; [done|]. split; [done|]. cbn. by rewrite Hstrip.
Qed.

(** ** Concrete instances *)

(** [url.Parse] on texts of the form [scheme://host/...]. *)
Definition simple_parse (s : string) : option URL :=
  match Cut s ":" with
  | Some (scheme, rest) =>
      match Cut (drop_bytes 2 rest) "/" with
      | Some (host, _) => Some (mkURL scheme host false)
      | None => Some (mkURL scheme (drop_bytes 2 rest) false)
      end
  | None => None
  end.

Definition no_dns : dns := fun _ => None.
Definition strict : Policy := New zero_policy.

Definition in_cluster (hosts : list string) : Policy := New (mkPolicy [] 0 false 0 "" true hosts).

Lemma check_addr_iff_witness :
  (checkAddr strict Tenant (Addr6 (Z.shiftl 65535 32 + 167772161) "") = None ↔
   reachable strict Tenant (Addr4 167772161)) ∧
  checkAddr strict Tenant (Addr6 (Z.shiftl 65535 32 + 167772161) "") = Some ErrBlockedDestination.
Proof.
  split; [|vm_compute; reflexivity].
  apply (check_addr_iff strict Tenant (Addr6 (Z.shiftl 65535 32 + 167772161) ""));
    [vm_compute; split; congruence|reflexivity|constructor].
Defined.

(** AWS's metadata address is refused, the same address with a zone is not. *)
Lemma zoned_address_evades_policy_witness :
  let imds := Z.shiftl 64768 112 + Z.shiftl 3778 96 + 596 in
  checkAddr strict Tenant (Addr6 imds "") = Some ErrBlockedDestination ∧
  checkAddr strict Tenant (Addr6 imds "eth0") = None ∧
  CheckURL simple_parse strict no_dns "http://[fd00:ec2::254%eth0]/latest" Tenant = None ∧
  checkDialAddress strict Tenant "[fd00:ec2::254%eth0]:80" = None.
Proof.
  split; [vm_compute; reflexivity|]. split; [|vm_compute; split; reflexivity].
  apply (zoned_address_evades_policy strict Tenant (Z.shiftl 64768 112 + Z.shiftl 3778 96 + 596) "eth0");
    [discriminate|vm_compute; reflexivity..].
Defined.

(** In the in-cluster mode the operator's list reopens the metadata service, which
    the address check refuses for every class. *)
Lemma in_cluster_iff_witness :
  let g := in_cluster ["169.254.0.0/16"] in
  (vetForModes simple_parse g no_dns no_dns "http://169.254.169.254/latest" Tenant = None ↔
   ∃ u, parseDestination simple_parse "http://169.254.169.254/latest" = Some u ∧
    match ParseAddr (Hostname u) with
    | Some addr => literalAddrAllowedByOverride g addr = true
    | None =>
        hostInInternalAllowList g (Hostname u) = true ∧
        (checkURLInClusterOnly simple_parse g no_dns "http://169.254.169.254/latest" = None ∨
         ∃ addrs, no_dns (Hostname u) = Some addrs ∧ addrs ≠ [] ∧
           forallb (literalAddrAllowedByOverride g) addrs = true)
    end) ∧
  vetForModes simple_parse g no_dns no_dns "http://169.254.169.254/latest" Tenant = None ∧
  checkAddr g Operator (Addr4 2852039166) = Some ErrBlockedDestination ∧
  addrInInternalAllowList g (Addr4 2852039166) = false.
Proof.
  split; [|vm_compute; split_and!; reflexivity].
  apply (in_cluster_iff simple_parse (in_cluster ["169.254.0.0/16"]) no_dns no_dns
    "http://169.254.169.254/latest"); reflexivity.
Defined.

(** The configuration check accepts a name whose answers are all listed; the
    request to it is refused, because the name itself is not. *)
Example configured_name_refused_at_request :
  let g := New (mkPolicy [MustParsePrefix "10.0.0.0/8"] 0 false 0 "" true ["10.0.0.0/8"]) in
  let d : dns := fun _ => Some [Addr4 167772161] in
  CheckURL simple_parse g d "http://llm.internal/v1" Tenant = None ∧
  vetForModes simple_parse g d d "http://llm.internal/v1" Tenant = Some ErrPublicDestination.
Proof. vm_compute. split; reflexivity. Qed.

Definition vendor_request : Request :=
  mkRequest (mkURL "https" "vendor.example" false) {["X-Api-Key" := "secret"]}.
Definition evil (n : string) : URL := mkURL "https" "evil.example" false.

Lemma redirect_leaks_on_second_hop_witness :
  ∃ r1 r2, follow strict (fun h => h) vendor_request [vendor_request] [evil "1"; evil "2"] =
      [vendor_request; r1; r2] ∧
    rq_URL r2 = evil "2" ∧ rq_Header r2 !! "X-Api-Key" = Some "secret".
Proof.
  apply (redirect_leaks_on_second_hop strict (fun h => h) vendor_request (evil "1") (evil "2")
    "X-Api-Key" "secret"); [reflexivity|reflexivity|vm_compute; reflexivity..].
Defined.

Lemma allowed_cidrs_exact_witness :
  Forall2 (fun f p => valid_prefix p ∧ ∀ x, in_net p x ↔ field_net f x)
    (filter (fun f => f ≠ "") (TrimSpace <$> Split (TrimSpace " 10.1.2.3/8, fd00::1 ,,") ","))
    [PrefixFrom (Addr4 167772160) 8; PrefixFrom (Addr6 (Z.shiftl 64768 112 + 1) "") 128].
Proof. apply (allowed_cidrs_exact " 10.1.2.3/8, fd00::1 ,,"). vm_compute. reflexivity. Defined.
