(* ===== verification/IpPolicy.v ===== *)
(** * IpPolicy: src/internal/ippolicy/ippolicy.go

    Which address a request is said to come from: the socket's, or a hop of
    X-Forwarded-For when the socket belongs to a trusted proxy, and the masking
    of addresses.  A [*net.IPNet] is the canonical prefix [net.ParseCIDR] gives,
    [None] a nil one. *)

From S2P Require Import Prelude GoString GoTime Net GoUrl ApiErr.
Local Open Scope string_scope.
Local Open Scope Z_scope.

Record Source := mkSource {
  RawSocketAddr : string;
  RawSocketHost : string;
  TrustProxyHeader : bool;
  HopsUsed : nat;
  HeaderChain : list string;
  EffectiveIP : string
}.

(** [IPNet.Contains], after [net.ParseIP]. *)
Definition TrustedRemote (host : string) (cidrList : list (option Prefix)) : bool :=
  if String.eqb host "" then false
  else match ParseIP host with
       | None => false
       | Some ip => existsb (fun c => match c with None => false | Some c => PrefixContains c ip end) cidrList
       end.

Definition HeaderMaxLen : Z := 8 * 1024.

Definition forwarded_hop (p : string) : string :=
  match SplitHostPort p with Some (h, _) => h | None => p end.

Definition ParseForwardedFor (value : string) : list string :=
  if HeaderMaxLen <? Z.of_nat (String.length value) then []
  else map forwarded_hop (filter (fun p => p ≠ "") (map TrimSpace (Split value ","))).

(** The walk from the right: the hops from the rightmost to the left, how many
    were accepted, and the last one of them. *)
Fixpoint walk (trusted : string → bool) (hops_from_right : list string) (trustedHops : Z) (accepted : nat)
    (effective : string) : nat * string :=
  match hops_from_right with
  | [] => (accepted, effective)
  | hop :: hops =>
      match ParseIP hop with
      | None => (accepted, effective)
      | Some _ =>
          if negb (trusted hop) then (accepted, effective)
          else if trustedHops <=? Z.of_nat (S accepted) then (S accepted, hop)
          else walk trusted hops trustedHops (S accepted) hop
      end
  end.

(** [remoteAddr] and [xff] are the request's RemoteAddr and X-Forwarded-For. *)
Definition ResolveSource (remoteAddr xff : string) (trustedCIDRs : list (option Prefix)) (trustedHops : Z) : Source :=
  let '(rawAddr, rawHost) :=
    if String.eqb remoteAddr "" then ("", "")
    else match SplitHostPort remoteAddr with
         | Some (host, _) => (remoteAddr, host)
         | None => (remoteAddr +:+ ":0", remoteAddr)
         end in
  let addr := Scrub rawAddr in
  let host := Scrub rawHost in
  if (length trustedCIDRs =? 0)%nat || (trustedHops <=? 0) || String.eqb rawHost "" then
    mkSource addr host false 0 [] host
  else if negb (TrustedRemote rawHost trustedCIDRs) then mkSource addr host false 0 [] host
  else if String.eqb xff "" then mkSource addr host true 0 [] host
  else
    let hops := ParseForwardedFor xff in
    let '(accepted, effective) := walk (fun h => TrustedRemote h trustedCIDRs) (reverse hops) trustedHops 0 "" in
    mkSource addr host true accepted hops (if String.eqb effective "" then host else effective).

(** ** Text of addresses *)

Definition dotted (a : Z) : string :=
  Join (map (fun k => pretty (Z.land (Z.shiftr a k) 255)) [24; 16; 8; 0]) ".".

(** [appendHex]: four bits at a time, no leading zeros. *)
Definition hex_text (g : Z) : string :=
  (if 4096 <=? g then hex_digit (Z.shiftr g 12) else "") +:+
  (if 256 <=? g then hex_digit (Z.land (Z.shiftr g 8) 15) else "") +:+
  (if 16 <=? g then hex_digit (Z.land (Z.shiftr g 4) 15) else "") +:+
  hex_digit (Z.land g 15).

Definition groups_of (a : Z) : list Z :=
  map (fun k => Z.land (Z.shiftr a k) 65535) [112; 96; 80; 64; 48; 32; 16; 0].

Fixpoint zero_run (groups : list Z) : nat :=
  match groups with
  | 0 :: groups' => S (zero_run groups')
  | _ => O
  end.

(** The first longest run of at least two zero groups: where it starts and ends,
    from position [i] on, [best] being the best run so far. *)
Fixpoint longest_run (i : nat) (groups : list Z) (best : option (nat * nat)) : option (nat * nat) :=
  match groups with
  | [] => best
  | _ :: groups' =>
      let l := zero_run groups in
      let size := match best with Some (s, e) => e - s | None => 0 end%nat in
      longest_run (S i) groups' (if (2 <=? l)%nat && (size <? l)%nat then Some (i, (i + l)%nat) else best)
  end.

Definition hex_list (groups : list Z) : string := Join (map hex_text groups) ":".

Definition ipv6_text (a : Z) : string :=
  let groups := groups_of a in
  match longest_run 0 groups None with
  | None => hex_list groups
  | Some (s, e) => hex_list (take s groups) +:+ "::" +:+ hex_list (drop e groups)
  end.

(** [IP.String]; an IPv4-mapped address prints as IPv4. *)
Definition IP_String (ip : Addr) : string :=
  match Unmap ip with
  | Addr4 a => dotted a
  | Addr6 a _ => ipv6_text a
  end.

Definition mask_addr (ip : Addr) : Addr :=
  match Unmap ip with
  | Addr4 a => Addr4 (Z.shiftl (Z.shiftr a 8) 8)
  | Addr6 a _ => Addr6 (Z.shiftl (Z.shiftr a 80) 80) ""
  end.

Definition Masked (ip : string) : string :=
  if String.eqb ip "" then ""
  else match ParseIP ip with
       | None => ip
       | Some parsed => IP_String (mask_addr parsed)
       end.

Definition HopsFromConfig (s : string) : Z :=
  if String.eqb s "" then 1
  else match Atoi s with
       | None => 0
       | Some n => if n <? 0 then 0 else n
       end.

Example masked_examples :
  map Masked ["203.0.113.77"; "2001:db8:aa:bb::1"; "::ffff:10.1.2.3"; "::1"; "fe80::1%eth0"; "0:7::1"; ""] =
  ["203.0.113.0"; "2001:db8:aa::"; "10.1.2.0"; "::"; "fe80::1%eth0"; "0:7::"; ""].
Proof. vm_compute. reflexivity. Qed.

Example ipv6_texts :
  map (fun s => IP_String <$> ParseIP s) ["1:0:0:2:0:0:0:3"; "1:0:2:0:3:0:4:0"; "::"; "a:b:c:d:e:f:10:fff"; "0:0:1::2"] =
  map Some ["1:0:0:2::3"; "1:0:2:0:3:0:4:0"; "::"; "a:b:c:d:e:f:10:fff"; "0:0:1::2"].
Proof. vm_compute. reflexivity. Qed.

(** * Theorems *)

(** ** The walk *)

Lemma TrustedRemote_parses cidrs h : TrustedRemote h cidrs = true → h ≠ "" ∧ is_Some (ParseIP h).
Proof.
  unfold TrustedRemote. destruct (String.eqb_spec h "") as [|Hne]; [done|]. destruct (ParseIP h); [done|]. done.
Qed.

(** What the walk accepts, hops counted from the right: a run of trusted hops, as
    long as it gets. *)
Lemma walk_spec cidrs hops trustedHops acc eff :
  let trusted h := TrustedRemote h cidrs in
  0 < trustedHops → Z.of_nat acc < trustedHops →
  ∃ k : nat, (k ≤ length hops)%nat ∧
    walk trusted hops trustedHops acc eff = ((acc + k)%nat, default eff (last (take k hops))) ∧
    Forall (fun h => trusted h = true) (take k hops) ∧
    (Z.of_nat (acc + k) = trustedHops ∨ ∀ h, hops !! k = Some h → trusted h = false) ∧
    Z.of_nat (acc + k) ≤ trustedHops.
Proof.
  cbn zeta. intros Hpos. revert acc eff. induction hops as [|h hops IH]; intros acc eff Hacc.
  { exists 0%nat. cbn. rewrite Nat.add_0_r. split_and!; try done; [|lia]. by right. }
  cbn [walk]. destruct (ParseIP h) as [a|] eqn:Ep; cycle 1.
  { exists 0%nat. cbn. rewrite Nat.add_0_r. split_and!; try done; [lia| |lia]. right. intros ? [= <-].
    apply not_true_is_false. intros [_ Hs]%TrustedRemote_parses. rewrite Ep in Hs. by destruct Hs. }
  destruct (TrustedRemote h cidrs) eqn:Et; cbn [negb]; cycle 1.
  { exists 0%nat. cbn. rewrite Nat.add_0_r. split_and!; try done; [lia| |lia]. right. by intros ? [= <-]. }
  destruct (Z.leb_spec trustedHops (Z.of_nat (S acc))) as [Hle|Hlt].
  { exists 1%nat. cbn. rewrite Nat.add_1_r. split_and!; try done; [lia|by constructor|left; lia|lia]. }
  destruct (IH (S acc) h Hlt) as (k & Hk & -> & Hf & Hend & Hb).
  exists (S k). cbn [take length]. rewrite Nat.add_succ_r. split_and!; [lia| |by constructor|done|done].
  f_equal. rewrite last_cons. by destruct (last (take k hops)).
Qed.

(** The effective address never depends on what the client can write: it is the
    socket's, or that of a trusted hop of X-Forwarded-For which only trusted hops
    follow, the socket being trusted itself; at most [trustedHops] hops are
    taken, and as many as there are.  In particular no address outside the
    trusted ranges is ever reported for a request that came through a proxy. *)
Theorem effective_source_trusted (remoteAddr xff : string) (cidrs : list (option Prefix)) (trustedHops : Z) :
  let src := ResolveSource remoteAddr xff cidrs trustedHops in
  (HopsUsed src = 0%nat ∧ EffectiveIP src = RawSocketHost src) ∨
  (0 < Z.of_nat (HopsUsed src) ≤ trustedHops ∧ TrustProxyHeader src = true ∧
   HeaderChain src = ParseForwardedFor xff ∧
   ∃ before after, HeaderChain src = (before ++ EffectiveIP src :: after)%list ∧
     S (length after) = HopsUsed src ∧
     Forall (fun h => TrustedRemote h cidrs = true) (EffectiveIP src :: after) ∧
     (Z.of_nat (HopsUsed src) = trustedHops ∨ ∀ h, last before = Some h → TrustedRemote h cidrs = false)).
Proof.
  cbn zeta. unfold ResolveSource.
  destruct (if String.eqb remoteAddr "" then _ else _) as [rawAddr rawHost].
  destruct (_ || _ || _) eqn:E0; [by left|]. apply orb_false_elim in E0 as [E0 _]. apply orb_false_elim in E0 as [_ E0].
  apply Z.leb_gt in E0.
  destruct (TrustedRemote rawHost cidrs); [|by left]. destruct (String.eqb xff ""); [by left|]. cbn [negb].
  set (hops := ParseForwardedFor xff).
  destruct (walk_spec cidrs (reverse hops) trustedHops 0 "" E0 ltac:(lia)) as (k & Hk & Hw & Hf & Hend & Hb).
  cbn zeta in Hw, Hf, Hend. rewrite Hw. cbn [Nat.add] in *. rewrite length_reverse in Hk.
  destruct k as [|k]; [by left|]. right. cbn [HopsUsed EffectiveIP TrustProxyHeader HeaderChain].
  assert (is_Some (last (take (S k) (reverse hops)))) as [e He].
  { rewrite last_lookup, length_take, length_reverse. apply lookup_lt_is_Some. rewrite length_take, length_reverse. lia. }
  rewrite He in *. cbn [default from_option id].
  assert (e ≠ "" ∧ TrustedRemote e cidrs = true) as [Hne Het].
  { rewrite Forall_forall in Hf. assert (TrustedRemote e cidrs = true) as Ht; [|by split; [apply TrustedRemote_parses in Ht as [? _]|]].
    apply Hf. rewrite last_lookup in He. by eapply list_elem_of_lookup_2. }
  apply String.eqb_neq in Hne as ->.
  split_and!; [lia|lia|done|done|].
  apply last_Some in He as [l' Hl']. exists (reverse (drop (S k) (reverse hops))), (reverse l').
  assert (length (take (S k) (reverse hops)) = S k) as Hlen by (rewrite length_take, length_reverse; lia).
  rewrite Hl', length_app in Hlen. cbn in Hlen.
  split_and!.
  - rewrite <- (reverse_involutive hops) at 1. rewrite <- (take_drop (S k) (reverse hops)) at 1.
    rewrite reverse_app, Hl', reverse_app. done.
  - rewrite length_reverse. lia.
  - rewrite Hl' in Hf. apply Forall_app in Hf as [Hf _]. constructor; [done|]. by apply Forall_reverse.
  - destruct Hend as [Hend|Hend]; [by left|right]. intros h Hh. apply Hend.
    rewrite last_reverse, head_lookup, lookup_drop, Nat.add_0_r in Hh. done.
Qed.

(** ** Masking *)

Lemma Split_one s sep : ¬ byte_in sep s → Split s sep = [s].
Proof.
  induction s as [|c s IH]; cbn [byte_in Split]; [done|]. intros H.
  rewrite decide_False by tauto. rewrite IH; tauto.
Qed.

Lemma Split_app s t sep : ¬ byte_in sep s → Split (s +:+ String sep t) sep = s :: Split t sep.
Proof.
  induction s as [|c s IH]; cbn [byte_in]; intros H.
  { change ("" +:+ ?x) with x. cbn [Split]. by rewrite decide_True. }
  change (String c s +:+ ?x) with (String c (s +:+ x)). cbn [Split]. rewrite decide_False by tauto. rewrite IH; tauto.
Qed.

Fixpoint holds_byte (b : ascii) (s : string) : bool :=
  match s with
  | "" => false
  | String c s' => Ascii.eqb c b || holds_byte b s'
  end.

Lemma holds_byte_in b s : holds_byte b s = false → ¬ byte_in b s.
Proof.
  induction s as [|c s IH]; cbn; [by intros _ []|]. intros [H1 H2]%orb_false_elim [->|Hs]; [by rewrite Ascii.eqb_refl in H1|].
  by apply IH.
Qed.

Definition octet_ok (n : Z) : bool :=
  bool_decide (octet (pretty n) = Some n) && negb (holds_byte "." (pretty n)) &&
  bool_decide (addr_kind (pretty n) = None).

Lemma octets_ok : all_below 256 octet_ok 0 = true.
Proof. vm_compute. reflexivity. Qed.

Lemma octet_pretty n : 0 ≤ n < 256 →
  octet (pretty n) = Some n ∧ ¬ byte_in "." (pretty n) ∧ addr_kind (pretty n) = None.
Proof.
  intros Hn. pose proof (all_below_spec _ _ _ octets_ok n ltac:(lia)) as H. unfold octet_ok in H.
  apply andb_prop in H as [[H1 H2]%andb_prop H3]. apply bool_decide_eq_true in H1, H3. apply negb_true_iff in H2.
  split_and!; [done| |done]. by apply holds_byte_in.
Qed.

Lemma addr_kind_app s c t :
  addr_kind s = None → c = "."%char ∨ c = ":"%char → addr_kind (s +:+ String c t) = Some c.
Proof.
  induction s as [|d s IH]; cbn [addr_kind]; intros Hs Hc; [by destruct Hc as [->| ->]|].
  change (String d s +:+ ?x) with (String d (s +:+ x)). cbn [addr_kind].
  destruct (_ || _ || _); [done|]. by apply IH.
Qed.

Lemma land_octet a k : 0 ≤ Z.land (Z.shiftr a k) 255 < 256.
Proof. change 255 with (Z.ones 8). rewrite Z.land_ones by lia. apply Z.mod_pos_bound. lia. Qed.

Lemma octets_compose a : 0 ≤ a < 2 ^ 32 →
  ((Z.land (Z.shiftr a 24) 255 * 256 + Z.land (Z.shiftr a 16) 255) * 256 + Z.land (Z.shiftr a 8) 255) * 256 +
  Z.land (Z.shiftr a 0) 255 = a.
Proof.
  intros Ha. change 255 with (Z.ones 8). rewrite !Z.land_ones, !Z.shiftr_div_pow2 by lia.
  change (2 ^ 24) with (256 * 256 * 256). change (2 ^ 16) with (256 * 256). change (2 ^ 8) with 256.
  change (2 ^ 0) with 1. rewrite <- !Z.div_div, Z.div_1_r by lia.
  pose proof (Z.div_mod a 256 ltac:(lia)) as E1. pose proof (Z.div_mod (a / 256) 256 ltac:(lia)) as E2.
  pose proof (Z.div_mod (a / 256 / 256) 256 ltac:(lia)) as E3.
  rewrite (Z.mod_small (a / 256 / 256 / 256)); [lia|]. rewrite !Z.div_div by lia. change (256 * 256 * 256) with 16777216.
  split; [apply Z.div_pos; lia|]. apply Z.div_lt_upper_bound; lia.
Qed.

Lemma ParseAddr_dotted a : 0 ≤ a < 2 ^ 32 → ParseAddr (dotted a) = Some (Addr4 a).
Proof.
  intros Ha. unfold dotted, ParseAddr. cbn [map Join].
  pose proof (octet_pretty _ (land_octet a 24)) as (E1 & D1 & K1).
  pose proof (octet_pretty _ (land_octet a 16)) as (E2 & D2 & _).
  pose proof (octet_pretty _ (land_octet a 8)) as (E3 & D3 & _).
  pose proof (octet_pretty _ (land_octet a 0)) as (E4 & D4 & _).
  assert (∀ x, "." +:+ x = String "." x) as Hdot by done. rewrite !Hdot.
  rewrite addr_kind_app by (done || by left). cbn [Ascii.eqb Bool.eqb]. unfold parseIPv4.
  rewrite (Split_app _ _ _ D1), (Split_app _ _ _ D2), (Split_app _ _ _ D3), (Split_one _ _ D4).
  cbn [fmap list_fmap]. rewrite E1, E2, E3, E4.
  by rewrite octets_compose.
Qed.

(** Hexadecimal groups. *)
Definition hex_ok (d : Z) : bool :=
  match hex_digit d with
  | String c "" => bool_decide (hex_val c = Some d) && negb (byte_of "%:." c)
  | _ => false
  end.

Lemma hexes_ok : all_below 16 hex_ok 0 = true.
Proof. vm_compute. reflexivity. Qed.

Lemma hex_digit_char d : 0 ≤ d < 16 →
  ∃ c, hex_digit d = String c "" ∧ hex_val c = Some d ∧ byte_of "%:." c = false.
Proof.
  intros Hd. pose proof (all_below_spec _ _ _ hexes_ok d ltac:(lia)) as H. unfold hex_ok in H.
  destruct (hex_digit d) as [|c [|]]; [done| |done]. apply andb_prop in H as [H1 H2].
  apply bool_decide_eq_true in H1. apply negb_true_iff in H2. eauto.
Qed.

Lemma land_nibble g k : 0 ≤ Z.land (Z.shiftr g k) 15 < 16.
Proof. change 15 with (Z.ones 4). rewrite Z.land_ones by lia. apply Z.mod_pos_bound. lia. Qed.

(** Texts of one to four digits. *)
Inductive digits_text : list Z → string → Prop :=
| digits_one d c : hex_val c = Some d → byte_of "%:." c = false → digits_text [d] (String c "")
| digits_more d c ds s : hex_val c = Some d → byte_of "%:." c = false → digits_text ds s →
    digits_text (d :: ds) (String c s).

Definition hex_value (acc : Z) (ds : list Z) : Z := foldl (fun a d => a * 16 + d) acc ds.

Lemma hex_text_digits g : 0 ≤ g < 65536 →
  ∃ ds, digits_text ds (hex_text g) ∧ (length ds ≤ 4)%nat ∧ hex_value 0 ds = g.
Proof.
  intros Hg. unfold hex_text.
  destruct (hex_digit_char _ (land_nibble g 0)) as (c0 & E0 & V0 & B0). change (Z.shiftr g 0) with g in *.
  destruct (hex_digit_char _ (land_nibble g 4)) as (c1 & E1 & V1 & B1).
  destruct (hex_digit_char _ (land_nibble g 8)) as (c2 & E2 & V2 & B2).
  assert (0 ≤ Z.shiftr g 12 < 16) as H3.
  { rewrite Z.shiftr_div_pow2 by lia. change (2 ^ 12) with 4096. Z.div_mod_to_equations. lia. }
  destruct (hex_digit_char _ H3) as (c3 & E3 & V3 & B3). rewrite E0, E1, E2, E3. clear E0 E1 E2 E3 H3.
  assert (Z.land g 15 = g mod 16) as L0 by (change 15 with (Z.ones 4); by rewrite Z.land_ones by lia).
  assert (Z.land (Z.shiftr g 4) 15 = g / 16 mod 16) as L1
    by (change 15 with (Z.ones 4); by rewrite Z.land_ones, Z.shiftr_div_pow2 by lia).
  assert (Z.land (Z.shiftr g 8) 15 = g / 256 mod 16) as L2
    by (change 15 with (Z.ones 4); by rewrite Z.land_ones, Z.shiftr_div_pow2 by lia).
  assert (Z.shiftr g 12 = g / 4096) as L3 by (by rewrite Z.shiftr_div_pow2 by lia).
  destruct (Z.leb_spec 4096 g); [|destruct (Z.leb_spec 256 g); [|destruct (Z.leb_spec 16 g)]];
    repeat match goal with |- context [?a <=? g] => destruct (Z.leb_spec a g); [|lia] end.
  1: eexists [_; _; _; _]. 2: eexists [_; _; _]. 3: eexists [_; _]. 4: eexists [_].
  all: split; [repeat first [eapply digits_one; eassumption|eapply digits_more; [eassumption|assumption|]]|].
  all: split; [cbn; lia|]; unfold hex_value; cbn [foldl]; rewrite ?L0, ?L1, ?L2, ?L3; Z.div_mod_to_equations; lia.
Qed.

Lemma digits_group ds s t : digits_text ds s → ∀ acc off, (off + length ds ≤ 4)%nat →
  hex_group acc off (s +:+ String ":" t) = Some (hex_value acc ds, (off + length ds)%nat, String ":" t).
Proof.
  induction 1 as [d c Hv|d c ds s Hv _ _ IH]; intros acc off Hl; cbn [length] in Hl;
    change (String c ?s +:+ ?x) with (String c (s +:+ x)); cbn [hex_group]; rewrite Hv;
    (destruct (Nat.ltb_spec 3 off); [lia|]).
  - change ("" +:+ ?x) with x. cbn. by rewrite Nat.add_1_r.
  - rewrite IH by lia. cbn [length]. by rewrite Nat.add_succ_r.
Qed.

Lemma digits_plain ds s : digits_text ds s → ¬ byte_in "%" s ∧ addr_kind s = None.
Proof.
  assert (∀ c, byte_of "%:." c = false → c ≠ "%"%char ∧ Ascii.eqb c "." || Ascii.eqb c ":" || Ascii.eqb c "%" = false) as Hc.
  { intros c H. cbn in H. apply orb_false_elim in H as [H1 H]. apply orb_false_elim in H as [H2 H].
    apply orb_false_elim in H as [H3 _]. rewrite H1, H2, H3. split; [|done]. intros ->. done. }
  induction 1 as [d c Hv Hb|d c ds s Hv Hb _ [IH1 IH2]]; destruct (Hc c Hb) as [H1 H2]; cbn [byte_in addr_kind];
    rewrite H2; tauto.
Qed.

Lemma group_text g : 0 ≤ g < 65536 →
  (∀ t, ∃ n, hex_group 0 0 (hex_text g +:+ String ":" t) = Some (g, S n, String ":" t)) ∧
  ¬ byte_in "%" (hex_text g) ∧ addr_kind (hex_text g) = None ∧
  ∀ t, HasPrefix (hex_text g +:+ String ":" t) "::" = false.
Proof.
  intros Hg. destruct (hex_text_digits g Hg) as (ds & Hds & Hl & Hv).
  destruct (digits_plain _ _ Hds) as [H1 H2]. split_and!; [|done|done|].
  - intros t. rewrite (digits_group _ _ _ Hds) by done. rewrite Hv. destruct Hds; eauto.
  - intros t. destruct Hds as [d c _ Hb|d c ds s _ Hb _]; change (String c ?s +:+ ?x) with (String c (s +:+ x));
      cbn in Hb |- *; apply orb_false_elim in Hb as [_ Hb]; apply orb_false_elim in Hb as [Hb _];
      apply Ascii.eqb_neq in Hb; (case_match; congruence).
Qed.

Lemma group_head g : 0 ≤ g < 65536 → ∃ c s, hex_text g = String c s ∧ Ascii.eqb c ":" = false.
Proof.
  intros Hg. destruct (hex_text_digits g Hg) as (ds & Hds & _ & _).
  destruct Hds as [d c _ Hb|d c ds s _ Hb _]; exists c; eexists; (split; [done|]);
    cbn in Hb; apply orb_false_elim in Hb as [_ Hb]; by apply orb_false_elim in Hb as [Hb _].
Qed.

(** One round of the loop over a group that a colon and another group follow. *)
Lemma v6_loop_group fuel gs g g' t : 0 ≤ g < 65536 → 0 ≤ g' < 65536 →
  v6_loop (S fuel) gs None (hex_text g +:+ String ":" (hex_text g' +:+ t)) =
  v6_loop fuel (gs ++ [g])%list None (hex_text g' +:+ t).
Proof.
  intros Hg Hg'. destruct (group_text g Hg) as (Hh & _). cbn [v6_loop].
  destruct (Hh (hex_text g' +:+ t)) as [n ->]. cbn [Nat.eqb]. cbn [Ascii.eqb Bool.eqb negb].
  destruct (group_head g' Hg') as (c & s & -> & Hc). change (String c s +:+ t) with (String c (s +:+ t)).
  cbv iota beta. by rewrite Hc.
Qed.

(** ... and over the last one before the [::]. *)
Lemma v6_loop_last fuel gs g : 0 ≤ g < 65536 →
  v6_loop (S fuel) gs None (hex_text g +:+ "::") = Some ((gs ++ [g])%list, Some (S (length gs)), "").
Proof.
  intros Hg. destruct (group_text g Hg) as (Hh & _). cbn [v6_loop].
  destruct (Hh ":") as [n ->]. reflexivity.
Qed.

Lemma parse_group_text g t a : 0 ≤ g < 65536 → ¬ byte_in "%" t →
  v6_loop 8 [] None (hex_text g +:+ String ":" t) ≫= v6_finish = Some a →
  ParseAddr (hex_text g +:+ String ":" t) = Some (Addr6 a "").
Proof.
  intros Hg Ht Hl. destruct (group_text g Hg) as (_ & Hp & Hk & Hpre). unfold ParseAddr.
  rewrite addr_kind_app by (done || by right). cbn [Ascii.eqb Bool.eqb]. unfold parseIPv6.
  assert (Cut (hex_text g +:+ String ":" t) "%" = None) as ->.
  { apply Cut_None. rewrite byte_in_app. intros [H|[H|H]]; done. }
  unfold parseIPv6_body. by rewrite Hpre, Hl.
Qed.

Definition masked6 (g0 g1 g2 : Z) : Z := ((g0 * 65536 + g1) * 65536 + g2) * 2 ^ 80.

Lemma ipv6_text_masked a g0 g1 g2 : 0 ≤ g0 < 65536 → 0 ≤ g1 < 65536 → 0 ≤ g2 < 65536 →
  groups_of a = [g0; g1; g2; 0; 0; 0; 0; 0] →
  ipv6_text a = "::" ∧ (g0, g1, g2) = (0, 0, 0) ∨
  ipv6_text a = hex_text g0 +:+ "::" ∧ (g1, g2) = (0, 0) ∨
  ipv6_text a = hex_text g0 +:+ String ":" (hex_text g1 +:+ "::") ∧ g2 = 0 ∨
  ipv6_text a = hex_text g0 +:+ String ":" (hex_text g1 +:+ String ":" (hex_text g2 +:+ "::")).
Proof.
  intros H0 H1 H2 Hg. unfold ipv6_text. rewrite Hg.
  assert (∀ x y, (x +:+ ":" +:+ y) +:+ "::" = x +:+ String ":" (y +:+ "::")) as Hassoc
    by (intros x y; by rewrite !app_assoc_string).
  assert (∀ x y z, (x +:+ ":" +:+ y +:+ ":" +:+ z) +:+ "::" = x +:+ String ":" (y +:+ String ":" (z +:+ "::"))) as Hassoc3
    by (intros x y z; by rewrite !app_assoc_string).
  destruct g2 as [|p2|]; [|by right; right; right; destruct g0, g1; cbn -[hex_text]; rewrite Hassoc3|lia].
  destruct g1 as [|p1|]; [|by right; right; left; destruct g0; cbn -[hex_text]; rewrite Hassoc|lia].
  destruct g0 as [|p0|]; [by left|by right; left|lia].
Qed.

Lemma ParseAddr_masked6 a g0 g1 g2 : 0 ≤ g0 < 65536 → 0 ≤ g1 < 65536 → 0 ≤ g2 < 65536 →
  a = masked6 g0 g1 g2 → groups_of a = [g0; g1; g2; 0; 0; 0; 0; 0] → ParseAddr (ipv6_text a) = Some (Addr6 a "").
Proof.
  intros H0 H1 H2 Ha Hg. unfold masked6 in Ha.
  destruct (ipv6_text_masked a g0 g1 g2 H0 H1 H2 Hg) as [[-> E]|[[-> E]|[[-> E]| ->]]]; simplify_eq.
  - reflexivity.
  - apply parse_group_text; [done|by intros [?|[]]|]. change (String ":" ":") with "::". rewrite v6_loop_last by done.
    cbn -[combine_groups]. f_equal. unfold combine_groups. cbn [foldl]. lia.
  - apply parse_group_text; [done|rewrite byte_in_app; intros [H|[?|[?|[]]]]; [by apply (group_text g1 H1)|done..]|].
    rewrite v6_loop_group, v6_loop_last by done. cbn -[combine_groups]. f_equal. unfold combine_groups. cbn [foldl]. lia.
  - apply parse_group_text; [done| |].
    { rewrite byte_in_app. cbn [byte_in]. rewrite byte_in_app. cbn [byte_in].
      pose proof (proj1 (proj2 (group_text g1 H1))). pose proof (proj1 (proj2 (group_text g2 H2))).
      intros [?|[?|[?|[?|[?|[]]]]]]; done. }
    rewrite !v6_loop_group, v6_loop_last by done. cbn -[combine_groups]. f_equal. unfold combine_groups. cbn [foldl]. lia.
Qed.

Lemma groups_masked top : 0 ≤ top < 2 ^ 48 →
  ∃ g0 g1 g2, 0 ≤ g0 < 65536 ∧ 0 ≤ g1 < 65536 ∧ 0 ≤ g2 < 65536 ∧ top * 2 ^ 80 = masked6 g0 g1 g2 ∧
    groups_of (top * 2 ^ 80) = [g0; g1; g2; 0; 0; 0; 0; 0].
Proof.
  intros Ht. change 65536 with (2 ^ 16).
  assert (∀ x, 0 ≤ x mod 2 ^ 16 < 2 ^ 16) as Hm by (intros; apply Z.mod_pos_bound; lia).
  exists (top / 2 ^ 32), (top / 2 ^ 16 mod 2 ^ 16), (top mod 2 ^ 16).
  assert (0 ≤ top / 2 ^ 32 < 2 ^ 16) as H0 by (split; [apply Z.div_pos|apply Z.div_lt_upper_bound]; lia).
  split_and!; try apply Hm; try lia.
  - unfold masked6. f_equal. change (2 ^ 32) with (2 ^ 16 * 2 ^ 16). rewrite <- Z.div_div by lia.
    pose proof (Z.div_mod top (2 ^ 16) ltac:(lia)). pose proof (Z.div_mod (top / 2 ^ 16) (2 ^ 16) ltac:(lia)). lia.
  - unfold groups_of. cbn [map]. change 65535 with (Z.ones 16). rewrite !Z.land_ones by lia.
    assert (∀ k, 0 ≤ k ≤ 80 → Z.shiftr (top * 2 ^ 80) k = top * 2 ^ (80 - k)) as Hs.
    { intros k Hk. rewrite Z.shiftr_div_pow2 by lia. rewrite <- (Z.sub_add k 80) at 1.
      rewrite Z.pow_add_r, Z.mul_assoc, Z.div_mul by lia. done. }
    assert (∀ k, 80 ≤ k → Z.shiftr (top * 2 ^ 80) k = top / 2 ^ (k - 80)) as Hd.
    { intros k Hk. rewrite Z.shiftr_div_pow2 by lia. rewrite <- (Z.sub_add 80 k) at 1.
      rewrite Z.pow_add_r by lia. by rewrite Z.div_mul_cancel_r by lia. }
    rewrite !Hd by lia. rewrite !Hs by lia. cbn [Z.sub Z.add Z.opp Z.pos_sub].
    assert (∀ k, 16 ≤ k → top * 2 ^ k mod 2 ^ 16 = 0) as Hz.
    { intros k Hk. rewrite <- (Z.sub_add 16 k), Z.pow_add_r, Z.mul_assoc by lia. apply Z.mod_mul. lia. }
    rewrite !Hz by lia. rewrite (Z.mod_small (top / 2 ^ (112 - 80))) by exact H0.
    change (2 ^ (80 - 80)) with 1. by rewrite Z.div_1_r.
Qed.

Lemma shift_twice a k : 0 ≤ k → Z.shiftl (Z.shiftr (Z.shiftl (Z.shiftr a k) k) k) k = Z.shiftl (Z.shiftr a k) k.
Proof. intros Hk. rewrite Z.shiftr_shiftl_l by lia. by rewrite Z.sub_diag. Qed.

(** The text of a masked address denotes it. *)
Lemma ParseIP_masked x : valid_addr x → Unmap x = x → ParseIP (IP_String (mask_addr x)) = Some (mask_addr x).
Proof.
  intros Hv Hu. unfold ParseIP, IP_String, mask_addr. rewrite Hu. destruct x as [a|a z]; cbn in Hv.
  - cbn [Unmap]. rewrite ParseAddr_dotted; [done|]. rewrite Z.shiftl_mul_pow2, Z.shiftr_div_pow2 by lia.
    change (2 ^ 8) with 256. change (2 ^ 32) with 4294967296 in *. Z.div_mod_to_equations. lia.
  - rewrite Z.shiftl_mul_pow2, Z.shiftr_div_pow2 by lia.
    assert (0 ≤ a / 2 ^ 80 < 2 ^ 48) as Ht by (split; [apply Z.div_pos|apply Z.div_lt_upper_bound]; lia).
    set (top := a / 2 ^ 80) in *.
    assert (Unmap (Addr6 (top * 2 ^ 80) "") = Addr6 (top * 2 ^ 80) "") as Hun.
    { unfold Unmap, Is4In6. rewrite Z.shiftr_div_pow2 by lia. change 80 with (48 + 32).
      rewrite Z.pow_add_r, Z.mul_assoc, Z.div_mul by lia. destruct (Z.eqb_spec (top * 2 ^ 48) 65535) as [E|]; [|done]. lia. }
    rewrite Hun. destruct (groups_masked top Ht) as (g0 & g1 & g2 & H0 & H1 & H2 & Hm & Hg).
    rewrite (ParseAddr_masked6 _ g0 g1 g2) by done. cbn [Zone String.eqb]. by rewrite Hun.
Qed.

Lemma mask_addr_idem x : valid_addr x → Unmap x = x → mask_addr (mask_addr x) = mask_addr x.
Proof.
  intros Hv Hu. pose proof (ParseIP_masked x Hv Hu) as H. apply ParseIP_valid in H as (_ & Hum & _).
  unfold mask_addr at 1. rewrite Hum. unfold mask_addr. rewrite Hu.
  destruct x; by rewrite shift_twice by lia.
Qed.

(** What masking keeps and what it hides: the mask of an address is the text of
    its /24 or /48 network, masking twice changes nothing more, and two
    addresses have the same mask exactly when their networks are the same.  A
    text that is no address, one with a zone included, is returned whole. *)
Theorem masked_network (ip ip' : string) :
  (ParseIP ip = None → Masked ip = ip) ∧
  ∀ a, ParseIP ip = Some a →
    ParseIP (Masked ip) = Some (mask_addr a) ∧ Masked (Masked ip) = Masked ip ∧
    ∀ a', ParseIP ip' = Some a' → (Masked ip = Masked ip' ↔ mask_addr a = mask_addr a').
Proof.
  assert (∀ s x, ParseIP s = Some x → Masked s = IP_String (mask_addr x)) as Hm.
  { intros s x H. unfold Masked. destruct (String.eqb_spec s "") as [->|]; [done|]. by rewrite H. }
  split.
  { unfold Masked. destruct (String.eqb_spec ip "") as [->|]; [done|]. by intros ->. }
  intros a Ha. pose proof (ParseIP_valid _ _ Ha) as (Hv & Hu & _). rewrite (Hm _ _ Ha).
  pose proof (ParseIP_masked a Hv Hu) as Hp. split_and!; [done| |].
  - rewrite (Hm _ _ Hp). by rewrite mask_addr_idem.
  - intros a' Ha'. pose proof (ParseIP_valid _ _ Ha') as (Hv' & Hu' & _). rewrite (Hm _ _ Ha'). split; [|by intros ->].
    intros E. pose proof (ParseIP_masked a' Hv' Hu') as Hp'. rewrite <- E in Hp'. congruence.
Qed.

Lemma masked_network_witness :
  Masked "203.0.113.77" = Masked "203.0.113.200" ∧ Masked (Masked "203.0.113.77") = Masked "203.0.113.77" ∧
  Masked "fe80::1%eth0" = "fe80::1%eth0".
Proof.
  destruct (masked_network "203.0.113.77" "203.0.113.200") as [_ H].
  destruct (H (Addr4 3405803853) ltac:(vm_compute; reflexivity)) as (_ & Hi & He).
  split; [|split; [exact Hi|]].
  - apply (proj2 (He (Addr4 3405803976) ltac:(vm_compute; reflexivity))). vm_compute. reflexivity.
  - apply (masked_network "fe80::1%eth0" ""). vm_compute. reflexivity.
Defined.

(** Behind two trusted proxies the client is not found, whatever the hop count: the
    walk only takes trusted hops, so the answer is the outermost proxy. *)
Example client_is_not_identified :
  let trusted := [ParsePrefix "10.0.0.0/8"] in
  let src := ResolveSource "10.0.0.1:52110" "203.0.113.9, 10.0.0.2" trusted 5 in
  HeaderChain src = ["203.0.113.9"; "10.0.0.2"] ∧ HopsUsed src = 1%nat ∧ EffectiveIP src = "10.0.0.2".
Proof. vm_compute. repeat split. Qed.
