(* ===== verification/AuditId.v ===== *)
(** * AuditId: src/internal/auditid/auditid.go

    The correlation id of an audit row: the request's, the job's, or a fresh one.
    A context is the three values this package and [resp] put in it, [""] being
    absence; the bytes of [crypto/rand] are an argument, [None] a failed read. *)

From S2P Require Import Prelude GoString GoUrl ApiErr.
Local Open Scope string_scope.
Local Open Scope Z_scope.

Definition clientRequestIDMaxLen : Z := 128.

Record audit_ctx := mkAuditCtx { ac_request : string; ac_job : string; ac_client : string }.

Definition no_ctx : audit_ctx := mkAuditCtx "" "" "".

Definition randomHex (random : option (list Z)) : string :=
  match random with
  | None => "norand0000000000"
  | Some bs => hex_encode bs
  end.

(** The loop over the runes stops at the first that is not allowed; bytes from 128
    on are part of none that is. *)
Definition validOrigin (s : string) : bool :=
  negb (String.eqb s "" || (64 <? Z.of_nat (String.length s))) &&
  forallb (fun c => is_alpha c || is_num c || byte_of ".-_" c) (String.list_ascii_of_string s).

Definition clientRequestIDAllowed : string :=
  "abcdefghijklmnopqrstuvwxyzABCDEFGHIJKLMNOPQRSTUVWXYZ0123456789._-".

Definition validClientRequestID (s : string) : bool :=
  negb (String.eqb s "") && negb (clientRequestIDMaxLen <? Z.of_nat (String.length s)) &&
  forallb (byte_of clientRequestIDAllowed) (String.list_ascii_of_string s).

Definition WithJob (ctx : audit_ctx) (origin : string) (random : option (list Z)) : audit_ctx :=
  let origin := if validOrigin origin then origin else "anon" in
  mkAuditCtx (ac_request ctx) ("job-" +:+ origin +:+ "-" +:+ randomHex random) (ac_client ctx).

Definition WithClientRequestID (ctx : audit_ctx) (header : string) : audit_ctx :=
  if validClientRequestID header then mkAuditCtx (ac_request ctx) (ac_job ctx) header else ctx.

Definition newServerID (random : option (list Z)) : string := "srv-" +:+ randomHex random.

Definition FromContext (ctx : audit_ctx) (random : option (list Z)) : string :=
  if negb (String.eqb (ac_request ctx) "") then ac_request ctx
  else if negb (String.eqb (ac_job ctx) "") then ac_job ctx
  else newServerID random.

Definition ClientRequestID (ctx : audit_ctx) : string := ac_client ctx.

(** * Theorems *)

(** A context built by this package alone, from any headers and origins. *)
Inductive built : audit_ctx → Prop :=
| built_none : built no_ctx
| built_job ctx origin random : built ctx → built (WithJob ctx origin random)
| built_client ctx header : built ctx → built (WithClientRequestID ctx header).

(** Whatever clients and producers pass in, the id of a context of this package is
    the server's: it starts with [job-] or [srv-], and the client's header, which
    is kept apart, is empty or at most 128 allowed characters. *)
Theorem correlation_id_server_made (ctx : audit_ctx) (random : option (list Z)) :
  built ctx →
  (HasPrefix (FromContext ctx random) "job-" = true ∨ FromContext ctx random = newServerID random) ∧
  (ClientRequestID ctx = "" ∨ validClientRequestID (ClientRequestID ctx) = true).
Proof.
  intros H.
  assert (ac_request ctx = "" ∧ (ac_job ctx = "" ∨ HasPrefix (ac_job ctx) "job-" = true) ∧
    (ac_client ctx = "" ∨ validClientRequestID (ac_client ctx) = true)) as (Hr & Hj & Hc).
  { induction H as [|ctx origin r _ (IH1 & IH2 & IH3)|ctx header _ (IH1 & IH2 & IH3)].
    - by repeat split; left.
    - split; [done|]. split; [|done]. right. unfold WithJob. cbn [ac_job]. apply HasPrefix_app.
    - unfold WithClientRequestID. destruct (validClientRequestID header) eqn:E; [|done]. cbn. auto. }
  split; [|done]. unfold FromContext. rewrite Hr. cbn [String.eqb negb].
  destruct (String.eqb_spec (ac_job ctx) "") as [E|E]; [by right|left]. by destruct Hj.
Qed.

Lemma correlation_id_server_made_witness :
  let ctx := WithClientRequestID (WithJob no_ctx "scheduler.cleanup" (Some [1; 255])) "edge-42" in
  FromContext ctx None = "job-scheduler.cleanup-01ff" ∧ ClientRequestID ctx = "edge-42" ∧
  (HasPrefix (FromContext ctx None) "job-" = true ∨ FromContext ctx None = newServerID None).
Proof.
  split; [vm_compute; reflexivity|]. split; [vm_compute; reflexivity|].
  apply (correlation_id_server_made _ None). repeat constructor.
Defined.
