(* ===== verification/AuditLog.v ===== *)
(** * AuditLog: src/internal/core (audit.go, store.go, audit_view_export.go) and
    src/internal/auditaggregator

    The registries of audit actions and reasons, the two ways a row is written,
    the paged view and the CSV export.  The audit_log table is the list of its
    rows in the order of their ids, with the next id; a statement that fails
    leaves it alone. *)

From S2P Require Import Prelude GoString GoTime Net GoUrl ApiErr AuditId.
Local Open Scope string_scope.
Local Open Scope Z_scope.

(** ** Actions and their failure classes (audit.go) *)

Definition AuditAction : Type := string.

Definition knownActions : list AuditAction := [
  "auth.login.succeeded"; "auth.login.denied"; "auth.logout.succeeded"; "auth.mfa.challenge.sent";
  "auth.mfa.verified"; "auth.mfa.failed";
  "sso.callback.succeeded"; "sso.callback.denied"; "sso.state.mismatch"; "sso.nonce.mismatch";
  "denied.org.boundary"; "denied.origin"; "denied.request_size";
  "denied.rate_limit"; "denied.cors"; "denied.egress"; "denied.egress.address";
  "key.create"; "key.revoke"; "key.rotate"; "key.rejected.invalid"; "key.rejected.expired";
  "key.rejected.revoked"; "key.accepted";
  "credential.create"; "credential.update"; "credential.rotate"; "credential.delete"; "credential.base_url.saved";
  "user.create"; "user.update"; "user.delete"; "user.login.succeeded"; "user.login.denied";
  "invite.issued"; "invite.email.started"; "invite.email.sent"; "invite.email.failed";
  "invite.email.template_failed"; "invite.accepted"; "invite.rejected.invalid"; "invite.rejected.expired";
  "invite.rejected.replay";
  "routing.decision"; "routing.failover";
  "eval.run.create"; "eval.run.scored"; "eval.plugin.install"; "denied.eval.plugin_manifest";
  "benchmark.create"; "benchmark.run.start"; "benchmark.run.finish"; "benchmark.schedule.hit";
  "denied.budget.exceeded"; "denied.model.allowlist"; "denied.concurrency.cap";
  "policy.create"; "policy.delete"; "security.alert"; "security.panic.recovered";
  "audit.view"; "audit.export"; "denied.audit.view"; "denied.audit.export"; "denied.schema.contract"].

Inductive AuditFailureClass := FailStopClass | BestEffortClass.

#[export] Instance AuditFailureClass_eq_dec : EqDecision AuditFailureClass.
Proof. solve_decision. Defined.

Definition auditFailureClass : list (AuditAction * AuditFailureClass) := [
  ("audit.view", FailStopClass); ("audit.export", FailStopClass);
  ("denied.audit.view", FailStopClass); ("denied.audit.export", FailStopClass);
  ("auth.login.succeeded", FailStopClass); ("auth.login.denied", BestEffortClass);
  ("auth.logout.succeeded", FailStopClass); ("auth.mfa.challenge.sent", BestEffortClass);
  ("auth.mfa.verified", FailStopClass); ("auth.mfa.failed", BestEffortClass);
  ("user.login.succeeded", FailStopClass); ("user.login.denied", BestEffortClass);
  ("sso.callback.succeeded", FailStopClass); ("sso.callback.denied", BestEffortClass);
  ("sso.state.mismatch", BestEffortClass); ("sso.nonce.mismatch", BestEffortClass);
  ("user.create", FailStopClass); ("user.update", FailStopClass); ("user.delete", FailStopClass);
  ("credential.create", FailStopClass); ("credential.update", FailStopClass);
  ("credential.rotate", FailStopClass); ("credential.delete", FailStopClass);
  ("credential.base_url.saved", FailStopClass);
  ("key.create", FailStopClass); ("key.revoke", FailStopClass); ("key.rotate", FailStopClass);
  ("key.rejected.invalid", BestEffortClass); ("key.rejected.expired", BestEffortClass);
  ("key.rejected.revoked", BestEffortClass); ("key.accepted", BestEffortClass);
  ("invite.issued", FailStopClass); ("invite.email.started", BestEffortClass);
  ("invite.email.sent", BestEffortClass); ("invite.email.failed", BestEffortClass);
  ("invite.email.template_failed", BestEffortClass); ("invite.accepted", FailStopClass);
  ("invite.rejected.invalid", BestEffortClass); ("invite.rejected.expired", BestEffortClass);
  ("invite.rejected.replay", BestEffortClass);
  ("denied.org.boundary", FailStopClass); ("denied.origin", FailStopClass); ("denied.cors", FailStopClass);
  ("denied.request_size", BestEffortClass); ("denied.rate_limit", BestEffortClass);
  ("denied.egress", FailStopClass); ("denied.egress.address", FailStopClass);
  ("denied.budget.exceeded", BestEffortClass); ("denied.model.allowlist", BestEffortClass);
  ("denied.concurrency.cap", BestEffortClass);
  ("policy.create", FailStopClass); ("policy.delete", FailStopClass);
  ("security.alert", FailStopClass); ("security.panic.recovered", FailStopClass);
  ("routing.decision", BestEffortClass); ("routing.failover", BestEffortClass);
  ("eval.run.create", BestEffortClass); ("eval.run.scored", BestEffortClass);
  ("eval.plugin.install", FailStopClass); ("denied.eval.plugin_manifest", BestEffortClass);
  ("benchmark.create", BestEffortClass); ("benchmark.run.start", BestEffortClass);
  ("benchmark.run.finish", BestEffortClass); ("benchmark.schedule.hit", BestEffortClass);
  ("denied.schema.contract", FailStopClass)].

Definition ClassifyAuditAction (a : AuditAction) : AuditFailureClass :=
  match find (fun p => String.eqb a (fst p)) auditFailureClass with
  | Some (_, c) => c
  | None => BestEffortClass
  end.

(** ** Reasons *)

Inductive AuditReason :=
| AuditReasonUnknown | AuditReasonForbidden | AuditReasonInvalidCredentials | AuditReasonKeyInvalid
| AuditReasonKeyExpired | AuditReasonKeyRevoked | AuditReasonOrgBoundary | AuditReasonOriginNotAllowed
| AuditReasonRequestTooLarge | AuditReasonRateLimited | AuditReasonCORSDisallowed
| AuditReasonEgressAddressBlocked | AuditReasonEgressResolverFail | AuditReasonEgressDNSRebindFail
| AuditReasonEvalPluginManifestInvalid | AuditReasonBudgetExceeded | AuditReasonModelNotAllowed
| AuditReasonConcurrencyCapExceeded | AuditReasonInviteInvalid | AuditReasonInviteExpired
| AuditReasonInviteReplay | AuditReasonSSOStateMismatch | AuditReasonSSONonceMismatch
| AuditReasonSchemaContractViolation | AuditReasonAuditPermissionDenied | AuditReasonInternalError.

#[export] Instance AuditReason_eq_dec : EqDecision AuditReason.
Proof. solve_decision. Defined.

Definition auditReasonRegisteredReasons : list AuditReason := [
  AuditReasonUnknown; AuditReasonForbidden; AuditReasonInvalidCredentials; AuditReasonKeyInvalid;
  AuditReasonKeyExpired; AuditReasonKeyRevoked; AuditReasonOrgBoundary; AuditReasonOriginNotAllowed;
  AuditReasonRequestTooLarge; AuditReasonRateLimited; AuditReasonCORSDisallowed;
  AuditReasonEgressAddressBlocked; AuditReasonEgressResolverFail; AuditReasonEgressDNSRebindFail;
  AuditReasonEvalPluginManifestInvalid; AuditReasonBudgetExceeded; AuditReasonModelNotAllowed;
  AuditReasonConcurrencyCapExceeded; AuditReasonInviteInvalid; AuditReasonInviteExpired;
  AuditReasonInviteReplay; AuditReasonSSOStateMismatch; AuditReasonSSONonceMismatch;
  AuditReasonSchemaContractViolation; AuditReasonAuditPermissionDenied; AuditReasonInternalError].

Definition auditReasonToPublicCode (r : AuditReason) : Code :=
  match r with
  | AuditReasonForbidden | AuditReasonOrgBoundary | AuditReasonOriginNotAllowed
  | AuditReasonCORSDisallowed => CodeForbidden
  | AuditReasonModelNotAllowed => CodeModelNotAllowed
  | AuditReasonInvalidCredentials | AuditReasonKeyInvalid | AuditReasonKeyExpired
  | AuditReasonKeyRevoked => CodeUnauthenticated
  | AuditReasonRateLimited => CodeRateLimited
  | AuditReasonRequestTooLarge => CodeRequestTooLarge
  | AuditReasonEgressAddressBlocked | AuditReasonEgressResolverFail
  | AuditReasonEgressDNSRebindFail => CodeEgressDenied
  | AuditReasonEvalPluginManifestInvalid => CodeEvalPluginInvalid
  | AuditReasonBudgetExceeded => CodeBudgetExceeded
  | AuditReasonConcurrencyCapExceeded => CodeConcurrencyLimit
  | AuditReasonInviteInvalid | AuditReasonInviteExpired | AuditReasonInviteReplay => CodeInviteInvalid
  | AuditReasonSSOStateMismatch | AuditReasonSSONonceMismatch => CodeSSOStateInvalid
  | AuditReasonSchemaContractViolation => CodeSchemaContractViolation
  | AuditReasonAuditPermissionDenied => CodeAdminRequired
  | AuditReasonInternalError | AuditReasonUnknown => CodeInternalError
  end.

Definition auditReasonFromPostgresSQLState (state : string) : AuditReason :=
  if String.eqb state "42501" then AuditReasonForbidden
  else if String.eqb state "28000" || String.eqb state "28P01" then AuditReasonInvalidCredentials
  else AuditReasonUnknown.

(** The SQLSTATE of the first Postgres error of the chain, if there is one. *)
Definition pqErrAuditReason (sqlstate : option string) : AuditReason :=
  match sqlstate with None => AuditReasonUnknown | Some s => auditReasonFromPostgresSQLState s end.

(** ** Aggregation (auditaggregator) *)

Definition aggregated : list string := [
  "auth.login.denied"; "user.login.denied"; "key.rejected.invalid"; "key.rejected.expired";
  "key.rejected.revoked"; "rate_limited"; "request_size"; "budget.exceeded"; "concurrency.cap";
  "model.allowlist"; "invite.rejected.invalid"; "invite.rejected.expired"; "invite.rejected.replay"].

Definition AggregatedAction (a : string) : bool := existsb (String.eqb a) aggregated.

Definition WindowSize : Duration := 5 * Minute.

(** The wall clock of UTC, cut to a multiple of five minutes. *)
Definition WindowStart (t : Time) : Time :=
  t / day_ns * day_ns + hour_of t * Hour + minute_of t / 5 * 5 * Minute.

Definition ResourceFingerprint (sha256 : string → list Z) (target : string) : string :=
  if String.eqb target "" then ""
  else hex_encode (take 8 (sha256 (take_bytes 512 (ToLower (TrimSpace target))))).

(** ** The table and its writers (store.go) *)

Record AuditRow := mkRow {
  ar_ID : Z;
  ar_OrgID : string;
  ar_Actor : string;
  ar_Action : string;
  ar_TargetID : string;
  ar_Detail : string;
  ar_RequestID : string;
  ar_ClientReqID : string;
  ar_Count : Z;
  ar_FirstAt : option Time;
  ar_LastAt : option Time;
  ar_CreatedAt : Time;
  ar_ResourceFP : string
}.

Record audit_log := mkLog { al_rows : list AuditRow; al_next : Z }.

Record AuditEvent := mkEvent {
  ev_ActorID : string;
  ev_OrgID : string;
  ev_Action : AuditAction;
  ev_TargetID : string;
  ev_Detail : string
}.

Definition non_empty_or (s dflt : string) : string := if String.eqb s "" then dflt else s.

(** The row of an event: redacted and with the fallbacks. *)
Definition event_row (id : Z) (now : Time) (requestID clientRequestID : string) (e : AuditEvent)
    (count : Z) (span : option (Time * Time)) (fp : string) : AuditRow :=
  mkRow id (non_empty_or (Scrub (ev_OrgID e)) "default") (non_empty_or (Scrub (ev_ActorID e)) "system")
    (non_empty_or (ev_Action e) "unknown") (Scrub (ev_TargetID e)) (Scrub (ev_Detail e))
    requestID clientRequestID count (fst <$> span) (snd <$> span) now fp.

(** [Audit]; [fault] is the error of the INSERT, which is only logged.  Only this
    one of the two writers cuts the client's id and guards against an empty
    request id. *)
Definition Audit (now : Time) (ctx : audit_ctx) (random : option (list Z)) (fault : option string)
    (e : AuditEvent) (log : audit_log) : audit_log :=
  match fault with
  | Some _ => log
  | None =>
      let requestID := non_empty_or (take_bytes 256 (FromContext ctx random)) (newServerID random) in
      let r := event_row (al_next log) now requestID (take_bytes 256 (ClientRequestID ctx)) e 0 None "" in
      mkLog (al_rows log ++ [r])%list (al_next log + 1)
  end.

(** The burst index: action, actor, fingerprint and window, where count > 0. *)
Definition same_burst (r : AuditRow) (x : AuditRow) : bool :=
  (0 <? ar_Count x) && String.eqb (ar_Action r) (ar_Action x) && String.eqb (ar_Actor r) (ar_Actor x) &&
  String.eqb (ar_ResourceFP r) (ar_ResourceFP x) && bool_decide (ar_FirstAt r = ar_FirstAt x).

Definition bump (r x : AuditRow) : AuditRow :=
  mkRow (ar_ID x) (ar_OrgID x) (ar_Actor x) (ar_Action x) (ar_TargetID x) (ar_Detail r) (ar_RequestID r)
    (ar_ClientReqID x) (ar_Count x + 1) (ar_FirstAt x) (ar_LastAt r) (ar_CreatedAt x) (ar_ResourceFP x).

Fixpoint upsert (r : AuditRow) (rows : list AuditRow) : list AuditRow :=
  match rows with
  | [] => [r]
  | x :: rows' => if same_burst r x then bump r x :: rows' else x :: upsert r rows'
  end.

(** A conflict uses up an id of the sequence too. *)
Definition AuditDenial (now : Time) (ctx : audit_ctx) (random : option (list Z)) (fault : option string)
    (e : AuditEvent) (fp : string) (windowStart : Time) (log : audit_log) : audit_log :=
  match fault with
  | Some _ => log
  | None =>
      let r := event_row (al_next log) now (take_bytes 256 (FromContext ctx random)) (ClientRequestID ctx) e 1
                 (Some (windowStart, now)) (take_bytes 32 fp) in
      mkLog (upsert r (al_rows log)) (al_next log + 1)
  end.

(** ** Reading: newest first *)

(** [(created_at, id)] compared as SQL compares rows. *)
Definition before_cursor (t : Time) (id : Z) (r : AuditRow) : bool :=
  (ar_CreatedAt r <? t) || ((ar_CreatedAt r =? t) && (ar_ID r <? id)).

Fixpoint insert_row (r : AuditRow) (rows : list AuditRow) : list AuditRow :=
  match rows with
  | [] => [r]
  | x :: rows' => if before_cursor (ar_CreatedAt r) (ar_ID r) x then r :: rows else x :: insert_row r rows'
  end.

Definition newest_first (rows : list AuditRow) : list AuditRow := foldr insert_row [] rows.

Record AuditListOptions := mkListOptions { lo_Limit : Z; lo_Action : string; lo_ActorID : string; lo_Since : Time }.

Definition listed (orgID : string) (o : AuditListOptions) (r : AuditRow) : bool :=
  String.eqb (ar_OrgID r) (non_empty_or orgID "default") &&
  (String.eqb (lo_Action o) "" || String.eqb (ar_Action r) (lo_Action o)) &&
  (String.eqb (lo_ActorID o) "" || String.eqb (ar_Actor r) (lo_ActorID o)) &&
  (IsZero (lo_Since o) || (lo_Since o <=? ar_CreatedAt r)).

(** [ListAudit] orders by time alone; rows of the same time are taken newest
    first too. *)
Definition ListAudit (orgID : string) (o : AuditListOptions) (log : audit_log) : list AuditRow :=
  let limit := if lo_Limit o <=? 0 then 50 else lo_Limit o in
  let limit := if 500 <? limit then 500 else limit in
  take (Z.to_nat limit) (newest_first (List.filter (listed orgID o) (al_rows log))).

(** LIKE, with its two wildcards and the backslash. *)
Fixpoint like (p : string) : string → bool :=
  match p with
  | "" => String.eqb ""
  | String c p' =>
      if Ascii.eqb c "%" then
        fix any s := like p' s || match s with "" => false | String _ s' => any s' end
      else if Ascii.eqb c "_" then fun s => match s with "" => false | String _ s' => like p' s' end
      else if Ascii.eqb c "\" then
        match p' with
        | "" => fun _ => false
        | String d p'' => fun s => match s with "" => false | String x s' => Ascii.eqb x d && like p'' s' end
        end
      else fun s => match s with "" => false | String x s' => Ascii.eqb x c && like p' s' end
  end.

Record AuditFilter := mkFilter {
  f_OrgID : string;
  f_ActionPrefix : string;
  f_Actor : string;
  f_TargetPrefix : string;
  f_FromTime : Time;
  f_ToTime : Time;
  f_RequestID : string;
  f_ClientReqID : string;
  f_Cursor : option (Time * Z);
  f_Limit : Z
}.

Definition ViewMaxRows : Z := 200.
Definition ExportMaxRows : Z := 100000.
Definition DefaultViewTimeSpan : Duration := 90 * 24 * Hour.
Definition DefaultExportTimeSpan : Duration := 30 * 24 * Hour.

Inductive filter_error := NoOrg | NoLimit | SpanTooLong.

Definition validateAuditFilter (f : AuditFilter) (maxSpan : Duration) : option filter_error :=
  if String.eqb (f_OrgID f) "" then Some NoOrg
  else if f_Limit f <=? 0 then Some NoLimit
  else if negb (IsZero (f_FromTime f)) && negb (IsZero (f_ToTime f)) &&
          After (f_ToTime f) (Add (f_FromTime f) maxSpan) then Some SpanTooLong
  else None.

(** The WHERE clause of [auditQuerySQL] but for the cursor. *)
Definition row_matches (f : AuditFilter) (r : AuditRow) : bool :=
  String.eqb (ar_OrgID r) (f_OrgID f) &&
  (String.eqb (f_ActionPrefix f) "" || like (f_ActionPrefix f +:+ "%") (ar_Action r)) &&
  (String.eqb (f_Actor f) "" || String.eqb (ar_Actor r) (f_Actor f)) &&
  (String.eqb (f_TargetPrefix f) "" || like (f_TargetPrefix f +:+ "%") (ar_TargetID r)) &&
  (IsZero (f_FromTime f) || (f_FromTime f <=? ar_CreatedAt r)) &&
  (IsZero (f_ToTime f) || (ar_CreatedAt r <=? f_ToTime f)) &&
  (String.eqb (f_RequestID f) "" || String.eqb (ar_RequestID r) (f_RequestID f)) &&
  (String.eqb (f_ClientReqID f) "" || String.eqb (ar_ClientReqID r) (f_ClientReqID f)).

Definition past_cursor (f : AuditFilter) (r : AuditRow) : bool :=
  match f_Cursor f with None => true | Some (t, id) => before_cursor t id r end.

Definition runAuditQuery (f : AuditFilter) (maxRows : Z) (maxSpan : Duration) (log : audit_log) :
    res filter_error (list AuditRow) :=
  match validateAuditFilter f maxSpan with
  | Some e => Err e
  | None => Ok (take (Z.to_nat (if maxRows <? f_Limit f then maxRows else f_Limit f))
                  (newest_first (List.filter (fun r => row_matches f r && past_cursor f r) (al_rows log))))
  end.

Definition ViewAudit (f : AuditFilter) (log : audit_log) : res filter_error (list AuditRow) :=
  runAuditQuery f ViewMaxRows DefaultViewTimeSpan log.

(** ** CSV export *)

Definition quote : ascii := ascii_of_nat 34.
Definition CR : string := String (ascii_of_nat 13) "".
Definition LF : string := String (ascii_of_nat 10) "".
Definition TAB : string := String (ascii_of_nat 9) "".

Definition csvSafeCell (s : string) : string :=
  if String.eqb s "" then ""
  else
    let s := ReplaceAll (ReplaceAll (ReplaceAll s CR "") LF " ") TAB " " in
    match s with
    | String c _ => if byte_of "=+-@" c || Ascii.eqb c (ascii_of_nat 9) then String "'" s else s
    | "" => s
    end.

Definition second_of (t : Time) : Z := (t mod Minute) / Second.

Definition RFC3339 (t : Time) : string :=
  let d := date_of t in
  append_int (c_year d) 4 +:+ "-" +:+ append_int (c_month d) 2 +:+ "-" +:+ append_int (c_day d) 2 +:+ "T" +:+
  append_int (hour_of t) 2 +:+ ":" +:+ append_int (minute_of t) 2 +:+ ":" +:+ append_int (second_of t) 2 +:+ "Z".

Definition isoTime (t : option Time) : string := match t with None => "" | Some t => RFC3339 t end.

Definition auditCSVHeader : list string :=
  ["org_id"; "actor"; "action"; "target_id"; "detail"; "request_id"; "client_request_id"; "count"; "first_at";
   "last_at"; "created_at"; "resource_fingerprint"].

Definition csv_cells (r : AuditRow) : list string :=
  [csvSafeCell (ar_OrgID r); csvSafeCell (ar_Actor r); csvSafeCell (ar_Action r); csvSafeCell (ar_TargetID r);
   csvSafeCell (ar_Detail r); csvSafeCell (ar_RequestID r); csvSafeCell (ar_ClientReqID r); pretty (ar_Count r);
   csvSafeCell (isoTime (ar_FirstAt r)); csvSafeCell (isoTime (ar_LastAt r));
   csvSafeCell (isoTime (Some (ar_CreatedAt r))); csvSafeCell (ar_ResourceFP r)].

(** [csv.Writer.Write]: a field is quoted when it holds the separator, a quote or
    a line break, starts with a space, or is the end-of-data mark of SQL. *)
Definition fieldNeedsQuotes (field : string) : bool :=
  if String.eqb field "" then false
  else String.eqb field "\." || has_byte "," field || has_byte quote field ||
       has_byte (ascii_of_nat 13) field || has_byte (ascii_of_nat 10) field ||
       match leading_space space_encodings field with Some _ => true | None => false end.

Fixpoint double_quotes (s : string) : string :=
  match s with
  | "" => ""
  | String c s' => if Ascii.eqb c quote then String quote (String quote (double_quotes s')) else String c (double_quotes s')
  end.

Definition csv_field (field : string) : string :=
  if fieldNeedsQuotes field then String quote (double_quotes field +:+ String quote "") else field.

Definition csv_record (cells : list string) : string := Join (map csv_field cells) "," +:+ LF.

(** [writeAuditCSV]: the text and the returned count, which starts at one. *)
Definition writeAuditCSV (rows : list AuditRow) : string * Z :=
  (foldr String.append "" (map csv_record (auditCSVHeader :: map csv_cells rows)), 1 + Z.of_nat (length rows)).

Definition ExportAudit (f : AuditFilter) (log : audit_log) : res filter_error (string * Z) :=
  match runAuditQuery f ExportMaxRows DefaultExportTimeSpan log with
  | Err e => Err e
  | Ok rows => Ok (writeAuditCSV rows)
  end.

(** [RecordView] and [RecordExport] write a row for the reading itself. *)
Definition RecordExport (now : Time) (ctx : audit_ctx) (random : option (list Z)) (fault : option string)
    (target : string) : audit_log → audit_log :=
  Audit now ctx random fault (mkEvent "system" target "audit.export" target "audit_log export requested").

Definition RecordView (now : Time) (ctx : audit_ctx) (random : option (list Z)) (fault : option string)
    (target : string) : audit_log → audit_log :=
  Audit now ctx random fault (mkEvent "system" target "audit.view" target "audit_log view requested").

(** * Theorems *)

(** ** Registries *)

Lemma included (l l' : list string) :
  forallb (fun x => existsb (String.eqb x) l') l = true → ∀ x, x ∈ l → x ∈ l'.
Proof.
  intros H x Hx. rewrite forallb_forall in H. apply list_elem_of_In in Hx. apply H, existsb_exists in Hx as (y & Hy & E).
  apply String.eqb_eq in E as ->. by apply list_elem_of_In.
Qed.

(** The registries are closed: every declared action has exactly one failure class
    and no other string has one, and every reason is registered once and has a
    public code. *)
Theorem audit_registries_closed :
  NoDup knownActions ∧ map fst auditFailureClass ≡ₚ knownActions ∧
  NoDup auditReasonRegisteredReasons ∧ (∀ r, r ∈ auditReasonRegisteredReasons) ∧
  ∀ a, a ∉ knownActions → ClassifyAuditAction a = BestEffortClass.
Proof.
  assert (NoDup knownActions) as Hk by (apply (bool_decide_unpack _); vm_compute; exact I).
  assert (NoDup (map fst auditFailureClass)) as Hc by (apply (bool_decide_unpack _); vm_compute; exact I).
  assert (∀ x, x ∈ map fst auditFailureClass ↔ x ∈ knownActions) as Hin.
  { intros x. split; apply included; vm_compute; reflexivity. }
  split_and!; [done|by apply NoDup_Permutation| | |].
  - apply (bool_decide_unpack _). vm_compute. exact I.
  - intros []; apply (bool_decide_unpack _); vm_compute; exact I.
  - intros a Ha. unfold ClassifyAuditAction. destruct (find _ _) as [[b c]|] eqn:E; [|done].
    apply find_some in E as [E1 E2]. cbn in E2. apply String.eqb_eq in E2 as <-. destruct Ha. apply Hin.
    change a with (fst (a, c)). apply list_elem_of_In, in_map. done.
Qed.

(** The aggregated names of rate limits, sizes, budgets, concurrency and model
    lists are not the actions of the registry, so none of the [denied.] actions is
    ever aggregated. *)
Theorem denied_actions_never_aggregated (a : AuditAction) :
  a ∈ knownActions → HasPrefix a "denied." = true → AggregatedAction a = false.
Proof.
  assert (Forall (λ a, HasPrefix a "denied." = true → AggregatedAction a = false) knownActions) as H
    by (repeat constructor; vm_compute; congruence).
  rewrite Forall_forall in H. auto.
Qed.

Lemma denied_actions_never_aggregated_witness :
  AggregatedAction "rate_limited" = true ∧ AggregatedAction "denied.rate_limit" = false.
Proof.
  split; [vm_compute; reflexivity|].
  apply denied_actions_never_aggregated; [apply (bool_decide_unpack _); vm_compute; exact I|vm_compute; reflexivity].
Defined.

(** ** Windows *)

Lemma WindowStart_bounds t :
  WindowStart t ≤ t < WindowStart t + WindowSize ∧ WindowStart t mod WindowSize = 0.
Proof.
  unfold WindowStart, WindowSize, hour_of, minute_of, day_ns, Hour, Minute, Second. Z.div_mod_to_equations. lia.
Qed.

(** ** Bursts of denials *)

(** A denial as its caller reports it: when, and what. *)
Record denial := mkDenial {
  d_now : Time; d_ctx : audit_ctx; d_random : option (list Z); d_event : AuditEvent; d_target : string
}.

Definition report (sha256 : string → list Z) (log : audit_log) (d : denial) : audit_log :=
  AuditDenial (d_now d) (d_ctx d) (d_random d) None (d_event d)
    (ResourceFingerprint sha256 (d_target d)) (WindowStart (d_now d)) log.

(** What the burst index compares. *)
Definition burst_key (r : AuditRow) : string * string * string * option Time :=
  (ar_Action r, ar_Actor r, ar_ResourceFP r, ar_FirstAt r).

Lemma same_burst_key r x : same_burst r x = true ↔ 0 < ar_Count x ∧ burst_key r = burst_key x.
Proof.
  unfold same_burst, burst_key. rewrite !andb_true_iff, Z.ltb_lt, !String.eqb_eq, bool_decide_eq_true.
  split; [intros [[[[? ->] ->] ->] ->]; done|]. intros [? [= -> -> -> ->]]. done.
Qed.

(** The row a denial would insert. *)
Definition denial_row (sha256 : string → list Z) (id : Z) (d : denial) : AuditRow :=
  event_row id (d_now d) (take_bytes 256 (FromContext (d_ctx d) (d_random d))) (ClientRequestID (d_ctx d)) (d_event d) 1 (Some (WindowStart (d_now d), d_now d))
    (take_bytes 32 (ResourceFingerprint sha256 (d_target d))).

Lemma deny_upsert sha256 log d :
  report sha256 log d = mkLog (upsert (denial_row sha256 (al_next log) d) (al_rows log)) (al_next log + 1).
Proof. done. Qed.

Lemma upsert_hit r rows1 x rows2 :
  Forall (fun y => same_burst r y = false) rows1 → same_burst r x = true →
  upsert r (rows1 ++ x :: rows2) = (rows1 ++ bump r x :: rows2)%list.
Proof. induction 1 as [|y rows1 Hy _ IH]; intros Hx; cbn; [by rewrite Hx|]. rewrite Hy. f_equal. by apply IH. Qed.

Lemma upsert_miss r rows : Forall (fun y => same_burst r y = false) rows → upsert r rows = (rows ++ [r])%list.
Proof. induction 1 as [|y rows Hy _ IH]; cbn; [done|]. rewrite Hy. by f_equal. Qed.

Lemma same_burst_congr r r' x : burst_key r = burst_key r' → same_burst r x = same_burst r' x.
Proof. intros E. apply eq_iff_eq_true. rewrite !same_burst_key. by rewrite E. Qed.

Lemma bump_key r x : burst_key (bump r x) = burst_key x.
Proof. done. Qed.

(** A burst becomes one row: after denials of one action, actor, target and window
    the table has one more row, which counts them and bears the time and the
    detail of the last and the organisation and the target of the first. *)
Theorem burst_is_one_row (sha256 : string → list Z) (log : audit_log) (d : denial) (ds : list denial) :
  let row := denial_row sha256 (al_next log) in
  Forall (fun y => same_burst (row d) y = false) (al_rows log) →
  Forall (fun d' => burst_key (row d') = burst_key (row d)) ds →
  let final := List.last ds d in
  ∃ r, al_rows (foldl (report sha256) log (d :: ds)) = (al_rows log ++ [r])%list ∧
    ar_Count r = 1 + Z.of_nat (length ds) ∧ ar_OrgID r = ar_OrgID (row d) ∧ ar_TargetID r = ar_TargetID (row d) ∧
    ar_FirstAt r = Some (WindowStart (d_now d)) ∧ ar_LastAt r = Some (d_now final) ∧
    ar_Detail r = Scrub (ev_Detail (d_event final)).
Proof.
  cbn zeta. intros Hnew Hds. cbn [foldl]. rewrite deny_upsert, upsert_miss by done.
  assert (∀ id d', burst_key (denial_row sha256 id d') = burst_key (denial_row sha256 (al_next log) d')) as Hid by done.
  set (r0 := denial_row sha256 (al_next log) d) in *.
  assert (∀ ds r next last, Forall (fun d' => burst_key (denial_row sha256 (al_next log) d') = burst_key r0) ds →
    burst_key r = burst_key r0 → 0 < ar_Count r →
    ar_FirstAt r = Some (WindowStart (d_now d)) → ar_LastAt r = Some (d_now last) →
    ar_Detail r = Scrub (ev_Detail (d_event last)) →
    ∃ r', al_rows (foldl (report sha256) (mkLog (al_rows log ++ [r])%list next) ds) = (al_rows log ++ [r'])%list ∧
      ar_Count r' = ar_Count r + Z.of_nat (length ds) ∧ ar_OrgID r' = ar_OrgID r ∧ ar_TargetID r' = ar_TargetID r ∧
      ar_FirstAt r' = Some (WindowStart (d_now d)) ∧ ar_LastAt r' = Some (d_now (List.last ds last)) ∧
      ar_Detail r' = Scrub (ev_Detail (d_event (List.last ds last)))) as Hrun.
  { clear ds Hds. induction ds as [|d' ds IH]; intros r next last Hds Hk Hc Hf Hl Hd; cbn [foldl length].
    { exists r. split_and!; [done|lia|done..]. }
    apply Forall_cons in Hds as [Hd' Hds]. rewrite deny_upsert. cbn [al_rows al_next].
    rewrite upsert_hit.
    - destruct (IH (bump (denial_row sha256 next d') r) (next + 1) d' Hds) as (r' & -> & H1 & H2 & H3 & H4 & H5 & H6);
        [done|cbn; lia|done..|].
      exists r'. cbn [bump ar_Count ar_OrgID ar_TargetID] in H1, H2, H3.
      assert (List.last (d' :: ds) last = List.last ds d') as -> by (clear; revert d'; induction ds; intros; cbn in *; [done|destruct ds; auto]).
      split_and!; [done|lia|done..].
    - eapply Forall_impl; [exact Hnew|]. intros y Hy. rewrite <- Hy. apply same_burst_congr. by rewrite Hid.
    - apply same_burst_key. split; [done|]. rewrite Hid. congruence. }
  destruct (Hrun ds r0 (al_next log + 1) d Hds) as (r' & -> & H); [done..|]. exists r'. split; [done|].
  cbn [ar_Count r0 denial_row event_row] in H. exact H.
Qed.

(** Bursts of different tenants run into each other: the burst index leaves out the
    organisation, so when the denials of two organisations have the same action,
    actor and target in one window (anonymous callers are all [system]), the
    second is counted in the row of the first and its own organisation's log
    does not show it. *)
Theorem denials_merge_across_orgs (sha256 : string → list Z) (log : audit_log) (d d' : denial) :
  let row := denial_row sha256 (al_next log) in
  Forall (fun y => same_burst (row d) y = false) (al_rows log) →
  burst_key (row d') = burst_key (row d) → ar_OrgID (row d') ≠ ar_OrgID (row d) →
  let log' := report sha256 (report sha256 log d) d' in
  (∃ r, al_rows log' = (al_rows log ++ [r])%list ∧ ar_OrgID r = ar_OrgID (row d) ∧ ar_Count r = 2) ∧
  ∀ o, ListAudit (ar_OrgID (row d')) o log' = ListAudit (ar_OrgID (row d')) o log.
Proof.
  cbn zeta. intros Hnew Hk Horg. rewrite (deny_upsert _ log), upsert_miss by done.
  set (r0 := denial_row sha256 (al_next log) d) in *. rewrite deny_upsert. cbn [al_rows al_next].
  assert (burst_key (denial_row sha256 (al_next log + 1) d') = burst_key r0) as Hk' by (by rewrite <- Hk).
  rewrite upsert_hit; cycle 1.
  { eapply Forall_impl; [exact Hnew|]. intros y Hy. rewrite <- Hy. by apply same_burst_congr. }
  { by apply same_burst_key. }
  split; [by eexists|]. intros o. unfold ListAudit. cbn [al_rows]. do 2 f_equal.
  rewrite List.filter_app. cbn [List.filter].
  assert (non_empty_or (ar_OrgID (denial_row sha256 (al_next log) d')) "default" = ar_OrgID (denial_row sha256 (al_next log) d')) as Ho.
  { unfold denial_row, event_row. cbn [ar_OrgID]. generalize (Scrub (ev_OrgID (d_event d'))). intros s.
    unfold non_empty_or. by destruct (String.eqb_spec s "") as [->|E%String.eqb_neq]; [|rewrite E]. }
  assert (listed (ar_OrgID (denial_row sha256 (al_next log) d')) o
    (bump (denial_row sha256 (al_next log + 1) d') r0) = false) as ->; [|by rewrite app_nil_r].
  unfold listed. rewrite Ho. cbn [bump ar_OrgID].
  assert (String.eqb (ar_OrgID r0) (ar_OrgID (denial_row sha256 (al_next log) d')) = false) as ->; [|done].
  apply String.eqb_neq. congruence.
Qed.

Definition demo_denial (org : string) (now : Time) : denial :=
  mkDenial now no_ctx (Some [1]) (mkEvent "" org "auth.login.denied" "POST /api/auth/login" "bad password") "/api/auth/login".

Lemma denials_merge_across_orgs_witness :
  let log' := report (fun _ => [7]) (report (fun _ => [7]) (mkLog [] 1) (demo_denial "red" 0)) (demo_denial "blue" Minute) in
  (∃ r, al_rows log' = [r] ∧ ar_OrgID r = "red" ∧ ar_Count r = 2) ∧
  ListAudit "blue" (mkListOptions 50 "" "" zero_time) log' = [].
Proof.
  destruct (denials_merge_across_orgs (fun _ => [7]) (mkLog [] 1) (demo_denial "red" 0) (demo_denial "blue" Minute))
    as [H1 H2]; [constructor|vm_compute; reflexivity|vm_compute; discriminate|].
  split; [exact H1|exact (H2 (mkListOptions 50 "" "" zero_time))].
Defined.

Lemma burst_is_one_row_witness :
  let ds := [demo_denial "red" Minute; demo_denial "red" (2 * Minute)] in
  ∃ r, al_rows (foldl (report (fun _ => [7])) (mkLog [] 1) (demo_denial "red" 0 :: ds)) = [r] ∧ ar_Count r = 3 ∧
    ar_LastAt r = Some (2 * Minute).
Proof.
  destruct (burst_is_one_row (fun _ => [7]) (mkLog [] 1) (demo_denial "red" 0)
    [demo_denial "red" Minute; demo_denial "red" (2 * Minute)]) as (r & H1 & H2 & _ & _ & _ & H3 & _);
    [constructor|repeat constructor|].
  exists r. exact (conj H1 (conj H2 H3)).
Defined.

(** ** Pages *)

Definition row_lt (x y : AuditRow) : Prop := before_cursor (ar_CreatedAt y) (ar_ID y) x = true.

Lemma row_lt_spec x y :
  row_lt x y ↔ ar_CreatedAt x < ar_CreatedAt y ∨ ar_CreatedAt x = ar_CreatedAt y ∧ ar_ID x < ar_ID y.
Proof.
  unfold row_lt, before_cursor. rewrite orb_true_iff, andb_true_iff, Z.ltb_lt, Z.eqb_eq, Z.ltb_lt. done.
Qed.

(** Newest first, strictly. *)
Definition newer (x y : AuditRow) : Prop := row_lt y x.

Lemma newer_trans x y z : newer x y → newer y z → newer x z.
Proof. unfold newer. rewrite !row_lt_spec. lia. Qed.

Lemma insert_row_sorted r rows :
  StronglySorted newer rows → Forall (fun x => ar_ID x ≠ ar_ID r) rows → StronglySorted newer (insert_row r rows).
Proof.
  induction 1 as [|x rows Hs IH Hx]; intros Hr; cbn; [repeat constructor|]. apply Forall_cons in Hr as [Hr0 Hr].
  destruct (before_cursor _ _ x) eqn:E.
  - constructor; [by constructor|]. constructor; [done|]. eapply Forall_impl; [exact Hx|].
    intros y Hy. by eapply newer_trans.
  - constructor; [by apply IH|]. assert (newer x r) as Hxr.
    { unfold newer. rewrite row_lt_spec.
      assert (¬ row_lt x r) as Hn by (unfold row_lt; by rewrite E). rewrite row_lt_spec in Hn. lia. }
    clear -Hx Hxr. induction rows as [|y rows IH]; cbn; [by constructor|]. apply Forall_cons in Hx as [Hy Hx].
    destruct (before_cursor _ _ y); repeat constructor; auto.
Qed.

Lemma insert_row_perm r rows : insert_row r rows ≡ₚ r :: rows.
Proof.
  induction rows as [|x rows IH]; cbn; [done|]. destruct (before_cursor _ _ x); [done|]. rewrite IH. constructor.
Qed.

Lemma newest_first_perm rows : newest_first rows ≡ₚ rows.
Proof. induction rows as [|r rows IH]; cbn; [done|]. by rewrite insert_row_perm, IH. Qed.

Lemma newest_first_sorted rows : NoDup (map ar_ID rows) → StronglySorted newer (newest_first rows).
Proof.
  induction rows as [|r rows IH]; cbn [map]; intros Hn; [constructor|]. apply NoDup_cons in Hn as [Hr Hn].
  cbn. apply insert_row_sorted; [by apply IH|]. rewrite newest_first_perm. apply Forall_forall. intros x Hx E. apply Hr.
  rewrite <- E. by apply list_elem_of_fmap_2.
Qed.

(** Strictly sorted lists with the same elements are the same list. *)
Lemma newer_unique l l' : StronglySorted newer l → StronglySorted newer l' → l ≡ₚ l' → l = l'.
Proof.
  assert (∀ x, ¬ newer x x) as Hirr by (intros x; unfold newer; rewrite row_lt_spec; lia).
  intros Hl. revert l'. induction Hl as [|x l Hl IH Hx]; intros l' Hl' Hp; [by apply Permutation_nil_l in Hp|].
  destruct Hl' as [|x' l' Hl' Hx']; [by apply Permutation_nil_r in Hp|].
  assert (x = x') as <-.
  { assert (x ∈ x' :: l') as H1 by (rewrite <- Hp; left). assert (x' ∈ x :: l) as H2 by (rewrite Hp; left).
    apply elem_of_cons in H1 as [->|H1]; [done|]. apply elem_of_cons in H2 as [->|H2]; [done|].
    rewrite Forall_forall in Hx, Hx'. destruct (Hirr x). eapply newer_trans; [by apply Hx|by apply Hx']. }
  f_equal. apply IH; [done|]. by apply Permutation_cons_inv in Hp.
Qed.

Lemma sorted_filter (P : AuditRow → bool) l : StronglySorted newer l → StronglySorted newer (List.filter P l).
Proof.
  induction 1 as [|x l Hl IH Hx]; cbn; [constructor|]. destruct (P x); [|done]. constructor; [done|].
  rewrite Forall_forall in *. intros y Hy. apply Hx. apply list_elem_of_In, filter_In in Hy as [Hy _]. by apply list_elem_of_In.
Qed.

Lemma filter_perm (P : AuditRow → bool) l l' : l ≡ₚ l' → List.filter P l ≡ₚ List.filter P l'.
Proof. induction 1 as [|x l l' _ IH|x y l|l l' l'' _ IH1 _ IH2]; cbn; repeat case_match; try done; first [by rewrite IH|by constructor|by rewrite IH1]. Qed.

Lemma NoDup_filter_ids (P : AuditRow → bool) rows : NoDup (map ar_ID rows) → NoDup (map ar_ID (List.filter P rows)).
Proof.
  induction rows as [|r rows IH]; cbn; [done|]. intros [Hr Hn]%NoDup_cons. destruct (P r); cbn; [|by apply IH].
  constructor; [|by apply IH]. intros H. apply Hr. apply list_elem_of_In, in_map_iff in H as (x & E & Hx).
  apply filter_In in Hx as [Hx _]. rewrite <- E. by apply list_elem_of_In, in_map.
Qed.

Lemma newest_first_filter (P : AuditRow → bool) rows : NoDup (map ar_ID rows) →
  newest_first (List.filter P rows) = List.filter P (newest_first rows).
Proof.
  intros Hn. apply newer_unique.
  - apply newest_first_sorted. by apply NoDup_filter_ids.
  - apply sorted_filter. by apply newest_first_sorted.
  - rewrite newest_first_perm. apply filter_perm. by rewrite newest_first_perm.
Qed.

(** What stands after a row of a sorted list is what is older than it. *)
Lemma filter_after l1 c l2 : StronglySorted newer (l1 ++ c :: l2) →
  List.filter (before_cursor (ar_CreatedAt c) (ar_ID c)) (l1 ++ c :: l2) = l2.
Proof.
  assert (∀ x y, newer x y → before_cursor (ar_CreatedAt y) (ar_ID y) x = false) as Hn.
  { intros x y H. apply not_true_is_false. intros E. change (row_lt x y) in E. unfold newer in H.
    rewrite row_lt_spec in E, H. lia. }
  induction l1 as [|x l1 IH]; cbn [app List.filter]; intros H; inversion H as [|? ? Hs Hx]; subst.
  - assert (before_cursor (ar_CreatedAt c) (ar_ID c) c = false) as ->.
    { apply not_true_is_false. intros E. change (row_lt c c) in E. rewrite row_lt_spec in E. lia. }
    clear -Hx. induction l2 as [|y l2 IH]; [done|]. apply Forall_cons in Hx as [Hy Hx]. cbn.
    assert (before_cursor (ar_CreatedAt c) (ar_ID c) y = true) as -> by exact Hy. by rewrite IH.
  - rewrite Hn by (rewrite Forall_forall in Hx; apply Hx; set_solver). by apply IH.
Qed.

Definition with_cursor (f : AuditFilter) (c : option (Time * Z)) : AuditFilter :=
  mkFilter (f_OrgID f) (f_ActionPrefix f) (f_Actor f) (f_TargetPrefix f) (f_FromTime f) (f_ToTime f)
    (f_RequestID f) (f_ClientReqID f) c (f_Limit f).

(** A client that follows the cursor: each page's last row is the next cursor,
    until a page is empty; at most [fuel] pages. *)
Fixpoint read_pages (fuel : nat) (f : AuditFilter) (log : audit_log) : list (list AuditRow) :=
  match fuel with
  | O => []
  | S fuel' =>
      match ViewAudit f log with
      | Ok page =>
          match last page with
          | None => []
          | Some r => page :: read_pages fuel' (with_cursor f (Some (ar_CreatedAt r, ar_ID r))) log
          end
      | Err _ => []
      end
  end.

(** [C30] Following the cursor of the audit view reads every row of the organisation that
    matches the filter exactly once, newest first, in pages of at most 200, and
    stops within as many requests as there are rows. *)
Theorem view_pages_complete (f : AuditFilter) (log : audit_log) (fuel : nat) :
  NoDup (map ar_ID (al_rows log)) → validateAuditFilter f DefaultViewTimeSpan = None → f_Cursor f = None →
  (length (al_rows log) < fuel)%nat →
  let pages := read_pages fuel f log in
  concat pages = newest_first (List.filter (row_matches f) (al_rows log)) ∧
  Forall (fun p => (1 ≤ length p)%nat ∧ Z.of_nat (length p) ≤ Z.min (f_Limit f) ViewMaxRows) pages ∧
  Forall (fun r => ar_OrgID r = f_OrgID f) (concat pages).
Proof.
  cbn zeta. intros Hn Hv Hc Hfuel. set (all := newest_first (List.filter (row_matches f) (al_rows log))).
  set (n := Z.to_nat (if ViewMaxRows <? f_Limit f then ViewMaxRows else f_Limit f)).
  assert ((1 ≤ n)%nat ∧ Z.of_nat n ≤ Z.min (f_Limit f) ViewMaxRows) as [Hn1 Hn2].
  { unfold validateAuditFilter in Hv. destruct (String.eqb (f_OrgID f) ""); [done|].
    destruct (Z.leb_spec (f_Limit f) 0); [done|]. unfold n, ViewMaxRows. destruct (Z.ltb_spec 200 (f_Limit f)); lia. }
  assert (StronglySorted newer all) as Hsort by (apply newest_first_sorted, NoDup_filter_ids, Hn).
  assert (length all < fuel)%nat as Hlen.
  { unfold all. rewrite newest_first_perm. pose proof (List.filter_length_le (row_matches f) (al_rows log)). lia. }
  assert (∀ fuel c done rest, all = (done ++ rest)%list → (length rest < fuel)%nat →
    (match c with None => done = [] | Some (t, id) => ∃ r, last done = Some r ∧ t = ar_CreatedAt r ∧ id = ar_ID r end) →
    concat (read_pages fuel (with_cursor f c) log) = rest ∧
    Forall (fun p => (1 ≤ length p)%nat ∧ Z.of_nat (length p) ≤ Z.min (f_Limit f) ViewMaxRows)
      (read_pages fuel (with_cursor f c) log)) as Hrun.
  { clear fuel Hfuel Hlen. induction fuel as [|fuel IH]; intros c done rest Hall Hlen Hdone; [lia|]. cbn [read_pages].
    assert (ViewAudit (with_cursor f c) log = Ok (take n rest)) as ->.
    { unfold ViewAudit, runAuditQuery.
      change (validateAuditFilter (with_cursor f c) DefaultViewTimeSpan) with (validateAuditFilter f DefaultViewTimeSpan).
      rewrite Hv. cbn [with_cursor f_Limit]. do 2 f_equal.
      assert (∀ (P Q : AuditRow → bool) l, List.filter (fun r => P r && Q r) l = List.filter Q (List.filter P l)) as Hff.
      { intros P Q l. induction l as [|x l IHl]; cbn; [done|]. destruct (P x); cbn; [|done]. by rewrite IHl. }
      rewrite (Hff (row_matches f)), newest_first_filter by (by apply NoDup_filter_ids). fold all.
      destruct c as [[t id]|].
      - destruct Hdone as (r & Hr & -> & ->). apply last_Some in Hr as [l' ->]. rewrite Hall, <- app_assoc. cbn [app].
        apply filter_after. rewrite Hall, <- app_assoc in Hsort. exact Hsort.
      - subst done. cbn [app] in Hall. rewrite Hall. clear. induction rest as [|x l IHl]; cbn in *; [done|]. by rewrite IHl. }
    destruct rest as [|r0 rest0] eqn:Er; [destruct n; cbn; by repeat constructor|].
    assert (is_Some (last (take n (r0 :: rest0)))) as [r Hr].
    { destruct n as [|k]; [lia|]. cbn. rewrite last_cons. by destruct (last (take k rest0)). }
    rewrite Hr. cbn [concat].
    change (with_cursor (with_cursor f c) ?x) with (with_cursor f x).
    destruct (IH (Some (ar_CreatedAt r, ar_ID r)) (done ++ take n (r0 :: rest0))%list (drop n (r0 :: rest0))) as [H1 H2].
    - by rewrite <- app_assoc, take_drop.
    - rewrite length_drop. cbn [length] in *. lia.
    - exists r. split; [|done]. rewrite last_app, Hr. done.
    - split; [by rewrite H1, take_drop|]. constructor; [|done]. rewrite length_take. cbn [length]. split; lia. }
  destruct (Hrun fuel None [] all) as [H1 H2]; [done|done|done|].
  assert (with_cursor f None = f) as E by (destruct f; cbn in *; by subst). rewrite E in H1, H2.
  split_and!; [done|done|]. rewrite H1. unfold all. rewrite newest_first_perm. apply Forall_forall. intros r Hr.
  apply list_elem_of_In, filter_In in Hr as [_ Hm]. unfold row_matches in Hm. rewrite !andb_true_iff in Hm.
  destruct Hm as [[[[[[[Hm _] _] _] _] _] _] _]. by apply String.eqb_eq in Hm.
Qed.

Definition demo_row (id : Z) (now : Time) : AuditRow :=
  mkRow id "red" "u1" "key.create" "k" "=1+1" "srv-1" "" 0 None None now "".

Lemma view_pages_complete_witness :
  let log := mkLog [demo_row 1 0; demo_row 2 Second; demo_row 3 Second; demo_row 4 0] 5 in
  let f := mkFilter "red" "key." "" "" zero_time zero_time "" "" None 3 in
  map (map ar_ID) (read_pages 5 f log) = [[3; 2; 4]; [1]] ∧
  concat (read_pages 5 f log) = newest_first (List.filter (row_matches f) (al_rows log)).
Proof.
  split; [vm_compute; reflexivity|].
  destruct (view_pages_complete (mkFilter "red" "key." "" "" zero_time zero_time "" "" None 3)
    (mkLog [demo_row 1 0; demo_row 2 Second; demo_row 3 Second; demo_row 4 0] 5) 5) as [H _]; [|vm_compute; reflexivity|done|cbn; lia|exact H].
  apply (bool_decide_unpack _). vm_compute. exact I.
Defined.

(** ** The export *)

(** A reader of RFC 4180 records: the rest of a quoted field, an unquoted field,
    the fields of a record up to its line break, the records of a file. *)
Fixpoint read_quoted (s : string) : option (string * string) :=
  match s with
  | "" => None
  | String c s' =>
      if Ascii.eqb c quote then
        match s' with
        | String d s'' =>
            if Ascii.eqb d quote then (fun p => (String quote (fst p), snd p)) <$> read_quoted s'' else Some ("", s')
        | "" => Some ("", "")
        end
      else (fun p => (String c (fst p), snd p)) <$> read_quoted s'
  end.

Fixpoint read_plain (s : string) : string * string :=
  match s with
  | String c s' =>
      if Ascii.eqb c "," || Ascii.eqb c (ascii_of_nat 10) then ("", s)
      else let '(f, r) := read_plain s' in (String c f, r)
  | "" => ("", "")
  end.

Definition read_field (s : string) : option (string * string) :=
  match s with
  | String c s' => if Ascii.eqb c quote then read_quoted s' else Some (read_plain s)
  | "" => Some ("", "")
  end.

Fixpoint read_record (fuel : nat) (s : string) : option (list string * string) :=
  match fuel with
  | O => None
  | S fuel' =>
      '(f, r) ← read_field s;
      match r with
      | String c r' =>
          if Ascii.eqb c "," then '(fs, r'') ← read_record fuel' r'; Some (f :: fs, r'')
          else if Ascii.eqb c (ascii_of_nat 10) then Some ([f], r')
          else None
      | "" => None
      end
  end.

Fixpoint read_file (fuel : nat) (s : string) : option (list (list string)) :=
  match fuel with
  | O => None
  | S fuel' =>
      match s with
      | "" => Some []
      | _ => '(cells, r) ← read_record (S (String.length s)) s; rest ← read_file fuel' r; Some (cells :: rest)
      end
  end.

Lemma read_quoted_field f t :
  (∀ c r, t = String c r → Ascii.eqb c quote = false) →
  read_quoted (double_quotes f +:+ String quote t) = Some (f, t).
Proof.
  intros Ht. induction f as [|c f IH]; cbn [double_quotes].
  - change ("" +:+ ?x) with x. cbn [read_quoted]. rewrite Ascii.eqb_refl. destruct t as [|c r]; [done|]. by rewrite (Ht c r).
  - destruct (Ascii.eqb_spec c quote) as [->|Hc].
    + change (String quote (String quote ?s) +:+ ?x) with (String quote (String quote (s +:+ x))).
      cbn [read_quoted]. rewrite Ascii.eqb_refl, IH. done.
    + change (String c ?s +:+ ?x) with (String c (s +:+ x)). cbn [read_quoted].
      apply Ascii.eqb_neq in Hc. by rewrite Hc, IH.
Qed.

Lemma IndexByte_in b s : IndexByte s b = None → ¬ byte_in b s.
Proof.
  induction s as [|c s IH]; cbn; [by intros _ []|]. case_decide as E; [done|].
  destruct (IndexByte s b); [done|]. intros _ [->|H]; [done|]. by apply IH.
Qed.

Lemma read_plain_field f t :
  ¬ byte_in "," f → ¬ byte_in (ascii_of_nat 10) f → (∀ c r, t = String c r → Ascii.eqb c "," || Ascii.eqb c (ascii_of_nat 10) = true) →
  read_plain (f +:+ t) = (f, t).
Proof.
  intros H1 H2 Ht. induction f as [|c f IH]; cbn [byte_in] in *.
  - change ("" +:+ t) with t. destruct t as [|c r]; [done|]. cbn. by rewrite (Ht c r).
  - change (String c f +:+ t) with (String c (f +:+ t)). cbn [read_plain].
    rewrite IH by tauto. destruct (Ascii.eqb_spec c ","); [tauto|]. destruct (Ascii.eqb_spec c (ascii_of_nat 10)); [tauto|]. done.
Qed.

Lemma read_csv_field f t c r :
  t = String c r → c = ","%char ∨ c = ascii_of_nat 10 → read_field (csv_field f +:+ t) = Some (f, t).
Proof.
  intros -> Hc. unfold csv_field. destruct (fieldNeedsQuotes f) eqn:E.
  - change (String quote ?s +:+ ?x) with (String quote (s +:+ x)). rewrite app_assoc_string.
    change (String quote "" +:+ ?x) with (String quote x). cbn [read_field]. rewrite Ascii.eqb_refl.
    apply read_quoted_field. intros c' r' [= <- <-]. by destruct Hc as [->| ->].
  - assert (f = "" ∨ ¬ byte_in "," f ∧ ¬ byte_in quote f ∧ ¬ byte_in (ascii_of_nat 10) f) as [->|(H1 & H2 & H3)].
    { unfold fieldNeedsQuotes in E. destruct (String.eqb_spec f ""); [by left|right].
      apply orb_false_elim in E as [E _]. apply orb_false_elim in E as [E E4]. apply orb_false_elim in E as [E _].
      apply orb_false_elim in E as [E E2]. apply orb_false_elim in E as [_ E1].
      unfold has_byte in E1, E2, E4. split_and!; apply IndexByte_in; match goal with |- ?x = None => by destruct x end. }
    + change ("" +:+ ?x) with x. by destruct Hc as [->| ->].
    + assert (read_plain (f +:+ String c r) = (f, String c r)) as Hp.
      { apply read_plain_field; [done|done|]. intros c' r' [= <- <-]. by destruct Hc as [->| ->]. }
      destruct f as [|d f]; [by destruct Hc as [->| ->]|].
      change (String d f +:+ ?x) with (String d (f +:+ x)) in *. unfold read_field.
      destruct (Ascii.eqb_spec d quote) as [->|]; [cbn in H2; tauto|]. by rewrite Hp.
Qed.

Lemma read_csv_record cells t fuel : cells ≠ [] → (length cells ≤ fuel)%nat →
  read_record fuel (Join (map csv_field cells) "," +:+ String (ascii_of_nat 10) t) = Some (cells, t).
Proof.
  revert fuel. induction cells as [|f cells IH]; intros fuel Hne Hf; [done|]. destruct fuel as [|fuel]; [cbn in Hf; lia|].
  destruct cells as [|f' cells].
  - cbn [map Join read_record]. by erewrite read_csv_field by (done || by right).
  - cbn [map Join]. rewrite !app_assoc_string. change ("," +:+ ?x) with (String "," x). cbn [read_record].
    erewrite read_csv_field by (done || by left). cbn [mbind option_bind]. cbn [Ascii.eqb Bool.eqb].
    change (Join (csv_field f' :: map csv_field cells) ",") with (Join (map csv_field (f' :: cells)) ",").
    rewrite IH; [done|done|]. cbn in *. lia.
Qed.

Lemma csv_record_length cells : (length cells ≤ String.length (csv_record cells))%nat.
Proof.
  unfold csv_record. rewrite length_app_string. cbn [String.length LF].
  assert (∀ l, (length l ≤ String.length (Join l ",") + 1)%nat) as H.
  { intros l. induction l as [|x l IH]; [cbn; lia|]. destruct l as [|y l]; [cbn; lia|].
    change (Join (x :: y :: l) ",") with (x +:+ "," +:+ Join (y :: l) ","). rewrite !length_app_string.
    cbn [length] in *. change (String.length ",") with 1%nat. lia. }
  specialize (H (map csv_field cells)). rewrite length_map in H. lia.
Qed.

Lemma read_csv_file records fuel : Forall (fun c => c ≠ []) records → (length records < fuel)%nat →
  read_file fuel (foldr String.append "" (map csv_record records)) = Some records.
Proof.
  intros Hr. revert fuel. induction Hr as [|cells records Hc _ IH]; intros fuel Hf; (destruct fuel as [|fuel]; [lia|]); [done|].
  cbn [map foldr]. set (rest := foldr _ _ _). set (s := String.append (csv_record cells) rest).
  assert (read_record (S (String.length s)) s = Some (cells, rest)) as Hrec.
  { assert (s = Join (map csv_field cells) "," +:+ String (ascii_of_nat 10) rest) as Es.
    { unfold s, csv_record. rewrite app_assoc_string. done. }
    rewrite Es at 2. apply read_csv_record; [done|]. unfold s. rewrite length_app_string.
    pose proof (csv_record_length cells). lia. }
  assert (s ≠ "") as Hs.
  { intros E. apply (f_equal String.length) in E. unfold s in E. rewrite length_app_string in E. cbn in E.
    pose proof (csv_record_length cells). destruct cells; [done|cbn in *; lia]. }
  cbn [read_file]. destruct s as [|c0 s0] eqn:E; [done|]. rewrite Hrec. cbn [mbind option_bind].
  unfold rest. rewrite IH; [done|]. cbn in Hf. lia.
Qed.


Lemma replace_byte_in a new s b :
  byte_in b (ReplaceAll s (String a "") new) → byte_in b s ∧ b ≠ a ∨ byte_in b new.
Proof.
  unfold ReplaceAll. induction s as [|c s IH]; [by intros []|]. cbn [replace_from].
  destruct (HasPrefix (String c s) (String a "")) eqn:E.
  - change (String.length (String a "") - 1)%nat with 0%nat. rewrite byte_in_app.
    intros [H|H%IH]; [by right|]. cbn [byte_in]. tauto.
  - cbn [byte_in]. intros [->|H%IH]; [|tauto]. left. split; [by left|]. intros ->.
    cbn in E. case_match; [|done]. by destruct s.
Qed.

(** A cell a spreadsheet takes as text: no line break or tab in it, and it does
    not begin with a character that starts a formula. *)
Definition safe_cell (s : string) : Prop :=
  (∀ b, b ∈ [ascii_of_nat 13; ascii_of_nat 10; ascii_of_nat 9] → ¬ byte_in b s) ∧
  match s with String c _ => byte_of "=+-@" c = false | "" => True end.

Lemma safe_empty : safe_cell "".
Proof. split; [by intros b _ []|done]. Qed.

Lemma csvSafeCell_safe s : safe_cell (csvSafeCell s).
Proof.
  unfold csvSafeCell. destruct (String.eqb s ""); [apply safe_empty|].
  set (t := ReplaceAll (ReplaceAll (ReplaceAll s CR "") LF " ") TAB " ").
  assert (∀ b, b ∈ [ascii_of_nat 13; ascii_of_nat 10; ascii_of_nat 9] → ¬ byte_in b t) as H.
  { intros b Hb H. unfold t, CR, LF, TAB in H. rewrite !elem_of_cons, elem_of_nil in Hb.
    do 2 (apply replace_byte_in in H as [[H ?]|H]; [|destruct H as [E|[]]; rewrite <- E in Hb; by destruct Hb as [?|[?|[?|?]]]]).
    apply replace_byte_in in H as [[H ?]|[]]. destruct Hb as [?|[?|[?|?]]]; congruence. }
  destruct t as [|c t]; [apply safe_empty|].
  destruct (byte_of "=+-@" c) eqn:E; cbn [orb]; [|case_match eqn:Et].
  1,2: split; [|done]; intros b Hb [E'|Hin]; [rewrite <- E' in Hb|by apply (H b Hb)];
    rewrite !elem_of_cons, elem_of_nil in Hb; by destruct Hb as [?|[?|[?|?]]].
  split; [exact H|exact E].
Qed.

(** The cells of a row but for the burst count, which is a number. *)
Definition text_cells (r : AuditRow) : list string := (take 7 (csv_cells r) ++ drop 8 (csv_cells r))%list.

(** The text of an export is a CSV file of the header and one record for each
    row: an RFC 4180 reader gets back exactly the cells that were written, so no
    byte of a detail or of an action can break a record or add a column.  Every
    text cell is free of line breaks and tabs and starts no formula, and the
    returned number is one more than the number of rows. *)
Theorem csv_export_faithful (rows : list AuditRow) :
  read_file (S (S (length rows))) (fst (writeAuditCSV rows)) = Some (auditCSVHeader :: map csv_cells rows) ∧
  Forall (fun r => Forall safe_cell (text_cells r)) rows ∧
  snd (writeAuditCSV rows) = Z.of_nat (length rows) + 1.
Proof.
  split_and!.
  - apply read_csv_file; [|cbn; rewrite length_map; lia].
    constructor; [done|]. apply Forall_map, Forall_forall. by intros r _.
  - apply Forall_forall. intros r _. repeat constructor; apply csvSafeCell_safe.
  - cbn. lia.
Qed.

Example export_one :
  fst (writeAuditCSV [demo_row 1 0]) =
  "org_id,actor,action,target_id,detail,request_id,client_request_id,count,first_at,last_at,created_at,resource_fingerprint" +:+ LF +:+
  "red,u1,key.create,k,'=1+1,srv-1,,0,,,1970-01-01T00:00:00Z," +:+ LF.
Proof. vm_compute. reflexivity. Qed.
