(* ===== verification/CoreStore.v ===== *)
(** * CoreStore: src/internal/core (types.go, store.go, users.go, invite.go,
    normalize.go) and src/internal/core/crypto

    The control-plane store.  The tables it works on are finite maps from primary
    keys to rows, with the unique indexes and the foreign keys of
    migrations/postgres (001, 002, 003, 008, 014); NULL in a user_id column is
    [""], which [nullStr] writes as NULL.  A statement runs as a whole: it fails
    without an effect, on a constraint or by a fault of the connection, or gives
    its result and the new tables.  The clock, the faults, the random bytes and
    the new ids come from an environment consulted once per use; bcrypt, AES-GCM
    and SHA-256 are parameters of it. *)

From S2P Require Import Prelude GoString GoTime Float64 GoSort Net ApiErr AuditId AuditLog.
Local Open Scope string_scope.
Local Open Scope Z_scope.

(** ** types.go *)

Record VirtualKey := mkVKey {
  vk_ID : string; vk_OrgID : string; vk_UserID : string; vk_Name : string; vk_KeyPrefix : string;
  vk_KeyLast4 : string; vk_AllowedModels : list string; vk_RPMLimit : Z; vk_MonthlyBudget : float64;
  vk_MinQuality : float64; vk_Revoked : bool; vk_CreatedAt : Time
}.

(** The models column: what its JSON decodes to. *)
Record CredentialModels := mkModels { cm_Chat : list string; cm_Embed : list string }.

Record ProviderCredential := mkCred {
  pc_ID : string; pc_OrgID : string; pc_UserID : string; pc_Provider : string; pc_Name : string;
  pc_BaseURL : string; pc_Models : CredentialModels; pc_SecretLast4 : string; pc_Enabled : bool;
  pc_CreatedAt : Time; pc_RotatedAt : option Time
}.

Record User := mkUser {
  u_ID : string; u_OrgID : string; u_Email : string; u_Role : string; u_EnforceLimits : bool;
  u_CreatedAt : Time; u_OnboardedAt : option Time
}.

Definition RoleAdmin : string := "admin".
Definition RoleMember : string := "member".
Definition DefaultOrgID : string := "default".

Definition key_alphabet : list ascii := String.list_ascii_of_string "abcdefghijklmnopqrstuvwxyz234567".

(** base32 without padding: five bits a character, the last group filled with
    zeros. *)
Definition byte_bits (b : Z) : list bool := map (Z.testbit b) [7; 6; 5; 4; 3; 2; 1; 0].

Fixpoint base32_groups (bits : list bool) : string :=
  match bits with
  | [] => ""
  | b4 :: l =>
      let g := take 4 l in
      let n := foldl (fun n (b : bool) => 2 * n + (if b then 1 else 0)) 0 (b4 :: g) * 2 ^ (4 - Z.of_nat (length g)) in
      String (default "a"%char (key_alphabet !! Z.to_nat n))
        match l with _ :: _ :: _ :: _ :: rest => base32_groups rest | _ => "" end
  end.

Definition EncodeToString (buf : list Z) : string := base32_groups (concat (map byte_bits buf)).

(** A buffer after [rand.Read] whose error is dropped: a failed read leaves the
    zeros. *)
Definition random_buf (n : nat) (random : option (list Z)) : list Z := default (repeat 0 n) random.

Definition GenerateVirtualKey (random : option (list Z)) : string * string * string :=
  let body := EncodeToString (random_buf 24 random) in
  let plaintext := "nxs_live_" +:+ body in
  (plaintext, "nxs_live_" +:+ take_bytes 4 body, drop_bytes (String.length plaintext - 4) plaintext).

Definition GenerateSessionToken (random : option (list Z)) : string :=
  "nxs_sess_" +:+ EncodeToString (random_buf 32 random).

Definition Last4 (s : string) : string :=
  let s := TrimSpace s in
  if (String.length s <=? 4)%nat then s else drop_bytes (String.length s - 4) s.

(** [normaliseEmail], on ASCII text. *)
Definition normaliseEmail (s : string) : string := ToLower (TrimSpace s).

(** ** crypto *)

(** A configured cipher: what AES-256-GCM under the master key seals with a nonce
    of twelve bytes, and what it opens. *)
Record Cipher := mkCipher {
  Seal : string → string → string;
  Open : string → string → option string
}.

Definition NonceSize : nat := 12.

Definition byte_text (bs : list Z) : string := foldr (fun b s => String (ascii_of_N (Z.to_N b)) s) "" bs.

Definition Encrypt (c : Cipher) (random : option (list Z)) (plaintext : string) : option string :=
  match random with
  | None => None
  | Some bs => Some (byte_text bs +:+ Seal c (byte_text bs) plaintext)
  end.

Definition Decrypt (c : Cipher) (ciphertext : string) : option string :=
  if (String.length ciphertext <? NonceSize)%nat then None
  else Open c (take_bytes NonceSize ciphertext) (drop_bytes NonceSize ciphertext).

(** ** Tables *)

Record user_row := mkUserRow { ur_user : User; ur_hash : string; ur_sso : option (string * string * string) }.
Record session_row := mkSession { sr_user : string; sr_expires : Time }.
Record key_row := mkKeyRow { kr_key : VirtualKey; kr_hash : string }.
Record cred_row := mkCredRow { cr_cred : ProviderCredential; cr_secret : string }.

Record Invite := mkInvite {
  iv_ID : string; iv_OrgID : string; iv_Email : string; iv_Role : string; iv_CreatedBy : string;
  iv_CreatedAt : Time; iv_ExpiresAt : Time; iv_AcceptedAt : option Time; iv_RevokedAt : option Time;
  iv_AcceptedBy : option string; iv_URL : string
}.
Record invite_row := mkInviteRow { ir_invite : Invite; ir_hash : string }.

Record db := mkDb {
  d_orgs : gset string;
  d_users : gmap string user_row;
  d_sessions : gmap string session_row;
  d_keys : gmap string key_row;
  d_creds : gmap string cred_row;
  d_invites : gmap string invite_row;
  d_log : audit_log
}.

Definition set_users (f : gmap string user_row → gmap string user_row) (d : db) : db :=
  mkDb (d_orgs d) (f (d_users d)) (d_sessions d) (d_keys d) (d_creds d) (d_invites d) (d_log d).
Definition set_sessions (f : gmap string session_row → gmap string session_row) (d : db) : db :=
  mkDb (d_orgs d) (d_users d) (f (d_sessions d)) (d_keys d) (d_creds d) (d_invites d) (d_log d).
Definition set_keys (f : gmap string key_row → gmap string key_row) (d : db) : db :=
  mkDb (d_orgs d) (d_users d) (d_sessions d) (f (d_keys d)) (d_creds d) (d_invites d) (d_log d).
Definition set_creds (f : gmap string cred_row → gmap string cred_row) (d : db) : db :=
  mkDb (d_orgs d) (d_users d) (d_sessions d) (d_keys d) (f (d_creds d)) (d_invites d) (d_log d).
Definition set_invites (f : gmap string invite_row → gmap string invite_row) (d : db) : db :=
  mkDb (d_orgs d) (d_users d) (d_sessions d) (d_keys d) (d_creds d) (f (d_invites d)) (d_log d).
Definition set_log (f : audit_log → audit_log) (d : db) : db :=
  mkDb (d_orgs d) (d_users d) (d_sessions d) (d_keys d) (d_creds d) (d_invites d) (f (d_log d)).

(** The rows a WHERE clause selects, and the first of them in the order of a
    comparison; rows the comparison does not tell apart come in the order of
    their keys. *)
Definition rows_where {A} (p : A → bool) (t : gmap string A) : list A :=
  List.filter p (map snd (map_to_list t)).

Definition any_row {A} (p : A → bool) (t : gmap string A) : bool :=
  existsb (fun kv => p (snd kv)) (map_to_list t).

(** A nullable reference points to this user. *)
Definition refers (v id : string) : bool := negb (String.eqb v "") && String.eqb v id.

Definition null_or_user (d : db) (id : string) : bool :=
  String.eqb id "" || bool_decide (is_Some (d_users d !! id)).

(** ** Statements *)

Inductive sql_error := UniqueViolation | ForeignKeyViolation | Fault (msg : string).

Definition stmt (A : Type) : Type := Time → db → res sql_error (A * db).

(** *** The constraints of the schema (migrations/postgres)

    Each tells whether a row with these columns would violate a primary key or a
    unique index, or whether the row a foreign key names exists. *)

Definition same_email (orgID email : string) (r : user_row) : bool :=
  String.eqb (u_OrgID (ur_user r)) orgID && String.eqb (u_Email (ur_user r)) email.

Definition same_invite (orgID email hash : string) (r : invite_row) : bool :=
  String.eqb (iv_OrgID (ir_invite r)) orgID && String.eqb (iv_Email (ir_invite r)) email ||
  String.eqb (ir_hash r) hash.

Definition users_taken (id orgID email : string) (d : db) : bool :=
  bool_decide (is_Some (d_users d !! id)) || any_row (same_email orgID email) (d_users d).
Definition sessions_taken (hash : string) (d : db) : bool := bool_decide (is_Some (d_sessions d !! hash)).
Definition keys_taken (id hash : string) (d : db) : bool :=
  bool_decide (is_Some (d_keys d !! id)) || any_row (fun r => String.eqb (kr_hash r) hash) (d_keys d).
Definition creds_taken (id : string) (d : db) : bool := bool_decide (is_Some (d_creds d !! id)).
Definition invites_taken (id orgID email hash : string) (d : db) : bool :=
  bool_decide (is_Some (d_invites d !! id)) || any_row (same_invite orgID email hash) (d_invites d).

Definition org_known (id : string) (d : db) : bool := bool_decide (id ∈ d_orgs d).
Definition user_known (id : string) (d : db) : bool := bool_decide (is_Some (d_users d !! id)).

(** *** The statements *)

Definition insert_user (id orgID email hash role : string) : stmt unit := fun now d =>
  if users_taken id orgID email d then Err UniqueViolation
  else if org_known orgID d
  then Ok (tt, set_users <[id := mkUserRow (mkUser id orgID email role true now None) hash None]> d)
  else Err ForeignKeyViolation.

(** An UPDATE of the users row with this id, where [p] holds of it; the answer is
    the number of rows. *)
Definition update_user (id : string) (p : user_row → bool) (f : Time → user_row → user_row) : stmt Z := fun now d =>
  match d_users d !! id with
  | Some r => if p r then Ok (1, set_users <[id := f now r]> d) else Ok (0, d)
  | None => Ok (0, d)
  end.

(** The partial unique index over (org_id, sso_provider, sso_subject). *)
Definition same_sso (orgID provider subject id : string) (r : user_row) : bool :=
  String.eqb (u_OrgID (ur_user r)) orgID && negb (String.eqb (u_ID (ur_user r)) id) &&
  match ur_sso r with Some (p, s, _) => String.eqb p provider && String.eqb s subject | None => false end.

Definition link_sso (id provider subject issuer : string) : stmt Z := fun now d =>
  match d_users d !! id with
  | Some r =>
      if match ur_sso r with None => true | Some (p, s, _) => String.eqb p provider && String.eqb s subject end then
        if any_row (same_sso (u_OrgID (ur_user r)) provider subject id) (d_users d) then Err UniqueViolation
        else Ok (1, set_users <[id := mkUserRow (ur_user r) (ur_hash r) (Some (provider, subject, issuer))]> d)
      else Ok (0, d)
  | None => Ok (0, d)
  end.

(** DELETE of a user with the cascades of its references. *)
Definition keep {A} (p : A → bool) (t : gmap string A) : gmap string A := filter (fun kv => p (snd kv) = true) t.

Definition forget_user (id : string) (r : invite_row) : invite_row :=
  let i := ir_invite r in
  mkInviteRow
    (mkInvite (iv_ID i) (iv_OrgID i) (iv_Email i) (iv_Role i) (iv_CreatedBy i) (iv_CreatedAt i) (iv_ExpiresAt i)
       (iv_AcceptedAt i) (iv_RevokedAt i) (if decide (iv_AcceptedBy i = Some id) then None else iv_AcceptedBy i)
       (iv_URL i)) (ir_hash r).

Definition drop_user (id : string) (d : db) : db :=
  mkDb (d_orgs d) (delete id (d_users d))
    (keep (fun s => negb (String.eqb (sr_user s) id)) (d_sessions d))
    (keep (fun k => negb (refers (vk_UserID (kr_key k)) id)) (d_keys d))
    (keep (fun c => negb (refers (pc_UserID (cr_cred c)) id)) (d_creds d))
    (forget_user id <$> keep (fun i => negb (String.eqb (iv_CreatedBy (ir_invite i)) id)) (d_invites d))
    (d_log d).

Definition delete_user (id orgID : string) : stmt Z := fun _ d =>
  match d_users d !! id with
  | Some r => if String.eqb (u_OrgID (ur_user r)) orgID then Ok (1, drop_user id d) else Ok (0, d)
  | None => Ok (0, d)
  end.

Definition insert_session (hash userID : string) (expires : Time) : stmt unit := fun _ d =>
  if sessions_taken hash d then Err UniqueViolation
  else if user_known userID d
  then Ok (tt, set_sessions <[hash := mkSession userID expires]> d)
  else Err ForeignKeyViolation.

Definition delete_session (hash : string) : stmt unit := fun _ d => Ok (tt, set_sessions (delete hash) d).

Definition created_key (now : Time) (vk : VirtualKey) : VirtualKey :=
  mkVKey (vk_ID vk) (vk_OrgID vk) (vk_UserID vk) (vk_Name vk) (vk_KeyPrefix vk) (vk_KeyLast4 vk)
    (vk_AllowedModels vk) (vk_RPMLimit vk) (vk_MonthlyBudget vk) (vk_MinQuality vk) false now.

Definition insert_key (vk : VirtualKey) (hash : string) : stmt unit := fun now d =>
  if keys_taken (vk_ID vk) hash d then Err UniqueViolation
  else if org_known (vk_OrgID vk) d && null_or_user d (vk_UserID vk)
  then Ok (tt, set_keys <[vk_ID vk := mkKeyRow (created_key now vk) hash]> d)
  else Err ForeignKeyViolation.

Definition revoked_key (r : key_row) : key_row :=
  let vk := kr_key r in
  mkKeyRow (mkVKey (vk_ID vk) (vk_OrgID vk) (vk_UserID vk) (vk_Name vk) (vk_KeyPrefix vk) (vk_KeyLast4 vk)
    (vk_AllowedModels vk) (vk_RPMLimit vk) (vk_MonthlyBudget vk) (vk_MinQuality vk) true (vk_CreatedAt vk)) (kr_hash r).

Definition revoke_key (id orgID : string) : stmt Z := fun _ d =>
  match d_keys d !! id with
  | Some r =>
      if String.eqb (vk_OrgID (kr_key r)) orgID then Ok (1, set_keys <[id := revoked_key r]> d) else Ok (0, d)
  | None => Ok (0, d)
  end.

Definition created_cred (now : Time) (c : ProviderCredential) : ProviderCredential :=
  mkCred (pc_ID c) (pc_OrgID c) (pc_UserID c) (pc_Provider c) (pc_Name c) (pc_BaseURL c) (pc_Models c)
    (pc_SecretLast4 c) true now None.

Definition insert_cred (c : ProviderCredential) (secret : string) : stmt unit := fun now d =>
  if creds_taken (pc_ID c) d then Err UniqueViolation
  else if org_known (pc_OrgID c) d && null_or_user d (pc_UserID c)
  then Ok (tt, set_creds <[pc_ID c := mkCredRow (created_cred now c) secret]> d)
  else Err ForeignKeyViolation.

Definition rotated (now : Time) (secret last4 : string) (r : cred_row) : cred_row :=
  let c := cr_cred r in
  mkCredRow (mkCred (pc_ID c) (pc_OrgID c) (pc_UserID c) (pc_Provider c) (pc_Name c) (pc_BaseURL c) (pc_Models c)
    last4 (pc_Enabled c) (pc_CreatedAt c) (Some now)) secret.

(** UPDATE ... RETURNING: the updated row, if the clause selects it. *)
Definition rotate_cred (id : string) (p : ProviderCredential → bool) (secret last4 : string) :
    stmt (option ProviderCredential) := fun now d =>
  match d_creds d !! id with
  | Some r =>
      if p (cr_cred r)
      then Ok (Some (cr_cred (rotated now secret last4 r)), set_creds <[id := rotated now secret last4 r]> d)
      else Ok (None, d)
  | None => Ok (None, d)
  end.

Definition delete_cred (id : string) (p : ProviderCredential → bool) : stmt Z := fun _ d =>
  match d_creds d !! id with
  | Some r => if p (cr_cred r) then Ok (1, set_creds (delete id) d) else Ok (0, d)
  | None => Ok (0, d)
  end.

Definition insert_invite (i : Invite) (hash : string) : stmt unit := fun _ d =>
  if invites_taken (iv_ID i) (iv_OrgID i) (iv_Email i) hash d then Err UniqueViolation
  else if org_known (iv_OrgID i) d && user_known (iv_CreatedBy i) d
  then Ok (tt, set_invites <[iv_ID i := mkInviteRow i hash]> d)
  else Err ForeignKeyViolation.

Definition stamped (accepted : option (Time * string)) (revoked : option Time) (r : invite_row) : invite_row :=
  let i := ir_invite r in
  mkInviteRow
    (mkInvite (iv_ID i) (iv_OrgID i) (iv_Email i) (iv_Role i) (iv_CreatedBy i) (iv_CreatedAt i) (iv_ExpiresAt i)
       (match accepted with Some (t, _) => Some t | None => iv_AcceptedAt i end)
       (match revoked with Some t => Some t | None => iv_RevokedAt i end)
       (match accepted with Some (_, u) => Some u | None => iv_AcceptedBy i end) (iv_URL i)) (ir_hash r).

Definition is_none {A} (o : option A) : bool := match o with None => true | Some _ => false end.

Definition revoke_invite (id orgID : string) : stmt Z := fun now d =>
  match d_invites d !! id with
  | Some r =>
      let i := ir_invite r in
      if String.eqb (iv_OrgID i) orgID && is_none (iv_AcceptedAt i) && is_none (iv_RevokedAt i)
      then Ok (1, set_invites <[id := stamped None (Some now) r]> d) else Ok (0, d)
  | None => Ok (0, d)
  end.

Definition accept_invite (id userID : string) (at_ : Time) : stmt unit := fun _ d =>
  match d_invites d !! id with
  | Some r =>
      if user_known userID d
      then Ok (tt, set_invites <[id := stamped (Some (at_, userID)) None r]> d) else Err ForeignKeyViolation
  | None => Ok (tt, d)
  end.

(** A SELECT changes nothing. *)
Definition select {A} (f : Time → db → A) : stmt A := fun now d => Ok (f now d, d).

(** ** Effects *)

Inductive store_err :=
| ErrNotFound | ErrEmailTaken | ErrInvalidCredentials | ErrInviteNotFound | ErrInviteConsumed | ErrInviteExpired
| ErrNoMasterKey | ErrInviteAccepted | ErrInviteRevoked | ErrDecrypt | Failed (what : string) | Sql (e : sql_error).

Record env := mkEnv {
  e_now : nat → Time;
  e_fault : nat → option string;
  e_uuid : nat → string;
  e_random : nat → option (list Z);
  e_bcrypt : nat → string → option string;
  e_bcrypt_ok : string → string → bool;
  e_sha256 : string → list Z;
  e_cipher : option Cipher;
  e_ctx : audit_ctx
}.

Record world := mkWorld { w_db : db; w_tick : nat }.

Definition M (A : Type) : Type := world → res store_err A * world.

#[export] Instance M_ret : MRet M := fun A a w => (Ok a, w).
#[export] Instance M_bind : MBind M := fun A B k m w =>
  match m w with
  | (Ok a, w') => k a w'
  | (Err e, w') => (Err e, w')
  end.

Definition fail {A} (e : store_err) : M A := fun w => (Err e, w).

(** The next reading of the environment. *)
Definition consult {A} (f : nat → A) : M A := fun w => (Ok (f (w_tick w)), mkWorld (w_db w) (S (w_tick w))).

Definition of_opt {A} (e : store_err) (o : option A) : M A := match o with Some a => mret a | None => fail e end.

Definition on_unique {A} (e : store_err) (m : M A) : M A := fun w =>
  match m w with
  | (Err (Sql UniqueViolation), w') => (Err e, w')
  | r => r
  end.

Section Store.
Context (E : env).

Definition exec {A} (s : stmt A) : M A := fun w =>
  let n := w_tick w in
  match e_fault E n with
  | Some msg => (Err (Sql (Fault msg)), mkWorld (w_db w) (S n))
  | None =>
      match s (e_now E n) (w_db w) with
      | Ok (a, d) => (Ok a, mkWorld d (S n))
      | Err e => (Err (Sql e), mkWorld (w_db w) (S n))
      end
  end.

Definition audit (actor org : string) (action : AuditAction) (target detail : string) : M unit := fun w =>
  let n := w_tick w in
  (Ok tt, mkWorld (set_log (Audit (e_now E n) (e_ctx E) (e_random E n) (e_fault E n)
                              (mkEvent actor org action target detail)) (w_db w)) (S n)).

(** RowsAffected is zero: not found. *)
Definition affected (n : Z) : M unit := if n =? 0 then fail ErrNotFound else mret tt.

Definition HashKey (key : string) : string := hex_encode (e_sha256 E key).

Definition org_of (orgID : string) : string := non_empty_or orgID DefaultOrgID.

(** ** Users and sessions (users.go) *)

Definition CreateUser (orgID actorID email password role : string) : M User :=
  let orgID := org_of orgID in
  let role := non_empty_or role RoleMember in
  hash ← consult (fun n => e_bcrypt E n password);
  hash ← of_opt (Failed "bcrypt") hash;
  id ← consult (e_uuid E);
  _ ← on_unique ErrEmailTaken (exec (insert_user id orgID email hash role));
  _ ← audit actorID orgID "user.create" id email;
  mret (mkUser id orgID email role true zero_time None).

Definition GetUser (id : string) : M User :=
  r ← exec (select (fun _ d => ur_user <$> d_users d !! id));
  of_opt ErrNotFound r.

Definition in_org (orgID : string) (r : user_row) : bool := String.eqb (u_OrgID (ur_user r)) orgID.

Definition UserInOrg (orgID userID : string) : M bool :=
  exec (select (fun _ d => match d_users d !! userID with Some r => in_org (org_of orgID) r | None => false end)).

Definition older (r s : user_row) : bool := u_CreatedAt (ur_user r) <? u_CreatedAt (ur_user s).

Definition ListUsers (orgID : string) : M (list User) :=
  exec (select (fun _ d => map ur_user (SliceStable older (rows_where (in_org (org_of orgID)) (d_users d))))).

Definition find_user (orgID email : string) (d : db) : option user_row :=
  head (rows_where (same_email orgID email) (d_users d)).

Definition GetUserByEmail (orgID email : string) : M User :=
  r ← exec (select (fun _ d => ur_user <$> find_user (org_of orgID) email d));
  of_opt ErrNotFound r.

Definition LinkSSOIdentity (userID provider subject issuer : string) : M unit :=
  if String.eqb subject "" || String.eqb provider "" then mret tt
  else n ← exec (link_sso userID provider subject issuer); affected n.

Definition CreateSession (userID : string) (ttl : Duration) : M string :=
  bs ← consult (e_random E);
  let token := GenerateSessionToken bs in
  now ← consult (e_now E);
  _ ← exec (insert_session (HashKey token) userID (Add now ttl));
  mret token.

Definition enforcing (b : bool) (r : user_row) : user_row :=
  let u := ur_user r in
  mkUserRow (mkUser (u_ID u) (u_OrgID u) (u_Email u) (u_Role u) b (u_CreatedAt u) (u_OnboardedAt u)) (ur_hash r) (ur_sso r).

Definition SetEnforceLimits (userID : string) (enforce : bool) : M unit :=
  n ← exec (update_user userID (fun _ => true) (fun _ => enforcing enforce)); affected n.

Definition onboarded (now : Time) (r : user_row) : user_row :=
  let u := ur_user r in
  mkUserRow (mkUser (u_ID u) (u_OrgID u) (u_Email u) (u_Role u) (u_EnforceLimits u) (u_CreatedAt u) (Some now))
    (ur_hash r) (ur_sso r).

Definition MarkOnboarded (userID : string) : M unit :=
  n ← exec (update_user userID (fun r => is_none (u_OnboardedAt (ur_user r))) onboarded); affected n.

Definition DeleteUser (orgID actorID id : string) : M unit :=
  n ← exec (delete_user id orgID);
  _ ← affected n;
  audit actorID orgID "user.delete" id "".

Definition CountUsers (orgID : string) : M Z :=
  exec (select (fun _ d => Z.of_nat (length (rows_where (in_org (org_of orgID)) (d_users d))))).

Definition Authenticate (orgID email password : string) (ttl : Duration) : M (string * User) :=
  let orgID := org_of orgID in
  r ← exec (select (fun _ d => find_user orgID email d));
  r ← of_opt ErrInvalidCredentials r;
  if e_bcrypt_ok E (ur_hash r) password then
    bs ← consult (e_random E);
    let token := GenerateSessionToken bs in
    let u := ur_user r in
    now ← consult (e_now E);
    _ ← exec (insert_session (HashKey token) (u_ID u) (Add now ttl));
    _ ← audit (u_ID u) orgID "user.login.succeeded" (u_ID u) email;
    mret (token, u)
  else fail ErrInvalidCredentials.

(** The join of a live session with its user. *)
Definition session_user (hash : string) (now : Time) (d : db) : option User :=
  match d_sessions d !! hash with
  | Some s => if now <? sr_expires s then ur_user <$> d_users d !! sr_user s else None
  | None => None
  end.

Definition UserBySession (token : string) : M User :=
  r ← exec (select (session_user (HashKey token)));
  of_opt ErrNotFound r.

Definition Logout (token : string) : M unit := exec (delete_session (HashKey token)).

(** ** Virtual keys (store.go) *)

Definition CreateVirtualKey (orgID actorID userID name : string) (allowedModels : list string) (rpm : Z)
    (monthlyBudget minQuality : float64) : M (VirtualKey * string) :=
  let orgID := org_of orgID in
  bs ← consult (e_random E);
  let '(plaintext, prefix, last4) := GenerateVirtualKey bs in
  id ← consult (e_uuid E);
  let vk := mkVKey id orgID userID name prefix last4 allowedModels rpm monthlyBudget minQuality false zero_time in
  _ ← exec (insert_key vk (HashKey plaintext));
  _ ← audit actorID orgID "key.create" id name;
  mret (vk, plaintext).

Record AuthorizedKey := mkAuthorized { ak_Key : VirtualKey; ak_EnforceLimits : bool }.

(** The LEFT JOIN with the owner. *)
Definition authorized (d : db) (r : key_row) : AuthorizedKey :=
  mkAuthorized (kr_key r)
    (String.eqb (vk_UserID (kr_key r)) "" ||
     match d_users d !! vk_UserID (kr_key r) with Some u => u_EnforceLimits (ur_user u) | None => true end).

Definition usable_key (hash : string) (r : key_row) : bool :=
  String.eqb (kr_hash r) hash && negb (vk_Revoked (kr_key r)).

Definition LookupVirtualKey (plaintext : string) : M AuthorizedKey :=
  r ← exec (select (fun _ d => authorized d <$> head (rows_where (usable_key (HashKey plaintext)) (d_keys d))));
  of_opt ErrNotFound r.

Definition key_listed (orgID userID : string) (r : key_row) : bool :=
  String.eqb (vk_OrgID (kr_key r)) orgID && (String.eqb userID "" || refers (vk_UserID (kr_key r)) userID).

Definition newer_key (r s : key_row) : bool := vk_CreatedAt (kr_key s) <? vk_CreatedAt (kr_key r).

Definition listVirtualKeys (orgID userID : string) : M (list VirtualKey) :=
  exec (select (fun _ d => map kr_key (SliceStable newer_key (rows_where (key_listed (org_of orgID) userID) (d_keys d))))).

Definition ListVirtualKeys (orgID : string) : M (list VirtualKey) := listVirtualKeys orgID "".
Definition ListVirtualKeysForUser (orgID userID : string) : M (list VirtualKey) := listVirtualKeys orgID userID.

Definition RevokeVirtualKey (orgID actorID id : string) : M unit :=
  n ← exec (revoke_key id orgID);
  _ ← affected n;
  audit actorID orgID "key.revoke" id "".

(** ** Provider credentials (store.go, users.go) *)

Definition the_cipher : M Cipher := of_opt ErrNoMasterKey (e_cipher E).

Definition encrypted (c : Cipher) (secret : string) : M string :=
  ct ← consult (fun n => Encrypt c (e_random E n) secret);
  of_opt (Failed "encrypt") ct.

Definition CreateCredential (orgID actorID userID provider name baseURL secret : string) (models : CredentialModels) :
    M ProviderCredential :=
  c ← the_cipher;
  let orgID := org_of orgID in
  ct ← encrypted c secret;
  id ← consult (e_uuid E);
  let cred := mkCred id orgID userID provider name baseURL models (Last4 secret) true zero_time None in
  _ ← exec (insert_cred cred ct);
  _ ← audit actorID orgID "credential.create" id (provider +:+ "/" +:+ name);
  mret cred.

Definition newer_cred (r s : cred_row) : bool := pc_CreatedAt (cr_cred s) <? pc_CreatedAt (cr_cred r).
Definition older_cred (r s : cred_row) : bool := pc_CreatedAt (cr_cred r) <? pc_CreatedAt (cr_cred s).

Definition org_cred (orgID : string) (c : ProviderCredential) : bool :=
  String.eqb (pc_OrgID c) orgID && String.eqb (pc_UserID c) "".

Definition user_cred (orgID userID : string) (c : ProviderCredential) : bool :=
  String.eqb (pc_OrgID c) orgID && refers (pc_UserID c) userID.

Definition ListCredentials (orgID : string) : M (list ProviderCredential) :=
  exec (select (fun _ d =>
    map cr_cred (SliceStable newer_cred (rows_where (fun r => org_cred (org_of orgID) (cr_cred r)) (d_creds d))))).

Definition ListCredentialsForUser (orgID userID : string) : M (list ProviderCredential) :=
  exec (select (fun _ d =>
    map cr_cred (SliceStable newer_cred (rows_where (fun r => user_cred (org_of orgID) userID (cr_cred r)) (d_creds d))))).

(** RETURNING names no models, nor, in [RotateCredential], the owner. *)
Definition without_models (c : ProviderCredential) : ProviderCredential :=
  mkCred (pc_ID c) (pc_OrgID c) (pc_UserID c) (pc_Provider c) (pc_Name c) (pc_BaseURL c) (mkModels [] [])
    (pc_SecretLast4 c) (pc_Enabled c) (pc_CreatedAt c) (pc_RotatedAt c).

Definition without_owner (c : ProviderCredential) : ProviderCredential :=
  mkCred (pc_ID c) (pc_OrgID c) "" (pc_Provider c) (pc_Name c) (pc_BaseURL c) (pc_Models c)
    (pc_SecretLast4 c) (pc_Enabled c) (pc_CreatedAt c) (pc_RotatedAt c).

Definition RotateCredential (orgID actorID id newSecret : string) : M ProviderCredential :=
  c ← the_cipher;
  let orgID := org_of orgID in
  ct ← encrypted c newSecret;
  r ← exec (rotate_cred id (fun c => String.eqb (pc_OrgID c) orgID) ct (Last4 newSecret));
  r ← of_opt ErrNotFound r;
  _ ← audit actorID orgID "credential.rotate" (pc_ID r) (pc_Provider r +:+ "/" +:+ pc_Name r);
  mret (without_owner (without_models r)).

Definition RotateUserCredential (orgID userID id newSecret : string) : M ProviderCredential :=
  c ← the_cipher;
  ct ← encrypted c newSecret;
  r ← exec (rotate_cred id (user_cred orgID userID) ct (Last4 newSecret));
  r ← of_opt ErrNotFound r;
  _ ← audit userID orgID "credential.rotate" (pc_ID r) (pc_Provider r);
  mret (without_models r).

Definition DeleteCredential (orgID actorID id : string) : M unit :=
  n ← exec (delete_cred id (fun c => String.eqb (pc_OrgID c) orgID));
  _ ← affected n;
  audit actorID orgID "credential.delete" id "".

Definition DeleteUserCredential (orgID userID id : string) : M unit :=
  n ← exec (delete_cred id (user_cred orgID userID));
  _ ← affected n;
  audit userID orgID "credential.delete" id "".

Record DecryptedCredential := mkDecrypted { dc_Cred : ProviderCredential; dc_Secret : string }.

Definition decrypt_row (c : Cipher) (r : cred_row) : M DecryptedCredential :=
  secret ← of_opt ErrDecrypt (Decrypt c (cr_secret r));
  mret (mkDecrypted (cr_cred r) secret).

Fixpoint decrypt_rows (c : Cipher) (rows : list cred_row) : M (list DecryptedCredential) :=
  match rows with
  | [] => mret []
  | r :: rows' => d ← decrypt_row c r; ds ← decrypt_rows c rows'; mret (d :: ds)
  end.

(** The query names no rotation time. *)
Definition not_rotated (r : cred_row) : cred_row :=
  let c := cr_cred r in
  mkCredRow (mkCred (pc_ID c) (pc_OrgID c) (pc_UserID c) (pc_Provider c) (pc_Name c) (pc_BaseURL c) (pc_Models c)
    (pc_SecretLast4 c) (pc_Enabled c) (pc_CreatedAt c) None) (cr_secret r).

Definition LoadEnabledCredentials (orgID : string) : M (list DecryptedCredential) :=
  c ← the_cipher;
  rows ← exec (select (fun _ d => SliceStable older_cred
    (rows_where (fun r => org_cred (org_of orgID) (cr_cred r) && pc_Enabled (cr_cred r)) (d_creds d))));
  decrypt_rows c (map not_rotated rows).

(** Who may use a credential: its owner, or everyone in the org when it has none. *)
Definition resolvable (orgID userID provider : string) (r : cred_row) : bool :=
  let c := cr_cred r in
  String.eqb (pc_OrgID c) orgID && String.eqb (pc_Provider c) provider && pc_Enabled c &&
  (refers (pc_UserID c) userID || String.eqb (pc_UserID c) "").

(** ORDER BY (user_id IS NULL), created_at. *)
Definition own_first (r s : cred_row) : bool :=
  let org x := String.eqb (pc_UserID (cr_cred x)) "" in
  if Bool.eqb (org r) (org s) then older_cred r s else org s.

Definition ResolveCredential (orgID userID provider : string) : M (DecryptedCredential * string) :=
  c ← the_cipher;
  r ← exec (select (fun _ d => head (SliceStable own_first
        (rows_where (resolvable (org_of orgID) userID provider) (d_creds d)))));
  r ← of_opt ErrNotFound r;
  dc ← decrypt_row c (not_rotated r);
  mret (dc, if String.eqb (pc_UserID (cr_cred r)) "" then "org" else "user").

(** ** Invites (invite.go) *)

Definition DefaultInviteTTL : Duration := 7 * 24 * Hour.

Definition generateRawToken (random : option (list Z)) : option string := hex_encode <$> random.

Definition hashInviteToken (raw : string) : string := hex_encode (e_sha256 E raw).

Fixpoint trim_slashes (rev : list ascii) : list ascii :=
  match rev with
  | c :: rev' => if Ascii.eqb c "/" then trim_slashes rev' else rev
  | [] => []
  end.

Definition buildInviteURL (publicBaseURL raw : string) : string :=
  let base := String.string_of_list_ascii (reverse (trim_slashes (reverse (String.list_ascii_of_string publicBaseURL)))) in
  non_empty_or base "/" +:+ "/invite/" +:+ raw.

Definition CreateInvite (orgID actorID email role : string) (ttl : Duration) (publicBaseURL : string) :
    M (Invite * string) :=
  let orgID := org_of orgID in
  let role := non_empty_or role RoleMember in
  let ttl := if ttl <=? 0 then DefaultInviteTTL else ttl in
  let email := normaliseEmail email in
  if String.eqb email "" then fail (Failed "email is required")
  else
    raw ← consult (fun n => generateRawToken (e_random E n));
    raw ← of_opt (Failed "token") raw;
    id ← consult (e_uuid E);
    now ← consult (e_now E);
    let inv url := mkInvite id orgID email role actorID now (Add now ttl) None None None url in
    _ ← on_unique ErrEmailTaken (exec (insert_invite (inv "") (hashInviteToken raw)));
    _ ← audit actorID orgID "invite.issued" id email;
    mret (inv (buildInviteURL publicBaseURL raw), raw).

Definition newer_invite (r s : invite_row) : bool := iv_CreatedAt (ir_invite s) <? iv_CreatedAt (ir_invite r).

Definition ListInvites (orgID : string) : M (list Invite) :=
  exec (select (fun _ d => map ir_invite (SliceStable newer_invite
    (rows_where (fun r => String.eqb (iv_OrgID (ir_invite r)) (org_of orgID)) (d_invites d))))).

Definition invite_of (orgID id : string) (d : db) : option Invite :=
  match d_invites d !! id with
  | Some r => if String.eqb (iv_OrgID (ir_invite r)) orgID then Some (ir_invite r) else None
  | None => None
  end.

Definition RevokeInvite (orgID actorID inviteID : string) : M unit :=
  let orgID := org_of orgID in
  n ← exec (revoke_invite inviteID orgID);
  if n =? 0 then
    i ← exec (select (fun _ => invite_of orgID inviteID));
    i ← of_opt ErrNotFound i;
    if negb (is_none (iv_AcceptedAt i)) then fail ErrInviteAccepted
    else if negb (is_none (iv_RevokedAt i)) then fail ErrInviteRevoked
    else fail ErrNotFound
  else audit actorID orgID "invite.revoke.legacy" inviteID "".

Definition invite_with (hash : string) (d : db) : option Invite :=
  ir_invite <$> head (rows_where (fun r => String.eqb (ir_hash r) hash) (d_invites d)).

Definition LookupInvite (raw : string) : M Invite :=
  r ← exec (select (fun _ => invite_with (hashInviteToken raw)));
  of_opt ErrInviteNotFound r.

(** A statement of a transaction: it works on the transaction's own copy of the
    tables, which no one else sees. *)
Definition exec_tx {A} (d : db) (s : stmt A) : M (A * db) := fun w =>
  let n := w_tick w in
  let w' := mkWorld (w_db w) (S n) in
  match e_fault E n with
  | Some msg => (Err (Sql (Fault msg)), w')
  | None => match s (e_now E n) d with Ok r => (Ok r, w') | Err e => (Err (Sql e), w') end
  end.

(** COMMIT puts the copy in place; the log, which the transaction does not write,
    stays as other connections left it. *)
Definition commit_tx (tx : db) : stmt unit := fun _ d => Ok (tt, set_log (fun _ => d_log d) tx).

(** FOR UPDATE holds the invite's row until the end, so the transaction runs as
    if alone.  The audit rows go through the pool, not through the transaction. *)
Definition AcceptInvite (raw password : string) : M (User * string) :=
  d0 ← exec (select (fun _ d => d));
  '(i, d0) ← exec_tx d0 (select (fun _ => invite_with (hashInviteToken raw)));
  i ← of_opt ErrInviteNotFound i;
  if negb (is_none (iv_RevokedAt i)) then fail ErrInviteNotFound
  else if negb (is_none (iv_AcceptedAt i)) then fail ErrInviteConsumed
  else
    now ← consult (e_now E);
    if After now (iv_ExpiresAt i) then fail ErrInviteExpired
    else
      hash2 ← consult (fun n => e_bcrypt E n password);
      hash2 ← of_opt (Failed "bcrypt") hash2;
      userID ← consult (e_uuid E);
      now ← consult (e_now E);
      '(_, d1) ← on_unique ErrEmailTaken
        (exec_tx d0 (insert_user userID (iv_OrgID i) (iv_Email i) hash2 (iv_Role i)));
      '(_, d2) ← exec_tx d1 (accept_invite (iv_ID i) userID now);
      _ ← audit userID (iv_OrgID i) "invite.accepted" (iv_ID i) (iv_Email i);
      _ ← audit userID (iv_OrgID i) "user.create" userID (iv_Email i);
      _ ← exec (commit_tx d2);
      mret (mkUser userID (iv_OrgID i) (iv_Email i) (iv_Role i) true now None, iv_ID i).
End Store.
