(* ===== verification/CoreProps.v ===== *)
(** * CoreProps: what the control-plane store guarantees

    A small program logic for the effects of [CoreStore] ([preserves] and the
    inversion of its combinators), the integrity invariant of the tables under
    every operation, and the theorems on invites, sessions, tenants and
    credentials.  Operations run one at a time with any environment: any clock,
    fault, random bytes and ids. *)

From stdpp Require Import pretty.
From S2P Require Import Prelude GoString GoTime Float64 GoSort Net ApiErr AuditId AuditLog CoreStore.
Local Open Scope string_scope.
Local Open Scope Z_scope.

(** ** The operations that write *)

Inductive op :=
| OpCreateUser (orgID actorID email password role : string)
| OpLinkSSO (userID provider subject issuer : string)
| OpCreateSession (userID : string) (ttl : Duration)
| OpSetEnforceLimits (userID : string) (enforce : bool)
| OpMarkOnboarded (userID : string)
| OpDeleteUser (orgID actorID id : string)
| OpAuthenticate (orgID email password : string) (ttl : Duration)
| OpLogout (token : string)
| OpCreateVirtualKey (orgID actorID userID name : string) (allowedModels : list string) (rpm : Z) (budget quality : float64)
| OpRevokeVirtualKey (orgID actorID id : string)
| OpCreateCredential (orgID actorID userID provider name baseURL secret : string) (models : CredentialModels)
| OpRotateCredential (orgID actorID id newSecret : string)
| OpRotateUserCredential (orgID userID id newSecret : string)
| OpDeleteCredential (orgID actorID id : string)
| OpDeleteUserCredential (orgID userID id : string)
| OpCreateInvite (orgID actorID email role : string) (ttl : Duration) (publicBaseURL : string)
| OpRevokeInvite (orgID actorID inviteID : string)
| OpAcceptInvite (raw password : string).

Definition void {A} (m : M A) : M unit := _ ← m; mret tt.

Definition run (E : env) (o : op) : M unit :=
  match o with
  | OpCreateUser orgID actorID email password role => void (CreateUser E orgID actorID email password role)
  | OpLinkSSO userID provider subject issuer => LinkSSOIdentity E userID provider subject issuer
  | OpCreateSession userID ttl => void (CreateSession E userID ttl)
  | OpSetEnforceLimits userID enforce => SetEnforceLimits E userID enforce
  | OpMarkOnboarded userID => MarkOnboarded E userID
  | OpDeleteUser orgID actorID id => DeleteUser E orgID actorID id
  | OpAuthenticate orgID email password ttl => void (Authenticate E orgID email password ttl)
  | OpLogout token => Logout E token
  | OpCreateVirtualKey orgID actorID userID name allowed rpm budget quality =>
      void (CreateVirtualKey E orgID actorID userID name allowed rpm budget quality)
  | OpRevokeVirtualKey orgID actorID id => RevokeVirtualKey E orgID actorID id
  | OpCreateCredential orgID actorID userID provider name baseURL secret models =>
      void (CreateCredential E orgID actorID userID provider name baseURL secret models)
  | OpRotateCredential orgID actorID id newSecret => void (RotateCredential E orgID actorID id newSecret)
  | OpRotateUserCredential orgID userID id newSecret => void (RotateUserCredential E orgID userID id newSecret)
  | OpDeleteCredential orgID actorID id => DeleteCredential E orgID actorID id
  | OpDeleteUserCredential orgID userID id => DeleteUserCredential E orgID userID id
  | OpCreateInvite orgID actorID email role ttl url => void (CreateInvite E orgID actorID email role ttl url)
  | OpRevokeInvite orgID actorID inviteID => RevokeInvite E orgID actorID inviteID
  | OpAcceptInvite raw password => void (AcceptInvite E raw password)
  end.

(** States the store can reach from [d] by calls whose environments satisfy [P]. *)
Inductive reachable (P : env → Prop) (d : db) : db → Prop :=
| reach_refl : reachable P d d
| reach_step E o d' n : P E → reachable P d d' → reachable P d (w_db (snd (run E o (mkWorld d' n)))).

Lemma reachable_preserves (P : env → Prop) (I : db → Prop) d d' :
  (∀ E o w, P E → I (w_db w) → I (w_db (snd (run E o w)))) → I d → reachable P d d' → I d'.
Proof. intros Hs Hd H. induction H as [|E o d' n HE _ IH]; [done|]. by apply Hs. Qed.

(** ** A program logic *)

(** [I] does not look at the audit log. *)
Class LogBlind (I : db → Prop) : Prop := log_blind : ∀ f d, I d → I (set_log f d).

Definition preserves (I : db → Prop) {A} (m : M A) : Prop := ∀ w, I (w_db w) → I (w_db (snd (m w))).

Definition stmt_preserves (I : db → Prop) {A} (s : stmt A) : Prop :=
  ∀ now d a d', I d → s now d = Ok (a, d') → I d'.

Create HintDb pres discriminated.

Section Preserves.
Context (I : db → Prop) {Hblind : LogBlind I} (E : env).

Lemma pres_ret {A} (a : A) : preserves I (mret a).
Proof using. by intros w. Qed.
Lemma pres_fail {A} e : preserves I (fail (A := A) e).
Proof using. by intros w. Qed.
Lemma pres_consult {A} (f : nat → A) : preserves I (consult f).
Proof using. by intros w. Qed.
Lemma pres_of_opt {A} e (o : option A) : preserves I (of_opt e o).
Proof using. destruct o; [apply pres_ret|apply pres_fail]. Qed.
Lemma pres_affected n : preserves I (affected n).
Proof using. unfold affected. case_match; [apply pres_fail|apply pres_ret]. Qed.
Lemma pres_bind {A B} (m : M A) (k : A → M B) :
  preserves I m → (∀ a, preserves I (k a)) → preserves I (m ≫= k).
Proof using.
  intros Hm Hk w Hw. unfold mbind, M_bind. specialize (Hm w Hw).
  destruct (m w) as [[a|e] w']; [by apply Hk|done].
Qed.
Lemma pres_bind_consult {A B} (f : nat → A) (k : A → M B) :
  (∀ n, preserves I (k (f n))) → preserves I (consult f ≫= k).
Proof using. intros Hk w Hw. apply (Hk (w_tick w) (mkWorld (w_db w) (S (w_tick w))) Hw). Qed.
Lemma pres_bind_opt {A B} e (o : option A) (k : A → M B) :
  (∀ a, o = Some a → preserves I (k a)) → preserves I (of_opt e o ≫= k).
Proof using. destruct o as [a|]; intros Hk w Hw; [by apply (Hk a)|done]. Qed.
Lemma pres_void {A} (m : M A) : preserves I m → preserves I (void m).
Proof using. intros H. apply pres_bind; [done|]. intros a. apply pres_ret. Qed.
Lemma pres_on_unique {A} e (m : M A) : preserves I m → preserves I (on_unique e m).
Proof using. intros H w Hw. specialize (H w Hw). unfold on_unique. by repeat case_match. Qed.
Lemma pres_exec {A} (s : stmt A) : stmt_preserves I s → preserves I (exec E s).
Proof using.
  intros Hs w Hw. unfold exec. destruct (e_fault E (w_tick w)); [done|].
  destruct (s _ _) as [[a d]|e] eqn:Es; [by eapply Hs|done].
Qed.
Lemma pres_select {A} (f : Time → db → A) : preserves I (exec E (select f)).
Proof using. apply pres_exec. by intros now d a d' Hd [= _ <-]. Qed.
Lemma pres_audit actor org action target detail : preserves I (audit E actor org action target detail).
Proof using Hblind. intros w Hw. by apply Hblind. Qed.
End Preserves.

#[export] Hint Resolve pres_ret pres_fail pres_consult pres_of_opt pres_affected pres_select pres_audit : pres.

(** Follow the shape of an operation; the statements are left to the hints. *)
Ltac solve_pres :=
  repeat match goal with
  | |- preserves _ (void _) => apply pres_void
  | |- preserves _ (consult _ ≫= _) => apply pres_bind_consult; intros ?
  | |- preserves _ (of_opt _ _ ≫= _) => apply pres_bind_opt; intros ? ?
  | |- preserves _ (_ ≫= _) => apply pres_bind; [|intros ?]
  | |- preserves _ (on_unique _ _) => apply pres_on_unique
  | |- preserves _ (exec _ (select _)) => apply pres_select
  | |- preserves _ (audit _ _ _ _ _ _) => apply pres_audit; apply _
  | |- preserves _ (exec _ _) => apply pres_exec
  | |- preserves _ (if ?b then _ else _) => destruct b
  | |- preserves _ (let '(_, _) := ?p in _) => destruct p
  | |- preserves _ (match ?p with pair _ _ => _ end) => destruct p
  | |- preserves _ _ => solve [eauto with pres]
  end; eauto with pres.

(** The same tables with another log. *)
Definition relogged (d d' : db) : Prop := ∃ l, d' = set_log (fun _ => l) d.

Lemma relogged_refl d : relogged d d.
Proof. exists (d_log d). by destruct d. Qed.
Lemma relogged_trans d d' d'' : relogged d d' → relogged d' d'' → relogged d d''.
Proof. intros [l ->] [l' ->]. by exists l'. Qed.
Lemma relogged_set f d : relogged d (set_log f d).
Proof. by exists (f (d_log d)). Qed.

(** Symbolic execution of a run [H : m w = (r, w')]: unfold the effects and split
    on every answer of the environment and of the tables. *)
Ltac run_cases H :=
  unfold mbind, M_bind, exec, exec_tx, consult, of_opt, on_unique, fail, audit, affected, mret, M_ret, select, commit_tx in H;
  cbn [w_db w_tick fst snd] in H;
  repeat (match type of H with
          | context [match ?x with _ => _ end] =>
              lazymatch x with context [match _ with _ => _ end] => fail | _ => destruct x eqn:? end
          end; cbn [w_db w_tick fst snd] in H; simplify_eq/=).

(** What [AcceptInvite] does: on every error the tables keep their rows; on
    success the invite of the token was open, and there is one new user. *)
Lemma AcceptInvite_cases E raw password w r w' :
  AcceptInvite E raw password w = (r, w') →
  (relogged (w_db w) (w_db w') ∧ ∃ e, r = Err e) ∨
  (∃ i n now id hash d1 d2 t t' t'',
     invite_with (hashInviteToken E raw) (w_db w) = Some i ∧
     iv_RevokedAt i = None ∧ iv_AcceptedAt i = None ∧ After (e_now E n) (iv_ExpiresAt i) = false ∧
     insert_user id (iv_OrgID i) (iv_Email i) hash (iv_Role i) t (w_db w) = Ok (tt, d1) ∧
     accept_invite (iv_ID i) id now t' d1 = Ok (tt, d2) ∧
     w_db w' = set_log (fun _ => t'') d2 ∧
     r = Ok (mkUser id (iv_OrgID i) (iv_Email i) (iv_Role i) true now None, iv_ID i)).
Proof.
  destruct w as [d n]. unfold AcceptInvite. intros H. cbn [w_db] in *. run_cases H.
  all: try (left; split; [first [apply relogged_refl|eexists; unfold set_log; cbn; reflexivity]|by eexists]).
  right. repeat match goal with
  | H : negb (is_none ?x) = false |- _ => destruct x eqn:?; [discriminate H|clear H]
  | u : () |- _ => destruct u
  end.
  do 10 eexists. split_and!; try done; try eassumption.
Qed.

Lemma AcceptInvite_preserves (I : db → Prop) `{!LogBlind I} E raw password :
  (∀ id orgID email hash role, stmt_preserves I (insert_user id orgID email hash role)) →
  (∀ id userID now, stmt_preserves I (accept_invite id userID now)) → preserves I (AcceptInvite E raw password).
Proof.
  intros Hi Ha w Hw. destruct (AcceptInvite E raw password w) as [r w'] eqn:H.
  apply AcceptInvite_cases in H as [[[l El] _]|(i & n & now & id & hash & d1 & d2 & t & t' & l & _ & _ & _ & _ & Hu & Hs & Hw' & _)];
    cbn; [rewrite El; by apply log_blind|]. rewrite Hw'. apply log_blind. eapply Ha; [|exact Hs]. by eapply Hi.
Qed.

(** ** Rows of a table *)

Lemma any_row_spec {A} (p : A → bool) (t : gmap string A) :
  any_row p t = true ↔ ∃ k v, t !! k = Some v ∧ p v = true.
Proof.
  unfold any_row. rewrite existsb_exists. split.
  - intros ([k v] & Hin & Hp). exists k, v. split; [|done]. by apply elem_of_map_to_list, list_elem_of_In.
  - intros (k & v & Hkv & Hp). exists (k, v). split; [|done]. by apply list_elem_of_In, elem_of_map_to_list.
Qed.

Lemma any_row_none {A} (p : A → bool) (t : gmap string A) :
  any_row p t = false → ∀ k v, t !! k = Some v → p v = false.
Proof.
  intros H k v Hkv. destruct (p v) eqn:Hp; [|done].
  assert (any_row p t = true) as Ht by (apply any_row_spec; eauto). congruence.
Qed.

Lemma rows_where_spec {A} (p : A → bool) (t : gmap string A) v :
  v ∈ rows_where p t ↔ p v = true ∧ ∃ k, t !! k = Some v.
Proof.
  unfold rows_where. rewrite list_elem_of_In, filter_In, in_map_iff. split.
  - intros [([k v'] & <- & Hin) Hp]. split; [done|]. exists k. by apply elem_of_map_to_list, list_elem_of_In.
  - intros [Hp [k Hk]]. split; [|done]. exists (k, v). split; [done|]. by apply list_elem_of_In, elem_of_map_to_list.
Qed.

Lemma head_where {A} (p : A → bool) (t : gmap string A) v :
  head (rows_where p t) = Some v → p v = true ∧ ∃ k, t !! k = Some v.
Proof.
  intros H. apply rows_where_spec. destruct (rows_where p t); [done|]. injection H as ->. apply list_elem_of_here.
Qed.

Lemma head_where_none {A} (p : A → bool) (t : gmap string A) :
  head (rows_where p t) = None ↔ ∀ k v, t !! k = Some v → p v = false.
Proof.
  split.
  - intros H k v Hkv. destruct (p v) eqn:Hp; [|done].
    assert (v ∈ rows_where p t) as Hin by (apply rows_where_spec; eauto).
    destruct (rows_where p t); [by apply elem_of_nil in Hin|done].
  - intros H. destruct (rows_where p t) as [|v l] eqn:E; [done|].
    assert (v ∈ rows_where p t) as Hin by (rewrite E; apply list_elem_of_here).
    apply rows_where_spec in Hin as [Hp [k Hk]]. rewrite (H k v Hk) in Hp. done.
Qed.

Lemma keep_lookup {A} (p : A → bool) (t : gmap string A) k v : keep p t !! k = Some v ↔ t !! k = Some v ∧ p v = true.
Proof. apply map_lookup_filter_Some. Qed.

Lemma refers_spec v id : refers v id = true ↔ v ≠ "" ∧ v = id.
Proof. unfold refers. rewrite andb_true_iff, negb_true_iff, String.eqb_neq, String.eqb_eq. done. Qed.

(** ** Integrity *)

(** A reference that is NULL or names a user. *)
Definition owner_ok (d : db) (id : string) : Prop := id = "" ∨ is_Some (d_users d !! id).

Definition user_ok (d : db) (id : string) (r : user_row) : Prop :=
  u_ID (ur_user r) = id ∧ u_OrgID (ur_user r) ∈ d_orgs d.
Definition key_ok (d : db) (id : string) (r : key_row) : Prop :=
  vk_ID (kr_key r) = id ∧ vk_OrgID (kr_key r) ∈ d_orgs d ∧ owner_ok d (vk_UserID (kr_key r)).
Definition cred_ok (d : db) (id : string) (r : cred_row) : Prop :=
  pc_ID (cr_cred r) = id ∧ pc_OrgID (cr_cred r) ∈ d_orgs d ∧ owner_ok d (pc_UserID (cr_cred r)).
Definition invite_ok (d : db) (id : string) (r : invite_row) : Prop :=
  iv_ID (ir_invite r) = id ∧ iv_OrgID (ir_invite r) ∈ d_orgs d ∧ is_Some (d_users d !! iv_CreatedBy (ir_invite r)) ∧
  (∀ u, iv_AcceptedBy (ir_invite r) = Some u → is_Some (d_users d !! u) ∧ is_Some (iv_AcceptedAt (ir_invite r))) ∧
  (iv_AcceptedAt (ir_invite r) = None ∨ iv_RevokedAt (ir_invite r) = None).

(** No two rows agree on [f]. *)
Definition unique_on {A K} (f : A → option K) (t : gmap string A) : Prop :=
  ∀ id id' r r' k, t !! id = Some r → t !! id' = Some r' → f r = Some k → f r' = Some k → id = id'.

Definition user_email (r : user_row) : option (string * string) := Some (u_OrgID (ur_user r), u_Email (ur_user r)).
Definition user_sso (r : user_row) : option (string * string * string) :=
  match ur_sso r with Some (p, s, _) => Some (u_OrgID (ur_user r), p, s) | None => None end.
Definition invite_email (r : invite_row) : option (string * string) :=
  Some (iv_OrgID (ir_invite r), iv_Email (ir_invite r)).

(** Referential integrity and uniqueness of the tables. *)
Record integrity (d : db) : Prop := mkIntegrity {
  i_users : map_Forall (user_ok d) (d_users d);
  i_emails : unique_on user_email (d_users d);
  i_sso : unique_on user_sso (d_users d);
  i_sessions : map_Forall (fun _ s => is_Some (d_users d !! sr_user s)) (d_sessions d);
  i_keys : map_Forall (key_ok d) (d_keys d);
  i_hashes : unique_on (fun r => Some (kr_hash r)) (d_keys d);
  i_creds : map_Forall (cred_ok d) (d_creds d);
  i_invites : map_Forall (invite_ok d) (d_invites d);
  i_invite_emails : unique_on invite_email (d_invites d);
  i_tokens : unique_on (fun r => Some (ir_hash r)) (d_invites d)
}.

#[export] Instance integrity_blind : LogBlind integrity.
Proof. intros f d []. by constructor. Qed.

Lemma unique_on_insert {A K} (f : A → option K) (t : gmap string A) id r :
  unique_on f t → (∀ id' r' k, t !! id' = Some r' → f r' = Some k → f r = Some k → id' = id) →
  unique_on f (<[id := r]> t).
Proof.
  intros Ht Hr i i' x x' k. rewrite !lookup_insert_Some. intros [[<- <-]|[? Hi]] [[<- <-]|[? Hi']] Hk Hk'; [done| | |].
  - symmetry. by eapply Hr.
  - by eapply Hr.
  - by eapply Ht.
Qed.

(** Rows keep what [f] reads of them, and none is added. *)
Lemma unique_on_sub {A K} (f : A → option K) (t t' : gmap string A) :
  (∀ id r', t' !! id = Some r' → ∃ r, t !! id = Some r ∧ f r = f r') → unique_on f t → unique_on f t'.
Proof.
  intros Hs Ht i i' x x' k Hi Hi' Hk Hk'.
  apply Hs in Hi as (y & Hy & Ey). apply Hs in Hi' as (y' & Hy' & Ey'). apply (Ht _ _ y y' k Hy Hy'); congruence.
Qed.

(** References survive when users are added or changed. *)
Lemma owner_ok_insert d id r v : owner_ok d v → owner_ok (set_users <[id := r]> d) v.
Proof. intros [->|H]; [by left|right]. cbn. destruct (decide (v = id)) as [->|]; [by rewrite lookup_insert_eq|by rewrite lookup_insert_ne]. Qed.

Lemma is_user_insert (t : gmap string user_row) id r v : is_Some (t !! v) → is_Some (<[id := r]> t !! v).
Proof. destruct (decide (v = id)) as [->|]; [by rewrite lookup_insert_eq|by rewrite lookup_insert_ne]. Qed.
#[export] Hint Resolve is_user_insert owner_ok_insert : pres.

(** ** Statements keep integrity *)

(** Adding or rewriting a user keeps what others say of users. *)
Lemma integrity_set_user d id r :
  integrity d → user_ok d id r → unique_on user_email (<[id := r]> (d_users d)) →
  unique_on user_sso (<[id := r]> (d_users d)) → integrity (set_users <[id := r]> d).
Proof.
  intros [Hu He Hs Hse Hk Hh Hc Hi Hie Ht] Hr He' Hs'. constructor; cbn; try done.
  - apply map_Forall_insert_2; [done|]. exact Hu.
  - intros h s Hh'. cbn. apply is_user_insert, (Hse _ _ Hh').
  - intros k x Hx. destruct (Hk _ _ Hx) as (? & ? & ?). split_and!; auto with pres.
  - intros k x Hx. destruct (Hc _ _ Hx) as (? & ? & ?). split_and!; auto with pres.
  - intros k x Hx. destruct (Hi _ _ Hx) as (? & ? & ? & Hacc & ?). split_and!; cbn; auto with pres.
    intros u Hu'. destruct (Hacc u Hu') as [? ?]. auto with pres.
Qed.

(** A row is rewritten without touching its org, email, id and SSO identity. *)
Lemma unique_on_same {A K} (f : A → option K) (t : gmap string A) id r r' :
  t !! id = Some r → f r' = f r → unique_on f t → unique_on f (<[id := r']> t).
Proof.
  intros Hid E Ht. apply unique_on_insert; [done|]. intros id' x k Hx Hk Hk'. apply (Ht id' id x r k); congruence.
Qed.

Lemma insert_user_integrity id orgID email hash role : stmt_preserves integrity (insert_user id orgID email hash role).
Proof.
  intros now d a d' Hd. unfold insert_user, users_taken, org_known.
  destruct (bool_decide _ || any_row _ _) eqn:Eu; [done|]. apply orb_false_elim in Eu as [_ Ee].
  case_bool_decide as Ho; [|done]. intros [= <- <-]. apply integrity_set_user; [done|done| |].
  - apply unique_on_insert; [apply Hd|]. intros id' r' k Hr' [= <-] [= E1 E2].
    pose proof (any_row_none _ _ Ee _ _ Hr') as Hn. unfold same_email in Hn. rewrite E1, E2, !String.eqb_refl in Hn. done.
  - apply unique_on_insert; [apply Hd|]. by intros id' r' k _ _ [=].
Qed.

Lemma update_user_integrity id p f :
  (∀ now r, u_ID (ur_user (f now r)) = u_ID (ur_user r) ∧ u_OrgID (ur_user (f now r)) = u_OrgID (ur_user r) ∧
            u_Email (ur_user (f now r)) = u_Email (ur_user r) ∧ ur_sso (f now r) = ur_sso r) →
  stmt_preserves integrity (update_user id p f).
Proof.
  intros Hf now d a d' Hd. unfold update_user. destruct (d_users d !! id) as [r|] eqn:Er; [|by intros [= <- <-]].
  destruct (p r); intros [= <- <-]; [|done]. destruct (Hf now r) as (H1 & H2 & H3 & H4).
  apply integrity_set_user; [done| | |].
  - destruct (i_users _ Hd _ _ Er) as [<- ?]. split; cbn; [done|]. by rewrite H2.
  - apply (unique_on_same _ _ _ r); [done| |apply Hd]. unfold user_email. by rewrite H2, H3.
  - apply (unique_on_same _ _ _ r); [done| |apply Hd]. unfold user_sso. by rewrite H2, H4.
Qed.

Lemma link_sso_integrity id provider subject issuer : stmt_preserves integrity (link_sso id provider subject issuer).
Proof.
  intros now d a d' Hd. unfold link_sso. destruct (d_users d !! id) as [r|] eqn:Er; [|by intros [= <- <-]].
  case_match; [|by intros [= <- <-]]. destruct (any_row _ _) eqn:Ea; [done|]. intros [= <- <-].
  apply integrity_set_user; [done| | |].
  - apply (i_users _ Hd _ _ Er).
  - by apply (unique_on_same _ _ _ r); [| |apply Hd].
  - apply unique_on_insert; [apply Hd|]. intros id' r' k Hr' Hk [= <-].
    pose proof (any_row_none _ _ Ea _ _ Hr') as Hn. unfold same_sso in Hn. unfold user_sso in Hk.
    destruct (i_users _ Hd _ _ Hr') as [Eid _]. destruct (ur_sso r') as [[[p s] x]|]; [|done]. injection Hk as E1 E2 E3.
    subst p s. rewrite E1, !String.eqb_refl, Eid in Hn. cbn in Hn. rewrite andb_true_r in Hn.
    by apply negb_false_iff, String.eqb_eq in Hn.
Qed.

Lemma insert_session_integrity hash userID expires : stmt_preserves integrity (insert_session hash userID expires).
Proof.
  intros now d a d' Hd. unfold insert_session, sessions_taken, user_known. case_bool_decide; [done|]. case_bool_decide as Hu; [|done].
  intros [= <- <-]. destruct Hd. constructor; try done. by apply map_Forall_insert_2.
Qed.

Lemma delete_session_integrity hash : stmt_preserves integrity (delete_session hash).
Proof.
  intros now d a d' Hd [= <- <-]. destruct Hd. constructor; try done. by apply map_Forall_delete.
Qed.

Lemma null_or_user_spec d id : null_or_user d id = true → owner_ok d id.
Proof.
  unfold null_or_user, owner_ok. rewrite orb_true_iff, String.eqb_eq, bool_decide_eq_true. done.
Qed.

Lemma insert_key_integrity vk hash : stmt_preserves integrity (insert_key vk hash).
Proof.
  intros now d a d' Hd. unfold insert_key, keys_taken, org_known.
  destruct (bool_decide _ || any_row _ _) eqn:Eu; [done|]. apply orb_false_elim in Eu as [_ Ee].
  destruct (bool_decide _ && _) eqn:Ef; [|done]. apply andb_prop in Ef as [Ho%bool_decide_eq_true Hn%null_or_user_spec].
  intros [= <- <-]. destruct Hd. constructor; try done.
  - by apply map_Forall_insert_2.
  - apply unique_on_insert; [done|]. intros id' r' k Hr' [= <-] [= E].
    pose proof (any_row_none _ _ Ee _ _ Hr') as Hf. cbn in Hf. rewrite E, String.eqb_refl in Hf. done.
Qed.

Lemma revoke_key_integrity id orgID : stmt_preserves integrity (revoke_key id orgID).
Proof.
  intros now d a d' Hd. unfold revoke_key. destruct (d_keys d !! id) as [r|] eqn:Er; [|by intros [= <- <-]].
  case_match; intros [= <- <-]; [|done]. pose proof (i_keys _ Hd _ _ Er) as Hr. destruct Hd. constructor; try done.
  - apply map_Forall_insert_2; [exact Hr|done].
  - by apply (unique_on_same _ _ _ r).
Qed.

Lemma insert_cred_integrity c secret : stmt_preserves integrity (insert_cred c secret).
Proof.
  intros now d a d' Hd. unfold insert_cred, creds_taken, org_known. case_bool_decide; [done|].
  destruct (bool_decide _ && _) eqn:Ef; [|done]. apply andb_prop in Ef as [Ho%bool_decide_eq_true Hn%null_or_user_spec].
  intros [= <- <-]. destruct Hd. constructor; try done. by apply map_Forall_insert_2.
Qed.

Lemma rotate_cred_integrity id p secret last4 : stmt_preserves integrity (rotate_cred id p secret last4).
Proof.
  intros now d a d' Hd. unfold rotate_cred. destruct (d_creds d !! id) as [r|] eqn:Er; [|by intros [= <- <-]].
  case_match; intros [= <- <-]; [|done]. pose proof (i_creds _ Hd _ _ Er) as Hr. destruct Hd. constructor; try done.
  apply map_Forall_insert_2; [exact Hr|done].
Qed.

Lemma delete_cred_integrity id p : stmt_preserves integrity (delete_cred id p).
Proof.
  intros now d a d' Hd. unfold delete_cred. destruct (d_creds d !! id) as [r|] eqn:Er; [|by intros [= <- <-]].
  case_match; intros [= <- <-]; [|done]. destruct Hd. constructor; try done. by apply map_Forall_delete.
Qed.

Lemma insert_invite_integrity i hash :
  iv_AcceptedAt i = None → iv_AcceptedBy i = None → stmt_preserves integrity (insert_invite i hash).
Proof.
  intros Ha Hb now d a d' Hd. unfold insert_invite, invites_taken, org_known, user_known.
  destruct (bool_decide _ || any_row _ _) eqn:Eu; [done|]. apply orb_false_elim in Eu as [_ Ee].
  destruct (bool_decide _ && _) eqn:Ef; [|done].
  apply andb_prop in Ef as [Ho%bool_decide_eq_true Hn%bool_decide_eq_true].
  intros [= <- <-]. pose proof (any_row_none _ _ Ee) as Hf. destruct Hd. constructor; try done.
  - apply map_Forall_insert_2; [|done]. split_and!; cbn; [done|done|done| |by left]. intros u. by rewrite Hb.
  - apply unique_on_insert; [done|]. intros id' r' k Hr' [= <-] [= E1 E2].
    specialize (Hf _ _ Hr'). unfold same_invite in Hf. rewrite E1, E2, !String.eqb_refl in Hf. done.
  - apply unique_on_insert; [done|]. intros id' r' k Hr' [= <-] [= E].
    specialize (Hf _ _ Hr'). unfold same_invite in Hf. rewrite <- E, String.eqb_refl, orb_true_r in Hf. done.
Qed.

(** Stamping an invite keeps its org, email and token. *)
Lemma stamped_integrity d id r accepted revoked :
  integrity d → d_invites d !! id = Some r → invite_ok d id (stamped accepted revoked r) →
  integrity (set_invites <[id := stamped accepted revoked r]> d).
Proof.
  intros [] Er Hr. constructor; try done.
  - by apply map_Forall_insert_2.
  - by apply (unique_on_same _ _ _ r).
  - by apply (unique_on_same _ _ _ r).
Qed.

Lemma revoke_invite_integrity id orgID : stmt_preserves integrity (revoke_invite id orgID).
Proof.
  intros now d a d' Hd. unfold revoke_invite. destruct (d_invites d !! id) as [r|] eqn:Er; [|by intros [= <- <-]].
  destruct (_ && _) eqn:Ec; intros [= <- <-]; [|done]. apply andb_prop in Ec as [Ec _]. apply andb_prop in Ec as [_ Ec].
  apply stamped_integrity; [done|done|]. destruct (i_invites _ Hd _ _ Er) as (? & ? & ? & ? & ?).
  split_and!; cbn; try done. left. by destruct (iv_AcceptedAt _).
Qed.

Lemma accept_invite_integrity id userID now t d a d' :
  integrity d → (∀ r, d_invites d !! id = Some r → iv_RevokedAt (ir_invite r) = None) →
  accept_invite id userID now t d = Ok (a, d') → integrity d'.
Proof.
  intros Hd Hr. unfold accept_invite, user_known. destruct (d_invites d !! id) as [r|] eqn:Er; [|by intros [= <- <-]].
  case_bool_decide as Hu; [|done]. intros [= <- <-]. apply stamped_integrity; [done|done|].
  destruct (i_invites _ Hd _ _ Er) as (? & ? & ? & ? & ?). split_and!; cbn; try done.
  - intros u [= <-]. eauto.
  - right. by apply Hr.
Qed.

Lemma is_user_delete (t : gmap string user_row) id v : is_Some (t !! v) → v ≠ id → is_Some (delete id t !! v).
Proof. intros H Hne. by rewrite lookup_delete_ne. Qed.

Lemma owner_ok_drop d id v : owner_ok d v → refers v id = false → owner_ok (drop_user id d) v.
Proof.
  intros [->|H] Hr; [by left|]. destruct (decide (v = "")) as [->|Hv]; [by left|right].
  apply is_user_delete; [done|]. intros ->. enough (refers id id = true) by congruence. by apply refers_spec.
Qed.

Lemma forget_lookup id (t : gmap string invite_row) k r :
  (forget_user id <$> keep (fun i => negb (String.eqb (iv_CreatedBy (ir_invite i)) id)) t) !! k = Some r →
  ∃ r0, t !! k = Some r0 ∧ r = forget_user id r0 ∧ iv_CreatedBy (ir_invite r0) ≠ id.
Proof.
  rewrite lookup_fmap, fmap_Some. intros (r0 & Hr0 & ->). apply keep_lookup in Hr0 as [Hr0 Hc].
  apply negb_true_iff, String.eqb_neq in Hc. eauto.
Qed.

Lemma drop_user_integrity d id : integrity d → integrity (drop_user id d).
Proof.
  intros Hd. constructor; cbn.
  - apply map_Forall_delete, Hd.
  - apply (unique_on_sub _ (d_users d)); [|apply Hd]. intros k r Hr. apply lookup_delete_Some in Hr as [_ Hr]. eauto.
  - apply (unique_on_sub _ (d_users d)); [|apply Hd]. intros k r Hr. apply lookup_delete_Some in Hr as [_ Hr]. eauto.
  - intros h s Hs. apply keep_lookup in Hs as [Hs Hn%negb_true_iff%String.eqb_neq].
    apply is_user_delete; [apply (i_sessions _ Hd _ _ Hs)|done].
  - intros k r Hr. apply keep_lookup in Hr as [Hr Hn%negb_true_iff]. destruct (i_keys _ Hd _ _ Hr) as (? & ? & ?).
    split_and!; [done|done|by apply owner_ok_drop].
  - apply (unique_on_sub _ (d_keys d)); [|apply Hd]. intros k r Hr. apply keep_lookup in Hr as [Hr _]. eauto.
  - intros k r Hr. apply keep_lookup in Hr as [Hr Hn%negb_true_iff]. destruct (i_creds _ Hd _ _ Hr) as (? & ? & ?).
    split_and!; [done|done|by apply owner_ok_drop].
  - intros k r Hr. apply forget_lookup in Hr as (r0 & Hr0 & -> & Hne).
    destruct (i_invites _ Hd _ _ Hr0) as (? & ? & ? & Hacc & ?). split_and!; cbn; try done; [by apply is_user_delete|].
    intros u. case_decide as Hu; [done|]. intros E. destruct (Hacc u E) as [? ?]. split; [|done].
    apply is_user_delete; [done|]. by intros ->.
  - apply (unique_on_sub _ (d_invites d)); [|apply Hd]. intros k r Hr. apply forget_lookup in Hr as (r0 & Hr0 & -> & _). eauto.
  - apply (unique_on_sub _ (d_invites d)); [|apply Hd]. intros k r Hr. apply forget_lookup in Hr as (r0 & Hr0 & -> & _). eauto.
Qed.

Lemma delete_user_integrity id orgID : stmt_preserves integrity (delete_user id orgID).
Proof.
  intros now d a d' Hd. unfold delete_user. destruct (d_users d !! id) as [r|]; [|by intros [= <- <-]].
  case_match; intros [= <- <-]; [by apply drop_user_integrity|done].
Qed.

#[export] Hint Resolve insert_user_integrity link_sso_integrity insert_session_integrity delete_session_integrity
  insert_key_integrity revoke_key_integrity insert_cred_integrity rotate_cred_integrity delete_cred_integrity
  revoke_invite_integrity delete_user_integrity : pres.
#[export] Hint Extern 1 (stmt_preserves integrity (insert_invite _ _)) => by apply insert_invite_integrity : pres.
#[export] Hint Extern 1 (stmt_preserves integrity (update_user _ _ _)) => by apply update_user_integrity : pres.

Lemma AcceptInvite_integrity E raw password : preserves integrity (AcceptInvite E raw password).
Proof.
  intros w Hw. destruct (AcceptInvite E raw password w) as [r w'] eqn:H.
  apply AcceptInvite_cases in H as [[[l El] _]|(i & n & now & id & hash & d1 & d2 & t & t' & l & Hi & Hr & Ha & _ & Hu & Hs & Hw' & _)];
    cbn; [rewrite El; by apply integrity_blind|]. rewrite Hw'. apply integrity_blind.
  assert (d_invites d1 = d_invites (w_db w)) as Hd1 by (unfold insert_user, users_taken, org_known in Hu; by split_matches).
  pose proof (insert_user_integrity _ _ _ _ _ _ _ _ _ Hw Hu) as H1. eapply accept_invite_integrity; [exact H1| |exact Hs].
  intros r' Hr'. rewrite Hd1 in Hr'. unfold invite_with in Hi. apply fmap_Some in Hi as (r0 & Hh & ->).
  apply head_where in Hh as [_ [k Hk]]. destruct (i_invites _ Hw _ _ Hk) as [<- _]. rewrite Hk in Hr'. by injection Hr' as <-.
Qed.
#[export] Hint Resolve AcceptInvite_integrity : pres.

Lemma run_integrity E o : preserves integrity (run E o).
Proof.
  destruct o; cbn [run];
    unfold CreateUser, LinkSSOIdentity, CreateSession, SetEnforceLimits, MarkOnboarded, DeleteUser, Authenticate, Logout,
      CreateVirtualKey, RevokeVirtualKey, CreateCredential, RotateCredential, RotateUserCredential, DeleteCredential,
      DeleteUserCredential, CreateInvite, RevokeInvite, the_cipher, encrypted; solve_pres.
Qed.

(** The constraints the operations rely on hold in every state they reach: ids
    key their rows, every reference names a user that exists, no two users of an
    org share an email or an SSO identity, no two keys a hash, no two invites an
    email or a token, and no invite is both accepted and revoked. *)
Theorem store_integrity (d d' : db) : integrity d → reachable (fun _ => True) d d' → integrity d'.
Proof. apply reachable_preserves. intros E o w _. apply run_integrity. Qed.

(** ** Invites *)

(** Every invite with this token hash has been used or revoked. *)
Definition spent (h : string) (d : db) : Prop :=
  ∀ id r, d_invites d !! id = Some r → ir_hash r = h →
  is_Some (iv_AcceptedAt (ir_invite r)) ∨ is_Some (iv_RevokedAt (ir_invite r)).

#[export] Instance spent_blind h : LogBlind (spent h).
Proof. by intros f d. Qed.

(** The statements that leave the invites alone. *)
Lemma spent_frame {A} h (s : stmt A) :
  (∀ now d a d', s now d = Ok (a, d') → d_invites d' = d_invites d) → stmt_preserves (spent h) s.
Proof. intros Hf now d a d' Hd Hs id r. rewrite (Hf _ _ _ _ Hs). apply Hd. Qed.

Ltac frame_stmt :=
  intros ? ? ? ?;
  unfold insert_user, users_taken, org_known, update_user, link_sso, insert_session, sessions_taken, user_known, delete_session, insert_key, keys_taken, org_known, revoke_key, insert_cred, creds_taken, org_known,
    rotate_cred, delete_cred, delete_user, insert_invite, invites_taken, org_known, user_known, revoke_invite;
  intros ?; split_matches.

#[export] Hint Extern 3 (stmt_preserves (spent _) _) => apply spent_frame; frame_stmt : pres.

Lemma stamped_spent h d id r accepted revoked :
  spent h d → d_invites d !! id = Some r → is_Some accepted ∨ is_Some revoked →
  spent h (set_invites <[id := stamped accepted revoked r]> d).
Proof.
  intros Hd Er Hs k x. cbn. rewrite lookup_insert_Some. intros [[<- <-]|[_ Hx]] Hh; [|by apply (Hd k)].
  cbn. destruct Hs as [[[t u] ->]|[t ->]]; eauto.
Qed.

Lemma revoke_invite_spent h id orgID : stmt_preserves (spent h) (revoke_invite id orgID).
Proof.
  intros now d a d' Hd. unfold revoke_invite. destruct (d_invites d !! id) as [r|] eqn:Er; [|by intros [= <- <-]].
  case_match; intros [= <- <-]; [|done]. apply stamped_spent; eauto.
Qed.

Lemma delete_user_spent h id orgID : stmt_preserves (spent h) (delete_user id orgID).
Proof.
  intros now d a d' Hd. unfold delete_user. destruct (d_users d !! id) as [r|]; [|by intros [= <- <-]].
  case_match; intros [= <- <-]; [|done]. intros k x Hx. cbn in Hx. apply forget_lookup in Hx as (x0 & Hx0 & -> & _).
  apply (Hd k x0 Hx0).
Qed.
#[export] Hint Resolve revoke_invite_spent delete_user_spent : pres.

Lemma accept_spent h id userID now : stmt_preserves (spent h) (accept_invite id userID now).
Proof.
  intros t d a d' Hd. unfold accept_invite, user_known. destruct (d_invites d !! id) as [r|] eqn:Er; [|by intros [= <- <-]].
  case_bool_decide; [|done]. intros [= <- <-]. apply stamped_spent; eauto.
Qed.

Lemma insert_user_invites id orgID email hash role t d a d' :
  insert_user id orgID email hash role t d = Ok (a, d') → d_invites d' = d_invites d.
Proof. unfold insert_user, users_taken, org_known. intros H. by split_matches. Qed.

Lemma AcceptInvite_spent h E raw password : preserves (spent h) (AcceptInvite E raw password).
Proof. apply AcceptInvite_preserves; [apply _|eauto with pres|apply accept_spent]. Qed.
#[export] Hint Resolve AcceptInvite_spent : pres.

(** No token drawn in this environment has the hash [h]. *)
Definition never_draws (h : string) (E : env) : Prop :=
  ∀ n raw, generateRawToken (e_random E n) = Some raw → hashInviteToken E raw ≠ h.

Lemma CreateInvite_spent h E orgID actorID email role ttl url :
  never_draws h E → preserves (spent h) (CreateInvite E orgID actorID email role ttl url).
Proof.
  intros Hf. unfold CreateInvite. destruct (String.eqb _ _); [solve_pres|].
  solve_pres. intros now d a' d' Hd. unfold insert_invite, invites_taken, org_known, user_known. intros Hi. split_matches.
  all: intros k x; cbn; rewrite lookup_insert_Some; intros [[<- <-]|[_ Hx]]; [|by apply (Hd k)].
  all: intros E'; exfalso; by eapply Hf.
Qed.

Lemma run_spent h E o w : never_draws h E → spent h (w_db w) → spent h (w_db (snd (run E o w))).
Proof.
  intros Hf Hw.
  assert (preserves (spent h) (run E o)) as Hp; [|by apply Hp].
  destruct o; cbn [run];
    unfold CreateUser, LinkSSOIdentity, CreateSession, SetEnforceLimits, MarkOnboarded, DeleteUser, Authenticate, Logout,
      CreateVirtualKey, RevokeVirtualKey, CreateCredential, RotateCredential, RotateUserCredential, DeleteCredential,
      DeleteUserCredential, RevokeInvite, the_cipher, encrypted;
    try solve [solve_pres]. apply pres_void. by apply CreateInvite_spent.
Qed.

(** A spent token buys nothing, whatever the password. *)
Lemma spent_refused E raw password w r w' :
  spent (hashInviteToken E raw) (w_db w) → AcceptInvite E raw password w = (r, w') → ∃ e, r = Err e.
Proof.
  intros Hs H. apply AcceptInvite_cases in H as [[_ ?]|(i & n & now & id & hash & d1 & d2 & t & t' & l & Hi & Hr & Ha & _)];
    [done|]. unfold invite_with in Hi. apply fmap_Some in Hi as (x & Hx & ->).
  apply head_where in Hx as [Eh [k Hk]]. apply String.eqb_eq in Eh.
  destruct (Hs k x Hk Eh) as [[? ?]|[? ?]]; congruence.
Qed.

(** [C7] An invite is good for one account.  When [AcceptInvite] succeeds, the invite
    of the token was neither revoked nor accepted nor past its expiry, the new
    account has its org, email and role and did not exist before; and in every
    later state, unless the same token is drawn again, no call with that token
    succeeds. *)
Theorem invite_single_use (E : env) (raw password : string) (w w' : world) (u : User) (id : string) :
  integrity (w_db w) → AcceptInvite E raw password w = (Ok (u, id), w') →
  (∃ i n, invite_with (hashInviteToken E raw) (w_db w) = Some i ∧ iv_ID i = id ∧ iv_RevokedAt i = None ∧
     iv_AcceptedAt i = None ∧ e_now E n ≤ iv_ExpiresAt i ∧ u_OrgID u = iv_OrgID i ∧ u_Email u = iv_Email i ∧
     u_Role u = iv_Role i) ∧
  d_users (w_db w) !! u_ID u = None ∧
  (∃ row, d_users (w_db w') !! u_ID u = Some row ∧ u_OrgID (ur_user row) = u_OrgID u ∧
     u_Email (ur_user row) = u_Email u ∧ u_Role (ur_user row) = u_Role u) ∧
  ∀ d' E' password' n, reachable (never_draws (hashInviteToken E raw)) (w_db w') d' →
    hashInviteToken E' raw = hashInviteToken E raw →
    ∃ e, fst (AcceptInvite E' raw password' (mkWorld d' n)) = Err e.
Proof.
  intros Hw H.
  apply AcceptInvite_cases in H as [[_ [? [=]]]|(i & n & now & uid & hash & d1 & d2 & t & t' & l & Hi & Hr & Ha & Hx & Hu & Hs & Hw' & Er)].
  injection Er as -> ->. cbn [u_ID u_OrgID u_Email u_Role].
  pose proof (insert_user_invites _ _ _ _ _ _ _ _ _ Hu) as Ei.
  unfold insert_user, users_taken, org_known in Hu. destruct (bool_decide _ || _) eqn:Eu; [done|]. apply orb_false_elim in Eu as [Eu _].
  apply bool_decide_eq_false, eq_None_not_Some in Eu. case_bool_decide; [|done]. injection Hu as <-.
  unfold invite_with in Hi. pose proof Hi as Hi'. apply fmap_Some in Hi as (x & Hx' & ->).
  apply head_where in Hx' as [Eh [k Hk]]. apply String.eqb_eq in Eh.
  destruct (i_invites _ Hw _ _ Hk) as [Ek _]. cbn in Ei.
  unfold accept_invite, user_known in Hs. cbn [d_invites set_users] in Hs. rewrite Ek, Hk in Hs. case_bool_decide; [|done].
  injection Hs as <-. split_and!.
  - exists (ir_invite x), n. split_and!; try done. unfold After in Hx. by apply Z.ltb_ge in Hx.
  - done.
  - rewrite Hw'. cbn. rewrite lookup_insert_eq. eexists; split_and!; done.
  - intros d' E' password' n' Hreach Eh'. destruct (AcceptInvite E' _ _ _) as [r w2] eqn:H2. cbn.
    eapply spent_refused; [|exact H2]. rewrite Eh'. cbn.
    eapply (reachable_preserves _ (spent _)); [|idtac|exact Hreach]; [intros; by apply run_spent|].
    rewrite Hw'. apply spent_blind. intros k' r'. cbn. rewrite lookup_insert_Some. intros [[<- <-]|[Hne Hr']] Eh2; cbn; [eauto|].
    exfalso. apply Hne. by apply (i_tokens _ Hw _ _ _ _ (ir_hash x) Hk Hr'); [|rewrite Eh2, Eh].
Qed.

(** An address is invited at most once.  While a row for this org and address
    exists, be it accepted, revoked or expired, no call to [CreateInvite] for it
    succeeds: unless the connection or the random source fails the answer is that
    the email is taken, and the tables stay as they are. *)
Theorem reinvite_refused (E : env) (orgID actorID email role url : string) (ttl : Duration) (w w' : world)
    (id : string) (x : invite_row) (r : res store_err (Invite * string)) :
  d_invites (w_db w) !! id = Some x → iv_OrgID (ir_invite x) = org_of orgID →
  iv_Email (ir_invite x) = normaliseEmail email → normaliseEmail email ≠ "" →
  CreateInvite E orgID actorID email role ttl url w = (r, w') →
  w_db w' = w_db w ∧
  (r = Err ErrEmailTaken ∨ (∃ msg, r = Err (Sql (Fault msg))) ∨ r = Err (Failed "token")).
Proof.
  intros Hx Ho He Hne H. unfold CreateInvite in H. apply String.eqb_neq in Hne.
  run_cases H; eauto; try congruence; unfold insert_invite, invites_taken, org_known, user_known in *; exfalso;
  assert (any_row (same_invite (org_of orgID) (normaliseEmail email) (hashInviteToken E s)) (d_invites (w_db w)) = true) as Ha
    by (apply any_row_spec; exists id, x; unfold same_invite; by rewrite Ho, He, !String.eqb_refl);
  cbn in *; rewrite Ha, orb_true_r in *; done.
Qed.

(** ** Sessions *)

Lemma frame_preserves {A B} (proj : db → B) (I : B → Prop) (s : stmt A) :
  (∀ now d a d', s now d = Ok (a, d') → proj d' = proj d) → stmt_preserves (fun d => I (proj d)) s.
Proof. intros Hf now d a d' Hd Hs. by rewrite (Hf _ _ _ _ Hs). Qed.

(** The session with this hash, if there is one, is of this user until this time,
    and the user's row says so. *)
Definition bound (h uid : string) (exp : Time) (org email role : string) (d : db) : Prop :=
  ∀ s, d_sessions d !! h = Some s →
    sr_user s = uid ∧ sr_expires s = exp ∧
    ∃ r, d_users d !! uid = Some r ∧ u_ID (ur_user r) = uid ∧ u_OrgID (ur_user r) = org ∧
         u_Email (ur_user r) = email ∧ u_Role (ur_user r) = role.

(** There is none. *)
Definition closed (h : string) (d : db) : Prop := d_sessions d !! h = None.

#[export] Instance bound_blind h uid exp org email role : LogBlind (bound h uid exp org email role).
Proof. by intros f d. Qed.
#[export] Instance closed_blind h : LogBlind (closed h).
Proof. by intros f d. Qed.

Definition never_opens (h : string) (E : env) : Prop :=
  ∀ n, HashKey E (GenerateSessionToken (e_random E n)) ≠ h.

(** A statement that opens no session with this hash and rewrites no user's
    identity, except that it may drop a user with all of its sessions. *)
Definition session_safe {A} (h : string) (s : stmt A) : Prop :=
  ∀ now d a d', s now d = Ok (a, d') →
    (∀ x, d_sessions d' !! h = Some x → d_sessions d !! h = Some x) ∧
    (∀ x r, d_sessions d' !! h = Some x → d_users d !! sr_user x = Some r →
       ∃ r', d_users d' !! sr_user x = Some r' ∧ u_ID (ur_user r') = u_ID (ur_user r) ∧
         u_OrgID (ur_user r') = u_OrgID (ur_user r) ∧ u_Email (ur_user r') = u_Email (ur_user r) ∧
         u_Role (ur_user r') = u_Role (ur_user r)).

Lemma session_safe_bound {A} h uid exp org email role (s : stmt A) :
  session_safe h s → stmt_preserves (bound h uid exp org email role) s.
Proof.
  intros Hs now d a d' Hd E x Hx. destruct (Hs _ _ _ _ E) as [H1 H2].
  destruct (Hd x (H1 x Hx)) as (<- & <- & r & Hr & H). destruct (H2 x r Hx Hr) as (r' & Hr' & E1 & E2 & E3 & E4).
  split_and!; [done|done|]. exists r'. split; [done|]. by rewrite E1, E2, E3, E4.
Qed.

Lemma session_safe_closed {A} h (s : stmt A) : session_safe h s → stmt_preserves (closed h) s.
Proof.
  intros Hs now d a d' Hd E. destruct (Hs _ _ _ _ E) as [H1 _]. unfold closed in *.
  destruct (d_sessions d' !! h) as [x|] eqn:Ex; [|done]. by rewrite (H1 x eq_refl) in Hd.
Qed.
#[export] Hint Resolve session_safe_bound session_safe_closed : pres.

(** Statements on other tables. *)
Lemma session_safe_frame {A} h (s : stmt A) :
  (∀ now d a d', s now d = Ok (a, d') → d_sessions d' = d_sessions d ∧ d_users d' = d_users d) → session_safe h s.
Proof. intros Hf now d a d' E. destruct (Hf _ _ _ _ E) as [-> ->]. split; [done|]. intros x r _ Hr. by exists r. Qed.

(** Statements that rewrite or add one user. *)
Lemma session_safe_users {A} h (s : stmt A) :
  (∀ now d a d', s now d = Ok (a, d') → d' = d ∨
     ∃ id r', d' = set_users <[id := r']> d ∧
       ∀ r, d_users d !! id = Some r → u_ID (ur_user r') = u_ID (ur_user r) ∧
         u_OrgID (ur_user r') = u_OrgID (ur_user r) ∧ u_Email (ur_user r') = u_Email (ur_user r) ∧
         u_Role (ur_user r') = u_Role (ur_user r)) → session_safe h s.
Proof.
  intros Hf now d a d' E. destruct (Hf _ _ _ _ E) as [->|(id & r' & -> & Hr')]; (split; [done|]); intros x r _ Hr;
    [by exists r|]. cbn. destruct (decide (sr_user x = id)) as [<-|Hne].
  - exists r'. rewrite lookup_insert_eq. split; [done|]. by apply Hr'.
  - exists r. by rewrite lookup_insert_ne.
Qed.

Lemma insert_user_safe h id orgID email hash role : session_safe h (insert_user id orgID email hash role).
Proof.
  apply session_safe_users. intros now d a d'. unfold insert_user, users_taken, org_known.
  destruct (bool_decide _ || _) eqn:Eu; [done|]. apply orb_false_elim in Eu as [Eu%bool_decide_eq_false _].
  case_bool_decide; [|done]. intros [= <- <-]. right. eexists _, _. split; [done|]. intros r Hr. exfalso. eauto.
Qed.

Lemma update_user_safe h id p f :
  (∀ now r, u_ID (ur_user (f now r)) = u_ID (ur_user r) ∧ u_OrgID (ur_user (f now r)) = u_OrgID (ur_user r) ∧
            u_Email (ur_user (f now r)) = u_Email (ur_user r) ∧ u_Role (ur_user (f now r)) = u_Role (ur_user r)) →
  session_safe h (update_user id p f).
Proof.
  intros Hf. apply session_safe_users. intros now d a d'. unfold update_user.
  destruct (d_users d !! id) as [r|] eqn:Er; [|intros [= <- <-]; by left]. destruct (p r); intros [= <- <-]; [right|by left].
  eexists _, _. split; [done|]. intros r0 Hr0. rewrite Er in Hr0. injection Hr0 as <-. apply Hf.
Qed.

Lemma link_sso_safe h id provider subject issuer : session_safe h (link_sso id provider subject issuer).
Proof.
  apply session_safe_users. intros now d a d'. unfold link_sso.
  destruct (d_users d !! id) as [r|] eqn:Er; [|intros [= <- <-]; by left]. case_match; [|intros [= <- <-]; by left].
  destruct (any_row _ _); [done|]. intros [= <- <-]. right. eexists _, _. split; [done|].
  intros r0 Hr0. rewrite Er in Hr0. by injection Hr0 as <-.
Qed.

Lemma delete_session_safe h hash : session_safe h (delete_session hash).
Proof.
  intros now d a d' [= <- <-]. cbn. split; [|by intros x r _ Hr; exists r]. intros x Hx. by apply lookup_delete_Some in Hx as [_ ?].
Qed.

Lemma delete_user_safe h id orgID : session_safe h (delete_user id orgID).
Proof.
  intros now d a d'. unfold delete_user. destruct (d_users d !! id) as [r|].
  2: { intros [= <- <-]. split; [done|]. intros x r _ Hr. by exists r. }
  case_match; intros [= <- <-]; cbn; (split; [|intros x r' Hx Hr]).
  - intros x Hx. by apply keep_lookup in Hx as [? _].
  - exists r'. apply keep_lookup in Hx as [_ Hn%negb_true_iff%String.eqb_neq]. by rewrite lookup_delete_ne.
  - done.
  - by exists r'.
Qed.
#[export] Hint Resolve insert_user_safe link_sso_safe delete_session_safe delete_user_safe : pres.
#[export] Hint Extern 1 (session_safe _ (update_user _ _ _)) => by apply update_user_safe : pres.
#[export] Hint Extern 3 (session_safe _ _) => apply session_safe_frame; frame_stmt : pres.

Lemma accept_invite_safe h id userID now : session_safe h (accept_invite id userID now).
Proof. apply session_safe_frame. intros ? ? ? ?. unfold accept_invite, user_known. intros ?; split_matches. Qed.

Lemma insert_session_safe h hash userID expires : hash ≠ h → session_safe h (insert_session hash userID expires).
Proof.
  intros Hne now d a d' H. unfold insert_session, sessions_taken, user_known in H. split_matches. split; cbn; [|by intros x r _ Hr; exists r].
  intros x Hx. by rewrite lookup_insert_ne in Hx.
Qed.
#[export] Hint Resolve insert_session_safe : pres.

Section Sessions.
Context (h : string) (I : db → Prop) {Hblind : LogBlind I}.
Hypothesis Hsafe : ∀ A (s : stmt A), session_safe h s → stmt_preserves I s.

Lemma run_session_safe E o w : never_opens h E → I (w_db w) → I (w_db (snd (run E o w))).
Proof using Hsafe Hblind.
  intros Hf Hw. assert (preserves I (run E o)) as Hp; [|by apply Hp].
  destruct o; cbn [run];
    unfold CreateUser, LinkSSOIdentity, CreateSession, SetEnforceLimits, MarkOnboarded, DeleteUser, Authenticate, Logout,
      CreateVirtualKey, RevokeVirtualKey, CreateCredential, RotateCredential, RotateUserCredential, DeleteCredential,
      DeleteUserCredential, CreateInvite, RevokeInvite, the_cipher, encrypted;
    try solve [solve_pres; apply Hsafe; eauto with pres].
  apply pres_void, AcceptInvite_preserves; [done|intros; apply Hsafe; eauto with pres|].
  intros; apply Hsafe, accept_invite_safe.
Qed.
End Sessions.

(** [C8] What a login opens.  [Authenticate] succeeds only for the user of that org and
    address whose password hash accepts the password.  From then on, in every
    state before the same token is drawn again, whoever presents the token is
    that user, with the org, address and role of the login, and only until the
    expiry fixed at the login. *)
Theorem session_sound (E : env) (orgID email password : string) (ttl : Duration) (w w' : world)
    (token : string) (u : User) :
  integrity (w_db w) → Authenticate E orgID email password ttl w = (Ok (token, u), w') →
  (∃ row, d_users (w_db w) !! u_ID u = Some row ∧ ur_user row = u ∧ u_OrgID u = org_of orgID ∧ u_Email u = email ∧
     e_bcrypt_ok E (ur_hash row) password = true) ∧
  ∃ n, (∀ t, session_user (HashKey E token) t (w_db w') = if t <? Add (e_now E n) ttl then Some u else None) ∧
  ∀ d' t u', reachable (never_opens (HashKey E token)) (w_db w') d' →
    session_user (HashKey E token) t d' = Some u' →
    t < Add (e_now E n) ttl ∧ u_ID u' = u_ID u ∧ u_OrgID u' = u_OrgID u ∧ u_Email u' = u_Email u ∧ u_Role u' = u_Role u.
Proof.
  intros Hw H. unfold Authenticate in H. run_cases H.
  repeat match goal with Hs : context [find_user] |- _ => rename Hs into Hfind end.
  unfold find_user in Hfind. apply head_where in Hfind as [Hsame [k Hk]]. unfold same_email in Hsame.
  apply andb_prop in Hsame as [Eo%String.eqb_eq Ee%String.eqb_eq].
  destruct (i_users _ Hw _ _ Hk) as [Eid _].
  set (tok := GenerateSessionToken _) in *. set (exp := Add _ ttl) in *.
  match goal with Hi : insert_session _ _ _ _ _ = _ |- _ => unfold insert_session, sessions_taken, user_known in Hi; rename Hi into Hins end.
  case_bool_decide; [done|]. case_bool_decide as Hu; [|done]. injection Hins as <- <-.
  split; [eexists; split_and!; [by rewrite Eid|done..]|]. eexists. split.
  - intros t. unfold session_user. cbn. rewrite lookup_insert_eq. cbn. rewrite Eid, Hk. done.
  - intros d' t u' Hreach Hs.
    assert (bound (HashKey E tok) k exp (u_OrgID (ur_user u0)) (u_Email (ur_user u0)) (u_Role (ur_user u0)) d') as Hb.
    { eapply (reachable_preserves _ (bound _ _ _ _ _ _)); [|idtac|exact Hreach].
      - intros E' o w0 HE. apply (run_session_safe (HashKey E tok)); [apply _| |done]. intros. by apply session_safe_bound.
      - apply bound_blind. intros x. cbn. rewrite lookup_insert_eq. intros [= <-]. cbn. split_and!; [done|done|]. by exists u0. }
    unfold session_user in Hs. destruct (d_sessions d' !! HashKey E tok) as [x|] eqn:Ex; [|done].
    destruct (Hb x Ex) as (Eux & Eex & r & Hr & ? & ? & ? & ?). rewrite Eux, Eex, Hr in Hs.
    destruct (t <? exp) eqn:Et; [|done]. injection Hs as <-. apply Z.ltb_lt in Et. split_and!; try done; congruence.
Qed.

(** Ending a session is final: once [Logout] of a token or [DeleteUser] of its
    user has succeeded, nobody is logged in by that token in any later state,
    unless it is drawn again. *)
Theorem session_ends (E : env) (token : string) (o : op) (w w' : world) :
  run E o w = (Ok tt, w') →
  (o = OpLogout token ∨
   ∃ orgID actorID s, o = OpDeleteUser orgID actorID (sr_user s) ∧ d_sessions (w_db w) !! HashKey E token = Some s) →
  ∀ d' t, reachable (never_opens (HashKey E token)) (w_db w') d' → session_user (HashKey E token) t d' = None.
Proof.
  intros H Ho d' t Hreach. unfold session_user.
  assert (closed (HashKey E token) d') as ->; [|done].
  eapply (reachable_preserves _ (closed _)); [|idtac|exact Hreach].
  { intros E' o' w0 HE. apply (run_session_safe (HashKey E token)); [apply _| |done]. intros. by apply session_safe_closed. }
  destruct Ho as [->|(orgID & actorID & s & -> & Hs)]; cbn [run] in H.
  - unfold Logout in H. run_cases H. unfold delete_session in *. simplify_eq. unfold closed. cbn. apply lookup_delete_eq.
  - unfold DeleteUser in H. run_cases H. apply closed_blind. unfold delete_user in *. split_matches.
    unfold closed. cbn. destruct (keep _ _ !! _) as [x|] eqn:Ex; [|done].
    apply keep_lookup in Ex as [Ex Hn]. rewrite Hs in Ex. injection Ex as <-. by rewrite String.eqb_refl in Hn.
Qed.

(** ** Tenants *)

(** The org an operation acts for. *)
Definition op_org (o : op) : option string :=
  match o with
  | OpCreateUser orgID _ _ _ _ | OpCreateVirtualKey orgID _ _ _ _ _ _ _ | OpCreateCredential orgID _ _ _ _ _ _ _
  | OpRotateCredential orgID _ _ _ | OpCreateInvite orgID _ _ _ _ _ | OpRevokeInvite orgID _ _
  | OpAuthenticate orgID _ _ _ => Some (org_of orgID)
  | OpDeleteUser orgID _ _ | OpRevokeVirtualKey orgID _ _ | OpRotateUserCredential orgID _ _ _
  | OpDeleteCredential orgID _ _ | OpDeleteUserCredential orgID _ _ => Some orgID
  | _ => None
  end.

(** The rows of the other orgs. *)
Definition foreign {A} (org : string) (f : A → string) (t : gmap string A) : gmap string A :=
  filter (fun kv => f (snd kv) ≠ org) t.

Definition foreign_rows (org : string) (d : db) :
    gmap string user_row * gmap string key_row * gmap string cred_row * gmap string invite_row :=
  (foreign org (fun r => u_OrgID (ur_user r)) (d_users d), foreign org (fun r => vk_OrgID (kr_key r)) (d_keys d),
   foreign org (fun r => pc_OrgID (cr_cred r)) (d_creds d), foreign org (fun r => iv_OrgID (ir_invite r)) (d_invites d)).

(** Every row belongs to the org of the user it names. *)
Definition of_org (d : db) (org uid : string) : Prop :=
  ∀ u, d_users d !! uid = Some u → u_OrgID (ur_user u) = org.

Record aligned (d : db) : Prop := mkAligned {
  a_keys : map_Forall (fun _ r => vk_UserID (kr_key r) ≠ "" → of_org d (vk_OrgID (kr_key r)) (vk_UserID (kr_key r))) (d_keys d);
  a_creds : map_Forall (fun _ r => pc_UserID (cr_cred r) ≠ "" → of_org d (pc_OrgID (cr_cred r)) (pc_UserID (cr_cred r))) (d_creds d);
  a_invites : map_Forall (fun _ r => of_org d (iv_OrgID (ir_invite r)) (iv_CreatedBy (ir_invite r)) ∧
     ∀ u, iv_AcceptedBy (ir_invite r) = Some u → of_org d (iv_OrgID (ir_invite r)) u) (d_invites d)
}.

Definition untouched org v (d : db) : Prop := foreign_rows org d = v.
#[export] Instance untouched_blind org v : LogBlind (untouched org v).
Proof. by intros f d. Qed.

Lemma foreign_insert {A} org (f : A → string) t k r :
  f r = org → (∀ r0, t !! k = Some r0 → f r0 = org) → foreign org f (<[k := r]> t) = foreign org f t.
Proof. intros Hr H0. apply map_filter_insert_not'; cbn; [by intros []|]. intros y Hy Hn. by apply Hn, H0. Qed.

Lemma foreign_delete {A} org (f : A → string) t k :
  (∀ r0, t !! k = Some r0 → f r0 = org) → foreign org f (delete k t) = foreign org f t.
Proof. intros H0. apply map_filter_delete_not. cbn. intros y Hy Hn. by apply Hn, H0. Qed.

Lemma foreign_keep {A} org (f : A → string) (p : A → bool) t :
  (∀ k r, t !! k = Some r → p r = false → f r = org) → foreign org f (keep p t) = foreign org f t.
Proof.
  intros Hp. apply map_eq. intros k. apply option_eq. intros r. unfold foreign. rewrite !map_lookup_filter_Some, keep_lookup.
  cbn. split; [by intros [[? _] ?]|]. intros [Hr Hn]. split_and!; [done| |done]. destruct (p r) eqn:E; [done|]. by apply (Hp k) in E.
Qed.

Ltac split_pairs := repeat match goal with |- (_, _) = (_, _) => f_equal end.

(** Statements confined to [org]: one row of that org is added, rewritten or
    removed. *)
Ltac confine :=
  intros ? d ? ? Hd; unfold untouched, foreign_rows in *;
  unfold insert_user, users_taken, org_known, link_sso, insert_session, sessions_taken, user_known, delete_session, insert_key, keys_taken, org_known, revoke_key, insert_cred, creds_taken, org_known, rotate_cred,
    delete_cred, insert_invite, invites_taken, org_known, user_known, revoke_invite, user_cred;
  intros ?; split_matches; reflect_bools; subst; cbn;
  repeat match goal with
  | H : bool_decide _ = false |- _ => apply bool_decide_eq_false in H
  | H : bool_decide _ = true |- _ => apply bool_decide_eq_true in H
  end;
  split_pairs; (apply foreign_insert || apply foreign_delete); cbn; try done; intros ? Hr; try (exfalso; by eauto);
  rewrite Hr in *; by simplify_eq.

Section Confined.
Context (org : string) (v : gmap string user_row * gmap string key_row * gmap string cred_row * gmap string invite_row).

Lemma insert_user_confined id email hash role : stmt_preserves (untouched org v) (insert_user id org email hash role).
Proof using. confine. Qed.
Lemma insert_session_confined hash userID expires : stmt_preserves (untouched org v) (insert_session hash userID expires).
Proof using. confine. Qed.
Lemma insert_key_confined vk hash : vk_OrgID vk = org → stmt_preserves (untouched org v) (insert_key vk hash).
Proof using. intros <-. confine. Qed.
Lemma revoke_key_confined id : stmt_preserves (untouched org v) (revoke_key id org).
Proof using. confine. Qed.
Lemma insert_cred_confined c secret : pc_OrgID c = org → stmt_preserves (untouched org v) (insert_cred c secret).
Proof using. intros <-. confine. Qed.
Lemma rotate_cred_confined id p secret last4 :
  (∀ c, p c = true → pc_OrgID c = org) → stmt_preserves (untouched org v) (rotate_cred id p secret last4).
Proof using.
  intros Hp now d a d' Hd. unfold untouched, foreign_rows, rotate_cred in *.
  destruct (d_creds d !! id) as [r|] eqn:Er; [|by intros [= <- <-]]. destruct (p (cr_cred r)) eqn:Ep; intros [= <- <-]; [|done].
  cbn. rewrite <- Hd. split_pairs. apply foreign_insert; [cbn; by apply Hp|]. intros r0 [= <-]%(eq_trans (eq_sym Er)). by apply Hp.
Qed.
Lemma delete_cred_confined id p :
  (∀ c, p c = true → pc_OrgID c = org) → stmt_preserves (untouched org v) (delete_cred id p).
Proof using.
  intros Hp now d a d' Hd. unfold untouched, foreign_rows, delete_cred in *.
  destruct (d_creds d !! id) as [r|] eqn:Er; [|by intros [= <- <-]]. destruct (p (cr_cred r)) eqn:Ep; intros [= <- <-]; [|done].
  cbn. rewrite <- Hd. split_pairs. apply foreign_delete. intros r0 [= <-]%(eq_trans (eq_sym Er)). by apply Hp.
Qed.
Lemma insert_invite_confined i hash : iv_OrgID i = org → stmt_preserves (untouched org v) (insert_invite i hash).
Proof using. intros <-. confine. Qed.
Lemma revoke_invite_confined id : stmt_preserves (untouched org v) (revoke_invite id org).
Proof using. confine. Qed.
End Confined.

#[export] Hint Resolve insert_user_confined insert_session_confined revoke_key_confined revoke_invite_confined : pres.
#[export] Hint Extern 1 (stmt_preserves (untouched _ _) (insert_key _ _)) => by apply insert_key_confined : pres.
#[export] Hint Extern 1 (stmt_preserves (untouched _ _) (insert_cred _ _)) => by apply insert_cred_confined : pres.
#[export] Hint Extern 1 (stmt_preserves (untouched _ _) (insert_invite _ _)) => by apply insert_invite_confined : pres.
#[export] Hint Extern 1 (stmt_preserves (untouched _ _) (rotate_cred _ _ _ _)) =>
  apply rotate_cred_confined; unfold user_cred; intros ? ?; by reflect_bools : pres.
#[export] Hint Extern 1 (stmt_preserves (untouched _ _) (delete_cred _ _)) =>
  apply delete_cred_confined; unfold user_cred; intros ? ?; by reflect_bools : pres.

Lemma drop_user_confined d id u :
  aligned d → d_users d !! id = Some u → foreign_rows (u_OrgID (ur_user u)) (drop_user id d) = foreign_rows (u_OrgID (ur_user u)) d.
Proof.
  intros [Hk Hc Hi] Hu. unfold foreign_rows. split_pairs; cbn.
  - apply foreign_delete. intros r0 Hr0. rewrite Hu in Hr0. by injection Hr0 as <-.
  - apply foreign_keep. intros k r Hr Hn%negb_false_iff%refers_spec. destruct Hn as [Hne E].
    symmetry. apply (Hk k r Hr); [done|by rewrite E].
  - apply foreign_keep. intros k r Hr Hn%negb_false_iff%refers_spec. destruct Hn as [Hne E].
    symmetry. apply (Hc k r Hr); [done|by rewrite E].
  - apply map_eq. intros k. apply option_eq. intros r. unfold foreign. rewrite !map_lookup_filter_Some. cbn. split.
    + intros [Hr Hn]. apply forget_lookup in Hr as (r0 & Hr0 & -> & Hne). cbn in Hn. split; [|done]. rewrite Hr0. f_equal.
      unfold forget_user. case_decide as Ea; [|by destruct r0 as [[]]]. exfalso. apply Hn. destruct (Hi k r0 Hr0) as [_ H2].
      symmetry. by apply (H2 id Ea).
    + intros [Hr Hn]. split; [|done]. destruct (Hi k r Hr) as [H1 H2]. rewrite lookup_fmap, fmap_Some.
      exists r. split.
      * apply keep_lookup. split; [done|]. apply negb_true_iff, String.eqb_neq. intros E. apply Hn. symmetry.
        apply H1. by rewrite E.
      * unfold forget_user. case_decide as Ea; [|by destruct r as [[]]]. exfalso. apply Hn. symmetry. by apply (H2 id Ea).
Qed.

Lemma op_confined (E : env) (o : op) (org : string) (w : world) :
  op_org o = Some org → (∀ a b c, o = OpDeleteUser a b c → aligned (w_db w)) →
  foreign_rows org (w_db (snd (run E o w))) = foreign_rows org (w_db w).
Proof.
  intros Ho Ha. destruct o; cbn [op_org] in Ho; try done; injection Ho as <-; cbn [run];
    try (apply (fun H => H : preserves (untouched _ _) _); [|done];
      unfold CreateUser, Authenticate, CreateVirtualKey, RevokeVirtualKey, CreateCredential, RotateCredential,
        RotateUserCredential, DeleteCredential, DeleteUserCredential, CreateInvite, RevokeInvite, the_cipher, encrypted;
      solve_pres; fail).
  destruct (DeleteUser _ _ _ _ _) as [r w'] eqn:H. unfold DeleteUser in H. run_cases H; cbn; try done;
    unfold delete_user in *; split_matches.
  reflect_bools. subst. by apply drop_user_confined; [apply (Ha _ _ _ eq_refl)|].
Qed.

(** What an operation for one org may change.  Every row of every other org, in
    the tables of users, keys, credentials and invites, is left as it is by every
    operation that acts for an org; for the deletion of a user this needs the rows
    that name the user to belong to the user's org. *)
Theorem tenant_writes_confined (E : env) (o : op) (org : string) (w : world) :
  op_org o = Some org → (∀ a b c, o = OpDeleteUser a b c → aligned (w_db w)) →
  foreign_rows org (w_db (snd (run E o w))) = foreign_rows org (w_db w).
Proof. apply op_confined. Qed.

(** The owner of a key is not checked against its org: [CreateVirtualKey] takes
    any user that exists, and then the deletion of that user by the admin of the
    user's org removes the key of the other org. *)
Theorem foreign_owner_accepted (E E' : env) (orgA orgB actorA actorB uid name : string) (models : list string) (rpm : Z)
    (budget quality : float64) (w w1 w2 : world) (vk : VirtualKey) (plaintext : string) (u : user_row) :
  d_users (w_db w) !! uid = Some u → u_OrgID (ur_user u) = orgA → uid ≠ "" →
  CreateVirtualKey E orgB actorB uid name models rpm budget quality w = (Ok (vk, plaintext), w1) →
  DeleteUser E' orgA actorA uid w1 = (Ok tt, w2) →
  vk_OrgID vk = org_of orgB ∧ is_Some (d_keys (w_db w1) !! vk_ID vk) ∧ d_keys (w_db w2) !! vk_ID vk = None.
Proof.
  intros Hu Ho Hne H1 H2. unfold CreateVirtualKey in H1. cbn zeta in H1. run_cases H1.
  match goal with Hi : insert_key _ _ _ _ = _ |- _ => unfold insert_key, keys_taken, org_known in Hi; rename Hi into Hins end. split_matches.
  split_and!; [done|by rewrite lookup_insert_eq|].
  unfold DeleteUser in H2. run_cases H2. unfold delete_user in *. split_matches.
  destruct (keep _ _ !! _) as [x|] eqn:Ex; [|done]. apply keep_lookup in Ex as [Ex Hn]. rewrite lookup_insert_eq in Ex.
  injection Ex as <-. cbn in Hn. apply negb_true_iff in Hn. enough (refers uid uid = true) by congruence. by apply refers_spec.
Qed.

(** ** Credentials *)

(** The first column of the ordering: own credentials before the org's. *)
Definition org_level (r : cred_row) : Z := if String.eqb (pc_UserID (cr_cred r)) "" then 1 else 0.

Lemma own_first_spec r s :
  own_first r s = true ↔
  org_level r < org_level s ∨ (org_level r = org_level s ∧ pc_CreatedAt (cr_cred r) < pc_CreatedAt (cr_cred s)).
Proof. unfold own_first, org_level, older_cred. destruct (String.eqb _ _), (String.eqb _ _); cbn; rewrite ?Z.ltb_lt; lia. Qed.

Lemma own_first_head l r : head (SliceStable own_first l) = Some r → r ∈ l ∧ ∀ s, s ∈ l → own_first s r = false.
Proof.
  intros H. assert (StronglySorted (fun y z => own_first z y = false) (SliceStable own_first l)) as Hs.
  { apply (SliceStable_sorted own_first (fun _ => True)); [| |by apply Forall_true].
    - intros x y Hx. apply not_true_iff_false. rewrite own_first_spec in *. lia.
    - intros x y z _ _ _. rewrite !own_first_spec. lia. }
  pose proof (SliceStable_perm own_first l) as Hp. destruct (SliceStable own_first l) as [|x l']; [done|]. injection H as ->.
  assert (∀ s, s ∈ l → s ∈ r :: l') as Hin by (intros s; by rewrite Hp).
  split; [rewrite <- Hp; apply list_elem_of_here|]. intros s [->|Hs']%Hin%elem_of_cons.
  - apply not_true_iff_false. rewrite own_first_spec. lia.
  - apply StronglySorted_inv in Hs as [_ Hf]. rewrite Forall_forall in Hf. by apply Hf.
Qed.

(** The rows that could serve a caller of this org, and whose they are. *)
Definition cred_candidate (d : db) (org provider : string) (x : cred_row) : Prop :=
  ∃ k, d_creds d !! k = Some x ∧ pc_OrgID (cr_cred x) = org ∧ pc_Provider (cr_cred x) = provider ∧
    pc_Enabled (cr_cred x) = true.
Definition owned_by (userID : string) (x : cred_row) : Prop := userID ≠ "" ∧ pc_UserID (cr_cred x) = userID.
Definition of_the_org (x : cred_row) : Prop := pc_UserID (cr_cred x) = "".

Lemma resolvable_spec d org userID provider x :
  x ∈ rows_where (resolvable org userID provider) (d_creds d) ↔
  cred_candidate d org provider x ∧ (owned_by userID x ∨ of_the_org x).
Proof.
  rewrite rows_where_spec. unfold resolvable, cred_candidate, owned_by, of_the_org.
  rewrite !andb_true_iff, orb_true_iff, !String.eqb_eq, refers_spec. split.
  - intros [[[[Ho Hp] He] Hu] [k Hk]]. split; [by exists k|]. destruct Hu as [[? <-]|?]; [by left|by right].
  - intros [(k & Hk & Ho & Hp & He) Hu]. split; [|by exists k]. split_and!; try done.
    destruct Hu as [[? E]|?]; [left|by right]. by rewrite E.
Qed.

(** The credential a caller gets.  It belongs to the caller's org, serves the
    provider and is enabled; it is the caller's own when the caller has one, and
    otherwise the org's, never another user's; it is the oldest of that kind; and
    the secret is what its stored text decrypts to.  [ErrNotFound] means there is
    none. *)
Theorem resolve_credential_exact (E : env) (orgID userID provider : string) (w w' : world)
    (r : res store_err (DecryptedCredential * string)) :
  ResolveCredential E orgID userID provider w = (r, w') →
  w_db w' = w_db w ∧
  let candidates := cred_candidate (w_db w) (org_of orgID) provider in
  match r with
  | Ok (dc, source) =>
      ∃ x c, candidates x ∧ e_cipher E = Some c ∧ Decrypt c (cr_secret x) = Some (dc_Secret dc) ∧
        pc_ID (dc_Cred dc) = pc_ID (cr_cred x) ∧ pc_BaseURL (dc_Cred dc) = pc_BaseURL (cr_cred x) ∧
        (source = "user" ∧ owned_by userID x ∧
           (∀ y, candidates y → owned_by userID y → pc_CreatedAt (cr_cred x) ≤ pc_CreatedAt (cr_cred y)) ∨
         source = "org" ∧ of_the_org x ∧ (∀ y, candidates y → ¬ owned_by userID y) ∧
           (∀ y, candidates y → of_the_org y → pc_CreatedAt (cr_cred x) ≤ pc_CreatedAt (cr_cred y)))
  | Err ErrNotFound => ∀ x, candidates x → ¬ owned_by userID x ∧ ¬ of_the_org x
  | Err _ => True
  end.
Proof.
  intros H. cbn zeta. unfold ResolveCredential, the_cipher, decrypt_row in H. run_cases H; (split; [done|]); try done.
  - match goal with Hh : head _ = Some ?x |- _ => apply own_first_head in Hh as [Hx Hmin]; exists x, c end.
    apply resolvable_spec in Hx as [Hc Hu]. split_and!; try done.
    assert (∀ y, cred_candidate (w_db w) (org_of orgID) provider y → owned_by userID y ∨ of_the_org y → ¬ own_first y c0 = true) as Hm.
    { intros y Hy Hyu. rewrite Hmin; [done|]. by apply resolvable_spec. }
    setoid_rewrite own_first_spec in Hm. unfold owned_by, of_the_org, org_level in *.
    destruct (String.eqb_spec (pc_UserID (cr_cred c0)) "") as [E0|E0]; [right|left]; split_and!; try done.
    + intros y Hy [Hne Ey]. apply (Hm y Hy); [by left|]. left. destruct (String.eqb_spec (pc_UserID (cr_cred y)) ""); [congruence|lia].
    + intros y Hy Ey. destruct (Z.le_gt_cases (pc_CreatedAt (cr_cred c0)) (pc_CreatedAt (cr_cred y))) as [|Hlt]; [done|].
      exfalso. apply (Hm y Hy); [by right|]. right. rewrite Ey. cbn. lia.
    + by destruct Hu as [[? ?]|?].
    + by destruct Hu as [[? ?]|?].
    + intros y Hy [Hne Ey]. destruct (Z.le_gt_cases (pc_CreatedAt (cr_cred c0)) (pc_CreatedAt (cr_cred y))) as [|Hlt]; [done|].
      exfalso. apply (Hm y Hy); [by left|]. right. destruct (String.eqb_spec (pc_UserID (cr_cred y)) ""); [congruence|lia].
  - intros x Hx. assert (¬ (owned_by userID x ∨ of_the_org x)) as Hn; [|tauto]. intros Hu.
    assert (x ∈ rows_where (resolvable (org_of orgID) userID provider) (d_creds (w_db w))) as Hin by by apply resolvable_spec.
    rewrite <- (SliceStable_perm own_first) in Hin.
    destruct (SliceStable own_first _); [by apply elem_of_nil in Hin|done].
Qed.

Lemma byte_text_length bs : String.length (byte_text bs) = length bs.
Proof. induction bs as [|b bs IH]; cbn; [done|]. f_equal. exact IH. Qed.

Lemma Decrypt_Encrypt c bs secret ct :
  (∀ n p, Open c n (Seal c n p) = Some p) → length bs = NonceSize → Encrypt c (Some bs) secret = Some ct →
  Decrypt c ct = Some secret.
Proof.
  intros Hlaw Hl [= <-]. unfold Decrypt. rewrite length_app_string, byte_text_length, Hl.
  assert ((NonceSize + String.length (Seal c (byte_text bs) secret) <? NonceSize)%nat = false) as -> by (apply Nat.ltb_ge; lia).
  rewrite <- Hl, <- byte_text_length, take_app_len, drop_app_len. apply Hlaw.
Qed.

(** A stored secret is the secret that was given: with a cipher that opens what
    it seals and nonces of twelve bytes, the row that [CreateCredential] adds and
    the row that [RotateCredential] rewrites decrypt to it. *)
Theorem secret_roundtrip (E : env) (c : Cipher) (secret : string) (w w' : world) (cred : ProviderCredential) :
  e_cipher E = Some c → (∀ n p, Open c n (Seal c n p) = Some p) →
  (∀ n bs, e_random E n = Some bs → length bs = NonceSize) →
  (∃ orgID actorID userID provider name baseURL models,
     CreateCredential E orgID actorID userID provider name baseURL secret models w = (Ok cred, w')) ∨
  (∃ orgID actorID id, integrity (w_db w) ∧ RotateCredential E orgID actorID id secret w = (Ok cred, w')) →
  ∃ row, d_creds (w_db w') !! pc_ID cred = Some row ∧ Decrypt c (cr_secret row) = Some secret ∧
    pc_SecretLast4 (cr_cred row) = Last4 secret.
Proof.
  intros Hc Hlaw Hn H.
  assert (∀ n ct, Encrypt c (e_random E n) secret = Some ct → Decrypt c ct = Some secret) as Hd.
  { intros n ct Hct. destruct (e_random E n) as [bs|] eqn:Eb; [|done]. by eapply Decrypt_Encrypt; [|eapply Hn|]. }
  destruct H as [(orgID & actorID & userID & provider & name & baseURL & models & H)|(orgID & actorID & id & Hw & H)];
    unfold CreateCredential, RotateCredential, the_cipher, encrypted in H; rewrite Hc in H; run_cases H.
  - match goal with Hi : insert_cred _ _ _ _ = _ |- _ => unfold insert_cred, creds_taken, org_known in Hi end. split_matches.
    rewrite lookup_insert_eq. eexists. split_and!; [done| |done]. cbn. by eapply Hd.
  - match goal with Hi : rotate_cred _ _ _ _ _ _ = _ |- _ => unfold rotate_cred in Hi end.
    destruct (d_creds (w_db w) !! id) as [r0|] eqn:Er; [|done]. destruct (String.eqb _ _); [|done]. simplify_eq/=.
    destruct (i_creds _ Hw _ _ Er) as [-> _]. rewrite lookup_insert_eq. eexists. split_and!; [done| |done]. cbn. by eapply Hd.
Qed.

(** ** A failed commit *)

(** The environment [E], but for a fault at reading [k]. *)
Definition fail_at (E : env) (k : nat) (msg : string) : env :=
  mkEnv (e_now E) (fun n => if decide (n = k) then Some msg else e_fault E n) (e_uuid E) (e_random E) (e_bcrypt E)
    (e_bcrypt_ok E) (e_sha256 E) (e_cipher E) (e_ctx E).

(** The audit rows of an acceptance are not part of its transaction: when only
    the COMMIT fails, there is no new user and the invite stays open, yet the log
    says the invite was accepted and the user created. *)
Theorem failed_accept_audited (E : env) (raw password msg : string) (w w' : world) (u : User) (id : string) :
  AcceptInvite E raw password w = (Ok (u, id), w') →
  e_fault E (8 + w_tick w)%nat = None → e_fault E (9 + w_tick w)%nat = None →
  let '(r, w2) := AcceptInvite (fail_at E (10 + w_tick w) msg) raw password w in
  r = Err (Sql (Fault msg)) ∧ relogged (w_db w) (w_db w2) ∧
  ∃ a b, al_rows (d_log (w_db w2)) = (al_rows (d_log (w_db w)) ++ [a; b])%list ∧
    ar_Action a = "invite.accepted" ∧ ar_Action b = "user.create" ∧ ar_TargetID b = Scrub (u_ID u).
Proof.
  intros H F8 F9. destruct (AcceptInvite (fail_at _ _ _) _ _ _) as [r2 w2] eqn:H2.
  destruct w as [d n]. cbn [w_tick w_db] in *. unfold AcceptInvite in H. run_cases H.
  unfold AcceptInvite, hashInviteToken in H2. unfold hashInviteToken in *.
  unfold mbind, M_bind, exec, exec_tx, consult, of_opt, on_unique, fail, audit, mret, M_ret, select, commit_tx in H2.
  cbn [w_db w_tick fst snd fail_at e_now e_fault e_uuid e_random e_bcrypt e_sha256 e_ctx] in H2.
  repeat (rewrite decide_False in H2 by lia).
  repeat first
    [ progress cbn [w_db w_tick] in H2 | rewrite decide_False in H2 by lia
    | progress rewrite ?Heqo, ?Heqo0, ?Heqo1, ?Heqb, ?Heqb0, ?Heqb1, ?Heqo2, ?Heqo3, ?Heqr, ?Heqo4, ?Heqr0, ?F8, ?F9 in H2 ].
  rewrite decide_True in H2 by done. injection H2 as <- <-.
  split_and!; [done|by eexists; unfold set_log; cbn|]. rewrite !decide_False by lia. cbn. rewrite <- app_assoc. by eexists _, _.
Qed.

(** ** Instances *)

Definition toy_cipher : Cipher := mkCipher (fun _ p => p) (fun _ ct => Some ct).

Definition toy_env : env :=
  mkEnv (fun n => Z.of_nat n) (fun _ => None) (fun n => "id" +:+ pretty (Z.of_nat n))
    (fun n => Some (repeat (Z.of_nat n) 12)) (fun _ p => Some ("h:" +:+ p)) (fun h p => String.eqb h ("h:" +:+ p))
    (fun s => map (fun c => Z.of_nat (nat_of_ascii c)) (String.list_ascii_of_string s)) (Some toy_cipher) no_ctx.

Definition toy_empty : db := mkDb {["default"; "other"]} ∅ ∅ ∅ ∅ ∅ (mkLog [] 1).

(** An admin, "id1"; then an invite. *)
Definition toy_admin : world := snd (run toy_env (OpCreateUser "" "" "root@x" "pw" "admin") (mkWorld toy_empty 0)).
Definition toy_invited : world := snd (run toy_env (OpCreateInvite "" "id1" " New@x" "" 0 "https://n/") toy_admin).
Definition toy_raw : string := hex_encode (repeat 4 12).

Lemma toy_empty_integrity : integrity toy_empty.
Proof. constructor; try apply map_Forall_empty; by intros ? ? ? ? ? ?. Qed.
Lemma toy_admin_integrity : integrity (w_db toy_admin).
Proof. apply run_integrity, toy_empty_integrity. Qed.
Lemma toy_invited_integrity : integrity (w_db toy_invited).
Proof. apply run_integrity, toy_admin_integrity. Qed.

Lemma store_integrity_witness : integrity (w_db toy_admin) ∧ size (d_users (w_db toy_admin)) = 1%nat.
Proof.
  split; [|vm_compute; reflexivity]. apply (store_integrity toy_empty); [exact toy_empty_integrity|].
  apply (reach_step _ _ toy_env); [done|constructor].
Defined.

Lemma invite_single_use_witness :
  ∃ u id, fst (AcceptInvite toy_env toy_raw "pw2" toy_invited) = Ok (u, id) ∧ u_Email u = "new@x" ∧
    d_users (w_db toy_invited) !! u_ID u = None.
Proof.
  eexists _, _. split_and!; [vm_compute; reflexivity|reflexivity|].
  eapply (invite_single_use toy_env toy_raw "pw2" toy_invited (snd (AcceptInvite toy_env toy_raw "pw2" toy_invited)));
    [exact toy_invited_integrity|vm_compute; reflexivity].
Defined.

Lemma reinvite_refused_witness :
  let again := CreateInvite toy_env "" "id1" "new@x" "" 0 "" toy_invited in
  fst again = Err ErrEmailTaken ∧ w_db (snd again) = w_db toy_invited.
Proof.
  split; [vm_compute; reflexivity|].
  assert (∃ id x, d_invites (w_db toy_invited) !! id = Some x ∧ iv_OrgID (ir_invite x) = "default" ∧
    iv_Email (ir_invite x) = "new@x") as (id & x & Hx & Ho & He) by (eexists "id5", _; vm_compute; by split_and!).
  destruct (CreateInvite toy_env "" "id1" "new@x" "" 0 "" toy_invited) as [r w'] eqn:H.
  apply (reinvite_refused toy_env "" "id1" "new@x" "" "" 0 toy_invited w' id x r Hx); [done|done|done|exact H].
Defined.

(** A login of the admin, and its end. *)
Definition toy_login : res store_err (string * User) * world := Authenticate toy_env "" "root@x" "pw" Hour toy_admin.

Lemma session_sound_witness :
  ∃ token u, fst toy_login = Ok (token, u) ∧ u_OrgID u = "default" ∧
    session_user (HashKey toy_env token) 0 (w_db (snd toy_login)) = Some u.
Proof.
  eexists _, _. split_and!; [vm_compute; reflexivity|reflexivity|].
  edestruct (session_sound toy_env "" "root@x" "pw" Hour toy_admin (snd toy_login)) as [_ (n & Hn & _)];
    [exact toy_admin_integrity|vm_compute; reflexivity|].
  rewrite Hn. assert ((0 <? Add (e_now toy_env n) Hour) = true) as ->; [apply Z.ltb_lt; cbn; unfold Add, Hour, Minute, Second; lia|].
  reflexivity.
Defined.

Lemma session_ends_witness :
  ∃ token u, fst toy_login = Ok (token, u) ∧
    session_user (HashKey toy_env token) 0 (w_db (snd (run toy_env (OpLogout token) (snd toy_login)))) = None.
Proof.
  eexists _, _. split; [vm_compute; reflexivity|].
  eapply (session_ends toy_env _ (OpLogout _) (snd toy_login)); [|by left|constructor]. vm_compute. reflexivity.
Defined.

(** An admin of the other org gives a key to the first org's user. *)
Definition toy_key : res store_err (VirtualKey * string) * world :=
  CreateVirtualKey toy_env "other" "x" "id1" "k" [] 0 fzero fzero toy_admin.

Lemma foreign_owner_accepted_witness :
  ∃ vk p, fst toy_key = Ok (vk, p) ∧ vk_OrgID vk = "other" ∧
    d_keys (w_db (snd (DeleteUser toy_env "default" "adm" "id1" (snd toy_key)))) !! vk_ID vk = None.
Proof.
  eexists _, _. split_and!; [vm_compute; reflexivity|reflexivity|].
  eapply (foreign_owner_accepted toy_env toy_env "default" "other" "adm" "x" "id1" "k" [] 0 fzero fzero toy_admin
    (snd toy_key)); [vm_compute; reflexivity|reflexivity|done|vm_compute; reflexivity|vm_compute; reflexivity].
Defined.

Lemma tenant_writes_confined_witness :
  foreign_rows "other" (w_db (snd (run toy_env (OpRevokeVirtualKey "other" "x" "id4") (snd toy_key)))) =
  foreign_rows "other" (w_db (snd toy_key)) ∧
  size (d_users (w_db (snd toy_key))) = 1%nat.
Proof.
  split; [|vm_compute; reflexivity].
  apply (tenant_writes_confined toy_env (OpRevokeVirtualKey "other" "x" "id4") "other" (snd toy_key)); [reflexivity|].
  intros a b c [=].
Defined.

(** The admin's own credential and the org's. *)
Definition toy_creds : world :=
  snd (run toy_env (OpCreateCredential "" "id1" "id1" "openai" "mine" "" "sk-own" (mkModels [] []))
    (snd (run toy_env (OpCreateCredential "" "id1" "" "openai" "shared" "" "sk-org" (mkModels [] [])) toy_admin))).

Lemma resolve_credential_exact_witness :
  ∃ dc, fst (ResolveCredential toy_env "" "id1" "openai" toy_creds) = Ok (dc, "user") ∧ dc_Secret dc = "sk-own" ∧
    w_db (snd (ResolveCredential toy_env "" "id1" "openai" toy_creds)) = w_db toy_creds.
Proof.
  eexists. split_and!; [vm_compute; reflexivity|reflexivity|].
  destruct (ResolveCredential toy_env "" "id1" "openai" toy_creds) as [r w'] eqn:H.
  apply (resolve_credential_exact toy_env "" "id1" "openai" toy_creds w' r H).
Defined.

Lemma secret_roundtrip_witness :
  let created := CreateCredential toy_env "" "id1" "" "openai" "shared" "" "sk-org" (mkModels [] []) toy_admin in
  ∃ cred, fst created = Ok cred ∧ ∃ row, d_creds (w_db (snd created)) !! pc_ID cred = Some row ∧
    Decrypt toy_cipher (cr_secret row) = Some "sk-org".
Proof.
  eexists. split; [vm_compute; reflexivity|].
  edestruct (secret_roundtrip toy_env toy_cipher "sk-org" toy_admin
    (snd (CreateCredential toy_env "" "id1" "" "openai" "shared" "" "sk-org" (mkModels [] []) toy_admin)))
    as (row & Hr & Hd & _); [reflexivity|done|by intros n bs [= <-]| |by exists row].
  left. eexists "", "id1", "", "openai", "shared", "", (mkModels [] []). vm_compute. reflexivity.
Defined.

Lemma failed_accept_audited_witness :
  ∃ u id, fst (AcceptInvite toy_env toy_raw "pw2" toy_invited) = Ok (u, id) ∧
  let '(r, w2) := AcceptInvite (fail_at toy_env (10 + w_tick toy_invited) "lost") toy_raw "pw2" toy_invited in
  r = Err (Sql (Fault "lost")) ∧ relogged (w_db toy_invited) (w_db w2) ∧
  ∃ a b, al_rows (d_log (w_db w2)) = (al_rows (d_log (w_db toy_invited)) ++ [a; b])%list ∧
    ar_Action a = "invite.accepted" ∧ ar_Action b = "user.create" ∧ ar_TargetID b = Scrub (u_ID u).
Proof.
  eexists _, _. split; [vm_compute; reflexivity|].
  eapply (failed_accept_audited toy_env toy_raw "pw2" "lost" toy_invited
    (snd (AcceptInvite toy_env toy_raw "pw2" toy_invited))); [vm_compute; reflexivity|reflexivity|reflexivity].
Defined.
