(* ===== verification/Console.v ===== *)
(** * Console: src/internal/console (origin.go, security.go, auth.go, admin.go,
    invite.go, sso.go, and the router of server.go)

    The console's request chain and its handlers for accounts, sessions, keys,
    credentials and invites.  A request is what the code reads of it; headers are
    the first value of each name.  A handler runs in a state with the control-plane
    store of [CoreStore] and the three limiters of the login routes, and gives a
    response: a status, what is encoded into the body, and what happens to the
    session cookie.  The CORS middleware (chi/cors) only adds headers and is left
    out; the OIDC library's verdict on a callback is an argument. *)

From S2P Require Import Prelude GoString GoTime Float64 Net GoUrl Json ApiErr Limiter AuditId AuditLog CoreStore.
Local Open Scope string_scope.
Local Open Scope Z_scope.
Local Open Scope go_scope.

Record Request := mkRequest {
  rq_Method : string;
  rq_Path : string;
  rq_Host : string;
  rq_RemoteAddr : string;
  rq_Header : list (string * string);
  rq_Cookie : option string;
  rq_Param : string;
  rq_Body : string
}.

Fixpoint Get (h : list (string * string)) (name : string) : string :=
  match h with
  | [] => ""
  | (k, v) :: h' => if EqualFold k name then v else Get h' name
  end.

Definition header (r : Request) (name : string) : string := Get (rq_Header r) name.

(** ** origin.go *)

Record originPolicy := mkPolicy { op_allowed : list string; op_devMode : bool }.

Definition TrimSuffix (s suf : string) : string :=
  if HasSuffix s suf then take_bytes (String.length s - String.length suf) s else s.

Definition canonicalHost (scheme host : string) : string :=
  if String.eqb scheme "https" && HasSuffix host ":443" then TrimSuffix host ":443"
  else if String.eqb scheme "http" && HasSuffix host ":80" then TrimSuffix host ":80"
  else host.

Definition normalizeOrigin (raw : string) : string :=
  let raw := TrimSpace raw in
  if String.eqb raw "" || String.eqb raw "*" then ""
  else match Parse raw with
       | None => ""
       | Some u =>
           if String.eqb (u_Host u) "" then ""
           else
             let scheme := ToLower (u_Scheme u) in
             if negb (String.eqb scheme "http") && negb (String.eqb scheme "https") then ""
             else if u_User u then ""
             else scheme +:+ "://" +:+ canonicalHost scheme (ToLower (u_Host u))
       end.

Definition newOriginPolicy (origins : list string) (devMode : bool) : originPolicy :=
  mkPolicy (List.filter (fun n => negb (String.eqb n "")) (map normalizeOrigin origins)) devMode.

Definition isLocalDevOrigin (origin : string) : bool :=
  match Parse origin with
  | None => false
  | Some u =>
      if negb (String.eqb (ToLower (u_Scheme u)) "http") then false
      else existsb (String.eqb (ToLower (Hostname u))) ["localhost"; "127.0.0.1"; "::1"; "[::1]"]
  end.

Definition allows (p : originPolicy) (origin : string) : bool :=
  let origin := normalizeOrigin origin in
  if String.eqb origin "" then false
  else if existsb (fun a => String.eqb a origin) (op_allowed p) then true
  else op_devMode p && isLocalDevOrigin origin.

Fixpoint index_of (sub s : string) : option nat :=
  if HasPrefix s sub then Some 0%nat
  else match s with "" => None | String _ s' => S <$> index_of sub s' end.

Definition sameOrigin (r : Request) : bool :=
  let origin := normalizeOrigin (header r "Origin") in
  if String.eqb origin "" then false
  else
    let host := ToLower (TrimSpace (rq_Host r)) in
    if String.eqb host "" then false
    else match index_of "://" origin with
         | None => false
         | Some i =>
             let scheme := take_bytes i origin in
             String.eqb (canonicalHost scheme (drop_bytes (i + 3) origin)) (canonicalHost scheme host)
         end.

Definition permitted (p : originPolicy) (r : Request) : bool := sameOrigin r || allows p (header r "Origin").

(** [strings.ToUpper] of a method, which is a token of ASCII. *)
Definition requiresOriginCheck (method : string) : bool :=
  negb (existsb (EqualFold method) ["GET"; "HEAD"; "OPTIONS"]).

(** ** Responses and effects *)

Inductive payload :=
| PError (msg : string)
| PErrorReason (msg reason : string)
| PPublic (code : Code) (requestID : string)
| PStatus (s : string)
| PUser (u : User)
| PUsers (us : list User)
| PLoggedIn (u : User)
| PRegistered (u : User) (virtual_key : option string) (warnings : list string)
| PKey (vk : VirtualKey) (secret : string)
| PKeys (vks : list VirtualKey)
| PCred (c : ProviderCredential)
| PCreds (cs : list ProviderCredential)
| PInvite (i : Invite) (token : string)
| PInvites (l : list Invite)
| PInviteView (email role org expires : string) (valid : bool)
| PRedirect (location : string).

(** The session cookie: left alone, set to a token, or cleared. *)
Inductive cookie := KeepCookie | SetCookie (token : string) | ClearCookie.

Record response := mkResponse { rs_status : Z; rs_body : payload; rs_cookie : cookie }.

Definition reply (status : Z) (b : payload) : response := mkResponse status b KeepCookie.

Record Server := mkServer {
  sv_store : bool;
  sv_origins : originPolicy;
  sv_allowSignup : bool;
  sv_localMode : bool;
  sv_mailer : bool;
  sv_publicBaseURL : string
}.

(** An invite email handed to a goroutine. *)
Record outgoing := mkMail {
  om_recipient : string; om_body : string; om_invite : string; om_actor : string; om_org : string
}.

Record cstate := mkState {
  c_world : world;
  c_loginLim : IP.IPLimiter;
  c_registerLim : IP.IPLimiter;
  c_ssoLim : IP.IPLimiter;
  c_reloads : nat;
  c_outbox : list outgoing
}.

Definition C (A : Type) : Type := cstate → A * cstate.

#[export] Instance C_ret : MRet C := fun A a c => (a, c).
#[export] Instance C_bind : MBind C := fun A B k m c => let '(a, c') := m c in k a c'.

Definition set_world (w : world) (c : cstate) : cstate :=
  mkState w (c_loginLim c) (c_registerLim c) (c_ssoLim c) (c_reloads c) (c_outbox c).

(** A call of the store. *)
Definition call {A} (m : M A) : C (res store_err A) := fun c =>
  let '(r, w) := m (c_world c) in (r, set_world w c).

(** [reloadCredentials]: the gateway's providers are rebuilt. *)
Definition reloadCredentials : C unit := fun c =>
  (tt, mkState (c_world c) (c_loginLim c) (c_registerLim c) (c_ssoLim c) (S (c_reloads c)) (c_outbox c)).

(** ** security.go *)

(** [requestIDFrom]; [fresh] is a new UUID. *)
Definition id_byte (c : ascii) : bool := is_alpha c || is_num c || byte_of "-_." c.

Definition sanitizeRequestID (v : string) : string :=
  String.string_of_list_ascii (List.filter id_byte (String.list_ascii_of_string (take_bytes 64 v))).

Definition requestIDFrom (fresh : string) (r : Request) : string :=
  let ids := List.filter (fun v => negb (String.eqb v ""))
    (map (fun h => TrimSpace (header r h)) ["X-Request-Id"; "X-Request-ID"; "X-Correlation-Id"]) in
  match ids with v :: _ => sanitizeRequestID v | [] => fresh end.

Definition clientIP (r : Request) : string :=
  let v := header r "CF-Connecting-IP" in
  if negb (String.eqb v "") then TrimSpace v
  else
    let v := header r "X-Forwarded-For" in
    if negb (String.eqb v "") then TrimSpace (fst (cut_or v ","))
    else match SplitHostPort (rq_RemoteAddr r) with Some (host, _) => host | None => rq_RemoteAddr r end.

Section Handlers.
Context (E : env) (sv : Server).

(** A reading of the environment from a handler. *)
Definition consultC {A} (f : nat → A) : C A := fun c =>
  let n := w_tick (c_world c) in (f n, set_world (mkWorld (w_db (c_world c)) (S n)) c).

(** [resp.HTTP] with a code: the status and the public body.  No console
    middleware puts an id into the context, so an empty one is made up here. *)
Definition refuse (status : Z) (code : Code) (requestID : string) : C response :=
  if String.eqb requestID "" then
    bs ← consultC (e_random E);
    mret (reply status (PPublic code ("panic-" +:+ reqIDFallback bs)))
  else mret (reply status (PPublic code requestID)).

Inductive limited := LoginLim | RegisterLim | SSOLim.

Definition get_lim (l : limited) (c : cstate) : IP.IPLimiter :=
  match l with LoginLim => c_loginLim c | RegisterLim => c_registerLim c | SSOLim => c_ssoLim c end.

Definition set_lim (l : limited) (x : IP.IPLimiter) (c : cstate) : cstate :=
  match l with
  | LoginLim => mkState (c_world c) x (c_registerLim c) (c_ssoLim c) (c_reloads c) (c_outbox c)
  | RegisterLim => mkState (c_world c) (c_loginLim c) x (c_ssoLim c) (c_reloads c) (c_outbox c)
  | SSOLim => mkState (c_world c) (c_loginLim c) (c_registerLim c) x (c_reloads c) (c_outbox c)
  end.

Definition Allow (l : limited) (key : string) : C bool := fun c =>
  let '(ok, lim) := IP.Allow (e_now E (w_tick (c_world c))) key (get_lim l c) in
  (ok, set_lim l lim (set_world (mkWorld (w_db (c_world c)) (S (w_tick (c_world c)))) c)).

Definition ipRateLimit (routeName : string) (l : limited) (r : Request) (next : C response) : C response :=
  let ip := clientIP r in
  if String.eqb ip "" then next
  else
    ok ← Allow l (routeName +:+ ":" +:+ ip);
    match ok with
    | true => next
    | false =>
        fresh ← consultC (e_uuid E);
        refuse 429 CodeRateLimited (requestIDFrom fresh r)
    end.

Definition enforceOrigin (r : Request) (next : C response) : C response :=
  if negb (requiresOriginCheck (rq_Method r)) then next
  else if String.eqb (TrimSpace (header r "Origin")) "" then next
  else if permitted (sv_origins sv) r then next
  else mret (reply 403 (PErrorReason "cross-origin request refused"
                          "this origin is not in NEXUS_PUBLIC_WEB_ORIGINS")).

(** ** Sessions (auth.go) *)

Definition sessionTTL : Duration := 7 * 24 * Hour.

Definition console_bearer (r : Request) : string :=
  let h := header r "Authorization" in
  if (7 <? String.length h)%nat && HasPrefix h "Bearer " then drop_bytes 7 h else "".

Definition sessionTokenFrom (r : Request) : string :=
  match rq_Cookie r with
  | Some v => if String.eqb v "" then console_bearer r else v
  | None => console_bearer r
  end.

Definition withUser (r : Request) (next : option User → C response) : C response :=
  if negb (sv_store sv) then next None
  else
    let token := sessionTokenFrom r in
    if String.eqb token "" then next None
    else
      u ← call (UserBySession E token);
      match u with Ok u => next (Some u) | Err _ => next None end.

Definition requireUser (fn : User → C response) (user : option User) : C response :=
  match user with
  | Some u => fn u
  | None => refuse 401 CodeUnauthorized ""
  end.

Definition requireAdmin (fn : User → C response) : option User → C response :=
  requireUser (fun u =>
    if negb (String.eqb (u_Role u) RoleAdmin) then mret (reply 403 (PError "admin role required")) else fn u).

(** The tenant of a request: the session's, else the header's, else the default. *)
Definition orgID (r : Request) (user : option User) : string :=
  match user with
  | Some u => if String.eqb (u_OrgID u) "" then
                (let v := TrimSpace (header r "X-Org-Id") in if String.eqb v "" then DefaultOrgID else v)
              else u_OrgID u
  | None => let v := TrimSpace (header r "X-Org-Id") in if String.eqb v "" then DefaultOrgID else v
  end.

(** [requireStore]: 503 without a control plane. *)
Definition requireStore (fn : C response) : C response :=
  if sv_store sv then fn
  else mret (reply 503 (PError "control plane disabled: set NEXUS_POSTGRES_URL to enable key/credential management")).

Definition writeStoreErr (e : store_err) (msg : string) : C response :=
  match e with
  | ErrNotFound => mret (reply 404 (PError "not found"))
  | _ => mret (reply 500 (PError msg))
  end.

(** [s.audit]: the fields are scrubbed, and [Store.Audit] scrubs them again. *)
Definition server_audit (actorID org : string) (action : AuditAction) (target detail : string) : C unit :=
  if sv_store sv then
    _ ← call (audit E (Scrub actorID) (Scrub org) action (Scrub target) (Scrub detail)); mret tt
  else mret tt.

Definition st_models : store CredentialModels := fun raw old =>
  let '(ms, e) := struct_members raw in
  fill c := field "chat" (st_list "" st_string) (cm_Chat old) ms in
  fill b := field "embed" (st_list "" st_string) (cm_Embed old) ms in (mkModels c b, e).

Record loginRequest := mkLogin { lr_Email : string; lr_Password : string }.

Definition decode_login (body : string) : option loginRequest :=
  ok_or (DecodeFirst (fun raw _ =>
    let '(ms, e) := struct_members raw in
    fill m := field "email" st_string "" ms in
    fill p := field "password" st_string "" ms in (mkLogin m p, e)) (mkLogin "" "") body).

Definition invalidJSON : response := reply 400 (PError "invalid JSON").

Definition login (r : Request) (user : option User) : C response :=
  requireStore
    match decode_login (rq_Body r) with
    | None => mret invalidJSON
    | Some req =>
        a ← call (Authenticate E (orgID r user) (lr_Email req) (lr_Password req) sessionTTL);
        match a with
        | Ok (token, u) => mret (mkResponse 200 (PLoggedIn u) (SetCookie token))
        | Err ErrInvalidCredentials => mret (reply 401 (PError "invalid email or password"))
        | Err _ => mret (reply 500 (PError "login failed"))
        end
    end.

Definition minPasswordLen : nat := 8.

Definition validateEmail (email : string) : bool :=
  let email := TrimSpace email in
  match LastIndex email "@" with
  | None => false
  | Some at_ =>
      if (at_ <? 1)%nat || (String.length email - 1 <=? at_)%nat then false
      else Contains (drop_bytes (S at_) email) "."
  end.

Definition validatePassword (password : string) : bool := (minPasswordLen <=? String.length password)%nat.

Record registerRequest := mkRegister {
  rr_Email : string; rr_Password : string; rr_Provider : string; rr_ProviderName : string;
  rr_ProviderSecret : string; rr_Models : CredentialModels; rr_KeyName : string
}.

Definition decode_register (body : string) : option registerRequest :=
  ok_or (DecodeFirst (fun raw _ =>
    let '(ms, e) := struct_members raw in
    fill m := field "email" st_string "" ms in
    fill p := field "password" st_string "" ms in
    fill pr := field "provider" st_string "" ms in
    fill pn := field "provider_name" st_string "" ms in
    fill ps := field "provider_secret" st_string "" ms in
    fill mo := field "models" st_models (mkModels [] []) ms in
    fill k := field "key_name" st_string "" ms in (mkRegister m p pr pn ps mo k, e))
    (mkRegister "" "" "" "" "" (mkModels [] []) "") body).

(** The provider key and the virtual key of a registration: what went wrong is
    only reported. *)
Definition register_keys (u : User) (req : registerRequest) : C (option string * list string) :=
  if String.eqb (rr_Provider req) "" || String.eqb (rr_ProviderSecret req) "" then mret (None, [])
  else
    c ← call (CreateCredential E (u_OrgID u) (u_ID u) (u_ID u) (rr_Provider req) (rr_ProviderName req) ""
                (rr_ProviderSecret req) (rr_Models req));
    match c with
    | Err ErrNoMasterKey =>
        mret (None, ["provider key not stored: set NEXUS_MASTER_KEY to enable BYOK credentials"])
    | Err _ => mret (None, ["provider key not stored: registration failed to save credential"])
    | Ok _ =>
        _ ← reloadCredentials;
        let keyName := non_empty_or (TrimSpace (rr_KeyName req)) "default" in
        k ← call (CreateVirtualKey E (u_OrgID u) (u_ID u) (u_ID u) keyName [] 0 fzero fzero);
        match k with
        | Ok (_, plaintext) => mret (Some plaintext, [])
        | Err _ => mret (None, ["virtual key not created: add one from the console"])
        end
    end.

Definition register (r : Request) (user : option User) : C response :=
  if negb (sv_allowSignup sv) then mret (reply 403 (PError "registration disabled"))
  else match decode_register (rq_Body r) with
  | None => mret invalidJSON
  | Some req =>
      let email := TrimSpace (rr_Email req) in
      if negb (validateEmail email) then mret (reply 400 (PError "invalid email"))
      else if negb (validatePassword (rr_Password req)) then
        mret (reply 400 (PError "password must be at least 8 characters"))
      else if negb (String.eqb (rr_ProviderSecret req) "") && String.eqb (rr_Provider req) "" then
        mret (reply 400 (PError "provider is required when provider_secret is set"))
      else requireStore (
        role ← (if sv_localMode sv then
                  n ← call (CountUsers E (orgID r user));
                  mret (match n with Ok 0 => RoleAdmin | _ => RoleMember end)
                else mret RoleMember);
        u ← call (CreateUser E (orgID r user) "" email (rr_Password req) role);
        match u with
        | Err ErrEmailTaken => mret (reply 409 (PError "email already registered"))
        | Err _ => mret (reply 500 (PError "registration failed"))
        | Ok u =>
            '(key, warnings) ← register_keys u req;
            a ← call (Authenticate E (orgID r user) email (rr_Password req) sessionTTL);
            match a with
            | Err _ => mret (reply 201 (PRegistered u key warnings))
            | Ok (token, authed) => mret (mkResponse 201 (PRegistered authed key warnings) (SetCookie token))
            end
        end)
  end.

Definition logout (r : Request) (user : option User) : C response :=
  _ ← (if sv_store sv then
         let token := sessionTokenFrom r in
         if String.eqb token "" then mret tt
         else
           _ ← (match user with
                | Some u => server_audit (u_ID u) (u_OrgID u) "auth.logout.succeeded" (u_ID u) ""
                | None => mret tt
                end);
           _ ← call (Logout E token); mret tt
       else mret tt);
  mret (mkResponse 200 (PStatus "logged out") ClearCookie).

(** ** Accounts (auth.go) *)

Definition me (u : User) : C response := mret (reply 200 (PUser u)).

Definition decode_enforce (body : string) : option (option bool) :=
  ok_or (DecodeFirst (fun raw _ =>
    let '(ms, e) := struct_members raw in
    fill b := field "enforce_limits" (st_ptr false st_bool) None ms in (b, e)) None body).

Definition with_enforce (u : User) (b : bool) : User :=
  mkUser (u_ID u) (u_OrgID u) (u_Email u) (u_Role u) b (u_CreatedAt u) (u_OnboardedAt u).

Definition updateMe (r : Request) (u : User) : C response :=
  match decode_enforce (rq_Body r) with
  | None => mret invalidJSON
  | Some None => mret (reply 200 (PUser u))
  | Some (Some b) =>
      x ← call (SetEnforceLimits E (u_ID u) b);
      match x with
      | Err e => writeStoreErr e "update failed"
      | Ok _ =>
          _ ← server_audit (u_ID u) (u_OrgID u) "user.update" (u_ID u) ("enforce_limits=" +:+ if b then "true" else "false");
          mret (reply 200 (PUser (with_enforce u b)))
      end
  end.

Definition listUsers (r : Request) (u : User) : C response :=
  x ← call (ListUsers E (orgID r (Some u)));
  mret match x with Ok us => reply 200 (PUsers us) | Err _ => reply 500 (PError "query failed") end.

Record createUserRequest := mkCreateUser { cu_Email : string; cu_Password : string; cu_Role : string }.

Definition decode_create_user (body : string) : option createUserRequest :=
  ok_or (DecodeFirst (fun raw _ =>
    let '(ms, e) := struct_members raw in
    fill m := field "email" st_string "" ms in
    fill p := field "password" st_string "" ms in
    fill ro := field "role" st_string "" ms in (mkCreateUser m p ro, e)) (mkCreateUser "" "" "") body).

Definition createUser (r : Request) (caller : User) : C response :=
  match decode_create_user (rq_Body r) with
  | None => mret invalidJSON
  | Some req =>
      if String.eqb (cu_Email req) "" || String.eqb (cu_Password req) "" then
        mret (reply 400 (PError "email and password are required"))
      else
        x ← call (CreateUser E (orgID r (Some caller)) (u_ID caller) (cu_Email req) (cu_Password req) (cu_Role req));
        mret match x with
             | Ok u => reply 201 (PUser u)
             | Err ErrEmailTaken => reply 409 (PError "email already registered")
             | Err _ => reply 500 (PError "create failed")
             end
  end.

Definition deleteUser (r : Request) (caller : User) : C response :=
  x ← call (DeleteUser E (orgID r (Some caller)) (u_ID caller) (rq_Param r));
  match x with
  | Ok _ => mret (reply 200 (PStatus "deleted"))
  | Err e => writeStoreErr e "delete failed"
  end.

(** ** Virtual keys (auth.go, admin.go) *)

Definition show_keys (x : res store_err (list VirtualKey)) : response :=
  match x with Ok ks => reply 200 (PKeys ks) | Err _ => reply 500 (PError "query failed") end.

Definition listMyKeys (u : User) : C response :=
  x ← call (ListVirtualKeysForUser E (u_OrgID u) (u_ID u)); mret (show_keys x).

Definition listKeys (r : Request) (u : User) : C response :=
  requireStore (x ← call (ListVirtualKeys E (orgID r (Some u))); mret (show_keys x)).

Record createKeyRequest := mkCreateKey {
  ck_Name : string; ck_UserID : string; ck_AllowedModels : list string; ck_RPMLimit : Z;
  ck_MonthlyBudget : float64; ck_MinQuality : float64
}.

Definition decode_create_key (body : string) : option createKeyRequest :=
  ok_or (DecodeFirst (fun raw _ =>
    let '(ms, e) := struct_members raw in
    fill n := field "name" st_string "" ms in
    fill u := field "user_id" st_string "" ms in
    fill a := field "allowed_models" (st_list "" st_string) [] ms in
    fill rp := field "rpm_limit" st_int 0 ms in
    fill mb := field "monthly_budget_usd" st_float fzero ms in
    fill mq := field "min_quality_score" st_float fzero ms in (mkCreateKey n u a rp mb mq, e))
    (mkCreateKey "" "" [] 0 fzero fzero) body).

(** A key for [owner req] in [org]. *)
Definition make_key (org actor : string) (owner : createKeyRequest → string) (body : string) : C response :=
  match decode_create_key body with
  | None => mret invalidJSON
  | Some req =>
      if String.eqb (ck_Name req) "" then mret (reply 400 (PError "name is required"))
      else
        x ← call (CreateVirtualKey E org actor (owner req) (ck_Name req) (ck_AllowedModels req) (ck_RPMLimit req)
                    (ck_MonthlyBudget req) (ck_MinQuality req));
        mret match x with Ok (vk, plaintext) => reply 201 (PKey vk plaintext) | Err _ => reply 500 (PError "create failed") end
  end.

Definition createMyKey (r : Request) (u : User) : C response :=
  make_key (u_OrgID u) (u_ID u) (fun _ => u_ID u) (rq_Body r).

Definition createKey (r : Request) (u : User) : C response :=
  requireStore (make_key (orgID r (Some u)) (u_ID u) ck_UserID (rq_Body r)).

Definition revoked_reply (x : res store_err unit) : C response :=
  match x with
  | Ok _ => mret (reply 200 (PStatus "revoked"))
  | Err e => writeStoreErr e "revoke failed"
  end.

(** Only a key that is listed for the caller is revoked. *)
Definition revokeMyKey (r : Request) (u : User) : C response :=
  keys ← call (ListVirtualKeysForUser E (u_OrgID u) (u_ID u));
  match keys with
  | Err e => writeStoreErr e "revoke failed"
  | Ok keys =>
      if existsb (fun k => String.eqb (vk_ID k) (rq_Param r)) keys then
        x ← call (RevokeVirtualKey E (u_OrgID u) (u_ID u) (rq_Param r)); revoked_reply x
      else mret (reply 404 (PError "not found"))
  end.

Definition revokeKey (r : Request) (u : User) : C response :=
  requireStore (x ← call (RevokeVirtualKey E (orgID r (Some u)) (u_ID u) (rq_Param r)); revoked_reply x).

(** ** Credentials (auth.go, admin.go) *)

Definition show_creds (x : res store_err (list ProviderCredential)) : response :=
  match x with Ok cs => reply 200 (PCreds cs) | Err _ => reply 500 (PError "query failed") end.

Definition listMyCredentials (u : User) : C response :=
  x ← call (ListCredentialsForUser E (u_OrgID u) (u_ID u)); mret (show_creds x).

Definition listCredentials (r : Request) (u : User) : C response :=
  requireStore (x ← call (ListCredentials E (orgID r (Some u))); mret (show_creds x)).

Record createCredentialRequest := mkCreateCred {
  cc_Provider : string; cc_Name : string; cc_BaseURL : string; cc_Secret : string; cc_Models : CredentialModels
}.

Definition decode_create_cred (body : string) : option createCredentialRequest :=
  ok_or (DecodeFirst (fun raw _ =>
    let '(ms, e) := struct_members raw in
    fill p := field "provider" st_string "" ms in
    fill n := field "name" st_string "" ms in
    fill b := field "base_url" st_string "" ms in
    fill s := field "secret" st_string "" ms in
    fill m := field "models" st_models (mkModels [] []) ms in (mkCreateCred p n b s m, e))
    (mkCreateCred "" "" "" "" (mkModels [] [])) body).

Definition no_master_key (hint verb : string) : response :=
  reply 503 (PError ("credential encryption disabled: set NEXUS_MASTER_KEY " +:+ hint +:+ "to " +:+ verb +:+ " provider keys")).

Definition key_hint : string := "(32-byte base64/hex) ".

(** The caller's own credential: afterwards the providers are reloaded and the
    caller counts as onboarded, a failure of which is only logged. *)
Definition createMyCredential (r : Request) (u : User) : C response :=
  match decode_create_cred (rq_Body r) with
  | None => mret invalidJSON
  | Some req =>
      if String.eqb (cc_Provider req) "" || String.eqb (cc_Secret req) "" then
        mret (reply 400 (PError "provider and secret are required"))
      else
        x ← call (CreateCredential E (u_OrgID u) (u_ID u) (u_ID u) (cc_Provider req) (cc_Name req) (cc_BaseURL req)
                    (cc_Secret req) (cc_Models req));
        match x with
        | Err ErrNoMasterKey => mret (no_master_key "" "store")
        | Err _ => mret (reply 500 (PError "create failed"))
        | Ok c =>
            _ ← reloadCredentials;
            _ ← call (MarkOnboarded E (u_ID u));
            mret (reply 201 (PCred c))
        end
  end.

(** The org's credential; nothing is reloaded. *)
Definition createCredential (r : Request) (u : User) : C response :=
  requireStore
    match decode_create_cred (rq_Body r) with
    | None => mret invalidJSON
    | Some req =>
        if String.eqb (cc_Provider req) "" || String.eqb (cc_Secret req) "" then
          mret (reply 400 (PError "provider and secret are required"))
        else
          x ← call (CreateCredential E (orgID r (Some u)) (u_ID u) "" (cc_Provider req) (cc_Name req) (cc_BaseURL req)
                      (cc_Secret req) (cc_Models req));
          mret match x with
               | Err ErrNoMasterKey => no_master_key key_hint "store"
               | Err _ => reply 500 (PError "create failed")
               | Ok c => reply 201 (PCred c)
               end
    end.

Definition decode_secret (body : string) : option string :=
  ok_or (DecodeFirst (fun raw _ =>
    let '(ms, e) := struct_members raw in
    fill s := field "secret" st_string "" ms in (s, e)) "" body).

Definition rotate_with (hint : string) (rotate : string → M ProviderCredential) (body : string) : C response :=
  match decode_secret body with
  | None => mret invalidJSON
  | Some secret =>
      if String.eqb secret "" then mret (reply 400 (PError "secret is required"))
      else
        x ← call (rotate secret);
        match x with
        | Err ErrNoMasterKey => mret (no_master_key hint "rotate")
        | Err e => writeStoreErr e "rotate failed"
        | Ok c => _ ← reloadCredentials; mret (reply 200 (PCred c))
        end
  end.

Definition rotateMyCredential (r : Request) (u : User) : C response :=
  rotate_with "" (RotateUserCredential E (u_OrgID u) (u_ID u) (rq_Param r)) (rq_Body r).

Definition rotateCredential (r : Request) (u : User) : C response :=
  requireStore (rotate_with key_hint (RotateCredential E (orgID r (Some u)) (u_ID u) (rq_Param r)) (rq_Body r)).

Definition deleted_reply (x : res store_err unit) : C response :=
  match x with
  | Ok _ => _ ← reloadCredentials; mret (reply 200 (PStatus "deleted"))
  | Err e => writeStoreErr e "delete failed"
  end.

Definition deleteMyCredential (r : Request) (u : User) : C response :=
  x ← call (DeleteUserCredential E (u_OrgID u) (u_ID u) (rq_Param r)); deleted_reply x.

Definition deleteCredential (r : Request) (u : User) : C response :=
  requireStore (x ← call (DeleteCredential E (orgID r (Some u)) (u_ID u) (rq_Param r)); deleted_reply x).

(** ** Invites (invite.go) *)

Definition no_invites : response :=
  reply 503 (PError "control plane disabled: set NEXUS_POSTGRES_URL to enable invites").

Definition decode_invite (body : string) : option (string * string) :=
  ok_or (DecodeFirst (fun raw _ =>
    let '(ms, e) := struct_members raw in
    fill m := field "email" st_string "" ms in
    fill ro := field "role" st_string "" ms in ((m, ro), e)) ("", "") body).

Definition post_mail (m : outgoing) : C unit := fun c =>
  (tt, mkState (c_world c) (c_loginLim c) (c_registerLim c) (c_ssoLim c) (c_reloads c) (c_outbox c ++ [m])%list).

(** [mail_ok] is [mail.ParseAddress] without its value, [render] the template. *)
Definition createInvite (mail_ok : string → bool) (render : string → string → string → res string string)
    (r : Request) (caller : User) : C response :=
  if negb (sv_store sv) then mret no_invites
  else match decode_invite (rq_Body r) with
  | None => mret invalidJSON
  | Some (email, role) =>
      let email := TrimSpace email in
      if negb (mail_ok email) then mret (reply 400 (PError "email is not a valid address"))
      else
        let role := non_empty_or (TrimSpace role) RoleMember in
        if negb (String.eqb role RoleAdmin) && negb (String.eqb role RoleMember) then
          mret (reply 400 (PError "role must be admin or member"))
        else
          let org := orgID r (Some caller) in
          x ← call (CreateInvite E org (u_ID caller) email role 0 (sv_publicBaseURL sv));
          match x with
          | Err ErrEmailTaken => mret (reply 409 (PError "an invite for this email already exists in this org"))
          | Err _ => mret (reply 500 (PError "create failed"))
          | Ok (i, token) =>
              _ ← (if sv_mailer sv && negb (String.eqb (iv_URL i) "") then
                     match render (iv_URL i) (u_Email caller) role with
                     | Err msg =>
                         _ ← call (audit E (u_ID caller) org "invite.email.template_failed" (iv_ID i) msg); mret tt
                     | Ok body => post_mail (mkMail email body (iv_ID i) (u_ID caller) org)
                     end
                   else mret tt);
              mret (reply 201 (PInvite i token))
          end
  end.

(** [deliverInvite], when its goroutine runs; [sent] is the transport's answer. *)
Definition deliverInvite (m : outgoing) (sent : res string string) : C unit :=
  let '(action, detail) :=
    match sent with
    | Err err => ("invite.email.failed", "subject=You're invited to Nexus; err=" +:+ err)
    | Ok msgID => ("invite.email.sent", "subject=You're invited to Nexus; msg=" +:+ msgID)
    end in
  _ ← call (audit E (om_actor m) (om_org m) action (om_invite m) detail); mret tt.

Definition listInvites (r : Request) (u : User) : C response :=
  if negb (sv_store sv) then mret no_invites
  else
    x ← call (ListInvites E (orgID r (Some u)));
    mret match x with Ok l => reply 200 (PInvites l) | Err _ => reply 500 (PError "list failed") end.

Definition revokeInvite (r : Request) (caller : User) : C response :=
  if negb (sv_store sv) then mret no_invites
  else if String.eqb (rq_Param r) "" then mret (reply 400 (PError "missing invite id"))
  else
    x ← call (RevokeInvite E (orgID r (Some caller)) (u_ID caller) (rq_Param r));
    match x with
    | Ok _ => mret (reply 200 (PStatus "revoked"))
    | Err ErrNotFound => refuse 404 CodeNotFound ""
    | Err _ => refuse 500 CodeInternalError ""
    end.

Definition lookupInvite (r : Request) (_ : option User) : C response :=
  if negb (sv_store sv) then mret no_invites
  else
    let raw := TrimSpace (rq_Param r) in
    if String.eqb raw "" then mret (reply 400 (PError "missing invite token"))
    else
      x ← call (LookupInvite E raw);
      mret match x with
           | Ok i => reply 200 (PInviteView (iv_Email i) (iv_Role i) (iv_OrgID i) (RFC3339 (iv_ExpiresAt i))
                                  (is_none (iv_RevokedAt i) && is_none (iv_AcceptedAt i)))
           | Err ErrInviteNotFound => reply 404 (PErrorReason "invite not found" "revoked, expired, or never issued")
           | Err _ => reply 500 (PError "lookup failed")
           end.

Definition decode_password (body : string) : option string :=
  ok_or (DecodeFirst (fun raw _ =>
    let '(ms, e) := struct_members raw in
    fill p := field "password" st_string "" ms in (p, e)) "" body).

Definition acceptInvite (r : Request) (_ : option User) : C response :=
  if negb (sv_store sv) then mret no_invites
  else
    let raw := TrimSpace (rq_Param r) in
    if String.eqb raw "" then mret (reply 400 (PError "missing invite token"))
    else match decode_password (rq_Body r) with
    | None => mret invalidJSON
    | Some password =>
        let pw := TrimSpace password in
        if String.eqb pw "" then mret (reply 400 (PError "password is required"))
        else if (String.length pw <? 8)%nat then mret (reply 400 (PError "password must be at least 8 characters"))
        else
          x ← call (AcceptInvite E raw pw);
          mret match x with
               | Ok (u, _) => reply 200 (PUser u)
               | Err ErrInviteNotFound => reply 404 (PErrorReason "invite not found" "revoked or never issued")
               | Err ErrInviteConsumed =>
                   reply 410 (PErrorReason "invite already used"
                                "this invite has been accepted; sign in with your account instead")
               | Err ErrInviteExpired => reply 410 (PErrorReason "invite expired" "ask an administrator for a new invite")
               | Err ErrEmailTaken => reply 409 (PError "an account with this email already exists")
               | Err _ => reply 500 (PError "accept failed")
               end
    end.

(** ** Single sign-on (sso.go) *)

(** What the identity provider and the OIDC library make of a callback: the
    claims of a verified token, after the look-up of the user information when the
    token has no email, or the title of the error page. *)
Record claims := mkClaims { cl_Sub : string; cl_Email : string; cl_EmailVerified : bool; cl_Issuer : string }.

Definition sso_page (title : string) : response := reply 400 (PError title).

Definition trim_slash (s : string) : string :=
  String.string_of_list_ascii (reverse (trim_slashes (reverse (String.list_ascii_of_string s)))).

(** [path] is the path of the parsed issuer without its slashes. *)
Definition issuerProvider (path : string → string) (issuer : string) : string :=
  let issuers := trim_slash issuer in
  match Parse issuers with
  | Some u =>
      if String.eqb (u_Host u) "" then issuers
      else
        let host := fst (cut_or (u_Host u) ":") in
        let p := path issuers in
        if String.eqb p "" then host else host +:+ ":" +:+ p
  | None => issuers
  end.

(** [base64.RawURLEncoding]: six bits a character, the last group filled with
    zeros. *)
Definition url_alphabet : list ascii :=
  String.list_ascii_of_string "ABCDEFGHIJKLMNOPQRSTUVWXYZabcdefghijklmnopqrstuvwxyz0123456789-_".

Fixpoint base64_groups (bits : list bool) : string :=
  match bits with
  | [] => ""
  | b5 :: l =>
      let g := take 5 l in
      let n := foldl (fun n (b : bool) => 2 * n + (if b then 1 else 0)) 0 (b5 :: g) * 2 ^ (5 - Z.of_nat (length g)) in
      String (default "A"%char (url_alphabet !! Z.to_nat n))
        match l with _ :: _ :: _ :: _ :: _ :: rest => base64_groups rest | _ => "" end
  end.

Definition randomPasswordPlaceholder (random : option (list Z)) : option string :=
  (fun bs => base64_groups (concat (map byte_bits bs))) <$> random.

Definition sso_identity (org provider subject : string) (x : user_row) : bool :=
  String.eqb (u_OrgID (ur_user x)) org &&
  match ur_sso x with Some (p, s, _) => String.eqb p provider && String.eqb s subject | None => false end.

Definition findBySSOIdentity (org provider subject : string) : M User :=
  x ← exec E (select (fun _ d => head (rows_where (sso_identity org provider subject) (d_users d))));
  x ← of_opt ErrNotFound x;
  mret (mkUser (u_ID (ur_user x)) (u_OrgID (ur_user x)) (u_Email (ur_user x)) (u_Role (ur_user x))
          (u_EnforceLimits (ur_user x)) (u_CreatedAt (ur_user x)) None).

(** The zero user [GetUser] leaves when its error is dropped. *)
Definition no_user : User := mkUser "" "" "" "" false zero_time None.

Definition value_or {A} (dflt : A) (x : res store_err A) : A := match x with Ok a => a | Err _ => dflt end.

Definition ssoLinkOrCreate (org email provider subject issuer : string) : C (res store_err User) :=
  if negb (sv_store sv) then mret (Err (Failed "control plane disabled"))
  else
    f ← call (findBySSOIdentity org provider subject);
    match f with
    | Ok u => mret (Ok u)
    | Err _ =>
        g ← call (GetUserByEmail E org email);
        match g with
        | Ok u =>
            l ← call (LinkSSOIdentity E (u_ID u) provider subject issuer);
            match l with
            | Err _ => mret (Err (Failed "link existing user"))
            | Ok _ => u' ← call (GetUser E (u_ID u)); mret (Ok (value_or no_user u'))
            end
        | Err _ =>
            secret ← consultC (fun n => randomPasswordPlaceholder (e_random E n));
            match secret with
            | None => mret (Err (Failed "random"))
            | Some randomSecret =>
                n ← call (CreateUser E org "" email randomSecret RoleMember);
                match n with
                | Err e => mret (Err e)
                | Ok u =>
                    _ ← call (LinkSSOIdentity E (u_ID u) provider subject issuer);
                    u' ← call (GetUser E (u_ID u)); mret (Ok (value_or no_user u'))
                end
            end
        end
    end.

(** [ssoCallback]: [cookie_state] is the state cookie, [query] the parameters,
    [exchange] what the exchange of the code and the verification give. *)
Definition ssoCallback (path : string → string) (cookie_state : string) (query : list (string * string))
    (exchange : string → res string claims) (r : Request) (user : option User) : C response :=
  let q name := Get query name in
  if negb (String.eqb (q "error") "") then mret (sso_page ("SSO login failed: " +:+ q "error"))
  else if String.eqb cookie_state "" || String.eqb (q "state") "" || negb (String.eqb cookie_state (q "state")) then
    mret (sso_page "Invalid SSO state")
  else if String.eqb (q "code") "" then mret (sso_page "Missing authorization code")
  else match exchange (q "code") with
  | Err title => mret (sso_page title)
  | Ok cl =>
      if String.eqb (cl_Email cl) "" then mret (sso_page "SSO did not return an email")
      else if negb (cl_EmailVerified cl) then mret (sso_page "Email not verified at IdP")
      else
        let org := orgID r user in
        let email := TrimSpace (ToLower (cl_Email cl)) in
        if String.eqb (cl_Sub cl) "" then mret (sso_page "SSO did not return a subject")
        else
          x ← ssoLinkOrCreate org email (issuerProvider path (cl_Issuer cl)) (cl_Sub cl) (cl_Issuer cl);
          match x with
          | Err _ => mret (sso_page "SSO provisioning failed")
          | Ok u =>
              _ ← server_audit (u_ID u) org "sso.callback.succeeded" (u_ID u) email;
              t ← call (CreateSession E (u_ID u) sessionTTL);
              match t with
              | Err _ => mret (sso_page "Could not create session")
              | Ok token => mret (mkResponse 302 (PRedirect "/") (SetCookie token))
              end
          end
  end.
End Handlers.

(** ** The router (server.go, Mux) *)

Inductive guard := Public | UserOnly | AdminOnly.

Record route := mkRoute {
  rt_method : string; rt_pattern : string; rt_guard : guard; rt_limit : option (string * limited)
}.

Definition pub (m p : string) : route := mkRoute m p Public None.
Definition usr (m p : string) : route := mkRoute m p UserOnly None.
Definition adm (m p : string) : route := mkRoute m p AdminOnly None.

(** The options that add or open routes. *)
Record wiring := mkWiring {
  wi_collector : bool; wi_tester : bool; wi_firer : bool; wi_pluginKeys : bool; wi_publicDocs : bool
}.

Definition api_routes (wi : wiring) : list route := [
  usr "GET" "/traces/dashboard"; usr "GET" "/traces/series"; usr "GET" "/traces/{id}/export"; usr "GET" "/traces/{id}";
  usr "GET" "/traces"; usr "GET" "/gateway/capabilities"; adm "GET" "/ops/readiness"; usr "GET" "/turns";
  usr "GET" "/stats"; usr "GET" "/stats/providers"; adm "GET" "/stats/pricing-drift"; usr "GET" "/routing";
  usr "GET" "/evals"; adm "GET" "/eval/config"; adm "PATCH" "/eval/config"; adm "GET" "/gateway/config";
  adm "PATCH" "/gateway/config"; usr "GET" "/live"; usr "GET" "/live/mcp";
  usr "GET" "/mcp-logs/"; usr "GET" "/mcp-logs/filterdata"; usr "GET" "/mcp-logs/stats"; usr "GET" "/mcp-logs/{id}";
  adm "GET" "/mcp/servers/"; adm "POST" "/mcp/servers/"; adm "GET" "/mcp/servers/{id}"; adm "PATCH" "/mcp/servers/{id}";
  adm "DELETE" "/mcp/servers/{id}"; adm "POST" "/mcp/servers/{id}/reconnect"; adm "POST" "/mcp/servers/{id}/test";
  adm "GET" "/mcp/settings"; adm "PATCH" "/mcp/settings";
  pub "GET" "/auth/config";
  mkRoute "POST" "/auth/login" Public (Some ("login", LoginLim));
  mkRoute "POST" "/auth/register" Public (Some ("register", RegisterLim));
  pub "POST" "/auth/logout";
  mkRoute "GET" "/auth/sso/login" Public (Some ("sso-login", SSOLim));
  mkRoute "GET" "/auth/sso/callback" Public (Some ("sso-callback", SSOLim));
  usr "GET" "/ui/observability"; usr "GET" "/me"; usr "PATCH" "/me"; usr "GET" "/me/stats"; usr "GET" "/me/traces";
  usr "GET" "/me/turns"; usr "GET" "/me/quality"; usr "GET" "/me/spend/summary"; usr "GET" "/me/spend/daily";
  usr "GET" "/me/spend/daily/{day}/breakdown"; usr "GET" "/me/keys"; usr "POST" "/me/keys"; usr "DELETE" "/me/keys/{id}";
  usr "GET" "/me/credentials"; usr "POST" "/me/credentials/preflight"; usr "POST" "/me/credentials";
  usr "POST" "/me/credentials/{id}/rotate"; usr "DELETE" "/me/credentials/{id}"; usr "GET" "/me/playground/catalog";
  usr "GET" "/eval/profiles/"; adm "POST" "/eval/profiles/"; usr "PATCH" "/eval/profiles/{id}";
  usr "DELETE" "/eval/profiles/{id}";
  adm "GET" "/eval/plugins/"; adm "POST" "/eval/plugins/"; adm "PATCH" "/eval/plugins/{id}";
  adm "DELETE" "/eval/plugins/{id}"] ++
  (if wi_collector wi then [pub "POST" "/eval/plugins/{name}/webhook"] else []) ++
  (if wi_tester wi then [adm "POST" "/eval/plugins/{name}/test"] else []) ++
  (if wi_firer wi then [adm "POST" "/eval/plugins/{name}/fire"] else []) ++
  [adm "POST" "/eval/plugins/{name}/automation"] ++
  (if wi_pluginKeys wi then [adm "GET" "/eval/plugins/{name}/keys"; adm "PUT" "/eval/plugins/{name}/keys";
     adm "DELETE" "/eval/plugins/{name}/keys"] else []) ++ [
  adm "GET" "/eval/benchmarks/"; adm "POST" "/eval/benchmarks/"; adm "GET" "/eval/benchmarks/schedules/";
  adm "POST" "/eval/benchmarks/schedules/"; adm "GET" "/eval/benchmarks/schedules/{id}";
  adm "DELETE" "/eval/benchmarks/schedules/{id}"; adm "POST" "/eval/benchmarks/schedules/{id}/pause";
  adm "POST" "/eval/benchmarks/schedules/{id}/resume"; adm "POST" "/eval/benchmarks/validate";
  adm "POST" "/eval/benchmarks/push-report"; adm "GET" "/eval/benchmarks/push-report"; adm "GET" "/eval/benchmarks/models";
  adm "POST" "/eval/benchmarks/refresh"; adm "GET" "/eval/benchmarks/credential"; adm "PUT" "/eval/benchmarks/credential";
  adm "DELETE" "/eval/benchmarks/credential"; adm "GET" "/eval/benchmarks/{id}"; adm "DELETE" "/eval/benchmarks/{id}";
  adm "POST" "/eval/benchmarks/{id}/cancel"; adm "GET" "/eval/benchmarks/{id}/logs";
  adm "GET" "/users"; adm "POST" "/users"; adm "DELETE" "/users/{id}"; adm "GET" "/users/quality";
  adm "GET" "/users/{id}/spend/summary"; adm "GET" "/users/{id}/spend/daily";
  adm "GET" "/users/{id}/spend/daily/{day}/breakdown"; adm "GET" "/audit";
  adm "GET" "/invites"; adm "POST" "/invites"; adm "DELETE" "/invites/{id}";
  pub "GET" "/invite/{token}"; pub "POST" "/invite/{token}/accept";
  adm "GET" "/eval/benchmarks/quality"; adm "GET" "/eval/benchmarks/leaderboard"; adm "POST" "/eval/benchmarks/quality";
  adm "GET" "/eval/benchmarks/{model}/history";
  adm "GET" "/keys"; adm "POST" "/keys"; adm "DELETE" "/keys/{id}"; adm "GET" "/credentials"; adm "POST" "/credentials";
  adm "POST" "/credentials/{id}/rotate"; adm "DELETE" "/credentials/{id}";
  if wi_publicDocs wi then pub "GET" "/docs/*" else usr "GET" "/docs/*"].

(** What the router serves outside /api; [proxy] tells whether the gateway's routes
    are forwarded, [*] stands for any method. *)
Definition root_routes (proxy : bool) : list route :=
  [pub "GET" "/healthz"; pub "GET" "/readyz"] ++
  (if proxy then [pub "*" "/v1"; pub "*" "/v1/*"] else []) ++ [pub "*" "/*"].

Definition under (prefix : string) (rt : route) : route :=
  mkRoute (rt_method rt) (prefix +:+ rt_pattern rt) (rt_guard rt) (rt_limit rt).

(** Every route of [Mux]. *)
Definition mux_routes (wi : wiring) (proxy : bool) : list route :=
  (map (under "/api") (api_routes wi) ++ root_routes proxy)%list.

(** A route's middleware around its handler: [open] for a public route, [fn]
    behind the guard. *)
Definition serve (E : env) (sv : Server) (rt : route) (open : Request → option User → C response)
    (fn : Request → User → C response) (r : Request) : C response :=
  enforceOrigin sv r (withUser E sv r (fun user =>
    let inner :=
      match rt_guard rt with
      | Public => open r user
      | UserOnly => requireUser E (fn r) user
      | AdminOnly => requireAdmin E (fn r) user
      end in
    match rt_limit rt with
    | Some (name, l) => ipRateLimit E name l r inner
    | None => inner
    end)).
