(* ===== verification/ConsoleProps.v ===== *)
(** * ConsoleProps: who may do what through the console

    The origin gate, the guards in front of the handlers, what administrators and
    members can change, the login limiter, and what invites and registration let
    a caller do. *)

From stdpp Require Import pretty.
From S2P Require Import Prelude GoString GoTime Float64 GoSort Net GoUrl Json ApiErr Limiter AuditId AuditLog CoreStore.
From S2P Require Import CoreProps Console.
Local Open Scope string_scope.
Local Open Scope Z_scope.

(** ** The origin gate *)

(** The web origin a text names: scheme and host, the port dropped when it is the
    scheme's own. *)
Definition origin_of (raw : string) : option (string * string) :=
  let raw := TrimSpace raw in
  if String.eqb raw "" || String.eqb raw "*" then None
  else match Parse raw with
       | None => None
       | Some u =>
           let scheme := ToLower (u_Scheme u) in
           if String.eqb (u_Host u) "" || u_User u ||
              (negb (String.eqb scheme "http") && negb (String.eqb scheme "https")) then None
           else Some (scheme, canonicalHost scheme (ToLower (u_Host u)))
       end.

Definition text_of (o : string * string) : string := fst o +:+ "://" +:+ snd o.

Lemma normalizeOrigin_text raw : normalizeOrigin raw = match origin_of raw with Some o => text_of o | None => "" end.
Proof.
  unfold normalizeOrigin, origin_of. destruct (_ || _); [done|]. destruct (Parse _) as [u|]; [|done].
  destruct (String.eqb (u_Host u) ""); [done|]. cbn [orb]. destruct (_ && _) eqn:E; [by rewrite orb_true_r|].
  destruct (u_User u); done.
Qed.

Lemma origin_scheme raw scheme host : origin_of raw = Some (scheme, host) → scheme = "http" ∨ scheme = "https".
Proof.
  unfold origin_of. destruct (_ || _); [done|]. destruct (Parse _) as [u|]; [|done].
  destruct (_ || _ || _) eqn:E; [done|]. intros [= <- _]. apply orb_false_elim in E as [_ E].
  destruct (String.eqb_spec (ToLower (u_Scheme u)) "http") as [->|]; [by left|].
  destruct (String.eqb_spec (ToLower (u_Scheme u)) "https") as [->|]; [by right|done].
Qed.

Lemma text_of_inj s h s' h' :
  (s = "http" ∨ s = "https") → (s' = "http" ∨ s' = "https") → text_of (s, h) = text_of (s', h') → s = s' ∧ h = h'.
Proof. intros [->| ->] [->| ->]; cbn; intros [= ]; try done; by subst. Qed.

Lemma text_of_split s h : (s = "http" ∨ s = "https") →
  index_of "://" (text_of (s, h)) = Some (String.length s) ∧
  take_bytes (String.length s) (text_of (s, h)) = s ∧ drop_bytes (String.length s + 3) (text_of (s, h)) = h.
Proof. intros [->| ->]; cbn; by destruct h. Qed.

Lemma text_of_not_empty s h : (s = "http" ∨ s = "https") → String.eqb (text_of (s, h)) "" = false.
Proof. by intros [->| ->]. Qed.

Lemma allowed_spec origins dev o :
  (∃ s h, o = (s, h) ∧ (s = "http" ∨ s = "https")) →
  existsb (fun a => String.eqb a (text_of o)) (op_allowed (newOriginPolicy origins dev)) = true ↔
  ∃ raw, raw ∈ origins ∧ origin_of raw = Some o.
Proof.
  intros (s & h & -> & Hs). rewrite existsb_exists. cbn [op_allowed newOriginPolicy]. split.
  - intros (a & Ha & E%String.eqb_eq). apply filter_In in Ha as [Ha _]. apply in_map_iff in Ha as (raw & En & Hin).
    exists raw. split; [by apply list_elem_of_In|]. rewrite normalizeOrigin_text in En.
    destruct (origin_of raw) as [[s' h']|] eqn:Er; [|rewrite <- En in E; by destruct Hs as [->| ->]].
    f_equal. assert (text_of (s', h') = text_of (s, h)) as Et by congruence.
    apply text_of_inj in Et as [-> ->]; [done|by eapply origin_scheme|done].
  - intros (raw & Hin & Er). exists (text_of (s, h)). split; [|apply String.eqb_refl]. apply filter_In. split.
    + apply in_map_iff. exists raw. split; [by rewrite normalizeOrigin_text, Er|by apply list_elem_of_In].
    + by rewrite text_of_not_empty.
Qed.

(** [C6] Which cross-site requests reach a handler.  A request that may change state
    and names an origin goes on exactly when that origin, as scheme and host, is
    the one the request was sent to, or one of the configured ones, or, in the
    development mode, a local http origin; otherwise the answer is 403 and nothing
    happens.  No prefix, suffix, port or user part of another origin passes. *)
Theorem origin_gate_iff (origins : list string) (dev : bool) (sv : Server) (r : Request) (next : C response)
    (c : cstate) :
  sv_origins sv = newOriginPolicy origins dev → requiresOriginCheck (rq_Method r) = true →
  TrimSpace (header r "Origin") ≠ "" →
  let passes := ∃ scheme host, origin_of (header r "Origin") = Some (scheme, host) ∧
    (ToLower (TrimSpace (rq_Host r)) ≠ "" ∧ canonicalHost scheme host = canonicalHost scheme (ToLower (TrimSpace (rq_Host r))) ∨
     (∃ raw, raw ∈ origins ∧ origin_of raw = Some (scheme, host)) ∨
     dev = true ∧ isLocalDevOrigin (text_of (scheme, host)) = true) in
  (passes → enforceOrigin sv r next c = next c) ∧
  (¬ passes → rs_status (fst (enforceOrigin sv r next c)) = 403 ∧ snd (enforceOrigin sv r next c) = c).
Proof.
  intros Ho Hm Hne. cbn zeta. unfold enforceOrigin. rewrite Hm. cbn [negb].
  apply String.eqb_neq in Hne. rewrite Hne, Ho.
  assert (permitted (newOriginPolicy origins dev) r = true ↔
    ∃ scheme host, origin_of (header r "Origin") = Some (scheme, host) ∧
    (ToLower (TrimSpace (rq_Host r)) ≠ "" ∧ canonicalHost scheme host = canonicalHost scheme (ToLower (TrimSpace (rq_Host r))) ∨
     (∃ raw, raw ∈ origins ∧ origin_of raw = Some (scheme, host)) ∨
     dev = true ∧ isLocalDevOrigin (text_of (scheme, host)) = true)) as Hp.
  2: { destruct (permitted _ r) eqn:Ep; split; try done; intros H; [by destruct H; apply Hp|by apply Hp in H]. }
  unfold permitted, sameOrigin, allows. rewrite normalizeOrigin_text.
  destruct (origin_of (header r "Origin")) as [[s h]|] eqn:Eo.
  2: { cbn. split; [done|]. by intros (? & ? & [=] & _). }
  pose proof (origin_scheme _ _ _ Eo) as Hs. rewrite text_of_not_empty by done.
  destruct (text_of_split s h Hs) as (-> & -> & ->).
  rewrite orb_true_iff. split.
  - intros [H|H]; exists s, h; (split; [done|]).
    + left. destruct (String.eqb_spec (ToLower (TrimSpace (rq_Host r))) ""); [done|]. split; [done|]. by apply String.eqb_eq.
    + right. destruct (existsb _ _) eqn:Ex; [left; apply (allowed_spec origins dev); eauto|right]. by apply andb_prop in H.
  - intros (s' & h' & [= <- <-] & [[Hh Hc]|[Ha|[Hd Hl]]]).
    + left. apply String.eqb_neq in Hh. rewrite Hh. by apply String.eqb_eq.
    + right. apply (allowed_spec origins dev) in Ha; [|by eauto]. by rewrite Ha.
    + right. rewrite Hd, Hl. by destruct (existsb _ _).
Qed.

(** ** Guards *)

(** The routes that need no session, by method and path. *)
Definition public_routes (wi : wiring) (proxy : bool) : list (string * string) :=
  [("GET", "/healthz"); ("GET", "/readyz"); ("*", "/*");
   ("GET", "/api/auth/config"); ("POST", "/api/auth/login"); ("POST", "/api/auth/register"); ("POST", "/api/auth/logout");
   ("GET", "/api/auth/sso/login"); ("GET", "/api/auth/sso/callback");
   ("GET", "/api/invite/{token}"); ("POST", "/api/invite/{token}/accept")] ++
  (if wi_collector wi then [("POST", "/api/eval/plugins/{name}/webhook")] else []) ++
  (if wi_publicDocs wi then [("GET", "/api/docs/*")] else []) ++
  (if proxy then [("*", "/v1"); ("*", "/v1/*")] else []).

#[export] Instance guard_eq_dec : EqDecision guard.
Proof. solve_decision. Defined.

Definition named (rt : route) : string * string := (rt_method rt, rt_pattern rt).

Lemma mux_public_table wi proxy :
  Forall (fun rt => rt_guard rt = Public ↔ named rt ∈ public_routes wi proxy) (mux_routes wi proxy).
Proof.
  apply (bool_decide_unpack _). destruct wi as [[] [] [] [] []], proxy; vm_compute; exact I.
Qed.

Lemma route_public_iff wi proxy rt :
  rt ∈ mux_routes wi proxy → rt_guard rt = Public ↔ named rt ∈ public_routes wi proxy.
Proof. apply (proj1 (Forall_forall _ _) (mux_public_table wi proxy)). Qed.

(** Nothing was done: the tables, the providers and the outbox are as before. *)
Definition idle (c c' : cstate) : Prop :=
  w_db (c_world c') = w_db (c_world c) ∧ c_reloads c' = c_reloads c ∧ c_outbox c' = c_outbox c.

Lemma idle_refl c : idle c c.
Proof. done. Qed.

(** A member of the tables presents this token at some time. *)
Definition logged_in (E : env) (r : Request) (d : db) (u : User) : Prop :=
  ∃ t, session_user (HashKey E (sessionTokenFrom r)) t d = Some u.

Lemma refuse_idle E status code rid c : idle c (snd (refuse E status code rid c)) ∧ rs_status (fst (refuse E status code rid c)) = status.
Proof. unfold refuse. by destruct (String.eqb rid ""). Qed.

Lemma withUser_inv E sv r next c resp c' :
  withUser E sv r next c = (resp, c') →
  ∃ user c1, idle c c1 ∧ next user c1 = (resp, c') ∧ (∀ u, user = Some u → logged_in E r (w_db (c_world c)) u).
Proof.
  unfold withUser. destruct (sv_store sv); cbn [negb]; [|intros H; by exists None, c].
  destruct (String.eqb _ ""); [intros H; by exists None, c|].
  unfold mbind at 1, C_bind, call. destruct (UserBySession E _ _) as [x w] eqn:Hu. unfold UserBySession in Hu. 
  intros H. exists (match x with Ok u => Some u | Err _ => None end), (set_world w c).
  run_cases Hu; cbn in *; split_and!; try done; intros u' [= <-]; by eexists.
Qed.

Lemma ipRateLimit_inv E name l r next c resp c' :
  ipRateLimit E name l r next c = (resp, c') →
  (idle c c' ∧ rs_status resp = 429) ∨ ∃ c1, idle c c1 ∧ next c1 = (resp, c').
Proof.
  unfold ipRateLimit. destruct (String.eqb _ ""); [right; by exists c|].
  unfold mbind at 1, C_bind, Allow. destruct (IP.Allow _ _ _) as [ok lim]. destruct ok.
  - intros H. right. exists (set_lim l lim (set_world (mkWorld (w_db (c_world c)) (S (w_tick (c_world c)))) c)).
    split; [|done]. by destruct l.
  - unfold mbind, C_bind, consultC. cbn [w_tick w_db c_world]. set (c1 := set_lim _ _ _).
    intros H. left. match type of H with refuse _ _ _ ?rid ?c2 = _ => pose proof (refuse_idle E 429 CodeRateLimited rid c2) as [Hi Hs]; rewrite H in Hi, Hs end.
    split; [|done]. cbn in Hi. destruct Hi as (H1 & H2 & H3). unfold idle. rewrite H1, H2, H3. by destruct l.
Qed.

Lemma idle_trans c c1 c2 : idle c c1 → idle c1 c2 → idle c c2.
Proof. intros (H1 & H2 & H3) (H4 & H5 & H6). split_and!; congruence. Qed.

Lemma requireAdmin_inv E fn user c resp c' :
  requireAdmin E fn user c = (resp, c') →
  (idle c c' ∧ (rs_status resp = 401 ∨ rs_status resp = 403)) ∨
  ∃ u, user = Some u ∧ u_Role u = RoleAdmin ∧ fn u c = (resp, c').
Proof.
  unfold requireAdmin, requireUser. destruct user as [u|].
  - destruct (String.eqb_spec (u_Role u) RoleAdmin); cbn; [right; by exists u|]. intros [= <- <-]. left. auto using idle_refl.
  - intros H. left. pose proof (refuse_idle E 401 CodeUnauthorized "" c) as [Hi Hs]. rewrite H in Hi, Hs. auto.
Qed.

Lemma requireUser_inv E fn user c resp c' :
  requireUser E fn user c = (resp, c') →
  (idle c c' ∧ rs_status resp = 401) ∨ ∃ u, user = Some u ∧ fn u c = (resp, c').
Proof.
  unfold requireUser. destruct user as [u|]; [right; by exists u|].
  intros H. left. pose proof (refuse_idle E 401 CodeUnauthorized "" c) as [Hi Hs]. by rewrite H in Hi, Hs.
Qed.


(** ** Tenants *)

Definition keeps (org : string) {A} (m : C A) : Prop :=
  ∀ c, foreign_rows org (w_db (c_world (snd (m c)))) = foreign_rows org (w_db (c_world c)).

Lemma keeps_ret org {A} (a : A) : keeps org (mret a).
Proof. by intros c. Qed.
Lemma keeps_bind org {A B} (m : C A) (k : A → C B) : keeps org m → (∀ a, keeps org (k a)) → keeps org (m ≫= k).
Proof.
  intros Hm Hk c. unfold mbind, C_bind. specialize (Hm c). destruct (m c) as [a c1]. cbn in Hm. rewrite <- Hm. apply Hk.
Qed.
Lemma keeps_reload org : keeps org reloadCredentials.
Proof. by intros c. Qed.
Lemma keeps_post org m : keeps org (post_mail m).
Proof. by intros c. Qed.
Lemma keeps_refuse E org status code rid : keeps org (refuse E status code rid).
Proof. intros c. unfold refuse. by destruct (String.eqb rid ""). Qed.
Lemma keeps_store_err org e msg : keeps org (writeStoreErr e msg).
Proof. unfold writeStoreErr. destruct e; apply keeps_ret. Qed.
Lemma keeps_audit E org actor org' action target detail : keeps org (call (audit E actor org' action target detail)).
Proof. by intros c. Qed.

Lemma void_snd {A} (m : M A) w : snd (void m w) = snd (m w).
Proof. unfold void, mbind, M_bind. by destruct (m w) as [[]]. Qed.

(** A store call that is the effect of an operation for [org]. *)
Lemma keeps_op E org o {A} (m : M A) :
  (∀ w, snd (m w) = snd (run E o w)) → op_org o = Some org → (∀ a b c, o ≠ OpDeleteUser a b c) → keeps org (call m).
Proof.
  intros Hr Ho Hd c. unfold call. destruct (m (c_world c)) as [x w] eqn:Em. cbn.
  specialize (Hr (c_world c)). rewrite Em in Hr. cbn in Hr. subst w.
  apply op_confined; [done|]. intros a b d ->. by destruct (Hd a b d).
Qed.

Create HintDb keeps discriminated.
#[export] Hint Resolve keeps_ret keeps_reload keeps_post keeps_refuse keeps_store_err keeps_audit : keeps.

Ltac solve_keeps :=
  repeat match goal with
  | |- keeps _ (_ ≫= _) => apply keeps_bind; [|intros ?]
  | |- keeps _ (requireStore _ _) => unfold requireStore
  | |- keeps _ (revoked_reply _) => unfold revoked_reply
  | |- keeps _ (deleted_reply _) => unfold deleted_reply
  | |- keeps _ (if ?b then _ else _) => destruct b
  | |- keeps _ (match ?x with _ => _ end) => destruct x
  end; eauto with keeps.

Section Admin.
Context (E : env) (sv : Server) (mail_ok : string → bool) (render : string → string → string → res string string).

(** The handlers behind [requireAdmin] that change rows. *)
Definition admin_handlers : list (Request → User → C response) :=
  [createUser E; deleteUser E; createKey E sv; revokeKey E sv; createCredential E sv; rotateCredential E sv;
   deleteCredential E sv; createInvite E sv mail_ok render; revokeInvite E sv].

Lemma orgID_session r u : u_OrgID u ≠ "" → orgID r (Some u) = u_OrgID u ∧ org_of (u_OrgID u) = u_OrgID u.
Proof. intros H%String.eqb_neq. unfold orgID, org_of, non_empty_or. by rewrite H. Qed.

(** A user of [org] that the tables [d] know and [d'] do not. *)
Definition deleted_user (org : string) (d d' : db) (id : string) : Prop :=
  (∃ ur, d_users d !! id = Some ur ∧ u_OrgID (ur_user ur) = org) ∧ d_users d' !! id = None.

(** A row of another org stays as it is, and none is added, unless the row names a
    deleted user; then it becomes [after]. *)
Definition others_kept {A} (org : string) (f : A → string) (gone : string → Prop) (names : A → string → Prop)
    (after : string → A → option A) (t t' : gmap string A) : Prop :=
  ∀ k, foreign org f t' !! k = foreign org f t !! k ∨
    ∃ r id, foreign org f t !! k = Some r ∧ gone id ∧ names r id ∧ foreign org f t' !! k = after id r.

(** What a request for [org] may do to the rest: the users of other orgs are as they
    were; their keys and credentials too, but for those owned by a user of [org]
    who was deleted, which are gone; their invites too, but that one made by such a
    user is gone and one such a user accepted forgets by whom. *)
Definition confined (org : string) (d d' : db) : Prop :=
  foreign org (fun r => u_OrgID (ur_user r)) (d_users d') = foreign org (fun r => u_OrgID (ur_user r)) (d_users d) ∧
  others_kept org (fun r => vk_OrgID (kr_key r)) (deleted_user org d d') (fun r id => vk_UserID (kr_key r) = id)
    (fun _ _ => None) (d_keys d) (d_keys d') ∧
  others_kept org (fun r => pc_OrgID (cr_cred r)) (deleted_user org d d') (fun r id => pc_UserID (cr_cred r) = id)
    (fun _ _ => None) (d_creds d) (d_creds d') ∧
  others_kept org (fun r => iv_OrgID (ir_invite r)) (deleted_user org d d')
    (fun r id => iv_CreatedBy (ir_invite r) = id ∨ iv_AcceptedBy (ir_invite r) = Some id)
    (fun id r => if String.eqb (iv_CreatedBy (ir_invite r)) id then None else Some (forget_user id r))
    (d_invites d) (d_invites d').

Lemma confined_same org d d' : foreign_rows org d' = foreign_rows org d → confined org d d'.
Proof.
  unfold foreign_rows. intros H. injection H as H1 H2 H3 H4.
  split; [exact H1|]. split_and!; intros k; left; congruence.
Qed.

Lemma foreign_lookup {A} org (f : A → string) (t : gmap string A) k r :
  foreign org f t !! k = Some r ↔ t !! k = Some r ∧ f r ≠ org.
Proof. unfold foreign. by rewrite map_lookup_filter_Some. Qed.

(** Rows dropped because they refer to the deleted user. *)
Lemma others_kept_keep {A} org (f owner : A → string) (gone : string → Prop) id (t : gmap string A) :
  gone id →
  others_kept org f gone (fun r i => owner r = i) (fun _ _ => None) t
    (keep (fun r => negb (refers (owner r) id)) t).
Proof.
  intros Hg k. destruct (foreign org f t !! k) as [r|] eqn:Er.
  - apply foreign_lookup in Er as [Hr Hn]. destruct (refers (owner r) id) eqn:Eo.
    + right. exists r, id. split_and!; [done|done|by apply refers_spec in Eo as [_ ->]|].
      apply eq_None_not_Some. intros [x Hx]. apply foreign_lookup in Hx as [Hx _]. apply keep_lookup in Hx as [Hx Hk].
      rewrite Hr in Hx. injection Hx as <-. by rewrite Eo in Hk.
    + left. apply foreign_lookup. split; [|done]. apply keep_lookup. by rewrite Eo.
  - left. apply eq_None_not_Some. intros [x Hx]. apply foreign_lookup in Hx as [Hx Hn]. apply keep_lookup in Hx as [Hx _].
    assert (foreign org f t !! k = Some x) as Hc by (by apply foreign_lookup). congruence.
Qed.

Lemma forget_same id r : iv_AcceptedBy (ir_invite r) ≠ Some id → forget_user id r = r.
Proof. intros H. unfold forget_user. rewrite decide_False by done. by destruct r as [[]]. Qed.

Lemma others_kept_invites org (gone : string → Prop) id (t : gmap string invite_row) :
  gone id →
  others_kept org (fun r => iv_OrgID (ir_invite r)) gone
    (fun r i => iv_CreatedBy (ir_invite r) = i ∨ iv_AcceptedBy (ir_invite r) = Some i)
    (fun i r => if String.eqb (iv_CreatedBy (ir_invite r)) i then None else Some (forget_user i r))
    t (forget_user id <$> keep (fun i => negb (String.eqb (iv_CreatedBy (ir_invite i)) id)) t).
Proof.
  intros Hg k. set (f := fun r => iv_OrgID (ir_invite r)). destruct (foreign org f t !! k) as [r|] eqn:Er.
  - apply foreign_lookup in Er as [Hr Hn]. destruct (String.eqb (iv_CreatedBy (ir_invite r)) id) eqn:Ec.
    + right. exists r, id. rewrite Ec. split_and!; [done|done|left; by apply String.eqb_eq|].
      apply eq_None_not_Some. intros [x Hx]. apply foreign_lookup in Hx as [Hx _]. apply forget_lookup in Hx as (r0 & Hr0 & _ & Hne).
      rewrite Hr in Hr0. injection Hr0 as <-. by apply Hne, String.eqb_eq.
    + assert (foreign org f (forget_user id <$> keep (fun i => negb (String.eqb (iv_CreatedBy (ir_invite i)) id)) t) !! k =
        Some (forget_user id r)) as Hx.
      { apply foreign_lookup. split; [|by destruct r]. rewrite lookup_fmap, fmap_Some. exists r. split; [|done].
        apply keep_lookup. by rewrite Ec. }
      destruct (decide (iv_AcceptedBy (ir_invite r) = Some id)) as [Ea|Ea].
      * right. exists r, id. rewrite Ec. split_and!; auto.
      * left. by rewrite Hx, forget_same.
  - left. apply eq_None_not_Some. intros [x Hx]. apply foreign_lookup in Hx as [Hx Hn]. apply forget_lookup in Hx as (r0 & Hr0 & -> & _).
    assert (foreign org f t !! k = Some r0) as Hc by (apply foreign_lookup; split; [done|by destruct r0]). congruence.
Qed.

Lemma drop_user_scoped id u d d' :
  d_users d !! id = Some u → d_users d' = d_users (drop_user id d) → d_keys d' = d_keys (drop_user id d) →
  d_creds d' = d_creds (drop_user id d) → d_invites d' = d_invites (drop_user id d) →
  confined (u_OrgID (ur_user u)) d d'.
Proof.
  intros Hu E1 E2 E3 E4.
  assert (deleted_user (u_OrgID (ur_user u)) d d' id) as Hg.
  { split; [by exists u|]. rewrite E1. apply lookup_delete_eq. }
  unfold confined. rewrite E1, E2, E3, E4. cbn. split.
  { apply foreign_delete. intros r0 Hr0. rewrite Hu in Hr0. by injection Hr0 as <-. }
  split_and!; [by apply others_kept_keep..|by apply others_kept_invites].
Qed.

Lemma DeleteUser_scoped (env : env) org actor id w :
  confined org (w_db w) (w_db (snd (DeleteUser env org actor id w))).
Proof.
  destruct (DeleteUser env org actor id w) as [x w'] eqn:Hx. cbn [snd].
  unfold DeleteUser in Hx. run_cases Hx; cbn in *; try (by apply confined_same);
    unfold delete_user in *; split_matches; try (by apply confined_same).
  match goal with H : String.eqb _ org = true |- _ => apply String.eqb_eq in H as <- end.
  by eapply drop_user_scoped.
Qed.

(** [C9] An administrator's reach is one org.  Whatever the headers, parameters and body
    of the request, a handler for administrators on users, keys, credentials and
    invites leaves the rows of every other org as they were and adds none to them;
    the one exception is a row that names a user of the caller's own org whom the
    request deleted, which goes with that user, as [confined] says. *)
Theorem admin_confined_to_org (h : Request → User → C response) (r : Request) (u : User) (c : cstate) :
  h ∈ admin_handlers → u_OrgID u ≠ "" →
  confined (u_OrgID u) (w_db (c_world c)) (w_db (c_world (snd (h r u c)))).
Proof.
  intros Hin Hne. destruct (orgID_session r u Hne) as [Ho Hd]. unfold admin_handlers in Hin. rewrite !elem_of_cons, elem_of_nil in Hin.
  destruct Hin as [->|[->|[->|[->|[->|[->|[->|[->|[->|[]]]]]]]]]].
  2: { unfold deleteUser. rewrite Ho. unfold mbind, C_bind, call.
    pose proof (DeleteUser_scoped E (u_OrgID u) (u_ID u) (rq_Param r) (c_world c)) as Hf.
    destruct (DeleteUser E (u_OrgID u) (u_ID u) (rq_Param r) (c_world c)) as [x w].
    destruct x; [done|]. unfold writeStoreErr. by repeat case_match. }
  all: match goal with |- context [snd (?h ?q ?v ?x)] => assert (keeps (u_OrgID v) (h q v)) as Hk; [|apply confined_same, Hk] end.
  all: unfold createUser, createKey, revokeKey, createCredential, rotateCredential, deleteCredential, createInvite,
    revokeInvite, make_key, rotate_with; rewrite ?Ho; solve_keeps.
  all: lazymatch goal with
    | |- keeps _ (call (CreateUser _ ?a ?b ?d ?e ?f)) => apply (keeps_op E _ (OpCreateUser a b d e f))
    | |- keeps _ (call (CreateVirtualKey _ ?a ?b ?d ?e ?f ?g ?i ?j)) => apply (keeps_op E _ (OpCreateVirtualKey a b d e f g i j))
    | |- keeps _ (call (RevokeVirtualKey _ ?a ?b ?d)) => apply (keeps_op E _ (OpRevokeVirtualKey a b d))
    | |- keeps _ (call (CreateCredential _ ?a ?b ?d ?e ?f ?g ?i ?j)) => apply (keeps_op E _ (OpCreateCredential a b d e f g i j))
    | |- keeps _ (call (RotateCredential _ ?a ?b ?d ?e)) => apply (keeps_op E _ (OpRotateCredential a b d e))
    | |- keeps _ (call (DeleteCredential _ ?a ?b ?d)) => apply (keeps_op E _ (OpDeleteCredential a b d))
    | |- keeps _ (call (CreateInvite _ ?a ?b ?d ?e ?f ?g)) => apply (keeps_op E _ (OpCreateInvite a b d e f g))
    | |- keeps _ (call (RevokeInvite _ ?a ?b ?d)) => apply (keeps_op E _ (OpRevokeInvite a b d))
    end; try done; try (intros w; symmetry; apply void_snd); cbn; by rewrite Hd.
Qed.
End Admin.

(** ** Members *)

(** Everything that is not the user's own: the other users, the keys and the
    credentials of other owners or of none, and all invites. *)
Definition others (uid : string) (d : db) :
    gmap string user_row * gmap string key_row * gmap string cred_row * gmap string invite_row :=
  (delete uid (d_users d), foreign uid (fun r => vk_UserID (kr_key r)) (d_keys d),
   foreign uid (fun r => pc_UserID (cr_cred r)) (d_creds d), d_invites d).

Definition apart uid v (d : db) : Prop := others uid d = v.
#[export] Instance apart_blind uid v : LogBlind (apart uid v).
Proof. by intros f d. Qed.

Section Apart.
Context (uid : string) (v : gmap string user_row * gmap string key_row * gmap string cred_row * gmap string invite_row).

Lemma update_user_apart p f : stmt_preserves (apart uid v) (update_user uid p f).
Proof using.
  intros now d a d' Hd H. unfold update_user in H. split_matches. unfold apart, others. cbn. by rewrite delete_insert_eq.
Qed.
Lemma insert_key_apart vk hash : vk_UserID vk = uid → stmt_preserves (apart uid v) (insert_key vk hash).
Proof using.
  intros Ho now d a d' Hd H. unfold insert_key, keys_taken, org_known in H. destruct (_ || _) eqn:Eu; [done|]. destruct (_ && _); [|done].
  apply orb_false_elim in Eu as [Eu%bool_decide_eq_false _]. simplify_eq. unfold apart, others. cbn.
  rewrite foreign_insert; [done|done|]. intros r0 Hr0. exfalso. eauto.
Qed.
Lemma insert_cred_apart c secret : pc_UserID c = uid → stmt_preserves (apart uid v) (insert_cred c secret).
Proof using.
  intros Ho now d a d' Hd H. unfold insert_cred, creds_taken, org_known in H. case_bool_decide as Eu; [done|]. destruct (_ && _); [|done].
  simplify_eq. unfold apart, others. cbn. rewrite foreign_insert; [done|done|]. intros r0 Hr0. exfalso. eauto.
Qed.
Lemma user_cred_owner org c : user_cred org uid c = true → pc_UserID c = uid.
Proof using. unfold user_cred. intros [_ H]%andb_prop. by apply refers_spec in H as [_ ->]. Qed.
Lemma rotate_cred_apart id org secret last4 : stmt_preserves (apart uid v) (rotate_cred id (user_cred org uid) secret last4).
Proof using.
  intros now d a d' Hd. unfold rotate_cred. destruct (d_creds d !! id) as [r|] eqn:Er; [|by intros [= <- <-]].
  destruct (user_cred _ _ _) eqn:Ep; intros [= <- <-]; [|done]. apply user_cred_owner in Ep. unfold apart, others. cbn.
  rewrite foreign_insert; [done|done|]. intros r0 Hr0. rewrite Er in Hr0. by injection Hr0 as <-.
Qed.
Lemma delete_cred_apart id org : stmt_preserves (apart uid v) (delete_cred id (user_cred org uid)).
Proof using.
  intros now d a d' Hd. unfold delete_cred. destruct (d_creds d !! id) as [r|] eqn:Er; [|by intros [= <- <-]].
  destruct (user_cred _ _ _) eqn:Ep; intros [= <- <-]; [|done]. apply user_cred_owner in Ep. unfold apart, others. cbn.
  rewrite foreign_delete; [done|]. intros r0 Hr0. rewrite Er in Hr0. by injection Hr0 as <-.
Qed.
End Apart.
#[export] Hint Resolve update_user_apart rotate_cred_apart delete_cred_apart : pres.
#[export] Hint Extern 1 (stmt_preserves (apart _ _) (insert_key _ _)) => by apply insert_key_apart : pres.
#[export] Hint Extern 1 (stmt_preserves (apart _ _) (insert_cred _ _)) => by apply insert_cred_apart : pres.

Definition spares (uid : string) {A} (m : C A) : Prop :=
  ∀ c, others uid (w_db (c_world (snd (m c)))) = others uid (w_db (c_world c)).

Lemma spares_ret uid {A} (a : A) : spares uid (mret a).
Proof. by intros c. Qed.
Lemma spares_bind uid {A B} (m : C A) (k : A → C B) : spares uid m → (∀ a, spares uid (k a)) → spares uid (m ≫= k).
Proof.
  intros Hm Hk c. unfold mbind, C_bind. specialize (Hm c). destruct (m c) as [a c1]. cbn in Hm. rewrite <- Hm. apply Hk.
Qed.
Lemma spares_call uid {A} (m : M A) : (∀ v, preserves (apart uid v) m) → spares uid (call m).
Proof.
  intros Hm c. unfold call. specialize (Hm (others uid (w_db (c_world c))) (c_world c) eq_refl).
  by destruct (m (c_world c)) as [x w].
Qed.
Lemma spares_reload uid : spares uid reloadCredentials.
Proof. by intros c. Qed.
Lemma spares_store_err uid e msg : spares uid (writeStoreErr e msg).
Proof. unfold writeStoreErr. destruct e; apply spares_ret. Qed.
Lemma spares_audit E sv uid actor org action target detail : spares uid (server_audit E sv actor org action target detail).
Proof. unfold server_audit. destruct (sv_store sv); [|apply spares_ret]. by intros c. Qed.
#[export] Hint Resolve spares_ret spares_reload spares_store_err spares_audit : keeps.

Ltac solve_spares :=
  repeat match goal with
  | |- spares _ (_ ≫= _) => apply spares_bind; [|intros ?]
  | |- spares _ (deleted_reply _) => unfold deleted_reply
  | |- spares _ (call _) => apply spares_call; intros ?
  | |- spares _ (if ?b then _ else _) => destruct b
  | |- spares _ (match ?x with _ => _ end) => destruct x
  end; eauto with keeps.

(** The handlers behind [requireUser] that change rows. *)
Definition my_handlers (E : env) (sv : Server) : list (Request → User → C response) :=
  [updateMe E sv; createMyKey E; revokeMyKey E; createMyCredential E; rotateMyCredential E; deleteMyCredential E].

Lemma revokeMyKey_spares E r u c :
  integrity (w_db (c_world c)) → u_ID u ≠ "" →
  others (u_ID u) (w_db (c_world (snd (revokeMyKey E r u c)))) = others (u_ID u) (w_db (c_world c)).
Proof.
  intros Hd Hne. destruct (revokeMyKey E r u c) as [resp c'] eqn:H. unfold revokeMyKey in H.
  unfold mbind at 1, C_bind, call in H. destruct (ListVirtualKeysForUser _ _ _ _) as [x w] eqn:Hl.
  unfold ListVirtualKeysForUser, listVirtualKeys in Hl. run_cases Hl; cbn [c_world set_world w_db] in *;
    [by unfold mret, C_ret in H; simplify_eq|].
  destruct (existsb _ _) eqn:Ex; [|by unfold mret, C_ret in H; simplify_eq].
  apply existsb_exists in Ex as (k & Hk & Eid%String.eqb_eq).
  apply in_map_iff in Hk as (row & <- & Hrow). apply list_elem_of_In in Hrow. rewrite SliceStable_perm in Hrow.
  apply rows_where_spec in Hrow as [Hlist [id Hid]]. unfold key_listed in Hlist. apply andb_prop in Hlist as [_ Hu].
  apply String.eqb_neq in Hne. rewrite Hne in Hu. cbn in Hu. apply refers_spec in Hu as [_ Hu].
  destruct (i_keys _ Hd _ _ Hid) as [Ek _]. rewrite Ek in Eid. subst id.
  unfold mbind, C_bind in H. cbn [c_world set_world] in H. destruct (RevokeVirtualKey _ _ _ _ _) as [y w2] eqn:Hr.
  assert (others (u_ID u) (w_db w2) = others (u_ID u) (w_db (c_world c))) as Ho.
  { unfold RevokeVirtualKey in Hr. run_cases Hr; cbn in *; try done; unfold revoke_key in *; rewrite Hid in *; split_matches.
    all: unfold others; cbn; rewrite foreign_insert; [done|exact Hu|]; intros r0 Hr0; rewrite Hid in Hr0; by injection Hr0 as <-. }
  unfold revoked_reply, writeStoreErr, mret, C_ret in H. destruct y as [|e]; [|destruct e]; injection H as <- <-; exact Ho.
Qed.

(** A member's reach is the member's own.  A handler for any signed-in user leaves
    alone every other user, every key and credential that is not the caller's, and
    all invites. *)
Theorem member_confined_to_own (E : env) (sv : Server) (h : Request → User → C response) (r : Request) (u : User) (c : cstate) :
  h ∈ my_handlers E sv → integrity (w_db (c_world c)) → u_ID u ≠ "" →
  others (u_ID u) (w_db (c_world (snd (h r u c)))) = others (u_ID u) (w_db (c_world c)).
Proof.
  intros Hin Hd Hne. unfold my_handlers in Hin. rewrite !elem_of_cons, elem_of_nil in Hin.
  destruct Hin as [->|[->|[->|[->|[->|[->|[]]]]]]]; [| |by apply revokeMyKey_spares|..].
  all: match goal with |- context [snd (?h ?q ?v ?x)] => assert (spares (u_ID v) (h q v)) as Hk; [clear Hd|apply Hk] end.
  all: unfold updateMe, createMyKey, createMyCredential, rotateMyCredential, deleteMyCredential, make_key, rotate_with;
    solve_spares.
  all: unfold SetEnforceLimits, CreateVirtualKey, CreateCredential, MarkOnboarded, RotateUserCredential,
    DeleteUserCredential, the_cipher, encrypted; solve_pres.
Qed.

(** ** The login limiter *)

Fixpoint attempts (E : env) (sv : Server) (rs : list Request) (c : cstate) : list response :=
  match rs with
  | [] => []
  | r :: rs => let '(a, c) := ipRateLimit E "login" LoginLim r (login E sv r None) c in a :: attempts E sv rs c
  end.

Lemma login_lim_kept E sv r c :
  rs_status (fst (login E sv r None c)) ≠ 429 ∧ c_loginLim (snd (login E sv r None c)) = c_loginLim c.
Proof.
  unfold login, requireStore. destruct (sv_store sv); [|done]. destruct (decode_login _); [|done].
  unfold mbind, C_bind, call. destruct (Authenticate _ _ _ _ _ _) as [[[token u]|[]] w]; done.
Qed.

Definition limit_key (r : Request) : string := "login:" +:+ clientIP r.

(** The limit of login attempts is the client's to avoid: [clientIP] believes the
    CF-Connecting-IP and X-Forwarded-For headers of any sender, so a client that
    writes a new name on every attempt is never refused and every password it
    tries is checked, whatever the number of attempts and however fast. *)
Theorem login_limit_evaded (E : env) (sv : Server) (rs : list Request) (c : cstate) :
  IP.capacity (c_loginLim c) = 30 → IP.refill (c_loginLim c) = Minute → NoDup (map limit_key rs) →
  (∀ r, r ∈ rs → IP.buckets (c_loginLim c) !! limit_key r = None) →
  Forall (fun a => rs_status a ≠ 429) (attempts E sv rs c).
Proof.
  revert c. induction rs as [|r rs IH]; intros c Hc Hr Hn Hf; [constructor|]. cbn. cbn in Hn. apply NoDup_cons in Hn as [Hnot Hn].
  destruct (ipRateLimit _ _ _ _ _ _) as [a c'] eqn:Ha. unfold ipRateLimit in Ha.
  assert (∀ k, k ∈ rs → limit_key k ≠ limit_key r) as Hd.
  { intros k Hk He. apply Hnot. rewrite <- He. by apply list_elem_of_fmap_2. }
  destruct (String.eqb (clientIP r) "").
  - destruct (login_lim_kept E sv r c) as [Hs Hl]. rewrite Ha in Hs, Hl. cbn in *. constructor; [done|].
    apply IH; rewrite ?Hl; auto. intros k Hk. apply Hf. by right.
  - unfold mbind at 1, C_bind, Allow in Ha. change ("login" +:+ ":" +:+ clientIP r) with (limit_key r) in Ha. cbn [get_lim] in Ha.
    destruct (IPSpec.Allow_unseen (e_now E (w_tick (c_world c))) (limit_key r) (c_loginLim c) Hc Hr) as (Ho & Hc' & Hr' & Hb);
      [apply Hf; by left|].
    destruct (IP.Allow _ _ _) as [ok lim]. cbn in Ho, Hc', Hr', Hb. subst ok. cbn [set_lim] in Ha.
    match type of Ha with login _ _ _ _ ?c1 = _ => destruct (login_lim_kept E sv r c1) as [Hs Hl] end.
    rewrite Ha in Hs, Hl. cbn in *. constructor; [done|].
    apply IH; rewrite ?Hl; auto. intros k Hk. apply Hb; [by apply Hd|]. apply Hf. by right.
Qed.

(** ** Instances *)

Definition toy_server : Server := mkServer true (newOriginPolicy ["https://App.example:443"] false) true false true "https://n/".

Definition toy_state (w : world) : cstate :=
  mkState w (IP.NewIPLimiter 30 Minute) (IP.NewIPLimiter 30 Minute) (IP.NewIPLimiter 30 Minute) 0 [].

Definition toy_token : string := match fst toy_login with Ok (t, _) => t | Err _ => "" end.
Definition toy_user : User := match fst toy_login with Ok (_, u) => u | Err _ => mkUser "" "" "" "" false zero_time None end.

Definition toy_request (method path param body : string) (headers : list (string * string)) : Request :=
  mkRequest method path "console.example" "10.0.0.1:4000" headers (Some toy_token) param body.

(** The object with the one member [k] of the text [v]. *)
Definition toy_object (k v : string) : string :=
  let q s := String quote (s +:+ String quote "") in "{" +:+ q k +:+ ":" +:+ q v +:+ "}".

Lemma origin_gate_iff_witness :
  let r := toy_request "POST" "/users" "" "" [("Origin", "https://app.example")] in
  let evil := toy_request "POST" "/users" "" "" [("Origin", "https://app.example.evil")] in
  let next : C response := mret (reply 200 (PStatus "x")) in
  enforceOrigin toy_server r next (toy_state toy_admin) = next (toy_state toy_admin) ∧
  rs_status (fst (enforceOrigin toy_server evil next (toy_state toy_admin))) = 403.
Proof.
  cbn zeta. split.
  - apply (origin_gate_iff ["https://App.example:443"] false); [reflexivity|vm_compute; reflexivity|by vm_compute|].
    exists "https", "app.example". split; [vm_compute; reflexivity|]. right; left. exists "https://App.example:443".
    split; [by left|vm_compute; reflexivity].
  - apply (origin_gate_iff ["https://App.example:443"] false); [reflexivity|vm_compute; reflexivity|by vm_compute|].
    intros (s & h & Ho & H). assert (origin_of "https://app.example.evil" = Some ("https", "app.example.evil")) as He by (vm_compute; reflexivity).
    change (header _ _) with "https://app.example.evil" in Ho. rewrite He in Ho. injection Ho as <- <-.
    destruct H as [[_ H]|[(raw & Hraw & H)|[H _]]]; [by vm_compute in H| |done].
    apply list_elem_of_singleton in Hraw as ->. by vm_compute in H.
Defined.

Definition toy_revocation : response * cstate :=
  serve toy_env toy_server (adm "DELETE" "/api/keys/{id}") (fun _ _ => mret (reply 200 (PStatus "")))
    (revokeKey toy_env toy_server) (toy_request "DELETE" "/keys/k" "k" "" []) (toy_state (snd toy_login)).

Lemma toy_revocation_status : rs_status (fst toy_revocation) = 404.
Proof. vm_compute. reflexivity. Qed.


(** A key of the org "other" owned by a user of "default" goes with that user, and
    nothing else of "other" does. *)
Definition toy_shared : cstate := toy_state (snd toy_key).
Definition toy_deletion : response * cstate :=
  deleteUser toy_env (toy_request "DELETE" "/users/id1" "id1" "" [("X-Org-Id", "other")])
    (mkUser "adm" "default" "a@x" RoleAdmin false zero_time None) toy_shared.

Lemma admin_confined_to_org_witness :
  confined "default" (w_db (c_world toy_shared)) (w_db (c_world (snd toy_deletion))) ∧
  rs_status (fst toy_deletion) = 200 ∧ size (d_keys (w_db (c_world toy_shared))) = 1%nat ∧
  size (d_keys (w_db (c_world (snd toy_deletion)))) = 0%nat.
Proof.
  split; [|vm_compute; split_and!; reflexivity].
  apply (admin_confined_to_org toy_env toy_server (fun _ => true) (fun _ _ _ => Ok "") (deleteUser toy_env)
    (toy_request "DELETE" "/users/id1" "id1" "" [("X-Org-Id", "other")])
    (mkUser "adm" "default" "a@x" RoleAdmin false zero_time None) toy_shared).
  - unfold admin_handlers. apply list_elem_of_In. right; left. reflexivity.
  - done.
Defined.

Lemma toy_login_integrity : integrity (w_db (snd toy_login)).
Proof.
  pose proof (run_integrity toy_env (OpAuthenticate "" "root@x" "pw" Hour) toy_admin toy_admin_integrity) as H.
  unfold run, void, toy_login in *. unfold mbind, M_bind in H. by destruct (Authenticate _ _ _ _ _ _) as [[]].
Qed.

Lemma member_confined_to_own_witness :
  let r := toy_request "POST" "/me/keys" "" (toy_object "name" "k") [] in
  others "id1" (w_db (c_world (snd (createMyKey toy_env r toy_user (toy_state (snd toy_login)))))) = others "id1" (w_db (snd toy_login)) ∧
  size (d_keys (w_db (c_world (snd (createMyKey toy_env r toy_user (toy_state (snd toy_login))))))) = 1%nat.
Proof.
  cbn zeta. split; [|vm_compute; reflexivity].
  apply (member_confined_to_own toy_env toy_server (createMyKey toy_env) _ toy_user (toy_state (snd toy_login))).
  - unfold my_handlers. apply list_elem_of_In. right; left. reflexivity.
  - apply toy_login_integrity.
  - by vm_compute.
Defined.

Lemma login_limit_evaded_witness :
  let r n := toy_request "POST" "/auth/login" "" "{}" [("X-Forwarded-For", pretty (Z.of_nat n))] in
  Forall (fun a => rs_status a ≠ 429) (attempts toy_env toy_server (map r (seq 0 40)) (toy_state toy_admin)).
Proof.
  cbn zeta. apply login_limit_evaded; [reflexivity|reflexivity| |].
  - apply (bool_decide_unpack _). vm_compute. exact I.
  - intros r _. reflexivity.
Defined.
