(* ===== verification/GwTypes.v ===== *)
(** * GwTypes: the data of the gateway

    src/internal/gateway (types.go, turnkey.go, evidence.go) and
    src/internal/observability (trace.go, evidence.go): the OpenAI-compatible
    requests, responses and stream events, the trace record with its policy
    evidence, and the derivation of the turn key.  Members the source keeps as raw
    JSON are their text.  The trace record
    is split in two: what [newTrace] fixes ([TraceBase]) and what the handlers
    fill in; [EvalMetadata], which the gateway never touches, is left out. *)

From S2P Require Import Prelude GoString Float64 GoTime Pricing.
Local Open Scope string_scope.
Local Open Scope Z_scope.

(** ** types.go *)

(** The members of [Function] and [Custom] are spread over the record. *)
Record ToolCall := mkToolCall {
  tc_Index : option Z;
  tc_ID : string;
  tc_Type : string;
  fn_Name : string;
  fn_Arguments : string;
  cu_Name : string;
  cu_Input : string
}.

(** A call of a function, without an index. *)
Definition function_call (id name args : string) : ToolCall := mkToolCall None id "function" name args "" "".

(** Raw JSON members are their text, [""] when absent. *)
Record Tool := mkTool { tl_Type : string; tl_Function : string; tl_Custom : string }.

Record Message := mkMessage {
  Role : string;
  Content : string;
  Name : string;
  ToolCalls : list ToolCall;
  ToolCallID : string
}.

(** A plain message, as the gateway itself builds them. *)
Definition text_message (role content : string) : Message := mkMessage role content "" [] "".

Record JSONSchemaSpec := mkSpec { sp_Name : string; sp_Schema : string; sp_Strict : bool }.

Record ResponseFormat := mkFormat { rf_Type : string; rf_JSONSchema : option JSONSchemaSpec }.

Definition WantsJSON (r : option ResponseFormat) : bool :=
  match r with
  | None => false
  | Some r => String.eqb (rf_Type r) "json_object" || String.eqb (rf_Type r) "json_schema"
  end.

(** Nil and empty bytes are both [""]. *)
Definition SchemaBytes (r : option ResponseFormat) : string :=
  match r with
  | None => ""
  | Some r => match rf_JSONSchema r with Some spec => sp_Schema spec | None => "" end
  end.

Record NexusEvalContext := mkEval { Contexts : list string; Reference : string }.

Record ChatCompletionRequest := mkReq {
  Model : string;
  Messages : list Message;
  Temperature : option float64;
  TopP : option float64;
  MaxTokens : option Z;
  Stream : bool;
  Stop : list string;
  Tools : list Tool;
  User : string;
  ReasoningEffort : string;
  StreamOptions : string;
  ToolChoice : string;
  ParallelToolCalls : option bool;
  Format : option ResponseFormat;
  NexusEval : option NexusEvalContext;
  Extra : gmap string string
}.

Definition with_model (m : string) (r : ChatCompletionRequest) : ChatCompletionRequest :=
  mkReq m (Messages r) (Temperature r) (TopP r) (MaxTokens r) (Stream r) (Stop r) (Tools r) (User r)
    (ReasoningEffort r) (StreamOptions r) (ToolChoice r) (ParallelToolCalls r) (Format r) (NexusEval r)
    (Extra r).
Definition with_messages (ms : list Message) (r : ChatCompletionRequest) : ChatCompletionRequest :=
  mkReq (Model r) ms (Temperature r) (TopP r) (MaxTokens r) (Stream r) (Stop r) (Tools r) (User r)
    (ReasoningEffort r) (StreamOptions r) (ToolChoice r) (ParallelToolCalls r) (Format r) (NexusEval r)
    (Extra r).
Definition ForProvider (r : ChatCompletionRequest) : ChatCompletionRequest :=
  mkReq (Model r) (Messages r) (Temperature r) (TopP r) (MaxTokens r) (Stream r) (Stop r) (Tools r)
    (User r) (ReasoningEffort r) (StreamOptions r) (ToolChoice r) (ParallelToolCalls r) (Format r) None
    (Extra r).

Record Choice := mkChoice { c_Index : Z; c_Message : Message; c_FinishReason : string }.

Record ChatCompletionResponse := mkResp {
  r_ID : string;
  r_Object : string;
  r_Created : Z;
  r_Model : string;
  r_Choices : list Choice;
  r_Usage : Usage
}.

Definition set_content (s : string) (m : Message) : Message :=
  mkMessage (Role m) s (Name m) (ToolCalls m) (ToolCallID m).

(** [resp.Choices[0].Message.Content = s], on a response with a choice. *)
Definition set_first_content (s : string) (r : ChatCompletionResponse) : ChatCompletionResponse :=
  match r_Choices r with
  | [] => r
  | c :: cs => mkResp (r_ID r) (r_Object r) (r_Created r) (r_Model r)
                 (mkChoice (c_Index c) (set_content s (c_Message c)) (c_FinishReason c) :: cs) (r_Usage r)
  end.

Definition set_usage_cost (cost : float64) (u : Usage) : Usage :=
  mkUsage (PromptTokens u) (CompletionTokens u) (TotalTokens u) (EstimatedCost u) cost
    (PromptDetails u) (CompletionDetails u).
Definition set_resp_cost (cost : float64) (r : ChatCompletionResponse) : ChatCompletionResponse :=
  mkResp (r_ID r) (r_Object r) (r_Created r) (r_Model r) (r_Choices r) (set_usage_cost cost (r_Usage r)).

(** The members of [Delta] are spread over the record. *)
Record ChunkChoice := mkChunkChoice {
  cc_Index : Z;
  cc_Role : string;
  cc_Content : string;
  cc_ToolCalls : list ToolCall;
  cc_FinishReason : string
}.

Record ChatCompletionChunk := mkChunk {
  k_ID : string;
  k_Object : string;
  k_Created : Z;
  k_Model : string;
  k_Choices : list ChunkChoice;
  k_Usage : option Usage
}.

Record StreamEvent := mkStreamEvent {
  ev_Chunk : option ChatCompletionChunk;
  ev_Raw : option string;
  ev_Err : option string;
  ev_Done : bool
}.

(** ** observability: evidence and trace *)

Definition ReasonAllowed : string := "allowed".
Definition ReasonDenied : string := "denied".
Definition ReasonFallback : string := "fallback".
Definition ReasonRedacted : string := "redacted".
Definition ReasonMinQuality : string := "min_quality".
Definition ReasonCacheHit : string := "cache_hit".
Definition ReasonMissingBYOK : string := "missing_byok_key".
Definition ReasonGuardrailBlocked : string := "guardrail_blocked".
Definition ReasonModelNotAllowed : string := "model_not_allowed".
Definition ReasonSchemaBlocked : string := "schema_blocked".
Definition ReasonUpstreamError : string := "upstream_error".

Record ProviderAttempt := mkAttempt {
  pa_Index : Z;
  pa_Provider : string;
  pa_Model : string;
  pa_CredentialSource : string;
  pa_StatusCode : Z;
  pa_LatencyMs : Z;
  pa_ErrorType : string;
  pa_ErrorMsg : string;
  pa_CacheHit : bool;
  pa_FallbackAllowed : bool
}.

Record PolicyReason := mkReason { pr_Code : string; pr_RuleID : string; pr_Detail : string }.

Definition GuardrailRuleFromAction (action : string) : string :=
  match Cut action ":" with
  | Some (_, rule) => rule
  | None => ""
  end.

Record TraceBase := mkBase {
  TraceID : string;
  SpanID : string;
  ParentID : string;
  Timestamp : Time;
  t_OrgID : string;
  t_UserID : string;
  VirtualKeyID : string;
  OperationName : string;
  ProviderName : string;
  t_Temperature : float64;
  t_TopP : float64;
  t_MaxTokens : Z;
  InputMessages : string;
  RetrievalContexts : string;
  EvalReference : string;
  ReplicaID : string;
  SessionID : string;
  TurnID : string
}.

Record Trace := mkTrace {
  t_base : TraceBase;
  CredentialSource : string;
  RequestModel : string;
  ResponseModel : string;
  InputTokens : Z;
  OutputTokens : Z;
  FinishReason : string;
  Streamed : bool;
  TTFTMillis : Z;
  LatencyMs : Z;
  CostUSD_t : float64;
  StatusCode : Z;
  ErrorType : string;
  ErrorMsg : string;
  GuardrailAction : string;
  OutputMessages : string;
  CacheHit : bool;
  Attempts : list ProviderAttempt;
  PolicyReasons : list PolicyReason;
  GuardrailRule : string;
  EgressMode : string
}.

(** Field assignments. *)
Definition set_CredentialSource (v : string) (t : Trace) : Trace :=
  mkTrace (t_base t) v (RequestModel t) (ResponseModel t) (InputTokens t) (OutputTokens t)
    (FinishReason t) (Streamed t) (TTFTMillis t) (LatencyMs t) (CostUSD_t t) (StatusCode t)
    (ErrorType t) (ErrorMsg t) (GuardrailAction t) (OutputMessages t) (CacheHit t) (Attempts t)
    (PolicyReasons t) (GuardrailRule t) (EgressMode t).
Definition set_RequestModel (v : string) (t : Trace) : Trace :=
  mkTrace (t_base t) (CredentialSource t) v (ResponseModel t) (InputTokens t) (OutputTokens t)
    (FinishReason t) (Streamed t) (TTFTMillis t) (LatencyMs t) (CostUSD_t t) (StatusCode t)
    (ErrorType t) (ErrorMsg t) (GuardrailAction t) (OutputMessages t) (CacheHit t) (Attempts t)
    (PolicyReasons t) (GuardrailRule t) (EgressMode t).
Definition set_ResponseModel (v : string) (t : Trace) : Trace :=
  mkTrace (t_base t) (CredentialSource t) (RequestModel t) v (InputTokens t) (OutputTokens t)
    (FinishReason t) (Streamed t) (TTFTMillis t) (LatencyMs t) (CostUSD_t t) (StatusCode t)
    (ErrorType t) (ErrorMsg t) (GuardrailAction t) (OutputMessages t) (CacheHit t) (Attempts t)
    (PolicyReasons t) (GuardrailRule t) (EgressMode t).
Definition set_InputTokens (v : Z) (t : Trace) : Trace :=
  mkTrace (t_base t) (CredentialSource t) (RequestModel t) (ResponseModel t) v (OutputTokens t)
    (FinishReason t) (Streamed t) (TTFTMillis t) (LatencyMs t) (CostUSD_t t) (StatusCode t)
    (ErrorType t) (ErrorMsg t) (GuardrailAction t) (OutputMessages t) (CacheHit t) (Attempts t)
    (PolicyReasons t) (GuardrailRule t) (EgressMode t).
Definition set_OutputTokens (v : Z) (t : Trace) : Trace :=
  mkTrace (t_base t) (CredentialSource t) (RequestModel t) (ResponseModel t) (InputTokens t) v
    (FinishReason t) (Streamed t) (TTFTMillis t) (LatencyMs t) (CostUSD_t t) (StatusCode t)
    (ErrorType t) (ErrorMsg t) (GuardrailAction t) (OutputMessages t) (CacheHit t) (Attempts t)
    (PolicyReasons t) (GuardrailRule t) (EgressMode t).
Definition set_FinishReason (v : string) (t : Trace) : Trace :=
  mkTrace (t_base t) (CredentialSource t) (RequestModel t) (ResponseModel t) (InputTokens t)
    (OutputTokens t) v (Streamed t) (TTFTMillis t) (LatencyMs t) (CostUSD_t t) (StatusCode t)
    (ErrorType t) (ErrorMsg t) (GuardrailAction t) (OutputMessages t) (CacheHit t) (Attempts t)
    (PolicyReasons t) (GuardrailRule t) (EgressMode t).
Definition set_Streamed (v : bool) (t : Trace) : Trace :=
  mkTrace (t_base t) (CredentialSource t) (RequestModel t) (ResponseModel t) (InputTokens t)
    (OutputTokens t) (FinishReason t) v (TTFTMillis t) (LatencyMs t) (CostUSD_t t) (StatusCode
    t) (ErrorType t) (ErrorMsg t) (GuardrailAction t) (OutputMessages t) (CacheHit t) (Attempts
    t) (PolicyReasons t) (GuardrailRule t) (EgressMode t).
Definition set_TTFTMillis (v : Z) (t : Trace) : Trace :=
  mkTrace (t_base t) (CredentialSource t) (RequestModel t) (ResponseModel t) (InputTokens t)
    (OutputTokens t) (FinishReason t) (Streamed t) v (LatencyMs t) (CostUSD_t t) (StatusCode t)
    (ErrorType t) (ErrorMsg t) (GuardrailAction t) (OutputMessages t) (CacheHit t) (Attempts t)
    (PolicyReasons t) (GuardrailRule t) (EgressMode t).
Definition set_LatencyMs (v : Z) (t : Trace) : Trace :=
  mkTrace (t_base t) (CredentialSource t) (RequestModel t) (ResponseModel t) (InputTokens t)
    (OutputTokens t) (FinishReason t) (Streamed t) (TTFTMillis t) v (CostUSD_t t) (StatusCode t)
    (ErrorType t) (ErrorMsg t) (GuardrailAction t) (OutputMessages t) (CacheHit t) (Attempts t)
    (PolicyReasons t) (GuardrailRule t) (EgressMode t).
Definition set_CostUSD_t (v : float64) (t : Trace) : Trace :=
  mkTrace (t_base t) (CredentialSource t) (RequestModel t) (ResponseModel t) (InputTokens t)
    (OutputTokens t) (FinishReason t) (Streamed t) (TTFTMillis t) (LatencyMs t) v (StatusCode t)
    (ErrorType t) (ErrorMsg t) (GuardrailAction t) (OutputMessages t) (CacheHit t) (Attempts t)
    (PolicyReasons t) (GuardrailRule t) (EgressMode t).
Definition set_StatusCode (v : Z) (t : Trace) : Trace :=
  mkTrace (t_base t) (CredentialSource t) (RequestModel t) (ResponseModel t) (InputTokens t)
    (OutputTokens t) (FinishReason t) (Streamed t) (TTFTMillis t) (LatencyMs t) (CostUSD_t t) v
    (ErrorType t) (ErrorMsg t) (GuardrailAction t) (OutputMessages t) (CacheHit t) (Attempts t)
    (PolicyReasons t) (GuardrailRule t) (EgressMode t).
Definition set_ErrorType (v : string) (t : Trace) : Trace :=
  mkTrace (t_base t) (CredentialSource t) (RequestModel t) (ResponseModel t) (InputTokens t)
    (OutputTokens t) (FinishReason t) (Streamed t) (TTFTMillis t) (LatencyMs t) (CostUSD_t t)
    (StatusCode t) v (ErrorMsg t) (GuardrailAction t) (OutputMessages t) (CacheHit t) (Attempts
    t) (PolicyReasons t) (GuardrailRule t) (EgressMode t).
Definition set_ErrorMsg (v : string) (t : Trace) : Trace :=
  mkTrace (t_base t) (CredentialSource t) (RequestModel t) (ResponseModel t) (InputTokens t)
    (OutputTokens t) (FinishReason t) (Streamed t) (TTFTMillis t) (LatencyMs t) (CostUSD_t t)
    (StatusCode t) (ErrorType t) v (GuardrailAction t) (OutputMessages t) (CacheHit t) (Attempts
    t) (PolicyReasons t) (GuardrailRule t) (EgressMode t).
Definition set_GuardrailAction (v : string) (t : Trace) : Trace :=
  mkTrace (t_base t) (CredentialSource t) (RequestModel t) (ResponseModel t) (InputTokens t)
    (OutputTokens t) (FinishReason t) (Streamed t) (TTFTMillis t) (LatencyMs t) (CostUSD_t t)
    (StatusCode t) (ErrorType t) (ErrorMsg t) v (OutputMessages t) (CacheHit t) (Attempts t)
    (PolicyReasons t) (GuardrailRule t) (EgressMode t).
Definition set_OutputMessages (v : string) (t : Trace) : Trace :=
  mkTrace (t_base t) (CredentialSource t) (RequestModel t) (ResponseModel t) (InputTokens t)
    (OutputTokens t) (FinishReason t) (Streamed t) (TTFTMillis t) (LatencyMs t) (CostUSD_t t)
    (StatusCode t) (ErrorType t) (ErrorMsg t) (GuardrailAction t) v (CacheHit t) (Attempts t)
    (PolicyReasons t) (GuardrailRule t) (EgressMode t).
Definition set_CacheHit (v : bool) (t : Trace) : Trace :=
  mkTrace (t_base t) (CredentialSource t) (RequestModel t) (ResponseModel t) (InputTokens t)
    (OutputTokens t) (FinishReason t) (Streamed t) (TTFTMillis t) (LatencyMs t) (CostUSD_t t)
    (StatusCode t) (ErrorType t) (ErrorMsg t) (GuardrailAction t) (OutputMessages t) v (Attempts
    t) (PolicyReasons t) (GuardrailRule t) (EgressMode t).
Definition set_Attempts (v : list ProviderAttempt) (t : Trace) : Trace :=
  mkTrace (t_base t) (CredentialSource t) (RequestModel t) (ResponseModel t) (InputTokens t)
    (OutputTokens t) (FinishReason t) (Streamed t) (TTFTMillis t) (LatencyMs t) (CostUSD_t t)
    (StatusCode t) (ErrorType t) (ErrorMsg t) (GuardrailAction t) (OutputMessages t) (CacheHit
    t) v (PolicyReasons t) (GuardrailRule t) (EgressMode t).
Definition set_PolicyReasons (v : list PolicyReason) (t : Trace) : Trace :=
  mkTrace (t_base t) (CredentialSource t) (RequestModel t) (ResponseModel t) (InputTokens t)
    (OutputTokens t) (FinishReason t) (Streamed t) (TTFTMillis t) (LatencyMs t) (CostUSD_t t)
    (StatusCode t) (ErrorType t) (ErrorMsg t) (GuardrailAction t) (OutputMessages t) (CacheHit
    t) (Attempts t) v (GuardrailRule t) (EgressMode t).
Definition set_GuardrailRule (v : string) (t : Trace) : Trace :=
  mkTrace (t_base t) (CredentialSource t) (RequestModel t) (ResponseModel t) (InputTokens t)
    (OutputTokens t) (FinishReason t) (Streamed t) (TTFTMillis t) (LatencyMs t) (CostUSD_t t)
    (StatusCode t) (ErrorType t) (ErrorMsg t) (GuardrailAction t) (OutputMessages t) (CacheHit
    t) (Attempts t) (PolicyReasons t) v (EgressMode t).
Definition set_EgressMode (v : string) (t : Trace) : Trace :=
  mkTrace (t_base t) (CredentialSource t) (RequestModel t) (ResponseModel t) (InputTokens t)
    (OutputTokens t) (FinishReason t) (Streamed t) (TTFTMillis t) (LatencyMs t) (CostUSD_t t)
    (StatusCode t) (ErrorType t) (ErrorMsg t) (GuardrailAction t) (OutputMessages t) (CacheHit
    t) (Attempts t) (PolicyReasons t) (GuardrailRule t) v.

(** A trace as [newTrace] leaves it, before any outcome. *)
Definition fresh_trace (b : TraceBase) (model : string) : Trace :=
  mkTrace b "" model "" 0 0 "" false 0 0 fzero 0 "" "" "" "" false [] [] "" "".

(** ** gateway/evidence.go *)

Definition attemptFromTrace (t : Trace) (index chainLen : Z) : ProviderAttempt :=
  mkAttempt index (ProviderName (t_base t)) (RequestModel t) (CredentialSource t) (StatusCode t)
    (LatencyMs t) (ErrorType t) (ErrorMsg t) (CacheHit t) (index <? chainLen - 1).

Definition or_else (a b : string) : string := if String.eqb a "" then b else a.

Definition stampSharedTraceID (dst reqTrace : Trace) : Trace :=
  let d := t_base dst in
  let s := t_base reqTrace in
  mkTrace
    (mkBase (TraceID s) (SpanID d) (or_else (ParentID d) (ParentID s)) (Timestamp d) (t_OrgID d)
       (t_UserID d) (VirtualKeyID d) (OperationName d) (ProviderName d) (t_Temperature d) (t_TopP d)
       (t_MaxTokens d) (InputMessages d) (RetrievalContexts d) (EvalReference d) (ReplicaID d)
       (or_else (SessionID d) (SessionID s)) (or_else (TurnID d) (TurnID s)))
    (CredentialSource dst) (RequestModel dst) (ResponseModel dst) (InputTokens dst) (OutputTokens dst)
    (FinishReason dst) (Streamed dst) (TTFTMillis dst) (LatencyMs dst) (CostUSD_t dst) (StatusCode dst)
    (ErrorType dst) (ErrorMsg dst) (GuardrailAction dst) (OutputMessages dst) (CacheHit dst)
    (Attempts dst) (PolicyReasons dst) (GuardrailRule dst) (EgressMode dst).

(** ** turnkey.go *)

Definition is_user (m : Message) : bool := String.eqb (Role m) "user".

(** [None] is -1. *)
Fixpoint lastUserIndexBefore (msgs : list Message) (end_ : nat) : option nat :=
  match end_ with
  | O => None
  | S i =>
      match msgs !! i with
      | Some m => if is_user m then Some i else lastUserIndexBefore msgs i
      | None => lastUserIndexBefore msgs i
      end
  end.

Definition agentWasMidWork (m : Message) : bool :=
  String.eqb (Role m) "tool" ||
  (String.eqb (Role m) "assistant" && negb (length (ToolCalls m) =? 0)%nat).

(** The loop of [turnRootUserIndex]; each round moves to a smaller index, so
    [fuel] at the index is enough. *)
Fixpoint root_walk (fuel : nat) (msgs : list Message) (i : nat) : nat :=
  match fuel, i with
  | S fuel', S j =>
      match msgs !! j with
      | Some m =>
          if agentWasMidWork m then
            match lastUserIndexBefore msgs i with
            | Some prev => root_walk fuel' msgs prev
            | None => i
            end
          else i
      | None => i
      end
  | _, _ => i
  end.

Definition turnRootUserIndex (msgs : list Message) : option nat :=
  (fun i => root_walk i msgs i) <$> lastUserIndexBefore msgs (length msgs).

Definition is_system (m : Message) : bool :=
  String.eqb (Role m) "system" || String.eqb (Role m) "developer".

Definition turn_text (userID : string) (msgs : list Message) (root : nat) : string :=
  let system := match find is_system msgs with Some m => Content m | None => "" end in
  let lastUser := match msgs !! root with Some m => Content m | None => "" end in
  let nul := String (ascii_of_nat 0) "" in
  userID +:+ nul +:+ system +:+ nul +:+ TrimSpace lastUser.

(** [sha256_hex] is the hex digest of the bytes written to the hash. *)
Definition deriveTurnKey (sha256_hex : string → string) (userID : string) (msgs : list Message) : string :=
  match turnRootUserIndex msgs with
  | None => ""
  | Some root => take_bytes 16 (sha256_hex (turn_text userID msgs root))
  end.

(** * Theorems: the turn key *)

Lemma lastUser_lt msgs n i : lastUserIndexBefore msgs n = Some i → (i < n)%nat.
Proof.
  induction n as [|n IH]; cbn [lastUserIndexBefore]; [done|].
  destruct (msgs !! n) as [m|]; [destruct (is_user m)|]; intros H; simplify_eq; try lia;
    apply IH in H; lia.
Qed.

Lemma lastUser_app msgs l n :
  (n ≤ length msgs)%nat → lastUserIndexBefore (msgs ++ l)%list n = lastUserIndexBefore msgs n.
Proof.
  induction n as [|n IH]; intros Hn; [done|]. cbn [lastUserIndexBefore].
  rewrite lookup_app_l by lia. by rewrite IH by lia.
Qed.

(** Messages that are not the user's do not move the last user message. *)
Lemma lastUser_skip msgs l :
  Forall (fun m => is_user m = false) l →
  lastUserIndexBefore (msgs ++ l)%list (length (msgs ++ l)%list) =
  lastUserIndexBefore msgs (length msgs).
Proof.
  intros H. rewrite length_app. revert H. induction l as [|m l IH] using rev_ind; intros H.
  { cbn [length]. by rewrite Nat.add_0_r, lastUser_app. }
  apply Forall_app in H as [H [Hm _]%Forall_cons]. rewrite length_app. cbn [length].
  replace (length msgs + (length l + 1))%nat with (S (length msgs + length l)) by lia.
  cbn [lastUserIndexBefore]. rewrite app_assoc, lookup_app_r by (rewrite length_app; lia).
  rewrite length_app, Nat.sub_diag. cbn. rewrite Hm.
  rewrite lastUser_app by (rewrite length_app; lia). by apply IH.
Qed.

Lemma root_walk_app f msgs l i :
  (i < length msgs)%nat → root_walk f (msgs ++ l)%list i = root_walk f msgs i.
Proof.
  revert i. induction f as [|f IH]; intros i Hi; [done|]. destruct i as [|j]; [done|].
  cbn [root_walk]. rewrite lookup_app_l by lia. rewrite lastUser_app by lia.
  destruct (msgs !! j) as [m|]; [|done]. destruct (agentWasMidWork m); [|done].
  destruct (lastUserIndexBefore msgs (S j)) as [p|] eqn:E; [|done].
  apply IH. apply lastUser_lt in E. lia.
Qed.

Lemma root_walk_fuel f msgs i : (i ≤ f)%nat → root_walk f msgs i = root_walk i msgs i.
Proof.
  revert f. induction i as [i IH] using lt_wf_ind. intros f Hf.
  destruct i as [|j]; [by destruct f|]. destruct f as [|f]; [lia|]. cbn [root_walk].
  destruct (msgs !! j) as [m|]; [|done]. destruct (agentWasMidWork m); [|done].
  destruct (lastUserIndexBefore msgs (S j)) as [p|] eqn:E; [|done]. apply lastUser_lt in E.
  rewrite (IH p) by lia. by rewrite (IH p E j) by lia.
Qed.

Lemma root_walk_le f msgs i : (root_walk f msgs i ≤ i)%nat.
Proof.
  revert i. induction f as [|f IH]; intros i; [done|]. destruct i as [|j]; [done|]. cbn [root_walk].
  destruct (msgs !! j) as [m|]; [|done]. destruct (agentWasMidWork m); [|done].
  destruct (lastUserIndexBefore msgs (S j)) as [p|] eqn:E; [|done]. apply lastUser_lt in E.
  pose proof (IH p). lia.
Qed.

Lemma find_app {A} (f : A → bool) l k : find f (l ++ k)%list =
  match find f l with Some x => Some x | None => find f k end.
Proof. induction l as [|x l IH]; simpl; [done|]. by destruct (f x). Qed.

Lemma find_none_Forall {A} (f : A → bool) l : Forall (fun x => f x = false) l → find f l = None.
Proof. induction 1 as [|x l Hx Hl IH]; simpl; [done|]. by rewrite Hx. Qed.

(** What the agent adds to the history while it works. *)
Definition agent_message (m : Message) : Prop := is_user m = false ∧ is_system m = false.

Lemma turn_text_app userID msgs l root :
  Forall (fun m => is_system m = false) l → (root < length msgs)%nat →
  turn_text userID (msgs ++ l)%list root = turn_text userID msgs root.
Proof.
  intros Hl Hr. unfold turn_text. rewrite find_app, (find_none_Forall _ _ Hl), lookup_app_l by done.
  by destruct (find is_system msgs).
Qed.

Lemma turnRoot_app msgs l :
  Forall (fun m => is_user m = false) l →
  turnRootUserIndex (msgs ++ l)%list = turnRootUserIndex msgs.
Proof.
  intros Hl. unfold turnRootUserIndex. rewrite lastUser_skip by done.
  destruct (lastUserIndexBefore msgs (length msgs)) as [i|] eqn:E; [|done]. simpl. f_equal.
  apply root_walk_app. by apply lastUser_lt in E.
Qed.

Lemma turnRoot_lt msgs i : turnRootUserIndex msgs = Some i → (i < length msgs)%nat.
Proof.
  unfold turnRootUserIndex. destruct (lastUserIndexBefore msgs (length msgs)) as [p|] eqn:E; [|done].
  simpl. intros [= <-]. apply lastUser_lt in E. pose proof (root_walk_le p msgs p). lia.
Qed.

(** An interruption: the user writes while the agent is at work. *)
Lemma turnRoot_interrupt msgs work w q :
  Forall (fun m => is_user m = false) (work ++ [w])%list → agentWasMidWork w = true → is_user q = true →
  is_Some (turnRootUserIndex msgs) →
  turnRootUserIndex (msgs ++ (work ++ [w]) ++ [q])%list = turnRootUserIndex msgs.
Proof.
  intros Hw Hmid Hq [root Hroot]. set (l := (msgs ++ (work ++ [w]))%list).
  replace (msgs ++ (work ++ [w]) ++ [q])%list with (l ++ [q])%list by (unfold l; by rewrite <- !app_assoc).
  assert (Hlast : lastUserIndexBefore (l ++ [q])%list (length (l ++ [q])%list) = Some (length l)).
  { rewrite length_app. cbn [length]. rewrite Nat.add_1_r. cbn [lastUserIndexBefore].
    rewrite lookup_app_r, Nat.sub_diag by lia. cbn. by rewrite Hq. }
  unfold turnRootUserIndex at 1. rewrite Hlast. simpl.
  assert (Hlen : length l = S (length (msgs ++ work)%list)).
  { unfold l. rewrite !length_app. cbn [length]. lia. }
  rewrite Hlen at 1 2. cbn [root_walk].
  rewrite lookup_app_l by lia. unfold l at 1. rewrite app_assoc, lookup_app_r, Nat.sub_diag by lia.
  cbn [lookup list_lookup]. rewrite Hmid, <- Hlen, lastUser_app by lia. unfold l at 1 2.
  rewrite lastUser_skip by done.
  unfold turnRootUserIndex in Hroot |- *.
  destruct (lastUserIndexBefore msgs (length msgs)) as [p|] eqn:E; [|done]. simpl. f_equal.
  apply lastUser_lt in E. rewrite length_app. rewrite root_walk_fuel by lia.
  rewrite root_walk_app; [|unfold l; rewrite length_app; lia]. unfold l. by rewrite root_walk_app by lia.
Qed.

(** * Claims *)

(** The turn key joins the calls of one turn and separates turns: it is
    unchanged by whatever the agent appends while it works, and by a message
    the user sends while the last thing in the history is work in progress; a
    user message after a finished answer opens a new turn at that message. *)
Theorem turn_key_groups (sha256_hex : string → string) (userID : string)
    (msgs work : list Message) (w a q : Message) :
  Forall agent_message work → agent_message w → agentWasMidWork w = true →
  is_user q = true → is_system q = false →
  Role a = "assistant" → ToolCalls a = [] → is_Some (turnRootUserIndex msgs) →
  deriveTurnKey sha256_hex userID (msgs ++ work)%list = deriveTurnKey sha256_hex userID msgs ∧
  deriveTurnKey sha256_hex userID (msgs ++ (work ++ [w]) ++ [q])%list =
    deriveTurnKey sha256_hex userID msgs ∧
  turnRootUserIndex (msgs ++ [a; q])%list = Some (S (length msgs)).
Proof.
  intros Hwork Hw Hmid Hq Hqs Ha Htc Hroot.
  assert (Hall : ∀ P : Message → Prop, (∀ m, agent_message m → P m) →
            Forall P work ∧ Forall P (work ++ [w])%list).
  { intros P HP. split; [|apply Forall_app; split; [|apply Forall_singleton; by apply HP]];
      eapply Forall_impl; try done; exact HP. }
  unfold deriveTurnKey. destruct Hroot as [root Hr]. pose proof (turnRoot_lt _ _ Hr) as Hlt.
  split_and!.
  - rewrite turnRoot_app, Hr by (apply Hall; by intros m []).
    by rewrite turn_text_app by (try done; apply Hall; by intros m []).
  - rewrite turnRoot_interrupt, Hr by (try done; try (apply Hall; by intros m []); by eexists).
    rewrite turn_text_app; [done| |done]. apply Forall_app. split; [apply Hall; by intros m []|].
    by apply Forall_singleton.
  - unfold turnRootUserIndex. rewrite length_app. cbn [length].
    replace (length msgs + 2)%nat with (S (S (length msgs))) by lia. cbn [lastUserIndexBefore].
    rewrite lookup_app_r by lia. replace (S (length msgs) - length msgs)%nat with 1%nat by lia.
    cbn [lookup list_lookup]. rewrite Hq. simpl. f_equal.
    rewrite lookup_app_r, Nat.sub_diag by lia. cbn. unfold agentWasMidWork. by rewrite Ha, Htc.
Qed.

(** ** Witness *)

Definition ask (s : string) : Message := text_message "user" s.
Definition tool_step : Message := mkMessage "assistant" "" "" [function_call "1" "f" "{}"] "".

Lemma turn_key_groups_witness :
  deriveTurnKey id "u" [ask "Q1"; tool_step; ask "also X"] = deriveTurnKey id "u" [ask "Q1"].
Proof.
  apply (turn_key_groups id "u" [ask "Q1"] [] tool_step (text_message "assistant" "done") (ask "also X"));
    try done; vm_compute; by eexists.
Defined.
