(* ===== verification/Gateway.v ===== *)
(** * Gateway: src/internal/gateway/handler.go (with evidence.go)

    The chat completions handler: decoding, input guardrails, the candidate
    chain, the unary loop with its cache, fallback, redaction, JSON validation
    and self-correction, and the streaming path.

    A handler runs in the state monad [G] over the mutable parts (balancer,
    credential cache) and a log of effects, latest first: what it wrote to the
    response, each upstream call, each recorded trace, each spend entry, each
    cache look-up and store, each failover notice.  What the outside answers is
    given by functions of the number of questions asked so far: the clock, the
    UUIDs, the upstream providers, the credential store; the semantic cache
    answers by its arguments.  JSON coding and [strconv.FormatFloat] are
    parameters. *)

From S2P Require Import Prelude GoString Float64 GoTime ApiErr Balancer Registry Pricing.
From S2P Require Import Credentials Guardrails SemCache GwTypes Middleware.
Local Open Scope string_scope.
Local Open Scope Z_scope.

(** ** Configuration and effects *)

Record FailoverEvent := mkFailover {
  fo_OrgID : string;
  fo_VirtualKeyID : string;
  fo_Alias : string;
  fo_Tried : list string;
  fo_Primary : string;
  fo_Fallback : string;
  fo_Reason : string;
  fo_LatencyMs : Z;
  fo_FailedAtUnix : Z;
  fo_ReplicaID : string
}.

(** The [Handler] struct.  Optional collaborators the handler only calls are
    flags; their calls appear in the log. *)
Record GwHandler := mkGwHandler {
  gh_registry : Registry.Registry;
  gh_recorder : bool;
  gh_limiter : bool;
  gh_router : option (list string → float64 → list string);
  gh_groups : gmap string (list string);
  gh_guard : option Guard;
  gh_selfCorrectMax : Z;
  gh_lb : bool;
  gh_scache : bool;
  gh_credResolver : bool;
  gh_keyMode : KeyMode;
  gh_replicaID : string;
  gh_notifier : bool;
  gh_egressMode : string
}.

(** One call of an adapter: which, with which credential override, for what. *)
Record upstream_call := mkUp {
  up_provider : Provider;
  up_cred : option CallerCredential;
  up_req : ChatCompletionRequest
}.

Inductive event :=
| EvWrite (c : wcall)
| EvUpstream (u : upstream_call)
| EvRecord (t : Trace)
| EvSpend (vkey : string) (cost : float64)
| EvCacheLookup (scope model prompt : string)
| EvCacheStore (scope model prompt : string) (vec : list float64) (resp : string)
| EvNotify (f : FailoverEvent).

Record gstate := mkG {
  g_log : list event;
  g_clock : nat;
  g_uuid : nat;
  g_up : nat;
  g_src : nat;
  g_lb : option WeightedRR;
  g_cred : CredentialResolver
}.

(** ** The monad *)

Definition G (A : Type) : Type := gstate → A * gstate.
#[export] Instance G_ret : MRet G := fun A a s => (a, s).
#[export] Instance G_bind : MBind G := fun A B k m s => let '(a, s') := m s in k a s'.

Definition emit (e : event) : G unit := fun s =>
  (tt, mkG (e :: g_log s) (g_clock s) (g_uuid s) (g_up s) (g_src s) (g_lb s) (g_cred s)).

Fixpoint emits (es : list event) : G unit :=
  match es with
  | [] => mret tt
  | e :: es' => emit e;; emits es'
  end.

(** Everything the handler asks the outside: the clock, the UUIDs, the upstream
    adapters and the credential store, by the number of questions asked so far;
    the semantic cache; and the codecs. *)
Record Env (doc schema : Type) := mkEnv {
  (* the outside *)
  e_clock : nat → Time;
  e_uuids : nat → string;
  e_upstream : nat → upstream_call → res string ChatCompletionResponse;
  e_open_stream : nat → upstream_call → res string (list StreamEvent);
  e_cred_source : nat → string → string → string → res string (ResolvedCredential * bool);
  e_cache_lookup : string → string → string → res string (option Hit * list float64);
  (* JSON and number formatting *)
  e_encode_error : string → string → string;
  e_encode_response : ChatCompletionResponse → string;
  e_marshal_response : ChatCompletionResponse → option string;
  e_unmarshal_response : option string → option ChatCompletionResponse;
  e_encode_messages : list Message → string;
  e_encode_contexts : list string → string;
  e_encode_chunk : ChatCompletionChunk → string;
  e_format_cost : float64 → string;
  e_quote : string → string;
  e_sha256_hex : string → string;
  (* the JSON validator of the guard *)
  e_unmarshal : string → res string doc;
  e_compileSchema : string → option schema;
  e_validate : schema → doc → option string;
  (* decoding of the request body *)
  e_is_hybrid : string → bool;
  e_transform_hybrid : string → res string ChatCompletionRequest;
  e_decode_request : string → res string ChatCompletionRequest;
  e_probe : string → option (option (gmap string string) * string)
}.
Arguments e_clock {doc schema}.
Arguments e_uuids {doc schema}.
Arguments e_upstream {doc schema}.
Arguments e_open_stream {doc schema}.
Arguments e_cred_source {doc schema}.
Arguments e_cache_lookup {doc schema}.
Arguments e_encode_error {doc schema}.
Arguments e_encode_response {doc schema}.
Arguments e_marshal_response {doc schema}.
Arguments e_unmarshal_response {doc schema}.
Arguments e_encode_messages {doc schema}.
Arguments e_encode_contexts {doc schema}.
Arguments e_encode_chunk {doc schema}.
Arguments e_format_cost {doc schema}.
Arguments e_quote {doc schema}.
Arguments e_sha256_hex {doc schema}.
Arguments e_unmarshal {doc schema}.
Arguments e_compileSchema {doc schema}.
Arguments e_validate {doc schema}.
Arguments e_is_hybrid {doc schema}.
Arguments e_transform_hybrid {doc schema}.
Arguments e_decode_request {doc schema}.
Arguments e_probe {doc schema}.

Section Handler.
Context {doc schema : Type} (env : Env doc schema) (h : GwHandler).

#[local] Abbreviation clock := (e_clock env).
#[local] Abbreviation uuids := (e_uuids env).
#[local] Abbreviation upstream := (e_upstream env).
#[local] Abbreviation open_stream := (e_open_stream env).
#[local] Abbreviation cred_source := (e_cred_source env).
#[local] Abbreviation cache_lookup := (e_cache_lookup env).
#[local] Abbreviation encode_error := (e_encode_error env).
#[local] Abbreviation encode_response := (e_encode_response env).
#[local] Abbreviation marshal_response := (e_marshal_response env).
#[local] Abbreviation unmarshal_response := (e_unmarshal_response env).
#[local] Abbreviation encode_messages := (e_encode_messages env).
#[local] Abbreviation encode_contexts := (e_encode_contexts env).
#[local] Abbreviation encode_chunk := (e_encode_chunk env).
#[local] Abbreviation format_cost := (e_format_cost env).
#[local] Abbreviation quote := (e_quote env).
#[local] Abbreviation sha256_hex := (e_sha256_hex env).
#[local] Abbreviation unmarshal := (e_unmarshal env).
#[local] Abbreviation compileSchema := (e_compileSchema env).
#[local] Abbreviation validate := (e_validate env).
#[local] Abbreviation is_hybrid := (e_is_hybrid env).
#[local] Abbreviation transform_hybrid := (e_transform_hybrid env).
#[local] Abbreviation decode_request := (e_decode_request env).
#[local] Abbreviation probe := (e_probe env).

Definition now : G Time := fun s =>
  (clock (g_clock s), mkG (g_log s) (S (g_clock s)) (g_uuid s) (g_up s) (g_src s) (g_lb s) (g_cred s)).
Definition NewString : G string := fun s =>
  (uuids (g_uuid s), mkG (g_log s) (g_clock s) (S (g_uuid s)) (g_up s) (g_src s) (g_lb s) (g_cred s)).

Definition Since (t : Time) : G Z := n ← now; mret (Milliseconds (Sub n t)).

Definition ChatCompletion (u : upstream_call) : G (res string ChatCompletionResponse) := fun s =>
  (upstream (g_up s) u,
   mkG (EvUpstream u :: g_log s) (g_clock s) (g_uuid s) (S (g_up s)) (g_src s) (g_lb s) (g_cred s)).
Definition ChatCompletionStream (u : upstream_call) : G (res string (list StreamEvent)) := fun s =>
  (open_stream (g_up s) u,
   mkG (EvUpstream u :: g_log s) (g_clock s) (g_uuid s) (S (g_up s)) (g_src s) (g_lb s) (g_cred s)).

Definition write (cs : list wcall) : G unit := emits (EvWrite <$> cs).

Definition writeErr (c : reqCtx) (status : Z) (errType msg : string) : G unit :=
  write (writeError encode_error c status errType msg).
Definition writeResp (status : Z) (r : ChatCompletionResponse) : G unit :=
  write [SetHeader "Content-Type" "application/json"; WriteHeader status; Write (encode_response r)].

Definition costHeaderName : string := "x-nexus-cost-usd".
Definition setCostHeader (cost : float64) : G unit := write [SetHeader costHeaderName (format_cost cost)].
Definition setCostTrailer (cost : float64) : G unit :=
  write [SetHeader ("Trailer:" +:+ costHeaderName) (format_cost cost)].

(** ** Helpers of the handler *)

Definition cloneUsageForCost (u : Usage) : Usage :=
  mkUsage (PromptTokens u) (CompletionTokens u) (TotalTokens u) (EstimatedCost u) fzero
    (PromptDetails u) (CompletionDetails u).

Definition promptText (messages : list Message) : string :=
  Join (Content <$> messages) (String (ascii_of_nat 10) "").

Definition cacheEligible (req : ChatCompletionRequest) : bool :=
  if negb (length (Tools req) =? 0)%nat then false
  else match Temperature req with
       | Some t => if negb (feq t fzero) then false
                   else match NexusEval req with Some _ => false | None => true end
       | None => match NexusEval req with Some _ => false | None => true end
       end.

Definition cacheScope (c : reqCtx) : string :=
  if negb (String.eqb (ctx_OrgID c) "") then ctx_OrgID c
  else if negb (String.eqb (ctx_VKeyID c) "") then ctx_VKeyID c
  else "default".

Definition modelAllowed (c : reqCtx) (model : string) : bool :=
  match ctx_AllowedModels c with
  | [] => true
  | allowed =>
      existsb (fun m => String.eqb m model ||
        match Cut m "/" with
        | Some (_, rest) => String.eqb rest model
        | None => false
        end) allowed
  end.

Definition filterAllowed (c : reqCtx) (candidates : list string) : list string :=
  filter (fun m => Is_true (modelAllowed c m)) candidates.

Definition routeCandidates (model : string) : option (list string) :=
  if String.eqb model "auto" then Some (AllModels (gh_registry h)) else gh_groups h !! model.

(** [order]: the aliases in the order the loop over the map visits them. *)
Definition aliasForModel (order : list (string * list string)) (m : string) : string :=
  match find (fun '(alias, members) => negb (String.eqb alias "auto") && mem m members) order with
  | Some (alias, _) => alias
  | None => ""
  end.

Definition schemaAction (repaired : bool) (corrected : Z) : string :=
  Join ((if repaired then ["json_repaired"] else []) ++
        (if 0 <? corrected then ["self_corrected:" +:+ Itoa (Z.to_nat corrected)] else []))%list ",".

Definition withSchemaCorrection (req : ChatCompletionRequest) (badOutput reason : string) :
    ChatCompletionRequest :=
  with_messages (Messages req ++
    [text_message "assistant" badOutput;
     text_message "user" ("Your previous response was rejected: " +:+ reason +:+
       " Reply with ONLY a corrected response that satisfies the requested response_format. " +:+
       "Do not include explanations, comments, or markdown code fences.")])%list req.

Definition CheckJSON (content schema_bytes : string) : Finding :=
  CheckJSONOutput unmarshal compileSchema validate (gh_guard h) content schema_bytes.

Definition validateOrRepairJSON (content schema_bytes : string) : string * Finding * bool :=
  let f := CheckJSON content schema_bytes in
  if negb (Blocked f) then (content, f, false)
  else
    let '(fixed, ok) := RepairJSON content in
    if ok then
      let rf := CheckJSON fixed schema_bytes in
      if negb (Blocked rf) then (fixed, rf, true) else (content, f, false)
    else (content, f, false).

(** ** Traces *)

(** The session marker the request context carries. *)
Definition newTrace (c : reqCtx) (session : string) (req : ChatCompletionRequest) (providerName : string) :
    G Trace :=
  tid ← NewString;
  sid ← NewString;
  ts ← now;
  mret (fresh_trace
    (mkBase tid sid "" ts (ctx_OrgID c) (ctx_UserID c) (ctx_VKeyID c) "chat" providerName
       (default fzero (Temperature req)) (default fzero (TopP req)) (default 0 (MaxTokens req))
       (encode_messages (Messages req))
       (match NexusEval req with
        | Some e => match Contexts e with [] => "" | cs => encode_contexts cs end
        | None => ""
        end)
       (match NexusEval req with Some e => Reference e | None => "" end)
       (gh_replicaID h) session (deriveTurnKey sha256_hex (ctx_UserID c) (Messages req)))
    (Model req)).

Definition recordEvidence (t : Trace) (attempts : list ProviderAttempt) (reasons : list PolicyReason) : G unit :=
  if negb (gh_recorder h) then mret tt
  else
    let t := set_EgressMode (gh_egressMode h) (set_PolicyReasons reasons (set_Attempts attempts t)) in
    let t := if String.eqb (GuardrailRule t) ""
             then set_GuardrailRule (GuardrailRuleFromAction (GuardrailAction t)) t else t in
    emit (EvRecord t).

Definition recordPolicyDenied (c : reqCtx) (session : string) (req : ChatCompletionRequest) (status : Z)
    (code detail : string) : G unit :=
  t ← newTrace c session req "";
  recordEvidence (set_ErrorMsg detail (set_ErrorType code (set_StatusCode status t))) []
    [mkReason code "" detail].

Definition recordGuardrailBlock (c : reqCtx) (session : string) (req : ChatCompletionRequest) (f : Finding) : G unit :=
  t ← newTrace c session req "";
  recordEvidence
    (set_GuardrailRule (Rule f) (set_GuardrailAction ("input_blocked:" +:+ Rule f)
      (set_ErrorMsg (Reason f) (set_ErrorType "guardrail_blocked" (set_StatusCode 403 t)))))
    [] [mkReason ReasonGuardrailBlocked (Rule f) (Reason f)].

Definition recordSpend (c : reqCtx) (cost : float64) : G unit :=
  if negb (gh_limiter h) || fle cost fzero then mret tt
  else if String.eqb (ctx_VKeyID c) "" then mret tt
  else emit (EvSpend (ctx_VKeyID c) cost).

Definition notifyFailover (f : FailoverEvent) : G unit :=
  if gh_notifier h then emit (EvNotify f) else mret tt.

(** ** Credentials *)

(** The credential override and the source tag, or the missing-key error. *)
Definition injectCredential (c : reqCtx) (providerName : string) :
    G (res string (option CallerCredential * string)) := fun s =>
  if bool_decide (gh_keyMode h = KeyModeShared) || negb (gh_credResolver h) then (Ok (None, "env"), s)
  else
    let missing := Err ("no API key registered for provider " +:+ providerName) in
    let '(r, cr, asked) :=
      Credentials.Resolve (g_cred s) (ctx_OrgID c) (ctx_UserID c) providerName
        (clock (g_clock s)) (clock (S (g_clock s)))
        (cred_source (g_src s) (ctx_OrgID c) (ctx_UserID c) providerName) in
    let s' := mkG (g_log s) (S (S (g_clock s))) (g_uuid s) (g_up s)
                (if asked then S (g_src s) else g_src s) (g_lb s) cr in
    match r with
    | Err _ | Ok (_, false) =>
        (if bool_decide (gh_keyMode h = KeyModeStrictBYOK) then missing else Ok (None, "env"), s')
    | Ok (cred, true) =>
        (Ok (WithCallerCredential None (mkCaller (rc_Secret cred) (rc_BaseURL cred) (rc_Source cred)),
             rc_Source cred), s')
    end.

(** ** The candidate chain *)

(** The error text of [Registry.Resolve]; [quote] is [%q]. *)
Definition no_provider (model : string) : string := "no provider registered for model " +:+ quote model.

(** The chain, an error response already written, or a panic of the balancer. *)
Inductive chain_result := Chain (models : list string) | Answered | ChainPanic.

Definition rotate (groupKey : string) (ranked : list string) : G chain_result := fun s =>
  if negb (gh_lb h) then (Chain ranked, s)
  else match RotateChain groupKey ranked (g_lb s) with
       | Some (l, lb) => (Chain l, mkG (g_log s) (g_clock s) (g_uuid s) (g_up s) (g_src s) lb (g_cred s))
       | None => (ChainPanic, s)
       end.

Definition deny (c : reqCtx) (session : string) (req : ChatCompletionRequest) (status : Z)
    (code errType detail : string) : G chain_result :=
  recordPolicyDenied c session req status code detail;;
  writeErr c status errType detail;;
  mret Answered.

(** The part of [resolveChain] for a concrete model. *)
Definition resolve_concrete (c : reqCtx) (session : string) (req : ChatCompletionRequest) : G chain_result :=
  if negb (modelAllowed c (Model req)) then
    deny c session req 403 ReasonModelNotAllowed "model_not_allowed"
      ("this virtual key is not permitted to use model " +:+ Model req)
  else match Registry.Resolve (gh_registry h) (Model req) with
       | None =>
           deny c session req 404 ReasonDenied "model_not_found"
             (no_provider (Model req))
       | Some _ => mret (Chain [Model req])
       end.

Definition resolveChain (c : reqCtx) (session : string) (req : ChatCompletionRequest) : G chain_result :=
  match gh_router h with
  | Some rank =>
      match routeCandidates (Model req) with
      | Some candidates =>
          match filterAllowed c candidates with
          | [] => deny c session req 403 ReasonModelNotAllowed "model_not_allowed"
                    ("this virtual key is not permitted to use any model in group " +:+ Model req)
          | allowed =>
              match rank allowed (ctx_MinQuality c) with
              | [] => deny c session req 503 ReasonMinQuality "no_model_meets_quality"
                        "no allowed model currently meets the minimum quality score for this key"
              | ranked => rotate (Model req) ranked
              end
          end
      | None => resolve_concrete c session req
      end
  | None => resolve_concrete c session req
  end.

(** ** handleUnary *)

Definition first_content (r : ChatCompletionResponse) : string :=
  match r_Choices r with c :: _ => Content (c_Message c) | [] => "" end.
Definition first_finish (r : ChatCompletionResponse) : string :=
  match r_Choices r with c :: _ => c_FinishReason c | [] => "" end.

(** What the loop carries from candidate to candidate. *)
Record loop_state := mkLoop {
  ls_attempts : list ProviderAttempt;
  ls_reasons : list PolicyReason;
  ls_lastTrace : option Trace;
  ls_lastErr : option string
}.

Definition redact_first (r : ChatCompletionResponse) : ChatCompletionResponse * bool :=
  let '(redacted, changed) := RedactOutput (gh_guard h) (first_content r) in
  if changed then (set_first_content redacted r, true) else (r, false).

(** The self-correction loop: response, trace, last finding, whether anything was
    repaired, and the number of corrections asked for. *)
Fixpoint self_correct (fuel : nat) (p : Provider) (cred : option CallerCredential) (schema_bytes : string)
    (attempt : ChatCompletionRequest) (resp : ChatCompletionResponse) (trace : Trace) (f : Finding)
    (repaired : bool) (corrected : Z) :
    G (ChatCompletionResponse * Trace * Finding * bool * Z) :=
  match fuel with
  | O => mret (resp, trace, f, repaired, corrected)
  | S fuel' =>
      if negb (Blocked f) then mret (resp, trace, f, repaired, corrected)
      else
        let attempt := withSchemaCorrection attempt (first_content resp) (Reason f) in
        r ← ChatCompletion (mkUp p cred attempt);
        match r with
        | Err _ => mret (resp, trace, f, repaired, corrected + 1)
        | Ok cresp =>
            match r_Choices cresp with
            | [] => mret (resp, trace, f, repaired, corrected + 1)
            | _ =>
                let '(resp, _) := redact_first cresp in
                let trace :=
                  set_ResponseModel (r_Model resp)
                    (set_OutputTokens (wrap64 (OutputTokens trace + CompletionTokens (r_Usage resp)))
                      (set_InputTokens (wrap64 (InputTokens trace + PromptTokens (r_Usage resp))) trace)) in
                let '(content, f, rep) := validateOrRepairJSON (first_content resp) schema_bytes in
                self_correct fuel' p cred schema_bytes attempt (set_first_content content resp) trace f
                  (repaired || rep) (corrected + 1)
            end
        end
  end.

Definition trace_cost (resp : ChatCompletionResponse) (trace : Trace) : float64 :=
  ResolveCostUSD (EstimatedCost (r_Usage resp)) (RequestModel trace) (ResponseModel trace)
    (Some (r_Usage resp)).

(** The end of a successful attempt, from the cost on. *)
Definition unary_finish (c : reqCtx) (req : ChatCompletionRequest) (i chainLen : Z) (embedVec : list float64)
    (resp : ChatCompletionResponse) (trace : Trace) (ls : loop_state) : G unit :=
  let trace := set_CostUSD_t (trace_cost resp trace) trace in
  (if gh_scache h && (i =? 0) && cacheEligible req then
     match marshal_response resp with
     | Some b => emit (EvCacheStore (cacheScope c) (Model req) (promptText (Messages req)) embedVec b)
     | None => mret tt
     end
   else mret tt);;
  setCostHeader (CostUSD_t trace);;
  recordEvidence trace (ls_attempts ls ++ [attemptFromTrace trace i chainLen])%list
    (ls_reasons ls ++
     (if String.eqb (GuardrailAction trace) "output_redacted"
      then [mkReason ReasonRedacted "" "output_redacted"] else []) ++
     [mkReason ReasonAllowed "" ""])%list;;
  recordSpend c (CostUSD_t trace);;
  writeResp 200 (set_resp_cost (CostUSD_t trace) resp).

(** A response that stays invalid after repair and self-correction. *)
Definition unary_blocked (c : reqCtx) (i chainLen : Z) (attemptStart : Time)
    (resp : ChatCompletionResponse) (trace : Trace) (f : Finding) (ls : loop_state) : G unit :=
  lat ← Since attemptStart;
  let trace :=
    set_OutputMessages (first_content resp)
      (set_FinishReason (first_finish resp)
        (set_GuardrailAction ("output_schema_blocked:" +:+ Rule f)
          (set_ErrorMsg (Reason f)
            (set_ErrorType "schema_validation_failed"
              (set_StatusCode 422 (set_LatencyMs lat trace)))))) in
  let trace := set_CostUSD_t (trace_cost resp trace) trace in
  recordEvidence trace (ls_attempts ls ++ [attemptFromTrace trace i chainLen])%list
    (ls_reasons ls ++ [mkReason ReasonSchemaBlocked (Rule f) (Reason f)])%list;;
  recordSpend c (CostUSD_t trace);;
  writeErr c 422 "schema_validation_failed" (Reason f).

(** An upstream answer: output guardrails, then one of the two ends above. *)
Definition unary_success (c : reqCtx) (req : ChatCompletionRequest) (i chainLen : Z) (p : Provider)
    (cred : option CallerCredential) (attempt : ChatCompletionRequest) (attemptStart : Time)
    (embedVec : list float64) (resp : ChatCompletionResponse) (trace : Trace) (ls : loop_state) : G unit :=
  lat ← Since attemptStart;
  let trace :=
    set_OutputTokens (CompletionTokens (r_Usage resp))
      (set_InputTokens (PromptTokens (r_Usage resp))
        (set_ResponseModel (r_Model resp) (set_StatusCode 200 (set_LatencyMs lat trace)))) in
  match r_Choices resp with
  | [] => unary_finish c req i chainLen embedVec resp trace ls
  | _ =>
      let '(resp, changed) := redact_first resp in
      let trace := if changed then set_GuardrailAction "output_redacted" trace else trace in
      if negb (WantsJSON (Format req)) then
        unary_finish c req i chainLen embedVec resp
          (set_OutputMessages (first_content resp) (set_FinishReason (first_finish resp) trace)) ls
      else
        let schema_bytes := SchemaBytes (Format req) in
        let '(content, f, repaired) := validateOrRepairJSON (first_content resp) schema_bytes in
        out ← self_correct (Z.to_nat (gh_selfCorrectMax h)) p cred schema_bytes attempt
                (set_first_content content resp) trace f repaired 0;
        let '(resp, trace, f, repaired, corrected) := out in
        let action := schemaAction repaired corrected in
        let trace := if String.eqb action "" then trace else set_GuardrailAction action trace in
        if Blocked f then unary_blocked c i chainLen attemptStart resp trace f ls
        else unary_finish c req i chainLen embedVec resp
               (set_OutputMessages (first_content resp) (set_FinishReason (first_finish resp) trace)) ls
  end.

(** A cache hit that decodes. *)
Definition unary_hit (i chainLen : Z) (attemptStart : Time) (cached : ChatCompletionResponse)
    (trace : Trace) (ls : loop_state) : G unit :=
  lat ← Since attemptStart;
  let trace :=
    set_ResponseModel (r_Model cached) (set_CacheHit true (set_StatusCode 200 (set_LatencyMs lat trace))) in
  let trace :=
    match r_Choices cached with
    | [] => trace
    | _ => set_FinishReason (first_finish cached) (set_OutputMessages (first_content cached) trace)
    end in
  let trace :=
    set_CostUSD_t (CostUSD (RequestModel trace) (ResponseModel trace) (InputTokens trace)
                     (OutputTokens trace)) trace in
  setCostHeader (CostUSD_t trace);;
  recordEvidence trace (ls_attempts ls ++ [attemptFromTrace trace i chainLen])%list
    (ls_reasons ls ++ [mkReason ReasonCacheHit "" "semantic cache"])%list;;
  writeResp 200 (set_resp_cost (CostUSD_t trace) cached).

Definition lookup_cache (c : reqCtx) (req : ChatCompletionRequest) : G (res string (option Hit * list float64)) :=
  let scope := cacheScope c in
  let prompt := promptText (Messages req) in
  emit (EvCacheLookup scope (Model req) prompt);;
  mret (cache_lookup scope (Model req) prompt).

(** An upstream error: the failed hop, and the notice when another candidate
    remains. *)
Definition unary_failed (req : ChatCompletionRequest) (order : list (string * list string))
    (full : list string) (i chainLen : Z) (attemptStart : Time) (trace : Trace) (err : string)
    (ls : loop_state) : G loop_state :=
  failedAt ← now;
  lat ← Since attemptStart;
  let failover := i <? chainLen - 1 in
  let trace :=
    set_ErrorMsg err
      (set_ErrorType (if failover then "upstream_error_failover" else "upstream_error")
        (set_StatusCode 502 (set_LatencyMs lat trace))) in
  let name j := default "" (full !! Z.to_nat j) in
  let arrow := String (ascii_of_nat 226) (String (ascii_of_nat 134) (String (ascii_of_nat 146) "")) in
  (if failover then
     notifyFailover
       (mkFailover (t_OrgID (t_base trace)) (VirtualKeyID (t_base trace)) (aliasForModel order (Model req))
          (take (Z.to_nat (i + 1)) full) (name i) (name (i + 1)) (ErrorType trace) (LatencyMs trace)
          (Z.div failedAt Millisecond) (gh_replicaID h))
   else mret tt);;
  mret (mkLoop (ls_attempts ls ++ [attemptFromTrace trace i chainLen])%list
    (ls_reasons ls ++
     [if failover then mkReason ReasonFallback "" (name i +:+ arrow +:+ name (i + 1))
      else mkReason ReasonUpstreamError "" err])%list
    (Some trace) (Some err)).

(** One candidate: [None] when the request was answered. *)
Definition unary_candidate (c : reqCtx) (session : string) (req : ChatCompletionRequest)
    (order : list (string * list string)) (full : list string) (reqTrace : Trace) (i : Z) (model : string)
    (ls : loop_state) : G (option loop_state) :=
  let chainLen := Z.of_nat (length full) in
  match Registry.Resolve (gh_registry h) model with
  | None => mret (Some (mkLoop (ls_attempts ls) (ls_reasons ls) (ls_lastTrace ls)
                     (Some (no_provider model))))
  | Some (p, fwdModel) =>
      let attempt := with_model fwdModel req in
      t ← newTrace c session req (p_name p);
      let trace := set_RequestModel model (stampSharedTraceID t reqTrace) in
      attemptStart ← now;
      ic ← injectCredential c (p_name p);
      match ic with
      | Err err =>
          lat ← Since attemptStart;
          let trace :=
            set_CredentialSource "none"
              (set_ErrorMsg err (set_ErrorType "missing_byok_key"
                (set_StatusCode 403 (set_LatencyMs lat trace)))) in
          mret (Some (mkLoop (ls_attempts ls ++ [attemptFromTrace trace i chainLen])%list
            (ls_reasons ls ++ [mkReason ReasonMissingBYOK "" err])%list (Some trace) (Some err)))
      | Ok (cred, source) =>
          let trace := set_CredentialSource source trace in
          (* the cache, on the primary candidate of an eligible request *)
          hit ← (if gh_scache h && (i =? 0) && cacheEligible req then
                   r ← lookup_cache c req;
                   match r with
                   | Err _ => mret (None, [])
                   | Ok (Some hit, _) => mret (unmarshal_response (ResponseJSON hit), [])
                   | Ok (None, vec) => mret (None, vec)
                   end
                 else mret (None, []));
          match hit with
          | (Some cached, _) => unary_hit i chainLen attemptStart cached trace ls;; mret None
          | (None, embedVec) =>
              r ← ChatCompletion (mkUp p cred attempt);
              match r with
              | Err err =>
                  ls' ← unary_failed req order full i chainLen attemptStart trace err ls;
                  mret (Some ls')
              | Ok resp =>
                  unary_success c req i chainLen p cred attempt attemptStart embedVec resp trace ls;;
                  mret None
              end
          end
      end
  end.

Fixpoint unary_loop (c : reqCtx) (session : string) (req : ChatCompletionRequest)
    (order : list (string * list string)) (full : list string) (reqTrace : Trace) (i : Z)
    (chain : list string) (ls : loop_state) : G (option loop_state) :=
  match chain with
  | [] => mret (Some ls)
  | model :: chain' =>
      r ← unary_candidate c session req order full reqTrace i model ls;
      match r with
      | None => mret None
      | Some ls' => unary_loop c session req order full reqTrace (i + 1) chain' ls'
      end
  end.

(** Every candidate failed: the trace of the last one tried, or the request's when
    there is none (an empty trace id). *)
Definition exhausted_trace (reqTrace : Trace) (streamed : bool) (msg : string) (start : Time)
    (last : option Trace) : G Trace :=
  let fresh :=
    lat ← Since start;
    let t := if streamed then set_Streamed true reqTrace else reqTrace in
    mret (set_LatencyMs lat (set_ErrorMsg msg (set_ErrorType "upstream_error" (set_StatusCode 502 t)))) in
  match last with
  | Some t => if String.eqb (TraceID (t_base t)) "" then fresh else mret t
  | None => fresh
  end.

Definition handleUnary (c : reqCtx) (session : string) (order : list (string * list string))
    (chain : list string) (req : ChatCompletionRequest) (start : Time) : G unit :=
  reqTrace ← newTrace c session req "";
  r ← unary_loop c session req order chain reqTrace 0 chain (mkLoop [] [] None None);
  match r with
  | None => mret tt
  | Some ls =>
      let msg := default "all candidate providers failed" (ls_lastErr ls) in
      t ← exhausted_trace reqTrace false msg start (ls_lastTrace ls);
      recordEvidence t (ls_attempts ls) (ls_reasons ls);;
      writeErr c 502 (code_string CodeUpstreamError) msg
  end.

(** ** handleStream *)

(** The opening loop: the stream and trace of the first candidate that connects. *)
Fixpoint open_loop (c : reqCtx) (session : string) (req : ChatCompletionRequest) (full : list string)
    (reqTrace : Trace) (i : Z) (chain : list string) (ls : loop_state) :
    G (option (list StreamEvent * Trace) * loop_state) :=
  let chainLen := Z.of_nat (length full) in
  match chain with
  | [] => mret (None, ls)
  | model :: chain' =>
      match Registry.Resolve (gh_registry h) model with
      | None => open_loop c session req full reqTrace (i + 1) chain'
                  (mkLoop (ls_attempts ls) (ls_reasons ls) (ls_lastTrace ls) (Some (no_provider model)))
      | Some (p, fwdModel) =>
          let attempt := with_model fwdModel req in
          t ← newTrace c session req (p_name p);
          let t := set_Streamed true (set_RequestModel model (stampSharedTraceID t reqTrace)) in
          attemptStart ← now;
          ic ← injectCredential c (p_name p);
          match ic with
          | Err err =>
              lat ← Since attemptStart;
              let t :=
                set_CredentialSource "none"
                  (set_ErrorMsg err (set_ErrorType "missing_byok_key"
                    (set_StatusCode 403 (set_LatencyMs lat t)))) in
              open_loop c session req full reqTrace (i + 1) chain'
                (mkLoop (ls_attempts ls ++ [attemptFromTrace t i chainLen])%list
                   (ls_reasons ls ++ [mkReason ReasonMissingBYOK "" err])%list (Some t) (Some err))
          | Ok (cred, source) =>
              let t := set_CredentialSource source t in
              r ← ChatCompletionStream (mkUp p cred attempt);
              match r with
              | Err err =>
                  lat ← Since attemptStart;
                  let failover := i <? chainLen - 1 in
                  let name j := default "" (full !! Z.to_nat j) in
                  let arrow := String (ascii_of_nat 226)
                                 (String (ascii_of_nat 134) (String (ascii_of_nat 146) "")) in
                  let t :=
                    set_ErrorMsg err
                      (set_ErrorType (if failover then "upstream_error_failover" else "upstream_error")
                        (set_StatusCode 502 (set_LatencyMs lat t))) in
                  open_loop c session req full reqTrace (i + 1) chain'
                    (mkLoop (ls_attempts ls ++ [attemptFromTrace t i chainLen])%list
                       (ls_reasons ls ++
                        [if failover then mkReason ReasonFallback "" (name i +:+ arrow +:+ name (i + 1))
                         else mkReason ReasonUpstreamError "" err])%list (Some t) (Some err))
              | Ok events =>
                  mret (Some (events, t),
                        mkLoop (ls_attempts ls ++ [attemptFromTrace t i chainLen])%list
                          (ls_reasons ls) (ls_lastTrace ls) (ls_lastErr ls))
              end
          end
      end
  end.

(** The variables of the event loop. *)
Record stream_state := mkSS {
  ss_trace : Trace;
  ss_out : string;
  ss_first : bool;
  ss_upstreamCost : float64;
  ss_lastUsage : option Usage
}.

(** The metrics both chunk branches read off a parsed chunk. *)
Definition note_chunk (start : Time) (k : ChatCompletionChunk) (st : stream_state) : G stream_state :=
  ttft ← (if ss_first st then (m ← Since start; mret (Some m)) else mret None);
  let t := match ttft with Some m => set_TTFTMillis m (ss_trace st) | None => ss_trace st end in
  let t := if String.eqb (k_Model k) "" then t else set_ResponseModel (k_Model k) t in
  let '(t, out) :=
    match k_Choices k with
    | [] => (t, ss_out st)
    | cc :: _ =>
        (if String.eqb (cc_FinishReason cc) "" then t else set_FinishReason (cc_FinishReason cc) t,
         ss_out st +:+ cc_Content cc)
    end in
  mret (match k_Usage k with
        | None => mkSS t out false (ss_upstreamCost st) (ss_lastUsage st)
        | Some u =>
            mkSS (set_OutputTokens (CompletionTokens u) (set_InputTokens (PromptTokens u) t)) out false
              (if fgt (EstimatedCost u) fzero then EstimatedCost u else ss_upstreamCost st)
              (Some (cloneUsageForCost u))
        end).

Definition blank_line : string := String (ascii_of_nat 10) (String (ascii_of_nat 10) "").
Definition nl : string := String (ascii_of_nat 10) "".

Definition stream_event (c : reqCtx) (start : Time) (ev : StreamEvent) (st : stream_state) : G stream_state :=
  match ev_Err ev with
  | Some err =>
      let id := ctx_RequestID c in
      write (((if String.eqb id "" then [Write (": stream error" +:+ blank_line)]
               else [Write (": stream error" +:+ nl);
                     Write (": nexus-request-id=" +:+ id +:+ blank_line)]) ++ [Flush])%list);;
      mret (mkSS (set_ErrorMsg (Scrub err) (set_ErrorType "stream_error" (ss_trace st))) (ss_out st)
              (ss_first st) (ss_upstreamCost st) (ss_lastUsage st))
  | None =>
      if ev_Done ev then
        match ev_Raw ev with
        | None => write [Write ("data: [DONE]" +:+ blank_line); Flush];; mret st
        | Some _ => mret st
        end
      else
        match ev_Raw ev with
        | Some raw =>
            write ((Write raw ::
              (if negb (String.eqb raw "") && negb (HasSuffix raw blank_line) then [Write nl] else []) ++
              [Flush])%list);;
            match ev_Chunk ev with
            | Some k => note_chunk start k st
            | None => mret st
            end
        | None =>
            match ev_Chunk ev with
            | None => mret st
            | Some k =>
                st' ← note_chunk start k st;
                let k' :=
                  match k_Usage k with
                  | None => k
                  | Some u =>
                      mkChunk (k_ID k) (k_Object k) (k_Created k) (k_Model k) (k_Choices k)
                        (Some (set_usage_cost
                           (ResolveCostUSD (ss_upstreamCost st') (RequestModel (ss_trace st'))
                              (ResponseModel (ss_trace st')) (Some u)) u))
                  end in
                write [Write "data: "; Write (encode_chunk k'); Write blank_line; Flush];;
                mret st'
            end
        end
  end.

Fixpoint stream_loop (c : reqCtx) (start : Time) (events : list StreamEvent) (st : stream_state) :
    G stream_state :=
  match events with
  | [] => mret st
  | ev :: events' => st' ← stream_event c start ev st; stream_loop c start events' st'
  end.

(** The winning hop gets the final latency, status and error. *)
Definition refresh_last (t : Trace) (l : list ProviderAttempt) : list ProviderAttempt :=
  match last l with
  | None => l
  | Some a =>
      (take (length l - 1) l ++
       [mkAttempt (pa_Index a) (pa_Provider a) (pa_Model a) (pa_CredentialSource a) (StatusCode t)
          (LatencyMs t) (ErrorType t) (ErrorMsg t) (pa_CacheHit a) (pa_FallbackAllowed a)])%list
  end.

(** After the last event. *)
Definition stream_close (c : reqCtx) (req : ChatCompletionRequest) (start : Time) (ls : loop_state)
    (st : stream_state) : G unit :=
  lat ← Since start;
  let t := set_OutputMessages (ss_out st) (set_LatencyMs lat (ss_trace st)) in
  let t :=
    if WantsJSON (Format req) then
      let f := CheckJSON (ss_out st) (SchemaBytes (Format req)) in
      if Blocked f then set_GuardrailAction ("output_schema_violation:" +:+ Rule f) t else t
    else t in
  let t :=
    set_CostUSD_t (ResolveCostUSD (ss_upstreamCost st) (RequestModel t) (ResponseModel t) (ss_lastUsage st)) t in
  let t := if StatusCode t =? 0 then set_StatusCode 200 t else t in
  setCostTrailer (CostUSD_t t);;
  let reason :=
    if negb (String.eqb (GuardrailAction t) "") && Contains (GuardrailAction t) "schema"
    then mkReason ReasonSchemaBlocked (GuardrailRuleFromAction (GuardrailAction t)) ""
    else mkReason ReasonAllowed "" "" in
  recordEvidence t (refresh_last t (ls_attempts ls)) (ls_reasons ls ++ [reason])%list;;
  recordSpend c (CostUSD_t t).

(** [flusher]: whether the response writer can flush. *)
Definition handleStream (c : reqCtx) (session : string) (flusher : bool) (chain : list string)
    (req : ChatCompletionRequest) (start : Time) : G unit :=
  if negb flusher then writeErr c 500 "internal_error" "streaming unsupported"
  else
    reqTrace ← newTrace c session req "";
    r ← open_loop c session req chain reqTrace 0 chain (mkLoop [] [] None None);
    match r with
    | (None, ls) =>
        let msg := default "all candidate providers failed" (ls_lastErr ls) in
        t ← exhausted_trace reqTrace true msg start (ls_lastTrace ls);
        recordEvidence t (ls_attempts ls) (ls_reasons ls);;
        writeErr c 502 "upstream_error" msg
    | (Some (events, trace), ls) =>
        write [SetHeader "Content-Type" "text/event-stream"; SetHeader "Cache-Control" "no-cache";
               SetHeader "Connection" "keep-alive"; SetHeader "Trailer" costHeaderName; WriteHeader 200];;
        st ← stream_loop c start events
               (mkSS (set_StatusCode 200 (set_Streamed true trace)) "" true fzero None);
        stream_close c req start ls st
    end.

(** ** ChatCompletions *)

Definition extractSessionID (rawBody : string) : string :=
  if String.eqb rawBody "" then ""
  else match probe rawBody with
       | None => ""
       | Some (metadata, user) =>
           let marker :=
             match metadata with
             | None => None
             | Some m => find (fun v => negb (String.eqb v ""))
                           (omap (fun k => m !! k) ["session_id"; "sessionId"; "conversation_id"])
             end in
           match marker with
           | Some v => v
           | None => if String.eqb user "" then "" else "user:" +:+ user
           end
       end.

(** The decoded request, or the text of the 400 answer. *)
Definition decode_body (body : string) : res string ChatCompletionRequest :=
  if is_hybrid body then
    match transform_hybrid body with
    | Ok r => Ok r
    | Err e => Err ("hybrid decode: " +:+ e)
    end
  else match decode_request body with
       | Ok r => Ok r
       | Err e => Err ("invalid JSON body: " +:+ e)
       end.

(** [body] is what [io.ReadAll] returned; [true] when the balancer panicked. *)
Definition ChatCompletions (c : reqCtx) (flusher : bool) (order : list (string * list string))
    (body : res string string) : G bool :=
  match body with
  | Err e => writeErr c 400 "invalid_request_error" ("cannot read body: " +:+ e);; mret false
  | Ok raw =>
      match decode_body raw with
      | Err msg => writeErr c 400 "invalid_request_error" msg;; mret false
      | Ok req =>
          if String.eqb (Model req) "" || (length (Messages req) =? 0)%nat then
            writeErr c 400 "invalid_request_error" "model and messages are required";; mret false
          else
            let session := extractSessionID raw in
            let f := CheckInput (gh_guard h) (promptText (Messages req)) in
            if Blocked f then
              recordGuardrailBlock c session req f;;
              writeErr c 403 "guardrail_blocked" (Reason f);;
              mret false
            else
              r ← resolveChain c session req;
              match r with
              | Answered => mret false
              | ChainPanic => mret true
              | Chain chain =>
                  start ← now;
                  (if Stream req then handleStream c session flusher chain req start
                   else handleUnary c session order chain req start);;
                  mret false
              end
      end
  end.
End Handler.
