(* ===== verification/GatewayLogic.v ===== *)
(** * GatewayLogic: reasoning about the handler's monad

    A weakest-precondition calculus for [Gateway.G]: [wp m Q] says that from any
    state [m] only appends to the log, and that its result and the events it
    appended (oldest first) satisfy [Q].  Then the views of a run the
    specifications are stated with (status lines, bodies, upstream calls,
    recorded traces, spend entries), and the rules of the handler's helpers. *)

From S2P Require Import Prelude GoString Float64 GoTime ApiErr Balancer Registry Pricing.
From S2P Require Import Credentials Guardrails SemCache GwTypes Middleware Gateway.
Local Open Scope string_scope.
Local Open Scope Z_scope.

(** ** The calculus *)

Definition wp {A} (m : G A) (Q : A → list event → Prop) : Prop :=
  ∀ s, ∃ evs, g_log (m s).2 = (rev evs ++ g_log s)%list ∧ Q (m s).1 evs.

Lemma wp_ret {A} (a : A) Q : Q a [] → wp (mret a) Q.
Proof. intros H s. by exists []. Qed.

Lemma wp_bind {A B} (m : G A) (k : A → G B) Q :
  wp m (fun a e1 => wp (k a) (fun b e2 => Q b (e1 ++ e2)%list)) → wp (m ≫= k) Q.
Proof.
  intros H s. destruct (H s) as (e1 & E1 & H'). unfold mbind, G_bind.
  destruct (m s) as [a s']. destruct (H' s') as (e2 & E2 & HQ). exists (e1 ++ e2)%list.
  split; [|done]. cbn in *. by rewrite E2, E1, rev_app_distr, app_assoc.
Qed.

Lemma wp_mono {A} (m : G A) (Q R : A → list event → Prop) :
  wp m Q → (∀ a evs, Q a evs → R a evs) → wp m R.
Proof. intros H HQ s. destruct (H s) as (evs & E & HE). exists evs. auto. Qed.

Lemma wp_and {A} (m : G A) (Q R : A → list event → Prop) :
  wp m Q → wp m R → wp m (fun a evs => Q a evs ∧ R a evs).
Proof.
  intros H1 H2 s. destruct (H1 s) as (e1 & E1 & HQ), (H2 s) as (e2 & E2 & HR).
  rewrite E1 in E2. apply app_inv_tail, (f_equal (@rev event)) in E2.
  rewrite !rev_involutive in E2. subst. eauto.
Qed.

Lemma wp_emit e Q : Q tt [e] → wp (emit e) Q.
Proof. intros H s. by exists [e]. Qed.

Lemma wp_emits es Q : Q tt es → wp (emits es) Q.
Proof.
  revert Q. induction es as [|e es IH]; intros Q H; cbn [emits]; [by apply wp_ret|].
  apply wp_bind, wp_emit, IH. exact H.
Qed.

(** What [wp] says of a run from a given state. *)
Lemma wp_run {A} (m : G A) Q s : g_log s = [] → wp m Q → Q (m s).1 (rev (g_log (m s).2)).
Proof. intros Hs H. destruct (H s) as (evs & E & HQ). by rewrite E, Hs, app_nil_r, rev_involutive. Qed.

(** ** Views of a run *)

Definition statuses (evs : list event) : list Z :=
  omap (fun e => match e with EvWrite (WriteHeader n) => Some n | _ => None end) evs.
Definition bodies (evs : list event) : list string :=
  omap (fun e => match e with EvWrite (Write b) => Some b | _ => None end) evs.
Definition calls (evs : list event) : list upstream_call :=
  omap (fun e => match e with EvUpstream u => Some u | _ => None end) evs.
Definition traces (evs : list event) : list Trace :=
  omap (fun e => match e with EvRecord t => Some t | _ => None end) evs.
Definition spends (evs : list event) : list (string * float64) :=
  omap (fun e => match e with EvSpend k x => Some (k, x) | _ => None end) evs.

Lemma statuses_app l k : statuses (l ++ k)%list = (statuses l ++ statuses k)%list.
Proof. apply omap_app. Qed.
Lemma bodies_app l k : bodies (l ++ k)%list = (bodies l ++ bodies k)%list.
Proof. apply omap_app. Qed.
Lemma calls_app l k : calls (l ++ k)%list = (calls l ++ calls k)%list.
Proof. apply omap_app. Qed.
Lemma traces_app l k : traces (l ++ k)%list = (traces l ++ traces k)%list.
Proof. apply omap_app. Qed.
Lemma spends_app l k : spends (l ++ k)%list = (spends l ++ spends k)%list.
Proof. apply omap_app. Qed.

Lemma calls_one u : calls [EvUpstream u] = [u].
Proof. done. Qed.
Lemma calls_nil : calls [] = [].
Proof. done. Qed.

Create Rewrite HintDb views.
#[export] Hint Rewrite calls_one calls_nil statuses_app bodies_app calls_app traces_app spends_app : views.

(** ** Rules of the primitives and helpers *)

Section Rules.
Context {doc schema : Type} (env : Env doc schema) (h : GwHandler).

Lemma wp_now Q : (∀ t, Q t []) → wp (now env) Q.
Proof. intros H s. exists []. split; [done|apply H]. Qed.
Lemma wp_NewString Q : (∀ x, Q x []) → wp (NewString env) Q.
Proof. intros H s. exists []. split; [done|apply H]. Qed.
Lemma wp_Since t Q : (∀ d, Q d []) → wp (Since env t) Q.
Proof. intros H. apply wp_bind, wp_now. intros n. apply wp_ret, H. Qed.
Lemma wp_ChatCompletion_at u Q :
  (∀ n, Q (e_upstream env n u) [EvUpstream u]) → wp (ChatCompletion env u) Q.
Proof. intros H s. exists [EvUpstream u]. split; [done|apply H]. Qed.
Lemma wp_ChatCompletion u Q : (∀ r, Q r [EvUpstream u]) → wp (ChatCompletion env u) Q.
Proof. intros H. apply wp_ChatCompletion_at. intros n. apply H. Qed.
Lemma wp_ChatCompletionStream u Q : (∀ r, Q r [EvUpstream u]) → wp (ChatCompletionStream env u) Q.
Proof. intros H s. exists [EvUpstream u]. split; [done|apply H]. Qed.
Lemma wp_write cs Q : Q tt (EvWrite <$> cs) → wp (write cs) Q.
Proof. apply wp_emits. Qed.

Lemma wp_newTrace c session req name Q :
  (∀ t, StatusCode t = 0 → CacheHit t = false → t_OrgID (t_base t) = ctx_OrgID c →
        VirtualKeyID (t_base t) = ctx_VKeyID c → ProviderName (t_base t) = name → Q t []) →
  wp (newTrace env h c session req name) Q.
Proof.
  intros H. unfold newTrace. apply wp_bind, wp_NewString. intros tid.
  apply wp_bind, wp_NewString. intros sid. apply wp_bind, wp_now. intros ts. apply wp_ret, H; done.
Qed.

(** The trace as [recordEvidence] hands it to the recorder. *)
Definition evidence (t : Trace) (attempts : list ProviderAttempt) (reasons : list PolicyReason) : Trace :=
  let t := set_EgressMode (gh_egressMode h) (set_PolicyReasons reasons (set_Attempts attempts t)) in
  if String.eqb (GuardrailRule t) ""
  then set_GuardrailRule (GuardrailRuleFromAction (GuardrailAction t)) t else t.

Lemma wp_recordEvidence t a r Q :
  Q tt (if gh_recorder h then [EvRecord (evidence t a r)] else []) → wp (recordEvidence h t a r) Q.
Proof.
  intros H. unfold recordEvidence. destruct (gh_recorder h); [by apply wp_emit|by apply wp_ret].
Qed.

Lemma evidence_fields t a r :
  StatusCode (evidence t a r) = StatusCode t ∧ CacheHit (evidence t a r) = CacheHit t ∧
  CostUSD_t (evidence t a r) = CostUSD_t t ∧ t_base (evidence t a r) = t_base t ∧
  ErrorType (evidence t a r) = ErrorType t ∧
  Attempts (evidence t a r) = a ∧ PolicyReasons (evidence t a r) = r.
Proof. unfold evidence. case_match; done. Qed.

(** The spend entry a cost gives rise to. *)
Definition spend_of (c : reqCtx) (cost : float64) : list (string * float64) :=
  if negb (gh_limiter h) || fle cost fzero || String.eqb (ctx_VKeyID c) "" then []
  else [(ctx_VKeyID c, cost)].

Lemma wp_recordSpend c cost Q :
  Q tt ((fun '(k, x) => EvSpend k x) <$> spend_of c cost) → wp (recordSpend h c cost) Q.
Proof.
  unfold recordSpend, spend_of. intros H. destruct (negb (gh_limiter h) || fle cost fzero).
  - by apply wp_ret.
  - destruct (String.eqb (ctx_VKeyID c) ""); [by apply wp_ret|by apply wp_emit].
Qed.

Lemma wp_notify f Q : Q tt (if gh_notifier h then [EvNotify f] else []) → wp (notifyFailover h f) Q.
Proof. intros H. unfold notifyFailover. destruct (gh_notifier h); [by apply wp_emit|by apply wp_ret]. Qed.

(** Whether strict BYOK is in force: every upstream call must carry a caller's key. *)
Definition strict_byok : bool := bool_decide (gh_keyMode h = KeyModeStrictBYOK) && gh_credResolver h.

Lemma wp_injectCredential c name Q :
  (∀ r, match r with
        | Ok (cred, _) => strict_byok = true → is_Some cred
        | Err _ => strict_byok = true
        end → Q r []) →
  wp (injectCredential env h c name) Q.
Proof.
  intros H s. exists []. unfold injectCredential.
  destruct (bool_decide_reflect (gh_keyMode h = KeyModeShared)) as [Hs|Hs]; cbn [orb].
  { split; [done|]. apply H. unfold strict_byok. rewrite Hs. done. }
  destruct (gh_credResolver h) eqn:Hr; cbn [negb].
  2: { split; [done|]. apply H. unfold strict_byok. rewrite Hr, andb_false_r. done. }
  destruct (Credentials.Resolve _ _ _ _ _ _ _) as [[r cr] asked].
  assert (strict_byok = bool_decide (gh_keyMode h = KeyModeStrictBYOK)) as Hb
    by (unfold strict_byok; by rewrite Hr, andb_true_r).
  destruct r as [[cred [|]]|e]; (split; [done|]); apply H; rewrite ?Hb;
    try (by eexists); by destruct (bool_decide _).
Qed.
End Rules.

Ltac rewrite_views v cs :=
  let w := fresh in let IH := fresh in
  induction cs as [|w cs IH]; [done|]; destruct w;
  unfold v in *; csimpl; by rewrite ?IH.

Lemma statuses_writes cs :
  statuses (EvWrite <$> cs) = omap (fun w => match w with WriteHeader n => Some n | _ => None end) cs.
Proof. rewrite_views statuses cs. Qed.
Lemma bodies_writes cs :
  bodies (EvWrite <$> cs) = omap (fun w => match w with Write b => Some b | _ => None end) cs.
Proof. rewrite_views bodies cs. Qed.
Lemma calls_writes cs : calls (EvWrite <$> cs) = [].
Proof. rewrite_views calls cs. Qed.
Lemma traces_writes cs : traces (EvWrite <$> cs) = [].
Proof. rewrite_views traces cs. Qed.
Lemma spends_writes cs : spends (EvWrite <$> cs) = [].
Proof. rewrite_views spends cs. Qed.

(** An event that is not a status line, an upstream call, a trace or a spend. *)
Definition only_writes (evs : list event) : Prop := ∃ cs, evs = EvWrite <$> cs.

Lemma only_writes_views evs :
  only_writes evs → calls evs = [] ∧ traces evs = [] ∧ spends evs = [].
Proof.
  intros [cs ->]. by rewrite calls_writes, traces_writes, spends_writes.
Qed.

Section Writers.
Context {doc schema : Type} (env : Env doc schema).

Lemma wp_writeErr c status errType msg Q :
  (∀ evs, only_writes evs → statuses evs = [status] →
     bodies evs = [e_encode_error env (Scrub msg) errType] → Q tt evs) →
  wp (writeErr env c status errType msg) Q.
Proof.
  intros H. apply wp_write, H; [by eexists| |];
    rewrite ?statuses_writes, ?bodies_writes; unfold writeError; by case_match.
Qed.

Lemma wp_writeResp status r Q :
  Q tt (EvWrite <$> [SetHeader "Content-Type" "application/json"; WriteHeader status;
                     Write (e_encode_response env r)]) →
  wp (writeResp env status r) Q.
Proof. apply wp_write. Qed.
End Writers.

(** ** Automation: one rule per head symbol *)

Create HintDb wp.

Ltac wp_step :=
  lazymatch goal with
  | |- wp (mbind _ _) _ => apply wp_bind
  | |- wp (mret _) _ => apply wp_ret
  | |- wp (emit _) _ => apply wp_emit
  | |- wp (write _) _ => apply wp_write
  | |- wp (now _) _ => apply wp_now; intros ?
  | |- wp (Since _ _) _ => apply wp_Since; intros ?
  | |- wp (ChatCompletion _ _) _ => apply wp_ChatCompletion; intros ?
  | |- wp (ChatCompletionStream _ _) _ => apply wp_ChatCompletionStream; intros ?
  | |- wp (newTrace _ _ _ _ _ _) _ => apply wp_newTrace; intros ? ? ? ? ? ?
  | |- wp (recordEvidence _ _ _ _) _ => apply wp_recordEvidence
  | |- wp (recordSpend _ _ _) _ => apply wp_recordSpend
  | |- wp (notifyFailover _ _) _ => apply wp_notify
  | |- wp (injectCredential _ _ _ _) _ => apply wp_injectCredential; intros ? ?
  | |- wp (setCostHeader _ _) _ => unfold setCostHeader
  | |- wp (setCostTrailer _ _) _ => unfold setCostTrailer
  | |- wp (writeErr _ _ _ _ _) _ => apply wp_writeErr; intros ? ? ? ?
  | |- wp (writeResp _ _ _) _ => apply wp_writeResp
  end.
