(* ===== verification/GatewaySpec.v ===== *)
(** * GatewaySpec: what a request's run looks like

    The contract of the chat completions handler, proved of [Gateway] with the
    calculus of [GatewayLogic]: which answers a non-streaming request can get and
    what each leaves in the evidence and the spend counter, which upstream calls
    any request can cause, and how the guardrails and the cache come in. *)

From S2P Require Import Prelude GoString Float64 GoTime GoSort ApiErr Balancer Router.
From S2P Require Import Registry Pricing Credentials Guardrails SemCache GwTypes Middleware Gateway.
From S2P Require Import GatewayLogic.
Local Open Scope string_scope.
Local Open Scope Z_scope.

(** ** Views of a run that answers nothing yet *)

Definition quiet (evs : list event) : Prop :=
  statuses evs = [] ∧ bodies evs = [] ∧ traces evs = [] ∧ spends evs = [].

Lemma quiet_app e1 e2 : quiet e1 → quiet e2 → quiet (e1 ++ e2)%list.
Proof.
  unfold quiet. intros (?&?&?&?) (?&?&?&?). autorewrite with views.
  split_and!; by do 2 match goal with H : _ = [] |- _ => rewrite H end.
Qed.

(** Views of the events of [recordSpend]. *)
Definition spend_events (h : GwHandler) (c : reqCtx) (cost : float64) : list event :=
  (fun '(k, x) => EvSpend k x) <$> spend_of h c cost.

Lemma spend_events_views h c cost :
  statuses (spend_events h c cost) = [] ∧ bodies (spend_events h c cost) = [] ∧
  traces (spend_events h c cost) = [] ∧ calls (spend_events h c cost) = [] ∧
  spends (spend_events h c cost) = spend_of h c cost.
Proof. unfold spend_events, spend_of. by case_match. Qed.

(** Compute the views of a concatenation of known pieces. *)
Ltac views :=
  repeat match goal with
  | H : quiet _ |- _ => destruct H as (? & ? & ? & ?)
  | H : only_writes _ |- _ => apply only_writes_views in H as (? & ? & ?)
  | |- context [fmap (fun '(k, x) => EvSpend k x) (spend_of ?h ?c ?cost)] =>
      let E := fresh in
      change (fmap (fun '(k, x) => EvSpend k x) (spend_of h c cost)) with (spend_events h c cost);
      pose proof (spend_events_views h c cost) as E; destruct E as (? & ? & ? & ? & ?)
  end;
  autorewrite with views;
  repeat match goal with
  | H : statuses _ = _ |- _ => rewrite H; clear H
  | H : bodies _ = _ |- _ => rewrite H; clear H
  | H : traces _ = _ |- _ => rewrite H; clear H
  | H : calls _ = _ |- _ => rewrite H; clear H
  | H : spends _ = _ |- _ => rewrite H; clear H
  end; rewrite ?app_nil_r; try reflexivity.

(** Name the recorded trace of the goal and the fields it keeps. *)
Ltac evidence_of t :=
  match goal with |- context [evidence ?h ?t0 ?a ?r] =>
    destruct (evidence_fields h t0 a r) as (Es & Eh & Ec & Eb & Ee & Ea & Er);
    set (t := evidence h t0 a r) in *
  end.

Lemma first_content_set s r : r_Choices r ≠ [] → first_content (set_first_content s r) = s.
Proof. unfold first_content, set_first_content. by destruct (r_Choices r). Qed.
Lemma choices_set s r : r_Choices r ≠ [] → r_Choices (set_first_content s r) ≠ [].
Proof. unfold set_first_content. by destruct (r_Choices r) eqn:E; rewrite ?E. Qed.

(** ** What the router promises the handler

    The handler ranks the candidates the key may use and tries what comes back:
    the ranker must not invent models. *)
Class Ranker (rank : list string → float64 → list string) : Prop := {
  ranker_subset : ∀ l q m, m ∈ rank l q → m ∈ l;
  ranker_length : ∀ l q, (length (rank l q) ≤ length l)%nat
}.

#[export] Instance router_ranker {E} (r : Router E) : Ranker (Rank r).
Proof.
  assert (∀ l q, Rank r l q ≡ₚ filter (fun m => passes (stats r) q m = true) l) as Hp
    by (intros l q; by rewrite Rank_sorted, SliceStable_perm, score_all_models, candidates_models).
  split.
  - intros l q m. rewrite Hp. by intros [_ Hm]%list_elem_of_filter.
  - intros l q. rewrite (Hp l q). apply length_filter.
Qed.

(** [RotateChain] returns members of the chain it got. *)
Lemma rotate_subset key ranked w l w' m :
  RotateChain key ranked w = Some (l, w') → m ∈ l → m ∈ ranked.
Proof.
  unfold RotateChain. destruct w as [w0|]; [|by intros; simplify_eq].
  destruct (_ <=? _)%nat; [by intros; simplify_eq|].
  destruct (Next w0 key ranked) as [[i w1]|]; [|done].
  destruct (ranked !! i) as [m0|] eqn:Hi; [|done]. intros; simplify_eq.
  match goal with H : m ∈ _ |- _ => rename H into Hm end.
  pose proof (rotate_rest ranked i 0) as Hrest. cbn [Nat.add] in Hrest. rewrite Hrest in Hm.
  apply elem_of_cons in Hm as [->|Hm]; [by eapply list_elem_of_lookup_2|].
  apply elem_of_app in Hm as [Hm|Hm]; [by eapply elem_of_take in Hm as (?&?&?); eapply list_elem_of_lookup_2|].
  rewrite <- (take_drop (S i) ranked). apply elem_of_app. by right.
Qed.

Section Contract.
Context {doc schema : Type} (env : Env doc schema) (h : GwHandler).

(** ** The answers of a non-streaming request *)

(** The evidence belongs to the caller's organisation and key. *)
Definition owned (c : reqCtx) (t : Trace) : Prop :=
  t_OrgID (t_base t) = ctx_OrgID c ∧ VirtualKeyID (t_base t) = ctx_VKeyID c.

(** What validation says of the first choice. *)
Definition verdict (req : ChatCompletionRequest) (r : ChatCompletionResponse) : Finding :=
  CheckJSON env h (first_content r) (SchemaBytes (Format req)).

(** A JSON mode or schema is asked for and the answer has content that violates it. *)
Definition invalid (req : ChatCompletionRequest) (r : ChatCompletionResponse) : Prop :=
  WantsJSON (Format req) = true ∧ r_Choices r ≠ [] ∧ Blocked (verdict req r) = true.

(** What the guardrails make of an upstream answer: redacted, and repaired where a
    JSON mode asks for it. *)
Definition vetted (req : ChatCompletionRequest) (r : ChatCompletionResponse) : ChatCompletionResponse :=
  match r_Choices r with
  | [] => r
  | _ =>
      let r1 := (redact_first h r).1 in
      if WantsJSON (Format req)
      then set_first_content (validateOrRepairJSON env h (first_content r1) (SchemaBytes (Format req))).1.1 r1
      else r1
  end.

Definition failed_call (u : upstream_call) : Prop := ∃ n e, e_upstream env n u = Err e.

(** The corrections [ks] asked for after call [u], whose vetted answer is [r]: each
    follows an invalid answer, goes to the same provider under the same credential,
    and repeats the conversation with that answer and the reason of its refusal.
    They lead to the vetted answer [r']; [gave_up] when the last one got none. *)
Inductive corrected (req : ChatCompletionRequest) : upstream_call → ChatCompletionResponse →
    list upstream_call → ChatCompletionResponse → bool → Prop :=
| CorrDone u r : corrected req u r [] r false
| CorrFailed u r u' n answer :
    invalid req r →
    u' = mkUp (up_provider u) (up_cred u)
           (withSchemaCorrection (up_req u) (first_content r) (Reason (verdict req r))) →
    e_upstream env n u' = answer → (∀ r', answer = Ok r' → r_Choices r' = []) →
    corrected req u r [u'] r true
| CorrMore u r u' n answer ks r' b :
    invalid req r →
    u' = mkUp (up_provider u) (up_cred u)
           (withSchemaCorrection (up_req u) (first_content r) (Reason (verdict req r))) →
    e_upstream env n u' = Ok answer → r_Choices answer ≠ [] →
    corrected req u' (vetted req answer) ks r' b → corrected req u r (u' :: ks) r' b.

(** The number of corrective calls a response may cost. *)
Definition corrections : nat := Z.to_nat (gh_selfCorrectMax h).

(** The end of a run whose answered call is [u] with vetted answer [r], after the
    corrections [ks]: served, or refused because it stays invalid. *)
Inductive ended (c : reqCtx) (req : ChatCompletionRequest) (u : upstream_call)
    (r : ChatCompletionResponse) (ks : list upstream_call) (evs : list event) : Prop :=
| Served t r' :
    corrected req u r ks r' false → ¬ invalid req r' →
    statuses evs = [200] → traces evs = [t] → StatusCode t = 200 → CacheHit t = false → owned c t →
    bodies evs = [e_encode_response env (set_resp_cost (CostUSD_t t) r')] →
    spends evs = spend_of h c (CostUSD_t t) → ended c req u r ks evs
| Refused t r' gave_up :
    corrected req u r ks r' gave_up → invalid req r' → gave_up = true ∨ length ks = corrections →
    statuses evs = [422] → traces evs = [t] → StatusCode t = 422 → CacheHit t = false → owned c t →
    bodies evs = [e_encode_error env (Scrub (Reason (verdict req r'))) "schema_validation_failed"] →
    spends evs = spend_of h c (CostUSD_t t) → ended c req u r ks evs.

(** A run that got an upstream answer: every call before the answered one failed,
    and only corrections come after it. *)
Definition completed (c : reqCtx) (req : ChatCompletionRequest) (evs : list event) : Prop :=
  ∃ l0 n u answer ks,
    calls evs = (l0 ++ u :: ks)%list ∧ Forall failed_call l0 ∧ e_upstream env n u = Ok answer ∧
    (length ks ≤ corrections)%nat ∧ ended c req u (vetted req answer) ks evs.

(** A candidate of the chain from index [i] on gave the answer: a completed run, or
    a cache hit (on the primary candidate only). *)
Inductive success (c : reqCtx) (req : ChatCompletionRequest) (i : Z) (evs : list event) : Prop :=
| Completed : completed c req evs → success c req i evs
| CacheServed t r hit vec :
    i = 0 → calls evs = [] → spends evs = [] →
    gh_scache h = true → cacheEligible req = true →
    e_cache_lookup env (cacheScope c) (Model req) (promptText (Messages req)) = Ok (Some hit, vec) →
    e_unmarshal_response env (ResponseJSON hit) = Some r →
    statuses evs = [200] → traces evs = [t] → StatusCode t = 200 → CacheHit t = true → owned c t →
    bodies evs = [e_encode_response env (set_resp_cost (CostUSD_t t) r)] → success c req i evs.

(** The answers of a request: a candidate's, or the exhausted chain's. *)
Inductive answer (c : reqCtx) (req : ChatCompletionRequest) (evs : list event) : Prop :=
| Succeeded : success c req 0 evs → answer c req evs
| Exhausted t msg :
    Forall failed_call (calls evs) →
    statuses evs = [502] → bodies evs = [e_encode_error env (Scrub msg) (code_string CodeUpstreamError)] →
    traces evs = [t] → CacheHit t = false → owned c t → spends evs = [] →
    StatusCode t = 502 ∨ StatusCode t = 403 ∧ strict_byok h = true → answer c req evs.

(** ** Output validation *)

Lemma validateOrRepairJSON_verdict content bytes content' f rep :
  validateOrRepairJSON env h content bytes = (content', f, rep) → f = CheckJSON env h content' bytes.
Proof.
  unfold validateOrRepairJSON. destruct (Blocked (CheckJSON env h content bytes)) eqn:E; cbn [negb].
  - destruct (RepairJSON content) as [fixed [|]]; [|intros; by simplify_eq].
    destruct (Blocked (CheckJSON env h fixed bytes)) eqn:E'; cbn [negb]; intros; by simplify_eq.
  - intros; by simplify_eq.
Qed.

Lemma redact_first_choices r r' ch : redact_first h r = (r', ch) → r_Choices r ≠ [] → r_Choices r' ≠ [].
Proof.
  unfold redact_first. destruct (RedactOutput _ _) as [x [|]]; intros; simplify_eq; [|done].
  by apply choices_set.
Qed.

(** The trace fields self-correction leaves alone. *)
Definition same_outcome (t t' : Trace) : Prop :=
  StatusCode t' = StatusCode t ∧ CacheHit t' = CacheHit t ∧ t_base t' = t_base t.

(** Vetting an answer with choices, step by step as the code does. *)
Lemma vetted_json req r r1 changed content f rep :
  r_Choices r ≠ [] → redact_first h r = (r1, changed) → WantsJSON (Format req) = true →
  validateOrRepairJSON env h (first_content r1) (SchemaBytes (Format req)) = (content, f, rep) →
  vetted req r = set_first_content content r1 ∧ f = verdict req (vetted req r) ∧
  r_Choices (vetted req r) ≠ [].
Proof.
  intros Hne Hr Hj Hval.
  assert (r_Choices r1 ≠ []) as Hne1 by (by eapply redact_first_choices).
  assert (vetted req r = set_first_content content r1) as ->
    by (unfold vetted; rewrite Hr, Hj; cbn [fst]; rewrite Hval; by destruct (r_Choices r)).
  split_and!; [done| |by apply choices_set]. unfold verdict. rewrite first_content_set by done.
  by eapply validateOrRepairJSON_verdict.
Qed.

Lemma vetted_text req r r1 changed :
  r_Choices r ≠ [] → redact_first h r = (r1, changed) → WantsJSON (Format req) = false → vetted req r = r1.
Proof. intros Hne Hr Hj. unfold vetted. rewrite Hr, Hj. by destruct (r_Choices r). Qed.

Lemma wp_self_correct req fuel p cred attempt resp trace f rep n Q :
  WantsJSON (Format req) = true → r_Choices resp ≠ [] → f = verdict req resp →
  (∀ resp' trace' f' rep' n' b evs, quiet evs → (length (calls evs) ≤ fuel)%nat → same_outcome trace trace' →
     corrected req (mkUp p cred attempt) resp (calls evs) resp' b →
     r_Choices resp' ≠ [] → f' = verdict req resp' → (b = true → Blocked f' = true) →
     (Blocked f' = true → b = true ∨ length (calls evs) = fuel) → Q (resp', trace', f', rep', n') evs) →
  wp (self_correct env h fuel p cred (SchemaBytes (Format req)) attempt resp trace f rep n) Q.
Proof.
  intros Hj. revert attempt resp trace f rep n Q.
  induction fuel as [|fuel IH]; intros * Hne Hf HQ; cbn [self_correct].
  { by apply wp_ret, (HQ _ _ _ _ _ false); try apply CorrDone; auto. }
  destruct (Blocked f) eqn:Hb; cbn [negb].
  2: { apply wp_ret, (HQ _ _ _ _ _ false); try apply CorrDone; try done; [cbn; lia|congruence]. }
  assert (invalid req resp) as Hi by (split_and!; try done; congruence).
  rewrite Hf. apply wp_bind, wp_ChatCompletion_at. intros k.
  set (u' := mkUp p cred _).
  destruct (e_upstream env k u') as [cresp|e] eqn:Ek.
  2: { apply wp_ret, (HQ _ _ _ _ _ true); try done; [cbn; lia|eapply CorrFailed; eauto; congruence
         |by rewrite <- Hf|auto]. }
  destruct (r_Choices cresp) as [|ch chs] eqn:Hc.
  { apply wp_ret, (HQ _ _ _ _ _ true); try done; [cbn; lia|eapply CorrFailed; eauto; congruence
      |by rewrite <- Hf|auto]. }
  assert (r_Choices cresp ≠ []) as Hne' by (by rewrite Hc).
  destruct (redact_first h cresp) as [r1 changed] eqn:Hr.
  destruct (validateOrRepairJSON env h (first_content r1) _) as [[content f1] rep1] eqn:Hval.
  destruct (vetted_json req cresp r1 changed content f1 rep1) as (<- & Hf1 & Hne1); [done..|].
  apply IH; [done..|]. intros * Hq Hlen Hs Hcor Hne2 Hf2 Hb1 Hb2. apply (HQ _ _ _ _ _ b); try done.
  - rewrite calls_app. cbn. lia.
  - by eapply CorrMore.
  - intros H. destruct (Hb2 H) as [?|E]; [by left|right]. rewrite calls_app, length_app, E. done.
Qed.

(** ** The two ends of an answered attempt *)

(** The cache store of a served answer shows in none of the views. *)
Lemma wp_store c req i vec resp Q :
  (∀ evs, quiet evs → calls evs = [] → Q tt evs) →
  wp (if gh_scache h && (i =? 0) && cacheEligible req then
        match e_marshal_response env resp with
        | Some b => emit (EvCacheStore (cacheScope c) (Model req) (promptText (Messages req)) vec b)
        | None => mret tt
        end
      else mret tt) Q.
Proof. intros H. repeat case_match; first [apply wp_emit|apply wp_ret]; by apply H. Qed.

Lemma wp_unary_finish c req u r ks i n vec resp trace ls Q :
  gh_recorder h = true → StatusCode trace = 200 → CacheHit trace = false → owned c trace →
  corrected req u r ks resp false → ¬ invalid req resp →
  (∀ evs, ended c req u r ks evs → calls evs = [] → Q tt evs) →
  wp (unary_finish env h c req i n vec resp trace ls) Q.
Proof.
  intros Hrec Hst Hch Hown Hcor Hval HQ. unfold unary_finish. wp_step.
  apply wp_store. intros e0 Hq Hc. repeat wp_step. rewrite Hrec. apply HQ; [|by views].
  evidence_of t. eapply Served with (t := t) (r' := resp);
    rewrite ?Es, ?Eh, ?Ec; unfold owned; rewrite ?Eb; try done; by views.
Qed.

Lemma wp_unary_blocked c req u r ks gave_up i n start resp trace ls Q :
  gh_recorder h = true → CacheHit trace = false → owned c trace →
  corrected req u r ks resp gave_up → invalid req resp → gave_up = true ∨ length ks = corrections →
  (∀ evs, ended c req u r ks evs → calls evs = [] → Q tt evs) →
  wp (unary_blocked env h c i n start resp trace (verdict req resp) ls) Q.
Proof.
  intros Hrec Hch Hown Hcor Hinv Hend HQ. unfold unary_blocked. repeat wp_step. rewrite Hrec.
  apply HQ; [|by views].
  evidence_of t. eapply Refused with (t := t) (r' := resp);
    rewrite ?Es, ?Eh, ?Ec; unfold owned; rewrite ?Eb; try done; by views.
Qed.

(** Events that answer nothing may come before the end of a run. *)
Lemma ended_prefix c req u r ks e1 e2 :
  quiet e1 → ended c req u r ks e2 → ended c req u r ks (e1 ++ e2)%list.
Proof.
  intros Hq [t r'|t r' b]; [apply (Served _ _ _ _ _ _ t r')|apply (Refused _ _ _ _ _ _ t r' b)];
    try done; by views.
Qed.

Lemma completed_prefix c req e1 e2 :
  quiet e1 → Forall failed_call (calls e1) → completed c req e2 → completed c req (e1 ++ e2)%list.
Proof.
  intros Hq Hf (l0 & n & u & answer & ks & Hc & Hf0 & Ha & Hl & He).
  exists (calls e1 ++ l0)%list, n, u, answer, ks. split_and!; try done.
  - by rewrite calls_app, Hc, (assoc (++)%list).
  - by apply Forall_app.
  - by apply ended_prefix.
Qed.

Lemma success_prefix c req i j e1 e2 :
  quiet e1 → Forall failed_call (calls e1) → (i = 0 → calls e1 = [] ∧ j = 0) →
  success c req i e2 → success c req j (e1 ++ e2)%list.
Proof.
  intros Hq Hf Hi [H|t r hit vec Hi0]; [by apply Completed, completed_prefix|].
  destruct (Hi Hi0) as [Hc ->]. apply (CacheServed _ _ _ _ t r hit vec); try done; by views.
Qed.

Lemma wp_unary_success c req i n k p cred attempt start vec resp trace ls Q :
  gh_recorder h = true → CacheHit trace = false → owned c trace →
  e_upstream env k (mkUp p cred attempt) = Ok resp →
  (∀ evs, completed c req (EvUpstream (mkUp p cred attempt) :: evs) →
     (length (calls evs) ≤ corrections)%nat → Q tt evs) →
  wp (unary_success env h c req i n p cred attempt start vec resp trace ls) Q.
Proof.
  intros Hrec Hch Hown Hup HQ. unfold unary_success. repeat wp_step.
  set (u := mkUp p cred attempt) in *.
  assert (∀ ks evs, calls evs = ks → (length ks ≤ corrections)%nat → ended c req u (vetted req resp) ks evs →
    Q tt evs) as HQ'.
  { intros ks evs Hc Hl He. apply HQ; [|by rewrite Hc]. exists [], k, u, resp, ks. split_and!; try done.
    - cbn. by rewrite <- Hc.
    - by apply (ended_prefix c req u _ ks [EvUpstream u]). }
  assert (∀ evs, ended c req u (vetted req resp) [] evs → calls evs = [] → Q tt evs) as HQ0.
  { intros evs He Hc. by apply (HQ' []); [|cbn; lia|]. }
  destruct (r_Choices resp) as [|ch chs] eqn:Hc.
  { eapply wp_unary_finish; try done; [|intros (_ & Hne & _); congruence].
    unfold vetted. rewrite Hc. apply CorrDone. }
  assert (r_Choices resp ≠ []) as Hne by (by rewrite Hc).
  destruct (redact_first h resp) as [r1 changed] eqn:Hr.
  set (t1 := if changed then _ else _).
  assert (StatusCode t1 = 200 ∧ CacheHit t1 = false ∧ owned c t1) as (Hs1 & Hch1 & Hown1)
    by (subst t1; by destruct changed).
  destruct (WantsJSON (Format req)) eqn:Hj; cbn [negb].
  2: { eapply wp_unary_finish; try done; [|intros (Hw & _); congruence].
       rewrite (vetted_text req resp r1 changed) by done. apply CorrDone. }
  destruct (validateOrRepairJSON env h (first_content r1) (SchemaBytes (Format req)))
    as [[content f] rep] eqn:Hval.
  destruct (vetted_json req resp r1 changed content f rep) as (<- & Hf & Hne1); [done..|].
  wp_step. apply wp_self_correct; [done..|].
  intros r2 t2 f2 rep2 n2 b evs Hq Hlen (Es & Eh & Eb) Hcor Hne2 -> Hb1 Hb2.
  set (t3 := if String.eqb _ "" then t2 else _).
  assert (StatusCode t3 = 200 ∧ CacheHit t3 = false ∧ owned c t3) as (Hs3 & Hch3 & Hown3).
  { subst t3. unfold owned in *. case_match; cbn; rewrite ?Es, ?Eh, ?Eb; done. }
  assert (∀ e2, ended c req u (vetted req resp) (calls evs) e2 → calls e2 = [] → Q tt ([] ++ evs ++ e2)%list) as HQ2.
  { intros e2 He E. apply (HQ' (calls evs)); [by rewrite !calls_app, E, app_nil_r|done|by apply (ended_prefix _ _ _ _ _ evs)]. }
  destruct (Blocked (verdict req r2)) eqn:Hb.
  - eapply wp_unary_blocked; try done. auto.
  - assert (b = false) as -> by (destruct b; [by discriminate Hb1|done]).
    eapply wp_unary_finish; try done. intros (_ & _ & ?). congruence.
Qed.

Lemma wp_unary_hit c req n start cached trace ls hit vec Q :
  gh_recorder h = true → owned c trace → gh_scache h = true → cacheEligible req = true →
  e_cache_lookup env (cacheScope c) (Model req) (promptText (Messages req)) = Ok (Some hit, vec) →
  e_unmarshal_response env (ResponseJSON hit) = Some cached →
  (∀ evs, success c req 0 evs → calls evs = [] → Q tt evs) →
  wp (unary_hit env h 0 n start cached trace ls) Q.
Proof.
  intros Hrec Hown Hsc Hel Hlk Hun HQ. unfold unary_hit. repeat wp_step. rewrite Hrec.
  apply HQ; [|by views]. evidence_of t.
  apply (CacheServed _ _ _ _ t cached hit vec); rewrite ?Es, ?Eh, ?Ec; unfold owned; rewrite ?Eb; try done;
    try (by views); case_match; done.
Qed.

(** ** The candidate loop *)

(** What a failed attempt leaves behind. *)
Definition failed_trace (c : reqCtx) (t : Trace) : Prop :=
  owned c t ∧ CacheHit t = false ∧ (StatusCode t = 502 ∨ StatusCode t = 403 ∧ strict_byok h = true).
Definition last_ok (c : reqCtx) (ls : loop_state) : Prop :=
  match ls_lastTrace ls with None => True | Some t => failed_trace c t end.

Definition candidate_post (c : reqCtx) (req : ChatCompletionRequest) (i : Z) (r : option loop_state)
    (evs : list event) : Prop :=
  match r with
  | None => success c req i evs ∧ (length (calls evs) ≤ 1 + corrections)%nat
  | Some ls => quiet evs ∧ Forall failed_call (calls evs) ∧ (length (calls evs) ≤ 1)%nat ∧ last_ok c ls
  end.

Lemma wp_unary_failed c req order full i n start trace err ls Q :
  owned c trace → CacheHit trace = false →
  (∀ ls' evs, quiet evs → calls evs = [] → last_ok c ls' → Q ls' evs) →
  wp (unary_failed env h req order full i n start trace err ls) Q.
Proof.
  intros Ho Hch HQ. unfold unary_failed. repeat wp_step.
  destruct (i <? n - 1); repeat wp_step; apply HQ; try done;
    try (by (unfold last_ok, failed_trace; cbn; auto)); by destruct (gh_notifier h).
Qed.

(** The cache consultation of the primary candidate: silent, and a decoded hit
    comes from the cache. *)
Definition cache_step (c : reqCtx) (req : ChatCompletionRequest) (i : Z) :
    G (option ChatCompletionResponse * list float64) :=
  if gh_scache h && (i =? 0) && cacheEligible req then
    r ← lookup_cache env c req;
    match r with
    | Err _ => mret (None, [])
    | Ok (Some hit, _) => mret (e_unmarshal_response env (ResponseJSON hit), [])
    | Ok (None, vec) => mret (None, vec)
    end
  else mret (None, []).

Lemma wp_cache_step c req i (Q : option ChatCompletionResponse * list float64 → list event → Prop) :
  (∀ r vec evs, quiet evs → calls evs = [] →
     match r with
     | None => True
     | Some cached => i = 0 ∧ gh_scache h = true ∧ cacheEligible req = true ∧ ∃ hit vec',
         e_cache_lookup env (cacheScope c) (Model req) (promptText (Messages req)) = Ok (Some hit, vec') ∧
         e_unmarshal_response env (ResponseJSON hit) = Some cached
     end → Q (r, vec) evs) →
  wp (cache_step c req i) Q.
Proof.
  intros HQ. unfold cache_step. destruct (gh_scache h && (i =? 0) && cacheEligible req) eqn:E;
    [|by apply wp_ret, HQ]. reflect_bools. unfold lookup_cache. repeat wp_step.
  destruct (e_cache_lookup env _ _ _) as [[[hit|] vec]|err] eqn:El; apply wp_ret, HQ; try done.
  destruct (e_unmarshal_response env (ResponseJSON hit)) eqn:Eu; [|done]. split_and!; eauto.
Qed.

Lemma wp_unary_candidate c session req order full reqTrace i model ls :
  gh_recorder h = true → last_ok c ls →
  wp (unary_candidate env h c session req order full reqTrace i model ls) (candidate_post c req i).
Proof.
  intros Hrec Hls. unfold unary_candidate.
  destruct (Registry.Resolve (gh_registry h) model) as [[p fwd]|]; [|by apply wp_ret; split_and!; [|apply Forall_nil|cbn; lia|]].
  repeat wp_step. destruct r as [[cred source]|err].
  2: { repeat wp_step. split_and!; [done|by apply Forall_nil|cbn; lia|]. unfold last_ok, failed_trace, owned; cbn. split_and!; auto. }
  wp_step. fold (cache_step c req i). apply wp_cache_step. intros [cached|] vec evs Hq Hc Hhit.
  - destruct Hhit as (-> & Hsc & Hel & hit & vec' & Hlk & Hun). wp_step.
    eapply wp_unary_hit; try done. intros e2 Ha E. wp_step. split; cbn [app].
    + rewrite app_nil_r. apply (success_prefix c req 0); try done. by rewrite Hc.
    + autorewrite with views. rewrite Hc, E. cbn. lia.
  - wp_step. apply wp_ChatCompletion_at. intros k.
    destruct (e_upstream env k (mkUp p cred (with_model fwd req))) as [resp|err] eqn:Ek.
    + wp_step. eapply wp_unary_success; try done. intros e2 Ha Hl. wp_step. split.
      * apply Completed. cbn [app]. rewrite app_nil_r. apply completed_prefix; [done|by rewrite Hc|done].
      * autorewrite with views. rewrite Hc, !length_app. cbn [length]. lia.
    + wp_step. eapply wp_unary_failed; try done. intros ls' e2 Hq2 Hc2 Hl. wp_step.
      split_and!; [|..|done]; [|autorewrite with views; rewrite Hc, Hc2; cbn [app];
        apply Forall_singleton; by eexists _, _|].
      * cbn [app]. rewrite app_nil_r. apply quiet_app; [done|]. by apply (quiet_app [_]).
      * autorewrite with views. rewrite Hc, Hc2. cbn. lia.
Qed.

Lemma wp_unary_loop c session req order full reqTrace chain i ls :
  gh_recorder h = true → last_ok c ls → 0 ≤ i →
  wp (unary_loop env h c session req order full reqTrace i chain ls) (fun r evs =>
    match r with
    | None => success c req i evs ∧ (length (calls evs) ≤ length chain + corrections)%nat
    | Some ls => quiet evs ∧ Forall failed_call (calls evs) ∧ (length (calls evs) ≤ length chain)%nat ∧ last_ok c ls
    end).
Proof.
  intros Hrec. revert i ls. induction chain as [|model chain IH]; intros i ls Hls Hi; cbn [unary_loop length].
  { by apply wp_ret; split_and!; [|apply Forall_nil|cbn; lia|]. }
  apply wp_bind. eapply wp_mono; [by apply wp_unary_candidate|]. intros [ls'|] e1.
  - intros (Hq & Hf & Hl & Hls'). eapply wp_mono; [by apply IH; try lia|]. intros [ls2|] e2.
    + intros (Hq2 & Hf2 & Hl2 & Hls2). split_and!; [by apply quiet_app|by rewrite calls_app, Forall_app| |done].
      rewrite calls_app, length_app. lia.
    + intros (Ha & Hl2). split; [apply (success_prefix c req (i + 1)); [done..|lia|done]|].
      rewrite calls_app, length_app. lia.
  - intros (Ha & Hl). apply wp_ret. rewrite app_nil_r. split; [done|lia].
Qed.

Lemma wp_exhausted_trace c reqTrace strm msg start ls Q :
  owned c reqTrace → CacheHit reqTrace = false → last_ok c ls →
  (∀ t, failed_trace c t → Q t []) →
  wp (exhausted_trace env reqTrace strm msg start (ls_lastTrace ls)) Q.
Proof.
  intros Ho Hch Hls HQ. unfold exhausted_trace, last_ok in *.
  assert (wp (lat ← Since env start;
    let t := if strm then set_Streamed true reqTrace else reqTrace in
    mret (set_LatencyMs lat (set_ErrorMsg msg (set_ErrorType "upstream_error" (set_StatusCode 502 t))))) Q) as Hfresh.
  { repeat wp_step. apply wp_ret, HQ. unfold failed_trace, owned in *. by destruct strm; cbn; auto. }
  destruct (ls_lastTrace ls) as [t|]; [|exact Hfresh]. destruct (String.eqb (TraceID (t_base t)) ""); [exact Hfresh|].
  by apply wp_ret, HQ.
Qed.

Lemma wp_handleUnary c session order chain req start :
  gh_recorder h = true →
  wp (handleUnary env h c session order chain req start) (fun _ evs =>
    answer c req evs ∧ (length (calls evs) ≤ length chain + corrections)%nat).
Proof.
  intros Hrec. unfold handleUnary. repeat wp_step. eapply wp_mono; [by apply wp_unary_loop|].
  intros [ls|] e1; [|intros [Ha Hl]; wp_step; rewrite app_nil_r; split; [by apply Succeeded|done]].
  intros (Hq & Hf & Hl & Hls). wp_step. apply (wp_exhausted_trace c); [done..|].
  intros lt (Ho & Hch & Hst). repeat wp_step. rewrite Hrec. evidence_of t'. split; [|views; cbn; lia].
  eapply (Exhausted _ _ _ t'); [by views|..]; rewrite ?Es, ?Eh; unfold owned; rewrite ?Eb; try done; by views.
Qed.

(** ** Streaming *)

Inductive streamed (c : reqCtx) (evs : list event) : Prop :=
| StreamServed t :
    statuses evs = [200] → traces evs = [t] → StatusCode t = 200 → owned c t →
    spends evs = spend_of h c (CostUSD_t t) → streamed c evs
| StreamExhausted t :
    statuses evs = [502] → traces evs = [t] → owned c t → spends evs = [] →
    StatusCode t = 502 ∨ StatusCode t = 403 ∧ strict_byok h = true → streamed c evs.

Lemma wp_open_loop c session req full reqTrace chain i ls :
  last_ok c ls →
  wp (open_loop env h c session req full reqTrace i chain ls) (fun r evs =>
    quiet evs ∧ (length (calls evs) ≤ length chain)%nat ∧
    match r with
    | (Some (_, t), _) => owned c t
    | (None, ls') => last_ok c ls'
    end).
Proof.
  revert i ls. induction chain as [|model chain IH]; intros i ls Hls; cbn [open_loop length].
  { apply wp_ret. split_and!; [done|cbn; lia|done]. }
  destruct (Registry.Resolve (gh_registry h) model) as [[p fwd]|].
  2: { eapply wp_mono; [by apply IH|]. intros [[[events t]|] ls'] evs (Hq & Hl & Hr);
       split_and!; try done; lia. }
  repeat wp_step. destruct r as [[cred source]|err]; repeat wp_step.
  - destruct r as [events|err]; [apply wp_ret; split_and!; [done|cbn; lia|done]|].
    repeat wp_step. eapply wp_mono; [apply IH; unfold last_ok, failed_trace, owned; cbn; auto|].
    intros r evs (Hq & Hl & Hr). split_and!; [done| |done]. autorewrite with views.
    cbn [length app]. lia.
  - eapply wp_mono; [apply IH; unfold last_ok, failed_trace, owned; cbn; split_and!; auto|].
    intros r evs (Hq & Hl & Hr). split_and!; [done| |done]. cbn [app]. lia.
Qed.

(** An event of the stream writes to the body only, and leaves the status. *)
Lemma wp_note_chunk start k st Q :
  (∀ st', same_outcome (ss_trace st) (ss_trace st') → Q st' []) → wp (note_chunk env start k st) Q.
Proof.
  intros HQ. unfold note_chunk.
  wp_step. destruct (ss_first st); repeat wp_step; destruct (String.eqb (k_Model k) ""), (k_Choices k);
    destruct (k_Usage k); try (destruct (String.eqb (cc_FinishReason _) "")); by apply wp_ret, HQ.
Qed.

Lemma wp_stream_event c start ev st Q :
  (∀ st' evs, only_writes evs → statuses evs = [] → same_outcome (ss_trace st) (ss_trace st') → Q st' evs) →
  wp (stream_event env c start ev st) Q.
Proof.
  intros HQ. unfold stream_event.
  destruct (ev_Err ev) as [err|].
  { repeat wp_step. apply HQ; [|by case_match|done]. rewrite app_nil_r. by eexists. }
  destruct (ev_Done ev).
  { destruct (ev_Raw ev); repeat wp_step; apply HQ; try done; [by exists []|rewrite app_nil_r; by eexists]. }
  destruct (ev_Raw ev) as [raw|], (ev_Chunk ev) as [k|]; repeat wp_step.
  - apply wp_note_chunk. intros st' Hs. apply HQ; [|by case_match|done]. rewrite app_nil_r. by eexists.
  - apply HQ; [|by case_match|done]. rewrite app_nil_r. by eexists.
  - apply wp_note_chunk. intros st' Hs. repeat wp_step. apply HQ; [rewrite app_nil_r; by eexists|done..].
  - apply HQ; [by exists []|done..].
Qed.

Lemma only_writes_app e1 e2 : only_writes e1 → only_writes e2 → only_writes (e1 ++ e2)%list.
Proof. intros [c1 ->] [c2 ->]. exists (c1 ++ c2)%list. by rewrite fmap_app. Qed.

Lemma wp_stream_loop c start events st Q :
  (∀ st' evs, only_writes evs → statuses evs = [] → same_outcome (ss_trace st) (ss_trace st') → Q st' evs) →
  wp (stream_loop env c start events st) Q.
Proof.
  revert st Q. induction events as [|ev events IH]; intros st Q HQ; cbn [stream_loop].
  { apply wp_ret, HQ; [by exists []|done..]. }
  wp_step. apply wp_stream_event. intros st1 e1 Hw1 Hs1 (E1 & E2 & E3).
  apply IH. intros st2 e2 Hw2 Hs2 (F1 & F2 & F3). apply HQ; [by apply only_writes_app|by views|].
  split_and!; congruence.
Qed.

Lemma wp_stream_close c req start ls st Q :
  gh_recorder h = true → StatusCode (ss_trace st) = 200 → owned c (ss_trace st) →
  (∀ t evs, statuses evs = [] → calls evs = [] → traces evs = [t] → StatusCode t = 200 → owned c t →
     spends evs = spend_of h c (CostUSD_t t) → Q tt evs) →
  wp (stream_close env h c req start ls st) Q.
Proof.
  intros Hrec Hst Ho HQ. unfold stream_close. repeat wp_step. rewrite Hrec.
  evidence_of t'. apply (HQ t'); rewrite ?Es, ?Ec; unfold owned; rewrite ?Eb; try (by views);
  repeat case_match; done.
Qed.

Lemma wp_handleStream c session chain req start :
  gh_recorder h = true →
  wp (handleStream env h c session true chain req start) (fun _ evs =>
    streamed c evs ∧ (length (calls evs) ≤ length chain)%nat).
Proof.
  intros Hrec. unfold handleStream. cbn [negb]. repeat wp_step. eapply wp_mono; [by apply wp_open_loop|].
  intros [[[events lt]|] ls] e1 (Hq & Hl & Hr).
  - repeat wp_step. apply wp_stream_loop. intros st e2 Hw Hs (E1 & E2 & E3).
    apply wp_stream_close; [done|..]; [by rewrite E1|unfold owned; by rewrite E3|].
    intros tr e3 Hs3 Hc3 Ht3 Hst Ho Hsp. split.
    + apply (StreamServed _ _ tr); try done; by views.
    + views. cbn. lia.
  - wp_step. apply (wp_exhausted_trace c); [done..|].
    intros lt (Ho & Hch & Hst). repeat wp_step. rewrite Hrec. evidence_of t'. split; [|views; cbn; lia].
    apply (StreamExhausted _ _ t'); rewrite ?Es; unfold owned; rewrite ?Eb; try done; by views.
Qed.

(** ** The chain *)

(** A policy denial: its status line and its trace agree, nothing else happens. *)
Inductive denied (c : reqCtx) (evs : list event) : Prop :=
| Denied t n :
    n ∈ [403; 404; 503] → statuses evs = [n] → traces evs = [t] → StatusCode t = n → owned c t →
    calls evs = [] → spends evs = [] → denied c evs.

Lemma wp_deny c session req status code errType detail Q :
  gh_recorder h = true → status ∈ [403; 404; 503] →
  (∀ evs, denied c evs → Q Answered evs) →
  wp (deny env h c session req status code errType detail) Q.
Proof.
  intros Hrec Hin HQ. unfold deny, recordPolicyDenied. repeat wp_step. rewrite Hrec.
  apply HQ. evidence_of t'. apply (Denied _ _ t' status); rewrite ?Es; unfold owned; rewrite ?Eb; try done;
    by views.
Qed.

(** The configured router is one. *)
Definition rankers_ok : Prop := ∀ rank, gh_router h = Some rank → Ranker rank.

Lemma wp_resolveChain c session req :
  gh_recorder h = true →
  wp (resolveChain env h c session req) (fun r evs =>
    match r with
    | Chain l => evs = [] ∧ (rankers_ok → ∀ m, m ∈ l → modelAllowed c m = true)
    | Answered => denied c evs
    | ChainPanic => evs = []
    end).
Proof.
  intros Hrec.
  assert (wp (resolve_concrete env h c session req) (fun r evs =>
    match r with
    | Chain l => evs = [] ∧ (rankers_ok → ∀ m, m ∈ l → modelAllowed c m = true)
    | Answered => denied c evs
    | ChainPanic => evs = []
    end)) as Hconc.
  { unfold resolve_concrete. destruct (modelAllowed c (Model req)) eqn:Ha; cbn [negb].
    - destruct (Registry.Resolve _ _).
      + apply wp_ret. split; [done|]. by intros _ m ->%list_elem_of_singleton.
      + apply wp_deny; [done|set_solver|done].
    - apply wp_deny; [done|set_solver|done]. }
  unfold resolveChain. destruct (gh_router h) as [rank|] eqn:Hr; [|done].
  destruct (routeCandidates h (Model req)) as [candidates|]; [|done].
  destruct (filterAllowed c candidates) as [|a l] eqn:Hf; [apply wp_deny; [done|set_solver|done]|].
  destruct (rank (a :: l) (ctx_MinQuality c)) as [|m ranked] eqn:Hrank;
    [apply wp_deny; [done|set_solver|done]|].
  assert (rankers_ok → ∀ x, x ∈ m :: ranked → modelAllowed c x = true) as Hall.
  { intros Hrk x Hx. rewrite <- Hrank in Hx. apply (Hrk rank Hr) in Hx. rewrite <- Hf in Hx.
    apply list_elem_of_filter in Hx as [Hx _]. by apply Is_true_true. }
  intros s. exists []. unfold rotate. destruct (gh_lb h); cbn [negb]; [|done].
  destruct (RotateChain _ _ _) as [[l' lb]|] eqn:Hro; [|done].
  split; [done|]. split; [done|]. intros Hrk x Hx. eapply Hall, rotate_subset; eauto.
Qed.

(** ** What any event of a run may be

    An upstream call goes to the provider the registry gives for a permitted
    model of the chain, under the id that provider knows, carries the credential
    the store gave for this very caller and provider, and extends the caller's
    messages.  The
    cache is used only for eligible requests and under the caller's scope.
    Spend is booked on the caller's key. *)

(** An answer of the credential store is what the cache may hold for that caller
    and provider. *)
Definition cred_inv (cr : CredentialResolver) : Prop :=
  ∀ key e, cache cr !! key = Some e →
    ∃ n org user prov, plain org ∧ plain user ∧ key = cache_key org user prov ∧
      e_cred_source env n org user prov = Ok (e_cred e, e_found e).

Lemma cred_inv_new t : cred_inv (NewCredentialResolver t).
Proof. intros key e. cbn. by rewrite lookup_empty. Qed.

Lemma Resolve_inv cr org user prov t1 t2 n r cr' asked :
  plain org → plain user → cred_inv cr →
  Credentials.Resolve cr org user prov t1 t2 (e_cred_source env n org user prov) = (r, cr', asked) →
  cred_inv cr' ∧ ∀ cred found, r = Ok (cred, found) → ∃ n', e_cred_source env n' org user prov = Ok (cred, found).
Proof.
  intros Ho Hu Hinv. unfold Credentials.Resolve, cached.
  assert (∀ r, match e_cred_source env n org user prov with
    | Err err => (Err err, cr, true)
    | Ok (cred, found) => (Ok (cred, found), store cr (cache_key org user prov) cred found t2, true)
    end = (r, cr', asked) →
    cred_inv cr' ∧ ∀ cred found, r = Ok (cred, found) →
      ∃ n', e_cred_source env n' org user prov = Ok (cred, found)) as Hmiss.
  { intros r'. destruct (e_cred_source env n org user prov) as [[cred found]|err] eqn:En; intros; simplify_eq;
      (split; [|intros; simplify_eq; eauto]); [|done].
    unfold store. destruct (0 <? ttl cr); [|done]. intros key e. cbn.
    rewrite lookup_insert. case_decide; [|apply Hinv]. intros [= <-]. exists n, org, user, prov. subst. auto. }
  destruct (0 <? ttl cr); [|apply Hmiss]. destruct (cache cr !! cache_key org user prov) as [e|] eqn:Ee;
    [|apply Hmiss]. destruct (Before t1 (e_expires e)); [|apply Hmiss].
  intros; simplify_eq. split; [done|]. intros cred found [= <- <-].
  destruct (Hinv _ _ Ee) as (n' & o & u & pr & Ho' & Hu' & Hk & En).
  apply cache_key_inj in Hk as (<- & <- & <-); [|done..]. eauto.
Qed.

(** The credential of a call to the provider [name]: the caller's own, as the store
    answered for exactly this organisation, user and provider; none only when keys
    are shared, no resolver is configured, or the store gave none under the mode
    that may fall back. *)
Definition cred_ok (c : reqCtx) (name : string) (cred : option CallerCredential) : Prop :=
  match cred with
  | Some cc =>
      gh_keyMode h ≠ KeyModeShared ∧ gh_credResolver h = true ∧
      ∃ n rc, e_cred_source env n (ctx_OrgID c) (ctx_UserID c) name = Ok (rc, true) ∧
        cc = mkCaller (rc_Secret rc) (rc_BaseURL rc) (rc_Source rc)
  | None =>
      gh_keyMode h = KeyModeShared ∨ gh_credResolver h = false ∨
      gh_keyMode h = KeyModeBYOK ∧
      ∃ n, match e_cred_source env n (ctx_OrgID c) (ctx_UserID c) name with
           | Err _ => True
           | Ok (_, found) => found = false
           end
  end.

Lemma injectCredential_ok c name s :
  plain (ctx_OrgID c) → plain (ctx_UserID c) → cred_inv (g_cred s) →
  let '(r, s') := injectCredential env h c name s in
  cred_inv (g_cred s') ∧ g_log s' = g_log s ∧
  match r with Ok (cred, _) => cred_ok c name cred | Err _ => True end.
Proof.
  intros Ho Hu Hinv. unfold injectCredential.
  destruct (bool_decide_reflect (gh_keyMode h = KeyModeShared)) as [Hs|Hs]; cbn [orb]; [by cbn; auto|].
  destruct (gh_credResolver h) eqn:Hr; cbn [negb]; [|by cbn; auto].
  destruct (Credentials.Resolve _ _ _ _ _ _ _) as [[r cr] asked] eqn:E.
  assert (asked = false → ∃ cred found, r = Ok (cred, found)) as Hhit.
  { unfold Credentials.Resolve in E. destruct (cached _ _ _) as [e|]; [intros _; simplify_eq; by eexists _, _|].
    destruct (e_cred_source _ _ _ _ _) as [[]|]; intros; simplify_eq. }
  assert (∀ err, r = Err err → ∃ err, e_cred_source env (g_src s) (ctx_OrgID c) (ctx_UserID c) name = Err err) as Herr.
  { intros err ->. unfold Credentials.Resolve in E. destruct (cached _ _ _); [done|].
    destruct (e_cred_source _ _ _ _ _) as [[]|]; simplify_eq; eauto. }
  apply Resolve_inv in E as [Hinv' Hans]; [|done..].
  assert (bool_decide (gh_keyMode h = KeyModeStrictBYOK) = false → gh_keyMode h = KeyModeBYOK) as Hmode.
  { intros Hb%bool_decide_eq_false. by destruct (gh_keyMode h). }
  destruct r as [[cred [|]]|err].
  - destruct (Hans _ _ eq_refl) as [n En]. split_and!; [done..|]. cbn. split_and!; eauto.
  - destruct (Hans _ _ eq_refl) as [n En]. destruct (bool_decide _) eqn:Hb; split_and!; try done.
    right; right. split; [auto|]. exists n. by rewrite En.
  - destruct (Herr _ eq_refl) as [err' En]. destruct (bool_decide _) eqn:Hb; split_and!; try done.
    right; right. split; [auto|]. exists (g_src s). by rewrite En.
Qed.

Definition call_ok (c : reqCtx) (req : ChatCompletionRequest) (P : string → Prop) (u : upstream_call) : Prop :=
  (∃ model, P model ∧
     Registry.Resolve (gh_registry h) model = Some (up_provider u, Model (up_req u))) ∧
  cred_ok c (p_name (up_provider u)) (up_cred u) ∧
  Messages req `prefix_of` Messages (up_req u).

Definition cache_ok (c : reqCtx) (req : ChatCompletionRequest) (scope model prompt : string) : Prop :=
  gh_scache h = true ∧ cacheEligible req = true ∧
  scope = cacheScope c ∧ model = Model req ∧ prompt = promptText (Messages req).

Definition ev_ok (c : reqCtx) (req : ChatCompletionRequest) (P : string → Prop) (e : event) : Prop :=
  match e with
  | EvUpstream u => call_ok c req P u
  | EvCacheLookup s m p => cache_ok c req s m p
  | EvCacheStore s m p _ _ => cache_ok c req s m p
  | EvSpend k _ => k = ctx_VKeyID c
  | EvWrite _ | EvRecord _ | EvNotify _ => True
  end.

(** Events as [ok] says, from any state whose credential cache is sound, which stays
    so. *)
Definition safely (ok : event → Prop) {A} (m : G A) : Prop := ∀ s, cred_inv (g_cred s) →
  cred_inv (g_cred (m s).2) ∧
  ∃ evs, g_log (m s).2 = (rev evs ++ g_log s)%list ∧ Forall ok evs.

Lemma safely_mono (ok ok' : event → Prop) {A} (m : G A) :
  (∀ e, ok e → ok' e) → safely ok m → safely ok' m.
Proof.
  intros Hok Hm s Hs. destruct (Hm s Hs) as (? & evs & E & F). split; [done|]. exists evs.
  split; [done|]. by eapply Forall_impl.
Qed.

(** A continuation that may use what [wp] tells of the result. *)
Lemma safely_bind_wp ok {A B} (m : G A) (k : A → G B) (R : A → list event → Prop) :
  safely ok m → wp m R → (∀ a evs, R a evs → safely ok (k a)) → safely ok (m ≫= k).
Proof.
  intros Hm Hw Hk s Hs. unfold mbind, G_bind. destruct (Hm s Hs) as (H1 & e1 & E1 & F1).
  destruct (Hw s) as (e & _ & HR). destruct (m s) as [a s'].
  destruct (Hk a e HR s' H1) as (H2 & e2 & E2 & F2). split; [done|].
  exists (e1 ++ e2)%list. split; [|by apply Forall_app]. cbn in *.
  by rewrite E2, E1, rev_app_distr, app_assoc.
Qed.

Lemma safely_bind ok {A B} (m : G A) (k : A → G B) :
  safely ok m → (∀ a, safely ok (k a)) → safely ok (m ≫= k).
Proof.
  intros Hm Hk s Hs. unfold mbind, G_bind. destruct (Hm s Hs) as (H1 & e1 & E1 & F1).
  destruct (m s) as [a s']. destruct (Hk a s' H1) as (H2 & e2 & E2 & F2). split; [done|].
  exists (e1 ++ e2)%list. split; [|by apply Forall_app]. cbn in *.
  by rewrite E2, E1, rev_app_distr, app_assoc.
Qed.

Lemma safely_ret ok {A} (a : A) : safely ok (mret a).
Proof. intros s Hs. split; [done|]. by exists []. Qed.
Lemma safely_emit (ok : event → Prop) e : ok e → safely ok (emit e).
Proof. intros H s Hs. split; [done|]. exists [e]. by split; [|apply Forall_singleton]. Qed.
Lemma safely_emits ok es : Forall ok es → safely ok (emits es).
Proof.
  induction 1 as [|e es He _ IH]; cbn [emits]; [apply safely_ret|].
  apply safely_bind; [by apply safely_emit|by intros _].
Qed.
(** What touches neither the log nor the cache. *)
Lemma safely_silent ok {A} (m : G A) :
  (∀ s, g_log (m s).2 = g_log s ∧ g_cred (m s).2 = g_cred s) → safely ok m.
Proof. intros H s Hs. destruct (H s) as [-> ->]. split; [done|]. by exists []. Qed.
Lemma safely_newTrace ok c session req name : safely ok (newTrace env h c session req name).
Proof. by apply safely_silent. Qed.

Section Safety.
Context (c : reqCtx) (req : ChatCompletionRequest) (P : string → Prop).

Hypothesis Horg : plain (ctx_OrgID c).
Hypothesis Huser : plain (ctx_UserID c).

#[local] Abbreviation safe := (safely (ev_ok c req P)).

Lemma safe_bind {A B} (m : G A) (k : A → G B) : safe m → (∀ a, safe (k a)) → safe (m ≫= k).
Proof. apply safely_bind. Qed.
Lemma safe_ret {A} (a : A) : safe (mret a).
Proof. apply safely_ret. Qed.
Lemma safe_emit e : ev_ok c req P e → safe (emit e).
Proof. apply safely_emit. Qed.
Lemma safe_write cs : safe (write cs).
Proof. apply safely_emits, Forall_fmap, Forall_true. done. Qed.
Lemma safe_now : safe (now env).
Proof. by apply safely_silent. Qed.
Lemma safe_Since t : safe (Since env t).
Proof. by apply safely_silent. Qed.
Lemma safe_newTrace session name : safe (newTrace env h c session req name).
Proof. apply safely_newTrace. Qed.
Lemma safe_recordEvidence t a r : safe (recordEvidence h t a r).
Proof. unfold recordEvidence. destruct (gh_recorder h); [by apply safe_emit|apply safe_ret]. Qed.
Lemma safe_recordSpend cost : safe (recordSpend h c cost).
Proof. unfold recordSpend. repeat case_match; first [by apply safe_emit|apply safe_ret]. Qed.
Lemma safe_notify f : safe (notifyFailover h f).
Proof. unfold notifyFailover. destruct (gh_notifier h); [by apply safe_emit|apply safe_ret]. Qed.
Lemma safe_call u : call_ok c req P u → safe (ChatCompletion env u).
Proof. intros H s Hs. split; [done|]. exists [EvUpstream u]. by split; [|apply Forall_singleton]. Qed.
Lemma safe_stream_call u : call_ok c req P u → safe (ChatCompletionStream env u).
Proof. intros H s Hs. split; [done|]. exists [EvUpstream u]. by split; [|apply Forall_singleton]. Qed.
Lemma safe_if {A} (b : bool) (m1 m2 : G A) : (b = true → safe m1) → (b = false → safe m2) → safe (if b then m1 else m2).
Proof. destruct b; auto. Qed.

Hint Resolve safe_ret safe_write safe_now safe_Since safe_newTrace safe_recordEvidence
  safe_recordSpend safe_notify : wp.

(** Bind, split on tests, close with the rules. *)
Ltac safe_tac :=
  repeat first
    [ solve [auto 1 with wp]
    | progress unfold writeErr, writeResp, setCostHeader, setCostTrailer
    | lazymatch goal with |- safely _ (mbind _ _) => apply safe_bind; [|intros ?] end
    | case_match ].

Lemma safe_store i vec resp :
  safe (if gh_scache h && (i =? 0) && cacheEligible req then
        match e_marshal_response env resp with
        | Some b => emit (EvCacheStore (cacheScope c) (Model req) (promptText (Messages req)) vec b)
        | None => mret tt
        end
      else mret tt).
Proof.
  apply safe_if; [intros ?|auto with wp]. reflect_bools. case_match; [|auto with wp].
  by apply safe_emit; repeat split.
Qed.

Lemma safe_finish i n vec resp trace ls : safe (unary_finish env h c req i n vec resp trace ls).
Proof. unfold unary_finish. apply safe_bind; [apply safe_store|intros ?]. safe_tac. Qed.

Lemma safe_self_correct fuel p cred bytes attempt resp trace f rep n :
  call_ok c req P (mkUp p cred attempt) →
  safe (self_correct env h fuel p cred bytes attempt resp trace f rep n).
Proof.
  revert attempt resp trace f rep n. induction fuel as [|fuel IH]; intros * Hok; cbn [self_correct];
    [auto with wp|].
  apply safe_if; [auto with wp|intros _].
  assert (call_ok c req P (mkUp p cred (withSchemaCorrection attempt (first_content resp) (Reason f)))) as Hok'.
  { destruct Hok as (H1 & H2 & H3). split_and!; [done..|]. by apply prefix_app_r. }
  apply safe_bind; [by apply safe_call|]. intros [cresp|e]; [|auto with wp].
  destruct (r_Choices cresp); [auto with wp|]. destruct (redact_first h cresp).
  destruct (validateOrRepairJSON env h _ bytes) as [[content f1] rep1]. by apply IH.
Qed.

Lemma safe_success i n p cred attempt start vec resp trace ls :
  call_ok c req P (mkUp p cred attempt) →
  safe (unary_success env h c req i n p cred attempt start vec resp trace ls).
Proof.
  intros Hok. unfold unary_success. apply safe_bind; [auto with wp|intros lat].
  destruct (r_Choices resp); [apply safe_finish|]. destruct (redact_first h resp).
  apply safe_if; intros _; [apply safe_finish|].
  destruct (validateOrRepairJSON env h _ _) as [[content f1] rep1].
  apply safe_bind; [by apply safe_self_correct|]. intros [[[[r2 t2] f2] rep2] n2].
  apply safe_if; intros _; [|apply safe_finish]. unfold unary_blocked. safe_tac.
Qed.

Lemma safe_inject {A} name (k : res string (option CallerCredential * string) → G A) :
  (∀ r, match r with Ok (cred, _) => cred_ok c name cred | Err _ => True end → safe (k r)) →
  safe (injectCredential env h c name ≫= k).
Proof.
  intros Hk s Hs. pose proof (injectCredential_ok c name s Horg Huser Hs) as H.
  unfold mbind, G_bind. destruct (injectCredential env h c name s) as [r s'].
  destruct H as (Hs' & <- & Hr). by apply (Hk r Hr).
Qed.

Lemma safe_note_chunk start k st : safe (note_chunk env start k st).
Proof. unfold note_chunk. safe_tac. Qed.

Lemma safe_stream_event start ev st : safe (stream_event env c start ev st).
Proof. unfold stream_event. repeat first [apply safe_note_chunk | progress safe_tac]. Qed.

Lemma safe_stream_loop start events st : safe (stream_loop env c start events st).
Proof.
  revert st. induction events as [|ev events IH]; intros st; cbn [stream_loop]; [apply safe_ret|].
  apply safe_bind; [apply safe_stream_event|apply IH].
Qed.

Lemma safe_candidate session order full reqTrace i model ls :
  P model → safe (unary_candidate env h c session req order full reqTrace i model ls).
Proof.
  intros HP. unfold unary_candidate.
  destruct (Registry.Resolve (gh_registry h) model) as [[p fwd]|] eqn:Hr; [|auto with wp].
  apply safe_bind; [auto with wp|intros t0]. apply safe_bind; [auto with wp|intros start].
  apply safe_inject. intros [[cred source]|err] Hcred; [|by safe_tac].
  assert (call_ok c req P (mkUp p cred (with_model fwd req))) as Hok by (split_and!; eauto).
  apply safe_bind.
  { apply safe_if; [intros ?|auto with wp]. reflect_bools. unfold lookup_cache. safe_tac.
    apply safe_emit. by repeat split. }
  intros [[cached|] vec]; [unfold unary_hit; safe_tac|].
  apply safe_bind; [by apply safe_call|]. intros [resp|err].
  - apply safe_bind; [by apply safe_success|auto with wp].
  - apply safe_bind; [|auto with wp]. unfold unary_failed. safe_tac.
Qed.

Lemma safe_unary_loop session order full reqTrace chain i ls :
  (∀ m, m ∈ chain → P m) → safe (unary_loop env h c session req order full reqTrace i chain ls).
Proof.
  revert i ls. induction chain as [|m chain IH]; intros i ls HP; cbn [unary_loop]; [auto with wp|].
  apply safe_bind; [apply safe_candidate, HP, list_elem_of_here|]. intros [ls'|]; [|auto with wp].
  apply IH. intros x Hx. by apply HP, list_elem_of_further.
Qed.

Lemma safe_unary session order chain start :
  (∀ m, m ∈ chain → P m) → safe (handleUnary env h c session order chain req start).
Proof.
  intros HP. unfold handleUnary. apply safe_bind; [auto with wp|intros reqTrace].
  apply safe_bind; [by apply safe_unary_loop|].
  intros [ls|]; [|auto with wp]. apply safe_bind; [unfold exhausted_trace; safe_tac|intros t]. safe_tac.
Qed.

Lemma safe_open_loop session full reqTrace chain i ls :
  (∀ m, m ∈ chain → P m) → safe (open_loop env h c session req full reqTrace i chain ls).
Proof.
  revert i ls. induction chain as [|m chain IH]; intros i ls HP; cbn [open_loop]; [auto with wp|].
  assert (∀ i ls, safe (open_loop env h c session req full reqTrace i chain ls)) as IH'.
  { intros i' ls'. apply IH. intros x Hx. by apply HP, list_elem_of_further. }
  destruct (Registry.Resolve (gh_registry h) m) as [[p fwd]|] eqn:Hr; [|apply IH'].
  apply safe_bind; [auto with wp|intros t0]. apply safe_bind; [auto with wp|intros start].
  apply safe_inject. intros [[cred source]|err] Hcred.
  - apply safe_bind; [apply safe_stream_call; split_and!; [exists m; split; [apply HP, list_elem_of_here|done]|done..]|].
    intros [events|err]; [auto with wp|]. apply safe_bind; [auto with wp|intros lat]. apply IH'.
  - apply safe_bind; [auto with wp|intros lat]. apply IH'.
Qed.

Lemma safe_stream session flusher chain start :
  (∀ m, m ∈ chain → P m) → safe (handleStream env h c session flusher chain req start).
Proof.
  intros HP. unfold handleStream. apply safe_if; intros _; [safe_tac|].
  apply safe_bind; [auto with wp|intros reqTrace]. apply safe_bind; [by apply safe_open_loop|].
  intros [[[events t]|] ls].
  - apply safe_bind; [auto with wp|intros _].
    apply safe_bind; [apply safe_stream_loop|intros st; unfold stream_close; safe_tac].
  - apply safe_bind; [unfold exhausted_trace; safe_tac|intros t]. safe_tac.
Qed.

Lemma safe_resolveChain session : safe (resolveChain env h c session req).
Proof.
  unfold resolveChain, resolve_concrete, deny, recordPolicyDenied. safe_tac.
  intros st0 Hst. unfold rotate. repeat case_match; (split; [done|]; by exists []).
Qed.
End Safety.
End Contract.
