(* ===== verification/GatewayProps.v ===== *)
(** * GatewayProps: the properties of the chat completions handler

    Stated of a run from an empty log: [events m s] are the effects of [m] from
    the state [s], oldest first. *)

From S2P Require Import Prelude GoString Float64 GoTime GoSort ApiErr Balancer Router.
From S2P Require Import Registry Pricing Credentials Guardrails SemCache GwTypes Middleware Gateway.
From S2P Require Import GatewayLogic GatewaySpec.
Local Open Scope string_scope.
Local Open Scope Z_scope.

Definition events {A} (m : G A) (s : gstate) : list event := rev (g_log (m s).2).

Section Props.
Context {doc schema : Type} (env : Env doc schema) (h : GwHandler).

(** The body decodes to [req] and its prompt passes the input guardrails. *)
Definition admitted (body : res string string) (req : ChatCompletionRequest) : Prop :=
  ∃ raw, body = Ok raw ∧ decode_body env raw = Ok req ∧
    Blocked (CheckInput (gh_guard h) (promptText (Messages req))) = false.

(** ** A healthy candidate ends the loop *)

(** Every call to the provider of [model] succeeds. *)
Definition healthy (model : string) : Prop :=
  ∃ p fwd, Registry.Resolve (gh_registry h) model = Some (p, fwd) ∧
    ∀ n u, up_provider u = p → ∃ r, e_upstream env n u = Ok r.

Lemma wp_candidate_healthy c session req order full reqTrace i model ls :
  gh_recorder h = true → strict_byok h = false → healthy model →
  wp (unary_candidate env h c session req order full reqTrace i model ls) (fun r _ => r = None).
Proof.
  intros Hrec Hs (p & fwd & Hr & Hok). unfold unary_candidate. rewrite Hr. repeat wp_step.
  destruct r as [[cred source]|err]; [|congruence].
  wp_step. fold (cache_step env h c req i). apply wp_cache_step. intros [cached|] vec evs _ _ _.
  - wp_step. unfold unary_hit. repeat wp_step. done.
  - wp_step. apply wp_ChatCompletion_at. intros n.
    destruct (Hok n (mkUp p cred (with_model fwd req)) eq_refl) as [resp Hresp]. rewrite Hresp. wp_step.
    eapply wp_unary_success; try done. intros. by apply wp_ret.
Qed.

Lemma wp_loop_healthy c session req order full reqTrace chain i ls model :
  gh_recorder h = true → strict_byok h = false → model ∈ chain → healthy model →
  last_ok h c ls → 0 ≤ i →
  wp (unary_loop env h c session req order full reqTrace i chain ls) (fun r _ => r = None).
Proof.
  intros Hrec Hs Hin Hh. revert i ls.
  induction Hin as [m chain|m m' chain Hin IH]; intros i ls Hls Hi; cbn [unary_loop]; wp_step.
  - eapply wp_mono; [by apply wp_candidate_healthy|]. intros r e1 ->. by wp_step.
  - eapply wp_mono; [by apply wp_unary_candidate|]. intros [ls'|] e1; [|by intros _; wp_step].
    intros (_ & _ & _ & Hls'). apply IH; [done..|lia].
Qed.

Lemma wp_unary_healthy c session order chain req start model :
  gh_recorder h = true → strict_byok h = false → model ∈ chain → healthy model →
  wp (handleUnary env h c session order chain req start) (fun _ evs => success env h c req 0 evs).
Proof.
  intros Hrec Hs Hin Hh. unfold handleUnary. repeat wp_step. eapply wp_mono.
  { apply wp_and; [by apply wp_unary_loop|by eapply wp_loop_healthy]. }
  intros r e1 [Hpost ->]. wp_step. rewrite app_nil_r. apply Hpost.
Qed.

(** ** The whole handler *)

(** The body decodes to [req], which names a model and has messages. *)
Definition well_formed (body : res string string) (req : ChatCompletionRequest) : Prop :=
  ∃ raw, body = Ok raw ∧ decode_body env raw = Ok req ∧ Model req ≠ "" ∧ Messages req ≠ [].

(** How a request may end: a malformed one is refused with 400, a stream over a
    writer that cannot flush with 500, neither with a trace; every other request
    gets one status line and one trace. *)
Inductive outcome_ok (c : reqCtx) (flusher : bool) (body : res string string) (evs : list event) : Prop :=
| Malformed :
    (∀ req, ¬ well_formed body req) → only_writes evs → statuses evs = [400] → outcome_ok c flusher body evs
| Unflushable req :
    well_formed body req → admitted body req → Stream req = true → flusher = false →
    only_writes evs → statuses evs = [500] → outcome_ok c flusher body evs
| Recorded req t n :
    well_formed body req → statuses evs = [n] → traces evs = [t] → owned c t →
    StatusCode t = n ∨ n = 502 ∧ StatusCode t = 403 ∧ strict_byok h = true → outcome_ok c flusher body evs.

(** One status line and one trace that agree. *)
Definition recorded (c : reqCtx) (evs : list event) : Prop :=
  ∃ t n, statuses evs = [n] ∧ traces evs = [t] ∧ owned c t ∧
    (StatusCode t = n ∨ n = 502 ∧ StatusCode t = 403 ∧ strict_byok h = true).

Lemma answer_recorded c req evs : answer env h c req evs → recorded c evs.
Proof.
  intros [[(l0 & n & u & a & ks & _ & _ & _ & _ & [t r|t r])|t r]|t ? ? ? ? ? ? ? ? [?|[? ?]]];
    eexists _, _; split_and!; eauto 10.
Qed.
Lemma streamed_recorded c evs : streamed h c evs → recorded c evs.
Proof. intros [t|t ? ? ? ? [?|[? ?]]]; eexists _, _; split_and!; eauto 10. Qed.
Lemma denied_recorded c evs : denied c evs → recorded c evs.
Proof. intros [t n]. eexists _, _; split_and!; eauto. Qed.

(** An error answer of [ChatCompletions] that leaves no trace. *)
Lemma wp_early c n errType msg (Q : bool → list event → Prop) :
  (∀ evs, only_writes evs → statuses evs = [n] → Q false evs) →
  wp (writeErr env c n errType msg;; mret false) Q.
Proof. intros HQ. repeat wp_step. rewrite app_nil_r. by apply HQ. Qed.

Lemma wp_ChatCompletions_outcome c flusher order body :
  gh_recorder h = true →
  wp (ChatCompletions env h c flusher order body) (fun panicked evs =>
    if panicked then True else outcome_ok c flusher body evs).
Proof.
  intros Hrec. unfold ChatCompletions.
  destruct body as [raw|e].
  2: { apply wp_early. intros. apply Malformed; try done. intros req (raw & [=] & _). }
  destruct (decode_body env raw) as [req|msg] eqn:Hd.
  2: { apply wp_early. intros. apply Malformed; try done. intros req (? & [= <-] & E & _). congruence. }
  destruct (String.eqb (Model req) "" || (length (Messages req) =? 0)%nat) eqn:Hm.
  { apply wp_early. intros. apply Malformed; try done. intros req' (? & [= <-] & E & H1 & H2).
    assert (req' = req) as -> by congruence. apply orb_true_iff in Hm as [Hm|Hm]; [by apply String.eqb_eq in Hm|].
    by destruct (Messages req). }
  apply orb_false_iff in Hm as [Hm1 Hm2].
  assert (well_formed (Ok raw) req) as Hwf.
  { exists raw. split_and!; [done..|by intros E%String.eqb_eq; congruence|]. by intros E; rewrite E in Hm2. }
  assert (∀ evs, recorded c evs → outcome_ok c flusher (Ok raw) evs) as Hr
    by (intros evs (t & n & ? & ? & ? & ?); by eapply (Recorded _ _ _ _ req t n)).
  destruct (Blocked (CheckInput _ _)) eqn:Hb.
  { unfold recordGuardrailBlock. repeat wp_step. rewrite Hrec. apply Hr. evidence_of t'.
    exists t', 403. split_and!; try (by views); unfold owned; rewrite ?Eb, ?Es; auto. }
  wp_step. eapply wp_mono; [by apply wp_resolveChain|].
  intros [chain| |] e1; [|intros Hdn; wp_step; rewrite app_nil_r; by apply Hr, denied_recorded|by intros ->; wp_step].
  intros [-> _]. repeat wp_step. cbn [app]. destruct (Stream req) eqn:Hst.
  - destruct flusher.
    + eapply wp_mono; [by apply wp_handleStream|]. intros _ e2 [Hs _]. wp_step.
      rewrite app_nil_r. by apply Hr, streamed_recorded.
    + unfold handleStream. cbn [negb]. repeat wp_step. rewrite app_nil_r.
      apply (Unflushable _ _ _ _ req); try done. by exists raw.
  - eapply wp_mono; [by apply wp_handleUnary|]. intros _ e2 [Ha _]. wp_step.
    rewrite app_nil_r. by eapply Hr, answer_recorded.
Qed.

(** ** The balancer does not panic *)

(** Model ids are not longer lists than the balancer's counters allow and hold no
    NUL byte. *)
Definition groups_ok : Prop :=
  ∀ model l, routeCandidates h model = Some l → nul_free l ∧ Z.of_nat (length l) ≤ 1000000.

(** What earlier requests made of the balancer, if one is configured. *)
Definition balancer_ok (s : gstate) : Prop := ∀ w, g_lb s = Some w → reachable w.

Lemma rotate_no_panic key ranked s :
  balancer_ok s → nul_free ranked → Z.of_nat (length ranked) ≤ 1000000 →
  (rotate h key ranked s).1 ≠ ChainPanic.
Proof.
  intros Hb Hn Hl. unfold rotate. destruct (gh_lb h); cbn [negb]; [|done].
  destruct (g_lb s) as [w|] eqn:Ew; [|done].
  destruct ranked as [|m ranked]; [done|].
  destruct (rotate_chain_shape w key (m :: ranked) (Hb w Ew) Hn ltac:(done) Hl) as (i & m' & w' & E & _).
  by rewrite E.
Qed.

Lemma deny_no_panic c session req status code errType detail s :
  (deny env h c session req status code errType detail s).1 ≠ ChainPanic.
Proof.
  unfold deny, mbind, G_bind. destruct (recordPolicyDenied _ _ _ _ _ _ _ _ s) as [? s'].
  by destruct (writeErr _ _ _ _ _ s').
Qed.

Lemma resolveChain_no_panic c session req s :
  rankers_ok h → groups_ok → balancer_ok s → (resolveChain env h c session req s).1 ≠ ChainPanic.
Proof.
  intros Hrk Hg Hb.
  assert ((resolve_concrete env h c session req s).1 ≠ ChainPanic) as Hc.
  { unfold resolve_concrete. repeat case_match; try apply deny_no_panic. done. }
  unfold resolveChain. destruct (gh_router h) as [rank|] eqn:Hr; [|done].
  destruct (routeCandidates h (Model req)) as [candidates|] eqn:Hca; [|done].
  destruct (Hg _ _ Hca) as [Hn Hl].
  destruct (filterAllowed c candidates) as [|a l] eqn:Hf; [apply deny_no_panic|].
  destruct (rank (a :: l) (ctx_MinQuality c)) as [|m ranked] eqn:Hrank; [apply deny_no_panic|].
  pose proof (Hrk rank Hr) as Hkr. apply rotate_no_panic; [done|..].
  - apply Forall_forall. intros x Hx. rewrite <- Hrank in Hx. apply ranker_subset in Hx.
    rewrite <- Hf in Hx. apply list_elem_of_filter in Hx as [_ Hx]. by eapply Forall_forall in Hn.
  - rewrite <- Hrank. pose proof (ranker_length (a :: l) (ctx_MinQuality c)) as H1. rewrite <- Hf in H1 at 2.
    pose proof (length_filter (fun m => Is_true (modelAllowed c m)) candidates) as H2.
    unfold filterAllowed in H1. lia.
Qed.

Lemma ChatCompletions_no_panic c flusher order body s :
  rankers_ok h → groups_ok → balancer_ok s → (ChatCompletions env h c flusher order body s).1 = false.
Proof.
  intros Hrk Hg Hb. unfold ChatCompletions, mbind, G_bind.
  destruct body as [raw|e]; [|by destruct (writeErr _ _ _ _ _ s)].
  destruct (decode_body env raw) as [req|msg]; [|by destruct (writeErr _ _ _ _ _ s)].
  destruct (_ || _); [by destruct (writeErr _ _ _ _ _ s)|].
  destruct (Blocked _).
  { destruct (recordGuardrailBlock _ _ _ _ _ _ s) as [? s']. by destruct (writeErr _ _ _ _ _ s'). }
  pose proof (resolveChain_no_panic c (extractSessionID env raw) req s Hrk Hg Hb) as Hp.
  destruct (resolveChain env h c (extractSessionID env raw) req s) as [[chain| |] s1]; [|done..].
  destruct (now env s1) as [start s2].
  by destruct (if Stream req then _ else _).
Qed.

(** The effects a request may have: only once admitted, and then as [ev_ok] says. *)
Definition authorized (c : reqCtx) (body : res string string) (e : event) : Prop :=
  match e with
  | EvWrite _ | EvRecord _ => True
  | _ => ∃ req, admitted body req ∧ ev_ok env h c req (fun m => modelAllowed c m = true) e
  end.

(** Answers and traces are always allowed. *)
Lemma safely_writeErr c body n errType msg {A} (a : A) :
  safely env (authorized c body) (writeErr env c n errType msg;; mret a).
Proof.
  apply safely_bind; [|intros; apply safely_ret]. apply safely_emits, Forall_fmap, Forall_true. done.
Qed.

Lemma safely_ChatCompletions c flusher order body :
  rankers_ok h → gh_recorder h = true → plain (ctx_OrgID c) → plain (ctx_UserID c) →
  safely env (authorized c body) (ChatCompletions env h c flusher order body).
Proof.
  intros Hrk Hrec Ho Hu. unfold ChatCompletions.
  destruct body as [raw|e]; [|apply safely_writeErr].
  destruct (decode_body env raw) as [req|msg] eqn:Hdec; [|apply safely_writeErr].
  destruct (_ || _); [apply safely_writeErr|].
  destruct (Blocked (CheckInput _ _)) eqn:Hb.
  { apply safely_bind; [|intros; apply safely_writeErr]. unfold recordGuardrailBlock.
    apply safely_bind; [apply safely_newTrace|intros t]. unfold recordEvidence. rewrite Hrec. cbn [negb].
    by apply safely_emit. }
  assert (admitted (Ok raw) req) as Hadm by (exists raw; auto).
  eapply safely_mono; [intros e He; exact (match e as e' return
    ev_ok env h c req (fun m => modelAllowed c m = true) e' → authorized c (Ok raw) e' with
    | EvWrite _ | EvRecord _ => fun _ => I | _ => fun H => ex_intro _ req (conj Hadm H) end He)|].
  eapply safely_bind_wp; [by apply safe_resolveChain|by apply wp_resolveChain|].
  intros [chain| |] evs Hr; [|apply safely_ret..]. destruct Hr as [_ Hall]. specialize (Hall Hrk).
  apply safely_bind; [by apply safely_silent|intros start]. apply safely_bind; [|intros _; apply safely_ret].
  destruct (Stream req); [by apply safe_stream|by apply safe_unary].
Qed.

(** ** Properties *)

(** [C2] A non-streaming request gets exactly one status line, one body and one trace
    (of the caller's organisation and key), and the run is of one of four kinds.
    Served: some call was answered, every call before it failed, and the corrections
    after it each follow an answer that violates the requested JSON mode or schema,
    go to the same provider under the same credential and end with an answer that
    does not; that answer, redacted and repaired, is the body of the 200, and the
    spend entry is the recorded cost.  Refused with 422: as before, but the last
    answer still violates it, the body says why, and either the corrections are used
    up or the last one got no answer.  A cache hit: no call, no spend, the cached
    answer sent.  Exhausted: every call made failed, the answer is 502 with one error
    body, and nothing is spent.  At most one call per candidate is made, plus the
    configured number of corrections.  (The chain is the one [resolveChain] gives,
    and a recorder is configured.) *)
Theorem unary_answer (c : reqCtx) (session : string) (order : list (string * list string))
    (chain : list string) (req : ChatCompletionRequest) (start : Time) (s : gstate) :
  gh_recorder h = true → g_log s = [] →
  let evs := events (handleUnary env h c session order chain req start) s in
  answer env h c req evs ∧ (length (calls evs) ≤ length chain + corrections h)%nat.
Proof. intros Hrec Hs. exact (wp_run _ _ s Hs (wp_handleUnary env h c session order chain req start Hrec)). Qed.

(** [C13] Failover reaches a healthy provider: outside strict BYOK, if some candidate of
    the chain resolves to a provider whose every call succeeds, the request is
    not answered with the exhausted chain's error, whatever the others do. *)
Theorem failover_reaches_healthy (c : reqCtx) (session : string) (order : list (string * list string))
    (chain : list string) (req : ChatCompletionRequest) (start : Time) (s : gstate) (model : string) :
  gh_recorder h = true → strict_byok h = false → g_log s = [] → model ∈ chain → healthy model →
  success env h c req 0 (events (handleUnary env h c session order chain req start) s).
Proof.
  intros Hrec Hb Hs Hin Hh.
  apply (wp_run _ (fun _ evs => success env h c req 0 evs) s Hs). by eapply wp_unary_healthy.
Qed.

(** A streaming request gets one status line and one trace: 200 with the spend of
    the recorded cost once a candidate connected, else 502 without spend; one
    call per candidate at most. *)
Theorem stream_answer (c : reqCtx) (session : string) (chain : list string)
    (req : ChatCompletionRequest) (start : Time) (s : gstate) :
  gh_recorder h = true → g_log s = [] →
  let evs := events (handleStream env h c session true chain req start) s in
  streamed h c evs ∧ (length (calls evs) ≤ length chain)%nat.
Proof. intros Hrec Hs. exact (wp_run _ _ s Hs (wp_handleStream env h c session chain req start Hrec)). Qed.


(** [C1] Every effect is authorised: an upstream call, cache access, spend entry or
    failover notice happens only for a decoded request whose prompt passes the
    input guardrails.  Each upstream call goes to the provider the registry gives
    for a model the key may use and extends the caller's messages; its credential
    override is the one the credential store gave for this very organisation, user
    and provider, and it has none only when keys are shared, no credential resolver
    is configured, or, outside strict BYOK, the store failed or had none.  The cache
    is used only for eligible requests under the caller's own scope; spend is booked
    on the caller's key.  For a recorder, a router that ranks only what it is given,
    ids without NUL bytes and a credential cache of earlier answers, which the
    request leaves as one. *)
Theorem effects_authorized (c : reqCtx) (flusher : bool) (order : list (string * list string))
    (body : res string string) (s : gstate) :
  rankers_ok h → gh_recorder h = true → plain (ctx_OrgID c) → plain (ctx_UserID c) →
  cred_inv env (g_cred s) → g_log s = [] →
  let m := ChatCompletions env h c flusher order body in
  cred_inv env (g_cred (m s).2) ∧ Forall (authorized c body) (events m s).
Proof.
  intros Hrk Hrec Ho Hu Hc Hs m.
  destruct (safely_ChatCompletions c flusher order body Hrk Hrec Ho Hu s Hc) as (Hc' & evs & E & F).
  split; [done|]. unfold events, m. by rewrite E, Hs, app_nil_r, rev_involutive.
Qed.
End Props.

(** ** A concrete deployment

    Two providers: every call to [down] fails, every call to [up] answers with a
    text.  The validator accepts nothing but ["{}"]. *)

Definition down : Provider := mkProvider 1 "down".
Definition up : Provider := mkProvider 2 "up".
Definition demo_registry : Registry.Registry :=
  Register (Register NewRegistry down ["a"]) up ["b"].
Definition demo_usage : Usage := mkUsage 10 5 15 fone fzero None None.
Definition demo_resp (text : string) : ChatCompletionResponse :=
  mkResp "id" "chat.completion" 0 "b" [mkChoice 0 (text_message "assistant" text) "stop"] demo_usage.
Definition demo_req (stream : bool) (fmt : option ResponseFormat) : ChatCompletionRequest :=
  mkReq "team" [text_message "user" "hello"] None None None stream [] [] "" "" "" "" None fmt None ∅.
Definition demo_ctx : reqCtx := mkCtx "req-1" "org" "user" "vk" ["a"; "b"] 0 fzero fzero.

Definition demo_env (cached : option Hit) (req : ChatCompletionRequest) : Env unit unit :=
  mkEnv unit unit
    (fun n => Z.of_nat n) (fun n => "uuid")
    (fun _ u => if decide (up_provider u = down) then Err "connection refused" else Ok (demo_resp "hi"))
    (fun _ u => if decide (up_provider u = down) then Err "connection refused"
                else Ok [mkStreamEvent None None None true])
    (fun _ org user prov =>
       if String.eqb prov "up" then Ok (mkResolved ("sk-" +:+ org +:+ "-" +:+ user) "" "user" "cred", true)
       else Ok (no_credential, false))
    (fun _ _ _ => Ok (cached, []))
    (fun msg ty => ty +:+ ": " +:+ msg) (fun r => first_content r) (fun r => Some (first_content r))
    (fun b => demo_resp <$> b)
    (fun _ => "") (fun _ => "") (fun _ => "") (fun _ => "0") (fun s => s) (fun s => s)
    (fun s => if String.eqb s "{}" then Ok tt else Err "not JSON") (fun _ => None) (fun _ _ => None)
    (fun _ => false) (fun _ => Err "not hybrid") (fun _ => Ok req) (fun _ => None).

Definition json_guard : Guard := mkGuard (Guardrails.mkConfig true false false 0 [] true) [].

Definition demo_handler (g : option Guard) (cache : bool) : GwHandler :=
  mkGwHandler demo_registry true true (Some (fun l _ => l)) {["team" := ["a"; "b"]]} g 1 false cache
    false KeyModeShared "replica" true "open".
Definition demo_state : gstate := mkG [] 0 0 0 0 None (NewCredentialResolver 0).

#[export] Instance keep_order_ranker : Ranker (fun l (_ : float64) => l).
Proof. by split. Qed.

Lemma demo_rankers g cache : rankers_ok (demo_handler g cache).
Proof. intros rank [= <-]. apply keep_order_ranker. Qed.

Lemma b_healthy : healthy (demo_env None (demo_req false None)) (demo_handler None false) "b".
Proof.
  exists up, "b". split; [vm_compute; reflexivity|]. intros n u Hu. exists (demo_resp "hi").
  cbn. by rewrite Hu.
Qed.

(** A cached answer is served without the JSON validation a fresh one gets: the
    cache key ignores [response_format], so a text answer stored for the same
    prompt is sent with 200 to a request that asks for JSON, while the same text
    fresh from the provider is refused with 422. *)
Theorem cached_answer_skips_validation :
  let req := demo_req false (Some (mkFormat "json_object" None)) in
  let run cached := events (ChatCompletions (demo_env cached req) (demo_handler (Some json_guard) true)
                      demo_ctx true [] (Ok "body")) demo_state in
  let hit := run (Some (mkHit (Some "hi") fone)) in
  statuses hit = [200] ∧ bodies hit = ["hi"] ∧ calls hit = [] ∧
  Blocked (CheckJSON (demo_env None req) (demo_handler (Some json_guard) true) "hi" "") = true ∧
  statuses (run None) = [422].
Proof. vm_compute. repeat split; reflexivity. Qed.

(** ** Witnesses *)

Lemma unary_answer_witness :
  let env := demo_env None (demo_req false None) in
  let h := demo_handler None true in
  let evs := events (handleUnary env h demo_ctx "" [] ["a"; "b"] (demo_req false None) 0) demo_state in
  (answer env h demo_ctx (demo_req false None) evs ∧ (length (calls evs) ≤ 2 + corrections h)%nat) ∧
  statuses evs = [200] ∧ length (calls evs) = 2%nat.
Proof.
  split; [|vm_compute; split; reflexivity].
  apply (unary_answer (demo_env None (demo_req false None)) (demo_handler None true)
    demo_ctx "" [] ["a"; "b"] (demo_req false None) 0 demo_state); reflexivity.
Defined.

Lemma failover_reaches_healthy_witness :
  success (demo_env None (demo_req false None)) (demo_handler None false) demo_ctx (demo_req false None) 0
    (events (handleUnary (demo_env None (demo_req false None)) (demo_handler None false) demo_ctx "" []
       ["a"; "b"] (demo_req false None) 0) demo_state).
Proof.
  apply (failover_reaches_healthy (demo_env None (demo_req false None)) (demo_handler None false)
    demo_ctx "" [] ["a"; "b"] (demo_req false None) 0 demo_state "b");
    [reflexivity|reflexivity|reflexivity|by apply list_elem_of_further, list_elem_of_here|apply b_healthy].
Defined.

Lemma stream_answer_witness :
  let env := demo_env None (demo_req true None) in
  let h := demo_handler None false in
  let evs := events (handleStream env h demo_ctx "" true ["a"; "b"] (demo_req true None) 0) demo_state in
  streamed h demo_ctx evs ∧ (length (calls evs) ≤ 2)%nat.
Proof.
  apply (stream_answer (demo_env None (demo_req true None)) (demo_handler None false)
    demo_ctx "" ["a"; "b"] (demo_req true None) 0 demo_state); reflexivity.
Defined.

(** The demonstration with the caller's own keys, and a balancer. *)
Definition byok_handler : GwHandler :=
  mkGwHandler demo_registry true true (Some (fun l _ => l)) {["team" := ["a"; "b"]]} None 1 true false
    true KeyModeBYOK "replica" true "open".
Definition lb_state : gstate := mkG [] 0 0 0 0 (Some NewWeightedRR) (NewCredentialResolver Minute).

Lemma byok_groups : groups_ok byok_handler.
Proof.
  intros model l. unfold routeCandidates. destruct (String.eqb model "auto").
  - intros [= <-]. split; [vm_compute; repeat constructor; by intros [|[]]|vm_compute; congruence].
  - cbn. rewrite lookup_singleton. case_decide; [|done]. intros [= <-].
    split; [repeat constructor; cbn; by intros [|[]]|cbn; lia].
Qed.

Lemma byok_rankers : rankers_ok byok_handler.
Proof. intros rank [= <-]. apply keep_order_ranker. Qed.


Lemma effects_authorized_witness :
  let env := demo_env None (demo_req false None) in
  let m := ChatCompletions env byok_handler demo_ctx true [] (Ok "body") in
  (cred_inv env (g_cred (m lb_state).2) ∧
   Forall (authorized env byok_handler demo_ctx (Ok "body")) (events m lb_state)) ∧
  up_cred <$> calls (events m lb_state) = [None; Some (mkCaller "sk-org-user" "" "user")].
Proof.
  split; [|vm_compute; reflexivity].
  apply (effects_authorized (demo_env None (demo_req false None)) byok_handler
    demo_ctx true [] (Ok "body") lb_state);
    [apply byok_rankers|reflexivity|intros H; vm_compute in H; intuition discriminate
    |intros H; vm_compute in H; intuition discriminate|apply cred_inv_new|reflexivity].
Defined.
