(* ===== verification/Wire.v ===== *)
(** * Wire: src/internal/gateway/types.go and cursor_compat.go

    The JSON forms of the gateway's types: messages whose content is a text or a
    list of parts, tool definitions in their nested, flat and custom forms, tool
    calls, requests with the extra members they carry through, the items of the
    Responses API, and the translation of Cursor's hybrid bodies.  A function
    that returns an error gives [None]; a [json.RawMessage] is its text, [""] for
    nil.  [fmt_float] stands for [strconv.FormatFloat], which prints the numbers
    of a marshalled request. *)

From S2P Require Import Prelude GoString Float64 GoTime Net Json JsonFacts Pricing GwTypes.
Local Open Scope string_scope.
Local Open Scope go_scope.

(** [trimmed[0] == c] of a text that is not empty. *)
Definition starts (c : ascii) (s : string) : bool :=
  match s with String d _ => bool_decide (c = d) | "" => false end.

(** Text parts joined by [sep], empty ones skipped: the [strings.Builder] loops. *)
Definition join_parts (sep : string) (parts : list string) : string :=
  foldl (fun b t => if String.eqb t "" then b else if String.eqb b "" then t else b +:+ sep +:+ t) "" parts.

Definition newline : string := String (byte 10) "".

(** ** Message content *)

Record content_part := mkPart { part_Type : string; part_Text : string; part_InputText : string }.

Definition st_part : store content_part := fun raw old =>
  let '(ms, e) := struct_members raw in
  fill t := field "type" st_string (part_Type old) ms in
  fill x := field "text" st_string (part_Text old) ms in
  fill i := field "input_text" st_string (part_InputText old) ms in (mkPart t x i, e).

Definition zero_part : content_part := mkPart "" "" "".

Definition parseMessageContent (raw : string) : option string :=
  let trimmed := TrimSpace raw in
  if String.eqb trimmed "" || String.eqb trimmed "null" then Some ""
  else if starts (byte 34) trimmed then ok_or (Unmarshal st_string "" raw)
  else if negb (starts "[" trimmed) then None
  else
    parts ← ok_or (Unmarshal (st_list zero_part st_part) [] raw);
    Some (join_parts newline
            (map (fun p => if String.eqb (part_Text p) "" then part_InputText p else part_Text p) parts)).

(** ** Tool calls *)

Definition st_name_arg (arg : string) : store (string * string) := fun raw old =>
  let '(ms, e) := struct_members raw in
  fill n := field "name" st_string old.1 ms in
  fill a := field arg st_string old.2 ms in ((n, a), e).

Definition zero_call : ToolCall := mkToolCall None "" "" "" "" "" "".

Definition ToolCall_UnmarshalJSON (data : string) : option ToolCall :=
  ok_or (Unmarshal (fun raw _ =>
    let '(ms, e) := struct_members raw in
    fill i := field "index" (st_ptr 0%Z st_int) None ms in
    fill id := field "id" st_string "" ms in
    fill ty := field "type" st_string "" ms in
    fill fn := field "function" (st_name_arg "arguments") ("", "") ms in
    fill cu := field "custom" (st_name_arg "input") ("", "") ms in
    (mkToolCall i id ty fn.1 fn.2 cu.1 cu.2, e)) zero_call data).

(** A member left out when it is empty. *)
Definition omitempty (k : string) (v : string) : list (string * json) :=
  if String.eqb v "" then [] else [(k, JStr v)].

Definition ToolCall_json (t : ToolCall) : json :=
  JObj (match tc_Index t with Some i => [("index", jint i)] | None => [] end ++
        omitempty "id" (tc_ID t) ++ [("type", JStr (tc_Type t))] ++
        (if String.eqb (tc_Type t) "custom"
         then [("custom", JObj [("name", JStr (cu_Name t)); ("input", JStr (cu_Input t))])]
         else [("function", JObj [("name", JStr (fn_Name t)); ("arguments", JStr (fn_Arguments t))])]))%list.

Definition ToolCall_MarshalJSON (t : ToolCall) : string := Marshal (ToolCall_json t).

(** [Message.UnmarshalJSON]. *)
Definition Message_UnmarshalJSON (data : string) : option Message :=
  raw ← ok_or (Unmarshal (fun raw _ =>
    let '(ms, e) := struct_members raw in
    fill role := field "role" st_string "" ms in
    fill name := field "name" st_string "" ms in
    fill tcs := field "tool_calls" (st_list zero_call (st_own ToolCall_UnmarshalJSON)) [] ms in
    fill tid := field "tool_call_id" st_string "" ms in
    fill content := field "content" st_raw "" ms in
    (mkMessage role content name tcs tid, e)) (mkMessage "" "" "" [] "") data);
  if String.eqb (Content raw) "" then Some raw
  else text ← parseMessageContent (Content raw); Some (set_content text raw).

(** ** Tools *)

(** {type, name, description, parameters} of a flat definition. *)
Record flat_tool := mkFlat { fl_Type : string; fl_Name : string; fl_Description : string; fl_Parameters : string }.

Definition decode_flat (raw : string) : flat_tool * bool :=
  Unmarshal (fun raw _ =>
    let '(ms, e) := struct_members raw in
    fill t := field "type" st_string "" ms in
    fill n := field "name" st_string "" ms in
    fill d := field "description" st_string "" ms in
    fill p := field "parameters" st_raw "" ms in (mkFlat t n d p, e)) (mkFlat "" "" "" "") raw.

(** The function object of a flat definition. *)
Definition flat_function (f : flat_tool) : string :=
  Marshal (jmap [("name", JStr (fl_Name f)); ("description", JStr (fl_Description f));
                 ("parameters", JRaw (fl_Parameters f))]).

Definition wrapApplyPatchGrammar (custom : string) : string * bool :=
  let '(probe, e) := Unmarshal (fun raw _ =>
    let '(ms, e) := struct_members raw in
    fill n := field "name" st_string "" ms in
    fill d := field "description" st_string "" ms in
    fill f := field "format" st_raw "" ms in ((n, d, f), e)) ("", "", "") custom in
  let '(name, description, format) := probe in
  if e || String.eqb name "" then (custom, false)
  else
    let params := if String.eqb format "" then jmap [] else jmap [("format", JRaw format)] in
    match marshal (jmap [("name", JStr name); ("description", JStr description); ("parameters", params)]) with
    | Some b => (b, true)
    | None => (custom, false)
    end.

(** [(nil, err)] is [None]; the source never returns [(nil, nil)]. *)
Definition normaliseTool (raw : string) : option Tool :=
  '(ty, fn, cu) ← ok_or (Unmarshal (fun raw _ =>
    let '(ms, e) := struct_members raw in
    fill t := field "type" st_string "" ms in
    fill f := field "function" st_raw "" ms in
    fill c := field "custom" st_raw "" ms in ((t, f, c), e)) ("", "", "") raw);
  let probe := (Unmarshal (fun raw old =>
    let '(ms, e) := struct_members raw in
    fill n := field "name" st_string "" ms in (n, e)) "" raw).1 in
  if negb (String.eqb probe "") && String.eqb fn "" then
    flat ← ok_or (decode_flat raw); Some (mkTool (fl_Type flat) (flat_function flat) "")
  else if String.eqb ty "function" then
    if String.eqb fn "" then None else Some (mkTool "function" fn "")
  else if String.eqb ty "custom" then
    if String.eqb cu "" then None else Some (mkTool "custom" (wrapApplyPatchGrammar cu).1 "")
  else
    flat ← ok_or (decode_flat raw);
    if String.eqb (fl_Name flat) "" then None else Some (mkTool (fl_Type flat) (flat_function flat) "").

Definition Tool_UnmarshalJSON (data : string) : option Tool :=
  '(ty, fn) ← ok_or (Unmarshal (fun raw _ =>
    let '(ms, e) := struct_members raw in
    fill t := field "type" st_string "" ms in
    fill f := field "function" st_raw "" ms in ((t, f), e)) ("", "") data);
  let custom :=
    if String.eqb ty "custom" then
      match Unmarshal (fun raw _ =>
              let '(ms, e) := struct_members raw in
              fill c := field "custom" st_raw "" ms in (c, e)) "" data with
      | (c, false) => if String.eqb c "" then None else Some c
      | (_, true) => None
      end
    else None in
  match custom with
  | Some c => Some (mkTool "custom" "" c)
  | None => if negb (String.eqb fn "") then Some (mkTool ty fn "") else normaliseTool data
  end.

(** ** Requests *)

Definition st_eval : store NexusEvalContext := fun raw old =>
  let '(ms, e) := struct_members raw in
  fill c := field "contexts" (st_list "" st_string) (Contexts old) ms in
  fill r := field "reference" st_string (Reference old) ms in (mkEval c r, e).

Definition st_schema_spec : store JSONSchemaSpec := fun raw old =>
  let '(ms, e) := struct_members raw in
  fill n := field "name" st_string (sp_Name old) ms in
  fill s := field "schema" st_raw (sp_Schema old) ms in
  fill st := field "strict" st_bool (sp_Strict old) ms in (mkSpec n s st, e).

Definition st_format : store ResponseFormat := fun raw old =>
  let '(ms, e) := struct_members raw in
  fill t := field "type" st_string (rf_Type old) ms in
  fill s := field "json_schema" (st_ptr (mkSpec "" "" false) st_schema_spec) (rf_JSONSchema old) ms in (mkFormat t s, e).

Definition zero_message : Message := mkMessage "" "" "" [] "".
Definition zero_tool : Tool := mkTool "" "" "".

Definition st_messages : store (list Message) := st_list zero_message (st_own Message_UnmarshalJSON).
Definition st_eval_ptr : store (option NexusEvalContext) := st_ptr (mkEval [] "") st_eval.

Definition zero_request : ChatCompletionRequest :=
  mkReq "" [] None None None false [] [] "" "" "" "" None None None ∅.

Definition decode_chat_request (data : string) : option ChatCompletionRequest :=
  ok_or (Unmarshal (fun raw _ =>
    let '(ms, e) := struct_members raw in
    fill model := field "model" st_string "" ms in
    fill messages := field "messages" st_messages [] ms in
    fill temp := field "temperature" (st_ptr fzero st_float) None ms in
    fill topp := field "top_p" (st_ptr fzero st_float) None ms in
    fill maxt := field "max_tokens" (st_ptr 0%Z st_int) None ms in
    fill stream := field "stream" st_bool false ms in
    fill stop := field "stop" (st_list "" st_string) [] ms in
    fill tools := field "tools" (st_list zero_tool (st_own Tool_UnmarshalJSON)) [] ms in
    fill user := field "user" st_string "" ms in
    fill effort := field "reasoning_effort" st_string "" ms in
    fill sopts := field "stream_options" st_raw "" ms in
    fill choice := field "tool_choice" st_raw "" ms in
    fill par := field "parallel_tool_calls" (st_ptr false st_bool) None ms in
    fill fmt := field "response_format" (st_ptr (mkFormat "" None) st_format) None ms in
    fill ev := field "nexus_eval" st_eval_ptr None ms in
    (mkReq model messages temp topp maxt stream stop tools user effort sopts choice par fmt ev ∅, e))
    zero_request data).

(** *** Marshalling a request *)

Section MarshalRequest.
Context (fmt_float : float64 → string).

Definition Message_json (m : Message) : json :=
  JObj ([("role", JStr (Role m)); ("content", JStr (Content m))] ++ omitempty "name" (Name m) ++
        (match ToolCalls m with [] => [] | l => [("tool_calls", JArr (map ToolCall_json l))] end) ++
        omitempty "tool_call_id" (ToolCallID m))%list.

Definition omitraw (k v : string) : list (string * json) := if String.eqb v "" then [] else [(k, JRaw v)].

Definition Tool_json (t : Tool) : json :=
  JObj ([("type", JStr (tl_Type t))] ++ omitraw "function" (tl_Function t) ++ omitraw "custom" (tl_Custom t))%list.

Definition Spec_json (s : JSONSchemaSpec) : json :=
  JObj (omitempty "name" (sp_Name s) ++ omitraw "schema" (sp_Schema s) ++
        (if sp_Strict s then [("strict", JBool true)] else []))%list.
Definition Format_json (f : ResponseFormat) : json :=
  JObj ([("type", JStr (rf_Type f))] ++
        (match rf_JSONSchema f with Some s => [("json_schema", Spec_json s)] | None => [] end))%list.

Definition Eval_json (e : NexusEvalContext) : json :=
  JObj ((match Contexts e with [] => [] | l => [("contexts", JArr (map JStr l))] end) ++
        omitempty "reference" (Reference e))%list.

Definition omitnil {A} (k : string) (f : A → json) (v : option A) : list (string * json) :=
  match v with Some a => [(k, f a)] | None => [] end.
Definition omitnone {A} (k : string) (f : A → json) (l : list A) : list (string * json) :=
  match l with [] => [] | _ => [(k, JArr (map f l))] end.

(** The members of the struct itself, in the order of its fields. *)
Definition alias_members (r : ChatCompletionRequest) : list (string * json) :=
  ([("model", JStr (Model r)); ("messages", match Messages r with [] => JNull | l => JArr (map Message_json l) end)] ++
   omitnil "temperature" (fun f => JNum (fmt_float f)) (Temperature r) ++
   omitnil "top_p" (fun f => JNum (fmt_float f)) (TopP r) ++
   omitnil "max_tokens" jint (MaxTokens r) ++
   (if Stream r then [("stream", JBool true)] else []) ++
   omitnone "stop" JStr (Stop r) ++ omitnone "tools" Tool_json (Tools r) ++
   omitempty "user" (User r) ++ omitempty "reasoning_effort" (ReasoningEffort r) ++
   omitraw "stream_options" (StreamOptions r) ++ omitraw "tool_choice" (ToolChoice r) ++
   omitnil "parallel_tool_calls" JBool (ParallelToolCalls r) ++
   omitnil "response_format" Format_json (Format r) ++ omitnil "nexus_eval" Eval_json (NexusEval r))%list.

(** The splice of [Extra]: the struct's own members win, and everything is
    printed in the order of the keys. *)
Definition splice (own extra : gmap string string) : gmap string string := own ∪ extra.

Definition ChatCompletionRequest_MarshalJSON (r : ChatCompletionRequest) : option string :=
  base ← marshal (JObj (alias_members r));
  if decide (Extra r = ∅) then Some base
  else match Unmarshal st_rawmap ∅ base with
       | (_, true) => Some base
       | (m, false) => marshal (jmap (map (fun kv => (kv.1, JRaw kv.2)) (map_to_list (splice m (Extra r)))))
       end.
End MarshalRequest.

(** ** Items of the Responses API *)

Record InputItem := mkItem {
  it_Type : string;
  it_ID : string;
  it_Role : string;
  it_Content : string;
  it_Name : string;
  it_CallID : string;
  it_ToolUseID : string;
  it_Input : string;
  it_Arguments : string;
  it_Output : string
}.

Definition zero_item : InputItem := mkItem "" "" "" "" "" "" "" "" "" "".

Definition st_item : store InputItem := fun raw old =>
  let '(ms, e) := struct_members raw in
  fill t := field "type" st_string (it_Type old) ms in
  fill id := field "id" st_string (it_ID old) ms in
  fill role := field "role" st_string (it_Role old) ms in
  fill content := field "content" st_raw (it_Content old) ms in
  fill name := field "name" st_string (it_Name old) ms in
  fill call := field "call_id" st_string (it_CallID old) ms in
  fill use := field "tool_use_id" st_string (it_ToolUseID old) ms in
  fill input := field "input" st_raw (it_Input old) ms in
  fill args := field "arguments" st_string (it_Arguments old) ms in
  fill out := field "output" st_raw (it_Output old) ms in
  (mkItem t id role content name call use input args out, e).

Definition OutputString (it : InputItem) : string :=
  if String.eqb (it_Output it) "" then ""
  else
    let trim := TrimSpace (it_Output it) in
    if String.eqb trim "" || String.eqb trim "null" then ""
    else if starts (byte 34) trim then
      match Unmarshal st_string "" (it_Output it) with
      | (s, false) => s
      | (_, true) => TrimSpace (it_Output it)
      end
    else TrimSpace (it_Output it).

Definition st_type_text : store (string * string) := fun raw old =>
  let '(ms, e) := struct_members raw in
  fill t := field "type" st_string old.1 ms in
  fill x := field "text" st_string old.2 ms in ((t, x), e).

(** responses.go. *)
Definition extractInputText (raw : string) : string :=
  let trimmed := TrimSpace raw in
  if String.eqb trimmed "" || String.eqb trimmed "null" then ""
  else if starts (byte 34) trimmed then
    match Unmarshal st_string "" raw with (s, false) => s | (_, true) => "" end
  else match Unmarshal (st_list ("", "") st_type_text) [] raw with
       | (_, true) => raw
       | (parts, false) => join_parts newline (map snd parts)
       end.

Definition chat_role (role : string) : bool :=
  String.eqb role "user" || String.eqb role "system" || String.eqb role "assistant" ||
  String.eqb role "developer".

(** The cases responses.go and cursor_compat.go share; [None] for the others. *)
Definition item_message (it : InputItem) : option Message :=
  if chat_role (it_Role it) then Some (text_message (it_Role it) (extractInputText (it_Content it)))
  else if String.eqb (it_Type it) "function_call" then
    Some (mkMessage "assistant" "" "" [function_call (it_CallID it) (TrimSpace (it_Name it)) (it_Arguments it)] "")
  else if String.eqb (it_Type it) "function_call_output" then
    Some (mkMessage "tool" (OutputString it) (it_Name it) [] (it_CallID it))
  else None.

(** ** cursor_compat.go *)

(** The messages of the items, unknown ones skipped. *)
Definition item_messages (f : InputItem → option Message) (l : list InputItem) : list Message := omap f l.

Definition hybrid_item (it : InputItem) : option Message :=
  match item_message it with
  | Some m => Some m
  | None =>
      if String.eqb (it_Type it) "tool_use" then
        let '(name, input) := (Unmarshal (fun raw _ =>
          let '(ms, e) := struct_members raw in
          fill n := field "name" st_string "" ms in
          fill i := field "input" st_raw "" ms in ((n, i), e)) ("", "") (it_Content it)).1 in
        Some (mkMessage "assistant" "" ""
                [function_call (it_CallID it) name (if String.eqb input "" then "{}" else input)] "")
      else if String.eqb (it_Type it) "tool_result" then
        Some (mkMessage "tool" (OutputString it) "" [] (it_CallID it))
      else None
  end.

Definition IsCursorHybridRequest (body : string) : bool :=
  let trimmed := TrimSpace body in
  if String.eqb trimmed "" || negb (starts "{" trimmed) then false
  else if Contains trimmed (J "'input'") then true
  else Contains trimmed (J "'type':'custom'") || Contains trimmed (J "'type': 'custom'").

Definition parseInputToMessages (raw : string) : option (list Message) :=
  let trimmed := TrimSpace raw in
  if String.eqb trimmed "" || String.eqb trimmed "null" then None
  else if starts (byte 34) trimmed then
    s ← ok_or (Unmarshal st_string "" raw); Some [text_message "user" s]
  else if negb (starts "[" trimmed) then None
  else
    items ← ok_or (Unmarshal (st_list zero_item st_item) [] raw);
    Some (item_messages hybrid_item items).

Definition normaliseHybridToolChoice (raw : string) : string :=
  if String.eqb raw "" then ""
  else
    let trimmed := TrimSpace raw in
    if String.eqb trimmed "" || String.eqb trimmed "null" then ""
    else if negb (starts "{" trimmed) then raw
    else match Unmarshal (fun raw _ =>
                 let '(ms, e) := struct_members raw in
                 fill t := field "type" st_string "" ms in
                 fill f := field "function" st_raw "" ms in
                 fill n := field "name" st_string "" ms in ((t, f, n), e)) ("", "", "") raw with
         | (_, true) => raw
         | ((ty, fn, name), false) =>
             if negb (String.eqb fn "") then raw
             else if negb (String.eqb ty "") && negb (String.eqb name "") then
               Marshal (jmap [("type", JStr ty); ("function", jmap [("name", JStr name)])])
             else raw
         end.

(** The keys the canonical struct already carries. *)
Definition promoted : list string :=
  ["model"; "messages"; "input"; "tools"; "temperature"; "top_p"; "max_output_tokens"; "stream"; "user";
   "nexus_eval"; "instructions"; "reasoning"; "text"; "tool_choice"; "parallel_tool_calls"].

Definition pickResponsesExtras (raw : string) : gmap string string :=
  match Unmarshal st_rawmap ∅ raw with
  | (_, true) => ∅
  | (m, false) => filter (fun kv => kv.1 ∉ promoted) m
  end.

Record CursorHybridReq := mkHybrid {
  hy_Model : string;
  hy_Messages : list Message;
  hy_Input : string;
  hy_Temperature : option float64;
  hy_TopP : option float64;
  hy_MaxTokens : option Z;
  hy_MaxOutputTokens : option Z;
  hy_Stream : bool;
  hy_Stop : list string;
  hy_Tools : list string;
  hy_User : string;
  hy_ToolChoice : string;
  hy_ParallelToolCalls : option bool;
  hy_Reasoning : string;
  hy_StreamOptions : string
}.

Definition st_hybrid : store CursorHybridReq := fun raw _ =>
  let '(ms, e) := struct_members raw in
  fill model := field "model" st_string "" ms in
  fill messages := field "messages" st_messages [] ms in
  fill input := field "input" st_raw "" ms in
  fill temp := field "temperature" (st_ptr fzero st_float) None ms in
  fill topp := field "top_p" (st_ptr fzero st_float) None ms in
  fill maxt := field "max_tokens" (st_ptr 0%Z st_int) None ms in
  fill maxo := field "max_output_tokens" (st_ptr 0%Z st_int) None ms in
  fill stream := field "stream" st_bool false ms in
  fill stop := field "stop" (st_list "" st_string) [] ms in
  fill tools := field "tools" (st_list "" st_raw) [] ms in
  fill user := field "user" st_string "" ms in
  fill choice := field "tool_choice" st_raw "" ms in
  fill par := field "parallel_tool_calls" (st_ptr false st_bool) None ms in
  fill reasoning := field "reasoning" st_raw "" ms in
  fill sopts := field "stream_options" st_raw "" ms in
  (mkHybrid model messages input temp topp maxt maxo stream stop tools user choice par reasoning sopts, e).

Definition zero_hybrid : CursorHybridReq := mkHybrid "" [] "" None None None None false [] [] "" "" None "" "".

Definition TransformCursorHybrid (body : string) : option ChatCompletionRequest :=
  h ← ok_or (Unmarshal st_hybrid zero_hybrid body);
  messages ← match hy_Messages h with
             | [] => if negb (String.eqb (hy_Input h) "") && negb (String.eqb (hy_Input h) "null")
                     then parseInputToMessages (hy_Input h) else Some []
             | l => Some l
             end;
  let tools := omap normaliseTool (hy_Tools h) in
  let effort :=
    if negb (String.eqb (hy_Reasoning h) "") && negb (String.eqb (hy_Reasoning h) "null") then
      match Unmarshal (fun raw _ =>
              let '(ms, e) := struct_members raw in
              fill x := field "effort" st_string "" ms in (x, e)) "" (hy_Reasoning h) with
      | (x, false) => x
      | (_, true) => ""
      end
    else "" in
  let choice := if String.eqb (hy_ToolChoice h) "" then "" else normaliseHybridToolChoice (hy_ToolChoice h) in
  Some (mkReq (hy_Model h) messages (hy_Temperature h) (hy_TopP h)
          (match hy_MaxTokens h with Some n => Some n | None => hy_MaxOutputTokens h end)
          (hy_Stream h) (hy_Stop h) tools (hy_User h) effort (hy_StreamOptions h) choice
          (hy_ParallelToolCalls h) None None (pickResponsesExtras body)).

(** * Theorems *)

Lemma st_function_marshal n x old :
  st_name_arg "arguments" (Marshal (JObj [("name", JStr n); ("arguments", JStr x)])) old =
    ((to_valid n, to_valid x), false).
Proof. unfold st_name_arg. rewrite struct_members_marshal by done. known_fields. by rewrite !st_string_marshal. Qed.

Lemma st_custom_marshal n x old :
  st_name_arg "input" (Marshal (JObj [("name", JStr n); ("input", JStr x)])) old =
    ((to_valid n, to_valid x), false).
Proof. unfold st_name_arg. rewrite struct_members_marshal by done. known_fields. by rewrite !st_string_marshal. Qed.

Lemma jint_not_null z : String.eqb (Marshal (jint z)) "null" = false.
Proof.
  apply String.eqb_neq. intros E. pose proof (jint_wf z) as [Hn _].
  change (Marshal (jint z)) with (pretty z) in E. by rewrite E in Hn.
Qed.

(** The call with the payload that is not on the wire cleared. *)
Definition wire_call (t : ToolCall) : ToolCall :=
  if String.eqb (tc_Type t) "custom"
  then mkToolCall (tc_Index t) (tc_ID t) (tc_Type t) "" "" (cu_Name t) (cu_Input t)
  else mkToolCall (tc_Index t) (tc_ID t) (tc_Type t) (fn_Name t) (fn_Arguments t) "" "".

Definition valid_call (t : ToolCall) : Prop :=
  Forall (fun s => utf8_valid s = true)
    [tc_ID t; tc_Type t; fn_Name t; fn_Arguments t; cu_Name t; cu_Input t] ∧
  match tc_Index t with Some i => in_int64 i | None => True end.

Lemma ToolCall_json_wf t : wf_json (ToolCall_json t).
Proof.
  apply wf_obj. unfold ToolCall_json, omitempty.
  repeat apply Forall_app_2; repeat case_match; repeat constructor; try done; apply jint_wf.
Qed.

(** [C36] A tool call survives the wire: decoding what was encoded gives back the call,
    with its index when it has one, and with the payload of its kind. *)
Theorem tool_call_roundtrip (t : ToolCall) :
  valid_call t → ToolCall_UnmarshalJSON (ToolCall_MarshalJSON t) = Some (wire_call t).
Proof.
  intros [Hv Hi]. unfold ToolCall_UnmarshalJSON, ToolCall_MarshalJSON.
  rewrite Unmarshal_marshal by apply ToolCall_json_wf.
  repeat (apply Forall_cons in Hv as [?%to_valid_id Hv]).
  unfold ToolCall_json, omitempty, wire_call.
  rewrite struct_members_marshal by apply (ToolCall_json_wf t).
  destruct t as [i id ty fnm fa cn ci]. cbn [tc_Index tc_ID tc_Type fn_Name fn_Arguments cu_Name cu_Input] in *.
  destruct i as [i|], (String.eqb_spec id "") as [->|], (String.eqb ty "custom"); known_fields;
    unfold st_ptr;
    rewrite ?st_string_marshal, ?st_function_marshal, ?st_custom_marshal, ?jint_not_null, ?st_int_marshal by done;
    cbn -[to_valid]; congruence.
Qed.

Lemma tool_call_roundtrip_witness :
  let t := mkToolCall (Some 2%Z) "call_1" "function" "lookup" (J "{'city':'Paris'}") "" "" in
  valid_call t ∧ ToolCall_UnmarshalJSON (ToolCall_MarshalJSON t) = Some t.
Proof.
  assert (valid_call (mkToolCall (Some 2%Z) "call_1" "function" "lookup" (J "{'city':'Paris'}") "" "")) as H
    by (split; [repeat constructor; vm_compute; reflexivity|cbn; unfold in_int64, int64_min, int64_max; lia]).
  split; [exact H|]. apply (tool_call_roundtrip _ H).
Defined.

(** The hybrid path drops the output contract: whatever the body asks for, the
    request it becomes has no response format and no evaluation context, so the
    JSON guardrail of the chat handler does not apply; the contract survives only
    as an opaque member passed on to the provider. *)
Theorem hybrid_loses_format (body : string) (r : ChatCompletionRequest) :
  TransformCursorHybrid body = Some r →
  Format r = None ∧ NexusEval r = None ∧
  ∀ m, Unmarshal st_rawmap ∅ body = (m, false) →
       Extra r !! "response_format" = m !! "response_format" ∧ Extra r !! "nexus_eval" = None.
Proof.
  unfold TransformCursorHybrid. intros H.
  apply bind_Some in H as (h & _ & H). apply bind_Some in H as (msgs & _ & H). injection H as <-.
  cbn [Format NexusEval Extra]. repeat split; unfold pickResponsesExtras; rewrite H.
  - destruct (m !! "response_format") eqn:E.
    + apply map_lookup_filter_Some. split; [done|]. by apply (bool_decide_unpack ("response_format" ∉ promoted)).
    + apply map_lookup_filter_None. by left.
  - apply map_lookup_filter_None. right. intros x _ Hn. apply Hn. by apply (bool_decide_unpack ("nexus_eval" ∈ promoted)).
Qed.

(** A chat request in JSON mode, with a tool that happens to have a parameter
    called input. *)
Definition json_mode_body : string :=
  J "{'model':'m','messages':[{'role':'user','content':'hi'}],'tools':[{'type':'function','function':{'name':'f','parameters':{'properties':{'input':{}}}}}],'response_format':{'type':'json_object'}}".

Lemma hybrid_loses_format_witness :
  ∃ direct hybrid,
    IsCursorHybridRequest json_mode_body = true ∧
    decode_chat_request json_mode_body = Some direct ∧ Format direct = Some (mkFormat "json_object" None) ∧
    TransformCursorHybrid json_mode_body = Some hybrid ∧ Messages hybrid = Messages direct ∧ Format hybrid = None.
Proof.
  destruct (decode_chat_request json_mode_body) as [direct|] eqn:Ed; [|by vm_compute in Ed].
  destruct (TransformCursorHybrid json_mode_body) as [hybrid|] eqn:Eh; [|by vm_compute in Eh].
  exists direct, hybrid. split; [vm_compute; reflexivity|]. split; [done|].
  assert (Messages hybrid = Messages direct ∧ Format direct = Some (mkFormat "json_object" None)) as [-> ->].
  { vm_compute in Ed, Eh. injection Ed as <-. injection Eh as <-. done. }
  split; [done|]. split; [done|]. split; [done|].
  apply (hybrid_loses_format json_mode_body hybrid Eh).
Defined.
