(* ===== verification/Messages.v ===== *)
(** * Messages: src/internal/gateway/messages.go

    The Anthropic Messages endpoint: decoding of content blocks, the translation
    to a chat request and back, the unary dispatch and the stream of Anthropic
    events, with the routing and dispatch it shares with the Responses endpoint
    (responses.go).  The handlers run in the monad of [Gateway]; the source
    records traces here without asking whether a recorder is set, so [EvRecord]
    is unconditional.  [json_error] is the text of a decoding error. *)

From S2P Require Import Prelude GoString Float64 GoTime ApiErr Balancer Registry Pricing.
From S2P Require Import Credentials Guardrails SemCache GwTypes Middleware Gateway.
From S2P Require Import Net Json Wire.
Local Open Scope string_scope.
Local Open Scope go_scope.
Local Open Scope Z_scope.

(** ** Data *)

Record MessagesToolUse := mkToolUse { tu_ID : string; tu_Name : string; tu_Input : string }.
Record MessagesToolResult := mkToolResult { tr_ToolUseID : string; tr_Content : string; tr_IsError : bool }.
Record MessagesDocument := mkDocument { dc_Type : string; dc_MediaType : string; dc_Data : string; dc_URL : string }.
Record MessagesTool := mkMsgTool { mt_Name : string; mt_Description : string; mt_InputSchema : string }.

Record MessagesMsg := mkMsg {
  mm_Role : string;
  mm_Text : string;
  mm_ToolUse : list MessagesToolUse;
  mm_ToolResult : list MessagesToolResult;
  mm_Documents : list MessagesDocument
}.

Record MessagesRequest := mkMessagesReq {
  mq_Model : string;
  mq_MaxTokens : Z;
  mq_System : string;
  mq_Messages : list MessagesMsg;
  mq_Tools : list MessagesTool;
  mq_ToolChoice : string;
  mq_Stream : bool;
  mq_StopSequences : list string;
  mq_Temperature : option float64;
  mq_TopP : option float64;
  mq_Metadata : gmap string string;  (* raw values *)
  mq_NexusEval : option NexusEvalContext
}.

Record MessagesUsage := mkMsgUsage { mu_InputTokens : Z; mu_OutputTokens : Z }.

Record MessagesRespBlk := mkBlk {
  bk_Type : string;
  bk_Text : string;
  bk_ID : string;
  bk_Name : string;
  bk_Input : string
}.

(** [Type] and [Role] are constants, [StopSequence] is never set. *)
Record MessagesResponse := mkMessagesResp {
  mr_ID : string;
  mr_Content : list MessagesRespBlk;
  mr_Model : string;
  mr_StopReason : string;
  mr_Usage : MessagesUsage
}.

(** ** Decoding *)

Definition firstNonEmpty (a b : string) : string := if String.eqb a "" then b else a.

(** The fields a content block is probed for. *)
Record block_probe := mkProbe {
  pb_Type : string; pb_Text : string; pb_ID : string; pb_Name : string; pb_Input : string;
  pb_ToolUseID : string; pb_Content : string; pb_IsError : bool; pb_Source : string;
  pb_MediaType : string; pb_Data : string; pb_URL : string
}.

Definition decode_probe (blk : string) : option block_probe :=
  ok_or (Unmarshal (fun raw _ =>
    let '(ms, e) := struct_members raw in
    fill t := field "type" st_string "" ms in
    fill x := field "text" st_string "" ms in
    fill i := field "id" st_string "" ms in
    fill n := field "name" st_string "" ms in
    fill inp := field "input" st_raw "" ms in
    fill use := field "tool_use_id" st_string "" ms in
    fill c := field "content" st_raw "" ms in
    fill err := field "is_error" st_bool false ms in
    fill src := field "source" st_raw "" ms in
    fill mt := field "media_type" st_string "" ms in
    fill d := field "data" st_string "" ms in
    fill u := field "url" st_string "" ms in
    (mkProbe t x i n inp use c err src mt d u, e))
    (mkProbe "" "" "" "" "" "" "" false "" "" "" "") blk).

(** The image source: media type, data and url. *)
Definition decode_source (src : string) : string * string * string :=
  (Unmarshal (fun raw _ =>
    let '(ms, e) := struct_members raw in
    fill t := field "type" st_string "" ms in
    fill mt := field "media_type" st_string "" ms in
    fill d := field "data" st_string "" ms in
    fill u := field "url" st_string "" ms in ((mt, d, u), e)) ("", "", "") src).1.

Definition zero_msg : MessagesMsg := mkMsg "" "" [] [] [].

Definition add_block (msg : MessagesMsg) (blk : string) : MessagesMsg :=
  match decode_probe blk with
  | None => msg
  | Some p =>
      if String.eqb (pb_Type p) "text" then
        if String.eqb (pb_Text p) "" then msg
        else mkMsg (mm_Role msg)
               (if String.eqb (mm_Text msg) "" then pb_Text p else mm_Text msg +:+ newline +:+ pb_Text p)
               (mm_ToolUse msg) (mm_ToolResult msg) (mm_Documents msg)
      else if String.eqb (pb_Type p) "tool_use" then
        mkMsg (mm_Role msg) (mm_Text msg) (mm_ToolUse msg ++ [mkToolUse (pb_ID p) (pb_Name p) (pb_Input p)])%list
          (mm_ToolResult msg) (mm_Documents msg)
      else if String.eqb (pb_Type p) "tool_result" then
        mkMsg (mm_Role msg) (mm_Text msg) (mm_ToolUse msg)
          (mm_ToolResult msg ++ [mkToolResult (pb_ToolUseID p) (pb_Content p) (pb_IsError p)])%list
          (mm_Documents msg)
      else if String.eqb (pb_Type p) "image" then
        let '(mt, d, u) := decode_source (pb_Source p) in
        mkMsg (mm_Role msg) (mm_Text msg) (mm_ToolUse msg) (mm_ToolResult msg)
          (mm_Documents msg ++
           [mkDocument "image" (firstNonEmpty mt (pb_MediaType p)) (firstNonEmpty d (pb_Data p))
              (firstNonEmpty u (pb_URL p))])%list
      else msg
  end.

Definition decodeMessages (raw : string) : option MessagesMsg :=
  let trimmed := TrimSpace raw in
  if String.eqb trimmed "" || String.eqb trimmed "null" then Some zero_msg
  else if starts (byte 34) trimmed then
    s ← ok_or (Unmarshal st_string "" raw); Some (mkMsg "" s [] [] [])
  else if negb (starts "[" trimmed) then None
  else
    blocks ← ok_or (Unmarshal (st_list "" st_raw) [] raw);
    Some (foldl add_block zero_msg blocks).

Definition MessagesMsg_UnmarshalJSON (data : string) : option MessagesMsg :=
  '(role, content) ← ok_or (Unmarshal (fun raw _ =>
    let '(ms, e) := struct_members raw in
    fill r := field "role" st_string "" ms in
    fill c := field "content" st_raw "" ms in ((r, c), e)) ("", "") data);
  if String.eqb content "" then Some (mkMsg role "" [] [] [])
  else
    m ← decodeMessages content;
    Some (mkMsg role (mm_Text m) (mm_ToolUse m) (mm_ToolResult m) (mm_Documents m)).

Definition st_msg_tool : store MessagesTool := fun raw old =>
  let '(ms, e) := struct_members raw in
  fill n := field "name" st_string (mt_Name old) ms in
  fill d := field "description" st_string (mt_Description old) ms in
  fill s := field "input_schema" st_raw (mt_InputSchema old) ms in (mkMsgTool n d s, e).

Definition decode_messages_request (data : string) : option MessagesRequest :=
  ok_or (Unmarshal (fun raw _ =>
    let '(ms, e) := struct_members raw in
    fill model := field "model" st_string "" ms in
    fill maxt := field "max_tokens" st_int 0 ms in
    fill system := field "system" st_raw "" ms in
    fill messages := field "messages" (st_list zero_msg (st_own MessagesMsg_UnmarshalJSON)) [] ms in
    fill tools := field "tools" (st_list (mkMsgTool "" "" "") st_msg_tool) [] ms in
    fill choice := field "tool_choice" st_raw "" ms in
    fill stream := field "stream" st_bool false ms in
    fill stop := field "stop_sequences" (st_list "" st_string) [] ms in
    fill temp := field "temperature" (st_ptr fzero st_float) None ms in
    fill topp := field "top_p" (st_ptr fzero st_float) None ms in
    fill meta := field "metadata" st_rawmap ∅ ms in
    fill ev := field "nexus_eval" st_eval_ptr None ms in
    (mkMessagesReq model maxt system messages tools choice stream stop temp topp meta ev, e))
    (mkMessagesReq "" 0 "" [] [] "" false [] None None ∅ None) data).

(** ** To a chat request *)

Definition encodeMaxTokens (src : Z) : option Z := if src <=? 0 then Some 4096 else Some src.

Definition decodeSystem (raw : string) : option string :=
  let trimmed := TrimSpace raw in
  if String.eqb trimmed "" || String.eqb trimmed "null" then Some ""
  else if starts (byte 34) trimmed then ok_or (Unmarshal st_string "" raw)
  else if negb (starts "[" trimmed) then None
  else
    blocks ← ok_or (Unmarshal (st_list ("", "") st_type_text) [] raw);
    Some (join_parts (newline +:+ newline)
            (map (fun b => if String.eqb b.1 "text" then b.2 else "") blocks)).

(** One definition: its tool, or [None] when the whole list is refused. *)
Definition encode_tool (t : MessagesTool) : option Tool :=
  if negb (String.eqb (mt_InputSchema t) "") && negb (String.eqb (mt_Name t) "") then
    Some (mkTool "function"
            (Marshal (jmap [("name", JStr (mt_Name t)); ("description", JStr (mt_Description t));
                            ("parameters", JRaw (mt_InputSchema t))])) "")
  else
    match Unmarshal (fun raw _ =>
            let '(ms, e) := struct_members raw in
            fill ty := field "type" st_string "" ms in
            fill fn := field "function" st_raw "" ms in ((ty, fn), e)) ("", "") (mt_Name t) with
    | ((ty, fn), false) => if String.eqb ty "" then None else Some (mkTool ty fn "")
    | (_, true) => None
    end.

Definition encodeTools (tools : list MessagesTool) : option (list Tool) := mapM encode_tool tools.

Definition encodeToolChoice (raw : string) : string :=
  if String.eqb raw "" then ""
  else
    let trimmed := TrimSpace raw in
    if String.eqb trimmed "" || String.eqb trimmed "null" then ""
    else if starts (byte 34) trimmed then
      match Unmarshal st_string "" raw with
      | (_, true) => raw
      | (s, false) =>
          if String.eqb s "auto" then J "'auto'"
          else if String.eqb s "any" then J "'required'"
          else if String.eqb s "none" then J "'none'"
          else raw
      end
    else if negb (starts "{" trimmed) then raw
    else
      match Unmarshal (fun raw _ =>
              let '(ms, e) := struct_members raw in
              fill ty := field "type" st_string "" ms in
              fill nm := field "name" st_string "" ms in ((ty, nm), e)) ("", "") raw with
      | (_, true) => raw
      | ((ty, nm), false) =>
          if String.eqb ty "auto" then J "'auto'"
          else if String.eqb ty "any" then J "'required'"
          else if String.eqb ty "tool" then
            if String.eqb nm "" then raw
            else Marshal (jmap [("type", JStr "function"); ("function", jmap [("name", JStr nm)])])
          else if String.eqb ty "none" then J "'none'"
          else raw
      end.

Definition encodeImageSource (doc : MessagesDocument) : string :=
  if String.eqb (dc_Type doc) "image" then
    if negb (String.eqb (dc_URL doc) "") then dc_URL doc
    else if negb (String.eqb (dc_Data doc) "") then
      "data:" +:+ firstNonEmpty (dc_MediaType doc) "image/png" +:+ ";base64," +:+ dc_Data doc
    else ""
  else "".

Definition userFromMetadata (meta : gmap string string) : string :=
  match meta !! "user_id" with
  | Some raw => if starts (byte 34) raw then (st_string raw "").1 else ""
  | None => ""
  end.

Definition stringOr (raw fallback : string) : string :=
  let trimmed := TrimSpace raw in
  if String.eqb trimmed "" || String.eqb trimmed "null" then fallback
  else if starts (byte 34) trimmed then
    match Unmarshal st_string "" raw with (s, false) => s | (_, true) => raw end
  else raw.

(** The chat messages of one Anthropic message. *)
Definition chat_messages (m : MessagesMsg) : list Message :=
  let text := TrimSpace (mm_Text m) in
  ((if String.eqb text "" then [] else [text_message (mm_Role m) text]) ++
   map (fun tu => mkMessage "assistant" "" "" [function_call (tu_ID tu) (tu_Name tu) (stringOr (tu_Input tu) "{}")] "")
     (mm_ToolUse m) ++
   map (fun tr => mkMessage "tool" (stringOr (tr_Content tr) "") "" [] (tr_ToolUseID tr)) (mm_ToolResult m) ++
   concat (map (fun doc => let url := encodeImageSource doc in
                  if String.eqb url "" then [] else [text_message (mm_Role m) url]) (mm_Documents m)))%list.

(** The source's error result is always nil. *)
Definition messagesToChat (req : MessagesRequest) : ChatCompletionRequest :=
  let system := match decodeSystem (mq_System req) with
                | Some s => if String.eqb s "" then [] else [text_message "system" s]
                | None => []
                end in
  mkReq (mq_Model req) (system ++ concat (map chat_messages (mq_Messages req)))%list
    (mq_Temperature req) (mq_TopP req) (encodeMaxTokens (mq_MaxTokens req)) (mq_Stream req)
    (mq_StopSequences req) (default [] (encodeTools (mq_Tools req))) (userFromMetadata (mq_Metadata req)) "" ""
    (if String.eqb (mq_ToolChoice req) "" then "" else encodeToolChoice (mq_ToolChoice req))
    (Some false) None (mq_NexusEval req) ∅.

(** ** Back to Anthropic *)

Definition mapCanonicalStopToAnthropic (reason : string) : string :=
  if String.eqb reason "stop" then "end_turn"
  else if String.eqb reason "length" then "max_tokens"
  else if String.eqb reason "tool_calls" then "tool_use"
  else if String.eqb reason "content_filter" then "stop_sequence"
  else reason.

(** [uuid]: the fresh id, used when the response has none. *)
Definition chatToMessages (uuid : string) (c : ChatCompletionResponse) (req : MessagesRequest) : MessagesResponse :=
  let out content stop :=
    mkMessagesResp (firstNonEmpty (r_ID c) ("msg_" +:+ uuid)) content (firstNonEmpty (r_Model c) (mq_Model req))
      stop (mkMsgUsage (PromptTokens (r_Usage c)) (CompletionTokens (r_Usage c))) in
  match r_Choices c with
  | [] => out [] "end_turn"
  | ch :: _ =>
      let text := TrimSpace (Content (c_Message ch)) in
      out (map (fun tc => mkBlk "tool_use" "" (tc_ID tc) (fn_Name tc) (fn_Arguments tc)) (ToolCalls (c_Message ch)) ++
           (if String.eqb text "" then [] else [mkBlk "text" text "" "" ""]))%list
        (let stop := mapCanonicalStopToAnthropic (c_FinishReason ch) in
         if String.eqb stop "" then "end_turn" else stop)
  end.

Definition Blk_json (b : MessagesRespBlk) : json :=
  JObj ([("type", JStr (bk_Type b))] ++ omitempty "text" (bk_Text b) ++ omitempty "id" (bk_ID b) ++
        omitempty "name" (bk_Name b) ++ omitraw "input" (bk_Input b))%list.

Definition MessagesResponse_json (r : MessagesResponse) : json :=
  JObj [("id", JStr (mr_ID r)); ("type", JStr "message"); ("role", JStr "assistant");
        ("content", match mr_Content r with [] => JNull | l => JArr (map Blk_json l) end);
        ("model", JStr (mr_Model r)); ("stop_reason", JStr (mr_StopReason r));
        ("usage", JObj [("input_tokens", jint (mu_InputTokens (mr_Usage r)));
                        ("output_tokens", jint (mu_OutputTokens (mr_Usage r)))])].

(** ** Dispatch *)

Section Dispatch.
Context {doc schema : Type} (env : Env doc schema) (h : GwHandler).

(** responses.go. *)
Definition pickResponsesChain (model : string) : option (list (Provider * string)) :=
  let direct := (fun r => [r]) <$> Registry.Resolve (gh_registry h) model in
  match routeCandidates h model with
  | Some c =>
      match omap (Registry.Resolve (gh_registry h)) c with
      | [] => direct
      | out => Some out
      end
  | None => direct
  end.

(** [h.credResolver.Resolve]. *)
Definition resolve_credential (c : reqCtx) (providerName : string) :
    G (res string (ResolvedCredential * bool)) := fun s =>
  let '(r, cr, asked) :=
    Credentials.Resolve (g_cred s) (ctx_OrgID c) (ctx_UserID c) providerName
      (e_clock env (g_clock s)) (e_clock env (S (g_clock s)))
      (e_cred_source env (g_src s) (ctx_OrgID c) (ctx_UserID c) providerName) in
  (r, mkG (g_log s) (S (S (g_clock s))) (g_uuid s) (g_up s) (if asked then S (g_src s) else g_src s)
        (g_lb s) cr).

Definition uses_caller_keys : bool := gh_credResolver h && negb (bool_decide (gh_keyMode h = KeyModeShared)).

(** The credential of an attempt: the override and its source when the caller has
    one, [None] when there is none, or the resolver's error. *)
Definition caller_credential (c : reqCtx) (providerName : string) :
    G (res string (option (CallerCredential * string))) :=
  if uses_caller_keys then
    r ← resolve_credential c providerName;
    mret match r with
         | Ok (cred, true) => Ok (Some (mkCaller (rc_Secret cred) (rc_BaseURL cred) (rc_Source cred), rc_Source cred))
         | Ok (_, false) => Ok None
         | Err e => Err e
         end
  else mret (Ok None).

(** The call of the provider, and the trace of its outcome. *)
Definition dispatch_unary (attempt : ChatCompletionRequest) (p : Provider) (cred : option CallerCredential)
    (rest : list (Provider * string)) (attemptStart : Time) (trace : Trace) :
    G (option ChatCompletionResponse * option Trace) :=
  r ← ChatCompletion env (mkUp p cred attempt);
  lat ← Since env attemptStart;
  match r with
  | Err err =>
      mret (None, Some (set_ErrorMsg err
        (set_ErrorType (match rest with [] => "upstream_error" | _ => "upstream_error_failover" end)
          (set_StatusCode 502 (set_LatencyMs lat trace)))))
  | Ok resp =>
      let trace :=
        set_OutputTokens (CompletionTokens (r_Usage resp))
          (set_InputTokens (PromptTokens (r_Usage resp))
            (set_ResponseModel (r_Model resp) (set_StatusCode 200 (set_LatencyMs lat trace)))) in
      mret (Some resp,
            Some match r_Choices resp with
                 | [] => trace
                 | _ => set_FinishReason (first_finish resp) (set_OutputMessages (first_content resp) trace)
                 end)
  end.

(** [executeMessagesUnary] and [executeResponsesUnary], which have the same body:
    the response, if any, and the trace.  The loop returns in its first round. *)
Definition execute_unary (c : reqCtx) (session : string) (req : ChatCompletionRequest) :
    G (option ChatCompletionResponse * option Trace) :=
  match pickResponsesChain (Model req) with
  | None | Some [] => mret (None, None)
  | Some ((p, fwd) :: rest) =>
      trace ← newTrace env h c session req (p_name p);
      attemptStart ← now env;
      let attempt := with_model fwd req in
      cr ← caller_credential c (p_name p);
      match cr with
      | Err err =>
          if bool_decide (gh_keyMode h = KeyModeStrictBYOK) then
            lat ← Since env attemptStart;
            mret (None, Some (set_CredentialSource "none" (set_ErrorMsg err
                   (set_ErrorType "missing_byok_key" (set_StatusCode 403 (set_LatencyMs lat trace))))))
          else dispatch_unary attempt p None rest attemptStart (set_CredentialSource "env" trace)
      | Ok None => dispatch_unary attempt p None rest attemptStart (set_CredentialSource "env" trace)
      | Ok (Some (cred, source)) =>
          dispatch_unary attempt p (Some cred) rest attemptStart (set_CredentialSource source trace)
      end
  end.
End Dispatch.

(** ** The stream of Anthropic events *)

(** One server-sent event; nothing is written when its data does not marshal. *)
Definition sse_text (eventType payload : string) : string :=
  "event: " +:+ eventType +:+ newline +:+ "data: " +:+ payload +:+ newline +:+ newline.

Definition emit_sse (eventType : string) (data : json) : G unit :=
  match marshal data with
  | Some payload => write [Write (sse_text eventType payload); Flush]
  | None => mret tt
  end.

(** The events of the protocol, with their data. *)
Inductive anthropic :=
| MessageStart (id model : string)
| BlockStartText (index : Z)
| BlockStartTool (index : Z) (id name : string)
| TextDelta (index : Z) (text : string)
| InputDelta (index : Z) (partial : string)
| BlockStop (index : Z)
| StreamFailed (message : string)
| MessageDelta (stop : string) (usage : MessagesUsage)
| MessageStop.

Definition usage_json (u : MessagesUsage) : json :=
  jmap [("input_tokens", jint (mu_InputTokens u)); ("output_tokens", jint (mu_OutputTokens u))].

Definition anthropic_sse (e : anthropic) : string * json :=
  match e with
  | MessageStart id model =>
      ("message_start", jmap [("type", JStr "message_start");
        ("message", jmap [("id", JStr id); ("type", JStr "message"); ("role", JStr "assistant");
           ("content", JArr []); ("model", JStr model); ("stop_reason", JNull); ("stop_sequence", JNull);
           ("usage", usage_json (mkMsgUsage 0 0))])])
  | BlockStartText i =>
      ("content_block_start", jmap [("type", JStr "content_block_start"); ("index", jint i);
        ("content_block", jmap [("type", JStr "text"); ("text", JStr "")])])
  | BlockStartTool i id name =>
      ("content_block_start", jmap [("type", JStr "content_block_start"); ("index", jint i);
        ("content_block", jmap [("type", JStr "tool_use"); ("id", JStr id); ("name", JStr name);
           ("input", jmap [])])])
  | TextDelta i t =>
      ("content_block_delta", jmap [("type", JStr "content_block_delta"); ("index", jint i);
        ("delta", jmap [("type", JStr "text_delta"); ("text", JStr t)])])
  | InputDelta i a =>
      ("content_block_delta", jmap [("type", JStr "content_block_delta"); ("index", jint i);
        ("delta", jmap [("type", JStr "input_json_delta"); ("partial_json", JStr a)])])
  | BlockStop i => ("content_block_stop", jmap [("type", JStr "content_block_stop"); ("index", jint i)])
  | StreamFailed m => ("error", jmap [("type", JStr "stream_error"); ("message", JStr m)])
  | MessageDelta stop u =>
      ("message_delta", jmap [("type", JStr "message_delta");
        ("delta", jmap [("stop_reason", JStr stop); ("stop_sequence", JNull)]); ("usage", usage_json u)])
  | MessageStop => ("message_stop", jmap [("type", JStr "message_stop")])
  end.

Definition emit_event (e : anthropic) : G unit := emit_sse (anthropic_sse e).1 (anthropic_sse e).2.

Record toolPartial := mkPartial { tp_idx : Z; tp_blockID : string; tp_name : string; tp_input : string }.

(** The state of the block assembly; the text block is always block 0, and the
    partials' [opened] and [stoppedSent] flags are constant. *)
Record block_state := mkBlocks {
  bs_textOpened : bool;
  bs_text : string;
  bs_tools : gmap Z toolPartial;
  bs_order : list Z;
  bs_usage : MessagesUsage;
  bs_finish : string;
  bs_errSeen : bool
}.

Definition no_blocks : block_state := mkBlocks false "" ∅ [] (mkMsgUsage 0 0) "" false.

Definition set_blocks (opened : bool) (text : string) (tools : gmap Z toolPartial) (order : list Z)
    (b : block_state) : block_state :=
  mkBlocks opened text tools order (bs_usage b) (bs_finish b) (bs_errSeen b).
Definition set_bs_usage (u : MessagesUsage) (b : block_state) : block_state :=
  mkBlocks (bs_textOpened b) (bs_text b) (bs_tools b) (bs_order b) u (bs_finish b) (bs_errSeen b).
Definition set_bs_finish (f : string) (b : block_state) : block_state :=
  mkBlocks (bs_textOpened b) (bs_text b) (bs_tools b) (bs_order b) (bs_usage b) f (bs_errSeen b).
Definition set_bs_err (b : block_state) : block_state :=
  mkBlocks (bs_textOpened b) (bs_text b) (bs_tools b) (bs_order b) (bs_usage b) (bs_finish b) true.

(** A text delta. *)
Definition text_delta (content : string) (b : block_state) : G block_state :=
  if String.eqb content "" then mret b
  else
    (if bs_textOpened b then mret tt else emit_event (BlockStartText 0));;
    emit_event (TextDelta 0 content);;
    mret (set_blocks true (bs_text b +:+ content) (bs_tools b) (bs_order b) b).

Section Stream.
Context {doc schema : Type} (env : Env doc schema) (h : GwHandler).

(** A tool-call delta. *)
Definition tool_delta (tc : ToolCall) (b : block_state) : G block_state :=
  let idx := default 0 (tc_Index tc) in
  let blockIdx := if bs_textOpened b then wrap64 (idx + 1) else idx in
  b' ← match bs_tools b !! idx with
       | None =>
           uuid ← NewString env;
           let p := mkPartial blockIdx ("toolu_" +:+ uuid) (fn_Name tc) "" in
           emit_event (BlockStartTool blockIdx (tp_blockID p) (tp_name p));;
           mret (set_blocks (bs_textOpened b) (bs_text b) (<[idx := p]> (bs_tools b)) (bs_order b ++ [idx])%list b)
       | Some p =>
           mret (if negb (String.eqb (fn_Name tc) "") && String.eqb (tp_name p) "" then
                   set_blocks (bs_textOpened b) (bs_text b)
                     (<[idx := mkPartial (tp_idx p) (tp_blockID p) (fn_Name tc) (tp_input p)]> (bs_tools b))
                     (bs_order b) b
                 else b)
       end;
  if String.eqb (fn_Arguments tc) "" then mret b'
  else
    emit_event (InputDelta blockIdx (fn_Arguments tc));;
    mret (set_blocks (bs_textOpened b') (bs_text b')
            (alter (fun p => mkPartial (tp_idx p) (tp_blockID p) (tp_name p) (tp_input p +:+ fn_Arguments tc))
               idx (bs_tools b'))
            (bs_order b') b').

Fixpoint tool_deltas (tcs : list ToolCall) (b : block_state) : G block_state :=
  match tcs with
  | [] => mret b
  | tc :: tcs' => b' ← tool_delta tc b; tool_deltas tcs' b'
  end.

Definition choice_delta (dc : ChunkChoice) (b : block_state) : G block_state :=
  b ← text_delta (cc_Content dc) b;
  b ← tool_deltas (cc_ToolCalls dc) b;
  mret (if String.eqb (cc_FinishReason dc) "" then b
        else set_bs_finish (mapCanonicalStopToAnthropic (cc_FinishReason dc)) b).

Fixpoint choice_deltas (dcs : list ChunkChoice) (b : block_state) : G block_state :=
  match dcs with
  | [] => mret b
  | dc :: dcs' => b' ← choice_delta dc b; choice_deltas dcs' b'
  end.

Definition chunk_usage (k : ChatCompletionChunk) (b : block_state) : block_state :=
  match k_Usage k with
  | Some u => set_bs_usage (mkMsgUsage (PromptTokens u) (CompletionTokens u)) b
  | None => b
  end.

(** The loop over the channel of a provider.  The trace it fills is dropped when
    the loop ends, so only its clock readings remain here. *)
Fixpoint relay (events : list StreamEvent) (first : bool) (b : block_state) : G block_state :=
  match events with
  | [] => mret b
  | ev :: events' =>
      match ev_Err ev with
      | Some err =>
          now env;;
          emit_event (StreamFailed err);;
          mret (set_bs_err b)
      | None =>
          if ev_Done ev then mret b
          else match ev_Chunk ev with
               | None => mret b
               | Some k =>
                   (if first then now env;; mret tt else mret tt);;
                   b' ← choice_deltas (k_Choices k) (chunk_usage k b);
                   relay events' false b'
               end
      end
  end.

Fixpoint emit_stops (b : block_state) (order : list Z) : G unit :=
  match order with
  | [] => mret tt
  | idx :: order' =>
      match bs_tools b !! idx with
      | Some p => emit_event (BlockStop (tp_idx p))
      | None => mret tt
      end;;
      emit_stops b order'
  end.

(** What follows the providers' loop. *)
Definition close_stream (b : block_state) : G unit :=
  (if bs_textOpened b then emit_event (BlockStop 0) else mret tt);;
  emit_stops b (bs_order b);;
  emit_event (MessageDelta (if bs_errSeen b && String.eqb (bs_finish b) "" then "error" else bs_finish b)
                (bs_usage b));;
  emit_event MessageStop.

(** The providers in turn: the first one that opens is relayed. *)
Fixpoint stream_providers (c : reqCtx) (session : string) (req : ChatCompletionRequest) (multi : bool)
    (streamStart : Time) (providers : list (Provider * string)) : G block_state :=
  match providers with
  | [] => mret no_blocks
  | (p, fwd) :: rest =>
      cr ← caller_credential env h c (p_name p);
      let '(cred, source) := match cr with Ok (Some (cred, source)) => (Some cred, source) | _ => (None, "") end in
      t ← newTrace env h c session req (p_name p);
      let t := set_CredentialSource source (set_Streamed true (set_RequestModel (Model req) t)) in
      r ← ChatCompletionStream env (mkUp p cred (with_model fwd req));
      match r with
      | Err err =>
          lat ← Since env streamStart;
          emit (EvRecord (set_ErrorMsg err
            (set_ErrorType (if multi then "upstream_error_failover" else "upstream_error")
              (set_StatusCode 502 (set_LatencyMs lat t)))));;
          stream_providers c session req multi streamStart rest
      | Ok events => relay events true no_blocks
      end
  end.

Definition sse_headers : list wcall :=
  [SetHeader "Content-Type" "text/event-stream"; SetHeader "Cache-Control" "no-cache";
   SetHeader "Connection" "keep-alive"; SetHeader "Trailer" costHeaderName; WriteHeader 200].

Definition handleMessagesStream (c : reqCtx) (session : string) (flusher : bool) (chatReq : ChatCompletionRequest) :
    G unit :=
  match pickResponsesChain h (Model chatReq) with
  | None => writeErr env c 502 "upstream_error" ("no provider for model " +:+ Model chatReq)
  | Some providers =>
      if negb flusher then writeErr env c 500 "internal_error" "streaming unsupported"
      else
        uuid ← NewString env;
        write sse_headers;;
        emit_event (MessageStart ("msg_" +:+ uuid) (Model chatReq));;
        streamStart ← now env;
        b ← stream_providers c session chatReq (1 <? length providers)%nat streamStart providers;
        close_stream b
  end.

(** ** The handler *)

(** [writeJSON]: the body is empty when the value does not marshal. *)
Definition writeJSON (status : Z) (v : json) : G unit :=
  write ([SetHeader "Content-Type" "application/json"; WriteHeader status] ++
         match marshal v with Some b => [Write (b +:+ newline)] | None => [] end)%list.

Definition Messages_handler (json_error : string → string) (c : reqCtx) (flusher : bool) (body : res string string) :
    G unit :=
  let bad msg := writeErr env c 400 "invalid_request_error" msg in
  match body with
  | Err e => bad ("cannot read body: " +:+ e)
  | Ok rawBody =>
      match decode_messages_request rawBody with
      | None => bad ("invalid JSON body: " +:+ json_error rawBody)
      | Some req =>
          if String.eqb (mq_Model req) "" then bad "model is required"
          else if (length (mq_Messages req) =? 0)%nat then
            bad "messages is required and must contain at least one entry"
          else
            let session := extractSessionID env rawBody in
            let chatReq := messagesToChat req in
            if mq_Stream req then handleMessagesStream c session flusher chatReq
            else
              r ← execute_unary env h c session chatReq;
              match r with
              | (None, _) => writeErr env c 502 "upstream_error" "all candidate providers failed"
              | (Some resp, None) =>
                  uuid ← NewString env;
                  writeJSON 200 (MessagesResponse_json (chatToMessages uuid resp req))
              | (Some resp, Some trace) =>
                  let cost := ResolveCostUSD (EstimatedCost (r_Usage resp)) (Model chatReq)
                                (ResponseModel trace) (Some (r_Usage resp)) in
                  let resp := set_resp_cost cost resp in
                  setCostHeader env cost;;
                  emit (EvRecord (set_CostUSD_t cost trace));;
                  recordSpend h c cost;;
                  uuid ← NewString env;
                  writeJSON 200 (MessagesResponse_json (chatToMessages uuid resp req))
              end
      end
  end.
End Stream.
