(* ===== verification/SseLogic.v ===== *)
(** * SseLogic: reasoning about streamed answers

    A layer over [GatewayLogic] for handlers that write server-sent events: [wps]
    tells which events of a protocol a program writes, and that it is otherwise
    quiet.  Shared by the Messages and Responses endpoints. *)

From S2P Require Import Prelude GoString Float64 GoTime ApiErr Balancer Registry Pricing.
From S2P Require Import Credentials Guardrails SemCache GwTypes Middleware Gateway GatewayLogic.
From S2P Require Import Net Json JsonFacts Wire Messages.
Local Open Scope string_scope.
Local Open Scope Z_scope.

Lemma concat_s_app l k : concat_s (l ++ k)%list = concat_s l +:+ concat_s k.
Proof. unfold concat_s. induction l as [|s l IH]; [done|]. cbn. by rewrite IH, app_assoc_string. Qed.

Lemma jmap_no_raw l : Forall (fun kv => no_raw kv.2) l → no_raw (jmap l).
Proof. intros H. apply no_raw_obj. unfold jmap. by rewrite merge_sort_Permutation. Qed.

(** Effects that leave the status line and the spend alone, and record only
    traces that satisfy [P]. *)
Record quiet (P : Trace → Prop) (evs : list event) : Prop := {
  q_statuses : statuses evs = [];
  q_spends : spends evs = [];
  q_traces : Forall P (traces evs)
}.

Lemma quiet_nil P : quiet P [].
Proof. by constructor. Qed.

Lemma quiet_concat P l k : quiet P l → quiet P k → quiet P (l ++ k)%list.
Proof.
  intros [? ? ?] [? ? ?]. constructor; [rewrite statuses_app|rewrite spends_app|rewrite traces_app; by apply Forall_app_2];
    apply app_nil; auto.
Qed.

Lemma silent_nil P : quiet P [] ∧ bodies [] = [].
Proof. split; [apply quiet_nil|done]. Qed.

(** The events of a protocol: each has an SSE name and data. *)
Section Protocol.
Context {E : Type} (sse : E → string * json) (P : Trace → Prop).

Definition event_text (e : E) : string := sse_text (sse e).1 (Marshal (sse e).2).

(** [wps m Q]: [m] is quiet but for the texts of some events [es] it writes, and
    its result and the events satisfy [Q]. *)
Definition wps {A} (m : G A) (Q : A → list E → Prop) : Prop :=
  wp m (fun a evs => quiet P evs ∧ ∃ es, bodies evs = map event_text es ∧ Q a es).

Lemma wps_ret {A} (a : A) Q : Q a [] → wps (mret a) Q.
Proof. intros H. apply wp_ret. split; [apply quiet_nil|by exists []]. Qed.

Lemma wps_bind {A B} (m : G A) (k : A → G B) Q :
  wps m (fun a e1 => wps (k a) (fun b e2 => Q b (e1 ++ e2)%list)) → wps (m ≫= k) Q.
Proof.
  intros H. apply wp_bind. eapply wp_mono; [exact H|]. intros a evs (Hq1 & e1 & Hb1 & Hk).
  eapply wp_mono; [exact Hk|]. intros b evs2 (Hq2 & e2 & Hb2 & HQ). split; [by apply quiet_concat|].
  exists (e1 ++ e2)%list. by rewrite bodies_app, Hb1, Hb2, map_app.
Qed.

Lemma wps_mono {A} (m : G A) (Q R : A → list E → Prop) :
  wps m Q → (∀ a es, Q a es → R a es) → wps m R.
Proof. intros H HQ. eapply wp_mono; [exact H|]. intros a evs (Hq & es & Hb & H'). eauto. Qed.

Lemma wps_sse e Q : no_raw (sse e).2 → Q tt [e] → wps (emit_sse (sse e).1 (sse e).2) Q.
Proof.
  intros Hwf H. unfold emit_sse. destruct (marshal_no_raw _ Hwf) as [p Hp]. rewrite Hp.
  apply wp_write. split.
  { constructor; rewrite ?statuses_writes, ?spends_writes, ?traces_writes; done. }
  exists [e]. split; [|done]. rewrite bodies_writes. cbn [map]. unfold event_text.
  by rewrite (Marshal_some _ _ Hp).
Qed.

(** A step that writes no body. *)
Lemma wps_silent {A} (m : G A) Q : wp m (fun a evs => (quiet P evs ∧ bodies evs = []) ∧ Q a []) → wps m Q.
Proof. intros H. eapply wp_mono; [exact H|]. intros a evs [[Hq Hb] HQ]. split; [done|]. by exists []. Qed.
End Protocol.
#[global] Arguments wps_ret {E sse P A} a Q _.
#[global] Arguments wps_bind {E sse P A B} m k Q _.
#[global] Arguments wps_mono {E sse P A} m Q R _ _.
#[global] Arguments wps_silent {E sse P A} m Q _.

(** ** Silent helpers *)

Section Helpers.
Context {doc schema : Type} (env : Env doc schema) (h : GwHandler).

Lemma wp_caller_credential c name Q :
  (∀ r, Q r []) → wp (caller_credential env h c name) Q.
Proof.
  intros H. unfold caller_credential. destruct (uses_caller_keys h); [|by apply wp_ret].
  apply wp_bind. intros s. exists []. unfold resolve_credential.
  destruct (Credentials.Resolve _ _ _ _ _ _ _) as [[r cr] asked]. split; [done|]. apply wp_ret, H.
Qed.

End Helpers.
