(* ===== verification/MessagesProps.v ===== *)
(** * MessagesProps: the properties of the Anthropic Messages endpoint

    What a streamed message looks like on the wire (the block protocol of the
    Messages API), which text it carries, what it is charged, and which of the
    key's and the operator's policies the endpoint consults. *)

From S2P Require Import Prelude GoString Float64 GoTime ApiErr Balancer Registry Pricing.
From S2P Require Import Credentials Guardrails SemCache GwTypes Middleware Gateway GatewayLogic.
From S2P Require Import GatewayProps Net Json JsonFacts Wire Messages SseLogic.
Local Open Scope string_scope.
Local Open Scope Z_scope.

(** ** Events on the wire *)

Lemma anthropic_no_raw e : no_raw (anthropic_sse e).2.
Proof.
  destruct e; unfold anthropic_sse, usage_json; cbn [snd];
    repeat first [apply jmap_no_raw | apply Forall_cons; split; cbn [snd] | apply Forall_nil; done | exact I]; done.
Qed.

(** The text of an event, and the calculus for them; every trace recorded is that
    of a failed attempt. *)
#[local] Abbreviation event_text := (SseLogic.event_text anthropic_sse).
#[local] Abbreviation wps := (SseLogic.wps anthropic_sse (fun t => StatusCode t = 502)).

Lemma wps_event e Q : Q tt [e] → wps (emit_event e) Q.
Proof. apply (SseLogic.wps_sse anthropic_sse (fun t => StatusCode t = 502)), anthropic_no_raw. Qed.

(** ** The block protocol

    Blocks are opened once, by index; deltas go to an open block of their kind;
    every block is closed before the message ends. *)

Inductive kind := KText | KTool.

Record proto := mkProto { pr_open : gmap Z kind; pr_closed : gset Z }.

Definition proto_start (i : Z) (k : kind) (p : proto) : option proto :=
  if decide (pr_open p !! i = None ∧ i ∉ pr_closed p)
  then Some (mkProto (<[i := k]> (pr_open p)) (pr_closed p)) else None.

#[export] Instance kind_eq_dec : EqDecision kind.
Proof. solve_decision. Defined.

Definition proto_step (p : proto) (e : anthropic) : option proto :=
  match e with
  | BlockStartText i => proto_start i KText p
  | BlockStartTool i _ _ => proto_start i KTool p
  | TextDelta i _ => if decide (pr_open p !! i = Some KText) then Some p else None
  | InputDelta i _ => if decide (pr_open p !! i = Some KTool) then Some p else None
  | BlockStop i =>
      match pr_open p !! i with
      | Some _ => Some (mkProto (delete i (pr_open p)) ({[i]} ∪ pr_closed p))
      | None => None
      end
  | StreamFailed _ => Some p
  | MessageStart _ _ | MessageDelta _ _ | MessageStop => None
  end.

Fixpoint proto_run (p : proto) (es : list anthropic) : option proto :=
  match es with
  | [] => Some p
  | e :: es' => match proto_step p e with Some p' => proto_run p' es' | None => None end
  end.

(** A whole message. *)
Definition well_formed_message (es : list anthropic) : Prop :=
  ∃ id model mid stop u closed,
    es = (MessageStart id model :: mid ++ [MessageDelta stop u; MessageStop])%list ∧
    proto_run (mkProto ∅ ∅) mid = Some (mkProto ∅ closed).

Lemma proto_run_app p es es' :
  proto_run p (es ++ es')%list = match proto_run p es with Some p' => proto_run p' es' | None => None end.
Proof. revert p. induction es as [|e es IH]; intros p; [done|]. cbn. destruct (proto_step p e); [apply IH|done]. Qed.

(** The text a run of events carries. *)
Definition message_text (es : list anthropic) : string :=
  concat_s (map (fun e => match e with TextDelta _ t => t | _ => "" end) es).

Lemma message_text_app es es' : message_text (es ++ es')%list = message_text es +:+ message_text es'.
Proof. unfold message_text. by rewrite map_app, concat_s_app. Qed.

(** ** The block state *)

Definition shift (b : block_state) : Z := if bs_textOpened b then 1 else 0.

(** The blocks open in a state. *)
Definition open_blocks (b : block_state) : gmap Z kind :=
  (if bs_textOpened b then {[0 := KText]} else ∅) ∪ (kmap (Z.add (shift b)) ((fun _ => KTool) <$> bs_tools b)).

(** Every tool block has the index its key gives it, within the range of [int]. *)
Definition blocks_inv (b : block_state) : Prop :=
  NoDup (bs_order b) ∧ (∀ i, i ∈ bs_order b ↔ is_Some (bs_tools b !! i)) ∧
  ∀ i p, bs_tools b !! i = Some p → 0 ≤ i < int64_max ∧ tp_idx p = shift b + i.

#[local] Instance add_inj z : Inj (=) (=) (Z.add z).
Proof. intros x y. lia. Qed.

Lemma open_tool b i :
  0 ≤ i → open_blocks b !! (shift b + i) = (fun _ => KTool) <$> bs_tools b !! i.
Proof.
  intros Hi. unfold open_blocks. rewrite lookup_union_r.
  - rewrite lookup_kmap by apply _. apply lookup_fmap.
  - unfold shift. destruct (bs_textOpened b); [|done]. apply lookup_singleton_ne. lia.
Qed.

Lemma open_text b : bs_textOpened b = true → open_blocks b !! 0 = Some KText.
Proof. intros H. unfold open_blocks. rewrite H. apply lookup_union_Some_l, lookup_singleton_eq. Qed.

(** Flags of a state: whether the text block is open, whether a tool block is. *)
Definition flags_of (b : block_state) : bool * bool := (bs_textOpened b, bool_decide (bs_tools b ≠ ∅)).

(** What one step of the assembly establishes. *)
Record step_ok (b b' : block_state) (es : list anthropic) : Prop := {
  so_run : proto_run (mkProto (open_blocks b) ∅) es = Some (mkProto (open_blocks b') ∅);
  so_inv : blocks_inv b'
}.

Lemma step_ok_refl b : blocks_inv b → step_ok b b [].
Proof. by constructor. Qed.

Lemma step_ok_trans b b' b'' es es' :
  step_ok b b' es → step_ok b' b'' es' → step_ok b b'' (es ++ es')%list.
Proof. intros [H1 _] [H2 H3]. constructor; [|done]. by rewrite proto_run_app, H1. Qed.

(** Only the blocks matter. *)
Lemma step_ok_same b b1 b2 es :
  bs_textOpened b1 = bs_textOpened b2 → bs_tools b1 = bs_tools b2 → bs_order b1 = bs_order b2 →
  step_ok b b1 es → step_ok b b2 es.
Proof.
  intros H1 H2 H3 [Hr Hi]. constructor.
  - unfold open_blocks, shift in *. by rewrite H1, H2 in Hr.
  - unfold blocks_inv, shift in *. by rewrite H1, H2, H3 in Hi.
Qed.

Lemma text_delta_ok content b :
  blocks_inv b → (content = "" ∨ bs_textOpened b = true ∨ bs_tools b = ∅) →
  wps (text_delta content b) (fun b' es => step_ok b b' es ∧ message_text es = content ∧
    flags_of b' = (bs_textOpened b || negb (String.eqb content ""), bool_decide (bs_tools b ≠ ∅)) ∧
    bs_errSeen b' = bs_errSeen b).
Proof.
  intros Hinv Hc. unfold text_delta. destruct (String.eqb_spec content "") as [->|Hne].
  { apply wps_ret. split_and!; [by apply step_ok_refl|done| |done]. unfold flags_of. by rewrite orb_false_r. }
  cbn [negb]. rewrite orb_true_r. destruct Hc as [|Hc]; [done|]. apply wps_bind.
  destruct (bs_textOpened b) eqn:Ho.
  - apply wps_ret, wps_bind, wps_event, wps_ret. split_and!; [|cbn; by rewrite app_nil_r_string|done|done].
    constructor.
    + cbn. rewrite (open_text b Ho), decide_True by done. unfold open_blocks, shift. cbn. by rewrite Ho.
    + unfold blocks_inv, shift in *. cbn. by rewrite Ho in Hinv.
  - destruct Hc as [|Ht]; [done|]. destruct Hinv as (Hnd & Hdom & Hidx). apply wps_event, wps_bind, wps_event, wps_ret.
    assert (open_blocks b = ∅) as Eo by (unfold open_blocks; by rewrite Ho, Ht, fmap_empty, kmap_empty).
    split_and!; [|cbn; by rewrite app_nil_r_string|done|done]. constructor.
    + cbn. rewrite Eo. unfold proto_start. rewrite decide_True by (split; [done|set_solver]). cbn.
      rewrite lookup_insert_eq, decide_True by done. unfold open_blocks. cbn. by rewrite Ht, fmap_empty, kmap_empty.
    + unfold blocks_inv. cbn. split_and!; [done..|]. rewrite Ht. by intros i p Hp.
Qed.

Definition tool_fine (tc : ToolCall) : bool :=
  let idx := default 0 (tc_Index tc) in (0 <=? idx) && (idx <? int64_max).

(** Opening a tool block. *)
Lemma open_blocks_insert b idx p text :
  0 ≤ idx →
  open_blocks (set_blocks (bs_textOpened b) text (<[idx := p]> (bs_tools b)) (bs_order b ++ [idx])%list b) =
  <[shift b + idx := KTool]> (open_blocks b).
Proof.
  intros Hi. unfold open_blocks, set_blocks, shift. cbn. rewrite fmap_insert, kmap_insert by apply _.
  rewrite insert_union_r; [done|]. destruct (bs_textOpened b); [|done]. apply lookup_singleton_ne. lia.
Qed.

Lemma open_blocks_update b f idx order :
  is_Some (bs_tools b !! idx) →
  open_blocks (set_blocks (bs_textOpened b) (bs_text b) (alter f idx (bs_tools b)) order b) = open_blocks b.
Proof.
  intros [p Hp]. unfold open_blocks, set_blocks, shift. cbn. do 2 f_equal. apply map_eq. intros i.
  rewrite !lookup_fmap. destruct (decide (i = idx)) as [->|Hn].
  - by rewrite lookup_alter_eq, Hp.
  - by rewrite lookup_alter_ne.
Qed.

Lemma wrap_shift b idx :
  0 ≤ idx < int64_max → (if bs_textOpened b then wrap64 (idx + 1) else idx) = shift b + idx.
Proof.
  unfold shift. intros H. destruct (bs_textOpened b); [|lia].
  rewrite wrap64_id; [lia|]. unfold in_int64, int64_min, int64_max in *. lia.
Qed.

Lemma tools_nonempty (m : gmap Z toolPartial) i p : m !! i = Some p → bool_decide (m ≠ ∅) = true.
Proof. intros H. apply bool_decide_eq_true. intros ->. by rewrite lookup_empty in H. Qed.

(** The two halves of a tool delta: the block is open afterwards, then its input. *)
Lemma tool_open_ok b idx p :
  blocks_inv b → 0 ≤ idx < int64_max → bs_tools b !! idx = None → tp_idx p = shift b + idx →
  step_ok b (set_blocks (bs_textOpened b) (bs_text b) (<[idx := p]> (bs_tools b)) (bs_order b ++ [idx])%list b)
    [BlockStartTool (shift b + idx) (tp_blockID p) (tp_name p)].
Proof.
  intros (Hnd & Hdom & Hidx) Hi Hn Hp. constructor.
  - cbn. unfold proto_start. rewrite decide_True.
    2: { split; [|set_solver]. cbn. rewrite open_tool by lia. by rewrite Hn. }
    by rewrite open_blocks_insert by lia.
  - unfold blocks_inv, shift in *. cbn. split_and!.
    + apply NoDup_app. split_and!; [done| |by apply NoDup_singleton]. intros i Hin Hi'.
      apply list_elem_of_singleton in Hi' as ->. apply Hdom in Hin. rewrite Hn in Hin. by destruct Hin.
    + intros i. rewrite elem_of_app, list_elem_of_singleton, Hdom, lookup_insert_is_Some'. split; intros [?|?]; auto.
    + intros i q Hq. apply lookup_insert_Some in Hq as [[<- <-]|[_ Hq]]; [done|by apply Hidx].
Qed.

Lemma tool_input_ok b idx p args :
  blocks_inv b → bs_tools b !! idx = Some p →
  let f := fun p => mkPartial (tp_idx p) (tp_blockID p) (tp_name p) (tp_input p +:+ args) in
  step_ok b (set_blocks (bs_textOpened b) (bs_text b) (alter f idx (bs_tools b)) (bs_order b) b)
    [InputDelta (shift b + idx) args].
Proof.
  intros (Hnd & Hdom & Hidx) Hp f. pose proof (Hidx _ _ Hp) as [Hi _]. constructor.
  - cbn. rewrite open_tool by lia. rewrite Hp. cbn. rewrite open_blocks_update; [done|by eexists].
  - unfold blocks_inv, shift in *. cbn. split_and!; [done| |].
    + intros i. rewrite Hdom. destruct (decide (i = idx)) as [->|].
      * rewrite lookup_alter_eq, Hp. split; intros _; by eexists.
      * by rewrite lookup_alter_ne.
    + intros i q Hq. apply lookup_alter_Some in Hq as [(<- & p' & Hp' & ->)|[_ Hq]]; [|by apply Hidx].
      by apply (Hidx _ _ Hp').
Qed.

(** Naming a block that had no name. *)
Lemma tool_rename_ok b idx p q :
  blocks_inv b → bs_tools b !! idx = Some p → tp_idx q = tp_idx p →
  step_ok b (set_blocks (bs_textOpened b) (bs_text b) (<[idx := q]> (bs_tools b)) (bs_order b) b) [].
Proof.
  intros (Hnd & Hdom & Hidx) Hp Hq. constructor.
  - cbn. do 2 f_equal. unfold open_blocks, shift. cbn. do 2 f_equal. apply map_eq. intros i. rewrite !lookup_fmap.
    destruct (decide (i = idx)) as [->|]; [by rewrite lookup_insert_eq, Hp|by rewrite lookup_insert_ne].
  - unfold blocks_inv, shift in *. cbn. split_and!; [done| |].
    + intros i. rewrite Hdom, lookup_insert_is_Some'. split; [by right|intros [->|]; [by eexists|done]].
    + intros i r Hr. apply lookup_insert_Some in Hr as [[<- <-]|[_ Hr]]; [|by apply Hidx].
      rewrite Hq. by apply Hidx.
Qed.

Section StreamProps.
Context {doc schema : Type} (env : Env doc schema) (h : GwHandler).

(** Tool deltas keep the text, the flags but the tools', and carry no text. *)
Definition tools_post (b b' : block_state) (es : list anthropic) : Prop :=
  step_ok b b' es ∧ message_text es = "" ∧ bs_textOpened b' = bs_textOpened b ∧ bs_errSeen b' = bs_errSeen b.

Lemma tools_post_trans b b' b'' es es' :
  tools_post b b' es → tools_post b' b'' es' → tools_post b b'' (es ++ es')%list.
Proof.
  intros (H1 & H2 & H3 & H4) (K1 & K2 & K3 & K4). split_and!; [by eapply step_ok_trans| |congruence..].
  by rewrite message_text_app, H2, K2.
Qed.

Lemma tool_delta_ok tc b :
  blocks_inv b → tool_fine tc = true →
  wps (tool_delta env tc b) (fun b' es => tools_post b b' es ∧ bool_decide (bs_tools b' ≠ ∅) = true).
Proof.
  intros Hinv Hf. unfold tool_delta. set (idx := default 0 (tc_Index tc)).
  assert (0 ≤ idx < int64_max) as Hi by (unfold tool_fine in Hf; fold idx in Hf; reflect_bools; lia).
  rewrite (wrap_shift b idx Hi). apply wps_bind.
  eapply (wps_mono _ (fun b' es => tools_post b b' es ∧ is_Some (bs_tools b' !! idx))).
  - destruct (bs_tools b !! idx) as [p|] eqn:Hp.
    + apply wps_ret. case_match; [|split; [split_and!; [by apply step_ok_refl|done..]|by eexists]].
      split; [split_and!; [by eapply tool_rename_ok|done..]|cbn; by rewrite lookup_insert_eq].
    + apply wps_bind, wps_silent. apply wp_NewString. intros uuid. split; [apply silent_nil|].
      apply wps_bind, wps_event, wps_ret. split; [|cbn; by rewrite lookup_insert_eq].
      split_and!; [|done..]. by apply (tool_open_ok b idx (mkPartial (shift b + idx) ("toolu_" +:+ uuid) (fn_Name tc) "")).
  - intros b' es [Hpost [p Hp]]. pose proof Hpost as ([Hrun Hinv'] & _ & Ht & _).
    assert (shift b' = shift b) as Hs by (unfold shift; by rewrite Ht).
    destruct (String.eqb (fn_Arguments tc) "").
    + apply wps_ret. rewrite app_nil_r. split; [done|]. by eapply tools_nonempty.
    + apply wps_bind, wps_event, wps_ret. rewrite app_nil_r. split.
      * eapply tools_post_trans; [done|]. split_and!; [|done..]. rewrite <- Hs. by eapply tool_input_ok.
      * eapply tools_nonempty. cbn. apply lookup_alter_Some. left. by eauto.
Qed.

Lemma tool_deltas_ok tcs b :
  blocks_inv b → forallb tool_fine tcs = true →
  wps (tool_deltas env tcs b) (fun b' es => tools_post b b' es ∧
    bool_decide (bs_tools b' ≠ ∅) = bool_decide (bs_tools b ≠ ∅) || negb (length tcs =? 0)%nat).
Proof.
  revert b. induction tcs as [|tc tcs IH]; intros b Hinv Hf; cbn [tool_deltas].
  { apply wps_ret. split; [by split_and!; [apply step_ok_refl|..]|]. by rewrite orb_false_r. }
  cbn in Hf. apply andb_prop in Hf as [Hf1 Hf2]. apply wps_bind. eapply wps_mono; [by apply tool_delta_ok|].
  intros b1 es1 [H1 Hn]. pose proof H1 as ([_ Hinv1] & _). eapply wps_mono; [by apply IH|].
  intros b2 es2 [H2 Hn2]. split; [by eapply tools_post_trans|]. rewrite Hn2, Hn. cbn. by rewrite orb_true_r.
Qed.

(** *** The order of deltas

    [(text, tool)]: whether text and tool calls have been seen. *)

Definition choice_flags (ft : bool * bool) (dc : ChunkChoice) : bool * bool :=
  (ft.1 || negb (String.eqb (cc_Content dc) ""), ft.2 || negb (length (cc_ToolCalls dc) =? 0)%nat).

(** No text opens after a tool call, and tool indices fit. *)
Definition choice_fine (ft : bool * bool) (dc : ChunkChoice) : bool :=
  (String.eqb (cc_Content dc) "" || ft.1 || negb ft.2) && forallb tool_fine (cc_ToolCalls dc).

Fixpoint choices_fine (ft : bool * bool) (dcs : list ChunkChoice) : bool :=
  match dcs with
  | [] => true
  | dc :: dcs' => choice_fine ft dc && choices_fine (choice_flags ft dc) dcs'
  end.

(** The chunks a stream relays: up to an error, the end or an event without one. *)
Fixpoint relayed (events : list StreamEvent) : list ChatCompletionChunk :=
  match events with
  | [] => []
  | ev :: events' =>
      match ev_Err ev, ev_Done ev, ev_Chunk ev with
      | None, false, Some k => k :: relayed events'
      | _, _, _ => []
      end
  end.

Fixpoint chunks_fine (ft : bool * bool) (ks : list ChatCompletionChunk) : bool :=
  match ks with
  | [] => true
  | k :: ks' => choices_fine ft (k_Choices k) && chunks_fine (foldl choice_flags ft (k_Choices k)) ks'
  end.

Definition choices_text (dcs : list ChunkChoice) : string := concat_s (map cc_Content dcs).
Definition chunks_text (ks : list ChatCompletionChunk) : string :=
  concat_s (map (fun k => choices_text (k_Choices k)) ks).

Definition part_post (b b' : block_state) (text : string) (ft : bool * bool) (es : list anthropic) : Prop :=
  step_ok b b' es ∧ message_text es = text ∧ flags_of b' = ft.

Lemma choice_delta_ok dc b :
  blocks_inv b → choice_fine (flags_of b) dc = true →
  wps (choice_delta env dc b) (fun b' es => part_post b b' (cc_Content dc) (choice_flags (flags_of b) dc) es).
Proof.
  intros Hinv Hf. unfold choice_fine in Hf. apply andb_prop in Hf as [Ht Htools]. unfold choice_delta.
  apply wps_bind. eapply wps_mono; [apply text_delta_ok; [done|]|].
  { apply orb_prop in Ht as [Ht|Ht]; [apply orb_prop in Ht as [Ht|Ht]|].
    - left. by apply String.eqb_eq in Ht.
    - by right; left.
    - right; right. apply negb_true_iff, bool_decide_eq_false in Ht. by apply dec_stable in Ht. }
  intros b1 es1 (H1 & Htext & Hfl & _). pose proof H1 as [_ Hinv1]. apply wps_bind.
  eapply wps_mono; [by apply tool_deltas_ok|]. intros b2 es2 ((H2 & Hm & Ho & _) & Hn). apply wps_ret.
  rewrite app_nil_r. assert (flags_of b2 = choice_flags (flags_of b) dc) as Hfl2.
  { unfold flags_of, choice_flags in *. cbn in *. injection Hfl as Hfl1 Hfl2. by rewrite Ho, Hn, Hfl1, Hfl2. }
  assert (step_ok b b2 (es1 ++ es2)%list) as Hs by (by eapply step_ok_trans).
  assert (message_text (es1 ++ es2)%list = cc_Content dc) as Hmt
    by (by rewrite message_text_app, Htext, Hm, app_nil_r_string).
  case_match; [done|]. split_and!; [|done|done]. by apply (step_ok_same b b2).
Qed.

Lemma choice_deltas_ok dcs b :
  blocks_inv b → choices_fine (flags_of b) dcs = true →
  wps (choice_deltas env dcs b)
    (fun b' es => part_post b b' (choices_text dcs) (foldl choice_flags (flags_of b) dcs) es).
Proof.
  revert b. induction dcs as [|dc dcs IH]; intros b Hinv Hf; cbn [choice_deltas].
  { apply wps_ret. by split_and!; [apply step_ok_refl|..]. }
  cbn in Hf. apply andb_prop in Hf as [Hf1 Hf2]. apply wps_bind.
  eapply wps_mono; [by apply choice_delta_ok|]. intros b1 es1 (H1 & Ht1 & Hfl1).
  pose proof H1 as [_ Hinv1]. eapply wps_mono; [apply IH; [done|by rewrite Hfl1]|].
  intros b2 es2 (H2 & Ht2 & Hfl2). split_and!; [by eapply step_ok_trans| |].
  - by rewrite message_text_app, Ht1, Ht2.
  - cbn. by rewrite Hfl2, Hfl1.
Qed.

Lemma relay_ok events : ∀ first b,
  blocks_inv b → chunks_fine (flags_of b) (relayed events) = true →
  wps (relay env events first b)
    (fun b' es => step_ok b b' es ∧ message_text es = chunks_text (relayed events)).
Proof.
  induction events as [|ev events IH]; intros first b Hinv Hf; cbn [relay relayed] in *.
  { apply wps_ret. by split; [apply step_ok_refl|]. }
  destruct (ev_Err ev) as [err|].
  { apply wps_bind, wps_silent, wp_now. intros _. split; [apply silent_nil|]. apply wps_bind, wps_event, wps_ret.
    split; [|done]. eapply (step_ok_same b b); [done..|]. constructor; [done|done]. }
  destruct (ev_Done ev); [apply wps_ret; by split; [apply step_ok_refl|]|].
  destruct (ev_Chunk ev) as [k|]; [|apply wps_ret; by split; [apply step_ok_refl|]].
  cbn in Hf. apply andb_prop in Hf as [Hf1 Hf2]. apply wps_bind.
  eapply (wps_mono _ (fun _ es => es = [])).
  { destruct first; [|by apply wps_ret]. apply wps_bind, wps_silent, wp_now. intros _.
    split; [apply silent_nil|]. by apply wps_ret. }
  intros _ ? ->. apply wps_bind.
  assert (∀ es b1, part_post (chunk_usage k b) b1 (choices_text (k_Choices k))
            (foldl choice_flags (flags_of b) (k_Choices k)) es →
          part_post b b1 (choices_text (k_Choices k)) (foldl choice_flags (flags_of b) (k_Choices k)) es) as Hsame.
  { intros es b1 ([Hr Hi] & Ht & Hfl). split_and!; [constructor|..]; try done.
    unfold chunk_usage in Hr. by destruct (k_Usage k). }
  eapply wps_mono; [apply (choice_deltas_ok _ (chunk_usage k b))|].
  { unfold chunk_usage. destruct (k_Usage k); exact Hinv. }
  { unfold chunk_usage. destruct (k_Usage k); exact Hf1. }
  intros b1 es1 Hp. assert (flags_of (chunk_usage k b) = flags_of b) as Hu by (unfold chunk_usage; by destruct (k_Usage k)).
  rewrite Hu in Hp. apply Hsame in Hp as ([Hr1 Hi1] & Ht1 & Hfl1).
  eapply wps_mono; [apply IH; [done|by rewrite Hfl1]|].
  intros b2 es2 [H2 Ht2]. cbn [app]. split; [eapply step_ok_trans; [constructor; [exact Hr1|exact Hi1]|exact H2]|]. cbn.
  by rewrite message_text_app, Ht1, Ht2.
Qed.

(** Closing: every open tool block is stopped, once. *)
Lemma emit_stops_ok b l (M : gmap Z toolPartial) closed :
  NoDup l → (∀ i, i ∈ l ↔ is_Some (M !! i)) → M ⊆ bs_tools b → 
  (∀ i p, bs_tools b !! i = Some p → 0 ≤ i ∧ tp_idx p = shift b + i) →
  (∀ i, 0 ≤ i → shift b + i ∈ closed → i ∉ l) →
  wps (emit_stops b l) (fun _ es => message_text es = "" ∧ ∃ closed',
    proto_run (mkProto (kmap (Z.add (shift b)) ((fun _ => KTool) <$> M)) closed) es = Some (mkProto ∅ closed')).
Proof.
  intros Hnd. revert M closed. induction Hnd as [|i l Hi Hnd IH]; intros M closed Hdom Hsub Hidx Hcl; cbn [emit_stops].
  { apply wps_ret. split; [done|]. exists closed. cbn. do 2 f_equal.
    assert (M = ∅) as ->; [|by rewrite fmap_empty, kmap_empty]. apply map_eq. intros i. rewrite lookup_empty.
    apply eq_None_not_Some. intros H. apply Hdom in H. by apply not_elem_of_nil in H. }
  destruct (proj1 (Hdom i)) as [p Hp]; [by left|].
  assert (bs_tools b !! i = Some p) as Hb by (by eapply lookup_weaken). rewrite Hb.
  destruct (Hidx _ _ Hb) as [H0 Hix]. apply wps_bind, wps_event. rewrite Hix.
  eapply wps_mono; [apply (IH (delete i M) ({[shift b + i]} ∪ closed))|].
  - intros j. rewrite lookup_delete_is_Some, <- Hdom, elem_of_cons. split.
    + intros Hj. split; [intros ->; done|by right].
    + intros [Hn [->|Hj]]; done.
  - etrans; [apply delete_subseteq|done].
  - done.
  - intros j Hj Hin Hl. apply elem_of_union in Hin as [Hin|Hin].
    + apply elem_of_singleton in Hin. assert (j = i) as -> by lia. done.
    + apply (Hcl j Hj Hin). by right.
  - intros _ es [Ht [closed' Hr]]. split; [done|]. exists closed'. cbn.
    rewrite lookup_kmap, lookup_fmap, Hp by apply _. cbn. rewrite fmap_delete, kmap_delete in Hr by apply _. exact Hr.
Qed.

Lemma close_stream_ok b :
  blocks_inv b →
  wps (close_stream b) (fun _ es => message_text es = "" ∧ ∃ mid stop u closed,
    es = (mid ++ [MessageDelta stop u; MessageStop])%list ∧
    proto_run (mkProto (open_blocks b) ∅) mid = Some (mkProto ∅ closed)).
Proof.
  intros (Hnd & Hdom & Hidx). unfold close_stream. apply wps_bind.
  set (M := bs_tools b).
  eapply (wps_mono _ (fun _ es => message_text es = "" ∧ ∃ closed,
    (∀ i, 0 ≤ i → shift b + i ∉ closed) ∧
    proto_run (mkProto (open_blocks b) ∅) es =
      Some (mkProto (kmap (Z.add (shift b)) ((fun _ => KTool) <$> M)) closed))).
  { unfold open_blocks, shift. destruct (bs_textOpened b).
    - apply wps_event. split; [done|]. exists ({[0]} ∪ ∅). split.
      + intros i Hi. rewrite elem_of_union, elem_of_singleton, elem_of_empty. lia.
      + cbn. rewrite (lookup_union_Some_l _ _ _ KText) by apply lookup_singleton_eq. cbn.
        do 2 f_equal. rewrite delete_union, delete_singleton_eq, (left_id_L ∅ (∪)).
        apply delete_id. apply eq_None_not_Some. intros [k Hk]. apply lookup_kmap_Some in Hk as (j & Hj & Hk); [|apply _].
        rewrite lookup_fmap in Hk. fold M in Hk. destruct (M !! j) as [p|] eqn:Hp; [|done].
        destruct (Hidx j p Hp). lia.
    - apply wps_ret. split; [done|]. exists ∅. split; [set_solver|]. cbn. by rewrite (left_id_L ∅ (∪)). }
  intros _ es1 [Ht1 (closed & Hcl & Hr1)]. apply wps_bind.
  eapply wps_mono; [apply (emit_stops_ok b (bs_order b) M closed)|].
  - done.
  - done.
  - done.
  - intros i p Hp. destruct (Hidx _ _ Hp). split; [lia|done].
  - intros i Hi Hin. by destruct (Hcl i Hi).
  - intros _ es2 [Ht2 [closed' Hr2]]. apply wps_bind, wps_event, wps_event. split.
    + by rewrite !message_text_app, Ht1, Ht2.
    + eexists (es1 ++ es2)%list, _, _, closed'. split; [by rewrite <- !app_assoc|].
      by rewrite proto_run_app, Hr1.
Qed.

(** The streams the providers open have no text after a tool call. *)
Definition streams_fine : Prop :=
  ∀ n u events, e_open_stream env n u = Ok events → chunks_fine (false, false) (relayed events) = true.

(** The text is that of a stream one of the providers opened, as far as [relayed]
    reads it. *)
Definition text_of_provider (providers : list (Provider * string)) (es : list anthropic) : Prop :=
  message_text es = "" ∨
  ∃ n u events, up_provider u ∈ map fst providers ∧ e_open_stream env n u = Ok events ∧
    message_text es = chunks_text (relayed events).

Lemma blocks_inv_empty : blocks_inv no_blocks.
Proof. split_and!; [constructor|..]; cbn; [|done]. intros i. rewrite lookup_empty. split; [by intros ?%not_elem_of_nil|by intros []]. Qed.

Lemma stream_providers_ok c session req multi start providers :
  streams_fine →
  wps (stream_providers env h c session req multi start providers)
    (fun b es => step_ok no_blocks b es ∧ text_of_provider providers es).
Proof.
  intros Hfine. induction providers as [|[p fwd] rest IH]; cbn [stream_providers].
  { apply wps_ret. split; [apply step_ok_refl, blocks_inv_empty|by left]. }
  apply wps_bind, wps_silent, wp_caller_credential. intros cr. split; [apply silent_nil|].
  set (cs := match cr with Ok (Some (cred, source)) => (Some cred, source) | _ => _ end).
  destruct cs as [cred source]. apply wps_bind, wps_silent, wp_newTrace. intros t _ _ _ _ _. split; [apply silent_nil|].
  apply wps_bind, wps_silent. intros s. exists [EvUpstream (mkUp p cred (with_model fwd req))].
  split; [done|]. split; [by split; [constructor|]|]. cbn [ChatCompletionStream fst].
  destruct (e_open_stream env (g_up s) (mkUp p cred (with_model fwd req))) as [events|err] eqn:Ho.
  - eapply wps_mono; [apply relay_ok; [apply blocks_inv_empty|by eapply Hfine]|].
    intros b es [H1 H2]. split; [done|]. right. eexists _, _, events. split; [|split; [exact Ho|done]]. by left.
  - apply wps_bind, wps_silent, wp_Since. intros lat. split; [apply silent_nil|].
    apply wps_bind, wps_silent, wp_emit. split; [by split; [constructor; [..|by constructor]|]|]. eapply wps_mono; [exact IH|]. intros b es [H1 H2]. split; [done|].
    destruct H2 as [|(n & u & evs & Hu & He & Ht)]; [by left|right]. exists n, u, evs. split; [by right|done].
Qed.

End StreamProps.

(** ** The policies the endpoint does not consult *)

(** What routing and dispatch read of a handler, and of a caller. *)
Definition same_routing (h h' : GwHandler) : Prop :=
  gh_registry h = gh_registry h' ∧ gh_groups h = gh_groups h' ∧ gh_credResolver h = gh_credResolver h' ∧
  gh_keyMode h = gh_keyMode h' ∧ gh_replicaID h = gh_replicaID h' ∧ gh_limiter h = gh_limiter h'.

Definition same_caller (c c' : reqCtx) : Prop :=
  ctx_RequestID c = ctx_RequestID c' ∧ ctx_OrgID c = ctx_OrgID c' ∧ ctx_UserID c = ctx_UserID c' ∧
  ctx_VKeyID c = ctx_VKeyID c'.

Section Blind.
Context {doc schema : Type} (env : Env doc schema).

Lemma G_bind_eq {A B} (m m' : G A) (k k' : A → G B) s :
  m s = m' s → (∀ a s1, k a s1 = k' a s1) → (m ≫= k) s = (m' ≫= k') s.
Proof. intros Hm Hk. unfold mbind, G_bind. rewrite Hm. by destruct (m' s). Qed.

Lemma stream_providers_blind h h' c c' session req multi start providers s :
  same_routing h h' → same_caller c c' →
  stream_providers env h c session req multi start providers s =
  stream_providers env h' c' session req multi start providers s.
Proof.
  destruct h, h', c, c'. intros (? & ? & ? & ? & ? & ?) (? & ? & ? & ?). cbn in *. subst. revert s.
  induction providers as [|[p fwd] rest IH]; intros s; [done|]. cbn [stream_providers].
  unfold mbind, G_bind.
  match goal with |- (let '(_, _) := ?x in _) = (let '(_, _) := ?y in _) => change y with x; destruct x as [cr s1] end.
  destruct (match cr with Ok (Some (cred, source)) => (Some cred, source) | _ => _ end) as [cred source].
  match goal with |- (let '(_, _) := ?x in _) = (let '(_, _) := ?y in _) => change y with x; destruct x as [t s2] end.
  match goal with |- (let '(_, _) := ?x in _) = _ => destruct x as [r s3] end.
  destruct r as [events|err]; [done|].
  match goal with |- (let '(_, _) := ?x in _) = _ => destruct x as [lat s4] end. apply IH.
Qed.

Lemma execute_unary_blind h h' c c' session req s :
  same_routing h h' → same_caller c c' →
  execute_unary env h c session req s = execute_unary env h' c' session req s.
Proof.
  destruct h, h', c, c'. intros (? & ? & ? & ? & ? & ?) (? & ? & ? & ?). cbn in *. subst.
  unfold execute_unary.
  match goal with |- ?lhs = ?rhs => match lhs with context [pickResponsesChain ?h1 ?m] =>
    match rhs with context [pickResponsesChain ?h2 ?m] =>
      change (pickResponsesChain h2 m) with (pickResponsesChain h1 m); set (ch := pickResponsesChain h1 m) end end end.
  destruct ch as [[|[p fwd] rest]|]; [done| |done]. unfold mbind, G_bind.
  match goal with |- (let '(_, _) := ?x in _) = (let '(_, _) := ?y in _) => change y with x; destruct x as [t s2] end.
  match goal with |- (let '(_, _) := ?x in _) = _ => destruct x as [st s3] end.
  match goal with |- (let '(_, _) := ?x in _) = (let '(_, _) := ?y in _) => change y with x; destruct x as [cr s1] end.
  destruct cr as [[[cred source]|]|err]; [done..|]. cbn [gh_keyMode]. by destruct (bool_decide _).
Qed.

(** The Messages endpoint ignores the policies of the chat endpoint: two requests
    that differ in the key's allowed models, quality floor or limits, to gateways
    that differ in guardrails, router, self-correction, load balancing, cache or
    egress mode, are answered by exactly the same effects, upstream calls
    included. *)
Theorem messages_policy_blind (h h' : GwHandler) (c c' : reqCtx) (json_error : string → string) (flusher : bool)
    (body : res string string) (s : gstate) :
  same_routing h h' → same_caller c c' →
  Messages_handler env h json_error c flusher body s = Messages_handler env h' json_error c' flusher body s.
Proof.
  intros Hh Hc. pose proof Hh as Hh'. pose proof Hc as Hc'. revert Hh' Hc'.
  destruct h as [reg rec lim router groups guard scm lb sc crr km rid nt em], h' as [reg' rec' lim' router' groups' guard' scm' lb' sc' crr' km' rid' nt' em'],
    c as [i o u v am rl mb mq], c' as [i' o' u' v' am' rl' mb' mq'].
  intros (E1 & E2 & E3 & E4 & E5 & E6) (E7 & E8 & E9 & E10). cbn in E1, E2, E3, E4, E5, E6, E7, E8, E9, E10.
  subst reg' groups' crr' km' rid' lim' i' o' u' v'. unfold Messages_handler. destruct body as [raw|e]; [|done].
  destruct (decode_messages_request raw) as [req|]; [|done].
  destruct (String.eqb (mq_Model req) ""); [done|]. destruct (_ =? 0)%nat; [done|].
  destruct (mq_Stream req).
  2: { apply G_bind_eq; [apply execute_unary_blind; [exact Hh|exact Hc]|]. by intros [[resp|] [t|]] s1. }
  unfold handleMessagesStream.
  match goal with |- ?lhs = ?rhs => match lhs with context [pickResponsesChain ?h1 ?m] =>
    match rhs with context [pickResponsesChain ?h2 ?m] =>
      change (pickResponsesChain h2 m) with (pickResponsesChain h1 m); set (ch := pickResponsesChain h1 m) end end end.
  destruct ch as [providers|]; [|done]. destruct flusher; cbn [negb]; [|reflexivity].
  unfold mbind, G_bind. repeat match goal with |- (let '(_, _) := ?x in _) = _ =>
    lazymatch x with stream_providers _ _ _ _ _ _ _ _ _ => fail | _ => destruct x end end.
  by rewrite (stream_providers_blind _ _ _ _ _ _ _ _ _ _ Hh Hc).
Qed.
End Blind.

(** ** Failures *)

Section Failures.
Context {doc schema : Type} (env : Env doc schema) (h : GwHandler).

Lemma stream_providers_fail c session req multi start providers :
  (∀ n u, ∃ e, e_open_stream env n u = Err e) →
  wps (stream_providers env h c session req multi start providers) (fun b es => b = no_blocks ∧ es = []).
Proof.
  intros Hf. induction providers as [|[p fwd] rest IH]; cbn [stream_providers]; [by apply wps_ret|].
  apply wps_bind, wps_silent, wp_caller_credential. intros cr. split; [apply silent_nil|].
  set (cs := match cr with Ok (Some (cred, source)) => (Some cred, source) | _ => _ end).
  destruct cs as [cred source]. apply wps_bind, wps_silent, wp_newTrace. intros t _ _ _ _ _.
  split; [apply silent_nil|]. apply wps_bind, wps_silent. intros s.
  exists [EvUpstream (mkUp p cred (with_model fwd req))]. split; [done|]. split; [by split; [constructor|]|].
  cbn [ChatCompletionStream fst]. destruct (Hf (g_up s) (mkUp p cred (with_model fwd req))) as [e ->].
  apply wps_bind, wps_silent, wp_Since. intros lat. split; [apply silent_nil|].
  apply wps_bind, wps_silent, wp_emit. split; [by split; [constructor; [..|by constructor]|]|]. exact IH.
Qed.

(** A total failure is reported as success: when no provider opens a stream the
    client gets status 200 and a complete message without content, whose stop
    reason is empty. *)
Theorem messages_failure_is_empty_success (c : reqCtx) (session : string) (req : ChatCompletionRequest)
    (providers : list (Provider * string)) (s : gstate) :
  g_log s = [] → pickResponsesChain h (Model req) = Some providers →
  (∀ n u, ∃ e, e_open_stream env n u = Err e) →
  let evs := events (handleMessagesStream env h c session true req) s in
  statuses evs = [200] ∧
  ∃ id, bodies evs = map event_text [MessageStart id (Model req); MessageDelta "" (mkMsgUsage 0 0); MessageStop].
Proof.
  intros Hs Hp Hfail. cbn zeta.
  apply (wp_run _ (fun _ evs => statuses evs = [200] ∧ ∃ id, bodies evs =
    map event_text [MessageStart id (Model req); MessageDelta "" (mkMsgUsage 0 0); MessageStop])); [done|].
  unfold handleMessagesStream. rewrite Hp. cbn [negb]. apply wp_bind, wp_NewString. intros uuid.
  apply wp_bind, wp_write.
  cut (wps (emit_event (MessageStart ("msg_" +:+ uuid) (Model req));; streamStart ← now env;
        b ← stream_providers env h c session req (1 <? length providers)%nat streamStart providers;
        close_stream b)
    (fun _ es => es = [MessageStart ("msg_" +:+ uuid) (Model req); MessageDelta "" (mkMsgUsage 0 0); MessageStop])).
  { intros H. eapply wp_mono; [exact H|]. intros [] evs ([H1 H2 H3] & es & Hb & ->). autorewrite with views.
    rewrite H1, Hb. split; [done|]. by eexists. }
  apply wps_bind, wps_event, wps_bind, wps_silent, wp_now. intros start. split; [apply silent_nil|].
  apply wps_bind. eapply wps_mono; [by apply stream_providers_fail|]. intros b es [-> ->].
  unfold close_stream. cbn [no_blocks bs_textOpened bs_order emit_stops]. apply wps_bind, wps_ret, wps_bind, wps_ret.
  apply wps_bind, wps_event, wps_event. done.
Qed.

(** A caller without a key is served on the operator's: under strict BYOK the chat
    endpoint refuses a caller for whom the credential store has no key, while the
    Messages and Responses endpoints call the provider without an override. *)
Theorem strict_byok_bypassed (c : reqCtx) (session : string) (req : ChatCompletionRequest) (p : Provider)
    (fwd : string) (rest : list (Provider * string)) (s : gstate) :
  g_log s = [] → cache (g_cred s) = ∅ → gh_credResolver h = true → gh_keyMode h = KeyModeStrictBYOK →
  (∀ n, ∃ cred, e_cred_source env n (ctx_OrgID c) (ctx_UserID c) (p_name p) = Ok (cred, false)) →
  pickResponsesChain h (Model req) = Some ((p, fwd) :: rest) →
  (∃ e, (injectCredential env h c (p_name p) s).1 = Err e) ∧
  calls (events (execute_unary env h c session req) s) = [mkUp p None (with_model fwd req)].
Proof.
  intros Hs Hcache Hr Hm Hsrc Hp.
  assert (∀ n t1 t2 s, cache (g_cred s) = ∅ → ∃ cred cr asked,
    Credentials.Resolve (g_cred s) (ctx_OrgID c) (ctx_UserID c) (p_name p) t1 t2
      (e_cred_source env n (ctx_OrgID c) (ctx_UserID c) (p_name p)) =
      (Ok (cred, false), cr, asked)) as Hres.
  { intros n t1 t2 s' Hc. unfold Credentials.Resolve, cached. rewrite Hc, lookup_empty.
    destruct (Hsrc n) as [cred ->]. destruct (0 <? ttl (g_cred s')); by eexists _, _, _. }
  split.
  - unfold injectCredential. rewrite Hr, Hm. rewrite bool_decide_false by done. cbn [negb orb].
    destruct (Hres (g_src s) (e_clock env (g_clock s)) (e_clock env (S (g_clock s))) s Hcache) as (cred & cr & asked & ->).
    rewrite bool_decide_true by done. by eexists.
  - assert (∀ s1, cache (g_cred s1) = ∅ →
      ∃ s2, caller_credential env h c (p_name p) s1 = (Ok None, s2) ∧ g_log s2 = g_log s1) as Hcc.
    { intros s1 Hc1. unfold caller_credential, uses_caller_keys. rewrite Hr, Hm, bool_decide_false by done.
      cbn [negb andb]. unfold mbind, G_bind, resolve_credential.
      destruct (Hres (g_src s1) (e_clock env (g_clock s1)) (e_clock env (S (g_clock s1))) s1 Hc1)
        as (cred & cr & asked & ->). by eexists. }
    unfold events, execute_unary. rewrite Hp. unfold mbind, G_bind.
    destruct (newTrace env h c session req (p_name p) s) as [t s1] eqn:E1.
    assert (g_log s1 = [] ∧ cache (g_cred s1) = ∅) as [Hl1 Hc1] by (injection E1 as _ <-; done).
    destruct (now env s1) as [st s2] eqn:E2.
    assert (g_log s2 = [] ∧ cache (g_cred s2) = ∅) as [Hl2 Hc2] by (injection E2 as _ <-; done).
    destruct (Hcc s2 Hc2) as (s3 & -> & Hl3). rewrite Hl2 in Hl3.
    unfold dispatch_unary, mbind, G_bind, ChatCompletion, Since, now, mbind, G_bind.
    cbn [fst snd g_log g_clock g_uuid g_up g_src g_lb g_cred].
    destruct (e_upstream env (g_up s3) _) as [resp|err]; cbn; by rewrite Hl3.
Qed.

(** ** Bodies *)

Lemma marshal_list_None x l : x ∈ l → marshal x = None → marshal_list l = None.
Proof.
  intros Hx Hn. induction Hx as [x l|x y l Hx IH]; cbn; [by rewrite Hn|].
  destruct (marshal y); [|done]. cbn. by rewrite IH.
Qed.

(** A tool call whose arguments are not JSON leaves the client without a body: the
    upstream answer is accepted and charged, the status line says 200, and the
    response does not marshal, so nothing follows. *)
Theorem invalid_arguments_empty_body (uuid : string) (resp : ChatCompletionResponse) (req : MessagesRequest)
    (ch : Choice) (chs : list Choice) (tc : ToolCall) (s : gstate) :
  g_log s = [] → r_Choices resp = ch :: chs → tc ∈ ToolCalls (c_Message ch) →
  fn_Arguments tc ≠ "" → Valid (fn_Arguments tc) = false →
  let evs := events (writeJSON 200 (MessagesResponse_json (chatToMessages uuid resp req))) s in
  statuses evs = [200] ∧ bodies evs = [].
Proof.
  intros Hs Hch Htc Hne Hinv.
  assert (marshal (MessagesResponse_json (chatToMessages uuid resp req)) = None) as Hm.
  { unfold MessagesResponse_json. rewrite marshal_obj. unfold chatToMessages. rewrite Hch. cbn [mr_Content].
    set (blk := mkBlk "tool_use" "" (tc_ID tc) (fn_Name tc) (fn_Arguments tc)).
    assert (marshal (Blk_json blk) = None) as Hb.
    { unfold Blk_json, omitraw. cbn [bk_Input blk]. apply String.eqb_neq in Hne as Hne'. rewrite marshal_obj.
      cbn [bk_Type bk_Text bk_ID bk_Name bk_Input blk]. rewrite Hne'.
      assert (marshal (JRaw (fn_Arguments tc)) = None) as Hr.
      { cbn. rewrite Hne'. unfold Valid in Hinv. by destruct (value_text (fn_Arguments tc)). }
      assert (∀ l k, marshal_members (l ++ [(k, JRaw (fn_Arguments tc))])%list = None) as Ha.
      { induction l as [|[k' x] l IH]; intros k; [unfold marshal_members; cbn -[marshal]; by rewrite Hr|].
        change (marshal_members (((k', x) :: l) ++ ?z)%list) with
          (t ← marshal x; ts ← marshal_members (l ++ z)%list; Some ((json_quote k' +:+ ":" +:+ t) :: ts)).
        rewrite IH. by destruct (marshal x). }
      by rewrite !app_assoc, Ha. }
    assert (blk ∈ (map (fun tc => mkBlk "tool_use" "" (tc_ID tc) (fn_Name tc) (fn_Arguments tc))
      (ToolCalls (c_Message ch)) ++ (if String.eqb (TrimSpace (Content (c_Message ch))) "" then []
        else [mkBlk "text" (TrimSpace (Content (c_Message ch))) "" "" ""]))%list) as Hin.
    { apply elem_of_app. left. apply list_elem_of_In, in_map_iff. exists tc. split; [done|]. by apply list_elem_of_In. }
    set (blks := (map _ _ ++ _)%list) in *. destruct blks as [|b0 bs] eqn:Eb; [by apply not_elem_of_nil in Hin|].
    rewrite <- Eb in *. cbn [marshal_members]. 
    assert (marshal (JArr (map Blk_json blks)) = None) as Harr.
    { rewrite marshal_arr. rewrite (marshal_list_None (Blk_json blk)); [done| |done].
      apply list_elem_of_In, in_map. by apply list_elem_of_In. }
    unfold marshal_members. cbn -[marshal]. rewrite Harr. cbn. done. }
  unfold writeJSON. rewrite Hm.
  apply (wp_run _ (fun _ evs => statuses evs = [200] ∧ bodies evs = [])); [done|]. by apply wp_write.
Qed.
End Failures.

(** ** Concrete runs *)

(** [demo_env] with the given streams, the same for every provider but [down]. *)
Definition stream_env (l : list StreamEvent) : Env unit unit :=
  mkEnv unit unit
    (fun n => Z.of_nat n) (fun n => "uuid")
    (fun _ u => if decide (up_provider u = down) then Err "connection refused" else Ok (demo_resp "hi"))
    (fun _ u => if decide (up_provider u = down) then Err "connection refused" else Ok l)
    (fun _ _ _ _ => Ok (no_credential, false))
    (fun _ _ _ => Ok (None, []))
    (fun msg ty => ty +:+ ": " +:+ msg) (fun r => first_content r) (fun r => Some (first_content r))
    (fun b => demo_resp <$> b)
    (fun _ => "") (fun _ => "") (fun _ => "") (fun _ => "0") (fun s => s) (fun s => s)
    (fun s => if String.eqb s "{}" then Ok tt else Err "not JSON") (fun _ => None) (fun _ _ => None)
    (fun _ => false) (fun _ => Err "not hybrid") (fun _ => Ok (demo_req true None)) (fun _ => None).

Definition text_event (t : string) : StreamEvent :=
  mkStreamEvent (Some (mkChunk "" "" 0 "b" [mkChunkChoice 0 "" t [] ""] None)) None None false.
Definition tool_event (i : Z) (name args : string) : StreamEvent :=
  mkStreamEvent (Some (mkChunk "" "" 0 "b"
    [mkChunkChoice 0 "" "" [mkToolCall (Some i) "" "function" name args "" ""] ""] None)) None None false.
Definition done_event : StreamEvent := mkStreamEvent None None None true.
Definition comment_event : StreamEvent := mkStreamEvent None (Some ": ping") None false.

(** The Anthropic events a run of [m] wrote. *)
Definition wrote (m : G unit) (es : list anthropic) : Prop :=
  bodies (events m demo_state) = map event_text es.

Definition mixed : list StreamEvent :=
  [text_event "Hel"; text_event "lo"; tool_event 0 "f" "{"; tool_event 0 "" "}"; done_event].

Lemma streams_fine_mixed : streams_fine (stream_env mixed).
Proof. intros n u evs. cbn. case_decide; [done|]. intros [= <-]. reflexivity. Qed.


(** The order matters: a text that follows a tool call opens block 0 a second
    time, and later input goes to a block that was never opened. *)
Example late_text_reuses_block :
  wrote (handleMessagesStream (stream_env [tool_event 0 "f" "{"; text_event "ok"; tool_event 0 "" "}"; done_event])
           (demo_handler None false) demo_ctx "" true (demo_req true None))
    [MessageStart "msg_uuid" "team"; BlockStartTool 0 "toolu_uuid" "f"; InputDelta 0 "{"; BlockStartText 0;
     TextDelta 0 "ok"; InputDelta 1 "}"; BlockStop 0; BlockStop 0; MessageDelta "" (mkMsgUsage 0 0); MessageStop].
Proof. vm_compute. reflexivity. Qed.

(** A comment of the upstream's event stream, forwarded as an event without a
    chunk, ends the message. *)
Example comment_truncates_message :
  wrote (handleMessagesStream (stream_env [comment_event; text_event "never seen"; done_event])
           (demo_handler None false) demo_ctx "" true (demo_req true None))
    [MessageStart "msg_uuid" "team"; MessageDelta "" (mkMsgUsage 0 0); MessageStop].
Proof. vm_compute. reflexivity. Qed.

Definition msg_body : string := J "{'model':'a','messages':[{'role':'user','content':'hello'}]}".

(** A key that may use only [b], on a gateway that blocks every prompt, against an
    unrestricted key on an open gateway. *)
Lemma messages_policy_blind_witness :
  let closed := mkCtx "req-1" "org" "user" "vk" ["b"] 1 fone fone in
  let open := mkCtx "req-1" "org" "user" "vk" [] 0 fzero fzero in
  let run h c := Messages_handler (stream_env []) h (fun _ => "") c true (Ok msg_body) demo_state in
  run (demo_handler (Some json_guard) true) closed = run (demo_handler None false) open ∧
  up_provider <$> calls (rev (g_log (run (demo_handler (Some json_guard) true) closed).2)) = [down].
Proof.
  split; [|vm_compute; reflexivity].
  apply (messages_policy_blind (stream_env []) (demo_handler (Some json_guard) true) (demo_handler None false)
    (mkCtx "req-1" "org" "user" "vk" ["b"] 1 fone fone) (mkCtx "req-1" "org" "user" "vk" [] 0 fzero fzero)
    (fun _ => "") true (Ok msg_body) demo_state); repeat split.
Defined.

Definition down_handler : GwHandler :=
  mkGwHandler (Register NewRegistry down ["a"]) true true None ∅ None 0 false false true KeyModeStrictBYOK "r" false "open".

Definition failing_env : Env unit unit := 
  mkEnv unit unit
    (fun n => Z.of_nat n) (fun n => "uuid") (fun _ _ => Err "refused") (fun _ _ => Err "refused")
    (fun _ _ _ _ => Ok (no_credential, false)) (fun _ _ _ => Ok (None, []))
    (fun msg ty => ty +:+ ": " +:+ msg) (fun r => first_content r) (fun r => Some (first_content r))
    (fun b => demo_resp <$> b)
    (fun _ => "") (fun _ => "") (fun _ => "") (fun _ => "0") (fun s => s) (fun s => s)
    (fun s => Err "not JSON") (fun _ => None) (fun _ _ => None)
    (fun _ => false) (fun _ => Err "not hybrid") (fun _ => Ok (demo_req true None)) (fun _ => None).

Lemma messages_failure_is_empty_success_witness :
  let evs := events (handleMessagesStream failing_env (demo_handler None false) demo_ctx "" true (demo_req true None))
               demo_state in
  statuses evs = [200] ∧ ∃ id, bodies evs =
    map event_text [MessageStart id "team"; MessageDelta "" (mkMsgUsage 0 0); MessageStop].
Proof.
  apply (messages_failure_is_empty_success failing_env (demo_handler None false) demo_ctx "" (demo_req true None)
    [(down, "a"); (up, "b")] demo_state); [reflexivity|vm_compute; reflexivity|].
  intros n u. by exists "refused".
Defined.

Lemma strict_byok_bypassed_witness :
  (∃ e, (injectCredential (stream_env []) down_handler demo_ctx "down" demo_state).1 = Err e) ∧
  calls (events (execute_unary (stream_env []) down_handler demo_ctx "" (with_model "a" (demo_req false None)))
           demo_state) = [mkUp down None (with_model "a" (demo_req false None))].
Proof.
  apply (strict_byok_bypassed (stream_env []) down_handler demo_ctx "" (with_model "a" (demo_req false None))
    down "a" [] demo_state); [reflexivity|reflexivity|reflexivity|reflexivity| |vm_compute; reflexivity].
  intros n. by exists no_credential.
Defined.

Definition broken_call : ChatCompletionResponse :=
  mkResp "id" "chat.completion" 0 "b"
    [mkChoice 0 (mkMessage "assistant" "" "" [function_call "1" "f" (J "{'city':")] "") "length"] demo_usage.

Lemma invalid_arguments_empty_body_witness :
  let req := mkMessagesReq "b" 10 "" [] [] "" false [] None None ∅ None in
  let evs := events (writeJSON 200 (MessagesResponse_json (chatToMessages "u" broken_call req))) demo_state in
  statuses evs = [200] ∧ bodies evs = [].
Proof.
  apply (invalid_arguments_empty_body "u" broken_call (mkMessagesReq "b" 10 "" [] [] "" false [] None None ∅ None)
    (mkChoice 0 (mkMessage "assistant" "" "" [function_call "1" "f" (J "{'city':")] "") "length") []
    (function_call "1" "f" (J "{'city':")) demo_state);
    [reflexivity|reflexivity|by left|discriminate|vm_compute; reflexivity].
Defined.
