(* ===== verification/Responses.v ===== *)
(** * Responses: src/internal/gateway/responses.go

    The OpenAI Responses endpoint: its requests and responses, the translation to
    a chat request and back, the stream of Responses events and the handler.
    Routing and the unary dispatch are [Messages.pickResponsesChain] and
    [Messages.execute_unary].  [json_error] is the text of a decoding error,
    [fmt_float] the decimal text of a cost. *)

From S2P Require Import Prelude GoString Float64 GoTime ApiErr Balancer Registry Pricing.
From S2P Require Import Credentials Guardrails SemCache GwTypes Middleware Gateway.
From S2P Require Import Net Json Wire Messages.
Local Open Scope string_scope.
Local Open Scope go_scope.
Local Open Scope Z_scope.

(** ** Data *)

Record ResponsesRequest := mkResponsesReq {
  rq_Model : string;
  rq_Input : string;
  rq_Instructions : string;
  rq_Temperature : option float64;
  rq_TopP : option float64;
  rq_MaxOutputTokens : option Z;
  rq_Stream : bool;
  rq_Tools : list Tool;
  rq_ToolChoice : string;
  rq_ParallelToolCalls : option bool;
  rq_Reasoning : string;
  rq_Text : string;
  rq_StreamOptions : string;
  rq_User : string;
  rq_NexusEval : option NexusEvalContext
}.

Definition decode_responses_request (data : string) : option ResponsesRequest :=
  ok_or (Unmarshal (fun raw _ =>
    let '(ms, e) := struct_members raw in
    fill model := field "model" st_string "" ms in
    fill input := field "input" st_raw "" ms in
    fill instr := field "instructions" st_string "" ms in
    fill temp := field "temperature" (st_ptr fzero st_float) None ms in
    fill topp := field "top_p" (st_ptr fzero st_float) None ms in
    fill maxo := field "max_output_tokens" (st_ptr 0 st_int) None ms in
    fill stream := field "stream" st_bool false ms in
    fill tools := field "tools" (st_list zero_tool (st_own Tool_UnmarshalJSON)) [] ms in
    fill choice := field "tool_choice" st_raw "" ms in
    fill par := field "parallel_tool_calls" (st_ptr false st_bool) None ms in
    fill reasoning := field "reasoning" st_raw "" ms in
    fill text := field "text" st_raw "" ms in
    fill sopts := field "stream_options" st_raw "" ms in
    fill user := field "user" st_string "" ms in
    fill ev := field "nexus_eval" st_eval_ptr None ms in
    (mkResponsesReq model input instr temp topp maxo stream tools choice par reasoning text sopts user ev, e))
    (mkResponsesReq "" "" "" None None None false [] "" None "" "" "" "" None) data).

Record ResponsesOutput := mkOutput {
  ro_Type : string;
  ro_ID : string;
  ro_CallID : string;
  ro_Name : string;
  ro_Arguments : string;
  ro_Input : string;
  ro_Role : string;
  ro_Status : string;
  ro_Content : list string  (* the texts of the output_text parts *)
}.

Record ResponsesUsage := mkRespUsage { ru_Input : Z; ru_Output : Z; ru_Total : Z; ru_Cost : float64 }.

(** [Object] is a constant. *)
Record ResponsesResponse := mkResponsesResp {
  rr_ID : string;
  rr_CreatedAt : Z;
  rr_Model : string;
  rr_Status : string;
  rr_Output : list ResponsesOutput;
  rr_Usage : ResponsesUsage
}.

(** ** To a chat request *)

Definition responses_chat (req : ResponsesRequest) (messages : list Message) : ChatCompletionRequest :=
  mkReq (rq_Model req)
    ((if String.eqb (rq_Instructions req) "" then [] else [text_message "system" (rq_Instructions req)]) ++ messages)%list
    (rq_Temperature req) (rq_TopP req) (rq_MaxOutputTokens req) (rq_Stream req) [] (rq_Tools req)
    (rq_User req) "" "" "" None None (rq_NexusEval req) ∅.

(** The error's text when the input is refused. *)
Definition responsesToChat (decode_error : string → string) (req : ResponsesRequest) :
    res string ChatCompletionRequest :=
  let trimmed := TrimSpace (rq_Input req) in
  if String.eqb trimmed "" || String.eqb trimmed "null" then Err "input is required"
  else if starts (byte 34) trimmed then
    match Unmarshal st_string "" (rq_Input req) with
    | (_, true) => Err ("input string decode: " +:+ decode_error (rq_Input req))
    | (s, false) => Ok (responses_chat req [text_message "user" s])
    end
  else if negb (starts "[" trimmed) then Err "input must be a string or an array of items"
  else match Unmarshal (st_list zero_item st_item) [] (rq_Input req) with
       | (_, true) => Err ("input array decode: " +:+ decode_error (rq_Input req))
       | (items, false) => Ok (responses_chat req (item_messages item_message items))
       end.

(** ** Back to the Responses shape *)

Definition firstNonZero (a b : Z) : Z := if a =? 0 then b else a.

(** [uuids]: one fresh id per use, in order: the response's, one per tool call,
    one for the message. *)
Definition call_output (uuid : string) (tc : ToolCall) : ResponsesOutput :=
  if String.eqb (tc_Type tc) "custom" then
    mkOutput "custom_tool_call" ("ctc_" +:+ firstNonEmpty (tc_ID tc) uuid) (tc_ID tc) (cu_Name tc) "" (cu_Input tc)
      "" "completed" []
  else
    mkOutput "function_call" ("fc_" +:+ firstNonEmpty (tc_ID tc) uuid) (tc_ID tc) (fn_Name tc) (fn_Arguments tc) ""
      "" "completed" [].

Section Handler.
Context {doc schema : Type} (env : Env doc schema) (h : GwHandler) (fmt_float : float64 → string).

Fixpoint call_outputs (tcs : list ToolCall) : G (list ResponsesOutput) :=
  match tcs with
  | [] => mret []
  | tc :: tcs' => uuid ← NewString env; rest ← call_outputs tcs'; mret (call_output uuid tc :: rest)
  end.

Definition chatToResponses (c : ChatCompletionResponse) (req : ResponsesRequest) : G ResponsesResponse :=
  uuid ← NewString env;
  t ← now env;
  let out output :=
    mkResponsesResp (firstNonEmpty (r_ID c) ("resp_" +:+ uuid)) (firstNonZero (r_Created c) (Unix t))
      (firstNonEmpty (r_Model c) (rq_Model req)) "completed" output
      (mkRespUsage (PromptTokens (r_Usage c)) (CompletionTokens (r_Usage c)) (TotalTokens (r_Usage c))
         (CostUSD_reported (r_Usage c))) in
  match r_Choices c with
  | [] => mret (out [])
  | ch :: _ =>
      calls ← call_outputs (ToolCalls (c_Message ch));
      if String.eqb (Content (c_Message ch)) "" then mret (out calls)
      else
        uuid ← NewString env;
        mret (out (calls ++ [mkOutput "message" ("msg_" +:+ uuid) "" "" "" "" "assistant" "completed"
                               [Content (c_Message ch)]])%list)
  end.

(** ** The wire form *)

Definition usage_members (u : ResponsesUsage) : list (string * json) :=
  ([("input_tokens", jint (ru_Input u)); ("output_tokens", jint (ru_Output u)); ("total_tokens", jint (ru_Total u))] ++
   (if feq (ru_Cost u) fzero then [] else [("cost_usd", JNum (fmt_float (ru_Cost u)))]))%list.

Definition Output_json (o : ResponsesOutput) : json :=
  JObj ([("type", JStr (ro_Type o))] ++ omitempty "id" (ro_ID o) ++ omitempty "call_id" (ro_CallID o) ++
        omitempty "name" (ro_Name o) ++ omitempty "arguments" (ro_Arguments o) ++ omitempty "input" (ro_Input o) ++
        omitempty "role" (ro_Role o) ++ omitempty "status" (ro_Status o) ++
        (match ro_Content o with
         | [] => []
         | l => [("content", JArr (map (fun t => JObj (("type", JStr "output_text") :: omitempty "text" t)) l))]
         end))%list.

Definition ResponsesResponse_json (r : ResponsesResponse) : json :=
  JObj [("id", JStr (rr_ID r)); ("object", JStr "response"); ("created_at", jint (rr_CreatedAt r));
        ("model", JStr (rr_Model r)); ("status", JStr (rr_Status r));
        ("output", match rr_Output r with [] => JNull | l => JArr (map Output_json l) end);
        ("usage", JObj (usage_members (rr_Usage r)))].

(** ** The stream of Responses events *)

(** The [toolPartial] of this file. *)
Record call_partial := mkCall {
  cp_itemType : string;
  cp_itemID : string;
  cp_callID : string;
  cp_boundID : bool;
  cp_name : string;
  cp_offset : Z;
  cp_arguments : string
}.

(** A finished call, as [done] events and the final output show it. *)
Definition call_members (p : call_partial) (status : string) : list (string * json) :=
  [("type", JStr (cp_itemType p)); ("id", JStr (cp_itemID p)); ("call_id", JStr (cp_callID p));
   ("output_index", jint (cp_offset p)); ("name", JStr (cp_name p)); ("arguments", JStr (cp_arguments p));
   ("input", JStr (cp_arguments p)); ("status", JStr status)].

(** What every event of one response shares. *)
Record shell := mkShell { sh_id : string; sh_model : string; sh_created : Z }.

Inductive rev_event :=
| RCreated (sh : shell)
| RTextAdded (id : string)
| RCallAdded (p : call_partial)
| RTextDelta (id delta : string)
| RArgsDelta (id : string) (offset : Z) (delta : string)
| RFailed (sh : shell) (message : string)
| RTextDone (id text : string)
| RTextItemDone (id text status : string)
| RArgsDone (p : call_partial) (status : string)
| RCallDone (p : call_partial) (status : string)
| RCompleted (body : json).

Definition text_parts (text : string) : json := JArr [jmap [("type", JStr "output_text"); ("text", JStr text)]].

Definition rev_sse (e : rev_event) : string * json :=
  match e with
  | RCreated sh =>
      ("response.created", jmap [("id", JStr (sh_id sh)); ("object", JStr "response"); ("model", JStr (sh_model sh));
        ("created_at", jint (sh_created sh)); ("status", JStr "in_progress")])
  | RTextAdded id =>
      ("response.output_item.added", jmap [("type", JStr "message"); ("output_index", jint 0); ("id", JStr id);
        ("role", JStr "assistant"); ("status", JStr "in_progress"); ("content", JArr [])])
  | RCallAdded p =>
      ("response.output_item.added", jmap [("type", JStr (cp_itemType p)); ("output_index", jint (cp_offset p));
        ("id", JStr (cp_itemID p)); ("call_id", JStr (cp_callID p)); ("name", JStr (cp_name p));
        ("arguments", JStr ""); ("input", JStr ""); ("status", JStr "in_progress")])
  | RTextDelta id d =>
      ("response.output_text.delta", jmap [("item_id", JStr id); ("output_index", jint 0); ("content_index", jint 0);
        ("delta", JStr d); ("logprobs", JArr [])])
  | RArgsDelta id off d =>
      ("response.function_call_arguments.delta", jmap [("item_id", JStr id); ("output_index", jint off);
        ("delta", JStr d)])
  | RFailed sh m =>
      ("response.failed", jmap [("response", jmap [("id", JStr (sh_id sh)); ("object", JStr "response");
        ("status", JStr "failed"); ("created_at", jint (sh_created sh)); ("model", JStr (sh_model sh));
        ("output", JArr []); ("error", jmap [("message", JStr m); ("type", JStr "stream_error")])])])
  | RTextDone id t =>
      ("response.output_text.done", jmap [("item_id", JStr id); ("output_index", jint 0); ("content_index", jint 0);
        ("text", JStr t)])
  | RTextItemDone id t st =>
      ("response.output_item.done", jmap [("type", JStr "message"); ("output_index", jint 0); ("id", JStr id);
        ("role", JStr "assistant"); ("status", JStr st); ("content", text_parts t)])
  | RArgsDone p st => ("response.function_call_arguments.done", jmap (call_members p st))
  | RCallDone p st => ("response.output_item.done", jmap (call_members p st))
  | RCompleted body => ("response.completed", jmap [("response", body)])
  end.

Definition emit_rev (e : rev_event) : G unit := emit_sse (rev_sse e).1 (rev_sse e).2.

(** [text.index] is always 0; [textTaken] says that [text] is there. *)
Record stream_state := mkRS {
  rs_text : option string;
  rs_tools : gmap Z call_partial;
  rs_order : list Z;
  rs_usage : option Usage;
  rs_finish : string
}.

Definition no_items : stream_state := mkRS None ∅ [] None "".

Definition text_item (msgID content : string) (st : stream_state) : G stream_state :=
  if String.eqb content "" then mret st
  else
    buf ← match rs_text st with
          | None => emit_rev (RTextAdded msgID);; mret ""
          | Some buf => mret buf
          end;
    emit_rev (RTextDelta msgID content);;
    mret (mkRS (Some (buf +:+ content)) (rs_tools st) (rs_order st) (rs_usage st) (rs_finish st)).

(** The record of a call seen for the first time. *)
Definition new_call (suffix uuid : string) (idx offset : Z) (tc : ToolCall) : call_partial :=
  let custom := String.eqb (tc_Type tc) "custom" in
  let boundID := negb (String.eqb (tc_ID tc) "") in
  mkCall (if custom then "custom_tool_call" else "function_call")
    ((if custom then "ctc_" else "fc_") +:+ suffix +:+ "_" +:+ pretty idx)
    (if boundID then tc_ID tc else "call_" +:+ uuid) boundID
    (if custom then cu_Name tc else fn_Name tc) offset "".

(** A later delta of a known call. *)
Definition merge_call (tc : ToolCall) (p : call_partial) : call_partial :=
  let bound := negb (String.eqb (tc_ID tc) "") in
  let custom := String.eqb (tc_Type tc) "custom" in
  mkCall (cp_itemType p) (cp_itemID p) (if bound then tc_ID tc else cp_callID p) (bound || cp_boundID p)
    (if custom && negb (String.eqb (cu_Name tc) "") then cu_Name tc
     else if negb custom && negb (String.eqb (fn_Name tc) "") then fn_Name tc else cp_name p)
    (cp_offset p) (cp_arguments p).

Definition append_args (s : string) (p : call_partial) : call_partial :=
  mkCall (cp_itemType p) (cp_itemID p) (cp_callID p) (cp_boundID p) (cp_name p) (cp_offset p) (cp_arguments p +:+ s).

Definition args_delta (fragment : string) (p : call_partial) : G call_partial :=
  if String.eqb fragment "" then mret p
  else emit_rev (RArgsDelta (cp_itemID p) (cp_offset p) fragment);; mret (append_args fragment p).

Definition call_delta (suffix : string) (tc : ToolCall) (st : stream_state) : G stream_state :=
  let idx := default 0 (tc_Index tc) in
  let offset := match rs_text st with Some _ => wrap64 (idx + 1) | None => idx end in
  po ← match rs_tools st !! idx with
       | None =>
           uuid ← (if String.eqb (tc_ID tc) "" then NewString env else mret "");
           let p := new_call suffix uuid idx offset tc in
           emit_rev (RCallAdded p);; mret (p, (rs_order st ++ [idx])%list)
       | Some p => mret (merge_call tc p, rs_order st)
       end;
  let '(p, order) := po in
  p ← args_delta (fn_Arguments tc) p;
  p ← (if String.eqb (tc_Type tc) "custom" then args_delta (cu_Input tc) p else mret p);
  mret (mkRS (rs_text st) (<[idx := p]> (rs_tools st)) order (rs_usage st) (rs_finish st)).

Fixpoint call_deltas (suffix : string) (tcs : list ToolCall) (st : stream_state) : G stream_state :=
  match tcs with
  | [] => mret st
  | tc :: tcs' => st' ← call_delta suffix tc st; call_deltas suffix tcs' st'
  end.

Definition choice_item (suffix : string) (dc : ChunkChoice) (st : stream_state) : G stream_state :=
  st ← text_item ("msg_" +:+ suffix) (cc_Content dc) st;
  st ← call_deltas suffix (cc_ToolCalls dc) st;
  mret (if String.eqb (cc_FinishReason dc) "" then st
        else mkRS (rs_text st) (rs_tools st) (rs_order st) (rs_usage st) (cc_FinishReason dc)).

Fixpoint choice_items (suffix : string) (dcs : list ChunkChoice) (st : stream_state) : G stream_state :=
  match dcs with
  | [] => mret st
  | dc :: dcs' => st' ← choice_item suffix dc st; choice_items suffix dcs' st'
  end.

Definition note_usage (k : ChatCompletionChunk) (st : stream_state) : stream_state :=
  match k_Usage k with
  | Some u => mkRS (rs_text st) (rs_tools st) (rs_order st) (Some u) (rs_finish st)
  | None => st
  end.

(** The loop over a provider's events: the trace, the state, and whether an error
    ended it.  [seen]: a chunk has arrived. *)
Fixpoint items_loop (sh : shell) (suffix : string) (start : Time) (events : list StreamEvent) (seen : bool)
    (trace : Trace) (st : stream_state) : G (Trace * stream_state * bool) :=
  match events with
  | [] => mret (trace, st, false)
  | ev :: events' =>
      match ev_Err ev with
      | Some err =>
          lat ← Since env start;
          let t := set_ErrorMsg err (set_ErrorType "stream_error" (set_LatencyMs lat trace)) in
          emit_rev (RFailed sh err);;
          mret (if seen then t else set_StatusCode 502 t, st, true)
      | None =>
          if ev_Done ev then mret (trace, st, false)
          else match ev_Chunk ev with
               | None => items_loop sh suffix start events' seen trace st
               | Some k =>
                   t ← (if seen then mret trace else (m ← Since env start; mret (set_TTFTMillis m trace)));
                   let t := match k_Usage k with
                            | Some u => set_OutputTokens (CompletionTokens u) (set_InputTokens (PromptTokens u) t)
                            | None => t
                            end in
                   st' ← choice_items suffix (k_Choices k) (note_usage k st);
                   items_loop sh suffix start events' true t st'
               end
      end
  end.

(** The providers in turn. *)
Fixpoint open_providers (sh : shell) (suffix : string) (c : reqCtx) (req : ChatCompletionRequest) (start : Time)
    (providers : list (Provider * string)) (trace : Trace) : G (Trace * stream_state * bool) :=
  match providers with
  | [] => mret (trace, no_items, false)
  | (p, fwd) :: rest =>
      cr ← caller_credential env h c (p_name p);
      let '(cred, trace) :=
        match cr with
        | Ok (Some (cred, source)) => (Some cred, set_CredentialSource source trace)
        | _ => (None, trace)
        end in
      r ← ChatCompletionStream env (mkUp p cred (with_model fwd req));
      match r with
      | Err err =>
          lat ← Since env start;
          open_providers sh suffix c req start rest
            (set_ErrorMsg err (set_ErrorType "upstream_error_failover" (set_StatusCode 502 (set_LatencyMs lat trace))))
      | Ok events => items_loop sh suffix start events false trace no_items
      end
  end.

(** [json.Marshal] of a byte slice: its base64 text. *)
Definition b64_char (n : nat) : ascii :=
  match String.get n "ABCDEFGHIJKLMNOPQRSTUVWXYZabcdefghijklmnopqrstuvwxyz0123456789+/" with
  | Some c => c
  | None => "="%char
  end.

Fixpoint base64 (s : string) : string :=
  match s with
  | "" => ""
  | String a "" =>
      let n := (code a * 16)%nat in String (b64_char (n / 64)) (String (b64_char (n mod 64)) "==")
  | String a (String b "") =>
      let n := ((code a * 256 + code b) * 4)%nat in
      String (b64_char (n / 4096)) (String (b64_char (n / 64 mod 64)) (String (b64_char (n mod 64)) "="))
  | String a (String b (String c r)) =>
      let n := (N.of_nat (code a) * 65536 + N.of_nat (code b) * 256 + N.of_nat (code c))%N in
      String (b64_char (N.to_nat (n / 262144))) (String (b64_char (N.to_nat (n / 4096 mod 64)))
        (String (b64_char (N.to_nat (n / 64 mod 64))) (String (b64_char (N.to_nat (n mod 64))) (base64 r))))
  end.

(** The items of the final output. *)
Definition output_items (msgID status : string) (st : stream_state) : list json :=
  ((match rs_text st with
    | Some t => if String.eqb t "" then [] else
        [jmap [("type", JStr "message"); ("id", JStr msgID); ("role", JStr "assistant"); ("status", JStr status);
               ("content", text_parts t)]]
    | None => []
    end) ++
   omap (fun idx => (fun p => jmap (call_members p status)) <$> rs_tools st !! idx) (rs_order st))%list.

(** [writeCompleted]. *)
Definition completed_json (sh : shell) (req : ResponsesRequest) (msgID status : string) (cost : float64)
    (st : stream_state) : json :=
  jmap [("id", JStr (sh_id sh)); ("object", JStr "response"); ("created_at", jint (sh_created sh));
        ("model", JStr (sh_model sh)); ("status", JStr status); ("instructions", JStr (rq_Instructions req));
        ("parallel_tool_calls", JBool true);
        ("tools", match rq_Tools req with
                  | [] => JArr []
                  | l => match marshal (JArr (map Tool_json l)) with
                         | Some raw => JStr (base64 raw)
                         | None => JArr []
                         end
                  end);
        ("output", JArr (output_items msgID status st));
        ("usage", JObj (usage_members
           match rs_usage st with
           | Some u => mkRespUsage (PromptTokens u) (CompletionTokens u) (TotalTokens u) cost
           | None => mkRespUsage 0 0 0 fzero
           end));
        ("error", JNull)].

Fixpoint close_calls (status : string) (st : stream_state) (order : list Z) : G unit :=
  match order with
  | [] => mret tt
  | idx :: order' =>
      match rs_tools st !! idx with
      | Some p => emit_rev (RArgsDone p status);; emit_rev (RCallDone p status)
      | None => mret tt
      end;;
      close_calls status st order'
  end.

(** The [done] events of the items and the final one. *)
Definition close_items (msgID status : string) (st : stream_state) (body : json) : G unit :=
  match rs_text st with
  | Some b => if String.eqb b "" then mret tt
              else emit_rev (RTextDone msgID b);; emit_rev (RTextItemDone msgID b status)
  | None => mret tt
  end;;
  close_calls status st (rs_order st);;
  emit_rev (RCompleted body).

Definition zero_usage : Usage := mkUsage 0 0 0 fzero fzero None None.

(** From the end of the providers' loop on. *)
Definition finish_responses (c : reqCtx) (sh : shell) (suffix : string) (req : ResponsesRequest)
    (chatReq : ChatCompletionRequest) (start : Time) (trace : Trace) (st : stream_state) : G unit :=
  let truncated := String.eqb (rs_finish st) "" &&
    (match rs_text st with Some _ => true | None => false end || (0 <? length (rs_order st))%nat) in
  let status := if truncated then "incomplete" else "completed" in
  let t := if truncated then set_ErrorType "stream_truncated" trace else trace in
  let t := match rs_text st with Some b => set_OutputMessages b t | None => t end in
  lat ← Since env start;
  let usage := default zero_usage (rs_usage st) in
  let cost := ResolveCostUSD (EstimatedCost usage) (Model chatReq) (ResponseModel t) (Some usage) in
  let t := set_CostUSD_t cost (set_LatencyMs lat (set_StatusCode 200 t)) in
  emit (EvRecord t);;
  let msgID := "msg_" +:+ suffix in
  close_items msgID status st (completed_json sh req msgID status cost st);;
  setCostTrailer env cost;;
  recordSpend h c cost.

Definition handleResponsesStream (c : reqCtx) (session : string) (flusher : bool) (respReq : ResponsesRequest)
    (chatReq : ChatCompletionRequest) : G unit :=
  match pickResponsesChain h (Model chatReq) with
  | None | Some [] => writeErr env c 502 "upstream_error" ("no provider for model " +:+ Model chatReq)
  | Some ((p0, fwd0) :: rest) =>
      if negb flusher then writeErr env c 500 "internal_error" "streaming unsupported"
      else
        suffix ← NewString env;
        created ← now env;
        let sh := mkShell ("resp_" +:+ suffix) (Model chatReq) (Unix created) in
        write sse_headers;;
        emit_rev (RCreated sh);;
        start ← now env;
        t ← newTrace env h c session chatReq (p_name p0);
        r ← open_providers sh suffix c chatReq start ((p0, fwd0) :: rest) (set_Streamed true t);
        let '(trace, st, failed) := r in
        if (failed : bool) then emit (EvRecord trace)
        else finish_responses c sh suffix respReq chatReq start trace st
  end.

(** ** The handler *)

Definition Responses_handler (json_error : string → string) (c : reqCtx) (flusher : bool) (body : res string string) :
    G unit :=
  let bad msg := writeErr env c 400 "invalid_request_error" msg in
  match body with
  | Err e => bad ("cannot read body: " +:+ e)
  | Ok rawBody =>
      match decode_responses_request rawBody with
      | None => bad ("invalid JSON body: " +:+ json_error rawBody)
      | Some req =>
          if String.eqb (rq_Model req) "" then bad "model is required"
          else
            let session := extractSessionID env rawBody in
            match responsesToChat json_error req with
            | Err e => bad e
            | Ok chatReq =>
                if rq_Stream req then handleResponsesStream c session flusher req chatReq
                else
                  r ← execute_unary env h c session chatReq;
                  match r with
                  | (None, _) => writeErr env c 502 "upstream_error" "all candidate providers failed"
                  | (Some resp, None) =>
                      out ← chatToResponses resp req;
                      writeJSON 200 (ResponsesResponse_json out)
                  | (Some resp, Some trace) =>
                      let cost := ResolveCostUSD (EstimatedCost (r_Usage resp)) (Model chatReq)
                                    (ResponseModel trace) (Some (r_Usage resp)) in
                      let resp := set_resp_cost cost resp in
                      setCostHeader env cost;;
                      emit (EvRecord (set_CostUSD_t cost trace));;
                      recordSpend h c cost;;
                      out ← chatToResponses resp req;
                      writeJSON 200 (ResponsesResponse_json out)
                  end
            end
      end
  end.
End Handler.
