(* ===== verification/ResponsesProps.v ===== *)
(** * ResponsesProps: the properties of the Responses endpoint

    What a client that accumulates the deltas of a Responses stream holds at the
    end, against the [done] events, the final output and the upstream's chunks. *)

From S2P Require Import Prelude GoString Float64 GoTime ApiErr Balancer Registry Pricing.
From S2P Require Import Credentials Guardrails SemCache GwTypes Middleware Gateway GatewayLogic.
From S2P Require Import GatewayProps Net Json JsonFacts Wire Messages SseLogic MessagesProps Responses.
From stdpp Require Import pretty.
Local Open Scope string_scope.
Local Open Scope Z_scope.

(** ** Events on the wire *)

Ltac no_raws :=
  repeat match goal with
  | |- no_raw (jmap _) => apply jmap_no_raw
  | |- no_raw (JObj _) => apply no_raw_obj
  | |- no_raw (JArr _) => apply no_raw_arr
  | |- no_raw (JStr _) => exact I
  | |- no_raw (JNum _) => exact I
  | |- no_raw (JBool _) => exact I
  | |- no_raw JNull => exact I
  | |- no_raw (jint _) => exact I
  | |- Forall _ (_ :: _) => apply Forall_cons; split; cbn [snd]
  | |- Forall _ [] => apply Forall_nil; exact I
  end.

Lemma rev_no_raw e : (∀ b, e ≠ RCompleted b) → no_raw (rev_sse e).2.
Proof.
  intros He. destruct e; unfold rev_sse, call_members, text_parts; cbn [snd]; try (no_raws; done).
  by destruct (He body).
Qed.

Lemma output_items_no_raw msgID status st : Forall no_raw (output_items msgID status st).
Proof.
  unfold output_items. apply Forall_app. split.
  - destruct (rs_text st) as [t|]; [|constructor]. case_match; [constructor|]. unfold text_parts. no_raws; done.
  - apply Forall_forall. intros x Hx. apply list_elem_of_omap in Hx as (i & _ & Hx).
    apply fmap_Some in Hx as (p & _ & ->). unfold call_members. no_raws; done.
Qed.

Lemma completed_no_raw fmt_float sh req msgID status cost st :
  no_raw (completed_json fmt_float sh req msgID status cost st).
Proof.
  unfold completed_json, usage_members. no_raws; try done; try (by repeat case_match).
  - apply output_items_no_raw.
  - apply Forall_app. split; [no_raws; done|]. case_match; no_raws; done.
Qed.

#[local] Abbreviation event_text := (SseLogic.event_text rev_sse).
#[local] Abbreviation wps := (SseLogic.wps rev_sse (fun _ => False)).

Lemma wps_rev e Q : (∀ b, e ≠ RCompleted b) → Q tt [e] → wps (emit_rev e) Q.
Proof. intros He. apply (SseLogic.wps_sse rev_sse (fun _ => False)), rev_no_raw, He. Qed.

(** ** The client

    It opens items when they are announced and appends deltas to an open item, of
    the announced output index; anything else is a protocol violation. *)

Record view := mkView { v_text : option (string * string); v_args : gmap string (Z * string) }.

Definition client_step (v : view) (e : rev_event) : option view :=
  match e with
  | RTextAdded id => match v_text v with None => Some (mkView (Some (id, "")) (v_args v)) | Some _ => None end
  | RTextDelta id d =>
      match v_text v with
      | Some (id', t) => if String.eqb id id' then Some (mkView (Some (id, t +:+ d)) (v_args v)) else None
      | None => None
      end
  | RCallAdded p =>
      match v_args v !! cp_itemID p with
      | None => Some (mkView (v_text v) (<[cp_itemID p := (cp_offset p, "")]> (v_args v)))
      | Some _ => None
      end
  | RArgsDelta id off d =>
      match v_args v !! id with
      | Some (o, a) => if o =? off then Some (mkView (v_text v) (<[id := (o, a +:+ d)]> (v_args v))) else None
      | None => None
      end
  | _ => None
  end.

Fixpoint client_run (v : view) (es : list rev_event) : option view :=
  match es with
  | [] => Some v
  | e :: es' => match client_step v e with Some v' => client_run v' es' | None => None end
  end.

Lemma client_run_app v es es' :
  client_run v (es ++ es')%list = match client_run v es with Some v' => client_run v' es' | None => None end.
Proof. revert v. induction es as [|e es IH]; intros v; [done|]. cbn. destruct (client_step v e); [apply IH|done]. Qed.

(** ** The server's state against the client's *)

Definition item_id (suffix : string) (idx : Z) (id : string) : Prop :=
  id = "fc_" +:+ suffix +:+ "_" +:+ pretty idx ∨ id = "ctc_" +:+ suffix +:+ "_" +:+ pretty idx.

Lemma item_id_inj suffix i j id : item_id suffix i id → item_id suffix j id → i = j.
Proof.
  assert (∀ a b c : string, a +:+ b = a +:+ c → b = c) as Hinj by (intros a; apply (inj (String.append a))).
  intros [-> | ->] [E|E]; try discriminate E;
    do 3 apply Hinj in E; by apply (inj pretty) in E.
Qed.

Record shows (suffix : string) (st : stream_state) (v : view) : Prop := {
  sw_text : v_text v = (fun t => ("msg_" +:+ suffix, t)) <$> rs_text st;
  sw_nonempty : rs_text st ≠ Some "";
  sw_calls : ∀ idx p, rs_tools st !! idx = Some p →
    item_id suffix idx (cp_itemID p) ∧ v_args v !! cp_itemID p = Some (cp_offset p, cp_arguments p);
  sw_ids : ∀ id, is_Some (v_args v !! id) → ∃ idx p, rs_tools st !! idx = Some p ∧ cp_itemID p = id;
  sw_order : NoDup (rs_order st);
  sw_dom : ∀ i, i ∈ rs_order st ↔ is_Some (rs_tools st !! i)
}.

Definition empty_view : view := mkView None ∅.

Lemma shows_empty suffix : shows suffix no_items empty_view.
Proof.
  constructor; cbn; try done; [|constructor|].
  - intros id []. by rewrite lookup_empty in *.
  - intros i. rewrite lookup_empty. split; [by intros ?%not_elem_of_nil|by intros []].
Qed.

(** Every client that was in step with [st] reads [es] and is in step with [st']. *)
Definition follows (suffix : string) (st st' : stream_state) (es : list rev_event) : Prop :=
  ∀ v, shows suffix st v → ∃ v', client_run v es = Some v' ∧ shows suffix st' v'.

Lemma follows_refl suffix st : follows suffix st st [].
Proof. intros v Hv. by exists v. Qed.

Lemma follows_trans suffix st st' st'' es es' :
  follows suffix st st' es → follows suffix st' st'' es' → follows suffix st st'' (es ++ es')%list.
Proof.
  intros H1 H2 v Hv. destruct (H1 v Hv) as (v1 & E1 & Hv1). destruct (H2 v1 Hv1) as (v2 & E2 & Hv2).
  exists v2. by rewrite client_run_app, E1.
Qed.

(** Only the items matter. *)
Lemma follows_items suffix st st' es u f :
  follows suffix st st' es → follows suffix st (mkRS (rs_text st') (rs_tools st') (rs_order st') u f) es.
Proof. intros H v Hv. destruct (H v Hv) as (v' & E & [H1 H2 H3 H4 H5 H6]). exists v'. split; [done|]. by constructor. Qed.

Definition text_of (st : stream_state) : string := default "" (rs_text st).
Definition args_of (st : stream_state) (idx : Z) : string := default "" (cp_arguments <$> rs_tools st !! idx).

Definition set_call (idx : Z) (p : call_partial) (st : stream_state) : stream_state :=
  mkRS (rs_text st) (<[idx := p]> (rs_tools st)) (rs_order st) (rs_usage st) (rs_finish st).

Lemma append_args_empty p : append_args "" p = p.
Proof. destruct p. unfold append_args. cbn. by rewrite app_nil_r_string. Qed.

(** ** One delta *)

Lemma text_item_ok suffix content st :
  wps (text_item ("msg_" +:+ suffix) content st) (fun st' es =>
    follows suffix st st' es ∧ text_of st' = text_of st +:+ content ∧ rs_tools st' = rs_tools st).
Proof.
  unfold text_item. destruct (String.eqb_spec content "") as [->|Hne].
  { apply wps_ret. split_and!; [apply follows_refl|by rewrite app_nil_r_string|done]. }
  assert (∀ buf, buf +:+ content ≠ "") as Hb by (intros [|]; [done|discriminate]).
  apply wps_bind. destruct (rs_text st) as [buf|] eqn:Ht; unfold text_of; rewrite ?Ht.
  - apply wps_ret, wps_bind, wps_rev; [done|]. apply wps_ret. cbn. split_and!; [|done|done].
    intros v [H1 H2 H3 H4 H5 H6]. rewrite Ht in H1. cbn in H1. eexists. cbn. rewrite H1, String.eqb_refl.
    split; [reflexivity|]. constructor; try done. cbn. intros [= E]. by destruct (Hb buf).
  - apply wps_bind, wps_rev; [done|]. apply wps_ret, wps_bind, wps_rev; [done|]. apply wps_ret. cbn. split_and!; [|done|done].
    intros v [H1 H2 H3 H4 H5 H6]. rewrite Ht in H1. cbn in H1. eexists. cbn. rewrite H1. cbn.
    rewrite String.eqb_refl. split; [reflexivity|]. constructor; try done. cbn. by intros [= E].
Qed.

Lemma args_delta_ok suffix fragment idx p st :
  rs_tools st !! idx = Some p →
  wps (args_delta fragment p) (fun p' es =>
    p' = append_args fragment p ∧ follows suffix st (set_call idx p' st) es).
Proof.
  intros Hp. unfold args_delta. destruct (String.eqb_spec fragment "") as [->|Hne].
  - apply wps_ret. rewrite append_args_empty. split; [done|].
    unfold set_call. rewrite insert_id by done. apply follows_items, follows_refl.
  - apply wps_bind, wps_rev; [done|]. apply wps_ret. split; [done|]. cbn.
    intros v [H1 H2 H3 H4 H5 H6]. destruct (H3 _ _ Hp) as [Hid Hv]. eexists. cbn. rewrite Hv, Z.eqb_refl.
    split; [reflexivity|]. constructor; try done; cbn.
    + intros j q Hq. apply lookup_insert_Some in Hq as [[<- <-]|[Hn Hq]].
      * cbn. split; [done|]. by rewrite lookup_insert_eq.
      * destruct (H3 _ _ Hq) as [Hj Hvj]. split; [done|]. rewrite lookup_insert_ne; [done|].
        intros E. apply Hn, (item_id_inj suffix idx j (cp_itemID p)); [done|]. cbn in E. by rewrite <- E in Hj.
    + intros id Hs. apply lookup_insert_is_Some in Hs as [<-|[Hn Hs]].
      * exists idx, (append_args fragment p). by rewrite lookup_insert_eq.
      * destruct (H4 _ Hs) as (j & q & Hj & Hid'). destruct (decide (j = idx)) as [->|Hne'].
        -- rewrite Hp in Hj. injection Hj as <-. exists idx, (append_args fragment p).
           by rewrite lookup_insert_eq.
        -- exists j, q. by rewrite lookup_insert_ne.
    + intros j. rewrite H6, lookup_insert_is_Some'. split; [by right|]. intros [<-|?]; [by eexists|done].
Qed.

(** What a delta adds to its call. *)
Definition fragment (tc : ToolCall) : string :=
  fn_Arguments tc +:+ (if String.eqb (tc_Type tc) "custom" then cu_Input tc else "").

(** The fragments of one call. *)
Definition fragments (idx : Z) (tcs : list ToolCall) : string :=
  concat_s (map (fun tc => if default 0 (tc_Index tc) =? idx then fragment tc else "") tcs).

Section StreamProps.
Context {doc schema : Type} (env : Env doc schema) (h : GwHandler) (fmt_float : float64 → string).

(** Opening a call, and updating a known one. *)
Lemma new_call_ok suffix uuid idx offset tc st :
  rs_tools st !! idx = None →
  let p := new_call suffix uuid idx offset tc in
  follows suffix st (mkRS (rs_text st) (<[idx := p]> (rs_tools st)) (rs_order st ++ [idx])%list (rs_usage st) (rs_finish st))
    [RCallAdded p].
Proof.
  intros Hn p v [H1 H2 H3 H4 H5 H6].
  assert (item_id suffix idx (cp_itemID p)) as Hid by (unfold item_id, p, new_call; cbn; case_match; auto).
  assert (v_args v !! cp_itemID p = None) as Hfresh.
  { apply eq_None_not_Some. intros Hs. destruct (H4 _ Hs) as (j & q & Hj & E). destruct (H3 _ _ Hj) as [Hq _].
    assert (j = idx) as -> by (apply (item_id_inj suffix j idx (cp_itemID p)); [by rewrite <- E|done]).
    by rewrite Hn in Hj. }
  eexists. cbn [client_run client_step]. rewrite Hfresh. split; [reflexivity|].
  constructor; try done; cbn [v_text v_args rs_text rs_tools rs_order].
  - intros j q Hq. apply lookup_insert_Some in Hq as [[<- <-]|[Hne Hq]].
    + split; [done|]. by rewrite lookup_insert_eq.
    + destruct (H3 _ _ Hq) as [Hj Hvj]. split; [done|]. rewrite lookup_insert_ne; [done|]. intros E.
      by rewrite <- E, Hfresh in Hvj.
  - intros id Hs. apply lookup_insert_is_Some in Hs as [<-|[Hne Hs]].
    + exists idx, p. by rewrite lookup_insert_eq.
    + destruct (H4 _ Hs) as (j & q & Hj & E). exists j, q. rewrite lookup_insert_ne; [done|]. intros <-.
      by rewrite Hn in Hj.
  - apply NoDup_app. split_and!; [done| |by apply NoDup_singleton]. intros j Hj Hj'.
    apply list_elem_of_singleton in Hj' as ->. apply H6 in Hj. rewrite Hn in Hj. by destruct Hj.
  - intros j. rewrite elem_of_app, list_elem_of_singleton, H6, lookup_insert_is_Some'. split; intros [?|?]; auto.
Qed.

Lemma merge_call_ok suffix tc idx p st :
  rs_tools st !! idx = Some p → follows suffix st (set_call idx (merge_call tc p) st) [].
Proof.
  intros Hp v [H1 H2 H3 H4 H5 H6]. exists v. split; [done|]. constructor; try done; cbn.
  - intros j q Hq. apply lookup_insert_Some in Hq as [[<- <-]|[Hne Hq]]; [by apply (H3 idx p)|by apply H3].
  - intros id Hs. destruct (H4 _ Hs) as (j & q & Hj & E). destruct (decide (idx = j)) as [<-|Hne].
    + exists idx, (merge_call tc p). rewrite lookup_insert_eq. rewrite Hp in Hj. by injection Hj as <-.
    + exists j, q. by rewrite lookup_insert_ne.
  - intros j. rewrite H6, lookup_insert_is_Some'. split; [by right|]. intros [<-|?]; [by eexists|done].
Qed.

Definition call_post (suffix : string) (tcs : list ToolCall) (st st' : stream_state) (es : list rev_event) : Prop :=
  follows suffix st st' es ∧ text_of st' = text_of st ∧ ∀ i, args_of st' i = args_of st i +:+ fragments i tcs.

Lemma call_delta_ok suffix tc st :
  wps (call_delta env suffix tc st) (fun st' es => call_post suffix [tc] st st' es).
Proof.
  unfold call_delta. set (idx := default 0 (tc_Index tc)). apply wps_bind.
  eapply (wps_mono _ (fun po es => let '(p, order) := po in cp_arguments p = args_of st idx ∧
    follows suffix st (mkRS (rs_text st) (<[idx := p]> (rs_tools st)) order (rs_usage st) (rs_finish st)) es)).
  - unfold args_of. destruct (rs_tools st !! idx) as [p|] eqn:Hp.
    + apply wps_ret. split; [done|]. by apply merge_call_ok.
    + apply wps_bind. eapply (wps_mono _ (fun _ es => es = [])).
      { case_match; [|by apply wps_ret]. apply wps_silent, wp_NewString. intros x. split; [apply silent_nil|done]. }
      intros uuid ? ->. apply wps_bind, wps_rev; [done|]. apply wps_ret. split; [done|]. by apply new_call_ok.
  - intros [p order] es1 [Ha Hf]. set (mk p := mkRS (rs_text st) (<[idx := p]> (rs_tools st)) order (rs_usage st) (rs_finish st)).
    assert (∀ q q', set_call idx q' (mk q) = mk q') as Hset
      by (intros q q'; unfold set_call, mk; cbn; by rewrite insert_insert_eq).
    assert (∀ q, rs_tools (mk q) !! idx = Some q) as Hget by (intros q; apply lookup_insert_eq).
    apply wps_bind. eapply wps_mono; [apply (args_delta_ok suffix _ idx p (mk p)), Hget|].
    intros p1 es2 [-> Hf2]. rewrite Hset in Hf2. apply wps_bind.
    set (extra := if String.eqb (tc_Type tc) "custom" then cu_Input tc else "").
    eapply (wps_mono _ (fun p' es => p' = append_args extra (append_args (fn_Arguments tc) p) ∧
      follows suffix (mk (append_args (fn_Arguments tc) p)) (mk p') es)).
    { unfold extra. case_match; [|apply wps_ret; rewrite append_args_empty; split; [done|apply follows_refl]].
      eapply wps_mono; [eapply (args_delta_ok suffix _ idx _ (mk _)), Hget|]. intros p' es [-> H']. by rewrite Hset in H'. }
    intros p2 es3 [-> Hf3]. apply wps_ret. rewrite app_nil_r. split_and!.
    + eapply follows_trans; [exact Hf|]. by eapply follows_trans.
    + done.
    + intros i. unfold args_of, fragments. cbn -[fragment]. rewrite app_nil_r_string. fold idx.
      destruct (Z.eqb_spec idx i) as [<-|Hne].
      * rewrite lookup_insert_eq. cbn. rewrite Ha. unfold args_of, fragment. by rewrite app_assoc_string.
      * rewrite lookup_insert_ne by done. by rewrite app_nil_r_string.
Qed.

Lemma call_post_trans suffix tcs tcs' st st' st'' es es' :
  call_post suffix tcs st st' es → call_post suffix tcs' st' st'' es' →
  call_post suffix (tcs ++ tcs')%list st st'' (es ++ es')%list.
Proof.
  intros (H1 & H2 & H3) (K1 & K2 & K3). split_and!; [by eapply follows_trans|congruence|]. intros i.
  rewrite K3, H3, app_assoc_string. f_equal. unfold fragments. by rewrite map_app, concat_s_app.
Qed.

Lemma call_deltas_ok suffix tcs st :
  wps (call_deltas env suffix tcs st) (fun st' es => call_post suffix tcs st st' es).
Proof.
  revert st. induction tcs as [|tc tcs IH]; intros st; cbn [call_deltas].
  { apply wps_ret. split_and!; [apply follows_refl|done|]. intros i. unfold fragments. cbn. by rewrite app_nil_r_string. }
  apply wps_bind. eapply wps_mono; [apply call_delta_ok|]. intros st1 es1 H1.
  eapply wps_mono; [apply IH|]. intros st2 es2 H2. by apply (call_post_trans suffix [tc] tcs st st1).
Qed.

(** ** A stream *)

(** The chunks a stream delivers: up to an error or the end, comments skipped. *)
Fixpoint delivered (events : list StreamEvent) : list ChatCompletionChunk :=
  match events with
  | [] => []
  | ev :: events' =>
      match ev_Err ev, ev_Done ev with
      | None, false => match ev_Chunk ev with Some k => k :: delivered events' | None => delivered events' end
      | _, _ => []
      end
  end.

Definition chunk_calls (k : ChatCompletionChunk) : list ToolCall := concat (map cc_ToolCalls (k_Choices k)).
Definition stream_calls (ks : list ChatCompletionChunk) : list ToolCall := concat (map chunk_calls ks).

(** The state holds [text] and, per call, the fragments of [tcs]. *)
Definition adds (suffix : string) (text : string) (tcs : list ToolCall) (st st' : stream_state)
    (es : list rev_event) : Prop :=
  follows suffix st st' es ∧ text_of st' = text_of st +:+ text ∧
  ∀ i, args_of st' i = args_of st i +:+ fragments i tcs.

Lemma adds_refl suffix st : adds suffix "" [] st st [].
Proof.
  split_and!; [apply follows_refl|by rewrite app_nil_r_string|]. intros i. unfold fragments. cbn.
  by rewrite app_nil_r_string.
Qed.

Lemma adds_trans suffix t t' tcs tcs' st st' st'' es es' :
  adds suffix t tcs st st' es → adds suffix t' tcs' st' st'' es' →
  adds suffix (t +:+ t') (tcs ++ tcs')%list st st'' (es ++ es')%list.
Proof.
  intros (H1 & H2 & H3) (K1 & K2 & K3). split_and!; [by eapply follows_trans|by rewrite K2, H2, app_assoc_string|].
  intros i. unfold fragments in *. by rewrite K3, H3, map_app, concat_s_app, app_assoc_string.
Qed.

Lemma adds_items suffix t tcs st st' es u f :
  adds suffix t tcs st st' es →
  adds suffix t tcs st (mkRS (rs_text st') (rs_tools st') (rs_order st') u f) es.
Proof. intros (H1 & H2 & H3). split_and!; [by apply follows_items|done|done]. Qed.

Lemma note_usage_adds suffix t tcs k st st' es :
  adds suffix t tcs (note_usage k st) st' es → adds suffix t tcs st st' es.
Proof.
  unfold note_usage. destruct (k_Usage k); [|done]. intros (H1 & H2 & H3). split_and!; [|done|done].
  intros v [S1 S2 S3 S4 S5 S6]. apply H1. by constructor.
Qed.

Lemma choice_item_ok suffix dc st :
  wps (choice_item env suffix dc st) (fun st' es => adds suffix (cc_Content dc) (cc_ToolCalls dc) st st' es).
Proof.
  unfold choice_item. apply wps_bind. eapply wps_mono; [apply text_item_ok|]. intros st1 es1 (H1 & Ht1 & Hc1).
  apply wps_bind. eapply wps_mono; [apply call_deltas_ok|]. intros st2 es2 (H2 & Ht2 & Hc2). apply wps_ret.
  rewrite app_nil_r.
  assert (adds suffix (cc_Content dc) (cc_ToolCalls dc) st st2 (es1 ++ es2)%list) as Ha.
  { split_and!; [by eapply follows_trans|congruence|]. intros i. rewrite Hc2. unfold args_of. by rewrite Hc1. }
  case_match; [done|]. by apply adds_items.
Qed.

Lemma choice_items_ok suffix dcs st :
  wps (choice_items env suffix dcs st)
    (fun st' es => adds suffix (choices_text dcs) (concat (map cc_ToolCalls dcs)) st st' es).
Proof.
  revert st. induction dcs as [|dc dcs IH]; intros st; cbn [choice_items].
  { apply wps_ret, adds_refl. }
  apply wps_bind. eapply wps_mono; [apply choice_item_ok|]. intros st1 es1 H1.
  eapply wps_mono; [apply IH|]. intros st2 es2 H2. by apply (adds_trans _ _ _ _ _ _ st1).
Qed.

Definition streamed (suffix : string) (sh : shell) (ks : list ChatCompletionChunk) (st : stream_state)
    (r : Trace * stream_state * bool) (es : list rev_event) : Prop :=
  let '(t, st', failed) := r in
  ∃ mid, adds suffix (chunks_text ks) (stream_calls ks) st st' mid ∧
    if failed then ∃ err, es = (mid ++ [RFailed sh err])%list ∧ ErrorType t = "stream_error" else es = mid.

Lemma items_loop_ok sh suffix start events : ∀ seen trace st,
  wps (items_loop env sh suffix start events seen trace st) (streamed suffix sh (delivered events) st).
Proof.
  assert (∀ (trace : Trace) (st : stream_state), streamed suffix sh [] st (trace, st, false) []) as Hend
    by (intros trace st; exists []; split; [apply adds_refl|done]).
  induction events as [|ev events IH]; intros seen trace st; cbn [items_loop delivered].
  { apply wps_ret, Hend. }
  destruct (ev_Err ev) as [err|].
  { apply wps_bind, wps_silent, wp_Since. intros lat. split; [apply silent_nil|]. apply wps_bind, wps_rev; [done|].
    apply wps_ret. exists []. split; [apply adds_refl|]. exists err. split; [done|]. by destruct seen. }
  destruct (ev_Done ev); [apply wps_ret, Hend|].
  destruct (ev_Chunk ev) as [k|]; [|apply IH].
  apply wps_bind. eapply (wps_mono _ (fun _ es => es = [])).
  { destruct seen; [by apply wps_ret|]. apply wps_bind, wps_silent, wp_Since. intros m. split; [apply silent_nil|].
    by apply wps_ret. }
  intros t1 ? ->. apply wps_bind. eapply wps_mono; [apply choice_items_ok|]. intros st1 es1 H1.
  assert (adds suffix (choices_text (k_Choices k)) (chunk_calls k) st st1 es1) as H1'
    by (by apply note_usage_adds in H1).
  eapply wps_mono; [apply IH|]. intros [[t st2] failed] es2 (mid & H2 & Hf). exists (es1 ++ mid)%list.
  split; [by apply (adds_trans _ _ _ _ _ _ st1)|]. cbn [app]. destruct failed.
  - destruct Hf as (err & -> & Ht). exists err. by rewrite app_assoc.
  - by subst.
Qed.

(** What the items come from: no provider opened a stream, or one did. *)
Definition source (providers : list (Provider * string)) (st : stream_state) : Prop :=
  st = no_items ∨
  ∃ n u events, up_provider u ∈ map fst providers ∧ e_open_stream env n u = Ok events ∧
    text_of st = chunks_text (delivered events) ∧
    ∀ i, args_of st i = fragments i (stream_calls (delivered events)).

Definition opened (suffix : string) (sh : shell) (providers : list (Provider * string))
    (r : Trace * stream_state * bool) (es : list rev_event) : Prop :=
  let '(t, st, failed) := r in
  source providers st ∧ ∃ mid, follows suffix no_items st mid ∧
    if failed then ∃ err, es = (mid ++ [RFailed sh err])%list ∧ ErrorType t = "stream_error" else es = mid.

Lemma wp_ChatCompletionStream_at u Q :
  (∀ n, Q (e_open_stream env n u) [EvUpstream u]) → wp (ChatCompletionStream env u) Q.
Proof. intros H s. exists [EvUpstream u]. split; [done|apply H]. Qed.

Lemma open_providers_ok sh suffix c req start providers : ∀ trace,
  wps (open_providers env h sh suffix c req start providers trace) (opened suffix sh providers).
Proof.
  induction providers as [|[p fwd] providers IH]; intros trace; cbn [open_providers].
  { apply wps_ret. split; [by left|]. exists []. split; [apply follows_refl|done]. }
  apply wps_bind, wps_silent, wp_caller_credential. intros cr. split; [apply silent_nil|].
  destruct (match cr with Ok (Some (cred, source)) => (Some cred, set_CredentialSource source trace) | _ => (None, trace) end)
    as [cred trace1].
  apply wps_bind. set (u := mkUp p cred (with_model fwd req)).
  apply (wps_mono _ (fun r es => es = [] ∧ ∃ n, r = e_open_stream env n u)).
  { apply wps_silent, wp_ChatCompletionStream_at. intros n. split; [split; [by constructor|done]|by eauto]. }
  intros r es1 [-> [n ->]]. destruct (e_open_stream env n u) as [events|err] eqn:Eo.
  - eapply wps_mono; [apply items_loop_ok|]. intros [[t st] failed] es (mid & (Hf & Ht & Ha) & Hes).
    split; [|by exists mid]. right. exists n, u, events. split_and!; [by left|done|done|]. intros i. by rewrite Ha.
  - apply wps_bind, wps_silent, wp_Since. intros lat. split; [apply silent_nil|].
    eapply wps_mono; [apply IH|]. intros [[t st] failed] es (Hsrc & Hmid). split; [|done].
    destruct Hsrc as [->|(m & u' & evs & Hin & H')]; [by left|]. right. exists m, u', evs. split; [by right|done].
Qed.

(** ** The end *)

(** The events that close the items of a state. *)
Definition done_events (suffix status : string) (st : stream_state) : list rev_event :=
  ((match rs_text st with
    | Some t => [RTextDone ("msg_" +:+ suffix) t; RTextItemDone ("msg_" +:+ suffix) t status]
    | None => []
    end) ++
   concat (map (fun p => [RArgsDone p status; RCallDone p status]) (omap (fun i => rs_tools st !! i) (rs_order st))))%list.

Lemma close_calls_ok status st order :
  wps (close_calls status st order) (fun _ es =>
    es = concat (map (fun p => [RArgsDone p status; RCallDone p status]) (omap (fun i => rs_tools st !! i) order))).
Proof.
  induction order as [|i order IH]; cbn [close_calls]; [by apply wps_ret|]. csimpl.
  apply wps_bind. destruct (rs_tools st !! i) as [p|].
  - apply wps_bind, wps_rev; [done|]. apply wps_rev; [done|]. eapply wps_mono; [exact IH|]. by intros [] es ->.
  - apply wps_ret. eapply wps_mono; [exact IH|]. by intros [] es ->.
Qed.

Lemma close_items_ok suffix status st body :
  rs_text st ≠ Some "" → no_raw (rev_sse (RCompleted body)).2 →
  wps (close_items ("msg_" +:+ suffix) status st body)
    (fun _ es => es = (done_events suffix status st ++ [RCompleted body])%list).
Proof.
  intros Hne Hbody. unfold close_items, done_events. apply wps_bind.
  apply (wps_mono _ (fun _ es => es = match rs_text st with
    | Some t => [RTextDone ("msg_" +:+ suffix) t; RTextItemDone ("msg_" +:+ suffix) t status]
    | None => []
    end)).
  - destruct (rs_text st) as [t|]; [|by apply wps_ret]. destruct (String.eqb_spec t "") as [->|]; [done|].
    apply wps_bind, wps_rev; [done|]. by apply wps_rev.
  - intros [] es1 ->. apply wps_bind. eapply wps_mono; [apply close_calls_ok|]. intros [] es2 ->.
    apply (SseLogic.wps_sse rev_sse (fun _ => False)); [done|]. by rewrite app_assoc.
Qed.

(** A completed response. *)
Definition completed (suffix : string) (sh : shell) (c : reqCtx) (req : ResponsesRequest) (st : stream_state)
    (tl : list rev_event) (evs : list event) : Prop :=
  ∃ status cost t,
    tl = (done_events suffix status st ++
          [RCompleted (completed_json fmt_float sh req ("msg_" +:+ suffix) status cost st)])%list ∧
    traces evs = [t] ∧ StatusCode t = 200 ∧ CostUSD_t t = cost ∧ spends evs = spend_of h c cost.

Lemma spends_of_spend l : spends ((fun '(k, x) => EvSpend k x) <$> l) = l.
Proof. induction l as [|[k x] l IH]; [done|]. unfold spends in *. csimpl. by rewrite IH. Qed.

Lemma finish_responses_ok c sh suffix req chatReq start trace st :
  rs_text st ≠ Some "" →
  wp (finish_responses env h fmt_float c sh suffix req chatReq start trace st) (fun _ evs =>
    statuses evs = [] ∧ ∃ tl, bodies evs = map event_text tl ∧ completed suffix sh c req st tl evs).
Proof.
  intros Hne. unfold finish_responses.
  set (truncated := _ && _). set (status := if truncated then "incomplete" else "completed").
  set (t0 := match rs_text st with Some b => _ | None => _ end).
  apply wp_bind, wp_Since. intros lat.
  set (cost := ResolveCostUSD _ _ _ _). set (t := set_CostUSD_t _ _). apply wp_bind, wp_emit.
  assert (no_raw (rev_sse (RCompleted (completed_json fmt_float sh req ("msg_" +:+ suffix) status cost st))).2) as Hb.
  { cbn [rev_sse snd]. apply jmap_no_raw, Forall_cons. split; [apply completed_no_raw|constructor]. }
  apply wp_bind. eapply wp_mono; [exact (close_items_ok suffix status st _ Hne Hb)|].
  intros [] evs ([Hs Hsp Htr] & es & Hbod & ->). unfold setCostTrailer. apply wp_bind, wp_write, wp_recordSpend.
  assert (traces evs = []) as Htr0 by (destruct (traces evs); [done|by apply Forall_cons in Htr as [[] _]]).
  assert (∀ l : list (string * float64), statuses ((fun '(k, x) => EvSpend k x) <$> l) = [] ∧
    bodies ((fun '(k, x) => EvSpend k x) <$> l) = [] ∧ traces ((fun '(k, x) => EvSpend k x) <$> l) = []) as Hl.
  { induction l as [|[k x] l IH]; [done|]. unfold statuses, bodies, traces in *. csimpl. exact IH. }
  destruct (Hl (spend_of h c cost)) as (Hl1 & Hl2 & Hl3).
  autorewrite with views. rewrite Hs, Hl1. split; [done|].
  eexists. rewrite Hbod, Hl2, !app_nil_r. split; [reflexivity|].
  exists status, cost, t. split; [done|]. autorewrite with views. rewrite Htr0, Hsp, Hl3, spends_of_spend. done.
Qed.

(** [C10] A client that accumulates the deltas of a streamed response is never misled.
    Every delta goes to an item that was announced, once, under an id of its own;
    what the client holds at the end is what the server has recorded, and that is
    the text and, call by call, the arguments of the upstream stream that served
    the request, in their order.  A completed response then closes every item with
    that same content, repeats it in the final output, and records one trace, with
    the cost that is also charged; a failed one ends in a failure event, records
    one trace of the failure and charges nothing. *)
Theorem responses_stream_consistent (c : reqCtx) (session : string) (req : ResponsesRequest)
    (chatReq : ChatCompletionRequest) (providers : list (Provider * string)) (s : gstate) :
  g_log s = [] → pickResponsesChain h (Model chatReq) = Some providers → providers ≠ [] →
  let evs := events (handleResponsesStream env h fmt_float c session true req chatReq) s in
  statuses evs = [200] ∧
  ∃ sh suffix mid tl st v,
    bodies evs = map event_text (RCreated sh :: mid ++ tl)%list ∧
    client_run empty_view mid = Some v ∧ shows suffix st v ∧ source providers st ∧
    ((∃ err t, tl = [RFailed sh err] ∧ traces evs = [t] ∧ ErrorType t = "stream_error" ∧ spends evs = []) ∨
     completed suffix sh c req st tl evs).
Proof.
  intros Hs Hp Hne. cbn zeta. destruct providers as [|[p0 fwd0] rest]; [done|].
  apply (wp_run _ (fun _ evs => statuses evs = [200] ∧ ∃ sh suffix mid tl st v,
    bodies evs = map event_text (RCreated sh :: mid ++ tl)%list ∧
    client_run empty_view mid = Some v ∧ shows suffix st v ∧ source ((p0, fwd0) :: rest) st ∧
    ((∃ err t, tl = [RFailed sh err] ∧ traces evs = [t] ∧ ErrorType t = "stream_error" ∧ spends evs = []) ∨
     completed suffix sh c req st tl evs))); [done|].
  unfold handleResponsesStream. rewrite Hp. cbn [negb].
  apply wp_bind, wp_NewString. intros suffix. apply wp_bind, wp_now. intros created.
  set (sh := mkShell _ _ _). apply wp_bind, wp_write, wp_bind.
  assert (wps (emit_rev (RCreated sh)) (fun _ es => es = [RCreated sh])) as H0 by (by apply wps_rev).
  eapply wp_mono; [exact H0|]. intros [] evs0 ([Hs0 Hsp0 Ht0] & es0 & Hb0 & ->).
  apply wp_bind, wp_now. intros start. apply wp_bind, wp_newTrace. intros t _ _ _ _ _. apply wp_bind.
  eapply wp_mono; [apply open_providers_ok|].
  intros [[trace st] failed] evs1 ([Hs1 Hsp1 Ht1] & es1 & Hb1 & Hsrc & mid & Hf & Hes).
  assert (∀ l : list Trace, Forall (fun _ => False) l → l = []) as Hnil by (intros [|x l] Hl; [done|by apply Forall_cons in Hl as [[] _]]).
  apply Hnil in Ht0, Ht1. destruct (Hf _ (shows_empty suffix)) as (v & Hrun & Hsh).
  destruct failed.
  - destruct Hes as (err & -> & Het). apply wp_emit. autorewrite with views. rewrite Hs0, Hs1. split; [done|].
    exists sh, suffix, mid, [RFailed sh err], st, v. rewrite Hb0, Hb1. split; [by rewrite app_nil_r|].
    do 3 (split; [done|]). left. exists err, trace. rewrite Hsp0, Hsp1, Ht0, Ht1. done.
  - subst es1. eapply wp_mono; [apply finish_responses_ok, Hsh|].
    intros [] evs2 (Hs2 & tl & Hb2 & status & cost & t' & Htl & Ht2 & Hst & Hc & Hsp2).
    autorewrite with views. rewrite Hs0, Hs1, Hs2. split; [done|].
    exists sh, suffix, mid, tl, st, v. rewrite Hb0, Hb1, Hb2. split.
    { cbn. by rewrite map_app. }
    do 3 (split; [done|]). right. exists status, cost, t'.
    autorewrite with views. rewrite Ht0, Ht1, Ht2, Hsp0, Hsp1, Hsp2. done.
Qed.
End StreamProps.

(** ** Concrete runs *)

Definition demo_responses_req (tools : list Tool) : ResponsesRequest :=
  mkResponsesReq "team" (J "'hi'") "" None None None true tools "" None "" "" "" "" None.

Lemma responses_stream_consistent_witness :
  let m := handleResponsesStream (stream_env mixed) (demo_handler None false) (fun _ => "0") demo_ctx "" true
             (demo_responses_req []) (demo_req true None) in
  let evs := events m demo_state in
  statuses evs = [200] ∧
  ∃ sh suffix mid tl st v,
    bodies evs = map event_text (RCreated sh :: mid ++ tl)%list ∧
    client_run empty_view mid = Some v ∧ shows suffix st v ∧ source (stream_env mixed) [(down, "a"); (up, "b")] st ∧
    ((∃ err t, tl = [RFailed sh err] ∧ traces evs = [t] ∧ ErrorType t = "stream_error" ∧ spends evs = []) ∨
     completed (demo_handler None false) (fun _ => "0") suffix sh demo_ctx (demo_responses_req []) st tl evs).
Proof.
  apply (responses_stream_consistent (stream_env mixed) (demo_handler None false) (fun _ => "0") demo_ctx ""
    (demo_responses_req []) (demo_req true None) [(down, "a"); (up, "b")] demo_state);
    [reflexivity|vm_compute; reflexivity|discriminate].
Defined.

Definition demo_shell : shell := mkShell "resp_uuid" "team" 0.

(** The events of the run above. *)
Example mixed_response :
  let st := mkRS (Some "Hello") {[0 := mkCall "function_call" "fc_uuid_0" "call_uuid" false "f" 1 "{}"]} [0] None "" in
  bodies (events (handleResponsesStream (stream_env mixed) (demo_handler None false) (fun _ => "0") demo_ctx "" true
    (demo_responses_req []) (demo_req true None)) demo_state) =
  map event_text
    ([RCreated demo_shell; RTextAdded "msg_uuid"; RTextDelta "msg_uuid" "Hel"; RTextDelta "msg_uuid" "lo";
      RCallAdded (mkCall "function_call" "fc_uuid_0" "call_uuid" false "f" 1 "");
      RArgsDelta "fc_uuid_0" 1 "{"; RArgsDelta "fc_uuid_0" 1 "}"] ++
     done_events "uuid" "incomplete" st ++
     [RCompleted (completed_json (fun _ => "0") demo_shell (demo_responses_req []) "msg_uuid" "incomplete" fzero st)])%list.
Proof. vm_compute. reflexivity. Qed.

(** When no provider opens a stream the client is told that the response is
    complete, and the trace says 200. *)
Example responses_failure_is_completed :
  let evs := events (handleResponsesStream failing_env (demo_handler None false) (fun _ => "0") demo_ctx "" true
    (demo_responses_req []) (demo_req true None)) demo_state in
  bodies evs = map event_text
    [RCreated demo_shell;
     RCompleted (completed_json (fun _ => "0") demo_shell (demo_responses_req []) "msg_uuid" "completed" fzero no_items)] ∧
  map (fun t => (StatusCode t, ErrorType t)) (traces evs) = [(200, "upstream_error_failover")].
Proof. split; vm_compute; reflexivity. Qed.

(** The tools of the request come back as the base64 text of their JSON. *)
Example tools_come_back_as_base64 :
  Contains (Marshal (completed_json (fun _ => "0") demo_shell
      (demo_responses_req [mkTool "function" (J "{'name':'f'}") ""])
      "msg_uuid" "completed" fzero no_items))
    (J "'tools':'W3sidHlwZSI6ImZ1bmN0aW9uIiwiZnVuY3Rpb24iOnsibmFtZSI6ImYifX1d'") = true.
Proof. vm_compute. reflexivity. Qed.
