(* ===== verification/Endpoints.v ===== *)
(** * Endpoints: src/internal/gateway (embeddings.go, moderations.go, images.go)

    The three handlers in front of a capability of the registry: decode, check,
    resolve a provider, look the caller's key up, call, answer.  A run is the
    calls it made, what it wrote and the credential cache it leaves.  The
    providers' answers are parameters, [Ok] with the JSON text of the response;
    [order] is the order in which the registry's map is visited and [json_error]
    the text of a decoding error. *)

From S2P Require Import Prelude GoString Float64 GoTime ApiErr Balancer Registry Pricing.
From S2P Require Import Credentials Guardrails SemCache GwTypes Middleware Gateway.
From S2P Require Import Net Json Wire Messages.
Local Open Scope string_scope.
Local Open Scope go_scope.
Local Open Scope Z_scope.

Record EmbeddingRequest := mkEmbReq {
  em_Model : string; em_Input : string; em_EncodingFormat : string; em_User : string; em_Dimensions : option Z
}.
Record ModerationRequest := mkModReq { mo_Model : string; mo_Input : string; mo_User : string }.
Record ImageGenerationRequest := mkImgReq {
  im_Model : string; im_Prompt : string; im_N : option Z; im_Quality : string; im_Size : string;
  im_ResponseFormat : string; im_User : string; im_Style : string; im_Background : string
}.

Definition decode_embedding (body : string) : option EmbeddingRequest :=
  ok_or (DecodeFirst (fun raw _ =>
    let '(ms, e) := struct_members raw in
    fill m := field "model" st_string "" ms in
    fill i := field "input" st_raw "" ms in
    fill f := field "encoding_format" st_string "" ms in
    fill u := field "user" st_string "" ms in
    fill d := field "dimensions" (st_ptr 0 st_int) None ms in (mkEmbReq m i f u d, e))
    (mkEmbReq "" "" "" "" None) body).

Definition decode_moderation (body : string) : option ModerationRequest :=
  ok_or (DecodeFirst (fun raw _ =>
    let '(ms, e) := struct_members raw in
    fill m := field "model" st_string "" ms in
    fill i := field "input" st_raw "" ms in
    fill u := field "user" st_string "" ms in (mkModReq m i u, e)) (mkModReq "" "" "") body).

Definition decode_image (body : string) : option ImageGenerationRequest :=
  ok_or (DecodeFirst (fun raw _ =>
    let '(ms, e) := struct_members raw in
    fill m := field "model" st_string "" ms in
    fill p := field "prompt" st_string "" ms in
    fill n := field "n" (st_ptr 0 st_int) None ms in
    fill q := field "quality" st_string "" ms in
    fill s := field "size" st_string "" ms in
    fill f := field "response_format" st_string "" ms in
    fill u := field "user" st_string "" ms in
    fill st := field "style" st_string "" ms in
    fill b := field "background" st_string "" ms in (mkImgReq m p n q s f u st b, e))
    (mkImgReq "" "" None "" "" "" "" "" "") body).

(** [len(input) == 0] or JSON null. *)
Definition no_input (raw : string) : bool := String.eqb raw "" || String.eqb (TrimSpace raw) "null".

Record side_run (R : Type) := mkSide {
  sd_calls : list (Provider * option CallerCredential * R);
  sd_writes : list wcall;
  sd_cred : CredentialResolver
}.
Arguments mkSide {R}.
Arguments sd_calls {R}.
Arguments sd_writes {R}.
Arguments sd_cred {R}.

Section Side.
Context (caps : Provider → Caps) (h : GwHandler) (encode_error : string → string → string)
  (json_error : string → string).

(** The key of the caller, when the store has one. *)
Definition side_credential (c : reqCtx) (name : string) (cr : CredentialResolver) (t1 t2 : Time)
    (answer : res string (ResolvedCredential * bool)) : option CallerCredential * CredentialResolver :=
  if uses_caller_keys h then
    let '(r, cr', _) := Credentials.Resolve cr (ctx_OrgID c) (ctx_UserID c) name t1 t2 answer in
    (match r with
     | Ok (cred, true) => Some (mkCaller (rc_Secret cred) (rc_BaseURL cred) (rc_Source cred))
     | _ => None
     end, cr')
  else (None, cr).

Definition refuse {R} (c : reqCtx) (cr : CredentialResolver) (status : Z) (errType msg : string) : side_run R :=
  mkSide [] (writeError encode_error c status errType msg) cr.

(** From the credential look-up on. *)
Definition side_call {R} (c : reqCtx) (what : string) (p : Provider) (req : R) (cr : CredentialResolver)
    (t1 t2 : Time) (answer : res string (ResolvedCredential * bool))
    (call : Provider → option CallerCredential → R → res string string) : side_run R :=
  let '(cred, cr') := side_credential c (p_name p) cr t1 t2 answer in
  mkSide [(p, cred, req)]
    (match call p cred req with
     | Err e => writeError encode_error c 502 "upstream_error" (what +:+ " upstream error: " +:+ e)
     | Ok body => [SetHeader "Content-Type" "application/json"; WriteHeader 200; Write (body +:+ newline)]
     end) cr'.

Definition Embeddings (c : reqCtx) (order : list Provider) (body : string) (cr : CredentialResolver)
    (t1 t2 : Time) (answer : res string (ResolvedCredential * bool))
    (embed : Provider → option CallerCredential → EmbeddingRequest → res string string) : side_run EmbeddingRequest :=
  match decode_embedding body with
  | None => refuse c cr 400 "invalid_request_error" ("invalid JSON body: " +:+ json_error body)
  | Some req =>
      if String.eqb (em_Model req) "" then refuse c cr 400 "invalid_request_error" "model is required"
      else if no_input (em_Input req) then refuse c cr 400 "invalid_request_error" "input is required"
      else
        match ResolveEmbedding caps order (em_Model req) with
        | None => refuse c cr 404 "model_not_found" ("no embeddings provider registered for model " +:+ em_Model req)
        | Some p =>
            if negb (String.eqb (em_EncodingFormat req) "") && negb (String.eqb (em_EncodingFormat req) "float") &&
               negb (String.eqb (em_EncodingFormat req) "base64")
            then refuse c cr 400 "invalid_request_error" (J "encoding_format must be 'float' or 'base64'")
            else side_call c "embeddings" p req cr t1 t2 answer embed
        end
  end.

Definition Moderations (c : reqCtx) (order : list Provider) (body : string) (cr : CredentialResolver)
    (t1 t2 : Time) (answer : res string (ResolvedCredential * bool))
    (moderate : Provider → option CallerCredential → ModerationRequest → res string string) :
    side_run ModerationRequest :=
  match decode_moderation body with
  | None => refuse c cr 400 "invalid_request_error" ("invalid JSON body: " +:+ json_error body)
  | Some req =>
      if no_input (mo_Input req) then refuse c cr 400 "invalid_request_error" "input is required"
      else
        match ResolveModeration caps order (mo_Model req) with
        | None => refuse c cr 404 "model_not_found" ("no moderation provider registered for model " +:+ mo_Model req)
        | Some (p, resolved) =>
            let req := if String.eqb (mo_Model req) "" then mkModReq resolved (mo_Input req) (mo_User req) else req in
            side_call c "moderation" p req cr t1 t2 answer moderate
        end
  end.

Definition Images (c : reqCtx) (order : list Provider) (body : string) (cr : CredentialResolver)
    (t1 t2 : Time) (answer : res string (ResolvedCredential * bool))
    (generate : Provider → option CallerCredential → ImageGenerationRequest → res string string) :
    side_run ImageGenerationRequest :=
  match decode_image body with
  | None => refuse c cr 400 "invalid_request_error" ("invalid JSON body: " +:+ json_error body)
  | Some req =>
      if String.eqb (TrimSpace (im_Prompt req)) "" then refuse c cr 400 "invalid_request_error" "prompt is required"
      else
        match ResolveImage caps order (im_Model req) with
        | None => refuse c cr 404 "model_not_found" ("no image provider registered for model " +:+ im_Model req)
        | Some (p, resolved) =>
            let req :=
              if String.eqb (im_Model req) "" then
                mkImgReq resolved (im_Prompt req) (im_N req) (im_Quality req) (im_Size req) (im_ResponseFormat req)
                  (im_User req) (im_Style req) (im_Background req)
              else req in
            side_call c "image generation" p req cr t1 t2 answer generate
        end
  end.
End Side.

(** * Theorems *)

Definition side_status {R} (r : side_run R) : list Z :=
  omap (fun w => match w with WriteHeader n => Some n | _ => None end) (sd_writes r).

(** What a run may look like: refused before any call, or one call that satisfies
    [ok], answered with 200 or 502; only a gateway that uses callers' keys sends
    one. *)
Definition one_call {R} (h : GwHandler) (cr : CredentialResolver) (ok : Provider → R → Prop) (r : side_run R) : Prop :=
  (sd_calls r = [] ∧ sd_cred r = cr ∧ (side_status r = [400] ∨ side_status r = [404])) ∨
  (∃ p cred q, sd_calls r = [(p, cred, q)] ∧ ok p q ∧ (side_status r = [200] ∨ side_status r = [502]) ∧
     (uses_caller_keys h = false → cred = None ∧ sd_cred r = cr)).

(** The provider serves the model under its bare name, or under its name prefixed
    with the provider's. *)
Definition serves (ms : option (list string)) (p : Provider) (model : string) : Prop :=
  ∃ l, ms = Some l ∧
    (model ∈ l ∨ ∃ rest, Cut model "/" = Some (p_name p, rest) ∧ rest ∈ l).

Lemma find_Some_mem {A} (f : A → bool) l a : find f l = Some a → a ∈ l ∧ f a = true.
Proof. intros H. apply find_some in H as [H1 H2]. split; [by apply list_elem_of_In|done]. Qed.

Ltac served :=
  repeat match goal with
  | H : find_provider _ _ = Some _ |- _ => apply find_provider_Some in H as (? & ? & ?)
  | H : find _ _ = Some _ |- _ => apply find_Some_mem in H as [? ?]
  | H : context [match ?x with _ => _ end] |- _ => destruct x eqn:?; try discriminate
  | H : Some _ = Some _ |- _ => injection H; clear H; intros; subst
  | H : _ && _ = true |- _ => apply andb_prop in H as [? ?]
  | H : _ || _ = true |- _ => apply orb_prop in H
  | H : mem _ _ = true |- _ => apply bool_decide_eq_true in H
  | H : String.eqb _ _ = true |- _ => apply String.eqb_eq in H; subst
  end.

Lemma resolved_embedding caps order model p :
  ResolveEmbedding caps order model = Some p → p ∈ order ∧ serves (EmbeddingModels (caps p)) p model.
Proof. unfold ResolveEmbedding, serves. intros H. served; split; eauto 8. Qed.

Lemma resolved_moderation caps order model p m :
  ResolveModeration caps order model = Some (p, m) →
  p ∈ order ∧ serves (ModerationModels (caps p)) p (if String.eqb model "" then m else model).
Proof.
  unfold ResolveModeration, serves. intros H. apply find_provider_Some in H as (q & Hin & H).
  destruct (ModerationModels (caps q)) as [ms|] eqn:Em; [|done].
  destruct (find _ ms) as [x|] eqn:Ef.
  - injection H as <- <-. apply find_Some_mem in Ef as [Hx Hm]. split; [done|]. exists ms. split; [done|]. left.
    destruct (String.eqb_spec model "") as [->|]; [done|]. by apply String.eqb_eq in Hm as ->.
  - destruct (String.eqb_spec model "") as [->|]; [by vm_compute in H|]. served. eauto 8.
Qed.

Lemma resolved_image caps order model p m :
  ResolveImage caps order model = Some (p, m) →
  p ∈ order ∧ serves (ImageModels (caps p)) p (if String.eqb model "" then m else model).
Proof.
  unfold ResolveImage, serves. intros H.
  destruct (Cut model "/") as [[name rest]|] eqn:Ec.
  - served. split; [done|]. destruct (String.eqb_spec model "") as [->|]; [by vm_compute in Ec|]. eauto 8.
  - served; (split; [done|]); eexists; (split; [eassumption|]); left; [by left|done].
Qed.

Section Theorems.
Context (caps : Provider → Caps) (h : GwHandler) (encode_error : string → string → string)
  (json_error : string → string).

Lemma refuse_one_call {R} c cr n ty msg (ok : Provider → R → Prop) :
  n = 400 ∨ n = 404 → one_call h cr ok (refuse encode_error c cr n ty msg).
Proof.
  intros Hn. left. unfold refuse, side_status, writeError. cbn [sd_calls sd_cred sd_writes].
  split; [done|]. split; [done|]. rewrite omap_app. destruct Hn as [-> | ->]; [left|right]; by case_match.
Qed.

Lemma side_call_one_call {R} c what p q cr t1 t2 answer call (ok : Provider → R → Prop) :
  ok p q → one_call h cr ok (side_call h encode_error c what p q cr t1 t2 answer call).
Proof.
  intros Hok. right. unfold side_call. destruct (side_credential h c (p_name p) cr t1 t2 answer) as [cred cr'] eqn:Ec.
  exists p, cred, q. split; [done|]. split; [done|]. split.
  - unfold side_status. cbn [sd_writes]. destruct (call p cred q); [by left|right].
    unfold writeError. rewrite omap_app. by case_match.
  - intros Hu. unfold side_credential in Ec. rewrite Hu in Ec. by injection Ec as <- <-.
Qed.

(** The embeddings, moderations and images endpoints call at most one provider,
    once: a request that does not decode, lacks its input or names an unserved
    model is refused with 400 or 404, without a call and with the credential cache
    untouched; any other is passed on to a registered provider that serves its
    model for this capability, and answered with that provider's 200 or with 502.
    An omitted model is filled in; the model is otherwise sent as the caller wrote
    it, a provider prefix included. *)
Theorem endpoints_call_once (c : reqCtx) (order : list Provider) (body : string) (cr : CredentialResolver)
    (t1 t2 : Time) (answer : res string (ResolvedCredential * bool)) embed moderate generate :
  one_call h cr (fun p q => p ∈ order ∧ decode_embedding body = Some q ∧ em_Model q ≠ "" ∧
      no_input (em_Input q) = false ∧ serves (EmbeddingModels (caps p)) p (em_Model q))
    (Embeddings caps h encode_error json_error c order body cr t1 t2 answer embed) ∧
  one_call h cr (fun p q => p ∈ order ∧ no_input (mo_Input q) = false ∧
      serves (ModerationModels (caps p)) p (mo_Model q) ∧
      ∃ q0, decode_moderation body = Some q0 ∧ mo_Input q = mo_Input q0 ∧ mo_User q = mo_User q0 ∧
            (mo_Model q0 ≠ "" → q = q0))
    (Moderations caps h encode_error json_error c order body cr t1 t2 answer moderate) ∧
  one_call h cr (fun p q => p ∈ order ∧ TrimSpace (im_Prompt q) ≠ "" ∧
      serves (ImageModels (caps p)) p (im_Model q) ∧
      ∃ q0, decode_image body = Some q0 ∧ im_Prompt q = im_Prompt q0 ∧ (im_Model q0 ≠ "" → q = q0))
    (Images caps h encode_error json_error c order body cr t1 t2 answer generate).
Proof.
  split; [|split].
  - unfold Embeddings. destruct (decode_embedding body) as [q|] eqn:Ed; [|apply refuse_one_call; auto].
    destruct (String.eqb_spec (em_Model q) ""); [apply refuse_one_call; auto|].
    destruct (no_input (em_Input q)) eqn:En; [apply refuse_one_call; auto|].
    destruct (ResolveEmbedding _ _ _) as [p|] eqn:Er; [|apply refuse_one_call; auto].
    case_match; [apply refuse_one_call; auto|]. apply resolved_embedding in Er as [? ?].
    by apply side_call_one_call.
  - unfold Moderations. destruct (decode_moderation body) as [q|] eqn:Ed; [|apply refuse_one_call; auto].
    destruct (no_input (mo_Input q)) eqn:En; [apply refuse_one_call; auto|].
    destruct (ResolveModeration _ _ _) as [[p m]|] eqn:Er; [|apply refuse_one_call; auto].
    apply resolved_moderation in Er as [? ?]. apply side_call_one_call.
    destruct (String.eqb_spec (mo_Model q) ""); (split; [done|]; split; [done|]; split; [done|]); by exists q.
  - unfold Images. destruct (decode_image body) as [q|] eqn:Ed; [|apply refuse_one_call; auto].
    destruct (String.eqb_spec (TrimSpace (im_Prompt q)) "") as [|En]; [apply refuse_one_call; auto|].
    destruct (ResolveImage _ _ _) as [[p m]|] eqn:Er; [|apply refuse_one_call; auto].
    apply resolved_image in Er as [? ?]. apply side_call_one_call.
    destruct (String.eqb_spec (im_Model q) ""); (split; [done|]; split; [done|]; split; [done|]); by exists q.
Qed.
End Theorems.
