(* ===== verification/Sse.v ===== *)
(** * Sse: src/internal/gateway/providers (openai.go), the server-sent events

    How an upstream body becomes the events of the streaming channel: the line
    scanner of [bufio], the decoding of a chunk, the parser that re-serialises
    and the one that passes bytes through.  A body is its text and the error
    that ended it, [None] at a regular end; the channel is the list of what was
    sent on it. *)

From S2P Require Import Prelude GoString Float64 Pricing GwTypes Net Json JsonFacts Wire.
Local Open Scope string_scope.
Local Open Scope go_scope.

(** ** Decoding chunks and responses *)

Definition st_prompt_details : store PromptTokenDetails := fun raw old =>
  let '(ms, e) := struct_members raw in
  fill c := field "cached_tokens" st_int (CachedTokens old) ms in
  fill t := field "text_tokens" st_int (pd_TextTokens old) ms in
  fill a := field "audio_tokens" st_int (pd_AudioTokens old) ms in
  fill i := field "image_tokens" st_int (pd_ImageTokens old) ms in
  (mkPromptDetails c t a i, e).

Definition st_completion_details : store CompletionTokenDetails := fun raw old =>
  let '(ms, e) := struct_members raw in
  fill r := field "reasoning_tokens" st_int (ReasoningTokens old) ms in
  fill t := field "text_tokens" st_int (cd_TextTokens old) ms in
  fill a := field "audio_tokens" st_int (cd_AudioTokens old) ms in
  fill acc := field "accepted_prediction_tokens" st_int (AcceptedPredictionTokens old) ms in
  fill rej := field "rejected_prediction_tokens" st_int (RejectedPredictionTokens old) ms in
  (mkCompletionDetails r t a acc rej, e).

Definition no_usage : Usage := mkUsage 0 0 0 fzero fzero None None.

Definition st_usage : store Usage := fun raw old =>
  let '(ms, e) := struct_members raw in
  fill p := field "prompt_tokens" st_int (PromptTokens old) ms in
  fill c := field "completion_tokens" st_int (CompletionTokens old) ms in
  fill t := field "total_tokens" st_int (TotalTokens old) ms in
  fill est := field "estimated_cost" st_float (EstimatedCost old) ms in
  fill cost := field "cost_usd" st_float (CostUSD_reported old) ms in
  fill pd := field "prompt_tokens_details" (st_ptr (mkPromptDetails 0 0 0 0) st_prompt_details) (PromptDetails old) ms in
  fill cd := field "completion_tokens_details" (st_ptr (mkCompletionDetails 0 0 0 0 0) st_completion_details)
               (CompletionDetails old) ms in
  (mkUsage p c t est cost pd cd, e).

(** [Delta], spread over the choice. *)
Definition st_delta : store (string * string * list ToolCall) := fun raw old =>
  let '(ms, e) := struct_members raw in
  fill role := field "role" st_string old.1.1 ms in
  fill content := field "content" st_string old.1.2 ms in
  fill calls := field "tool_calls" (st_list zero_call (st_own ToolCall_UnmarshalJSON)) old.2 ms in
  ((role, content, calls), e).

Definition st_chunk_choice : store ChunkChoice := fun raw old =>
  let '(ms, e) := struct_members raw in
  fill i := field "index" st_int (cc_Index old) ms in
  fill d := field "delta" st_delta (cc_Role old, cc_Content old, cc_ToolCalls old) ms in
  fill f := field "finish_reason" st_string (cc_FinishReason old) ms in
  (mkChunkChoice i d.1.1 d.1.2 d.2 f, e).

Definition st_chunk : store ChatCompletionChunk := fun raw _ =>
  let '(ms, e) := struct_members raw in
  fill id := field "id" st_string "" ms in
  fill obj := field "object" st_string "" ms in
  fill created := field "created" st_int 0%Z ms in
  fill model := field "model" st_string "" ms in
  fill choices := field "choices" (st_list (mkChunkChoice 0 "" "" [] "") st_chunk_choice) [] ms in
  fill usage := field "usage" (st_ptr no_usage st_usage) None ms in
  (mkChunk id obj created model choices usage, e).

Definition decode_chunk (data : string) : option ChatCompletionChunk :=
  ok_or (Unmarshal st_chunk (mkChunk "" "" 0 "" [] None) data).

Definition st_choice : store Choice := fun raw old =>
  let '(ms, e) := struct_members raw in
  fill i := field "index" st_int (c_Index old) ms in
  fill m := field "message" (st_own Message_UnmarshalJSON) (c_Message old) ms in
  fill f := field "finish_reason" st_string (c_FinishReason old) ms in
  (mkChoice i m f, e).

(** The first value of an answer's body. *)
Definition decode_response (body : string) : option ChatCompletionResponse :=
  ok_or (DecodeFirst (fun raw _ =>
    let '(ms, e) := struct_members raw in
    fill id := field "id" st_string "" ms in
    fill obj := field "object" st_string "" ms in
    fill created := field "created" st_int 0%Z ms in
    fill model := field "model" st_string "" ms in
    fill choices := field "choices" (st_list (mkChoice 0 zero_message "") st_choice) [] ms in
    fill usage := field "usage" st_usage no_usage ms in
    (mkResp id obj created model choices usage, e)) (mkResp "" "" 0 "" [] no_usage) body).

(** ** [bufio.Scanner] over lines, with a buffer of at most a megabyte *)

Fixpoint raw_lines (s : string) : list string :=
  match s with
  | "" => []
  | String c s' =>
      if (code c =? 10)%nat then "" :: raw_lines s'
      else match raw_lines s' with
           | [] => [String c ""]
           | l :: ls => String c l :: ls
           end
  end.

Fixpoint drop_cr (l : string) : string :=
  match l with
  | "" => ""
  | String c "" => if (code c =? 13)%nat then "" else l
  | String c l' => String c (drop_cr l')
  end.

Definition max_token : N := 1048576.
Definition fits (l : string) : bool := (N.of_nat (String.length l) <? max_token)%N.

Fixpoint taken (ls : list string) : list string * bool :=
  match ls with
  | [] => ([], true)
  | l :: ls' => if fits l then let '(k, ok) := taken ls' in (drop_cr l :: k, ok) else ([], false)
  end.

(** The tokens, and [scanner.Err()]. *)
Definition scan (text : string) (err : option string) : list string * option string :=
  let '(ls, ok) := taken (raw_lines text) in
  (ls, if ok then err else Some "bufio.Scanner: token too long").

(** ** The parsers *)

Section Parsers.
Context (json_error : string → string).

Definition chunk_event (k : ChatCompletionChunk) : StreamEvent := mkStreamEvent (Some k) None None false.
Definition done_signal : StreamEvent := mkStreamEvent None None None true.
Definition err_event (e : string) : StreamEvent := mkStreamEvent None None (Some e) false.

(** The payload of a data line. *)
Definition data_of (line : string) : option string :=
  let line := TrimSpace line in
  if HasPrefix line "data:" then Some (TrimSpace (TrimPrefix line "data:")) else None.

Fixpoint openai_lines (ls : list string) (err : option string) : list StreamEvent :=
  match ls with
  | [] => match err with Some e => [err_event e] | None => [done_signal] end
  | l :: ls' =>
      match data_of l with
      | None => openai_lines ls' err
      | Some data =>
          if String.eqb data "[DONE]" then [done_signal]
          else match decode_chunk data with
               | None => [err_event ("decode chunk: " +:+ json_error data)]
               | Some k => chunk_event k :: openai_lines ls' err
               end
      end
  end.

Definition parseOpenAISSE (text : string) (err : option string) : list StreamEvent :=
  let '(ls, e) := scan text err in openai_lines ls e.

(** [sseEvent]: the lines of the event so far, each with its newline. *)
Definition writeLine (ev line : string) : string := ev +:+ line +:+ newline.
Definition flush (ev : string) : option string :=
  if String.eqb ev "" then None else Some (ev +:+ newline).

(** The errors of the body that are not reported.  An error of the body is its text;
    [io.EOF] and [io.ErrUnexpectedEOF], which the code tells by identity, are the two
    that read so. *)
Definition quiet_error (e : string) : bool := String.eqb e "EOF" || String.eqb e "unexpected EOF".

Definition final_error (err : option string) : list StreamEvent :=
  match err with Some e => if quiet_error e then [] else [err_event e] | None => [] end.

(** The payload of the first data line of a raw event. *)
Fixpoint first_data (ls : list string) : string :=
  match ls with
  | [] => ""
  | l :: ls' => if HasPrefix l "data:" then TrimSpace (drop_bytes 5 l) else first_data ls'
  end.

Definition raw_event (raw : string) : StreamEvent :=
  let data := first_data (Split raw (byte 10)) in
  if String.eqb data "" then mkStreamEvent None (Some raw) None false
  else if String.eqb data "[DONE]" then mkStreamEvent None (Some raw) None false
  else match decode_chunk data with
       | None => mkStreamEvent None (Some raw) (Some ("decode chunk: " +:+ json_error data)) false
       | Some k => mkStreamEvent (Some k) (Some raw) None false
       end.

(** Both raw scanners: [emit] is what they send for a flushed event. *)
Fixpoint raw_scan (emit : string → StreamEvent) (ev : string) (ls : list string) : list StreamEvent :=
  match ls with
  | [] => []
  | l :: ls' =>
      if String.eqb (TrimSpace l) "" then
        match flush ev with
        | Some raw => emit raw :: raw_scan emit "" ls'
        | None => raw_scan emit "" ls'
        end
      else raw_scan emit (writeLine ev l) ls'
  end.

Definition parseOpenAISSEWithRaw (text : string) (err : option string) : list StreamEvent :=
  let '(ls, e) := scan text err in (raw_scan raw_event "" ls ++ final_error e)%list.

Definition scanOpenAISSERaw (text : string) (err : option string) : list StreamEvent :=
  let '(ls, e) := scan text err in
  (raw_scan (fun raw => mkStreamEvent None (Some raw) None false) "" ls ++ final_error e)%list.
End Parsers.

(** * Theorems *)

Fixpoint no_newline (s : string) : bool :=
  match s with "" => true | String c s' => negb (code c =? 10)%nat && no_newline s' end.

Definition cr : string := String (byte 13) "".

(** A line of an event on the wire: its text and whether a carriage return ends it. *)
Definition wire_line (l : string * bool) : string := l.1 +:+ (if l.2 then cr else "").

(** Not blank, one line, and short enough for the scanner. *)
Definition clean_line (l : string * bool) : Prop :=
  no_newline l.1 = true ∧ (l.2 = false → drop_cr l.1 = l.1) ∧ fits (wire_line l) = true ∧ TrimSpace l.1 ≠ "".

(** A line that separates events: nothing but white space. *)
Definition blank_line (b : string) : Prop :=
  no_newline b = true ∧ fits b = true ∧ TrimSpace (drop_cr b) = "".

Definition with_newlines (ls : list string) : string := concat_s (map (fun l => l +:+ newline) ls).

(** An event on the wire: its lines and the blank ones that end it. *)
Definition wire := (list (string * bool) * list string)%type.
Definition good_event (e : wire) : Prop :=
  e.1 ≠ [] ∧ e.2 ≠ [] ∧ Forall clean_line e.1 ∧ Forall blank_line e.2.
Definition event_lines (e : wire) : list string := (map wire_line e.1 ++ e.2)%list.
Definition wire_event (e : wire) : string := with_newlines (event_lines e).

(** The event as it is passed on: its lines ended by line feeds, one blank line. *)
Definition forwarded (e : wire) : string := with_newlines (map fst e.1) +:+ newline.

(** What is left after the last line feed: nothing, or the start of a line. *)
Definition clean_part (l : string) : Prop :=
  no_newline l = true ∧ fits l = true ∧ (l = "" ∨ TrimSpace (drop_cr l) ≠ "").

(** Line feeds alone, one empty line at the end. *)
Definition plain_event (e : wire) : Prop := Forall (fun l => l.2 = false) e.1 ∧ e.2 = [""].

Lemma plain_forwarded e : plain_event e → forwarded e = wire_event e.
Proof.
  destruct e as [ls bs]. intros [Hl Hb]. cbn in Hl, Hb. subst bs. unfold forwarded, wire_event, event_lines. cbn [fst snd].
  induction Hl as [|[l c] ls Hc _ IH]; [done|]. cbn in Hc. subst c. unfold with_newlines in *. cbn in *.
  change (foldr String.append "") with concat_s in *. unfold wire_line. cbn.
  by rewrite app_nil_r_string, app_assoc_string, IH.
Qed.

Lemma raw_lines_line l rest : no_newline l = true → raw_lines (l +:+ newline +:+ rest) = l :: raw_lines rest.
Proof.
  induction l as [|c l IH]; [done|]. cbn [no_newline]. intros [Hc Hl]%andb_prop.
  rewrite append_cons. cbn [raw_lines]. apply negb_true_iff in Hc. rewrite Hc. by rewrite IH.
Qed.

Lemma raw_lines_lines ls rest :
  Forall (fun l => no_newline l = true) ls → raw_lines (with_newlines ls +:+ rest) = (ls ++ raw_lines rest)%list.
Proof.
  induction 1 as [|l ls Hl _ IH]; [done|]. unfold with_newlines in *. cbn.
  change (foldr String.append "") with concat_s in *.
  rewrite app_assoc_string, app_assoc_string, raw_lines_line by done. by rewrite IH.
Qed.

Lemma no_newline_wire l : clean_line l → no_newline (wire_line l) = true.
Proof.
  destruct l as [l b]. intros (Hl & _). unfold wire_line. cbn in *. induction l as [|c l IH]; [by destruct b|].
  rewrite append_cons. cbn [no_newline] in *. apply andb_prop in Hl as [-> Hl]. by apply IH.
Qed.

Lemma drop_cr_cr l : drop_cr (l +:+ cr) = l.
Proof.
  induction l as [|c l IH]; [done|]. rewrite append_cons. cbn [drop_cr]. rewrite IH.
  destruct l; [done|]. by rewrite append_cons.
Qed.

Lemma drop_cr_wire l : clean_line l → drop_cr (wire_line l) = l.1.
Proof.
  destruct l as [l [|]]; unfold wire_line; cbn; intros (_ & Hd & _); [apply drop_cr_cr|].
  rewrite app_nil_r_string. by apply Hd.
Qed.

(** Every line of the text is a single one that fits. *)
Definition short_line (l : string) : Prop := no_newline l = true ∧ fits l = true.

Lemma short_lines (e : wire) : good_event e → Forall short_line (event_lines e).
Proof.
  intros (_ & _ & Hl & Hb). apply Forall_app. split.
  - apply Forall_map. eapply Forall_impl; [exact Hl|]. intros l Hc.
    split; [by apply no_newline_wire|apply Hc].
  - eapply Forall_impl; [exact Hb|]. by intros l (? & ? & _).
Qed.

Lemma taken_short ls : Forall short_line ls → taken ls = (map drop_cr ls, true).
Proof. induction 1 as [|l ls [_ Hf] _ IH]; [done|]. cbn. by rewrite Hf, IH. Qed.

Definition part_lines (l : string) : list string := if String.eqb l "" then [] else [l].

Lemma raw_lines_part l : no_newline l = true → raw_lines l = part_lines l.
Proof.
  induction l as [|c l IH]; [done|]. cbn [no_newline raw_lines]. intros [Hc Hl]%andb_prop.
  apply negb_true_iff in Hc. rewrite Hc, IH by done. unfold part_lines. by destruct l.
Qed.

Lemma scan_short ls part err :
  Forall short_line ls → clean_part part →
  scan (with_newlines ls +:+ part) err = (map drop_cr (ls ++ part_lines part)%list, err).
Proof.
  intros H (Hn & Hf & _). unfold scan. rewrite raw_lines_lines, raw_lines_part by
    (done || (eapply Forall_impl; [exact H|by intros l []])).
  rewrite taken_short; [done|]. apply Forall_app. split; [done|]. unfold part_lines.
  case_match; repeat constructor; done.
Qed.

Lemma with_newlines_app k l : with_newlines (k ++ l)%list = with_newlines k +:+ with_newlines l.
Proof.
  unfold with_newlines. induction k as [|x k IH]; [done|]. cbn in *.
  change (foldr String.append "") with concat_s in *. by rewrite IH, !app_assoc_string.
Qed.

Lemma with_newlines_events evs :
  concat_s (map wire_event evs) = with_newlines (concat (map event_lines evs)).
Proof.
  induction evs as [|e evs IH]; [done|]. cbn [map concat]. rewrite with_newlines_app, <- IH. done.
Qed.

Lemma raw_scan_lines emit ev ls rest :
  Forall clean_line ls →
  raw_scan emit ev (map drop_cr (map wire_line ls) ++ rest)%list = raw_scan emit (ev +:+ with_newlines (map fst ls)) rest.
Proof.
  intros H. revert ev. induction H as [|l ls Hc _ IH]; intros ev; cbn [map app].
  { by rewrite app_nil_r_string. }
  cbn [raw_scan]. rewrite drop_cr_wire by done. destruct Hc as (_ & _ & _ & Hb). apply String.eqb_neq in Hb.
  rewrite Hb, IH. unfold writeLine, with_newlines. cbn.
  change (foldr String.append "") with concat_s. by rewrite !app_assoc_string.
Qed.

Lemma raw_scan_blanks emit bs rest :
  Forall blank_line bs → raw_scan emit "" (map drop_cr bs ++ rest)%list = raw_scan emit "" rest.
Proof.
  induction 1 as [|b bs (_ & _ & Hb) _ IH]; [done|]. cbn [map app raw_scan].
  apply String.eqb_eq in Hb. rewrite Hb. exact IH.
Qed.

Lemma with_newlines_ne ls : ls ≠ [] → with_newlines ls ≠ "".
Proof. by destruct ls as [|[|c l] ls]. Qed.

Lemma raw_scan_events emit evs rest :
  Forall good_event evs →
  raw_scan emit "" (map drop_cr (concat (map event_lines evs)) ++ rest)%list =
  (map (fun e => emit (forwarded e)) evs ++ raw_scan emit "" rest)%list.
Proof.
  induction 1 as [|[ls bs] evs (Hne & Hbe & Hl & Hb) _ IH]; [done|]. cbn [fst snd] in *.
  destruct bs as [|b bs]; [done|]. apply Forall_cons in Hb as [(_ & _ & Hb0) Hb].
  cbn [map concat]. unfold event_lines at 1. cbn [fst snd].
  rewrite !map_app, <- !app_assoc, raw_scan_lines by done. cbn [map app raw_scan append].
  apply String.eqb_eq in Hb0. rewrite Hb0. unfold flush.
  assert (with_newlines (map fst ls) ≠ "") as Hw by (apply with_newlines_ne; by destruct ls).
  apply String.eqb_neq in Hw. rewrite append_nil_l, Hw, raw_scan_blanks by done. by rewrite IH.
Qed.

Lemma raw_event_raw json_error raw : ev_Raw (raw_event json_error raw) = Some raw.
Proof. unfold raw_event. by repeat case_match. Qed.

(** What follows the last event stays in the buffer. *)
Lemma raw_scan_tail emit tail part :
  Forall clean_line tail → clean_part part →
  raw_scan emit "" (map drop_cr (map wire_line tail) ++ map drop_cr (part_lines part))%list = [].
Proof.
  intros Ht (_ & _ & Hp). rewrite raw_scan_lines by done. unfold part_lines.
  destruct (String.eqb_spec part "") as [->|Hne]; [done|]. destruct Hp as [->|Hp]; [done|].
  cbn [map raw_scan]. apply String.eqb_neq in Hp. by rewrite Hp.
Qed.

(** [C15] Pass-through: of any upstream body whose lines are shorter than a megabyte, cut
    into events by blank lines (of whatever white space, with or without carriage
    returns), the parser sends one event each.  Its raw bytes are the event's lines,
    each ended by a line feed alone, and one empty line: a carriage return before a
    line feed is lost, so the client receives the very text of the upstream when it
    used line feeds and single empty lines.  What comes after the last blank line,
    complete lines and the start of one, is swallowed, and so is the error of a
    connection cut in the middle ([final_error]). *)
Theorem passthrough_exact (json_error : string → string) (lead : list string) (evs : list wire)
    (tail : list (string * bool)) (part : string) (err : option string) :
  Forall blank_line lead → Forall good_event evs → Forall clean_line tail → clean_part part →
  let text := with_newlines lead +:+ concat_s (map wire_event evs) +:+ with_newlines (map wire_line tail) +:+ part in
  let sent := parseOpenAISSEWithRaw json_error text err in
  sent = (map (fun e => raw_event json_error (forwarded e)) evs ++ final_error err)%list ∧
  concat_s (omap ev_Raw sent) = concat_s (map forwarded evs) ∧
  (Forall plain_event evs → concat_s (omap ev_Raw sent) = concat_s (map wire_event evs)).
Proof.
  intros Hb He Ht Hpart. cbn zeta.
  assert (Forall short_line (lead ++ concat (map event_lines evs) ++ map wire_line tail)%list) as Hshort.
  { rewrite !Forall_app. split_and!.
    - eapply Forall_impl; [exact Hb|]. by intros l (? & ? & _).
    - clear -He. induction He as [|e evs H _ IH]; [constructor|]. cbn. apply Forall_app. split; [by apply short_lines|done].
    - apply Forall_map. eapply Forall_impl; [exact Ht|]. intros l Hc. split; [by apply no_newline_wire|apply Hc]. }
  set (sent := parseOpenAISSEWithRaw _ _ _).
  assert (sent = (map (fun e => raw_event json_error (forwarded e)) evs ++ final_error err)%list) as Hsent.
  { subst sent. unfold parseOpenAISSEWithRaw.
    replace (with_newlines lead +:+ _) with
      (with_newlines (lead ++ concat (map event_lines evs) ++ map wire_line tail)%list +:+ part)
      by (by rewrite with_newlines_events, !with_newlines_app, !app_assoc_string).
    rewrite scan_short by done.
    rewrite !map_app, <- !app_assoc, raw_scan_blanks, raw_scan_events, raw_scan_tail by done. by rewrite app_nil_r. }
  assert (concat_s (omap ev_Raw sent) = concat_s (map forwarded evs)) as Hraw.
  { rewrite Hsent, omap_app. assert (omap ev_Raw (final_error err) = []) as ->.
    { unfold final_error. destruct err as [e|]; [|done]. by destruct (quiet_error e). }
    rewrite app_nil_r. f_equal. clear. induction evs as [|e evs IH]; [done|]. csimpl.
    rewrite raw_event_raw. by rewrite IH. }
  split_and!; [done..|]. intros Hp. rewrite Hraw. f_equal. clear -Hp.
  induction Hp as [|e evs H _ IH]; [done|]. cbn. by rewrite plain_forwarded, IH.
Qed.

Definition lf_lines (ls : list string) : wire := (map (fun l => (l, false)) ls, [""]).
Definition demo_lines : list wire :=
  [lf_lines [": ping"];
   lf_lines [J "data: {'id':'1','choices':[{'index':0,'delta':{'content':'hi'}}]}"];
   ([("event: x", true); ("data: [DONE]", true)], [cr; " "])].

Lemma passthrough_exact_witness :
  let text := with_newlines [""] +:+ concat_s (map wire_event demo_lines) +:+
    with_newlines (map wire_line [("data: {}", true)]) +:+ "data" in
  let sent := parseOpenAISSEWithRaw (fun _ => "bad") text (Some "unexpected EOF") in
  (sent = (map (fun e => raw_event (fun _ => "bad") (forwarded e)) demo_lines ++ final_error (Some "unexpected EOF"))%list ∧
   concat_s (omap ev_Raw sent) = concat_s (map forwarded demo_lines) ∧
   (Forall plain_event demo_lines → concat_s (omap ev_Raw sent) = concat_s (map wire_event demo_lines))) ∧
  map (fun e => (option_map (fun k => map cc_Content (k_Choices k)) (ev_Chunk e), ev_Err e, ev_Done e)) sent =
    [(None, None, false); (Some ["hi"], None, false); (None, None, false)].
Proof.
  split; [|vm_compute; reflexivity].
  apply (passthrough_exact (fun _ => "bad") [""] demo_lines [("data: {}", true)] "data" (Some "unexpected EOF")).
  - repeat constructor; vm_compute; reflexivity.
  - repeat constructor; try discriminate; vm_compute; try reflexivity; discriminate.
  - repeat constructor; vm_compute; try reflexivity; discriminate.
  - split_and!; [vm_compute; reflexivity..|right; vm_compute; discriminate].
Defined.

(** A carriage return before a line feed does not survive. *)
Example crlf_not_preserved :
  let e := ([("data: [DONE]", true)], [cr]) in
  omap ev_Raw (parseOpenAISSEWithRaw (fun _ => "bad") (wire_event e) None) =
    ["data: [DONE]" +:+ newline +:+ newline] ∧
  wire_event e ≠ "data: [DONE]" +:+ newline +:+ newline.
Proof. split; [vm_compute; reflexivity|vm_compute; discriminate]. Qed.

(** The parser that re-serialises does report both. *)
Example reserialising_parser_reports :
  map (fun e => (option_map k_ID (ev_Chunk e), ev_Err e))
    (parseOpenAISSE (fun _ => "bad") (J "data: {'id':'7'}") (Some "unexpected EOF")) =
  [(Some "7", None); (None, Some "unexpected EOF")].
Proof. vm_compute. reflexivity. Qed.
