(* ===== verification/Providers.v ===== *)
(** * Providers: src/internal/gateway/providers (openai.go, openai_compat.go, usercompat.go)

    The OpenAI-shaped adapters: the HTTP request each operation sends and what it
    makes of the answer.  An operation is the request it sent, if any, and its
    result.  [http.NewRequest]'s error on a URL and [http.Client.Do] are
    parameters, as are the texts of the errors of [encoding/json] and of formatted
    floats. *)

From S2P Require Import Prelude GoString Float64 Pricing Registry Credentials GwTypes.
From S2P Require Import Net Json JsonFacts Wire GoUrl Egress Endpoints Sse.
Local Open Scope string_scope.
Local Open Scope go_scope.

(** ** HTTP *)

Record HttpRequest := mkHttp { hq_URL : string; hq_Header : list (string * string); hq_Body : string }.

(** The body: its text, and the error its reader ends with. *)
Record HttpResponse := mkHttpResp { hs_Status : Z; hs_Body : string; hs_Err : option string }.

Record sent (A : Type) := mkSent { s_request : option HttpRequest; s_result : res string A }.
Arguments mkSent {A}.
Arguments s_request {A}.
Arguments s_result {A}.

(** [strings.TrimRight(s, "/")]. *)
Fixpoint TrimRightSlash (s : string) : string :=
  match s with
  | "" => ""
  | String c s' =>
      match TrimRightSlash s' with
      | "" => if (code c =? 47)%nat then "" else String c ""
      | t => String c t
      end
  end.

(** The key and base URL of a request: the caller's credential first. *)
Definition credentials_for (apiKey baseURL : string) (ctx : option CallerCredential) : string * string :=
  match CallerCredentialFrom ctx with
  | Some c => (cc_Secret c, if String.eqb (cc_BaseURL c) "" then baseURL else TrimRightSlash (cc_BaseURL c))
  | None => (apiKey, baseURL)
  end.

Definition providerError (provider : string) (r : HttpResponse) : string :=
  provider +:+ " upstream error (" +:+ pretty (hs_Status r) +:+ "): " +:+ TrimSpace (take_bytes (8 * 1024) (hs_Body r)).

(** ** Wire types of the optional capabilities *)

Record EmbeddingItem := mkEmbItem { ei_Object : string; ei_Index : Z; ei_Embedding : list float64 }.
Record EmbeddingResponse := mkEmbResp {
  er_Object : string; er_Data : list EmbeddingItem; er_Model : string; er_PromptTokens : Z; er_TotalTokens : Z
}.

Definition st_embedding_item : store EmbeddingItem := fun raw old =>
  let '(ms, e) := struct_members raw in
  fill o := field "object" st_string (ei_Object old) ms in
  fill i := field "index" st_int (ei_Index old) ms in
  fill v := field "embedding" (st_list fzero st_float32) (ei_Embedding old) ms in
  (mkEmbItem o i v, e).

Definition st_embedding_usage : store (Z * Z) := fun raw old =>
  let '(ms, e) := struct_members raw in
  fill p := field "prompt_tokens" st_int old.1 ms in
  fill t := field "total_tokens" st_int old.2 ms in ((p, t), e).

Definition zero_embedding_item : EmbeddingItem := mkEmbItem "" 0 [].

Definition st_embedding_response : store EmbeddingResponse := fun raw _ =>
  let '(ms, e) := struct_members raw in
  fill o := field "object" st_string "" ms in
  fill d := field "data" (st_list zero_embedding_item st_embedding_item) [] ms in
  fill m := field "model" st_string "" ms in
  fill u := field "usage" st_embedding_usage (0%Z, 0%Z) ms in
  (mkEmbResp o d m u.1 u.2, e).

Definition EmbeddingRequest_json (r : EmbeddingRequest) : json :=
  JObj ([("model", JStr (em_Model r)); ("input", JRaw (em_Input r))] ++
        omitempty "encoding_format" (em_EncodingFormat r) ++ omitempty "user" (em_User r) ++
        omitnil "dimensions" jint (em_Dimensions r))%list.

Definition ModerationRequest_json (r : ModerationRequest) : json :=
  JObj (omitempty "model" (mo_Model r) ++ [("input", JRaw (mo_Input r))] ++ omitempty "user" (mo_User r))%list.

Definition ImageGenerationRequest_json (r : ImageGenerationRequest) : json :=
  JObj (omitempty "model" (im_Model r) ++ [("prompt", JStr (im_Prompt r))] ++ omitnil "n" jint (im_N r) ++
        omitempty "quality" (im_Quality r) ++ omitempty "size" (im_Size r) ++
        omitempty "response_format" (im_ResponseFormat r) ++ omitempty "user" (im_User r) ++
        omitempty "style" (im_Style r) ++ omitempty "background" (im_Background r))%list.

(** The categories of a moderation, in the order of the struct. *)
Definition moderation_categories : list string :=
  ["hate"; "hate/threatening"; "harassment"; "harassment/threatening"; "self-harm"; "self-harm/intent";
   "self-harm/instructions"; "sexual"; "sexual/minors"; "violence"; "violence/graphic"].

Record ModerationResult := mkModResult { mr_Flagged : bool; mr_Categories : list bool; mr_Scores : list float64 }.
Record ModerationResponse := mkModResp { mp_ID : string; mp_Model : string; mp_Results : list ModerationResult }.

(** A struct with one field per category. *)
Definition st_categories {A} (zero : A) (st : store A) : store (list A) := fun raw old =>
  let '(ms, e) := struct_members raw in
  (zip_with (fun name o => (field name st o ms).1) moderation_categories old,
   e || existsb (fun name => (field name st zero ms).2) moderation_categories).

Definition zero_result : ModerationResult :=
  mkModResult false (map (fun _ => false) moderation_categories) (map (fun _ => fzero) moderation_categories).

Definition st_moderation_result : store ModerationResult := fun raw old =>
  let '(ms, e) := struct_members raw in
  fill f := field "flagged" st_bool (mr_Flagged old) ms in
  fill c := field "categories" (st_categories false st_bool) (mr_Categories old) ms in
  fill s := field "category_scores" (st_categories fzero st_float) (mr_Scores old) ms in
  (mkModResult f c s, e).

Definition st_moderation_response : store ModerationResponse := fun raw _ =>
  let '(ms, e) := struct_members raw in
  fill i := field "id" st_string "" ms in
  fill m := field "model" st_string "" ms in
  fill r := field "results" (st_list zero_result st_moderation_result) [] ms in (mkModResp i m r, e).

Record ImageDataItem := mkImage { ig_B64JSON : string; ig_URL : string; ig_RevisedPrompt : string }.
Record ImageGenerationResponse := mkImgResp { ir_Created : Z; ir_Data : list ImageDataItem }.

Definition st_image : store ImageDataItem := fun raw old =>
  let '(ms, e) := struct_members raw in
  fill b := field "b64_json" st_string (ig_B64JSON old) ms in
  fill u := field "url" st_string (ig_URL old) ms in
  fill p := field "revised_prompt" st_string (ig_RevisedPrompt old) ms in (mkImage b u p, e).

Definition st_image_response : store ImageGenerationResponse := fun raw _ =>
  let '(ms, e) := struct_members raw in
  fill c := field "created" st_int 0%Z ms in
  fill d := field "data" (st_list (mkImage "" "" "") st_image) [] ms in (mkImgResp c d, e).

(** ** The adapters *)

Record OpenAI := mkOpenAI {
  oa_apiKey : string;
  oa_baseURL : string;
  oa_models : list string;
  oa_embeddingModels : list string;
  oa_moderationModels : list string;
  oa_imageModels : list string;
  oa_StreamPassthrough : bool
}.

Definition NewOpenAI (apiKey baseURL : string) : OpenAI :=
  mkOpenAI apiKey (TrimRightSlash baseURL)
    ["gpt-4o"; "gpt-4o-mini"; "gpt-4.1"; "gpt-4.1-mini"; "o3"; "o4-mini"]
    ["text-embedding-3-small"; "text-embedding-3-large"; "text-embedding-ada-002"]
    ["omni-moderation-latest"; "omni-moderation-2024-09-26"; "text-moderation-latest"; "text-moderation-stable"]
    ["dall-e-2"; "dall-e-3"; "gpt-image-1"] false.

(** A nil list of models leaves the zero value, which is nil too. *)
Record OpenAICompat := mkCompat { co_OpenAI : OpenAI; co_name : string }.

Definition NewOpenAICompat (name apiKey baseURL : string) (chat embed moderation image : list string) : OpenAICompat :=
  mkCompat (mkOpenAI apiKey (TrimRightSlash baseURL) chat embed moderation image true) name.

Definition GroqOpenAIBaseURL : string := "https://api.groq.com/openai/v1".
Definition MistralOpenAIBaseURL : string := "https://api.mistral.ai/v1".
Definition GridOpenAIBaseURL : string := "https://api.thegrid.ai/v1".

Definition GroqChatModels : list string :=
  ["llama-3.3-70b-versatile"; "llama-3.3-70b-specdec"; "llama-3.1-8b-instant"; "llama-3.1-70b-versatile";
   "llama3-8b-8192"; "llama3-70b-8192"; "mixtral-8x7b-32768"; "gemma2-9b-it"; "whisper-large-v3";
   "whisper-large-v3-turbo"; "llama-guard-3-8b"].
Definition MistralChatModels : list string :=
  ["mistral-large-latest"; "mistral-medium-latest"; "mistral-small-latest"; "mistral-small-2409"; "codestral-latest";
   "codestral-2405"; "open-mistral-7b"; "open-mixtral-8x7b"; "ministral-8b-latest"; "ministral-3b-latest";
   "pixtral-12b-2409"].
Definition MistralEmbedModels : list string := ["mistral-embed"; "codestral-embed"].
Definition GridChatModels : list string :=
  ["text-standard"; "text-prime"; "text-max"; "code-standard"; "code-prime"; "code-max"; "agent-standard";
   "agent-prime"; "agent-max"; "gpt-sol-latest"; "claude-opus-latest"; "gemini-pro-latest"; "minimax-latest";
   "glm-latest"; "deepseek-pro-latest"; "kimi-latest"; "bytedance-pro-latest"].

Definition NewGroq (apiKey : string) : OpenAICompat :=
  NewOpenAICompat "groq" apiKey GroqOpenAIBaseURL GroqChatModels [] [] [].
Definition NewMistral (apiKey : string) : OpenAICompat :=
  NewOpenAICompat "mistral" apiKey MistralOpenAIBaseURL MistralChatModels MistralEmbedModels [] [].
Definition NewGrid (apiKey : string) : OpenAICompat :=
  NewOpenAICompat "grid" apiKey GridOpenAIBaseURL GridChatModels [] [] [].

Definition set_stream (b : bool) (r : ChatCompletionRequest) : ChatCompletionRequest :=
  mkReq (Model r) (Messages r) (Temperature r) (TopP r) (MaxTokens r) b (Stop r) (Tools r) (User r)
    (ReasoningEffort r) (StreamOptions r) (ToolChoice r) (ParallelToolCalls r) (Format r) (NexusEval r) (Extra r).

Section Adapters.
Context (url_error : string → option string) (do : HttpRequest → res string HttpResponse)
  (json_error : string → string) (marshal_error : string) (fmt_float : float64 → string).

(** One POST: the request is sent when its URL parses. *)
Definition post {A} (url : string) (headers : list (string * string)) (body : string)
    (answer : HttpResponse → res string A) : sent A :=
  match url_error url with
  | Some e => mkSent None (Err e)
  | None =>
      let req := mkHttp url (("Content-Type", "application/json") :: headers) body in
      mkSent (Some req) (match do req with Err e => Err e | Ok r => answer r end)
  end.

(** An error status fails; otherwise the body is used. *)
Definition checked {A} (provider : string) (answer : HttpResponse → res string A) (r : HttpResponse) : res string A :=
  if (400 <=? hs_Status r)%Z then Err (providerError provider r) else answer r.

Definition decoded {A} (st : store A) (zero : A) (r : HttpResponse) : res string A :=
  match DecodeFirst st zero (hs_Body r) with
  | (v, false) => Ok v
  | (_, true) => Err (json_error (hs_Body r))
  end.

(** A body that does not marshal is not sent. *)
Definition with_body {A} (body : option string) (k : string → sent A) : sent A :=
  match body with
  | Some b => k b
  | None => mkSent None (Err marshal_error)
  end.

Definition doJSON {A} (o : OpenAI) (path : string) (ctx : option CallerCredential) (body : option string)
    (answer : HttpResponse → res string A) : sent A :=
  with_body body (fun b =>
    let '(apiKey, baseURL) := credentials_for (oa_apiKey o) (oa_baseURL o) ctx in
    post (baseURL +:+ path) [("Authorization", "Bearer " +:+ apiKey)] b (checked "openai" answer)).

Definition OpenAI_ChatCompletion (o : OpenAI) (ctx : option CallerCredential) (req : ChatCompletionRequest) :
    sent ChatCompletionResponse :=
  doJSON o "/chat/completions" ctx (ChatCompletionRequest_MarshalJSON fmt_float (set_stream false (ForProvider req)))
    (fun r => match decode_response (hs_Body r) with Some v => Ok v | None => Err (json_error (hs_Body r)) end).

Definition OpenAI_ChatCompletionStream (o : OpenAI) (ctx : option CallerCredential) (req : ChatCompletionRequest) :
    sent (list StreamEvent) :=
  doJSON o "/chat/completions" ctx (ChatCompletionRequest_MarshalJSON fmt_float (set_stream true (ForProvider req)))
    (fun r => Ok (if oa_StreamPassthrough o then parseOpenAISSEWithRaw json_error (hs_Body r) (hs_Err r)
                  else parseOpenAISSE json_error (hs_Body r) (hs_Err r))).

Definition OpenAI_Embed (o : OpenAI) (ctx : option CallerCredential) (req : EmbeddingRequest) : sent EmbeddingResponse :=
  doJSON o "/embeddings" ctx (marshal (EmbeddingRequest_json req)) (decoded st_embedding_response (mkEmbResp "" [] "" 0 0)).

Definition Moderate (o : OpenAI) (ctx : option CallerCredential) (req : ModerationRequest) : sent ModerationResponse :=
  let req := if String.eqb (mo_Model req) "" then mkModReq "omni-moderation-latest" (mo_Input req) (mo_User req) else req in
  doJSON o "/moderations" ctx (marshal (ModerationRequest_json req)) (decoded st_moderation_response (mkModResp "" "" [])).

Definition GenerateImages (o : OpenAI) (ctx : option CallerCredential) (req : ImageGenerationRequest) :
    sent ImageGenerationResponse :=
  let req := if String.eqb (im_Model req) "" then
               mkImgReq "dall-e-3" (im_Prompt req) (im_N req) (im_Quality req) (im_Size req) (im_ResponseFormat req)
                 (im_User req) (im_Style req) (im_Background req)
             else req in
  doJSON o "/images/generations" ctx (marshal (ImageGenerationRequest_json req)) (decoded st_image_response (mkImgResp 0 [])).

(** ** UserCompat *)

Record UserCompat := mkUserCompat { uc_inner : OpenAICompat; uc_prefix : string; uc_ownerID : string; uc_scope : string }.

Definition NewUserCompat (inner : OpenAICompat) (ownerID scope : string) : UserCompat :=
  let scope := if String.eqb scope "" then (if String.eqb ownerID "" then ScopeOrg else ScopeUser) else scope in
  mkUserCompat inner ("user/" +:+ co_name inner +:+ "/") ownerID scope.

Definition UserCompat_Models (u : UserCompat) : list string :=
  map (fun m => uc_prefix u +:+ m) (oa_models (co_OpenAI (uc_inner u))).
Definition UserCompat_EmbeddingModels (u : UserCompat) : list string :=
  map (fun m => uc_prefix u +:+ m) (oa_embeddingModels (co_OpenAI (uc_inner u))).

Definition UserCompat_ChatCompletion (u : UserCompat) (ctx : option CallerCredential) (req : ChatCompletionRequest) :
    sent ChatCompletionResponse :=
  OpenAI_ChatCompletion (co_OpenAI (uc_inner u)) ctx (with_model (TrimPrefix (Model req) (uc_prefix u)) req).
Definition UserCompat_ChatCompletionStream (u : UserCompat) (ctx : option CallerCredential)
    (req : ChatCompletionRequest) : sent (list StreamEvent) :=
  OpenAI_ChatCompletionStream (co_OpenAI (uc_inner u)) ctx (with_model (TrimPrefix (Model req) (uc_prefix u)) req).
Definition UserCompat_Embed (u : UserCompat) (ctx : option CallerCredential) (req : EmbeddingRequest) :
    sent EmbeddingResponse :=
  OpenAI_Embed (co_OpenAI (uc_inner u)) ctx
    (mkEmbReq (TrimPrefix (em_Model req) (uc_prefix u)) (em_Input req) (em_EncodingFormat req) (em_User req)
       (em_Dimensions req)).
End Adapters.

(** ** Redirects of the compatible adapters *)

Definition maxUpstreamRedirects : nat := 10.

(** The outcome of [stripAuthorizationOnCrossOriginRedirect]: [None] returns the
    redirect itself to the caller.  [req.Host] is not modelled. *)
Definition stripAuthorizationOnCrossOriginRedirect (req : Request) (via : list Request) : option Request :=
  match last via with
  | None => Some req
  | Some prev =>
      if (maxUpstreamRedirects <=? length via)%nat then None
      else if String.eqb (u_Scheme (rq_URL prev)) (u_Scheme (rq_URL req)) &&
              String.eqb (u_Host (rq_URL prev)) (u_Host (rq_URL req))
      then Some req
      else Some (mkRequest (rq_URL req)
                   (del_all ["Authorization"; "X-Api-Key"; "Cookie"; "Proxy-Authorization"] (rq_Header req)))
  end.
