(* ===== verification/Anthropic.v ===== *)
(** * Anthropic: src/internal/gateway/providers/anthropic.go

    The adapter of Anthropic's Messages API: the request a chat request becomes,
    the answer it gets back, and the stream of its events as chunks.  [fmt_float]
    prints a float, [created] is the second of the clock an answer is stamped
    with; [http.Client] and decoding errors are the parameters of [Providers]. *)

From S2P Require Import Prelude GoString Float64 Pricing Registry Credentials GwTypes.
From S2P Require Import Net Json JsonFacts Wire GoUrl Egress Endpoints Sse Providers.
Local Open Scope string_scope.
Local Open Scope go_scope.

Definition anthropicVersion : string := "2023-06-01".

Record Anthropic := mkAnthropic { an_apiKey : string; an_baseURL : string; an_models : list string }.

Definition NewAnthropic (apiKey : string) : Anthropic :=
  mkAnthropic apiKey "https://api.anthropic.com/v1"
    ["claude-opus-4-1"; "claude-sonnet-4-5"; "claude-haiku-4-5"; "claude-3-7-sonnet-latest"; "claude-3-5-haiku-latest"].

(** ** Requests *)

Record anthropicTool := mkATool { at_Name : string; at_Description : string; at_InputSchema : string }.
Record anthropicToolChoice := mkAChoice { ac_Type : string; ac_Name : string }.
Record anthropicMessage := mkAMsg { am_Role : string; am_Content : string  (* raw *) }.

Record anthropicRequest := mkAReq {
  aq_Model : string;
  aq_MaxTokens : Z;
  aq_System : string;
  aq_Messages : list anthropicMessage;
  aq_Temperature : option float64;
  aq_TopP : option float64;
  aq_Stream : bool;
  aq_StopSeqs : list string;
  aq_Tools : list anthropicTool;
  aq_ToolChoice : option anthropicToolChoice
}.

(** The function of a tool: name, description, parameters.  The error of the
    decoder is ignored. *)
Definition tool_function (t : Tool) : string * string * string :=
  (Unmarshal (fun raw _ =>
    let '(ms, e) := struct_members raw in
    fill n := field "name" st_string "" ms in
    fill d := field "description" st_string "" ms in
    fill p := field "parameters" st_raw "" ms in ((n, d, p), e)) ("", "", "") (tl_Function t)).1.

Definition anthropic_tool (t : Tool) : option anthropicTool :=
  let '(n, d, p) := tool_function t in
  if String.eqb n "" then None else Some (mkATool n d p).

(** The object form of a tool choice: its type and the function's name. *)
Definition st_function_name : store string := fun raw old =>
  let '(ms, e) := struct_members raw in
  fill n := field "name" st_string old ms in (n, e).

Definition named_choice (raw : string) : option (string * string) :=
  ok_or (Unmarshal (fun raw _ =>
    let '(ms, e) := struct_members raw in
    fill t := field "type" st_string "" ms in
    fill f := field "function" st_function_name "" ms in ((t, f), e)) ("", "") raw).

Definition tool_choice (raw : string) : option anthropicToolChoice :=
  if String.eqb raw "" then None
  else match Unmarshal st_string "" raw with
       | (s, false) =>
           if String.eqb s "auto" then Some (mkAChoice "auto" "")
           else if String.eqb s "required" then Some (mkAChoice "any" "")
           else None
       | (_, true) =>
           match named_choice raw with
           | Some (t, n) =>
               if String.eqb t "function" && negb (String.eqb n "") then Some (mkAChoice "tool" n) else None
           | None => None
           end
       end.

Section Values.
Context (fmt_float : float64 → string).

(** A value decoded into an [any] and encoded again: keys sorted and unique,
    numbers as floats ([nil] when out of range).  A nesting takes one unit of
    fuel. *)
Fixpoint any_value (fuel : nat) (raw : string) : json :=
  match fuel with
  | O => JNull
  | S fuel' =>
      match members raw, elements raw with
      | Some ms, _ =>
          jmap (map_to_list (foldl (fun m '(k, v) => <[k := any_value fuel' v]> m) (∅ : gmap string json) ms))
      | None, Some l => JArr (map (any_value fuel') l)
      | None, None =>
          if String.eqb raw "true" then JBool true
          else if String.eqb raw "false" then JBool false
          else if is_number raw then match ParseFloat raw with Some f => JNum (fmt_float f) | None => JNull end
          else match st_string raw "" with
               | (s, false) => if String.eqb raw "null" then JNull else JStr s
               | (_, true) => JNull
               end
      end
  end.

(** Whether a number in the value is out of range. *)
Fixpoint any_overflow (fuel : nat) (raw : string) : bool :=
  match fuel with
  | O => false
  | S fuel' =>
      match members raw, elements raw with
      | Some ms, _ => existsb (fun kv => any_overflow fuel' kv.2) ms
      | None, Some l => existsb (any_overflow fuel') l
      | None, None => is_number raw && match ParseFloat raw with Some _ => false | None => true end
      end
  end.

(** A text decoded into a [map[string]any], errors ignored, and encoded again: a
    text that is not an object leaves the map nil. *)
Definition any_map (text : string) : json :=
  match value_text text with
  | Some raw => match members raw with Some _ => any_value (S (String.length raw)) raw | None => JNull end
  | None => JNull
  end.

Definition text_block (s : string) : json := jmap [("type", JStr "text"); ("text", JStr s)].

Definition tool_use_block (tc : ToolCall) : json :=
  jmap [("type", JStr "tool_use"); ("id", JStr (tc_ID tc)); ("name", JStr (fn_Name tc));
        ("input", if String.eqb (fn_Arguments tc) "" then JNull else any_map (fn_Arguments tc))].

(** One message; a system message goes to the system prompt. *)
Definition anthropic_message (m : Message) : option anthropicMessage :=
  if String.eqb (Role m) "system" then None
  else if String.eqb (Role m) "tool" then
    Some (mkAMsg "user" (Marshal (JArr [jmap [("type", JStr "tool_result"); ("tool_use_id", JStr (ToolCallID m));
                                              ("content", JStr (Content m))]])))
  else if String.eqb (Role m) "assistant" then
    match ToolCalls m with
    | [] => Some (mkAMsg "assistant" (Marshal (JArr [text_block (Content m)])))
    | tcs =>
        Some (mkAMsg "assistant" (Marshal (JArr
          ((if String.eqb (Content m) "" then [] else [text_block (Content m)]) ++ map tool_use_block tcs)%list)))
    end
  else Some (mkAMsg (Role m) (Marshal (JArr [text_block (Content m)]))).

Definition system_prompt (ms : list Message) : string :=
  foldl (fun sys m =>
    if String.eqb (Role m) "system" then
      (if String.eqb sys "" then "" else sys +:+ newline +:+ newline) +:+ Content m
    else sys) "" ms.

Definition toAnthropicRequest (req : ChatCompletionRequest) : anthropicRequest :=
  mkAReq (Model req) (default 4096%Z (MaxTokens req)) (system_prompt (Messages req))
    (omap anthropic_message (Messages req)) (Temperature req) (TopP req) false (Stop req)
    (omap anthropic_tool (Tools req)) (tool_choice (ToolChoice req)).

Definition with_stream (b : bool) (r : anthropicRequest) : anthropicRequest :=
  mkAReq (aq_Model r) (aq_MaxTokens r) (aq_System r) (aq_Messages r) (aq_Temperature r) (aq_TopP r) b (aq_StopSeqs r)
    (aq_Tools r) (aq_ToolChoice r).

Definition anthropicMessage_json (m : anthropicMessage) : json :=
  JObj [("role", JStr (am_Role m)); ("content", JRaw (am_Content m))].
Definition anthropicTool_json (t : anthropicTool) : json :=
  JObj ([("name", JStr (at_Name t))] ++ omitempty "description" (at_Description t) ++
        omitraw "input_schema" (at_InputSchema t))%list.
Definition anthropicToolChoice_json (c : anthropicToolChoice) : json :=
  JObj ([("type", JStr (ac_Type c))] ++ omitempty "name" (ac_Name c))%list.

Definition anthropicRequest_json (r : anthropicRequest) : json :=
  JObj ([("model", JStr (aq_Model r)); ("max_tokens", jint (aq_MaxTokens r))] ++ omitempty "system" (aq_System r) ++
        [("messages", match aq_Messages r with [] => JNull | l => JArr (map anthropicMessage_json l) end)] ++
        omitnil "temperature" (fun f => JNum (fmt_float f)) (aq_Temperature r) ++
        omitnil "top_p" (fun f => JNum (fmt_float f)) (aq_TopP r) ++
        (if aq_Stream r then [("stream", JBool true)] else []) ++
        omitnone "stop_sequences" JStr (aq_StopSeqs r) ++ omitnone "tools" anthropicTool_json (aq_Tools r) ++
        omitnil "tool_choice" anthropicToolChoice_json (aq_ToolChoice r))%list.
End Values.

(** ** Answers *)

Definition mapAnthropicStop (s : string) : string :=
  if String.eqb s "end_turn" || String.eqb s "stop_sequence" then "stop"
  else if String.eqb s "max_tokens" then "length"
  else if String.eqb s "tool_use" then "tool_calls"
  else s.

Record anthropicContentBlock := mkABlock {
  ab_Type : string; ab_Text : string; ab_ID : string; ab_Name : string; ab_Input : string
}.

Record anthropicResponse := mkAResp {
  ap_ID : string;
  ap_Model : string;
  ap_Content : list anthropicContentBlock;
  ap_StopReason : string;
  ap_InputTokens : Z;
  ap_OutputTokens : Z
}.

Definition st_ablock : store anthropicContentBlock := fun raw old =>
  let '(ms, e) := struct_members raw in
  fill t := field "type" st_string (ab_Type old) ms in
  fill x := field "text" st_string (ab_Text old) ms in
  fill i := field "id" st_string (ab_ID old) ms in
  fill n := field "name" st_string (ab_Name old) ms in
  fill inp := field "input" st_raw (ab_Input old) ms in (mkABlock t x i n inp, e).

Definition st_ausage : store (Z * Z) := fun raw old =>
  let '(ms, e) := struct_members raw in
  fill i := field "input_tokens" st_int old.1 ms in
  fill o := field "output_tokens" st_int old.2 ms in ((i, o), e).

Definition st_aresponse : store anthropicResponse := fun raw _ =>
  let '(ms, e) := struct_members raw in
  fill id := field "id" st_string "" ms in
  fill m := field "model" st_string "" ms in
  fill c := field "content" (st_list (mkABlock "" "" "" "" "") st_ablock) [] ms in
  fill s := field "stop_reason" st_string "" ms in
  fill u := field "usage" st_ausage (0%Z, 0%Z) ms in (mkAResp id m c s u.1 u.2, e).

Definition block_call (c : anthropicContentBlock) : option ToolCall :=
  if String.eqb (ab_Type c) "tool_use"
  then Some (function_call (ab_ID c) (ab_Name c) (if String.eqb (ab_Input c) "" then "{}" else ab_Input c))
  else None.

Definition block_text (c : anthropicContentBlock) : string := if String.eqb (ab_Type c) "text" then ab_Text c else "".

Definition toOpenAI (created : Z) (ar : anthropicResponse) : ChatCompletionResponse :=
  let calls := omap block_call (ap_Content ar) in
  let finish := mapAnthropicStop (ap_StopReason ar) in
  let finish := if (0 <? length calls)%nat && String.eqb finish "" then "tool_calls" else finish in
  mkResp (ap_ID ar) "chat.completion" created (ap_Model ar)
    [mkChoice 0 (mkMessage "assistant" (concat_s (map block_text (ap_Content ar))) "" calls "") finish]
    (mkUsage (ap_InputTokens ar) (ap_OutputTokens ar) (wrap64 (ap_InputTokens ar + ap_OutputTokens ar)) fzero fzero
       None None).

(** ** The stream *)

Record anthropic_event := mkAEvent {
  ae_Type : string;
  ae_Index : Z;
  ae_ContentBlock : option (string * string * string);  (* type, id, name *)
  ae_DeltaType : string;
  ae_Text : string;
  ae_StopReason : string;
  ae_PartialJSON : string;  (* raw *)
  ae_InputTokens : Z;
  ae_OutputTokens : Z
}.

Definition st_content_block : store (string * string * string) := fun raw old =>
  let '(ms, e) := struct_members raw in
  fill t := field "type" st_string old.1.1 ms in
  fill i := field "id" st_string old.1.2 ms in
  fill n := field "name" st_string old.2 ms in ((t, i, n), e).

Definition st_adelta : store (string * string * string * string) := fun raw old =>
  let '(ms, e) := struct_members raw in
  fill t := field "type" st_string old.1.1.1 ms in
  fill x := field "text" st_string old.1.1.2 ms in
  fill s := field "stop_reason" st_string old.1.2 ms in
  fill p := field "partial_json" st_raw old.2 ms in ((t, x, s, p), e).

Definition decode_event (data : string) : option anthropic_event :=
  ok_or (Unmarshal (fun raw _ =>
    let '(ms, e) := struct_members raw in
    fill t := field "type" st_string "" ms in
    fill i := field "index" st_int 0%Z ms in
    fill b := field "content_block" (st_ptr ("", "", "") st_content_block) None ms in
    fill d := field "delta" st_adelta ("", "", "", "") ms in
    fill u := field "usage" st_ausage (0%Z, 0%Z) ms in
    (mkAEvent t i b d.1.1.1 d.1.1.2 d.1.2 d.2 u.1 u.2, e)) (mkAEvent "" 0 None "" "" "" "" 0 0) data).

(** What the goroutine keeps between events: the open calls by block index, and
    the completion tokens (nothing else of its [usage] is ever set). *)
Record stream_mem := mkMem { sm_pending : gmap Z ToolCall; sm_completion : Z }.

Section Stream.
Context (model : string) (created : Z).

Definition a_chunk (content : string) (role : string) (calls : list ToolCall) (finish : string) (usage : option Usage) :
    StreamEvent :=
  chunk_event (mkChunk ("chatcmpl-" +:+ pretty created) "chat.completion.chunk" created model
    [mkChunkChoice 0 role content calls finish] usage).

(** The switch over the types of events: what is sent, the memory after it, and
    whether the stream is over. *)
Definition on_event (evt : anthropic_event) (mem : stream_mem) : list StreamEvent * stream_mem * bool :=
  if String.eqb (ae_Type evt) "content_block_start" then
    match ae_ContentBlock evt with
    | Some (t, id, name) =>
        if String.eqb t "tool_use" then
          ([a_chunk "" "assistant" [function_call id name ""] "" None],
           mkMem (<[ae_Index evt := function_call id name ""]> (sm_pending mem)) (sm_completion mem), false)
        else ([], mem, false)
    | None => ([], mem, false)
    end
  else if String.eqb (ae_Type evt) "content_block_delta" then
    if String.eqb (ae_DeltaType evt) "text_delta" && negb (String.eqb (ae_Text evt) "") then
      ([a_chunk (ae_Text evt) "" [] "" None], mem, false)
    else if String.eqb (ae_DeltaType evt) "input_json_delta" && negb (String.eqb (ae_PartialJSON evt) "") then
      match sm_pending mem !! ae_Index evt with
      | Some tc =>
          ([a_chunk "" "" [function_call (tc_ID tc) "" (ae_PartialJSON evt)] "" None],
           mkMem (<[ae_Index evt := function_call (tc_ID tc) (fn_Name tc) (fn_Arguments tc +:+ ae_PartialJSON evt)]>
                    (sm_pending mem)) (sm_completion mem), false)
      | None => ([], mem, false)
      end
    else ([], mem, false)
  else if String.eqb (ae_Type evt) "message_delta" then
    let completion := if (0 <? ae_OutputTokens evt)%Z then ae_OutputTokens evt else sm_completion mem in
    (if String.eqb (ae_StopReason evt) "" then []
     else [a_chunk "" "" [] (mapAnthropicStop (ae_StopReason evt))
             (Some (mkUsage 0 completion 0 fzero fzero None None))],
     mkMem (sm_pending mem) completion, false)
  else if String.eqb (ae_Type evt) "message_stop" then ([done_signal], mem, true)
  else ([], mem, false).

(** An event of a line, when there is one. *)
Definition line_event (l : string) : option anthropic_event := data ← data_of l; decode_event data.

Fixpoint anthropic_lines (ls : list string) (err : option string) (mem : stream_mem) : list StreamEvent :=
  match ls with
  | [] => match err with Some e => [err_event e] | None => [done_signal] end
  | l :: ls' =>
      match line_event l with
      | None => anthropic_lines ls' err mem
      | Some evt =>
          let '(out, mem', stop) := on_event evt mem in
          if stop then out else (out ++ anthropic_lines ls' err mem')%list
      end
  end.

Definition parseSSE (text : string) (err : option string) : list StreamEvent :=
  let '(ls, e) := scan text err in anthropic_lines ls e (mkMem ∅ 0).
End Stream.

(** ** The adapter *)

Section Adapter.
Context (url_error : string → option string) (do : HttpRequest → res string HttpResponse)
  (json_error : string → string) (marshal_error : string) (fmt_float : float64 → string) (created : Z).

Definition do_messages {A} (a : Anthropic) (ctx : option CallerCredential) (ar : anthropicRequest)
    (answer : HttpResponse → res string A) : sent A :=
  with_body marshal_error (marshal (anthropicRequest_json fmt_float ar)) (fun body =>
    let '(apiKey, baseURL) := credentials_for (an_apiKey a) (an_baseURL a) ctx in
    post url_error do (baseURL +:+ "/messages")
      [("x-api-key", apiKey); ("anthropic-version", anthropicVersion)] body (checked "anthropic" answer)).

Definition Anthropic_ChatCompletion (a : Anthropic) (ctx : option CallerCredential) (req : ChatCompletionRequest) :
    sent ChatCompletionResponse :=
  do_messages a ctx (with_stream false (toAnthropicRequest fmt_float req)) (fun r =>
    match decoded json_error st_aresponse (mkAResp "" "" [] "" 0 0) r with
    | Ok ar => Ok (toOpenAI created ar)
    | Err e => Err e
    end).

Definition Anthropic_ChatCompletionStream (a : Anthropic) (ctx : option CallerCredential)
    (req : ChatCompletionRequest) : sent (list StreamEvent) :=
  do_messages a ctx (with_stream true (toAnthropicRequest fmt_float req)) (fun r =>
    Ok (parseSSE (Model req) created (hs_Body r) (hs_Err r))).
End Adapter.
