(* ===== verification/Gemini.v ===== *)
(** * Gemini: src/internal/gateway/providers/gemini.go

    The adapter of Google's Generative Language API: requests, answers, the
    stream of answers as chunks, and the URLs, which carry the model and the key.
    Parameters as in [Anthropic]; finish reasons are lowered as ASCII. *)

From S2P Require Import GoUrl Prelude GoString Float64 Pricing Registry Credentials GwTypes.
From S2P Require Import Net Json JsonFacts Wire Egress Endpoints Sse Providers Anthropic.
Local Open Scope string_scope.
Local Open Scope go_scope.

Record Gemini := mkGemini { ge_apiKey : string; ge_baseURL : string; ge_models : list string }.

Definition NewGemini (apiKey : string) : Gemini :=
  mkGemini apiKey "https://generativelanguage.googleapis.com/v1beta"
    ["gemini-2.5-pro"; "gemini-2.5-flash"; "gemini-2.0-flash"].

(** ** Escaping, as [net/url] does it *)

Definition alnum (c : ascii) : bool := between 97 122 c || between 65 90 c || between 48 57 c.

(** Letters, digits and [-_.~]. *)
Definition unreserved (c : ascii) : bool :=
  alnum c || existsb (Nat.eqb (code c)) [45; 95; 46; 126]%nat.

(** What a path segment keeps besides: [$ & + : = @]. *)
Definition segment_safe (c : ascii) : bool :=
  unreserved c || existsb (Nat.eqb (code c)) [36; 38; 43; 58; 61; 64]%nat.

Definition hex_upper (n : nat) : ascii := if (n <? 10)%nat then byte (48 + n) else byte (55 + n).

Definition percent (c : ascii) : string :=
  String (byte 37) (String (hex_upper (code c / 16)) (String (hex_upper (code c mod 16)) "")).

Fixpoint PathEscape (s : string) : string :=
  match s with
  | "" => ""
  | String c s' => (if segment_safe c then String c "" else percent c) +:+ PathEscape s'
  end.

Fixpoint QueryEscape (s : string) : string :=
  match s with
  | "" => ""
  | String c s' =>
      (if unreserved c then String c "" else if (code c =? 32)%nat then "+" else percent c) +:+ QueryEscape s'
  end.

(** ** Requests *)

Record geminiFunctionCall := mkGCall { gc_Name : string; gc_Args : option (list (string * json)) }.
Record geminiFunctionResponse := mkGResult { gf_Name : string; gf_Response : json }.
Record geminiPart := mkGPart {
  gp_Text : string; gp_FunctionCall : option geminiFunctionCall; gp_FunctionResponse : option geminiFunctionResponse
}.
Record geminiContent := mkGContent { gn_Role : string; gn_Parts : list geminiPart }.
Record geminiFunctionDeclaration := mkGDecl { gd_Name : string; gd_Description : string; gd_Parameters : string }.
Record geminiFunctionCallingConfig := mkGConfig { gg_Mode : string; gg_AllowedFunctionNames : list string }.
Record geminiGenConf := mkGConf {
  gx_Temperature : option float64; gx_TopP : option float64; gx_MaxOutputTokens : option Z; gx_StopSequences : list string
}.

(** One [geminiTool] holds all declarations; [None] is no tool. *)
Record geminiRequest := mkGReq {
  gq_Contents : list geminiContent;
  gq_SystemInstruction : option (list geminiPart);
  gq_GenerationConfig : geminiGenConf;
  gq_Tools : option (list geminiFunctionDeclaration);
  gq_ToolConfig : option geminiFunctionCallingConfig
}.

Definition text_only (s : string) : geminiPart := mkGPart s None None.

Definition gemini_decl (t : Tool) : option geminiFunctionDeclaration :=
  let '(n, d, p) := tool_function t in
  if String.eqb n "" then None else Some (mkGDecl n d p).

Definition gemini_choice (raw : string) : option geminiFunctionCallingConfig :=
  if String.eqb raw "" then None
  else match Unmarshal st_string "" raw with
       | (s, false) =>
           if String.eqb s "auto" then Some (mkGConfig "AUTO" [])
           else if String.eqb s "required" then Some (mkGConfig "ANY" [])
           else if String.eqb s "none" then Some (mkGConfig "NONE" [])
           else None
       | (_, true) =>
           match named_choice raw with
           | Some (t, n) =>
               if String.eqb t "function" && negb (String.eqb n "") then Some (mkGConfig "ANY" [n]) else None
           | None => None
           end
       end.

Section Requests.
Context (fmt_float : float64 → string).

(** The members of a [map[string]any] decoded from a text, [None] for nil. *)
Definition any_members (text : string) : option (list (string * json)) :=
  match any_map fmt_float text with JObj l => Some l | _ => None end.

Definition gemini_call (tc : ToolCall) : geminiPart :=
  mkGPart "" (Some (mkGCall (fn_Name tc)
    (if String.eqb (fn_Arguments tc) "" then None else any_members (fn_Arguments tc)))) None.

(** The name of a tool result: the call's id, or the first declared function. *)
Definition result_name (tools : list Tool) (m : Message) : string :=
  match tools with
  | t :: _ => if String.eqb (ToolCallID m) "" then (tool_function t).1.1 else ToolCallID m
  | [] => ToolCallID m
  end.

Definition result_response (content : string) : json :=
  match (if String.eqb content "" then None else any_members content) with
  | Some l => JObj l
  | None => JObj [("result", JStr content)]
  end.

(** The content of one message; a system message goes to the instruction. *)
Definition gemini_content (tools : list Tool) (m : Message) : option geminiContent :=
  if String.eqb (Role m) "system" then None
  else if String.eqb (Role m) "assistant" then
    match ((if String.eqb (Content m) "" then [] else [text_only (Content m)]) ++ map gemini_call (ToolCalls m))%list with
    | [] => None
    | parts => Some (mkGContent "model" parts)
    end
  else if String.eqb (Role m) "tool" then
    Some (mkGContent "user"
      [mkGPart "" None (Some (mkGResult (result_name tools m) (result_response (Content m))))])
  else Some (mkGContent "user" [text_only (Content m)]).

Definition system_parts (ms : list Message) : option (list geminiPart) :=
  match filter (fun m => Is_true (String.eqb (Role m) "system")) ms with
  | [] => None
  | l => Some (map (fun m => text_only (Content m)) l)
  end.

Definition toGeminiRequest (req : ChatCompletionRequest) : geminiRequest :=
  mkGReq (omap (gemini_content (Tools req)) (Messages req)) (system_parts (Messages req))
    (mkGConf (Temperature req) (TopP req) (MaxTokens req) (Stop req))
    (match omap gemini_decl (Tools req) with [] => None | l => Some l end)
    (gemini_choice (ToolChoice req)).

Definition geminiPart_json (p : geminiPart) : json :=
  JObj (omitempty "text" (gp_Text p) ++
        omitnil "functionCall" (fun c =>
          JObj ([("name", JStr (gc_Name c))] ++
                match gc_Args c with Some (x :: l) => [("args", JObj (x :: l))] | _ => [] end)%list) (gp_FunctionCall p) ++
        omitnil "functionResponse" (fun r => JObj [("name", JStr (gf_Name r)); ("response", gf_Response r)])
          (gp_FunctionResponse p))%list.

Definition geminiContent_json (c : geminiContent) : json :=
  JObj (omitempty "role" (gn_Role c) ++ [("parts", JArr (map geminiPart_json (gn_Parts c)))])%list.

Definition geminiDecl_json (d : geminiFunctionDeclaration) : json :=
  JObj ([("name", JStr (gd_Name d))] ++ omitempty "description" (gd_Description d) ++
        omitraw "parameters" (gd_Parameters d))%list.

Definition geminiConfig_json (c : geminiFunctionCallingConfig) : json :=
  JObj [("functionCallingConfig",
         JObj (omitempty "mode" (gg_Mode c) ++ omitnone "allowedFunctionNames" JStr (gg_AllowedFunctionNames c))%list)].

Definition geminiGenConf_json (g : geminiGenConf) : json :=
  JObj (omitnil "temperature" (fun f => JNum (fmt_float f)) (gx_Temperature g) ++
        omitnil "topP" (fun f => JNum (fmt_float f)) (gx_TopP g) ++
        omitnil "maxOutputTokens" jint (gx_MaxOutputTokens g) ++
        omitnone "stopSequences" JStr (gx_StopSequences g))%list.

Definition geminiRequest_json (r : geminiRequest) : json :=
  JObj ([("contents", match gq_Contents r with [] => JNull | l => JArr (map geminiContent_json l) end)] ++
        omitnil "systemInstruction" (fun ps => geminiContent_json (mkGContent "" ps)) (gq_SystemInstruction r) ++
        [("generationConfig", geminiGenConf_json (gq_GenerationConfig r))] ++
        omitnil "tools" (fun ds => JArr [JObj [("functionDeclarations", JArr (map geminiDecl_json ds))]]) (gq_Tools r) ++
        omitnil "toolConfig" geminiConfig_json (gq_ToolConfig r))%list.

(** ** Answers *)

(** The [args] of a call: [None] when absent or null; the error of a value that
    is not an object. *)
Definition st_args : store (option (list (string * json))) := fun raw old =>
  if String.eqb raw "null" then (None, false)
  else match any_members raw with Some l => (Some l, any_overflow (S (String.length raw)) raw) | None => (old, true) end.

Definition st_gcall : store geminiFunctionCall := fun raw old =>
  let '(ms, e) := struct_members raw in
  fill n := field "name" st_string (gc_Name old) ms in
  fill a := field "args" st_args (gc_Args old) ms in (mkGCall n a, e).

(** The function response of an answer's part is not looked at. *)
Definition st_gpart : store geminiPart := fun raw old =>
  let '(ms, e) := struct_members raw in
  fill t := field "text" st_string (gp_Text old) ms in
  fill c := field "functionCall" (st_ptr (mkGCall "" None) st_gcall) (gp_FunctionCall old) ms in
  fill _ := field "functionResponse" (st_ptr ("", None) (fun raw old =>
    let '(ms, e) := struct_members raw in
    fill n := field "name" st_string old.1 ms in
    fill r := field "response" st_args old.2 ms in ((n, r), e))) None ms in
  (mkGPart t c None, e).

Definition st_gcontent : store geminiContent := fun raw old =>
  let '(ms, e) := struct_members raw in
  fill r := field "role" st_string (gn_Role old) ms in
  fill p := field "parts" (st_list (text_only "") st_gpart) (gn_Parts old) ms in (mkGContent r p, e).

Record geminiCandidate := mkGCand { gt_Content : geminiContent; gt_FinishReason : string }.
Record geminiResponse := mkGResp {
  gs_Candidates : list geminiCandidate;
  gs_PromptTokenCount : Z;
  gs_CandidatesTokenCount : Z;
  gs_TotalTokenCount : Z
}.

Definition st_gcandidate : store geminiCandidate := fun raw old =>
  let '(ms, e) := struct_members raw in
  fill c := field "content" st_gcontent (gt_Content old) ms in
  fill f := field "finishReason" st_string (gt_FinishReason old) ms in (mkGCand c f, e).

Definition st_gusage : store (Z * Z * Z) := fun raw old =>
  let '(ms, e) := struct_members raw in
  fill p := field "promptTokenCount" st_int old.1.1 ms in
  fill c := field "candidatesTokenCount" st_int old.1.2 ms in
  fill t := field "totalTokenCount" st_int old.2 ms in ((p, c, t), e).

Definition st_gresponse : store geminiResponse := fun raw _ =>
  let '(ms, e) := struct_members raw in
  fill c := field "candidates" (st_list (mkGCand (mkGContent "" []) "") st_gcandidate) [] ms in
  fill u := field "usageMetadata" st_gusage (0%Z, 0%Z, 0%Z) ms in (mkGResp c u.1.1 u.1.2 u.2, e).
End Requests.

(** A rune that is not an ASCII letter or digit becomes an underscore. *)
Definition safeID (s : string) : string :=
  concat_s (map (fun r => match r with
                          | Some (String c "") => if alnum c then String c "" else "_"
                          | _ => "_"
                          end) (utf8_runes s)).

Definition mapGeminiFinish (s : string) : string :=
  if String.eqb s "STOP" then "stop"
  else if String.eqb s "MAX_TOKENS" then "length"
  else if String.eqb s "SAFETY" || String.eqb s "RECITATION" then "content_filter"
  else if String.eqb s "" then ""
  else ToLower s.

Definition args_text (a : option (list (string * json))) : string :=
  match a with Some l => Marshal (JObj l) | None => "{}" end.

(** The tool calls of the parts, numbered from [idx]. *)
Fixpoint part_calls (model : string) (idx : Z) (ps : list geminiPart) : list ToolCall :=
  match ps with
  | [] => []
  | p :: ps' =>
      match gp_FunctionCall p with
      | Some c =>
          function_call ("call_" +:+ safeID model +:+ "_" +:+ pretty idx) (gc_Name c) (args_text (gc_Args c)) ::
          part_calls model (idx + 1) ps'
      | None => part_calls model idx ps'
      end
  end.

Definition geminiToOpenAI (created : Z) (gr : geminiResponse) (model id : string) : ChatCompletionResponse :=
  let '(text, calls, finish) :=
    match gs_Candidates gr with
    | [] => ("", [], "")
    | c :: _ => (concat_s (map gp_Text (gn_Parts (gt_Content c))), part_calls model 0 (gn_Parts (gt_Content c)),
                 mapGeminiFinish (gt_FinishReason c))
    end in
  mkResp id "chat.completion" created model [mkChoice 0 (mkMessage "assistant" text "" calls "") finish]
    (mkUsage (gs_PromptTokenCount gr) (gs_CandidatesTokenCount gr) (gs_TotalTokenCount gr) fzero fzero None None).

(** ** The stream *)

Section Stream.
Context (fmt_float : float64 → string) (model : string) (created : Z).

Definition g_chunk (content : string) (calls : list ToolCall) (finish : string) (usage : option Usage) : StreamEvent :=
  a_chunk model created content "" calls finish usage.

Definition g_part (finish : string) (p : geminiPart) : list StreamEvent :=
  ((if String.eqb (gp_Text p) "" then [] else [g_chunk (gp_Text p) [] finish None]) ++
   match gp_FunctionCall p with
   | Some c =>
       [g_chunk "" [function_call ("call_" +:+ safeID model +:+ "_" +:+ gc_Name c) (gc_Name c)
          (match gc_Args c with Some l => Marshal (JObj l) | None => "null" end)] finish None]
   | None => []
   end)%list.

(** The chunks of one answer of the stream. *)
Definition g_response (gres : geminiResponse) : list StreamEvent :=
  match gs_Candidates gres with
  | [] => []
  | cand :: _ =>
      let finish := mapGeminiFinish (gt_FinishReason cand) in
      (concat (map (g_part finish) (gn_Parts (gt_Content cand))) ++
       (if String.eqb finish "" then []
        else [g_chunk "" [] finish
               (if (0 <? gs_TotalTokenCount gres)%Z
                then Some (mkUsage (gs_PromptTokenCount gres) (gs_CandidatesTokenCount gres) (gs_TotalTokenCount gres)
                             fzero fzero None None)
                else None)]))%list
  end.

Definition g_line (l : string) : list StreamEvent :=
  match data_of l with
  | Some data =>
      match Unmarshal (st_gresponse fmt_float) (mkGResp [] 0 0 0) data with
      | (gres, false) => g_response gres
      | (_, true) => []
      end
  | None => []
  end.

Definition gemini_stream (text : string) (err : option string) : list StreamEvent :=
  let '(ls, e) := scan text err in
  (concat (map g_line ls) ++ [match e with Some e => err_event e | None => done_signal end])%list.
End Stream.

(** ** The adapter *)

Section Adapter.
Context (url_error : string → option string) (do : HttpRequest → res string HttpResponse)
  (json_error : string → string) (marshal_error : string) (fmt_float : float64 → string) (created : Z).

Definition gemini_url (baseURL model method key : string) : string :=
  baseURL +:+ "/models/" +:+ PathEscape model +:+ ":" +:+ method +:+ key.

Definition Gemini_ChatCompletion (g : Gemini) (ctx : option CallerCredential) (req : ChatCompletionRequest) :
    sent ChatCompletionResponse :=
  with_body marshal_error (marshal (geminiRequest_json fmt_float (toGeminiRequest fmt_float req))) (fun body =>
    let '(apiKey, baseURL) := credentials_for (ge_apiKey g) (ge_baseURL g) ctx in
    post url_error do (gemini_url baseURL (Model req) "generateContent?key=" (QueryEscape apiKey)) [] body
      (checked "gemini" (fun r =>
         match decoded json_error (st_gresponse fmt_float) (mkGResp [] 0 0 0) r with
         | Ok gres => Ok (geminiToOpenAI created gres (Model req) ("chatcmpl-" +:+ pretty created))
         | Err e => Err e
         end))).

Definition Gemini_ChatCompletionStream (g : Gemini) (ctx : option CallerCredential) (req : ChatCompletionRequest) :
    sent (list StreamEvent) :=
  with_body marshal_error (marshal (geminiRequest_json fmt_float (toGeminiRequest fmt_float req))) (fun body =>
    let '(apiKey, baseURL) := credentials_for (ge_apiKey g) (ge_baseURL g) ctx in
    post url_error do (gemini_url baseURL (Model req) "streamGenerateContent?alt=sse&key=" (QueryEscape apiKey)) [] body
      (checked "gemini" (fun r => Ok (gemini_stream fmt_float (Model req) created (hs_Body r) (hs_Err r))))).
End Adapter.
