(* ===== verification/ProviderProps.v ===== *)
(** * ProviderProps: the properties of the provider adapters

    Which credential goes where, that every re-serialised stream ends, what the
    translations lose (tool calls of streams, prompt tokens, base64 embeddings,
    names of tool results), and that a model name stays within its URL segment. *)

From S2P Require Import GoUrl Prelude GoString Float64 GoTime ApiErr Balancer Registry Pricing.
From S2P Require Import Credentials Guardrails SemCache GwTypes Middleware Gateway GatewayLogic.
From S2P Require Import GatewayProps Net Json JsonFacts Wire Messages SseLogic MessagesProps.
From S2P Require Import Responses ResponsesProps Egress Endpoints Sse Providers Anthropic Gemini.
From stdpp Require Import pretty.
Local Open Scope string_scope.

(** ** Credentials *)

Section Keys.
Context (url_error : string → option string) (do : HttpRequest → res string HttpResponse)
  (json_error : string → string) (marshal_error : string) (fmt_float : float64 → string) (created : Z).

Definition set_key (k : string) (o : OpenAI) : OpenAI :=
  mkOpenAI k (oa_baseURL o) (oa_models o) (oa_embeddingModels o) (oa_moderationModels o) (oa_imageModels o)
    (oa_StreamPassthrough o).

(** The three adapters, and every operation of each. *)
Inductive adapter := AOpenAI (o : OpenAI) | AAnthropic (a : Anthropic) | AGemini (g : Gemini).
Inductive operation :=
| OChat (r : ChatCompletionRequest) | OStream (r : ChatCompletionRequest) | OEmbed (r : EmbeddingRequest)
| OModerate (r : ModerationRequest) | OImages (r : ImageGenerationRequest).

Definition base_of (a : adapter) : string :=
  match a with AOpenAI o => oa_baseURL o | AAnthropic a => an_baseURL a | AGemini g => ge_baseURL g end.

Definition with_key (k : string) (a : adapter) : adapter :=
  match a with
  | AOpenAI o => AOpenAI (set_key k o)
  | AAnthropic a => AAnthropic (mkAnthropic k (an_baseURL a) (an_models a))
  | AGemini g => AGemini (mkGemini k (ge_baseURL g) (ge_models g))
  end.

(** The request an operation sends; Anthropic and Gemini have only chat. *)
Definition request_of (a : adapter) (ctx : option CallerCredential) (op : operation) : option HttpRequest :=
  match a, op with
  | AOpenAI o, OChat r => s_request (OpenAI_ChatCompletion url_error do json_error marshal_error fmt_float o ctx r)
  | AOpenAI o, OStream r => s_request (OpenAI_ChatCompletionStream url_error do json_error marshal_error fmt_float o ctx r)
  | AOpenAI o, OEmbed r => s_request (OpenAI_Embed url_error do json_error marshal_error o ctx r)
  | AOpenAI o, OModerate r => s_request (Moderate url_error do json_error marshal_error o ctx r)
  | AOpenAI o, OImages r => s_request (GenerateImages url_error do json_error marshal_error o ctx r)
  | AAnthropic a, OChat r =>
      s_request (Anthropic_ChatCompletion url_error do json_error marshal_error fmt_float created a ctx r)
  | AAnthropic a, OStream r =>
      s_request (Anthropic_ChatCompletionStream url_error do marshal_error fmt_float created a ctx r)
  | AGemini g, OChat r =>
      s_request (Gemini_ChatCompletion url_error do json_error marshal_error fmt_float created g ctx r)
  | AGemini g, OStream r =>
      s_request (Gemini_ChatCompletionStream url_error do marshal_error fmt_float created g ctx r)
  | _, _ => None
  end.

(** Whose key a request carries. *)
Definition carries (q : HttpRequest) (key : string) : Prop :=
  ("Authorization", "Bearer " +:+ key) ∈ hq_Header q ∨ ("x-api-key", key) ∈ hq_Header q ∨
  ∃ pre, hq_URL q = pre +:+ "key=" +:+ QueryEscape key.

Definition sent_to (q : HttpRequest) (base : string) : Prop := ∃ path, hq_URL q = base +:+ "/" +:+ path.

Lemma post_request {A} url hd body (k : HttpResponse → res string A) q :
  s_request (post url_error do url hd body k) = Some q → q = mkHttp url (("Content-Type", "application/json") :: hd) body.
Proof. unfold post. destruct (url_error url); [done|]. by intros [= <-]. Qed.

Lemma with_body_request {A} b (k : string → sent A) q :
  s_request (with_body marshal_error b k) = Some q → ∃ body, b = Some body ∧ s_request (k body) = Some q.
Proof. destruct b as [body|]; [|done]. cbn. eauto. Qed.

(** The credential in force decides both the key and the destination. *)
Definition placed (q : HttpRequest) (cred : string * string) : Prop := carries q cred.1 ∧ sent_to q cred.2.

Lemma placed_header base path key body hd :
  ("Authorization", "Bearer " +:+ key) ∈ hd ∨ ("x-api-key", key) ∈ hd →
  placed (mkHttp (base +:+ String "/" path) (("Content-Type", "application/json") :: hd) body) (key, base).
Proof.
  intros H. split; [|by exists path]. destruct H as [H|H]; [left|right; left]; by right.
Qed.

Lemma doJSON_placed {A} o k path ctx body (f : HttpResponse → res string A) q :
  s_request (doJSON url_error do marshal_error (set_key k o) (String "/" path) ctx body f) = Some q →
  placed q (credentials_for k (oa_baseURL o) ctx).
Proof.
  unfold doJSON. intros H. apply with_body_request in H as (b & _ & H).
  change (oa_apiKey (set_key k o)) with k in H. change (oa_baseURL (set_key k o)) with (oa_baseURL o) in H.
  destruct (credentials_for k (oa_baseURL o) ctx) as [key base]. apply post_request in H as ->.
  apply placed_header. left. by left.
Qed.

Lemma do_messages_placed {A} a k ctx ar (f : HttpResponse → res string A) q :
  s_request (do_messages url_error do marshal_error fmt_float (mkAnthropic k (an_baseURL a) (an_models a)) ctx ar f) = Some q →
  placed q (credentials_for k (an_baseURL a) ctx).
Proof.
  unfold do_messages. intros H. apply with_body_request in H as (b & _ & H). cbn [an_apiKey an_baseURL] in H.
  destruct (credentials_for k (an_baseURL a) ctx) as [key base]. apply post_request in H as ->.
  apply placed_header. right. by left.
Qed.

Lemma gemini_placed {A} g k ctx m method v (f : HttpResponse → res string A) q :
  s_request (with_body marshal_error v (fun body =>
    let '(apiKey, baseURL) := credentials_for k (ge_baseURL g) ctx in
    post url_error do (gemini_url baseURL m (method +:+ "key=") (QueryEscape apiKey)) [] body f)) = Some q →
  placed q (credentials_for k (ge_baseURL g) ctx).
Proof.
  intros H. apply with_body_request in H as (b & _ & H).
  destruct (credentials_for k (ge_baseURL g) ctx) as [key base]. apply post_request in H as ->.
  unfold gemini_url. split.
  - right; right. exists (base +:+ "/models/" +:+ PathEscape m +:+ ":" +:+ method). cbn [hq_URL fst].
    by rewrite !app_assoc_string.
  - by eexists.
Qed.

Lemma request_placed a ctx op q k :
  request_of (with_key k a) ctx op = Some q → placed q (credentials_for k (base_of a) ctx).
Proof.
  destruct a as [o|a|g]; destruct op; intros H; try discriminate H; cbn [request_of with_key base_of] in *.
  1-5: by eapply doJSON_placed.
  1-2: by eapply do_messages_placed.
  - by eapply (gemini_placed g k ctx _ "generateContent?").
  - by eapply (gemini_placed g k ctx _ "streamGenerateContent?alt=sse&").
Qed.
End Keys.

(** [C11] Keys stay where they belong.  With a caller's credential every request of
    every adapter carries that credential, goes to the caller's base URL when
    there is one, and is the same whatever the operator's key; without one it
    carries the operator's key and goes to the operator's base URL. *)
Theorem operator_key_confined url_error do json_error marshal_error fmt_float created (a : adapter)
    (ctx : option CallerCredential) (op : operation) (q : HttpRequest) (k k' : string) :
  let req k := request_of url_error do json_error marshal_error fmt_float created (with_key k a) ctx op in
  req k = Some q →
  match CallerCredentialFrom ctx with
  | Some c =>
      carries q (cc_Secret c) ∧ req k' = Some q ∧
      sent_to q (if String.eqb (cc_BaseURL c) "" then base_of a else TrimRightSlash (cc_BaseURL c))
  | None => carries q k ∧ sent_to q (base_of a)
  end.
Proof.
  cbn zeta. intros H. pose proof (request_placed _ _ _ _ _ _ _ _ _ _ _ H) as [Hc Hs].
  unfold credentials_for in Hc, Hs. destruct (CallerCredentialFrom ctx) as [c|] eqn:Ec; [|done].
  split_and!; [done| |done]. rewrite <- H.
  assert (∀ base, credentials_for k' base ctx = credentials_for k base ctx) as He
    by (intros base; unfold credentials_for; by rewrite Ec).
  destruct a as [o|a|g]; destruct op; try done; cbn [request_of with_key];
    unfold OpenAI_ChatCompletion, OpenAI_ChatCompletionStream, OpenAI_Embed, Moderate, GenerateImages, doJSON,
      Anthropic_ChatCompletion, Anthropic_ChatCompletionStream, do_messages,
      Gemini_ChatCompletion, Gemini_ChatCompletionStream;
    cbn [oa_apiKey oa_baseURL set_key an_apiKey an_baseURL ge_apiKey ge_baseURL]; by rewrite He.
Qed.

(** ** The end of a stream *)

Definition terminated (evs : list StreamEvent) : Prop :=
  ∃ ks last, evs = (map chunk_event ks ++ [last])%list ∧ (last = done_signal ∨ ∃ e, last = err_event e).

Lemma terminated_end err :
  terminated [match err with Some e => err_event e | None => done_signal end].
Proof. exists [], (match err with Some e => err_event e | None => done_signal end). destruct err; eauto. Qed.

Lemma terminated_app ks evs : terminated evs → terminated (map chunk_event ks ++ evs)%list.
Proof. intros (ks' & l & -> & H). exists (ks ++ ks')%list, l. by rewrite map_app, app_assoc. Qed.

Lemma on_event_shape model created evt mem :
  let '(out, _, stop) := on_event model created evt mem in
  if stop then out = [done_signal] else ∃ ks, out = map chunk_event ks.
Proof.
  unfold on_event, a_chunk. repeat case_match; simplify_eq; try done;
    first [by exists [] | by eexists [_]].
Qed.

Lemma g_response_chunks model created gres : ∃ ks, g_response model created gres = map chunk_event ks.
Proof.
  unfold g_response. destruct (gs_Candidates gres) as [|cand l]; [by exists []|].
  assert (∀ f p, ∃ ks, g_part model created f p = map chunk_event ks) as Hp.
  { intros f p. unfold g_part, g_chunk, a_chunk. destruct (String.eqb (gp_Text p) ""), (gp_FunctionCall p);
      first [by exists [] | by eexists [_] | by eexists [_; _]]. }
  set (f := mapGeminiFinish _).
  assert (∃ ks, concat (map (g_part model created f) (gn_Parts (gt_Content cand))) = map chunk_event ks) as [ks ->].
  { induction (gn_Parts (gt_Content cand)) as [|p ps [ks IH]]; [by exists []|].
    destruct (Hp f p) as [ks' E]. exists (ks' ++ ks)%list. cbn. by rewrite E, IH, map_app. }
  destruct (String.eqb f ""); [exists ks; by rewrite app_nil_r|]. unfold g_chunk, a_chunk.
  eexists (ks ++ [_])%list. rewrite map_app. reflexivity.
Qed.

Lemma streams_terminated_lemma (json_error : string → string) (fmt_float : float64 → string) (model : string)
    (created : Z) (text : string) (err : option string) :
  terminated (parseOpenAISSE json_error text err) ∧
  terminated (parseSSE model created text err) ∧
  terminated (gemini_stream fmt_float model created text err).
Proof.
  unfold parseOpenAISSE, parseSSE, gemini_stream. destruct (scan text err) as [ls e]. split_and!.
  - induction ls as [|l ls IH].
    { destruct e as [x|]; [apply (terminated_end (Some x))|apply (terminated_end None)]. }
    cbn [openai_lines]. destruct (data_of l) as [data|]; [|done].
    destruct (String.eqb data "[DONE]"); [apply (terminated_end None)|].
    destruct (decode_chunk data) as [k|]; [by apply (terminated_app [k])|apply (terminated_end (Some _))].
  - generalize (mkMem ∅ 0). induction ls as [|l ls IH]; intros mem.
    { destruct e as [x|]; [apply (terminated_end (Some x))|apply (terminated_end None)]. }
    cbn [anthropic_lines]. destruct (line_event l) as [evt|]; [|done].
    pose proof (on_event_shape model created evt mem) as H.
    destruct (on_event model created evt mem) as [[out mem'] stop].
    destruct stop; [rewrite H; apply (terminated_end None)|]. destruct H as [ks ->]. by apply terminated_app.
  - induction ls as [|l ls IH]; [apply terminated_end|]. cbn [map concat]. rewrite <- app_assoc.
    assert (∃ ks, g_line fmt_float model created l = map chunk_event ks) as [ks ->]; [|by apply terminated_app].
    unfold g_line. destruct (data_of l) as [data|]; [|by exists []].
    destruct (Unmarshal _ _ data) as [gres []]; [by exists []|apply g_response_chunks].
Qed.

(** [C31] Every stream that is re-serialised ends: whatever the upstream's body and
    however it breaks off, the parsers of the OpenAI, Anthropic and Gemini formats
    send chunks and then exactly one end, a regular one or an error. *)
Theorem streams_terminated (json_error : string → string) (fmt_float : float64 → string) (model : string)
    (created : Z) (text : string) (err : option string) :
  terminated (parseOpenAISSE json_error text err) ∧
  terminated (parseSSE model created text err) ∧
  terminated (gemini_stream fmt_float model created text err).
Proof. apply streams_terminated_lemma. Qed.

(** ** What Anthropic's stream loses *)

Definition unindexed (tc : ToolCall) : Prop := tc_Index tc = None.

(** A chunk whose calls have no index and whose usage has no prompt tokens. *)
Definition lossy (k : ChatCompletionChunk) : Prop :=
  Forall unindexed (chunk_calls k) ∧ ∀ u, k_Usage k = Some u → PromptTokens u = 0%Z ∧ TotalTokens u = 0%Z.

Lemma on_event_lossy model created evt mem k :
  chunk_event k ∈ (on_event model created evt mem).1.1 → lossy k.
Proof.
  unfold on_event, a_chunk. intros H.
  repeat case_match; cbn [fst] in H; rewrite ?elem_of_nil in H; try done;
    apply list_elem_of_singleton in H; unfold chunk_event in H; simplify_eq;
    (split; [by repeat constructor|by intros u [= <-]]).
Qed.

Lemma fragments_unindexed i tcs : Forall unindexed tcs → i ≠ 0%Z → fragments i tcs = "".
Proof.
  intros H Hi. unfold fragments. induction H as [|tc tcs E _ IH]; [done|]. cbn [map concat_s foldr].
  rewrite E. cbn [default]. destruct (Z.eqb_spec 0 i); [lia|]. exact IH.
Qed.

Lemma delivered_chunks evs k : k ∈ delivered evs → ∃ ev, ev ∈ evs ∧ ev_Chunk ev = Some k.
Proof.
  induction evs as [|ev evs IH]; cbn; [by intros ?%elem_of_nil|].
  destruct (ev_Err ev), (ev_Done ev); try by intros ?%elem_of_nil.
  destruct (ev_Chunk ev) as [k'|] eqn:E.
  - intros [->|H]%elem_of_cons; [exists ev; split; [by left|done]|].
    destruct (IH H) as (ev' & ? & ?). exists ev'. split; [by right|done].
  - intros H. destruct (IH H) as (ev' & ? & ?). exists ev'. split; [by right|done].
Qed.

Lemma anthropic_lines_lossy model created ls err mem ev k :
  ev ∈ anthropic_lines model created ls err mem → ev_Chunk ev = Some k → lossy k.
Proof.
  revert mem. induction ls as [|l ls IH]; intros mem H Hk; cbn in H.
  { destruct err; apply list_elem_of_singleton in H as ->; discriminate Hk. }
  destruct (line_event l) as [evt|]; [|by eapply IH].
  pose proof (on_event_shape model created evt mem) as Hs. pose proof (on_event_lossy model created evt mem) as Hl.
  destruct (on_event model created evt mem) as [[out mem'] stop]. cbn [fst] in Hl. destruct stop.
  - subst out. apply list_elem_of_singleton in H as ->. discriminate Hk.
  - apply elem_of_app in H as [H|H]; [|by eapply IH]. destruct Hs as [ks ->].
    apply list_elem_of_In, in_map_iff in H as (k' & <- & Hin). injection Hk as <-.
    apply Hl, list_elem_of_In, in_map_iff. eauto.
Qed.

(** Of a streamed Anthropic answer the gateway loses two things, whatever the
    upstream sends.  No tool call carries an index, so a consumer that sorts
    argument fragments by index puts those of every call into call 0; and no
    usage reports a prompt token, so the answer is charged for its completion
    alone. *)
Theorem anthropic_stream_lossy (model : string) (created : Z) (text : string) (err : option string) :
  let ks := delivered (parseSSE model created text err) in
  (∀ i, i ≠ 0%Z → fragments i (stream_calls ks) = "") ∧
  ∀ k u, k ∈ ks → k_Usage k = Some u → PromptTokens u = 0%Z ∧ TotalTokens u = 0%Z.
Proof.
  cbn zeta. unfold parseSSE. destruct (scan text err) as [ls e].
  assert (∀ k, k ∈ delivered (anthropic_lines model created ls e (mkMem ∅ 0)) → lossy k) as H.
  { intros k Hk. apply delivered_chunks in Hk as (ev & Hin & He). by eapply anthropic_lines_lossy. }
  split.
  - intros i Hi. apply fragments_unindexed; [|done]. unfold stream_calls. clear -H.
    induction (delivered _) as [|k ks IH]; [constructor|]. cbn. apply Forall_app. split.
    + apply H. by left.
    + apply IH. intros k' Hk'. apply H. by right.
  - intros k u Hk. by apply (H k Hk).
Qed.

(** *** Streamed tool arguments *)

Definition event_line (ev : list (string * json)) : string := "data: " +:+ Marshal (JObj ev).

Lemma data_of_event ev : wf_json (JObj ev) → data_of (event_line ev) = Some (Marshal (JObj ev)).
Proof.
  intros Hwf. unfold event_line, data_of. destruct (marshal_total _ Hwf) as [t Ht]. rewrite (Marshal_some _ _ Ht).
  rewrite marshal_obj in Ht. apply bind_Some in Ht as (ts & _ & [= <-]).
  set (body := GoString.Join ts ",").
  assert (∀ s, TrimSpace (String "d" (s +:+ "}")) = String "d" (s +:+ "}")) as Htrim.
  { intros s. unfold TrimSpace. rewrite trim_left_letter by auto. apply (trim_right_brace (String "d" s)). }
  change ("data: " +:+ "{" +:+ body +:+ "}") with (String "d" (("ata: {" +:+ body) +:+ "}")).
  rewrite Htrim. cbn [HasPrefix]. change (TrimPrefix (String "d" (("ata: {" +:+ body) +:+ "}")) "data:")
    with (String " " ("{" +:+ body +:+ "}")).
  unfold TrimSpace. assert (TrimLeftSpace (String " " ("{" +:+ body +:+ "}")) = "{" +:+ body +:+ "}") as ->.
  { unfold TrimLeftSpace. cbn [String.length trim_left].
    change (leading_space space_encodings (String " " ("{" +:+ body +:+ "}"))) with (Some 1%nat). cbn [drop_bytes].
    apply (trim_left_letter "{" (body +:+ "}")). by right. }
  cbn. f_equal. apply (trim_right_brace (String "{" body)).
Qed.

(** Anthropic's events of a tool call at block [i], as lines. *)
Definition start_event (i : Z) (id name : string) : list (string * json) :=
  [("type", JStr "content_block_start"); ("index", jint i);
   ("content_block", JObj [("type", JStr "tool_use"); ("id", JStr id); ("name", JStr name)])].
Definition delta_event (i : Z) (partial : string) : list (string * json) :=
  [("type", JStr "content_block_delta"); ("index", jint i);
   ("delta", JObj [("type", JStr "input_json_delta"); ("partial_json", JStr partial)])].

Lemma start_event_wf i id name : wf_json (JObj (start_event i id name)).
Proof. apply wf_obj. repeat constructor; cbn; try done; apply jint_wf. Qed.
Lemma delta_event_wf i s : wf_json (JObj (delta_event i s)).
Proof. apply wf_obj. repeat constructor; cbn; try done; apply jint_wf. Qed.

Lemma decode_start i id name :
  in_int64 i → decode_event (Marshal (JObj (start_event i id name))) =
    Some (mkAEvent "content_block_start" i (Some ("tool_use", to_valid id, to_valid name)) "" "" "" "" 0 0).
Proof.
  intros Hi. unfold decode_event. rewrite Unmarshal_marshal, struct_members_marshal by apply start_event_wf.
  unfold start_event. known_fields. rewrite st_string_marshal, st_int_marshal by done.
  assert (st_ptr ("", "", "") st_content_block
    (Marshal (JObj [("type", JStr "tool_use"); ("id", JStr id); ("name", JStr name)])) None =
    (Some ("tool_use", to_valid id, to_valid name), false)) as ->; [|done].
  unfold st_ptr. destruct (Marshal_obj_head [("type", JStr "tool_use"); ("id", JStr id); ("name", JStr name)]) as [q Hq];
    [done|]. destruct (String.eqb_spec (Marshal (JObj [("type", JStr "tool_use"); ("id", JStr id); ("name", JStr name)])) "null")
    as [E|_]; [by rewrite Hq in E|].
  unfold st_content_block. rewrite struct_members_marshal by done. known_fields. by rewrite !st_string_marshal.
Qed.

Lemma decode_delta i s :
  in_int64 i → decode_event (Marshal (JObj (delta_event i s))) =
    Some (mkAEvent "content_block_delta" i None "input_json_delta" "" "" (json_quote s) 0 0).
Proof.
  intros Hi. unfold decode_event. rewrite Unmarshal_marshal, struct_members_marshal by apply delta_event_wf.
  unfold delta_event. known_fields. rewrite st_string_marshal, st_int_marshal by done.
  assert (st_adelta (Marshal (JObj [("type", JStr "input_json_delta"); ("partial_json", JStr s)])) ("", "", "", "") =
    ("input_json_delta", "", "", json_quote s, false)) as ->; [|done].
  unfold st_adelta. rewrite struct_members_marshal by done. known_fields. by rewrite st_string_marshal.
Qed.

(** The argument texts of the chunks of a run. *)
Definition argument_texts (evs : list StreamEvent) : list string :=
  map fn_Arguments (stream_calls (delivered evs)).

Lemma delta_lines_run model created i id name fs rest err mem :
  in_int64 i → (∃ a, sm_pending mem !! i = Some (function_call id name a)) →
  ∃ mem', anthropic_lines model created (map (fun s => event_line (delta_event i s)) fs ++ rest)%list err mem =
    (map (fun s => a_chunk model created "" "" [function_call id "" (json_quote s)] "" None) fs ++
     anthropic_lines model created rest err mem')%list.
Proof.
  intros Hi. revert mem. induction fs as [|s fs IH]; intros mem [a Ha]; [by exists mem|].
  cbn [map app anthropic_lines]. unfold line_event. rewrite data_of_event by apply delta_event_wf. cbn [mbind option_bind].
  rewrite decode_delta by done. unfold on_event. cbn [ae_Type ae_DeltaType ae_PartialJSON ae_Index].
  assert (String.eqb (json_quote s) "" = false) as -> by done. cbn. rewrite Ha. cbn.
  destruct (IH (mkMem (<[i := function_call id name (a +:+ json_quote s)]> (sm_pending mem)) (sm_completion mem)))
    as [mem' E]; [eexists; cbn; by rewrite lookup_insert_eq|].
  exists mem'. f_equal. exact E.
Qed.

Lemma json_quote_app s r : json_quote s +:+ r = String (byte 34) (quote_body s +:+ dq +:+ r).
Proof. unfold json_quote. by rewrite !app_assoc_string. Qed.

Lemma scan_quoted s r : value_text (json_quote s +:+ r) = if String.eqb (ws r) "" then Some (upto (json_quote s +:+ r) r) else None.
Proof.
  rewrite json_quote_app. unfold value_text. rewrite ws_stop by done.
  unfold scan_fuel. cbn [scan_value]. change (code (byte 34) =? 34)%nat with true. cbn iota.
  by rewrite parse_quote by (rewrite !length_app_string; lia).
Qed.

Lemma quoted_not_object fs : fs ≠ [] → (Unmarshal st_rawmap ∅ (concat_s (map json_quote fs))).2 = true.
Proof.
  destruct fs as [|s fs]; [done|]. intros _. cbn [map concat_s foldr].
  change (foldr String.append "") with concat_s. unfold Unmarshal. rewrite scan_quoted.
  destruct fs as [|s' fs]; [|cbn [map concat_s foldr]; by rewrite json_quote_app].
  cbn [map concat_s foldr]. change (String.eqb (ws "") "") with true. cbn iota. rewrite upto_app.
  unfold json_quote. change (dq +:+ ?z) with (String (byte 34) z) at 1. done.
Qed.

(** A streamed tool call of Anthropic never reaches the client with usable
    arguments.  Whatever fragments the upstream sends for a call, each is forwarded
    as the quoted JSON string it arrived in, and the text a client assembles from
    them does not decode to an object, although the fragments' own concatenation
    may. *)
Theorem anthropic_arguments_never_object (model : string) (created i : Z) (id name : string) (fs : list string) :
  in_int64 i → fs ≠ [] →
  let lines := (event_line (start_event i id name) :: map (fun s => event_line (delta_event i s)) fs)%list in
  let args := argument_texts (anthropic_lines model created lines None (mkMem ∅ 0)) in
  args = "" :: map json_quote fs ∧ (Unmarshal st_rawmap ∅ (concat_s args)).2 = true.
Proof.
  intros Hi Hfs. cbn zeta.
  assert (argument_texts (anthropic_lines model created
    (event_line (start_event i id name) :: map (fun s => event_line (delta_event i s)) fs) None (mkMem ∅ 0)) =
    "" :: map json_quote fs) as ->.
  - cbn [anthropic_lines]. unfold line_event. rewrite data_of_event by apply start_event_wf. cbn [mbind option_bind].
    rewrite decode_start by done. unfold on_event. cbn [ae_Type ae_ContentBlock]. cbn.
    destruct (delta_lines_run model created i (to_valid id) (to_valid name) fs [] None
      (mkMem (<[i := function_call (to_valid id) (to_valid name) ""]> ∅) 0) Hi) as [mem' E];
      [eexists; cbn; by rewrite lookup_insert_eq|].
    rewrite app_nil_r in E. rewrite E. unfold argument_texts. cbn. f_equal.
    clear. induction fs as [|s fs IH]; [done|]. cbn. f_equal. exact IH.
  - split; [done|]. cbn. by apply (quoted_not_object fs).
Qed.

Definition weather : list string := [J "{'city':"; J "'Paris'}"].

Lemma anthropic_arguments_never_object_witness :
  let lines := (event_line (start_event 1 "toolu_1" "weather") ::
                map (fun s => event_line (delta_event 1 s)) weather)%list in
  let args := argument_texts (anthropic_lines "claude" 0 lines None (mkMem ∅ 0)) in
  (args = "" :: map json_quote weather ∧ (Unmarshal st_rawmap ∅ (concat_s args)).2 = true) ∧
  (Unmarshal st_rawmap ∅ (concat_s weather)).2 = false.
Proof.
  split; [|vm_compute; reflexivity].
  apply (anthropic_arguments_never_object "claude" 0 1 "toolu_1" "weather" weather); [|discriminate].
  unfold in_int64, int64_min, int64_max. lia.
Defined.

(** The two losses together, at the Messages endpoint: two calls of an Anthropic
    answer become one block, named after the first. *)
Example anthropic_calls_collapse :
  let lines :=
    [event_line (start_event 0 "toolu_1" "weather"); event_line (delta_event 0 "{}");
     event_line (start_event 1 "toolu_2" "clock"); event_line (delta_event 1 "{}");
     event_line [("type", JStr "message_stop")]] in
  wrote (handleMessagesStream (stream_env (parseSSE "claude" 0 (with_newlines lines) None))
           (demo_handler None false) demo_ctx "" true (demo_req true None))
    [MessageStart "msg_uuid" "team"; BlockStartTool 0 "toolu_uuid" "weather"; InputDelta 0 (J "'{}'");
     InputDelta 0 (J "'{}'"); BlockStop 0; MessageDelta "" (mkMsgUsage 0 0); MessageStop].
Proof. vm_compute. reflexivity. Qed.

(** An error event in the middle of the stream ends it as if it were complete. *)
Example anthropic_error_event_is_lost :
  parseSSE "claude" 0 (with_newlines [J "data: {'type':'error','error':{'type':'overloaded_error'}}"]) None = [done_signal].
Proof. vm_compute. reflexivity. Qed.

Definition demo_adapter : adapter := AAnthropic (NewAnthropic "operator").
Definition byok : option CallerCredential := Some (mkCaller "caller" "https://proxy.example/v1/" "user").

Lemma operator_key_confined_witness :
  let req k := request_of (fun _ => None) (fun _ => Err "refused") (fun _ => "bad") "bad" (fun _ => "0") 0
                 (with_key k demo_adapter) byok (OChat (demo_req false None)) in
  ∃ q, req "operator" = Some q ∧ carries q "caller" ∧ req "other" = Some q ∧ sent_to q "https://proxy.example/v1".
Proof.
  destruct (request_of (fun _ => None) (fun _ => Err "refused") (fun _ => "bad") "bad" (fun _ => "0") 0
    (with_key "operator" demo_adapter) byok (OChat (demo_req false None))) as [q|] eqn:E; [|by vm_compute in E].
  exists q. split; [exact E|].
  exact (operator_key_confined (fun _ => None) (fun _ => Err "refused") (fun _ => "bad") "bad" (fun _ => "0") 0
    demo_adapter byok (OChat (demo_req false None)) q "operator" "other" E).
Defined.

(** ** Gemini *)

(** The name of Gemini's tool results: the reply to a call of a Gemini answer is
    sent back under the call's id, not under the name of the function, unless the
    function's own name starts the way the ids do. *)
Theorem gemini_result_misnamed (model : string) (parts : list geminiPart) (tools : list Tool) (tc : ToolCall)
    (answer : string) :
  tc ∈ part_calls model 0 parts → HasPrefix (fn_Name tc) "call_" = false →
  let reply := mkMessage "tool" answer "" [] (tc_ID tc) in
  ∃ r, gemini_content (fun _ => "0") tools reply = Some (mkGContent "user" [mkGPart "" None (Some r)]) ∧
       gf_Name r = tc_ID tc ∧ gf_Name r ≠ fn_Name tc.
Proof.
  intros Hin Hp. cbn zeta.
  assert (∃ t, tc_ID tc = "call_" +:+ t) as [t Ht].
  { revert Hin. generalize 0%Z. induction parts as [|p ps IH]; intros idx; cbn; [by intros ?%elem_of_nil|].
    destruct (gp_FunctionCall p); [|apply IH]. intros [->|H]%elem_of_cons; [by eexists|by apply (IH (idx + 1)%Z)]. }
  unfold gemini_content. cbn [Role ToolCallID Content]. change (String.eqb "tool" "system") with false.
  change (String.eqb "tool" "assistant") with false. change (String.eqb "tool" "tool") with true. cbn iota.
  eexists. split; [reflexivity|]. cbn [gf_Name]. unfold result_name. cbn [ToolCallID].
  assert (String.eqb (tc_ID tc) "" = false) as -> by (by rewrite Ht).
  assert (tc_ID tc ≠ fn_Name tc) by (intros E; rewrite <- E, Ht in Hp; discriminate Hp).
  by destruct tools.
Qed.

Lemma gemini_result_misnamed_witness :
  let part := mkGPart "" (Some (mkGCall "weather" None)) None in
  let tc := function_call "call_gemini_2_5_0" "weather" "{}" in
  let reply := mkMessage "tool" "rain" "" [] (tc_ID tc) in
  ∃ r, gemini_content (fun _ => "0") [] reply = Some (mkGContent "user" [mkGPart "" None (Some r)]) ∧
       gf_Name r = tc_ID tc ∧ gf_Name r ≠ fn_Name tc.
Proof.
  apply (gemini_result_misnamed "gemini-2.5" [mkGPart "" (Some (mkGCall "weather" None)) None] []
    (function_call "call_gemini_2_5_0" "weather" "{}") "rain"); [|reflexivity].
  apply list_elem_of_singleton. vm_compute. reflexivity.
Defined.

(** *** URLs *)

Fixpoint bytes_all (f : ascii → bool) (s : string) : bool :=
  match s with "" => true | String c s' => f c && bytes_all f s' end.

Lemma bytes_all_app f s t : bytes_all f (s +:+ t) = bytes_all f s && bytes_all f t.
Proof. induction s as [|c s IH]; [done|]. rewrite append_cons. cbn [bytes_all]. by rewrite IH, andb_assoc. Qed.

(** Bytes that do not end a path segment, and those that do not end a query value. *)
Definition in_segment (c : ascii) : bool := negb (existsb (Nat.eqb (code c)) [47; 63; 35]%nat).
Definition in_value (c : ascii) : bool := negb (existsb (Nat.eqb (code c)) [38; 35]%nat).

(** [url.PathUnescape] of an escaped text. *)
Fixpoint unescape (s : string) : option string :=
  match s with
  | "" => Some ""
  | String c s' =>
      if (code c =? 37)%nat then
        match s' with
        | String a (String b s'') =>
            match hex_val a, hex_val b with
            | Some x, Some y => String (byte (Z.to_nat (16 * x + y))) <$> unescape s''
            | _, _ => None
            end
        | _ => None
        end
      else String c <$> unescape s'
  end.

Lemma escape_byte_cases c :
  (segment_safe c = true ∧ in_segment c = true ∧ (code c =? 37)%nat = false) ∨
  (segment_safe c = false ∧ ∃ a b, percent c = String (byte 37) (String a (String b "")) ∧
     bytes_all in_segment (percent c) = true ∧
     ∃ x y, hex_val a = Some x ∧ hex_val b = Some y ∧ byte (Z.to_nat (16 * x + y)) = c).
Proof.
  destruct c as [[] [] [] [] [] [] [] []];
    first [left; vm_compute; done
          | right; split; [reflexivity|]; eexists _, _; split; [vm_compute; reflexivity|]; split; [reflexivity|];
            eexists _, _; split; [vm_compute; reflexivity|]; split; [vm_compute; reflexivity|]; vm_compute; reflexivity].
Qed.

Lemma query_byte_ok c : bytes_all in_value (if unreserved c then String c "" else if (code c =? 32)%nat then "+" else percent c) = true.
Proof. destruct c as [[] [] [] [] [] [] [] []]; vm_compute; reflexivity. Qed.

Lemma PathEscape_ok m : bytes_all in_segment (PathEscape m) = true ∧ unescape (PathEscape m) = Some m.
Proof.
  induction m as [|c m [IH1 IH2]]; [done|]. cbn [PathEscape].
  destruct (escape_byte_cases c) as [(-> & Hs & Hp)|(-> & a & b & Hpc & Hb & x & y & Ha & Hy & Hc)].
  - change (String c "" +:+ ?z) with (String c z). cbn [bytes_all unescape]. by rewrite Hs, IH1, Hp, IH2.
  - rewrite bytes_all_app, Hb, IH1. split; [done|]. rewrite Hpc.
    change (String (byte 37) (String a (String b "")) +:+ ?z) with (String (byte 37) (String a (String b z))).
    cbn [unescape]. change (code (byte 37) =? 37)%nat with true. cbn iota. by rewrite Ha, Hy, IH2, Hc.
Qed.

Lemma QueryEscape_ok k : bytes_all in_value (QueryEscape k) = true.
Proof. induction k as [|c k IH]; [done|]. cbn [QueryEscape]. by rewrite bytes_all_app, query_byte_ok, IH. Qed.

(** A caller's model name cannot leave its place in Gemini's URL: it occupies one
    path segment, from which it can be read back, and the key is one value of the
    query. *)
Theorem gemini_url_confined (baseURL model method key : string) :
  ∃ segment value,
    gemini_url baseURL model method (QueryEscape key) = baseURL +:+ "/models/" +:+ segment +:+ ":" +:+ method +:+ value ∧
    bytes_all in_segment segment = true ∧ bytes_all in_value value = true ∧ unescape segment = Some model.
Proof.
  exists (PathEscape model), (QueryEscape key). destruct (PathEscape_ok model) as [H1 H2].
  split_and!; [done..| |done]. apply QueryEscape_ok.
Qed.

(** ** Embeddings *)

Definition embedding_answer (object model : string) (vectors : list string) : json :=
  JObj [("object", JStr object);
        ("data", JArr (map (fun v => JObj [("object", JStr "embedding"); ("index", jint 0); ("embedding", JStr v)]) vectors));
        ("model", JStr model)].

(** [encoding_format: base64] is accepted but cannot work: an answer that carries
    its vectors as base64 strings does not decode. *)
Theorem base64_embeddings_fail (json_error : string → string) (object model : string) (vectors : list string)
    (status : Z) :
  vectors ≠ [] →
  let body := Marshal (embedding_answer object model vectors) in
  decoded json_error st_embedding_response (mkEmbResp "" [] "" 0 0) (mkHttpResp status body None) = Err (json_error body).
Proof.
  intros Hne. cbn zeta.
  assert (∀ v, wf_json (JObj [("object", JStr "embedding"); ("index", jint 0); ("embedding", JStr v)])) as Hitem
    by (intros v; apply wf_obj; constructor; [done|constructor; [apply jint_wf|by repeat constructor]]).
  assert (wf_json (JArr (map (fun v => JObj [("object", JStr "embedding"); ("index", jint 0); ("embedding", JStr v)]) vectors)))
    as Harr by (apply wf_arr, Forall_map, Forall_forall; intros v _; apply Hitem).
  assert (wf_json (embedding_answer object model vectors)) as Hwf.
  { apply wf_obj. constructor; [done|]. constructor; [exact Harr|]. by repeat constructor. }
  unfold decoded. cbn [hs_Body]. rewrite DecodeFirst_marshal by done.
  assert (∀ o, (st_embedding_item (Marshal (JObj [("object", JStr "embedding"); ("index", jint 0); ("embedding", JStr o)]))
                 zero_embedding_item).2 = true) as Hbad.
  { intros o. unfold st_embedding_item. rewrite struct_members_marshal by apply Hitem. known_fields.
    rewrite st_string_marshal, st_int_marshal by (unfold in_int64, int64_min, int64_max; lia).
    assert (st_list fzero st_float32 (Marshal (JStr o)) (ei_Embedding zero_embedding_item) = ([], true)) as ->; [|done].
    unfold st_list. change (Marshal (JStr o)) with (json_quote o).
    destruct (String.eqb_spec (json_quote o) "null") as [E|_]; [discriminate E|]. done. }
  unfold st_embedding_response, embedding_answer. rewrite struct_members_marshal by done. known_fields.
  rewrite !st_string_marshal. unfold st_list at 1. rewrite elements_marshal by done.
  set (raw := Marshal (JArr _)). assert (String.eqb raw "null" = false) as ->.
  { unfold raw. destruct (marshal_total _ Harr) as [t Ht]. rewrite (Marshal_some _ _ Ht). rewrite marshal_arr in Ht.
    by apply bind_Some in Ht as (ts & _ & [= <-]). }
  destruct vectors as [|v vs]; [done|]. cbn [map existsb]. rewrite Hbad. done.
Qed.

Lemma base64_embeddings_fail_witness :
  decoded (fun _ => "cannot unmarshal string") st_embedding_response (mkEmbResp "" [] "" 0 0)
    (mkHttpResp 200 (Marshal (embedding_answer "list" "text-embedding-3-small" ["AACAPw=="])) None) =
  Err "cannot unmarshal string".
Proof. apply (base64_embeddings_fail (fun _ => "cannot unmarshal string") "list" "text-embedding-3-small" ["AACAPw=="] 200). discriminate. Defined.

Lemma resolved_embedding_name caps order model p :
  ResolveEmbedding caps order model = Some p →
  ∃ ms, EmbeddingModels (caps p) = Some ms ∧
    match Cut model "/" with Some (name, rest) => p_name p = name ∧ rest ∈ ms | None => model ∈ ms end.
Proof. unfold ResolveEmbedding. intros H. served; eauto. Qed.

(** A tenant's embedding models cannot be called by their own names.  When the
    embeddings endpoint picks the wrapper of a tenant's provider, the caller has
    written the provider's name before the published id, and the whole of it is
    what goes upstream: the wrapper only takes its prefix off the front, so the
    model the tenant registered is never what is asked for. *)
Theorem user_embeddings_misaddressed (caps : Provider → Caps) (order : list Provider) (p : Provider)
    (inner : OpenAICompat) (ownerID scope : string) (req : EmbeddingRequest) :
  let u := NewUserCompat inner ownerID scope in
  p_name p = co_name inner → p_name p ≠ "user" →
  EmbeddingModels (caps p) = Some (UserCompat_EmbeddingModels u) →
  ResolveEmbedding caps order (em_Model req) = Some p →
  ∃ m, m ∈ oa_embeddingModels (co_OpenAI inner) ∧
    em_Model req = co_name inner +:+ "/" +:+ uc_prefix u +:+ m ∧ em_Model req ≠ m ∧
    TrimPrefix (em_Model req) (uc_prefix u) = em_Model req.
Proof.
  cbn zeta. intros Hn Hu Hcaps Hr. apply resolved_embedding_name in Hr as (ms & Hms & Hserve).
  rewrite Hcaps in Hms. injection Hms as <-. unfold UserCompat_EmbeddingModels in Hserve. cbn [uc_inner NewUserCompat] in Hserve.
  set (u := NewUserCompat inner ownerID scope) in *.
  assert (uc_prefix u = "user/" +:+ co_name inner +:+ "/") as Hpre by done.
  assert (∀ x, Cut ("user" +:+ String "/" x) "/" = Some ("user", x)) as Hcut by (intros x; reflexivity).
  destruct (Cut (em_Model req) "/") as [[name rest]|] eqn:Hc.
  - destruct Hserve as [<- Hin]. apply list_elem_of_In, in_map_iff in Hin as (m & Hm & Hin). exists m.
    split; [by apply list_elem_of_In|]. pose proof Hc as Hc'. apply Cut_Some in Hc' as [He _].
    rewrite <- Hm, Hn in He. split_and!; [done| |].
    + rewrite He. intros E. apply (f_equal String.length) in E. rewrite !length_app_string in E.
      cbn [String.length] in E. rewrite length_app_string in E. lia.
    + unfold TrimPrefix. destruct (HasPrefix (em_Model req) (uc_prefix u)) eqn:Hh; [|done]. exfalso.
      apply HasPrefix_spec in Hh as [t Ht].
      rewrite Ht, Hpre, !app_assoc_string in Hc. change ("user/" +:+ ?z) with ("user" +:+ String "/" z) in Hc.
      rewrite Hcut in Hc. injection Hc as Hc _. congruence.
  - apply list_elem_of_In, in_map_iff in Hserve as (m & Hm & _). rewrite <- Hm, Hpre, !app_assoc_string in Hc.
    change ("user/" +:+ ?z) with ("user" +:+ String "/" z) in Hc. by rewrite Hcut in Hc.
Qed.

Definition tenant : OpenAICompat := NewOpenAICompat "acme" "sk" "https://acme.example/v1" [] ["emb"] [] [].
Definition acme : Provider := mkProvider 9 "acme".

Lemma user_embeddings_misaddressed_witness :
  let u := NewUserCompat tenant "" "" in
  let caps _ := mkCaps [] (Some (UserCompat_EmbeddingModels u)) None None in
  let ask m := ResolveEmbedding caps [acme] m in
  ask "user/acme/emb" = None ∧ ask "acme/emb" = None ∧ ask "acme/user/acme/emb" = Some acme ∧
  ∃ m, m ∈ ["emb"] ∧ TrimPrefix "acme/user/acme/emb" (uc_prefix u) = "acme/user/acme/emb" ∧ "acme/user/acme/emb" ≠ m.
Proof.
  split; [vm_compute; reflexivity|]. split; [vm_compute; reflexivity|]. split; [vm_compute; reflexivity|].
  destruct (user_embeddings_misaddressed
    (fun _ => mkCaps [] (Some (UserCompat_EmbeddingModels (NewUserCompat tenant "" ""))) None None) [acme] acme tenant "" ""
    (mkEmbReq "acme/user/acme/emb" "" "" "" None)) as (m & Hm & _ & Hne & Ht);
    [reflexivity|discriminate|reflexivity|vm_compute; reflexivity|].
  exists m. exact (conj Hm (conj Ht Hne)).
Defined.

(** ** The type of stream events *)

Definition set_fields (e : StreamEvent) : nat :=
  ((if ev_Chunk e is Some _ then 1 else 0) + (if ev_Raw e is Some _ then 1 else 0) + (if ev_Err e is Some _ then 1 else 0) +
   (if ev_Done e then 1 else 0))%nat.

Lemma terminated_typed evs : terminated evs → Forall (fun e => set_fields e = 1%nat) evs.
Proof.
  intros (ks & l & -> & H). apply Forall_app. split; [apply Forall_map, Forall_forall; by intros|].
  constructor; [|constructor]. by destruct H as [->|[e ->]].
Qed.

Lemma raw_scan_typed (P : StreamEvent → Prop) emit ev ls :
  (∀ raw, P (emit raw)) → Forall P (raw_scan emit ev ls).
Proof.
  intros H. revert ev. induction ls as [|l ls IH]; intros ev; cbn; [constructor|].
  case_match; [|apply IH]. case_match; [|apply IH]. by constructor.
Qed.

Lemma final_error_typed err : Forall (fun e => set_fields e = 1%nat ∧ is_Some (ev_Err e)) (final_error err).
Proof.
  unfold final_error. destruct err as [e|]; [|constructor]. destruct (quiet_error e); [constructor|].
  constructor; [by split|constructor].
Qed.

(** [C32] The type of a stream event promises that exactly one of its fields is set.
    Every parser keeps the promise but the one that passes bytes through, whose
    events hold their bytes together with a chunk or an error; none of its events
    signals the end. *)
Theorem stream_events_typed (json_error : string → string) (fmt_float : float64 → string) (model : string)
    (created : Z) (text : string) (err : option string) :
  Forall (fun e => set_fields e = 1%nat) (parseOpenAISSE json_error text err) ∧
  Forall (fun e => set_fields e = 1%nat) (parseSSE model created text err) ∧
  Forall (fun e => set_fields e = 1%nat) (gemini_stream fmt_float model created text err) ∧
  Forall (fun e => set_fields e = 1%nat) (scanOpenAISSERaw text err) ∧
  Forall (fun e => ev_Done e = false ∧ (set_fields e = 1%nat ∨ set_fields e = 2%nat ∧ is_Some (ev_Raw e)))
    (parseOpenAISSEWithRaw json_error text err).
Proof.
  destruct (streams_terminated_lemma json_error fmt_float model created text err) as (H1 & H2 & H3).
  split_and!; [by apply terminated_typed..| |].
  - unfold scanOpenAISSERaw. destruct (scan text err) as [ls e]. apply Forall_app. split; [by apply raw_scan_typed|].
    eapply Forall_impl; [apply final_error_typed|]. by intros x [Hx _].
  - unfold parseOpenAISSEWithRaw. destruct (scan text err) as [ls e]. apply Forall_app. split.
    + apply raw_scan_typed. intros raw. unfold raw_event. repeat case_match; (split; [done|]); eauto.
    + eapply Forall_impl; [apply final_error_typed|]. intros x [Hx [y Hy]]. split; [|by left].
      unfold set_fields in Hx. rewrite Hy in Hx. destruct (ev_Done x); [|done].
      destruct (ev_Chunk x), (ev_Raw x); discriminate Hx.
Qed.
