(* ===== verification/Regex.v ===== *)
(** * Regex: the regular expressions the evaluators use (Go's regexp)

    Literals, classes, [?], [*], bounded repetition and word boundaries, with the
    leftmost-first semantics of [regexp]: the ways an expression matches at a place
    are listed in the order of preference.  All classes used are of ASCII, so
    bytes stand for runes. *)

From S2P Require Import Prelude GoString GoUrl.
Local Open Scope string_scope.

Definition text := list ascii.

Inductive re :=
| Eps
| Chr (p : ascii → bool)
| Seq (a b : re)
| Opt (a : re)
| Star (a : re)
| WordB.

(** [\w]. *)
Definition word_byte (c : ascii) : bool := is_alpha c || is_num c || Ascii.eqb c "_".
Definition at_word (c : option ascii) : bool := match c with Some c => word_byte c | None => false end.

(** A place in the text: the byte before it, and the text after it. *)
Definition place : Type := option ascii * text.

Fixpoint star_runs (f : option ascii → text → list place) (fuel : nat) (prev : option ascii) (s : text) : list place :=
  match fuel with
  | O => [(prev, s)]
  | S n =>
      (flat_map (fun '(p, s') => if (length s' <? length s)%nat then star_runs f n p s' else []) (f prev s)
         ++ [(prev, s)])%list
  end.

(** The places where a match from here can end, the preferred one first. *)
Fixpoint runs (r : re) (prev : option ascii) (s : text) : list place :=
  match r with
  | Eps => [(prev, s)]
  | Chr p => match s with c :: s' => if p c then [(Some c, s')] else [] | [] => [] end
  | Seq a b => flat_map (fun '(p, s') => runs b p s') (runs a prev s)
  | Opt a => (runs a prev s ++ [(prev, s)])%list
  | Star a => star_runs (runs a) (length s) prev s
  | WordB => if xorb (at_word prev) (at_word (head s)) then [(prev, s)] else []
  end.

Fixpoint times (n : nat) (a : re) : re := match n with O => Eps | S n => Seq a (times n a) end.
(** [a{lo,lo+k}], [a+] and [a{lo,}]. *)
Fixpoint at_most (k : nat) (a : re) : re := match k with O => Eps | S k => Opt (Seq a (at_most k a)) end.
Definition upto_more (lo k : nat) (a : re) : re := Seq (times lo a) (at_most k a).
Definition at_least (lo : nat) (a : re) : re := Seq (times lo a) (Star a).
Definition plus (a : re) : re := at_least 1 a.
Definition lit_re (s : string) : re := fold_right (fun c r => Seq (Chr (Ascii.eqb c)) r) Eps (String.list_ascii_of_string s).
Definition seqs (l : list re) : re := fold_right Seq Eps l.
Definition digit : re := Chr is_num.
Definition class (extra : string) : re := Chr (fun c => is_alpha c || is_num c || byte_of extra c).

Fixpoint search (r : re) (prev : option ascii) (s : text) : bool :=
  match runs r prev s with
  | _ :: _ => true
  | [] => match s with c :: s' => search r (Some c) s' | [] => false end
  end.

(** [MatchString]. *)
Definition MatchString (r : re) (s : string) : bool := search r None (String.list_ascii_of_string s).

(** The whole text matches: an expression between [^] and [$]. *)
Definition full_match (r : re) (s : string) : bool :=
  existsb (fun '(_, rest) => match rest with [] => true | _ => false end) (runs r None (String.list_ascii_of_string s)).

(** [ReplaceAllString] with a literal, for an expression that does not match the
    empty text; the search goes on behind each match. *)
Fixpoint replace (r : re) (repl : text) (fuel : nat) (prev : option ascii) (s : text) : text :=
  match fuel with
  | O => s
  | S n =>
      let skip := match s with c :: s' => c :: replace r repl n (Some c) s' | [] => [] end in
      match runs r prev s with
      | (p, s') :: _ => if (length s' <? length s)%nat then (repl ++ replace r repl n p s')%list else skip
      | [] => skip
      end
  end.

Definition ReplaceAllString (r : re) (s repl : string) : string :=
  let t := String.list_ascii_of_string s in
  String.string_of_list_ascii (replace r (String.list_ascii_of_string repl) (S (length t)) None t).

(** ** What a match consists of *)

Fixpoint alphabet (r : re) (c : ascii) : bool :=
  match r with
  | Eps | WordB => false
  | Chr p => p c
  | Seq a b => alphabet a c || alphabet b c
  | Opt a | Star a => alphabet a c
  end.

Definition reads (ok : ascii → bool) (s s' : text) : Prop := ∃ used, s = (used ++ s')%list ∧ Forall (fun c => ok c = true) used.

Lemma reads_refl ok s : reads ok s s.
Proof. by exists []. Qed.
Lemma reads_trans ok s s' s'' : reads ok s s' → reads ok s' s'' → reads ok s s''.
Proof. intros (u & -> & Hu) (v & -> & Hv). exists (u ++ v)%list. rewrite <- app_assoc. split; [done|by apply Forall_app]. Qed.
Lemma reads_weaken (ok ok' : ascii → bool) s s' : (∀ c, ok c = true → ok' c = true) → reads ok s s' → reads ok' s s'.
Proof. intros H (u & -> & Hu). exists u. split; [done|]. eapply Forall_impl; [exact Hu|done]. Qed.

Lemma star_runs_reads ok f fuel prev s p s' :
  (∀ prev s p s', In (p, s') (f prev s) → reads ok s s') → In (p, s') (star_runs f fuel prev s) → reads ok s s'.
Proof.
  intros Hf. revert prev s. induction fuel as [|n IH]; intros prev s H; cbn [star_runs] in H.
  - destruct H as [[= <- <-]|[]]. apply reads_refl.
  - apply in_app_or in H as [H|[[= <- <-]|[]]]; [|apply reads_refl].
    apply in_flat_map in H as ([q t] & Hq & H). destruct (Nat.ltb _ _); [|done].
    eapply reads_trans; [by eapply Hf|by eapply IH].
Qed.

Lemma runs_reads r prev s p s' : In (p, s') (runs r prev s) → reads (alphabet r) s s'.
Proof.
  revert prev s p s'. induction r as [|q|a IHa b IHb|a IHa|a IHa|]; intros prev s p s' H; cbn in H |- *.
  - destruct H as [[= <- <-]|[]]. apply reads_refl.
  - destruct s as [|c s]; [done|]. destruct (q c) eqn:Hq; [|done]. destruct H as [[= <- <-]|[]].
    exists [c]. split; [done|]. by constructor.
  - apply in_flat_map in H as ([q t] & Hq & H). eapply reads_trans.
    + eapply reads_weaken; [|by eapply IHa]. cbn. intros c ->. done.
    + eapply reads_weaken; [|by eapply IHb]. cbn. intros c ->. apply orb_true_r.
  - apply in_app_or in H as [H|[[= <- <-]|[]]]; [by eapply IHa|apply reads_refl].
  - by eapply star_runs_reads in H.
  - destruct (xorb _ _); [|done]. destruct H as [[= <- <-]|[]]. apply reads_refl.
Qed.

(** An expression that never matches the empty text. *)
Definition consumes (r : re) : Prop := ∀ prev s p s', In (p, s') (runs r prev s) → (length s' < length s)%nat.

Lemma runs_length r prev s p s' : In (p, s') (runs r prev s) → (length s' ≤ length s)%nat.
Proof. intros (u & -> & _)%runs_reads. rewrite length_app. lia. Qed.

Lemma consumes_chr q : consumes (Chr q).
Proof. intros prev s p s' H. cbn in H. destruct s as [|c s]; [done|]. destruct (q c); [|done]. destruct H as [[= <- <-]|[]]. cbn. lia. Qed.
Lemma consumes_seq_l a b : consumes a → consumes (Seq a b).
Proof.
  intros Ha prev s p s' H. cbn in H. apply in_flat_map in H as ([q t] & Hq & H). apply runs_length in H. apply Ha in Hq. lia.
Qed.
Lemma consumes_seq_r a b : consumes b → consumes (Seq a b).
Proof.
  intros Hb prev s p s' H. cbn in H. apply in_flat_map in H as ([q t] & Hq & H). apply runs_length in Hq. apply Hb in H. lia.
Qed.

(** ** Searching and replacing *)

Lemma replace_no_match r repl fuel prev s :
  (length s < fuel)%nat → search r prev s = false → replace r repl fuel prev s = s.
Proof.
  revert prev s. induction fuel as [|n IH]; intros prev s Hn H; [done|]. cbn.
  destruct s as [|c s]; cbn in *; destruct (runs r prev _); try done.
  f_equal. apply IH; [lia|done].
Qed.

Fixpoint count (b : ascii) (s : text) : nat :=
  match s with [] => 0 | c :: s' => (if Ascii.eqb c b then 1 else 0) + count b s' end.

Lemma count_app b s t : count b (s ++ t)%list = (count b s + count b t)%nat.
Proof. induction s as [|c s IH]; cbn; [done|]. rewrite IH. lia. Qed.

Lemma count_outside ok b s : ok b = false → Forall (fun c => ok c = true) s → count b s = 0%nat.
Proof.
  intros Hb. induction 1 as [|c s Hc Hs IH]; cbn; [done|]. destruct (Ascii.eqb_spec c b) as [->|]; [by rewrite Hb in Hc|done].
Qed.

(** A byte that no match contains is never lost, and each replacement adds those
    of the replacement. *)
Lemma replace_count r repl b fuel prev s :
  consumes r → alphabet r b = false → (length s < fuel)%nat →
  ∃ k, count b (replace r repl fuel prev s) = (count b s + k * count b repl)%nat ∧ (search r prev s = true → (1 ≤ k)%nat).
Proof.
  intros Hr Hb. revert prev s. induction fuel as [|n IH]; intros prev s Hn; [lia|]. cbn [replace].
  destruct (runs r prev s) as [|[p s'] l] eqn:E.
  - destruct s as [|c s]; cbn [search]; rewrite E.
    + exists 0%nat. cbn. split; [lia|done].
    + cbn in Hn. destruct (IH (Some c) s ltac:(lia)) as (k & Hk & Hs). exists k. cbn [count]. rewrite Hk. split; [lia|done].
  - pose proof (Hr prev s p s' ltac:(rewrite E; by left)) as Hlt. apply Nat.ltb_lt in Hlt as Hlt'. rewrite Hlt'.
    destruct (runs_reads r prev s p s' ltac:(rewrite E; by left)) as (u & -> & Hu).
    rewrite length_app in Hn, Hlt. destruct (IH p s' ltac:(lia)) as (k & Hk & _).
    exists (S k). rewrite !count_app, Hk, (count_outside _ _ _ Hb Hu). split; [lia|lia].
Qed.
