(* ===== verification/Evals.v ===== *)
(** * Evals: src/internal/evals

    Scores, evaluation profiles and their store (score.go, profiles.go,
    profile_store.go), the lookup of a profile's key (secret_resolver.go,
    store_secret_lookup.go), the evaluators (heuristics.go, judge.go, remote.go,
    prompt.go, override.go).  The worker and the batcher are in [EvalWorker].

    The random numbers, the clock and the answers of HTTP servers are arguments.  A
    request body is kept as the value that is marshalled. *)

From stdpp Require Import pretty.
From S2P Require Import Prelude GoString GoTime Float64 GoSort GoUrl Json CoreStore GwTypes Regex.
Local Open Scope string_scope.
Local Open Scope Z_scope.
Local Open Scope go_scope.

(** ** score.go *)

Record Score := mkScore {
  sc_TraceID : string;
  sc_OrgID : string;
  sc_UserID : string;
  sc_RequestModel : string;
  sc_Timestamp : Time;
  sc_Evaluator : string;
  sc_Metric : string;
  sc_Score : float64;
  sc_Passed : bool;
  sc_Rationale : string;
  sc_JudgeModel : string
}.

(** A score as an evaluator makes it: nothing is known of its owner. *)
Definition bare_score (traceID : string) (at_ : Time) (evaluator metric : string) (score : float64) (passed : bool)
    (rationale judgeModel : string) : Score :=
  mkScore traceID "" "" "" at_ evaluator metric score passed rationale judgeModel.

Definition UnattributedOrgID : string := "unattributed".

Definition orgOrDefault (org : string) : string := if String.eqb (TrimSpace org) "" then DefaultOrgID else org.

(** ** profiles.go *)

Definition KeySourceOrg : string := "org".
Definition KeySourceUser : string := "user".
Definition KeySourceInline : string := "inline".
Definition KeySourceBuiltin : string := "builtin".

Definition ProfileHeuristicPII : string := "heuristic_pii".
Definition ProfileHeuristicCompleteness : string := "heuristic_completeness".
Definition ProfileSLMJudge : string := "slm_judge".
Definition ProfileRemoteEval : string := "remote_eval".

Definition ProfileScopeOrg : string := "org".
Definition ProfileScopeUser : string := "user".

Record EvalEndpoint := mkEndpoint { ee_BaseURL : string; ee_Model : string; ee_KeySource : string; ee_KeyRef : string }.

Record EvalProfile := mkProfile {
  ep_ID : string;
  ep_OrgID : string;
  ep_Name : string;
  ep_Kind : string;
  ep_Scope : string;
  ep_OwnerUserID : string;
  ep_Endpoint : EvalEndpoint;
  ep_Metrics : list string;
  ep_Threshold : float64;
  ep_SampleRate : float64;
  ep_Enabled : bool;
  ep_CreatedAt : Time;
  ep_UpdatedAt : Time
}.

Definition validKind (k : string) : bool :=
  existsb (String.eqb k) [ProfileHeuristicPII; ProfileHeuristicCompleteness; ProfileSLMJudge; ProfileRemoteEval].

Definition is_heuristic (k : string) : bool :=
  String.eqb k ProfileHeuristicPII || String.eqb k ProfileHeuristicCompleteness.

(** [Validate]: the first error. *)
Definition profile_Validate (p : EvalProfile) : option string :=
  let ep := ep_Endpoint p in
  if String.eqb (TrimSpace (ep_Name p)) "" then Some "name is required"
  else if negb (validKind (ep_Kind p)) then
    Some "kind must be one of heuristic_pii | heuristic_completeness | slm_judge | remote_eval"
  else if negb (String.eqb (ep_Scope p) ProfileScopeOrg) && negb (String.eqb (ep_Scope p) ProfileScopeUser) then
    Some "scope must be org or user"
  else if String.eqb (ep_Scope p) ProfileScopeUser && String.eqb (TrimSpace (ep_OwnerUserID p)) "" then
    Some "scope=user requires owner_user_id"
  else if flt (ep_SampleRate p) fzero || fgt (ep_SampleRate p) fone then Some "sample_rate must be in [0,1]"
  else if is_heuristic (ep_Kind p) then
    if negb (String.eqb (ee_KeySource ep) "") && negb (String.eqb (ee_KeySource ep) KeySourceBuiltin)
    then Some "heuristic profiles must use key_source=builtin" else None
  else if String.eqb (ee_BaseURL ep) "" then Some "non-heuristic profiles require endpoint.base_url"
  else if String.eqb (ee_KeySource ep) KeySourceInline && String.eqb (ee_KeyRef ep) "" then
    Some "key_source=inline requires a server-side key_ref token"
  else None.

(** ** profile_store.go *)

Definition NormalizeProfileOrgID (org : string) : string := if String.eqb org "default" then "" else org.

Definition VisibleToOrg (p : EvalProfile) (org : string) : bool :=
  let own := NormalizeProfileOrgID (ep_OrgID p) in
  String.eqb own "" || String.eqb own (NormalizeProfileOrgID org).

Record ProfileMem := mkProfileMem { pm_profiles : gmap string EvalProfile; pm_counter : Z }.

(** [List]; a range over a map has no fixed order, the one of the keys stands for it. *)
Definition profiles_List (org owner : string) (m : ProfileMem) : list EvalProfile :=
  List.filter (fun p =>
    (String.eqb org "" || VisibleToOrg p org) &&
    negb (String.eqb (ep_Scope p) ProfileScopeUser && negb (String.eqb owner "") && negb (String.eqb (ep_OwnerUserID p) owner)))
    (map snd (map_to_list (pm_profiles m))).

Definition profiles_Get (id : string) (m : ProfileMem) : option EvalProfile := pm_profiles m !! id.

Definition stamp_profile (id : string) (created updated : Time) (p : EvalProfile) : EvalProfile :=
  mkProfile id (ep_OrgID p) (ep_Name p) (ep_Kind p) (ep_Scope p) (ep_OwnerUserID p) (ep_Endpoint p) (ep_Metrics p)
    (ep_Threshold p) (ep_SampleRate p) (ep_Enabled p) created updated.

(** [Save] at the time [now]; it fills in the caller's profile too. *)
Definition profiles_Save (now : Time) (p : EvalProfile) (m : ProfileMem) : res string EvalProfile * ProfileMem :=
  match profile_Validate p with
  | Some err => (Err err, m)
  | None =>
      let blank := String.eqb (TrimSpace (ep_ID p)) "" in
      let counter := if blank then (pm_counter m + 1) mod 2 ^ 64 else pm_counter m in
      let id := if blank then "ep_" +:+ pretty now +:+ "_" +:+ pretty counter else ep_ID p in
      let created0 := if blank then ep_CreatedAt p
                      else from_option ep_CreatedAt (ep_CreatedAt p) (pm_profiles m !! id) in
      let created := if created0 =? zero_time then now else created0 in
      let p' := stamp_profile id created now p in
      (Ok p', mkProfileMem (<[id := p']> (pm_profiles m)) counter)
  end.

Definition profiles_Delete (id : string) (m : ProfileMem) : ProfileMem :=
  mkProfileMem (delete id (pm_profiles m)) (pm_counter m).

(** ** secret_resolver.go *)

Inductive secret_err := ErrSecretNotFound | SecretStore (e : store_err) | SecretFailed (what : string).

Record inlineEntry := mkInline { in_plain : string; in_expires : Time }.

(** The 32 shards of inline secrets. *)
Abbreviation shards := (list (gmap string inlineEntry)).
Definition no_shards : shards := replicate 32 ∅.

(** FNV-1a on 32 bits. *)
Definition fnv (s : string) : Z :=
  fold_left (fun h c => (Z.lxor h (Z.of_nat (nat_of_ascii c)) * 16777619) mod 2 ^ 32)
    (String.list_ascii_of_string s) 2166136261.
Definition shardIndex (s : string) : nat := Z.to_nat (fnv s mod 32).

Definition RegisterInline (keyRef plaintext : string) (expires : Time) (r : shards) : shards :=
  if String.eqb keyRef "" || String.eqb plaintext "" then r
  else alter (insert keyRef (mkInline plaintext expires)) (shardIndex keyRef) r.

Definition RevokeInline (keyRef : string) (r : shards) : shards :=
  if String.eqb keyRef "" then r else alter (delete keyRef) (shardIndex keyRef) r.

Definition inline_entry (keyRef : string) (r : shards) : option inlineEntry := (r !! shardIndex keyRef) ≫= lookup keyRef.

(** The text behind the first [sub]. *)
Fixpoint after (sub s : string) : option string :=
  if HasPrefix s sub then Some (drop_bytes (String.length sub) s)
  else match s with "" => None | String _ s' => after sub s' end.

Definition deriveProviderFromURL (raw : string) : string :=
  if String.eqb raw "" then ""
  else
    let s := default raw (after "://" raw) in
    let s := fst (cut_or s "/") in
    fst (cut_or s ".").

(** What the resolver needs of the tables; [sl_Inline] is never called. *)
Class SecretLookup := {
  sl_Org : string → res secret_err string;
  sl_User : string → string → res secret_err string
}.

(** [Resolve] at the time [now]; [orgProvider] is the configured fallback. *)
Definition secret_Resolve `{SecretLookup} (orgProvider : string) (now : Time) (r : shards) (t : Trace) (ep : EvalEndpoint) :
    res secret_err string :=
  let src := ee_KeySource ep in
  if String.eqb src KeySourceBuiltin || String.eqb src "" then Ok ""
  else if String.eqb src KeySourceOrg then
    sl_Org (if String.eqb (ee_BaseURL ep) "" then orgProvider else deriveProviderFromURL (ee_BaseURL ep))
  else if String.eqb src KeySourceUser then
    let owner := if String.eqb (ee_KeyRef ep) "" then t_UserID (t_base t) else ee_KeyRef ep in
    sl_User (deriveProviderFromURL (ee_BaseURL ep)) owner
  else if String.eqb src KeySourceInline then
    match inline_entry (ee_KeyRef ep) r with
    | None => Err ErrSecretNotFound
    | Some e => if negb (in_expires e =? zero_time) && After now (in_expires e)
                then Err (SecretFailed "inline secret expired") else Ok (in_plain e)
    end
  else Err (SecretFailed "unknown key_source").

(** ** store_secret_lookup.go *)

(** [Org] and [User] over the tables: the org is the one of the lookup, which
    cmd/nexus/main.go fixes to [default]. *)
Definition resolve_in (E : env) (org user provider : string) (w : world) : res secret_err string :=
  match fst (ResolveCredential E org user provider w) with
  | Ok (cred, _) => Ok (dc_Secret cred)
  | Err ErrNotFound => Err ErrSecretNotFound
  | Err e => Err (SecretStore e)
  end.

Definition StoreSecretLookup (E : env) (org : string) (w : world) : SecretLookup := {|
  sl_Org provider := resolve_in E org "" provider w;
  sl_User provider user := if String.eqb user "" then resolve_in E org "" provider w else resolve_in E org user provider w
|}.

(** ** heuristics.go *)

Definition space_re : ascii → bool := byte_of (bytes [9; 10; 12; 13; 32]%nat).
Definition sep_re : re := Opt (Chr (fun c => space_re c || byte_of ".-" c)).

Definition eval_reEmail : re :=
  seqs [plus (class "._%+-"); lit_re "@"; plus (class ".-"); lit_re "."; at_least 2 (Chr is_alpha)].
Definition eval_rePhone : re :=
  seqs [WordB; Opt (seqs [Opt (lit_re "+"); upto_more 1 2 digit; sep_re]);
        Opt (lit_re "("); times 3 digit; Opt (lit_re ")"); sep_re; times 3 digit; sep_re; times 4 digit; WordB].
Definition eval_reSSN : re := seqs [WordB; times 3 digit; lit_re "-"; times 2 digit; lit_re "-"; times 4 digit; WordB].
Definition eval_reCard : re := seqs [WordB; upto_more 13 3 (Seq digit (Opt (Chr (byte_of " -")))); WordB].

Definition pii_hits (text : string) : list string :=
  map snd (List.filter (fun rn => MatchString (fst rn) text) [(eval_reEmail, "email"); (eval_reSSN, "ssn"); (eval_rePhone, "phone"); (eval_reCard, "card")]).

Definition PIIEvaluate (now : Time) (t : Trace) : list Score :=
  let hits := pii_hits (OutputMessages t) in
  let passed := match hits with [] => true | _ => false end in
  [bare_score (TraceID (t_base t)) now "heuristic_pii" "pii_leak" (if passed then fone else fzero) passed
     (if passed then "no PII patterns detected" else "detected PII patterns: [" +:+ Join hits " " +:+ "]") ""].

Definition CompletenessEvaluate (now : Time) (t : Trace) : list Score :=
  let '(score, passed, why) :=
    if String.eqb (OutputMessages t) "" && (StatusCode t =? 200) then (fzero, false, "empty response body")
    else if String.eqb (FinishReason t) "length" then (lit 1 2, false, "response truncated (finish_reason=length)")
    else (fone, true, "response present and not truncated") in
  [bare_score (TraceID (t_base t)) now "heuristic_completeness" "completeness" score passed why ""].

(** ** prompt.go *)

Record chatMsg := mkChatMsg { cm_role : string; cm_content : string }.

Definition st_chatMsg : store chatMsg := fun raw old =>
  let '(ms, e) := struct_members raw in
  fill r := field "role" st_string (cm_role old) ms in
  fill c := field "content" st_string (cm_content old) ms in (mkChatMsg r c, e).

Definition extractPrompt (input : string) : string :=
  match ok_or (Unmarshal (st_list (mkChatMsg "" "") st_chatMsg) [] input) with
  | None => input
  | Some msgs =>
      match List.filter (fun m => String.eqb (cm_role m) "user" && negb (String.eqb (cm_content m) "")) (reverse msgs) with
      | m :: _ => cm_content m
      | [] =>
          match List.filter (fun c => negb (String.eqb c "")) (map cm_content msgs) with
          | [] => input
          | cs => Join cs (bytes [10]%nat)
          end
      end
  end.

Definition parseRetrievalContexts (raw : string) : list string :=
  if String.eqb raw "" then [] else default [] (ok_or (Unmarshal (st_list "" st_string) [] raw)).

Definition contextMetrics : list string := ["hallucination"; "ragas_faithfulness"].

Definition mergeContextMetrics (base contexts : list string) : list string :=
  match contexts with
  | [] => base
  | _ => fold_left (fun out m => if existsb (String.eqb m) out then out else (out ++ [m])%list) contextMetrics base
  end.

(** ** override.go *)

Record EvalOverride := mkOverride { ov_JudgeURL : string; ov_JudgeModel : string; ov_Embeddings : string; ov_Threshold : float64 }.

Definition overrideFromProfile (p : EvalProfile) : option EvalOverride :=
  if is_heuristic (ep_Kind p) then None
  else Some (mkOverride (ee_BaseURL (ep_Endpoint p)) (ee_Model (ep_Endpoint p)) "" (ep_Threshold p)).

(** ** Requests to judges and sidecars *)

Record RemoteEvaluatorRequest := mkRemoteReq {
  rq_TraceID : string;
  rq_Model : string;
  rq_Input : string;
  rq_Output : string;
  rq_Contexts : list string;
  rq_Reference : string;
  rq_Metrics : list string;
  rq_JudgeURL : string;
  rq_JudgeModel : string;
  rq_Threshold : float64
}.

Inductive eval_payload :=
| JudgeChat (model system user : string)
| RemoteSingle (r : RemoteEvaluatorRequest)
| RemoteBatch (items : list RemoteEvaluatorRequest).

(** A POST: where to, the bearer token (empty for none), and the body. *)
Record eval_post := mkPost { po_url : string; po_bearer : string; po_body : eval_payload }.

(** The answer of a server: a status and a body, or a failure of the transport. *)
Definition eval_transport : Type := eval_post → res string (Z * string).

Definition eval_clamp01 (f : float64) : float64 := if flt f fzero then fzero else if fgt f fone then fone else f.
Definition eval_truncate (s : string) (n : Z) : string := take_bytes (Z.to_nat n) s.
Definition strip_slashes (s : string) : string :=
  String.string_of_list_ascii (reverse (trim_slashes (reverse (String.list_ascii_of_string s)))).

(** [post] and the status check of the judge. *)
Definition eval_do (tr : eval_transport) (p : eval_post) : res string string :=
  match tr p with
  | Err e => Err e
  | Ok (status, raw) => if status =? 200 then Ok raw else Err ("upstream " +:+ pretty status +:+ ": " +:+ eval_truncate raw 200)
  end.

(** ** judge.go *)

Record SLMJudge := mkJudge { sj_baseURL : string; sj_model : string; sj_apiKey : string; sj_timeout : Duration }.

Definition NewSLMJudge (baseURL model apiKey : string) (timeout : Duration) : option SLMJudge :=
  if String.eqb baseURL "" || String.eqb model "" then None
  else Some (mkJudge (strip_slashes baseURL) model apiKey (if timeout =? 0 then 20 * Second else timeout)).

Definition judgeSystemPrompt : string :=
  "You are a strict evaluator of AI assistant responses. Given a user prompt and the assistant's answer, rate the answer's overall quality (correctness, relevance, helpfulness) from 0.0 to 1.0. Respond with ONLY a compact JSON object: {" +:+
  dq +:+ "score" +:+ dq +:+ ": <float 0..1>, " +:+ dq +:+ "rationale" +:+ dq +:+ ": " +:+ dq +:+ "<one sentence>" +:+ dq +:+
  "}. Do not include any other text.".

Record judgeVerdict := mkVerdict { jv_Score : float64; jv_Rationale : string }.

Definition st_verdict : store judgeVerdict := fun raw old =>
  let '(ms, e) := struct_members raw in
  fill s := field "score" st_float (jv_Score old) ms in
  fill r := field "rationale" st_string (jv_Rationale old) ms in (mkVerdict s r, e).

(** [reJSONObj]: from the first opening brace to the last closing one. *)
Definition json_object_in (content : string) : option string :=
  match IndexByte content "{" with
  | None => None
  | Some i =>
      let s := drop_bytes i content in
      match LastIndex s "}" with Some j => Some (take_bytes (S j) s) | None => None end
  end.

Definition parseVerdict (content : string) : option judgeVerdict :=
  let jsonStr := if HasPrefix (TrimSpace content) "{" then content else default content (json_object_in content) in
  ok_or (Unmarshal st_verdict (mkVerdict fzero "") jsonStr).

(** The contents of the choices of a reply. *)
Definition st_judge_choice : store chatMsg := fun raw old =>
  let '(ms, e) := struct_members raw in fill m := field "message" st_chatMsg old ms in (m, e).
Definition st_chat_reply : store (list chatMsg) := fun raw old =>
  let '(ms, e) := struct_members raw in
  fill cs := field "choices" (st_list (mkChatMsg "" "") st_judge_choice) old ms in (cs, e).

Definition judge_content (t : Trace) : string :=
  let nl := bytes [10]%nat in
  "User prompt:" +:+ nl +:+ eval_truncate (InputMessages (t_base t)) 4000 +:+ nl +:+ nl +:+ "Assistant answer:" +:+ nl +:+
  eval_truncate (OutputMessages t) 4000.

(** The request the judge makes for a trace. *)
Definition judge_post (j : SLMJudge) (t : Trace) : eval_post :=
  mkPost (sj_baseURL j +:+ "/chat/completions") (sj_apiKey j) (JudgeChat (sj_model j) judgeSystemPrompt (judge_content t)).

Definition judge_Evaluate (tr : eval_transport) (now : Time) (j : SLMJudge) (t : Trace) : res string (list Score) :=
  if String.eqb (InputMessages (t_base t)) "" || String.eqb (OutputMessages t) "" then Ok []
  else match eval_do tr (judge_post j t) with
  | Err e => Err e
  | Ok raw =>
      match ok_or (Unmarshal st_chat_reply [] raw) with
      | None => Err "decode"
      | Some [] => Err "judge returned no choices"
      | Some (c :: _) =>
          match parseVerdict (cm_content c) with
          | None => Err "parse judge verdict"
          | Some v =>
              let score := eval_clamp01 (jv_Score v) in
              Ok [bare_score (TraceID (t_base t)) now "slm_judge" "quality" score (fge score (lit 3 5)) (jv_Rationale v) (sj_model j)]
          end
      end
  end.

(** ** remote.go *)

Record RemoteEvaluator := mkRemote { re_baseURL : string; re_metrics : list string; re_apiKey : string; re_timeout : Duration }.

Definition NewRemoteEvaluator (baseURL : string) (metrics : list string) (apiKey : string) (timeout : Duration) :
    option RemoteEvaluator :=
  if String.eqb baseURL "" then None
  else Some (mkRemote (strip_slashes baseURL) metrics apiKey (if timeout =? 0 then 30 * Second else timeout)).

Definition buildRequest (r : RemoteEvaluator) (t : Trace) (ov : option EvalOverride) : RemoteEvaluatorRequest :=
  let contexts := parseRetrievalContexts (RetrievalContexts (t_base t)) in
  let '(url, model, threshold) :=
    match ov with
    | None => ("", "", fzero)
    | Some o => (ov_JudgeURL o, if String.eqb (ov_JudgeURL o) "" then "" else ov_JudgeModel o,
                 if fgt (ov_Threshold o) fzero then ov_Threshold o else fzero)
    end in
  mkRemoteReq (TraceID (t_base t)) (RequestModel t) (eval_truncate (extractPrompt (InputMessages (t_base t))) 8000)
    (eval_truncate (OutputMessages t) 8000) contexts (EvalReference (t_base t)) (mergeContextMetrics (re_metrics r) contexts)
    url model threshold.

Record remoteScore := mkRemoteScore {
  rm_Evaluator : string; rm_Metric : string; rm_Score : float64; rm_Passed : bool; rm_Rationale : string; rm_JudgeModel : string
}.

Definition st_remoteScore : store remoteScore := fun raw old =>
  let '(ms, e) := struct_members raw in
  fill a := field "evaluator" st_string (rm_Evaluator old) ms in
  fill b := field "metric" st_string (rm_Metric old) ms in
  fill c := field "score" st_float (rm_Score old) ms in
  fill d := field "passed" st_bool (rm_Passed old) ms in
  fill f := field "rationale" st_string (rm_Rationale old) ms in
  fill g := field "judge_model" st_string (rm_JudgeModel old) ms in (mkRemoteScore a b c d f g, e).

Definition no_remoteScore : remoteScore := mkRemoteScore "" "" fzero false "" "".
Definition st_remoteScores : store (list remoteScore) := st_list no_remoteScore st_remoteScore.

Definition st_remoteResponse : store (list remoteScore) := fun raw old =>
  let '(ms, e) := struct_members raw in fill s := field "scores" st_remoteScores old ms in (s, e).

(** A map of lists: each member is decoded on its own and the last one stays. *)
Definition st_scores_by_trace : store (gmap string (list remoteScore)) := fun raw old =>
  if String.eqb raw "null" then (∅, false)
  else match members raw with
       | Some ms => fold_left (fun '(m, e) '(k, v) => let '(l, e') := st_remoteScores v [] in (<[k := l]> m, e || e')) ms (old, false)
       | None => (old, true)
       end.
Definition st_remoteBatchResponse : store (gmap string (list remoteScore)) := fun raw old =>
  let '(ms, e) := struct_members raw in fill s := field "scores_by_trace" st_scores_by_trace old ms in (s, e).

Definition remote_score (traceID : string) (now : Time) (s : remoteScore) : Score :=
  bare_score traceID now (if String.eqb (rm_Evaluator s) "" then "remote_eval" else rm_Evaluator s) (rm_Metric s)
    (eval_clamp01 (rm_Score s)) (rm_Passed s) (rm_Rationale s) (rm_JudgeModel s).

Definition remote_Evaluate (tr : eval_transport) (now : Time) (r : RemoteEvaluator) (t : Trace) : res string (list Score) :=
  if String.eqb (InputMessages (t_base t)) "" || String.eqb (OutputMessages t) "" then Ok []
  else match eval_do tr (mkPost (re_baseURL r +:+ "/evaluate") (re_apiKey r) (RemoteSingle (buildRequest r t None))) with
  | Err e => Err e
  | Ok raw =>
      match ok_or (Unmarshal st_remoteResponse [] raw) with
      | None => Err "decode"
      | Some scores => Ok (map (remote_score (TraceID (t_base t)) now) scores)
      end
  end.

Definition batch_item (r : RemoteEvaluator) (ov : option EvalOverride) (t : Trace) : RemoteEvaluatorRequest :=
  if String.eqb (InputMessages (t_base t)) "" || String.eqb (OutputMessages t) ""
  then mkRemoteReq (TraceID (t_base t)) (RequestModel t) "" "" [] "" [] "" "" fzero
  else buildRequest r t ov.

Definition EvaluateBatch (tr : eval_transport) (now : Time) (r : RemoteEvaluator) (traces : list Trace) (ov : option EvalOverride) :
    res string (list (list Score)) :=
  match traces with
  | [] => Ok []
  | [t] => match remote_Evaluate tr now r t with Ok s => Ok [s] | Err _ => Ok [[]] end
  | _ =>
      let items := map (batch_item r ov) traces in
      match eval_do tr (mkPost (re_baseURL r +:+ "/evaluate/batch") (re_apiKey r) (RemoteBatch items)) with
      | Err e => Err e
      | Ok raw =>
          match ok_or (Unmarshal st_remoteBatchResponse ∅ raw) with
          | None => Err "decode"
          | Some by_trace =>
              Ok (map (fun it => map (remote_score (rq_TraceID it) now) (default [] (by_trace !! rq_TraceID it))) items)
          end
      end
  end.
