(* ===== verification/EvalWorker.v ===== *)
(** * EvalWorker: src/internal/evals (worker.go, runtime.go, scorebag.go, batcher.go)

    Which evaluators a trace gets, the collection of their scores, the pool of
    workers behind a bounded channel, and the batcher.  The goroutines of one trace
    appear as the order in which their results arrive before the deadline; the pool
    and the batcher are machines whose steps are the choices of [select]. *)

From S2P Require Import Prelude GoString GoTime Float64 GoSort GoUrl Json CoreStore GwTypes Regex Evals.
Local Open Scope string_scope.
Local Open Scope Z_scope.

(** ** Evaluators *)

(** The implementations of [Evaluator]; a plugin evaluator is its name and what it
    answers. *)
Inductive Evaluator :=
| EPII
| ECompleteness
| EJudge (j : SLMJudge)
| ERemote (r : RemoteEvaluator)
| EPlugin (name : string) (run : Trace → res string (list Score)).

Definition Evaluator_Name (e : Evaluator) : string :=
  match e with
  | EPII => "heuristic_pii"
  | ECompleteness => "heuristic_completeness"
  | EJudge _ => "slm_judge"
  | ERemote _ => "remote_eval"
  | EPlugin name _ => name
  end.

Definition Evaluator_Evaluate (tr : eval_transport) (now : Time) (e : Evaluator) (t : Trace) : res string (list Score) :=
  match e with
  | EPII => Ok (PIIEvaluate now t)
  | ECompleteness => Ok (CompletenessEvaluate now t)
  | EJudge j => judge_Evaluate tr now j t
  | ERemote r => remote_Evaluate tr now r t
  | EPlugin _ run => run t
  end.

(** ** The worker's settings (worker.go, runtime.go) *)

Record Worker := mkWorker {
  ew_judges : list Evaluator;
  ew_judgeBaseURL : string;
  ew_judgeModel : string;
  ew_judgeAPIKey : string;
  ew_remoteURL : string;
  ew_remoteMetrics : list string;
  ew_remoteTimeout : Duration;
  ew_judgeSampleRate : float64;
  ew_workerCount : Z;
  ew_bufferSize : Z;
  ew_evalTimeout : Duration;
  ew_configuredProfiles : list EvalProfile;
  ew_pluginEvaluator : option Evaluator;
  ew_secretResolver : option (Trace → EvalEndpoint → res secret_err string);
  ew_pluginOnly : bool;
  ew_metrics : bool
}.

Record Options := mkOptions {
  eo_Judges : list Evaluator;
  eo_JudgeBaseURL : string;
  eo_JudgeModel : string;
  eo_JudgeAPIKey : string;
  eo_RemoteURL : string;
  eo_RemoteMetrics : list string;
  eo_RemoteTimeout : Duration;
  eo_JudgeSampleRate : float64;
  eo_Workers : Z;
  eo_BufferSize : Z;
  eo_EvalTimeout : Duration;
  eo_PluginOnly : bool;
  eo_MetricsRecorder : bool
}.

Definition or_default (n d : Z) : Z := if n <=? 0 then d else n.

Definition NewWorker (o : Options) : Worker :=
  mkWorker (if eo_PluginOnly o then [] else eo_Judges o) (eo_JudgeBaseURL o) (eo_JudgeModel o) (eo_JudgeAPIKey o)
    (eo_RemoteURL o) (eo_RemoteMetrics o) (eo_RemoteTimeout o) (eo_JudgeSampleRate o) (or_default (eo_Workers o) 2)
    (or_default (eo_BufferSize o) 2000) (or_default (eo_EvalTimeout o) (25 * Second)) [] None None (eo_PluginOnly o)
    (eo_MetricsRecorder o).

Definition ReplaceProfiles (ps : list EvalProfile) (w : Worker) : Worker :=
  mkWorker (ew_judges w) (ew_judgeBaseURL w) (ew_judgeModel w) (ew_judgeAPIKey w) (ew_remoteURL w) (ew_remoteMetrics w)
    (ew_remoteTimeout w) (ew_judgeSampleRate w) (ew_workerCount w) (ew_bufferSize w) (ew_evalTimeout w) ps
    (ew_pluginEvaluator w) (ew_secretResolver w) (ew_pluginOnly w) (ew_metrics w).

Definition SetSecretResolver (r : option (Trace → EvalEndpoint → res secret_err string)) (w : Worker) : Worker :=
  mkWorker (ew_judges w) (ew_judgeBaseURL w) (ew_judgeModel w) (ew_judgeAPIKey w) (ew_remoteURL w) (ew_remoteMetrics w)
    (ew_remoteTimeout w) (ew_judgeSampleRate w) (ew_workerCount w) (ew_bufferSize w) (ew_evalTimeout w)
    (ew_configuredProfiles w) (ew_pluginEvaluator w) r (ew_pluginOnly w) (ew_metrics w).

Definition SetPluginEvaluator (e : option Evaluator) (w : Worker) : Worker :=
  mkWorker (ew_judges w) (ew_judgeBaseURL w) (ew_judgeModel w) (ew_judgeAPIKey w) (ew_remoteURL w) (ew_remoteMetrics w)
    (ew_remoteTimeout w) (ew_judgeSampleRate w) (ew_workerCount w) (ew_bufferSize w) (ew_evalTimeout w)
    (ew_configuredProfiles w) e (ew_secretResolver w) (ew_pluginOnly w) (ew_metrics w).

Definition SetJudgeSampleRate (rate : float64) (w : Worker) : Worker :=
  mkWorker (ew_judges w) (ew_judgeBaseURL w) (ew_judgeModel w) (ew_judgeAPIKey w) (ew_remoteURL w) (ew_remoteMetrics w)
    (ew_remoteTimeout w) (eval_clamp01 rate) (ew_workerCount w) (ew_bufferSize w) (ew_evalTimeout w)
    (ew_configuredProfiles w) (ew_pluginEvaluator w) (ew_secretResolver w) (ew_pluginOnly w) (ew_metrics w).

Definition SetMetricsRecorder (on : bool) (w : Worker) : Worker :=
  mkWorker (ew_judges w) (ew_judgeBaseURL w) (ew_judgeModel w) (ew_judgeAPIKey w) (ew_remoteURL w) (ew_remoteMetrics w)
    (ew_remoteTimeout w) (ew_judgeSampleRate w) (ew_workerCount w) (ew_bufferSize w) (ew_evalTimeout w)
    (ew_configuredProfiles w) (ew_pluginEvaluator w) (ew_secretResolver w) (ew_pluginOnly w) on.

Record JudgeRuntimeConfig := mkJudgeCfg { jc_BaseURL : string; jc_Model : string; jc_APIKey : string }.
Record RemoteRuntimeConfig := mkRemoteCfg { rc_URL : string; rc_Metrics : option (list string); rc_Timeout : Duration }.

Definition ConfigureJudges (judge : JudgeRuntimeConfig) (remote : RemoteRuntimeConfig) (w : Worker) : Worker :=
  if ew_pluginOnly w then w
  else
    let base := TrimSpace (jc_BaseURL judge) in
    let model := TrimSpace (jc_Model judge) in
    let key := if String.eqb (jc_APIKey judge) "" then ew_judgeAPIKey w else jc_APIKey judge in
    let url := TrimSpace (rc_URL remote) in
    let metrics := default (ew_remoteMetrics w) (rc_Metrics remote) in
    let timeout := if 0 <? rc_Timeout remote then rc_Timeout remote else ew_remoteTimeout w in
    let judges := (match NewSLMJudge base model key 0 with Some j => [EJudge j] | None => [] end ++
                   match NewRemoteEvaluator url metrics "" timeout with Some r => [ERemote r] | None => [] end)%list in
    mkWorker judges base model key url metrics timeout (ew_judgeSampleRate w) (ew_workerCount w) (ew_bufferSize w)
      (ew_evalTimeout w) (ew_configuredProfiles w) (ew_pluginEvaluator w) (ew_secretResolver w) (ew_pluginOnly w) (ew_metrics w).

Record ProfileKindSummary := mkSummary {
  ps_SLMJudge : bool; ps_RemoteEval : bool; ps_PII : bool; ps_Completeness : bool
}.

Definition ProfileStatus (w : Worker) : ProfileKindSummary :=
  let on k := existsb (fun p => ep_Enabled p && String.eqb (ep_Kind p) k) (ew_configuredProfiles w) in
  mkSummary (on ProfileSLMJudge) (on ProfileRemoteEval) (on ProfileHeuristicPII) (on ProfileHeuristicCompleteness).

(** ** Which evaluators a trace gets *)

(** [w.rnd]: the draws to come, numbered from the second component. *)
Definition rng : Type := (nat → float64) * nat.

Definition sampleJudge (rate : float64) (g : rng) : bool * rng :=
  if fge rate fone then (true, g)
  else if fle rate fzero then (false, g)
  else (flt (fst g (snd g)) rate, (fst g, S (snd g))).

(** The kinds the trace's user has switched off. *)
Definition disabledKinds (owner : string) (ps : list EvalProfile) (k : string) : bool :=
  negb (String.eqb owner "") &&
  existsb (fun p => String.eqb (ep_Scope p) ProfileScopeUser && String.eqb (ep_OwnerUserID p) owner && negb (ep_Enabled p) &&
                    String.eqb (ep_Kind p) k) ps.

(** The evaluator of a profile that passed the sampling, if it gets one. *)
Definition profile_evaluator (pluginOnly : bool) (resolver : option (Trace → EvalEndpoint → res secret_err string)) (t : Trace)
    (p : EvalProfile) : option Evaluator :=
  let ep := ep_Endpoint p in
  if String.eqb (ep_Kind p) ProfileHeuristicPII then Some EPII
  else if String.eqb (ep_Kind p) ProfileHeuristicCompleteness then Some ECompleteness
  else if pluginOnly then None
  else match resolver with
  | None => None
  | Some f =>
      match f t ep with
      | Err _ => None
      | Ok secret =>
          if String.eqb secret "" then None
          else if String.eqb (ep_Kind p) ProfileSLMJudge then EJudge <$> NewSLMJudge (ee_BaseURL ep) (ee_Model ep) secret 0
          else if String.eqb (ep_Kind p) ProfileRemoteEval then
            ERemote <$> NewRemoteEvaluator (ee_BaseURL ep) (ep_Metrics p) secret (30 * Second)
          else None
      end
  end.

Fixpoint profile_evaluators (pluginOnly : bool) (resolver : option (Trace → EvalEndpoint → res secret_err string)) (t : Trace)
    (disabled : string → bool) (ps : list EvalProfile) (g : rng) : list Evaluator * rng :=
  match ps with
  | [] => ([], g)
  | p :: ps' =>
      let go g := profile_evaluators pluginOnly resolver t disabled ps' g in
      if negb (ep_Enabled p) then go g
      else if fle (ep_SampleRate p) fzero then go g
      else
        let '(hit, g) := if flt (ep_SampleRate p) fone then sampleJudge (ep_SampleRate p) g else (true, g) in
        if negb hit then go g
        else if String.eqb (ep_Scope p) ProfileScopeOrg && disabled (ep_Kind p) then go g
        else
          let '(evs, g) := go g in
          (match profile_evaluator pluginOnly resolver t p with Some e => e :: evs | None => evs end, g)
  end.

Definition collectEvaluators (w : Worker) (t : Trace) (g : rng) : list Evaluator * rng :=
  let mine := List.filter (fun p => VisibleToOrg p (t_OrgID (t_base t))) (ew_configuredProfiles w) in
  let '(evs, g) := profile_evaluators (ew_pluginOnly w) (ew_secretResolver w) t
                     (disabledKinds (t_UserID (t_base t)) mine) mine g in
  match ew_judges w with
  | [] => (evs, g)
  | judges =>
      let '(hit, g) := sampleJudge (ew_judgeSampleRate w) g in
      (if hit then (evs ++ judges)%list else evs, g)
  end.

(** ** scorebag.go *)

Abbreviation pendingSet := (gmap string Z).

Definition newPendingSet (evals : list Evaluator) : pendingSet :=
  fold_left (fun p e => <[Evaluator_Name e := default 0 (p !! Evaluator_Name e) + 1]> p) evals ∅.

Definition pending_done (name : string) (p : pendingSet) : pendingSet :=
  if default 0 (p !! name) <=? 1 then delete name p else <[name := default 0 (p !! name) - 1]> p.

Definition pending_names (p : pendingSet) : list string := sort_Strings (map fst (map_to_list p)).

(** The state while the goroutines of one trace run: the bag and the pending set. *)
Record collecting := mkCollecting { cl_bag : list Score; cl_pending : pendingSet }.

(** One goroutine returns: its scores go into the bag unless it failed. *)
Definition evaluator_returns (tr : eval_transport) (now : Time) (t : Trace) (st : collecting) (e : Evaluator) : collecting :=
  mkCollecting (match Evaluator_Evaluate tr now e t with Ok s => (cl_bag st ++ s)%list | Err _ => cl_bag st end)
    (pending_done (Evaluator_Name e) (cl_pending st)).

(** [runEvaluators] when the goroutines in [returned] return, in this order, before
    all have or the deadline has passed. *)
Definition runEvaluators (tr : eval_transport) (now : Time) (t : Trace) (evals returned : list Evaluator) : collecting :=
  fold_left (evaluator_returns tr now t) returned (mkCollecting [] (newPendingSet evals)).

(** ** evaluate *)

Definition traceModel (t : Trace) : string := if String.eqb (ResponseModel t) "" then RequestModel t else ResponseModel t.

Definition or_else (a b : string) : string := if String.eqb a "" then b else a.

Definition stamp (t : Trace) (s : Score) : Score :=
  mkScore (sc_TraceID s) (or_else (sc_OrgID s) (t_OrgID (t_base t))) (or_else (sc_UserID s) (t_UserID (t_base t)))
    (or_else (sc_RequestModel s) (traceModel t)) (sc_Timestamp s) (sc_Evaluator s) (sc_Metric s) (sc_Score s) (sc_Passed s)
    (sc_Rationale s) (sc_JudgeModel s).

Inductive eval_effect :=
| WriteScores (scs : list Score)
| RecordQualityScore (model : string) (score : float64).

(** The evaluators of a trace, those of the plugins last. *)
Definition trace_evaluators (w : Worker) (t : Trace) (g : rng) : list Evaluator * rng :=
  let '(evs, g) := collectEvaluators w t g in
  ((evs ++ match ew_pluginEvaluator w with Some e => [e] | None => [] end)%list, g).

(** What [evaluate] does with the scores in the bag: the sink's verdict does not
    matter, its error is only logged. *)
Definition evaluate_effects (w : Worker) (t : Trace) (bag : list Score) : list eval_effect :=
  match bag with
  | [] => []
  | _ =>
      let scs := map (stamp t) bag in
      WriteScores scs ::
      (if ew_metrics w
       then map (fun s => RecordQualityScore (sc_RequestModel s) (sc_Score s)) (List.filter (fun s => String.eqb (sc_Metric s) "quality") scs)
       else [])
  end.

Definition evaluate (tr : eval_transport) (now : Time) (w : Worker) (t : Trace) (evals returned : list Evaluator) : list eval_effect :=
  match evals with
  | [] => []
  | _ => evaluate_effects w t (cl_bag (runEvaluators tr now t evals returned))
  end.

(** ** The pool (worker.go: Record, loop, Close) *)
Module Pool.

(** A worker goroutine: at the outer [select], evaluating (and whether it was
    draining), in the draining loop, or gone. *)
Inductive goroutine := Waiting | Evaluating (t : Trace) (draining : bool) | Draining | Gone.

Record pool := mkPool {
  ch : list Trace;
  size : nat;
  workers : list goroutine;
  closing : bool;
  accepted : list Trace;
  evaluated : list Trace
}.

Definition start (w : Worker) : pool :=
  mkPool [] (Z.to_nat (ew_bufferSize w)) (replicate (Z.to_nat (ew_workerCount w)) Waiting) false [] [].

(** [Record]: a non-blocking send. *)
Definition Record (t : Trace) (p : pool) : pool :=
  if negb (StatusCode t =? 200) then p
  else if (length (ch p) <? size p)%nat
  then mkPool (ch p ++ [t])%list (size p) (workers p) (closing p) (accepted p ++ [t])%list (evaluated p)
  else p.

Definition Close (p : pool) : pool := mkPool (ch p) (size p) (workers p) true (accepted p) (evaluated p).

Definition set_worker (i : nat) (g : goroutine) (p : pool) : pool :=
  mkPool (ch p) (size p) (<[i := g]> (workers p)) (closing p) (accepted p) (evaluated p).

(** The moves of [loop].  An evaluation is one move that ends, as the deadlines of the
    evaluators make it; [Record] after [Close] is not among the moves. *)
Inductive pool_loop_step : pool → pool → Prop :=
| take i t ts p :
    workers p !! i = Some Waiting → ch p = t :: ts →
    pool_loop_step p (mkPool ts (size p) (<[i := Evaluating t false]> (workers p)) (closing p) (accepted p) (evaluated p))
| take_draining i t ts p :
    workers p !! i = Some Draining → ch p = t :: ts →
    pool_loop_step p (mkPool ts (size p) (<[i := Evaluating t true]> (workers p)) (closing p) (accepted p) (evaluated p))
| finish i t d p :
    workers p !! i = Some (Evaluating t d) →
    pool_loop_step p (mkPool (ch p) (size p) (<[i := if d then Draining else Waiting]> (workers p)) (closing p) (accepted p)
                   (evaluated p ++ [t])%list)
| see_done i p : workers p !! i = Some Waiting → closing p = true → pool_loop_step p (set_worker i Draining p)
| leave i p : workers p !! i = Some Draining → ch p = [] → pool_loop_step p (set_worker i Gone p).

Inductive step : pool → pool → Prop :=
| step_record t p : step p (Record t p)
| step_close p : step p (Close p)
| step_loop p p' : pool_loop_step p p' → step p p'.

End Pool.

(** ** batcher.go *)
Module Batch.

Record BatchConfig := mkConfig { MaxSize : Z; Window : Duration; Capacity : Z }.

Definition ApplyDefaults (c : BatchConfig) : BatchConfig :=
  mkConfig (if MaxSize c <=? 0 then 32 else MaxSize c) (if Window c =? 0 then 250 * Millisecond else Window c)
    (if Capacity c <=? 0 then 8 else Capacity c).

Record batcher := mkBatcher {
  max : nat;
  room : nat;
  inq : list Trace;
  buf : list Trace;
  profiles : list EvalProfile;
  stopping : bool;
  stopped : bool;
  flushed : list (list Trace * list EvalProfile);
  submitted : list Trace
}.

Definition NewBatcher (c : BatchConfig) : batcher :=
  let c := ApplyDefaults c in
  mkBatcher (Z.to_nat (MaxSize c)) (Z.to_nat (Capacity c * MaxSize c)) [] [] [] false false [] [].

Definition SetProfiles (ps : list EvalProfile) (b : batcher) : batcher :=
  mkBatcher (max b) (room b) (inq b) (buf b) ps (stopping b) (stopped b) (flushed b) (submitted b).

Definition Submit (t : Trace) (b : batcher) : batcher :=
  if negb (StatusCode t =? 200) then b
  else if (length (inq b) <? room b)%nat
  then mkBatcher (max b) (room b) (inq b ++ [t])%list (buf b) (profiles b) (stopping b) (stopped b) (flushed b)
         (submitted b ++ [t])%list
  else b.

Definition batcher_Stop (b : batcher) : batcher :=
  mkBatcher (max b) (room b) (inq b) (buf b) (profiles b) true (stopped b) (flushed b) (submitted b).

(** [flushBatch] and the reset of the buffer. *)
Definition flushBatch (b : batcher) : batcher :=
  mkBatcher (max b) (room b) (inq b) [] (profiles b) (stopping b) (stopped b) (flushed b ++ [(buf b, profiles b)])%list (submitted b).

Definition nonempty {A} (l : list A) : bool := match l with [] => false | _ => true end.

(** The cases of [run]'s [select]. *)
Definition on_stop (b : batcher) : batcher :=
  let b := if nonempty (buf b) then flushBatch b else b in
  mkBatcher (max b) (room b) (inq b) (buf b) (profiles b) (stopping b) true (flushed b) (submitted b).

Definition on_trace (t : Trace) (rest : list Trace) (b : batcher) : batcher :=
  let b := mkBatcher (max b) (room b) rest (buf b ++ [t])%list (profiles b) (stopping b) (stopped b) (flushed b) (submitted b) in
  if (max b <=? length (buf b))%nat then flushBatch b else b.

Definition on_timer (b : batcher) : batcher := if nonempty (buf b) then flushBatch b else b.

Inductive run_step : batcher → batcher → Prop :=
| b_submit t b : run_step b (Submit t b)
| b_profiles ps b : run_step b (SetProfiles ps b)
| b_stop b : run_step b (batcher_Stop b)
| b_on_stop b : stopped b = false → stopping b = true → run_step b (on_stop b)
| b_on_trace t rest b : stopped b = false → inq b = t :: rest → run_step b (on_trace t rest b)
| b_on_timer b : stopped b = false → run_step b (on_timer b).

End Batch.
