(* ===== verification/EvalsProps.v ===== *)
(** * EvalsProps: what the evaluation pipeline guarantees

    Which profiles reach a trace and whose keys they use, the plugin-only mode, the
    stamping of scores, the inline secrets behind their shards, and the pool and
    batcher machines. *)

From stdpp Require Import pretty.
From S2P Require Import Prelude GoString GoTime Float64 GoSort GoUrl Json CoreStore CoreProps GwTypes Regex Evals EvalWorker.
Local Open Scope string_scope.
Local Open Scope Z_scope.

(** ** Inline secrets *)

Inductive inline_op := Register (keyRef plaintext : string) (expires : Time) | Revoke (keyRef : string).

Definition on_shards (r : shards) (o : inline_op) : shards :=
  match o with Register k p e => RegisterInline k p e r | Revoke k => RevokeInline k r end.

(** The abstract table: one map from references to secrets. *)
Definition on_map (m : gmap string inlineEntry) (o : inline_op) : gmap string inlineEntry :=
  match o with
  | Register k p e => if String.eqb k "" || String.eqb p "" then m else <[k := mkInline p e]> m
  | Revoke k => delete k m
  end.

Lemma shardIndex_lt k : (shardIndex k < 32)%nat.
Proof. unfold shardIndex. pose proof (Z.mod_pos_bound (fnv k) 32 ltac:(lia)). lia. Qed.

Definition shards_agree (r : shards) (m : gmap string inlineEntry) : Prop :=
  length r = 32%nat ∧ m !! "" = None ∧ ∀ k, inline_entry k r = m !! k.

Lemma entry_alter (f : gmap string inlineEntry → gmap string inlineEntry) k k' r :
  length r = 32%nat →
  inline_entry k' (alter f (shardIndex k) r) =
  if decide (shardIndex k = shardIndex k') then (r !! shardIndex k') ≫= (fun m => f m !! k') else inline_entry k' r.
Proof.
  intros Hl. unfold inline_entry. destruct (decide _) as [<-|Hne].
  - rewrite list_lookup_alter_eq. by destruct (r !! _).
  - by rewrite list_lookup_alter_ne.
Qed.

Lemma shard_exists k (r : shards) : length r = 32%nat → ∃ m, r !! shardIndex k = Some m.
Proof. intros Hl. apply lookup_lt_is_Some_2. rewrite Hl. apply shardIndex_lt. Qed.

Lemma shards_step r m o : shards_agree r m → shards_agree (on_shards r o) (on_map m o).
Proof.
  intros (Hl & He & Ha). destruct o as [k p e|k]; cbn; unfold RegisterInline, RevokeInline.
  - destruct (String.eqb k "") eqn:Ek; [done|]. destruct (String.eqb p ""); [done|]. cbn. apply String.eqb_neq in Ek.
    split_and!; [by rewrite length_alter|by rewrite lookup_insert_ne|]. intros k'. rewrite entry_alter by done.
    destruct (shard_exists k' r Hl) as [m' Hm]. rewrite Hm. cbn.
    destruct (decide (k = k')) as [<-|Hne]; [by rewrite decide_True, !lookup_insert_eq|].
    rewrite (lookup_insert_ne m), <- Ha by done. unfold inline_entry. rewrite Hm. cbn. destruct (decide _); [by rewrite lookup_insert_ne|done].
  - destruct (String.eqb_spec k "") as [->|Ek]; [rewrite delete_id by done; split_and!; assumption|].
    split_and!; [by rewrite length_alter|by rewrite lookup_delete_ne|]. intros k'. rewrite entry_alter by done.
    destruct (shard_exists k' r Hl) as [m' Hm]. rewrite Hm. cbn.
    destruct (decide (k = k')) as [<-|Hne]; [by rewrite decide_True, !lookup_delete_eq|].
    rewrite (lookup_delete_ne m), <- Ha by done. unfold inline_entry. rewrite Hm. cbn. destruct (decide _); [by rewrite lookup_delete_ne|done].
Qed.

(** The 32 shards of inline secrets are one map: after any registrations and
    revocations the resolver finds under a reference what the last operation on
    that reference left, and nothing under others. *)
Theorem inline_table_refines_map (ops : list inline_op) (keyRef : string) :
  inline_entry keyRef (fold_left on_shards ops no_shards) = fold_left on_map ops ∅ !! keyRef.
Proof.
  assert (∀ r m, shards_agree r m → shards_agree (fold_left on_shards ops r) (fold_left on_map ops m)) as H.
  { induction ops as [|o ops IH]; intros r m Hrm; [done|]. cbn. by apply IH, shards_step. }
  apply H. split_and!; [done|apply lookup_empty|]. intros k. rewrite lookup_empty. unfold inline_entry, no_shards.
  rewrite lookup_replicate_2 by apply shardIndex_lt. cbn. apply lookup_empty.
Qed.

(** ** Which evaluators a trace gets *)

(** An evaluator made of a profile, with the key the resolver gave for it. *)
Definition made_of (w : Worker) (t : Trace) (p : EvalProfile) (e : Evaluator) : Prop :=
  p ∈ ew_configuredProfiles w ∧ VisibleToOrg p (t_OrgID (t_base t)) = true ∧ ep_Enabled p = true ∧
  fle (ep_SampleRate p) fzero = false ∧ profile_evaluator (ew_pluginOnly w) (ew_secretResolver w) t p = Some e ∧
  ¬ (ep_Scope p = ProfileScopeOrg ∧ ∃ q, q ∈ ew_configuredProfiles w ∧ VisibleToOrg q (t_OrgID (t_base t)) = true ∧
     ep_Scope q = ProfileScopeUser ∧ ep_OwnerUserID q = t_UserID (t_base t) ∧ t_UserID (t_base t) ≠ "" ∧ ep_Enabled q = false ∧
     ep_Kind q = ep_Kind p).

Lemma profile_evaluators_from po rs t dis ps g e :
  e ∈ fst (profile_evaluators po rs t dis ps g) →
  ∃ p, p ∈ ps ∧ ep_Enabled p = true ∧ fle (ep_SampleRate p) fzero = false ∧ profile_evaluator po rs t p = Some e ∧
    (String.eqb (ep_Scope p) ProfileScopeOrg && dis (ep_Kind p)) = false.
Proof.
  revert g. induction ps as [|p ps IH]; intros g; cbn; [by intros ?%elem_of_nil|].
  assert (∀ g, e ∈ fst (profile_evaluators po rs t dis ps g) → ∃ q, q ∈ p :: ps ∧ ep_Enabled q = true ∧
    fle (ep_SampleRate q) fzero = false ∧ profile_evaluator po rs t q = Some e ∧
    (String.eqb (ep_Scope q) ProfileScopeOrg && dis (ep_Kind q)) = false) as Hin.
  { intros g' (q & Hq & ?)%IH. exists q. split; [by right|done]. }
  destruct (ep_Enabled p) eqn:Ee; cbn; [|by apply Hin]. destruct (fle _ _) eqn:Es; [by apply Hin|].
  destruct (if flt _ _ then _ else _) as [hit g1]. destruct hit; cbn; [|by apply Hin].
  destruct (_ && _) eqn:Ed; [by apply Hin|]. specialize (Hin g1).
  destruct (profile_evaluators po rs t dis ps g1) as [evs g2]. cbn in *.
  destruct (profile_evaluator po rs t p) as [e'|] eqn:Ep; [|done].
  intros [->|?]%elem_of_cons; [|by apply Hin]. exists p. split; [by left|done].
Qed.

Lemma disabledKinds_spec owner ps k :
  disabledKinds owner ps k = true ↔
  owner ≠ "" ∧ ∃ q, q ∈ ps ∧ ep_Scope q = ProfileScopeUser ∧ ep_OwnerUserID q = owner ∧ ep_Enabled q = false ∧ ep_Kind q = k.
Proof.
  unfold disabledKinds. rewrite andb_true_iff, negb_true_iff, String.eqb_neq, existsb_exists. split.
  - intros (Hne & q & Hq & H). split; [done|]. exists q. rewrite list_elem_of_In. split; [done|].
    rewrite !andb_true_iff, negb_true_iff, !String.eqb_eq in H. by destruct_and!.
  - intros (Hne & q & Hq & ? & ? & ? & ?). split; [done|]. exists q. split; [by apply list_elem_of_In|].
    by rewrite !andb_true_iff, negb_true_iff, !String.eqb_eq.
Qed.

(** Which evaluators see a trace.  Each of them is one of the worker's own judges
    or stands for an enabled profile, with a sample rate above zero, of the trace's
    org or of the whole installation, with the key that was looked up for that
    profile; an org profile does not run for a user who has switched its kind off. *)
Theorem evaluators_of_own_org (w : Worker) (t : Trace) (g : rng) (e : Evaluator) :
  e ∈ fst (collectEvaluators w t g) → e ∈ ew_judges w ∨ ∃ p, made_of w t p e.
Proof.
  unfold collectEvaluators. set (mine := List.filter _ _).
  destruct (profile_evaluators _ _ _ _ mine g) as [evs g1] eqn:Hp. intros He.
  assert (e ∈ evs ∨ e ∈ ew_judges w) as [Hin|?]; [| |by left].
  { destruct (ew_judges w) as [|j js]; [by left|]. destruct (sampleJudge _ _) as [[] g2]; cbn in He; [|by left].
    by apply elem_of_app in He. }
  right. change evs with (fst (evs, g1)) in Hin. rewrite <- Hp in Hin.
  apply profile_evaluators_from in Hin as (p & Hpm & Hen & Hsr & Hev & Hd). exists p.
  assert (∀ q, q ∈ mine ↔ q ∈ ew_configuredProfiles w ∧ VisibleToOrg q (t_OrgID (t_base t)) = true) as Hm.
  { intros q. unfold mine. by rewrite !list_elem_of_In, filter_In. }
  apply Hm in Hpm as [Hc Hv]. split_and!; try done.
  intros (Hs & q & Hq & Hqv & Hqs & Hqo & Hne & Hqe & Hqk).
  assert (disabledKinds (t_UserID (t_base t)) mine (ep_Kind p) = true) as Hdk.
  { apply disabledKinds_spec. split; [done|]. exists q. rewrite Hm. by split_and!. }
  rewrite Hs, Hdk in Hd. done.
Qed.

(** ** Plugin-only mode *)

Inductive config_op :=
| CReplace (ps : list EvalProfile)
| CResolver (r : option (Trace → EvalEndpoint → res secret_err string))
| CPlugin (e : option Evaluator)
| CRate (rate : float64)
| CMetrics (on : bool)
| CJudges (judge : JudgeRuntimeConfig) (remote : RemoteRuntimeConfig).

Definition configure (w : Worker) (o : config_op) : Worker :=
  match o with
  | CReplace ps => ReplaceProfiles ps w
  | CResolver r => SetSecretResolver r w
  | CPlugin e => SetPluginEvaluator e w
  | CRate rate => SetJudgeSampleRate rate w
  | CMetrics on => SetMetricsRecorder on w
  | CJudges judge remote => ConfigureJudges judge remote w
  end.

Lemma configure_plugin_only ops w :
  ew_pluginOnly w = true → ew_judges w = [] →
  ew_pluginOnly (fold_left configure ops w) = true ∧ ew_judges (fold_left configure ops w) = [].
Proof.
  revert w. induction ops as [|o ops IH]; intros w Hp Hj; [done|]. cbn. apply IH; destruct o; cbn; try done.
  all: unfold ConfigureJudges; by rewrite Hp.
Qed.

(** A plugin-only worker calls no judge and no sidecar: whatever judges it was
    built with, whatever profiles, keys and judge settings it is given later, the
    evaluators it collects for a trace are the two built-in heuristics. *)
Theorem plugin_only_holds (o : Options) (ops : list config_op) (t : Trace) (g : rng) (e : Evaluator) :
  eo_PluginOnly o = true → e ∈ fst (collectEvaluators (fold_left configure ops (NewWorker o)) t g) →
  e = EPII ∨ e = ECompleteness.
Proof.
  intros Ho He. destruct (configure_plugin_only ops (NewWorker o)) as [Hp Hj]; [done|cbn; by rewrite Ho|].
  set (w := fold_left configure ops (NewWorker o)) in *. unfold collectEvaluators in He. rewrite Hj in He.
  destruct (profile_evaluators _ _ _ _ _ _) as [evs g1] eqn:Hpe. cbn in He.
  change evs with (fst (evs, g1)) in He. rewrite <- Hpe, Hp in He.
  apply profile_evaluators_from in He as (p & _ & _ & _ & Hev & _). unfold profile_evaluator in Hev.
  destruct (String.eqb _ _); [injection Hev as <-; by left|]. destruct (String.eqb _ _); [injection Hev as <-; by right|]. done.
Qed.

(** ** Whose traces and keys a profile uses *)

Lemma profile_evaluators_in po rs t dis ps g p e :
  p ∈ ps → ep_Enabled p = true → fle (ep_SampleRate p) fzero = false → flt (ep_SampleRate p) fone = false →
  (String.eqb (ep_Scope p) ProfileScopeOrg && dis (ep_Kind p)) = false → profile_evaluator po rs t p = Some e →
  e ∈ fst (profile_evaluators po rs t dis ps g).
Proof.
  intros Hin He Hs Hs1 Hd Hev. revert g. induction ps as [|q ps IH]; intros g; [by apply elem_of_nil in Hin|].
  cbn [profile_evaluators]. apply elem_of_cons in Hin as [<-|Hin].
  - rewrite He, Hs, Hs1. cbn [negb]. rewrite Hd. destruct (profile_evaluators _ _ _ _ ps g). rewrite Hev. by left.
  - specialize (IH Hin). destruct (negb (ep_Enabled q)); [apply IH|]. destruct (fle (ep_SampleRate q) _); [apply IH|].
    destruct (if flt (ep_SampleRate q) _ then _ else _) as [hit g1]. destruct (negb hit); [apply IH|].
    destruct (String.eqb (ep_Scope q) _ && _); [apply IH|].
    specialize (IH g1). destruct (profile_evaluators _ _ _ _ ps g1). cbn in *.
    destruct (profile_evaluator _ _ _ q); [by right|done].
Qed.

Lemma collect_in w t g p e :
  p ∈ ew_configuredProfiles w → VisibleToOrg p (t_OrgID (t_base t)) = true → ep_Enabled p = true →
  fle (ep_SampleRate p) fzero = false → flt (ep_SampleRate p) fone = false →
  (ep_Scope p = ProfileScopeOrg → t_UserID (t_base t) = "") →
  profile_evaluator (ew_pluginOnly w) (ew_secretResolver w) t p = Some e → e ∈ fst (collectEvaluators w t g).
Proof.
  intros Hin Hv He Hs Hs1 Hd Hev. unfold collectEvaluators. set (mine := List.filter _ _).
  assert (p ∈ mine) as Hm by (apply list_elem_of_In, filter_In; split; [by apply list_elem_of_In|done]).
  assert ((String.eqb (ep_Scope p) ProfileScopeOrg && disabledKinds (t_UserID (t_base t)) mine (ep_Kind p)) = false) as Hdk.
  { destruct (String.eqb_spec (ep_Scope p) ProfileScopeOrg) as [Ho|]; [|done]. unfold disabledKinds. by rewrite (Hd Ho). }
  pose proof (profile_evaluators_in _ _ t _ mine g p e Hm He Hs Hs1 Hdk Hev) as H.
  destruct (profile_evaluators _ _ _ _ mine g) as [evs g1]. cbn in *.
  destruct (ew_judges w); [done|]. destruct (sampleJudge _ _) as [[] ?]; [by apply elem_of_app; left|done].
Qed.

(** A personal profile scores everybody's traffic.  [ProfileScopeUser] is documented as
    its owner only, but the worker compares the owner with nobody: an enabled
    user-scope judge profile with a sample rate of 1 and a key gets every trace of
    the org, also those of other users, and posts their prompts and answers to the
    owner's endpoint. *)
Theorem personal_profile_sees_all (w : Worker) (t : Trace) (g : rng) (p : EvalProfile) (secret : string)
    (resolver : Trace → EvalEndpoint → res secret_err string) :
  p ∈ ew_configuredProfiles w → ep_Scope p = ProfileScopeUser → ep_OwnerUserID p ≠ t_UserID (t_base t) →
  VisibleToOrg p (t_OrgID (t_base t)) = true → ep_Enabled p = true → ep_SampleRate p = fone →
  ep_Kind p = ProfileSLMJudge → ee_BaseURL (ep_Endpoint p) ≠ "" → ee_Model (ep_Endpoint p) ≠ "" →
  ew_pluginOnly w = false → ew_secretResolver w = Some resolver → resolver t (ep_Endpoint p) = Ok secret → secret ≠ "" →
  ∃ j, EJudge j ∈ fst (collectEvaluators w t g) ∧
    judge_post j t = mkPost (strip_slashes (ee_BaseURL (ep_Endpoint p)) +:+ "/chat/completions") secret
      (JudgeChat (ee_Model (ep_Endpoint p)) judgeSystemPrompt (judge_content t)).
Proof.
  intros Hin Hsc _ Hv He Hr Hk Hu Hm Hpo Hres Hs Hne. apply String.eqb_neq in Hu, Hm, Hne.
  exists (mkJudge (strip_slashes (ee_BaseURL (ep_Endpoint p))) (ee_Model (ep_Endpoint p)) secret (20 * Second)).
  split; [|done].
  apply (collect_in w t g p); try done; try (rewrite Hr; vm_compute; reflexivity); [by rewrite Hsc|].
  unfold profile_evaluator. rewrite Hk, Hpo, Hres, Hs. cbn. rewrite Hne. unfold NewSLMJudge. by rewrite Hu, Hm.
Qed.

(** The resolver of cmd/nexus/main.go. *)
Definition main_resolver (E : env) (now : Time) (inline : shards) (w : world) (t : Trace) (ep : EvalEndpoint) :
    res secret_err string :=
  @secret_Resolve (StoreSecretLookup E "default" w) "openai" now inline t ep.

(** The default org's keys serve every org.  The resolver that main.go builds asks
    for credentials of the org [default] whatever the org of the trace or of the
    profile, and takes the provider from the first label of the host.  So a judge
    profile of any org with the key source [org] and an endpoint whose host starts
    with a provider's name is given the default org's key for that provider, and
    sends it, with the trace, to that endpoint. *)
Theorem default_org_key_leaves (E : env) (now : Time) (inline : shards) (wd : world) (w : Worker) (t : Trace) (g : rng)
    (p : EvalProfile) (cred : DecryptedCredential) (src : string) :
  p ∈ ew_configuredProfiles w → VisibleToOrg p (t_OrgID (t_base t)) = true → ep_Enabled p = true → ep_SampleRate p = fone →
  (ep_Scope p = ProfileScopeOrg → t_UserID (t_base t) = "") → ep_Kind p = ProfileSLMJudge → ee_KeySource (ep_Endpoint p) = KeySourceOrg →
  ee_BaseURL (ep_Endpoint p) ≠ "" → ee_Model (ep_Endpoint p) ≠ "" →
  ew_pluginOnly w = false → ew_secretResolver w = Some (main_resolver E now inline wd) →
  fst (ResolveCredential E "default" "" (deriveProviderFromURL (ee_BaseURL (ep_Endpoint p))) wd) = Ok (cred, src) →
  dc_Secret cred ≠ "" →
  ∃ j, EJudge j ∈ fst (collectEvaluators w t g) ∧ po_bearer (judge_post j t) = dc_Secret cred ∧
    po_url (judge_post j t) = strip_slashes (ee_BaseURL (ep_Endpoint p)) +:+ "/chat/completions".
Proof.
  intros Hin Hv He Hr Hsc Hk Hsrc Hu Hm Hpo Hres Hcred Hne. apply String.eqb_neq in Hu, Hm, Hne.
  exists (mkJudge (strip_slashes (ee_BaseURL (ep_Endpoint p))) (ee_Model (ep_Endpoint p)) (dc_Secret cred) (20 * Second)).
  split; [|done].
  apply (collect_in w t g p); try done; try (rewrite Hr; vm_compute; reflexivity).
  unfold profile_evaluator. rewrite Hk, Hpo, Hres. unfold main_resolver, secret_Resolve. rewrite Hsrc, Hu. cbn.
  unfold resolve_in. rewrite Hcred, Hne. unfold NewSLMJudge. by rewrite Hu, Hm.
Qed.

(** ** Scores *)

Definition results (tr : eval_transport) (now : Time) (t : Trace) (e : Evaluator) : list Score :=
  match Evaluator_Evaluate tr now e t with Ok s => s | Err _ => [] end.

Lemma bag_of_returned tr now t returned st :
  cl_bag (fold_left (evaluator_returns tr now t) returned st) = (cl_bag st ++ flat_map (results tr now t) returned)%list.
Proof.
  revert st. induction returned as [|e l IH]; intros st; cbn; [by rewrite app_nil_r|].
  rewrite IH. unfold results. cbn. destruct (Evaluator_Evaluate _ _ _ _); cbn; by rewrite <- ?app_assoc.
Qed.

(** A score that says nothing of its owner yet, for this trace. *)
Definition of_trace (t : Trace) (s : Score) : Prop :=
  sc_TraceID s = TraceID (t_base t) ∧ sc_OrgID s = "" ∧ sc_UserID s = "" ∧ sc_RequestModel s = "".

Definition in_process (e : Evaluator) : Prop := match e with EPlugin _ _ => False | _ => True end.

Lemma results_of_trace tr now t e : in_process e → Forall (of_trace t) (results tr now t e).
Proof.
  intros He. unfold results. destruct e; cbn in *; try done.
  - by repeat constructor.
  - unfold CompletenessEvaluate. repeat case_match; simplify_eq; by repeat constructor.
  - unfold judge_Evaluate. repeat case_match; simplify_eq; by repeat constructor.
  - unfold remote_Evaluate. repeat case_match; simplify_eq; try constructor.
    apply Forall_forall. intros s (x & -> & _)%list_elem_of_fmap. done.
Qed.

(** Where scores go.  When the evaluators in [returned] have answered in time, the
    sink gets the scores of exactly those that did not fail, in one batch, and each
    score of a built-in evaluator carries the id, the org, the user and the serving
    model of the trace it was computed from. *)
Theorem scores_attributed (tr : eval_transport) (now : Time) (w : Worker) (t : Trace) (evals returned : list Evaluator) (scs : list Score) :
  WriteScores scs ∈ evaluate tr now w t evals returned →
  scs = map (stamp t) (flat_map (results tr now t) returned) ∧
  (Forall in_process returned → Forall (fun s => sc_TraceID s = TraceID (t_base t) ∧ sc_OrgID s = t_OrgID (t_base t) ∧
     sc_UserID s = t_UserID (t_base t) ∧ sc_RequestModel s = traceModel t) scs).
Proof.
  intros H. assert (scs = map (stamp t) (flat_map (results tr now t) returned)) as ->.
  { unfold evaluate in H. destruct evals as [|e0 es]; [by apply elem_of_nil in H|].
    unfold evaluate_effects, runEvaluators in H. rewrite bag_of_returned in H. cbn [cl_bag app] in H.
    destruct (flat_map _ _) as [|s l] eqn:E; [by apply elem_of_nil in H|]. rewrite <- E in H |- *.
    apply elem_of_cons in H as [[= <-]|H]; [done|]. destruct (ew_metrics w); [|by apply elem_of_nil in H].
    by apply list_elem_of_fmap in H as (? & ? & _). }
  split; [done|]. intros Hf. apply Forall_forall. intros s (x & -> & Hx)%list_elem_of_fmap.
  apply list_elem_of_In, in_flat_map in Hx as (e & He & Hx). rewrite Forall_forall in Hf.
  pose proof (results_of_trace tr now t e (Hf _ ltac:(by apply list_elem_of_In))) as Hr. rewrite Forall_forall in Hr.
  destruct (Hr x ltac:(by apply list_elem_of_In)) as (H1 & H2 & H3 & H4). unfold stamp, or_else. cbn. by rewrite H1, H2, H3, H4.
Qed.

(** ** Pending evaluators *)

Definition times_named (name : string) (l : list Evaluator) : Z :=
  Z.of_nat (length (List.filter (fun e => String.eqb (Evaluator_Name e) name) l)).

Lemma times_named_app name l l' : times_named name (l ++ l')%list = times_named name l + times_named name l'.
Proof. unfold times_named. rewrite List.filter_app, length_app. lia. Qed.

Lemma times_named_cons name e l :
  times_named name (e :: l) = (if String.eqb (Evaluator_Name e) name then 1 else 0) + times_named name l.
Proof. unfold times_named. cbn. destruct (String.eqb _ _); cbn [length]; lia. Qed.

Lemma times_named_perm name l l' : l ≡ₚ l' → times_named name l = times_named name l'.
Proof.
  unfold times_named. induction 1 as [|x l l' _ IH|x y l|l l' l'' _ IH1 _ IH2]; cbn; [done| | |congruence].
  - destruct (String.eqb _ _); cbn [length]; lia.
  - destruct (String.eqb (Evaluator_Name x) name), (String.eqb (Evaluator_Name y) name); reflexivity.
Qed.

(** The counter of a name, absent for zero. *)
Definition counts (p : pendingSet) (l : list Evaluator) : Prop :=
  ∀ name, p !! name = if decide (times_named name l = 0) then None else Some (times_named name l).

Lemma counts_default p l name : counts p l → default 0 (p !! name) = times_named name l.
Proof. intros H. rewrite H. destruct (decide _); cbn; lia. Qed.

Lemma newPendingSet_counts evals : counts (newPendingSet evals) evals.
Proof.
  unfold newPendingSet. assert (∀ p l, counts p l → counts (fold_left (fun p e => <[Evaluator_Name e := default 0 (p !! Evaluator_Name e) + 1]> p) evals p) (l ++ evals)%list) as H.
  { induction evals as [|e evals IH]; intros p l Hc; cbn; [by rewrite app_nil_r|].
    replace (l ++ e :: evals)%list with ((l ++ [e]) ++ evals)%list by (by rewrite <- app_assoc). apply IH. intros name.
    rewrite times_named_app, times_named_cons. change (times_named name []) with 0. rewrite (counts_default p l) by done.
    assert (0 ≤ times_named name l) by (unfold times_named; lia).
    destruct (String.eqb_spec (Evaluator_Name e) name) as [<-|Hne].
    - rewrite lookup_insert_eq, decide_False by lia. f_equal; lia.
    - rewrite lookup_insert_ne, Hc by done. by rewrite Z.add_0_l, Z.add_0_r. }
  apply (H ∅ []). intros name. by rewrite lookup_empty.
Qed.

Lemma pending_done_counts p e l : counts p (e :: l) → counts (pending_done (Evaluator_Name e) p) l.
Proof.
  intros Hc name. unfold pending_done. rewrite (counts_default p (e :: l)) by done.
  rewrite times_named_cons, String.eqb_refl. assert (0 ≤ times_named (Evaluator_Name e) l) by (unfold times_named; lia).
  specialize (Hc name). rewrite times_named_cons in Hc. destruct (String.eqb_spec (Evaluator_Name e) name) as [Heq|Hne].
  - rewrite <- Heq in *. destruct (1 + _ <=? 1) eqn:E; reflect_bools.
    + rewrite lookup_delete_eq. rewrite decide_True by lia. done.
    + rewrite lookup_insert_eq, decide_False by lia. f_equal; lia.
  - rewrite Z.add_0_l in Hc. destruct (_ <=? _); by rewrite ?lookup_delete_ne, ?lookup_insert_ne.
Qed.

Lemma counts_perm p l l' : l ≡ₚ l' → counts p l → counts p l'.
Proof. intros Hp Hc name. by rewrite Hc, (times_named_perm _ _ _ Hp). Qed.

(** The deadline warning names exactly the evaluators that are still running,
    however many of them share a name and in whatever order the others return. *)
Theorem pending_names_exact (tr : eval_transport) (now : Time) (t : Trace) (evals returned rest : list Evaluator) (name : string) :
  evals ≡ₚ (returned ++ rest)%list →
  name ∈ pending_names (cl_pending (runEvaluators tr now t evals returned)) ↔ ∃ e, e ∈ rest ∧ Evaluator_Name e = name.
Proof.
  intros Hp. assert (counts (cl_pending (runEvaluators tr now t evals returned)) rest) as Hc.
  { unfold runEvaluators. pose proof (newPendingSet_counts evals) as Hn. apply (counts_perm _ _ _ Hp) in Hn.
    clear Hp. generalize (@nil Score). revert Hn. generalize (newPendingSet evals).
    induction returned as [|e l IH]; intros p Hn bag; cbn; [done|]. apply IH. by apply pending_done_counts. }
  unfold pending_names, sort_Strings. rewrite merge_sort_Permutation. rewrite list_elem_of_fmap.
  assert (times_named name rest ≠ 0 ↔ ∃ e, e ∈ rest ∧ Evaluator_Name e = name) as <-.
  { unfold times_named. split.
    - intros H. destruct (List.filter _ _) as [|e l] eqn:E; [done|]. exists e.
      assert (In e (e :: l)) as Hi by (by left). rewrite <- E in Hi. apply filter_In in Hi as [Hi He].
      split; [by apply list_elem_of_In|by apply String.eqb_eq].
    - intros (e & He & <-) H. assert (In e (List.filter (fun x => String.eqb (Evaluator_Name x) (Evaluator_Name e)) rest)) as Hi.
      { apply filter_In. split; [by apply list_elem_of_In|apply String.eqb_refl]. }
      destruct (List.filter _ _); [done|cbn in H; lia]. }
  specialize (Hc name). split.
  - intros ([k v] & -> & Hkv%elem_of_map_to_list). cbn in Hc. rewrite Hkv in Hc. by destruct (decide _).
  - intros Hne. rewrite decide_False in Hc by done. exists (name, times_named name rest). split; [done|].
    by apply elem_of_map_to_list.
Qed.

(** ** The pool *)
Module PoolSpec.
Import Pool.

Definition working (g : goroutine) : list Trace := match g with Evaluating t _ => [t] | _ => [] end.
Definition in_hand (p : pool) : list Trace := flat_map working (workers p).

(** Every accepted trace is evaluated, being evaluated or waiting, once; workers
    leave the outer loop only after [Close]. *)
Definition accounted (p : pool) : Prop :=
  accepted p ≡ₚ (evaluated p ++ in_hand p ++ ch p)%list ∧
  (length (ch p) ≤ size p)%nat ∧
  Forall (fun g => closing p = false → match g with Waiting | Evaluating _ false => True | _ => False end) (workers p).

Lemma in_hand_insert (ws : list goroutine) i g g' :
  ws !! i = Some g → (flat_map working (<[i := g']> ws) ++ working g)%list ≡ₚ (working g' ++ flat_map working ws)%list.
Proof.
  revert i. induction ws as [|w ws IH]; intros i; [done|]. destruct i as [|i]; cbn.
  - intros [= ->]. rewrite <- app_assoc. by rewrite (Permutation_app_comm (flat_map working ws)).
  - intros H%IH. rewrite <- app_assoc, H. apply Permutation_app_swap_app.
Qed.

Lemma insert_Forall {A} (P : A → Prop) (l : list A) i x : Forall P l → P x → Forall P (<[i := x]> l).
Proof. intros. by apply Forall_insert. Qed.

Lemma loop_accounted p p' : accounted p → pool_loop_step p p' → accounted p'.
Proof.
  intros (Ha & Hl & Hw) Hs. pose proof Hw as Hw0. rewrite Forall_forall in Hw0.
  destruct Hs as [i t ts p Hi Hc|i t ts p Hi Hc|i t d p Hi|i p Hi Hc|i p Hi Hc];
    pose proof (Hw0 _ (list_elem_of_lookup_2 _ _ _ Hi)) as Hg; unfold accounted, in_hand in *; cbn.
  - pose proof (in_hand_insert _ i Waiting (Evaluating t false) Hi) as H. rewrite app_nil_r in H. cbn in H.
    rewrite Ha, Hc, H. rewrite Hc in Hl. cbn in Hl. split_and!; [|lia|by apply insert_Forall].
    apply Permutation_app_head. cbn. by rewrite <- Permutation_middle.
  - pose proof (in_hand_insert _ i Draining (Evaluating t true) Hi) as H. rewrite app_nil_r in H. cbn in H.
    rewrite Ha, Hc, H. rewrite Hc in Hl. cbn in Hl. split_and!; [|lia|by apply insert_Forall].
    apply Permutation_app_head. cbn. by rewrite <- Permutation_middle.
  - pose proof (in_hand_insert _ i (Evaluating t d) (if d then Draining else Waiting) Hi) as H.
    assert (working (if d then Draining else Waiting) = []) as Hd by (by destruct d). rewrite Hd in H. cbn in H.
    rewrite Ha, <- H. split_and!; [|lia|apply insert_Forall; [done|]].
    + rewrite <- !app_assoc. apply Permutation_app_head. rewrite !app_assoc. apply Permutation_app_tail, Permutation_app_comm.
    + intros Hn. specialize (Hg Hn). by destruct d.
  - pose proof (in_hand_insert _ i Waiting Draining Hi) as H. rewrite app_nil_r in H. cbn in H. rewrite Ha, H.
    split_and!; [done|lia|apply insert_Forall; [done|]]. by rewrite Hc.
  - pose proof (in_hand_insert _ i Draining Gone Hi) as H. rewrite app_nil_r in H. cbn in H. rewrite Ha, H.
    split_and!; [done|lia|apply insert_Forall; [done|]]. intros Hn. by specialize (Hg Hn).
Qed.

Lemma step_accounted p p' : accounted p → step p p' → accounted p'.
Proof.
  intros Hp Hs. destruct Hs as [t q|q|q q' Hs]; [..|by apply (loop_accounted q)].
  - unfold Record. destruct (negb _); [done|]. destruct (_ <? _)%nat eqn:E; [|done]. destruct Hp as (Ha & Hl & Hw).
    unfold accounted, in_hand in *. cbn. rewrite Ha, length_app. apply Nat.ltb_lt in E. cbn. split_and!; [|lia|done].
    by rewrite <- !app_assoc.
  - destruct Hp as (Ha & Hl & Hw). unfold accounted, in_hand. cbn. split_and!; [done..|].
    eapply Forall_impl; [exact Hw|done].
Qed.

(** How much is left to do. *)
Definition weight (g : goroutine) : nat :=
  match g with Waiting => 2 | Evaluating _ false => 4 | Evaluating _ true => 3 | Draining => 1 | Gone => 0 end.
Fixpoint total (ws : list goroutine) : nat := match ws with [] => 0 | g :: ws' => weight g + total ws' end.
Definition work (p : pool) : nat := 3 * length (ch p) + total (workers p).

Lemma weight_insert (ws : list goroutine) i g g' :
  ws !! i = Some g → (total (<[i := g']> ws) + weight g = weight g' + total ws)%nat.
Proof.
  revert i. induction ws as [|w ws IH]; intros i; [done|]. destruct i as [|i].
  - intros [= ->]. cbn. lia.
  - intros H. specialize (IH i H). change (<[S i := g']> (w :: ws)) with (w :: <[i := g']> ws). cbn [total]. lia.
Qed.

Lemma loop_decreases p p' : pool_loop_step p p' → (work p' < work p)%nat.
Proof.
  unfold work. intros Hs.
  destruct Hs as [i t ts p Hi Hc|i t ts p Hi Hc|i t d p Hi|i p Hi Hc|i p Hi Hc]; cbn.
  - pose proof (weight_insert _ i Waiting (Evaluating t false) Hi) as H. cbn in H. rewrite Hc. cbn. lia.
  - pose proof (weight_insert _ i Draining (Evaluating t true) Hi) as H. cbn in H. rewrite Hc. cbn. lia.
  - pose proof (weight_insert _ i (Evaluating t d) (if d then Draining else Waiting) Hi) as H. destruct d; cbn in H; lia.
  - pose proof (weight_insert _ i Waiting Draining Hi) as H. cbn in H. lia.
  - pose proof (weight_insert _ i Draining Gone Hi) as H. cbn in H. lia.
Qed.

Lemma loop_progress p : closing p = true → Forall (eq Gone) (workers p) ∨ ∃ p', pool_loop_step p p'.
Proof.
  intros Hc. assert (∀ g, {Gone = g} + {Gone ≠ g}) as dec by (intros []; by (left + right)).
  destruct (Forall_Exists_dec (eq Gone) (fun g => Gone ≠ g) dec (workers p)) as [|Hn]; [by left|right].
  apply Exists_exists in Hn as (g & Hin & Hne). apply list_elem_of_lookup in Hin as (i & Hi).
  destruct g as [|t d| |]; [| | |done].
  - eexists. by eapply see_done.
  - eexists. by eapply finish.
  - destruct (ch p) as [|t ts] eqn:E; eexists; [by eapply leave|by eapply take_draining].
Qed.
End PoolSpec.

(** The pool loses nothing it accepted.  In every state reached from the start, in
    any interleaving of recorders, workers and [Close], the accepted traces are
    those evaluated, being evaluated and in the channel, each once, and the channel
    is within its size; so when [Close] has let all workers go and the channel is
    empty, every accepted trace was evaluated exactly once. *)
Theorem pool_accounts_for_traces (w : Worker) (p : Pool.pool) :
  rtc Pool.step (Pool.start w) p →
  Pool.accepted p ≡ₚ (Pool.evaluated p ++ PoolSpec.in_hand p ++ Pool.ch p)%list ∧
  (length (Pool.ch p) ≤ Z.to_nat (ew_bufferSize w))%nat ∧
  (Forall (eq Pool.Gone) (Pool.workers p) → Pool.ch p = [] → Pool.accepted p ≡ₚ Pool.evaluated p).
Proof.
  intros Hr. assert (PoolSpec.accounted p ∧ Pool.size p = Z.to_nat (ew_bufferSize w)) as ((Ha & Hl & _) & Hs).
  { assert (PoolSpec.accounted (Pool.start w) ∧ Pool.size (Pool.start w) = Z.to_nat (ew_bufferSize w)) as H0.
    { split; [|done]. unfold PoolSpec.accounted, PoolSpec.in_hand. cbn. split_and!.
      - rewrite app_nil_r. by induction (Z.to_nat (ew_workerCount w)).
      - lia.
      - apply Forall_replicate. done. }
    revert H0. induction Hr as [p|p q r Hpq Hqr IH]; [done|]. intros [Hp Hz]. apply IH. split; [by eapply PoolSpec.step_accounted|].
    rewrite <- Hz. destruct Hpq as [t q|q|q q' Hs]; [|done|by destruct Hs]. unfold Pool.Record. repeat case_match; done. }
  split_and!; [done|lia|]. intros Hg Hc. rewrite Ha, Hc, app_nil_r. unfold PoolSpec.in_hand.
  assert (flat_map PoolSpec.working (Pool.workers p) = []) as ->; [|by rewrite app_nil_r].
  clear -Hg. induction Hg as [|g l <- _ IH]; [done|]. cbn. done.
Qed.

(** [C33] [Close] ends.  After it, while no more traces are recorded, the workers' moves
    cannot go on forever, and where no worker can move all have left: a drained
    pool is reached however the goroutines are scheduled. *)
Theorem pool_drains (p : Pool.pool) :
  Pool.closing p = true →
  Acc (fun q' q => Pool.pool_loop_step q q') p ∧
  ∀ q, rtc Pool.pool_loop_step p q → (∀ q', ¬ Pool.pool_loop_step q q') → Forall (eq Pool.Gone) (Pool.workers q).
Proof.
  intros Hc. split.
  - clear Hc. remember (PoolSpec.work p) as n eqn:Hn. revert p Hn. induction n as [n IH] using lt_wf_ind. intros p ->.
    constructor. intros q Hq. eapply IH; [by apply PoolSpec.loop_decreases|done].
  - intros q Hq Hstuck. assert (Pool.closing q = true) as Hcq.
    { clear Hstuck. induction Hq as [|a b c Hab Hbc IH]; [done|]. apply IH. by destruct Hab. }
    destruct (PoolSpec.loop_progress q Hcq) as [|[q' Hq']]; [done|]. by destruct (Hstuck q').
Qed.

(** ** The batcher *)
Module BatchSpec.
Import Batch.

Definition sent (b : batcher) : list Trace := concat (map fst (flushed b)).

Definition in_order (b : batcher) : Prop :=
  submitted b = (sent b ++ buf b ++ inq b)%list ∧
  Forall (fun f => (1 ≤ length (fst f) ≤ max b)%nat) (flushed b) ∧
  (length (buf b) < max b)%nat ∧ (length (inq b) ≤ room b)%nat.

Lemma sent_flush b : sent (flushBatch b) = (sent b ++ buf b)%list.
Proof. unfold sent. cbn. rewrite map_app, concat_app. cbn. by rewrite app_nil_r. Qed.

Lemma flush_in_order b :
  submitted b = (sent b ++ buf b ++ inq b)%list → Forall (fun f => (1 ≤ length (fst f) ≤ max b)%nat) (flushed b) →
  (1 ≤ length (buf b) ≤ max b)%nat → (length (inq b) ≤ room b)%nat → in_order (flushBatch b).
Proof.
  intros Hs Hf Hb Hi. unfold in_order. rewrite sent_flush. cbn. split_and!; [|by apply Forall_app_2; [|constructor]|lia|done].
  by rewrite Hs, <- app_assoc.
Qed.

Lemma nonempty_length {A} (l : list A) : nonempty l = true ↔ (1 ≤ length l)%nat.
Proof. destruct l; cbn; split; (lia || done). Qed.

Lemma step_in_order b b' : in_order b → run_step b b' → in_order b'.
Proof.
  intros (Hs & Hf & Hb & Hi) Hst. destruct Hst as [t b|ps b|b|b _ _|t rest b _ Hq|b _].
  - unfold Submit. destruct (negb _); [done|]. destruct (_ <? _)%nat eqn:E; [|done]. apply Nat.ltb_lt in E.
    unfold in_order, sent in *. cbn. rewrite Hs, length_app, <- !app_assoc. cbn. by split_and!; [..|lia].
  - done.
  - done.
  - unfold on_stop. destruct (nonempty (buf b)) eqn:E; [|done]. apply nonempty_length in E.
    destruct (flush_in_order b Hs Hf ltac:(lia) Hi) as (? & ? & ? & ?). done.
  - unfold on_trace. set (b1 := mkBatcher _ _ _ _ _ _ _ _ _).
    assert (submitted b1 = (sent b1 ++ buf b1 ++ inq b1)%list) as Hs1.
    { unfold b1, sent in *. cbn. by rewrite Hs, Hq, <- !app_assoc. }
    rewrite Hq in Hi. cbn in Hi. assert (length (buf b1) = S (length (buf b))) as Hl by (unfold b1; cbn; rewrite length_app; cbn; lia).
    change (max b1) with (max b). destruct (max b <=? length (buf b1))%nat eqn:E.
    + apply Nat.leb_le in E. apply flush_in_order; [done|done|change (max b1) with (max b); lia|unfold b1; cbn; lia].
    + apply Nat.leb_gt in E. split_and!; [done|done|done|unfold b1; cbn; lia].
  - unfold on_timer. destruct (nonempty (buf b)) eqn:E; [|done]. apply nonempty_length in E.
    apply flush_in_order; auto; lia.
Qed.
End BatchSpec.

(** Batches carry the submitted traces in order: in every reachable state the
    accepted traces are those flushed, those collected and those queued, in the
    order of their arrival; a batch is never empty nor over [MaxSize], and the
    queue is within its capacity. *)
Theorem batches_in_order (c : Batch.BatchConfig) (b : Batch.batcher) :
  rtc Batch.run_step (Batch.NewBatcher c) b →
  Batch.submitted b = (BatchSpec.sent b ++ Batch.buf b ++ Batch.inq b)%list ∧
  Forall (fun f => (1 ≤ length (fst f) ≤ Z.to_nat (Batch.MaxSize (Batch.ApplyDefaults c)))%nat) (Batch.flushed b) ∧
  (length (Batch.inq b) ≤ Z.to_nat (Batch.Capacity (Batch.ApplyDefaults c) * Batch.MaxSize (Batch.ApplyDefaults c)))%nat.
Proof.
  intros Hr. assert (BatchSpec.in_order b ∧ Batch.max b = Batch.max (Batch.NewBatcher c) ∧
    Batch.room b = Batch.room (Batch.NewBatcher c)) as ((Hs & Hf & _ & Hi) & Hm & Hro).
  { assert (BatchSpec.in_order (Batch.NewBatcher c)) as H0.
    { unfold BatchSpec.in_order, Batch.NewBatcher, Batch.ApplyDefaults. cbn. split_and!; [done|constructor| |lia].
      destruct (Batch.MaxSize c <=? 0) eqn:E; reflect_bools; lia. }
    revert H0. generalize (Batch.NewBatcher c) Hr. clear. intros b0 Hr. induction Hr as [|a b d Hab Hbd IH]; [done|].
    intros Ha. destruct IH as (? & Hm & Hro); [by eapply BatchSpec.step_in_order|]. split; [done|]. rewrite Hm, Hro.
    destruct Hab; cbn; unfold Batch.Submit, Batch.on_stop, Batch.on_trace, Batch.on_timer; repeat case_match; done. }
  rewrite Hm in Hf. rewrite Hro in Hi. done.
Qed.

(** [Stop] gives up the queue: its comment promises that the flush in flight is
    drained, and [run] does flush the traces it holds, but once it takes the stop
    branch nothing of what was accepted into the queue is ever flushed. *)
Theorem batcher_stop_loses_queue (b b' : Batch.batcher) :
  Batch.stopped b = false → Batch.stopping b = true →
  Batch.run_step b (Batch.on_stop b) ∧ Batch.inq (Batch.on_stop b) = Batch.inq b ∧
  (rtc Batch.run_step (Batch.on_stop b) b' → BatchSpec.sent b' = (BatchSpec.sent b ++ Batch.buf b)%list).
Proof.
  intros H1 H2. split_and!; [by constructor|unfold Batch.on_stop; by case_match|].
  assert (∀ a d, rtc Batch.run_step a d → Batch.stopped a = true → Batch.flushed d = Batch.flushed a) as Hfix.
  { intros a d Had. induction Had as [|a e d Hae Hed IH]; [done|]. intros Hst.
    destruct Hae as [t a|ps a|a|a Hn _|t rest a Hn _|a Hn]; try (by rewrite Hst in Hn); try (by apply IH).
    unfold Batch.Submit in *. repeat case_match; by apply IH. }
  intros Hr. unfold BatchSpec.sent at 1. rewrite (Hfix _ _ Hr) by (unfold Batch.on_stop; by case_match).
  unfold Batch.on_stop. destruct (Batch.nonempty (Batch.buf b)) eqn:E.
  - change (BatchSpec.sent (Batch.flushBatch b) = (BatchSpec.sent b ++ Batch.buf b)%list). apply BatchSpec.sent_flush.
  - cbn. destruct (Batch.buf b); [by rewrite app_nil_r|done].
Qed.

(** ** Instances *)

Definition toy_base (org user : string) : TraceBase :=
  mkBase "tr1" "" "" 0 org user "" "" "" fzero fzero 0 "hi" "" "" "" "" "".
Definition toy_trace (org user : string) : Trace :=
  mkTrace (toy_base org user) "" "gpt" "" 0 0 "stop" false 0 0 fzero 200 "" "" "" "hello" false [] [] "" "".

Definition toy_profile (org owner scope url : string) : EvalProfile :=
  mkProfile "p1" org "mine" ProfileSLMJudge scope owner (mkEndpoint url "m" KeySourceOrg "") [] fzero fone true 0 0.
Definition toy_options (plugin_only : bool) : Options :=
  mkOptions [ERemote (mkRemote "http://sidecar" [] "" 0)] "" "" "" "" [] 0 fone 0 0 0 plugin_only false.
Definition toy_rng : rng := (fun _ => fzero, 0%nat).

Definition toy_resolver : Trace → EvalEndpoint → res secret_err string := main_resolver toy_env 0 no_shards toy_creds.

Definition toy_worker (p : EvalProfile) : Worker :=
  fold_left configure [CReplace [p]; CResolver (Some toy_resolver)] (NewWorker (toy_options false)).

Lemma evaluators_of_own_org_witness :
  let w := toy_worker (toy_profile "acme" "u2" ProfileScopeUser "https://openai.acme.example/v1/") in
  ∃ e, e ∈ fst (collectEvaluators w (toy_trace "acme" "u1") toy_rng) ∧ (e ∈ ew_judges w ∨ ∃ p, made_of w (toy_trace "acme" "u1") p e).
Proof.
  cbn zeta. eexists. split; [apply list_elem_of_In; vm_compute; left; reflexivity|].
  apply (evaluators_of_own_org _ _ toy_rng). apply list_elem_of_In. vm_compute. left. reflexivity.
Defined.

Lemma plugin_only_holds_witness :
  let w := fold_left configure [CReplace [toy_profile "" "" ProfileScopeOrg "https://j"; mkProfile "h" "" "pii" ProfileHeuristicPII ProfileScopeOrg ""
             (mkEndpoint "" "" "" "") [] fzero fone true 0 0]] (NewWorker (toy_options true)) in
  fst (collectEvaluators w (toy_trace "acme" "u1") toy_rng) = [EPII] ∧ (EPII = EPII ∨ EPII = ECompleteness).
Proof.
  cbn zeta. split; [vm_compute; reflexivity|].
  apply (plugin_only_holds (toy_options true) [CReplace [toy_profile "" "" ProfileScopeOrg "https://j"; mkProfile "h" "" "pii" ProfileHeuristicPII
    ProfileScopeOrg "" (mkEndpoint "" "" "" "") [] fzero fone true 0 0]] (toy_trace "acme" "u1") toy_rng EPII); [reflexivity|].
  apply list_elem_of_In. vm_compute. left. reflexivity.
Defined.

Lemma personal_profile_sees_all_witness :
  let p := toy_profile "acme" "u2" ProfileScopeUser "https://openai.acme.example/v1/" in
  ∃ j, EJudge j ∈ fst (collectEvaluators (toy_worker p) (toy_trace "acme" "u1") toy_rng) ∧
    judge_post j (toy_trace "acme" "u1") = mkPost "https://openai.acme.example/v1/chat/completions" "sk-org"
      (JudgeChat "m" judgeSystemPrompt (judge_content (toy_trace "acme" "u1"))).
Proof.
  cbn zeta. apply (personal_profile_sees_all (toy_worker (toy_profile "acme" "u2" ProfileScopeUser "https://openai.acme.example/v1/"))
    (toy_trace "acme" "u1") toy_rng (toy_profile "acme" "u2" ProfileScopeUser "https://openai.acme.example/v1/") "sk-org" toy_resolver);
    try reflexivity; try (by vm_compute); by left.
Defined.

Lemma default_org_key_leaves_witness :
  let p := toy_profile "acme" "" ProfileScopeUser "https://openai.acme.example/v1/" in
  ∃ j, EJudge j ∈ fst (collectEvaluators (toy_worker p) (toy_trace "acme" "") toy_rng) ∧
    po_bearer (judge_post j (toy_trace "acme" "")) = "sk-org" ∧
    po_url (judge_post j (toy_trace "acme" "")) = "https://openai.acme.example/v1/chat/completions".
Proof.
  cbn zeta. destruct (fst (ResolveCredential toy_env "default" "" "openai" toy_creds)) as [[cred src]|e] eqn:Hc; [|by vm_compute in Hc].
  assert (dc_Secret cred = "sk-org") as Hs by (vm_compute in Hc; by injection Hc as <- <-). rewrite <- Hs.
  apply (default_org_key_leaves toy_env 0 no_shards toy_creds
    (toy_worker (toy_profile "acme" "" ProfileScopeUser "https://openai.acme.example/v1/")) (toy_trace "acme" "") toy_rng
    (toy_profile "acme" "" ProfileScopeUser "https://openai.acme.example/v1/") cred src);
    [by left|vm_compute; reflexivity|reflexivity|reflexivity|done|reflexivity|reflexivity|done|done|reflexivity|reflexivity|exact Hc|by rewrite Hs].
Defined.

Definition no_transport : eval_transport := fun _ => Err "down".

Lemma scores_attributed_witness :
  let t := toy_trace "acme" "u1" in
  ∃ scs, WriteScores scs ∈ evaluate no_transport 0 (NewWorker (toy_options false)) t [EPII; ECompleteness] [ECompleteness; EPII] ∧
    map sc_OrgID scs = ["acme"; "acme"] ∧
    Forall (fun s => sc_TraceID s = "tr1" ∧ sc_OrgID s = "acme" ∧ sc_UserID s = "u1" ∧ sc_RequestModel s = "gpt") scs.
Proof.
  cbn zeta. eexists. split; [apply list_elem_of_In; left; reflexivity|]. split; [vm_compute; reflexivity|].
  eapply (scores_attributed no_transport 0 (NewWorker (toy_options false)) (toy_trace "acme" "u1") [EPII; ECompleteness] [ECompleteness; EPII]).
  - apply list_elem_of_In. left. reflexivity.
  - by repeat constructor.
Defined.

Lemma pending_names_exact_witness :
  let p n := EPlugin n (fun _ => Ok []) in
  "a" ∈ pending_names (cl_pending (runEvaluators no_transport 0 (toy_trace "" "") [p "a"; p "b"; p "a"] [p "b"; p "a"])) ∧
  ¬ "b" ∈ pending_names (cl_pending (runEvaluators no_transport 0 (toy_trace "" "") [p "a"; p "b"; p "a"] [p "b"; p "a"])).
Proof.
  cbn zeta. split; rewrite (pending_names_exact no_transport 0 (toy_trace "" "") _ _ [EPlugin "a" (fun _ => Ok [])]);
    try (apply perm_trans with [EPlugin "b" (fun _ => Ok []); EPlugin "a" (fun _ => Ok []); EPlugin "a" (fun _ => Ok [])]; [apply perm_swap|reflexivity]).
  - exists (EPlugin "a" (fun _ => Ok [])). split; [by left|reflexivity].
  - intros (e & ->%list_elem_of_singleton & H). discriminate H.
Defined.

(** Two workers; one trace is being evaluated when [Close] comes. *)
Definition toy_pool : Pool.pool :=
  Pool.mkPool [toy_trace "b" ""] 5 [Pool.Evaluating (toy_trace "a" "") false; Pool.Waiting] true
    [toy_trace "a" ""; toy_trace "b" ""] [].

Lemma pool_accounts_for_traces_witness :
  let w := NewWorker (toy_options false) in
  let p := Pool.Close (Pool.Record (toy_trace "a" "") (Pool.start w)) in
  Pool.accepted p ≡ₚ (Pool.evaluated p ++ PoolSpec.in_hand p ++ Pool.ch p)%list ∧ Pool.accepted p = [toy_trace "a" ""].
Proof.
  cbn zeta. split; [|reflexivity]. apply (pool_accounts_for_traces (NewWorker (toy_options false))).
  eapply rtc_l; [apply (Pool.step_record (toy_trace "a" ""))|]. eapply rtc_l; [apply Pool.step_close|]. apply rtc_refl.
Defined.

Lemma pool_drains_witness : Acc (fun q' q => Pool.pool_loop_step q q') toy_pool ∧ ∃ q, Pool.pool_loop_step toy_pool q.
Proof. split; [by apply (pool_drains toy_pool)|]. eexists. by apply (Pool.see_done 1). Defined.

Lemma batches_in_order_witness :
  let b := Batch.on_timer (Batch.on_trace (toy_trace "a" "") [] (Batch.Submit (toy_trace "a" "") (Batch.NewBatcher (Batch.mkConfig 0 0 0)))) in
  Batch.submitted b = (BatchSpec.sent b ++ Batch.buf b ++ Batch.inq b)%list ∧ length (Batch.flushed b) = 1%nat.
Proof.
  cbn zeta. split; [|reflexivity]. apply (batches_in_order (Batch.mkConfig 0 0 0)).
  eapply rtc_l; [apply (Batch.b_submit (toy_trace "a" ""))|]. eapply rtc_l; [by apply Batch.b_on_trace|].
  eapply rtc_l; [by apply Batch.b_on_timer|]. apply rtc_refl.
Defined.

Lemma batcher_stop_loses_queue_witness :
  let b := Batch.batcher_Stop (Batch.Submit (toy_trace "a" "") (Batch.NewBatcher (Batch.mkConfig 0 0 0))) in
  Batch.inq (Batch.on_stop b) = [toy_trace "a" ""] ∧ BatchSpec.sent (Batch.on_stop b) = [].
Proof.
  cbn zeta. split; [reflexivity|].
  apply (batcher_stop_loses_queue (Batch.batcher_Stop (Batch.Submit (toy_trace "a" "") (Batch.NewBatcher (Batch.mkConfig 0 0 0))))
    (Batch.on_stop (Batch.batcher_Stop (Batch.Submit (toy_trace "a" "") (Batch.NewBatcher (Batch.mkConfig 0 0 0))))));
    [reflexivity|reflexivity|apply rtc_refl].
Defined.
