(* ===== verification/Heuristic.v ===== *)
(** * Heuristic: src/internal/evaluators/heuristic (patterns.go, local.go)

    The in-process metrics of heuristic plugins and the redaction of personal data,
    with their properties: the PII metric against the redaction, and the two-row
    longest common subsequence behind ROUGE-L.  Upper and lower case are those of
    ASCII. *)

From stdpp Require Import pretty.
From S2P Require Import Prelude GoString GoTime Float64 GoSort GoUrl Net Json CoreStore GwTypes Regex Evals.
Local Open Scope string_scope.
Local Open Scope Z_scope.

(** ** patterns.go *)

Definition dashed (l : list nat) : re :=
  let fix go l := match l with [] => Eps | [n] => times n digit | n :: l' => seqs [times n digit; lit_re "-"; go l'] end in go l.
Definition bounded (r : re) : re := seqs [WordB; r; WordB].

Definition piiPatterns : list re := [
  bounded (dashed [3; 2; 4]%nat);
  bounded (times 9 digit);
  bounded (seqs [times 3 digit; lit_re " "; times 3 digit; lit_re " "; times 4 digit]);
  bounded (seqs [times 6 digit; lit_re "-"; Chr (byte_of "1234"); times 6 digit]);
  seqs [plus (class "._%+-"); lit_re "@"; plus (class ".-"); lit_re "."; at_least 2 (Chr is_alpha)];
  bounded (dashed [3; 3; 4]%nat);
  bounded (dashed [3; 4; 4]%nat);
  bounded (seqs [times 3 (seqs [upto_more 1 2 digit; lit_re "."]); upto_more 1 2 digit])].

Definition containsPII (s : string) : bool :=
  if String.eqb s "" then false else existsb (fun p => MatchString p s) piiPatterns.

Definition pii_mark : string := "[REDACTED:pii]".

Definition redact (s : string) : string :=
  if String.eqb s "" then s else fold_left (fun out p => ReplaceAllString p out pii_mark) piiPatterns s.

(** The two texts of a trace after [RedactPII]. *)
Definition RedactPII (t : Trace) : string * string :=
  if String.eqb (InputMessages (t_base t)) "" && String.eqb (OutputMessages t) ""
  then (InputMessages (t_base t), OutputMessages t)
  else (redact (InputMessages (t_base t)), redact (OutputMessages t)).

Definition patternName (i : nat) : string :=
  nth i ["ssn-dashed"; "ssn-contiguous"; "uk-nhs"; "kr-rrn"; "email"; "phone-us-dashed"; "phone-kr"; "ipv4"] "unknown".

(** [InspectPII]: the names of the patterns that fired; there is PII when there are any. *)
Definition InspectPII (t : Trace) : bool * list string :=
  let hits s := if String.eqb s "" then []
                else map (fun ip => patternName (fst ip)) (List.filter (fun ip => MatchString (snd ip) s) (imap pair piiPatterns)) in
  let all := (hits (InputMessages (t_base t)) ++ hits (OutputMessages t))%list in
  (match all with [] => false | _ => true end, all).

(** ** local.go *)

(** The values of a manifest's arguments; a number with a fraction and a value of
    another kind carry how [fmt] prints them. *)
#[local] Unset Elimination Schemes.
Inductive any :=
| AStr (s : string) | ABool (b : bool) | AInt (z : Z) | AFloat (f : float64) (shown : string) | ANil
| AList (l : list any) | AStrs (l : list string) | AOther (shown : string).
#[local] Set Elimination Schemes.

Fixpoint Sprint (v : any) : string :=
  match v with
  | AStr s => s
  | ABool b => if b then "true" else "false"
  | AInt z => pretty z
  | AFloat _ shown => shown
  | ANil => "<nil>"
  | AList l => "[" +:+ Join (map Sprint l) " " +:+ "]"
  | AStrs l => "[" +:+ Join l " " +:+ "]"
  | AOther shown => shown
  end.

Definition arguments : Type := gmap string any.

Definition resultOutput (t : Trace) : string :=
  if String.eqb (OutputMessages t) "" then InputMessages (t_base t) else OutputMessages t.

Definition coerceString (v : any) : string := match v with AStr s => s | ABool _ => "" | _ => Sprint v end.

Definition stringArg (args : arguments) (k def : string) : string :=
  match args !! k with
  | None | Some ANil => def
  | Some (AStr s) => if String.eqb s "" then def else s
  | Some v => Sprint v
  end.

Definition boolArg (args : arguments) (k : string) (def : bool) : bool :=
  match args !! k with Some (ABool b) => b | _ => def end.

Definition floatArg (args : arguments) (k : string) (def : float64) : float64 :=
  match args !! k with Some (AFloat f _) => f | Some (AInt z) => of_Z z | _ => def end.

Definition toStringSlice (v : any) : res string (list string) :=
  match v with
  | AStrs [] => Err "empty list"
  | AStrs l => Ok l
  | AList l =>
      fold_right (fun e acc => match e, acc with
                               | AStr s, Ok l => Ok (s :: l)
                               | AStr _, Err e => Err e
                               | _, _ => Err "element is not a string"
                               end) (Ok []) l
  | AStr "" => Err "empty string"
  | AStr s => Ok [s]
  | _ => Err "unsupported type"
  end.

(** [meta] is the trace's [EvalMetadata]. *)
Definition referenceFor (args : arguments) (meta : arguments) (t : Trace) : string :=
  let literal := match args !! "reference" with Some v => coerceString v | None => "" end in
  if negb (String.eqb literal "") then literal
  else
    let path := stringArg args "references_from" "" in
    if String.eqb path "" then
      if String.eqb (EvalReference (t_base t)) "" then resultOutput t else EvalReference (t_base t)
    else if String.eqb path "trace.eval_reference" then EvalReference (t_base t)
    else if String.eqb path "trace.output_messages" then OutputMessages t
    else if String.eqb path "trace.input_messages" then InputMessages (t_base t)
    else if HasPrefix path "trace.metadata." then
      match meta !! TrimPrefix path "trace.metadata." with Some v => coerceString v | None => "" end
    else path.

Definition score_traceID (t : Trace) : string :=
  if String.eqb (TraceID (t_base t)) "" then "trace:unspecified" else TraceID (t_base t).

Definition makeScore (t : Trace) (metric : string) (score : float64) (passed : bool) (why : string) : Score :=
  bare_score (score_traceID t) zero_time ("heuristic_" +:+ metric) metric score passed why "".

Fixpoint contains_loop (wantAll : bool) (haystack : string) (needles : list string) (hits : nat) : option (bool * string) * nat :=
  match needles with
  | [] => (None, hits)
  | n :: ns =>
      if Contains haystack (ToLower n) then
        if negb wantAll then (Some (true, "any match"), S hits) else contains_loop wantAll haystack ns (S hits)
      else if wantAll then (Some (false, "needle miss in all-mode"), hits)
      else contains_loop wantAll haystack ns hits
  end.

Definition evalContains (args : arguments) (t : Trace) : res string (list Score) :=
  match args !! "needles" with
  | None => Err "contains: args.needles is required"
  | Some v =>
      match toStringSlice v with
      | Err e => Err ("contains: args.needles: " +:+ e)
      | Ok [] => Err "contains: args.needles is empty"
      | Ok needles =>
          let haystack := ToLower (stringArg args "reference" (resultOutput t)) in
          let wantAll := boolArg args "all" true in
          match contains_loop wantAll haystack needles 0 with
          | (Some (passed, why), _) => Ok [makeScore t "contains" (if passed then fone else fzero) passed why]
          | (None, hits) =>
              let passed := (wantAll && (hits =? length needles)%nat) || (negb wantAll && (0 <? hits)%nat) in
              Ok [makeScore t "contains" (if passed then fone else fzero) passed
                    (if passed then "all needles matched (all=true)" else "no needle hit")]
          end
      end
  end.

Definition evalPII (t : Trace) : list Score :=
  let hit := existsb containsPII [InputMessages (t_base t); resultOutput t] in
  [bare_score (score_traceID t) zero_time "heuristic_pii" "pii" (if hit then fzero else fone) (negb hit)
     (if hit then "match" else "no PII patterns matched") ""].

Definition evalExactMatch (args meta : arguments) (t : Trace) : list Score :=
  let pred := stringArg args "prediction" (resultOutput t) in
  let ref := TrimSpace (referenceFor args meta t) in
  if String.eqb ref "" then [makeScore t "exact_match" fzero false "no reference supplied"]
  else if String.eqb (TrimSpace pred) ref then [makeScore t "exact_match" fone true "exact match"]
  else [makeScore t "exact_match" fzero false "value mismatch"].

(** [[]rune(s)]: a byte that is not UTF-8 is the replacement character. *)
Definition rune_list (s : string) : list string := map (default replacement) (utf8_runes s).

(** One row of the table: [diag] and [prev] are the row above from the column left
    of this one on, [left] the cell to the left. *)
Fixpoint lcs_row (a : string) (br : list string) (diag : nat) (prev : list nat) (left : nat) : list nat :=
  match br, prev with
  | b :: br', up :: prev' =>
      let v := if String.eqb a b then S diag else if (up <? left)%nat then left else up in
      v :: lcs_row a br' up prev' v
  | _, _ => []
  end.

(** Without the column of zeros on the left. *)
Definition lcs_rows (ar br : list string) : list nat :=
  fold_left (fun prev a => lcs_row a br 0 prev 0) ar (replicate (length br) 0%nat).

Definition lcs_of (ar br : list string) : nat := List.last (lcs_rows ar br) 0%nat.

Definition longestCommonSubsequence (a b : string) : nat :=
  let ar := rune_list a in
  let br := rune_list b in
  match ar, br with [], _ | _, [] => 0%nat | _, _ => lcs_of ar br end.

Definition rougeL (prediction reference : string) (beta : float64) : float64 :=
  if String.eqb prediction "" || String.eqb reference "" then fzero
  else
    let lcs := longestCommonSubsequence prediction reference in
    if (lcs =? 0)%nat then fzero
    else
      let r := fdiv (of_Z (Z.of_nat lcs)) (of_Z (Z.of_nat (length (rune_list reference)))) in
      let p := fdiv (of_Z (Z.of_nat lcs)) (of_Z (Z.of_nat (length (rune_list prediction)))) in
      let denom := fadd r (fmul (fmul beta beta) p) in
      if feq denom fzero then fzero
      else fdiv (fmul (fmul (fadd fone (fmul beta beta)) r) p) denom.

Definition evalRougeL (args meta : arguments) (t : Trace) : list Score :=
  let pred := stringArg args "prediction" (resultOutput t) in
  let ref := referenceFor args meta t in
  if String.eqb ref "" then [makeScore t "rouge_l" fzero false "no reference supplied"]
  else
    let f := rougeL pred ref (floatArg args "beta" fone) in
    [makeScore t "rouge_l" f (fge f (floatArg args "threshold" (lit 1 2))) "F-measure above threshold"].

Definition heuristic_Evaluate (name : string) (args meta : arguments) (t : Trace) : res string (list Score) :=
  if String.eqb name "contains" then evalContains args t
  else if String.eqb name "pii" then Ok (evalPII t)
  else if String.eqb name "exact_match" then Ok (evalExactMatch args meta t)
  else if String.eqb name "rouge_l" then Ok (evalRougeL args meta t)
  else Err ("heuristic " +:+ name +:+ " is not in-process").

(** ** The longest common subsequence *)

(** The recursion behind the table, over reversed prefixes. *)
Fixpoint rlcs (xs : list string) : list string → nat :=
  match xs with
  | [] => fun _ => 0%nat
  | x :: xs' =>
      fix inner (ys : list string) : nat :=
        match ys with
        | [] => 0%nat
        | y :: ys' => if String.eqb x y then S (rlcs xs' ys') else Nat.max (inner ys') (rlcs xs' (y :: ys'))
        end
  end.

Lemma rlcs_cons x xs y ys :
  rlcs (x :: xs) (y :: ys) = if String.eqb x y then S (rlcs xs ys) else Nat.max (rlcs (x :: xs) ys) (rlcs xs (y :: ys)).
Proof. reflexivity. Qed.
Lemma rlcs_nil_r xs : rlcs xs [] = 0%nat.
Proof. by destruct xs. Qed.

(** The row of the table for the reversed prefix [xs]: one cell for each prefix of
    the other text, from the one behind the reversed prefix [ys] on. *)
Fixpoint row_of (xs ys br : list string) : list nat :=
  match br with [] => [] | b :: br' => rlcs xs (b :: ys) :: row_of xs (b :: ys) br' end.

Lemma lcs_row_spec a xs ys br :
  lcs_row a br (rlcs xs ys) (row_of xs ys br) (rlcs (a :: xs) ys) = row_of (a :: xs) ys br.
Proof.
  revert ys. induction br as [|b br IH]; intros ys; [done|]. cbn [lcs_row row_of].
  assert ((if String.eqb a b then S (rlcs xs ys) else if (rlcs xs (b :: ys) <? rlcs (a :: xs) ys)%nat
    then rlcs (a :: xs) ys else rlcs xs (b :: ys)) = rlcs (a :: xs) (b :: ys)) as ->.
  { rewrite rlcs_cons. destruct (String.eqb a b); [done|].
    destruct (Nat.ltb_spec (rlcs xs (b :: ys)) (rlcs (a :: xs) ys)); lia. }
  f_equal. apply IH.
Qed.

Lemma row_of_nil ys br : row_of [] ys br = replicate (length br) 0%nat.
Proof. revert ys. induction br as [|b br IH]; intros ys; [done|]. cbn. f_equal. apply IH. Qed.

Lemma lcs_rows_spec ar br : lcs_rows ar br = row_of (reverse ar) [] br.
Proof.
  unfold lcs_rows. assert (∀ xs, fold_left (fun prev a => lcs_row a br 0 prev 0) ar (row_of xs [] br) = row_of (reverse ar ++ xs)%list [] br) as H.
  { induction ar as [|a ar IH]; intros xs; [done|]. cbn [fold_left]. rewrite reverse_cons, <- app_assoc. cbn [app].
    pose proof (lcs_row_spec a xs [] br) as Hr. rewrite !rlcs_nil_r in Hr. rewrite Hr. apply (IH (a :: xs)). }
  specialize (H []). rewrite app_nil_r in H. rewrite <- H. by rewrite row_of_nil.
Qed.

Lemma row_of_last xs ys br : br ≠ [] → List.last (row_of xs ys br) 0%nat = rlcs xs (reverse br ++ ys)%list.
Proof.
  revert ys. induction br as [|b br IH]; intros ys Hne; [done|]. rewrite reverse_cons, <- app_assoc. cbn [app row_of].
  destruct br as [|b' br]; [done|]. rewrite <- IH by done. reflexivity.
Qed.

(** [rlcs] is the greatest length of a common subsequence. *)
Lemma rlcs_common xs ys : ∃ l, sublist l xs ∧ sublist l ys ∧ length l = rlcs xs ys.
Proof.
  revert ys. induction xs as [|x xs IHx]; intros ys; [exists []; split_and!; [constructor|apply sublist_nil_l|done]|].
  induction ys as [|y ys IHy]; [exists []; split_and!; [apply sublist_nil_l|constructor|done]|].
  rewrite rlcs_cons. destruct (String.eqb_spec x y) as [<-|].
  - destruct (IHx ys) as (l & H1 & H2 & H3). exists (x :: l). split_and!; [by constructor|by constructor|cbn; lia].
  - destruct (Nat.le_ge_cases (rlcs (x :: xs) ys) (rlcs xs (y :: ys))) as [H|H].
    + destruct (IHx (y :: ys)) as (l & H1 & H2 & H3). exists l. split_and!; [by constructor|done|lia].
    + destruct IHy as (l & H1 & H2 & H3). exists l. split_and!; [done|by constructor|lia].
Qed.

Lemma sublist_tail (z : string) l x xs : sublist (z :: l) (x :: xs) → sublist l xs.
Proof. intros H. inversion H; subst; [done|]. eapply sublist_cons_l in H2 as (k1 & k2 & -> & ?). by apply sublist_inserts_l, sublist_cons. Qed.

Lemma rlcs_greatest xs ys l : sublist l xs → sublist l ys → (length l ≤ rlcs xs ys)%nat.
Proof.
  revert ys l. induction xs as [|x xs IHx]; intros ys l Hx; [apply sublist_nil_r in Hx as ->; cbn; lia|].
  revert l Hx. induction ys as [|y ys IHy]; intros l Hx Hy; [apply sublist_nil_r in Hy as ->; cbn; lia|].
  rewrite rlcs_cons. destruct (String.eqb_spec x y) as [<-|Hne].
  - destruct l as [|z l]; cbn; [lia|]. apply sublist_tail in Hx, Hy. specialize (IHx ys l Hx Hy). lia.
  - inversion Hx as [|? l1 ? Hx1|? ? ? Hx1]; subst.
    + assert (sublist (x :: l1) ys) as Hy1 by (inversion Hy; subst; [done|done]). specialize (IHy _ Hx Hy1). lia.
    + specialize (IHx (y :: ys) l Hx1 Hy). lia.
Qed.

Lemma sublist_reversed (l k : list string) : sublist l k → sublist (reverse l) (reverse k).
Proof.
  induction 1 as [|x l k _ IH|x l k _ IH]; [constructor|rewrite !reverse_cons; by apply sublist_app|].
  rewrite reverse_cons. by apply sublist_inserts_r.
Qed.

(** [C35] The two-row table computes the longest common subsequence: there is a common
    subsequence of the runes of the two texts of the computed length, and none is
    longer. *)
Theorem lcs_correct (a b : string) :
  (∃ l, sublist l (rune_list a) ∧ sublist l (rune_list b) ∧ length l = longestCommonSubsequence a b) ∧
  ∀ l, sublist l (rune_list a) → sublist l (rune_list b) → (length l ≤ longestCommonSubsequence a b)%nat.
Proof.
  assert (longestCommonSubsequence a b = rlcs (reverse (rune_list a)) (reverse (rune_list b))) as ->.
  { unfold longestCommonSubsequence, lcs_of. destruct (rune_list a) as [|x xs]; [done|]. destruct (rune_list b) as [|y ys] eqn:E.
    - by rewrite rlcs_nil_r.
    - rewrite lcs_rows_spec, row_of_last by done. by rewrite app_nil_r. }
  split.
  - destruct (rlcs_common (reverse (rune_list a)) (reverse (rune_list b))) as (l & H1 & H2 & H3). exists (reverse l).
    apply sublist_reversed in H1, H2. rewrite !reverse_involutive in *. by rewrite length_reverse.
  - intros l H1 H2. rewrite <- (length_reverse l). by apply rlcs_greatest; apply sublist_reversed.
Qed.

(** ** The PII metric and the redaction *)

(** What the redaction needs of a pattern: it consumes text, but no bracket. *)
Definition plain_pattern (p : re) : Prop := consumes p ∧ alphabet p "[" = false.

Lemma piiPatterns_plain : Forall plain_pattern piiPatterns.
Proof.
  repeat constructor.
  all: unfold bounded, dashed, seqs, plus, at_least, upto_more, digit, class; cbn [fold_right times];
    eauto 12 using consumes_chr, consumes_seq_l, consumes_seq_r.
Qed.

Definition brackets (s : string) : nat := count "[" (String.list_ascii_of_string s).

Lemma replace_brackets p s :
  plain_pattern p → (brackets s ≤ brackets (ReplaceAllString p s pii_mark))%nat ∧
  (MatchString p s = true → (brackets s < brackets (ReplaceAllString p s pii_mark))%nat) ∧
  (MatchString p s = false → ReplaceAllString p s pii_mark = s).
Proof.
  intros [Hc Ha]. unfold brackets, ReplaceAllString, MatchString. rewrite String.list_ascii_of_string_of_list_ascii.
  destruct (replace_count p (String.list_ascii_of_string pii_mark) "[" (S (length (String.list_ascii_of_string s))) None
    (String.list_ascii_of_string s) Hc Ha ltac:(lia)) as (k & Hk & Hm). rewrite Hk.
  change (count "[" (String.list_ascii_of_string pii_mark)) with 1%nat. split_and!.
  - lia.
  - intros H%Hm. lia.
  - intros H. rewrite replace_no_match by (done || lia). apply String.string_of_list_ascii_of_string.
Qed.

Lemma redact_patterns ps s :
  Forall plain_pattern ps →
  let out := fold_left (fun out p => ReplaceAllString p out pii_mark) ps s in
  (brackets s ≤ brackets out)%nat ∧
  (existsb (fun p => MatchString p s) ps = true → (brackets s < brackets out)%nat) ∧
  (existsb (fun p => MatchString p s) ps = false → out = s).
Proof.
  intros H. cbn zeta. revert s. induction H as [|p ps Hp Hps IH]; intros s; cbn [fold_left existsb]; [by split_and!|].
  destruct (replace_brackets p s Hp) as (H1 & H2 & H3). destruct (IH (ReplaceAllString p s pii_mark)) as (H4 & H5 & H6).
  split_and!; [lia| |].
  - intros He. destruct (MatchString p s); [specialize (H2 eq_refl); lia|]. rewrite H3 in * by done. auto.
  - intros [Hm He]%orb_false_elim. rewrite H3 in * by done. auto.
Qed.

Lemma redact_iff s : redact s = s ↔ containsPII s = false.
Proof.
  unfold redact, containsPII. destruct (String.eqb s ""); [done|].
  destruct (redact_patterns piiPatterns s piiPatterns_plain) as (_ & H1 & H2).
  destruct (existsb _ _); [|by rewrite H2]. split; [|done]. intros He. rewrite He in H1. specialize (H1 eq_refl). lia.
Qed.

(** The PII metric agrees with the redaction: a trace passes exactly when neither
    of its texts is changed by [RedactPII]. *)
Theorem pii_metric_iff_redacted (t : Trace) :
  Forall (fun s => sc_Passed s = true ↔ RedactPII t = (InputMessages (t_base t), OutputMessages t)) (evalPII t).
Proof.
  repeat constructor; cbn; unfold RedactPII, resultOutput.
  - intros H. apply negb_true_iff in H. rewrite orb_false_r in H. apply orb_false_elim in H as [Hi Ho].
    destruct (_ && _); [done|]. f_equal; [by apply redact_iff|]. destruct (String.eqb_spec (OutputMessages t) "") as [->|]; [done|].
    by apply redact_iff.
  - intros H. assert (containsPII (InputMessages (t_base t)) = false ∧ containsPII (OutputMessages t) = false) as [Hi Ho].
    { destruct (_ && _) eqn:E.
      - by apply andb_prop in E as [->%String.eqb_eq ->%String.eqb_eq].
      - pose proof (f_equal fst H) as H1. pose proof (f_equal snd H) as H2. by split; apply redact_iff. }
    by destruct (String.eqb (OutputMessages t) ""); rewrite ?Hi, ?Ho.
Qed.

(** The redaction leaves personal data behind: masking an address can make the
    digits behind it a word of their own, after the patterns for digits have run.
    The social security number of this text is sent as it stands. *)
Theorem redaction_incomplete :
  let s := "reach me at x@b.co123-45-6789" in
  redact s = "reach me at [REDACTED:pii]123-45-6789" ∧ containsPII (redact s) = true ∧ redact (redact s) ≠ redact s.
Proof. vm_compute. split_and!; [reflexivity|reflexivity|discriminate]. Qed.

(** ** Containment *)

Lemma contains_loop_spec wantAll h ns hits :
  let found := fun n => Contains h (ToLower n) in
  match contains_loop wantAll h ns hits with
  | (Some (passed, _), _) => passed = if wantAll then forallb found ns else existsb found ns
  | (None, k) => if wantAll then forallb found ns = true ∧ k = (hits + length ns)%nat else existsb found ns = false ∧ k = hits
  end.
Proof.
  cbn zeta. revert hits. induction ns as [|n ns IH]; intros hits; cbn; [destruct wantAll; split; done || lia|].
  destruct (Contains h (ToLower n)) eqn:E; cbn.
  - destruct wantAll; cbn; [|done]. specialize (IH (S hits)). destruct (contains_loop _ _ _ _) as [[[]|] k]; [done|].
    destruct IH as [-> ->]. split; [done|lia].
  - destruct wantAll; cbn; [done|]. apply IH.
Qed.

(** The contains metric: with a list of needles it passes exactly when all of them
    occur, or one of them when [all] is false, and its score is one or zero to
    match; without needles it is an error. *)
Theorem contains_metric_iff (args : arguments) (t : Trace) (scores : list Score) :
  heuristic_Evaluate "contains" args ∅ t = Ok scores →
  ∃ v needles s, args !! "needles" = Some v ∧ toStringSlice v = Ok needles ∧ needles ≠ [] ∧ scores = [s] ∧
    sc_Score s = (if sc_Passed s then fone else fzero) ∧
    let found n := Contains (ToLower (stringArg args "reference" (resultOutput t))) (ToLower n) in
    sc_Passed s = if boolArg args "all" true then forallb found needles else existsb found needles.
Proof.
  unfold heuristic_Evaluate. cbn [String.eqb Ascii.eqb Bool.eqb]. unfold evalContains.
  destruct (args !! "needles") as [v|] eqn:Ev; [|done]. destruct (toStringSlice v) as [needles|e] eqn:En; [|done].
  destruct needles as [|n ns]; [done|]. set (h := ToLower _). set (all := boolArg _ _ _). set (l := n :: ns) in *.
  pose proof (contains_loop_spec all h l 0) as H. destruct (contains_loop all h l 0) as [[[passed why]|] hits].
  - intros [= <-]. exists v, l. eexists. split_and!; [done|done|done|reflexivity|done|done].
  - intros [= <-]. exists v, l. eexists. split_and!; [done|done|done|reflexivity|done|]. cbn zeta. cbn [sc_Passed makeScore bare_score].
    destruct all; destruct H as [-> ->]; cbn [andb negb orb]; [|done]. by rewrite Nat.add_0_l, Nat.eqb_refl.
Qed.

Lemma contains_metric_iff_witness :
  let args : arguments := {["needles" := AStrs ["Hi"; "x"]; "all" := ABool false]} in
  ∃ s, heuristic_Evaluate "contains" args ∅ (mkTrace (mkBase "t" "" "" 0 "" "" "" "" "" fzero fzero 0 "" "" "" "" "" "") "" "" "" 0 0 ""
     false 0 0 fzero 200 "" "" "" "oh hi" false [] [] "" "") = Ok [s] ∧ sc_Passed s = true ∧ sc_Score s = (if sc_Passed s then fone else fzero).
Proof.
  cbn zeta. eexists. split; [vm_compute; reflexivity|]. split; [reflexivity|].
  edestruct (contains_metric_iff {["needles" := AStrs ["Hi"; "x"]; "all" := ABool false]}
    (mkTrace (mkBase "t" "" "" 0 "" "" "" "" "" fzero fzero 0 "" "" "" "" "" "") "" "" "" 0 0 "" false 0 0 fzero 200 "" "" "" "oh hi" false [] [] "" ""))
    as (v & needles & s & _ & _ & _ & Hs & Hsc & _); [vm_compute; reflexivity|]. injection Hs as Hs. rewrite <- Hs in Hsc. exact Hsc.
Defined.
