(* ===== verification/Plugins.v ===== *)
(** * Plugins: src/internal/evalplugin and src/internal/evaluators/external

    Evaluation plugins: the manifest and its validation (types.go, validate.go), the
    registry, the in-memory store and the loading of the one from the other
    (registry.go, store.go, store_loader.go), the dispatcher
    (dispatcher.go, target.go), the evaluator that fans a trace out (multi.go), the
    scheduler's buffers (scheduler.go) and the collector of results (collector.go).

    Decoding of YAML, [text/template], the vendors' adapters and the look-up of
    secrets are arguments.  A range over a map visits its values in the order of
    [map_to_list]; where the order could matter the definition takes the list. *)

From stdpp Require Import pretty.
From S2P Require Import Prelude GoString GoTime Float64 GoSort GoUrl Net Json CoreStore GwTypes Regex Evals EvalWorker Heuristic.
Local Open Scope string_scope.
Local Open Scope Z_scope.
Local Open Scope go_scope.

(** ** types.go *)

Definition PluginAPIVersion : string := "nexus.io/v1alpha1".
Definition PluginAPIVersionV1Alpha2 : string := "nexus.io/v1alpha2".
Definition pluginKindExpected : string := "EvalPlugin".

Definition ServiceHeuristic : string := "heuristic".
Definition ServiceConfidentAI : string := "confident_ai".
Definition ServiceArizePhoenix : string := "arize_phoenix".
Definition ServiceCollector : string := "otel_collector".

Definition validServiceType : list string :=
  ["langsmith"; "langfuse"; "datadog"; "braintrust"; "arize"; "otel"; "webhook"; ServiceHeuristic; ServiceConfidentAI;
   ServiceArizePhoenix; ServiceCollector].

Definition TriggerOnTrace : string := "on_trace".
Definition TriggerScheduled : string := "scheduled".
Definition TriggerManual : string := "manual".

Record ResultMapping := mkMapping {
  rm_Name : string; rm_ScoreKey : string; rm_Label : string; rm_Explanation : string; rm_TraceID : string; rm_MetricKey : string
}.
Record AuthSpec := mkAuth { au_SecretRef : string; au_KeyRef : string; au_InlineKey : string }.
Record ServiceSpec := mkService { ss_Type : string; ss_Endpoint : string; ss_Auth : AuthSpec; ss_Metric : string; ss_Args : arguments }.
Record SendSpec := mkSend { sd_Trigger : string; sd_Sampling : float64; sd_Payload : gmap string string; sd_Redact : list string }.
Record CollectSpec := mkCollect { co_Mode : string; co_Transport : string; co_Interval : Duration; co_Mapping : ResultMapping }.

Record Plugin := mkPlugin {
  pl_APIVersion : string;
  pl_Kind : string;
  pl_Name : string;
  pl_Service : ServiceSpec;
  pl_Send : SendSpec;
  pl_Collect : CollectSpec;
  pl_Timeout : Duration;
  pl_Flags : list string
}.

Definition reservedPluginNames : list string := ["nexus"; "system"; "plugin"; "default"; "builtin"; "heuristic"; "external"].

Definition is_lower (c : ascii) : bool := let n := nat_of_ascii c in ((97 <=? n) && (n <=? 122))%nat.
Definition validPluginName : re :=
  seqs [Chr is_lower; upto_more 1 61 (Chr (fun c => is_lower c || is_num c || Ascii.eqb c "-")); Chr (fun c => is_lower c || is_num c)].

(** ** validate.go *)

Definition one_of (l : list string) (s : string) : bool := existsb (String.eqb s) l.

Definition validTrigger : list string := [TriggerOnTrace; TriggerScheduled; TriggerManual].
Definition validCollectMode : list string := ["webhook"; "poll"].
Definition validMetric : list string := ["contains"; "pii"; "exact_match"; "rouge_l"].
Definition retiredMetric : list string := ["hf_evaluate"; "lighteval"; "ragas"].
Definition validTransport : list string := [""; "json"; "otlp_http"].

Definition validateMetric (metric apiVersion : string) : option string :=
  if negb (String.eqb apiVersion PluginAPIVersionV1Alpha2) then Some "spec.service.metric is v1alpha2 only"
  else if one_of retiredMetric metric then Some "spec.service.metric.name was removed"
  else if negb (one_of validMetric metric) then Some "spec.service.metric.name is not supported"
  else None.

Definition validateAuth (a : AuthSpec) : option string :=
  if negb (String.eqb (au_InlineKey a) "") then Some "spec.service.auth.inlineKey is forbidden; use secretRef or keyRef"
  else if String.eqb (TrimSpace (au_SecretRef a)) "" && String.eqb (TrimSpace (au_KeyRef a)) "" then
    Some "spec.service.auth requires either secretRef or keyRef"
  else None.

(** The first error; the warnings of the strict flag are left out. *)
Definition plugin_Validate (p : Plugin) : option string :=
  let s := pl_Service p in
  let heuristic := String.eqb (ss_Type s) ServiceHeuristic in
  if String.eqb (TrimSpace (pl_APIVersion p)) "" then Some "apiVersion is required"
  else if negb (one_of [PluginAPIVersion; PluginAPIVersionV1Alpha2] (pl_APIVersion p)) then Some "apiVersion is not supported"
  else if negb (String.eqb (pl_Kind p) pluginKindExpected) then Some "kind must be EvalPlugin"
  else if String.eqb (TrimSpace (pl_Name p)) "" then Some "metadata.name is required"
  else if one_of reservedPluginNames (pl_Name p) then Some "metadata.name is reserved"
  else if negb (full_match validPluginName (pl_Name p)) then Some "metadata.name does not match"
  else if negb (one_of validServiceType (ss_Type s)) then Some "spec.service.type is not a supported type"
  else if negb heuristic && String.eqb (TrimSpace (ss_Endpoint s)) "" then Some "spec.service.endpoint is required"
  else match (if heuristic then validateMetric (ss_Metric s) (pl_APIVersion p) else None) with
  | Some e => Some e
  | None =>
  if String.eqb (ss_Type s) ServiceCollector && negb (one_of validTransport (co_Transport (pl_Collect p))) then
    Some "spec.collect.transport is not supported"
  else match (if heuristic then None else validateAuth (ss_Auth s)) with
  | Some e => Some e
  | None =>
  if negb (one_of validTrigger (sd_Trigger (pl_Send p))) then Some "spec.send.trigger is not supported"
  else if flt (sd_Sampling (pl_Send p)) fzero || fgt (sd_Sampling (pl_Send p)) fone then Some "spec.send.sampling must be in [0,1]"
  else if negb (forallb (one_of ["pii"]) (sd_Redact (pl_Send p))) then Some "spec.send.redact entry is not supported"
  else if negb (one_of validCollectMode (co_Mode (pl_Collect p))) then Some "spec.collect.mode is not supported"
  else if String.eqb (co_Mode (pl_Collect p)) "poll" && (co_Interval (pl_Collect p) <=? 0) then
    Some "spec.collect.interval is required when mode=poll"
  else if negb (String.eqb (pl_APIVersion p) PluginAPIVersionV1Alpha2) &&
          one_of [ServiceHeuristic; ServiceConfidentAI; ServiceArizePhoenix; ServiceCollector] (ss_Type s) then
    Some "spec.service.type requires apiVersion nexus.io/v1alpha2"
  else if negb (forallb (one_of ["strict"]) (pl_Flags p)) then Some "spec.flags entry is not supported"
  else None
  end end.

(** ** registry.go *)

Inductive SourceKind := SourceHelm | SourceDatabase.
#[export] Instance SourceKind_eq_dec : EqDecision SourceKind.
Proof. solve_decision. Defined.

Record PRecord := mkRecord { pr_Plugin : Plugin; pr_Source : SourceKind; pr_Ref : string; pr_Enabled : bool; pr_OrgID : string }.

Definition rec_name (r : PRecord) : string := pl_Name (pr_Plugin r).

Definition nul : string := bytes [0%nat].
Definition recordKey (org name : string) : string := org +:+ nul +:+ name.

Definition PRegistry : Type := gmap string PRecord.

(** [Merge]; a nil plugin, which is skipped, is [None]. *)
Fixpoint Merge (recs : list (option PRecord)) (r : gmap string PRecord) : list PRecord * gmap string PRecord :=
  match recs with
  | [] => ([], r)
  | None :: rest => Merge rest r
  | Some rec :: rest =>
      match plugin_Validate (pr_Plugin rec) with
      | Some _ => let '(d, r') := Merge rest r in (rec :: d, r')
      | None =>
          let key := recordKey (pr_OrgID rec) (rec_name rec) in
          match r !! key with
          | None => Merge rest (<[key := rec]> r)
          | Some existing =>
              match pr_Source existing, pr_Source rec with
              | SourceHelm, SourceDatabase => let '(d, r') := Merge rest r in (rec :: d, r')
              | _, _ => Merge rest (<[key := rec]> r)
              end
          end
      end
  end.

Definition with_enabled (b : bool) (r : PRecord) : PRecord := mkRecord (pr_Plugin r) (pr_Source r) (pr_Ref r) b (pr_OrgID r).

Definition SetEnabled (name : string) (enabled : bool) (r : gmap string PRecord) : option (gmap string PRecord) :=
  let named rec := String.eqb (rec_name rec) name in
  if existsb named (map snd (map_to_list r))
  then Some ((fun rec => if named rec then with_enabled enabled rec else rec) <$> r)
  else None.

(** The record of the least org. *)
Definition least_org (best : option PRecord) (rec : PRecord) : option PRecord :=
  match best with
  | None => Some rec
  | Some b => if String.ltb (pr_OrgID rec) (pr_OrgID b) then Some rec else Some b
  end.

Definition Lookup (name : string) (r : gmap string PRecord) : option PRecord :=
  match r !! recordKey "" name with
  | Some rec => Some rec
  | None => fold_left least_org (List.filter (fun rec => String.eqb (rec_name rec) name) (map snd (map_to_list r))) None
  end.

Definition LookupForOrg (org name : string) (r : gmap string PRecord) : option PRecord :=
  match r !! recordKey org name with Some rec => Some rec | None => r !! recordKey "" name end.

Definition Remove (org name : string) (r : gmap string PRecord) : bool * gmap string PRecord :=
  let key := recordKey org name in
  match r !! key with None => (false, r) | Some _ => (true, delete key r) end.

(** One turn of the loop of [EnabledForOrg]. *)
Definition by_name (org : string) (m : gmap string PRecord) (rec : PRecord) : gmap string PRecord :=
  if negb (pr_Enabled rec) then m
  else if negb (String.eqb (pr_OrgID rec) "") && negb (String.eqb (pr_OrgID rec) org) then m
  else match m !! rec_name rec with
       | Some prev => if negb (String.eqb (pr_OrgID prev) "") then m else <[rec_name rec := rec]> m
       | None => <[rec_name rec := rec]> m
       end.

Definition name_less (a b : PRecord) : bool := String.ltb (rec_name a) (rec_name b).

(** Over the records in any order of visiting. *)
Definition EnabledForOrg (org : string) (visited : list PRecord) : list PRecord :=
  SliceStable name_less (map snd (map_to_list (fold_left (by_name org) visited ∅))).

Definition name_org_less (a b : PRecord) : bool :=
  if String.eqb (rec_name a) (rec_name b) then String.ltb (pr_OrgID a) (pr_OrgID b) else String.ltb (rec_name a) (rec_name b).

Definition Enabled (r : gmap string PRecord) : list PRecord :=
  SliceStable name_org_less (List.filter pr_Enabled (map snd (map_to_list r))).

Definition AllPlugins (r : gmap string PRecord) : list PRecord := SliceStable name_org_less (map snd (map_to_list r)).

(** ** store.go *)

Record PluginRecord := mkRow {
  pw_ID : string; pw_OrgID : string; pw_Name : string; pw_SpecYAML : string; pw_Enabled : bool; pw_CreatedAt : Time; pw_UpdatedAt : Time
}.

Definition NormalizeOrgID (org : string) : string := if String.eqb org "default" then "" else org.

Record PluginMem := mkPluginMem { pg_plugins : gmap string PluginRecord; pg_counter : Z }.

Definition plugins_List (org : string) (m : PluginMem) : list PluginRecord :=
  List.filter (fun r => String.eqb org "" || String.eqb (pw_OrgID r) "" || String.eqb (pw_OrgID r) org)
    (map snd (map_to_list (pg_plugins m))).

Definition plugins_Get (id : string) (m : PluginMem) : option PluginRecord := pg_plugins m !! id.

(** [decodes] is [Decode], YAML and [plugin_Validate]. *)
Definition plugins_Save (decodes : string → bool) (now : Time) (r : PluginRecord) (m : PluginMem) : res string PluginRecord * PluginMem :=
  if String.eqb (TrimSpace (pw_Name r)) "" then (Err "plugin name is required", m)
  else if String.eqb (TrimSpace (pw_SpecYAML r)) "" then (Err "plugin spec_yaml is required", m)
  else if negb (decodes (pw_SpecYAML r)) then (Err "re-validate spec_yaml", m)
  else
    let blank := String.eqb (TrimSpace (pw_ID r)) "" in
    let counter := if blank then (pg_counter m + 1) mod 2 ^ 64 else pg_counter m in
    let id := if blank then "plg_" +:+ pretty now +:+ "_" +:+ pretty counter else pw_ID r in
    let created0 := if blank then pw_CreatedAt r else from_option pw_CreatedAt (pw_CreatedAt r) (pg_plugins m !! id) in
    let r' := mkRow id (pw_OrgID r) (pw_Name r) (pw_SpecYAML r) (pw_Enabled r) (if created0 =? zero_time then now else created0) now in
    (Ok r', mkPluginMem (<[id := r']> (pg_plugins m)) counter).

Definition plugins_Delete (id : string) (m : PluginMem) : PluginMem := mkPluginMem (delete id (pg_plugins m)) (pg_counter m).

(** ** store_loader.go *)

#[export] Instance any_eq_dec : EqDecision any.
Proof.
  refine (fix go (a b : any) : Decision (a = b) :=
    let _ : EqDecision any := @go in
    match a, b with
    | AStr x, AStr y => cast_if (decide (x = y))
    | ABool x, ABool y => cast_if (decide (x = y))
    | AInt x, AInt y => cast_if (decide (x = y))
    | AFloat x s, AFloat y r => cast_if_and (decide (x = y)) (decide (s = r))
    | ANil, ANil => left eq_refl
    | AList x, AList y => cast_if (decide (x = y))
    | AStrs x, AStrs y => cast_if (decide (x = y))
    | AOther x, AOther y => cast_if (decide (x = y))
    | _, _ => right _
    end); clear dependent go; abstract congruence.
Defined.
#[export] Instance arguments_eq_dec : EqDecision arguments := _ : EqDecision (gmap string any).
#[export] Instance ResultMapping_eq_dec : EqDecision ResultMapping.
Proof. solve_decision. Defined.
#[export] Instance AuthSpec_eq_dec : EqDecision AuthSpec.
Proof. solve_decision. Defined.
#[export] Instance ServiceSpec_eq_dec : EqDecision ServiceSpec.
Proof. solve_decision. Defined.
#[export] Instance SendSpec_eq_dec : EqDecision SendSpec.
Proof. solve_decision. Defined.
#[export] Instance CollectSpec_eq_dec : EqDecision CollectSpec.
Proof. solve_decision. Defined.
#[export] Instance Plugin_eq_dec : EqDecision Plugin.
Proof. solve_decision. Defined.

Section StoreLoader.
(** [decode] is [Decode]: YAML and [plugin_Validate]. *)
Context (decode : string → option Plugin).

Definition row_record (row : PluginRecord) : option PRecord :=
  (fun p => mkRecord p SourceDatabase (pw_ID row) (pw_Enabled row) (NormalizeOrgID (pw_OrgID row))) <$> decode (pw_SpecYAML row).

(** [LoadFromStore], with the rows [store.List] gave for the org. *)
Definition LoadFromStore (rows : list PluginRecord) (r : gmap string PRecord) : gmap string PRecord :=
  snd (Merge (map Some (omap row_record rows)) r).

(** The records the rows ask for, by key. *)
Definition desired (rows : list PluginRecord) : gmap string PRecord :=
  fold_left (fun m row => match row_record row with
                          | Some rec => <[recordKey (pr_OrgID rec) (rec_name rec) := rec]> m
                          | None => m
                          end) rows ∅.

Definition sameRecord (live stored : PRecord) : bool :=
  Bool.eqb (pr_Enabled live) (pr_Enabled stored) && String.eqb (pr_Ref live) (pr_Ref stored) &&
  bool_decide (pr_Plugin live = pr_Plugin stored).

(** The first loop, for one wanted record. *)
Definition fold_in (st : gmap string PRecord * Z) (kr : string * PRecord) : gmap string PRecord * Z :=
  let '(r, changed) := st in
  let '(key, rec) := kr in
  match r !! key with
  | Some existing =>
      if decide (pr_Source existing = SourceHelm) then st
      else if sameRecord existing rec then st
      else (<[key := rec]> r, changed + 1)
  | None => (<[key := rec]> r, changed + 1)
  end.

(** The second, for one record that is there. *)
Definition evict (want : gmap string PRecord) (st : gmap string PRecord * Z) (kr : string * PRecord) : gmap string PRecord * Z :=
  let '(r, changed) := st in
  let '(key, existing) := kr in
  if decide (pr_Source existing = SourceDatabase) then
    match want !! key with Some _ => st | None => (delete key r, changed + 1) end
  else st.

(** [ReconcileFromStore], with the rows of [store.List(ctx, "")]. *)
Definition ReconcileFromStore (rows : list PluginRecord) (r : gmap string PRecord) : Z * gmap string PRecord :=
  let want := desired rows in
  let '(r1, n1) := fold_left fold_in (map_to_list want) (r, 0) in
  let '(r2, n2) := fold_left (evict want) (map_to_list r1) (r1, n1) in
  (n2, r2).
End StoreLoader.

(** ** dispatcher.go, target.go *)

(** A value of a payload: a text, or the trace itself. *)
Inductive payload_value := VText (s : string) | VTrace (t : Trace).

(** [renderPayload]; [execute] is a template parsed and executed on the trace. *)
Definition renderPayload (execute : string → Trace → option string) (tmpls : gmap string string) (t : Trace) :
    option (gmap string payload_value) :=
  if decide (tmpls = ∅) then Some {["trace" := VTrace t]}
  else
    let rendered := (fun v => if Contains v "{{" then execute v t else Some v) <$> tmpls in
    if existsb (fun kv => match snd kv with None => true | Some _ => false end) (map_to_list rendered) then None
    else Some (omap (fun o => VText <$> o) rendered).

Definition reRedactEmail : re :=
  seqs [plus (class "._%+-"); lit_re "@"; plus (class ".-"); lit_re "."; at_least 2 (Chr is_alpha)].

Definition redact_email (s : string) : string :=
  if Contains s "@" then ReplaceAllString reRedactEmail s "[REDACTED:email]" else s.

Definition redactPayload (payload : gmap string payload_value) (kinds : list string) : gmap string payload_value :=
  if one_of kinds "pii" then (fun v => match v with VText s => VText (redact_email s) | VTrace t => VTrace t end) <$> payload
  else payload.

(** [resolveAuth]; [secrets] is the wired resolver. *)
Definition resolveAuth (secrets : option (AuthSpec → option (list string))) (p : Plugin) : option (list string) :=
  let a := ss_Auth (pl_Service p) in
  if String.eqb (au_SecretRef a) "" && String.eqb (au_KeyRef a) "" then Some []
  else match secrets with None => None | Some f => f a end.

Record Target := mkTarget { tg_Endpoint : string; tg_Auth : list string; tg_Plugin : Plugin; tg_Trace : Trace }.

(** [Dispatch]: what is handed to the adapter, if it gets that far. *)
Definition Dispatch (adapters : list string) (execute : string → Trace → option string)
    (secrets : option (AuthSpec → option (list string))) (t : Trace) (p : Plugin) : option (Target * gmap string payload_value) :=
  if negb (one_of adapters (ss_Type (pl_Service p))) then None
  else match renderPayload execute (sd_Payload (pl_Send p)) t with
  | None => None
  | Some rendered =>
      match resolveAuth secrets p with
      | None => None
      | Some creds =>
          Some (mkTarget (ss_Endpoint (pl_Service p)) creds p t, redactPayload rendered (sd_Redact (pl_Send p)))
      end
  end.

(** The text a JSON value is, if it is one that is not empty. *)
Definition string_value (raw : string) : option string :=
  match st_string raw "" with (s, false) => if String.eqb s "" then None else Some s | _ => None end.

Fixpoint pickString (m : gmap string string) (keys : list string) : string :=
  match keys with
  | [] => ""
  | k :: ks =>
      if String.eqb k "" then pickString m ks
      else match m !! k ≫= string_value with Some s => s | None => pickString m ks end
  end.

Definition pickFloat (m : gmap string string) (key : string) (fallback : float64) : float64 :=
  if String.eqb key "" then fallback
  else match m !! key with
       | Some raw => if is_number raw then default fallback (ParseFloat raw) else fallback
       | None => fallback
       end.

Definition Apply (now : Time) (raw : string) (mapping : ResultMapping) (pluginName : string) : option Score :=
  match ok_or (Unmarshal st_rawmap ∅ raw) with
  | None => None
  | Some parsed =>
      let score := pickFloat parsed (rm_ScoreKey mapping) fzero in
      let lower := ToLower (pickString parsed [rm_Label mapping]) in
      let passed := if one_of ["pass"; "true"; "1"] lower then true
                    else if one_of ["fail"; "false"; "0"] lower then false
                    else fge score (lit 1 2) in
      Some (bare_score (pickString parsed [rm_TraceID mapping; "trace_id"]) now ("plugin:" +:+ pluginName)
              (pickString parsed [rm_Name mapping; rm_MetricKey mapping; "name"]) score passed
              (pickString parsed [rm_Explanation mapping; "comment"]) "")
  end.

(** ** scheduler.go *)
Module Sched.

Record pluginBuffer := mkBuffer { ll : list Trace; dropped : Z }.

(** The buffers and the flush goroutines by plugin name; [dispatched] is what has
    gone to [s.dispatch], with the plugin it went through. *)
Record Scheduler := mkScheduler {
  buffers : gmap string pluginBuffer;
  schedules : gmap string (Plugin * Duration);
  stopped : bool;
  defaultCap : nat;
  dispatched : list (Plugin * Trace)
}.

Definition defaultBufferCap : Z := 4096.

Definition NewScheduler (maxBuffer : Z) : Scheduler :=
  mkScheduler ∅ ∅ false (Z.to_nat (if maxBuffer <=? 0 then defaultBufferCap else maxBuffer)) [].

Definition bufferFor (name : string) (bufs : gmap string pluginBuffer) : pluginBuffer := default (mkBuffer [] 0) (bufs !! name).

Definition is_scheduled (p : Plugin) : bool := String.eqb (sd_Trigger (pl_Send p)) TriggerScheduled.

(** The scheduled plugins by name: of several the last one stays. *)
Definition wanted (enabled : list PRecord) : gmap string Plugin :=
  fold_left (fun m rec => if is_scheduled (pr_Plugin rec) then <[rec_name rec := pr_Plugin rec]> m else m) enabled ∅.

(** The first loop of [reconcile], for one wanted plugin. *)
Definition schedule_one (st : gmap string (Plugin * Duration) * gmap string pluginBuffer) (np : string * Plugin) :
    gmap string (Plugin * Duration) * gmap string pluginBuffer :=
  let '(scheds, bufs) := st in
  let '(name, p) := np in
  let ivl := co_Interval (pl_Collect p) in
  if ivl <=? 0 then st
  else match scheds !! name with
       | Some (_, cur) => if cur =? ivl then st else (<[name := (p, ivl)]> scheds, <[name := bufferFor name bufs]> bufs)
       | None => (<[name := (p, ivl)]> scheds, <[name := bufferFor name bufs]> bufs)
       end.

(** [reconcile] with the enabled plugins of the registry. *)
Definition reconcile (enabled : list PRecord) (s : Scheduler) : Scheduler :=
  if stopped s then s
  else
    let want := wanted enabled in
    let '(scheds, bufs) := fold_left schedule_one (map_to_list want) (schedules s, buffers s) in
    mkScheduler bufs (filter (fun kv => is_Some (want !! fst kv)) scheds) (stopped s) (defaultCap s) (dispatched s).

Inductive sched_err := ErrBufferFull | ErrSchedulerStopped | ErrNotScheduled | WrongTrigger.

Definition Enqueue (p : Plugin) (t : Trace) (s : Scheduler) : res sched_err unit * Scheduler :=
  if negb (is_scheduled p) then (Err WrongTrigger, s)
  else if stopped s then (Err ErrSchedulerStopped, s)
  else
    let name := pl_Name p in
    let b := bufferFor name (buffers s) in
    let put b' := mkScheduler (<[name := b']> (buffers s)) (schedules s) (stopped s) (defaultCap s) (dispatched s) in
    if (defaultCap s <=? length (ll b))%nat then (Err ErrBufferFull, put (mkBuffer (ll b) (dropped b + 1)))
    else (Ok tt, put (mkBuffer (ll b ++ [t])%list (dropped b))).

(** One turn of [drain] or [drainAll]: the front of the buffer goes out through [p]. *)
Definition drain_one (p : Plugin) (name : string) (s : Scheduler) : option Scheduler :=
  match buffers s !! name with
  | Some (mkBuffer (t :: ts) d) =>
      Some (mkScheduler (<[name := mkBuffer ts d]> (buffers s)) (schedules s) (stopped s) (defaultCap s) (dispatched s ++ [(p, t)])%list)
  | _ => None
  end.

(** [drainAll]: all of the buffer, counting the dispatches that succeed. *)
Definition drainAll (ok : Trace → bool) (p : Plugin) (s : Scheduler) : Z * Scheduler :=
  let b := bufferFor (pl_Name p) (buffers s) in
  (Z.of_nat (length (List.filter ok (ll b))),
   mkScheduler (<[pl_Name p := mkBuffer [] (dropped b)]> (buffers s)) (schedules s) (stopped s) (defaultCap s)
     (dispatched s ++ map (pair p) (ll b))%list).

Definition FireScheduled (ok : Trace → bool) (p : Plugin) (s : Scheduler) : res sched_err Z * Scheduler :=
  if negb (is_scheduled p) then (Err ErrNotScheduled, s)
  else if stopped s then (Err ErrSchedulerStopped, s)
  else let '(n, s') := drainAll ok p s in (Ok n, s').

Definition FireManual (ok : Trace → bool) (p : Plugin) (s : Scheduler) : res sched_err Z * Scheduler :=
  if negb (String.eqb (sd_Trigger (pl_Send p)) TriggerManual) then (Err WrongTrigger, s)
  else if stopped s then (Err ErrSchedulerStopped, s)
  else let '(n, s') := drainAll ok p s in (Ok n, s').

Definition DroppedReports (s : Scheduler) : gmap string Z :=
  omap (fun b => if 0 <? dropped b then Some (dropped b) else None) (buffers s).

(** [Stop]; a flush under way is taken to end before it. *)
Definition scheduler_Stop (s : Scheduler) : Scheduler := mkScheduler ∅ ∅ true (defaultCap s) (dispatched s).

End Sched.

(** ** multi.go *)

Definition sampleTrace (p : float64) (g : rng) : bool * rng :=
  if fge p fone then (true, g)
  else if fle p fzero then (false, g)
  else (flt (fst g (snd g)) p, (fst g, S (snd g))).

(** Where one trace went: the scores of the heuristic plugins, the hand-overs to
    adapters, and the scheduler. *)
Record fanout := mkFanout {
  fo_scores : list Score;
  fo_sent : list (Target * gmap string payload_value);
  fo_scheduler : option Sched.Scheduler
}.

Section Multi.
Context (adapters : list string) (execute : string → Trace → option string) (secrets : option (AuthSpec → option (list string)))
  (has_local : bool) (meta : arguments) (t : Trace).

Definition inline (p : Plugin) (f : fanout) : fanout :=
  match Dispatch adapters execute secrets t p with
  | Some tp => mkFanout (fo_scores f) (fo_sent f ++ [tp])%list (fo_scheduler f)
  | None => f
  end.

Definition dispatchForwarded (p : Plugin) (f : fanout) : fanout :=
  let trigger := sd_Trigger (pl_Send p) in
  if String.eqb trigger TriggerScheduled then
    match fo_scheduler f with
    | None => inline p f
    | Some s => mkFanout (fo_scores f) (fo_sent f) (Some (snd (Sched.Enqueue p t s)))
    end
  else if String.eqb trigger TriggerManual then f
  else inline p f.

Fixpoint fan_out (recs : list PRecord) (g : rng) (f : fanout) : fanout * rng :=
  match recs with
  | [] => (f, g)
  | rec :: rest =>
      let p := pr_Plugin rec in
      let '(hit, g) := sampleTrace (sd_Sampling (pl_Send p)) g in
      if negb hit then fan_out rest g f
      else if String.eqb (ss_Type (pl_Service p)) ServiceHeuristic then
        if negb has_local then fan_out rest g f
        else match heuristic_Evaluate (ss_Metric (pl_Service p)) (ss_Args (pl_Service p)) meta t with
             | Ok scores => fan_out rest g (mkFanout (fo_scores f ++ scores)%list (fo_sent f) (fo_scheduler f))
             | Err _ => fan_out rest g f
             end
      else fan_out rest g (dispatchForwarded p f)
  end.

(** [Evaluate]; [visited] are the records of the registry. *)
Definition multi_Evaluate (visited : list PRecord) (g : rng) (scheduler : option Sched.Scheduler) : fanout * rng :=
  fan_out (EnabledForOrg (t_OrgID (t_base t)) visited) g (mkFanout [] [] scheduler).
End Multi.

(** ** collector.go *)

(** [attributeOrg]; [orgs] is the wired resolver of traces. *)
Definition attributeOrg (orgs : option (string → option string)) (pluginOrg traceID : string) : string :=
  let pluginOrg := NormalizeOrgID pluginOrg in
  let traceOrg :=
    match orgs with
    | Some f => if String.eqb (TrimSpace traceID) "" then "" else from_option NormalizeOrgID "" (f traceID)
    | None => ""
    end in
  if negb (String.eqb traceOrg "") && negb (String.eqb pluginOrg "") && negb (String.eqb traceOrg pluginOrg) then UnattributedOrgID
  else if negb (String.eqb traceOrg "") then traceOrg
  else if negb (String.eqb pluginOrg "") then pluginOrg
  else UnattributedOrgID.

Definition with_org (org : string) (s : Score) : Score :=
  mkScore (sc_TraceID s) org (sc_UserID s) (sc_RequestModel s) (sc_Timestamp s) (sc_Evaluator s) (sc_Metric s) (sc_Score s)
    (sc_Passed s) (sc_Rationale s) (sc_JudgeModel s).

(** The scores written for a delivery, at most a thousand of them. *)
Definition applyAllForOrg (now : Time) (orgs : option (string → option string)) (p : Plugin) (pluginOrg : string)
    (payloads : list string) : list Score :=
  omap (fun raw => (fun sc => with_org (attributeOrg orgs pluginOrg (sc_TraceID sc)) sc) <$>
                   Apply now raw (co_Mapping (pl_Collect p)) (pl_Name p)) (firstn (Z.to_nat 1000) payloads).

(** [Webhook]: a batch is an array, anything else one delivery. *)
Definition Webhook (now : Time) (orgs : option (string → option string)) (r : gmap string PRecord) (pluginName body : string) :
    res string (list Score) :=
  match Lookup pluginName r with
  | None => Err "plugin is not loaded"
  | Some rec =>
      if negb (String.eqb (co_Mode (pl_Collect (pr_Plugin rec))) "webhook") then Err "plugin is not in webhook collect mode"
      else
        let arr := default [body] (ok_or (Unmarshal (st_list "" st_raw) [] body)) in
        Ok (applyAllForOrg now orgs (pr_Plugin rec) (pr_OrgID rec) arr)
  end.

Definition pollerKey (org name : string) : string := NormalizeOrgID org +:+ nul +:+ name.

Definition polled (rec : PRecord) : bool := String.eqb (co_Mode (pl_Collect (pr_Plugin rec))) "poll".

Definition wanted_pollers (enabled : list PRecord) : gmap string PRecord :=
  fold_left (fun m rec => if polled rec then <[pollerKey (pr_OrgID rec) (rec_name rec) := rec]> m else m) enabled ∅.

Definition poll_interval (rec : PRecord) : Duration :=
  let i := co_Interval (pl_Collect (pr_Plugin rec)) in if i <=? 0 then 60 * Second else i.

(** [syncPollers]: what runs under each key, with its interval. *)
Definition syncPollers (enabled : list PRecord) (running : gmap string (PRecord * Duration)) : gmap string (PRecord * Duration) :=
  let want := wanted_pollers enabled in
  map_imap (fun key rec => match running !! key with Some cur => Some cur | None => Some (rec, poll_interval rec) end) want.
