(* ===== verification/PluginStores.v ===== *)
(** * PluginStores: src/internal/evalplugin/store.go and pg_store.go

    [PluginStore], the interface the console's adapter works over, as a class of
    operations, and its two implementations: the map in memory, and the table
    [eval_plugins] (migrations/postgres/009_eval_plugins.sql) behind a database whose
    answers are part of the state.  What both promise is a second class, so that the
    console's theorems are proved once. *)

From stdpp Require Import gmap pretty sorting.
From S2P Require Import Prelude GoString GoTime GwTypes Plugins.
Local Open Scope string_scope.
Local Open Scope Z_scope.

Inductive lookup_err := ErrPluginNotFound | StoreOther (e : string).

(** [List] of an organisation, [Get], [Save] (of a record that may have no id yet; the
    time and the random id a new row may get are arguments) and [Delete]. *)
Class PluginStore (S : Type) := {
  store_List : string → S → res string (list PluginRecord) * S;
  store_Get : string → S → res lookup_err PluginRecord * S;
  store_Save : (string → bool) → Time → string → PluginRecord → S → res string PluginRecord * S;
  store_Delete : string → S → option string * S
}.

(** The rows behind a store, and the id it gives to a new one. *)
Class StoreView (S : Type) := {
  rows : S → gmap string PluginRecord;
  assigned : Time → string → S → string
}.

Definition saved_as (r r' : PluginRecord) : Prop :=
  pw_OrgID r' = pw_OrgID r ∧ pw_Name r' = pw_Name r ∧ pw_SpecYAML r' = pw_SpecYAML r ∧ pw_Enabled r' = pw_Enabled r.

(** What a store promises: [Get] answers the row, [Save] puts one row in place, that of
    its id or, without one, a new row or the row of the same organisation and name,
    [Delete] takes one row away, and a call that fails changes nothing. *)
Class StoreLaws (S : Type) `{PluginStore S, StoreView S} : Prop := {
  Get_law id s r s' : store_Get id s = (r, s') → rows s' = rows s ∧ ∀ rec, r = Ok rec → rows s !! id = Some rec;
  List_law org s r s' : store_List org s = (r, s') → rows s' = rows s ∧ ∀ l rec, r = Ok l → rec ∈ l → ∃ id, rows s !! id = Some rec;
  Save_law decodes now uuid r s r' s' : store_Save decodes now uuid r s = (Ok r', s') →
    rows s' = <[pw_ID r' := r']> (rows s) ∧ decodes (pw_SpecYAML r) = true ∧ saved_as r r' ∧
    (if String.eqb (TrimSpace (pw_ID r)) ""
     then pw_ID r' = assigned now uuid s ∨ ∃ old, rows s !! pw_ID r' = Some old ∧ pw_OrgID old = pw_OrgID r ∧ pw_Name old = pw_Name r
     else pw_ID r' = pw_ID r);
  Save_err_law decodes now uuid r s e s' : store_Save decodes now uuid r s = (Err e, s') → rows s' = rows s;
  Delete_law id s e s' : store_Delete id s = (e, s') → rows s' = match e with None => delete id (rows s) | Some _ => rows s end
}.

(** ** The map in memory *)

#[export] Instance MemoryStore : PluginStore PluginMem := {
  store_List org m := (Ok (plugins_List org m), m);
  store_Get id m := (match plugins_Get id m with Some r => Ok r | None => Err ErrPluginNotFound end, m);
  store_Save decodes now _ r m := plugins_Save decodes now r m;
  store_Delete id m := (None, plugins_Delete id m)
}.

Definition new_plugin_id (now : Time) (m : PluginMem) : string := "plg_" +:+ pretty now +:+ "_" +:+ pretty ((pg_counter m + 1) mod 2 ^ 64).

#[export] Instance MemoryView : StoreView PluginMem := { rows := pg_plugins; assigned now _ m := new_plugin_id now m }.

Lemma plugins_Save_ok decodes now r m r' m' : plugins_Save decodes now r m = (Ok r', m') →
  pg_plugins m' = <[pw_ID r' := r']> (pg_plugins m) ∧ decodes (pw_SpecYAML r) = true ∧ saved_as r r' ∧
  pw_ID r' = (if String.eqb (TrimSpace (pw_ID r)) "" then new_plugin_id now m else pw_ID r).
Proof.
  unfold plugins_Save, new_plugin_id. destruct (String.eqb (TrimSpace (pw_Name r)) ""); [done|]. destruct (String.eqb (TrimSpace (pw_SpecYAML r)) ""); [done|].
  destruct (decodes _); [|done]. intros [= <- <-]. split_and!; [done|done|done|]. by destruct (String.eqb (TrimSpace (pw_ID r)) "").
Qed.

#[export] Instance MemoryLaws : StoreLaws PluginMem.
Proof.
  split; cbn.
  - intros id s r s' [= <- <-]. split; [done|]. unfold plugins_Get. intros rec. by destruct (pg_plugins s !! id) as [?|]; intros [= ->].
  - intros org s r s' [= <- <-]. split; [done|]. intros l rec [= <-] Hin. unfold plugins_List in Hin.
    apply list_elem_of_In, filter_In in Hin as [Hin _]. apply list_elem_of_In, list_elem_of_fmap in Hin as ([k x] & -> & Hin).
    exists k. by apply elem_of_map_to_list.
  - intros decodes now uuid r s r' s' H. apply plugins_Save_ok in H as (H1 & H2 & H3 & H4). split_and!; [done|done|done|].
    destruct (String.eqb _ _); [by left|done].
  - intros decodes now uuid r s e s'. unfold plugins_Save. repeat case_match; by intros [= _ <-].
  - by intros id s e s' [= <- <-].
Qed.

(** ** The table *)

(** How the database answers a statement: as it should, with an error, or with rows
    that break off, which only the reading of rows shows. *)
Inductive db_answer := DbOk | DbFails | DbBreaksOff.

(** The rows by their primary key, and the answers still to come (none: all is well). *)
Record PluginTable := mkTable { pt_rows : gmap string PluginRecord; pt_answers : list db_answer }.

Definition statement (t : PluginTable) : db_answer * PluginTable :=
  match pt_answers t with [] => (DbOk, t) | a :: rest => (a, mkTable (pt_rows t) rest) end.

(** [ORDER BY created_at]. *)
Definition created_before (a b : PluginRecord) : Prop := pw_CreatedAt a ≤ pw_CreatedAt b.
#[export] Instance created_before_dec : RelDecision created_before.
Proof. intros a b. unfold created_before. apply _. Defined.

Definition table_List (org : string) (t : PluginTable) : res string (list PluginRecord) * PluginTable :=
  let '(a, t) := statement t in
  match a with
  | DbOk => (Ok (merge_sort created_before (List.filter (fun r => String.eqb org "" || String.eqb (pw_OrgID r) "" || String.eqb (pw_OrgID r) org)
                                     (map snd (map_to_list (pt_rows t))))), t)
  | _ => (Err "database", t)
  end.

(** [rows.Err] is not looked at: rows that break off are a plugin not found. *)
Definition table_Get (id : string) (t : PluginTable) : res lookup_err PluginRecord * PluginTable :=
  let '(a, t) := statement t in
  match a with
  | DbFails => (Err (StoreOther "database"), t)
  | DbBreaksOff => (Err ErrPluginNotFound, t)
  | DbOk => (match pt_rows t !! id with Some r => Ok r | None => Err ErrPluginNotFound end, t)
  end.

(** [SELECT id ... WHERE org_id = $1 AND name = $2]. *)
Definition id_of (org name : string) (t : PluginTable) : option string :=
  fst <$> find (fun kr => String.eqb (pw_OrgID (snd kr)) org && String.eqb (pw_Name (snd kr)) name) (map_to_list (pt_rows t)).

(** [CONSTRAINT eval_plugins_unique_name UNIQUE (org_id, name)]. *)
Definition name_taken (id org name : string) (t : PluginTable) : bool :=
  existsb (fun kr => negb (String.eqb (fst kr) id) && String.eqb (pw_OrgID (snd kr)) org && String.eqb (pw_Name (snd kr)) name)
    (map_to_list (pt_rows t)).

(** [INSERT ... ON CONFLICT (id) DO UPDATE ... RETURNING created_at, updated_at]. *)
Definition table_upsert (now : Time) (id : string) (r : PluginRecord) (t : PluginTable) : res string PluginRecord * PluginTable :=
  let '(a, t) := statement t in
  match a with
  | DbOk =>
      if name_taken id (pw_OrgID r) (pw_Name r) t then (Err "eval_plugins_unique_name", t)
      else
        let created := match pt_rows t !! id with Some old => pw_CreatedAt old | None => now end in
        let r' := mkRow id (pw_OrgID r) (pw_Name r) (pw_SpecYAML r) (pw_Enabled r) created now in
        (Ok r', mkTable (<[id := r']> (pt_rows t)) (pt_answers t))
  | _ => (Err "database", t)
  end.

(** [Save]: a record without an id takes over the row of its organisation and name. *)
Definition table_Save (decodes : string → bool) (now : Time) (uuid : string) (r : PluginRecord) (t : PluginTable)
    : res string PluginRecord * PluginTable :=
  if String.eqb (TrimSpace (pw_Name r)) "" then (Err "plugin name is required", t)
  else if String.eqb (TrimSpace (pw_SpecYAML r)) "" then (Err "plugin spec_yaml is required", t)
  else if negb (decodes (pw_SpecYAML r)) then (Err "re-validate spec_yaml", t)
  else if String.eqb (TrimSpace (pw_ID r)) "" then
    let '(a, t) := statement t in
    match a with
    | DbOk => table_upsert now (default uuid (id_of (pw_OrgID r) (pw_Name r) t)) r t
    | _ => (Err "database", t)
    end
  else table_upsert now (pw_ID r) r t.

Definition table_Delete (id : string) (t : PluginTable) : option string * PluginTable :=
  let '(a, t) := statement t in
  match a with DbOk => (None, mkTable (delete id (pt_rows t)) (pt_answers t)) | _ => (Some "database", t) end.

#[export] Instance PostgresStore : PluginStore PluginTable := {
  store_List := table_List; store_Get := table_Get; store_Save := table_Save; store_Delete := table_Delete
}.

#[export] Instance PostgresView : StoreView PluginTable := { rows := pt_rows; assigned _ uuid _ := uuid }.

Lemma statement_rows t a t' : statement t = (a, t') → pt_rows t' = pt_rows t.
Proof. unfold statement. by destruct (pt_answers t); intros [= _ <-]. Qed.

Lemma id_of_some org name t id : id_of org name t = Some id → ∃ old, pt_rows t !! id = Some old ∧ pw_OrgID old = org ∧ pw_Name old = name.
Proof.
  unfold id_of. destruct (find _ _) as [[k x]|] eqn:E; [|done]. intros [= <-]. apply find_some in E as [Hin Hp].
  apply andb_true_iff in Hp as [?%String.eqb_eq ?%String.eqb_eq]. exists x. split; [|done]. apply elem_of_map_to_list. by apply list_elem_of_In.
Qed.

Lemma table_upsert_rows now id r t x t' : table_upsert now id r t = (x, t') →
  match x with
  | Err _ => pt_rows t' = pt_rows t
  | Ok r' => pt_rows t' = <[id := r']> (pt_rows t) ∧ pw_ID r' = id ∧ saved_as r r'
  end.
Proof.
  unfold table_upsert. destruct (statement t) as [[] t1] eqn:E; apply statement_rows in E; [|by intros [= <- <-]..].
  destruct (name_taken _ _ _ _); intros [= <- <-]; [done|]. cbn. by rewrite E.
Qed.

Lemma table_Save_rows decodes now uuid r t x t' : table_Save decodes now uuid r t = (x, t') →
  match x with
  | Err _ => pt_rows t' = pt_rows t
  | Ok r' => pt_rows t' = <[pw_ID r' := r']> (pt_rows t) ∧ decodes (pw_SpecYAML r) = true ∧ saved_as r r' ∧
      (if String.eqb (TrimSpace (pw_ID r)) ""
       then pw_ID r' = uuid ∨ ∃ old, pt_rows t !! pw_ID r' = Some old ∧ pw_OrgID old = pw_OrgID r ∧ pw_Name old = pw_Name r
       else pw_ID r' = pw_ID r)
  end.
Proof.
  unfold table_Save. destruct (String.eqb (TrimSpace (pw_Name r)) ""); [by intros [= <- <-]|].
  destruct (String.eqb (TrimSpace (pw_SpecYAML r)) ""); [by intros [= <- <-]|]. destruct (decodes _); cbn [negb]; [|by intros [= <- <-]].
  destruct (String.eqb (TrimSpace (pw_ID r)) "").
  - destruct (statement t) as [[] t1] eqn:E; apply statement_rows in E; [|by intros [= <- <-]..].
    intros H. apply table_upsert_rows in H. rewrite E in H. destruct x as [r'|]; [|done]. destruct H as (Hr & Hid & Hs). rewrite Hid.
    split_and!; [done|done|done|]. destruct (id_of _ _ t1) as [id|] eqn:Ei; cbn [default]; [|by left].
    apply id_of_some in Ei as (old & Ho & ?). right. exists old. by rewrite <- E.
  - intros H. apply table_upsert_rows in H. destruct x as [r'|]; [|done]. destruct H as (Hr & Hid & Hs). by rewrite Hid.
Qed.

#[export] Instance PostgresLaws : StoreLaws PluginTable.
Proof.
  split; cbn.
  - intros id s r s'. unfold table_Get. destruct (statement s) as [a t] eqn:E; apply statement_rows in E. destruct a; intros [= <- <-]; (split; [done|]); [|done..].
    intros rec. rewrite E. by destruct (pt_rows s !! id); intros [= ->].
  - intros org s r s'. unfold table_List. destruct (statement s) as [a t] eqn:E; apply statement_rows in E. destruct a; intros [= <- <-]; (split; [done|]); [|done..].
    intros l rec [= <-] Hin. rewrite merge_sort_Permutation in Hin. apply list_elem_of_In, filter_In in Hin as [Hin _].
    apply list_elem_of_In, list_elem_of_fmap in Hin as ([k x] & -> & Hin). exists k. rewrite <- E. by apply elem_of_map_to_list.
  - intros decodes now uuid r s r' s' H. by apply table_Save_rows in H.
  - intros decodes now uuid r s e s' H. by apply table_Save_rows in H.
  - intros id s e s'. unfold table_Delete. destruct (statement s) as [a t] eqn:E; apply statement_rows in E. destruct a; intros [= <- <-]; cbn; by rewrite ?E.
Qed.
