(* ===== verification/PluginsProps.v ===== *)
(** * PluginsProps: which vendor gets which trace, and whose scores come back

    The registry's invariant and its precedence, the plugins a trace is dispatched
    to, the scheduler's buffers, the attribution of collected scores, and the
    redaction of payloads. *)

From stdpp Require Import pretty.
From S2P Require Import Prelude GoString GoTime Float64 GoSort GoUrl Net Json CoreStore GwTypes Regex Evals EvalWorker Heuristic Plugins.
Local Open Scope string_scope.
Local Open Scope Z_scope.

(** ** The registry *)

Definition no_nul (s : string) : Prop := Forall (fun c => c ≠ ascii_of_nat 0) (String.list_ascii_of_string s).

Lemma full_match_alphabet r s : full_match r s = true → Forall (fun c => alphabet r c = true) (String.list_ascii_of_string s).
Proof.
  unfold full_match. rewrite existsb_exists. intros ([p rest] & Hin & H). destruct rest; [|done].
  apply runs_reads in Hin as (used & -> & Hu). by rewrite app_nil_r.
Qed.

Lemma valid_name_no_nul p : plugin_Validate p = None → no_nul (pl_Name p).
Proof.
  unfold plugin_Validate. intros H. destruct (String.eqb _ ""); [done|]. destruct (negb _); [done|]. destruct (negb _); [done|].
  destruct (String.eqb (TrimSpace (pl_Name p)) ""); [done|]. destruct (one_of reservedPluginNames _); [done|].
  destruct (full_match _ _) eqn:E; [|done]. apply full_match_alphabet in E. eapply Forall_impl; [exact E|].
  intros c Hc ->. by vm_compute in Hc.
Qed.

Lemma list_ascii_app s t : String.list_ascii_of_string (s +:+ t) = (String.list_ascii_of_string s ++ String.list_ascii_of_string t)%list.
Proof. induction s as [|c s IH]; cbn; [done|]. by rewrite <- IH. Qed.

Lemma list_ascii_inj s t : String.list_ascii_of_string s = String.list_ascii_of_string t → s = t.
Proof. intros H. rewrite <- (String.string_of_list_ascii_of_string s), H. apply String.string_of_list_ascii_of_string. Qed.

Lemma list_sep_inj (b : ascii) (o o' n n' : list ascii) :
  b ∉ n → b ∉ n' → (o ++ b :: n)%list = (o' ++ b :: n')%list → o = o' ∧ n = n'.
Proof.
  intros Hn Hn'. revert o'. induction o as [|x o IH]; intros [|y o']; cbn.
  - by intros [= ->].
  - intros [= -> ->]. destruct Hn. apply elem_of_app. right. by left.
  - intros [= -> <-]. destruct Hn'. apply elem_of_app. right. by left.
  - intros [= -> H]. destruct (IH _ H) as [-> ->]. done.
Qed.

(** Keys of the registry name one org and one plugin. *)
Lemma recordKey_inj o n o' n' : no_nul n → no_nul n' → recordKey o n = recordKey o' n' → o = o' ∧ n = n'.
Proof.
  intros Hn Hn' H. unfold recordKey in H. apply (f_equal String.list_ascii_of_string) in H. rewrite !list_ascii_app in H.
  change (String.list_ascii_of_string nul) with [ascii_of_nat 0] in H. cbn [app] in H. unfold no_nul in *. rewrite Forall_forall in Hn, Hn'.
  apply list_sep_inj in H as [Ho Hm]; [|intros Hin; by apply (Hn _ Hin)|intros Hin; by apply (Hn' _ Hin)].
  split; by apply list_ascii_inj.
Qed.

(** Every record is valid and filed under its org and name. *)
Definition reg_ok (r : gmap string PRecord) : Prop :=
  map_Forall (fun k rec => k = recordKey (pr_OrgID rec) (rec_name rec) ∧ plugin_Validate (pr_Plugin rec) = None) r.

Definition visits (visited : list PRecord) (r : gmap string PRecord) : Prop := visited ≡ₚ map snd (map_to_list r).

Lemma visits_spec visited r rec : visits visited r → rec ∈ visited ↔ ∃ k, r !! k = Some rec.
Proof.
  intros ->. rewrite list_elem_of_fmap. split.
  - intros ([k rec'] & -> & H%elem_of_map_to_list). by exists k.
  - intros [k H]. exists (k, rec). split; [done|by apply elem_of_map_to_list].
Qed.

Lemma reg_ok_unique r visited a b :
  reg_ok r → visits visited r → a ∈ visited → b ∈ visited → pr_OrgID a = pr_OrgID b → rec_name a = rec_name b → a = b.
Proof.
  intros Hr Hv Ha Hb Ho Hn. apply (visits_spec _ _ _ Hv) in Ha as [k Ha], Hb as [k' Hb].
  destruct (Hr _ _ Ha) as [-> _], (Hr _ _ Hb) as [-> _]. rewrite Ho, Hn in Ha. congruence.
Qed.

Inductive reg_op := RMerge (recs : list (option PRecord)) | RSetEnabled (name : string) (on : bool) | RRemove (org name : string).

Definition reg_run (r : gmap string PRecord) (o : reg_op) : gmap string PRecord :=
  match o with
  | RMerge recs => snd (Merge recs r)
  | RSetEnabled name on => default r (SetEnabled name on r)
  | RRemove org name => snd (Remove org name r)
  end.

Lemma Merge_ok recs r : reg_ok r → reg_ok (snd (Merge recs r)).
Proof.
  revert r. induction recs as [|[rec|] recs IH]; intros r Hr; cbn; [done| |by apply IH].
  destruct (plugin_Validate (pr_Plugin rec)) eqn:Ev.
  { specialize (IH r Hr). by destruct (Merge recs r). }
  assert (reg_ok (<[recordKey (pr_OrgID rec) (rec_name rec) := rec]> r)) as Hi by (by apply map_Forall_insert_2).
  destruct (r !! _) as [ex|]; [|by apply IH]. destruct (pr_Source ex), (pr_Source rec); try (by apply IH).
  specialize (IH r Hr). by destruct (Merge recs r).
Qed.

Lemma reg_run_ok r o : reg_ok r → reg_ok (reg_run r o).
Proof.
  intros Hr. destruct o as [recs|name on|org name]; cbn.
  - by apply Merge_ok.
  - unfold SetEnabled. destruct (existsb _ _); cbn; [|done]. intros k rec H. rewrite lookup_fmap in H.
    destruct (r !! k) as [rec0|] eqn:E; [|done]. cbn in H. injection H as <-. destruct (Hr _ _ E) as [-> Hv].
    by destruct (String.eqb _ _).
  - unfold Remove. destruct (r !! _); cbn; [|done]. by apply map_Forall_delete.
Qed.

(** Helm installations cannot be displaced: through any merges the record of an
    org and name that came from Helm is still one from Helm, and only records with a
    valid manifest, filed under their own org and name, get in. *)
Theorem helm_wins (recs : list (option PRecord)) (r : gmap string PRecord) (key : string) (e : PRecord) :
  reg_ok r → r !! key = Some e → pr_Source e = SourceHelm →
  reg_ok (snd (Merge recs r)) ∧ ∃ e', snd (Merge recs r) !! key = Some e' ∧ pr_Source e' = SourceHelm.
Proof.
  intros Hr He Hs. split; [by apply Merge_ok|]. clear Hr. revert r e He Hs.
  induction recs as [|[rec|] recs IH]; intros r e He Hs; cbn; [by exists e| |by eapply IH].
  destruct (plugin_Validate (pr_Plugin rec)) eqn:Ev.
  { destruct (IH r e He Hs) as (e' & ? & ?). exists e'. by destruct (Merge recs r). }
  set (k := recordKey _ _). destruct (decide (k = key)) as [->|Hne].
  - rewrite He, Hs. destruct (pr_Source rec) eqn:Er; [eapply (IH _ rec); [apply lookup_insert_eq|done]|].
    destruct (IH r e He Hs) as (e' & ? & ?). exists e'. by destruct (Merge recs r).
  - assert (∃ e', snd (Merge recs (<[k := rec]> r)) !! key = Some e' ∧ pr_Source e' = SourceHelm) as Hi.
    { eapply (IH _ e); [by rewrite lookup_insert_ne|done]. }
    destruct (r !! k) as [ex|]; [|done]. destruct (pr_Source ex), (pr_Source rec); try done.
    destruct (IH r e He Hs) as (e' & ? & ?). exists e'. by destruct (Merge recs r).
Qed.

(** ** The plugins of an org *)

Definition usable (org : string) (rec : PRecord) : Prop := pr_Enabled rec = true ∧ (pr_OrgID rec = "" ∨ pr_OrgID rec = org).

(** [m] holds the choice among the records in [seen]. *)
Definition chosen (org : string) (seen : list PRecord) (m : gmap string PRecord) : Prop :=
  (∀ n rec, m !! n = Some rec → rec ∈ seen ∧ usable org rec ∧ rec_name rec = n ∧
     (pr_OrgID rec = "" → ∀ own, own ∈ seen → usable org own → rec_name own = n → pr_OrgID own = "")) ∧
  (∀ rec, rec ∈ seen → usable org rec → is_Some (m !! rec_name rec)).

Lemma by_name_spec org m rec :
  (usable org rec → by_name org m rec = match m !! rec_name rec with
     | Some prev => if String.eqb (pr_OrgID prev) "" then <[rec_name rec := rec]> m else m
     | None => <[rec_name rec := rec]> m end) ∧
  (¬ usable org rec → by_name org m rec = m).
Proof.
  unfold by_name, usable. destruct (pr_Enabled rec); cbn; [|split; [by intros [? _]|done]].
  destruct (String.eqb_spec (pr_OrgID rec) "") as [->|H1]; cbn.
  { split; [|by intros []; auto]. intros _. destruct (m !! _) as [prev|]; [|done]. by destruct (String.eqb _ _). }
  destruct (String.eqb_spec (pr_OrgID rec) org) as [->|H2]; cbn.
  { split; [|by intros []; auto]. intros _. destruct (m !! _) as [prev|]; [|done]. by destruct (String.eqb _ _). }
  split; [by intros [_ []]|done].
Qed.

Lemma chosen_step org seen m rec :
  (∀ a b, a ∈ rec :: seen → b ∈ rec :: seen → pr_OrgID a = pr_OrgID b → rec_name a = rec_name b → a = b) →
  chosen org seen m → chosen org (rec :: seen) (by_name org m rec).
Proof.
  intros Huniq [H1 H2]. destruct (by_name_spec org m rec) as [Hu Hn].
  assert (usable org rec ∨ ¬ usable org rec) as [Hus|Hnu].
  { unfold usable. destruct (pr_Enabled rec); [|right; by intros [? _]].
    destruct (decide (pr_OrgID rec = "")); [by left; auto|]. destruct (decide (pr_OrgID rec = org)); [by left; auto|].
    right. by intros [_ []]. }
  2: { rewrite Hn by done. split.
    - intros n r Hr. destruct (H1 _ _ Hr) as (Hs & Hr' & Hnm & Hown). split_and!; [by right|done|done|].
      intros He own [->|Ho]%elem_of_cons; [done|]. by apply Hown.
    - intros r [->|Hr]%elem_of_cons Hru; [done|]. by apply H2. }
  rewrite (Hu Hus).
  assert (∀ prev, m !! rec_name rec = Some prev → pr_OrgID prev ≠ "" → pr_OrgID rec = "" ∨ pr_OrgID rec = pr_OrgID prev) as Hprev.
  { intros prev Hp Hne. destruct (H1 _ _ Hp) as (_ & [_ [?|Ho]] & _); [done|]. destruct Hus as [_ [?|?]]; [by left|right; congruence]. }
  assert (chosen org (rec :: seen) (<[rec_name rec := rec]> m) ∨ ∃ prev, m !! rec_name rec = Some prev ∧ pr_OrgID prev ≠ "") as Hcase.
  { destruct (m !! rec_name rec) as [prev|] eqn:Ep; [destruct (decide (pr_OrgID prev = "")) as [Hpe|]; [|by right; eauto]|]; left.
    all: split; [|intros r [->|Hr]%elem_of_cons Hru;
      [rewrite lookup_insert_eq; eauto|destruct (decide (rec_name rec = rec_name r)) as [->|];
       [rewrite lookup_insert_eq; eauto|rewrite lookup_insert_ne by done; by apply H2]]].
    all: intros n r Hr; destruct (decide (rec_name rec = n)) as [<-|Hne];
      [rewrite lookup_insert_eq in Hr; injection Hr as <-|rewrite lookup_insert_ne in Hr by done].
    all: try (destruct (H1 _ _ Hr) as (Hs & Hr' & Hnm & Hown); split_and!; [by right|done|done|];
      intros He own [->|Ho]%elem_of_cons Hou Hon; [done|by apply Hown]).
    - split_and!; [by left|done|done|]. intros He own [->|Ho]%elem_of_cons Hou Hon; [done|].
      destruct (H1 _ _ Ep) as (_ & _ & _ & Hown). by apply Hown.
    - split_and!; [by left|done|done|]. intros He own [->|Ho]%elem_of_cons Hou Hon; [done|].
      destruct (H2 _ Ho Hou) as [x Hx]. rewrite Hon, Ep in Hx. done. }
  destruct (m !! rec_name rec) as [prev|] eqn:Ep; [|by destruct Hcase as [|(? & [=] & _)]].
  destruct (String.eqb_spec (pr_OrgID prev) "") as [Hpe|Hpe].
  { destruct Hcase as [|(? & [= <-] & ?)]; done. }
  split.
  - intros n r Hr. destruct (H1 _ _ Hr) as (Hs & Hr' & Hnm & Hown). split_and!; [by right|done|done|].
    intros He own [->|Ho]%elem_of_cons Hou Hon; [|by apply Hown].
    destruct (Hprev prev eq_refl Hpe) as [|Heq]; [done|]. rewrite <- Hon, Ep in Hr. injection Hr as ->. congruence.
  - intros r [->|Hr]%elem_of_cons Hru; [by rewrite Ep; eauto|by apply H2].
Qed.

Lemma fold_chosen org visited :
  (∀ a b, a ∈ visited → b ∈ visited → pr_OrgID a = pr_OrgID b → rec_name a = rec_name b → a = b) →
  chosen org visited (fold_left (by_name org) visited ∅).
Proof.
  intros Huniq. assert (∀ (rest seen : list PRecord) m, (∀ a b, a ∈ (rest ++ seen)%list → b ∈ (rest ++ seen)%list → pr_OrgID a = pr_OrgID b → rec_name a = rec_name b → a = b) →
    chosen org seen m → chosen org (reverse rest ++ seen)%list (fold_left (by_name org) rest m)) as H.
  { clear. induction rest as [|rec rest IH]; intros seen m Hu Hc; [done|]. cbn [fold_left]. rewrite reverse_cons, <- app_assoc.
    apply IH; [|apply chosen_step; [|done]].
    - intros a b Ha Hb. apply Hu; set_solver.
    - intros a b Ha Hb. apply Hu; set_solver. }
  specialize (H visited [] ∅). rewrite app_nil_r in H. specialize (H Huniq). destruct H as [H1 H2].
  { split; [intros n rec; by rewrite lookup_empty|by intros rec ?%elem_of_nil]. }
  rewrite app_nil_r in *. split.
  - intros n rec Hr. destruct (H1 _ _ Hr) as (? & ? & ? & Hown). split_and!; [by apply elem_of_reverse|done|done|].
    intros He own Ho. apply Hown; [done|by apply elem_of_reverse].
  - intros rec Hr. apply H2. by apply elem_of_reverse.
Qed.

Lemma EnabledForOrg_elem org visited rec :
  rec ∈ EnabledForOrg org visited ↔ ∃ n, fold_left (by_name org) visited ∅ !! n = Some rec.
Proof.
  unfold EnabledForOrg. rewrite SliceStable_perm, list_elem_of_fmap. split.
  - intros ([n r] & -> & H%elem_of_map_to_list). by exists n.
  - intros [n H]. exists (n, rec). split; [done|by apply elem_of_map_to_list].
Qed.

(** Which plugins an org uses: exactly its own enabled ones and those enabled for
    the whole installation that no enabled plugin of its own replaces under the same
    name, whatever the order in which the records are visited. *)
Theorem org_plugins_exact (r : gmap string PRecord) (visited : list PRecord) (org : string) (rec : PRecord) :
  reg_ok r → visits visited r →
  rec ∈ EnabledForOrg org visited ↔
  rec ∈ visited ∧ pr_Enabled rec = true ∧ (pr_OrgID rec = org ∨ pr_OrgID rec = "" ∧
    ∀ own, own ∈ visited → pr_Enabled own = true → pr_OrgID own = org → rec_name own = rec_name rec → org = "").
Proof.
  intros Hr Hv. assert (∀ a b, a ∈ visited → b ∈ visited → pr_OrgID a = pr_OrgID b → rec_name a = rec_name b → a = b) as Hu.
  { intros a b. by apply (reg_ok_unique r visited). }
  destruct (fold_chosen org visited Hu) as [H1 H2]. rewrite EnabledForOrg_elem. split.
  - intros [n Hn]. destruct (H1 _ _ Hn) as (Hs & [He Ho] & <- & Hown). split_and!; [done|done|].
    destruct Ho as [Ho|Ho]; [right|by left]. split; [done|]. intros own Hin Hen Hoo Hon.
    rewrite <- Hoo. apply (Hown Ho own); [done|split; [done|by right]|done].
  - intros (Hs & He & Ho). assert (usable org rec) as Hus by (split; [done|tauto]). destruct (H2 _ Hs Hus) as [x Hx].
    exists (rec_name rec). rewrite Hx. f_equal. destruct (H1 _ _ Hx) as (Hxs & [Hxe Hxo] & Hxn & Hown).
    apply Hu; [done|done| |done]. destruct Ho as [Ho|[Ho Hno]].
    + destruct (decide (pr_OrgID x = "")) as [Hx0|]; [|destruct Hxo; congruence]. rewrite Hx0. symmetry. by apply (Hown Hx0 rec).
    + rewrite Ho. destruct Hxo as [Hxo|Hxo]; [done|]. rewrite Hxo. by apply (Hno x).
Qed.

(** ** Dispatch *)

Lemma EnabledForOrg_usable org visited rec : rec ∈ EnabledForOrg org visited → rec ∈ visited ∧ usable org rec.
Proof.
  rewrite EnabledForOrg_elem. intros [n H].
  assert (∀ l m, (∀ n rec, m !! n = Some rec → rec ∈ visited ∧ usable org rec) → (∀ r, r ∈ l → r ∈ visited) →
    ∀ n rec, fold_left (by_name org) l m !! n = Some rec → rec ∈ visited ∧ usable org rec) as Hf.
  { induction l as [|r l IH]; intros m Hm Hl; [done|]. cbn. apply IH; [|intros x Hx; apply Hl; by right].
    intros k x Hx. unfold by_name in Hx. destruct (pr_Enabled r) eqn:Ee; cbn in Hx; [|exact (Hm _ _ Hx)].
    destruct (negb (String.eqb (pr_OrgID r) "") && _) eqn:Eo; [exact (Hm _ _ Hx)|].
    assert (usable org r) as Hr.
    { split; [done|]. destruct (String.eqb_spec (pr_OrgID r) ""); [by left|]. right. cbn in Eo. by apply negb_false_iff, String.eqb_eq in Eo. }
    assert (∀ k x, <[rec_name r := r]> m !! k = Some x → x ∈ visited ∧ usable org x) as Hi.
    { intros k' x' Hk. destruct (decide (rec_name r = k')) as [<-|].
      - rewrite lookup_insert_eq in Hk. injection Hk as <-. split; [apply Hl; by left|done].
      - rewrite lookup_insert_ne in Hk by done. by eapply Hm. }
    destruct (m !! rec_name r) as [prev|]; [destruct (negb (String.eqb (pr_OrgID prev) "")); [exact (Hm _ _ Hx)|]|]; exact (Hi _ _ Hx). }
  by apply (Hf visited ∅ ltac:(by intros ? ?; rewrite lookup_empty) ltac:(done) n).
Qed.

Definition went_to (adapters : list string) (execute : string → Trace → option string) (secrets : option (AuthSpec → option (list string)))
    (t : Trace) (recs : list PRecord) (tp : Target * gmap string payload_value) : Prop :=
  ∃ rec, rec ∈ recs ∧ Dispatch adapters execute secrets t (pr_Plugin rec) = Some tp.

Lemma fan_out_sent adapters execute secrets has_local meta t recs g f tp :
  tp ∈ fo_sent (fst (fan_out adapters execute secrets has_local meta t recs g f)) →
  tp ∈ fo_sent f ∨ went_to adapters execute secrets t recs tp.
Proof.
  revert g f. induction recs as [|rec recs IH]; intros g f; cbn; [by left|].
  assert (∀ g f, tp ∈ fo_sent (fst (fan_out adapters execute secrets has_local meta t recs g f)) →
    tp ∈ fo_sent f ∨ went_to adapters execute secrets t (rec :: recs) tp) as IH'.
  { intros g' f' [?|(x & Hx & ?)]%IH; [by left|right]. exists x. split; [by right|done]. }
  destruct (sampleTrace _ _) as [hit g1]. destruct hit; cbn; [|apply IH'].
  destruct (String.eqb _ _); [destruct has_local; cbn; [|apply IH']; destruct (heuristic_Evaluate _ _ _ _); intros H; apply IH' in H; exact H|].
  assert (∀ f, tp ∈ fo_sent (inline adapters execute secrets t (pr_Plugin rec) f) → tp ∈ fo_sent f ∨ went_to adapters execute secrets t (rec :: recs) tp) as Hin.
  { intros f'. unfold inline. destruct (Dispatch _ _ _ _ _) as [tp'|] eqn:Ed; [|by left]. cbn.
    intros [?| ->%list_elem_of_singleton]%elem_of_app; [by left|right]. exists rec. split; [by left|done]. }
  intros [H|H]%IH'; [|by right]. unfold dispatchForwarded in H. destruct (String.eqb _ _); [|destruct (String.eqb _ _); [by left|by apply Hin]].
  destruct (fo_scheduler f); [by left|by apply Hin].
Qed.

(** [C24] A trace goes to its own org's vendors.  Whatever is handed to an adapter
    inline for a trace goes to the endpoint of an enabled plugin of the trace's org
    or of the whole installation, carries that trace, and uses the credentials that
    were resolved for that plugin. *)
Theorem inline_dispatch_own_org (adapters : list string) (execute : string → Trace → option string)
    (secrets : option (AuthSpec → option (list string))) (has_local : bool) (meta : arguments) (t : Trace) (visited : list PRecord)
    (g : rng) (sch : option Sched.Scheduler) (tg : Target) (payload : gmap string payload_value) :
  (tg, payload) ∈ fo_sent (fst (multi_Evaluate adapters execute secrets has_local meta t visited g sch)) →
  ∃ rec, rec ∈ visited ∧ pr_Enabled rec = true ∧ (pr_OrgID rec = "" ∨ pr_OrgID rec = t_OrgID (t_base t)) ∧
    tg_Trace tg = t ∧ tg_Plugin tg = pr_Plugin rec ∧ tg_Endpoint tg = ss_Endpoint (pl_Service (pr_Plugin rec)) ∧
    Some (tg_Auth tg) = resolveAuth secrets (pr_Plugin rec).
Proof.
  intros [H|(rec & Hrec & Hd)]%fan_out_sent; [by apply elem_of_nil in H|].
  apply EnabledForOrg_usable in Hrec as (Hv & He & Ho). exists rec. unfold Dispatch in Hd.
  destruct (negb _); [done|]. destruct (renderPayload _ _ _); [|done]. destruct (resolveAuth _ _) eqn:Er; [|done].
  injection Hd as <- <-. done.
Qed.

(** ** The scheduler *)
Module SchedSpec.
Import Sched.

(** What was accepted under a name, ever: what went out of its buffer and what is
    still in it.  The log of accepted traces is kept beside the machine. *)
Definition queued (name : string) (s : Scheduler) : list Trace := ll (bufferFor name (buffers s)).
Definition out (name : string) (s : Scheduler) : list Trace :=
  map snd (List.filter (fun pt => String.eqb (pl_Name (fst pt)) name) (dispatched s)).

Lemma out_app name s l b c d e :
  out name (mkScheduler b c d e (dispatched s ++ l)%list) =
  (out name s ++ map snd (List.filter (fun pt => String.eqb (pl_Name (fst pt)) name) l))%list.
Proof. unfold out. cbn. by rewrite List.filter_app, map_app. Qed.

Lemma filter_pair name (p : Plugin) l :
  map snd (List.filter (fun pt : Plugin * Trace => String.eqb (pl_Name (fst pt)) name) (map (pair p) l)) =
  if String.eqb (pl_Name p) name then l else [].
Proof.
  induction l as [|t l IH]; cbn; [by destruct (String.eqb _ _)|]. destruct (String.eqb (pl_Name p) name); cbn; [by rewrite IH|done].
Qed.

(** Schedules are filed under the plugin's name, and buffers are within the cap. *)
Definition tidy (s : Scheduler) : Prop :=
  (∀ name p ivl, schedules s !! name = Some (p, ivl) → pl_Name p = name ∧ is_scheduled p = true) ∧
  (∀ name, (length (queued name s) ≤ defaultCap s)%nat).

Lemma wanted_named enabled name p : wanted enabled !! name = Some p → pl_Name p = name ∧ is_scheduled p = true.
Proof.
  unfold wanted. assert (∀ m : gmap string Plugin, (∀ n q, m !! n = Some q → pl_Name q = n ∧ is_scheduled q = true) →
    ∀ n q, fold_left (fun m rec => if is_scheduled (pr_Plugin rec) then <[rec_name rec := pr_Plugin rec]> m else m) enabled m !! n = Some q →
    pl_Name q = n ∧ is_scheduled q = true) as H.
  { induction enabled as [|rec l IH]; intros m Hm; [done|]. cbn. apply IH. intros n q Hq.
    destruct (is_scheduled (pr_Plugin rec)) eqn:E; [|by eapply Hm]. destruct (decide (rec_name rec = n)) as [<-|].
    - rewrite lookup_insert_eq in Hq. by injection Hq as <-.
    - rewrite lookup_insert_ne in Hq by done. by eapply Hm. }
  apply H. intros n q. by rewrite lookup_empty.
Qed.

Lemma schedule_fold l scheds bufs name :
  (∀ n p, (n, p) ∈ l → pl_Name p = n ∧ is_scheduled p = true) →
  (∀ n p ivl, scheds !! n = Some (p, ivl) → pl_Name p = n ∧ is_scheduled p = true) →
  (∀ n p ivl, fst (fold_left schedule_one l (scheds, bufs)) !! n = Some (p, ivl) → pl_Name p = n ∧ is_scheduled p = true) ∧
  bufferFor name (snd (fold_left schedule_one l (scheds, bufs))) = bufferFor name bufs.
Proof.
  revert scheds bufs. induction l as [|[n p] l IH]; intros scheds bufs Hl Hs; [done|]. cbn.
  assert (∀ ivl m q i, <[n := (p, ivl)]> scheds !! m = Some (q, i) → pl_Name q = m ∧ is_scheduled q = true) as Hi.
  { intros ivl m q i H. destruct (decide (n = m)) as [<-|].
    - rewrite lookup_insert_eq in H. injection H as <- <-. apply Hl. by left.
    - rewrite lookup_insert_ne in H by done. by eapply Hs. }
  assert (bufferFor name (<[n := bufferFor n bufs]> bufs) = bufferFor name bufs) as Hb.
  { unfold bufferFor. destruct (decide (n = name)) as [<-|]; [by rewrite lookup_insert_eq|by rewrite lookup_insert_ne]. }
  destruct (_ <=? 0); [apply IH; [intros ? ? ?; apply Hl; by right|done]|].
  destruct (scheds !! n) as [[p0 cur]|]; [destruct (cur =? _)|].
  1: apply IH; [intros ? ? ?; apply Hl; by right|done].
  all: edestruct (IH (<[n := (p, co_Interval (pl_Collect p))]> scheds) (<[n := bufferFor n bufs]> bufs)) as [H1 H2];
    [intros ? ? ?; apply Hl; by right|apply Hi|]; split; [exact H1|by rewrite H2].
Qed.

(** The machine with the log of what [Enqueue] accepted, by plugin name: a step is
    a call, or one trace taken by a flush goroutine.  A flush that a reconciliation
    cancels is taken to have ended. *)
Definition accepted (name : string) (log : list (string * Trace)) : list Trace :=
  map snd (List.filter (fun nt => String.eqb (fst nt) name) log).

Inductive lstep : list (string * Trace) * Scheduler → list (string * Trace) * Scheduler → Prop :=
| l_enqueue p t log s :
    lstep (log, s) (match fst (Enqueue p t s) with Ok _ => (log ++ [(pl_Name p, t)])%list | Err _ => log end, snd (Enqueue p t s))
| l_reconcile enabled log s : lstep (log, s) (log, reconcile enabled s)
| l_tick name p ivl log s s' : schedules s !! name = Some (p, ivl) → drain_one p name s = Some s' → lstep (log, s) (log, s')
| l_fire ok p log s : lstep (log, s) (log, snd (FireScheduled ok p s))
| l_manual ok p log s : lstep (log, s) (log, snd (FireManual ok p s))
| l_stop log s : lstep (log, s) (log, scheduler_Stop s).

Definition accounted (log : list (string * Trace)) (s : Scheduler) : Prop :=
  ∀ name, ∃ lost, accepted name log = (out name s ++ queued name s ++ lost)%list ∧ (stopped s = false → lost = []).

Lemma queued_insert name n b bufs c d e f :
  queued name (mkScheduler (<[n := b]> bufs) c d e f) = if String.eqb n name then ll b else ll (bufferFor name bufs).
Proof.
  unfold queued, bufferFor. cbn. destruct (String.eqb_spec n name) as [->|]; [by rewrite lookup_insert_eq|by rewrite lookup_insert_ne].
Qed.

Lemma drainAll_queued ok p s name :
  queued name (snd (drainAll ok p s)) = (if String.eqb (pl_Name p) name then [] else queued name s) ∧
  out name (snd (drainAll ok p s)) = (out name s ++ if String.eqb (pl_Name p) name then queued name s else [])%list.
Proof.
  unfold drainAll. cbn [snd]. rewrite queued_insert, out_app, filter_pair. split; [done|].
  by destruct (String.eqb_spec (pl_Name p) name) as [->|].
Qed.

Lemma drainAll_ok ok p log s : tidy s → accounted log s → tidy (snd (drainAll ok p s)) ∧ accounted log (snd (drainAll ok p s)).
Proof.
  intros [Hn Hc] Ha. split; [split|].
  - exact Hn.
  - intros name. rewrite (proj1 (drainAll_queued ok p s name)). destruct (String.eqb _ _); [cbn; lia|apply Hc].
  - intros name. destruct (Ha name) as (lost & Hl & Hs). exists lost. split; [|exact Hs].
    destruct (drainAll_queued ok p s name) as [-> ->]. rewrite Hl. destruct (String.eqb _ _); [by rewrite <- app_assoc|by rewrite app_nil_r].
Qed.

Lemma reconcile_ok enabled log s : tidy s → accounted log s → tidy (reconcile enabled s) ∧ accounted log (reconcile enabled s).
Proof.
  intros Ht Ha. unfold reconcile. destruct (stopped s) eqn:Es; [done|]. destruct Ht as [Hn Hc].
  assert (∀ n p, (n, p) ∈ map_to_list (wanted enabled) → pl_Name p = n ∧ is_scheduled p = true) as Hw.
  { intros n p H%elem_of_map_to_list. by eapply wanted_named. }
  pose proof (fun name => schedule_fold _ (schedules s) (buffers s) name Hw Hn) as Hf.
  destruct (fold_left _ _ _) as [scheds bufs]. cbn [fst snd] in Hf. split; [split|].
  - intros name p ivl H. cbn in H. apply map_lookup_filter_Some in H as [H _]. by eapply (proj1 (Hf name)).
  - intros name. unfold queued. cbn. rewrite (proj2 (Hf name)). apply Hc.
  - intros name. destruct (Ha name) as (lost & Hl & Hs). exists lost. unfold queued. cbn. rewrite (proj2 (Hf name)). by rewrite Es in Hs.
Qed.

Lemma accepted_snoc name log n t :
  accepted name (log ++ [(n, t)])%list = (accepted name log ++ if String.eqb n name then [t] else [])%list.
Proof. unfold accepted. rewrite List.filter_app, map_app. cbn. by destruct (String.eqb n name). Qed.

Lemma Enqueue_ok p t log s : tidy s → accounted log s →
  tidy (snd (Enqueue p t s)) ∧
  accounted (match fst (Enqueue p t s) with Ok _ => (log ++ [(pl_Name p, t)])%list | Err _ => log end) (snd (Enqueue p t s)).
Proof.
  intros Ht Ha. unfold Enqueue. destruct (negb _); [done|]. destruct (stopped s) eqn:Es; [done|]. destruct Ht as [Hn Hc].
  pose proof (Hc (pl_Name p)) as Hp. unfold queued in Hp.
  destruct (Nat.leb_spec (defaultCap s) (length (ll (bufferFor (pl_Name p) (buffers s))))); cbn [fst snd]; split.
  - split; [exact Hn|]. intros name. rewrite queued_insert. destruct (String.eqb_spec (pl_Name p) name) as [<-|]; apply Hc.
  - intros name. destruct (Ha name) as (lost & Hl & Hs). exists lost. rewrite queued_insert. split; [|by rewrite Es in Hs].
    rewrite Hl. by destruct (String.eqb_spec (pl_Name p) name) as [<-|].
  - split; [exact Hn|]. intros name. rewrite queued_insert. destruct (String.eqb_spec (pl_Name p) name) as [<-|]; [|apply Hc].
    cbn. rewrite length_app. cbn. lia.
  - intros name. destruct (Ha name) as (lost & Hl & Hs). rewrite Es in Hs. specialize (Hs eq_refl). subst. exists []. split; [|done].
    rewrite accepted_snoc, queued_insert, Hl, !app_nil_r. destruct (String.eqb_spec (pl_Name p) name) as [<-|]; [|by rewrite app_nil_r].
    by rewrite <- app_assoc.
Qed.

Lemma drain_one_ok name p ivl log s s' : schedules s !! name = Some (p, ivl) → drain_one p name s = Some s' →
  tidy s → accounted log s → tidy s' ∧ accounted log s'.
Proof.
  intros Hsch Hd [Hn Hc] Ha. destruct (Hn _ _ _ Hsch) as [Hnm _]. unfold drain_one in Hd.
  destruct (buffers s !! name) as [[[|t ts] d]|] eqn:Eb; [done| |done]. injection Hd as <-. split; [split|].
  - exact Hn.
  - intros n. rewrite queued_insert. destruct (String.eqb_spec name n) as [<-|]; [|apply Hc].
    specialize (Hc name). unfold queued, bufferFor in Hc. rewrite Eb in Hc. cbn in *. lia.
  - intros n. destruct (Ha n) as (lost & Hl & Hs). exists lost. split; [|exact Hs]. rewrite queued_insert, out_app, Hl. cbn. rewrite Hnm.
    destruct (String.eqb_spec name n) as [<-|]; cbn; [|by rewrite app_nil_r]. unfold queued, bufferFor. rewrite Eb. cbn.
    by rewrite <- !app_assoc.
Qed.

Lemma lstep_ok log s log' s' : lstep (log, s) (log', s') → tidy s → accounted log s → tidy s' ∧ accounted log' s'.
Proof.
  intros H. inversion H; subst; intros Ht Ha.
  - by apply Enqueue_ok.
  - by apply reconcile_ok.
  - by eapply drain_one_ok.
  - unfold FireScheduled. destruct (negb _); [done|]. destruct (stopped s); [done|].
    pose proof (drainAll_ok ok p log' s Ht Ha). by destruct (drainAll ok p s).
  - unfold FireManual. destruct (negb _); [done|]. destruct (stopped s); [done|].
    pose proof (drainAll_ok ok p log' s Ht Ha). by destruct (drainAll ok p s).
  - split; [split|].
    + intros name q ivl Hq. cbn in Hq. by rewrite lookup_empty in Hq.
    + intros name. unfold queued, bufferFor. cbn. rewrite lookup_empty. cbn. lia.
    + intros name. destruct (Ha name) as (lost & Hl & _). exists (queued name s ++ lost)%list. split; [|done]. rewrite Hl.
      unfold queued, bufferFor. cbn. by rewrite lookup_empty.
Qed.

(** The scheduler loses nothing and reorders nothing before it is stopped.  From a
    new scheduler, after any interleaving of enqueues, reconciliations, ticks and
    firings, the traces accepted under a name are those that went out under it
    followed by those still queued, in the order of acceptance; a buffer is within
    its cap.  After [Stop] what went out is still an initial part of what was
    accepted: nothing goes out twice. *)
Theorem scheduler_fifo (maxBuffer : Z) (log : list (string * Trace)) (s : Scheduler) (name : string) :
  rtc lstep ([], NewScheduler maxBuffer) (log, s) →
  (stopped s = false → accepted name log = (out name s ++ queued name s)%list) ∧
  (∃ rest, accepted name log = (out name s ++ rest)%list) ∧
  (length (queued name s) ≤ defaultCap s)%nat.
Proof.
  intros H. assert (tidy s ∧ accounted log s) as [[_ Hc] Ha].
  { assert (∀ x y, rtc lstep x y → tidy (snd x) ∧ accounted (fst x) (snd x) → tidy (snd y) ∧ accounted (fst y) (snd y)) as Hr.
    { induction 1 as [|[l1 s1] [l2 s2] z Hstep _ IH]; [done|]. intros [? ?]. apply IH. by eapply lstep_ok. }
    apply (Hr _ _ H). split; [split|]; cbn.
    - intros n p ivl. by rewrite lookup_empty.
    - intros n. unfold queued, bufferFor. cbn. rewrite lookup_empty. cbn. lia.
    - intros n. by exists []. }
  destruct (Ha name) as (lost & Hl & Hs). split_and!.
  - intros Hf. rewrite Hl, (Hs Hf). by rewrite app_nil_r.
  - by exists (queued name s ++ lost)%list.
  - apply Hc.
Qed.
End SchedSpec.

(** Two orgs' scheduled plugins of one name share a buffer.  With both enabled, a
    trace of the first org that is accepted for its own plugin goes out, at the next
    tick, through the plugin of the second: to that org's endpoint and with that
    org's credentials. *)
Theorem scheduler_mixes_orgs (a b : PRecord) (t : Trace) (maxBuffer : Z) :
  rec_name a = rec_name b → Sched.is_scheduled (pr_Plugin a) = true → Sched.is_scheduled (pr_Plugin b) = true →
  0 < co_Interval (pl_Collect (pr_Plugin b)) →
  let s1 := Sched.reconcile [a; b] (Sched.NewScheduler maxBuffer) in
  let '(r, s2) := Sched.Enqueue (pr_Plugin a) t s1 in
  r = Ok tt ∧ Sched.schedules s2 !! rec_name a = Some (pr_Plugin b, co_Interval (pl_Collect (pr_Plugin b))) ∧
  ∃ s3, Sched.drain_one (pr_Plugin b) (rec_name a) s2 = Some s3 ∧ Sched.dispatched s3 = [(pr_Plugin b, t)].
Proof.
  intros Hn Ha Hb Hi. unfold Sched.reconcile, Sched.wanted. cbn [fold_left Sched.stopped Sched.NewScheduler]. rewrite Ha, Hb, Hn, insert_insert_eq.
  rewrite insert_empty, map_to_list_singleton. cbn [fold_left Sched.schedule_one Sched.schedules Sched.buffers].
  destruct (Z.leb_spec (co_Interval (pl_Collect (pr_Plugin b))) 0); [lia|]. cbn [Sched.NewScheduler Sched.schedules Sched.buffers Sched.stopped Sched.defaultCap Sched.dispatched]. rewrite lookup_empty.
  rewrite map_filter_insert_True, map_filter_empty by (cbn; rewrite lookup_singleton_eq; eauto).
  unfold Sched.Enqueue. rewrite Ha. cbn [negb Sched.stopped Sched.buffers Sched.defaultCap].
  change (pl_Name (pr_Plugin a)) with (rec_name a). rewrite Hn.
  assert (∀ m, Sched.bufferFor (rec_name b) (<[rec_name b := m]> ∅) = m) as -> by (intros m; unfold Sched.bufferFor; by rewrite lookup_insert_eq).
  unfold Sched.bufferFor. rewrite lookup_empty. cbn [default id Sched.ll Sched.dropped length app from_option].
  destruct (Nat.leb_spec (Z.to_nat (if maxBuffer <=? 0 then Sched.defaultBufferCap else maxBuffer)) 0) as [Hc|Hc].
  { destruct (Z.leb_spec maxBuffer 0); [unfold Sched.defaultBufferCap in Hc|]; lia. }
  cbn [Sched.schedules]. split; [done|]. split; [by rewrite lookup_insert_eq|].
  unfold Sched.drain_one. cbn [Sched.buffers]. rewrite lookup_insert_eq. cbn. eauto.
Qed.

(** ** Whose scores come back *)

Lemma normalize_other o : o ≠ "default" → NormalizeOrgID o = o.
Proof. unfold NormalizeOrgID. by destruct (String.eqb_spec o "default"). Qed.

Lemma attributeOrg_trace f pluginOrg id o :
  TrimSpace id ≠ "" → f id = Some o → o ≠ "" → o ≠ "default" →
  attributeOrg (Some f) pluginOrg id = if decide (NormalizeOrgID pluginOrg ∈ [""; o]) then o else UnattributedOrgID.
Proof.
  intros Hid Hf Ho Hd. unfold attributeOrg. destruct (String.eqb_spec (TrimSpace id) ""); [done|]. rewrite Hf. cbn [from_option].
  rewrite (normalize_other o) by done. destruct (String.eqb_spec o ""); [done|]. cbn [negb andb].
  destruct (String.eqb_spec (NormalizeOrgID pluginOrg) "") as [->|Hp]; cbn [negb andb].
  { by rewrite decide_True by set_solver. }
  destruct (String.eqb_spec o (NormalizeOrgID pluginOrg)) as [<-|Hne]; cbn [negb].
  - by rewrite decide_True by set_solver.
  - by rewrite decide_False by set_solver.
Qed.

Lemma applyAll_org now orgs p pluginOrg payloads s :
  s ∈ applyAllForOrg now orgs p pluginOrg payloads → sc_OrgID s = attributeOrg orgs pluginOrg (sc_TraceID s).
Proof.
  unfold applyAllForOrg. rewrite list_elem_of_omap. intros (raw & _ & H). destruct (Apply _ _ _ _); [|done]. by injection H as <-.
Qed.

(** A vendor cannot write scores into another org.  Every score a webhook delivery
    stores for a trace of an org other than the default one is filed under that org,
    when the plugin belongs to it or to the whole installation, and under no org
    otherwise; the body of the delivery has no say. *)
Theorem webhook_scores_attributed (now : Time) (f : string → option string) (r : gmap string PRecord) (name body : string)
    (scores : list Score) (s : Score) (o : string) :
  Webhook now (Some f) r name body = Ok scores → s ∈ scores →
  TrimSpace (sc_TraceID s) ≠ "" → f (sc_TraceID s) = Some o → o ≠ "" → o ≠ "default" →
  ∃ rec, Lookup name r = Some rec ∧
    sc_OrgID s = if decide (NormalizeOrgID (pr_OrgID rec) ∈ [""; o]) then o else UnattributedOrgID.
Proof.
  unfold Webhook. intros H Hs Hid Hf Ho Hd. destruct (Lookup name r) as [rec|]; [|done]. destruct (negb _); [done|].
  injection H as <-. exists rec. split; [done|]. rewrite (applyAll_org _ _ _ _ _ _ Hs). by apply attributeOrg_trace.
Qed.

(** Traces of the default org are the exception: its name reads as no org, so a
    score that an org's plugin delivers for one is filed under the plugin's org, and
    one that an installation-wide plugin delivers under none. *)
Theorem default_org_score_misfiled (f : string → option string) (pluginOrg id : string) :
  f id = Some "default" →
  attributeOrg (Some f) pluginOrg id = if decide (pluginOrg ∈ [""; "default"]) then UnattributedOrgID else pluginOrg.
Proof.
  intros Hf. unfold attributeOrg. rewrite Hf. destruct (String.eqb (TrimSpace id) ""); cbn.
  all: unfold NormalizeOrgID; destruct (String.eqb_spec pluginOrg "default") as [->|]; cbn; [by rewrite decide_True by set_solver|].
  all: destruct (String.eqb_spec pluginOrg "") as [->|]; cbn; [by rewrite decide_True by set_solver|by rewrite decide_False by set_solver].
Qed.

(** ** Redaction of what leaves *)

(** Redaction reaches the texts of a payload and nothing else: each text of a
    payload that a manifest spells out leaves with its e-mail addresses masked, and a
    manifest that spells out none sends the whole trace as it was recorded. *)
Theorem redaction_covers_texts_only (adapters : list string) (execute : string → Trace → option string)
    (secrets : option (AuthSpec → option (list string))) (t : Trace) (p : Plugin) (tg : Target) (payload : gmap string payload_value) :
  Dispatch adapters execute secrets t p = Some (tg, payload) → one_of (sd_Redact (pl_Send p)) "pii" = true →
  (sd_Payload (pl_Send p) = ∅ → payload = {["trace" := VTrace t]}) ∧
  (sd_Payload (pl_Send p) ≠ ∅ → ∀ k v, payload !! k = Some v → ∃ s, v = VText (redact_email s)).
Proof.
  unfold Dispatch. intros H Hr. destruct (negb _); [done|]. unfold renderPayload, redactPayload in H. rewrite Hr in H.
  destruct (decide (sd_Payload (pl_Send p) = ∅)) as [He|Hne].
  - destruct (resolveAuth _ _); [|done]. injection H as _ <-. split; [|done]. intros _. by rewrite map_fmap_singleton.
  - destruct (existsb _ _); [done|]. destruct (resolveAuth _ _); [|done]. injection H as _ <-. split; [done|]. intros _ k v Hv.
    rewrite lookup_fmap, lookup_omap in Hv. destruct ((_ <$> sd_Payload (pl_Send p)) !! k) as [[s|]|]; cbn in Hv; [|done|done].
    injection Hv as <-. by exists s.
Qed.

(** ** Witnesses *)

Definition toy_plugin (endpoint trigger : string) : Plugin :=
  mkPlugin PluginAPIVersion pluginKindExpected "vendor"
    (mkService "webhook" endpoint (mkAuth "vault/key" "" "") "" ∅)
    (mkSend trigger fone ∅ ["pii"]) (mkCollect "webhook" "" Second (mkMapping "" "score" "" "" "" "")) 0 [].

Definition toy_rec (org endpoint trigger : string) (src : SourceKind) : PRecord :=
  mkRecord (toy_plugin endpoint trigger) src "" true org.

Definition toy_reg : gmap string PRecord :=
  snd (Merge [Some (toy_rec "" "https://all.example" TriggerOnTrace SourceHelm); Some (toy_rec "acme" "https://acme.example" TriggerOnTrace SourceHelm)] ∅).

Definition toy_ptrace (org : string) : Trace :=
  mkTrace (mkBase "t1" "" "" 0 org "u" "" "" "" fzero fzero 0 "" "" "" "" "" "") "" "gpt" "" 0 0 "stop" false 0 0 fzero 200 "" "" "" "hello" false [] [] "" "".

Definition toy_secrets : option (AuthSpec → option (list string)) := Some (fun a => Some ["Bearer k"]).

Lemma toy_reg_ok : reg_ok toy_reg.
Proof. apply Merge_ok. by intros k rec; rewrite lookup_empty. Qed.

Lemma helm_wins_witness :
  ∃ e', snd (Merge [Some (toy_rec "acme" "https://evil.example" TriggerOnTrace SourceDatabase)] toy_reg) !! recordKey "acme" "vendor" = Some e' ∧
        pr_Source e' = SourceHelm.
Proof.
  apply (helm_wins [Some (toy_rec "acme" "https://evil.example" TriggerOnTrace SourceDatabase)] toy_reg (recordKey "acme" "vendor")
    (toy_rec "acme" "https://acme.example" TriggerOnTrace SourceHelm)); [apply toy_reg_ok|vm_compute; reflexivity|reflexivity].
Defined.

Lemma org_plugins_exact_witness :
  toy_rec "acme" "https://acme.example" TriggerOnTrace SourceHelm ∈ EnabledForOrg "acme" (map snd (map_to_list toy_reg)).
Proof.
  apply (org_plugins_exact toy_reg (map snd (map_to_list toy_reg)) "acme" _ toy_reg_ok (reflexivity _)). split; [|split; [reflexivity|by left]].
  apply (visits_spec _ toy_reg _ (reflexivity _)). exists (recordKey "acme" "vendor"). vm_compute. reflexivity.
Defined.

Lemma inline_dispatch_own_org_witness :
  ∃ tg payload rec, fo_sent (fst (multi_Evaluate ["webhook"] (fun _ _ => None) toy_secrets false ∅ (toy_ptrace "acme")
      (map snd (map_to_list toy_reg)) ((fun _ => fzero), 0%nat) None)) = [(tg, payload)] ∧
    pr_OrgID rec = "acme" ∧ tg_Endpoint tg = ss_Endpoint (pl_Service (pr_Plugin rec)) ∧ tg_Endpoint tg = "https://acme.example".
Proof.
  eexists _, _, (toy_rec "acme" "https://acme.example" TriggerOnTrace SourceHelm). split; [vm_compute; reflexivity|]. split; [reflexivity|].
  edestruct (inline_dispatch_own_org ["webhook"] (fun _ _ => None) toy_secrets false ∅ (toy_ptrace "acme") (map snd (map_to_list toy_reg))
    ((fun _ => fzero), 0%nat) None) as (rec & _); [vm_compute; left|]. split; reflexivity.
Defined.

Lemma scheduler_fifo_witness :
  let p := toy_plugin "https://acme.example" TriggerScheduled in
  ∃ log s, SchedSpec.accepted "vendor" log = [toy_ptrace "acme"] ∧
    SchedSpec.accepted "vendor" log = (SchedSpec.out "vendor" s ++ SchedSpec.queued "vendor" s)%list.
Proof.
  intros p. set (s := snd (Sched.Enqueue p (toy_ptrace "acme") (Sched.NewScheduler 2))).
  exists [("vendor", toy_ptrace "acme")], s. split; [reflexivity|].
  apply (SchedSpec.scheduler_fifo 2); [|reflexivity]. apply rtc_once. apply (SchedSpec.l_enqueue p (toy_ptrace "acme") [] (Sched.NewScheduler 2)).
Defined.

Lemma scheduler_mixes_orgs_witness :
  let a := toy_rec "acme" "https://acme.example" TriggerScheduled SourceHelm in
  let b := toy_rec "rival" "https://rival.example" TriggerScheduled SourceHelm in
  ∃ s3, Sched.drain_one (pr_Plugin b) "vendor" (snd (Sched.Enqueue (pr_Plugin a) (toy_ptrace "acme") (Sched.reconcile [a; b] (Sched.NewScheduler 8)))) = Some s3 ∧
        Sched.dispatched s3 = [(pr_Plugin b, toy_ptrace "acme")].
Proof.
  intros a b. pose proof (scheduler_mixes_orgs a b (toy_ptrace "acme") 8 eq_refl eq_refl eq_refl ltac:(reflexivity)) as H.
  cbv beta zeta in H. destruct (Sched.Enqueue _ _ _) as [r s2]. destruct H as (_ & _ & H). exact H.
Defined.

Definition toy_delivery : string := "{" +:+ dq +:+ "trace_id" +:+ dq +:+ ":" +:+ dq +:+ "t1" +:+ dq +:+ "," +:+ dq +:+ "score" +:+ dq +:+ ":1}".

Lemma webhook_scores_attributed_witness :
  ∃ s, Webhook 0 (Some (fun _ => Some "acme")) toy_reg "vendor" toy_delivery = Ok [s] ∧ sc_OrgID s = "acme".
Proof.
  eexists. split; [vm_compute; reflexivity|].
  edestruct (webhook_scores_attributed 0 (fun _ => Some "acme") toy_reg "vendor" toy_delivery) as (rec & Hl & Ho);
    [vm_compute; reflexivity|left|discriminate|reflexivity|discriminate|discriminate|].
  assert (NormalizeOrgID (pr_OrgID rec) = "") as He by (vm_compute in Hl; by injection Hl as <-). rewrite He in Ho. exact Ho.
Defined.

Lemma default_org_score_misfiled_witness : attributeOrg (Some (fun _ => Some "default")) "acme" "t1" = "acme".
Proof. exact (default_org_score_misfiled (fun _ => Some "default") "acme" "t1" eq_refl). Defined.

Lemma redaction_covers_texts_only_witness :
  ∃ tg payload, Dispatch ["webhook"] (fun _ _ => None) toy_secrets (toy_ptrace "acme") (toy_plugin "https://acme.example" TriggerOnTrace) = Some (tg, payload) ∧
    payload = {["trace" := VTrace (toy_ptrace "acme")]}.
Proof.
  eexists _, _. split; [vm_compute; reflexivity|].
  apply (redaction_covers_texts_only ["webhook"] (fun _ _ => None) toy_secrets (toy_ptrace "acme") (toy_plugin "https://acme.example" TriggerOnTrace)
    (mkTarget "https://acme.example" ["Bearer k"] (toy_plugin "https://acme.example" TriggerOnTrace) (toy_ptrace "acme"))); [vm_compute; reflexivity|reflexivity|reflexivity].
Defined.

(** ** The registry and its store *)
Section Reconciled.
Context (decode : string → option Plugin) (decode_valid : ∀ y p, decode y = Some p → plugin_Validate p = None).

(** A fold over the entries of a map that works on one key at a time. *)
Lemma fold_keys {S A} (f : gmap string A * Z → string * S → gmap string A * Z) (g : string → S → option A → option A * Z)
    (Hf : ∀ m c k x, (∀ k', fst (f (m, c) (k, x)) !! k' = if decide (k = k') then fst (g k x (m !! k)) else m !! k') ∧
                     snd (f (m, c) (k, x)) = c + snd (g k x (m !! k))) l m c :
  NoDup (map fst l) →
  (∀ k x, (k, x) ∈ l → fst (fold_left f l (m, c)) !! k = fst (g k x (m !! k))) ∧
  (∀ k, k ∉ map fst l → fst (fold_left f l (m, c)) !! k = m !! k) ∧
  snd (fold_left f l (m, c)) = c + foldr (fun kx n => snd (g (fst kx) (snd kx) (m !! fst kx)) + n) 0 l.
Proof.
  revert m c. induction l as [|[k x] l IH]; intros m c Hnd; cbn.
  { split_and!; [by intros k x ?%elem_of_nil|done|lia]. }
  apply NoDup_cons in Hnd as [Hk Hnd]. destruct (f (m, c) (k, x)) as [m1 c1] eqn:Ef.
  destruct (Hf m c k x) as [Hm Hc]. rewrite Ef in Hm, Hc. cbn in Hm, Hc. destruct (IH m1 c1 Hnd) as (H1 & H2 & H3). split_and!.
  - intros k' x' [[= -> ->]|Hin]%elem_of_cons.
    + rewrite H2 by done. by rewrite Hm, decide_True.
    + rewrite (H1 _ _ Hin), Hm, decide_False; [done|]. intros ->. apply Hk. apply list_elem_of_fmap. by exists (k', x').
  - intros k' Hn. apply not_elem_of_cons in Hn as [Hne Hn]. rewrite H2 by done. by rewrite Hm, decide_False.
  - rewrite H3, Hc. rewrite <- Z.add_assoc. f_equal. f_equal. clear -Hk Hm. induction l as [|[k' x'] l IHl]; cbn; [done|].
    cbn in Hk. apply not_elem_of_cons in Hk as [Hne Hk]. by rewrite (IHl Hk), Hm, decide_False.
Qed.

(** What the two loops do at one key. *)
Definition put_at (_ : string) (rec : PRecord) (o : option PRecord) : option PRecord * Z :=
  match o with
  | Some e => if decide (pr_Source e = SourceHelm) then (o, 0) else if sameRecord e rec then (o, 0) else (Some rec, 1)
  | None => (Some rec, 1)
  end.
Definition evict_at (want : gmap string PRecord) (k : string) (e : PRecord) (o : option PRecord) : option PRecord * Z :=
  if decide (pr_Source e = SourceDatabase) then match want !! k with Some _ => (o, 0) | None => (None, 1) end else (o, 0).

Lemma fold_in_at m c k x :
  (∀ k', fst (fold_in (m, c) (k, x)) !! k' = if decide (k = k') then fst (put_at k x (m !! k)) else m !! k') ∧
  snd (fold_in (m, c) (k, x)) = c + snd (put_at k x (m !! k)).
Proof.
  unfold fold_in, put_at. destruct (m !! k) as [e|] eqn:E; [destruct (decide _); [|destruct (sameRecord _ _)]|]; cbn.
  all: split; [|lia]; intros k'; destruct (decide (k = k')) as [<-|]; by rewrite ?E, ?lookup_insert_eq, ?lookup_insert_ne.
Qed.

Lemma evict_at_spec want m c k x :
  (∀ k', fst (evict want (m, c) (k, x)) !! k' = if decide (k = k') then fst (evict_at want k x (m !! k)) else m !! k') ∧
  snd (evict want (m, c) (k, x)) = c + snd (evict_at want k x (m !! k)).
Proof.
  unfold evict, evict_at. destruct (decide _); [destruct (want !! k)|]; cbn.
  all: split; [|lia]; intros k'; destruct (decide (k = k')) as [<-|]; by rewrite ?lookup_delete_eq, ?lookup_delete_ne.
Qed.

Lemma desired_ok rows k rec : desired decode rows !! k = Some rec →
  k = recordKey (pr_OrgID rec) (rec_name rec) ∧ plugin_Validate (pr_Plugin rec) = None ∧ pr_Source rec = SourceDatabase ∧
  ∃ row, row ∈ rows ∧ row_record decode row = Some rec.
Proof.
  unfold desired. assert (∀ l (m : gmap string PRecord), (∀ x, x ∈ l → x ∈ rows) → (∀ k rec, m !! k = Some rec →
    k = recordKey (pr_OrgID rec) (rec_name rec) ∧ plugin_Validate (pr_Plugin rec) = None ∧ pr_Source rec = SourceDatabase ∧
    ∃ row, row ∈ rows ∧ row_record decode row = Some rec) → ∀ k rec,
    fold_left (fun m row => match row_record decode row with Some rec => <[recordKey (pr_OrgID rec) (rec_name rec) := rec]> m | None => m end) l m !! k = Some rec →
    k = recordKey (pr_OrgID rec) (rec_name rec) ∧ plugin_Validate (pr_Plugin rec) = None ∧ pr_Source rec = SourceDatabase ∧
    ∃ row, row ∈ rows ∧ row_record decode row = Some rec) as H.
  { clear k rec. induction l as [|row l IH]; intros m Hl Hm; [done|]. cbn. apply IH; [intros x Hx; apply Hl; by right|].
    intros k rec. destruct (row_record decode row) as [r|] eqn:Er; [|apply Hm]. destruct (decide (recordKey (pr_OrgID r) (rec_name r) = k)) as [<-|].
    - rewrite lookup_insert_eq. intros [= <-]. pose proof Er as Er'. unfold row_record in Er. destruct (decode (pw_SpecYAML row)) as [p|] eqn:Ed; [|done].
      injection Er as <-. split_and!; [done|by apply (decode_valid _ _ Ed)|done|]. exists row. split; [apply Hl; by left|done].
    - rewrite lookup_insert_ne by done. apply Hm. }
  apply H; [done|]. intros ? ?. by rewrite lookup_empty.
Qed.

Lemma sameRecord_eq e rec k : pr_Source e ≠ SourceHelm → pr_Source rec = SourceDatabase →
  k = recordKey (pr_OrgID e) (rec_name e) → k = recordKey (pr_OrgID rec) (rec_name rec) → plugin_Validate (pr_Plugin rec) = None →
  sameRecord e rec = true → e = rec.
Proof.
  intros Hh Hs Hk Hk' Hv [[H1%Bool.eqb_prop H2%String.eqb_eq]%andb_prop H3%bool_decide_eq_true]%andb_prop.
  destruct e as [p s rf en o], rec as [p' s' rf' en' o']; cbn in *. subst p' s' rf' en'. rewrite Hk in Hk'.
  apply recordKey_inj in Hk' as [-> _]; [|by apply valid_name_no_nul..]. by destruct s.
Qed.

Definition reconciled (rows : list PluginRecord) (r : gmap string PRecord) (key : string) : option PRecord :=
  match r !! key with
  | Some e => if decide (pr_Source e = SourceHelm) then Some e else desired decode rows !! key
  | None => desired decode rows !! key
  end.

Lemma reconcile_steps rows r : reg_ok r →
  let want := desired decode rows in
  let r1 := fst (fold_left fold_in (map_to_list want) (r, 0)) in
  (∀ k, r1 !! k = match want !! k with Some rec => fst (put_at k rec (r !! k)) | None => r !! k end) ∧
  (∀ k, snd (ReconcileFromStore decode rows r) !! k = match r1 !! k with Some e => fst (evict_at want k e (Some e)) | None => None end).
Proof.
  intros Hr want r1. unfold ReconcileFromStore. fold want. subst r1.
  destruct (fold_keys fold_in put_at fold_in_at (map_to_list want) r 0 (NoDup_fst_map_to_list want)) as (H1 & H2 & _).
  destruct (fold_left fold_in (map_to_list want) (r, 0)) as [r1 n1]. cbn [fst] in *.
  destruct (fold_keys (evict want) (evict_at want) (evict_at_spec want) (map_to_list r1) r1 n1 (NoDup_fst_map_to_list r1)) as (E1 & E2 & _).
  destruct (fold_left (evict want) (map_to_list r1) (r1, n1)) as [r2 n2]. cbn [fst snd] in *. split.
  - intros k. destruct (want !! k) as [rec|] eqn:Ew; [apply H1; by apply elem_of_map_to_list|]. apply H2.
    intros ([k' rec] & -> & Hin%elem_of_map_to_list)%list_elem_of_fmap. cbn in Ew. congruence.
  - intros k. destruct (r1 !! k) as [e|] eqn:E; [rewrite (E1 k e) by (by apply elem_of_map_to_list); by rewrite E|].
    rewrite E2, E; [done|]. intros ([k' e] & -> & Hin%elem_of_map_to_list)%list_elem_of_fmap. cbn in E. congruence.
Qed.

(** A reconciliation leaves exactly what the store asks for: under each key what
    came from Helm stays, and otherwise the record of the row that decodes to that
    key, or nothing.  The registry stays well formed. *)
Theorem reconcile_exact (rows : list PluginRecord) (r : gmap string PRecord) (key : string) :
  reg_ok r →
  snd (ReconcileFromStore decode rows r) !! key = reconciled rows r key ∧ reg_ok (snd (ReconcileFromStore decode rows r)).
Proof.
  intros Hr. assert (∀ k, snd (ReconcileFromStore decode rows r) !! k = reconciled rows r k) as Hk.
  { intros k. destruct (reconcile_steps rows r Hr) as [H1 H2]. rewrite H2, H1. unfold reconciled, put_at, evict_at.
    destruct (desired decode rows !! k) as [rec|] eqn:Ew; destruct (r !! k) as [e|] eqn:E.
    - destruct (desired_ok _ _ _ Ew) as (Hkey & Hv & Hs & _). destruct (Hr _ _ E) as [Hke _].
      destruct (decide (pr_Source e = SourceHelm)) as [He|He]; cbn; [by destruct (decide _)|].
      destruct (sameRecord e rec) eqn:Es; cbn; [rewrite (sameRecord_eq e rec k) by done|]; by destruct (decide _).
    - cbn. by destruct (decide _).
    - destruct (decide (pr_Source e = SourceHelm)) as [He|He]; [by rewrite He|]. by destruct (pr_Source e).
    - done. }
  split; [apply Hk|]. intros k rec Hrec. rewrite Hk in Hrec. unfold reconciled in Hrec.
  destruct (r !! k) as [e|] eqn:E; [destruct (decide _); [injection Hrec as <-; by apply Hr|]|].
  all: by destruct (desired_ok _ _ _ Hrec) as (? & ? & _).
Qed.

(** A row that no longer decodes takes its plugin down: with no other row for the
    key, the record that the registry had from the store is evicted. *)
Theorem undecodable_row_evicts (rows : list PluginRecord) (r : gmap string PRecord) (org name : string) (e : PRecord) :
  reg_ok r → r !! recordKey org name = Some e → pr_Source e = SourceDatabase →
  (∀ row rec, row ∈ rows → row_record decode row = Some rec → recordKey (pr_OrgID rec) (rec_name rec) ≠ recordKey org name) →
  snd (ReconcileFromStore decode rows r) !! recordKey org name = None.
Proof.
  intros Hr He Hs Hno. rewrite (proj2 (reconcile_steps rows r Hr)), (proj1 (reconcile_steps rows r Hr)).
  destruct (desired decode rows !! recordKey org name) as [rec|] eqn:Ew.
  - destruct (desired_ok _ _ _ Ew) as (Hk & _ & _ & row & Hin & Hrow). destruct (Hno _ _ Hin Hrow). done.
  - rewrite He. unfold evict_at. by rewrite Hs, Ew.
Qed.
End Reconciled.

Definition toy_decode (y : string) : option Plugin :=
  if String.eqb y "good" then Some (toy_plugin "https://store.example" TriggerOnTrace) else None.
Lemma toy_decode_valid y p : toy_decode y = Some p → plugin_Validate p = None.
Proof. unfold toy_decode. destruct (String.eqb y "good"); [|done]. intros [= <-]. vm_compute. reflexivity. Qed.

Definition toy_row (spec : string) : PluginRecord := mkRow "plg_1" "beta" "vendor" spec true 0 0.
Definition toy_stored : gmap string PRecord :=
  snd (Merge [Some (mkRecord (toy_plugin "https://store.example" TriggerOnTrace) SourceDatabase "plg_1" true "beta")] toy_reg).

Lemma reconcile_exact_witness :
  snd (ReconcileFromStore toy_decode [toy_row "good"] toy_reg) !! recordKey "beta" "vendor" =
  Some (mkRecord (toy_plugin "https://store.example" TriggerOnTrace) SourceDatabase "plg_1" true "beta").
Proof.
  rewrite (proj1 (reconcile_exact toy_decode toy_decode_valid [toy_row "good"] toy_reg (recordKey "beta" "vendor") toy_reg_ok)).
  vm_compute. reflexivity.
Defined.

Lemma undecodable_row_evicts_witness :
  snd (ReconcileFromStore toy_decode [toy_row "newer"] toy_stored) !! recordKey "beta" "vendor" = None.
Proof.
  eapply (undecodable_row_evicts toy_decode toy_decode_valid [toy_row "newer"] toy_stored "beta" "vendor").
  - apply Merge_ok, toy_reg_ok.
  - vm_compute. reflexivity.
  - reflexivity.
  - intros row rec ->%list_elem_of_singleton H. vm_compute in H. discriminate H.
Defined.
