(* ===== verification/Migrate.v ===== *)
(** * Migrate: src/internal/migrate, src/internal/health and the schema at boot

    Discovery of migrations and the run that applies them (migrate.go), the two
    executors (postgres.go, clickhouse.go), the readiness gate (health/gate.go) and
    what a starting server does about its schema (cmd/nexus/schema_boot.go,
    cmd/nexus/migrate_cmd.go).

    A database is a schema of any type [S], on which a text of SQL acts as
    [exec : string → S → option S], its ledger, and the way its next calls go:
    each call takes one [call] off [weather], so every failure of a connection is a
    behaviour of the model.  [sha] stands for the hex SHA-256 of a file. *)

From S2P Require Import Prelude GoString GoSort Net.
Local Open Scope string_scope.
Local Open Scope Z_scope.
Local Open Scope go_scope.

(** ** migrate.go: the data *)

Inductive Engine := EnginePostgres | EngineClickHouse.
Definition engine_name (e : Engine) : string := match e with EnginePostgres => "postgres" | EngineClickHouse => "clickhouse" end.

Record Migration := mkMigration { mg_ID : string; mg_Engine : Engine; mg_Ordinal : Z; mg_Name : string; mg_SQL : string; mg_Checksum : string }.
Record LedgerEntry := mkEntry { le_Checksum : string; le_Success : bool }.
#[export] Instance LedgerEntry_eq_dec : EqDecision LedgerEntry.
Proof. solve_decision. Defined.

Record MigrateOptions := mkMOptions { mo_DryRun : bool; mo_AllowChecksumDrift : bool }.
Record Result := mkResult { rs_Applied : list string; rs_Skipped : list string; rs_Pending : list string; rs_Adopted : bool }.
Definition no_result : Result := mkResult [] [] [] false.

Inductive migrate_err :=
| NoDirectory | BadName (file : string) | DuplicateOrdinal (prev file : string) | Unreadable (file : string) | NoFiles
| LockFailed | LedgerFailed | AppliedFailed | ErrChecksumMismatch (id : string) | ApplyFailed (id : string).

(** ** Discovery *)

(** [ordinalOf]: the number before the first underscore. *)
Definition ordinalOf (name : string) : option Z :=
  match IndexByte name "_" with
  | Some (S i) => Atoi (take_bytes (S i) name)
  | _ => None
  end.

(** An entry of a directory: its name, whether it is one, and the text of the file
    if it can be read. *)
Record dirent := mkDirent { de_Name : string; de_IsDir : bool; de_Body : option string }.

Definition is_sql (e : dirent) : bool := negb (de_IsDir e) && HasSuffix (de_Name e) ".sql".

Section Load.
Context (sha : string → string) (engine : Engine).

Definition migration_of (name : string) (ord : Z) (body : string) : Migration :=
  mkMigration (engine_name engine +:+ "/" +:+ name) engine ord name body (sha body).

Fixpoint load_loop (entries : list dirent) (seen : gmap Z string) : res migrate_err (list Migration) :=
  match entries with
  | [] => Ok []
  | e :: rest =>
      if negb (is_sql e) then load_loop rest seen
      else match ordinalOf (de_Name e) with
      | None => Err (BadName (de_Name e))
      | Some ord =>
          match seen !! ord with
          | Some prev => Err (DuplicateOrdinal prev (de_Name e))
          | None =>
              match de_Body e with
              | None => Err (Unreadable (de_Name e))
              | Some body =>
                  match load_loop rest (<[ord := de_Name e]> seen) with
                  | Err x => Err x
                  | Ok out => Ok (migration_of (de_Name e) ord body :: out)
                  end
              end
          end
      end
  end.

Definition ordinal_less (a b : Migration) : bool := mg_Ordinal a <? mg_Ordinal b.

(** [Load]; the ordinals differ, so the sort need not be stable. *)
Definition Load (entries : option (list dirent)) : res migrate_err (list Migration) :=
  match entries with
  | None => Err NoDirectory
  | Some es =>
      match load_loop es ∅ with
      | Err x => Err x
      | Ok [] => Err NoFiles
      | Ok out => Ok (SliceStable ordinal_less out)
      end
  end.
End Load.

(** ** The executors' interface, [Pending] and [Run] *)

(** [Executor] on a state [D] of the database; [ex_Apply] answers whether it succeeded. *)
Class Executor (D : Type) := {
  ex_EnsureLedger : D → bool * D;
  ex_Applied : D → option (gmap string LedgerEntry) * D;
  ex_Apply : Migration → D → bool * D;
  ex_Lock : D → bool * D;
  ex_SchemaExists : D → option bool * D
}.

Section Run.
Context {D : Type} `{Executor D}.

Definition absent (applied : gmap string LedgerEntry) (m : Migration) : bool :=
  match applied !! mg_ID m with None => true | Some _ => false end.

Definition Pending (migs : list Migration) (d : D) : res migrate_err (list string) * D :=
  let '(ok, d) := ex_EnsureLedger d in
  if negb ok then (Err LedgerFailed, d)
  else let '(applied, d) := ex_Applied d in
  match applied with
  | None => (Err AppliedFailed, d)
  | Some applied => (Ok (map mg_ID (List.filter (absent applied) migs)), d)
  end.

(** The read-only path. *)
Definition dry_run (migs : list Migration) (d : D) : res migrate_err Result * D :=
  let '(ok, d) := ex_EnsureLedger d in
  if negb ok then (Err LedgerFailed, d)
  else let '(applied, d) := ex_Applied d in
  match applied with
  | None => (Err AppliedFailed, d)
  | Some applied =>
      (Ok (mkResult [] (map mg_ID (List.filter (fun m => negb (absent applied m)) migs)) (map mg_ID (List.filter (absent applied) migs)) false), d)
  end.

(** One turn of the loop of [Run] for [m], with the ledger read under the lock. *)
Definition run_one (drift : bool) (applied : gmap string LedgerEntry) (m : Migration) (res : Result) (d : D) : Result * option migrate_err * D :=
  match applied !! mg_ID m with
  | Some prev =>
      if negb (String.eqb (le_Checksum prev) (mg_Checksum m)) && negb drift then (res, Some (ErrChecksumMismatch (mg_ID m)), d)
      else (mkResult (rs_Applied res) (rs_Skipped res ++ [mg_ID m])%list (rs_Pending res) (rs_Adopted res), None, d)
  | None =>
      let '(ok, d) := ex_Apply m d in
      if negb ok then (res, Some (ApplyFailed (mg_ID m)), d)
      else (mkResult (rs_Applied res ++ [mg_ID m])%list (rs_Skipped res) (rs_Pending res) (rs_Adopted res), None, d)
  end.

Fixpoint run_loop (drift : bool) (applied : gmap string LedgerEntry) (migs : list Migration) (res : Result) (d : D) : Result * option migrate_err * D :=
  match migs with
  | [] => (res, None, d)
  | m :: rest =>
      match run_one drift applied m res d with
      | (res, Some e, d) => (res, Some e, d)
      | (res, None, d) => run_loop drift applied rest res d
      end
  end.

(** [Run]: the result so far, and the error if there is one. *)
Definition Run (opts : MigrateOptions) (migs : list Migration) (d : D) : Result * option migrate_err * D :=
  if mo_DryRun opts then
    match dry_run migs d with (Ok r, d) => (r, None, d) | (Err e, d) => (no_result, Some e, d) end
  else
    let '(locked, d) := ex_Lock d in
    if negb locked then (no_result, Some LockFailed, d)
    else let '(ok, d) := ex_EnsureLedger d in
    if negb ok then (no_result, Some LedgerFailed, d)
    else let '(applied, d) := ex_Applied d in
    match applied with
    | None => (no_result, Some AppliedFailed, d)
    | Some applied =>
        if decide (applied = ∅) then
          let '(existing, d) := ex_SchemaExists d in
          match existing with
          | None => (no_result, Some AppliedFailed, d)
          | Some b => run_loop (mo_AllowChecksumDrift opts) applied migs (mkResult [] [] [] b) d
          end
        else run_loop (mo_AllowChecksumDrift opts) applied migs no_result d
    end.
End Run.

(** ** The databases *)

(** How a call goes: it works, it breaks before it does anything, it meets an object
    that another session has just created, or it is done and its answer is lost. *)
Inductive call := Works | Breaks | Collides | LostReply.
#[export] Instance call_eq_dec : EqDecision call.
Proof. solve_decision. Defined.

Record database (S : Type) := mkDb { schema : S; ledger : option (gmap string LedgerEntry); weather : list call }.
Arguments mkDb {_} _ _ _.
Arguments schema {_} _.
Arguments ledger {_} _.
Arguments weather {_} _.

Section Databases.
Context {S : Type} (exec : string → S → option S) (has_tables : S → bool).

Definition next (d : database S) : call * database S :=
  match weather d with
  | [] => (Works, d)
  | c :: w => (c, mkDb (schema d) (ledger d) w)
  end.

Definition with_ledger (l : option (gmap string LedgerEntry)) (d : database S) : database S := mkDb (schema d) l (weather d).
Definition rows_of (d : database S) : gmap string LedgerEntry := default ∅ (ledger d).
Definition succeeded (l : gmap string LedgerEntry) : gmap string LedgerEntry := filter (fun kv => le_Success (snd kv) = true) l.

(** [CREATE TABLE IF NOT EXISTS]. *)
Definition create_ledger (d : database S) : database S := with_ledger (Some (rows_of d)) d.

(** An upsert of one row, if the table is there. *)
Definition upsert (id : string) (e : LedgerEntry) (d : database S) : database S := with_ledger (insert id e <$> ledger d) d.

(** postgres.go *)
Definition pg_EnsureLedger (d : database S) : bool * database S :=
  match next d with
  | (Works, d) | (Collides, d) => (true, create_ledger d)
  | (Breaks, d) => (false, d)
  | (LostReply, d) => (false, create_ledger d)
  end.

Definition read_ledger (d : database S) : option (gmap string LedgerEntry) * database S :=
  match next d with
  | (Works, d) => (succeeded <$> ledger d, d)
  | (_, d) => (None, d)
  end.

Definition recordFailure (m : Migration) (d : database S) : database S :=
  match next d with
  | (Works, d) | (LostReply, d) => upsert (mg_ID m) (mkEntry (mg_Checksum m) false) d
  | (_, d) => d
  end.

(** [Apply]: one transaction for the file and its ledger row. *)
Definition pg_Apply (m : Migration) (d : database S) : bool * database S :=
  match next d with
  | (Works, d) =>
      match next d with
      | (c, d) =>
          match (if decide (c = Works) then exec (mg_SQL m) (schema d) else None) with
          | None => (false, recordFailure m d)
          | Some s =>
              match next d, ledger d with
              | (Works, d), Some l =>
                  let '(c, d) := next d in
                  let committed := mkDb s (Some (<[mg_ID m := mkEntry (mg_Checksum m) true]> l)) (weather d) in
                  match c with Works => (true, committed) | LostReply => (false, committed) | _ => (false, d) end
              | (_, d), _ => (false, d)
              end
          end
      end
  | (_, d) => (false, d)
  end.

Definition plain_call (d : database S) : bool * database S := match next d with (Works, d) => (true, d) | (_, d) => (false, d) end.

Definition db_probe (d : database S) : option bool * database S :=
  match next d with (Works, d) => (Some (has_tables (schema d)), d) | (_, d) => (None, d) end.

(** The executor on Postgres; [Lock] is [pg_advisory_lock]. *)
#[local] Instance pgExecutor : Executor (database S) := {|
  ex_EnsureLedger := pg_EnsureLedger; ex_Applied := read_ledger; ex_Apply := pg_Apply; ex_Lock := plain_call; ex_SchemaExists := db_probe |}.
End Databases.

(** ** clickhouse.go *)

Definition lf : string := bytes [10%nat].

(** [strings.Index]. *)
Fixpoint Index (s sub : string) : option nat :=
  if HasPrefix s sub then Some 0%nat
  else match s with "" => None | String _ s' => (fun i => S i) <$> Index s' sub end.

Definition trim_semicolon (s : string) : string :=
  if HasSuffix s ";" then take_bytes (String.length s - 1) s else s.

(** A statement of the lines gathered, if anything is left of it. *)
Definition finish (lines : list string) : list string :=
  let joined := trim_semicolon (TrimSpace (Join lines lf)) in
  if String.eqb joined "" then [] else [joined].

(** The line without its comment. *)
Definition strip_comment (line : string) : string :=
  match Index line " -- " with Some i => take_bytes i line | None => line end.

Fixpoint split_loop (lines stmt : list string) : list string :=
  match lines with
  | [] => match stmt with [] => [] | _ => finish stmt end
  | line :: rest =>
      if HasPrefix (TrimSpace line) "--" then split_loop rest stmt
      else
        let line := strip_comment line in
        if String.eqb (TrimSpace line) "" then split_loop rest stmt
        else
          let stmt := (stmt ++ [line])%list in
          if negb (HasSuffix (TrimSpace line) ";") then split_loop rest stmt
          else (finish stmt ++ split_loop rest [])%list
  end.

Definition splitCHStatements (sql : string) : list string := split_loop (Split sql (ascii_of_nat 10)) [].

Definition hasSQL (stmt : string) : bool :=
  existsb (fun line => let l := TrimSpace line in negb (String.eqb l "") && negb (HasPrefix l "--")) (Split stmt (ascii_of_nat 10)).

Section ClickHouse.
Context {S : Type} (exec : string → S → option S) (has_tables : S → bool).

(** The statements one by one, up to the first that fails. *)
Fixpoint ch_statements (stmts : list string) (d : database S) : bool * database S :=
  match stmts with
  | [] => (true, d)
  | stmt :: rest =>
      if negb (hasSQL stmt) then ch_statements rest d
      else let '(c, d) := next d in
      match c, exec (TrimSpace stmt) (schema d) with
      | Works, Some s => ch_statements rest (mkDb s (ledger d) (weather d))
      | LostReply, Some s => (false, mkDb s (ledger d) (weather d))
      | _, _ => (false, d)
      end
  end.

Definition record (m : Migration) (ok : bool) (d : database S) : database S :=
  match next d with
  | (Works, d) | (LostReply, d) => upsert (mg_ID m) (mkEntry (mg_Checksum m) ok) d
  | (_, d) => d
  end.

Definition ch_Apply (m : Migration) (d : database S) : bool * database S :=
  let '(ok, d) := ch_statements (splitCHStatements (mg_SQL m)) d in (ok, record m ok d).

Definition ch_EnsureLedger (d : database S) : bool * database S :=
  match next d with
  | (Works, d) => (true, create_ledger d)
  | (LostReply, d) => (false, create_ledger d)
  | (_, d) => (false, d)
  end.

(** The executor on ClickHouse: its lock does nothing. *)
#[local] Instance chExecutor : Executor (database S) := {|
  ex_EnsureLedger := ch_EnsureLedger; ex_Applied := read_ledger; ex_Apply := ch_Apply; ex_Lock := fun d => (true, d);
  ex_SchemaExists := db_probe has_tables |}.
End ClickHouse.

(** ** health/gate.go *)

Record HealthCheck := mkCheck { ck_Name : string; ck_OK : bool; ck_Required : bool; ck_Detail : string }.

Definition Gate : Type := gmap string HealthCheck.

Definition gate_Set (name : string) (ok required : bool) (detail : string) (g : gmap string HealthCheck) : gmap string HealthCheck :=
  <[name := mkCheck name ok required detail]> g.

(** [Ready]; the names are the keys, so they differ. *)
Definition gate_Ready (g : gmap string HealthCheck) : bool * list HealthCheck :=
  let all := map snd (map_to_list g) in
  (forallb (fun c => negb (ck_Required c && negb (ck_OK c))) all, SliceStable (fun a b => String.ltb (ck_Name a) (ck_Name b)) all).

Definition gate_status (g : gmap string HealthCheck) : Z := if fst (gate_Ready g) then 200 else 503.

(** ** schema_boot.go *)

Definition readyPostgresSchema : string := "postgres_schema".
Definition readyClickHouseSchema : string := "clickhouse_schema".

Section Boot.
Context {S : Type} `{Executor (database S)} (sha : string → string).

(** What a starting server does about one schema; [detail] is the text shown. *)
Definition schema_at_boot (engine : Engine) (check : string) (required : bool) (detail : migrate_err + list string → string) (autoMigrate : bool)
    (entries : option (list dirent)) (g : gmap string HealthCheck) (d : database S) : gmap string HealthCheck * database S :=
  match Load sha engine entries with
  | Err e => (gate_Set check false required (detail (inl e)) g, d)
  | Ok migs =>
      if autoMigrate then
        match Run (mkMOptions false false) migs d with
        | (_, Some e, d) => (gate_Set check false required (detail (inl e)) g, d)
        | (_, None, d) => (gate_Set check true required "" g, d)
        end
      else
        match Pending migs d with
        | (Err e, d) => (gate_Set check false required (detail (inl e)) g, d)
        | (Ok [], d) => (gate_Set check true required "" g, d)
        | (Ok pending, d) => (gate_Set check false required (detail (inr pending)) g, d)
        end
  end.
End Boot.

Definition applySchemaAtBoot {S} (exec : string → S → option S) (has_tables : S → bool) (sha : string → string)
    (detail : migrate_err + list string → string) (autoMigrate : bool) (entries : option (list dirent)) (g : gmap string HealthCheck)
    (d : database S) : gmap string HealthCheck * database S :=
  @schema_at_boot S (pgExecutor exec has_tables) sha EnginePostgres readyPostgresSchema true detail autoMigrate entries g d.

Definition applyClickHouseSchemaAtBoot {S} (exec : string → S → option S) (has_tables : S → bool) (sha : string → string)
    (detail : migrate_err + list string → string) (autoMigrate : bool) (entries : option (list dirent)) (g : gmap string HealthCheck)
    (d : database S) : gmap string HealthCheck * database S :=
  @schema_at_boot S (chExecutor exec has_tables) sha EngineClickHouse readyClickHouseSchema false detail autoMigrate entries g d.

(** ** migrate_cmd.go *)

Section Command.
Context {D : Type} `{Executor D} (sha : string → string).

(** [migrateEngine]; [connected] is the database if it can be reached.  The number is
    of outstanding migrations, on a dry run. *)
Definition migrateEngine (opts : MigrateOptions) (engine : Engine) (entries : option (list dirent)) (connected : option D) :
    res migrate_err Z * option D :=
  match Load sha engine entries with
  | Err e => (Err e, connected)
  | Ok migs =>
      match connected with
      | None => (Err LockFailed, None)
      | Some d =>
          match Run opts migs d with
          | (_, Some e, d) => (Err e, Some d)
          | (r, None, d) => (Ok (if mo_DryRun opts then Z.of_nat (length (rs_Pending r)) else 0), Some d)
          end
      end
  end.
End Command.

Record migrate_flags := mkFlags { fl_engine : string; fl_check : bool; fl_dryRun : bool; fl_drift : bool }.

(** [runMigrateCommand] with its flags parsed; [pg] and [ch] run one engine with the
    options.  The exit code, and what was run. *)
Definition runMigrateCommand {P C : Type} (fl : migrate_flags) (postgresURL clickhouseURL : string)
    (pg : MigrateOptions → P → res migrate_err Z * P) (ch : MigrateOptions → C → res migrate_err Z * C) (p : P) (c : C) : Z * P * C :=
  let wantPG := String.eqb (fl_engine fl) "all" || String.eqb (fl_engine fl) (engine_name EnginePostgres) in
  let wantCH := String.eqb (fl_engine fl) "all" || String.eqb (fl_engine fl) (engine_name EngineClickHouse) in
  let opts := mkMOptions (fl_check fl || fl_dryRun fl) (fl_drift fl) in
  let hasPG := negb (String.eqb postgresURL "") in
  let hasCH := negb (String.eqb clickhouseURL "") in
  if negb wantPG && negb wantCH then (1, p, c)
  else if (negb wantPG || negb hasPG) && (negb wantCH || negb hasCH) then (1, p, c)
  else
    let '(n1, p) := if wantPG && hasPG then pg opts p else (Ok 0, p) in
    match n1 with
    | Err _ => (1, p, c)
    | Ok n1 =>
        let '(n2, c) := if wantCH && hasCH then ch opts c else (Ok 0, c) in
        match n2 with
        | Err _ => (1, p, c)
        | Ok n2 => (if mo_DryRun opts then if 0 <? n1 + n2 then 2 else 0 else 0, p, c)
        end
    end.
