(* ===== verification/MigrateProps.v ===== *)
(** * MigrateProps: migrations are found, run in order, once, and all or nothing

    What [Load] finds; what a run leaves behind on every path, errors included; any
    number of replicas that migrate at once under the advisory lock; the readiness
    gate; and the splitting of ClickHouse files into statements. *)

From S2P Require Import Prelude GoString GoSort Net Migrate.
Local Open Scope string_scope.
Local Open Scope Z_scope.

(** ** Discovery *)
Section Loading.
Context (sha : string → string) (engine : Engine).

Definition found (es : list dirent) (m : Migration) : Prop :=
  ∃ e body, e ∈ es ∧ is_sql e = true ∧ de_Body e = Some body ∧ ordinalOf (de_Name e) = Some (mg_Ordinal m) ∧
            m = migration_of sha engine (de_Name e) (mg_Ordinal m) body.

Lemma load_loop_spec es seen out : load_loop sha engine es seen = Ok out →
  NoDup (map mg_Ordinal out) ∧ (∀ m, m ∈ out → seen !! mg_Ordinal m = None) ∧ (∀ m, m ∈ out ↔ found es m) ∧
  (∀ e, e ∈ es → is_sql e = true → ∃ m, m ∈ out ∧ mg_Name m = de_Name e).
Proof.
  revert seen out. induction es as [|e es IH]; intros seen out; cbn.
  { intros [= <-]. split_and!; [constructor|by intros m ?%elem_of_nil| |by intros e ?%elem_of_nil].
    intros m. split; [by intros ?%elem_of_nil|]. by intros (e & body & He%elem_of_nil & _). }
  destruct (is_sql e) eqn:Es; cbn.
  2: { intros (H1 & H2 & H3 & H4)%IH. split_and!; [done|done| |].
    - intros m. rewrite H3. split; intros (x & body & Hx & Hs & Hr); exists x, body; (split; [|done]); [by right|].
      apply elem_of_cons in Hx as [->|]; [congruence|done].
    - intros x [->|Hx]%elem_of_cons Hs; [congruence|by apply H4]. }
  destruct (ordinalOf (de_Name e)) as [ord|] eqn:Eo; [|done]. destruct (seen !! ord) eqn:Ese; [done|].
  destruct (de_Body e) as [body|] eqn:Eb; [|done]. destruct (load_loop _ _ es _) as [out'|] eqn:El; [|done]. intros [= <-].
  apply IH in El as (H1 & H2 & H3 & H4). split_and!.
  - constructor; [|done]. intros (m & Hm & Hin)%list_elem_of_fmap. specialize (H2 _ Hin). cbn in Hm. by rewrite <- Hm, lookup_insert_eq in H2.
  - intros m [->|Hm]%elem_of_cons; [done|]. specialize (H2 _ Hm). by apply lookup_insert_None in H2 as [? _].
  - intros m. rewrite elem_of_cons, H3. split.
    + intros [->|(x & b & Hx & Hr)]; [|exists x, b; by split; [right|]]. exists e, body. by split_and!; [left|..].
    + intros (x & b & [->|Hx]%elem_of_cons & Hs & Hb & Ho & ->); [left|right; by exists x, b].
      rewrite Eb in Hb. injection Hb as <-. cbn in Ho. rewrite Eo in Ho. by injection Ho as <-.
  - intros x [->|Hx]%elem_of_cons Hs; [eexists; split; [by left|done]|]. destruct (H4 _ Hx Hs) as (m & ? & ?). exists m. by split; [right|].
Qed.

Lemma migration_ids m m' es : found es m → found es m' → mg_ID m = mg_ID m' → mg_Ordinal m = mg_Ordinal m'.
Proof.
  intros (e & b & _ & _ & _ & Ho & ->) (e' & b' & _ & _ & _ & Ho' & ->) H. cbn in *.
  apply (inj (String.append (engine_name engine))), (inj (String.append "/")) in H. congruence.
Qed.

Lemma ids_distinct es l : (∀ m, m ∈ l → found es m) → NoDup (map mg_Ordinal l) → NoDup (map mg_ID l).
Proof.
  induction l as [|m l IH]; intros Hf Hnd; [constructor|]. apply NoDup_cons in Hnd as [Hn Hnd]. constructor.
  - intros (x & E & Hx)%list_elem_of_fmap. apply Hn. apply list_elem_of_fmap. exists x. split; [|done].
    apply (migration_ids _ _ es); [apply Hf; by left|apply Hf; by right|done].
  - apply IH; [|done]. intros x Hx. apply Hf. by right.
Qed.

Lemma sorted_strict (l : list Migration) :
  StronglySorted (fun a b => ordinal_less b a = false) l → NoDup (map mg_Ordinal l) → StronglySorted (fun a b => mg_Ordinal a < mg_Ordinal b) l.
Proof.
  induction 1 as [|a l Hs IH Ha]; [constructor|]. intros [Hn Hnd]%NoDup_cons. constructor; [by apply IH|].
  rewrite Forall_forall in *. intros b Hb. specialize (Ha _ Hb). unfold ordinal_less in Ha. apply Z.ltb_ge in Ha.
  destruct (decide (mg_Ordinal a = mg_Ordinal b)) as [E|]; [|lia]. destruct Hn. rewrite E. apply list_elem_of_fmap. by exists b.
Qed.

Lemma load_ids es migs : Load sha engine (Some es) = Ok migs → NoDup (map mg_ID migs).
Proof.
  unfold Load. destruct (load_loop sha engine es ∅) as [out|] eqn:El; [|done].
  intros H. assert (migs = SliceStable ordinal_less out) as -> by (destruct out; [done|congruence]).
  apply load_loop_spec in El as (H1 & _ & H3 & _). pose proof (SliceStable_perm ordinal_less out) as Hp.
  apply (ids_distinct es); [|by rewrite (Permutation_map mg_Ordinal Hp)]. intros m Hm. apply H3. by rewrite <- Hp.
Qed.

(** A file in the directory is a migration.  When [Load] succeeds it returns one
    migration for every SQL file of the directory and nothing else, each with the
    number of its name and the text of its file; the numbers strictly increase, so
    the order of application is the one the names give; and no two have one id. *)
Theorem load_complete_and_ordered (es : list dirent) (migs : list Migration) :
  Load sha engine (Some es) = Ok migs →
  (∀ m, m ∈ migs ↔ found es m) ∧ (∀ e, e ∈ es → is_sql e = true → ∃ m, m ∈ migs ∧ mg_Name m = de_Name e) ∧
  StronglySorted (fun a b => mg_Ordinal a < mg_Ordinal b) migs ∧ NoDup (map mg_ID migs).
Proof.
  intros Hload. pose proof (load_ids _ _ Hload) as Hids. revert Hload. unfold Load. destruct (load_loop sha engine es ∅) as [out|] eqn:El; [|done].
  intros H. assert (migs = SliceStable ordinal_less out) as -> by (destruct out; [done|congruence]). clear H.
  apply load_loop_spec in El as (H1 & _ & H3 & H4).
  pose proof (SliceStable_perm ordinal_less out) as Hp.
  assert (∀ m, m ∈ SliceStable ordinal_less out ↔ found es m) as Hin by (intros m; by rewrite Hp).
  assert (NoDup (map mg_Ordinal (SliceStable ordinal_less out))) as Hnd by (by rewrite (Permutation_map mg_Ordinal Hp)).
  split_and!; [done| | |].
  - intros e He Hs. destruct (H4 _ He Hs) as (m & Hm & ?). exists m. split; [by rewrite Hp|done].
  - apply sorted_strict; [|done]. apply (SliceStable_sorted ordinal_less (fun _ => True)); unfold ordinal_less.
    + intros x y ?%Z.ltb_lt. apply Z.ltb_ge. lia.
    + intros x y z _ _ _ ?%Z.ltb_lt. destruct (Z.ltb_spec (mg_Ordinal x) (mg_Ordinal y)); [by left|right]. apply Z.ltb_lt. lia.
    + by apply Forall_true.
  - exact Hids.
Qed.
End Loading.

(** ** A run on Postgres *)
Section Postgres.
Context {S : Type} (exec : string → S → option S) (has_tables : S → bool).
#[local] Instance pg_here : Executor (database S) := pgExecutor exec has_tables.
Implicit Types (d : database S) (m : Migration) (ms : list Migration).

Definition exec_all (migs : list Migration) (s : S) : option S := foldl (fun o m => o ≫= exec (mg_SQL m)) (Some s) migs.

Definition ok_rows (d : database S) : gmap string LedgerEntry := succeeded (rows_of d).
Definition entry_of (m : Migration) : LedgerEntry := mkEntry (mg_Checksum m) true.
Definition recorded (migs : list Migration) (l : gmap string LedgerEntry) : gmap string LedgerEntry :=
  fold_left (fun l m => <[mg_ID m := entry_of m]> l) migs l.

(** The database after the migrations [ms] have been applied to [d]. *)
Definition moved (ms : list Migration) (d d' : database S) : Prop :=
  exec_all ms (schema d) = Some (schema d') ∧ ok_rows d' = recorded ms (ok_rows d).

Lemma moved_nil d d' : schema d' = schema d → ok_rows d' = ok_rows d → moved [] d d'.
Proof. intros H1 H2. split; cbn; [by rewrite H1|by rewrite H2]. Qed.

Lemma exec_all_None ms : foldl (fun o m => o ≫= exec (mg_SQL m)) None ms = None.
Proof. by induction ms. Qed.

Lemma moved_cons m ms d d1 d2 : moved [m] d d1 → moved ms d1 d2 → moved (m :: ms) d d2.
Proof. intros [H1 H2] [H3 H4]. unfold moved, exec_all in *. cbn in *. rewrite H1. split; [done|]. by rewrite H4, H2. Qed.

Lemma moved_same d d0 ms d' : moved ms d0 d' → schema d0 = schema d → ok_rows d0 = ok_rows d → moved ms d d'.
Proof. unfold moved. by intros [H1 H2] <- <-. Qed.

Lemma next_same d c d1 : next d = (c, d1) → schema d1 = schema d ∧ ledger d1 = ledger d.
Proof. unfold next. destruct (weather d); intros [= <- <-]; done. Qed.

Lemma ok_rows_ledger d d' : ledger d' = ledger d → ok_rows d' = ok_rows d.
Proof. unfold ok_rows, rows_of. by intros ->. Qed.

Lemma succeeded_insert id e l :
  succeeded (<[id := e]> l) = if le_Success e then <[id := e]> (succeeded l) else delete id (succeeded l).
Proof.
  apply map_eq. intros k. unfold succeeded. apply option_eq. intros x. rewrite map_lookup_filter_Some. destruct (le_Success e) eqn:Ee.
  - destruct (decide (id = k)) as [<-|]; [rewrite !lookup_insert_eq; cbn; naive_solver congruence|].
    rewrite !lookup_insert_ne by done. by rewrite map_lookup_filter_Some.
  - destruct (decide (id = k)) as [<-|]; [rewrite lookup_insert_eq, lookup_delete_eq; cbn; naive_solver congruence|].
    rewrite lookup_insert_ne, lookup_delete_ne by done. by rewrite map_lookup_filter_Some.
Qed.

Lemma upsert_ok_rows id e d :
  ok_rows (upsert id e d) = match ledger d with
                            | Some _ => if le_Success e then <[id := e]> (ok_rows d) else delete id (ok_rows d)
                            | None => ok_rows d
                            end.
Proof. unfold ok_rows, rows_of, upsert. cbn. destruct (ledger d); cbn; [apply succeeded_insert|done]. Qed.

Lemma recordFailure_same m d : ok_rows d !! mg_ID m = None → schema (recordFailure m d) = schema d ∧ ok_rows (recordFailure m d) = ok_rows d.
Proof.
  intros Hn. unfold recordFailure. destruct (next d) as [c d1] eqn:En. apply next_same in En as [H1 H2].
  assert (ok_rows d1 = ok_rows d) as H3 by (by apply ok_rows_ledger).
  assert (schema (upsert (mg_ID m) (mkEntry (mg_Checksum m) false) d1) = schema d ∧
          ok_rows (upsert (mg_ID m) (mkEntry (mg_Checksum m) false) d1) = ok_rows d) as Hu.
  { split; [done|]. rewrite upsert_ok_rows. destruct (ledger d1); [|done]. cbn. rewrite H3. by apply delete_id. }
  by destruct c.
Qed.

(** The file and its row, or neither. *)
Lemma pg_Apply_atomic m d ok d' : ok_rows d !! mg_ID m = None → pg_Apply exec m d = (ok, d') →
  ok = false ∧ moved [] d d' ∨ moved [m] d d'.
Proof.
  intros Hn. unfold pg_Apply. destruct (next d) as [c1 d1] eqn:E1. apply next_same in E1 as [S1 L1].
  assert (ok_rows d1 = ok_rows d) as R1 by (by apply ok_rows_ledger).
  destruct c1; try (intros [= <- <-]; left; split; [done|by apply moved_nil]).
  destruct (next d1) as [c2 d2] eqn:E2. apply next_same in E2 as [S2 L2].
  assert (ok_rows d2 = ok_rows d) as R2 by (rewrite <- R1; by apply ok_rows_ledger).
  destruct (if decide (c2 = Works) then _ else _) as [s|] eqn:Ex.
  2: { intros [= <- <-]. left. split; [done|]. rewrite <- R2 in Hn. destruct (recordFailure_same m d2 Hn) as [H1 H2].
       apply moved_nil; [congruence|congruence]. }
  destruct (decide (c2 = Works)); [|done].
  destruct (next d2) as [c3 d3] eqn:E3. apply next_same in E3 as [S3 L3].
  assert (moved [] d d3) as M3 by (apply moved_nil; [congruence|rewrite <- R2; by apply ok_rows_ledger]).
  destruct c3; try (intros [= <- <-]; by left). destruct (ledger d2) as [l|] eqn:El; [|intros [= <- <-]; by left].
  destruct (next d3) as [c4 d4] eqn:E4. apply next_same in E4 as [S4 L4].
  assert (moved [] d d4) as M4 by (apply moved_nil; [congruence|rewrite <- R2; apply ok_rows_ledger; congruence]).
  assert (moved [m] d (mkDb s (Some (<[mg_ID m := mkEntry (mg_Checksum m) true]> l)) (weather d4))) as M.
  { split; [cbn; by rewrite <- S1, <- S2|]. rewrite <- R2. unfold ok_rows, rows_of, recorded. rewrite El. cbn [fold_left ledger default from_option id].
    rewrite succeeded_insert. done. }
  destruct c4; intros [= <- <-]; first [by left|by right].
Qed.

Lemma recorded_other ms l id : id ∉ map mg_ID ms → recorded ms l !! id = l !! id.
Proof.
  revert l. induction ms as [|m ms IH]; intros l Hn; [done|]. cbn in *. apply not_elem_of_cons in Hn as [Hne Hn].
  rewrite IH by done. by rewrite lookup_insert_ne.
Qed.

Lemma recorded_in ms l m : NoDup (map mg_ID ms) → m ∈ ms → recorded ms l !! mg_ID m = Some (entry_of m).
Proof.
  revert l. induction ms as [|m0 ms IH]; intros l Hnd Hm; [by apply elem_of_nil in Hm|]. cbn in *. apply NoDup_cons in Hnd as [Hn Hnd].
  apply elem_of_cons in Hm as [->|Hm]; [|by apply IH]. rewrite recorded_other by done. apply lookup_insert_eq.
Qed.

Definition outstanding (applied : gmap string LedgerEntry) (migs : list Migration) : list Migration := List.filter (absent applied) migs.

Lemma run_loop_moves drift applied migs r d r' err d' :
  NoDup (map mg_ID migs) → (∀ m, m ∈ migs → ok_rows d !! mg_ID m = applied !! mg_ID m) →
  run_loop drift applied migs r d = (r', err, d') →
  ∃ ds rest, outstanding applied migs = (ds ++ rest)%list ∧ moved ds d d' ∧
    (err = None → rest = [] ∧ rs_Applied r' = (rs_Applied r ++ map mg_ID ds)%list ∧
       ∀ m, m ∈ migs → ∀ e, applied !! mg_ID m = Some e → le_Checksum e = mg_Checksum m ∨ drift = true).
Proof.
  revert r d. induction migs as [|m migs IH]; intros r d Hnd Hag; cbn.
  { intros [= <- <- <-]. exists [], []. split_and!; [done|by apply moved_nil|]. intros _. split_and!; [done|by rewrite app_nil_r|].
    by intros m ?%elem_of_nil. }
  apply NoDup_cons in Hnd as [Hn Hnd]. pose proof (Hag m ltac:(by left)) as Hm. unfold run_one, outstanding. cbn. unfold absent at 1.
  destruct (applied !! mg_ID m) as [prev|] eqn:Ep.
  - destruct (negb _ && negb drift) eqn:Ec.
    + intros [= <- <- <-]. exists [], (List.filter (absent applied) migs). split_and!; [done|by apply moved_nil|done].
    + intros H. apply IH in H as (ds & rest & Ho & Hmv & Hok); [|done|intros x Hx; apply Hag; by right].
      exists ds, rest. split_and!; [done|done|]. intros He. destruct (Hok He) as (-> & Ha & Hc). split_and!; [done|done|].
      intros x [->|Hx]%elem_of_cons e Hl; [|by eapply Hc]. rewrite Ep in Hl. injection Hl as <-.
      apply andb_false_iff in Ec as [Ec|Ec]; apply negb_false_iff in Ec; [left; by apply String.eqb_eq|by right].
  - destruct (pg_Apply exec m d) as [ok d1] eqn:Ea.
    destruct (pg_Apply_atomic m d ok d1 Hm Ea) as [[-> Hmv]|Hmv].
    + cbn. intros [= <- <- <-]. exists [], (m :: List.filter (absent applied) migs). by split_and!.
    + destruct ok; cbn.
      2: { intros [= <- <- <-]. exists [m], (List.filter (absent applied) migs). by split_and!. }
      intros H. apply IH in H as (ds & rest & Ho & Hmv' & Hok); [|done|].
      2: { intros x Hx. destruct Hmv as [_ ->]. rewrite recorded_other; [apply Hag; by right|]. cbn. intros E%list_elem_of_singleton. apply Hn. rewrite <- E.
           apply list_elem_of_fmap. by exists x. }
      exists (m :: ds), rest. split_and!; [by cbn; f_equal|by eapply moved_cons|].
      intros He. destruct (Hok He) as (-> & Ha & Hc). split_and!; [done|by rewrite Ha; cbn; rewrite <- app_assoc|].
      intros x [->|Hx]%elem_of_cons e Hl; [congruence|by eapply Hc].
Qed.

Lemma ensure_same d ok d' : pg_EnsureLedger d = (ok, d') → schema d' = schema d ∧ ok_rows d' = ok_rows d.
Proof.
  unfold pg_EnsureLedger. destruct (next d) as [c d1] eqn:En. apply next_same in En as [H1 H2].
  assert (ok_rows d1 = ok_rows d) as H3 by (by apply ok_rows_ledger).
  destruct c; intros [= <- <-]; split; done.
Qed.

Lemma read_same d o d' : read_ledger d = (o, d') → schema d' = schema d ∧ ok_rows d' = ok_rows d ∧ (∀ l, o = Some l → l = ok_rows d).
Proof.
  unfold read_ledger. destruct (next d) as [c d1] eqn:En. apply next_same in En as [H1 H2].
  assert (ok_rows d1 = ok_rows d) as H3 by (by apply ok_rows_ledger).
  destruct c; intros [= <- <-]; split_and!; try done. rewrite H2. unfold ok_rows, rows_of. destruct (ledger d); [|done]. by intros l [= <-].
Qed.

Lemma plain_same d ok d' : plain_call d = (ok, d') → schema d' = schema d ∧ ok_rows d' = ok_rows d.
Proof.
  unfold plain_call. destruct (next d) as [c d1] eqn:En. apply next_same in En as [H1 H2].
  assert (ok_rows d1 = ok_rows d) as H3 by (by apply ok_rows_ledger). by destruct c; intros [= <- <-].
Qed.

Lemma probe_same d o d' : db_probe has_tables d = (o, d') → schema d' = schema d ∧ ok_rows d' = ok_rows d.
Proof.
  unfold db_probe. destruct (next d) as [c d1] eqn:En. apply next_same in En as [H1 H2].
  assert (ok_rows d1 = ok_rows d) as H3 by (by apply ok_rows_ledger). by destruct c; intros [= <- <-].
Qed.

Lemma outstanding_elem applied migs m : m ∈ outstanding applied migs ↔ m ∈ migs ∧ applied !! mg_ID m = None.
Proof.
  unfold outstanding. rewrite !list_elem_of_In, filter_In, <- list_elem_of_In. unfold absent. destruct (applied !! mg_ID m); naive_solver.
Qed.

Lemma outstanding_nodup applied migs : NoDup (map mg_ID migs) → NoDup (map mg_ID (outstanding applied migs)).
Proof.
  induction migs as [|x l IH]; intros Hnd; [constructor|]. apply NoDup_cons in Hnd as [Hn Hnd]. unfold outstanding in *. cbn.
  destruct (absent _ x); [|by apply IH]. cbn. constructor; [|by apply IH]. intros (y & Hy & Hin)%list_elem_of_fmap. apply Hn.
  apply outstanding_elem in Hin as [Hin _]. apply list_elem_of_fmap. by exists y.
Qed.

Lemma run_prefix (opts : MigrateOptions) (migs : list Migration) (d : database S) (r : Result) (err : option migrate_err)
    (d' : database S) :
  NoDup (map mg_ID migs) → mo_DryRun opts = false → Run opts migs d = (r, err, d') →
  ∃ ds rest, outstanding (ok_rows d) migs = (ds ++ rest)%list ∧ moved ds d d' ∧
    (err = None → rest = [] ∧ rs_Applied r = map mg_ID ds ∧
       ∀ m, m ∈ migs → ∃ e, ok_rows d' !! mg_ID m = Some e ∧ (le_Checksum e = mg_Checksum m ∨ mo_AllowChecksumDrift opts = true)).
Proof.
  intros Hnd Hdry. unfold Run. rewrite Hdry. cbn [ex_Lock ex_EnsureLedger ex_Applied ex_SchemaExists pg_here pgExecutor].
  assert (∀ d1, schema d1 = schema d → ok_rows d1 = ok_rows d →
    ∃ ds rest, outstanding (ok_rows d) migs = (ds ++ rest)%list ∧ moved ds d d1) as Hstop.
  { intros d1 H1 H2. exists [], (outstanding (ok_rows d) migs). split; [done|by apply moved_nil]. }
  destruct (plain_call d) as [ok1 d1] eqn:E1. apply plain_same in E1 as [S1 R1].
  destruct ok1; cbn [negb]; [|intros [= <- <- <-]; destruct (Hstop d1 S1 R1) as (ds & rest & ? & ?); by exists ds, rest].
  destruct (pg_EnsureLedger d1) as [ok2 d2] eqn:E2. apply ensure_same in E2 as [S2 R2]. rewrite S1 in S2. rewrite R1 in R2.
  destruct ok2; cbn [negb]; [|intros [= <- <- <-]; destruct (Hstop d2 S2 R2) as (ds & rest & ? & ?); by exists ds, rest].
  destruct (read_ledger d2) as [o d3] eqn:E3. apply read_same in E3 as (S3 & R3 & Hl). rewrite S2 in S3. rewrite R2 in R3, Hl.
  destruct o as [applied|]; [|intros [= <- <- <-]; destruct (Hstop d3 S3 R3) as (ds & rest & ? & ?); by exists ds, rest].
  specialize (Hl _ eq_refl). subst applied.
  assert (∀ r0 d0, rs_Applied r0 = [] → schema d0 = schema d → ok_rows d0 = ok_rows d →
    run_loop (mo_AllowChecksumDrift opts) (ok_rows d) migs r0 d0 = (r, err, d') →
    ∃ ds rest, outstanding (ok_rows d) migs = (ds ++ rest)%list ∧ moved ds d d' ∧
    (err = None → rest = [] ∧ rs_Applied r = map mg_ID ds ∧
       ∀ m, m ∈ migs → ∃ e, ok_rows d' !! mg_ID m = Some e ∧ (le_Checksum e = mg_Checksum m ∨ mo_AllowChecksumDrift opts = true))) as Hloop.
  { intros r0 d0 Hr0 S0 R0 H. apply run_loop_moves in H as (ds & rest & Ho & Hmv & Hok); [|done|intros m _; by rewrite R0].
    exists ds, rest. split_and!; [done|by eapply moved_same|]. intros He. destruct (Hok He) as (-> & Ha & Hc).
    rewrite Hr0 in Ha. split_and!; [done|done|]. intros m Hm. destruct Hmv as [_ Hrows]. rewrite R0 in Hrows. rewrite app_nil_r in Ho.
    destruct (ok_rows d !! mg_ID m) as [e|] eqn:El.
    - exists e. split; [|by eapply Hc]. rewrite Hrows, recorded_other; [done|]. intros (x & Hx & Hin)%list_elem_of_fmap.
      rewrite <- Ho in Hin. apply outstanding_elem in Hin as [_ Hin]. by rewrite <- Hx, El in Hin.
    - exists (entry_of m). split; [|by left]. rewrite Hrows. apply recorded_in.
      + rewrite <- Ho. by apply outstanding_nodup.
      + rewrite <- Ho. by apply outstanding_elem. }
  destruct (decide (ok_rows d = ∅)); [|by apply Hloop].
  destruct (db_probe has_tables d3) as [ex d4] eqn:E4. apply probe_same in E4 as [S4 R4]. rewrite S3 in S4. rewrite R3 in R4.
  destruct ex; [by apply Hloop|]. intros [= <- <- <-]. destruct (Hstop d4 S4 R4) as (ds & rest & ? & ?). by exists ds, rest.
Qed.

(** What a run leaves behind, whichever calls fail.  The schema is the old one with
    an initial part of the outstanding migrations applied in order, each whole, and
    the ledger records exactly those besides what it had; if the run reports no
    error that part is all of them, and every migration is recorded under its own
    checksum unless drift was allowed. *)
Theorem run_applies_prefix (opts : MigrateOptions) (migs : list Migration) (d : database S) (r : Result) (err : option migrate_err)
    (d' : database S) :
  NoDup (map mg_ID migs) → mo_DryRun opts = false → Run opts migs d = (r, err, d') →
  ∃ ds rest, outstanding (ok_rows d) migs = (ds ++ rest)%list ∧ moved ds d d' ∧
    (err = None → rest = [] ∧ rs_Applied r = map mg_ID ds ∧
       ∀ m, m ∈ migs → ∃ e, ok_rows d' !! mg_ID m = Some e ∧ (le_Checksum e = mg_Checksum m ∨ mo_AllowChecksumDrift opts = true)).
Proof. apply run_prefix. Qed.

(** A check changes nothing, and reports what a run would do: the outstanding
    migrations, in order. *)
Theorem check_changes_nothing (drift : bool) (migs : list Migration) (d : database S) (r : Result) (err : option migrate_err) (d' : database S) :
  Run (mkMOptions true drift) migs d = (r, err, d') →
  schema d' = schema d ∧ ok_rows d' = ok_rows d ∧ (err = None → rs_Pending r = map mg_ID (outstanding (ok_rows d) migs)).
Proof.
  unfold Run, dry_run. cbn [mo_DryRun ex_EnsureLedger ex_Applied pg_here pgExecutor].
  destruct (pg_EnsureLedger d) as [ok2 d2] eqn:E2. apply ensure_same in E2 as [S2 R2].
  destruct ok2; cbn [negb]; [|by intros [= <- <- <-]].
  destruct (read_ledger d2) as [o d3] eqn:E3. apply read_same in E3 as (S3 & R3 & Hl). rewrite S2 in S3. rewrite R2 in R3, Hl.
  destruct o as [applied|]; [|by intros [= <- <- <-]]. rewrite (Hl _ eq_refl). by intros [= <- <- <-].
Qed.

(** ** Replicas that migrate at once *)

(** Where one replica's [Run] is: before the lock, holding it, in the loop with the
    ledger it read and what is left to do, returned, or killed. *)
Inductive pc := Waiting | Locked | Looping (snap : gmap string LedgerEntry) (todo : list Migration) | Finished (err : option migrate_err) | Killed.

Record replica := mkReplica { rp_migs : list Migration; rp_drift : bool; rp_pc : pc }.

(** The database, the session that holds the advisory lock, the replicas, and the
    log of what took effect on the schema. *)
Record fleet := mkFleet { fl_db : database S; fl_holder : option nat; fl_reps : list replica; fl_log : list Migration }.

Definition at_pc (p : pc) (rp : replica) : replica := mkReplica (rp_migs rp) (rp_drift rp) p.
Definition log_if (m : Migration) (d d' : database S) (log : list Migration) : list Migration :=
  if decide (ok_rows d' = ok_rows d) then log else (log ++ [m])%list.
Definition freed (i : nat) (h : option nat) : option nat := if decide (h = Some i) then None else h.

(** A replica keeps its lock until it gives it up or dies; a session lost by a holder
    that goes on is not among the steps. *)
Inductive fstep : fleet → fleet → Prop :=
| f_lock i rp d reps log : reps !! i = Some rp → rp_pc rp = Waiting →
    fstep (mkFleet d None reps log) (mkFleet d (Some i) (<[i := at_pc Locked rp]> reps) log)
| f_no_lock i rp d h reps log : reps !! i = Some rp → rp_pc rp = Waiting →
    fstep (mkFleet d h reps log) (mkFleet d h (<[i := at_pc (Finished (Some LockFailed)) rp]> reps) log)
| f_read i rp d h reps log d1 snap d2 : reps !! i = Some rp → rp_pc rp = Locked →
    ex_EnsureLedger d = (true, d1) → ex_Applied d1 = (Some snap, d2) →
    fstep (mkFleet d h reps log) (mkFleet d2 h (<[i := at_pc (Looping snap (rp_migs rp)) rp]> reps) log)
| f_read_fails i rp d h reps log e : reps !! i = Some rp → rp_pc rp = Locked →
    fstep (mkFleet d h reps log) (mkFleet d (freed i h) (<[i := at_pc (Finished (Some e)) rp]> reps) log)
| f_turn i rp d h reps log snap m rest r d' : reps !! i = Some rp → rp_pc rp = Looping snap (m :: rest) →
    run_one (rp_drift rp) snap m no_result d = (r, None, d') →
    fstep (mkFleet d h reps log) (mkFleet d' h (<[i := at_pc (Looping snap rest) rp]> reps) (log_if m d d' log))
| f_turn_fails i rp d h reps log snap m rest r e d' : reps !! i = Some rp → rp_pc rp = Looping snap (m :: rest) →
    run_one (rp_drift rp) snap m no_result d = (r, Some e, d') →
    fstep (mkFleet d h reps log) (mkFleet d' (freed i h) (<[i := at_pc (Finished (Some e)) rp]> reps) (log_if m d d' log))
| f_done i rp d h reps log snap : reps !! i = Some rp → rp_pc rp = Looping snap [] →
    fstep (mkFleet d h reps log) (mkFleet d (freed i h) (<[i := at_pc (Finished None) rp]> reps) log)
| f_kill i rp d h reps log : reps !! i = Some rp →
    fstep (mkFleet d h reps log) (mkFleet d (freed i h) (<[i := at_pc Killed rp]> reps) log)
| f_check d h reps log : fstep (mkFleet d h reps log) (mkFleet (snd (pg_EnsureLedger d)) h reps log)
| f_weather w d h reps log : fstep (mkFleet d h reps log) (mkFleet (mkDb (schema d) (ledger d) w) h reps log).

(** What is known of a replica. *)
Definition rep_ok (d : database S) (h : option nat) (i : nat) (rp : replica) : Prop :=
  NoDup (map mg_ID (rp_migs rp)) ∧
  match rp_pc rp with
  | Locked => h = Some i
  | Looping snap todo => h = Some i ∧ ∃ pre, rp_migs rp = (pre ++ todo)%list ∧
      (∀ m, m ∈ todo → ok_rows d !! mg_ID m = snap !! mg_ID m) ∧ (∀ m, m ∈ pre → is_Some (ok_rows d !! mg_ID m))
  | Finished None => ∀ m, m ∈ rp_migs rp → is_Some (ok_rows d !! mg_ID m)
  | _ => True
  end.

Definition fleet_ok (d0 : database S) (f : fleet) : Prop :=
  moved (fl_log f) d0 (fl_db f) ∧ NoDup (map mg_ID (fl_log f)) ∧ (∀ m, m ∈ fl_log f → ok_rows d0 !! mg_ID m = None) ∧
  ∀ i rp, fl_reps f !! i = Some rp → rep_ok (fl_db f) (fl_holder f) i rp.

Lemma moved_snoc m ms d d1 d2 : moved ms d d1 → moved [m] d1 d2 → moved (ms ++ [m])%list d d2.
Proof.
  intros [H1 H2] [H3 H4]. unfold moved, exec_all, recorded in *. rewrite foldl_app, fold_left_app, H1, H4, H2. done.
Qed.

Lemma moved_trans_nil ms d d1 d2 : moved ms d d1 → moved [] d1 d2 → moved ms d d2.
Proof. intros [H1 H2] [H3 H4]. cbn in *. injection H3 as H3. split; [by rewrite <- H3|by rewrite H4]. Qed.

(** Another replica's knowledge survives what the holder of the lock does. *)
Lemma rep_ok_other d d' h i rp ms : rep_ok d h i rp → h ≠ Some i → moved ms d d' → ∀ h', rep_ok d' h' i rp.
Proof.
  intros [Hnd Hp] Hh [_ Hr] h'. split; [done|]. destruct (rp_pc rp) as [| |snap todo|[e|]|]; try done; [by destruct Hp|].
  intros m Hm. rewrite Hr. clear -Hp Hm. assert (∀ l : gmap string LedgerEntry, is_Some (l !! mg_ID m) → is_Some (recorded ms l !! mg_ID m)) as H.
  { induction ms as [|x ms IH]; intros l Hl; [done|]. cbn. apply IH. destruct (decide (mg_ID x = mg_ID m)) as [->|];
      [rewrite lookup_insert_eq; eauto|by rewrite lookup_insert_ne]. }
  by apply H, Hp.
Qed.

Lemma moved_id d d' : schema d' = schema d → ok_rows d' = ok_rows d → ∀ h i rp, rep_ok d h i rp → rep_ok d' h i rp.
Proof. intros _ Hr h i rp [Hnd Hp]. split; [done|]. destruct (rp_pc rp) as [| |snap todo|[e|]|]; rewrite ?Hr; done. Qed.

(** A turn of the loop: what it does to the database and to the log. *)
Lemma turn_moves drift snap m r err d d' : ok_rows d !! mg_ID m = snap !! mg_ID m →
  run_one drift snap m no_result d = (r, err, d') →
  (moved [] d d' ∧ (err = None → is_Some (snap !! mg_ID m)) ∨ moved [m] d d' ∧ snap !! mg_ID m = None) ∧
  ∀ log, log_if m d d' log = log ∧ moved [] d d' ∨ log_if m d d' log = (log ++ [m])%list ∧ moved [m] d d' ∧ snap !! mg_ID m = None.
Proof.
  intros Hag H. assert (moved [] d d' ∧ (err = None → is_Some (snap !! mg_ID m)) ∨ moved [m] d d' ∧ snap !! mg_ID m = None) as Hc.
  { unfold run_one in H. destruct (snap !! mg_ID m) as [prev|] eqn:Es.
    - left. destruct (negb _ && _); injection H as <- <- <-; (split; [by apply moved_nil|eauto]).
    - cbn in H. destruct (pg_Apply exec m d) as [ok d1] eqn:Ea. destruct (pg_Apply_atomic m d ok d1 Hag Ea) as [[-> Hm]|Hm].
      + cbn in H. injection H as <- <- <-. by left.
      + right. destruct ok; injection H as <- <- <-; done. }
  split; [done|]. intros log. unfold log_if. destruct Hc as [[Hm _]|[Hm Hs]].
  - left. destruct Hm as [? Hr]. cbn in Hr. by rewrite decide_True.
  - right. rewrite decide_False; [done|]. destruct Hm as [_ Hr]. cbn in Hr. rewrite Hr. intros E.
    assert (ok_rows d !! mg_ID m = Some (entry_of m)) as E2 by (by rewrite <- E, lookup_insert_eq). rewrite Hag, Hs in E2. done.
Qed.

Lemma reps_update d d' h h' i (reps : list replica) new ms :
  (∀ j rp, reps !! j = Some rp → rep_ok d h j rp) → moved ms d d' →
  (∀ j, j ≠ i → h ≠ Some j) ∨ h' = h ∧ ok_rows d' = ok_rows d ∧ schema d' = schema d →
  rep_ok d' h' i new → ∀ j rp, <[i := new]> reps !! j = Some rp → rep_ok d' h' j rp.
Proof.
  intros Hall Hm Hc Hnew j rp Hj. destruct (decide (i = j)) as [<-|Hne].
  - apply list_lookup_insert_Some in Hj as [(_ & <- & _)|[? _]]; done.
  - rewrite list_lookup_insert_ne in Hj by done. specialize (Hall _ _ Hj). destruct Hc as [Hc|(-> & Hr & Hs)].
    + eapply rep_ok_other; [exact Hall|by apply Hc|exact Hm].
    + by eapply moved_id.
Qed.

Lemma freed_cases i h : (h = Some i ∧ freed i h = None) ∨ freed i h = h.
Proof. unfold freed. destruct (decide (h = Some i)); [by left|by right]. Qed.

Definition log_ok (d0 d : database S) (log : list Migration) : Prop :=
  moved log d0 d ∧ NoDup (map mg_ID log) ∧ ∀ m, m ∈ log → ok_rows d0 !! mg_ID m = None.

Lemma recorded_None ms l id : recorded ms l !! id = None → l !! id = None ∧ id ∉ map mg_ID ms.
Proof.
  revert l. induction ms as [|m ms IH]; intros l H; [by split; [|apply not_elem_of_nil]|]. cbn in *. apply IH in H as [H Hn].
  apply lookup_insert_None in H as [Hl Hne]. split; [done|]. by apply not_elem_of_cons.
Qed.

Lemma log_grows d0 d d' m log : log_ok d0 d log → moved [m] d d' → ok_rows d !! mg_ID m = None → log_ok d0 d' (log ++ [m])%list.
Proof.
  intros (Hm & Hnd & Hnew) Hm' Hn. destruct (recorded_None log (ok_rows d0) (mg_ID m)) as [H0 Hni]; [by destruct Hm as [_ <-]|].
  split_and!; [by eapply moved_snoc| |].
  - rewrite map_app. apply NoDup_app. split_and!; [done| |apply NoDup_singleton]. cbn. by intros x Hx ->%list_elem_of_singleton.
  - intros x [Hx| ->%list_elem_of_singleton]%elem_of_app; [by apply Hnew|done].
Qed.

(** A turn of the loop keeps the log right, and the replica's own knowledge. *)
Lemma turn_ok d0 d d' h i rp snap m rest r err log :
  rep_ok d h i rp → rp_pc rp = Looping snap (m :: rest) → run_one (rp_drift rp) snap m no_result d = (r, err, d') → log_ok d0 d log →
  h = Some i ∧ log_ok d0 d' (log_if m d d' log) ∧ (∃ ms, moved ms d d') ∧ (err = None → rep_ok d' h i (at_pc (Looping snap rest) rp)).
Proof.
  intros [Hids Hrp] Hp Hr Hlog. rewrite Hp in Hrp. destruct Hrp as (Hh & pre & Hpre & Htodo & Hdone). split; [done|].
  assert (Htm := Htodo m ltac:(by left)). destruct (turn_moves _ _ _ _ _ _ _ Htm Hr) as [Hc Hl].
  split; [|split; [by destruct Hc as [[? _]|[? _]]; eauto|]].
  { destruct (Hl log) as [[-> Hm]|(-> & Hm & Hs)]; [|eapply log_grows; [done|done|congruence]].
    destruct Hlog as (? & ? & ?). split_and!; [by eapply moved_trans_nil|done|done]. }
  intros He. assert (∀ x, x ∈ rest → mg_ID x ≠ mg_ID m) as Hdiff.
  { rewrite Hpre, map_app in Hids. apply NoDup_app in Hids as (_ & _ & Hids). cbn in Hids. apply NoDup_cons in Hids as [Hids _].
    intros x Hx E. apply Hids. rewrite <- E. apply list_elem_of_fmap. by exists x. }
  assert (is_Some (ok_rows d' !! mg_ID m) ∧ ∀ id, id ≠ mg_ID m → ok_rows d' !! id = ok_rows d !! id) as [Hrow Hoth].
  { destruct Hc as [[[_ Hm] Hs]|[[_ Hm] Hs]]; cbn in Hm; rewrite Hm.
    - rewrite Htm. by split; [apply Hs|].
    - rewrite lookup_insert_eq. split; [eauto|]. intros id Hid. by rewrite lookup_insert_ne. }
  split; [done|]. cbn. split; [done|]. exists (pre ++ [m])%list. split_and!; [by rewrite <- app_assoc| |].
  - intros x Hx. rewrite Hoth by (by apply Hdiff). apply Htodo. by right.
  - intros x [Hx| ->%list_elem_of_singleton]%elem_of_app; [|done]. destruct (decide (mg_ID x = mg_ID m)) as [->|]; [done|].
    rewrite Hoth by done. by apply Hdone.
Qed.

Lemma fstep_ok d0 f f' : fstep f f' → fleet_ok d0 f → fleet_ok d0 f'.
Proof.
  intros Hstep (Hmv & Hnd & Hnew & Hreps). unfold fleet_ok.
  assert (∀ d, moved [] d d) as Hrefl by (intros d; by apply moved_nil).
  destruct Hstep as [i rp d reps log Hi Hp|i rp d h reps log Hi Hp|i rp d h reps log d1 snap d2 Hi Hp He Ha|i rp d h reps log e Hi Hp
    |i rp d h reps log snap m rest r d' Hi Hp Hr|i rp d h reps log snap m rest r e d' Hi Hp Hr|i rp d h reps log snap Hi Hp|i rp d h reps log Hi
    |d h reps log|w d h reps log]; cbn [fl_db fl_holder fl_reps fl_log] in *.
  1-8: pose proof (Hreps _ _ Hi) as [Hids Hrp].
  - split_and!; try done. eapply reps_update; [done|apply Hrefl|by left|]. by split.
  - split_and!; try done. eapply reps_update; [done|apply Hrefl|by right|]. by split.
  - rewrite Hp in Hrp. apply ensure_same in He as [S1 R1]. apply read_same in Ha as (S2 & R2 & Hs).
    assert (moved [] d d2) as Hm by (apply moved_nil; congruence). split_and!; [by eapply moved_trans_nil|done|done|].
    eapply reps_update; [done|exact Hm|left; intros j Hj; congruence|]. split; [done|]. cbn. split; [done|]. exists []. split_and!; [done| |by intros m ?%elem_of_nil].
    intros m _. rewrite (Hs _ eq_refl). congruence.
  - rewrite Hp in Hrp. split_and!; try done. eapply reps_update; [done|apply Hrefl|left; intros j Hj; congruence|]. by split.
  - destruct (turn_ok d0 d d' h i rp snap m rest r None log (Hreps _ _ Hi) Hp Hr ltac:(done)) as (Hh & (? & ? & ?) & [ms Hms] & Hme).
    split_and!; try done. eapply reps_update; [done|exact Hms|left; intros j Hj; congruence|by apply Hme].
  - destruct (turn_ok d0 d d' h i rp snap m rest r (Some e) log (Hreps _ _ Hi) Hp Hr ltac:(done)) as (Hh & (? & ? & ?) & [ms Hms] & Hme).
    split_and!; try done. eapply reps_update; [done|exact Hms|left; intros j Hj; congruence|by split].
  - rewrite Hp in Hrp. destruct Hrp as (Hh & pre & Hpre & _ & Hdone). split_and!; try done.
    eapply reps_update; [done|apply Hrefl|left; intros j Hj; congruence|]. split; [done|]. cbn. rewrite Hpre, app_nil_r. done.
  - split_and!; try done. eapply reps_update; [done|apply Hrefl| |by split].
    destruct (freed_cases i h) as [[-> _]| ->]; [left; congruence|by right].
  - destruct (pg_EnsureLedger d) as [ok d1] eqn:E. apply ensure_same in E as [S1 R1]. cbn [snd].
    split_and!; [by eapply moved_trans_nil; [|apply moved_nil]|done|done|]. intros i rp Hi. by eapply moved_id; [| |apply Hreps].
  - split_and!; done.
Qed.

Definition fresh (rp : replica) : Prop := rp_pc rp = Waiting ∧ NoDup (map mg_ID (rp_migs rp)).

(** [C22] Any number of replicas may migrate at once, be killed, and meet any failures of
    the database: what took effect on the schema is the log, in order and each
    whole; no migration takes effect twice, nor one that the ledger already had;
    the ledger records exactly those besides what it had; at most one replica is
    past the lock; and a replica that reports success finds every migration of its
    own in the ledger. *)
Theorem migrations_once (d0 : database S) (reps : list replica) (f : fleet) :
  Forall fresh reps → rtc fstep (mkFleet d0 None reps []) f →
  moved (fl_log f) d0 (fl_db f) ∧ NoDup (map mg_ID (fl_log f)) ∧ (∀ m, m ∈ fl_log f → ok_rows d0 !! mg_ID m = None) ∧
  (∀ i j ri rj, fl_reps f !! i = Some ri → fl_reps f !! j = Some rj →
     (rp_pc ri = Locked ∨ ∃ s t, rp_pc ri = Looping s t) → (rp_pc rj = Locked ∨ ∃ s t, rp_pc rj = Looping s t) → i = j) ∧
  (∀ i rp m, fl_reps f !! i = Some rp → rp_pc rp = Finished None → m ∈ rp_migs rp → is_Some (ok_rows (fl_db f) !! mg_ID m)).
Proof.
  intros Hf Hr. assert (fleet_ok d0 f) as (Hm & Hnd & Hnew & Hreps).
  { assert (fleet_ok d0 (mkFleet d0 None reps [])) as H0.
    { split_and!; cbn; [by apply moved_nil|constructor|by intros m ?%elem_of_nil|]. intros i rp Hi.
      rewrite Forall_lookup in Hf. destruct (Hf _ _ Hi) as [Hp Hids]. split; [done|]. by rewrite Hp. }
    clear Hf. revert H0 Hr. generalize (mkFleet d0 None reps []). intros f0 H0 Hr. induction Hr as [|x y z Hxy _ IH]; [done|].
    apply IH. by eapply fstep_ok. }
  split_and!; try done.
  - assert (∀ k rk, fl_reps f !! k = Some rk → (rp_pc rk = Locked ∨ ∃ s t, rp_pc rk = Looping s t) → fl_holder f = Some k) as Hk.
    { intros k rk Hk [E|(s & t & E)]; destruct (Hreps _ _ Hk) as [_ Hp]; rewrite E in Hp; [done|by destruct Hp]. }
    intros i j ri rj Hi Hj Pi Pj. specialize (Hk _ _ Hi Pi) as H1. specialize (Hk _ _ Hj Pj). congruence.
  - intros i rp m Hi Hp Hmm. destruct (Hreps _ _ Hi) as [_ Hrp]. rewrite Hp in Hrp. by apply Hrp.
Qed.
End Postgres.

(** ** Readiness *)

Lemma gate_Ready_spec g : fst (gate_Ready g) = true ↔ map_Forall (fun _ c => ck_Required c = true → ck_OK c = true) g.
Proof.
  unfold gate_Ready. cbn. rewrite forallb_forall. split.
  - intros H k c Hc Hreq. specialize (H c). rewrite <- list_elem_of_In, list_elem_of_fmap in H.
    assert (negb (ck_Required c && negb (ck_OK c)) = true) as E.
    { apply H. exists (k, c). split; [done|by apply elem_of_map_to_list]. }
    rewrite Hreq in E. by destruct (ck_OK c).
  - intros H c ([k c'] & -> & Hc%elem_of_map_to_list)%list_elem_of_In%list_elem_of_fmap. specialize (H _ _ Hc). cbn in H |- *.
    destruct (ck_Required c'); [|done]. by rewrite (H eq_refl).
Qed.

Lemma gate_Set_ready name ok required detail g :
  fst (gate_Ready (gate_Set name ok required detail g)) = true ↔ (required = true → ok = true) ∧ fst (gate_Ready (delete name g)) = true.
Proof. rewrite !gate_Ready_spec. unfold gate_Set. rewrite <- insert_delete_eq, map_Forall_insert by apply lookup_delete_eq. done. Qed.

(** A pod that reports ready has its schema: whichever way the server starts and
    whatever fails, if the gate is ready afterwards the migrations of this binary
    were loaded and the ledger has every one of them. *)
Theorem ready_means_schema_current {S} (exec : string → S → option S) (has_tables : S → bool) (sha : string → string)
    (detail : migrate_err + list string → string) (autoMigrate : bool) (entries : option (list dirent)) (g g' : gmap string HealthCheck)
    (d d' : database S) :
  applySchemaAtBoot exec has_tables sha detail autoMigrate entries g d = (g', d') → fst (gate_Ready g') = true →
  ∃ migs, Load sha EnginePostgres entries = Ok migs ∧ ∀ m, m ∈ migs → is_Some (ok_rows d' !! mg_ID m).
Proof.
  unfold applySchemaAtBoot, schema_at_boot. destruct (Load sha EnginePostgres entries) as [migs|e] eqn:El.
  2: { intros [= <- <-] H%gate_Set_ready. by destruct H as [H _]; specialize (H eq_refl). }
  intros H Hg. exists migs. split; [done|]. destruct autoMigrate.
  - destruct (Run _ migs d) as [[r err] d1] eqn:Er. destruct err as [e|].
    { injection H as <- <-. apply gate_Set_ready in Hg as [Hg _]. by specialize (Hg eq_refl). }
    injection H as <- <-. destruct entries as [es|]; [|done].
    apply load_ids in El as Hnd.
    eapply run_prefix in Er as (ds & rest & _ & _ & Hok); [|done|done]. intros m Hm.
    destruct (Hok eq_refl) as (_ & _ & Hall). destruct (Hall m Hm) as (e & He & _). eauto.
  - unfold Pending in H. cbn [ex_EnsureLedger ex_Applied pgExecutor] in H.
    destruct (pg_EnsureLedger d) as [ok d1] eqn:E1. destruct ok; cbn [negb] in H.
    2: { injection H as <- <-. apply gate_Set_ready in Hg as [Hg _]. by specialize (Hg eq_refl). }
    destruct (read_ledger d1) as [[applied|] d2] eqn:E2.
    2: { injection H as <- <-. apply gate_Set_ready in Hg as [Hg _]. by specialize (Hg eq_refl). }
    apply read_same in E2 as (_ & R2 & Hl). specialize (Hl _ eq_refl). subst applied.
    destruct (map mg_ID (List.filter (absent (ok_rows d1)) migs)) as [|p ps] eqn:Ep; injection H as <- <-.
    2: { apply gate_Set_ready in Hg as [Hg _]. by specialize (Hg eq_refl). }
    intros m Hm. rewrite R2. destruct (ok_rows d1 !! mg_ID m) as [e|] eqn:E; [eauto|].
    assert (mg_ID m ∈ map mg_ID (List.filter (absent (ok_rows d1)) migs)) as Hin.
    { apply list_elem_of_fmap. exists m. split; [done|]. by apply (outstanding_elem (ok_rows d1) migs m). }
    rewrite Ep in Hin. by apply elem_of_nil in Hin.
Qed.

(** The analytics store cannot take the gateway down: whatever becomes of its
    schema, readiness is decided by the other checks. *)
Theorem clickhouse_never_withholds {S} (exec : string → S → option S) (has_tables : S → bool) (sha : string → string)
    (detail : migrate_err + list string → string) (autoMigrate : bool) (entries : option (list dirent)) (g : gmap string HealthCheck)
    (d : database S) :
  gate_status (fst (applyClickHouseSchemaAtBoot exec has_tables sha detail autoMigrate entries g d)) =
  gate_status (delete readyClickHouseSchema g).
Proof.
  assert (∀ ok txt, gate_status (gate_Set readyClickHouseSchema ok false txt g) = gate_status (delete readyClickHouseSchema g)) as H.
  { intros ok txt. unfold gate_status. pose proof (gate_Set_ready readyClickHouseSchema ok false txt g) as Hs.
    destruct (fst (gate_Ready (gate_Set _ _ _ _ _))), (fst (gate_Ready (delete _ _))); try done.
    - by destruct (proj1 Hs eq_refl).
    - by assert (false = true) by (apply Hs; by split). }
  unfold applyClickHouseSchemaAtBoot, schema_at_boot. destruct (Load _ _ _) as [migs|]; [|apply H].
  destruct autoMigrate.
  - destruct (Run _ _ _) as [[r [e|]] d1]; apply H.
  - destruct (Pending _ _) as [[[|p ps]|e] d1]; apply H.
Qed.

(** ** Statements of a ClickHouse file *)

Definition nl : ascii := ascii_of_nat 10.

Lemma Split_cons c s sep :
  Split (String c s) sep = if decide (c = sep) then "" :: Split s sep else match Split s sep with [] => [String c ""] | x :: xs => String c x :: xs end.
Proof. reflexivity. Qed.

Lemma Split_no_sep s sep : ¬ byte_in sep s → Split s sep = [s].
Proof.
  induction s as [|c s IH]; [done|]. intros Hn. rewrite Split_cons. destruct (decide (c = sep)) as [->|]; [destruct Hn; by left|].
  rewrite IH; [done|]. intros H. apply Hn. by right.
Qed.

Lemma Split_app_sep s sep rest : ¬ byte_in sep s → Split (s +:+ String sep rest) sep = s :: Split rest sep.
Proof.
  induction s as [|c s IH]; intros Hn.
  - change ("" +:+ String sep rest) with (String sep rest). rewrite Split_cons. by rewrite decide_True.
  - change (String c s +:+ String sep rest) with (String c (s +:+ String sep rest)). rewrite Split_cons.
    destruct (decide (c = sep)) as [->|]; [destruct Hn; by left|]. rewrite IH; [done|]. intros H. apply Hn. by right.
Qed.

Lemma Split_Join ls : ls ≠ [] → Forall (fun l => ¬ byte_in nl l) ls → Split (Join ls lf) nl = ls.
Proof.
  intros Hne Hf. induction Hf as [|l ls Hl Hf IH]; [done|]. destruct ls as [|l' ls]; [by apply Split_no_sep|].
  change (Join (l :: l' :: ls) lf) with (l +:+ String nl (Join (l' :: ls) lf)). rewrite Split_app_sep by done. f_equal. by apply IH.
Qed.

(** A line that is only a comment, or only spaces. *)
Definition idle (line : string) : Prop := HasPrefix (TrimSpace line) "--" = true ∨ TrimSpace (strip_comment line) = "".
(** A line that ends a statement. *)
Definition closes (line : string) : Prop :=
  HasPrefix (TrimSpace line) "--" = false ∧ HasSuffix (TrimSpace (strip_comment line)) ";" = true.

Lemma split_idle a line b stmt : idle line → split_loop (a ++ line :: b) stmt = split_loop (a ++ b) stmt.
Proof.
  intros Hi. revert stmt. induction a as [|x a IH]; intros stmt; cbn [app split_loop]; cbn zeta.
  - destruct (HasPrefix (TrimSpace line) "--") eqn:E; [done|]. destruct Hi as [Hi|Hi]; [congruence|]. by rewrite Hi.
  - by rewrite !IH.
Qed.

Lemma split_closed a line b stmt : closes line →
  split_loop (a ++ line :: b) stmt = (split_loop (a ++ [line]) stmt ++ split_loop b [])%list.
Proof.
  intros [H1 H2]. revert stmt. induction a as [|x a IH]; intros stmt; cbn [app split_loop].
  - rewrite H1. cbn zeta. destruct (String.eqb_spec (TrimSpace (strip_comment line)) "") as [E|_]; [by rewrite E in H2|].
    rewrite H2. cbn [negb]. by rewrite app_nil_r.
  - cbn zeta. rewrite !IH. repeat case_match; try done. by rewrite app_assoc.
Qed.

(** The splitter looks at lines.  A comment line or a blank one makes no difference
    wherever it stands and whatever semicolons it has, and after a line that ends in
    a semicolon, its comment left out, the next statement begins: the statements of
    the text are those up to that line followed by those of the rest. *)
Theorem split_by_lines (a b : list string) (line : string) :
  Forall (fun l => ¬ byte_in nl l) (a ++ line :: b) → b ≠ [] →
  (idle line → splitCHStatements (Join (a ++ line :: b) lf) = splitCHStatements (Join (a ++ b) lf)) ∧
  (closes line → splitCHStatements (Join (a ++ line :: b) lf) =
     (splitCHStatements (Join (a ++ [line]) lf) ++ splitCHStatements (Join b lf))%list).
Proof.
  intros Hf Hb. apply Forall_app in Hf as [Ha [Hl Hb']%Forall_cons]. unfold splitCHStatements. change (ascii_of_nat 10) with nl.
  rewrite (Split_Join (a ++ line :: b)); [|by destruct a|by apply Forall_app; split; [|constructor]]. split.
  - intros Hi. rewrite (Split_Join (a ++ b)); [|by destruct a|by apply Forall_app]. by apply split_idle.
  - intros Hc. rewrite (Split_Join (a ++ [line])), (Split_Join b); [by apply split_closed|done|done|by destruct a|].
    apply Forall_app. split; [done|]. by repeat constructor.
Qed.

(** Two statements on one line are sent as one. *)
Theorem one_line_is_one_statement : splitCHStatements "CREATE TABLE a; CREATE TABLE b;" = ["CREATE TABLE a; CREATE TABLE b"].
Proof. vm_compute. reflexivity. Qed.

(** ** Instances *)

Definition toy_exec (sql : string) (s : list string) : option (list string) := if String.eqb sql "bad" then None else Some (s ++ [sql])%list.
Definition toy_tables (s : list string) : bool := match s with [] => false | _ => true end.
Definition toy_sha (s : string) : string := "sha:" +:+ s.
Definition toy_entries : list dirent :=
  [mkDirent "002_b.sql" false (Some "B"); mkDirent "README" false (Some ""); mkDirent "001_a.sql" false (Some "A")].
Definition toy_migs : list Migration :=
  [migration_of toy_sha EnginePostgres "001_a.sql" 1 "A"; migration_of toy_sha EnginePostgres "002_b.sql" 2 "B"].
Definition toy_db (w : list call) : database (list string) := mkDb [] None w.

Lemma toy_loaded : Load toy_sha EnginePostgres (Some toy_entries) = Ok toy_migs.
Proof. vm_compute. reflexivity. Qed.

Lemma load_complete_and_ordered_witness :
  Load toy_sha EnginePostgres (Some toy_entries) = Ok toy_migs ∧ NoDup (map mg_ID toy_migs).
Proof. split; [exact toy_loaded|]. apply (load_complete_and_ordered toy_sha EnginePostgres toy_entries toy_migs toy_loaded). Defined.

(** The second migration's commit is done and its answer lost. *)
Lemma run_applies_prefix_witness :
  ∃ r d', @Run _ (pgExecutor toy_exec toy_tables) (mkMOptions false false) toy_migs (toy_db (replicate 11 Works ++ [LostReply])%list) =
            (r, Some (ApplyFailed "postgres/002_b.sql"), d') ∧ schema d' = ["A"; "B"] ∧
          ∃ ds rest, outstanding ∅ toy_migs = (ds ++ rest)%list ∧ moved toy_exec ds (toy_db []) d'.
Proof.
  eexists _, _. split; [vm_compute; reflexivity|]. split; [reflexivity|].
  edestruct (run_applies_prefix toy_exec toy_tables (mkMOptions false false) toy_migs (toy_db (replicate 11 Works ++ [LostReply])%list))
    as (ds & rest & Ho & Hm & _); [|reflexivity|vm_compute; reflexivity|].
  - apply (load_ids _ _ _ _ toy_loaded).
  - exists ds, rest. split; [exact Ho|exact Hm].
Defined.

Lemma check_changes_nothing_witness :
  let '(r, err, d') := @Run _ (pgExecutor toy_exec toy_tables) (mkMOptions true false) toy_migs (toy_db []) in
  schema d' = [] ∧ rs_Pending r = ["postgres/001_a.sql"; "postgres/002_b.sql"].
Proof.
  destruct (@Run _ (pgExecutor toy_exec toy_tables) (mkMOptions true false) toy_migs (toy_db [])) as [[r err] d'] eqn:E.
  pose proof (check_changes_nothing toy_exec toy_tables false toy_migs (toy_db []) r err d' E) as (Hs & _ & Hp).
  split; [exact Hs|]. vm_compute in E. injection E as <- <- <-. reflexivity.
Defined.

Definition toy_fleet : fleet := mkFleet (toy_db []) None [mkReplica toy_migs false Waiting; mkReplica toy_migs false Waiting] [].

Lemma migrations_once_witness :
  ∃ f, rtc (fstep toy_exec toy_tables) toy_fleet f ∧ fl_holder f = Some 1%nat ∧ moved toy_exec (fl_log f) (toy_db []) (fl_db f).
Proof.
  eexists. assert (rtc (fstep toy_exec toy_tables) toy_fleet (mkFleet (toy_db []) (Some 1%nat) [mkReplica toy_migs false Waiting; mkReplica toy_migs false Locked] [])) as H.
  { apply rtc_once. by apply (f_lock toy_exec toy_tables 1 (mkReplica toy_migs false Waiting)). }
  split; [exact H|]. split; [reflexivity|].
  eapply (migrations_once toy_exec toy_tables (toy_db []) [mkReplica toy_migs false Waiting; mkReplica toy_migs false Waiting]); [|exact H].
  assert (fresh (mkReplica toy_migs false Waiting)) as Hfr by (split; [reflexivity|exact (load_ids _ _ _ _ toy_loaded)]).
  apply Forall_cons; split; [exact Hfr|]. apply Forall_cons; split; [exact Hfr|constructor].
Defined.

Lemma ready_means_schema_current_witness :
  ∃ g' d', applySchemaAtBoot toy_exec toy_tables toy_sha (fun _ => "") true (Some toy_entries) ∅ (toy_db []) = (g', d') ∧
    fst (gate_Ready g') = true ∧ ∃ migs, Load toy_sha EnginePostgres (Some toy_entries) = Ok migs ∧ ∀ m, m ∈ migs → is_Some (ok_rows d' !! mg_ID m).
Proof.
  eexists _, _. split; [vm_compute; reflexivity|]. split; [vm_compute; reflexivity|].
  eapply (ready_means_schema_current toy_exec toy_tables toy_sha (fun _ => "") true (Some toy_entries) ∅ _ (toy_db [])); vm_compute; reflexivity.
Defined.

Lemma split_by_lines_witness :
  splitCHStatements (Join ["CREATE TABLE a;"; "-- then b; the rest"; "CREATE TABLE b;"] lf) = ["CREATE TABLE a"; "CREATE TABLE b"].
Proof.
  etransitivity; [exact (proj1 (split_by_lines ["CREATE TABLE a;"] ["CREATE TABLE b;"] "-- then b; the rest"
    ltac:(repeat constructor; cbn; intuition discriminate) ltac:(discriminate)) (or_introl eq_refl))|].
  vm_compute. reflexivity.
Defined.
