(* ===== verification/Bench.v ===== *)
(** * Bench: src/internal/benchmark, src/internal/cron and their tables

    Benchmark runs and schedules: the rows (core/benchmark_runs.go,
    core/benchmark_schedules.go), the provider's client (benchmark/client.go,
    resolve.go, types.go), the life cycle of a run (runner.go, schedule.go), the
    detection of drift (drift.go), the timetable (cron/runner.go with the adapter in
    cmd/nexus/sched_adapter.go) and the console's schedule endpoints
    (console/schedule_handlers.go).

    The provider is a record of its answers, and each call to the database or to the
    keys that can fail takes its outcome from the environment of the operation. *)

From stdpp Require Import pretty.
From S2P Require Import Prelude GoString GoTime Float64 GoSort Middleware.
Local Open Scope string_scope.
Local Open Scope Z_scope.
Local Open Scope go_scope.

(** ** types.go *)

Definition ProviderPrime : string := "primeintellect".
Definition StatusPending : string := "pending".
Definition StatusRunning : string := "running".
Definition StatusCompleted : string := "completed".
Definition StatusFailed : string := "failed".
Definition StatusCancelled : string := "cancelled".
Definition MaxTotalSamples : Z := 2000.

Inductive bench_err := ErrNoToken | ErrInvalidRequest (why : string) | ErrConflict | BenchNotFound | BenchOther (msg : string).

(** [int] on the platforms the program is built for. *)
Definition int64 (z : Z) : Z := (z + 2 ^ 63) mod 2 ^ 64 - 2 ^ 63.

Record LaunchRequest := mkLaunch {
  lr_ScheduleID : string; lr_Environments : list string; lr_Model : string; lr_NumExamples : Z; lr_Rollouts : Z; lr_Name : string;
  lr_BaseURL : string; lr_KeyVar : string; lr_Secrets : gmap string string; lr_TimeoutMinutes : Z; lr_TeamID : string
}.

Definition TotalSamples (r : LaunchRequest) : Z := int64 (lr_NumExamples r * lr_Rollouts r).

Definition launch_Validate (r : LaunchRequest) : option bench_err :=
  let bad why := Some (ErrInvalidRequest why) in
  if (length (lr_Environments r) =? 0)%nat then bad "at least one environment is required"
  else if existsb (String.eqb "") (lr_Environments r) then bad "environment slug must not be empty"
  else if String.eqb (lr_Model r) "" then bad "model is required"
  else if lr_NumExamples r <? 1 then bad "num_examples must be at least 1"
  else if lr_Rollouts r <? 1 then bad "rollouts must be at least 1"
  else if MaxTotalSamples <? TotalSamples r then bad "total samples exceed the cap"
  else if negb (lr_TimeoutMinutes r =? 0) && ((lr_TimeoutMinutes r <? 120) || (1440 <? lr_TimeoutMinutes r)) then
    bad "timeout_minutes must be between 120 and 1440 when set"
  else if negb (String.eqb (lr_BaseURL r) "") then
    if String.eqb (lr_KeyVar r) "" then bad "gateway-routed runs need an api key variable name"
    else if String.eqb (default "" (lr_Secrets r !! lr_KeyVar r)) "" then bad "gateway-routed runs need a secret"
    else None
  else None.

Record LaunchResult := mkLaunchResult { ls_EvaluationID : string; ls_Status : string; ls_Error : string }.
Definition no_launch : LaunchResult := mkLaunchResult "" "" "".

Record Evaluation := mkEvaluation {
  ev_Status : string; ev_TotalSamples : Z; ev_AvgScore : option float64; ev_MinScore : option float64; ev_MaxScore : option float64;
  ev_Metrics : string; ev_ViewerURL : string; ev_ErrorMessage : string; ev_StartedAt : option Time; ev_CompletedAt : option Time
}.

Definition NormalizeStatus (vendor : string) : string :=
  if String.eqb vendor "PENDING" then StatusPending
  else if String.eqb vendor "COMPLETED" then StatusCompleted
  else if String.eqb vendor "FAILED" || String.eqb vendor "TIMEOUT" then StatusFailed
  else if String.eqb vendor "CANCELLED" then StatusCancelled
  else StatusRunning.

Definition Settled (status : string) : bool :=
  String.eqb status StatusCompleted || String.eqb status StatusFailed || String.eqb status StatusCancelled.

(** ** client.go, resolve.go *)

Record createRequest := mkCreate { cr_EnvironmentIDs : list string; cr_Model : string; cr_Name : string; cr_TeamID : string;
  cr_NumExamples : Z; cr_Rollouts : Z; cr_Timeout : option Z; cr_BaseURL : string; cr_KeyVar : string; cr_Secrets : gmap string string }.

(** The provider: each call answers a decoded reply or an error text. *)
Record vendor := mkVendor {
  vd_environment : string → string → res string string;
  vd_create : createRequest → res string LaunchResult;
  vd_cancel : string → res string unit;
  vd_status : string → res string Evaluation;
  vd_logs : string → res string string
}.

Section Client.
Context (v : vendor).

Definition resolveEnvironmentID (slug : string) : res bench_err string :=
  if String.eqb slug "" then Err (ErrInvalidRequest "environment slug must not be empty")
  else match Cut slug "/" with
  | None => Ok slug
  | Some (owner, name) =>
      if String.eqb owner "" || String.eqb name "" then Err (ErrInvalidRequest "environment slug must be owner/name")
      else match vd_environment v owner name with
           | Err e => Err (BenchOther e)
           | Ok id => if String.eqb id "" then Err (BenchOther "environment resolved to an empty id") else Ok id
           end
  end.

Fixpoint resolveEnvironmentIDs (slugs : list string) : res bench_err (list string) :=
  match slugs with
  | [] => Ok []
  | s :: ss => match resolveEnvironmentID s with
               | Err e => Err e
               | Ok id => match resolveEnvironmentIDs ss with Err e => Err e | Ok ids => Ok (id :: ids) end
               end
  end.

(** [Client.Launch]: the result goes with an error that comes after the call. *)
Definition client_Launch (token : string) (req : LaunchRequest) : LaunchResult * option bench_err :=
  if String.eqb token "" then (no_launch, Some ErrNoToken)
  else match launch_Validate req with
  | Some e => (no_launch, Some e)
  | None =>
      match resolveEnvironmentIDs (lr_Environments req) with
      | Err e => (no_launch, Some e)
      | Ok ids =>
          let body := mkCreate ids (lr_Model req) (lr_Name req) (TrimSpace (lr_TeamID req)) (lr_NumExamples req) (lr_Rollouts req)
                        (if 0 <? lr_TimeoutMinutes req then Some (lr_TimeoutMinutes req) else None)
                        (lr_BaseURL req) (lr_KeyVar req) (lr_Secrets req) in
          match vd_create v body with
          | Err e => (no_launch, Some (BenchOther e))
          | Ok out => (out, if String.eqb (ls_EvaluationID out) "" then Some (BenchOther ("launch returned no evaluation id: " +:+ ls_Error out)) else None)
          end
      end
  end.

Definition dryRunAlreadySettled (status : string) : bool :=
  existsb (String.eqb status) ["FAILED"; "COMPLETED"; "CANCELLED"; "TIMEOUT"] || Settled (NormalizeStatus status).

Definition dryRunBillingOnlyFailure (msg : string) : bool :=
  let m := ToLower msg in Contains m "insufficient funds" || Contains m "insufficient balance" || Contains m "need at least $".

Definition dryRunCancelAlreadyTerminal (err : string) : bool :=
  let m := ToLower err in
  Contains m "409" && (Contains m "cannot be cancelled" || Contains m "already failed" || Contains m "already completed" || Contains m "already cancelled").

(** [Client.DryRun]: the warning. *)
Definition client_DryRun (token : string) (req : LaunchRequest) : res bench_err string :=
  let probe := mkLaunch "" (lr_Environments req) (lr_Model req) 1 1 "nexus-dry-run" "" "" ∅ (lr_TimeoutMinutes req) "" in
  if String.eqb token "" then Err ErrNoToken
  else match launch_Validate probe with
  | Some e => Err e
  | None =>
      match resolveEnvironmentIDs (lr_Environments probe) with
      | Err e => Err e
      | Ok ids =>
          match vd_create v (mkCreate ids (lr_Model probe) (lr_Name probe) (TrimSpace (lr_TeamID req)) 1 1
                               (if 0 <? lr_TimeoutMinutes probe then Some (lr_TimeoutMinutes probe) else None) "" "" ∅) with
          | Err e => Err (BenchOther e)
          | Ok out =>
              if String.eqb (ls_EvaluationID out) "" then Err (BenchOther "dry-run launch returned no evaluation id")
              else if dryRunAlreadySettled (ls_Status out) then
                let msg := TrimSpace (ls_Error out) in
                if negb (String.eqb msg "") && negb (dryRunBillingOnlyFailure msg) then Err (BenchOther msg) else Ok msg
              else match vd_cancel v (ls_EvaluationID out) with
                   | Ok _ => Ok ""
                   | Err e => if dryRunCancelAlreadyTerminal e then Ok "" else Err (BenchOther e)
                   end
          end
      end
  end.
End Client.

(** ** core/benchmark_runs.go *)

Record BenchmarkRun := mkRun {
  br_ID : string; br_OrgID : string; br_Provider : string; br_ExternalID : string; br_Name : string; br_Environments : list string;
  br_Model : string; br_NumExamples : Z; br_Rollouts : Z; br_ViaGateway : bool; br_VKeyID : string; br_Status : string;
  br_ExternalStatus : string; br_AvgScore : option float64; br_MinScore : option float64; br_MaxScore : option float64;
  br_TotalSamples : option Z; br_Metrics : string; br_ViewerURL : string; br_Error : string; br_CreatedBy : string;
  br_CreatedAt : Time; br_UpdatedAt : Time; br_StartedAt : option Time; br_CompletedAt : option Time; br_ScheduleID : string
}.

Abbreviation runs_table := (gmap string BenchmarkRun).

Definition no_run (id : string) : BenchmarkRun :=
  mkRun id "" "" "" "" [] "" 0 0 false "" "" "" None None None None "" "" "" "" 0 0 None None "".

(** [CreateBenchmarkRun]: the columns of the insert; the id is the primary key. *)
Definition CreateBenchmarkRun (now : Time) (r : BenchmarkRun) (t : runs_table) : res bench_err runs_table :=
  if String.eqb (br_ID r) "" then Err (BenchOther "benchmark run id is required")
  else if String.eqb (br_Model r) "" then Err (BenchOther "benchmark run model is required")
  else if String.eqb (br_Provider r) "" then Err (BenchOther "benchmark run provider is required")
  else if String.eqb (br_Status r) "" then Err (BenchOther "benchmark run status is required")
  else match t !! br_ID r with
  | Some _ => Err (BenchOther "duplicate key")
  | None =>
      Ok (<[br_ID r := mkRun (br_ID r) (br_OrgID r) (br_Provider r) (br_ExternalID r) (br_Name r) (br_Environments r) (br_Model r)
             (br_NumExamples r) (br_Rollouts r) (br_ViaGateway r) (br_VKeyID r) (br_Status r) "" None None None None "" "" ""
             (br_CreatedBy r) now now None None (br_ScheduleID r)]> t)
  end.

Definition coalesce {A} (a b : option A) : option A := match a with Some _ => a | None => b end.
Definition nonblank (a b : string) : string := if String.eqb a "" then b else a.

(** [UpdateBenchmarkRunProgress]: the columns it sets, on the row as it is. *)
Definition progressed (now : Time) (r row : BenchmarkRun) : BenchmarkRun :=
  mkRun (br_ID row) (br_OrgID row) (br_Provider row) (nonblank (br_ExternalID r) (br_ExternalID row)) (br_Name row) (br_Environments row)
    (br_Model row) (br_NumExamples row) (br_Rollouts row) (br_ViaGateway row) (br_VKeyID row) (br_Status r) (br_ExternalStatus r)
    (br_AvgScore r) (br_MinScore r) (br_MaxScore r) (br_TotalSamples r) (nonblank (br_Metrics r) (br_Metrics row))
    (nonblank (br_ViewerURL r) (br_ViewerURL row)) (br_Error r) (br_CreatedBy row) (br_CreatedAt row) now
    (coalesce (br_StartedAt r) (br_StartedAt row)) (coalesce (br_CompletedAt r) (br_CompletedAt row)) (br_ScheduleID row).

Definition UpdateBenchmarkRunProgress (now : Time) (r : BenchmarkRun) (t : runs_table) : res bench_err runs_table :=
  if String.eqb (br_ID r) "" then Err (BenchOther "benchmark run id is required")
  else match t !! br_ID r with
       | None => Err BenchNotFound
       | Some row => Ok (<[br_ID r := progressed now r row]> t)
       end.

Definition without_key (now : Time) (row : BenchmarkRun) : BenchmarkRun :=
  mkRun (br_ID row) (br_OrgID row) (br_Provider row) (br_ExternalID row) (br_Name row) (br_Environments row) (br_Model row) (br_NumExamples row)
    (br_Rollouts row) (br_ViaGateway row) "" (br_Status row) (br_ExternalStatus row) (br_AvgScore row) (br_MinScore row) (br_MaxScore row)
    (br_TotalSamples row) (br_Metrics row) (br_ViewerURL row) (br_Error row) (br_CreatedBy row) (br_CreatedAt row) now (br_StartedAt row)
    (br_CompletedAt row) (br_ScheduleID row).

Definition ClearBenchmarkRunVKey (now : Time) (id : string) (t : runs_table) : runs_table := alter (without_key now) id t.

Definition GetBenchmarkRun (id : string) (t : runs_table) : option BenchmarkRun := t !! id.

Definition run_limit (limit : Z) : nat := Z.to_nat (if (limit <=? 0) || (500 <? limit) then 100 else limit).

Definition ListBenchmarkRuns (org : string) (limit : Z) (t : runs_table) : list BenchmarkRun :=
  firstn (run_limit limit) (SliceStable (fun a b => br_CreatedAt b <? br_CreatedAt a)
    (List.filter (fun r => String.eqb org "" || String.eqb (br_OrgID r) org) (map snd (map_to_list t)))).

Definition unsettled_row (r : BenchmarkRun) : bool :=
  (String.eqb (br_Status r) StatusPending || String.eqb (br_Status r) StatusRunning) && negb (String.eqb (br_ExternalID r) "").

Definition ListUnsettledBenchmarkRuns (limit : Z) (t : runs_table) : list BenchmarkRun :=
  firstn (run_limit limit) (SliceStable (fun a b => br_UpdatedAt a <? br_UpdatedAt b) (List.filter unsettled_row (map snd (map_to_list t)))).

Definition DeleteBenchmarkRun (id : string) (t : runs_table) : res bench_err runs_table :=
  match t !! id with None => Err BenchNotFound | Some _ => Ok (delete id t) end.

(** ** drift.go *)

Record RunLite := mkLite { rl_ID : string; rl_Model : string; rl_AvgScore : float64; rl_CompletedAt : Time }.
Record DriftAlertSpec := mkDrift { ds_RelativeChangeThreshold : float64; ds_FreshnessThreshold : Duration }.
Definition DefaultDriftAlertSpec : DriftAlertSpec := mkDrift (lit 5 100) (30 * 24 * Hour).
Record DriftAlert := mkAlert { da_Model : string; da_Kind : string; da_Current : float64; da_Previous : float64; da_RunID : string; da_ObservedAt : Time; da_Origin : string }.

(** [ObserveSettle]; [recent] is the answer of [ListRecentSettledRuns] for two rows. *)
Definition ObserveSettle (spec : DriftAlertSpec) (recent : string → option (list RunLite)) (just : RunLite) : option DriftAlert :=
  if fle (ds_RelativeChangeThreshold spec) fzero then None
  else if fle (rl_AvgScore just) fzero || IsZero (rl_CompletedAt just) then None
  else match recent (rl_Model just) with
  | None => None
  | Some previous =>
      match List.find (fun r => negb (String.eqb (rl_ID r) (rl_ID just))) previous with
      | None => None
      | Some prior =>
          if String.eqb (rl_ID prior) "" || fle (rl_AvgScore prior) fzero then None
          else
            let rel := fdiv (fsub (rl_AvgScore just) (rl_AvgScore prior)) (rl_AvgScore prior) in
            let rel := if flt rel fzero then fopp rel else rel in
            if flt rel (ds_RelativeChangeThreshold spec) then None
            else Some (mkAlert (rl_Model just) "relative_change" (rl_AvgScore just) (rl_AvgScore prior) (rl_ID just) (rl_CompletedAt just) "settle")
      end
  end.

(** [ObserveStaleness]; [recent] answers for one row. *)
Definition ObserveStaleness (now : Time) (spec : DriftAlertSpec) (recent : string → option (list RunLite)) (models : list string) : list DriftAlert :=
  if ds_FreshnessThreshold spec <=? 0 then []
  else omap (fun m =>
    match recent m with
    | Some (latest :: _) =>
        if Sub now (rl_CompletedAt latest) <=? ds_FreshnessThreshold spec then None
        else Some (mkAlert m "freshness_age" (rl_AvgScore latest) fzero (rl_ID latest) now "boot")
    | _ => None
    end) models.

(** ** runner.go *)

(** The rows, the gateway keys that are live, and how many were minted. *)
Record bworld := mkBW { bw_runs : runs_table; bw_live : gset string; bw_minted : nat }.

(** What an operation meets: the clock, a new uuid, the provider's credential and
    team, the provider, the public gateway, and which calls work. *)
Record benv := mkBenv {
  be_now : Time; be_uuid : string; be_token : option string; be_team : option string; be_vendor : vendor; be_gateway : string;
  be_mint : bool; be_create : bool; be_update : bool; be_clear : bool; be_revoke : bool
}.

Definition runKeyRPM : Z := 120.
Definition pollBatch : Z := 50.

Definition NewRunner_gateway (url : string) : string :=
  let fix trim (n : nat) (s : string) := match n with O => s | S n => if HasSuffix s "/" then trim n (take_bytes (String.length s - 1) s) else s end in
  let s := TrimSpace url in trim (String.length s) s.

Definition orgOr (org : string) : string := if String.eqb org "" then "default" else org.

Definition allowedModelsForBenchmark (model : string) : list string :=
  let model := TrimSpace model in
  if String.eqb model "" then []
  else model :: match Cut model "/" with Some (_, rest) => if String.eqb rest "" then [] else [rest] | None => [] end.

Record LaunchSpec := mkSpec {
  sp_OrgID : string; sp_ActorID : string; sp_Name : string; sp_ScheduleID : string; sp_Environments : list string; sp_Model : string;
  sp_NumExamples : Z; sp_Rollouts : Z; sp_TimeoutMinutes : Z; sp_ViaGateway : bool
}.

Definition vkey (n : nat) : string := "vk_" +:+ pretty n.
Definition with_runs (t : runs_table) (w : bworld) : bworld := mkBW t (bw_live w) (bw_minted w).

Section Runner.
Context (E : benv).

Definition bench_revokeKey (run : BenchmarkRun) (w : bworld) : bworld :=
  if String.eqb (br_VKeyID run) "" || negb (be_revoke E) then w else mkBW (bw_runs w) (bw_live w ∖ {[br_VKeyID run]}) (bw_minted w).

Definition update (r : BenchmarkRun) (w : bworld) : res bench_err bworld :=
  if negb (be_update E) then Err (BenchOther "update failed")
  else match UpdateBenchmarkRunProgress (be_now E) r (bw_runs w) with Err e => Err e | Ok t => Ok (with_runs t w) end.

Definition clear (id : string) (w : bworld) : bworld :=
  if be_clear E then with_runs (ClearBenchmarkRunVKey (be_now E) id (bw_runs w)) w else w.

Definition set_outcome (status external id err : string) (r : BenchmarkRun) : BenchmarkRun :=
  mkRun (br_ID r) (br_OrgID r) (br_Provider r) id (br_Name r) (br_Environments r) (br_Model r) (br_NumExamples r) (br_Rollouts r)
    (br_ViaGateway r) (br_VKeyID r) status external (br_AvgScore r) (br_MinScore r) (br_MaxScore r) (br_TotalSamples r) (br_Metrics r)
    (br_ViewerURL r) err (br_CreatedBy r) (br_CreatedAt r) (br_UpdatedAt r) (br_StartedAt r) (br_CompletedAt r) (br_ScheduleID r).

Definition err_text (e : bench_err) : string :=
  match e with
  | ErrNoToken => "benchmark: no provider API token configured"
  | ErrInvalidRequest why => "benchmark: invalid request: " +:+ why
  | ErrConflict => "benchmark: conflicting run state"
  | BenchNotFound => "not found"
  | BenchOther m => m
  end.

(** From the insert of the row on: [token] and [req] are settled and the key minted. *)
Definition launch_recorded (token : string) (req : LaunchRequest) (run : BenchmarkRun) (w : bworld) : BenchmarkRun * option bench_err * bworld :=
  match (if be_create E then CreateBenchmarkRun (be_now E) run (bw_runs w) else Err (BenchOther "insert failed")) with
  | Err e => (no_run "", Some e, bench_revokeKey run w)
  | Ok t =>
      let w := with_runs t w in
      match client_Launch (be_vendor E) token req with
      | (res, Some e) =>
          let run := set_outcome StatusFailed "" (ls_EvaluationID res) (err_text e) run in
          let w := match update run w with Ok w' => w' | Err _ => w end in
          (run, Some e, bench_revokeKey run w)
      | (res, None) =>
          let status := NormalizeStatus (ls_Status res) in
          let err := if String.eqb status StatusFailed && negb (String.eqb (TrimSpace (ls_Error res)) "") then TrimSpace (ls_Error res) else "" in
          let run := set_outcome status (ls_Status res) (ls_EvaluationID res) err run in
          (run, None, match update run w with Ok w' => w' | Err _ => w end)
      end
  end.

Definition with_gateway (secret : string) (req : LaunchRequest) : LaunchRequest :=
  mkLaunch (lr_ScheduleID req) (lr_Environments req) (lr_Model req) (lr_NumExamples req) (lr_Rollouts req) (lr_Name req)
    (be_gateway E +:+ "/v1") "NEXUS_API_KEY" {["NEXUS_API_KEY" := secret]} (lr_TimeoutMinutes req) (lr_TeamID req).

(** The row of a new run, and the request for it. *)
Definition new_run (spec : LaunchSpec) (vk : string) : BenchmarkRun :=
  mkRun (be_uuid E) (sp_OrgID spec) ProviderPrime "" (sp_Name spec) (sp_Environments spec) (sp_Model spec) (sp_NumExamples spec)
    (sp_Rollouts spec) (sp_ViaGateway spec) vk StatusPending "" None None None None "" "" "" (sp_ActorID spec) 0 0 None None (sp_ScheduleID spec).

Definition launch_request (spec : LaunchSpec) (team : string) : LaunchRequest :=
  mkLaunch (sp_ScheduleID spec) (sp_Environments spec) (sp_Model spec) (sp_NumExamples spec) (sp_Rollouts spec) (sp_Name spec) "" "" ∅
    (sp_TimeoutMinutes spec) team.

(** [Launch]. *)
Definition Launch (spec : LaunchSpec) (w : bworld) : BenchmarkRun * option bench_err * bworld :=
  match be_token E with
  | None => (no_run "", Some (BenchOther "token"), w)
  | Some token =>
  if String.eqb token "" then (no_run "", Some ErrNoToken, w)
  else match be_team E with
  | None => (no_run "", Some (BenchOther "team"), w)
  | Some team =>
      let req := launch_request spec team in
      match launch_Validate req with
      | Some e => (no_run "", Some e, w)
      | None =>
          if negb (sp_ViaGateway spec) then launch_recorded token req (new_run spec "") w
          else if String.eqb (be_gateway E) "" then (no_run "", Some (ErrInvalidRequest "gateway-routed runs need NEXUS_PUBLIC_GATEWAY_URL to be set"), w)
          else if negb (be_mint E) then (no_run "", Some (BenchOther "mint gateway key"), w)
          else
            let k := vkey (bw_minted w) in
            launch_recorded token (with_gateway ("secret of " +:+ k) req) (new_run spec k) (mkBW (bw_runs w) ({[k]} ∪ bw_live w) (S (bw_minted w)))
      end
  end end.

(** The row a reading of the provider gives. *)
Definition status_row (run : BenchmarkRun) (ev : Evaluation) : BenchmarkRun :=
  mkRun (br_ID run) "" "" (br_ExternalID run) "" [] "" 0 0 false "" (NormalizeStatus (ev_Status ev)) (ev_Status ev)
    (ev_AvgScore ev) (ev_MinScore ev) (ev_MaxScore ev) (if 0 <? ev_TotalSamples ev then Some (ev_TotalSamples ev) else None)
    (ev_Metrics ev) (ev_ViewerURL ev) (ev_ErrorMessage ev) "" 0 0 (ev_StartedAt ev) (ev_CompletedAt ev) "".

(** [applyStatus]: whether the row was written, the run to watch for drift, and
    whether it has just settled. *)
Definition applyStatus (run : BenchmarkRun) (ev : Evaluation) (w : bworld) : bool * option RunLite * bool * bworld :=
  let next := status_row run ev in
  let w := if Settled (br_Status next) && negb (String.eqb (br_VKeyID run) "") then clear (br_ID run) (bench_revokeKey run w) else w in
  match update next w with
  | Err _ => (false, None, false, w)
  | Ok w =>
      let justSettled := Settled (br_Status next) && negb (Settled (br_Status run)) in
      let lite := match ev_AvgScore ev, ev_CompletedAt ev with
                  | Some score, Some at_ => if justSettled && negb (IsZero at_) then Some (mkLite (br_ID run) (br_Model run) score at_) else None
                  | _, _ => None
                  end in
      (true, lite, justSettled, w)
  end.

(** The loop of [PollOnce]; [watch] is the drift watcher. *)
Fixpoint poll_loop (watch : RunLite → option DriftAlert) (runs : list BenchmarkRun) (changed : Z) (alerts : list DriftAlert) (w : bworld) :
    Z * list DriftAlert * bworld :=
  match runs with
  | [] => (changed, alerts, w)
  | run :: rest =>
      match vd_status (be_vendor E) (br_ExternalID run) with
      | Err _ => poll_loop watch rest changed alerts w
      | Ok ev =>
          match applyStatus run ev w with
          | (false, _, _, w) => poll_loop watch rest changed alerts w
          | (true, lite, _, w) =>
              let alerts := match lite ≫= watch with Some a => (alerts ++ [a])%list | None => alerts end in
              poll_loop watch rest (changed + 1) alerts w
          end
      end
  end.

Definition PollOnce (watch : RunLite → option DriftAlert) (w : bworld) : Z * list DriftAlert * bworld :=
  match ListUnsettledBenchmarkRuns pollBatch (bw_runs w) with
  | [] => (0, [], w)
  | runs =>
      match be_token E with
      | None => (0, [], w)
      | Some token => if String.eqb token "" then (0, [], w) else poll_loop watch runs 0 [] w
      end
  end.

(** From the provider's answer on. *)
Definition cancel_settles (run : BenchmarkRun) (w : bworld) : option bench_err * bworld :=
  let w := bench_revokeKey run w in
  match update (set_outcome StatusCancelled (br_ExternalStatus run) "" "" (no_run (br_ID run))) w with
  | Err e => (Some e, w)
  | Ok w => (None, clear (br_ID run) w)
  end.

Definition Cancel (id : string) (w : bworld) : option bench_err * bworld :=
  match GetBenchmarkRun id (bw_runs w) with
  | None => (Some BenchNotFound, w)
  | Some run =>
      if Settled (br_Status run) then (Some ErrConflict, w)
      else if String.eqb (br_ExternalID run) "" then cancel_settles run w
      else match be_token E with
           | None => (Some (BenchOther "token"), w)
           | Some token => if String.eqb token "" then (Some ErrNoToken, w) else cancel_settles run w
           end
  end.

(** [Delete]. *)
Definition bench_Delete (id : string) (w : bworld) : option bench_err * bworld :=
  match GetBenchmarkRun id (bw_runs w) with
  | None => (Some BenchNotFound, w)
  | Some run =>
      let w := if Settled (br_Status run) then w else snd (Cancel id w) in
      let w := bench_revokeKey run w in
      match DeleteBenchmarkRun id (bw_runs w) with Err e => (Some e, w) | Ok t => (None, with_runs t w) end
  end.

Definition bench_DryRun (spec : LaunchSpec) : res bench_err string :=
  match be_token E with
  | None => Err (BenchOther "token")
  | Some token =>
      if String.eqb token "" then Err ErrNoToken
      else match be_team E with
           | None => Err (BenchOther "team")
           | Some team =>
               match launch_Validate (mkLaunch "" (sp_Environments spec) (sp_Model spec) 1 1 "nexus-dry-run" "" "" ∅ 0 "") with
               | Some e => Err e
               | None => client_DryRun (be_vendor E) token (mkLaunch "" (sp_Environments spec) (sp_Model spec) 0 0 "" "" "" ∅ 0 team)
               end
           end
  end.

Definition bench_Logs (id : string) (w : bworld) : res bench_err string :=
  match GetBenchmarkRun id (bw_runs w) with
  | None => Err BenchNotFound
  | Some run =>
      if String.eqb (br_ExternalID run) "" then Err (ErrInvalidRequest "this run never started at the provider, so it has no logs")
      else match be_token E with
           | None => Err (BenchOther "token")
           | Some token =>
               if String.eqb token "" then Err ErrNoToken
               else match vd_logs (be_vendor E) (br_ExternalID run) with Ok l => Ok l | Err e => Err (BenchOther e) end
           end
  end.
End Runner.

(** ** core/benchmark_schedules.go *)

Record BenchmarkSchedule := mkSchedule {
  bs_ID : string; bs_OrgID : string; bs_Name : string; bs_Environments : list string; bs_Model : string; bs_NumExamples : Z; bs_Rollouts : Z;
  bs_ViaGateway : bool; bs_CadenceSeconds : Z; bs_NextLaunchAt : Time; bs_Enabled : bool; bs_LastRunID : string;
  bs_LastLaunchedAt : option Time; bs_CreatedBy : string; bs_CreatedAt : Time
}.

Abbreviation schedules_table := (gmap string BenchmarkSchedule).

Definition with_next (next : Time) (r : BenchmarkSchedule) : BenchmarkSchedule :=
  mkSchedule (bs_ID r) (bs_OrgID r) (bs_Name r) (bs_Environments r) (bs_Model r) (bs_NumExamples r) (bs_Rollouts r) (bs_ViaGateway r)
    (bs_CadenceSeconds r) next (bs_Enabled r) (bs_LastRunID r) (bs_LastLaunchedAt r) (bs_CreatedBy r) (bs_CreatedAt r).
Definition with_link (run : string) (at_ : Time) (r : BenchmarkSchedule) : BenchmarkSchedule :=
  mkSchedule (bs_ID r) (bs_OrgID r) (bs_Name r) (bs_Environments r) (bs_Model r) (bs_NumExamples r) (bs_Rollouts r) (bs_ViaGateway r)
    (bs_CadenceSeconds r) (bs_NextLaunchAt r) (bs_Enabled r) run (Some at_) (bs_CreatedBy r) (bs_CreatedAt r).
Definition with_on (on : bool) (next : Time) (r : BenchmarkSchedule) : BenchmarkSchedule :=
  mkSchedule (bs_ID r) (bs_OrgID r) (bs_Name r) (bs_Environments r) (bs_Model r) (bs_NumExamples r) (bs_Rollouts r) (bs_ViaGateway r)
    (bs_CadenceSeconds r) next on (bs_LastRunID r) (bs_LastLaunchedAt r) (bs_CreatedBy r) (bs_CreatedAt r).

Definition CreateBenchmarkSchedule (now : Time) (r : BenchmarkSchedule) (t : schedules_table) : res bench_err schedules_table :=
  if String.eqb (bs_ID r) "" then Err (BenchOther "schedule id is required")
  else if String.eqb (bs_Model r) "" then Err (BenchOther "schedule model is required")
  else if bs_CadenceSeconds r <=? 0 then Err (BenchOther "cadence must be positive")
  else match t !! bs_ID r with
  | Some _ => Err (BenchOther "duplicate key")
  | None =>
      let next := if IsZero (bs_NextLaunchAt r) then Add now (bs_CadenceSeconds r * Second) else bs_NextLaunchAt r in
      Ok (<[bs_ID r := mkSchedule (bs_ID r) (bs_OrgID r) (bs_Name r) (bs_Environments r) (bs_Model r) (bs_NumExamples r) (bs_Rollouts r)
             (bs_ViaGateway r) (bs_CadenceSeconds r) next (bs_Enabled r) "" None (bs_CreatedBy r) now]> t)
  end.

Definition ListBenchmarkSchedules (org : string) (limit : Z) (t : schedules_table) : list BenchmarkSchedule :=
  firstn (run_limit limit) (SliceStable (fun a b => bs_CreatedAt b <? bs_CreatedAt a)
    (List.filter (fun r => String.eqb org "" || String.eqb (bs_OrgID r) org) (map snd (map_to_list t)))).

Definition due (now : Time) (r : BenchmarkSchedule) : bool := bs_Enabled r && (bs_NextLaunchAt r <=? now).
Definition sooner (a b : BenchmarkSchedule) : bool := bs_NextLaunchAt a <? bs_NextLaunchAt b.

Definition ListDueBenchmarkSchedules (now : Time) (limit : Z) (t : schedules_table) : list BenchmarkSchedule :=
  firstn (run_limit limit) (SliceStable sooner (List.filter (due now) (map snd (map_to_list t)))).

(** An update of no row is no error. *)
Definition UpdateBenchmarkScheduleNext (id : string) (when_ : Time) (t : schedules_table) : schedules_table := alter (with_next when_) id t.
Definition MarkBenchmarkScheduleLaunched (id run : string) (when_ : Time) (t : schedules_table) : schedules_table := alter (with_link run when_) id t.

Definition DeleteBenchmarkSchedule (id : string) (t : schedules_table) : res bench_err schedules_table :=
  if String.eqb id "" then Err (BenchOther "schedule id is required")
  else match t !! id with None => Err BenchNotFound | Some _ => Ok (delete id t) end.

Definition SetBenchmarkScheduleEnabled (id : string) (on : bool) (next : Time) (t : schedules_table) : res bench_err schedules_table :=
  if String.eqb id "" then Err (BenchOther "schedule id is required")
  else match t !! id with None => Err BenchNotFound | Some r => Ok (<[id := with_on on next r]> t) end.

Definition GetBenchmarkSchedule (id : string) (t : schedules_table) : res bench_err BenchmarkSchedule :=
  if String.eqb id "" then Err (BenchOther "schedule id is required")
  else match t !! id with None => Err BenchNotFound | Some r => Ok r end.

(** ** cron/runner.go and its adapter *)

Record CronSpec := mkCron {
  cs_ID : string; cs_OrgID : string; cs_Name : string; cs_Environments : list string; cs_Model : string; cs_NumExamples : Z; cs_Rollouts : Z;
  cs_ViaGateway : bool; cs_Cadence : Duration; cs_NextLaunchAt : Time
}.

Definition spec_of (r : BenchmarkSchedule) : CronSpec :=
  mkCron (bs_ID r) (bs_OrgID r) (bs_Name r) (bs_Environments r) (bs_Model r) (bs_NumExamples r) (bs_Rollouts r) (bs_ViaGateway r)
    (bs_CadenceSeconds r * Second) (bs_NextLaunchAt r).

(** [RunSchedule] of benchmark/schedule.go. *)
Definition RunSchedule (E : benv) (s : CronSpec) (w : bworld) : string * option bench_err * bworld :=
  let bad why := ("", Some (ErrInvalidRequest why), w) in
  if String.eqb (cs_ID s) "" then bad "schedule id is required"
  else if String.eqb (cs_Model s) "" then bad "schedule model is required"
  else if (length (cs_Environments s) =? 0)%nat then bad "at least one environment is required"
  else if cs_Cadence s <=? 0 then bad "cadence must be positive"
  else
    let '(run, e, w) := Launch E (mkSpec (cs_OrgID s) ("cron:schedule:" +:+ cs_ID s) (cs_Name s) (cs_ID s) (cs_Environments s) (cs_Model s)
                                    (cs_NumExamples s) (cs_Rollouts s) 0 (cs_ViaGateway s)) w in
    (br_ID run, e, w).

(** The timetable works on the schedules and on a state [W] that launching changes;
    [land] launches, [stamp] and [mark] say whether an update of a row works. *)
Section Timetable.
Context {W : Type} (land : CronSpec → W → res string string * W) (stamp mark : string → bool).

Record cron_state := mkCronState { ct_table : schedules_table; ct_world : W; ct_errors : gmap string string; ct_fired : list string }.

Definition restamp (id : string) (when_ : Time) (t : schedules_table) : schedules_table :=
  if stamp id then UpdateBenchmarkScheduleNext id when_ t else t.

(** [fire]; [ct_fired] is the log of launches that were tried. *)
Definition fire (now : Time) (st : cron_state) (s : CronSpec) : cron_state :=
  let '(r, w) := land s (ct_world st) in
  let t := restamp (cs_ID s) (Add now (cs_Cadence s)) (ct_table st) in
  let log := (ct_fired st ++ [cs_ID s])%list in
  match r with
  | Err e => mkCronState t w (<[cs_ID s := e]> (ct_errors st)) log
  | Ok runID =>
      mkCronState (if mark (cs_ID s) then MarkBenchmarkScheduleLaunched (cs_ID s) runID now t else t) w (delete (cs_ID s) (ct_errors st)) log
  end.

Definition tick_batch : Z := 64.

(** [tick]; the database answers. *)
Definition cron_tick (now : Time) (st : cron_state) : cron_state :=
  fold_left (fire now) (map spec_of (ListDueBenchmarkSchedules now tick_batch (ct_table st))) st.

Definition isAutoRelaunchLookbackNeeded (now : Time) (s : CronSpec) : bool :=
  if IsZero (cs_NextLaunchAt s) then false
  else
    let grace := 5 * cs_Cadence s in
    let grace := if grace <? Hour then Hour else grace in
    grace <? Sub now (cs_NextLaunchAt s).

Definition autoRelaunchEnabled (env : string) : bool := negb (String.eqb env "") && negb (String.eqb env "0") && negb (String.eqb env "false").

Definition stalenessTick (env : string) (now : Time) (st : cron_state) : cron_state :=
  if negb (autoRelaunchEnabled env) then st
  else
    let t := fold_left (fun t s => if isAutoRelaunchLookbackNeeded now s then restamp (cs_ID s) now t else t)
               (map spec_of (ListDueBenchmarkSchedules now 256 (ct_table st))) (ct_table st) in
    mkCronState t (ct_world st) (ct_errors st) (ct_fired st).

Definition LastError (id : string) (st : cron_state) : string := default "" (ct_errors st !! id).
End Timetable.

(** ** console/schedule_handlers.go *)

Record scheduleRequest := mkSchedReq {
  sq_Name : string; sq_Environments : list string; sq_Model : string; sq_NumExamples : Z; sq_Rollouts : Z; sq_ViaGateway : option bool;
  sq_CadenceSeconds : Z; sq_Enabled : option bool
}.

Definition scheduleMinCadence : Z := 60.
Definition scheduleMaxCadence : Z := 7 * 24 * 3600.

(** The status, and the table. *)
Definition createBenchmarkSchedule (now : Time) (uuid org email : string) (body : option scheduleRequest) (t : schedules_table) : Z * schedules_table :=
  match body with
  | None => (400, t)
  | Some b =>
      if String.eqb (TrimSpace (sq_Model b)) "" then (400, t)
      else if (length (sq_Environments b) =? 0)%nat then (400, t)
      else if (sq_CadenceSeconds b <? scheduleMinCadence) || (scheduleMaxCadence <? sq_CadenceSeconds b) then (400, t)
      else
        match CreateBenchmarkSchedule now (mkSchedule uuid org (TrimSpace (sq_Name b)) (sq_Environments b) (sq_Model b) (sq_NumExamples b)
                 (sq_Rollouts b) (default true (sq_ViaGateway b)) (sq_CadenceSeconds b) (Add now (sq_CadenceSeconds b * Second))
                 (default true (sq_Enabled b)) "" None email now) t with
        | Err _ => (500, t)
        | Ok t' => (201, t')
        end
  end.

(** [ownedSchedule]: the row, for a caller of its org. *)
Definition ownedSchedule (org id : string) (t : schedules_table) : option BenchmarkSchedule :=
  match GetBenchmarkSchedule id t with
  | Err _ => None
  | Ok row => if String.eqb (orgOr (bs_OrgID row)) org then Some row else None
  end.

Definition getBenchmarkSchedule (org id : string) (t : schedules_table) : Z * option BenchmarkSchedule :=
  match ownedSchedule org id t with None => (404, None) | Some row => (200, Some row) end.

Definition listBenchmarkSchedules (org : string) (t : schedules_table) : list BenchmarkSchedule := ListBenchmarkSchedules org 100 t.

Definition deleteBenchmarkSchedule (org id : string) (t : schedules_table) : Z * schedules_table :=
  match ownedSchedule org id t with
  | None => (404, t)
  | Some _ => match DeleteBenchmarkSchedule id t with Err _ => (500, t) | Ok t' => (200, t') end
  end.

(** [body] is the decoded body when there is one. *)
Definition setBenchmarkScheduleEnabled (now : Time) (org id : string) (on : bool) (body : option (option bool)) (t : schedules_table) : Z * schedules_table :=
  match ownedSchedule org id t with
  | None => (404, t)
  | Some row =>
      let refused := match body with None => false | Some None => true | Some (Some b) => negb (Bool.eqb b on) end in
      if refused then (400, t)
      else
        let next := if on && (0 <? bs_CadenceSeconds row) then Add now (bs_CadenceSeconds row * Second) else zero_time in
        match SetBenchmarkScheduleEnabled id on next t with Err _ => (500, t) | Ok t' => (200, t') end
  end.
Definition pauseBenchmarkSchedule (now : Time) (org id : string) := setBenchmarkScheduleEnabled now org id false.
Definition resumeBenchmarkSchedule (now : Time) (org id : string) := setBenchmarkScheduleEnabled now org id true.
