(* ===== verification/BenchProps.v ===== *)
(** * BenchProps: benchmark runs, their keys and their timetable

    The cost cap and where it fails, the life of the gateway key a run is given with
    any number of pollers at work, the timetable's progress, the effect of the
    staleness pass, the confinement of the schedule endpoints to an org, and drift. *)

From stdpp Require Import pretty.
From S2P Require Import Prelude GoString GoTime Float64 GoSort Middleware Bench.
Local Open Scope string_scope.
Local Open Scope Z_scope.

(** ** The cost cap *)

(** A launch that passes validation asks for at least one sample and for no more
    than the cap, provided the two numbers fit 32 bits. *)
Theorem launch_within_cap (r : LaunchRequest) :
  launch_Validate r = None → lr_NumExamples r < 2 ^ 32 → lr_Rollouts r < 2 ^ 31 →
  1 ≤ lr_NumExamples r * lr_Rollouts r ≤ MaxTotalSamples.
Proof.
  unfold launch_Validate. intros H Hn Hr. repeat (case_match; try discriminate).
  all: rewrite ?Z.ltb_ge in *; unfold TotalSamples, int64 in *; rewrite Z.mod_small in * by nia; nia.
Qed.

(** Larger numbers overflow: a request for 2^64 samples passes the cap. *)
Theorem cap_overflows :
  launch_Validate (mkLaunch "" ["primeintellect/gsm8k"] "m" (2 ^ 32) (2 ^ 32) "" "" "" ∅ 0 "") = None.
Proof. vm_compute. reflexivity. Qed.

(** ** The key of a run *)
Section Keys.

(** The key an operation on [run] leaves behind when the revocation fails, and the key
    a launch leaves behind: its revocation fails after an error, or the provider
    answers with a run that has already ended. *)
Definition left_over (E : benv) (run : BenchmarkRun) : gset string := if be_revoke E then ∅ else {[br_VKeyID run]}.

Definition launch_left (E : benv) (minted : nat) (result : BenchmarkRun * option bench_err * bworld) : gset string :=
  match result with
  | (run, None, _) => if Settled (br_Status run) then {[br_VKeyID run]} else ∅
  | (_, Some _, _) => if be_revoke E then ∅ else {[vkey minted]}
  end.

(** The store and the keys, the rows that replicas have read, and the keys that were
    left behind. *)
Definition bview : Type := bworld * list BenchmarkRun * gset string.

(** Operations on the rows that replicas have read, at any later time; each gets its
    own faults, times and provider, and a launch a fresh id. *)
Inductive bstep : bview → bview → Prop :=
| b_launch E spec w snaps X : (∀ run, run ∈ snaps → br_ID run ≠ be_uuid E) →
    bstep (w, snaps, X) (snd (Launch E spec w), snaps, X ∪ launch_left E (bw_minted w) (Launch E spec w))
| b_read id row w snaps X : bw_runs w !! id = Some row → bstep (w, snaps, X) (w, row :: snaps, X)
| b_apply E run ev w snaps X : run ∈ snaps → bstep (w, snaps, X) (snd (applyStatus E run ev w), snaps, X ∪ left_over E run)
| b_cancel E run w snaps X : run ∈ snaps → bstep (w, snaps, X) (snd (cancel_settles E run w), snaps, X ∪ left_over E run)
| b_delete E run w snaps X : run ∈ snaps →
    bstep (w, snaps, X) (with_runs (delete (br_ID run) (bw_runs w)) (bench_revokeKey E run w), snaps, X ∪ left_over E run).

(** Every live key was left behind or is held by a row that has not settled. *)
Definition held (X : gset string) (w : bworld) : Prop :=
  ∀ k, k ∈ bw_live w → k ≠ "" ∧ (k ∈ X ∨ ∃ id row, bw_runs w !! id = Some row ∧ br_VKeyID row = k ∧ Settled (br_Status row) = false).

Lemma held_mono X Y w : X ⊆ Y → held X w → held Y w.
Proof. intros Hs Hh k Hk. destruct (Hh k Hk) as [? [?|?]]; (split; [done|]); [left; set_solver|by right]. Qed.

(** What a replica has read of a row's key is still so, or the key was cleared. *)
Definition seen (w : bworld) (run : BenchmarkRun) : Prop :=
  ∀ row, bw_runs w !! br_ID run = Some row → br_VKeyID row = br_VKeyID run ∨ br_VKeyID row = "".

Definition named (w : bworld) : Prop := ∀ id row, bw_runs w !! id = Some row → br_ID row = id.

Definition keys_ok (v : bview) : Prop :=
  held (snd v) (fst (fst v)) ∧ named (fst (fst v)) ∧ ∀ run, run ∈ snd (fst v) → seen (fst (fst v)) run.

(** A change of the rows that keeps ids and keys, or clears keys. *)
Definition tame (t t' : runs_table) : Prop :=
  ∀ id row', t' !! id = Some row' → ∃ row, t !! id = Some row ∧ br_ID row' = br_ID row ∧ (br_VKeyID row' = br_VKeyID row ∨ br_VKeyID row' = "").

Lemma tame_refl t : tame t t.
Proof. intros id row H. exists row. auto. Qed.

Lemma tame_trans t t1 t2 : tame t t1 → tame t1 t2 → tame t t2.
Proof.
  intros H1 H2 id row Hr. destruct (H2 _ _ Hr) as (r1 & Hr1 & Hi & Hk). destruct (H1 _ _ Hr1) as (r0 & Hr0 & Hi' & Hk').
  exists r0. split_and!; [done|congruence|]. destruct Hk as [Hk|Hk]; [|by right]. destruct Hk'; [left|right]; congruence.
Qed.

Lemma tame_seen w w' run : tame (bw_runs w) (bw_runs w') → seen w run → seen w' run.
Proof.
  intros Ht Hs row Hr. destruct (Ht _ _ Hr) as (r0 & H0 & _ & Hk). destruct (Hs _ H0), Hk; [left|..]; try (right; congruence); congruence.
Qed.

Lemma tame_named w w' : tame (bw_runs w) (bw_runs w') → named w → named w'.
Proof. intros Ht Hn id row Hr. destruct (Ht _ _ Hr) as (r0 & H0 & -> & _). by apply Hn. Qed.

Lemma tame_delete t id : tame t (delete id t).
Proof. intros i row [_ H]%lookup_delete_Some. exists row. auto. Qed.

Lemma tame_update E r w w' : update E r w = Ok w' → tame (bw_runs w) (bw_runs w') ∧ bw_live w' = bw_live w ∧ bw_minted w' = bw_minted w ∧
  ∃ row, bw_runs w !! br_ID r = Some row ∧ bw_runs w' = <[br_ID r := progressed (be_now E) r row]> (bw_runs w).
Proof.
  unfold update, UpdateBenchmarkRunProgress. destruct (negb _); [done|]. destruct (String.eqb _ _); [done|].
  destruct (bw_runs w !! br_ID r) as [row|] eqn:El; [|done]. intros [= <-]. cbn. split_and!; [|done|done|by exists row].
  intros id row' H. destruct (decide (br_ID r = id)) as [<-|].
  - rewrite lookup_insert_eq in H. injection H as <-. exists row. auto.
  - rewrite lookup_insert_ne in H by done. exists row'. auto.
Qed.

Lemma tame_clear E id w : tame (bw_runs w) (bw_runs (clear E id w)) ∧ bw_live (clear E id w) = bw_live w ∧
  ∀ i row', bw_runs (clear E id w) !! i = Some row' → i ≠ id → bw_runs w !! i = Some row'.
Proof.
  unfold clear, ClearBenchmarkRunVKey. destruct (be_clear E); [|split_and!; [apply tame_refl|done|done]]. cbn. split_and!; [|done|].
  - intros i row' H. destruct (decide (id = i)) as [<-|]; [|rewrite lookup_alter_ne in H by done; eauto].
    rewrite lookup_alter_eq in H. destruct (bw_runs w !! id) as [row|]; [|done]. injection H as <-. exists row. auto.
  - intros i row' H Hne. by rewrite lookup_alter_ne in H by done.
Qed.

Lemma revoke_live E run w : be_revoke E = true → br_VKeyID run ≠ "" →
  bw_live (bench_revokeKey E run w) = bw_live w ∖ {[br_VKeyID run]} ∧ bw_runs (bench_revokeKey E run w) = bw_runs w.
Proof. intros Hr Hk. unfold bench_revokeKey. rewrite Hr. by destruct (String.eqb_spec (br_VKeyID run) ""). Qed.

Lemma revoke_runs E run w : bw_runs (bench_revokeKey E run w) = bw_runs w ∧ bw_live (bench_revokeKey E run w) ⊆ bw_live w.
Proof. unfold bench_revokeKey. destruct (_ || _); [done|]. cbn. split; [done|set_solver]. Qed.

(** After the key of [run] is revoked no live key is held by its row alone, so the
    row may settle or go. *)
Lemma held_without E run X w w' : held X w → named w → seen w run →
  bw_live w' ⊆ bw_live (bench_revokeKey E run w) →
  (∀ id row, bw_runs w !! id = Some row → id ≠ br_ID run → bw_runs w' !! id = Some row) → held (X ∪ left_over E run) w'.
Proof.
  intros Hh Hn Hs Hl Hsame k Hk. apply Hl in Hk. destruct (revoke_runs E run w) as [_ Hsub].
  destruct (Hh k (Hsub _ Hk)) as (Hne & [Hx|(id & row & Hrow & Hkey & Hst)]); (split; [done|]); [left; set_solver|].
  destruct (decide (id = br_ID run)) as [->|Hid]; [|right; exists id, row; split; [by apply Hsame|done]].
  destruct (Hs _ Hrow) as [E1|E1]; [|congruence]. rewrite E1 in Hkey. left. unfold left_over. destruct (be_revoke E) eqn:Hr; [|set_solver].
  destruct (revoke_live E run w Hr) as [Hlive _]; [congruence|]. rewrite Hlive in Hk. set_solver.
Qed.

(** Rows of other runs stay, and the row of [run] does not settle. *)
Lemma held_with X w w' : held X w → bw_live w' ⊆ bw_live w →
  (∀ id row, bw_runs w !! id = Some row → br_VKeyID row ≠ "" → Settled (br_Status row) = false →
     ∃ row', bw_runs w' !! id = Some row' ∧ br_VKeyID row' = br_VKeyID row ∧ Settled (br_Status row') = false) → held X w'.
Proof.
  intros Hh Hl Hrows k Hk. destruct (Hh k (Hl _ Hk)) as (Hne & [Hx|(id & row & Hrow & Hkey & Hst)]); (split; [done|]); [by left|right].
  destruct (Hrows id row Hrow) as (row' & ? & ? & ?); [congruence|done|]. exists id, row'. split_and!; [done|congruence|done].
Qed.

Lemma apply_ok E run ev X w : held X w → named w → seen w run →
  held (X ∪ left_over E run) (snd (applyStatus E run ev w)) ∧ tame (bw_runs w) (bw_runs (snd (applyStatus E run ev w))).
Proof.
  intros Hh Hn Hs. unfold applyStatus. set (next := status_row run ev).
  destruct (Settled (br_Status next)) eqn:Est; cbn [andb].
  - (* the run settles *)
    set (w1 := if negb (String.eqb (br_VKeyID run) "") then clear E (br_ID run) (bench_revokeKey E run w) else w).
    assert (tame (bw_runs w) (bw_runs w1) ∧ bw_live w1 ⊆ bw_live (bench_revokeKey E run w) ∧
      (∀ id row, bw_runs w !! id = Some row → id ≠ br_ID run → bw_runs w1 !! id = Some row)) as (Ht & Hl & Hsame).
    { subst w1. destruct (String.eqb_spec (br_VKeyID run) "") as [E0|E0]; cbn [negb].
      - split_and!; [apply tame_refl| |done]. unfold bench_revokeKey. by rewrite E0.
      - destruct (revoke_runs E run w) as [Hrr _]. destruct (tame_clear E (br_ID run) (bench_revokeKey E run w)) as (H1 & H2 & H3).
        rewrite Hrr in H1. split_and!; [done|by rewrite H2|]. intros id row H Hne. unfold clear, ClearBenchmarkRunVKey. destruct (be_clear E); cbn.
        + rewrite lookup_alter_ne by done. by rewrite Hrr.
        + by rewrite Hrr. }
    destruct (update E next w1) as [w2|] eqn:Eu; cbn [snd].
    + apply tame_update in Eu as (Ht2 & Hl2 & _ & row & Hrow & Ht'). split; [|by eapply tame_trans].
      eapply (held_without E run X w); [done|done|done|by rewrite Hl2|]. intros id r H Hne. rewrite Ht'. rewrite lookup_insert_ne by done. by apply Hsame.
    + split; [by eapply (held_without E run X w)|done].
  - destruct (update E next w) as [w2|] eqn:Eu; cbn [snd]; [|split; [eapply held_mono; [|done]; set_solver|apply tame_refl]].
    apply tame_update in Eu as (Ht2 & Hl2 & _ & row & Hrow & Ht'). split; [|done]. apply (held_mono X); [set_solver|]. eapply (held_with X w); [done|by rewrite Hl2|].
    intros id r H Hk Hst. rewrite Ht'. destruct (decide (br_ID next = id)) as [<-|]; [|rewrite lookup_insert_ne by done; eauto].
    rewrite lookup_insert_eq. eexists. split; [done|]. split; [cbn; congruence|done].
Qed.

Lemma cancel_ok E run X w : held X w → named w → seen w run →
  held (X ∪ left_over E run) (snd (cancel_settles E run w)) ∧ tame (bw_runs w) (bw_runs (snd (cancel_settles E run w))).
Proof.
  intros Hh Hn Hs. unfold cancel_settles. destruct (revoke_runs E run w) as [Hrr Hll]. set (w1 := bench_revokeKey E run w) in *.
  destruct (update E _ w1) as [w2|] eqn:Eu; cbn [snd].
  - apply tame_update in Eu as (Ht2 & Hl2 & _ & row & Hrow & Ht'). destruct (tame_clear E (br_ID run) w2) as (H1 & H2 & H3).
    rewrite Hrr in Ht2. split; [|by eapply tame_trans].
    eapply (held_without E run X w); [done|done|done|by rewrite H2, Hl2|]. intros id r H Hne. unfold clear, ClearBenchmarkRunVKey.
    assert (bw_runs w2 !! id = Some r) as H4 by (rewrite Ht'; cbn; rewrite lookup_insert_ne by done; by rewrite Hrr).
    destruct (be_clear E); cbn; [by rewrite lookup_alter_ne|done].
  - rewrite Hrr. split; [|apply tame_refl]. eapply (held_without E run X w); [done|done|done|done|]. intros id r H _. by rewrite Hrr.
Qed.

Lemma create_inv now r t t' : CreateBenchmarkRun now r t = Ok t' →
  t !! br_ID r = None ∧ ∃ row, t' = <[br_ID r := row]> t ∧ br_ID row = br_ID r ∧ br_VKeyID row = br_VKeyID r ∧ br_Status row = br_Status r.
Proof. unfold CreateBenchmarkRun. intros H. repeat (case_match; try done). injection H as <-. split; [done|]. eexists. by split_and!. Qed.

(** The world with the key of [run] minted, and the row for [run] updated in it. *)
Definition minted (run : BenchmarkRun) (w : bworld) : bworld :=
  if String.eqb (br_VKeyID run) "" then w else mkBW (bw_runs w) ({[br_VKeyID run]} ∪ bw_live w) (S (bw_minted w)).

Lemma minted_runs run w : bw_runs (minted run w) = bw_runs w.
Proof. unfold minted. by destruct (String.eqb _ _). Qed.

Lemma minted_live run w k : k ∈ bw_live (minted run w) → k ∈ bw_live w ∨ k = br_VKeyID run ∧ k ≠ "".
Proof. unfold minted. destruct (String.eqb_spec (br_VKeyID run) ""); [by left|]. cbn. set_solver. Qed.

(** A launch that fails revokes the key it was given. *)
Lemma launch_revoked E run r X w w1 k : held X w → br_VKeyID run ∈ [""; vkey (bw_minted w)] →
  br_VKeyID r = br_VKeyID run → bw_live w1 = bw_live (minted run w) → k ∈ bw_live (bench_revokeKey E r w1) →
  k ≠ "" ∧ (k ∈ bw_live w ∨ k ∈ (if be_revoke E then ∅ else {[vkey (bw_minted w)]} : gset string)).
Proof.
  intros Hh Hkey Hk Hl Hin. pose proof (proj2 (revoke_runs E r w1) _ Hin) as Hin1. rewrite Hl in Hin1.
  destruct (minted_live _ _ _ Hin1) as [H|[-> Hne]]; [split; [by apply Hh|by left]|]. split; [done|].
  destruct (be_revoke E) eqn:Hr; [|right; apply elem_of_singleton; set_solver].
  destruct (revoke_live E r w1 Hr) as [Hlive _]; [congruence|]. rewrite Hlive, Hk in Hin. set_solver.
Qed.

(** A table with one more row, and keys that were there, were left behind or are the
    row's while it has not settled. *)
Lemma held_insert X Y w w2 i x : held X w → bw_runs w !! i = None → bw_runs w2 = <[i := x]> (bw_runs w) →
  (∀ k, k ∈ bw_live w2 → k ≠ "" ∧ (k ∈ bw_live w ∨ k ∈ Y ∨ br_VKeyID x = k ∧ Settled (br_Status x) = false)) → held (X ∪ Y) w2.
Proof.
  intros Hh Hfresh Hr Hk k Hin. destruct (Hk k Hin) as [Hne [Hw|[HY|[Hkey Hst]]]]; (split; [done|]).
  - destruct (Hh k Hw) as (_ & [HX|(id & row & Hrow & ?)]); [left; set_solver|right]. exists id, row.
    rewrite Hr, lookup_insert_ne; [done|]. intros <-. congruence.
  - left. set_solver.
  - right. exists i, x. by rewrite Hr, lookup_insert_eq.
Qed.

(** The row just inserted, with its key. *)
Lemma launch_ok E token req run X w :
  held X w → named w → br_ID run = be_uuid E → br_Status run = StatusPending → br_VKeyID run ∈ [""; vkey (bw_minted w)] →
  let result := launch_recorded E token req run (minted run w) in
  let w' := snd result in
  held (X ∪ launch_left E (bw_minted w) result) w' ∧ ∀ id row, bw_runs w' !! id = Some row → bw_runs w !! id = Some row ∨ id = be_uuid E ∧ br_ID row = id.
Proof.
  intros Hh Hn Hid Hst Hkey. pose proof (minted_runs run w) as Hw0. unfold launch_recorded.
  pose proof (λ r w1 k, launch_revoked E run r X w w1 k Hh Hkey) as Hrev. pose proof (minted_live run w) as Hl0. set (w0 := minted run w) in *.
  destruct (if be_create E then _ else _) as [t|e] eqn:Ec; cbn [snd fst launch_left].
  2: { rewrite (proj1 (revoke_runs E run w0)), Hw0. split; [|by left]. intros k Hk. destruct (Hrev run w0 k eq_refl eq_refl Hk) as [Hne [Hin|Hin]]; (split; [done|]).
       - destruct (Hh k Hin) as (_ & [HX|(id & row & ?)]); [left; set_solver|right]. exists id, row. by rewrite (proj1 (revoke_runs E run w0)), Hw0.
       - left. set_solver. }
  destruct (be_create E); [|done]. apply create_inv in Ec as (Hfresh & row0 & -> & Hi0 & Hk0 & Hs0). rewrite Hw0 in Hfresh. cbn zeta.
  assert (∀ r, br_ID r = br_ID run → ∀ w2, update E r (with_runs (<[br_ID run := row0]> (bw_runs w0)) w0) = Ok w2 →
    bw_runs w2 = <[br_ID run := progressed (be_now E) r row0]> (bw_runs w) ∧ bw_live w2 = bw_live w0) as Hupd.
  { intros r Hrid w2 Hu. apply tame_update in Hu as (_ & Hl & _ & row & Hrow & ->). cbn in Hrow. rewrite Hrid, lookup_insert_eq in Hrow.
    injection Hrow as <-. cbn. rewrite Hrid, insert_insert_eq, Hw0. done. }
  assert (∀ x, br_ID x = br_ID run → ∀ id row, <[br_ID run := x]> (bw_runs w) !! id = Some row → bw_runs w !! id = Some row ∨ id = be_uuid E ∧ br_ID row = id) as Hrows.
  { intros x Hx id row H4. apply lookup_insert_Some in H4 as [[<- <-]|[_ ?]]; [right; by rewrite <- Hid|by left]. }
  destruct (client_Launch (be_vendor E) token req) as [out [e|]] eqn:El; cbn [snd launch_left].
  - set (run' := set_outcome _ _ _ _ _). set (w1 := match update E run' _ with Ok _ => _ | Err _ => _ end).
    assert (∃ x, bw_runs w1 = <[br_ID run := x]> (bw_runs w) ∧ br_ID x = br_ID run ∧ bw_live w1 = bw_live w0) as (x & Hx & Hxi & Hxl).
    { subst w1. destruct (update E run' _) as [w2|] eqn:Eu.
      - apply Hupd in Eu as [-> ->]; [|done]. eexists. split_and!; [done|exact Hi0|done].
      - exists row0. cbn. by rewrite Hw0. }
    rewrite (proj1 (revoke_runs E run' w1)), Hx. split; [|by apply Hrows].
    eapply held_insert; [done|exact Hfresh|rewrite (proj1 (revoke_runs E run' w1)); exact Hx|].
    intros k Hk. destruct (Hrev run' w1 k eq_refl Hxl Hk) as [? [?|?]]; (split; [done|]); [by left|right; by left].
  - set (run' := set_outcome _ _ _ _ _). set (w1 := match update E run' _ with Ok _ => _ | Err _ => _ end).
    assert (∃ x, bw_runs w1 = <[br_ID run := x]> (bw_runs w) ∧ br_ID x = br_ID run ∧ bw_live w1 = bw_live w0 ∧ br_VKeyID x = br_VKeyID run ∧
      (br_Status x = br_Status run' ∨ Settled (br_Status x) = false)) as (x & Hx & Hxi & Hxl & Hxk & Hxs).
    { subst w1. destruct (update E run' _) as [w2|] eqn:Eu.
      - apply Hupd in Eu as [-> ->]; [|done]. eexists. split_and!; [done|exact Hi0|done|exact Hk0|by left].
      - exists row0. cbn. rewrite Hw0, Hs0, Hst. split_and!; [done|done|done|done|by right]. }
    rewrite Hx. split; [|by apply Hrows]. eapply held_insert; [done|exact Hfresh|exact Hx|]. intros k Hk. rewrite Hxl in Hk.
    destruct (Hl0 k Hk) as [Hin|[-> Hne]]; [split; [by apply Hh|by left]|split; [done|right]].
    destruct (Settled (br_Status run')) eqn:Es; [left; apply elem_of_singleton; done|right; split; [done|]]. destruct Hxs as [->|?]; done.
Qed.

Lemma Launch_cases E spec w :
  snd (Launch E spec w) = w ∨
  ∃ token req run, br_ID run = be_uuid E ∧ br_Status run = StatusPending ∧ br_VKeyID run ∈ [""; vkey (bw_minted w)] ∧
    Launch E spec w = launch_recorded E token req run (minted run w).
Proof.
  unfold Launch. destruct (be_token E) as [token|]; [|by left]. destruct (String.eqb token ""); [by left|].
  destruct (be_team E) as [team|]; [|by left]. destruct (launch_Validate _); [by left|].
  destruct (sp_ViaGateway spec); cbn [negb].
  - destruct (String.eqb (be_gateway E) ""); [by left|]. destruct (negb _); [by left|]. right.
    exists token, (with_gateway E ("secret of " +:+ vkey (bw_minted w)) (launch_request spec team)), (new_run E spec (vkey (bw_minted w))).
    split_and!; [done|done|right; left|done].
  - right. exists token, (launch_request spec team), (new_run E spec ""). split_and!; [done|done|left|done].
Qed.

Lemma bstep_ok v v' : bstep v v' → keys_ok v → keys_ok v'.
Proof.
  intros Hstep (Hh & Hn & Hs). destruct Hstep as [E spec w snaps X Hu|id row w snaps X Hrow|E run ev w snaps X Hin|E run w snaps X Hin|E run w snaps X Hin];
    unfold keys_ok; cbn [fst snd] in *.
  - destruct (Launch_cases E spec w) as [->|(token & req & run & Hid & Hst & Hk & ->)]; [split_and!; [eapply held_mono; [|done]; set_solver|done|done]|].
    destruct (launch_ok E token req run X w Hh Hn Hid Hst Hk) as [H1 H2]. split_and!; [done| |].
    + intros i r Hi. destruct (H2 _ _ Hi) as [?|[_ ?]]; [by apply Hn|done].
    + intros x Hx r Hi. destruct (H2 _ _ Hi) as [?|[E0 _]]; [by apply (Hs x Hx)|]. by destruct (Hu x Hx).
  - split_and!; [done|done|]. intros x [->|Hx]%elem_of_cons; [|by apply Hs]. intros r Hr. rewrite (Hn _ _ Hrow), Hrow in Hr. injection Hr as <-. by left.
  - destruct (apply_ok E run ev X w Hh Hn (Hs _ Hin)) as [H1 H2]. split_and!; [done|by eapply tame_named|]. intros x Hx. eapply tame_seen; [done|by apply Hs].
  - destruct (cancel_ok E run X w Hh Hn (Hs _ Hin)) as [H1 H2]. split_and!; [done|by eapply tame_named|]. intros x Hx. eapply tame_seen; [done|by apply Hs].
  - assert (tame (bw_runs w) (delete (br_ID run) (bw_runs w))) as Ht by apply tame_delete. split_and!.
    + eapply (held_without E run X w); [done|done|by apply Hs|done|]. intros i r H Hne. cbn. by rewrite lookup_delete_ne.
    + by eapply (tame_named w).
    + intros x Hx. eapply (tame_seen w); [done|by apply Hs].
Qed.

(** [C23] A key lives no longer than its run.  With any number of replicas launching,
    polling, cancelling and deleting, each acting on rows it may have read long
    before and each call to the store and the provider failing or not, every live
    gateway key belongs to a run that has not settled, or was left behind in one of
    the two ways the code has: a revocation of it failed, or its launch was answered
    with a run that had already ended ([settled_launch_leaks_key]). *)
Theorem key_lives_with_run (w : bworld) (snaps : list BenchmarkRun) (left_behind : gset string) (k : string) :
  rtc bstep (mkBW ∅ ∅ 0, [], ∅) (w, snaps, left_behind) → k ∈ bw_live w →
  k ∈ left_behind ∨ ∃ id row, bw_runs w !! id = Some row ∧ br_VKeyID row = k ∧ Settled (br_Status row) = false.
Proof.
  intros Hr Hk. assert (keys_ok (w, snaps, left_behind)) as (Hh & _ & _).
  { assert (keys_ok (mkBW ∅ ∅ 0, [], ∅)) as H0.
    { split_and!; [intros x Hx; set_solver|intros id row Hrow; cbn in Hrow; by rewrite lookup_empty in Hrow|by intros run ?%elem_of_nil]. }
    clear Hk. revert Hr H0. generalize (mkBW ∅ ∅ 0, @nil BenchmarkRun, ∅ : gset string), (w, snaps, left_behind).
    induction 1 as [|x y z Hxy _ IH]; [done|]. intros H0. apply IH. by eapply bstep_ok. }
  by destruct (Hh k Hk) as [_ ?].
Qed.
End Keys.

(** A launch that the provider ends at once, which is how it refuses for want of
    funds, leaves a settled row that no poll looks at again, and its key live. *)
Theorem settled_launch_leaks_key (E : benv) (spec : LaunchSpec) (out : LaunchResult) (token team : string) :
  be_token E = Some token → token ≠ "" → be_team E = Some team → be_gateway E ≠ "" → be_mint E = true → be_create E = true → be_update E = true →
  sp_ViaGateway spec = true → be_uuid E ≠ "" →
  client_Launch (be_vendor E) token (with_gateway E ("secret of " +:+ vkey 0)
    (launch_request spec team)) = (out, None) →
  launch_Validate (launch_request spec team) = None →
  ls_Status out = "FAILED" →
  let w := snd (Launch E spec (mkBW ∅ ∅ 0)) in
  vkey 0 ∈ bw_live w ∧ ListUnsettledBenchmarkRuns pollBatch (bw_runs w) = [].
Proof.
  intros Ht Htn Hte Hg Hm Hc Hup Hvia Hu Hcl Hval Hst. unfold Launch. rewrite Ht, Hte, Hval, Hvia, Hm.
  destruct (String.eqb_spec token ""); [done|]. destruct (String.eqb_spec (be_gateway E) ""); [done|]. cbn [negb].
  unfold launch_recorded. rewrite Hc. cbn [bw_minted bw_runs bw_live]. unfold CreateBenchmarkRun. cbn [br_ID br_Model br_Provider br_Status new_run].
  assert (sp_Model spec ≠ "") as Hmodel.
  { intros E0. unfold launch_Validate in Hval. cbn in Hval. rewrite E0 in Hval. repeat (case_match; try done). }
  destruct (String.eqb_spec (be_uuid E) ""); [done|]. destruct (String.eqb_spec (sp_Model spec) ""); [done|].
  change (String.eqb ProviderPrime "") with false. change (String.eqb StatusPending "") with false. cbn [orb]. rewrite lookup_empty, Hcl.
  unfold update. rewrite Hup. cbn [negb]. unfold UpdateBenchmarkRunProgress, with_runs. cbn [br_ID set_outcome new_run bw_runs].
  destruct (String.eqb_spec (be_uuid E) ""); [done|]. rewrite lookup_insert_eq, insert_insert_eq. cbn [snd bw_live bw_runs]. split; [set_solver|].
  unfold ListUnsettledBenchmarkRuns. rewrite insert_empty, map_to_list_singleton. rewrite Hst. reflexivity.
Qed.

(** ** The timetable *)
Section Timetable.
Context {W : Type} (land : CronSpec → W → res string string * W) (stamp mark : string → bool) (stamps : ∀ id, stamp id = true).
Abbreviation state := (@cron_state W).
Abbreviation tick := (@cron_tick W land stamp mark).

Definition filed (t : schedules_table) : Prop := ∀ id r, t !! id = Some r → bs_ID r = id.
Definition cadenced (t : schedules_table) : Prop := ∀ id r, t !! id = Some r → 0 < bs_CadenceSeconds r.

(** The row after a launch at [now]. *)
Definition moved_on (now : Time) (r r' : BenchmarkSchedule) : Prop :=
  bs_ID r' = bs_ID r ∧ bs_Enabled r' = bs_Enabled r ∧ bs_CadenceSeconds r' = bs_CadenceSeconds r ∧
  bs_NextLaunchAt r' = Add now (bs_CadenceSeconds r * Second).

Lemma fire_at now (st : state) r : ct_table st !! bs_ID r = Some r →
  let st' := fire land stamp mark now st (spec_of r) in
  ct_fired st' = (ct_fired st ++ [bs_ID r])%list ∧
  (∃ r', ct_table st' !! bs_ID r = Some r' ∧ moved_on now r r') ∧ (∀ id, id ≠ bs_ID r → ct_table st' !! id = ct_table st !! id).
Proof.
  intros Hr. unfold fire. destruct (land (spec_of r) (ct_world st)) as [[run|e] w]; cbn; unfold restamp; rewrite stamps.
  - split; [done|]. destruct (mark (bs_ID r)); unfold MarkBenchmarkScheduleLaunched, UpdateBenchmarkScheduleNext.
    + split; [rewrite !lookup_alter_eq, Hr; cbn; eexists; split; [done|by split_and!]|]. intros id Hne. by rewrite !lookup_alter_ne.
    + split; [rewrite lookup_alter_eq, Hr; cbn; eexists; split; [done|by split_and!]|]. intros id Hne. by rewrite lookup_alter_ne.
  - split; [done|]. unfold UpdateBenchmarkScheduleNext.
    split; [rewrite lookup_alter_eq, Hr; cbn; eexists; split; [done|by split_and!]|]. intros id Hne. by rewrite lookup_alter_ne.
Qed.

Lemma fires now (l : list BenchmarkSchedule) (st : state) :
  NoDup (map bs_ID l) → (∀ r, r ∈ l → ct_table st !! bs_ID r = Some r) →
  let st' := fold_left (fire land stamp mark now) (map spec_of l) st in
  ct_fired st' = (ct_fired st ++ map bs_ID l)%list ∧
  (∀ r, r ∈ l → ∃ r', ct_table st' !! bs_ID r = Some r' ∧ moved_on now r r') ∧ (∀ id, id ∉ map bs_ID l → ct_table st' !! id = ct_table st !! id).
Proof.
  revert st. induction l as [|r l IH]; intros st Hnd Hl; cbn [map fold_left].
  { split_and!; [by rewrite app_nil_r|by intros r ?%elem_of_nil|done]. }
  apply NoDup_cons in Hnd as [Hn Hnd]. destruct (fire_at now st r (Hl r ltac:(by left))) as (F1 & (r' & F2 & F3) & F4).
  destruct (IH (fire land stamp mark now st (spec_of r)) Hnd) as (G1 & G2 & G3).
  { intros x Hx. rewrite F4; [apply Hl; by right|]. intros E. apply Hn. rewrite <- E. apply list_elem_of_fmap. by exists x. }
  split_and!.
  - rewrite G1, F1, <- app_assoc. done.
  - intros x [->|Hx]%elem_of_cons; [|by apply G2]. exists r'. rewrite G3 by done. done.
  - intros id Hid. apply not_elem_of_cons in Hid as [Hne Hid]. by rewrite G3, F4.
Qed.

Definition due_list (now : Time) (t : schedules_table) : list BenchmarkSchedule := SliceStable sooner (List.filter (due now) (map snd (map_to_list t))).

Lemma due_elem now t r : filed t → r ∈ due_list now t ↔ t !! bs_ID r = Some r ∧ due now r = true.
Proof.
  intros Hf. unfold due_list. rewrite SliceStable_perm, list_elem_of_In, filter_In, <- list_elem_of_In, list_elem_of_fmap. split.
  - intros [([k x] & -> & H%elem_of_map_to_list) Hd]. cbn in *. split; [|done]. by rewrite (Hf _ _ H).
  - intros [H Hd]. split; [|done]. exists (bs_ID r, r). split; [done|]. by apply elem_of_map_to_list.
Qed.

Lemma due_nodup now t : filed t → NoDup (map bs_ID (due_list now t)).
Proof.
  intros Hf. unfold due_list. rewrite (Permutation_map bs_ID (SliceStable_perm _ _)).
  assert (∀ l : list BenchmarkSchedule, NoDup (map bs_ID l) → NoDup (map bs_ID (List.filter (due now) l))) as H.
  { induction l as [|r l IH]; intros Hnd; [constructor|]. apply NoDup_cons in Hnd as [Hn Hnd]. cbn. destruct (due now r); [|by apply IH].
    cbn. constructor; [|by apply IH]. intros (x & E & Hx)%list_elem_of_fmap. apply Hn. apply list_elem_of_fmap. exists x. split; [done|].
    apply list_elem_of_In in Hx. apply filter_In in Hx as [Hx _]. by apply list_elem_of_In. }
  apply H. replace (map bs_ID (map snd (map_to_list t))) with (map fst (map_to_list t)); [apply NoDup_fst_map_to_list|].
  rewrite map_map. apply map_ext_in. intros [k r] Hin. cbn. symmetry. apply Hf. apply elem_of_map_to_list. by apply list_elem_of_In.
Qed.

Lemma batch_nodup n now t : filed t → NoDup (map bs_ID (firstn n (due_list now t))).
Proof.
  intros Hf. pose proof (due_nodup now t Hf) as H. rewrite <- (firstn_skipn n (due_list now t)), map_app in H. by apply NoDup_app in H as [H _].
Qed.

Lemma due_sorted now t : StronglySorted (fun a b => bs_NextLaunchAt a ≤ bs_NextLaunchAt b) (due_list now t).
Proof.
  assert (StronglySorted (fun y z => sooner z y = false) (due_list now t)) as H.
  { apply (SliceStable_sorted sooner (fun _ => True)); unfold sooner; [| |by apply Forall_true].
    - intros x y ?%Z.ltb_lt. apply Z.ltb_ge. lia.
    - intros x y z _ _ _ ?%Z.ltb_lt. destruct (Z.ltb_spec (bs_NextLaunchAt x) (bs_NextLaunchAt y)); [by left|right]. apply Z.ltb_lt. lia. }
  induction H as [|x l Hl IH Hx]; constructor; [done|]. eapply Forall_impl; [exact Hx|].
  intros y Hy. cbn in Hy. unfold sooner in Hy. apply Z.ltb_ge in Hy. lia.
Qed.

(** What one tick does: it launches the schedules that are due, those waiting longest
    first and no more than a batch, each once; each of them moves on by its cadence
    and the rest stay as they are. *)
Lemma tick_at now (st : state) : filed (ct_table st) →
  let l := firstn 64 (due_list now (ct_table st)) in
  ct_fired (tick now st) = (ct_fired st ++ map bs_ID l)%list ∧
  (∀ r, r ∈ l → ∃ r', ct_table (tick now st) !! bs_ID r = Some r' ∧ moved_on now r r') ∧
  (∀ id, id ∉ map bs_ID l → ct_table (tick now st) !! id = ct_table st !! id).
Proof.
  intros Hf l. assert (tick now st = fold_left (fire land stamp mark now) (map spec_of l) st) as -> by reflexivity. apply fires.
  - by apply batch_nodup.
  - intros r Hr. apply (due_elem now); [done|]. rewrite <- (firstn_skipn 64 (due_list now (ct_table st))). apply elem_of_app. by left.
Qed.

Lemma tick_kept now (st : state) : filed (ct_table st) → cadenced (ct_table st) → filed (ct_table (tick now st)) ∧ cadenced (ct_table (tick now st)).
Proof.
  intros Hf Hc. destruct (tick_at now st Hf) as (_ & Hin & Hout). set (l := firstn 64 _) in *.
  assert (∀ id r', ct_table (tick now st) !! id = Some r' → ∃ r, ct_table st !! id = Some r ∧ bs_ID r' = bs_ID r ∧ bs_CadenceSeconds r' = bs_CadenceSeconds r) as H.
  { intros id r' Hr'. destruct (decide (id ∈ map bs_ID l)) as [(r & -> & Hr)%list_elem_of_fmap|Hn]; [|rewrite Hout in Hr' by done; eauto].
    destruct (Hin r Hr) as (x & Hx & Hm). rewrite Hx in Hr'. injection Hr' as <-. destruct Hm as (? & _ & ? & _). exists r. split_and!; [|done|done].
    apply (due_elem now); [done|]. rewrite <- (firstn_skipn 64 (due_list now (ct_table st))). apply elem_of_app. by left. }
  split; intros id r' Hr'; destruct (H _ _ Hr') as (r & Hr & E1 & E2); [rewrite E1; by apply Hf|rewrite E2; by eapply Hc].
Qed.

(** The enabled schedules that are before [id] in the queue. *)
Definition ahead (id : string) (next : Time) (t : schedules_table) : gset string :=
  dom (filter (fun kr => fst kr ≠ id ∧ bs_Enabled (snd kr) = true ∧ bs_NextLaunchAt (snd kr) ≤ next) t).

Lemma elem_ahead id next t x : x ∈ ahead id next t ↔ ∃ r, t !! x = Some r ∧ x ≠ id ∧ bs_Enabled r = true ∧ bs_NextLaunchAt r ≤ next.
Proof. unfold ahead. rewrite elem_of_dom. split; [intros [r [H1 H2]%map_lookup_filter_Some]; by exists r|intros (r & H1 & H2); exists r; by apply map_lookup_filter_Some]. Qed.

(** One tick launches a schedule that is due, or takes a batch off the queue before it. *)
Lemma tick_progress now (st : state) id r : filed (ct_table st) → cadenced (ct_table st) → ct_table st !! id = Some r → due now r = true →
  id ∈ ct_fired (tick now st) ∨
  ct_table (tick now st) !! id = Some r ∧
  (size (ahead id (bs_NextLaunchAt r) (ct_table (tick now st))) + 64 ≤ size (ahead id (bs_NextLaunchAt r) (ct_table st)))%nat.
Proof.
  intros Hf Hc Hr Hd. assert (bs_ID r = id) as Hid by (by apply Hf). destruct (tick_at now st Hf) as (Hfired & Hin & Hout).
  set (q := due_list now (ct_table st)) in *. set (l := firstn 64 q) in *.
  assert (∀ x, x ∈ l → x ∈ q) as Hlq by (intros x Hx; rewrite <- (firstn_skipn 64 q); apply elem_of_app; by left).
  assert (r ∈ q) as Hq by (by apply due_elem; [|rewrite Hid]).
  destruct (decide (id ∈ map bs_ID l)) as [Hl|Hl]; [left; rewrite Hfired; apply elem_of_app; by right|right].
  split; [by rewrite Hout|].
  assert (r ∈ skipn 64 q) as Hskip.
  { rewrite <- (firstn_skipn 64 q) in Hq. apply elem_of_app in Hq as [Hq|]; [|done]. destruct Hl. apply list_elem_of_fmap. by exists r. }
  assert (length l = 64%nat) as Hlen.
  { subst l. rewrite length_firstn. assert (64 < length q)%nat; [|lia]. destruct (Nat.lt_ge_cases 64 (length q)); [done|].
    rewrite skipn_all2 in Hskip by done. by apply elem_of_nil in Hskip. }
  assert (∀ x, x ∈ l → bs_NextLaunchAt x ≤ bs_NextLaunchAt r) as Hle.
  { intros x Hx. pose proof (due_sorted now (ct_table st)) as Hs. fold q in Hs. rewrite <- (firstn_skipn 64 q) in Hs.
    apply StronglySorted_app_1_elem_of with (x1 := x) (x2 := r) in Hs; done. }
  set (ids := list_to_set (map bs_ID l) : gset string).
  assert (size ids = 64%nat) as Hsize.
  { subst ids. rewrite size_list_to_set; [by rewrite length_map|]. by apply batch_nodup. }
  assert (ids ⊆ ahead id (bs_NextLaunchAt r) (ct_table st)) as Hsub.
  { intros x (y & -> & Hy)%elem_of_list_to_set%list_elem_of_fmap. apply elem_ahead. exists y.
    apply Hlq in Hy as Hy'. apply due_elem in Hy' as [Hty Hdy]; [|done]. apply andb_prop in Hdy as [He _].
    split_and!; [done| |done|by apply Hle]. intros E. apply Hl. rewrite <- E. apply list_elem_of_fmap. by exists y. }
  assert (ahead id (bs_NextLaunchAt r) (ct_table (tick now st)) ⊆ ahead id (bs_NextLaunchAt r) (ct_table st) ∖ ids) as Hsub'.
  { intros x (y & Hy & Hne & He & Hn)%elem_ahead. apply elem_of_difference.
    assert (x ∉ map bs_ID l) as Hx.
    { intros (z & -> & Hz)%list_elem_of_fmap. destruct (Hin z Hz) as (z' & Hz' & (_ & _ & _ & Hnext)). rewrite Hy in Hz'. injection Hz' as <-.
      rewrite Hnext in Hn. apply Hlq, due_elem in Hz as [Htz _]; [|done]. specialize (Hc _ _ Htz). unfold due in Hd. apply andb_prop in Hd as [_ Hd%Z.leb_le].
      unfold Add, Second in Hn. lia. }
    split; [|subst ids; by rewrite elem_of_list_to_set]. apply elem_ahead. exists y. rewrite <- Hout; done. }
  pose proof (subseteq_size _ _ Hsub) as H1. pose proof (subseteq_size _ _ Hsub') as H2. rewrite size_difference in H2 by done. lia.
Qed.

Lemma tick_fired_grows now (st : state) id : filed (ct_table st) → id ∈ ct_fired st → id ∈ ct_fired (tick now st).
Proof. intros Hf Hid. destruct (tick_at now st Hf) as [-> _]. apply elem_of_app. by left. Qed.

Definition ticks (nows : list Time) (st : state) : state := fold_left (fun st now => tick now st) nows st.

Lemma ticks_fired_grow nows (st : state) id : filed (ct_table st) → cadenced (ct_table st) → id ∈ ct_fired st → id ∈ ct_fired (ticks nows st).
Proof.
  revert st. induction nows as [|now nows IH]; intros st Hf Hc Hid; [done|]. cbn. destruct (tick_kept now st Hf Hc). apply IH; [done|done|].
  by apply tick_fired_grows.
Qed.

(** No due schedule waits for ever.  Whatever the launches answer, an enabled schedule
    that is due is launched after at most one tick more than there are full batches
    of enabled schedules before it in the queue. *)
Theorem due_schedule_fires (nows : list Time) (st : state) (id : string) (r : BenchmarkSchedule) :
  filed (ct_table st) → cadenced (ct_table st) → ct_table st !! id = Some r → Forall (fun now => due now r = true) nows →
  (size (ahead id (bs_NextLaunchAt r) (ct_table st)) < 64 * length nows)%nat →
  id ∈ ct_fired (ticks nows st).
Proof.
  revert st. induction nows as [|now nows IH]; intros st Hf Hc Hr Hd Hn; [cbn in Hn; lia|]. apply Forall_cons in Hd as [Hd Hds]. cbn [ticks fold_left].
  destruct (tick_kept now st Hf Hc) as [Hf' Hc']. destruct (tick_progress now st id r Hf Hc Hr Hd) as [Hin|[Hr' Hs]].
  - by apply (ticks_fired_grow nows).
  - apply IH; try done. cbn in Hn. lia.
Qed.

(** A tick is fair and moves on: what it launches is due and waits no less than any due
    schedule it leaves, each is launched once, and none of them is due again before
    its cadence has passed. *)
Theorem tick_fires_oldest_once (now : Time) (st : state) :
  filed (ct_table st) → cadenced (ct_table st) →
  ∃ l, ct_fired (tick now st) = (ct_fired st ++ map bs_ID l)%list ∧ NoDup (map bs_ID l) ∧ (length l ≤ 64)%nat ∧
    (∀ r, r ∈ l → ct_table st !! bs_ID r = Some r ∧ due now r = true ∧
       ∃ r', ct_table (tick now st) !! bs_ID r = Some r' ∧ ∀ later, later < now + bs_CadenceSeconds r * Second → due later r' = false) ∧
    (∀ id r, ct_table st !! id = Some r → due now r = true → id ∉ map bs_ID l → ∀ x, x ∈ l → bs_NextLaunchAt x ≤ bs_NextLaunchAt r).
Proof.
  intros Hf Hc. destruct (tick_at now st Hf) as (H1 & H2 & H3). exists (firstn 64 (due_list now (ct_table st))). set (q := due_list now (ct_table st)) in *.
  assert (∀ x, x ∈ firstn 64 q → x ∈ q) as Hlq by (intros x Hx; rewrite <- (firstn_skipn 64 q); apply elem_of_app; by left).
  split_and!; [done|by apply batch_nodup|rewrite length_firstn; lia| |].
  - intros r Hr. destruct (H2 r Hr) as (r' & Hr' & (_ & _ & _ & Hn)). apply Hlq, due_elem in Hr as [? ?]; [|done]. split_and!; [done|done|].
    exists r'. split; [done|]. intros later Hl. unfold due. rewrite Hn. unfold Add. apply andb_false_iff. right. apply Z.leb_gt. lia.
  - intros id r Hr Hd Hni x Hx. assert (r ∈ q) as Hq by (by apply due_elem; [|rewrite (Hf _ _ Hr)]).
    assert (r ∈ skipn 64 q) as Hskip.
    { rewrite <- (firstn_skipn 64 q) in Hq. apply elem_of_app in Hq as [Hq|]; [|done]. destruct Hni. apply list_elem_of_fmap. exists r. split; [|done].
      symmetry. by apply Hf. }
    pose proof (due_sorted now (ct_table st)) as Hs. fold q in Hs. rewrite <- (firstn_skipn 64 q) in Hs.
    by apply StronglySorted_app_1_elem_of with (x1 := x) (x2 := r) in Hs.
Qed.

(** Two replicas that list the due schedules before either has moved them on launch
    every one of them twice. *)
Theorem two_replicas_fire_twice (now : Time) (st : state) :
  let specs := map spec_of (ListDueBenchmarkSchedules now tick_batch (ct_table st)) in
  ct_fired (fold_left (fire land stamp mark now) specs (fold_left (fire land stamp mark now) specs st)) =
  (ct_fired st ++ map cs_ID specs ++ map cs_ID specs)%list.
Proof.
  intros specs. assert (∀ l (s : state), ct_fired (fold_left (fire land stamp mark now) l s) = (ct_fired s ++ map cs_ID l)%list) as H.
  { induction l as [|x l IH]; intros s; cbn; [by rewrite app_nil_r|]. rewrite IH. unfold fire. destruct (land x (ct_world s)) as [[run|e] w]; cbn; by rewrite <- app_assoc. }
  rewrite !H. by rewrite <- app_assoc.
Qed.

(** The staleness pass relaunches nothing: whatever it re-stamps was due already, so
    which schedules are due, now or at any later time, is as without it. *)
Theorem staleness_changes_nothing_due (env : string) (now later : Time) (st : state) (id : string) :
  filed (ct_table st) → now ≤ later →
  (due later <$> ct_table (stalenessTick stamp env now st) !! id) = (due later <$> ct_table st !! id) ∧
  ct_fired (stalenessTick stamp env now st) = ct_fired st.
Proof.
  intros Hf Hl. unfold stalenessTick. destruct (negb _); [done|]. cbn [ct_table ct_fired]. split; [|done].
  assert (∀ l (t : schedules_table), (∀ s, s ∈ l → ∃ r, ct_table st !! cs_ID s = Some r ∧ due now r = true) →
    (∀ k, (due later <$> t !! k) = (due later <$> ct_table st !! k)) →
    (due later <$> fold_left (fun t s => if isAutoRelaunchLookbackNeeded now s then restamp stamp (cs_ID s) now t else t) l t !! id) = (due later <$> ct_table st !! id)) as H.
  { induction l as [|s l IH]; intros t Hin Ht; cbn; [apply Ht|]. apply IH; [intros x Hx; apply Hin; by right|]. intros k.
    destruct (isAutoRelaunchLookbackNeeded now s); [|apply Ht]. unfold restamp. rewrite stamps. unfold UpdateBenchmarkScheduleNext.
    destruct (decide (cs_ID s = k)) as [<-|]; [|rewrite lookup_alter_ne by done; apply Ht]. rewrite lookup_alter_eq.
    destruct (Hin s ltac:(by left)) as (r & Hr & Hd). specialize (Ht (cs_ID s)). rewrite Hr in *. cbn in Ht.
    destruct (t !! cs_ID s) as [r'|]; [|done]. cbn in *. injection Ht as Ht. f_equal. unfold due in *. cbn.
    apply andb_prop in Hd as [He Hn%Z.leb_le]. rewrite He in Ht. cbn in Ht. rewrite (proj2 (Z.leb_le (bs_NextLaunchAt r) later)) in Ht by lia.
    apply andb_prop in Ht as [-> _]. rewrite He. cbn. rewrite (proj2 (Z.leb_le now later)), (proj2 (Z.leb_le (bs_NextLaunchAt r) later)) by lia. done. }
  apply H; [|done]. intros s (r & -> & Hr)%list_elem_of_fmap. exists r. apply (due_elem now); [done|].
  unfold ListDueBenchmarkSchedules in Hr. change (r ∈ due_list now (ct_table st)). rewrite <- (firstn_skipn (run_limit 256) (due_list now (ct_table st))).
  apply elem_of_app. by left.
Qed.
End Timetable.

(** ** The schedule endpoints *)

Inductive sched_op := SCreate (uuid email : string) (body : option scheduleRequest) | SDelete (id : string)
| SToggle (id : string) (on : bool) (body : option (option bool)).

Definition sched_run (now : Time) (org : string) (o : sched_op) (t : schedules_table) : Z * schedules_table :=
  match o with
  | SCreate uuid email body => createBenchmarkSchedule now uuid org email body t
  | SDelete id => deleteBenchmarkSchedule org id t
  | SToggle id on body => setBenchmarkScheduleEnabled now org id on body t
  end.

Lemma owned_org org id t row : ownedSchedule org id t = Some row → t !! id = Some row ∧ orgOr (bs_OrgID row) = org.
Proof.
  unfold ownedSchedule, GetBenchmarkSchedule. destruct (String.eqb id ""); [done|]. destruct (t !! id); [|done].
  destruct (String.eqb_spec (orgOr (bs_OrgID b)) org) as [<-|]; [|done]. by intros [= <-].
Qed.

(** The endpoints of one org leave the schedules of every other as they are; a
    request for a schedule of another org is answered like one that does not exist;
    and every schedule they create is the caller's, with a cadence between a minute
    and a week and its first launch one cadence away. *)
Theorem schedules_confined (now : Time) (org : string) (o : sched_op) (t : schedules_table) (id : string) (r : BenchmarkSchedule) :
  org ≠ "" →
  (t !! id = Some r → orgOr (bs_OrgID r) ≠ org → snd (sched_run now org o t) !! id = Some r ∧
     (∀ on body, o = SDelete id ∨ o = SToggle id on body → fst (sched_run now org o t) = 404)) ∧
  (t !! id = None → snd (sched_run now org o t) !! id = Some r →
     bs_OrgID r = org ∧ 60 ≤ bs_CadenceSeconds r ≤ 604800 ∧ bs_NextLaunchAt r = now + bs_CadenceSeconds r * Second).
Proof.
  intros Horg. destruct o as [uuid email body|did|tid on body]; cbn [sched_run].
  - unfold createBenchmarkSchedule. destruct body as [b|]; cbn; [|naive_solver]. destruct (String.eqb _ _); [naive_solver|].
    destruct (length _ =? 0)%nat; [naive_solver|]. destruct (Z.ltb_spec (sq_CadenceSeconds b) scheduleMinCadence) as [|H1]; [naive_solver|].
    destruct (Z.ltb_spec scheduleMaxCadence (sq_CadenceSeconds b)) as [|H2]; [naive_solver|]. cbn [orb].
    destruct (CreateBenchmarkSchedule _ _ _) as [t'|] eqn:Ec; [|naive_solver]. unfold CreateBenchmarkSchedule in Ec. cbn [bs_ID bs_Model bs_CadenceSeconds] in Ec.
    destruct (String.eqb uuid ""); [done|]. destruct (String.eqb (sq_Model b) ""); [done|]. destruct (Z.leb_spec (sq_CadenceSeconds b) 0); [done|].
    destruct (t !! uuid) eqn:Eu; [done|]. injection Ec as <-. cbn [snd]. split.
    + intros Hr Hne. split; [rewrite lookup_insert_ne by congruence; done|naive_solver].
    + intros Hn Hr. apply lookup_insert_Some in Hr as [[<- <-]|[_ ?]]; [|congruence]. cbn. unfold scheduleMinCadence, scheduleMaxCadence, Add in *.
      split_and!; [done|lia|lia|]. destruct (IsZero _); done.
  - unfold deleteBenchmarkSchedule. destruct (ownedSchedule org did t) as [row|] eqn:Eo; [|cbn; naive_solver].
    apply owned_org in Eo as [Hrow Ho]. unfold DeleteBenchmarkSchedule. destruct (String.eqb did ""); [split; [|cbn; naive_solver]; intros Hr Hne; cbn; split; [done|intros ? ? [[= ->]|?]; [congruence|done]]|].
    rewrite Hrow. cbn. split.
    + intros Hr Hne. split; [rewrite lookup_delete_ne; [done|]; congruence|]. intros ? ? [[= ->]|?]; [congruence|done].
    + intros Hn Hr. by apply lookup_delete_Some in Hr as [_ ?]; congruence.
  - unfold setBenchmarkScheduleEnabled. destruct (ownedSchedule org tid t) as [row|] eqn:Eo; [|cbn; naive_solver].
    apply owned_org in Eo as [Hrow Ho].
    assert (∀ t' code, (t' = t ∨ ∃ x, t' = <[tid := x]> t) → (t !! id = Some r → orgOr (bs_OrgID r) ≠ org → snd (code : Z, t') !! id = Some r ∧
      (∀ on0 body0, SToggle tid on body = SDelete id ∨ SToggle tid on body = SToggle id on0 body0 → fst (code, t') = 404)) ∧
      (t !! id = None → snd (code, t') !! id = Some r → bs_OrgID r = org ∧ 60 ≤ bs_CadenceSeconds r ≤ 604800 ∧ bs_NextLaunchAt r = now + bs_CadenceSeconds r * Second)) as H.
    { intros t' code Ht'. assert (t !! id = Some r → orgOr (bs_OrgID r) ≠ org → tid ≠ id) as Hd by (intros Hr Hne ->; congruence). split.
      - intros Hr Hne. specialize (Hd Hr Hne). split; [destruct Ht' as [->|[x ->]]; cbn; [done|by rewrite lookup_insert_ne]|].
        intros ? ? [?|[= -> _ _]]; done.
      - intros Hn Hr. destruct Ht' as [->|[x ->]]; cbn in Hr; [congruence|]. apply lookup_insert_Some in Hr as [[<- _]|[_ ?]]; congruence. }
    destruct (match body with None => false | _ => _ end); [apply H; by left|]. unfold SetBenchmarkScheduleEnabled.
    destruct (String.eqb tid ""); [apply H; by left|]. rewrite Hrow. apply H. right. eauto.
Qed.

(** Pausing forgets when the next launch was due: the time is set to zero. *)
Theorem pause_forgets_next (now : Time) (org id : string) (t : schedules_table) (row : BenchmarkSchedule) :
  ownedSchedule org id t = Some row → id ≠ "" →
  ∃ row', snd (pauseBenchmarkSchedule now org id None t) !! id = Some row' ∧ bs_NextLaunchAt row' = zero_time ∧ bs_Enabled row' = false.
Proof.
  intros Ho Hid. unfold pauseBenchmarkSchedule, setBenchmarkScheduleEnabled. rewrite Ho. apply owned_org in Ho as [Hr _].
  unfold SetBenchmarkScheduleEnabled. destruct (String.eqb_spec id ""); [done|]. rewrite Hr. cbn. rewrite lookup_insert_eq. eauto.
Qed.

(** ** Drift *)

(** A score that falls to nothing raises no alarm, whatever it was before. *)
Theorem drop_to_zero_is_silent (spec : DriftAlertSpec) (recent : string → option (list RunLite)) (just : RunLite) :
  rl_AvgScore just = fzero → ObserveSettle spec recent just = None.
Proof. intros H. unfold ObserveSettle. rewrite H. destruct (fle _ fzero); [done|]. done. Qed.

(** ** Instances *)

Definition toy_vendor (status : string) : vendor :=
  mkVendor (fun _ _ => Ok "env") (fun _ => Ok (mkLaunchResult "ev1" status "")) (fun _ => Ok tt) (fun _ => Err "") (fun _ => Err "").
Definition toy_benv (status : string) : benv := mkBenv 0 "run1" (Some "tok") (Some "") (toy_vendor status) "https://gw.example" true true true true true.
Definition toy_spec : LaunchSpec := mkSpec "acme" "u" "n" "" ["primeintellect/gsm8k"] "openai/gpt" 10 2 0 true.

Lemma launch_within_cap_witness : 1 ≤ 10 * 2 ≤ MaxTotalSamples.
Proof. exact (launch_within_cap (launch_request toy_spec "") eq_refl ltac:(reflexivity) ltac:(reflexivity)). Defined.

Lemma key_lives_with_run_witness :
  let w := snd (Launch (toy_benv "RUNNING") toy_spec (mkBW ∅ ∅ 0)) in
  launch_left (toy_benv "RUNNING") 0 (Launch (toy_benv "RUNNING") toy_spec (mkBW ∅ ∅ 0)) = ∅ ∧ bw_live w = {[vkey 0]} ∧
  (vkey 0 ∈ ∅ ∪ launch_left (toy_benv "RUNNING") 0 (Launch (toy_benv "RUNNING") toy_spec (mkBW ∅ ∅ 0)) ∨
   ∃ id row, bw_runs w !! id = Some row ∧ br_VKeyID row = vkey 0 ∧ Settled (br_Status row) = false).
Proof.
  split_and!; [vm_compute; reflexivity..|]. eapply (key_lives_with_run _ []); [|vm_compute; reflexivity].
  apply rtc_once. apply b_launch. by intros run ?%elem_of_nil.
Defined.

Lemma settled_launch_leaks_key_witness :
  let w := snd (Launch (toy_benv "FAILED") toy_spec (mkBW ∅ ∅ 0)) in
  vkey 0 ∈ bw_live w ∧ ListUnsettledBenchmarkRuns pollBatch (bw_runs w) = [].
Proof.
  apply (settled_launch_leaks_key (toy_benv "FAILED") toy_spec (mkLaunchResult "ev1" "FAILED" "") "tok" ""); first [reflexivity|discriminate|vm_compute; reflexivity].
Defined.

Definition toy_row (id : string) (next : Time) : BenchmarkSchedule :=
  mkSchedule id "acme" "n" ["e"] "m" 1 1 false 60 next true "" None "" 0.
Definition toy_state : @cron_state unit := mkCronState {["s1" := toy_row "s1" 5]} tt ∅ [].
Definition toy_land (s : CronSpec) (w : unit) : res string string * unit := (Err "no credential", w).

Lemma toy_filed : filed (ct_table toy_state).
Proof. intros id r H. cbn [ct_table toy_state] in H. apply lookup_singleton_Some in H as [<- <-]. reflexivity. Qed.
Lemma toy_cadenced : cadenced (ct_table toy_state).
Proof. intros id r H. cbn [ct_table toy_state] in H. apply lookup_singleton_Some in H as [<- <-]. reflexivity. Qed.

Lemma due_schedule_fires_witness : "s1" ∈ ct_fired (ticks toy_land (fun _ => true) (fun _ => true) [10] toy_state).
Proof.
  apply (due_schedule_fires toy_land (fun _ => true) (fun _ => true) (fun _ => eq_refl) [10] toy_state "s1" (toy_row "s1" 5)).
  - exact toy_filed.
  - exact toy_cadenced.
  - reflexivity.
  - repeat constructor.
  - vm_compute. lia.
Defined.

Lemma tick_fires_oldest_once_witness :
  ct_fired (cron_tick toy_land (fun _ => true) (fun _ => true) 10 toy_state) = ["s1"] ∧
  ∃ l, ct_fired (cron_tick toy_land (fun _ => true) (fun _ => true) 10 toy_state) = ([] ++ map bs_ID l)%list ∧ NoDup (map bs_ID l).
Proof.
  split; [vm_compute; reflexivity|].
  destruct (tick_fires_oldest_once toy_land (fun _ => true) (fun _ => true) (fun _ => eq_refl) 10 toy_state toy_filed toy_cadenced) as (l & H1 & H2 & _).
  exists l. split; [exact H1|exact H2].
Defined.

Lemma staleness_changes_nothing_due_witness :
  (due 10 <$> ct_table (stalenessTick (fun _ => true) "1" 10 toy_state) !! "s1") = Some true.
Proof. rewrite (proj1 (staleness_changes_nothing_due (fun _ => true) (fun _ => eq_refl) "1" 10 10 toy_state "s1" toy_filed ltac:(reflexivity))). reflexivity. Defined.

Lemma schedules_confined_witness :
  snd (sched_run 0 "rival" (SDelete "s1") (ct_table toy_state)) !! "s1" = Some (toy_row "s1" 5).
Proof.
  apply (proj1 (schedules_confined 0 "rival" (SDelete "s1") (ct_table toy_state) "s1" (toy_row "s1" 5) ltac:(discriminate))); [reflexivity|discriminate].
Defined.

Lemma pause_forgets_next_witness :
  ∃ row', snd (pauseBenchmarkSchedule 0 "acme" "s1" None (ct_table toy_state)) !! "s1" = Some row' ∧ bs_NextLaunchAt row' = zero_time ∧ bs_Enabled row' = false.
Proof. exact (pause_forgets_next 0 "acme" "s1" (ct_table toy_state) (toy_row "s1" 5) eq_refl ltac:(discriminate)). Defined.

Lemma drop_to_zero_is_silent_witness :
  ObserveSettle DefaultDriftAlertSpec (fun _ => Some [mkLite "old" "m" fone 1]) (mkLite "new" "m" fzero 2) = None.
Proof. exact (drop_to_zero_is_silent DefaultDriftAlertSpec (fun _ => Some [mkLite "old" "m" fone 1]) (mkLite "new" "m" fzero 2) eq_refl). Defined.
