(* ===== verification/Metrics.v ===== *)
(** * Metrics: src/internal/observability/metrics.go

    The Prometheus adapter: [MetricsRecorder] with every operation that changes
    a counter, and [handleMetrics], the text a scrape gets, byte for byte.
    Counters are [uint64], so increments wrap.  A nil receiver is [None]; the
    lock makes each method one step.  Arguments stand for [strconv.IsPrint] on
    runes beyond ASCII (a table) and for what the hardware makes of a conversion
    to [uint64] that does not fit.  The HTTP server around the handler is not
    part of the model. *)

From stdpp Require Import sorting pretty.
From S2P Require Import Prelude GoString Float64 Json GwTypes.
Local Open Scope string_scope.
Local Open Scope Z_scope.

(** ** Numbers as text *)

Definition wrapu64 (z : Z) : Z := z mod 2 ^ 64.

(** The integer part of a finite number, toward zero. *)
Definition trunc (x : float64) : Z :=
  match x with
  | S754_finite s m e =>
      let a := if 0 <=? e then Zpos m * 2 ^ e else Zpos m / 2 ^ (- e) in
      if s then - a else a
  | _ => 0
  end.

(** [uint64(x)]. *)
Definition to_uint64 (overflow : float64 → Z) (x : float64) : Z :=
  let n := trunc x in
  match x with
  | S754_nan | S754_infinity _ => overflow x
  | _ => if (0 <=? n) && (n <? 2 ^ 64) then n else overflow x
  end.

(** [n / d], the half to even. *)
Definition div_half_even (n d : Z) : Z :=
  let q := n / d in
  let r := n mod d in
  if 2 * r <? d then q
  else if d <? 2 * r then q + 1
  else if Z.even q then q else q + 1.

Fixpoint zeros (n : nat) : string := match n with O => "" | S n' => String "0" (zeros n') end.
Definition pad6 (n : Z) : string := let s := pretty n in zeros (6 - String.length s) +:+ s.

(** [%f]: six decimals of the exact value, the half to even. *)
Definition fmt_f (x : float64) : string :=
  match x with
  | S754_nan => "NaN"
  | S754_infinity s => if s then "-Inf" else "+Inf"
  | S754_zero s => if s then "-0.000000" else "0.000000"
  | S754_finite s m e =>
      let q := if 0 <=? e then Zpos m * 2 ^ e * 10 ^ 6
               else div_half_even (Zpos m * 10 ^ 6) (2 ^ (- e)) in
      (if s then "-" else "") +:+ pretty (q / 10 ^ 6) +:+ "." +:+ pad6 (q mod 10 ^ 6)
  end.

(** [%d]. *)
Definition fmt_d (n : Z) : string := pretty n.

(** ** [%q]: [strconv.Quote] *)

Definition hex2 (n : nat) : string := String (hex_lower (n / 16)) (String (hex_lower (n mod 16)) "").

Fixpoint hexes (digits : nat) (n : nat) : string :=
  match digits with
  | O => ""
  | S d => hexes d (n / 16) +:+ String (hex_lower (n mod 16)) ""
  end.

(** The code point of a valid encoding. *)
Definition rune_of (e : string) : nat :=
  match map code (list_ascii_of_string e) with
  | [a] => a
  | [a; b] => (a - 192) * 64 + (b - 128)
  | [a; b; c] => ((a - 224) * 64 + (b - 128)) * 64 + (c - 128)
  | [a; b; c; d] => (((a - 240) * 64 + (b - 128)) * 64 + (c - 128)) * 64 + (d - 128)
  | _ => 0
  end%nat.

(** [appendEscapedRune] for a one-byte rune. *)
Definition quote_ascii (c : ascii) : string :=
  let n := code c in
  (if (n =? 34) || (n =? 92) then backslash +:+ String c ""
   else if (32 <=? n) && (n <? 127) then String c ""
   else if n =? 7 then backslash +:+ "a"
   else if n =? 8 then backslash +:+ "b"
   else if n =? 12 then backslash +:+ "f"
   else if n =? 10 then backslash +:+ "n"
   else if n =? 13 then backslash +:+ "r"
   else if n =? 9 then backslash +:+ "t"
   else if n =? 11 then backslash +:+ "v"
   else backslash +:+ "x" +:+ hex2 n)%nat.

Section quoting.
Context (IsPrint : string → bool).

Definition quote_rune (r : option string) (byte0 : ascii) : string :=
  match r with
  | None => backslash +:+ "x" +:+ hex2 (code byte0)
  | Some (String c "") => quote_ascii c
  | Some e =>
      if IsPrint e then e
      else if Z.of_nat (rune_of e) <? 65536 then backslash +:+ "u" +:+ hexes 4 (rune_of e)
      else backslash +:+ "U" +:+ hexes 8 (rune_of e)
  end.

Fixpoint Quote_go (fuel : nat) (s : string) : string :=
  match fuel, s with
  | O, _ | _, "" => ""
  | S fuel', String c s' =>
      match utf8_width s with
      | O => quote_rune None c +:+ Quote_go fuel' s'
      | w => quote_rune (Some (take_bytes w s)) c +:+ Quote_go fuel' (drop_bytes w s)
      end
  end.

Definition Quote (s : string) : string := dq +:+ Quote_go (String.length s) s +:+ dq.

End quoting.

(** ** State *)

Record labelsKey := mkLabels { L1 : string; L2 : string; L3 : string; L4 : string }.

#[export] Instance labelsKey_eq_dec : EqDecision labelsKey.
Proof. solve_decision. Defined.
#[export] Instance labelsKey_countable : Countable labelsKey.
Proof.
  apply (inj_countable' (fun k => (L1 k, L2 k, L3 k, L4 k))
           (fun '(a, b, c, d) => mkLabels a b c d)).
  by intros [].
Defined.

Record latencyBuckets := mkBuckets { buckets : gmap string Z; lb_count : Z; sumMs : float64 }.

Record MetricsRecorder := mkMetrics {
  requestCount : gmap labelsKey Z;
  latencyHist : gmap string latencyBuckets;
  cacheHitCount : gmap string Z;
  errorsTotal : gmap labelsKey Z;
  failoverTotal : gmap labelsKey Z;
  costTotal : gmap string Z;
  qualityScoreSum : gmap string float64;
  qualityScoreCount : gmap string Z;
  otlpExportFailures : gmap string Z;
  otlpExportSuccess : Z;
  otlpExportBytes : Z;
  auditWriteFailures : gmap labelsKey Z;
  mcpCallCount : gmap labelsKey Z;
  mcpLatencyHist : gmap labelsKey latencyBuckets;
  pricingEnabled : bool;
  pricingDriftModels : Z;
  pricingLastUnix : Z;
  pricingErrors : Z
}.

Definition emptyMetrics : MetricsRecorder :=
  mkMetrics ∅ ∅ ∅ ∅ ∅ ∅ ∅ ∅ ∅ 0 0 ∅ ∅ ∅ false 0 0 0.

Definition NewMetricsRecorder (addr : string) : option MetricsRecorder :=
  if String.eqb addr "" then None else Some emptyMetrics.

(** [m[k] += n] on [uint64]s. *)
Definition bump_by `{Countable K} (k : K) (n : Z) (m : gmap K Z) : gmap K Z :=
  <[k := wrapu64 (default 0 (m !! k) + n)]> m.

Definition latencyBucketBounds : list float64 :=
  of_Z <$> [10; 25; 50; 100; 250; 500; 1000; 2500; 5000; 10000].
(** [%g] of the bounds. *)
Definition latencyBucketLabels : list string :=
  ["10"; "25"; "50"; "100"; "250"; "500"; "1000"; "2500"; "5000"; "10000"].

Definition emptyBuckets : latencyBuckets := mkBuckets ∅ 0 fzero.

(** The body both recording methods run on a positive latency. *)
Definition observe (ms : Z) (b : latencyBuckets) : latencyBuckets :=
  let latencyMs := of_Z ms in
  mkBuckets
    (foldl (fun m lel => if fle latencyMs lel.1 then bump_by lel.2 1 m else m) (buckets b)
       (zip latencyBucketBounds latencyBucketLabels))
    (wrapu64 (lb_count b + 1))
    (fadd (sumMs b) latencyMs).

Definition statusBucket (code : Z) : string :=
  if (200 <=? code) && (code <? 300) then "2xx"
  else if (300 <=? code) && (code <? 400) then "3xx"
  else if (400 <=? code) && (code <? 500) then "4xx"
  else if 500 <=? code then "5xx"
  else "other".

Definition errorBucket (t : string) : string := if String.eqb t "" then "unknown" else t.

Definition request_key (t : Trace) : labelsKey :=
  mkLabels (RequestModel t) (statusBucket (StatusCode t)) (CredentialSource t) "".
Definition error_key (t : Trace) : labelsKey :=
  mkLabels (ProviderName (t_base t)) (errorBucket (ErrorType t)) "" "".
Definition failover_key (t : Trace) : labelsKey :=
  mkLabels (RequestModel t) (ResponseModel t) (ErrorType t) (ReplicaID (t_base t)).
Definition is_failover (t : Trace) : bool :=
  String.eqb (ErrorType t) "upstream_error_failover" &&
  negb (String.eqb (ResponseModel t) "") && negb (String.eqb (RequestModel t) "").

Section recording.
Context (overflow : float64 → Z).

(** One trace: the lines of [Record] each touch a field of their own. *)
Definition Record_ (t : Trace) (r : MetricsRecorder) : MetricsRecorder :=
  mkMetrics
    (bump_by (request_key t) 1 (requestCount r))
    (if 0 <? LatencyMs t
     then <[RequestModel t := observe (LatencyMs t) (default emptyBuckets (latencyHist r !! RequestModel t))]>
            (latencyHist r)
     else latencyHist r)
    (if CacheHit t then bump_by (RequestModel t) 1 (cacheHitCount r) else cacheHitCount r)
    (if 400 <=? StatusCode t then bump_by (error_key t) 1 (errorsTotal r) else errorsTotal r)
    (if is_failover t then bump_by (failover_key t) 1 (failoverTotal r) else failoverTotal r)
    (if fgt (CostUSD_t t) fzero
     then bump_by (RequestModel t) (to_uint64 overflow (fmul (CostUSD_t t) (of_Z 1000000))) (costTotal r)
     else costTotal r)
    (qualityScoreSum r) (qualityScoreCount r) (otlpExportFailures r) (otlpExportSuccess r)
    (otlpExportBytes r) (auditWriteFailures r) (mcpCallCount r) (mcpLatencyHist r)
    (pricingEnabled r) (pricingDriftModels r) (pricingLastUnix r) (pricingErrors r).

Definition RecordFailover (fromModel toModel reason replicaID : string) (r : MetricsRecorder) : MetricsRecorder :=
  mkMetrics (requestCount r) (latencyHist r) (cacheHitCount r) (errorsTotal r)
    (bump_by (mkLabels fromModel toModel reason replicaID) 1 (failoverTotal r))
    (costTotal r) (qualityScoreSum r) (qualityScoreCount r) (otlpExportFailures r) (otlpExportSuccess r)
    (otlpExportBytes r) (auditWriteFailures r) (mcpCallCount r) (mcpLatencyHist r)
    (pricingEnabled r) (pricingDriftModels r) (pricingLastUnix r) (pricingErrors r).

Definition RecordQualityScore (model : string) (score : float64) (r : MetricsRecorder) : MetricsRecorder :=
  mkMetrics (requestCount r) (latencyHist r) (cacheHitCount r) (errorsTotal r) (failoverTotal r) (costTotal r)
    (<[model := fadd (default fzero (qualityScoreSum r !! model)) score]> (qualityScoreSum r))
    (bump_by model 1 (qualityScoreCount r))
    (otlpExportFailures r) (otlpExportSuccess r) (otlpExportBytes r) (auditWriteFailures r)
    (mcpCallCount r) (mcpLatencyHist r)
    (pricingEnabled r) (pricingDriftModels r) (pricingLastUnix r) (pricingErrors r).

Definition RecordOTLPExportFailure (reason : string) (r : MetricsRecorder) : MetricsRecorder :=
  mkMetrics (requestCount r) (latencyHist r) (cacheHitCount r) (errorsTotal r) (failoverTotal r) (costTotal r)
    (qualityScoreSum r) (qualityScoreCount r)
    (bump_by (if String.eqb reason "" then "other" else reason) 1 (otlpExportFailures r))
    (otlpExportSuccess r) (otlpExportBytes r) (auditWriteFailures r) (mcpCallCount r) (mcpLatencyHist r)
    (pricingEnabled r) (pricingDriftModels r) (pricingLastUnix r) (pricingErrors r).

Definition RecordOTLPExportSuccess (nbytes : Z) (r : MetricsRecorder) : MetricsRecorder :=
  mkMetrics (requestCount r) (latencyHist r) (cacheHitCount r) (errorsTotal r) (failoverTotal r) (costTotal r)
    (qualityScoreSum r) (qualityScoreCount r) (otlpExportFailures r)
    (wrapu64 (otlpExportSuccess r + 1))
    (if 0 <? nbytes then wrapu64 (otlpExportBytes r + nbytes) else otlpExportBytes r)
    (auditWriteFailures r) (mcpCallCount r) (mcpLatencyHist r)
    (pricingEnabled r) (pricingDriftModels r) (pricingLastUnix r) (pricingErrors r).

(** The fields of an [MCPLog] the counters read. *)
Record MCPSample := mkMCPSample { ServerLabel : string; ToolName : string; Status : string; l_LatencyMs : Z }.

Definition mcp_key (l : MCPSample) : labelsKey := mkLabels (ServerLabel l) (ToolName l) (Status l) "".

Definition RecordMCPLog (l : MCPSample) (r : MetricsRecorder) : MetricsRecorder :=
  let b := default emptyBuckets (mcpLatencyHist r !! mcp_key l) in
  mkMetrics (requestCount r) (latencyHist r) (cacheHitCount r) (errorsTotal r) (failoverTotal r) (costTotal r)
    (qualityScoreSum r) (qualityScoreCount r) (otlpExportFailures r) (otlpExportSuccess r) (otlpExportBytes r)
    (auditWriteFailures r) (bump_by (mcp_key l) 1 (mcpCallCount r))
    (<[mcp_key l := if 0 <? l_LatencyMs l then observe (l_LatencyMs l) b else b]> (mcpLatencyHist r))
    (pricingEnabled r) (pricingDriftModels r) (pricingLastUnix r) (pricingErrors r).

Definition auditActionCategory (action : string) : string :=
  if HasPrefix action "auth." then "auth"
  else if HasPrefix action "user." then "user"
  else if HasPrefix action "invite." then "invite"
  else if HasPrefix action "key." then "key"
  else if HasPrefix action "credential." then "credential"
  else if HasPrefix action "routing." then "routing"
  else if HasPrefix action "eval." then "eval"
  else if HasPrefix action "benchmark." then "benchmark"
  else if HasPrefix action "integration." then "integration"
  else if HasPrefix action "policy." then "policy"
  else if HasPrefix action "audit." then "audit"
  else if HasPrefix action "security." then "security"
  else if String.eqb action "" then "unknown"
  else "other".

Definition auditErrorReason (err : option string) : string :=
  match err with
  | None => "none"
  | Some msg =>
      if Contains msg "timeout" then "timeout"
      else if Contains msg "connection" then "network"
      else if Contains msg "23505" then "unique_violation"
      else if Contains msg "23503" then "fk_violation"
      else if Contains msg "column" then "missing_column"
      else if Contains msg "syntax" then "syntax"
      else "other"
  end.

Definition AuditWriteFailed (action : string) (err : option string) (r : MetricsRecorder) : MetricsRecorder :=
  mkMetrics (requestCount r) (latencyHist r) (cacheHitCount r) (errorsTotal r) (failoverTotal r) (costTotal r)
    (qualityScoreSum r) (qualityScoreCount r) (otlpExportFailures r) (otlpExportSuccess r) (otlpExportBytes r)
    (bump_by (mkLabels (auditActionCategory action) (auditErrorReason err) "" "") 1 (auditWriteFailures r))
    (mcpCallCount r) (mcpLatencyHist r)
    (pricingEnabled r) (pricingDriftModels r) (pricingLastUnix r) (pricingErrors r).

Definition SetPricingCheck (enabled : bool) (driftModels lastUnix errors : Z) (r : MetricsRecorder) : MetricsRecorder :=
  mkMetrics (requestCount r) (latencyHist r) (cacheHitCount r) (errorsTotal r) (failoverTotal r) (costTotal r)
    (qualityScoreSum r) (qualityScoreCount r) (otlpExportFailures r) (otlpExportSuccess r) (otlpExportBytes r)
    (auditWriteFailures r) (mcpCallCount r) (mcpLatencyHist r) enabled driftModels lastUnix errors.

(** The calls the recorder receives. *)
Inductive mop :=
| MRecord (t : Trace)
| MFailover (fromModel toModel reason replicaID : string)
| MQuality (model : string) (score : float64)
| MOtlpFailure (reason : string)
| MOtlpSuccess (nbytes : Z)
| MMcp (l : MCPSample)
| MAudit (action : string) (err : option string)
| MPricing (enabled : bool) (driftModels lastUnix errors : Z).

Definition apply_op (o : mop) (r : MetricsRecorder) : MetricsRecorder :=
  match o with
  | MRecord t => Record_ t r
  | MFailover a b c d => RecordFailover a b c d r
  | MQuality m s => RecordQualityScore m s r
  | MOtlpFailure x => RecordOTLPExportFailure x r
  | MOtlpSuccess n => RecordOTLPExportSuccess n r
  | MMcp l => RecordMCPLog l r
  | MAudit a e => AuditWriteFailed a e r
  | MPricing e d u n => SetPricingCheck e d u n r
  end.

(** Every method returns at once on a nil receiver. *)
Definition call_op (o : mop) (r : option MetricsRecorder) : option MetricsRecorder := apply_op o <$> r.

Definition run_ops (os : list mop) (r : MetricsRecorder) : MetricsRecorder :=
  foldl (fun r o => apply_op o r) r os.

End recording.

(** ** The scrape *)

Definition labelKeyCmp (a b : labelsKey) : comparison :=
  match String.compare (L1 a) (L1 b) with
  | Eq => match String.compare (L2 a) (L2 b) with
          | Eq => match String.compare (L3 a) (L3 b) with
                  | Eq => String.compare (L4 a) (L4 b)
                  | c => c
                  end
          | c => c
          end
  | c => c
  end.

Definition label_le (a b : labelsKey) : Prop := labelKeyCmp a b ≠ Gt.
#[export] Instance label_le_dec : RelDecision label_le.
Proof. intros a b. unfold label_le. destruct (labelKeyCmp a b); first [left; done | right; congruence]. Defined.

(** [sort.Slice] of the keys a [range] visited, in the order it visited them. *)
Definition sort_labels : list labelsKey → list labelsKey := merge_sort label_le.
Definition label_keys {A} (m : gmap labelsKey A) : list labelsKey := sort_labels (map_to_list m).*1.

Definition sortedKeys {A} (m : gmap string A) : list string := sort_Strings (map_to_list m).*1.

Section scrape.
Context (IsPrint : string → bool).
#[local] Abbreviation q := (Quote IsPrint).

Definition requests_lines (r : MetricsRecorder) : list string :=
  ["# HELP nexus_gateway_requests_total Total gateway requests by model, status, and credential source.";
   "# TYPE nexus_gateway_requests_total counter"] ++
  map (fun k => "nexus_gateway_requests_total{gen_ai_request_model=" +:+ q (L1 k) +:+ ",status=" +:+ q (L2 k) +:+
                ",credential_source=" +:+ q (L3 k) +:+ "} " +:+ fmt_d (default 0 (requestCount r !! k)))
      (label_keys (requestCount r)).

Definition duration_lines (m : string) (hb : latencyBuckets) : list string :=
  map (fun lbl => "nexus_gateway_request_duration_seconds_bucket{gen_ai_request_model=" +:+ q m +:+ ",le=" +:+ q lbl +:+
                  "} " +:+ fmt_d (default 0 (buckets hb !! lbl))) latencyBucketLabels ++
  ["nexus_gateway_request_duration_seconds_bucket{gen_ai_request_model=" +:+ q m +:+ ",le=" +:+ dq +:+ "+Inf" +:+ dq +:+
     "} " +:+ fmt_d (lb_count hb);
   "nexus_gateway_request_duration_seconds_count{gen_ai_request_model=" +:+ q m +:+ "} " +:+ fmt_d (lb_count hb);
   "nexus_gateway_request_duration_seconds_sum{gen_ai_request_model=" +:+ q m +:+ "} " +:+
     fmt_f (fdiv (sumMs hb) (of_Z 1000))].

Definition durations_lines (r : MetricsRecorder) : list string :=
  ["# HELP nexus_gateway_request_duration_seconds Request latency per model (exposition-format histogram).";
   "# TYPE nexus_gateway_request_duration_seconds histogram"] ++
  mjoin (map (fun m => duration_lines m (default emptyBuckets (latencyHist r !! m))) (sortedKeys (latencyHist r))).

Definition cache_lines (r : MetricsRecorder) : list string :=
  ["# HELP nexus_gateway_cache_hits_total Semantic cache hits per model.";
   "# TYPE nexus_gateway_cache_hits_total counter"] ++
  map (fun m => "nexus_gateway_cache_hits_total{gen_ai_request_model=" +:+ q m +:+ "} " +:+
                fmt_d (default 0 (cacheHitCount r !! m))) (sortedKeys (cacheHitCount r)).

Definition errors_lines (r : MetricsRecorder) : list string :=
  ["# HELP nexus_gateway_errors_total Error responses by provider and reason.";
   "# TYPE nexus_gateway_errors_total counter"] ++
  map (fun k => "nexus_gateway_errors_total{provider=" +:+ q (L1 k) +:+ ",reason=" +:+ q (L2 k) +:+ "} " +:+
                fmt_d (default 0 (errorsTotal r !! k))) (label_keys (errorsTotal r)).

Definition failover_lines (r : MetricsRecorder) : list string :=
  ["# HELP nexus_router_failover_total Failover events emitted by the quality-aware router.";
   "# TYPE nexus_router_failover_total counter"] ++
  map (fun k => "nexus_router_failover_total{from=" +:+ q (L1 k) +:+ ",to=" +:+ q (L2 k) +:+ ",reason=" +:+ q (L3 k) +:+
                ",replica=" +:+ q (L4 k) +:+ "} " +:+ fmt_d (default 0 (failoverTotal r !! k)))
      (label_keys (failoverTotal r)).

Definition cost_lines (r : MetricsRecorder) : list string :=
  ["# HELP nexus_gateway_cost_usd_total Total cost (USD) per model since startup.";
   "# TYPE nexus_gateway_cost_usd_total counter"] ++
  map (fun m => "nexus_gateway_cost_usd_total{gen_ai_request_model=" +:+ q m +:+ "} " +:+
                fmt_f (fdiv (of_Z (default 0 (costTotal r !! m))) (of_Z 1000000))) (sortedKeys (costTotal r)).

Definition quality_lines (r : MetricsRecorder) : list string :=
  ["# HELP nexus_eval_quality_score Rolling mean quality judge score per model.";
   "# TYPE nexus_eval_quality_score gauge"] ++
  mjoin (map (fun m =>
    let n := default 0 (qualityScoreCount r !! m) in
    if n =? 0 then []
    else ["nexus_eval_quality_score{gen_ai_request_model=" +:+ q m +:+ "} " +:+
            fmt_f (fdiv (default fzero (qualityScoreSum r !! m)) (of_Z n))])
    (sortedKeys (qualityScoreCount r))).

Definition otlp_lines (r : MetricsRecorder) : list string :=
  ["# HELP nexus_otlp_export_failures_total OTLP exporter failures, bucketed by reason (http_4xx / http_5xx / network / other).";
   "# TYPE nexus_otlp_export_failures_total counter"] ++
  map (fun x => "nexus_otlp_export_failures_total{reason=" +:+ q x +:+ "} " +:+
                fmt_d (default 0 (otlpExportFailures r !! x))) (sortedKeys (otlpExportFailures r)) ++
  ["# HELP nexus_otlp_export_traces_total OTLP exporter successful envelope POSTs.";
   "# TYPE nexus_otlp_export_traces_total counter";
   "nexus_otlp_export_traces_total " +:+ fmt_d (otlpExportSuccess r);
   "# HELP nexus_otlp_export_bytes_total OTLP exporter payload bytes successfully POSTed.";
   "# TYPE nexus_otlp_export_bytes_total counter";
   "nexus_otlp_export_bytes_total " +:+ fmt_d (otlpExportBytes r)].

Definition audit_lines (r : MetricsRecorder) : list string :=
  ["# HELP nexus_audit_write_failed_total Audit INSERT failures by action category and reason.";
   "# TYPE nexus_audit_write_failed_total counter"] ++
  map (fun k => "nexus_audit_write_failed_total{category=" +:+ q (L1 k) +:+ ",reason=" +:+ q (L2 k) +:+ "} " +:+
                fmt_d (default 0 (auditWriteFailures r !! k))) (label_keys (auditWriteFailures r)).

Definition mcp_labels (k : labelsKey) : string :=
  "{server=" +:+ q (L1 k) +:+ ",tool=" +:+ q (L2 k) +:+ ",status=" +:+ q (L3 k).

Definition mcp_latency_lines (k : labelsKey) (hb : latencyBuckets) : list string :=
  map (fun lbl => "nexus_mcp_tool_latency_ms_bucket" +:+ mcp_labels k +:+ ",le=" +:+ q lbl +:+ "} " +:+
                  fmt_d (default 0 (buckets hb !! lbl))) latencyBucketLabels ++
  ["nexus_mcp_tool_latency_ms_bucket" +:+ mcp_labels k +:+ ",le=" +:+ dq +:+ "+Inf" +:+ dq +:+ "} " +:+ fmt_d (lb_count hb);
   "nexus_mcp_tool_latency_ms_sum" +:+ mcp_labels k +:+ "} " +:+ fmt_f (sumMs hb);
   "nexus_mcp_tool_latency_ms_count" +:+ mcp_labels k +:+ "} " +:+ fmt_d (lb_count hb)].

Definition mcp_lines (r : MetricsRecorder) : list string :=
  ["# HELP nexus_mcp_tool_calls_total MCP tool invocations by server, tool, and status.";
   "# TYPE nexus_mcp_tool_calls_total counter"] ++
  map (fun k => "nexus_mcp_tool_calls_total" +:+ mcp_labels k +:+ "} " +:+ fmt_d (default 0 (mcpCallCount r !! k)))
      (label_keys (mcpCallCount r)) ++
  ["# HELP nexus_mcp_tool_latency_ms MCP tool call latency histogram.";
   "# TYPE nexus_mcp_tool_latency_ms histogram"] ++
  mjoin (map (fun k => match mcpLatencyHist r !! k with None => [] | Some hb => mcp_latency_lines k hb end)
             (label_keys (mcpCallCount r))).

Definition pricing_lines (r : MetricsRecorder) : list string :=
  if pricingEnabled r then
    ["# HELP nexus_pricing_drift_models Count of static CostUSD table keys that differ from the published catalog. Alert-only; does not rewrite billing.";
     "# TYPE nexus_pricing_drift_models gauge";
     "nexus_pricing_drift_models " +:+ fmt_d (pricingDriftModels r);
     "# HELP nexus_pricing_check_last_unix Unix timestamp of the last pricing catalog check.";
     "# TYPE nexus_pricing_check_last_unix gauge";
     "nexus_pricing_check_last_unix " +:+ fmt_d (pricingLastUnix r);
     "# HELP nexus_pricing_check_errors_total Failed pricing catalog fetches since process start.";
     "# TYPE nexus_pricing_check_errors_total counter";
     "nexus_pricing_check_errors_total " +:+ fmt_d (pricingErrors r)]
  else [].

Definition scrape_lines (r : MetricsRecorder) : list string :=
  requests_lines r ++ durations_lines r ++ cache_lines r ++ errors_lines r ++ failover_lines r ++
  cost_lines r ++ quality_lines r ++ otlp_lines r ++ audit_lines r ++ mcp_lines r ++ pricing_lines r.

Definition newline : string := String (byte 10) "".

(** The body [handleMetrics] writes. *)
Definition handleMetrics (r : MetricsRecorder) : string :=
  concat_s (map (fun l => l +:+ newline) (scrape_lines r)).

End scrape.
