(* ===== verification/MetricsProps.v ===== *)
(** * MetricsProps: what a scrape reports

    The counters of [Metrics] against the log of the calls the recorder received,
    and the text of the scrape: its lines are the listed ones whatever bytes the
    labels hold, its keys come in one order however a map is visited, and which
    labels a Prometheus parser accepts. *)

From stdpp Require Import sorting pretty.
From S2P Require Import Prelude GoString Float64 FloatInt Json JsonFacts GwTypes Metrics.
Local Open Scope string_scope.
Local Open Scope Z_scope.

(** ** Counters *)

(** Calls of a log that [f] assigns to the key [k]. *)
Definition tally {K} `{EqDecision K} (f : mop → option K) (k : K) (os : list mop) : Z :=
  Z.of_nat (length (filter (fun o => f o = Some k) os)).

Lemma tally_snoc {K} `{EqDecision K} (f : mop → option K) k os o :
  tally f k (os ++ [o]) = tally f k os + (if decide (f o = Some k) then 1 else 0).
Proof.
  unfold tally. rewrite filter_app, length_app, filter_cons, filter_nil.
  case_decide; cbn [length]; lia.
Qed.

Lemma tally_bound {K} `{EqDecision K} (f : mop → option K) k os :
  0 ≤ tally f k os ≤ Z.of_nat (length os).
Proof. unfold tally. pose proof (length_filter (fun o => f o = Some k) os). lia. Qed.

Lemma run_ops_snoc ov os o r : run_ops ov (os ++ [o]) r = apply_op ov o (run_ops ov os r).
Proof. unfold run_ops. by rewrite foldl_snoc. Qed.

(** A field that every call either leaves alone or bumps at the key [f] gives. *)
Section counter.
Context {K : Type} `{Countable K} (ov : float64 → Z).
Context (proj : MetricsRecorder → gmap K Z) (f : mop → option K).
Hypothesis proj_init : proj emptyMetrics = ∅.
Hypothesis proj_step : ∀ o r,
  proj (apply_op ov o r) = match f o with Some k => bump_by k 1 (proj r) | None => proj r end.

Lemma counter_exact os k :
  Z.of_nat (length os) < 2 ^ 64 →
  proj (run_ops ov os emptyMetrics) !! k =
  if tally f k os =? 0 then None else Some (tally f k os).
Proof.
  induction os as [|o os IH] using rev_ind; intros Hlen.
  - unfold run_ops. cbn [foldl]. by rewrite proj_init, lookup_empty.
  - rewrite length_app in Hlen. cbn [length] in Hlen.
    specialize (IH ltac:(lia)). rewrite run_ops_snoc, proj_step, tally_snoc.
    pose proof (tally_bound f k os) as Hb.
    destruct (f o) as [k'|]; [|rewrite decide_False by done; by rewrite Z.add_0_r].
    unfold bump_by. rewrite lookup_insert. case_decide as Ek.
    + subst k'. rewrite decide_True by done. rewrite IH.
      destruct (Z.eqb_spec (tally f k os + 1) 0); [lia|].
      unfold wrapu64. destruct (Z.eqb_spec (tally f k os) 0) as [E|]; cbn [default from_option id].
      * by rewrite E.
      * by rewrite Z.mod_small by lia.
    + rewrite decide_False by congruence. by rewrite Z.add_0_r.
Qed.

End counter.

(** Which key of each series a call counts for. *)
Definition request_of (o : mop) : option labelsKey :=
  match o with MRecord t => Some (request_key t) | _ => None end.
Definition cache_of (o : mop) : option string :=
  match o with MRecord t => if CacheHit t then Some (RequestModel t) else None | _ => None end.
Definition error_of (o : mop) : option labelsKey :=
  match o with MRecord t => if 400 <=? StatusCode t then Some (error_key t) else None | _ => None end.
Definition failover_of (o : mop) : option labelsKey :=
  match o with
  | MRecord t => if is_failover t then Some (failover_key t) else None
  | MFailover a b c d => Some (mkLabels a b c d)
  | _ => None
  end.
Definition audit_of (o : mop) : option labelsKey :=
  match o with MAudit a e => Some (mkLabels (auditActionCategory a) (auditErrorReason e) "" "") | _ => None end.
Definition mcp_of (o : mop) : option labelsKey :=
  match o with MMcp l => Some (mcp_key l) | _ => None end.
Definition otlp_of (o : mop) : option string :=
  match o with MOtlpFailure x => Some (if String.eqb x "" then "other" else x) | _ => None end.
Definition quality_of (o : mop) : option string := match o with MQuality m _ => Some m | _ => None end.

Definition counted (n : Z) : option Z := if n =? 0 then None else Some n.

Ltac counter := intros [] r; cbn; try done; try (by case_match).

(** ** The histogram *)

Definition hist_of (l : list Z) : latencyBuckets := foldl (fun b ms => observe ms b) emptyBuckets l.

Definition bucket_pairs : list (float64 * string) := zip latencyBucketBounds latencyBucketLabels.

Definition at_most (bd : float64) (l : list Z) : Z := Z.of_nat (length (filter (fun ms => fle (of_Z ms) bd = true) l)).

Lemma at_most_snoc bd l ms :
  at_most bd (l ++ [ms]) = at_most bd l + (if fle (of_Z ms) bd then 1 else 0).
Proof.
  unfold at_most. rewrite filter_app, length_app, filter_cons, filter_nil.
  case_decide as E; [rewrite E; cbn [length]; lia|].
  apply not_true_is_false in E. rewrite E. cbn [length]. lia.
Qed.

Lemma at_most_bound bd l : 0 ≤ at_most bd l ≤ Z.of_nat (length l).
Proof. unfold at_most. pose proof (length_filter (fun ms => fle (of_Z ms) bd = true) l). lia. Qed.

(** The loop over the bounds bumps the label of every bound not below the value. *)
Lemma bounds_loop (x : float64) (ps : list (float64 * string)) (m : gmap string Z) bd lbl :
  NoDup ps.*2 → (bd, lbl) ∈ ps →
  foldl (fun m lel => if fle x lel.1 then bump_by lel.2 1 m else m) m ps !! lbl =
  if fle x bd then Some (wrapu64 (default 0 (m !! lbl) + 1)) else m !! lbl.
Proof.
  revert m. induction ps as [|[bd' lbl'] ps IH]; intros m Hnd Hin; [by apply elem_of_nil in Hin|].
  rewrite fmap_cons in Hnd. apply NoDup_cons in Hnd as [Hni Hnd]. cbn [foldl fst snd].
  assert (∀ ps' (m' : gmap string Z), lbl ∉ ps'.*2 →
    foldl (fun m lel => if fle x lel.1 then bump_by lel.2 1 m else m) m' ps' !! lbl = m' !! lbl) as Hskip.
  { induction ps' as [|[b l] ps' IH']; intros m' Hn; [done|]. cbn [foldl fst snd].
    rewrite fmap_cons in Hn. apply not_elem_of_cons in Hn as [Hne Hn]. rewrite IH' by done.
    destruct (fle x b); [|done]. unfold bump_by. by rewrite lookup_insert_ne. }
  apply elem_of_cons in Hin as [[= <- <-]|Hin].
  - rewrite Hskip by done. destruct (fle x bd); [|done]. unfold bump_by. by rewrite lookup_insert_eq.
  - rewrite (IH _ Hnd Hin).
    assert (lbl' ≠ lbl) as Hne by (intros ->; apply Hni; by apply (list_elem_of_fmap_2 snd _ (bd, lbl))).
    assert ((if fle x bd' then bump_by lbl' 1 m else m) !! lbl = m !! lbl) as ->; [|done].
    destruct (fle x bd'); [|done]. unfold bump_by. by rewrite lookup_insert_ne.
Qed.

Lemma labels_nodup : NoDup bucket_pairs.*2.
Proof. apply (bool_decide_unpack _). vm_compute. exact I. Qed.

Lemma hist_exact l bd lbl :
  Z.of_nat (length l) < 2 ^ 64 → (bd, lbl) ∈ bucket_pairs →
  default 0 (buckets (hist_of l) !! lbl) = at_most bd l ∧ lb_count (hist_of l) = Z.of_nat (length l).
Proof.
  intros Hlen Hin. induction l as [|ms l IH] using rev_ind; [done|].
  rewrite length_app in Hlen |- *. cbn [length] in *. destruct (IH ltac:(lia)) as [Hb Hc].
  unfold hist_of in *. rewrite foldl_snoc. set (b := foldl _ _ l) in *.
  cbn [observe buckets lb_count]. split.
  - unfold observe. cbn [buckets]. fold bucket_pairs. rewrite (bounds_loop _ _ _ bd) by (apply labels_nodup || done).
    rewrite at_most_snoc. pose proof (at_most_bound bd l). destruct (fle (of_Z ms) bd); [|by rewrite Z.add_0_r].
    cbn [default from_option id]. rewrite Hb. unfold wrapu64. rewrite Z.mod_small by lia. done.
  - unfold observe. cbn [lb_count]. rewrite Hc. unfold wrapu64. rewrite Z.mod_small by lia. lia.
Qed.

(** The positive latencies a log reports for a model. *)
Definition latencies (m : string) (os : list mop) : list Z :=
  omap (fun o => match o with
                 | MRecord t => if bool_decide (RequestModel t = m) && (0 <? LatencyMs t) then Some (LatencyMs t) else None
                 | _ => None end) os.

Lemma latencies_snoc m os o : latencies m (os ++ [o]) = (latencies m os ++ latencies m [o])%list.
Proof. unfold latencies. by rewrite omap_app. Qed.

Definition hist_or_none (l : list Z) : option latencyBuckets :=
  match l with [] => None | _ => Some (hist_of l) end.

Lemma hist_or_none_default l : default emptyBuckets (hist_or_none l) = hist_of l.
Proof. by destruct l. Qed.

Lemma hist_or_none_snoc l ms : hist_or_none (l ++ [ms]) = Some (observe ms (hist_of l)).
Proof.
  unfold hist_of. destruct l as [|x l]; [done|].
  cbn [hist_or_none app]. unfold hist_of. by rewrite app_comm_cons, foldl_snoc.
Qed.

Lemma latencyHist_log ov os m :
  latencyHist (run_ops ov os emptyMetrics) !! m = hist_or_none (latencies m os).
Proof.
  induction os as [|o os IH] using rev_ind; [done|].
  rewrite run_ops_snoc, latencies_snoc.
  destruct o; cbn [apply_op latencies omap list_omap]; try by rewrite app_nil_r.
  cbn [Record_ latencyHist]. destruct (0 <? LatencyMs t).
  - rewrite lookup_insert. case_decide as E.
    + subst m. rewrite bool_decide_true by done. cbn [andb].
      rewrite IH, hist_or_none_default. by rewrite hist_or_none_snoc.
    + rewrite bool_decide_false by done. cbn [andb]. by rewrite app_nil_r.
  - rewrite andb_false_r. by rewrite app_nil_r.
Qed.

Lemma latencies_length m os : (length (latencies m os) ≤ length os)%nat.
Proof. unfold latencies. induction os as [|o os IH]; [done|]. cbn [omap list_omap]. case_match; cbn [length]; lia. Qed.

Lemma latencies_pos m os : Forall (fun ms => 0 < ms) (latencies m os).
Proof.
  unfold latencies. induction os as [|o os IH]; [constructor|]. cbn [omap list_omap].
  case_match eqn:E; [|done]. constructor; [|done]. destruct o; try done.
  destruct (bool_decide _); [|done]. cbn [andb] in E. destruct (Z.ltb_spec 0 (LatencyMs t)); by simplify_eq.
Qed.

(** The bounds as integers. *)
Definition bounds_ms : list Z := [10; 25; 50; 100; 250; 500; 1000; 2500; 5000; 10000].

Lemma bucket_pairs_int : bucket_pairs = prod_map of_Z id <$> zip bounds_ms latencyBucketLabels.
Proof. done. Qed.

Lemma at_most_int b l :
  0 < b < 2 ^ 53 → Forall (fun ms => 0 < ms < 2 ^ 53) l →
  at_most (of_Z b) l = Z.of_nat (length (filter (fun ms => ms ≤ b) l)).
Proof.
  intros Hb. induction 1 as [|ms l Hms _ IH]; [done|]. unfold at_most in *. rewrite !filter_cons.
  destruct (decide (fle (of_Z ms) (of_Z b) = true)) as [E|E]; rewrite of_Z_fle in E by done;
    destruct (decide (ms ≤ b)); cbn [length]; reflect_bools; lia.
Qed.

(** ** Lines *)

Definition no_nl (s : string) : Prop := ¬ byte_in (byte 10) s.

Lemma no_nl_app s t : no_nl s → no_nl t → no_nl (s +:+ t).
Proof. unfold no_nl. rewrite byte_in_app. tauto. Qed.

Definition nl_free (s : string) : bool :=
  forallb (fun c => negb (Ascii.eqb c (byte 10))) (list_ascii_of_string s).

Lemma nl_free_ok s : nl_free s = true → no_nl s.
Proof.
  unfold nl_free, no_nl. induction s as [|c s IH]; [by intros _ []|].
  cbn [list_ascii_of_string forallb byte_in]. intros [Hc Hs]%andb_prop [E|E]; [|by apply IH].
  subst c. discriminate Hc.
Qed.

Ltac lit_free := apply nl_free_ok; vm_compute; reflexivity.

Lemma pretty_pos_Itoa (p : positive) : pretty p = Itoa (Pos.to_nat p).
Proof. unfold Itoa, pretty, pretty_positive, pretty_nat. by rewrite positive_nat_N. Qed.

Lemma no_nl_pretty (n : Z) : no_nl (pretty n).
Proof.
  unfold no_nl. destruct n as [|p|p]; [cbn; intros [E|[]]; discriminate|..].
  - change (pretty (Zpos p)) with (pretty p). rewrite pretty_pos_Itoa. by apply Itoa_digits.
  - change (pretty (Zneg p)) with ("-" +:+ pretty p). rewrite byte_in_app, pretty_pos_Itoa.
    intros [[E|[]]|E]; [discriminate|]. revert E. by apply Itoa_digits.
Qed.

Lemma no_nl_zeros n : no_nl (zeros n).
Proof. induction n as [|n IH]; [intros []|]. intros [E|E]; [discriminate|by apply IH]. Qed.

Lemma no_nl_fmt_f x : no_nl (fmt_f x).
Proof.
  destruct x as [[]|[]| |s m e]; [lit_free..|].
  cbn [fmt_f]. apply no_nl_app; [destruct s; lit_free|]. apply no_nl_app; [apply no_nl_pretty|].
  apply no_nl_app; [lit_free|]. unfold pad6. apply no_nl_app; [apply no_nl_zeros|apply no_nl_pretty].
Qed.

Lemma hex_lower_nl n : (n < 16)%nat → hex_lower n ≠ byte 10.
Proof. intros Hn. do 16 (destruct n as [|n]; [vm_compute; discriminate|]). lia. Qed.

Lemma no_nl_cons c s : c ≠ byte 10 → no_nl s → no_nl (String c s).
Proof. intros Hc Hs [E|E]; [done|by apply Hs]. Qed.

Lemma no_nl_hexes d n : no_nl (hexes d n).
Proof.
  revert n. induction d as [|d IH]; intros n; [intros []|]. cbn [hexes]. apply no_nl_app; [apply IH|].
  apply no_nl_cons; [|intros []]. apply hex_lower_nl, Nat.mod_upper_bound. lia.
Qed.

Lemma code_lt c : (code c < 256)%nat.
Proof. apply nat_ascii_bounded. Qed.

Lemma no_nl_hex2 c : no_nl (hex2 (code c)).
Proof.
  pose proof (code_lt c). unfold hex2.
  apply no_nl_cons; [apply hex_lower_nl; apply Nat.Div0.div_lt_upper_bound; lia|].
  apply no_nl_cons; [apply hex_lower_nl, Nat.mod_upper_bound; lia|intros []].
Qed.

(** Every byte of a multi-byte encoding is at least 128. *)
Definition high (s : string) : Prop := Forall (fun c => (128 ≤ code c)%nat) (list_ascii_of_string s).

Lemma byte_in_elem b s : byte_in b s ↔ b ∈ list_ascii_of_string s.
Proof.
  induction s as [|c s IH]; cbn [byte_in list_ascii_of_string]; [by rewrite elem_of_nil|].
  rewrite IH, elem_of_cons. naive_solver.
Qed.

Lemma high_no_nl s : high s → no_nl s.
Proof.
  unfold high, no_nl. rewrite byte_in_elem, Forall_forall. intros H Hin. specialize (H _ Hin).
  revert H. vm_compute. lia.
Qed.

(** The encodings of width two and more have no ASCII byte. *)
Lemma wide_rune_high s w :
  utf8_width s = S (S w) → high (take_bytes (S (S w)) s).
Proof.
  unfold high. destruct s as [|c s1]; [done|]. cbn [utf8_width].
  destruct (Nat.leb_spec (code c) 127); [done|].
  destruct s1 as [|c1 s2]; [done|].
  unfold cont, between in *.
  repeat case_match; intros; simplify_eq; cbn [take_bytes list_ascii_of_string];
  repeat match goal with
  | H : (_ && _)%bool = true |- _ => apply andb_prop in H as [? ?]
  | H : (_ <=? _)%nat = true |- _ => apply Nat.leb_le in H
  end; repeat constructor; lia.
Qed.

(** One character is read off a text of known width. *)
Lemma Quote_go_cons IsPrint fuel c s :
  Quote_go IsPrint (S fuel) (String c s) =
  match utf8_width (String c s) with
  | O => backslash +:+ "x" +:+ hex2 (code c) +:+ Quote_go IsPrint fuel s
  | S O => quote_ascii c +:+ Quote_go IsPrint fuel s
  | w => quote_rune IsPrint (Some (take_bytes w (String c s))) c +:+ Quote_go IsPrint fuel (drop_bytes w (String c s))
  end.
Proof. cbn [Quote_go]. destruct (utf8_width (String c s)) as [|[|w]]; [done|..|done]. by destruct s. Qed.

Lemma no_nl_quote_ascii c : no_nl (quote_ascii c).
Proof.
  apply nl_free_ok. destruct c as [[] [] [] [] [] [] [] []]; vm_compute; reflexivity.
Qed.

Lemma quote_wide IsPrint c1 c2 e c :
  quote_rune IsPrint (Some (String c1 (String c2 e))) c =
  if IsPrint (String c1 (String c2 e)) then String c1 (String c2 e)
  else if Z.of_nat (rune_of (String c1 (String c2 e))) <? 65536
       then backslash +:+ "u" +:+ hexes 4 (rune_of (String c1 (String c2 e)))
       else backslash +:+ "U" +:+ hexes 8 (rune_of (String c1 (String c2 e))).
Proof. done. Qed.

(** A wide rune has at least two bytes. *)
Lemma wide_rune_shape s w :
  utf8_width s = S (S w) → ∃ c1 c2 e, take_bytes (S (S w)) s = String c1 (String c2 e).
Proof.
  destruct s as [|c1 [|c2 s]]; cbn [utf8_width]; [done|by case_match|]. intros _. cbn [take_bytes]. eauto.
Qed.

Lemma no_nl_Quote_go IsPrint fuel s : no_nl (Quote_go IsPrint fuel s).
Proof.
  revert s. induction fuel as [|fuel IH]; intros [|c s]; try (intros []; fail).
  rewrite Quote_go_cons. destruct (utf8_width (String c s)) as [|[|w]] eqn:Ew.
  - apply no_nl_app; [lit_free|]. apply no_nl_app; [lit_free|]. apply no_nl_app; [apply no_nl_hex2|apply IH].
  - apply no_nl_app; [apply no_nl_quote_ascii|apply IH].
  - apply no_nl_app; [|apply IH].
    pose proof (wide_rune_high _ _ Ew) as Hh. destruct (wide_rune_shape _ _ Ew) as (c1 & c2 & e & He). rewrite He in Hh |- *.
    rewrite quote_wide. destruct (IsPrint _); [by apply high_no_nl|].
    destruct (_ <? _); (apply no_nl_app; [lit_free|]; apply no_nl_app; [lit_free|apply no_nl_hexes]).
Qed.

Lemma no_nl_Quote IsPrint s : no_nl (Quote IsPrint s).
Proof. unfold Quote. apply no_nl_app; [lit_free|]. apply no_nl_app; [apply no_nl_Quote_go|lit_free]. Qed.

(** Closes "no newline" for a line of the scrape. *)
Ltac line_free :=
  repeat match goal with
  | |- no_nl (_ +:+ _) => apply no_nl_app
  | |- no_nl (Quote _ _) => apply no_nl_Quote
  | |- no_nl (pretty _) => apply no_nl_pretty
  | |- no_nl (fmt_f _) => apply no_nl_fmt_f
  | |- no_nl _ => lit_free
  end.

Lemma Forall_map_nl {A} (f : A → string) l : (∀ x, no_nl (f x)) → Forall no_nl (map f l).
Proof. intros H. induction l; constructor; auto. Qed.

Lemma Forall_join_nl {A} (f : A → list string) l : (∀ x, Forall no_nl (f x)) → Forall no_nl (mjoin (map f l)).
Proof. intros H. induction l as [|x l IH]; [constructor|].
  change (mjoin (map f (x :: l))) with (f x ++ mjoin (map f l))%list. apply Forall_app. auto.
Qed.

Ltac lines_free :=
  repeat first [ apply Forall_app; split | apply Forall_map_nl; intros ?; line_free
               | apply Forall_cons; split; [line_free|] | apply Forall_nil; exact I ].

Lemma scrape_lines_free IsPrint r : Forall no_nl (scrape_lines IsPrint r).
Proof.
  unfold scrape_lines, requests_lines, durations_lines, cache_lines, errors_lines, failover_lines, cost_lines,
    quality_lines, otlp_lines, audit_lines, mcp_lines, pricing_lines.
  unfold mcp_labels, fmt_d. lines_free.
  - apply Forall_join_nl. intros m. unfold duration_lines, fmt_d. lines_free.
  - apply Forall_join_nl. intros m. cbn zeta. case_match; lines_free.
  - apply Forall_join_nl. intros k. case_match; [|constructor]. unfold mcp_latency_lines, mcp_labels, fmt_d. lines_free.
  - case_match; lines_free.
Qed.

Lemma Split_line l s : no_nl l → Split (l +:+ newline +:+ s) (byte 10) = l :: Split s (byte 10).
Proof.
  induction l as [|c l IH]; intros Hl; [done|].
  change (String c l +:+ newline +:+ s) with (String c (l +:+ newline +:+ s)). cbn [Split].
  destruct (decide (c = byte 10)) as [->|Hc]; [exfalso; apply Hl; by left|]. rewrite IH; [done|]. intros H. apply Hl. by right.
Qed.

Lemma Split_lines ls :
  Forall no_nl ls → Split (concat_s (map (fun l => l +:+ newline) ls)) (byte 10) = (ls ++ [""])%list.
Proof.
  induction 1 as [|l ls Hl _ IH]; [done|]. cbn [map concat_s foldr]. fold (concat_s (map (fun l => l +:+ newline) ls)).
  rewrite app_assoc_string. rewrite Split_line by done. by rewrite IH.
Qed.

(** ** Label order *)

Lemma string_compare_antisym a b : String.compare b a = CompOpp (String.compare a b).
Proof. by rewrite String.compare_antisym. Qed.

Lemma label_cmp_antisym a b : labelKeyCmp b a = CompOpp (labelKeyCmp a b).
Proof.
  unfold labelKeyCmp. rewrite (string_compare_antisym (L1 a)), (string_compare_antisym (L2 a)),
    (string_compare_antisym (L3 a)), (string_compare_antisym (L4 a)).
  by destruct (String.compare (L1 a) _), (String.compare (L2 a) _), (String.compare (L3 a) _), (String.compare (L4 a) _).
Qed.

Lemma label_cmp_eq a b : labelKeyCmp a b = Eq → a = b.
Proof.
  unfold labelKeyCmp. destruct a as [a1 a2 a3 a4], b as [b1 b2 b3 b4]. cbn [L1 L2 L3 L4]. repeat case_match; try done. intros.
  by repeat match goal with H : String.compare _ _ = Eq |- _ => apply String.compare_eq_iff in H; subst end.
Qed.

Lemma string_lt_trans a b c : String.compare a b = Lt → String.compare b c = Lt → String.compare a c = Lt.
Proof.
  intros Hab Hbc.
  assert (String.le a c) as Hle.
  { transitivity b; unfold String.le, String.leb; [by rewrite Hab|by rewrite Hbc]. }
  unfold String.le, String.leb in Hle. destruct (String.compare a c) eqn:E; [|done|done].
  apply String.compare_eq_iff in E as ->. rewrite String.compare_antisym, Hbc in Hab. done.
Qed.

Lemma label_lt_trans a b c : labelKeyCmp a b = Lt → labelKeyCmp b c = Lt → labelKeyCmp a c = Lt.
Proof.
  assert (∀ x y z (k1 k2 k3 : comparison),
    (k1 = Lt → k2 = Lt → k3 = Lt) →
    match String.compare x y with Eq => k1 | o => o end = Lt →
    match String.compare y z with Eq => k2 | o => o end = Lt →
    match String.compare x z with Eq => k3 | o => o end = Lt) as H.
  { intros x y z k1 k2 k3 Hk H1 H2.
    destruct (String.compare x y) eqn:E1; [|..|done].
    - apply String.compare_eq_iff in E1 as ->. destruct (String.compare y z); auto.
    - destruct (String.compare y z) eqn:E2; [|..|done].
      + apply String.compare_eq_iff in E2 as ->. by rewrite E1.
      + by rewrite (string_lt_trans x y z). }
  unfold labelKeyCmp. apply H, H, H, string_lt_trans.
Qed.

#[export] Instance label_le_trans : Transitive label_le.
Proof.
  intros a b c Hab Hbc. unfold label_le in *.
  destruct (labelKeyCmp a b) eqn:E1; [|..|done].
  - by apply label_cmp_eq in E1 as ->.
  - destruct (labelKeyCmp b c) eqn:E2; [|..|done].
    + apply label_cmp_eq in E2 as ->. congruence.
    + rewrite (label_lt_trans a b c); done.
Qed.
#[export] Instance label_le_antisymm : AntiSymm (=) label_le.
Proof.
  intros a b Hab Hba. unfold label_le in *. apply label_cmp_eq.
  rewrite label_cmp_antisym in Hba. by destruct (labelKeyCmp a b).
Qed.
#[export] Instance label_le_total : Total label_le.
Proof.
  intros a b. unfold label_le. rewrite (label_cmp_antisym a b).
  destruct (labelKeyCmp a b); [by left|by left|by right].
Qed.

(** However a [range] visits the map, the sorted keys are the same. *)
Lemma label_keys_any_order {A} (m : gmap labelsKey A) (order : list labelsKey) :
  order ≡ₚ (map_to_list m).*1 → sort_labels order = label_keys m.
Proof.
  intros Hp. unfold label_keys, sort_labels. apply (StronglySorted_unique label_le).
  - apply StronglySorted_merge_sort; apply _.
  - apply StronglySorted_merge_sort; apply _.
  - by rewrite !merge_sort_Permutation.
Qed.

Lemma elem_of_label_keys {A} (m : gmap labelsKey A) k : k ∈ label_keys m ↔ is_Some (m !! k).
Proof.
  unfold label_keys, sort_labels. rewrite merge_sort_Permutation, list_elem_of_fmap. split.
  - intros ([k' v] & -> & H). apply elem_of_map_to_list in H. by exists v.
  - intros [v H]. exists (k, v). by rewrite elem_of_map_to_list.
Qed.

(** ** Reading a label value *)

(** What the Prometheus text format allows after the opening quote: the escapes
    of the backslash, the quote and the newline, and no raw newline.  [Some]
    gives the value and the text after the closing quote. *)
Definition cons_value (c : ascii) (o : option (string * string)) : option (string * string) :=
  prod_map (String c) id <$> o.

Fixpoint prom_value (s : string) : option (string * string) :=
  match s with
  | "" => None
  | String c s' =>
      if Ascii.eqb c (byte 34) then Some ("", s')
      else if Ascii.eqb c (byte 92) then
        match s' with
        | "" => None
        | String d s'' =>
            if Ascii.eqb d (byte 110) then cons_value (byte 10) (prom_value s'')
            else if Ascii.eqb d (byte 34) || Ascii.eqb d (byte 92) then cons_value d (prom_value s'')
            else None
        end
      else if Ascii.eqb c (byte 10) then None
      else cons_value c (prom_value s')
  end.

Definition prom_label (s : string) : option (string * string) :=
  match s with String c s' => if Ascii.eqb c (byte 34) then prom_value s' else None | "" => None end.

(** Texts of newlines, printable ASCII and runes [strconv.IsPrint] accepts. *)
Definition legible_ascii (c : ascii) : bool :=
  (code c =? 10)%nat || ((32 <=? code c) && (code c <? 127))%nat.

Fixpoint legible_go (IsPrint : string → bool) (fuel : nat) (s : string) : bool :=
  match fuel, s with
  | O, _ | _, "" => true
  | S fuel', String c s' =>
      match utf8_width s with
      | O => false
      | S O => legible_ascii c && legible_go IsPrint fuel' s'
      | w => IsPrint (take_bytes w s) && legible_go IsPrint fuel' (drop_bytes w s)
      end
  end.

Definition legible (IsPrint : string → bool) (s : string) : bool := legible_go IsPrint (String.length s) s.

Lemma prom_ascii c t :
  prom_value (quote_ascii c +:+ t) = if legible_ascii c then cons_value c (prom_value t) else None.
Proof. destruct c as [[] [] [] [] [] [] [] []]; reflexivity. Qed.

Lemma cons_values_app e o :
  foldr cons_value o (list_ascii_of_string e) = prod_map (String.append e) id <$> o.
Proof.
  induction e as [|c e IH]; cbn [list_ascii_of_string foldr].
  - by destruct o as [[]|].
  - rewrite IH. by destruct o as [[]|].
Qed.

Lemma prom_high e t : high e → prom_value (e +:+ t) = prod_map (String.append e) id <$> prom_value t.
Proof.
  intros H. rewrite <- cons_values_app. unfold high in H.
  induction e as [|c e IH]; [done|]. cbn [list_ascii_of_string] in H. inversion H as [|? ? Hc He]; subst.
  change (String c e +:+ t) with (String c (e +:+ t)).
  cbn [prom_value list_ascii_of_string foldr]. rewrite (IH He).
  assert (∀ n, (n < 128)%nat → Ascii.eqb c (byte n) = false) as Hne.
  { intros n Hn. apply Ascii.eqb_neq. intros ->. unfold code, byte in Hc. rewrite nat_ascii_embedding in Hc; lia. }
  by rewrite !Hne by lia.
Qed.

Lemma drop_bytes_length n s : String.length (drop_bytes n s) = (String.length s - n)%nat.
Proof.
  revert s. induction n as [|n IH]; intros [|c s]; try done. cbn [drop_bytes String.length]. by rewrite IH.
Qed.

Lemma prom_quoted IsPrint fuel s rest :
  (String.length s ≤ fuel)%nat →
  prom_value (Quote_go IsPrint fuel s +:+ dq +:+ rest) =
  if legible_go IsPrint fuel s then Some (s, rest) else None.
Proof.
  revert s. induction fuel as [|fuel IH]; intros [|c s] Hf; try done; [cbn in Hf; lia|].
  cbn [String.length] in Hf. rewrite Quote_go_cons. cbn [legible_go].
  destruct (utf8_width (String c s)) as [|[|w]] eqn:Ew.
  - by rewrite !app_assoc_string.
  - rewrite app_assoc_string, prom_ascii, IH by lia. destruct (legible_ascii c); [|done]. by destruct (legible_go _ _ s).
  - rewrite app_assoc_string. pose proof (wide_rune_high _ _ Ew) as Hh.
    destruct (wide_rune_shape _ _ Ew) as (c1 & c2 & e & He). set (t := drop_bytes _ _).
    assert (String c s = take_bytes (S (S w)) (String c s) +:+ t) as Hs by (symmetry; apply take_drop_bytes).
    rewrite He in *. rewrite quote_wide. destruct (IsPrint _); cbn [andb].
    + rewrite prom_high, IH; [|subst t; rewrite drop_bytes_length; cbn [String.length]; lia|done].
      rewrite Hs. by destruct (legible_go IsPrint fuel t).
    + by destruct (_ <? 65536); rewrite !app_assoc_string.
Qed.
Lemma prom_label_quote IsPrint s rest :
  prom_label (Quote IsPrint s +:+ rest) = if legible IsPrint s then Some (s, rest) else None.
Proof.
  unfold Quote, prom_label. rewrite !app_assoc_string.
  change (dq +:+ Quote_go IsPrint (String.length s) s +:+ dq +:+ rest)
    with (String (byte 34) (Quote_go IsPrint (String.length s) s +:+ dq +:+ rest)).
  cbn [Ascii.eqb]. change (Ascii.eqb (byte 34) (byte 34)) with true. cbv iota.
  by apply prom_quoted.
Qed.

(** A histogram against the latencies it was made of. *)
Lemma hist_or_none_exact l :
  Z.of_nat (length l) < 2 ^ 64 → Forall (fun ms => 0 < ms < 2 ^ 53) l →
  match hist_or_none l with
  | None => l = []
  | Some hb =>
      l ≠ [] ∧ lb_count hb = Z.of_nat (length l) ∧
      ∀ b lbl, (b, lbl) ∈ zip bounds_ms latencyBucketLabels →
        default 0 (buckets hb !! lbl) = Z.of_nat (length (filter (fun ms => ms ≤ b) l))
  end.
Proof.
  intros Hlen Hms. assert (hist_or_none l = None ∧ l = [] ∨ hist_or_none l = Some (hist_of l) ∧ l ≠ []) as H.
  { destruct l; [by left|by right]. }
  destruct H as [[-> ->]|[-> Hne]]; [done|]. split; [done|].
  split; [eapply (hist_exact l _ "10"); [done|left]|]. intros b lbl Hin.
  assert (0 < b < 2 ^ 53) as Hb.
  { assert (Forall (fun p : Z * string => 0 < p.1 < 2 ^ 53) (zip bounds_ms latencyBucketLabels)) as Hf
      by (repeat constructor). rewrite Forall_forall in Hf. exact (Hf _ Hin). }
  assert ((of_Z b, lbl) ∈ bucket_pairs) as Hpair.
  { rewrite bucket_pairs_int. by apply (list_elem_of_fmap_2 (prod_map of_Z id) _ (b, lbl)). }
  destruct (hist_exact l _ _ Hlen Hpair) as [-> _]. by apply at_most_int.
Qed.

(** ** Properties *)

(** Every counter of the recorder is the number of calls of the log that count for
    it, and a series exists exactly when some call does: requests by model,
    status class and credential source, cache hits, errors, failovers (recorded
    or signalled by a trace), audit write failures, MCP calls, OTLP failures and
    quality scores, over any log of fewer than [2^64] calls. *)
Theorem counters_exact (ov : float64 → Z) (os : list mop) :
  Z.of_nat (length os) < 2 ^ 64 →
  let r := run_ops ov os emptyMetrics in
  (∀ k, requestCount r !! k = counted (tally request_of k os)) ∧
  (∀ k, cacheHitCount r !! k = counted (tally cache_of k os)) ∧
  (∀ k, errorsTotal r !! k = counted (tally error_of k os)) ∧
  (∀ k, failoverTotal r !! k = counted (tally failover_of k os)) ∧
  (∀ k, auditWriteFailures r !! k = counted (tally audit_of k os)) ∧
  (∀ k, mcpCallCount r !! k = counted (tally mcp_of k os)) ∧
  (∀ k, otlpExportFailures r !! k = counted (tally otlp_of k os)) ∧
  (∀ k, qualityScoreCount r !! k = counted (tally quality_of k os)).
Proof. intros Hlen r. subst r. split_and!; intros k; apply counter_exact; try done; counter. Qed.

(** The latency histogram of a model: it exists exactly when a positive latency
    was recorded for the model, its count is the number of them, and the bucket of
    each bound holds the number of them that are at most the bound, in whole
    milliseconds and cumulatively, for latencies below [2^53]. *)
Theorem histogram_exact (ov : float64 → Z) (os : list mop) (m : string) :
  Z.of_nat (length os) < 2 ^ 64 →
  Forall (fun ms => ms < 2 ^ 53) (latencies m os) →
  match latencyHist (run_ops ov os emptyMetrics) !! m with
  | None => latencies m os = []
  | Some hb =>
      latencies m os ≠ [] ∧
      lb_count hb = Z.of_nat (length (latencies m os)) ∧
      ∀ b lbl, (b, lbl) ∈ zip bounds_ms latencyBucketLabels →
        default 0 (buckets hb !! lbl) = Z.of_nat (length (filter (fun ms => ms ≤ b) (latencies m os)))
  end.
Proof.
  intros Hlen Hms. rewrite latencyHist_log. pose proof (latencies_length m os).
  apply hist_or_none_exact; [lia|]. pose proof (latencies_pos m os) as Hp.
  rewrite Forall_forall in Hms, Hp |- *. auto.
Qed.

(** A scrape is exactly the listed lines: whatever bytes callers put into model
    names, providers, error types, tools and servers, no label opens a line of its
    own, and the order of the keys does not depend on how the map was visited. *)
Theorem scrape_lines_exact (IsPrint : string → bool) (r : MetricsRecorder) :
  Split (handleMetrics IsPrint r) (byte 10) = (scrape_lines IsPrint r ++ [""])%list ∧
  ∀ order, order ≡ₚ (map_to_list (requestCount r)).*1 → sort_labels order = label_keys (requestCount r).
Proof. split; [apply Split_lines, scrape_lines_free|apply label_keys_any_order]. Qed.

(** A quoted label reads back, in the Prometheus text format, as the text itself
    when the text is made of printable runes and newlines, and is rejected
    otherwise. *)
Theorem label_parses_iff (IsPrint : string → bool) (s rest : string) :
  prom_label (Quote IsPrint s +:+ rest) = if legible IsPrint s then Some (s, rest) else None.
Proof. apply prom_label_quote. Qed.

Definition requests_prefix : string := "nexus_gateway_requests_total{gen_ai_request_model=".

(** The model name of a request is whatever the caller sent: one trace whose model
    holds a control character or a byte that is not UTF-8 puts a line into every
    later scrape whose label a Prometheus parser rejects. *)
Theorem illegible_model_spoils_scrape (ov : float64 → Z) (IsPrint : string → bool) (t : Trace) (os : list mop) (r : MetricsRecorder) :
  legible IsPrint (RequestModel t) = false →
  ∃ text, requests_prefix +:+ text ∈ scrape_lines IsPrint (run_ops ov os (Record_ ov t r)) ∧ prom_label text = None.
Proof.
  intros Hl. set (r' := run_ops ov os (Record_ ov t r)).
  assert (is_Some (requestCount r' !! request_key t)) as Hk.
  { subst r'. induction os as [|o os IH] using rev_ind.
    - cbn. unfold bump_by. rewrite lookup_insert_eq. by eexists.
    - rewrite run_ops_snoc. set (r1 := run_ops _ _ _) in *.
      destruct o; cbn [apply_op]; try done. cbn [Record_ requestCount]. unfold bump_by.
      rewrite lookup_insert. case_decide; [by eexists|done]. }
  eexists. split; [unfold scrape_lines, requests_lines; apply elem_of_app; left; right; right|].
  - apply list_elem_of_In, in_map_iff. exists (request_key t). split; [reflexivity|].
    apply list_elem_of_In. by apply elem_of_label_keys.
  - cbn [L1 request_key]. rewrite prom_label_quote. by rewrite Hl.
Qed.

(** ** Witnesses *)

Definition sample_trace (model : string) (status latency : Z) (hit : bool) : Trace :=
  mkTrace (mkBase "t1" "" "" 0 "org" "u" "" "" "openai" fzero fzero 0 "" "" "" "r1" "" "") "byok" model "" 0 0 "stop"
    false 0 latency (lit 1 4) status "" "" "" "hello" hit [] [] "" "".

Definition sample_log : list mop :=
  [MRecord (sample_trace "gpt" 200 40 false); MRecord (sample_trace "gpt" 500 3000 false);
   MFailover "gpt" "claude" "5xx" "r1"; MRecord (sample_trace "gpt" 200 0 true)].

Definition sample_state : MetricsRecorder := run_ops (fun _ => 0) sample_log emptyMetrics.

Lemma counters_exact_witness :
  requestCount sample_state !! mkLabels "gpt" "2xx" "byok" "" = Some 2 ∧
  failoverTotal sample_state !! mkLabels "gpt" "claude" "5xx" "r1" = counted (tally failover_of (mkLabels "gpt" "claude" "5xx" "r1") sample_log).
Proof.
  split; [vm_compute; reflexivity|].
  apply (counters_exact (fun _ => 0) sample_log). vm_compute. reflexivity.
Defined.

Lemma histogram_exact_witness :
  match latencyHist sample_state !! "gpt" with
  | None => latencies "gpt" sample_log = []
  | Some hb =>
      latencies "gpt" sample_log ≠ [] ∧
      lb_count hb = Z.of_nat (length (latencies "gpt" sample_log)) ∧
      ∀ b lbl, (b, lbl) ∈ zip bounds_ms latencyBucketLabels →
        default 0 (buckets hb !! lbl) = Z.of_nat (length (filter (fun ms => ms ≤ b) (latencies "gpt" sample_log)))
  end.
Proof.
  apply (histogram_exact (fun _ => 0) sample_log "gpt"); [vm_compute; reflexivity|].
  apply (bool_decide_unpack _). vm_compute. exact I.
Defined.

(** A bell character in the model name. *)
Lemma illegible_model_spoils_scrape_witness :
  ∃ text, requests_prefix +:+ text ∈
      scrape_lines (fun _ => true)
        (run_ops (fun _ => 0) sample_log (Record_ (fun _ => 0) (sample_trace (String (byte 7) "gpt") 404 0 false) emptyMetrics)) ∧
    prom_label text = None.
Proof. apply illegible_model_spoils_scrape. vm_compute. reflexivity. Defined.

(** The text of a small scrape. *)
Example scrape_sample :
  take 3 (scrape_lines (fun _ => true) sample_state) =
  ["# HELP nexus_gateway_requests_total Total gateway requests by model, status, and credential source.";
   "# TYPE nexus_gateway_requests_total counter";
   J "nexus_gateway_requests_total{gen_ai_request_model='gpt',status='2xx',credential_source='byok'} 2"].
Proof. vm_compute. reflexivity. Qed.

(** The bucket bounds are milliseconds while the series is named, and its sum is
    reported, in seconds: a request of 40 ms is in the bucket [le=50] and adds
    0.04 to the sum. *)
Example bounds_are_milliseconds :
  let r := run_ops (fun _ => 0) [MRecord (sample_trace "gpt" 200 40 false)] emptyMetrics in
  J "nexus_gateway_request_duration_seconds_bucket{gen_ai_request_model='gpt',le='25'} 0" ∈ durations_lines (fun _ => true) r ∧
  J "nexus_gateway_request_duration_seconds_bucket{gen_ai_request_model='gpt',le='50'} 1" ∈ durations_lines (fun _ => true) r ∧
  J "nexus_gateway_request_duration_seconds_sum{gen_ai_request_model='gpt'} 0.040000" ∈ durations_lines (fun _ => true) r.
Proof. split_and!; apply (bool_decide_unpack _); vm_compute; exact I. Qed.
