(* ===== verification/Recorders.v ===== *)
(** * Recorders: src/internal/observability (capture.go, multi.go, clickhouse.go,
    mcp_recorder.go, mcp_otlp.go, otel.go, trace_org.go, bootstrap.go, evidence.go),
    src/internal/console (hub.go, mcp_hub.go), src/cmd/nexus/compose.go

    Where a trace goes once the handler has made it: the fan-out and the capture
    gate, the buffered writers behind it, the row ClickHouse gets and the envelope
    the OTLP collector gets, the live feeds of the console, and the look-up from a
    trace to its organisation.  The four buffered writers run one loop; [flusher]
    is that loop over any kind of item, a machine whose steps are the choices of
    [select].  What the databases and the collector answer is an argument. *)

From stdpp Require Import pretty.
From S2P Require Import Prelude GoString Float64 GoTime Json CoreStore GwTypes Metrics.
Local Open Scope string_scope.
Local Open Scope Z_scope.

(** ** The buffered writers *)
Module Flusher.
Section flusher.
Context {A : Type}.

(** [cap] is the capacity of the channel [ch], [batchSize] the size that flushes.
    [sent] are the batches handed to [insert] or [send], with whether the call
    succeeded; [accepted] are the items the channel took. *)
Record flusher := mkFlusher {
  cap : nat;
  batchSize : Z;
  ch : list A;
  buf : list A;
  done_closed : bool;
  draining : bool;
  closed : bool;
  sent : list (list A * bool);
  accepted : list A
}.

Definition new_flusher (buffer batch : Z) : flusher :=
  mkFlusher (Z.to_nat buffer) batch [] [] false false false [] [].

(** [Record]: a send that does not block. *)
Definition Record_ (x : A) (f : flusher) : flusher :=
  if (length (ch f) <? cap f)%nat
  then mkFlusher (cap f) (batchSize f) (ch f ++ [x]) (buf f) (done_closed f) (draining f) (closed f) (sent f)
         (accepted f ++ [x])
  else f.

(** [Close] closes [done]. *)
Definition Close (f : flusher) : flusher :=
  mkFlusher (cap f) (batchSize f) (ch f) (buf f) true (draining f) (closed f) (sent f) (accepted f).

(** [flush]; the buffer is emptied whether or not the call succeeded. *)
Definition flush_buf (ok : bool) (f : flusher) : flusher :=
  match buf f with
  | [] => f
  | b => mkFlusher (cap f) (batchSize f) (ch f) [] (done_closed f) (draining f) (closed f) (sent f ++ [(b, ok)])
           (accepted f)
  end.

(** A receive from [ch], as both loops handle it. *)
Definition receive (ok : bool) (x : A) (rest : list A) (f : flusher) : flusher :=
  let f := mkFlusher (cap f) (batchSize f) rest (buf f ++ [x]) (done_closed f) (draining f) (closed f) (sent f)
             (accepted f) in
  if batchSize f <=? Z.of_nat (length (buf f)) then flush_buf ok f else f.

Definition start_draining (f : flusher) : flusher :=
  mkFlusher (cap f) (batchSize f) (ch f) (buf f) (done_closed f) true (closed f) (sent f) (accepted f).

(** The [default] of the draining loop: flush and [close(closed)]. *)
Definition finish (ok : bool) (f : flusher) : flusher :=
  let f := flush_buf ok f in
  mkFlusher (cap f) (batchSize f) (ch f) (buf f) (done_closed f) (draining f) true (sent f) (accepted f).

(** One step of the gateway's calls or of the loop. *)
Inductive step : flusher → flusher → Prop :=
| s_record x f : step f (Record_ x f)
| s_close f : step f (Close f)
| s_done f : closed f = false → draining f = false → done_closed f = true → step f (start_draining f)
| s_receive ok x rest f : closed f = false → ch f = x :: rest → step f (receive ok x rest f)
| s_tick ok f : closed f = false → draining f = false → step f (flush_buf ok f)
| s_finish ok f : closed f = false → draining f = true → ch f = [] → step f (finish ok f).

(** The loop alone. *)
Inductive loop_step : flusher → flusher → Prop :=
| l_done f : closed f = false → draining f = false → done_closed f = true → loop_step f (start_draining f)
| l_receive ok x rest f : closed f = false → ch f = x :: rest → loop_step f (receive ok x rest f)
| l_tick ok f : closed f = false → draining f = false → loop_step f (flush_buf ok f)
| l_finish ok f : closed f = false → draining f = true → ch f = [] → loop_step f (finish ok f).

End flusher.
Arguments flusher : clear implicits.
End Flusher.

(** The defaults of the four constructors (a zero option takes the default). *)
Definition option_or (v fallback : Z) : Z := if v =? 0 then fallback else v.

Definition NewCHRecorder (BatchSize BufferSize : Z) : Flusher.flusher Trace :=
  Flusher.new_flusher (option_or BufferSize 10000) (option_or BatchSize 500).

(** [MCPLog]. *)
Record MCPLog := mkMCPLog {
  ml_ID : string; ml_Timestamp : Time; ml_OrgID : string; ml_UserID : string; ml_VirtualKeyID : string;
  ml_ServerID : string; ml_ServerLabel : string; ml_ToolName : string; ml_Status : string; ml_LatencyMs : Z;
  ml_CostUSD : float64; ml_LLMTraceID : string; ml_SessionID : string; ml_TurnID : string; ml_RequestID : string;
  ml_Arguments : string; ml_Result : string; ml_ErrorMessage : string; ml_Metadata : string
}.

Definition NewCHMCPLogRecorder (BatchSize BufferSize : Z) : Flusher.flusher MCPLog :=
  Flusher.new_flusher (option_or BufferSize 10000) (option_or BatchSize 500).

Definition NewOTLPRecorder (Endpoint : string) (BatchSize BufferSize : Z) : option (Flusher.flusher Trace) :=
  if String.eqb Endpoint "" then None
  else Some (Flusher.new_flusher (option_or BufferSize 10000) (option_or BatchSize 200)).

Definition NewMCPOtlPLogRecorder (endpoint : string) : option (Flusher.flusher MCPLog) :=
  if String.eqb endpoint "" then None else Some (Flusher.new_flusher 10000 200).

(** The four loops, each on its own kind of item. *)
Definition CHRecorder_loop : relation (Flusher.flusher Trace) := Flusher.loop_step.
Definition CHMCPLogRecorder_loop : relation (Flusher.flusher MCPLog) := Flusher.loop_step.
Definition OTLPRecorder_loop : relation (Flusher.flusher Trace) := Flusher.loop_step.
Definition MCPOtlPLogRecorder_loop : relation (Flusher.flusher MCPLog) := Flusher.loop_step.

(** ** The capture gate and the fan-out *)

Definition set_base (b : TraceBase) (t : Trace) : Trace :=
  mkTrace b (CredentialSource t) (RequestModel t) (ResponseModel t) (InputTokens t) (OutputTokens t)
    (FinishReason t) (Streamed t) (TTFTMillis t) (LatencyMs t) (CostUSD_t t) (StatusCode t) (ErrorType t) (ErrorMsg t)
    (GuardrailAction t) (OutputMessages t) (CacheHit t) (Attempts t) (PolicyReasons t) (GuardrailRule t) (EgressMode t).

Definition blank_base (b : TraceBase) : TraceBase :=
  mkBase (TraceID b) (SpanID b) (ParentID b) (Timestamp b) (t_OrgID b) (t_UserID b) (VirtualKeyID b) (OperationName b)
    (ProviderName b) (t_Temperature b) (t_TopP b) (t_MaxTokens b) "" "" (EvalReference b) (ReplicaID b) (SessionID b)
    (TurnID b).

(** What [CaptureGate.Record] forwards. *)
Definition strip_content (t : Trace) : Trace :=
  set_OutputMessages "" (set_base (blank_base (t_base t)) t).

(** The recorders [traceFanout] composes, by the sink they end in. *)
Inductive sink := SHub | SClickHouse | SMetrics | SOtlp | SEval.

Inductive recorder :=
| RSink (s : sink)
| RGate (inner : recorder)
| RMulti (rs : list recorder).

(** [NewCaptureGate]; a nil inner is [None]. *)
Definition NewCaptureGate (inner : option recorder) (captureEnabled : bool) : option recorder :=
  match inner with
  | None => None
  | Some r => Some (if captureEnabled then r else RGate r)
  end.

Definition NewMultiRecorder (rs : list (option recorder)) : recorder := RMulti (omap id rs).

(** [Record]: what each sink is handed, in order. *)
Fixpoint deliver (r : recorder) (t : Trace) : list (sink * Trace) :=
  match r with
  | RSink s => [(s, t)]
  | RGate inner => deliver inner (strip_content t)
  | RMulti rs => mjoin (map (fun r => deliver r t) rs)
  end.

(** Which optional recorders are wired. *)
Record fanout_config := mkFanout {
  fc_ch : bool; fc_capture : bool; fc_metrics : bool; fc_otlp : bool; fc_eval : bool
}.

Definition traceFanout (c : fanout_config) : list (option recorder) :=
  [Some (RSink SHub)] ++
  (if fc_ch c then [NewCaptureGate (Some (RSink SClickHouse)) (fc_capture c)] else []) ++
  (if fc_metrics c then [Some (RSink SMetrics)] else []) ++
  (if fc_otlp c then [Some (RSink SOtlp)] else []) ++
  (if fc_eval c then [Some (RSink SEval)] else []).

(** [Close] of a fan-out: every child is closed, the first error is returned. *)
Definition multi_Close (errs : list (option string)) : option string :=
  foldl (fun first e => match first, e with None, Some _ => e | _, _ => first end) None errs.

(** [MCPLogCaptureGate.Record]. *)
Definition strip_mcp (capture : bool) (l : MCPLog) : MCPLog :=
  if capture then l
  else mkMCPLog (ml_ID l) (ml_Timestamp l) (ml_OrgID l) (ml_UserID l) (ml_VirtualKeyID l) (ml_ServerID l)
         (ml_ServerLabel l) (ml_ToolName l) (ml_Status l) (ml_LatencyMs l) (ml_CostUSD l) (ml_LLMTraceID l)
         (ml_SessionID l) (ml_TurnID l) (ml_RequestID l) "" "" (ml_ErrorMessage l) (ml_Metadata l).

Inductive mcp_sink := MSHub | MSClickHouse | MSMetrics | MSOtlp.

(** [buildMCPLogFanout], applied to one log; nothing is wired is [MCPLogNoop]. *)
Definition mcp_fanout (hub ch capture metrics otlp : bool) (l : MCPLog) : list (mcp_sink * MCPLog) :=
  (if hub then [(MSHub, l)] else []) ++
  (if ch then [(MSClickHouse, strip_mcp capture l)] else []) ++
  (if metrics then [(MSMetrics, l)] else []) ++
  (if otlp then [(MSOtlp, l)] else []).

(** [MultiBootstrapper.Bootstrap]: every child runs, the errors are joined. *)
Definition Bootstrap (children : list (string * option string)) : list string :=
  omap snd children.

(** ** The row ClickHouse gets *)

Inductive col := CStr (s : string) | CInt (n : Z) | CFloat (x : float64) | CTime (t : Time).

Definition uint8 (n : Z) : Z := n mod 2 ^ 8.
Definition uint16 (n : Z) : Z := n mod 2 ^ 16.
Definition uint32 (n : Z) : Z := n mod 2 ^ 32.
Definition boolToUint8 (b : bool) : Z := if b then 1 else 0.

(** [MarshalJSONField] of a list of values. *)
Definition MarshalJSONField (l : list json) : string :=
  match l with [] => "" | _ => Marshal (JArr l) end.

Definition opt_str (k v : string) : list (string * json) := if String.eqb v "" then [] else [(k, JStr v)].

Definition attempt_json (a : ProviderAttempt) : json :=
  JObj ([("index", jint (pa_Index a)); ("provider", JStr (pa_Provider a)); ("model", JStr (pa_Model a))] ++
        opt_str "credential_source" (pa_CredentialSource a) ++
        [("status_code", jint (pa_StatusCode a)); ("latency_ms", jint (pa_LatencyMs a))] ++
        opt_str "error_type" (pa_ErrorType a) ++ opt_str "error_message" (pa_ErrorMsg a) ++
        (if pa_CacheHit a then [("cache_hit", JBool true)] else []) ++
        [("fallback_allowed", JBool (pa_FallbackAllowed a))]).

Definition reason_json (p : PolicyReason) : json :=
  JObj ([("code", JStr (pr_Code p))] ++ opt_str "rule_id" (pr_RuleID p) ++ opt_str "detail" (pr_Detail p)).

Definition trace_columns : list string :=
  ["trace_id"; "span_id"; "parent_span_id"; "timestamp"; "org_id"; "virtual_key_id"; "operation_name"; "provider_name";
   "request_model"; "response_model"; "input_tokens"; "output_tokens"; "finish_reason"; "temperature"; "top_p";
   "max_tokens"; "streamed"; "ttft_ms"; "latency_ms"; "cost_usd"; "status_code"; "error_type"; "error_message";
   "input_messages"; "output_messages"; "retrieval_contexts"; "eval_reference"; "cache_hit"; "guardrail_action";
   "user_id"; "credential_source"; "replica_id"; "session_id"; "turn_id"; "attempts"; "policy_reasons";
   "guardrail_rule"; "egress_mode"].

Definition trace_row (t : Trace) : list col :=
  let b := t_base t in
  [CStr (TraceID b); CStr (SpanID b); CStr (ParentID b); CTime (Timestamp b);
   CStr (t_OrgID b); CStr (VirtualKeyID b);
   CStr (OperationName b); CStr (ProviderName b); CStr (RequestModel t); CStr (ResponseModel t);
   CInt (uint32 (InputTokens t)); CInt (uint32 (OutputTokens t)); CStr (FinishReason t);
   CFloat (t_Temperature b); CFloat (t_TopP b); CInt (uint32 (t_MaxTokens b));
   CInt (boolToUint8 (Streamed t)); CInt (TTFTMillis t); CInt (LatencyMs t); CFloat (CostUSD_t t);
   CInt (uint16 (StatusCode t)); CStr (ErrorType t); CStr (ErrorMsg t);
   CStr (InputMessages b); CStr (OutputMessages t);
   CStr (RetrievalContexts b); CStr (EvalReference b);
   CInt (boolToUint8 (CacheHit t)); CStr (GuardrailAction t);
   CStr (t_UserID b); CStr (CredentialSource t);
   CStr (ReplicaID b); CStr (SessionID b); CStr (TurnID b);
   CStr (MarshalJSONField (map attempt_json (Attempts t))); CStr (MarshalJSONField (map reason_json (PolicyReasons t)));
   CStr (GuardrailRule t); CStr (EgressMode t)].

(** The columns and the row of a tool call's log. *)
Definition mcp_columns : list string :=
  ["id"; "timestamp"; "org_id"; "user_id"; "virtual_key_id"; "server_id"; "server_label"; "tool_name"; "status";
   "latency_ms"; "cost_usd"; "llm_trace_id"; "session_id"; "turn_id"; "request_id"; "arguments"; "result"; "error_message";
   "metadata"].

Definition mcp_row (l : MCPLog) : list col :=
  [CStr (ml_ID l); CTime (ml_Timestamp l); CStr (ml_OrgID l); CStr (ml_UserID l); CStr (ml_VirtualKeyID l);
   CStr (ml_ServerID l); CStr (ml_ServerLabel l); CStr (ml_ToolName l); CStr (ml_Status l);
   CInt (ml_LatencyMs l); CFloat (ml_CostUSD l); CStr (ml_LLMTraceID l); CStr (ml_SessionID l); CStr (ml_TurnID l); CStr (ml_RequestID l);
   CStr (ml_Arguments l); CStr (ml_Result l); CStr (ml_ErrorMessage l); CStr (ml_Metadata l)].

(** [insert]: the batch is prepared, every row appended, then sent; the first error
    is returned. *)
Definition insert (prepare : option string) (append : list col → option string) (send : option string)
    (traces : list Trace) : option string :=
  match prepare with
  | Some e => Some e
  | None =>
      foldr (fun t k => match append (trace_row t) with Some e => Some e | None => k end) send traces
  end.

(** ** The OTLP envelope *)

Definition to_int64 (overflow : float64 → Z) (x : float64) : Z :=
  let n := trunc x in
  match x with
  | S754_nan | S754_infinity _ => overflow x
  | _ => if (int64_min <=? n) && (n <=? int64_max) then n else overflow x
  end.

(** [fmtInts], [intToString] and [int64ToString] are one loop; [-n] of the least
    integer is itself, which the loop does not enter. *)
Definition fmtInts (n : Z) : string :=
  if n =? int64_min then "-" else pretty n.

(** The recursion of [fmtFloat] is on a number that is not negative. *)
Definition fmtFloat (overflow : float64 → Z) (f : float64) : string :=
  let go f :=
    let intPart := to_int64 overflow f in
    let frac := fsub f (of_Z intPart) in
    fmtInts intPart +:+
    (if feq frac fzero then "" else "." +:+ fmtInts (to_int64 overflow (fmul frac (of_Z 10000)))) in
  if flt f fzero then "-" +:+ go (fopp f) else go f.

Definition floatToString (overflow : float64 → Z) (f : float64) : string :=
  if feq f fzero then "0" else fmtFloat overflow f.

Definition otlp_stringOr (s fallback : string) : string := if String.eqb s "" then fallback else s.
Definition boolToString (b : bool) : string := if b then "true" else "false".

Definition kv (k v : string) : option json :=
  if String.eqb v "" then None
  else Some (jmap [("key", JStr k); ("value", jmap [("stringValue", JStr v)])]).

Definition stripDashes (s : string) : string :=
  string_of_list_ascii (filter (fun c => c ≠ "-"%char ∧ c ≠ " "%char) (list_ascii_of_string s)).

Definition pad_to (n : nat) (s : string) : string :=
  if (n <=? String.length s)%nat then take_bytes n s else s +:+ zeros (n - String.length s).

Definition hexSpanID (traceID : string) : string := pad_to 16 (stripDashes traceID).

Section envelope.
Context (overflow : float64 → Z).

Definition span_attrs (t : Trace) (extra : gmap string string) : list json :=
  let b := t_base t in
  omap id
    [kv "gen_ai.operation.name" (otlp_stringOr (OperationName b) "chat");
     kv "gen_ai.provider.name" (ProviderName b);
     kv "gen_ai.request.model" (RequestModel t);
     kv "gen_ai.response.model" (ResponseModel t);
     kv "gen_ai.response.finish_reasons" (FinishReason t);
     kv "nexus.org_id" (t_OrgID b);
     kv "nexus.user_id" (t_UserID b);
     kv "nexus.virtual_key_id" (VirtualKeyID b);
     kv "nexus.credential_source" (CredentialSource t);
     kv "nexus.status_code" (fmtInts (StatusCode t));
     kv "nexus.error_type" (ErrorType t);
     kv "nexus.error_message" (ErrorMsg t);
     kv "nexus.replica_id" (ReplicaID b);
     kv "nexus.cost_usd_micros" (fmtInts (to_int64 overflow (fmul (CostUSD_t t) (of_Z 1000000))));
     kv "nexus.input_tokens" (fmtInts (InputTokens t));
     kv "nexus.output_tokens" (fmtInts (OutputTokens t));
     kv "nexus.ttft_ms" (fmtInts (TTFTMillis t));
     kv "nexus.latency_ms" (fmtInts (LatencyMs t));
     kv "nexus.streamed" (boolToString (Streamed t));
     kv "nexus.cache_hit" (boolToString (CacheHit t));
     kv "nexus.guardrail_action" (GuardrailAction t);
     kv "nexus.temperature" (floatToString overflow (t_Temperature b));
     kv "nexus.top_p" (floatToString overflow (t_TopP b));
     kv "nexus.max_tokens" (fmtInts (t_MaxTokens b))] ++
  omap (fun k => kv k (default "" (extra !! k))) (sortedKeys extra).

Definition span_id (t : Trace) : string :=
  let spanID := hexSpanID (stripDashes (SpanID (t_base t))) in
  if String.eqb spanID "" || String.eqb spanID "0000000000000000"
  then hexSpanID (stripDashes (TraceID (t_base t))) else spanID.

Definition trace_id32 (t : Trace) : string := pad_to 32 (stripDashes (TraceID (t_base t))).

Definition otlp_span (t : Trace) (extra : gmap string string) : json :=
  let b := t_base t in
  jmap
    ([("traceId", JStr (trace_id32 t)); ("spanId", JStr (span_id t));
      ("name", JStr ("gen_ai." +:+ otlp_stringOr (OperationName b) "chat"));
      ("startTimeUnixNano", jint (wrap64 (Timestamp b)));
      ("endTimeUnixNano", jint (wrap64 (Add (Timestamp b) (wrap64 (LatencyMs t * Millisecond)))));
      ("attributes", JArr (span_attrs t extra))] ++
     (if String.eqb (ParentID b) "" then []
      else [("parentSpanId", JStr (hexSpanID (stripDashes (ParentID b))))])).

Definition resource_attrs (t : Trace) : list json :=
  let r := ReplicaID (t_base t) in
  omap id ([kv "service.name" "nexus"; kv "service.namespace" "gateway"] ++
           (if String.eqb r "" then [] else [kv "service.instance.id" r]))%list.

Definition resource_span (t : Trace) (extra : gmap string string) : json :=
  jmap [("resource", jmap [("attributes", JArr (resource_attrs t))]);
        ("scopeSpans", JArr [jmap [("scope", jmap [("name", JStr "ffx_nexus"); ("version", JStr "0.5.0")]);
                                   ("spans", JArr [otlp_span t extra])]])].

Definition otlpEnvelope (traces : list Trace) (extra : gmap string string) : json :=
  jmap [("resourceSpans", JArr (map (fun t => resource_span t extra) traces))].

Definition otlpEnvelopeFromTraces (traces : list Trace) : json := otlpEnvelope traces ∅.

End envelope.

Definition otlpStatusReason (code : Z) : string :=
  if (400 <=? code) && (code <? 500) then "http_4xx" else if 500 <=? code then "http_5xx" else "other".

(** What becomes of the POST: the request cannot be made, no answer, or a status. *)
Inductive otlp_reply := OBadRequest (e : string) | ONetwork (e : string) | OStatus (code : Z).

(** [send]: the payload that was posted, and the call on the metrics hooks, if they
    are wired.  The envelope holds only texts and integers, so marshalling it does
    not fail. *)
Definition send (overflow : float64 → Z) (reply : otlp_reply) (traces : list Trace) : string * mop * bool :=
  let payload := Marshal (otlpEnvelopeFromTraces overflow traces) in
  match reply with
  | OBadRequest _ => ("", MOtlpFailure "other", false)
  | ONetwork _ => (payload, MOtlpFailure "network", false)
  | OStatus code =>
      if 300 <=? code then (payload, MOtlpFailure (otlpStatusReason code), false)
      else (payload, MOtlpSuccess (Z.of_nat (String.length payload)), true)
  end.

(** [MCPOtlPLogRecorder.send]: a span of one log. *)
Definition sval (s : string) : json := jmap [("stringValue", JStr s)].
Definition attr (k v : string) : json := jmap [("key", JStr k); ("value", sval v)].

Definition mcp_span (l : MCPLog) : json :=
  let start := Add (ml_Timestamp l) (wrap64 (wrap64 (- ml_LatencyMs l) * Millisecond)) in
  jmap
    ([("traceId", JStr (ml_LLMTraceID l)); ("spanId", JStr (ml_ID l)); ("name", JStr "mcp.tools/call"); ("kind", jint 1);
      ("startTimeUnixNano", JStr (pretty (wrap64 start))); ("endTimeUnixNano", JStr (pretty (wrap64 (ml_Timestamp l))));
      ("attributes",
        JArr ([attr "gen_ai.tool.name" (ml_ToolName l); attr "gen_ai.operation.name" "tool_call";
               attr "nexus.mcp.server" (ml_ServerLabel l); attr "nexus.mcp.status" (ml_Status l)] ++
              (if String.eqb (ml_LLMTraceID l) "" then [] else [attr "nexus.llm_trace_id" (ml_LLMTraceID l)])))] ++
     (if String.eqb (ml_Status l) "error"
      then [("status", jmap [("code", jint 2); ("message", JStr (ml_ErrorMessage l))])] else [])).

Definition mcp_envelope (logs : list MCPLog) : json :=
  jmap [("resourceSpans", JArr [jmap [("scopeSpans", JArr [jmap [("spans", JArr (map mcp_span logs))]])]])].

(** ** The live feeds *)

(** A client of the hub: the user it is scoped to, empty for everyone's items, and
    the items waiting in its channel of 64. *)
Record client := mkClient { cl_user : string; cl_queue : list Trace }.

Abbreviation hub := (gmap nat client).

Definition hub_Record (t : Trace) (h : hub) : hub :=
  (fun c =>
     if negb (String.eqb (cl_user c) "") && negb (String.eqb (cl_user c) (t_UserID (t_base t))) then c
     else if (length (cl_queue c) <? 64)%nat then mkClient (cl_user c) (cl_queue c ++ [t])
     else c) <$> h.

Definition subscribe (id : nat) (userID : string) (h : hub) : hub := <[id := mkClient userID []]> h.
Definition unsubscribe (id : nat) (h : hub) : hub := delete id h.

(** The scope [live] and [liveMCP] subscribe with. *)
Definition live_scope (u : CoreStore.User) : string := if String.eqb (u_Role u) RoleAdmin then "" else u_ID u.

Definition live (id : nat) (u : CoreStore.User) (h : hub) : hub := subscribe id (live_scope u) h.

(** The MCP feed is the same machine over [MCPLog]. *)
Record mcp_client := mkMCPClient { mc_user : string; mc_queue : list MCPLog }.

Definition mcphub_Record (l : MCPLog) (h : gmap nat mcp_client) : gmap nat mcp_client :=
  (fun c =>
     if negb (String.eqb (mc_user c) "") && negb (String.eqb (mc_user c) (ml_UserID l)) then c
     else if (length (mc_queue c) <? 64)%nat then mkMCPClient (mc_user c) (mc_queue c ++ [l])
     else c) <$> h.

(** ** From a trace to its organisation *)
Module TraceOrg.

Record entry := mkEntry { e_org : string; e_found : bool; e_expiresAt : Time }.

Definition traceOrgCacheTTL : Duration := 60 * Second.
Definition traceOrgCacheMax : Z := 4096.

(** What the query answers: a row, no row, or a failure. *)
Inductive answer := ARow (org : string) | ANoRows | AFailed.

Definition cached_org (now : Time) (traceID : string) (c : gmap string entry) : option (string * bool) :=
  match c !! traceID with
  | Some e => if After now (e_expiresAt e) then None else Some (e_org e, e_found e)
  | None => None
  end.

Definition store_ (now : Time) (traceID org : string) (found : bool) (c : gmap string entry) : gmap string entry :=
  let c := if traceOrgCacheMax <=? Z.of_nat (size c) then ∅ else c in
  <[traceID := mkEntry org found (Add now traceOrgCacheTTL)]> c.

(** [OrgForTrace] with a connection; [query] is the point look-up. *)
Definition OrgForTrace (query : string → answer) (now : Time) (traceID : string) (c : gmap string entry)
    : (string * bool) * gmap string entry :=
  let traceID := TrimSpace traceID in
  if String.eqb traceID "" then (("", false), c)
  else match cached_org now traceID c with
       | Some r => (r, c)
       | None =>
           match query traceID with
           | ARow org =>
               let org := TrimSpace org in
               let found := negb (String.eqb org "") in
               ((org, found), store_ now traceID org found c)
           | ANoRows => (("", false), store_ now traceID "" false c)
           | AFailed => (("", false), c)
           end
       end.

End TraceOrg.
