(* ===== verification/RecordersProps.v ===== *)
(** * RecordersProps: what reaches storage, the collector and the live feeds *)

From stdpp Require Import pretty.
From S2P Require Import Prelude GoString Float64 GoTime Json CoreStore GwTypes Metrics Recorders.
Local Open Scope string_scope.
Local Open Scope Z_scope.

(** ** The buffered writers *)
Module FlusherSpec.
Import Flusher.
Section spec.
Context {A : Type}.
Implicit Types f g : flusher A.

(** The size at which a buffer is written: at least one item is always there. *)
Definition full f : Z := Z.max 1 (batchSize f).

Definition inv f : Prop :=
  (mjoin (sent f).*1 ++ buf f ++ ch f = accepted f)%list ∧
  Forall (fun b => b.1 ≠ [] ∧ Z.of_nat (length b.1) ≤ full f) (sent f) ∧
  Z.of_nat (length (buf f)) < full f ∧
  (length (ch f) ≤ cap f)%nat ∧
  (draining f = true → done_closed f = true) ∧
  (closed f = true → draining f = true ∧ buf f = []).

Lemma flush_inv ok f :
  closed f = false →
  (mjoin (sent f).*1 ++ buf f ++ ch f = accepted f)%list →
  Forall (fun b => b.1 ≠ [] ∧ Z.of_nat (length b.1) ≤ full f) (sent f) →
  Z.of_nat (length (buf f)) ≤ full f → (length (ch f) ≤ cap f)%nat →
  (draining f = true → done_closed f = true) →
  inv (flush_buf ok f) ∧ buf (flush_buf ok f) = [].
Proof.
  intros Hcl Heq Hb Hlen Hcap Hd. unfold flush_buf, inv, full in *.
  destruct f as [c n q [|x b] d dr cl s a]; cbn in *; [split_and!; try done; try lia; try congruence|].
  split; [|done]. split_and!; try done; try lia; try congruence.
  - rewrite fmap_app, join_app. cbn. by rewrite app_nil_r, <- app_assoc.
  - apply Forall_app. split; [done|]. by repeat constructor.
Qed.

Lemma inv_flush ok f : closed f = false → inv f → inv (flush_buf ok f) ∧ buf (flush_buf ok f) = [].
Proof. intros Hc (H1 & H2 & H3 & H4 & H5 & _). apply flush_inv; try done. lia. Qed.

Lemma inv_receive ok x rest f : closed f = false → ch f = x :: rest → inv f → inv (receive ok x rest f).
Proof.
  intros Hcl Hch (H1 & H2 & H3 & H4 & H5 & H6). unfold receive. cbn [batchSize buf].
  rewrite Hch in H1, H4. cbn [length] in H4.
  assert (Z.of_nat (length (buf f ++ [x])) ≤ full f)%Z as Hl
    by (rewrite length_app; cbn [length]; unfold full in *; lia).
  destruct (Z.leb_spec (batchSize f) (Z.of_nat (length (buf f ++ [x])))) as [|Hlt].
  - apply flush_inv; cbn; try done; [|lia]. by rewrite <- app_assoc.
  - unfold inv, full in *. cbn. split_and!; try done; try lia; try congruence. by rewrite <- app_assoc.
Qed.

Lemma inv_finish ok f : closed f = false → draining f = true → inv f → inv (finish ok f).
Proof.
  intros Hcl Hdr Hi. destruct (inv_flush ok f Hcl Hi) as [(H1 & H2 & H3 & H4 & H5 & _) Hb].
  unfold finish, inv, full in *. cbn [sent buf ch accepted batchSize cap draining done_closed closed].
  split_and!; try done. intros _. split; [|done]. rewrite <- Hdr. unfold flush_buf. by destruct (buf f).
Qed.

Lemma flusher_inv_step f g : step f g → inv f → inv g.
Proof.
  intros [x f'|f'|f' Hc Hd Ho|ok x rest f' Hc Hch|ok f' Hc Hd|ok f' Hc Hd Hch] Hi.
  - destruct Hi as (H1 & H2 & H3 & H4 & H5 & H6). unfold Record_.
    destruct (Nat.ltb_spec (length (ch f')) (cap f')); [|done].
    unfold inv, full in *. cbn. split_and!; try done; [|rewrite length_app; cbn; lia].
    by rewrite !app_assoc, <- (app_assoc _ (buf f')), H1.
  - destruct Hi as (H1 & H2 & H3 & H4 & H5 & H6). unfold inv, full in *. cbn. split_and!; done.
  - destruct Hi as (H1 & H2 & H3 & H4 & H5 & H6). unfold inv, full in *. cbn. split_and!; try done. congruence.
  - by apply inv_receive.
  - by apply inv_flush.
  - by apply inv_finish.
Qed.

Lemma flusher_init buffer batch : inv (new_flusher buffer batch).
Proof. unfold inv, full. cbn. split_and!; try done; try lia. Qed.

Lemma flusher_reachable buffer batch f : rtc step (new_flusher buffer batch) f → inv f.
Proof.
  intros H. assert (∀ f g, rtc step f g → inv f → inv g) as Hr; [|by eapply Hr; [|apply flusher_init]].
  induction 1; [done|]. eauto using flusher_inv_step.
Qed.

(** *** Draining *)

Definition left_to_do f : nat := length (ch f) + (if closed f then 0 else 1).

Lemma flush_fields ok f :
  ch (flush_buf ok f) = ch f ∧ draining (flush_buf ok f) = draining f ∧ closed (flush_buf ok f) = closed f ∧
  accepted (flush_buf ok f) = accepted f ∧ buf (flush_buf ok f) = [].
Proof. unfold flush_buf. destruct f as [c n q [|x b] d dr cl s a]; done. Qed.

Lemma receive_fields ok x rest f :
  ch (receive ok x rest f) = rest ∧ draining (receive ok x rest f) = draining f ∧
  closed (receive ok x rest f) = closed f ∧ accepted (receive ok x rest f) = accepted f.
Proof.
  unfold receive. destruct (_ <=? _); [|done]. 
  destruct (flush_fields ok (mkFlusher (cap f) (batchSize f) rest (buf f ++ [x]) (done_closed f) (draining f)
    (closed f) (sent f) (accepted f))) as (-> & -> & -> & -> & _). done.
Qed.

Lemma drain_step f g :
  loop_step f g → draining f = true →
  draining g = true ∧ accepted g = accepted f ∧ (left_to_do g < left_to_do f)%nat.
Proof.
  intros [f' Hc Hd Ho|ok x rest f' Hc Hch|ok f' Hc Hd|ok f' Hc Hd Hch] Hdr; try congruence; unfold left_to_do.
  - destruct (receive_fields ok x rest f') as (-> & -> & -> & ->). rewrite Hch, Hc. cbn [length]. split_and!; [done..|lia].
  - unfold finish. cbn [draining accepted ch closed].
    destruct (flush_fields ok f') as (-> & -> & _ & -> & _). rewrite Hc. split_and!; [done..|lia].
Qed.

Lemma loop_step_step f g : loop_step f g → step f g.
Proof. intros []; by constructor. Qed.

Lemma drains n f g :
  nsteps loop_step n f g → draining f = true →
  draining g = true ∧ accepted g = accepted f ∧ (n + left_to_do g ≤ left_to_do f)%nat ∧ rtc step f g.
Proof.
  intros H. induction H as [|n f g h Hs _ IH]; intros Hd; [split_and!; [done..|apply rtc_refl]|].
  destruct (drain_step _ _ Hs Hd) as (Hg & Ha & Hl). destruct (IH Hg) as (Hh & Ha' & Hl' & Hr).
  split_and!; [done|congruence|lia|]. eapply rtc_l; [by apply loop_step_step|done].
Qed.

Lemma drained_stuck f :
  draining f = true → ¬ (∃ g, loop_step f g) → closed f = true.
Proof.
  intros Hd Hn. destruct (closed f) eqn:Hc; [done|]. exfalso. apply Hn.
  destruct (ch f) as [|x rest] eqn:Hch; eexists; [by apply (l_finish true)|by apply (l_receive true x rest)].
Qed.

Lemma sent_after_close f g : rtc step f g → closed f = true → closed g = true ∧ sent g = sent f.
Proof.
  induction 1 as [|f g h Hs _ IH]; [done|]. intros Hc.
  assert (closed g = true ∧ sent g = sent f) as [Hg Hsent].
  { destruct Hs as [x f'| | | | |]; try congruence; [|done]. unfold Record_. by case_match. }
  destruct (IH Hg) as [-> ->]. done.
Qed.

End spec.
End FlusherSpec.

(** [C25] A trace writer's log never loses or reorders an item it accepted: at any
    moment, in any interleaving of requests, ticks, receives and the shutdown, the
    batches handed to the database, then the buffer, then the channel are the
    accepted items in their order; batches are not empty and not larger than the
    batch size, and the channel and the buffer stay within theirs. *)
Theorem flusher_exact {A} (buffer batch : Z) (f : Flusher.flusher A) :
  0 < batch →
  rtc Flusher.step (Flusher.new_flusher buffer batch) f →
  (mjoin (Flusher.sent f).*1 ++ Flusher.buf f ++ Flusher.ch f = Flusher.accepted f)%list ∧
  Forall (fun b => b.1 ≠ [] ∧ Z.of_nat (length b.1) ≤ batch) (Flusher.sent f) ∧
  Z.of_nat (length (Flusher.buf f)) < batch ∧ (length (Flusher.ch f) ≤ Z.to_nat buffer)%nat.
Proof.
  intros Hb Hr. destruct (FlusherSpec.flusher_reachable _ _ _ Hr) as (H1 & H2 & H3 & H4 & _).
  assert (Flusher.batchSize f = batch ∧ Flusher.cap f = Z.to_nat buffer) as [Eb Ec].
  { clear - Hr. assert (∀ f g, rtc (@Flusher.step A) f g →
      Flusher.batchSize g = Flusher.batchSize f ∧ Flusher.cap g = Flusher.cap f) as H; [|exact (H _ _ Hr)].
    induction 1 as [|x y z Hs _ [-> ->]]; [done|].
    destruct Hs; unfold Flusher.Record_, Flusher.receive, Flusher.finish, Flusher.flush_buf; cbn;
      repeat (case_match; cbn); done. }
  unfold FlusherSpec.full in *. rewrite Eb, Z.max_r in * by lia. rewrite Ec in H4. done.
Qed.

(** Shutdown: once the loop has seen [done], it runs at most one step for each item
    in the channel and one more, whatever the database answers; when it can run no
    further it has closed, and every accepted item was handed over. *)
Theorem close_drains {A} (buffer batch : Z) (f g : Flusher.flusher A) (n : nat) :
  rtc Flusher.step (Flusher.new_flusher buffer batch) f →
  Flusher.draining f = true → Flusher.closed f = false →
  nsteps Flusher.loop_step n f g →
  (n ≤ length (Flusher.ch f) + 1)%nat ∧
  (¬ (∃ h, Flusher.loop_step g h) →
   Flusher.closed g = true ∧ mjoin (Flusher.sent g).*1 = Flusher.accepted f).
Proof.
  intros Hr Hd Hc Hn. destruct (FlusherSpec.drains _ _ _ Hn Hd) as (Hg & Ha & Hl & Hr').
  unfold FlusherSpec.left_to_do in Hl. rewrite Hc in Hl. split; [lia|]. intros Hs.
  pose proof (FlusherSpec.drained_stuck _ Hg Hs) as Hcl. split; [done|].
  destruct (FlusherSpec.flusher_reachable buffer batch g) as (H1 & _ & _ & _ & _ & H6).
  { by etrans. }
  destruct (H6 Hcl) as [_ Hb].
  assert (Flusher.ch g = []) as Hch.
  { clear - Hn Hd Hc Hcl. revert Hcl. induction Hn as [|n f g h Hs Hn' IH]; [congruence|]. intros Hcl.
    destruct (FlusherSpec.drain_step _ _ Hs Hd) as (Hdg & _).
    destruct (Flusher.closed g) eqn:Ecg; [|by apply IH].
    destruct Hn' as [|? ? ? ? [] _]; try congruence.
    destruct Hs as [| ok x rest f' ? ?|ok f' ? ?|ok f' ? ? Hch]; try congruence.
    - destruct (FlusherSpec.receive_fields ok x rest f') as (_ & _ & E & _). congruence.
    - unfold Flusher.finish. cbn [Flusher.ch]. by destruct (FlusherSpec.flush_fields ok f') as (-> & _). }
  rewrite Hb, Hch, Ha in H1. cbn [app] in H1. by rewrite app_nil_r in H1.
Qed.

(** A trace recorded after the writer closed is accepted by the channel and never
    written: nothing is handed over any more. *)
Theorem late_trace_never_written {A} (f g : Flusher.flusher A) (x : A) :
  Flusher.closed f = true → (length (Flusher.ch f) < Flusher.cap f)%nat →
  rtc Flusher.step (Flusher.Record_ x f) g →
  Flusher.accepted (Flusher.Record_ x f) = (Flusher.accepted f ++ [x])%list ∧ Flusher.sent g = Flusher.sent f.
Proof.
  intros Hc Hroom Hr. unfold Flusher.Record_ in *.
  destruct (Nat.ltb_spec (length (Flusher.ch f)) (Flusher.cap f)); [|lia]. split; [done|].
  by destruct (FlusherSpec.sent_after_close _ _ Hr Hc) as [_ ->].
Qed.

(** ** Content *)

Definition row_of (s : sink) (d : sink * Trace) : option (list col) :=
  match s, d.1 with SClickHouse, SClickHouse => Some (trace_row d.2) | _, _ => None end.

(** The rows a request makes in ClickHouse under a wiring. *)
Definition stored_rows (c : fanout_config) (t : Trace) : list (list col) :=
  omap (row_of SClickHouse) (deliver (NewMultiRecorder (traceFanout c)) t).

(** What the OTLP collector is sent for it. *)
Definition exported (overflow : float64 → Z) (c : fanout_config) (t : Trace) : list string :=
  omap (fun d => match d.1 with SOtlp => Some (Marshal (otlpEnvelopeFromTraces overflow [d.2])) | _ => None end)
    (deliver (NewMultiRecorder (traceFanout c)) t).

(** What the evaluators see. *)
Definition evaluated (c : fanout_config) (t : Trace) : list Trace :=
  omap (fun d => match d.1 with SEval => Some d.2 | _ => None end)
    (deliver (NewMultiRecorder (traceFanout c)) t).

Lemma deliver_all c t :
  deliver (NewMultiRecorder (traceFanout c)) t =
  ([(SHub, t)] ++
   (if fc_ch c then [(SClickHouse, if fc_capture c then t else strip_content t)] else []) ++
   (if fc_metrics c then [(SMetrics, t)] else []) ++
   (if fc_otlp c then [(SOtlp, t)] else []) ++
   (if fc_eval c then [(SEval, t)] else []))%list.
Proof. destruct c as [[] [] [] [] []]; reflexivity. Qed.

(** The envelope is made of metadata. *)
Ltac strip_fields :=
  cbn [strip_content set_OutputMessages set_base blank_base t_base CredentialSource RequestModel ResponseModel InputTokens
       OutputTokens FinishReason Streamed TTFTMillis LatencyMs CostUSD_t StatusCode ErrorType ErrorMsg GuardrailAction
       CacheHit TraceID SpanID ParentID Timestamp t_OrgID t_UserID VirtualKeyID OperationName ProviderName t_Temperature
       t_TopP t_MaxTokens ReplicaID].

Lemma span_attrs_strip overflow t extra : span_attrs overflow (strip_content t) extra = span_attrs overflow t extra.
Proof. unfold span_attrs. strip_fields. reflexivity. Qed.

Lemma resource_span_strip overflow t extra :
  resource_span overflow (strip_content t) extra = resource_span overflow t extra.
Proof.
  unfold resource_span, otlp_span, resource_attrs, trace_id32, span_id. rewrite span_attrs_strip. strip_fields. reflexivity.
Qed.

Lemma envelope_strip overflow ts extra :
  otlpEnvelope overflow (map strip_content ts) extra = otlpEnvelope overflow ts extra.
Proof.
  unfold otlpEnvelope. rewrite map_map.
  by rewrite (map_ext _ (fun t => resource_span overflow t extra)) by (intros; apply resource_span_strip).
Qed.

Lemma stored_rows_eq c t :
  stored_rows c t = if fc_ch c then [trace_row (if fc_capture c then t else strip_content t)] else [].
Proof. unfold stored_rows. rewrite deliver_all. by destruct c as [[] [] [] [] []]. Qed.

Lemma exported_eq overflow c t :
  exported overflow c t = if fc_otlp c then [Marshal (otlpEnvelopeFromTraces overflow [t])] else [].
Proof. unfold exported. rewrite deliver_all. by destruct c as [[] [] [] [] []]. Qed.

Lemma evaluated_eq c t : evaluated c t = if fc_eval c then [t] else [].
Proof. unfold evaluated. rewrite deliver_all. by destruct c as [[] [] [] [] []]. Qed.

(** The value a row puts in a column. *)
Definition cell (columns : list string) (name : string) (row : list col) : option col :=
  match list_find (eq name) columns with Some (i, _) => row !! i | None => None end.

(** A trace with other content: the request's and the response's messages and the
    retrieval contexts, and nothing else. *)
Definition with_content (input output contexts : string) (t : Trace) : Trace :=
  let b := t_base t in
  set_OutputMessages output (set_base (mkBase (TraceID b) (SpanID b) (ParentID b) (Timestamp b) (t_OrgID b) (t_UserID b)
    (VirtualKeyID b) (OperationName b) (ProviderName b) (t_Temperature b) (t_TopP b) (t_MaxTokens b) input contexts
    (EvalReference b) (ReplicaID b) (SessionID b) (TurnID b)) t).

(** A log of a tool call with other arguments and another result. *)
Definition with_payload (arguments result : string) (l : MCPLog) : MCPLog :=
  mkMCPLog (ml_ID l) (ml_Timestamp l) (ml_OrgID l) (ml_UserID l) (ml_VirtualKeyID l) (ml_ServerID l) (ml_ServerLabel l)
    (ml_ToolName l) (ml_Status l) (ml_LatencyMs l) (ml_CostUSD l) (ml_LLMTraceID l) (ml_SessionID l) (ml_TurnID l)
    (ml_RequestID l) arguments result (ml_ErrorMessage l) (ml_Metadata l).

Definition content_columns : list (string * (Trace → string)) :=
  [("input_messages", fun t => InputMessages (t_base t)); ("output_messages", OutputMessages);
   ("retrieval_contexts", fun t => RetrievalContexts (t_base t))].

Definition payload_columns : list (string * (MCPLog → string)) := [("arguments", ml_Arguments); ("result", ml_Result)].

(** The rows a tool call makes in ClickHouse, and its exports. *)
Definition mcp_stored (hub ch capture metrics otlp : bool) (l : MCPLog) : list (list col) :=
  omap (fun d => match d.1 with MSClickHouse => Some (mcp_row d.2) | _ => None end) (mcp_fanout hub ch capture metrics otlp l).

Definition mcp_exported (hub ch capture metrics otlp : bool) (l : MCPLog) : list string :=
  omap (fun d => match d.1 with MSOtlp => Some (Marshal (mcp_envelope [d.2])) | _ => None end) (mcp_fanout hub ch capture metrics otlp l).

(** [row] holds content only if [capture], and its other columns do not depend on it:
    [full] is the row of the item kept whole and [blank] of the item without content. *)
Definition retains {A} (capture : bool) (columns : list string) (content : list (string * (A → string))) (item : A)
    (full blank row : list col) : Prop :=
  length row = length columns ∧
  Forall (fun nf => cell columns nf.1 row = Some (CStr (if capture then nf.2 item else ""))) content ∧
  Forall (fun name => name ∈ content.*1 ∨ cell columns name row = cell columns name full ∧ cell columns name row = cell columns name blank) columns.

(** Both rows list their columns, so each is checked by computing it. *)
Ltac by_columns :=
  repeat first [apply Forall_nil_2 | apply Forall_cons_2; [first [reflexivity | solve [left; cbn; repeat first [apply list_elem_of_here | apply list_elem_of_further]] | right; split; reflexivity]|]].

Lemma trace_retains (capture : bool) t i o r :
  retains capture trace_columns content_columns t (trace_row t) (trace_row (with_content i o r t)) (trace_row (if capture then t else strip_content t)).
Proof. destruct capture; (split; [done|split]); (unfold content_columns, payload_columns, trace_columns, mcp_columns; by_columns). Qed.

Lemma mcp_retains (capture : bool) l a r :
  retains capture mcp_columns payload_columns l (mcp_row l) (mcp_row (with_payload a r l)) (mcp_row (strip_mcp capture l)).
Proof. destruct capture; (split; [done|split]); (unfold content_columns, payload_columns, trace_columns, mcp_columns; by_columns). Qed.

Lemma exported_content overflow c t i o r : exported overflow c (with_content i o r t) = exported overflow c t.
Proof.
  rewrite !exported_eq. destruct (fc_otlp c); [|done]. unfold otlpEnvelopeFromTraces.
  rewrite <- (envelope_strip overflow [with_content i o r t]), <- (envelope_strip overflow [t]). done.
Qed.

Lemma mcp_stored_eq hub ch capture metrics otlp l : mcp_stored hub ch capture metrics otlp l = if ch then [mcp_row (strip_mcp capture l)] else [].
Proof. by destruct hub, ch, metrics, otlp. Qed.

Lemma mcp_exported_eq hub ch capture metrics otlp l : mcp_exported hub ch capture metrics otlp l = if otlp then [Marshal (mcp_envelope [l])] else [].
Proof. by destruct hub, ch, metrics, otlp. Qed.

Lemma mcp_envelope_payload a r l : mcp_envelope [with_payload a r l] = mcp_envelope [l].
Proof. reflexivity. Qed.

(** [C26] What is retained of content.  With storage configured a trace makes one row
    and so does a tool call; with capture off the columns of messages, retrieval
    contexts, tool arguments and tool results are blank, with capture on they hold the
    content, and every other column is that of the trace or log as it was and the same
    for any other content.  What the OpenTelemetry collector is sent does not depend
    on content, capture on or off.  The evaluators get the whole trace. *)
Theorem content_not_retained (overflow : float64 → Z) (c : fanout_config) (t : Trace) (hub : bool) (l : MCPLog) (i o r arguments result : string) :
  length (stored_rows c t) = (if fc_ch c then 1 else 0)%nat ∧
  Forall (retains (fc_capture c) trace_columns content_columns t (trace_row t) (trace_row (with_content i o r t))) (stored_rows c t) ∧
  exported overflow c (with_content i o r t) = exported overflow c t ∧
  evaluated c t = (if fc_eval c then [t] else []) ∧
  let stored := mcp_stored hub (fc_ch c) (fc_capture c) (fc_metrics c) (fc_otlp c) in
  let exported := mcp_exported hub (fc_ch c) (fc_capture c) (fc_metrics c) (fc_otlp c) in
  length (stored l) = (if fc_ch c then 1 else 0)%nat ∧
  Forall (retains (fc_capture c) mcp_columns payload_columns l (mcp_row l) (mcp_row (with_payload arguments result l))) (stored l) ∧
  exported (with_payload arguments result l) = exported l.
Proof.
  cbn zeta. rewrite stored_rows_eq, evaluated_eq, exported_content, mcp_stored_eq, !mcp_exported_eq, mcp_envelope_payload.
  split_and!; [by destruct (fc_ch c)| |done|done|by destruct (fc_ch c)| |done]; (destruct (fc_ch c); [|by constructor]).
  - apply Forall_singleton, trace_retains.
  - apply Forall_singleton, mcp_retains.
Qed.

(** ** Identifiers *)

Lemma zeros_length n : String.length (zeros n) = n.
Proof. induction n as [|n IH]; [done|]. cbn [zeros String.length]. by rewrite IH. Qed.

Lemma take_bytes_length n s : (n ≤ String.length s)%nat → String.length (take_bytes n s) = n.
Proof.
  revert s. induction n as [|n IH]; intros [|c s] H; cbn [String.length] in *; try done; [lia|].
  cbn [take_bytes String.length]. rewrite IH; lia.
Qed.

Lemma pad_to_length n s : String.length (pad_to n s) = n.
Proof.
  unfold pad_to. destruct (Nat.leb_spec n (String.length s)); [by apply take_bytes_length|].
  rewrite length_app_string, zeros_length. lia.
Qed.

Lemma stripDashes_hex (P : ascii → Prop) s :
  (∀ c, c ∈ list_ascii_of_string s → P c ∨ c = "-"%char ∨ c = " "%char) →
  ∀ c, c ∈ list_ascii_of_string (stripDashes s) → P c.
Proof.
  intros H c. unfold stripDashes. rewrite list_ascii_of_string_of_list_ascii, list_elem_of_filter.
  intros [[H1 H2] Hin]. by destruct (H c Hin) as [|[?|?]].
Qed.

Lemma take_bytes_elem n s c : c ∈ list_ascii_of_string (take_bytes n s) → c ∈ list_ascii_of_string s.
Proof.
  revert s. induction n as [|n IH]; intros [|d s]; cbn; try done; [by intros ?%elem_of_nil|].
  rewrite !elem_of_cons. intros [->|H]; [by left|right; by apply IH].
Qed.

Lemma list_ascii_concat s t : list_ascii_of_string (s +:+ t) = (list_ascii_of_string s ++ list_ascii_of_string t)%list.
Proof.
  induction s as [|c s IH]; [done|]. change (String c s +:+ t) with (String c (s +:+ t)).
  cbn [list_ascii_of_string app]. by rewrite IH.
Qed.

Lemma zeros_elem n c : c ∈ list_ascii_of_string (zeros n) → c = "0"%char.
Proof. induction n as [|n IH]; cbn; [by intros ?%elem_of_nil|]. rewrite elem_of_cons. intros [->|H]; auto. Qed.

Lemma pad_to_elem (P : ascii → Prop) n s :
  P "0"%char → (∀ c, c ∈ list_ascii_of_string s → P c) → ∀ c, c ∈ list_ascii_of_string (pad_to n s) → P c.
Proof.
  intros H0 Hs c. unfold pad_to. destruct (_ <=? _)%nat; [intros Hin%take_bytes_elem; auto|].
  rewrite list_ascii_concat, elem_of_app. intros [Hin|Hin%zeros_elem]; [auto|by subst].
Qed.

Definition is_hex (c : ascii) : Prop :=
  c ∈ list_ascii_of_string "0123456789abcdefABCDEF".

Definition hex_or_dash (s : string) : Prop :=
  ∀ c, c ∈ list_ascii_of_string s → is_hex c ∨ c = "-"%char ∨ c = " "%char.

Definition hex_id (n : nat) (s : string) : Prop :=
  String.length s = n ∧ ∀ c, c ∈ list_ascii_of_string s → is_hex c.

Lemma zero_hex : is_hex "0"%char.
Proof. left. Qed.

Lemma hexSpanID_ok s : hex_or_dash s → hex_id 16 (hexSpanID (stripDashes s)).
Proof.
  intros H. unfold hexSpanID. split; [apply pad_to_length|]. apply pad_to_elem; [apply zero_hex|].
  apply stripDashes_hex. intros c Hc. left. revert c Hc. by apply stripDashes_hex.
Qed.

(** Whatever identifiers a trace has, as long as they are UUIDs or hexadecimal
    texts of any length, the span the collector gets has a trace id of 32
    hexadecimal digits and span ids of 16. *)
Theorem otlp_ids_well_formed (t : Trace) :
  hex_or_dash (TraceID (t_base t)) → hex_or_dash (SpanID (t_base t)) → hex_or_dash (ParentID (t_base t)) →
  hex_id 32 (trace_id32 t) ∧ hex_id 16 (span_id t) ∧ hex_id 16 (hexSpanID (stripDashes (ParentID (t_base t)))).
Proof.
  intros Ht Hs Hp. split_and!.
  - unfold trace_id32. split; [apply pad_to_length|]. apply pad_to_elem; [apply zero_hex|]. by apply stripDashes_hex.
  - unfold span_id. case_match; by apply hexSpanID_ok.
  - by apply hexSpanID_ok.
Qed.

(** ** Exported numbers *)

(** [fmtFloat] prints the four decimals without their leading zeros. *)
Example small_decimals_misread :
  floatToString (fun _ => 0) (lit 5 100) = "0.500" ∧ floatToString (fun _ => 0) (lit 1 2) = "0.5000" ∧
  floatToString (fun _ => 0) (lit 12 10) = "1.1999".
Proof. split_and!; vm_compute; reflexivity. Qed.

(** A temperature or top-p of [k] hundredths below one tenth is exported with the
    digits of ten times its value. *)
Definition misprinted (k : Z) : bool :=
  String.eqb (floatToString (fun _ => 0) (lit k 100)) ("0." +:+ pretty (k * 100)) ||
  String.eqb (floatToString (fun _ => 0) (lit k 100)) ("0." +:+ pretty (k * 100 - 1)).

Theorem export_drops_leading_zeros (k : Z) :
  1 ≤ k ≤ 9 → misprinted k = true.
Proof.
  intros H. assert (k = 1 ∨ k = 2 ∨ k = 3 ∨ k = 4 ∨ k = 5 ∨ k = 6 ∨ k = 7 ∨ k = 8 ∨ k = 9) as Hk by lia.
  repeat destruct Hk as [->|Hk]; subst; vm_compute; reflexivity.
Qed.

(** ** The live feed *)

(** The hub with the user behind each client. *)
Record feed := mkFeed { fd_hub : hub; fd_users : gmap nat CoreStore.User }.

Inductive feed_step : feed → feed → Prop :=
| f_live id u f : fd_hub f !! id = None → u_ID u ≠ "" →
    feed_step f (mkFeed (live id u (fd_hub f)) (<[id := u]> (fd_users f)))
| f_leave id f : feed_step f (mkFeed (unsubscribe id (fd_hub f)) (delete id (fd_users f)))
| f_record t f : feed_step f (mkFeed (hub_Record t (fd_hub f)) (fd_users f)).

Definition feed_inv (f : feed) : Prop :=
  ∀ id c, fd_hub f !! id = Some c →
    (length (cl_queue c) ≤ 64)%nat ∧
    ∃ u, fd_users f !! id = Some u ∧ cl_user c = live_scope u ∧ u_ID u ≠ "" ∧
      (u_Role u ≠ RoleAdmin → Forall (fun t => t_UserID (t_base t) = u_ID u) (cl_queue c)).

Lemma feed_inv_step f g : feed_step f g → feed_inv f → feed_inv g.
Proof.
  intros [id u f' Hn Hu|id f'|t f'] Hi i c; cbn [fd_hub fd_users].
  - unfold live, subscribe. rewrite lookup_insert. case_decide as E.
    + intros [= <-]. subst i. split; [cbn; lia|]. exists u. rewrite lookup_insert_eq. by repeat split.
    + intros H. rewrite lookup_insert_ne by done. exact (Hi _ _ H).
  - unfold unsubscribe. rewrite lookup_delete_Some. intros [Hne H]. rewrite lookup_delete_ne by done. exact (Hi _ _ H).
  - unfold hub_Record. rewrite lookup_fmap, fmap_Some. intros (c0 & H & ->).
    destruct (Hi _ _ H) as (Hl & u & Hu & Hs & Hid & Hq).
    destruct (negb (String.eqb (cl_user c0) "") && negb (String.eqb (cl_user c0) (t_UserID (t_base t)))) eqn:Et;
      [split; [done|]; eauto|].
    destruct (Nat.ltb_spec (length (cl_queue c0)) 64) as [Hlt|]; [|split; [done|]; eauto].
    cbn [cl_queue cl_user]. split; [rewrite length_app; cbn; lia|]. exists u. split_and!; try done.
    intros Hr. apply Forall_app. split; [by apply Hq|]. constructor; [|done].
    unfold live_scope in Hs. destruct (String.eqb_spec (u_Role u) RoleAdmin); [done|].
    rewrite Hs in Et. destruct (String.eqb_spec (u_ID u) ""); [done|].
    destruct (String.eqb_spec (u_ID u) (t_UserID (t_base t))); done.
Qed.

Definition empty_feed : feed := mkFeed ∅ ∅.

Lemma feed_inv_reachable f : rtc feed_step empty_feed f → feed_inv f.
Proof.
  intros H. assert (∀ f g, rtc feed_step f g → feed_inv f → feed_inv g) as Hr.
  { induction 1; [done|]. eauto using feed_inv_step. }
  eapply Hr; [exact H|]. intros id c. cbn. by rewrite lookup_empty.
Qed.

(** The live feed of a member: in any sequence of connections, departures and
    traces, what waits for a client who is not an administrator are traces of
    that user, at most 64 of them. *)
Theorem live_member_confined (f : feed) (id : nat) (c : client) (u : CoreStore.User) :
  rtc feed_step empty_feed f → fd_hub f !! id = Some c → fd_users f !! id = Some u → u_Role u ≠ RoleAdmin →
  Forall (fun t => t_UserID (t_base t) = u_ID u) (cl_queue c) ∧ (length (cl_queue c) ≤ 64)%nat.
Proof.
  intros Hr Hc Hu Hrole. destruct (feed_inv_reachable f Hr _ _ Hc) as (Hl & u' & Hu' & _ & _ & Hq).
  simplify_eq. auto.
Qed.

(** The live feed of an administrator is not confined to the administrator's
    organisation: a trace of any organisation, with its prompt and completion, is
    queued for the client as soon as it is recorded. *)
Theorem live_admin_sees_other_orgs (f : feed) (id : nat) (u : CoreStore.User) (t : Trace) :
  u_Role u = RoleAdmin → t_OrgID (t_base t) ≠ u_OrgID u →
  cl_queue <$> (hub_Record t (live id u (fd_hub f)) !! id) = Some [t].
Proof.
  intros Hr _. unfold hub_Record, live, subscribe, live_scope.
  by rewrite lookup_fmap, lookup_insert_eq, Hr.
Qed.

(** ** The organisation of a trace *)
Module TraceOrgSpec.
Import TraceOrg.

(** What the query says of a trace, if it answers. *)
Definition resolved (a : answer) : option (string * bool) :=
  match a with
  | ARow org => Some (TrimSpace org, negb (String.eqb (TrimSpace org) ""))
  | ANoRows => Some ("", false)
  | AFailed => None
  end.

Record call := mkCall { q_now : Time; q_query : string → answer; q_id : string }.

(** The answers of a sequence of look-ups. *)
Fixpoint run (cs : list call) (c : gmap string entry) : list (string * bool) * gmap string entry :=
  match cs with
  | [] => ([], c)
  | k :: cs' =>
      let '(r, c') := OrgForTrace (q_query k) (q_now k) (q_id k) c in
      let '(rs, c'') := run cs' c' in (r :: rs, c'')
  end.

(** Every cached entry is what some earlier look-up was told, a minute before it
    expires. *)
Definition sound (past : list call) (c : gmap string entry) : Prop :=
  ∀ id e, c !! id = Some e →
    ∃ k, k ∈ past ∧ resolved (q_query k id) = Some (e_org e, e_found e) ∧ e_expiresAt e = q_now k + 60 * Second.

Definition bounded (c : gmap string entry) : Prop := Z.of_nat (size c) ≤ traceOrgCacheMax.

Lemma store_bounded now id org found c : bounded c → bounded (store_ now id org found c).
Proof.
  unfold bounded, store_, traceOrgCacheMax. intros H.
  destruct (Z.leb_spec 4096 (Z.of_nat (size c))).
  - rewrite map_size_insert_None by apply lookup_empty. by rewrite map_size_empty.
  - destruct (c !! id) eqn:E; [rewrite map_size_insert_Some by done; lia|rewrite map_size_insert_None by done; lia].
Qed.

Lemma store_sound past k org found c :
  sound past c → resolved (q_query k (TrimSpace (q_id k))) = Some (org, found) →
  sound (past ++ [k])%list (store_ (q_now k) (TrimSpace (q_id k)) org found c).
Proof.
  intros Hs Hr id e. unfold store_. rewrite lookup_insert. case_decide as E.
  - intros [= <-]. subst id. exists k. split_and!; [set_solver|done|done].
  - intros H. assert (c !! id = Some e) as H'.
    { destruct (_ <=? _); [by rewrite lookup_empty in H|done]. }
    destruct (Hs _ _ H') as (k' & Hin & ? & ?). exists k'. split_and!; [set_solver|done|done].
Qed.

Lemma sound_weaken past k c : sound past c → sound (past ++ [k])%list c.
Proof. intros Hs id e H. destruct (Hs _ _ H) as (k' & ? & ? & ?). exists k'. split_and!; [set_solver|done|done]. Qed.

(** One look-up: its answer was given by a query at most a minute old, or is the
    refusal. *)
Definition answer_ok (past : list call) (k : call) (r : string * bool) : Prop :=
  r = ("", false) ∨
  ∃ k', k' ∈ (past ++ [k])%list ∧ q_now k - q_now k' ≤ 60 * Second ∧ resolved (q_query k' (TrimSpace (q_id k))) = Some r.

Lemma lookup_ok past k c :
  sound past c → bounded c →
  let '(r, c') := OrgForTrace (q_query k) (q_now k) (q_id k) c in
  answer_ok past k r ∧ sound (past ++ [k])%list c' ∧ bounded c'.
Proof.
  intros Hs Hb. unfold OrgForTrace, answer_ok.
  destruct (String.eqb (TrimSpace (q_id k)) ""); [split_and!; [by left|by apply sound_weaken|done]|].
  unfold cached_org. destruct (c !! TrimSpace (q_id k)) as [e|] eqn:Ee; [destruct (After (q_now k) (e_expiresAt e)) eqn:Ea|].
  2: { split_and!; [|by apply sound_weaken|done]. right. destruct (Hs _ _ Ee) as (k' & Hin & Hr & Hx).
       exists k'. unfold After in Ea. reflect_bools. split_and!; [set_solver|lia|done]. }
  all: destruct (q_query k (TrimSpace (q_id k))) as [org| |] eqn:Eq; cbn [fst snd];
    split_and!; try apply store_bounded; try (apply store_sound; [done|by rewrite Eq]);
    try apply sound_weaken; try done; try (by left).
  all: right; exists k; rewrite Eq; split_and!; [set_solver|unfold Second; lia|done].
Qed.

Lemma run_ok cs past c :
  sound past c → bounded c →
  Forall2 (fun i r => answer_ok (past ++ take i cs)%list (nth i cs (mkCall 0 (fun _ => AFailed) "")) r)
    (seq 0 (length cs)) (fst (run cs c)) ∧ bounded (snd (run cs c)).
Proof.
  revert past c. induction cs as [|k cs IH]; intros past c Hs Hb; [split; [constructor|done]|].
  cbn [run length seq]. pose proof (lookup_ok past k c Hs Hb) as Hk.
  destruct (OrgForTrace (q_query k) (q_now k) (q_id k) c) as [r c']. destruct Hk as (Ha & Hs' & Hb').
  destruct (IH _ _ Hs' Hb') as [Hf Hb'']. destruct (run cs c') as [rs c'']. cbn [fst snd] in *.
  split; [|done]. constructor; [cbn [take nth]; by rewrite app_nil_r|].
  rewrite <- seq_shift. apply Forall2_fmap_l. eapply Forall2_impl; [exact Hf|].
  intros i r' H. cbn beta in H. rewrite <- app_assoc in H. exact H.
Qed.

End TraceOrgSpec.

(** The organisation a pushed score is filed under: over any sequence of look-ups,
    each answer is what the trace store itself said of that very trace at most a
    minute earlier, or the refusal; a failed query is never remembered, and the
    cache an outsider's trace ids feed holds at most 4096 entries. *)
Theorem org_answers_fresh (cs : list TraceOrgSpec.call) (i : nat) (r : string * bool) :
  fst (TraceOrgSpec.run cs ∅) !! i = Some r →
  (∃ k, cs !! i = Some k ∧ TraceOrgSpec.answer_ok (take i cs) k r) ∧
  TraceOrgSpec.bounded (snd (TraceOrgSpec.run cs ∅)).
Proof.
  intros Hr. destruct (TraceOrgSpec.run_ok cs [] ∅) as [Hf Hb].
  { intros id e. by rewrite lookup_empty. }
  { unfold TraceOrgSpec.bounded, TraceOrg.traceOrgCacheMax. rewrite map_size_empty. lia. }
  split; [|done]. destruct (Forall2_lookup_r _ _ _ _ _ Hf Hr) as (j & Hj & Ha).
  apply lookup_seq in Hj as [-> Hlt]. cbn [app Nat.add] in Ha.
  destruct (lookup_lt_is_Some_2 cs i Hlt) as [k Hk]. exists k. split; [done|].
  by rewrite (nth_lookup_Some _ _ _ _ Hk) in Ha.
Qed.

(** ** Witnesses *)

(** Two items through a writer of batches of two, then a third and the shutdown. *)
Definition w0 : Flusher.flusher nat := Flusher.new_flusher 10 2.
Definition w3 : Flusher.flusher nat :=
  Flusher.Record_ 3%nat (Flusher.receive true 2%nat [] (Flusher.receive true 1%nat [2%nat]
    (Flusher.Record_ 2%nat (Flusher.Record_ 1%nat w0)))).
Definition w_draining : Flusher.flusher nat := Flusher.start_draining (Flusher.Close w3).
Definition w_closed : Flusher.flusher nat := Flusher.finish false (Flusher.receive false 3%nat [] w_draining).

Lemma w3_reachable : rtc Flusher.step w0 w3.
Proof.
  eapply rtc_l; [apply (Flusher.s_record 1%nat)|]. eapply rtc_l; [apply (Flusher.s_record 2%nat)|].
  eapply rtc_l; [by apply (Flusher.s_receive true 1%nat [2%nat])|].
  eapply rtc_l; [by apply (Flusher.s_receive true 2%nat [])|].
  eapply rtc_l; [apply (Flusher.s_record 3%nat)|]. apply rtc_refl.
Qed.

Lemma w_draining_reachable : rtc Flusher.step w0 w_draining.
Proof.
  etrans; [apply w3_reachable|]. eapply rtc_l; [apply Flusher.s_close|].
  eapply rtc_l; [by apply Flusher.s_done|]. apply rtc_refl.
Qed.

Lemma w_closed_steps : nsteps Flusher.loop_step 2 w_draining w_closed.
Proof.
  eapply nsteps_l; [by apply (Flusher.l_receive false 3%nat [])|].
  eapply nsteps_l; [by apply (Flusher.l_finish false)|]. constructor.
Qed.

Lemma w_closed_stuck : ¬ (∃ h, Flusher.loop_step w_closed h).
Proof. intros [h H]. inversion H; done. Qed.

Lemma flusher_exact_witness :
  Flusher.sent w3 = [([1%nat; 2%nat], true)] ∧
  (mjoin (Flusher.sent w3).*1 ++ Flusher.buf w3 ++ Flusher.ch w3 = Flusher.accepted w3)%list.
Proof. split; [reflexivity|]. apply (flusher_exact 10 2 w3); [lia|exact w3_reachable]. Defined.

Lemma close_drains_witness :
  Flusher.closed w_closed = true ∧ mjoin (Flusher.sent w_closed).*1 = Flusher.accepted w_draining.
Proof.
  apply (close_drains 10 2 w_draining w_closed 2);
    [exact w_draining_reachable|reflexivity|reflexivity|exact w_closed_steps|exact w_closed_stuck].
Defined.

Lemma late_trace_never_written_witness :
  Flusher.accepted (Flusher.Record_ 4%nat w_closed) = [1; 2; 3; 4]%nat ∧
  Flusher.sent (Flusher.Record_ 4%nat w_closed) = Flusher.sent w_closed.
Proof.
  apply (late_trace_never_written w_closed (Flusher.Record_ 4%nat w_closed) 4%nat);
    [reflexivity|apply Nat.ltb_lt; vm_compute; reflexivity|apply rtc_refl].
Defined.

Definition chat_trace (org user prompt : string) : Trace :=
  mkTrace (mkBase "f4b86a08-bbe4-497c-b73e-2c8e1ee86a44" "" "" 0 org user "" "" "openai" (lit 5 100) fzero 0 prompt "" ""
    "r1" "" "") "byok" "gpt" "" 0 0 "stop" false 0 40 (lit 1 4) 200 "" "" "" "hello" false [] [] "" "".

Definition all_wired : fanout_config := mkFanout true false true true true.

Example secret_blanked :
  map (cell trace_columns "input_messages") (stored_rows all_wired (chat_trace "o" "u" "secret")) = [Some (CStr "")] ∧
  map (cell trace_columns "user_id") (stored_rows all_wired (chat_trace "o" "u" "secret")) = [Some (CStr "u")].
Proof. split; reflexivity. Qed.

Lemma hex_or_dash_dec s :
  forallb (fun c => bool_decide (c ∈ list_ascii_of_string "0123456789abcdefABCDEF- ")) (list_ascii_of_string s) = true →
  hex_or_dash s.
Proof.
  intros H c Hc. rewrite forallb_forall in H. specialize (H c (proj1 (list_elem_of_In _ _) Hc)).
  apply bool_decide_eq_true in H. change "0123456789abcdefABCDEF- " with ("0123456789abcdefABCDEF" +:+ "- ") in H.
  rewrite list_ascii_concat, elem_of_app in H. destruct H as [H|H]; [by left|]. right. set_solver.
Qed.

Lemma otlp_ids_well_formed_witness :
  trace_id32 (chat_trace "o" "u" "") = "f4b86a08bbe4497cb73e2c8e1ee86a44" ∧ hex_id 16 (span_id (chat_trace "o" "u" "")).
Proof.
  split; [vm_compute; reflexivity|].
  apply (otlp_ids_well_formed (chat_trace "o" "u" "")); apply hex_or_dash_dec; vm_compute; reflexivity.
Defined.

Lemma export_drops_leading_zeros_witness : misprinted 5 = true.
Proof. apply (export_drops_leading_zeros 5). lia. Defined.

Definition ann : CoreStore.User := mkUser "u-ann" "org-a" "ann@a" RoleMember false 0 None.
Definition bob : CoreStore.User := mkUser "u-bob" "org-b" "bob@b" RoleAdmin false 0 None.

Definition ann_feed : feed :=
  mkFeed (hub_Record (chat_trace "org-a" "u-eve" "hi") (hub_Record (chat_trace "org-a" "u-ann" "hi") (live 1 ann ∅)))
    (<[1%nat := ann]> ∅).

Lemma ann_feed_reachable : rtc feed_step empty_feed ann_feed.
Proof.
  eapply rtc_l; [apply (f_live 1 ann empty_feed); done|].
  eapply rtc_l; [apply (f_record (chat_trace "org-a" "u-ann" "hi"))|].
  eapply rtc_l; [apply (f_record (chat_trace "org-a" "u-eve" "hi"))|]. apply rtc_refl.
Qed.

Lemma live_member_confined_witness :
  Forall (fun t => t_UserID (t_base t) = "u-ann") [chat_trace "org-a" "u-ann" "hi"] ∧ (1 ≤ 64)%nat.
Proof.
  apply (live_member_confined ann_feed 1 (mkClient "u-ann" [chat_trace "org-a" "u-ann" "hi"]) ann);
    [exact ann_feed_reachable|vm_compute; reflexivity|vm_compute; reflexivity|done].
Defined.

(** An administrator of one organisation receives another organisation's prompt. *)
Lemma live_admin_sees_other_orgs_witness :
  cl_queue <$> (hub_Record (chat_trace "org-a" "u-ann" "our secret") (live 2 bob ∅) !! 2%nat)
    = Some [chat_trace "org-a" "u-ann" "our secret"].
Proof. apply (live_admin_sees_other_orgs empty_feed 2 bob (chat_trace "org-a" "u-ann" "our secret")); done. Defined.

Definition told (org : string) : string → TraceOrg.answer := fun _ => TraceOrg.ARow org.
Definition two_lookups : list TraceOrgSpec.call :=
  [TraceOrgSpec.mkCall 0 (told "org-a") "t1"; TraceOrgSpec.mkCall (30 * Second) (fun _ => TraceOrg.AFailed) "t1"].

Lemma org_answers_fresh_witness :
  fst (TraceOrgSpec.run two_lookups ∅) = [("org-a", true); ("org-a", true)] ∧
  ∃ k, two_lookups !! 1%nat = Some k ∧ TraceOrgSpec.answer_ok (take 1 two_lookups) k ("org-a", true).
Proof.
  split; [vm_compute; reflexivity|].
  apply (org_answers_fresh two_lookups 1 ("org-a", true)). vm_compute. reflexivity.
Defined.
