(* ===== verification/Mcp.v ===== *)
(** * Mcp: src/internal/mcp, src/internal/gateway/mcp.go, src/internal/console
    (mcp.go, mcp_settings.go)

    The MCP proxy: the server registry, the manager of connected clients, the tool
    calls of the gateway and the administration of the console.  Decoding YAML
    ([unmarshal]) and the MCP client library are not this program's code: the
    manager asks for a connection and gets a [dialed] outcome, a call gets an
    [upstream] answer.  [connectServer] releases its lock while it dials, so it is
    two steps, [connect_begin] and [connect_end], and other calls may come between.
    Client connections have numbers; [open_clients] are those not yet closed. *)

From stdpp Require Import sorting pretty.
From S2P Require Import Prelude GoString Float64 GoTime Json Net CoreStore Metrics Recorders.
Local Open Scope string_scope.
Local Open Scope Z_scope.

(** ** risk.go *)

Definition containsAny (s : string) (parts : list string) : bool := existsb (Contains s) parts.

(** [strings.ReplaceAll(n, "-", "_")]. *)
Definition underscores (s : string) : string :=
  string_of_list_ascii (map (fun c => if Ascii.eqb c "-" then "_"%char else c) (list_ascii_of_string s)).

Definition ClassifyToolRisk (name : string) : string :=
  let n := underscores (ToLower (TrimSpace name)) in
  if containsAny n ["email"; "send_mail"; "export"; "download"; "upload"; "share"; "forward"] then "data_export"
  else if containsAny n ["http"; "fetch"; "request"; "webhook"; "browse"; "url"; "web_"] then "network"
  else if containsAny n ["write"; "create"; "update"; "delete"; "put"; "patch"; "remove"; "insert"; "drop"] then "write"
  else "read".

(** ** spec.go *)

Record ConnectionSpec := mkConnection {
  cs_Type : string; cs_Command : string; cs_Args : list string; cs_Env : gmap string string; cs_URL : string;
  cs_Headers : gmap string string
}.

Record ServerSpec := mkSpec {
  sp_Connection : ConnectionSpec;
  sp_AllowedVirtualKeyIDs : list string;
  sp_AllowedTools : list string;
  sp_TimeoutMs : Z;
  sp_Enabled : option bool;
  sp_StickyHTTP : option bool
}.

Definition ConnectionType (s : ServerSpec) : string := ToLower (TrimSpace (cs_Type (sp_Connection s))).

(** [None] is valid. *)
Definition ValidateSpec (spec : option ServerSpec) : option string :=
  let invalid := "mcp: invalid server spec" in
  match spec with
  | None => Some (invalid +:+ ": nil spec")
  | Some s =>
      let typ := ConnectionType s in
      let c := sp_Connection s in
      let bad_timeout :=
        if sp_TimeoutMs s <? 0 then Some (invalid +:+ ": timeout_ms must be non-negative") else None in
      if String.eqb typ "stdio" then
        if String.eqb (TrimSpace (cs_Command c)) "" then Some (invalid +:+ ": stdio connection requires command")
        else bad_timeout
      else if String.eqb typ "http" then
        if String.eqb (TrimSpace (cs_URL c)) "" then Some (invalid +:+ ": http connection requires url")
        else bad_timeout
      else Some (invalid +:+ ": connection.type must be stdio or http")
  end.

Definition Timeout (s : ServerSpec) : Z := if 0 <? sp_TimeoutMs s then sp_TimeoutMs s else 60000.

Definition Sticky (s : ServerSpec) : bool := default true (sp_StickyHTTP s).

Definition AllowsVirtualKey (s : ServerSpec) (vkeyID : string) : bool :=
  match sp_AllowedVirtualKeyIDs s with [] => true | l => existsb (String.eqb vkeyID) l end.

Definition AllowsTool (s : option ServerSpec) (name : string) : bool :=
  match s with
  | None => true
  | Some s => match sp_AllowedTools s with [] => true | l => existsb (String.eqb name) l end
  end.

(** ** types.go *)

Record ServerRecord := mkServerRecord {
  sr_ID : string; sr_OrgID : string; sr_Name : string; sr_SpecYAML : string; sr_Enabled : bool;
  sr_CreatedAt : Time; sr_UpdatedAt : Time
}.

Record MCPTool := mkTool { tl_Name : string; tl_Description : string; tl_Risk : string }.

Record ServerStatus := mkStatus {
  ss_Record : ServerRecord; ss_ConnectionType : string; ss_State : string; ss_Tools : list MCPTool; ss_LastError : string
}.

Record CallContext := mkCallContext {
  cc_OrgID : string; cc_UserID : string; cc_VirtualKeyID : string; cc_RequestID : string; cc_LLMTraceID : string;
  cc_SessionID : string; cc_TurnID : string
}.

(** [Arguments] is kept as the text it marshals to. *)
Record CallRequest := mkCallRequest {
  cr_Name : string; cr_Arguments : string; cr_LLMTraceID : string; cr_SessionID : string; cr_TurnID : string
}.

Record CallResult := mkCallResult { res_Content : string; res_IsError : bool; res_RawJSON : string; res_LatencyMs : Z }.

(** ** The registry table (store.go) and the settings (org_settings.go) *)

Abbreviation table := (list ServerRecord).

Section with_yaml.
Context (unmarshal : string → res string ServerSpec) (IsPrint : string → bool).

Definition DecodeSpec (raw : string) : res string ServerSpec :=
  match unmarshal raw with
  | Err e => Err ("decode mcp spec: " +:+ e)
  | Ok spec => match ValidateSpec (Some spec) with Some e => Err e | None => Ok spec end
  end.

(** [List]: rows in the order of their creation; the table is kept in it. *)
Definition store_List (orgID : string) (t : table) : list ServerRecord :=
  filter (fun r => orgID = "" ∨ sr_OrgID r = "" ∨ sr_OrgID r = orgID) t.

Definition store_Get (id : string) (t : table) : option ServerRecord :=
  list_find (fun r => sr_ID r = id) t ≫= fun p => Some p.2.

(** The upsert: a row with the id is overwritten in place, a new one is last; the
    unique index on organisation and name refuses a second row. *)
Definition conflicts (r r' : ServerRecord) : bool :=
  String.eqb (sr_OrgID r) (sr_OrgID r') && String.eqb (sr_Name r) (sr_Name r') && negb (String.eqb (sr_ID r) (sr_ID r')).

Definition upsert (now : Time) (r : ServerRecord) (t : table) : res string (ServerRecord * table) :=
  if existsb (conflicts r) t then Err "duplicate key value violates unique constraint mcp_servers_unique_name"
  else match store_Get (sr_ID r) t with
       | Some old =>
           let r := mkServerRecord (sr_ID r) (sr_OrgID r) (sr_Name r) (sr_SpecYAML r) (sr_Enabled r) (sr_CreatedAt old) now in
           Ok (r, map (fun x => if String.eqb (sr_ID x) (sr_ID r) then r else x) t)
       | None =>
           let r := mkServerRecord (sr_ID r) (sr_OrgID r) (sr_Name r) (sr_SpecYAML r) (sr_Enabled r) now now in
           Ok (r, t ++ [r])%list
       end.

Definition set_ID (id : string) (r : ServerRecord) : ServerRecord :=
  mkServerRecord id (sr_OrgID r) (sr_Name r) (sr_SpecYAML r) (sr_Enabled r) (sr_CreatedAt r) (sr_UpdatedAt r).

Definition Save (uuid : string) (now : Time) (r : ServerRecord) (t : table) : res string (ServerRecord * table) :=
  if String.eqb (TrimSpace (sr_Name r)) "" then Err "mcp: name is required"
  else if String.eqb (TrimSpace (sr_SpecYAML r)) "" then Err "mcp: spec_yaml is required"
  else match DecodeSpec (sr_SpecYAML r) with
       | Err e => Err ("re-validate spec_yaml: " +:+ e)
       | Ok _ =>
           let r :=
             if String.eqb (TrimSpace (sr_ID r)) "" then
               match list_find (fun x => sr_OrgID x = sr_OrgID r ∧ sr_Name x = sr_Name r) t with
               | Some (_, x) => set_ID (sr_ID x) r
               | None => set_ID uuid r
               end
             else r in
           upsert now r t
       end.

Definition store_Delete (id : string) (t : table) : table := filter (fun r => sr_ID r ≠ id) t.

(** [mcp_org_settings]. *)
Record OrgSettings := mkOrgSettings { os_DefaultTimeoutMs : Z; os_DefaultStickyHTTP : bool }.

Definition settings_Get (orgID : string) (t : gmap string OrgSettings) : OrgSettings :=
  default (mkOrgSettings 60000 true) (t !! orgID).

Definition settings_Upsert (orgID : string) (timeoutMs : option Z) (sticky : option bool) (t : gmap string OrgSettings)
    : res string (OrgSettings * gmap string OrgSettings) :=
  let cur := settings_Get orgID t in
  let cur := mkOrgSettings (default (os_DefaultTimeoutMs cur) timeoutMs) (default (os_DefaultStickyHTTP cur) sticky) in
  if os_DefaultTimeoutMs cur <? 1000 then Err "mcp: default_timeout_ms must be at least 1000"
  else Ok (cur, <[orgID := cur]> t).

(** ** manager.go *)

Record clientState := mkClientState {
  st_record : ServerRecord; st_spec : option ServerSpec; st_cli : option nat; st_tools : list MCPTool; st_state : string;
  st_lastError : string
}.

Record Manager := mkManager {
  m_clients : gmap string clientState;
  open_clients : gset nat;
  m_next : nat
}.

Definition NewManager : Manager := mkManager ∅ ∅ 0.

(** What [dialClient], [Start], [Initialize] and [ListTools] come to. *)
Inductive dialed := DialFailed (e : string) | ConnectFailed (e : string) | Connected (tools : list MCPTool).

Definition close_cli (c : option nat) (s : gset nat) : gset nat := match c with Some n => s ∖ {[n]} | None => s end.

Definition cli_of (id : string) (m : Manager) : option nat := m_clients m !! id ≫= st_cli.

Definition setDisabled (rec : ServerRecord) (m : Manager) : Manager :=
  let spec := match DecodeSpec (sr_SpecYAML rec) with Ok s => Some s | Err _ => None end in
  mkManager (<[sr_ID rec := mkClientState rec spec None [] "disabled" ""]> (m_clients m))
    (close_cli (cli_of (sr_ID rec) m) (open_clients m)) (m_next m).

Definition markError (rec : ServerRecord) (spec : option ServerSpec) (e : string) (m : Manager) : Manager :=
  mkManager (<[sr_ID rec := mkClientState rec spec None [] "error" e]> (m_clients m)) (open_clients m) (m_next m).

(** Up to the unlock before the dial. *)
Definition connect_begin (rec : ServerRecord) (m : Manager) : res string ServerSpec * Manager :=
  match DecodeSpec (sr_SpecYAML rec) with
  | Err e => (Err e, markError rec None e m)
  | Ok spec =>
      (Ok spec,
       mkManager (<[sr_ID rec := mkClientState rec (Some spec) None [] "connecting" ""]> (m_clients m))
         (close_cli (cli_of (sr_ID rec) m) (open_clients m)) (m_next m))
  end.

Definition tool_le (a b : MCPTool) : Prop := String.le (tl_Name a) (tl_Name b).
#[local] Instance tool_le_dec : RelDecision tool_le.
Proof. intros a b. unfold tool_le. apply _. Defined.

(** From the dial on; a client that was opened and failed is closed again. *)
Definition connect_end (rec : ServerRecord) (spec : ServerSpec) (d : dialed) (m : Manager) : option string * Manager :=
  match d with
  | DialFailed e => (Some e, markError rec (Some spec) e m)
  | ConnectFailed e =>
      (Some e, markError rec (Some spec) e (mkManager (m_clients m) (open_clients m) (S (m_next m))))
  | Connected tools =>
      (None,
       mkManager
         (<[sr_ID rec := mkClientState rec (Some spec) (Some (m_next m)) (merge_sort tool_le tools) "healthy" ""]> (m_clients m))
         ({[m_next m]} ∪ open_clients m) (S (m_next m)))
  end.

(** With nothing in between. *)
Definition connectServer (dial : ServerSpec → dialed) (rec : ServerRecord) (m : Manager) : option string * Manager :=
  match connect_begin rec m with
  | (Err e, m') => (Some e, m')
  | (Ok spec, m') => connect_end rec spec (dial spec) m'
  end.

Definition Upsert (dial : ServerSpec → dialed) (rec : ServerRecord) (m : Manager) : option string * Manager :=
  if negb (sr_Enabled rec) then (None, setDisabled rec m) else connectServer dial rec m.

Definition Remove (id : string) (m : Manager) : Manager :=
  match m_clients m !! id with
  | Some st => mkManager (delete id (m_clients m)) (close_cli (st_cli st) (open_clients m)) (m_next m)
  | None => m
  end.

Definition Reconnect (dial : ServerSpec → dialed) (t : table) (id : string) (m : Manager) : option string * Manager :=
  match store_Get id t with
  | None => (Some "mcp: server not found", m)
  | Some rec => Upsert dial rec m
  end.

(** [Reload]: every row is connected or disabled, then clients without a row go. *)
Definition drop_unseen (seen : list string) (m : Manager) : Manager :=
  foldl (fun m id => if bool_decide (id ∈ seen) then m else Remove id m) m (map_to_list (m_clients m)).*1.

Definition Reload (dial : ServerSpec → dialed) (t : table) (m : Manager) : Manager :=
  let rows := store_List "" t in
  let m := foldl (fun m rec => snd (Upsert dial rec m)) m rows in
  drop_unseen (map sr_ID rows) m.

Definition org_mismatch (orgID : string) (st : clientState) : bool :=
  negb (String.eqb orgID "") && negb (String.eqb (sr_OrgID (st_record st)) "") &&
  negb (String.eqb (sr_OrgID (st_record st)) orgID).

Definition key_refused (virtualKeyID : string) (st : clientState) : bool :=
  match st_spec st with
  | Some s => negb (String.eqb virtualKeyID "") && negb (AllowsVirtualKey s virtualKeyID)
  | None => false
  end.

Definition with_risk (t : MCPTool) : MCPTool := mkTool (tl_Name t) (tl_Description t) (ClassifyToolRisk (tl_Name t)).

Definition shown_tools (st : clientState) : list MCPTool :=
  map with_risk (filter (fun t => AllowsTool (st_spec st) (tl_Name t) = true) (st_tools st)).

Definition statusFrom (st : clientState) : ServerStatus :=
  mkStatus (st_record st) (match st_spec st with Some s => ConnectionType s | None => "" end) (st_state st)
    (shown_tools st) (st_lastError st).

Definition status_le (a b : ServerStatus) : Prop := String.le (sr_Name (ss_Record a)) (sr_Name (ss_Record b)).
#[local] Instance status_le_dec : RelDecision status_le.
Proof. intros a b. unfold status_le. apply _. Defined.

(** [sort.Slice] is not stable: servers of one name keep some order. *)
Definition ListServers (orgID virtualKeyID : string) (m : Manager) : list ServerStatus :=
  merge_sort status_le
    (map statusFrom
       (filter (fun st => org_mismatch orgID st = false ∧ key_refused virtualKeyID st = false ∧ sr_Enabled (st_record st) = true)
          (map_to_list (m_clients m)).*2)).

Definition ListAllServers (orgID : string) (m : Manager) : list ServerStatus :=
  merge_sort status_le
    (map statusFrom (filter (fun st => org_mismatch orgID st = false) (map_to_list (m_clients m)).*2)).

Inductive mcp_err := ENotFound | EKeyNotAllowed | EToolNotAllowed | EMessage (e : string).

Definition getAllowed (orgID serverID virtualKeyID : string) (m : Manager) : res mcp_err clientState :=
  match m_clients m !! serverID with
  | None => Err ENotFound
  | Some st =>
      if org_mismatch orgID st then Err ENotFound
      else if key_refused virtualKeyID st then Err EKeyNotAllowed
      else Ok st
  end.

Definition not_ready (st : clientState) : bool :=
  negb (String.eqb (st_state st) "healthy") || match st_cli st with None => true | Some _ => false end.

Definition not_ready_err (st : clientState) : mcp_err :=
  EMessage ("mcp server " +:+ Quote IsPrint (sr_Name (st_record st)) +:+ " is " +:+ st_state st).

Definition ListTools (orgID serverID virtualKeyID : string) (m : Manager) : res mcp_err (list MCPTool) :=
  match getAllowed orgID serverID virtualKeyID m with
  | Err e => Err e
  | Ok st => if not_ready st then Err (not_ready_err st) else Ok (shown_tools st)
  end.

Definition mcp_firstNonEmpty (vals : list string) : string :=
  default "" (snd <$> list_find (fun v => TrimSpace v ≠ "") vals).

(** What the connected server answers: an error, or a result. *)
Inductive upstream := UFailed (e : string) | UResult (is_error : bool) (content raw : string).

(** A call as it goes out: the connection, the tool, the arguments and the
    deadline. *)
Record outgoing := mkOutgoing { og_cli : nat; og_tool : string; og_args : string; og_timeout : Z }.

(** The log entry of a call; the log bridge hands it to the recorders. *)
Definition tool_log (now : Time) (latency : Z) (st : clientState) (cc : CallContext) (req : CallRequest) (u : upstream) : MCPLog :=
  let status := match u with UFailed _ => "error" | UResult true _ _ => "error" | UResult false _ _ => "success" end in
  mkMCPLog ("mcplog_" +:+ pretty (wrap64 now)) now (cc_OrgID cc) (cc_UserID cc) (cc_VirtualKeyID cc)
    (sr_ID (st_record st)) (sr_Name (st_record st)) (cr_Name req) status latency fzero
    (mcp_firstNonEmpty [cr_LLMTraceID req; cc_LLMTraceID cc]) (mcp_firstNonEmpty [cr_SessionID req; cc_SessionID cc])
    (mcp_firstNonEmpty [cr_TurnID req; cc_TurnID cc]) (cc_RequestID cc) (cr_Arguments req)
    (match u with UResult _ _ raw => raw | UFailed _ => "" end) (match u with UFailed e => e | _ => "" end) "".

(** The result, its error, what went out and what was logged; [None] is the nil
    dereference of a missing specification.  The read lock is let go between the
    look-up of the connection and the call on it; here they are one step, and a log
    sink is wired. *)
Definition CallTool (now : Time) (latency : Z) (call : outgoing → upstream) (orgID serverID : string) (cc : CallContext)
    (req : CallRequest) (m : Manager) : option (option CallResult * option mcp_err * list outgoing * list MCPLog) :=
  match getAllowed orgID serverID (cc_VirtualKeyID cc) m with
  | Err e => Some (None, Some e, [], [])
  | Ok st =>
      if not_ready st then Some (None, Some (not_ready_err st), [], [])
      else if String.eqb (TrimSpace (cr_Name req)) "" then Some (None, Some (EMessage "tool name is required"), [], [])
      else if negb (AllowsTool (st_spec st) (cr_Name req)) then Some (None, Some EToolNotAllowed, [], [])
      else match st_spec st, st_cli st with
           | Some spec, Some cli =>
               let o := mkOutgoing cli (cr_Name req) (cr_Arguments req) (Timeout spec) in
               let u := call o in
               let result := match u with
                             | UFailed _ => mkCallResult "" false "" latency
                             | UResult ie content raw => mkCallResult content ie raw latency
                             end in
               Some (Some result, match u with UFailed e => Some (EMessage e) | _ => None end, [o],
                     [tool_log now latency st cc req u])
           | _, _ => None
           end
  end.

(** [TestConnection]. *)
Definition TestConnection (dial : ServerSpec → dialed) (t : table) (id : string) (m : Manager) : res string nat * Manager :=
  match Reconnect dial t id m with
  | (Some e, m') => (Err e, m')
  | (None, m') =>
      match m_clients m' !! id with
      | None => (Err "mcp: server not found", m')
      | Some st => (Ok (length (st_tools st)), m')
      end
  end.

(** ** The gateway's routes (gateway/mcp.go) *)

Definition writeMCPError (e : mcp_err) : Z * string :=
  match e with
  | ENotFound => (404, "mcp_not_found")
  | EToolNotAllowed => (403, "forbidden")
  | EKeyNotAllowed => (403, "forbidden")
  | EMessage s => if Contains s "virtual key not allowed" then (403, "forbidden") else (502, "mcp_error")
  end.

Inductive mcp_reply :=
| MError (status : Z) (code : string)
| MServers (l : list ServerStatus)
| MTools (l : list MCPTool)
| MResult (r : CallResult)
| MBadGateway (e : string) (r : CallResult)
| MPanic.

(** The caller, as the gate put it into the context. *)
Record caller := mkCaller { ca_org : string; ca_user : string; ca_vkey : string; ca_request : string }.

Definition MCPServers (m : option Manager) (c : caller) : mcp_reply :=
  match m with
  | None => MError 503 "mcp_disabled"
  | Some m => MServers (ListServers (ca_org c) (ca_vkey c) m)
  end.

Definition MCPListTools (m : option Manager) (c : caller) (serverID : string) : mcp_reply :=
  match m with
  | None => MError 503 "mcp_disabled"
  | Some m =>
      match ListTools (ca_org c) serverID (ca_vkey c) m with
      | Err e => let '(s, k) := writeMCPError e in MError s k
      | Ok l => MTools l
      end
  end.

(** [body] is the decoded request, if it decodes. *)
Definition MCPCallTool (now : Time) (latency : Z) (call : outgoing → upstream) (m : option Manager) (c : caller)
    (serverID : string) (body : option CallRequest) : mcp_reply * list outgoing * list MCPLog :=
  match m with
  | None => (MError 503 "mcp_disabled", [], [])
  | Some m =>
      match body with
      | None => (MError 400 "invalid_request", [], [])
      | Some req =>
          let cc := mkCallContext (ca_org c) (ca_user c) (ca_vkey c) (ca_request c) "" "" "" in
          match CallTool now latency call (cc_OrgID cc) serverID cc req m with
          | None => (MPanic, [], [])
          | Some (result, err, out, logs) =>
              (match err, result with
               | Some (EMessage e), Some r => MBadGateway e r
               | Some e, _ => let '(s, k) := writeMCPError e in MError s k
               | None, Some r => MResult r
               | None, None => MPanic
               end, out, logs)
          end
      end
  end.

(** ** Administration (console/mcp.go)

    The routes are for administrators; [org] is the caller's organisation and the
    store and the manager are wired. *)

Record admin_state := mkAdmin {
  ad_table : table; ad_manager : Manager; ad_settings : gmap string OrgSettings; ad_audit : list (string * string * string)
}.

Definition normalizeMCPOrg (org : string) : string :=
  if String.eqb (TrimSpace org) "" || String.eqb org DefaultOrgID then "" else org.

Definition mcpServerByIDForOrg (org id : string) (t : table) : option ServerRecord :=
  match store_Get id t with
  | None => None
  | Some rec =>
      if negb (String.eqb (sr_OrgID rec) "") && negb (String.eqb (normalizeMCPOrg (sr_OrgID rec)) (normalizeMCPOrg org))
      then None else Some rec
  end.

(** The decoded body; a field that is absent has its zero value. *)
Record mcpServerBody := mkServerBody { sb_Name : string; sb_SpecYAML : string; sb_Enabled : bool }.

Definition save_and_connect (dial : ServerSpec → dialed) (uuid : string) (now : Time) (actor org action : string)
    (rec : ServerRecord) (ok : Z) (s : admin_state) : Z * admin_state :=
  match Save uuid now rec (ad_table s) with
  | Err _ => (500, s)
  | Ok (rec, t) =>
      (ok, mkAdmin t (snd (Upsert dial rec (ad_manager s))) (ad_settings s) (ad_audit s ++ [(actor, org, action)])%list)
  end.

Definition createMCPServer (dial : ServerSpec → dialed) (uuid : string) (now : Time) (actor org : string)
    (body : option mcpServerBody) (s : admin_state) : Z * admin_state :=
  match body with
  | None => (400, s)
  | Some b =>
      match DecodeSpec (sb_SpecYAML b) with
      | Err _ => (400, s)
      | Ok _ =>
          save_and_connect dial uuid now actor org "mcp.server.create"
            (mkServerRecord "" (normalizeMCPOrg org) (sb_Name b) (sb_SpecYAML b) (sb_Enabled b) zero_time zero_time) 201 s
      end
  end.

Definition patchMCPServer (dial : ServerSpec → dialed) (uuid : string) (now : Time) (actor org id : string)
    (body : option mcpServerBody) (s : admin_state) : Z * admin_state :=
  match mcpServerByIDForOrg org id (ad_table s) with
  | None => (404, s)
  | Some rec =>
      match body with
      | None => (400, s)
      | Some b =>
          let name := if String.eqb (TrimSpace (sb_Name b)) "" then sr_Name rec else sb_Name b in
          let save spec :=
            save_and_connect dial uuid now actor org "mcp.server.update"
              (mkServerRecord (sr_ID rec) (sr_OrgID rec) name spec (sb_Enabled b) (sr_CreatedAt rec) (sr_UpdatedAt rec)) 200 s in
          if String.eqb (TrimSpace (sb_SpecYAML b)) "" then save (sr_SpecYAML rec)
          else match DecodeSpec (sb_SpecYAML b) with
               | Err _ => (400, s)
               | Ok _ => save (sb_SpecYAML b)
               end
      end
  end.

Definition deleteMCPServer (actor org id : string) (s : admin_state) : Z * admin_state :=
  match mcpServerByIDForOrg org id (ad_table s) with
  | None => (404, s)
  | Some rec =>
      (204, mkAdmin (store_Delete id (ad_table s)) (Remove id (ad_manager s)) (ad_settings s)
              (ad_audit s ++ [(actor, org, "mcp.server.delete")])%list)
  end.

Definition reconnectMCPServer (dial : ServerSpec → dialed) (actor org id : string) (s : admin_state) : Z * admin_state :=
  match mcpServerByIDForOrg org id (ad_table s) with
  | None => (404, s)
  | Some _ =>
      match Reconnect dial (ad_table s) id (ad_manager s) with
      | (Some _, m) => (502, mkAdmin (ad_table s) m (ad_settings s) (ad_audit s))
      | (None, m) => (200, mkAdmin (ad_table s) m (ad_settings s) (ad_audit s ++ [(actor, org, "mcp.server.reconnect")])%list)
      end
  end.

Definition testMCPServer (dial : ServerSpec → dialed) (actor org id : string) (s : admin_state) : Z * admin_state :=
  match mcpServerByIDForOrg org id (ad_table s) with
  | None => (404, s)
  | Some _ =>
      match TestConnection dial (ad_table s) id (ad_manager s) with
      | (Err _, m) => (200, mkAdmin (ad_table s) m (ad_settings s) (ad_audit s))
      | (Ok _, m) => (200, mkAdmin (ad_table s) m (ad_settings s) (ad_audit s ++ [(actor, org, "mcp.server.test")])%list)
      end
  end.

Definition listMCPServers (org : string) (s : admin_state) : list ServerRecord * list ServerStatus :=
  (store_List org (ad_table s), ListAllServers (normalizeMCPOrg org) (ad_manager s)).

Definition patchMCPSettings (actor org : string) (timeoutMs : option Z) (sticky : option bool) (s : admin_state) : Z * admin_state :=
  match settings_Upsert org timeoutMs sticky (ad_settings s) with
  | Err _ => (400, s)
  | Ok (_, t) => (200, mkAdmin (ad_table s) (ad_manager s) t (ad_audit s ++ [(actor, org, "mcp.settings.update")])%list)
  end.

End with_yaml.
