(* ===== verification/McpProps.v ===== *)
(** * McpProps: who may call which tool, and what the manager keeps open *)

From stdpp Require Import sorting pretty.
From S2P Require Import Prelude GoString Float64 GoTime Json Net CoreStore Metrics Recorders Mcp.
Local Open Scope string_scope.
Local Open Scope Z_scope.

Section spec.
Context (unmarshal : string → res string ServerSpec) (IsPrint : string → bool).
#[local] Abbreviation decode := (DecodeSpec unmarshal).

(** ** The manager with connections in flight *)

Record world := mkWorld { w_m : Manager; w_pending : list (ServerRecord * ServerSpec) }.

(** The lock is held within a step: an enabled server starts connecting, a dial
    that was started ends, a server is disabled or removed. *)
Inductive wstep : world → world → Prop :=
| w_begin rec spec m' w : sr_Enabled rec = true → connect_begin unmarshal rec (w_m w) = (Ok spec, m') →
    wstep w (mkWorld m' ((rec, spec) :: w_pending w))
| w_reject rec e m' w : sr_Enabled rec = true → connect_begin unmarshal rec (w_m w) = (Err e, m') →
    wstep w (mkWorld m' (w_pending w))
| w_end rec spec d l1 l2 w : w_pending w = (l1 ++ (rec, spec) :: l2)%list →
    wstep w (mkWorld (snd (connect_end rec spec d (w_m w))) (l1 ++ l2)%list)
| w_disable rec w : sr_Enabled rec = false → wstep w (mkWorld (setDisabled unmarshal rec (w_m w)) (w_pending w))
| w_remove id w : wstep w (mkWorld (Remove id (w_m w)) (w_pending w)).

Definition init : world := mkWorld NewManager [].

(** A server with a connection is enabled, healthy and specified, and its connection
    is open and its own. *)
Definition entry_ok (m : Manager) (id : string) (st : clientState) : Prop :=
  sr_ID (st_record st) = id ∧
  (st_state st = "healthy" → is_Some (st_cli st)) ∧
  (∀ n, st_cli st = Some n →
     st_state st = "healthy" ∧ is_Some (st_spec st) ∧ sr_Enabled (st_record st) = true ∧
     n ∈ open_clients m ∧ (n < m_next m)%nat ∧
     ∀ id' st', m_clients m !! id' = Some st' → st_cli st' = Some n → id' = id).

Definition winv (w : world) : Prop :=
  (∀ id st, m_clients (w_m w) !! id = Some st → entry_ok (w_m w) id st) ∧
  (∀ n, n ∈ open_clients (w_m w) → (n < m_next (w_m w))%nat) ∧
  Forall (fun p => sr_Enabled p.1 = true) (w_pending w).

(** The entry of [id] is replaced by one without a connection and its old
    connection is closed. *)
Lemma replace_ok m id st :
  (∀ id st, m_clients m !! id = Some st → entry_ok m id st) →
  sr_ID (st_record st) = id → st_cli st = None → st_state st ≠ "healthy" →
  ∀ id' st', <[id := st]> (m_clients m) !! id' = Some st' →
    entry_ok (mkManager (<[id := st]> (m_clients m)) (close_cli (cli_of id m) (open_clients m)) (m_next m)) id' st'.
Proof.
  intros Hm Hid Hcli Hst id' st'. rewrite lookup_insert. case_decide as E.
  - intros [= <-]. subst id'. split_and!; [done|done|congruence].
  - intros H. destruct (Hm _ _ H) as (H1 & H2 & H3). split_and!; [done..|]. intros n Hn.
    destruct (H3 n Hn) as (H4 & H5 & H6 & H7 & H8 & H9). cbn [m_clients open_clients m_next]. split_and!; [done..| |done|].
    + unfold close_cli. destruct (cli_of id m) as [k|] eqn:Ek; [|done]. apply elem_of_difference. split; [done|].
      rewrite elem_of_singleton. intros ->. unfold cli_of in Ek. apply bind_Some in Ek as (st0 & Hst0 & Hk).
      by pose proof (H9 _ _ Hst0 Hk).
    + intros i st0. rewrite lookup_insert. case_decide as Ed; [intros [= <-]; congruence|]. apply H9.
Qed.

(** The same for an entry that had no connection. *)
Lemma replace_idle_ok m id st :
  (∀ id st, m_clients m !! id = Some st → entry_ok m id st) →
  sr_ID (st_record st) = id → st_cli st = None → st_state st ≠ "healthy" → 
  ∀ id' st', <[id := st]> (m_clients m) !! id' = Some st' →
    entry_ok (mkManager (<[id := st]> (m_clients m)) (open_clients m) (m_next m)) id' st'.
Proof.
  intros Hm Hid Hcli Hst id' st'. rewrite lookup_insert. case_decide as E.
  - intros [= <-]. subst id'. split_and!; [done|done|congruence].
  - intros H. destruct (Hm _ _ H) as (H1 & H2 & H3). split_and!; [done..|]. intros n Hn.
    destruct (H3 n Hn) as (H4 & H5 & H6 & H7 & H8 & H9). split_and!; [done..|].
    intros i st0. cbn [m_clients]. rewrite lookup_insert. case_decide as Ed; [intros [= <-]; congruence|]. apply H9.
Qed.

Lemma close_sub c s n : n ∈ close_cli c s → n ∈ s.
Proof. unfold close_cli. destruct c; set_solver. Qed.

Lemma connected_ok m rec spec tools :
  (∀ id st, m_clients m !! id = Some st → entry_ok m id st) →
  (∀ n, n ∈ open_clients m → (n < m_next m)%nat) → sr_Enabled rec = true →
  let m' := snd (connect_end rec spec (Connected tools) m) in
  ∀ id st, m_clients m' !! id = Some st → entry_ok m' id st.
Proof.
  intros Hm Ho He m' id st. subst m'. cbn [connect_end snd m_clients]. rewrite lookup_insert. case_decide as E.
  - intros [= <-]. subst id. split_and!; [done|by eexists|]. cbn [st_cli]. intros n [= <-].
    cbn [st_state st_spec st_record open_clients m_next m_clients]. split_and!; [done|by eexists|done|set_solver|lia|].
    intros id' st'. rewrite lookup_insert. case_decide as Ed; [done|]. intros H Hc.
    destruct (Hm _ _ H) as (_ & _ & H3). destruct (H3 _ Hc) as (_ & _ & _ & Hin & Hlt & _). lia.
  - intros H. destruct (Hm _ _ H) as (H1 & H2 & H3). split_and!; [done..|]. intros n Hn.
    destruct (H3 n Hn) as (H4 & H5 & H6 & H7 & H8 & H9). cbn [open_clients m_next m_clients].
    split_and!; [done|done|done|set_solver|lia|]. intros i st0. rewrite lookup_insert. case_decide as Ed; [|apply H9].
    intros [= <-]. cbn [st_cli]. intros [= Hx]. lia.
Qed.

Lemma winv_step w w' : wstep w w' → winv w → winv w'.
Proof.
  intros Hs (Hm & Ho & Hp). destruct Hs as [rec spec m' w He Hb|rec e m' w He Hb|rec spec d l1 l2 w Hpe|rec w He|id w].
  - unfold connect_begin in Hb. destruct (decode (sr_SpecYAML rec)); [|done]. injection Hb as <- <-.
    split_and!; cbn [w_m w_pending]; [|by intros n ?%close_sub; apply Ho|by constructor].
    by apply replace_ok.
  - unfold connect_begin in Hb. destruct (decode (sr_SpecYAML rec)); [done|]. injection Hb as <- <-.
    split_and!; cbn [w_m w_pending]; [|done|done]. by apply replace_idle_ok.
  - rewrite Hpe in Hp. apply Forall_app in Hp as [Hp1 Hp2]. inversion Hp2 as [|? ? He Hp3]; subst. cbn [fst] in He.
    assert (Forall (fun p : ServerRecord * ServerSpec => sr_Enabled p.1 = true) (l1 ++ l2)) as Hpl by by apply Forall_app.
    destruct d as [e|e|tools]; (split_and!; cbn [w_m w_pending]; [..|done]).
    all: try (by apply connected_ok).
    all: cbn [connect_end snd markError open_clients m_next m_clients]; try done.
    + by apply replace_idle_ok.
    + apply (replace_idle_ok (mkManager (m_clients (w_m w)) (open_clients (w_m w)) (S (m_next (w_m w))))); try done.
      intros i st H. destruct (Hm _ _ H) as (H1 & H2 & H3). split_and!; [done..|]. intros n Hn.
      destruct (H3 n Hn) as (H4 & H5 & H6 & H7 & H8 & H9). cbn [m_next m_clients open_clients]. split_and!; try done. lia.
    + intros n Hn. specialize (Ho n Hn). lia.
    + intros n Hn. apply elem_of_union in Hn as [->%elem_of_singleton|Hn]; [lia|]. specialize (Ho n Hn). lia.
  - split_and!; cbn [w_m w_pending]; [|by intros n ?%close_sub; apply Ho|done]. by apply replace_ok.
  - unfold Remove. destruct (m_clients (w_m w) !! id) as [st|] eqn:E; [|by split_and!].
    split_and!; cbn [w_m w_pending m_clients open_clients m_next]; [|by intros n ?%close_sub; apply Ho|done].
    intros i st'. rewrite lookup_delete_Some. intros [Hne H]. destruct (Hm _ _ H) as (H1 & H2 & H3).
    split_and!; [done..|]. intros n Hn. destruct (H3 n Hn) as (H4 & H5 & H6 & H7 & H8 & H9).
    cbn [m_clients open_clients m_next]. split_and!; [done..| |done|].
    + unfold close_cli. destruct (st_cli st) as [k|] eqn:Ek; [|done]. apply elem_of_difference. split; [done|].
      rewrite elem_of_singleton. intros ->. by pose proof (H9 _ _ E Ek).
    + intros i' st0 [_ H0]%lookup_delete_Some. by apply H9.
Qed.

Lemma winv_reachable w : rtc wstep init w → winv w.
Proof.
  intros H. assert (∀ w w', rtc wstep w w' → winv w → winv w') as Hr.
  { induction 1; [done|]. eauto using winv_step. }
  eapply Hr; [exact H|]. split_and!; cbn; [by intros ? ?; rewrite lookup_empty|set_solver|constructor].
Qed.

(** ** Calls *)

(** A caller of organisation [org] and key [vk] may use the server of [st]. *)
Definition may_use (org vk : string) (st : clientState) : Prop :=
  (org = "" ∨ sr_OrgID (st_record st) = "" ∨ sr_OrgID (st_record st) = org) ∧
  (∀ s, st_spec st = Some s → vk ≠ "" → sp_AllowedVirtualKeyIDs s = [] ∨ vk ∈ sp_AllowedVirtualKeyIDs s).

Lemma existsb_eqb x l : existsb (String.eqb x) l = true ↔ x ∈ l.
Proof.
  clear unmarshal IsPrint.
  rewrite existsb_exists. split.
  - intros (y & Hin & E%String.eqb_eq). subst. by apply list_elem_of_In.
  - intros Hin. exists x. split; [by apply list_elem_of_In|apply String.eqb_refl].
Qed.

Lemma allows_key s vk : AllowsVirtualKey s vk = true ↔ sp_AllowedVirtualKeyIDs s = [] ∨ vk ∈ sp_AllowedVirtualKeyIDs s.
Proof.
  clear unmarshal IsPrint.
  unfold AllowsVirtualKey. destruct (sp_AllowedVirtualKeyIDs s) as [|x l]; [naive_solver|].
  rewrite existsb_eqb. naive_solver.
Qed.

Lemma org_mismatch_false org st :
  org_mismatch org st = false ↔ org = "" ∨ sr_OrgID (st_record st) = "" ∨ sr_OrgID (st_record st) = org.
Proof.
  clear unmarshal IsPrint.
  unfold org_mismatch. destruct (String.eqb_spec org ""), (String.eqb_spec (sr_OrgID (st_record st)) ""),
    (String.eqb_spec (sr_OrgID (st_record st)) org); cbn [negb andb]; intuition congruence.
Qed.

Lemma key_refused_false vk st :
  key_refused vk st = false ↔
  ∀ s, st_spec st = Some s → vk ≠ "" → sp_AllowedVirtualKeyIDs s = [] ∨ vk ∈ sp_AllowedVirtualKeyIDs s.
Proof.
  clear unmarshal IsPrint.
  unfold key_refused. destruct (st_spec st) as [s|]; [|naive_solver].
  rewrite andb_false_iff, !negb_false_iff, allows_key. destruct (String.eqb_spec vk ""); split.
  - intros _ s' _ ?. done.
  - by left.
  - intros [?|H] s' [= <-] _; [done|exact H].
  - intros H. right. by apply H.
Qed.

Lemma getAllowed_Ok org id vk m st :
  getAllowed org id vk m = Ok st ↔ m_clients m !! id = Some st ∧ may_use org vk st.
Proof.
  unfold getAllowed, may_use. rewrite <- org_mismatch_false, <- key_refused_false.
  destruct (m_clients m !! id) as [st'|]; [|by split; [|intros [? _]]].
  destruct (org_mismatch org st') eqn:E1; [by split; [|intros ([= ->] & ? & _); congruence]|].
  destruct (key_refused vk st') eqn:E2; [by split; [|intros ([= ->] & _ & ?); congruence]|].
  split; [by intros [= ->]|by intros ([= ->] & _)].
Qed.

Lemma ready_spec w st id :
  winv w → m_clients (w_m w) !! id = Some st → not_ready st = false →
  ∃ spec cli, st_spec st = Some spec ∧ st_cli st = Some cli ∧ cli ∈ open_clients (w_m w) ∧ sr_Enabled (st_record st) = true.
Proof.
  intros (Hm & _) H Hr. destruct (Hm _ _ H) as (_ & _ & H3). unfold not_ready in Hr.
  destruct (st_cli st) as [n|]; [|by rewrite orb_true_r in Hr].
  destruct (H3 n eq_refl) as (_ & [spec Hs] & He & Ho & _). by exists spec, n.
Qed.

(** What [CallTool] does, on every branch, in a reachable state. *)
Lemma CallTool_cases now latency call org id cc req w :
  winv w →
  (∃ e, CallTool IsPrint now latency call org id cc req (w_m w) = Some (None, Some e, [], [])) ∨
  (∃ st spec cli,
     m_clients (w_m w) !! id = Some st ∧ may_use org (cc_VirtualKeyID cc) st ∧ not_ready st = false ∧
     st_spec st = Some spec ∧ st_cli st = Some cli ∧ cli ∈ open_clients (w_m w) ∧ sr_Enabled (st_record st) = true ∧
     TrimSpace (cr_Name req) ≠ "" ∧ AllowsTool (Some spec) (cr_Name req) = true ∧
     let o := mkOutgoing cli (cr_Name req) (cr_Arguments req) (Timeout spec) in
     CallTool IsPrint now latency call org id cc req (w_m w) =
       Some (Some (match call o with UFailed _ => mkCallResult "" false "" latency
                   | UResult ie content raw => mkCallResult content ie raw latency end),
             match call o with UFailed e => Some (EMessage e) | _ => None end, [o],
             [tool_log now latency st cc req (call o)])).
Proof.
  intros Hw. unfold CallTool. destruct (getAllowed org id (cc_VirtualKeyID cc) (w_m w)) as [st|e] eqn:Hg; [|by left; eexists].
  apply getAllowed_Ok in Hg as [Hst Hu]. destruct (not_ready st) eqn:Hr; [by left; eexists|].
  destruct (ready_spec w st id Hw Hst Hr) as (spec & cli & Hs & Hc & Ho & He).
  destruct (String.eqb_spec (TrimSpace (cr_Name req)) ""); [by left; eexists|]. rewrite Hs.
  destruct (AllowsTool (Some spec) (cr_Name req)) eqn:Ha; [|by left; eexists]. cbn [negb]. rewrite Hc.
  right. exists st, spec, cli. by split_and!.
Qed.

(** ** Properties *)

(** [C20] A tool call reaches a server only when it may: whatever connections are being
    made meanwhile, a call goes out only over an open connection of an enabled
    server of the caller's organisation or of the cluster, for a key its
    specification admits and a tool on its list, with a positive deadline; then
    there is one entry in the log, under the caller's organisation, user and key.
    Otherwise nothing goes out, nothing is logged, and an error is returned; no
    call panics. *)
Theorem tool_calls_authorized (w : world) (now : Time) (latency : Z) (call : outgoing → upstream)
    (org id : string) (cc : CallContext) (req : CallRequest) :
  rtc wstep init w →
  ∃ result err out logs,
    CallTool IsPrint now latency call org id cc req (w_m w) = Some (result, err, out, logs) ∧
    ((result = None ∧ is_Some err ∧ out = [] ∧ logs = []) ∨
     ∃ st spec o l, out = [o] ∧ logs = [l] ∧ is_Some result ∧
       m_clients (w_m w) !! id = Some st ∧ may_use org (cc_VirtualKeyID cc) st ∧ sr_Enabled (st_record st) = true ∧
       st_spec st = Some spec ∧ AllowsTool (Some spec) (og_tool o) = true ∧ og_tool o = cr_Name req ∧
       og_cli o ∈ open_clients (w_m w) ∧ 0 < og_timeout o ∧
       ml_OrgID l = cc_OrgID cc ∧ ml_UserID l = cc_UserID cc ∧ ml_VirtualKeyID l = cc_VirtualKeyID cc ∧
       ml_ServerID l = id).
Proof.
  intros Hr. pose proof (winv_reachable w Hr) as Hw.
  destruct (CallTool_cases now latency call org id cc req w Hw)
    as [[e He]|(st & spec & cli & Hst & Hu & _ & Hs & Hc & Ho & Hen & _ & Ha & He)].
  - repeat eexists; [exact He|]. left. by split_and!.
  - cbn zeta in He. do 4 eexists. split; [exact He|]. right. do 4 eexists.
    split_and!; try reflexivity; try done.
    + cbn [og_timeout]. unfold Timeout. destruct (Z.ltb_spec 0 (sp_TimeoutMs spec)); lia.
    + cbn [ml_ServerID tool_log]. destruct Hw as (Hm & _). by destruct (Hm _ _ Hst).
Qed.

(** The tools a caller is shown are the discovered ones a call would go out for:
    of the discovered tools with a name, one is listed exactly when calling it is
    not refused. *)
Theorem listed_tools_callable (w : world) (now : Time) (latency : Z) (call : outgoing → upstream)
    (org id : string) (cc : CallContext) (req : CallRequest) (l : list MCPTool) (st : clientState) :
  rtc wstep init w → m_clients (w_m w) !! id = Some st →
  ListTools IsPrint org id (cc_VirtualKeyID cc) (w_m w) = Ok l →
  cr_Name req ∈ map tl_Name (st_tools st) → TrimSpace (cr_Name req) ≠ "" →
  (cr_Name req ∈ map tl_Name l ↔
   ∃ result err o logs, CallTool IsPrint now latency call org id cc req (w_m w) = Some (Some result, err, [o], logs)).
Proof.
  intros Hr Hst Hl Hin Hname. pose proof (winv_reachable w Hr) as Hw. unfold ListTools in Hl.
  destruct (getAllowed org id (cc_VirtualKeyID cc) (w_m w)) as [st'|] eqn:Hg; [|done].
  pose proof Hg as Hg'. apply getAllowed_Ok in Hg' as [Hst' Hu]. rewrite Hst in Hst'. injection Hst' as <-.
  destruct (not_ready st) eqn:Hn; [done|]. injection Hl as <-.
  destruct (ready_spec w st id Hw Hst Hn) as (spec & cli & Hs & Hc & _).
  assert (cr_Name req ∈ map tl_Name (shown_tools st) ↔ AllowsTool (st_spec st) (cr_Name req) = true) as ->.
  { unfold shown_tools. rewrite map_map. cbn [tl_Name with_risk].
    rewrite !list_elem_of_In, !in_map_iff in *. destruct Hin as (t & Ht & Hin). split.
    - intros (t' & <- & H%list_elem_of_In). by apply list_elem_of_filter in H as [? _].
    - intros Ha. exists t. split; [done|]. apply list_elem_of_In, list_elem_of_filter. rewrite Ht. split; [done|].
      by apply list_elem_of_In. }
  unfold CallTool. rewrite Hg, Hn. destruct (String.eqb_spec (TrimSpace (cr_Name req)) ""); [done|].
  rewrite Hs, Hc. destruct (AllowsTool (Some spec) (cr_Name req)); cbn [negb].
  - split; [intros _; by repeat eexists|done].
  - split; [done|]. intros (? & ? & ? & ? & [=]).
Qed.

Lemma elem_of_statuses org vk m s :
  s ∈ ListServers org vk m →
  ∃ id st, m_clients m !! id = Some st ∧ s = statusFrom st ∧ may_use org vk st ∧ sr_Enabled (st_record st) = true.
Proof.
  unfold ListServers. rewrite merge_sort_Permutation, list_elem_of_In, in_map_iff.
  intros (st & <- & Hin%list_elem_of_In). apply list_elem_of_filter in Hin as [(H1 & H2 & H3) Hin].
  apply list_elem_of_fmap in Hin as ([id st'] & -> & Hin%elem_of_map_to_list). exists id, st'. split_and!; [done..| |done].
  split; [by apply org_mismatch_false|by apply key_refused_false].
Qed.

(** The servers listed for a caller are enabled ones the caller may use, and the
    tools shown of each are on its list. *)
Theorem listed_servers_usable (m : Manager) (org vk : string) (s : ServerStatus) :
  s ∈ ListServers org vk m →
  sr_Enabled (ss_Record s) = true ∧
  (org = "" ∨ sr_OrgID (ss_Record s) = "" ∨ sr_OrgID (ss_Record s) = org) ∧
  ∃ id st, m_clients m !! id = Some st ∧ ss_Record s = st_record st ∧ may_use org vk st ∧
    Forall (fun t => AllowsTool (st_spec st) (tl_Name t) = true) (ss_Tools s).
Proof.
  intros (id & st & H & -> & Hu & He)%elem_of_statuses. cbn [statusFrom ss_Record ss_Tools].
  split_and!; [done|by destruct Hu|]. exists id, st. split_and!; [done..|].
  unfold shown_tools. apply Forall_forall. intros t. rewrite list_elem_of_In, in_map_iff.
  intros (t' & <- & Hin%list_elem_of_In). by apply list_elem_of_filter in Hin as [? _].
Qed.

(** ** Interleavings *)

(** A server removed while its connection is being made comes back when the dial
    ends, and stays callable though its row is gone. *)
Theorem removed_server_returns (w : world) (rec : ServerRecord) (spec : ServerSpec) (m1 : Manager) (tools : list MCPTool) :
  rtc wstep init w → sr_Enabled rec = true →
  connect_begin unmarshal rec (w_m w) = (Ok spec, m1) →
  let w' := mkWorld (snd (connect_end rec spec (Connected tools) (Remove (sr_ID rec) m1))) (w_pending w) in
  rtc wstep init w' ∧
  ∃ st, m_clients (w_m w') !! sr_ID rec = Some st ∧ st_state st = "healthy" ∧ is_Some (st_cli st).
Proof.
  intros Hr He Hb w'. split.
  - etrans; [exact Hr|]. eapply rtc_l; [by eapply w_begin|]. eapply rtc_l; [apply (w_remove (sr_ID rec))|].
    eapply rtc_l; [by apply (w_end rec spec (Connected tools) [] (w_pending w))|]. apply rtc_refl.
  - subst w'. cbn [w_m connect_end snd m_clients]. rewrite lookup_insert_eq. eexists. split_and!; [done|done|by eexists].
Qed.

(** Two connections made at the same time for one server leave an open client that
    no server refers to, and nothing closes it. *)
Theorem concurrent_connects_leak (w : world) (rec : ServerRecord) (spec : ServerSpec) (m1 m2 : Manager) (tools : list MCPTool) :
  rtc wstep init w → sr_Enabled rec = true →
  connect_begin unmarshal rec (w_m w) = (Ok spec, m1) → connect_begin unmarshal rec m1 = (Ok spec, m2) →
  ∃ w' n, rtc wstep init w' ∧ n ∈ open_clients (w_m w') ∧
    ∀ id st, m_clients (w_m w') !! id = Some st → st_cli st ≠ Some n.
Proof.
  intros Hr He Hb1 Hb2.
  set (m3 := snd (connect_end rec spec (Connected tools) m2)).
  set (m4 := snd (connect_end rec spec (Connected tools) m3)).
  assert (rtc wstep init (mkWorld m2 ((rec, spec) :: (rec, spec) :: w_pending w))) as Hr2.
  { etrans; [exact Hr|]. eapply rtc_l; [by eapply w_begin|]. eapply rtc_l; [by eapply w_begin|]. apply rtc_refl. }
  exists (mkWorld m4 (w_pending w)), (m_next m2). split_and!.
  - etrans; [exact Hr2|].
    eapply rtc_l; [by apply (w_end rec spec (Connected tools) [] ((rec, spec) :: w_pending w))|].
    eapply rtc_l; [by apply (w_end rec spec (Connected tools) [] (w_pending w))|]. apply rtc_refl.
  - cbn [w_m]. subst m4 m3. cbn [connect_end snd open_clients]. set_solver.
  - pose proof (winv_reachable _ Hr2) as (Hm & _ & _). intros id st. cbn [w_m]. subst m4 m3.
    cbn [connect_end snd m_clients m_next]. rewrite insert_insert_eq, lookup_insert. case_decide as Ed.
    + intros [= <-]. cbn [st_cli]. intros [=]. lia.
    + intros H Hc. destruct (Hm _ _ H) as (_ & _ & H3). destruct (H3 _ Hc) as (_ & _ & _ & _ & Hlt & _). cbn [w_m] in Hlt. lia.
Qed.

End spec.

(** ** Reload and the administration *)
Section admin.
Context (unmarshal : string → res string ServerSpec) (dial : ServerSpec → dialed).

(** Every operation of the manager is a run of its steps. *)
Lemma Upsert_steps rec w :
  rtc (wstep unmarshal) w (mkWorld (snd (Upsert unmarshal dial rec (w_m w))) (w_pending w)).
Proof.
  unfold Upsert. destruct (sr_Enabled rec) eqn:He; cbn [negb].
  - unfold connectServer. destruct (connect_begin unmarshal rec (w_m w)) as [[spec|e] m1] eqn:Hb; cbn [snd].
    + eapply rtc_l; [by eapply w_begin|].
      eapply rtc_l; [by apply (w_end _ rec spec (dial spec) [] (w_pending w))|]. apply rtc_refl.
    + eapply rtc_l; [by eapply w_reject|]. apply rtc_refl.
  - eapply rtc_l; [by apply w_disable|]. apply rtc_refl.
Qed.

Lemma upserts_steps rows w :
  rtc (wstep unmarshal) w
    (mkWorld (foldl (fun m rec => snd (Upsert unmarshal dial rec m)) (w_m w) rows) (w_pending w)).
Proof.
  revert w. induction rows as [|rec rows IH]; intros [m p]; [apply rtc_refl|]. cbn [foldl w_m w_pending].
  etrans; [apply (Upsert_steps rec (mkWorld m p))|]. apply (IH (mkWorld _ p)).
Qed.

Lemma removes_steps (seen ids : list string) w :
  rtc (wstep unmarshal) w
    (mkWorld (foldl (fun m id => if bool_decide (id ∈ seen) then m else Remove id m) (w_m w) ids) (w_pending w)).
Proof.
  revert w. induction ids as [|id ids IH]; intros [m p]; [apply rtc_refl|]. cbn [foldl w_m w_pending].
  destruct (bool_decide (id ∈ seen)); [apply (IH (mkWorld m p))|].
  eapply rtc_l; [apply (w_remove _ id)|]. apply (IH (mkWorld _ p)).
Qed.

Lemma Upsert_dom rec m : dom (m_clients (snd (Upsert unmarshal dial rec m))) = {[sr_ID rec]} ∪ dom (m_clients m).
Proof.
  unfold Upsert, connectServer, connect_begin, connect_end. destruct (sr_Enabled rec); cbn [negb snd];
    [|unfold setDisabled; cbn [m_clients]; by rewrite dom_insert_L].
  destruct (DecodeSpec unmarshal (sr_SpecYAML rec)) as [spec|e]; [|cbn; by rewrite dom_insert_L].
  destruct (dial spec); cbn [snd markError m_clients]; rewrite !dom_insert_L; set_solver.
Qed.

Lemma upserts_dom rows m :
  dom (m_clients (foldl (fun m rec => snd (Upsert unmarshal dial rec m)) m rows)) = list_to_set (map sr_ID rows) ∪ dom (m_clients m).
Proof.
  revert m. induction rows as [|rec rows IH]; intros m; cbn [foldl map list_to_set]; [set_solver|].
  rewrite IH, Upsert_dom. set_solver.
Qed.

Lemma Remove_dom id m : dom (m_clients (Remove id m)) = dom (m_clients m) ∖ {[id]}.
Proof.
  unfold Remove. destruct (m_clients m !! id) eqn:E; cbn [m_clients]; [by rewrite dom_delete_L|].
  apply not_elem_of_dom in E. set_solver.
Qed.

Lemma removes_dom (seen ids : list string) m :
  dom (m_clients (foldl (fun m id => if bool_decide (id ∈ seen) then m else Remove id m) m ids)) =
  dom (m_clients m) ∖ list_to_set (filter (fun id => id ∉ seen) ids).
Proof.
  revert m. induction ids as [|id ids IH]; intros m; cbn [foldl]; [rewrite filter_nil; set_solver|].
  rewrite filter_cons, IH. destruct (decide (id ∉ seen)) as [H|H].
  - rewrite bool_decide_false by done. rewrite Remove_dom. cbn [list_to_set]. set_solver.
  - rewrite bool_decide_true by (by destruct (decide (id ∈ seen))). done.
Qed.

(** After a reload the manager has exactly the servers of the table, each in a state
    reached by the manager's own steps. *)
Theorem reload_exact (t : table) (w : world) :
  rtc (wstep unmarshal) init w →
  dom (m_clients (Reload unmarshal dial t (w_m w))) = list_to_set (map sr_ID t) ∧
  rtc (wstep unmarshal) init (mkWorld (Reload unmarshal dial t (w_m w)) (w_pending w)).
Proof.
  intros Hr. unfold Reload, drop_unseen.
  assert (store_List "" t = t) as ->.
  { unfold store_List. induction t as [|r t IH]; [done|]. rewrite filter_cons, decide_True by by left. by rewrite IH. }
  set (m1 := foldl (fun m rec => snd (Upsert unmarshal dial rec m)) (w_m w) t). split.
  - rewrite removes_dom. assert (dom (m_clients m1) = list_to_set (map sr_ID t) ∪ dom (m_clients (w_m w))) as Hd by apply upserts_dom.
    assert (∀ id, id ∈ (map_to_list (m_clients m1)).*1 ↔ id ∈ dom (m_clients m1)) as Hk.
    { intros id. rewrite elem_of_dom, list_elem_of_fmap. split.
      - intros ([i st] & -> & H%elem_of_map_to_list). by exists st.
      - intros [st H]. exists (id, st). by rewrite elem_of_map_to_list. }
    apply set_eq. intros id. rewrite elem_of_difference, elem_of_list_to_set, list_elem_of_filter, Hk, elem_of_list_to_set.
    split.
    + intros [H1 H2]. destruct (decide (id ∈ map sr_ID t)); [done|]. exfalso. by apply H2.
    + intros H. split; [rewrite Hd; set_solver|]. intros [H2 _]. done.
  - etrans; [exact Hr|]. etrans; [apply (upserts_steps t w)|].
    apply (removes_steps (map sr_ID t) _ (mkWorld m1 (w_pending w))).
Qed.

Lemma foreign_not_found org id t rec :
  store_Get id t = Some rec → sr_OrgID rec ≠ "" → normalizeMCPOrg (sr_OrgID rec) ≠ normalizeMCPOrg org →
  mcpServerByIDForOrg org id t = None.
Proof.
  intros Hg H1 H2. unfold mcpServerByIDForOrg. rewrite Hg.
  destruct (String.eqb_spec (sr_OrgID rec) ""); [done|].
  destruct (String.eqb_spec (normalizeMCPOrg (sr_OrgID rec)) (normalizeMCPOrg org)); done.
Qed.

(** A server that belongs to an organisation is out of reach of the administrators
    of the others: changing, deleting, reconnecting and testing it answer "not
    found" and change nothing. *)
Theorem foreign_server_untouched (uuid : string) (now : Time) (actor org id : string) (body : option mcpServerBody)
    (s : admin_state) (rec : ServerRecord) :
  store_Get id (ad_table s) = Some rec → sr_OrgID rec ≠ "" →
  normalizeMCPOrg (sr_OrgID rec) ≠ normalizeMCPOrg org →
  patchMCPServer unmarshal dial uuid now actor org id body s = (404, s) ∧
  deleteMCPServer actor org id s = (404, s) ∧
  reconnectMCPServer unmarshal dial actor org id s = (404, s) ∧
  testMCPServer unmarshal dial actor org id s = (404, s).
Proof.
  intros Hg H1 H2. unfold patchMCPServer, deleteMCPServer, reconnectMCPServer, testMCPServer.
  by rewrite (foreign_not_found org id _ rec).
Qed.

Lemma normalize_default : normalizeMCPOrg DefaultOrgID = "".
Proof. reflexivity. Qed.

(** A server of the whole cluster is in reach of every administrator: an
    administrator of any organisation deletes it for all. *)
Theorem cluster_server_deletable_by_all (actor org id : string) (s : admin_state) (rec : ServerRecord) :
  store_Get id (ad_table s) = Some rec → sr_OrgID rec = "" →
  fst (deleteMCPServer actor org id s) = 204 ∧
  store_Get id (ad_table (snd (deleteMCPServer actor org id s))) = None ∧
  m_clients (ad_manager (snd (deleteMCPServer actor org id s))) !! id = None.
Proof.
  intros Hg Ho. unfold deleteMCPServer, mcpServerByIDForOrg. rewrite Hg, Ho. cbn [String.eqb negb andb fst snd ad_table ad_manager].
  split_and!; [done| |].
  - unfold store_Get, store_Delete. apply bind_None. left. apply list_find_None, Forall_forall.
    intros r [H _]%list_elem_of_filter. done.
  - unfold Remove. destruct (m_clients (ad_manager s) !! id) eqn:E; [|done]. cbn [m_clients]. apply lookup_delete_eq.
Qed.

Lemma Save_keeps uuid now rec t r t' :
  Save unmarshal uuid now rec t = Ok (r, t') → TrimSpace (sr_ID rec) ≠ "" →
  sr_ID r = sr_ID rec ∧ sr_Enabled r = sr_Enabled rec.
Proof.
  unfold Save. intros H Hid. destruct (String.eqb (TrimSpace (sr_Name rec)) ""); [done|].
  destruct (String.eqb (TrimSpace (sr_SpecYAML rec)) ""); [done|].
  destruct (DecodeSpec unmarshal (sr_SpecYAML rec)); [|done].
  destruct (String.eqb_spec (TrimSpace (sr_ID rec)) ""); [done|]. unfold upsert in H.
  destruct (existsb _ t); [done|]. destruct (store_Get (sr_ID rec) t); by simplify_eq/=.
Qed.

(** A change that leaves "enabled" out of its body turns the server off. *)
Theorem rename_disables (uuid : string) (now : Time) (actor org id name : string) (s : admin_state) (rec : ServerRecord) :
  mcpServerByIDForOrg org id (ad_table s) = Some rec → TrimSpace (sr_ID rec) ≠ "" →
  fst (patchMCPServer unmarshal dial uuid now actor org id (Some (mkServerBody name "" false)) s) = 200 →
  ∃ st, m_clients (ad_manager (snd (patchMCPServer unmarshal dial uuid now actor org id (Some (mkServerBody name "" false)) s)))
          !! sr_ID rec = Some st ∧ st_state st = "disabled" ∧ st_cli st = None.
Proof.
  intros Hg Hid0. unfold patchMCPServer. rewrite Hg. cbn [sb_SpecYAML sb_Name sb_Enabled].
  change (TrimSpace "") with "". cbn [String.eqb]. unfold save_and_connect.
  destruct (Save _ _ _ _ _) as [[r t]|e] eqn:Hs; [|done]. intros _. cbn [snd ad_manager].
  destruct (Save_keeps _ _ _ _ _ _ Hs Hid0) as [Hid Hen]. cbn [sr_ID sr_Enabled] in Hid, Hen.
  unfold Upsert. rewrite Hen. cbn [negb snd]. unfold setDisabled. cbn [m_clients]. rewrite Hid, lookup_insert_eq.
  eexists. by split_and!.
Qed.

End admin.

(** ** Witnesses *)

Definition toy_spec : ServerSpec :=
  mkSpec (mkConnection "http" "" [] ∅ "http://tools:9000" ∅) ["vk1"] ["search"; "read_file"] 0 None None.
Definition toy_yaml (s : string) : res string ServerSpec := if String.eqb s "toy" then Ok toy_spec else Err "bad".
Definition toy_rec : ServerRecord := mkServerRecord "s1" "org-a" "files" "toy" true 0 0.
Definition toy_tools : list MCPTool := [mkTool "search" "" ""; mkTool "delete_file" "" ""].
Definition toy_dial (s : ServerSpec) : dialed := Connected toy_tools.

Definition toy_world : world := mkWorld (snd (Upsert toy_yaml toy_dial toy_rec NewManager)) [].

Lemma toy_reachable : rtc (wstep toy_yaml) init toy_world.
Proof. apply (Upsert_steps toy_yaml toy_dial toy_rec init). Qed.

Definition toy_cc (vk : string) : CallContext := mkCallContext "org-a" "u1" vk "r1" "" "" "".
Definition toy_req (tool : string) : CallRequest := mkCallRequest tool "{}" "" "" "".
Definition toy_call (o : outgoing) : upstream := UResult false "found" "{}".

Definition ascii_only : string → bool := fun _ => false.

Lemma tool_calls_authorized_witness :
  CallTool ascii_only 0 5 toy_call "org-a" "s1" (toy_cc "vk2") (toy_req "search") (w_m toy_world)
    = Some (None, Some EKeyNotAllowed, [], []) ∧
  ∃ result err out logs,
    CallTool ascii_only 0 5 toy_call "org-a" "s1" (toy_cc "vk1") (toy_req "search") (w_m toy_world) = Some (result, err, out, logs) ∧
    ((result = None ∧ is_Some err ∧ out = [] ∧ logs = []) ∨
     ∃ st spec o l, out = [o] ∧ logs = [l] ∧ is_Some result ∧
       m_clients (w_m toy_world) !! "s1" = Some st ∧ may_use "org-a" "vk1" st ∧ sr_Enabled (st_record st) = true ∧
       st_spec st = Some spec ∧ AllowsTool (Some spec) (og_tool o) = true ∧ og_tool o = "search" ∧
       og_cli o ∈ open_clients (w_m toy_world) ∧ 0 < og_timeout o ∧
       ml_OrgID l = "org-a" ∧ ml_UserID l = "u1" ∧ ml_VirtualKeyID l = "vk1" ∧ ml_ServerID l = "s1").
Proof.
  split; [vm_compute; reflexivity|].
  apply (tool_calls_authorized toy_yaml ascii_only toy_world 0 5 toy_call "org-a" "s1" (toy_cc "vk1") (toy_req "search")).
  exact toy_reachable.
Defined.

Lemma toy_entry : ∃ st, m_clients (w_m toy_world) !! "s1" = Some st ∧ st_tools st = rev toy_tools.
Proof. eexists. split; vm_compute; reflexivity. Qed.

Lemma listed_tools_callable_witness :
  "search" ∈ map tl_Name [mkTool "search" "" "read"] ↔
  ∃ result err o logs, CallTool ascii_only 0 5 toy_call "org-a" "s1" (toy_cc "vk1") (toy_req "search") (w_m toy_world)
    = Some (Some result, err, [o], logs).
Proof.
  destruct toy_entry as (st & Hst & Ht).
  apply (listed_tools_callable toy_yaml ascii_only toy_world 0 5 toy_call "org-a" "s1" (toy_cc "vk1") (toy_req "search")
    [mkTool "search" "" "read"] st); [exact toy_reachable|exact Hst|vm_compute; reflexivity| |].
  - rewrite Ht. apply (bool_decide_unpack _). vm_compute. exact I.
  - vm_compute. discriminate.
Defined.

Lemma toy_listed : length (ListServers "org-a" "vk1" (w_m toy_world)) = 1%nat ∧ ListServers "org-b" "vk1" (w_m toy_world) = [].
Proof. split; vm_compute; reflexivity. Qed.

Lemma listed_servers_usable_witness :
  ∃ s, s ∈ ListServers "org-a" "vk1" (w_m toy_world) ∧ sr_Enabled (ss_Record s) = true.
Proof.
  destruct (ListServers "org-a" "vk1" (w_m toy_world)) as [|s l] eqn:E;
    [exfalso; pose proof (proj1 toy_listed) as H; rewrite E in H; discriminate H|].
  exists s. split; [left|].
  apply (listed_servers_usable (w_m toy_world) "org-a" "vk1" s). rewrite E. left.
Defined.

Definition toy_begun : Manager := snd (connect_begin toy_yaml toy_rec NewManager).

Lemma removed_server_returns_witness :
  ∃ st, m_clients (snd (connect_end toy_rec toy_spec (Connected toy_tools) (Remove "s1" toy_begun))) !! "s1" = Some st ∧
    st_state st = "healthy" ∧ is_Some (st_cli st).
Proof.
  apply (removed_server_returns toy_yaml init toy_rec toy_spec toy_begun toy_tools);
    [apply rtc_refl|reflexivity|vm_compute; reflexivity].
Defined.

Lemma concurrent_connects_leak_witness :
  ∃ w' n, rtc (wstep toy_yaml) init w' ∧ n ∈ open_clients (w_m w') ∧
    ∀ id st, m_clients (w_m w') !! id = Some st → st_cli st ≠ Some n.
Proof.
  apply (concurrent_connects_leak toy_yaml init toy_rec toy_spec toy_begun (snd (connect_begin toy_yaml toy_rec toy_begun)) toy_tools);
    [apply rtc_refl|reflexivity|vm_compute; reflexivity|vm_compute; reflexivity].
Defined.

Lemma reload_exact_witness :
  dom (m_clients (Reload toy_yaml toy_dial [set_ID "s2" toy_rec] (w_m toy_world))) = list_to_set ["s2"] ∧
  rtc (wstep toy_yaml) init (mkWorld (Reload toy_yaml toy_dial [set_ID "s2" toy_rec] (w_m toy_world)) []).
Proof. apply (reload_exact toy_yaml toy_dial [set_ID "s2" toy_rec] toy_world). exact toy_reachable. Defined.

Definition toy_admin : admin_state :=
  mkAdmin [toy_rec; mkServerRecord "s9" "" "shared" "toy" true 0 0] (w_m toy_world) ∅ [].

Lemma foreign_server_untouched_witness :
  patchMCPServer toy_yaml toy_dial "u" 1 "eve" "org-b" "s1" (Some (mkServerBody "x" "toy" true)) toy_admin = (404, toy_admin) ∧
  deleteMCPServer "eve" "org-b" "s1" toy_admin = (404, toy_admin) ∧
  reconnectMCPServer toy_yaml toy_dial "eve" "org-b" "s1" toy_admin = (404, toy_admin) ∧
  testMCPServer toy_yaml toy_dial "eve" "org-b" "s1" toy_admin = (404, toy_admin).
Proof.
  apply (foreign_server_untouched toy_yaml toy_dial "u" 1 "eve" "org-b" "s1" (Some (mkServerBody "x" "toy" true)) toy_admin toy_rec);
    [reflexivity|discriminate|vm_compute; discriminate].
Defined.

Lemma cluster_server_deletable_by_all_witness :
  fst (deleteMCPServer "eve" "org-b" "s9" toy_admin) = 204 ∧
  store_Get "s9" (ad_table (snd (deleteMCPServer "eve" "org-b" "s9" toy_admin))) = None ∧
  m_clients (ad_manager (snd (deleteMCPServer "eve" "org-b" "s9" toy_admin))) !! "s9" = None.
Proof.
  apply (cluster_server_deletable_by_all "eve" "org-b" "s9" toy_admin (mkServerRecord "s9" "" "shared" "toy" true 0 0));
    reflexivity.
Defined.

Lemma rename_disables_witness :
  ∃ st, m_clients (ad_manager (snd (patchMCPServer toy_yaml toy_dial "u" 1 "ann" "org-a" "s1" (Some (mkServerBody "docs" "" false)) toy_admin)))
          !! "s1" = Some st ∧ st_state st = "disabled" ∧ st_cli st = None.
Proof.
  apply (rename_disables toy_yaml toy_dial "u" 1 "ann" "org-a" "s1" "docs" toy_admin toy_rec);
    [reflexivity|vm_compute; discriminate|vm_compute; reflexivity].
Defined.
