(* ===== verification/Reader.v ===== *)
(** * Reader: src/internal/observability/reader.go

    The console's reads of stored traces.  A query is a list of predicates with
    placeholders and a list of arguments; [bind] gives them the meaning ClickHouse
    documents for such a statement, consuming the arguments in the order of the
    placeholders, and has none when an argument is missing, has the wrong type or a
    column does not exist.  [render] is the text the source sends.  Averages,
    rates and float sums of the database are left out or a parameter. *)

From stdpp Require Import sorting pretty.
From S2P Require Import Prelude GoString Float64 GoTime ApiErr Json CoreStore GwTypes.
Local Open Scope string_scope.
Local Open Scope Z_scope.

(** ** Columns, predicates, arguments *)

(** The columns the predicates name.  [gateway_traces] has no [user_email]. *)
Inductive column := ColOrg | ColUser | ColProvider | ColModel | ColTurn | ColUserEmail | ColGuardrail | ColTrace.

Definition column_name (c : column) : string :=
  match c with
  | ColOrg => "org_id" | ColUser => "user_id" | ColProvider => "provider_name" | ColModel => "request_model"
  | ColTurn => "turn_id" | ColUserEmail => "user_email" | ColGuardrail => "guardrail_action"
  | ColTrace => "trace_id"
  end.

Definition column_value (c : column) (t : Trace) : option string :=
  match c with
  | ColOrg => Some (t_OrgID (t_base t))
  | ColUser => Some (t_UserID (t_base t))
  | ColProvider => Some (ProviderName (t_base t))
  | ColModel => Some (RequestModel t)
  | ColTurn => Some (TurnID (t_base t))
  | ColUserEmail => None
  | ColGuardrail => Some (GuardrailAction t)
  | ColTrace => Some (TraceID (t_base t))
  end.

Inductive arg := AStr (s : string) | ATime (t : Time) | AInt (n : Z).

Inductive pred :=
| PEq (c : column)
| POrgOrEmpty
| PBefore
| PSince
| PStatusOk
| PStatusErr
| PFalse
| PIn (c : column) (n : nat)
| PLike (cs : list column).

#[export] Instance column_eq_dec : EqDecision column.
Proof. solve_decision. Defined.

(** ** LIKE *)

(** ClickHouse's [LIKE]: [%] any bytes, [_] one character, a backslash takes the
    next byte as it is.  Characters are bytes here; [escapeLike] leaves no [_]
    unescaped, so its patterns do not depend on that. *)
Fixpoint skip_match (m : string → bool) (s : string) : bool :=
  m s || match s with "" => false | String _ s' => skip_match m s' end.

Fixpoint like_match (p : string) : string → bool :=
  match p with
  | "" => fun s => match s with "" => true | _ => false end
  | String c p' =>
      if Ascii.eqb c "%" then skip_match (like_match p')
      else if Ascii.eqb c "_" then fun s => match s with "" => false | String _ s' => like_match p' s' end
      else if Ascii.eqb c (byte 92) then
        match p' with
        | "" => fun _ => false
        | String d p'' => fun s => match s with "" => false | String x s' => Ascii.eqb x d && like_match p'' s' end
        end
      else fun s => match s with "" => false | String x s' => Ascii.eqb x c && like_match p' s' end
  end.

Definition escapeLike (s : string) : string :=
  let s := ReplaceAll s backslash (backslash +:+ backslash) in
  let s := ReplaceAll s "%" (backslash +:+ "%") in
  ReplaceAll s "_" (backslash +:+ "_").

(** ** Filters *)

Record TraceFilter := mkFilter {
  tf_Status : string; tf_Statuses : list string; tf_Provider : string; tf_Providers : list string;
  tf_Models : list string; tf_Q : string; tf_Turn : string
}.

Definition dashboardFilterCap : nat := 50.

Fixpoint sanitize_go (seen : list string) (values : list string) : list string :=
  match values with
  | [] => []
  | v :: rest =>
      let v := TrimSpace v in
      if String.eqb v "" then sanitize_go seen rest
      else if existsb (String.eqb v) seen then sanitize_go seen rest
      else if (dashboardFilterCap <=? S (length seen))%nat then [v]
      else v :: sanitize_go (v :: seen) rest
  end.

Definition sanitizeCSV (values : list string) : list string := sanitize_go [] values.

Record dimensionSkip := mkSkip { sk_providers : bool; sk_models : bool }.

Definition filter_providers (f : TraceFilter) : list string :=
  match sanitizeCSV (tf_Providers f) with
  | [] => if String.eqb (tf_Provider f) "" then [] else [tf_Provider f]
  | l => l
  end.

Definition in_pred (c : column) (l : list string) : list pred := match l with [] => [] | _ => [PIn c (length l)] end.

Definition appendDimensionConds (f : TraceFilter) (skip : dimensionSkip) : list pred * list arg :=
  let ps := if sk_providers skip then [] else filter_providers f in
  let ms := if sk_models skip then [] else sanitizeCSV (tf_Models f) in
  (in_pred ColProvider ps ++ in_pred ColModel ms, map AStr ps ++ map AStr ms)%list.

Definition effectiveStatusSlice (f : TraceFilter) : bool * bool :=
  if negb (String.eqb (tf_Status f) "") then (String.eqb (tf_Status f) "ok", String.eqb (tf_Status f) "err")
  else match tf_Statuses f with
       | [] => (true, true)
       | l => (existsb (String.eqb "ok") l, existsb (String.eqb "err") l)
       end.

Definition appendStatusConds (f : TraceFilter) : list pred :=
  match effectiveStatusSlice f with
  | (true, true) => []
  | (true, false) => [PStatusOk]
  | (false, true) => [PStatusErr]
  | (false, false) => [PFalse]
  end.

(** ** Text *)

Definition inClause (col : string) (n : nat) : string :=
  match n with
  | O => "1 = 0"
  | _ => col +:+ " IN (" +:+ Join (replicate n "?") ", " +:+ ")"
  end.

Definition render (p : pred) : string :=
  match p with
  | PEq c => column_name c +:+ " = ?"
  | POrgOrEmpty => "(org_id = ? OR org_id = '')"
  | PBefore => "timestamp < ?"
  | PSince => "timestamp >= ?"
  | PStatusOk => "status_code < 400"
  | PStatusErr => "status_code >= 400"
  | PFalse => "1 = 0"
  | PIn c n => inClause (column_name c) n
  | PLike cs => "(" +:+ Join (map (fun c => column_name c +:+ " LIKE ?") cs) " OR " +:+ ")"
  end.

(** ** Meaning *)

(** The predicate with its arguments taken off the list. *)
Definition take_str (args : list arg) : option (string * list arg) :=
  match args with AStr s :: rest => Some (s, rest) | _ => None end.

Fixpoint take_strs (n : nat) (args : list arg) : option (list string * list arg) :=
  match n with
  | O => Some ([], args)
  | S n' =>
      match take_str args with
      | Some (s, rest) => prod_map (cons s) id <$> take_strs n' rest
      | None => None
      end
  end.

Fixpoint like_any (cs : list column) (args : list arg) : option ((Trace → bool) * list arg) :=
  match cs with
  | [] => Some (fun _ => false, args)
  | c :: cs' =>
      match take_str args with
      | Some (p, rest) =>
          match like_any cs' rest with
          | Some (f, rest') =>
              if decide (c = ColUserEmail) then None
              else Some (fun t => match column_value c t with Some v => like_match p v || f t | None => f t end, rest')
          | None => None
          end
      | None => None
      end
  end.

Definition holds_eq (c : column) (v : string) (t : Trace) : bool :=
  match column_value c t with Some x => String.eqb x v | None => false end.

(** The database driver turns an instant into a literal; how precisely is its own
    affair, so the conversion is a parameter. *)
Section Driver.
Context (conv : Time → Time).

Definition bind_pred (p : pred) (args : list arg) : option ((Trace → bool) * list arg) :=
  match p with
  | PEq c => match take_str args with Some (v, rest) => Some (holds_eq c v, rest) | None => None end
  | POrgOrEmpty =>
      match take_str args with
      | Some (v, rest) => Some (fun t => holds_eq ColOrg v t || holds_eq ColOrg "" t, rest)
      | None => None
      end
  | PBefore => match args with ATime b :: rest => Some (fun t => Timestamp (t_base t) <? conv b, rest) | _ => None end
  | PSince => match args with ATime s :: rest => Some (fun t => conv s <=? Timestamp (t_base t), rest) | _ => None end
  | PStatusOk => Some (fun t => StatusCode t <? 400, args)
  | PStatusErr => Some (fun t => 400 <=? StatusCode t, args)
  | PFalse => Some (fun _ => false, args)
  | PIn c n =>
      match take_strs n args with
      | Some (vs, rest) => Some (fun t => existsb (fun v => holds_eq c v t) vs, rest)
      | None => None
      end
  | PLike cs => like_any cs args
  end.

Fixpoint bind (ps : list pred) (args : list arg) : option ((Trace → bool) * list arg) :=
  match ps with
  | [] => Some (fun _ => true, args)
  | p :: ps' =>
      match bind_pred p args with
      | Some (f, rest) =>
          match bind ps' rest with
          | Some (g, rest') => Some (fun t => f t && g t, rest')
          | None => None
          end
      | None => None
      end
  end.

Definition orgScopeClause (orgID : string) : pred * list arg :=
  if String.eqb orgID DefaultOrgID then (POrgOrEmpty, [AStr orgID]) else (PEq ColOrg, [AStr orgID]).

(** ** The trace list *)

Definition when {A} (b : bool) (x : A) : list A := if b then [x] else [].
Definition nonblank (s : string) : bool := negb (String.eqb s "").

Definition page_conds (orgID userID : string) (before since : Time) (f : TraceFilter) : list pred :=
  ([fst (orgScopeClause orgID)] ++
   when (nonblank userID) (PEq ColUser) ++
   when (negb (IsZero before)) PBefore ++
   when (negb (IsZero since)) PSince ++
   when (nonblank (tf_Provider f)) (PEq ColProvider) ++
   when (nonblank (tf_Turn f)) (PEq ColTurn) ++
   appendStatusConds f ++
   when (nonblank (tf_Q f)) (PLike [ColModel; ColProvider; ColUserEmail; ColGuardrail]))%list.

Definition summary_select : string :=
  "
		SELECT trace_id, timestamp, provider_name, request_model,
		       response_model, input_tokens, output_tokens,
		       toInt64(input_tokens + output_tokens) AS total_tokens,
		       latency_ms, ttft_ms, cost_usd,
		       status_code, streamed, finish_reason, cache_hit, guardrail_action,
		       session_id, turn_id, user_id, credential_source
		FROM gateway_traces".

Definition buildTracePageQuery (orgID userID : string) (before since : Time) (f : TraceFilter) : string :=
  summary_select +:+ " WHERE " +:+ Join (map render (page_conds orgID userID before since f)) " AND " +:+
  " ORDER BY timestamp DESC, trace_id DESC LIMIT ?".

Definition buildTracePageArgs (orgID userID : string) (before since : Time) (limit : Z) (f : TraceFilter) : list arg :=
  let pattern := AStr ("%" +:+ escapeLike (tf_Q f) +:+ "%") in
  (snd (orgScopeClause orgID) ++
   when (nonblank userID) (AStr userID) ++
   when (negb (IsZero before)) (ATime before) ++
   when (negb (IsZero since)) (ATime since) ++
   when (nonblank (tf_Provider f)) (AStr (tf_Provider f)) ++
   when (nonblank (tf_Turn f)) (AStr (tf_Turn f)) ++
   (if nonblank (tf_Q f) then [pattern; pattern; pattern; pattern] else []) ++
   [AInt limit])%list.

(** [ORDER BY timestamp DESC, trace_id DESC]. *)
Definition newer (a b : Trace) : Prop :=
  Timestamp (t_base b) < Timestamp (t_base a) ∨
  (Timestamp (t_base a) = Timestamp (t_base b) ∧ String.le (TraceID (t_base b)) (TraceID (t_base a))).
#[export] Instance newer_dec : RelDecision newer.
Proof. intros a b. unfold newer. apply _. Defined.

(** A statement with its [LIMIT] as the last argument. *)
Definition run_page (ps : list pred) (args : list arg) (rows : list Trace) : option (list Trace) :=
  match bind ps args with
  | Some (keep, [AInt n]) => Some (take (Z.to_nat n) (merge_sort newer (List.filter keep rows)))
  | _ => None
  end.

(** A page and the cursor: where the next page begins, and the echoed lower bound.
    Cursors travel as RFC 3339 with nanoseconds, which keeps the instant. *)
Record tracePage := mkPage { pg_items : list Trace; pg_before : option Time; pg_since : option Time }.

Definition page_limit (limit : Z) : Z := if (limit <=? 0) || (500 <? limit) then 100 else limit.

Definition TracePage (rows : list Trace) (before since : Time) (limit : Z) (orgID userID : string) (f : TraceFilter)
    : option tracePage :=
  let limit := page_limit limit in
  match run_page (page_conds orgID userID before since f) (buildTracePageArgs orgID userID before since (limit + 1) f) rows with
  | None => None
  | Some out =>
      let cursor_since := if IsZero since then None else Some since in
      if limit <? Z.of_nat (length out) then
        let items := take (Z.to_nat limit) out in
        Some (mkPage items ((fun t => Timestamp (t_base t)) <$> last items) cursor_since)
      else Some (mkPage out None cursor_since)
  end.

(** The list's older form orders by the timestamp alone; among equal timestamps,
    where the database may answer in any order, the model keeps the page's. *)
Definition RecentTraces (rows : list Trace) (limit : Z) (orgID userID : string) : option (list Trace) :=
  let limit := if (limit <=? 0) || (1000 <? limit) then 100 else limit in
  run_page ([fst (orgScopeClause orgID)] ++ when (nonblank userID) (PEq ColUser))
    (snd (orgScopeClause orgID) ++ when (nonblank userID) (AStr userID) ++ [AInt limit])%list rows.

(** ** Turns, windows and series *)

Definition turn_conds (orgID userID : string) (before since : Time) : list pred :=
  ([fst (orgScopeClause orgID)] ++ when (nonblank userID) (PEq ColUser) ++
   when (negb (IsZero before)) PBefore ++ when (negb (IsZero since)) PSince)%list.

Definition buildTurnPageArgs (orgID userID : string) (before since : Time) (limit : Z) : list arg :=
  (snd (orgScopeClause orgID) ++ when (nonblank userID) (AStr userID) ++
   when (negb (IsZero before)) (ATime before) ++ when (negb (IsZero since)) (ATime since) ++ [AInt limit])%list.

Definition window_conds (orgID userID : string) (f : TraceFilter) (skip : dimensionSkip) : list pred :=
  ([fst (orgScopeClause orgID)] ++ when (nonblank userID) (PEq ColUser) ++ [PSince; PBefore] ++
   appendStatusConds f ++ fst (appendDimensionConds f skip))%list.

Definition window_args (orgID userID : string) (before since : Time) (f : TraceFilter) (skip : dimensionSkip) : list arg :=
  (snd (orgScopeClause orgID) ++ when (nonblank userID) (AStr userID) ++ [ATime since; ATime before] ++
   snd (appendDimensionConds f skip))%list.

Definition no_skip : dimensionSkip := mkSkip false false.

(** A turn is the calls that share a turn id; a row without one is its own turn.
    The cost is left out: the order of the additions is the database's. *)
Definition turn_group_key (t : Trace) : string :=
  if String.eqb (TurnID (t_base t)) "" then TraceID (t_base t) else TurnID (t_base t).

Record TurnSummary := mkTurn {
  ts_TurnID : string; ts_FirstAt : Time; ts_LastAt : Time; ts_TraceCount : Z;
  ts_ProviderName : string; ts_RequestModel : string;
  ts_InputTokens : Z; ts_OutputTokens : Z; ts_TotalTokens : Z;
  ts_LatencyMs : Z; ts_StatusCode : Z; ts_UserID : string
}.

Definition sumZ (f : Trace → Z) (l : list Trace) : Z := foldr (fun t n => f t + n) 0 l.
Definition time_of (t : Trace) : Time := Timestamp (t_base t).

(** The row of [argMax(_, timestamp)]; among equals the database may take any. *)
Definition latest (t0 : Trace) (l : list Trace) : Trace := foldl (fun m t => if time_of m <? time_of t then t else m) t0 l.

Definition turn_summary (key : string) (t0 : Trace) (l : list Trace) : TurnSummary :=
  let all := t0 :: l in
  let m := latest t0 l in
  mkTurn key (foldl Z.min (time_of t0) (map time_of l)) (time_of m) (Z.of_nat (length all))
    (ProviderName (t_base m)) (RequestModel m)
    (sumZ InputTokens all) (sumZ OutputTokens all) (sumZ (fun t => InputTokens t + OutputTokens t) all)
    (sumZ LatencyMs all) (foldl Z.max (StatusCode t0) (map StatusCode l)) (t_UserID (t_base t0)).

Definition turn_groups (l : list Trace) : list TurnSummary :=
  omap (fun key =>
          match List.filter (fun t => String.eqb (turn_group_key t) key) l with
          | [] => None
          | t0 :: rest => Some (turn_summary key t0 rest)
          end)
    (nodup String.string_dec (map turn_group_key l)).

Definition later_turn (a b : TurnSummary) : Prop := ts_LastAt b ≤ ts_LastAt a.
#[export] Instance later_turn_dec : RelDecision later_turn.
Proof. intros a b. unfold later_turn. apply _. Defined.

Definition TurnPage (rows : list Trace) (before since : Time) (limit : Z) (orgID userID : string) : option (list TurnSummary) :=
  let limit := if (limit <=? 0) || (200 <? limit) then 20 else limit in
  match bind (turn_conds orgID userID before since) (buildTurnPageArgs orgID userID before since limit) with
  | Some (keep, [AInt n]) => Some (take (Z.to_nat n) (merge_sort later_turn (turn_groups (List.filter keep rows))))
  | _ => None
  end.

(** [WindowStatsRange]: the rows its aggregates run over, and two of them. *)
Definition window_rows (rows : list Trace) (before since : Time) (orgID userID : string) (f : TraceFilter) : option (list Trace) :=
  match bind (window_conds orgID userID f no_skip) (window_args orgID userID before since f no_skip) with
  | Some (keep, []) => Some (List.filter keep rows)
  | _ => None
  end.

Definition or_now (now before : Time) : Time := if IsZero before then now else before.
Definition or_hour (before since : Time) : Time := if IsZero since then Add before (- Hour) else since.

Definition cache_hits (l : list Trace) : Z := Z.of_nat (length (List.filter CacheHit l)).

(** The counters of [Stats]; its rates, averages and quantiles are the database's. *)
Record Stats := mkStats {
  st_TotalRequests : Z; st_TotalTokens : Z; st_TotalInputTokens : Z; st_TotalOutputTokens : Z;
  st_CacheHits : Z; st_GuardrailEvents : Z
}.

Definition stats_of (l : list Trace) : Stats :=
  mkStats (Z.of_nat (length l)) (sumZ InputTokens l + sumZ OutputTokens l) (sumZ InputTokens l) (sumZ OutputTokens l)
    (cache_hits l) (Z.of_nat (length (List.filter (fun t => nonblank (GuardrailAction t)) l))).

Definition WindowStatsRange (rows : list Trace) (now before since : Time) (orgID userID : string) (f : TraceFilter) : option Stats :=
  let before := or_now now before in
  let since := or_hour before since in
  stats_of <$> window_rows rows before since orgID userID f.

(** ** One trace *)

(** The scores of a trace, and its evidence: the newest row of that id in scope.
    [None] outside is the database's refusal, [None] inside "no such trace". *)
Record EvalScoreRow := mkScoreRow { sr_org : string; sr_trace : string; sr_evaluator : string; sr_metric : string }.

Definition score_in_scope (orgID : string) (r : EvalScoreRow) : bool :=
  if String.eqb orgID DefaultOrgID then String.eqb (sr_org r) orgID || String.eqb (sr_org r) "" else String.eqb (sr_org r) orgID.

Definition evalScoresForTrace (scores : list EvalScoreRow) (orgID traceID : string) : list EvalScoreRow :=
  List.filter (fun r => score_in_scope orgID r && String.eqb (sr_trace r) traceID) scores.

Definition TraceEvidence (rows : list Trace) (scores : list EvalScoreRow) (orgID userID traceID : string)
    : option (option (Trace * list EvalScoreRow)) :=
  if String.eqb (TrimSpace traceID) "" then Some None
  else
    match run_page ([fst (orgScopeClause orgID)] ++ when (nonblank userID) (PEq ColUser) ++ [PEq ColTrace])%list
            (snd (orgScopeClause orgID) ++ when (nonblank userID) (AStr userID) ++ [AStr traceID; AInt 1])%list rows with
    | None => None
    | Some [] => Some None
    | Some (t :: _) => Some (Some (t, evalScoresForTrace scores orgID traceID))
    end.

(** ** Spend *)

(** Each of the two windows of the summary is a sub-query of its own; the
    arguments are bound left to right through both.  The float sum of the costs is
    the database's, a parameter. *)
Definition spend_conds (userID : string) : list pred :=
  ([PEq ColOrg; PSince; PBefore] ++ when (nonblank userID) (PEq ColUser))%list.

Definition buildSummaryArgs (orgID : string) (curSince curUntil prevSince prevUntil : Time) (userID : string) : list arg :=
  if String.eqb userID "" then [AStr orgID; ATime curSince; ATime curUntil; AStr orgID; ATime prevSince; ATime prevUntil]
  else [AStr orgID; ATime curSince; ATime curUntil; AStr userID; AStr orgID; ATime prevSince; ATime prevUntil; AStr userID].

Record DailySpendSummary_t := mkSpendSummary {
  dss_Days : Z; CurrentCost : float64; PreviousCost : float64; DeltaCost : float64; SavingsPct : float64; HasPrevious : bool;
  CurrentTokens : Z; PreviousTokens : Z; CurrentRequests : Z; PreviousRequests : Z; CurrentCacheHits : Z; PreviousCacheHits : Z
}.

Definition spend_windows (now : Time) (days : Z) : (Time * Time) * (Time * Time) :=
  let curSince := Add now (wrap64 (- days * (24 * Hour))) in
  let prevSince := Add curSince (wrap64 (- days * (24 * Hour))) in
  ((curSince, now), (prevSince, curSince)).

Definition tokens_of (t : Trace) : Z := InputTokens t + OutputTokens t.

Definition DailySpendSummary (sum_cost : list Trace → float64) (rows : list Trace) (now : Time) (days : Z) (orgID userID : string)
    : option DailySpendSummary_t :=
  let '((curSince, curUntil), (prevSince, prevUntil)) := spend_windows now days in
  match bind (spend_conds userID) (buildSummaryArgs orgID curSince curUntil prevSince prevUntil userID) with
  | Some (keep, rest) =>
      match bind (spend_conds userID) rest with
      | Some (keep', []) =>
          let cur := List.filter keep rows in
          let prev := List.filter keep' rows in
          let c := sum_cost cur in
          let p := sum_cost prev in
          let reqs := Z.of_nat (length prev) in
          let has := flt fzero p || (0 <? reqs) in
          Some (mkSpendSummary days c p (fsub c p)
            (if has && flt fzero p then fmul (fdiv (fsub p c) p) (of_Z 100) else fzero) has
            (sumZ tokens_of cur) (sumZ tokens_of prev) (Z.of_nat (length cur)) reqs (cache_hits cur) (cache_hits prev))
      | _ => None
      end
  | None => None
  end.

(** ** Volume *)

Definition BucketIntervalForWindow (window : Duration) : Duration :=
  if window <=? Hour then Minute
  else if window <=? 24 * Hour then 5 * Minute
  else if window <=? 7 * 24 * Hour then Hour
  else if window <=? 30 * 24 * Hour then 6 * Hour
  else 24 * Hour.

Record VolumeBucket := mkBucket { vb_Timestamp : Time; vb_Ok : Z; vb_Err : Z }.

(** [t.Truncate(d)]: multiples of [d] since the zero time. *)
Definition Truncate (t : Time) (d : Duration) : Time := if d <=? 0 then t else t - (t - zero_time) mod d.

(** [toStartOfInterval(timestamp, toIntervalSecond(n))]: multiples since the epoch. *)
Definition start_of_interval (n : Z) (t : Time) : Time := t - t mod (n * Second).

Definition count_if (p : Trace → bool) (l : list Trace) : Z := Z.of_nat (length (List.filter p l)).

(** The grouped rows, oldest bucket first. *)
Definition series_rows (n : Z) (l : list Trace) : list VolumeBucket :=
  map (fun b =>
         let l := List.filter (fun t => start_of_interval n (Timestamp (t_base t)) =? b) l in
         mkBucket b (count_if (fun t => StatusCode t <? 400) l) (count_if (fun t => 400 <=? StatusCode t) l))
      (merge_sort Z.le (nodup Z.eq_dec (map (fun t => start_of_interval n (Timestamp (t_base t))) l))).

(** The grid loop: [for t := start; t.Before(before); t = t.Add(interval)].  There
    are [(before - start) / interval + 1] turns at most. *)
Fixpoint grid (fuel : nat) (t before : Time) (interval : Duration) : list Time :=
  match fuel with
  | O => []
  | S fuel' => if Before t before then t :: grid fuel' (Add t interval) before interval else []
  end.

Definition dense_start (since : Time) (interval : Duration) : Time :=
  let start := Truncate since interval in
  if Before start since then Add start interval else start.

Definition by_unix (interval : Duration) (sparse : list VolumeBucket) : gmap Z VolumeBucket :=
  foldl (fun m b => let ts := Truncate (vb_Timestamp b) interval in <[Unix ts := mkBucket ts (vb_Ok b) (vb_Err b)]> m) ∅ sparse.

Definition fillDenseVolumeBuckets (sparse : list VolumeBucket) (since before : Time) (interval : Duration) : list VolumeBucket :=
  if (interval <=? 0) || negb (After before since) then sparse
  else
    let start := dense_start since interval in
    let m := by_unix interval sparse in
    map (fun t => default (mkBucket t 0 0) (m !! Unix t))
      (grid (S (Z.to_nat ((before - start) / interval))) start before interval).

(** [RequestVolumeSeries]; [None] is the database's refusal. *)
Definition RequestVolumeSeries (rows : list Trace) (now before since : Time) (orgID userID : string) (f : TraceFilter)
    : option (list VolumeBucket) :=
  let before := or_now now before in
  let since := or_hour before since in
  let window := Sub before since in
  if window <=? 0 then Some []
  else
    let interval := BucketIntervalForWindow window in
    match window_rows rows before since orgID userID f with
    | None => None
    | Some l => Some (fillDenseVolumeBuckets (series_rows (interval / Second) l) since before interval)
    end.

End Driver.

(** ** The other statements *)

Definition buildTurnPageQuery (orgID userID : string) (before since : Time) : string :=
  "
		SELECT if(turn_id = '', trace_id, turn_id) AS turn_group_key,
		       min(timestamp) AS turn_first_at,
		       max(timestamp) AS turn_last_at,
		       toInt64(count()) AS turn_trace_count,
		       argMax(provider_name, timestamp) AS turn_provider,
		       argMax(request_model, timestamp) AS turn_model,
		       toInt64(sum(input_tokens)) AS turn_input_tokens,
		       toInt64(sum(output_tokens)) AS turn_output_tokens,
		       toInt64(sum(input_tokens + output_tokens)) AS turn_total_tokens,
		       sum(cost_usd) AS turn_cost_usd,
		       toInt64(sum(latency_ms)) AS turn_latency_ms,
		       max(status_code) AS turn_status_code,
		       any(user_id) AS turn_user_id
		FROM gateway_traces" +:+ " WHERE " +:+ Join (map render (turn_conds orgID userID before since)) " AND " +:+
  " GROUP BY turn_group_key ORDER BY turn_last_at DESC LIMIT ?".

Definition user_filter (userID : string) : string := if String.eqb userID "" then "" else " AND user_id = ?".

Definition buildDailySpendSummaryQuery (userID : string) : string :=
  "
		WITH
		  cur AS (
		    SELECT ifNull(sum(cost_usd), 0) AS cost,
		           toInt64(sum(input_tokens + output_tokens)) AS tokens,
		           toInt64(count()) AS requests,
		           toInt64(countIf(cache_hit = 1)) AS cache_hits
		    FROM gateway_traces
		    WHERE org_id = ?
		      AND timestamp >= ?
		      AND timestamp < ?" +:+ user_filter userID +:+
  "
		  ),
		  prev AS (
		    SELECT ifNull(sum(cost_usd), 0) AS cost,
		           toInt64(sum(input_tokens + output_tokens)) AS tokens,
		           toInt64(count()) AS requests,
		           toInt64(countIf(cache_hit = 1)) AS cache_hits
		    FROM gateway_traces
		    WHERE org_id = ?
		      AND timestamp >= ?
		      AND timestamp < ?" +:+ user_filter userID +:+
  "
		  )
		SELECT cur.cost, prev.cost,
		       cur.tokens, prev.tokens,
		       cur.requests, prev.requests,
		       cur.cache_hits, prev.cache_hits
		FROM cur, prev".

Definition buildEffectiveProviderExpr : string := "
	multiIf(
		provider_name = 'thegrid' AND cache_hit = 0 AND response_model != '',
		response_model,
		provider_name
	)".

Definition buildDailySpendByDayQuery (userID : string) : string :=
  "
		SELECT toStartOfDay(timestamp) AS day,
		       sum(cost_usd) AS cost_usd,
		       toInt64(sum(input_tokens + output_tokens)) AS tokens,
		       toInt64(count()) AS requests,
		       toInt64(countIf(cache_hit = 1)) AS cache_hits
		FROM gateway_traces
		WHERE org_id = ?
		  AND timestamp >= ?
		  AND timestamp < ?" +:+ user_filter userID +:+ "
		GROUP BY day
		ORDER BY day ASC".

Definition buildDailySpendByDayArgs (orgID : string) (since until : Time) (userID : string) : list arg :=
  ([AStr orgID; ATime since; ATime until] ++ when (nonblank userID) (AStr userID))%list.

Definition buildDailySpendBreakdownQuery (userID : string) : string :=
  "
		SELECT request_model,
		       (" +:+ buildEffectiveProviderExpr +:+ ") AS provider,
		       response_model,
		       sum(cost_usd) AS cost_usd,
		       toInt64(sum(input_tokens + output_tokens)) AS tokens,
		       toInt64(count()) AS requests,
		       toInt64(countIf(cache_hit = 1)) AS cache_hits
		FROM gateway_traces
		WHERE org_id = ?
		  AND timestamp >= ?
		  AND timestamp < ?" +:+ user_filter userID +:+ "
		GROUP BY request_model, provider, response_model
		ORDER BY cost_usd DESC
		LIMIT 200".

Definition buildDailySpendBreakdownArgs (orgID : string) (start finish : Time) (userID : string) : list arg :=
  ([AStr orgID; ATime start; ATime finish] ++ when (nonblank userID) (AStr userID))%list.

Definition buildBucketedSeriesQuery (selectCols orgID userID : string) (f : TraceFilter) (skip : dimensionSkip) : string :=
  "
		SELECT
			toStartOfInterval(timestamp, toIntervalSecond(?)) AS bucket,
			" +:+ selectCols +:+ "
		FROM gateway_traces" +:+ " WHERE " +:+
  Join (map render (window_conds orgID userID f skip)) " AND " +:+ "
		GROUP BY bucket
		ORDER BY bucket ASC
		SETTINGS max_memory_usage = 400000000".

Definition buildRequestVolumeSeriesQuery (orgID userID : string) (f : TraceFilter) : string :=
  buildBucketedSeriesQuery "toInt64(countIf(status_code < 400)) AS ok,
			toInt64(countIf(status_code >= 400)) AS err" orgID userID f no_skip.

Definition buildBucketedSeriesArgs (orgID userID : string) (before since : Time) (intervalSec : Z) (f : TraceFilter)
    (skip : dimensionSkip) : list arg :=
  AInt intervalSec :: window_args orgID userID before since f skip.
