(* ===== verification/ReaderProps.v ===== *)
(** * ReaderProps: what the reads of stored traces answer

    Every statement the reader builds binds all its arguments; each read stays in
    its organisation; a page is the newest matching rows and the cursors visit all
    of them where the driver keeps their times apart; searching never works; the turns and the volume series account for
    every row, the dropped first bin apart. *)

From stdpp Require Import sorting pretty.
From S2P Require Import Prelude GoString Float64 GoTime ApiErr Json CoreStore GwTypes Reader.
Local Open Scope string_scope.
Local Open Scope Z_scope.

(** ** Escaped patterns *)

Fixpoint esc (q : string) : string :=
  match q with
  | "" => ""
  | String c q' =>
      if Ascii.eqb c (byte 92) || Ascii.eqb c "%" || Ascii.eqb c "_" then String (byte 92) (String c (esc q'))
      else String c (esc q')
  end.

Fixpoint map_byte (f : ascii → string) (s : string) : string :=
  match s with "" => "" | String c s' => f c +:+ map_byte f s' end.

Lemma replace_byte d new s : ReplaceAll s (String d "") new = map_byte (fun c => if Ascii.eqb c d then new else String c "") s.
Proof.
  unfold ReplaceAll. induction s as [|c s IH]; [done|]. cbn [replace_from map_byte].
  change (String.length (String d "") - 1)%nat with 0%nat. rewrite IH. cbn [HasPrefix].
  destruct (Ascii.eqb_spec c d) as [->|Hd]; [by rewrite decide_True|].
  by rewrite decide_False.
Qed.

Lemma map_byte_app f s t : map_byte f (s +:+ t) = map_byte f s +:+ map_byte f t.
Proof.
  induction s as [|c s IH]; [done|].
  change (f c +:+ map_byte f (s +:+ t) = (f c +:+ map_byte f s) +:+ map_byte f t).
  by rewrite IH, app_assoc_string.
Qed.

Lemma map_byte_map f g s : map_byte g (map_byte f s) = map_byte (fun c => map_byte g (f c)) s.
Proof. induction s as [|c s IH]; [done|]. cbn [map_byte]. by rewrite map_byte_app, IH. Qed.

Lemma escapeLike_esc q : escapeLike q = esc q.
Proof.
  unfold escapeLike. change backslash with (String (byte 92) "").
  rewrite (replace_byte "%"), (replace_byte "_"), (replace_byte (byte 92)), !map_byte_map.
  induction q as [|c q IH]; [done|]. cbn [map_byte esc]. rewrite IH. clear IH.
  destruct (Ascii.eqb_spec c (byte 92)) as [->|H1]; [done|].
  cbn [map_byte]. rewrite ?app_nil_r_string.
  destruct (Ascii.eqb_spec c "%") as [->|H2]; [done|].
  cbn [map_byte]. rewrite ?app_nil_r_string.
  destruct (Ascii.eqb_spec c "_") as [->|H3]; done.
Qed.

Lemma like_percent s : like_match "%" s = true.
Proof. change (skip_match (like_match "") s = true). induction s as [|c s IH]; [done|]. cbn [skip_match]. by rewrite IH, orb_true_r. Qed.

Lemma like_esc q s : like_match (esc q +:+ "%") s = HasPrefix s q.
Proof.
  revert s. induction q as [|c q IH]; intros s; [rewrite like_percent; by destruct s|].
  cbn [esc]. destruct (Ascii.eqb c (byte 92) || Ascii.eqb c "%" || Ascii.eqb c "_") eqn:Hc.
  - change (String (byte 92) (String c (esc q)) +:+ "%") with (String (byte 92) (String c (esc q +:+ "%"))).
    cbn [like_match]. change (Ascii.eqb (byte 92) "%") with false. change (Ascii.eqb (byte 92) "_") with false.
    change (Ascii.eqb (byte 92) (byte 92)) with true. destruct s as [|x s]; [done|]. cbn [HasPrefix]. rewrite <- IH.
    destruct (Ascii.eqb_spec x c) as [->|]; [by rewrite decide_True|by rewrite decide_False].
  - apply orb_false_iff in Hc as [Hc H3]. apply orb_false_iff in Hc as [H1 H2].
    change (String c (esc q) +:+ "%") with (String c (esc q +:+ "%")). cbn [like_match]. rewrite H1, H2, H3.
    destruct s as [|x s]; [done|]. cbn [HasPrefix]. rewrite <- IH.
    destruct (Ascii.eqb_spec x c) as [->|]; [by rewrite decide_True|by rewrite decide_False].
Qed.

(** The escaped search pattern matches exactly the texts that contain the search
    text byte for byte: per cent signs, underscores and backslashes in it stand for
    themselves. *)
Theorem like_escape_exact q s : like_match ("%" +:+ escapeLike q +:+ "%") s = Contains s q.
Proof.
  rewrite escapeLike_esc. change ("%" +:+ esc q +:+ "%") with (String "%" (esc q +:+ "%")).
  change (skip_match (like_match (esc q +:+ "%")) s = Contains s q).
  induction s as [|c s IH]; cbn [skip_match Contains]; rewrite like_esc; [done|]. by rewrite IH.
Qed.

(** ** Binding *)

(** The rows a read is about. *)
Definition in_scope (orgID : string) (t : Trace) : bool :=
  holds_eq ColOrg orgID t || (String.eqb orgID DefaultOrgID && holds_eq ColOrg "" t).
Definition narrowed (c : column) (v : string) (t : Trace) : bool := negb (nonblank v) || holds_eq c v t.
Definition status_ok (f : TraceFilter) (t : Trace) : bool :=
  let '(ok, err) := effectiveStatusSlice f in if StatusCode t <? 400 then ok else err.
Definition one_of (c : column) (vs : list string) (t : Trace) : bool :=
  match vs with [] => true | _ => existsb (fun v => holds_eq c v t) vs end.

Section Bind.
Context (conv : Time → Time).

Definition starts_before (b : Time) (t : Trace) : bool := IsZero b || (time_of t <? conv b).
Definition starts_since (s : Time) (t : Trace) : bool := IsZero s || (conv s <=? time_of t).

(** [ps] takes exactly the arguments [a] and means [f]. *)
Definition binds (ps : list pred) (a : list arg) (f : Trace → bool) : Prop :=
  ∀ rest, ∃ h, bind conv ps (a ++ rest)%list = Some (h, rest) ∧ ∀ t, h t = f t.

Lemma binds_nil : binds [] [] (fun _ => true).
Proof. intros rest. by eexists. Qed.

Lemma binds_app ps qs a b f g : binds ps a f → binds qs b g → binds (ps ++ qs)%list (a ++ b)%list (fun t => f t && g t).
Proof.
  intros Hp Hq rest. destruct (Hq rest) as (h2 & E2 & F2). destruct (Hp (b ++ rest)%list) as (h1 & E1 & F1).
  rewrite <- app_assoc. revert E1 F1. generalize (a ++ b ++ rest)%list f h1. clear Hp Hq.
  induction ps as [|p ps IH]; intros args f' h' E1 F1; cbn [bind app] in *.
  - injection E1 as <- ->. exists h2. split; [done|]. intros t. by rewrite <- F1, F2.
  - destruct (bind_pred conv p args) as [[f1 r1]|]; [|done].
    destruct (bind conv ps r1) as [[g1 r2]|] eqn:Eb; [|done]. injection E1 as <- ->.
    destruct (IH r1 g1 g1 Eb (fun _ => eq_refl)) as (h & Eh & Fh). rewrite Eh. eexists. split; [done|].
    intros t. cbn. by rewrite Fh, <- F1, andb_assoc.
Qed.

Lemma binds_ext ps a f g : binds ps a f → (∀ t, f t = g t) → binds ps a g.
Proof. intros H E rest. destruct (H rest) as (h & Eh & F). exists h. split; [done|]. intros t. by rewrite F. Qed.

Lemma binds_one p a f : (∀ rest, bind_pred conv p (a ++ rest)%list = Some (f, rest)) → binds [p] a f.
Proof. intros H rest. cbn [bind]. rewrite H. eexists. split; [done|]. intros t. cbn beta. by rewrite andb_true_r. Qed.

Lemma binds_when c p x f : binds [p] [x] f → binds (when c p) (when c x) (fun t => negb c || f t).
Proof. destruct c; [done|]. intros _. apply binds_nil. Qed.

Lemma binds_org orgID : binds [fst (orgScopeClause orgID)] (snd (orgScopeClause orgID)) (in_scope orgID).
Proof.
  unfold orgScopeClause, in_scope. destruct (String.eqb orgID DefaultOrgID).
  - apply binds_one. by intros rest.
  - eapply binds_ext; [by apply binds_one|]. intros t. cbn beta. by rewrite orb_false_r.
Qed.

Lemma binds_eq c v : binds (when (nonblank v) (PEq c)) (when (nonblank v) (AStr v)) (narrowed c v).
Proof. apply binds_when, binds_one. done. Qed.

Lemma binds_before b : binds (when (negb (IsZero b)) PBefore) (when (negb (IsZero b)) (ATime b)) (starts_before b).
Proof.
  eapply binds_ext; [apply binds_when; by apply binds_one|]. intros t. unfold starts_before. by rewrite negb_involutive.
Qed.

Lemma binds_since s : binds (when (negb (IsZero s)) PSince) (when (negb (IsZero s)) (ATime s)) (starts_since s).
Proof.
  eapply binds_ext; [apply binds_when; by apply binds_one|]. intros t. unfold starts_since. by rewrite negb_involutive.
Qed.

Lemma binds_status f : binds (appendStatusConds f) [] (status_ok f).
Proof.
  unfold appendStatusConds, status_ok. destruct (effectiveStatusSlice f) as [[] []];
    (eapply binds_ext; [first [apply binds_nil|apply binds_one; reflexivity]|]); intros t; cbn [fst].
  all: try (destruct (Z.ltb_spec (StatusCode t) 400), (Z.leb_spec 400 (StatusCode t)); lia || done).
  all: by destruct (StatusCode t <? 400).
Qed.

Lemma take_strs_app vs rest : take_strs (length vs) (map AStr vs ++ rest)%list = Some (vs, rest).
Proof. induction vs as [|v vs IH]; [done|]. cbn. by rewrite IH. Qed.

Lemma binds_in c vs : binds (in_pred c vs) (map AStr vs) (one_of c vs).
Proof.
  destruct vs as [|v vs]; [apply binds_nil|]. apply binds_one. intros rest. unfold bind_pred.
  by rewrite (take_strs_app (v :: vs)).
Qed.

Lemma binds_dims f skip :
  binds (fst (appendDimensionConds f skip)) (snd (appendDimensionConds f skip))
    (fun t => one_of ColProvider (if sk_providers skip then [] else filter_providers f) t &&
              one_of ColModel (if sk_models skip then [] else sanitizeCSV (tf_Models f)) t).
Proof. apply binds_app; apply binds_in. Qed.

Lemma binds_window s b : binds [PSince; PBefore] [ATime s; ATime b] (fun t => (conv s <=? time_of t) && (time_of t <? conv b)).
Proof.
  change [PSince; PBefore] with ([PSince] ++ [PBefore])%list. change [ATime s; ATime b] with ([ATime s] ++ [ATime b])%list.
  by apply binds_app; apply binds_one.
Qed.

Lemma binds_run ps a f rest : binds ps a f → ∃ h, bind conv ps (a ++ rest)%list = Some (h, rest) ∧ ∀ t, h t = f t.
Proof. intros H. apply H. Qed.

(** The rows a page selects, without the search text. *)
Definition page_spec (orgID userID : string) (before since : Time) (f : TraceFilter) (t : Trace) : bool :=
  in_scope orgID t && (narrowed ColUser userID t && (starts_before before t && (starts_since since t &&
  (narrowed ColProvider (tf_Provider f) t && (narrowed ColTurn (tf_Turn f) t && status_ok f t))))).

Lemma binds_page orgID userID before since f :
  binds ([fst (orgScopeClause orgID)] ++ when (nonblank userID) (PEq ColUser) ++ when (negb (IsZero before)) PBefore ++
         when (negb (IsZero since)) PSince ++ when (nonblank (tf_Provider f)) (PEq ColProvider) ++
         when (nonblank (tf_Turn f)) (PEq ColTurn) ++ appendStatusConds f)%list
        (snd (orgScopeClause orgID) ++ when (nonblank userID) (AStr userID) ++ when (negb (IsZero before)) (ATime before) ++
         when (negb (IsZero since)) (ATime since) ++ when (nonblank (tf_Provider f)) (AStr (tf_Provider f)) ++
         when (nonblank (tf_Turn f)) (AStr (tf_Turn f)) ++ [])%list
        (page_spec orgID userID before since f).
Proof.
  repeat apply binds_app; auto using binds_org, binds_eq, binds_before, binds_since, binds_status.
Qed.

Lemma filter_ext_list (f g : Trace → bool) l : (∀ t, f t = g t) → List.filter f l = List.filter g l.
Proof. intros H. induction l as [|t l IH]; [done|]. cbn. by rewrite H, IH. Qed.

Lemma run_page_binds ps a f n rows :
  binds ps a f → run_page conv ps (a ++ [AInt n])%list rows = Some (take (Z.to_nat n) (merge_sort newer (List.filter f rows))).
Proof.
  intros H. destruct (H [AInt n]) as (h & E & F). unfold run_page. rewrite E. by rewrite (filter_ext_list h f).
Qed.

Lemma run_page_plain orgID userID before since n f rows :
  tf_Q f = "" →
  run_page conv (page_conds orgID userID before since f) (buildTracePageArgs orgID userID before since n f) rows =
  Some (take (Z.to_nat n) (merge_sort newer (List.filter (page_spec orgID userID before since f) rows))).
Proof.
  intros HQ. rewrite <- (run_page_binds _ _ _ n rows (binds_page orgID userID before since f)).
  unfold page_conds, buildTracePageArgs. rewrite HQ. change (nonblank "") with false. cbn [when].
  by rewrite app_nil_r, <- !app_assoc.
Qed.

(** ** Pages *)

Lemma trace_page_eq rows before since limit orgID userID f :
  tf_Q f = "" →
  let matching := merge_sort newer (List.filter (page_spec orgID userID before since f) rows) in
  let n := Z.to_nat (page_limit limit) in
  TracePage conv rows before since limit orgID userID f =
  Some (mkPage (take n matching)
    (if (n <? length matching)%nat then time_of <$> last (take n matching) else None)
    (if IsZero since then None else Some since)).
Proof.
  intros HQ matching n. unfold TracePage. rewrite run_page_plain by done. fold matching.
  assert (1 ≤ page_limit limit) as Hl.
  { unfold page_limit. destruct (Z.leb_spec limit 0), (Z.ltb_spec 500 limit); cbn; lia. }
  rewrite length_take, take_take.
  replace (Z.to_nat (page_limit limit + 1)) with (S n) by lia.
  replace (min (Z.to_nat (page_limit limit)) (S n)) with n by lia.
  destruct (Nat.ltb_spec n (length matching)) as [H|H].
  - destruct (Z.ltb_spec (page_limit limit) (Z.of_nat (min (S n) (length matching)))); [done|lia].
  - destruct (Z.ltb_spec (page_limit limit) (Z.of_nat (min (S n) (length matching)))); [lia|].
    by rewrite !take_ge by lia.
Qed.

(** A page without a search text is the [limit] newest of the rows of the
    organisation (the default organisation also adopts the rows without one) that
    match the user, the half-open window, the provider, the turn and the status;
    the cursor is the last row's timestamp exactly when more rows match. *)
Theorem trace_page_exact rows before since limit orgID userID f :
  tf_Q f = "" →
  let matching := merge_sort newer (List.filter (page_spec orgID userID before since f) rows) in
  let n := Z.to_nat (page_limit limit) in
  TracePage conv rows before since limit orgID userID f =
  Some (mkPage (take n matching)
    (if (n <? length matching)%nat then time_of <$> last (take n matching) else None)
    (if IsZero since then None else Some since)).
Proof. apply trace_page_eq. Qed.

Lemma bind_app_fail ps qs a h r : bind conv ps a = Some (h, r) → bind conv qs r = None → bind conv (ps ++ qs)%list a = None.
Proof.
  revert a h. induction ps as [|p ps IH]; intros a h E1 E2; cbn [bind app] in *; [by injection E1 as _ ->|].
  destruct (bind_pred conv p a) as [[f1 r1]|]; [|done].
  destruct (bind conv ps r1) as [[g1 r2]|] eqn:Eb; [|done]. injection E1 as <- ->. by rewrite (IH r1 g1 Eb E2).
Qed.

Lemma search_fails rows before since limit orgID userID f :
  tf_Q f ≠ "" → TracePage conv rows before since limit orgID userID f = None.
Proof.
  intros HQ. unfold TracePage, run_page.
  assert (nonblank (tf_Q f) = true) as Hq by (unfold nonblank; by destruct (String.eqb_spec (tf_Q f) "")).
  assert (bind conv (page_conds orgID userID before since f)
            (buildTracePageArgs orgID userID before since (page_limit limit + 1) f) = None) as ->; [|done].
  unfold page_conds, buildTracePageArgs. rewrite Hq. cbn [when].
  set (pat := AStr ("%" +:+ escapeLike (tf_Q f) +:+ "%")).
  destruct (binds_page orgID userID before since f ([pat; pat; pat; pat] ++ [AInt (page_limit limit + 1)])%list) as (h & E & _).
  rewrite <- !app_assoc in E. rewrite app_nil_l in E. rewrite !app_assoc in E. rewrite !(app_assoc (A:=pred)), !(app_assoc (A:=arg)). by apply (bind_app_fail _ _ _ _ _ E).
Qed.

(** Any search text makes the list fail: the statement names [user_email], a
    column the table of traces does not have. *)
Theorem search_always_fails rows before since limit orgID userID f :
  tf_Q f ≠ "" → TracePage conv rows before since limit orgID userID f = None.
Proof. apply search_fails. Qed.

(** ** Walking the cursors *)

(** The client asks again from the returned cursor until there is none. *)
Fixpoint walk_pages (fuel : nat) (rows : list Trace) (before since : Time) (limit : Z) (orgID userID : string) (f : TraceFilter)
    : option (list Trace) :=
  match fuel with
  | O => None
  | S fuel' =>
      match TracePage conv rows before since limit orgID userID f with
      | None => None
      | Some pg =>
          match pg_before pg with
          | None => Some (pg_items pg)
          | Some b => app (pg_items pg) <$> walk_pages fuel' rows b since limit orgID userID f
          end
      end
  end.

Definition strictly_newer (a b : Trace) : Prop := time_of b < time_of a.

#[local] Instance newer_total : Total newer.
Proof.
  intros a b. unfold newer. destruct (Z.lt_trichotomy (Timestamp (t_base a)) (Timestamp (t_base b))) as [|[E|]]; [tauto| |tauto].
  destruct (total String.le (TraceID (t_base a)) (TraceID (t_base b))); [right|left]; right; by rewrite E.
Qed.
#[local] Instance newer_trans : Transitive newer.
Proof.
  intros a b c [H1|[E1 H1]] [H2|[E2 H2]]; unfold newer; [left; lia|left; lia|left; lia|right; split; [lia|by etrans]].
Qed.

Lemma strict_sorted_page (l : list Trace) : NoDup (map time_of l) → StronglySorted strictly_newer (merge_sort newer l).
Proof.
  intros Hn. pose proof (StronglySorted_merge_sort newer l) as Hs.
  assert (NoDup (map time_of (merge_sort newer l))) as Hm by (by rewrite (merge_sort_Permutation newer l)).
  revert Hs Hm. generalize (merge_sort newer l). clear. induction 1 as [|t l Hs IH Ht]; [constructor|].
  cbn [map]. intros [Hx Hn]%NoDup_cons. constructor; [by apply IH|].
  rewrite Forall_forall in *. intros u Hu. destruct (Ht u Hu) as [|[E _]]; [done|]. exfalso. apply Hx.
  replace (time_of t) with (time_of u) by (unfold time_of; congruence). by apply list_elem_of_fmap_2.
Qed.

#[local] Instance strict_antisym : AntiSymm (=) strictly_newer.
Proof. intros a b H1 H2. unfold strictly_newer in *. lia. Qed.

Lemma strict_filter (g : Trace → bool) l : StronglySorted strictly_newer l → StronglySorted strictly_newer (List.filter g l).
Proof.
  induction 1 as [|t l Hs IH Ht]; [constructor|]. cbn. destruct (g t); [|done]. constructor; [done|].
  rewrite Forall_forall in *. intros u Hu. apply Ht. apply list_elem_of_In in Hu. apply list_elem_of_In. by apply filter_In in Hu as [? _].
Qed.

Lemma strict_unique l k : NoDup (map time_of l) → l ≡ₚ k → merge_sort newer l = merge_sort newer k.
Proof.
  intros Hn Hp. apply (StronglySorted_unique strictly_newer).
  - by apply strict_sorted_page.
  - apply strict_sorted_page. by rewrite <- Hp.
  - by rewrite !merge_sort_Permutation.
Qed.

Lemma keep_perm (g : Trace → bool) l k : l ≡ₚ k → List.filter g l ≡ₚ List.filter g k.
Proof.
  induction 1; cbn; [done| | |by etrans].
  - by destruct (g x); [constructor|].
  - destruct (g x), (g y); try done. by constructor.
Qed.

Lemma filter_times_nodup (g : Trace → bool) l : NoDup (map time_of l) → NoDup (map time_of (List.filter g l)).
Proof.
  induction l as [|t l IH]; [done|]. cbn. intros [Ht Hn]%NoDup_cons. destruct (g t); [|by apply IH].
  cbn. apply NoDup_cons. split; [|by apply IH]. intros (u & E & Hu)%list_elem_of_fmap. apply Ht. rewrite E.
  apply list_elem_of_fmap_2. apply list_elem_of_In in Hu. apply filter_In in Hu as [Hu _]. by apply list_elem_of_In.
Qed.

Lemma sort_filter (g : Trace → bool) l :
  NoDup (map time_of l) → merge_sort newer (List.filter g l) = List.filter g (merge_sort newer l).
Proof.
  intros Hn. apply (StronglySorted_unique strictly_newer).
  - apply strict_sorted_page. by apply filter_times_nodup.
  - by apply strict_filter, strict_sorted_page.
  - rewrite merge_sort_Permutation. apply keep_perm. by rewrite merge_sort_Permutation.
Qed.

(** Below the last row of a strictly sorted prefix lies exactly the rest. *)
Lemma filter_below_last l n t :
  StronglySorted strictly_newer l → last (take n l) = Some t →
  List.filter (fun u => time_of u <? time_of t) l = drop n l.
Proof.
  revert n. induction l as [|x l IH]; intros n Hs Hl; [by rewrite take_nil in Hl|].
  destruct n as [|n]; [done|]. cbn [take drop] in *. inversion Hs as [|? ? Hs' Hx]; subst.
  assert (time_of t ≤ time_of x) as Hle.
  { apply last_Some_elem_of in Hl. apply elem_of_cons in Hl as [->|Hl]; [done|].
    apply elem_of_take in Hl as (i & Hl & _). rewrite Forall_forall in Hx.
    apply Z.lt_le_incl, Hx. by eapply list_elem_of_lookup_2. }
  cbn [List.filter]. destruct (Z.ltb_spec (time_of x) (time_of t)); [lia|].
  destruct (last (take n l)) as [t'|] eqn:El.
  - rewrite last_cons, El in Hl. injection Hl as ->. by apply IH.
  - apply last_None in El. rewrite El in Hl. injection Hl as <-.
    assert (drop n l = l) as -> by (destruct n, l; done).
    clear -Hx. induction Hx as [|u l Hu _ IH]; [done|]. cbn. unfold strictly_newer in Hu.
    destruct (Z.ltb_spec (time_of u) (time_of x)); [by rewrite IH|lia].
Qed.

Section Walk.
Context (rows : list Trace) (since : Time) (limit : Z) (orgID userID : string) (f : TraceFilter).
Context (no_search : tf_Q f = "").
Context (distinct : NoDup (map time_of rows)).
Context (stored_late : Forall (fun t => zero_time < time_of t) rows).
Context (no_later : ∀ x, conv x ≤ x).
Context (separated : ∀ t u, t ∈ rows → u ∈ rows → time_of u < time_of t → time_of u < conv (time_of t)).

Abbreviation matching b := (merge_sort newer (List.filter (page_spec orgID userID b since f) rows)).

Lemma matching_in b t : t ∈ matching b → page_spec orgID userID b since f t = true ∧ t ∈ rows.
Proof using Type.
  rewrite merge_sort_Permutation. rewrite list_elem_of_In, filter_In, list_elem_of_In. tauto.
Qed.

Lemma matching_next b t : t ∈ matching b → matching (time_of t) = List.filter (fun u => time_of u <? time_of t) (matching b).
Proof using distinct stored_late no_later separated.
  intros Ht. apply matching_in in Ht as [Hp Hr]. rewrite Forall_forall in stored_late.
  rewrite <- sort_filter by (by apply filter_times_nodup). f_equal. specialize (stored_late t Hr). specialize (no_later (time_of t)).
  assert (∀ u, u ∈ rows → (time_of u <? conv (time_of t)) = (time_of u <? time_of t)) as exact.
  { intros u Hu. specialize (separated t u Hr Hu). destruct (Z.ltb_spec (time_of u) (conv (time_of t))), (Z.ltb_spec (time_of u) (time_of t)); lia. }
  clear Hr distinct separated no_later.
  induction rows as [|u l IH]; [done|]. cbn [List.filter]. specialize (IH (λ x Hx, exact x (list_elem_of_further _ _ _ Hx))).
  specialize (exact u (list_elem_of_here _ _)).
  assert (page_spec orgID userID (time_of t) since f u =
          page_spec orgID userID b since f u && (time_of u <? time_of t)) as ->.
  { revert Hp. unfold page_spec, starts_before. rewrite exact.
    assert (IsZero (time_of t) = false) as -> by (unfold IsZero; lia). cbn [orb].
    destruct (in_scope orgID u), (narrowed ColUser userID u), (starts_since since u),
      (narrowed ColProvider (tf_Provider f) u), (narrowed ColTurn (tf_Turn f) u), (status_ok f u);
      cbn [andb]; rewrite ?andb_false_r; try done.
    rewrite !andb_true_r. rewrite !andb_true_iff, orb_true_iff. intros (_ & _ & [->|Hb] & _); [done|].
    destruct (IsZero b); [done|]. cbn [orb]. lia. }
  destruct (page_spec orgID userID b since f u); cbn [andb List.filter].
  - destruct (time_of u <? time_of t); by rewrite IH.
  - done.
Qed.

Lemma walk_pages_all fuel b : (length (matching b) < fuel)%nat → walk_pages fuel rows b since limit orgID userID f = Some (matching b).
Proof using no_search distinct stored_late no_later separated.
  revert b. induction fuel as [|fuel IH]; intros b Hf; [lia|]. cbn [walk_pages].
  rewrite trace_page_eq by done. cbn [pg_before pg_items]. set (n := Z.to_nat (page_limit limit)).
  assert (1 ≤ n)%nat as Hn.
  { unfold n, page_limit. destruct (Z.leb_spec limit 0), (Z.ltb_spec 500 limit); cbn; lia. }
  destruct (Nat.ltb_spec n (length (matching b))) as [Hlt|]; [|by rewrite take_ge by lia].
  destruct (last (take n (matching b))) as [t|] eqn:El; cycle 1.
  { apply last_None in El. apply (f_equal length) in El. rewrite length_take in El. cbn in El. lia. }
  cbn [fmap option_fmap option_map].
  assert (t ∈ matching b) as Ht.
  { apply last_Some_elem_of, elem_of_take in El as (i & El & _). by eapply list_elem_of_lookup_2. }
  assert (matching (time_of t) = drop n (matching b)) as E.
  { rewrite (matching_next b t Ht). apply filter_below_last; [|done]. by apply strict_sorted_page, filter_times_nodup. }
  rewrite IH; rewrite E; [|rewrite length_drop; lia].
  cbn [fmap option_fmap option_map]. by rewrite take_drop.
Qed.

(** [C27] Following the cursors from any starting point without a search text returns
    every matching row once, newest first, after finitely many pages.  This needs
    distinct stored times that the driver's rendering of a bound keeps apart: it does
    not move a bound forward, and of two rows the older stays below the bound rendered
    from the newer.  With a driver that keeps sub-seconds that is distinctness alone;
    with one that renders whole seconds it is rows in distinct seconds, and otherwise
    rows are lost ([boundary_rows_skipped]). *)
Theorem pages_complete before :
  walk_pages (S (length rows)) rows before since limit orgID userID f = Some (matching before).
Proof using no_search distinct stored_late no_later separated.
  apply walk_pages_all. rewrite merge_sort_Permutation. pose proof (filter_length_le (page_spec orgID userID before since f) rows). lia.
Qed.
End Walk.

Section Skip.
Context (rows : list Trace) (since : Time) (limit : Z) (orgID userID : string) (f : TraceFilter).
Context (no_search : tf_Q f = "").
Context (stored_late : Forall (fun t => zero_time < time_of t) rows).
Context (no_later : ∀ x, conv x ≤ x).

Lemma walk_below fuel b res u :
  IsZero b = false → walk_pages fuel rows b since limit orgID userID f = Some res → u ∈ res → time_of u < conv b.
Proof using no_search stored_late no_later.
  revert b res. induction fuel as [|fuel IH]; intros b res Hb Hw Hu; [done|]. cbn [walk_pages] in Hw.
  rewrite trace_page_eq in Hw by done. cbn [pg_before pg_items] in Hw.
  set (m := merge_sort newer (List.filter (page_spec orgID userID b since f) rows)) in Hw.
  set (n := Z.to_nat (page_limit limit)) in Hw.
  assert (∀ x, x ∈ take n m → time_of x < conv b ∧ x ∈ rows) as Hm.
  { intros x (i & Hx & _)%elem_of_take. apply list_elem_of_lookup_2, matching_in in Hx as [Hx Hr]. split; [|done].
    revert Hx. unfold page_spec, starts_before. rewrite Hb, !andb_true_iff. cbn [orb]. intros (_ & _ & Hx & _).
    lia. }
  rewrite Forall_forall in stored_late.
  destruct (n <? length m)%nat; [|injection Hw as <-; by apply Hm].
  destruct (last (take n m)) as [t|] eqn:El; cbn [fmap option_fmap option_map] in Hw; [|injection Hw as <-; by apply Hm].
  destruct (walk_pages fuel rows (time_of t) since limit orgID userID f) as [res'|] eqn:Ew; [|done].
  injection Hw as <-. apply elem_of_app in Hu as [Hu|Hu]; [by apply Hm|].
  apply last_Some_elem_of in El. destruct (Hm t El) as [Ht Hr]. specialize (stored_late t Hr).
  assert (IsZero (time_of t) = false) as Hz by (unfold IsZero; lia). specialize (IH _ _ Hz Ew Hu). specialize (no_later (time_of t)). lia.
Qed.

(** A row that did not fit on a page and is not below the rendered timestamp of the
    page's last row is on no page: the cursor carries the timestamp alone and the next
    page starts strictly below its rendering.  So rows of one timestamp are lost, and
    with whole seconds all that follow in the second of a page's last row. *)
Theorem boundary_rows_skipped fuel before res t u :
  let m := merge_sort newer (List.filter (page_spec orgID userID before since f) rows) in
  let n := Z.to_nat (page_limit limit) in
  (n < length m)%nat → last (take n m) = Some t → u ∉ take n m → conv (time_of t) ≤ time_of u →
  walk_pages fuel rows before since limit orgID userID f = Some res → u ∉ res.
Proof using no_search stored_late no_later.
  intros m n Hn Hl Hu Ht Hw. destruct fuel as [|fuel]; [done|]. cbn [walk_pages] in Hw.
  rewrite trace_page_eq in Hw by done. cbn [pg_before pg_items] in Hw. fold m n in Hw.
  destruct (Nat.ltb_spec n (length m)); [|lia]. rewrite Hl in Hw. cbn [fmap option_fmap option_map] in Hw.
  destruct (walk_pages fuel rows (time_of t) since limit orgID userID f) as [res'|] eqn:Ew; [|done].
  injection Hw as <-. intros [?|Hu']%elem_of_app; [done|].
  apply last_Some_elem_of, elem_of_take in Hl as (i & Hi & _). apply list_elem_of_lookup_2, matching_in in Hi as [_ Hr].
  pose proof (proj1 (Forall_forall _ _) stored_late t Hr) as Hlate. cbn beta in Hlate.
  assert (IsZero (time_of t) = false) as Hz by (unfold IsZero; lia).
  pose proof (walk_below _ _ _ u Hz Ew Hu'). lia.
Qed.
End Skip.

(** ** Confinement *)

Lemma in_sorted_page n (g : Trace → bool) rows t :
  t ∈ take n (merge_sort newer (List.filter g rows)) → g t = true ∧ t ∈ rows.
Proof.
  intros (i & Hx & _)%elem_of_take. apply list_elem_of_lookup_2 in Hx. revert Hx.
  rewrite merge_sort_Permutation, list_elem_of_In, filter_In, list_elem_of_In. tauto.
Qed.

Lemma recent_eq rows limit orgID userID :
  RecentTraces conv rows limit orgID userID =
  Some (take (Z.to_nat (if (limit <=? 0) || (1000 <? limit) then 100 else limit))
         (merge_sort newer (List.filter (fun t => in_scope orgID t && narrowed ColUser userID t) rows))).
Proof.
  unfold RecentTraces. rewrite app_assoc. apply run_page_binds. apply binds_app; [apply binds_org|apply binds_eq].
Qed.

Definition window_spec (orgID userID : string) (before since : Time) (f : TraceFilter) (t : Trace) : bool :=
  in_scope orgID t && (narrowed ColUser userID t && ((conv since <=? time_of t) && (time_of t <? conv before) &&
  (status_ok f t && (one_of ColProvider (filter_providers f) t && one_of ColModel (sanitizeCSV (tf_Models f)) t)))).

Lemma window_rows_eq rows before since orgID userID f :
  window_rows conv rows before since orgID userID f = Some (List.filter (window_spec orgID userID before since f) rows).
Proof.
  assert (binds (window_conds orgID userID f no_skip) (window_args orgID userID before since f no_skip)
            (window_spec orgID userID before since f)) as H.
  { unfold window_conds, window_args, window_spec.
    apply binds_app; [apply binds_org|]. apply binds_app; [apply binds_eq|]. apply binds_app; [apply binds_window|].
    change (snd (appendDimensionConds f no_skip)) with ([] ++ snd (appendDimensionConds f no_skip))%list.
    apply binds_app; [apply binds_status|apply (binds_dims f no_skip)]. }
  destruct (H []) as (h & E & F). unfold window_rows. rewrite app_nil_r in E. rewrite E. by rewrite (filter_ext_list h _ rows F).
Qed.

Lemma evidence_eq rows scores orgID userID traceID t ss :
  TraceEvidence conv rows scores orgID userID traceID = Some (Some (t, ss)) →
  t ∈ rows ∧ in_scope orgID t = true ∧ narrowed ColUser userID t = true ∧ TraceID (t_base t) = traceID ∧
  ss = evalScoresForTrace scores orgID traceID.
Proof.
  unfold TraceEvidence. destruct (String.eqb (TrimSpace traceID) ""); [done|].
  assert (binds ([fst (orgScopeClause orgID)] ++ when (nonblank userID) (PEq ColUser) ++ [PEq ColTrace])%list
            (snd (orgScopeClause orgID) ++ when (nonblank userID) (AStr userID) ++ [AStr traceID])%list
            (fun t => in_scope orgID t && (narrowed ColUser userID t && holds_eq ColTrace traceID t))) as H.
  { repeat apply binds_app; [apply binds_org|apply binds_eq|by apply binds_one]. }
  replace (snd (orgScopeClause orgID) ++ when (nonblank userID) (AStr userID) ++ [AStr traceID; AInt 1])%list
    with ((snd (orgScopeClause orgID) ++ when (nonblank userID) (AStr userID) ++ [AStr traceID]) ++ [AInt 1])%list
    by (by rewrite <- !app_assoc).
  rewrite (run_page_binds _ _ _ 1 rows H).
  destruct (take _ _) as [|x l] eqn:Et; [done|]. intros [= <- <-].
  assert (x ∈ x :: l) as Hx by (by left). rewrite <- Et in Hx. apply in_sorted_page in Hx as [Hg Hr].
  rewrite !andb_true_iff in Hg. destruct Hg as (Ho & Hu & Hc). unfold holds_eq in Hc. cbn [column_value] in Hc.
  apply String.eqb_eq in Hc. done.
Qed.

(** The row belongs to [orgID], or to nobody when [orgID] is the default one. *)
Definition own_row (orgID : string) (t : Trace) : Prop :=
  t_OrgID (t_base t) = orgID ∨ (orgID = DefaultOrgID ∧ t_OrgID (t_base t) = "").

Lemma in_scope_own orgID t : in_scope orgID t = true → own_row orgID t.
Proof.
  unfold in_scope, own_row, holds_eq. cbn [column_value]. rewrite orb_true_iff, andb_true_iff, !String.eqb_eq. tauto.
Qed.

Lemma narrowed_user userID t : narrowed ColUser userID t = true → userID ≠ "" → t_UserID (t_base t) = userID.
Proof.
  unfold narrowed, nonblank, holds_eq. cbn [column_value]. intros H Hu. apply String.eqb_neq in Hu.
  rewrite Hu in H. by apply String.eqb_eq.
Qed.

(** Whatever the list, the older list, the dashboard window and the evidence view
    read is a stored row of the asked organisation, where only the default
    organisation also sees rows without one, and of the asked user. *)
Theorem reads_confined rows scores before since limit orgID userID f traceID :
  (∀ pg t, TracePage conv rows before since limit orgID userID f = Some pg → t ∈ pg_items pg →
     t ∈ rows ∧ own_row orgID t ∧ (userID ≠ "" → t_UserID (t_base t) = userID)) ∧
  (∀ l t, RecentTraces conv rows limit orgID userID = Some l → t ∈ l →
     t ∈ rows ∧ own_row orgID t ∧ (userID ≠ "" → t_UserID (t_base t) = userID)) ∧
  (∀ l t, window_rows conv rows before since orgID userID f = Some l → t ∈ l →
     t ∈ rows ∧ own_row orgID t ∧ (userID ≠ "" → t_UserID (t_base t) = userID)) ∧
  (∀ t ss, TraceEvidence conv rows scores orgID userID traceID = Some (Some (t, ss)) →
     t ∈ rows ∧ own_row orgID t ∧ (userID ≠ "" → t_UserID (t_base t) = userID)).
Proof.
  assert (∀ t, in_scope orgID t = true → narrowed ColUser userID t = true →
    own_row orgID t ∧ (userID ≠ "" → t_UserID (t_base t) = userID)) as Hown by eauto using in_scope_own, narrowed_user.
  split_and!.
  - intros pg t H Ht. destruct (decide (tf_Q f = "")) as [HQ|HQ]; [|by rewrite search_fails in H].
    rewrite trace_page_eq in H by done. injection H as <-. cbn [pg_items] in Ht. apply in_sorted_page in Ht as [Hp Hr].
    unfold page_spec in Hp. rewrite !andb_true_iff in Hp. split; [done|]. apply Hown; tauto.
  - intros l t H Ht. rewrite recent_eq in H. injection H as <-. apply in_sorted_page in Ht as [Hp Hr].
    rewrite andb_true_iff in Hp. split; [done|]. apply Hown; tauto.
  - intros l t H Ht. rewrite window_rows_eq in H. injection H as <-. apply list_elem_of_In, filter_In in Ht as [Hr Hp].
    unfold window_spec in Hp. rewrite !andb_true_iff in Hp. split; [by apply list_elem_of_In|]. apply Hown; tauto.
  - intros t ss (Hr & Ho & Hu & _)%evidence_eq. split; [done|]. apply Hown; tauto.
Qed.

(** ** Turns *)

Definition total (g : TurnSummary → Z) (l : list TurnSummary) : Z := foldr (fun t n => g t + n) 0 l.

Definition group (l : list Trace) (key : string) : list Trace := List.filter (fun t => String.eqb (turn_group_key t) key) l.

Definition sum_groups (g : Trace → Z) (l : list Trace) (ks : list string) : Z := foldr (fun k n => sumZ g (group l k) + n) 0 ks.

Lemma group_cons t l k : group (t :: l) k = if String.eqb (turn_group_key t) k then t :: group l k else group l k.
Proof. done. Qed.

Lemma sum_groups_notin g t l ks : turn_group_key t ∉ ks → sum_groups g (t :: l) ks = sum_groups g l ks.
Proof.
  induction ks as [|k ks IH]; [done|]. intros [Hk Hnk]%not_elem_of_cons. cbn [sum_groups foldr].
  fold (sum_groups g (t :: l) ks) (sum_groups g l ks). rewrite (IH Hnk), group_cons. by apply String.eqb_neq in Hk as ->.
Qed.

Lemma sumZ_cons g t l : sumZ g (t :: l) = g t + sumZ g l.
Proof. done. Qed.

Lemma sum_groups_in g t l ks : NoDup ks → turn_group_key t ∈ ks → sum_groups g (t :: l) ks = g t + sum_groups g l ks.
Proof.
  induction ks as [|k ks IH]; [by intros _ ?%elem_of_nil|]. intros [Hnk Hk]%NoDup_cons Ht. cbn [sum_groups foldr].
  fold (sum_groups g (t :: l) ks) (sum_groups g l ks). rewrite group_cons.
  destruct (String.eqb_spec (turn_group_key t) k) as [E|E].
  - subst k. rewrite sum_groups_notin, sumZ_cons by done. lia.
  - apply elem_of_cons in Ht as [?|Ht]; [done|]. rewrite IH by done. lia.
Qed.

Lemma sumZ_groups g l ks : NoDup ks → Forall (fun t => turn_group_key t ∈ ks) l → sum_groups g l ks = sumZ g l.
Proof.
  intros Hk. induction 1 as [|t l Ht _ IH].
  - clear. induction ks as [|k ks IH]; [done|]. exact IH.
  - by rewrite sum_groups_in, sumZ_cons, IH.
Qed.

Lemma group_nonempty l k : k ∈ map turn_group_key l → group l k ≠ [].
Proof.
  intros (t & -> & Ht)%list_elem_of_fmap. apply list_elem_of_In in Ht. intros E.
  assert (In t (group l (turn_group_key t))) as H by (apply filter_In; by rewrite String.eqb_refl). by rewrite E in H.
Qed.

Lemma turn_groups_spec l : ∃ ks, NoDup ks ∧ (∀ k, k ∈ ks ↔ k ∈ map turn_group_key l) ∧
  map ts_TurnID (turn_groups l) = ks ∧
  (∀ g g', (∀ k t0 r, g (turn_summary k t0 r) = sumZ g' (t0 :: r)) →
     total g (turn_groups l) = sum_groups g' l ks).
Proof.
  exists (nodup String.string_dec (map turn_group_key l)). split_and!.
  - apply NoDup_ListNoDup, NoDup_nodup.
  - intros k. by rewrite !list_elem_of_In, nodup_In.
  - unfold turn_groups.
    assert (∀ k, k ∈ nodup String.string_dec (map turn_group_key l) → group l k ≠ []) as H.
    { intros k Hk. apply group_nonempty. by rewrite list_elem_of_In, nodup_In, <- list_elem_of_In in Hk. }
    revert H. generalize (nodup String.string_dec (map turn_group_key l)). induction l0 as [|k ks IH]; intros H; [done|].
    cbn. fold (group l k). destruct (group l k) as [|t0 r] eqn:E; [by destruct (H k ltac:(left))|].
    cbn. f_equal. apply IH. intros k' Hk'. apply H. by right.
  - intros g g' Hg. unfold turn_groups.
    induction (nodup String.string_dec (map turn_group_key l)) as [|k ks IH]; [done|].
    cbn [omap list_omap foldr sum_groups]. fold (group l k). fold (sum_groups g' l ks). destruct (group l k) as [|t0 r]; [done|].
    cbn [total foldr]. rewrite Hg. fold (total g). by rewrite <- IH.
Qed.

Lemma total_perm g l k : l ≡ₚ k → total g l = total g k.
Proof. induction 1; cbn [total foldr] in *; unfold total in *; lia. Qed.

Definition turn_spec (orgID userID : string) (before since : Time) (t : Trace) : bool :=
  in_scope orgID t && (narrowed ColUser userID t && (starts_before before t && starts_since since t)).

Lemma turn_page_eq rows before since limit orgID userID :
  TurnPage conv rows before since limit orgID userID =
  Some (take (Z.to_nat (if (limit <=? 0) || (200 <? limit) then 20 else limit))
    (merge_sort later_turn (turn_groups (List.filter (turn_spec orgID userID before since) rows)))).
Proof.
  unfold TurnPage. set (n := if (limit <=? 0) || (200 <? limit) then 20 else limit).
  assert (binds (turn_conds orgID userID before since)
    (snd (orgScopeClause orgID) ++ when (nonblank userID) (AStr userID) ++
     when (negb (IsZero before)) (ATime before) ++ when (negb (IsZero since)) (ATime since))%list
    (turn_spec orgID userID before since)) as H.
  { repeat apply binds_app; auto using binds_org, binds_eq, binds_before, binds_since. }
  destruct (H [AInt n]) as (h & E & F). unfold buildTurnPageArgs. rewrite <- !app_assoc in E. rewrite E.
  by rewrite (filter_ext_list h _ rows F).
Qed.

(** The turns account for every call: when they all fit on the page, no turn
    appears twice, and the calls, the tokens and the latency over the turns sum to
    those of the rows in scope and window. *)
Theorem turns_account_for_rows rows before since limit orgID userID :
  let matching := List.filter (turn_spec orgID userID before since) rows in
  let n := Z.to_nat (if (limit <=? 0) || (200 <? limit) then 20 else limit) in
  (length (turn_groups matching) ≤ n)%nat →
  ∃ page, TurnPage conv rows before since limit orgID userID = Some page ∧
    NoDup (map ts_TurnID page) ∧
    (∀ k, k ∈ map ts_TurnID page ↔ k ∈ map turn_group_key matching) ∧
    total ts_TraceCount page = Z.of_nat (length matching) ∧
    total ts_TotalTokens page = sumZ tokens_of matching ∧
    total ts_LatencyMs page = sumZ LatencyMs matching.
Proof.
  intros matching n Hn. eexists. split; [apply turn_page_eq|]. fold matching n.
  rewrite take_ge by (by rewrite (merge_sort_Permutation later_turn)).
  destruct (turn_groups_spec matching) as (ks & Hnd & Hks & Hids & Htot).
  assert (Forall (fun t => turn_group_key t ∈ ks) matching) as Hall.
  { apply Forall_forall. intros t Ht. apply Hks. by apply list_elem_of_fmap_2. }
  rewrite !(total_perm _ _ _ (merge_sort_Permutation later_turn _)), !(merge_sort_Permutation later_turn), Hids.
  split_and!; [done|intros k; by rewrite (merge_sort_Permutation later_turn), Hids| | |].
  - rewrite (Htot _ (fun _ => 1)), sumZ_groups by (try done; intros; cbn -[Z.of_nat]; induction r; cbn -[Z.of_nat] in *; lia).
    clear. induction matching as [|t l IH]; [done|]. cbn -[Z.of_nat]. fold (sumZ (fun _ => 1) l). lia.
  - by rewrite (Htot _ tokens_of), sumZ_groups.
  - by rewrite (Htot _ LatencyMs), sumZ_groups.
Qed.

(** ** Spend *)

Definition spend_spec (orgID userID : string) (w : Time * Time) (t : Trace) : bool :=
  holds_eq ColOrg orgID t && (((conv (fst w) <=? time_of t) && (time_of t <? conv (snd w))) && narrowed ColUser userID t).

Lemma binds_spend orgID userID w :
  binds (spend_conds userID) ([AStr orgID; ATime (fst w); ATime (snd w)] ++ when (nonblank userID) (AStr userID))%list
    (spend_spec orgID userID w).
Proof.
  unfold spend_conds, spend_spec.
  change ([PEq ColOrg; PSince; PBefore] ++ when (nonblank userID) (PEq ColUser))%list
    with ([PEq ColOrg] ++ [PSince; PBefore] ++ when (nonblank userID) (PEq ColUser))%list.
  change ([AStr orgID; ATime (fst w); ATime (snd w)] ++ when (nonblank userID) (AStr userID))%list
    with ([AStr orgID] ++ [ATime (fst w); ATime (snd w)] ++ when (nonblank userID) (AStr userID))%list.
  apply binds_app; [by apply binds_one|]. apply binds_app; [apply binds_window|apply binds_eq].
Qed.

Lemma spend_eq sum_cost rows now days orgID userID :
  ∃ s, DailySpendSummary conv sum_cost rows now days orgID userID = Some s ∧
    let cur := List.filter (spend_spec orgID userID (fst (spend_windows now days))) rows in
    let prev := List.filter (spend_spec orgID userID (snd (spend_windows now days))) rows in
    CurrentRequests s = Z.of_nat (length cur) ∧ PreviousRequests s = Z.of_nat (length prev) ∧
    CurrentTokens s = sumZ tokens_of cur ∧ PreviousTokens s = sumZ tokens_of prev ∧
    CurrentCost s = sum_cost cur ∧ PreviousCost s = sum_cost prev.
Proof.
  unfold DailySpendSummary. destruct (spend_windows now days) as [[cs cu] [ps pu]]. cbn [fst snd].
  assert (buildSummaryArgs orgID cs cu ps pu userID =
    (([AStr orgID; ATime cs; ATime cu] ++ when (nonblank userID) (AStr userID)) ++
     ([AStr orgID; ATime ps; ATime pu] ++ when (nonblank userID) (AStr userID)) ++ [])%list) as ->.
  { unfold buildSummaryArgs, nonblank. by destruct (String.eqb userID ""). }
  destruct (binds_spend orgID userID (cs, cu) (([AStr orgID; ATime ps; ATime pu] ++ when (nonblank userID) (AStr userID)) ++ [])%list)
    as (h & E & F). cbn [fst snd] in E. rewrite E.
  destruct (binds_spend orgID userID (ps, pu) []) as (h' & E' & F'). cbn [fst snd] in E'. rewrite E'.
  eexists. split; [done|]. cbn. by rewrite (filter_ext_list _ _ rows F), (filter_ext_list _ _ rows F').
Qed.

Lemma length_filter_split (p q r : Trace → bool) l :
  (∀ t, r t = p t || q t) → (∀ t, p t = true → q t = false) →
  (length (List.filter r l) = length (List.filter p l) + length (List.filter q l))%nat.
Proof.
  intros Hr Hd. induction l as [|t l IH]; [done|]. cbn. rewrite Hr. specialize (Hd t).
  destruct (p t), (q t); cbn; try lia; by specialize (Hd eq_refl).
Qed.

Lemma in_day_range days : 0 ≤ days ≤ 106751 → wrap64 (- days * (24 * Hour)) = - (days * (24 * Hour)).
Proof.
  intros H. rewrite wrap64_id; [lia|]. unfold in_int64, int64_min, int64_max, Hour, Minute, Second. lia.
Qed.

(** The spend summary's two windows are adjacent, of the same length and end now:
    every request of the last [2 * days] days is counted in exactly one of them, and
    nothing else is. *)
Theorem spend_windows_partition sum_cost rows now days orgID userID s :
  (∀ x y, x ≤ y → conv x ≤ conv y) → 0 ≤ days ≤ 106751 →
  DailySpendSummary conv sum_cost rows now days orgID userID = Some s →
  CurrentRequests s + PreviousRequests s =
  Z.of_nat (length (List.filter (spend_spec orgID userID (now - 2 * (days * (24 * Hour)), now)) rows)).
Proof.
  intros Hm Hd Hs. destruct (spend_eq sum_cost rows now days orgID userID) as (s' & Hs' & Hc & Hp & _).
  rewrite Hs in Hs'. injection Hs' as <-. rewrite Hc, Hp, <- Nat2Z.inj_add. f_equal. symmetry.
  unfold spend_windows. rewrite in_day_range by done. cbn [fst snd]. unfold Add.
  assert (0 ≤ days * (24 * Hour)) by (unfold Hour, Minute, Second; lia).
  apply length_filter_split; intros t; unfold spend_spec; cbn [fst snd].
  - pose proof (Hm (now - 2 * (days * (24 * Hour))) (now + - (days * (24 * Hour))) ltac:(lia)).
    pose proof (Hm (now + - (days * (24 * Hour))) now ltac:(lia)).
    replace (now + - (days * (24 * Hour)) + - (days * (24 * Hour))) with (now - 2 * (days * (24 * Hour))) by lia.
    destruct (holds_eq ColOrg orgID t), (narrowed ColUser userID t); rewrite ?andb_true_l, ?andb_true_r, ?andb_false_r; try done.
    generalize dependent (conv (now - 2 * (days * (24 * Hour)))). generalize dependent (conv (now + - (days * (24 * Hour)))).
    generalize (conv now). intros x y Hyx z Hzy. clear -Hyx Hzy. lia.
  - rewrite !andb_true_iff. intros (_ & (Hlo & _) & _). apply andb_false_intro2, andb_false_intro1, andb_false_intro2. lia.
Qed.

(** Rows recorded before organisations were kept belong to the default organisation
    on every other page, but its spend does not count them. *)
Theorem legacy_rows_unspent sum_cost rows now days userID s :
  Forall (fun t => t_OrgID (t_base t) = "") rows →
  DailySpendSummary conv sum_cost rows now days DefaultOrgID userID = Some s →
  CurrentRequests s = 0 ∧ PreviousRequests s = 0 ∧
  (∀ t, t ∈ rows → in_scope DefaultOrgID t = true).
Proof.
  intros Hl Hs. destruct (spend_eq sum_cost rows now days DefaultOrgID userID) as (s' & Hs' & Hc & Hp & _).
  rewrite Hs in Hs'. injection Hs' as <-.
  assert (∀ w, List.filter (spend_spec DefaultOrgID userID w) rows = []) as Hnil.
  { intros w. clear -Hl. induction Hl as [|t l Ht _ IH]; [done|]. cbn [List.filter]. unfold spend_spec at 1, holds_eq.
    cbn [column_value]. rewrite Ht. exact IH. }
  rewrite Hc, Hp, !Hnil. split_and!; [done|done|]. intros t Ht. rewrite Forall_forall in Hl.
  unfold in_scope, holds_eq. cbn [column_value]. by rewrite (Hl t Ht).
Qed.

(** ** The volume series *)

(** An interval the reader chooses: whole seconds, dividing the zero time. *)
Definition round_interval (i : Duration) : Prop := 0 < i ∧ i mod Second = 0 ∧ zero_time mod i = 0.

Lemma BucketInterval_round w : round_interval (BucketIntervalForWindow w).
Proof. unfold BucketIntervalForWindow. by repeat case_match. Qed.

Section Series.
Context (i : Duration) (Hi : round_interval i).

Lemma Truncate_floor t : Truncate t i = t - t mod i.
Proof using Hi.
  destruct Hi as (H0 & _ & Hz). unfold Truncate. destruct (Z.leb_spec i 0); [lia|].
  by rewrite Zminus_mod, Hz, Z.sub_0_r, Zmod_mod.
Qed.

Lemma interval_seconds : i / Second * Second = i.
Proof using Hi. destruct Hi as (_ & Hs & _). pose proof (Z.div_mod i Second ltac:(done)). lia. Qed.

Lemma start_floor t : start_of_interval (i / Second) t = t - t mod i.
Proof using Hi. unfold start_of_interval. by rewrite interval_seconds. Qed.

Definition aligned (t : Time) : Prop := t mod i = 0.

Lemma floor_aligned t : aligned (t - t mod i).
Proof using Hi. unfold aligned. destruct Hi as (H0 & _). by rewrite Zminus_mod, Zmod_mod, Z.sub_diag, Zmod_0_l. Qed.

Lemma Truncate_aligned t : aligned t → Truncate t i = t.
Proof using Hi. intros H. rewrite Truncate_floor. unfold aligned in H. lia. Qed.

Lemma Unix_inj t u : aligned t → aligned u → Unix t = Unix u → t = u.
Proof using Hi.
  destruct Hi as (H0 & Hs & _). unfold aligned, Unix. intros Ht Hu E.
  assert (∀ x, x mod i = 0 → x mod Second = 0) as Hx.
  { intros x Hx. apply Z.mod_divide; [done|]. apply Z.mod_divide in Hx; [|lia]. apply Z.mod_divide in Hs; [|done]. by etrans. }
  pose proof (Z.div_mod t Second ltac:(done)). pose proof (Z.div_mod u Second ltac:(done)). rewrite (Hx t Ht), (Hx u Hu) in *. lia.
Qed.

Lemma by_unix_lookup sparse t :
  Forall (fun b => aligned (vb_Timestamp b)) sparse → NoDup (map vb_Timestamp sparse) → aligned t →
  by_unix i sparse !! Unix t = list_find (fun b => vb_Timestamp b = t) sparse ≫= (fun r => Some (snd r)).
Proof using Hi.
  intros Ha Hn Ht. unfold by_unix.
  assert (∀ m : gmap Z VolumeBucket, foldl (fun m b => let ts := Truncate (vb_Timestamp b) i in <[Unix ts := mkBucket ts (vb_Ok b) (vb_Err b)]> m) m sparse
      !! Unix t = match list_find (fun b => vb_Timestamp b = t) sparse with Some (_, b) => Some b | None => m !! Unix t end) as H.
  { induction sparse as [|b l IH]; intros m; [done|]. apply Forall_cons in Ha as [Hb Ha].
    cbn [map] in Hn. apply NoDup_cons in Hn as [Hnb Hn]. cbn [foldl list_find].
    rewrite (IH Ha Hn), (Truncate_aligned _ Hb). case_decide as E.
    - destruct (list_find _ l) as [[k c]|] eqn:Ef.
      + apply list_find_Some in Ef as (Hk & Hc & _). exfalso. apply Hnb. rewrite E, <- Hc.
        apply list_elem_of_fmap_2. by eapply list_elem_of_lookup_2.
      + rewrite E, lookup_insert_eq. destruct b; by cbn in *; subst.
    - destruct (list_find _ l) as [[k c]|]; [done|]. cbn. rewrite lookup_insert_ne; [done|].
      intros E'. apply E. by apply Unix_inj. }
  rewrite H, lookup_empty. by destruct (list_find _ sparse) as [[k b]|].
Qed.

Definition in_bin (t : Time) (u : Trace) : bool := (t <=? time_of u) && (time_of u <? t + i).

Lemma floor_bin t u : aligned t → (time_of u - time_of u mod i =? t) = in_bin t u.
Proof using Hi.
  destruct Hi as (H0 & _). unfold aligned, in_bin. intros Ht.
  pose proof (Z.mod_pos_bound (time_of u) i H0) as Hb. apply Z.mod_divide in Ht as [q ->]; [|lia].
  destruct (Z.eqb_spec (time_of u - time_of u mod i) (q * i)) as [E|E]; [lia|]. symmetry. apply andb_false_iff.
  destruct (Z.leb_spec (q * i) (time_of u)) as [Hl|]; [right|by left].
  apply Z.ltb_ge. pose proof (Z.div_mod (time_of u) i ltac:(lia)) as Hd.
  destruct (Z.lt_total q (time_of u / i)) as [H|[H|H]]; nia.
Qed.

Definition bin_of (l : list Trace) (t : Time) : VolumeBucket :=
  mkBucket t (count_if (fun u => StatusCode u <? 400) (List.filter (in_bin t) l))
    (count_if (fun u => 400 <=? StatusCode u) (List.filter (in_bin t) l)).

Lemma series_rows_lookup l t :
  aligned t → default (mkBucket t 0 0) (by_unix i (series_rows (i / Second) l) !! Unix t) = bin_of l t.
Proof using Hi.
  intros Ht. set (keys := merge_sort Z.le (nodup Z.eq_dec (map (fun t => start_of_interval (i / Second) (Timestamp (t_base t))) l))).
  assert (∀ k, k ∈ keys ↔ k ∈ map (fun t => start_of_interval (i / Second) (Timestamp (t_base t))) l) as Hk.
  { intros k. unfold keys. rewrite merge_sort_Permutation. by rewrite !list_elem_of_In, nodup_In. }
  assert (Forall aligned keys) as Hal.
  { apply Forall_forall. intros k (u & -> & _)%Hk%list_elem_of_fmap. rewrite start_floor. apply floor_aligned. }
  assert (∀ k, aligned k → (let l' := List.filter (fun u => start_of_interval (i / Second) (Timestamp (t_base u)) =? k) l in
     mkBucket k (count_if (fun t => StatusCode t <? 400) l') (count_if (fun t => 400 <=? StatusCode t) l')) = bin_of l k) as Hbin.
  { intros k Hka. cbn zeta. unfold bin_of. rewrite (filter_ext_list _ (in_bin k)); [done|]. intros u. rewrite start_floor. by apply floor_bin. }
  assert (series_rows (i / Second) l = map (bin_of l) keys) as ->.
  { unfold series_rows. fold keys. apply map_ext_in. intros k Hj. apply Hbin. rewrite Forall_forall in Hal. apply Hal. by apply list_elem_of_In. }
  rewrite by_unix_lookup; [| |rewrite map_map; cbn; rewrite map_id|done].
  - destruct (list_find _ (map (bin_of l) keys)) as [[j b]|] eqn:Ef; cbn [option_bind mbind].
    + apply list_find_Some in Ef as (Hj & Hb & _). apply list_lookup_fmap_Some in Hj as (k & -> & _). cbn in Hb. by subst k.
    + apply list_find_None in Ef. cbn. assert (List.filter (in_bin t) l = []) as E; [|unfold bin_of; by rewrite E].
      destruct (List.filter (in_bin t) l) as [|u r] eqn:E; [done|]. exfalso.
      assert (In u (List.filter (in_bin t) l)) as Hu by (rewrite E; by left). apply filter_In in Hu as [Hu Hb].
      rewrite <- floor_bin in Hb by done. apply Z.eqb_eq in Hb.
      rewrite Forall_forall in Ef. apply (Ef (bin_of l t)); [|done]. apply list_elem_of_fmap_2, Hk.
      rewrite <- Hb at 1. change (time_of u) with (Timestamp (t_base u)). rewrite <- start_floor. apply (list_elem_of_fmap_2 (fun t => start_of_interval (i / Second) (Timestamp (t_base t)))).
      by apply list_elem_of_In.
  - apply Forall_forall. intros b (k & -> & Hkk)%list_elem_of_fmap. cbn. rewrite Forall_forall in Hal. by apply Hal.
  - unfold keys. rewrite merge_sort_Permutation. apply NoDup_ListNoDup, NoDup_nodup.
Qed.
End Series.

Lemma Sub_pos b s : (Sub b s <=? 0) = false → s < b.
Proof. unfold Sub, int64_min, int64_max. intros H. apply Z.leb_gt in H. lia. Qed.

Lemma dense_start_aligned i s : round_interval i → aligned i (dense_start s i) ∧ s ≤ dense_start s i < s + i.
Proof.
  intros Hi. unfold dense_start. rewrite (Truncate_floor i Hi). pose proof Hi as (H0 & _).
  pose proof (Z.mod_pos_bound s i H0). pose proof (floor_aligned i Hi s) as Ha. unfold Before, Add.
  destruct (Z.ltb_spec (s - s mod i) s); [|split; [done|lia]].
  split; [|lia]. unfold aligned in *. by rewrite <- Z.add_mod_idemp_l, Ha, Z.add_0_l, Z_mod_same_full by lia.
Qed.

Lemma grid_aligned i fuel t b x : round_interval i → aligned i t → x ∈ grid fuel t b i → aligned i x.
Proof.
  intros Hi. revert t. induction fuel as [|fuel IH]; intros t Ht; cbn [grid]; [by intros ?%elem_of_nil|].
  destruct (Before t b); [|by intros ?%elem_of_nil]. intros [->|Hx]%elem_of_cons; [done|]. apply IH in Hx; [done|].
  pose proof Hi as (H0 & _). unfold aligned, Add in *. by rewrite <- Z.add_mod_idemp_l, Ht, Z.add_0_l, Z_mod_same_full by lia.
Qed.

Definition volume (bs : list VolumeBucket) : Z := foldr (fun b n => vb_Ok b + vb_Err b + n) 0 bs.

Lemma bin_volume i l t : vb_Ok (bin_of i l t) + vb_Err (bin_of i l t) = Z.of_nat (length (List.filter (in_bin i t) l)).
Proof.
  cbn [vb_Ok vb_Err bin_of]. unfold count_if. rewrite <- Nat2Z.inj_add. f_equal. symmetry.
  induction (List.filter (in_bin i t) l) as [|u r IH]; [done|]. cbn.
  destruct (Z.ltb_spec (StatusCode u) 400), (Z.leb_spec 400 (StatusCode u)); cbn; lia.
Qed.

Lemma filter_none (g : Trace → bool) l : Forall (fun t => g t = false) l → List.filter g l = [].
Proof. induction 1 as [|t l Ht _ IH]; [done|]. cbn. by rewrite Ht. Qed.

Lemma grid_volume i fuel t b l :
  0 < i → b - t ≤ Z.of_nat fuel * i → Forall (fun u => time_of u < b) l →
  volume (map (bin_of i l) (grid fuel t b i)) = Z.of_nat (length (List.filter (fun u => t <=? time_of u) l)).
Proof.
  intros H0. revert t. induction fuel as [|fuel IH]; intros t Hf Hl; cbn [grid].
  - rewrite filter_none; [done|]. eapply Forall_impl; [done|]. cbn. intros u Hu. lia.
  - unfold Before. destruct (Z.ltb_spec t b) as [Hb|Hb].
    + cbn [map volume foldr]. fold (volume (map (bin_of i l) (grid fuel (Add t i) b i))).
      rewrite bin_volume, IH by (done || unfold Add; lia). rewrite <- Nat2Z.inj_add. f_equal. symmetry.
      apply length_filter_split; intros u; unfold in_bin, Add; lia.
    + rewrite filter_none; [done|]. eapply Forall_impl; [done|]. cbn. intros u Hu. lia.
Qed.

Lemma series_eq rows now before since orgID userID f :
  let b := or_now now before in
  let s := or_hour b since in
  let i := BucketIntervalForWindow (Sub b s) in
  let l := List.filter (window_spec orgID userID b s f) rows in
  s < b →
  RequestVolumeSeries conv rows now before since orgID userID f =
  Some (map (bin_of i l) (grid (S (Z.to_nat ((b - dense_start s i) / i))) (dense_start s i) b i)).
Proof.
  intros b s i l Hsb. unfold RequestVolumeSeries. fold b. fold s. fold i.
  destruct (Sub b s <=? 0) eqn:Hw; [exfalso; revert Hw; unfold Sub, int64_min, int64_max; lia|].
  rewrite window_rows_eq. fold l. f_equal. unfold fillDenseVolumeBuckets.
  pose proof (BucketInterval_round (Sub b s)) as Hi. fold i in Hi. pose proof Hi as (H0 & _).
  unfold After. destruct (Z.leb_spec i 0); [lia|]. destruct (Z.ltb_spec s b); [|lia]. cbn [orb negb].
  apply map_ext_in. intros x Hx. apply list_elem_of_In in Hx. apply series_rows_lookup; [done|].
  eapply grid_aligned; [done| |done]. by apply dense_start_aligned.
Qed.

Lemma grid_in i fuel t b x :
  0 < i → b - t ≤ Z.of_nat fuel * i → x ∈ grid fuel t b i ↔ t ≤ x < b ∧ (x - t) mod i = 0.
Proof.
  intros H0. revert t. induction fuel as [|fuel IH]; intros t Hf; cbn [grid]; [rewrite elem_of_nil; lia|].
  unfold Before. destruct (Z.ltb_spec t b) as [Hb|]; [|rewrite elem_of_nil; lia].
  rewrite elem_of_cons, IH by (unfold Add; lia). unfold Add. split.
  - intros [->|[Hx Hm]]; [by rewrite Z.sub_diag, Zmod_0_l|]. split; [lia|].
    replace (x - t) with (x - (t + i) + 1 * i) by lia. by rewrite Z_mod_plus_full.
  - intros [Hx Hm]. destruct (decide (x = t)) as [|Hne]; [by left|right].
    assert (i ≤ x - t) by (apply Z.divide_pos_le; [lia|]; by apply Z.mod_divide; [lia|]).
    split; [lia|]. replace (x - (t + i)) with (x - t + (-1) * i) by lia. by rewrite Z_mod_plus_full.
Qed.

Lemma grid_fuel b s i : 0 < i → b - s ≤ Z.of_nat (S (Z.to_nat ((b - s) / i))) * i.
Proof.
  intros H0. pose proof (Z.div_mod (b - s) i ltac:(lia)). pose proof (Z.mod_pos_bound (b - s) i H0).
  destruct (Z.le_gt_cases 0 ((b - s) / i)); nia.
Qed.

Lemma filter_strict (g : Trace → bool) l t : t ∈ l → g t = false → (length (List.filter g l) < length l)%nat.
Proof.
  induction l as [|u l IH]; [by intros ?%elem_of_nil|]. intros [->|Ht]%elem_of_cons Hg; cbn [List.filter].
  - rewrite Hg. pose proof (filter_length_le g l). cbn. lia.
  - specialize (IH Ht Hg). destruct (g u); cbn; lia.
Qed.

(** The volume series has one bucket per interval from the first interval boundary
    in the window to its end, and each bucket counts exactly the window's successes
    and failures of its interval. *)
Theorem series_exact rows now before since orgID userID f :
  let b := or_now now before in
  let s := or_hour b since in
  let i := BucketIntervalForWindow (Sub b s) in
  let l := List.filter (window_spec orgID userID b s f) rows in
  s < b →
  ∃ bs, RequestVolumeSeries conv rows now before since orgID userID f = Some bs ∧
    bs = map (bin_of i l) (map vb_Timestamp bs) ∧
    (∀ t, t ∈ map vb_Timestamp bs ↔ aligned i t ∧ s ≤ t < b).
Proof.
  intros b s i l Hsb. eexists. split; [by apply series_eq|]. fold b. fold s. fold i. fold l.
  assert (map vb_Timestamp (map (bin_of i l) (grid (S (Z.to_nat ((b - dense_start s i) / i))) (dense_start s i) b i)) =
          grid (S (Z.to_nat ((b - dense_start s i) / i))) (dense_start s i) b i) as ->.
  { rewrite map_map. cbn. apply map_id. }
  split; [done|]. pose proof (BucketInterval_round (Sub b s)) as Hi. fold i in Hi. pose proof Hi as (H0 & _).
  destruct (dense_start_aligned i s Hi) as [Ha Hd]. intros t.
  rewrite grid_in by (done || by apply grid_fuel). unfold aligned in *. rewrite Zminus_mod, Ha, Z.sub_0_r, Zmod_mod.
  split; [intros [? ?]; split; [done|lia]|]. intros [Hm Ht]. split; [|done]. split; [|lia].
  apply Z.mod_divide in Hm as [q ->]; [|lia]. apply Z.mod_divide in Ha as [r Hr]; [|lia].
  rewrite Hr in *. destruct (Z.le_gt_cases r q) as [Hq|Hq]; [by apply Z.mul_le_mono_nonneg_r; lia|].
  pose proof (Z.mul_le_mono_nonneg_r q (r - 1) i ltac:(lia) ltac:(lia)). lia.
Qed.

(** What the series leaves out is the window's first, partial interval: its buckets
    sum to the requests from the first boundary on, so one request before it makes
    the chart fall short of the total on the same page. *)
Theorem first_partial_bin_dropped rows now before since orgID userID f t :
  let b := or_now now before in
  let s := or_hour b since in
  let i := BucketIntervalForWindow (Sub b s) in
  s < b → conv b ≤ b →
  t ∈ rows → window_spec orgID userID b s f t = true → time_of t < dense_start s i →
  ∃ bs st, RequestVolumeSeries conv rows now before since orgID userID f = Some bs ∧
    WindowStatsRange conv rows now before since orgID userID f = Some st ∧
    volume bs < st_TotalRequests st.
Proof.
  intros b s i Hsb Hc Ht Hw Hlt. do 2 eexists. split; [by apply series_eq|]. unfold WindowStatsRange.
  fold b. fold s. fold i. rewrite window_rows_eq. split; [done|]. cbn [st_TotalRequests stats_of].
  set (l := List.filter (window_spec orgID userID b s f) rows).
  pose proof (BucketInterval_round (Sub b s)) as (H0 & _). fold i in H0.
  rewrite grid_volume; [|done|by apply grid_fuel|].
  - apply inj_lt. eapply (filter_strict _ _ t); [|lia]. apply list_elem_of_In, filter_In. by rewrite <- list_elem_of_In.
  - apply Forall_forall. intros u Hu. apply list_elem_of_In, filter_In in Hu as [_ Hu]. revert Hu.
    unfold window_spec. rewrite !andb_true_iff. intros (_ & _ & (_ & Hu) & _). lia.
Qed.
End Bind.

(** ** Concrete readings *)

Definition row (id : string) (ts : Time) (org turn : string) (status tokens : Z) : Trace :=
  mkTrace (mkBase id "" "" ts org "u" "" "" "openai" fzero fzero 0 "" "" "" "" "" turn) "" "gpt" "" tokens 1 "stop"
    false 0 10 fzero status "" "" "" "" false [] [] "" "".

Definition no_filter : TraceFilter := mkFilter "" [] "" [] [] "" "".

Definition rows4 : list Trace :=
  [row "t1" (10 * Second) "acme" "turn" 200 5; row "t2" (20 * Second) "acme" "turn" 500 7;
   row "t3" (30 * Second) "" "" 200 1; row "t4" (40 * Second) "acme" "" 200 2].

Lemma trace_page_exact_witness :
  tf_Q no_filter = "" ∧
  TracePage id rows4 zero_time zero_time 2 "acme" "" no_filter =
  Some (mkPage [row "t4" (40 * Second) "acme" "" 200 2; row "t2" (20 * Second) "acme" "turn" 500 7] (Some (20 * Second)) None).
Proof.
  split; [done|]. rewrite (trace_page_exact id rows4 zero_time zero_time 2 "acme" "" no_filter eq_refl). vm_compute. reflexivity.
Defined.

Definition search_gpt : TraceFilter := mkFilter "" [] "" [] [] "gpt" "".

Lemma search_always_fails_witness : tf_Q search_gpt ≠ "" ∧ TracePage id rows4 zero_time zero_time 2 "acme" "" search_gpt = None.
Proof. split; [done|]. by apply (search_always_fails id rows4 zero_time zero_time 2 "acme" "" search_gpt). Defined.

(** A driver that renders whole seconds. *)
Definition whole_seconds (t : Time) : Time := t - t mod Second.

Lemma pages_complete_witness :
  walk_pages whole_seconds (S (length rows4)) rows4 zero_time zero_time 1 "acme" "" no_filter =
  Some [row "t4" (40 * Second) "acme" "" 200 2; row "t2" (20 * Second) "acme" "turn" 500 7; row "t1" (10 * Second) "acme" "turn" 200 5].
Proof.
  rewrite (pages_complete whole_seconds rows4 zero_time 1 "acme" "" no_filter eq_refl ltac:(by apply (bool_decide_unpack _); vm_compute)
    ltac:(by repeat constructor)).
  - vm_compute. reflexivity.
  - intros x. unfold whole_seconds. pose proof (Z.mod_pos_bound x Second eq_refl). lia.
  - assert (Forall (fun t => Forall (fun u => time_of u < time_of t → time_of u < whole_seconds (time_of t)) rows4) rows4) as H by (repeat constructor; vm_compute; done).
    intros t u Ht Hu. rewrite Forall_forall in H. specialize (H t Ht). rewrite Forall_forall in H. by apply H.
Defined.

Definition twins : list Trace := [row "a" (10 * Second) "acme" "" 200 1; row "b" (10 * Second + 5) "acme" "" 200 1].

Lemma boundary_rows_skipped_witness :
  ∃ res, walk_pages whole_seconds 3 twins zero_time zero_time 1 "acme" "" no_filter = Some res ∧ row "a" (10 * Second) "acme" "" 200 1 ∉ res.
Proof.
  exists [row "b" (10 * Second + 5) "acme" "" 200 1]. split; [vm_compute; reflexivity|].
  apply (boundary_rows_skipped whole_seconds twins zero_time 1 "acme" "" no_filter eq_refl ltac:(by repeat constructor)
    ltac:(intros x; unfold whole_seconds; pose proof (Z.mod_pos_bound x Second eq_refl); lia)
    3 zero_time _ (row "b" (10 * Second + 5) "acme" "" 200 1)).
  - vm_compute. lia.
  - vm_compute. reflexivity.
  - vm_compute. intros H. apply list_elem_of_singleton in H. discriminate H.
  - vm_compute. intros H. discriminate H.
  - vm_compute. reflexivity.
Defined.

Lemma turns_account_for_rows_witness :
  ∃ page, TurnPage id rows4 zero_time zero_time 20 "acme" "" = Some page ∧ total ts_TraceCount page = 3.
Proof.
  destruct (turns_account_for_rows id rows4 zero_time zero_time 20 "acme" "" ltac:(vm_compute; lia)) as (page & H & _ & _ & Hc & _).
  exists page. split; [done|]. rewrite Hc. vm_compute. reflexivity.
Defined.

Definition free_sum (_ : list Trace) : float64 := fzero.

Lemma spend_windows_partition_witness :
  ∃ s, DailySpendSummary id free_sum rows4 (Second * 86400 + 25 * Second) 1 "acme" "" = Some s ∧
       CurrentRequests s = 1 ∧ CurrentRequests s + PreviousRequests s = 3.
Proof.
  eexists. split; [vm_compute; reflexivity|]. split; [reflexivity|].
  rewrite (spend_windows_partition id free_sum rows4 (Second * 86400 + 25 * Second) 1 "acme" "" _ ltac:(done) ltac:(lia) ltac:(vm_compute; reflexivity)).
  vm_compute. reflexivity.
Defined.

Lemma legacy_rows_unspent_witness :
  ∃ s, DailySpendSummary id free_sum [row "t" 5 "" "" 200 1] 10 1 DefaultOrgID "" = Some s ∧ CurrentRequests s = 0.
Proof.
  eexists. split; [vm_compute; reflexivity|].
  apply (legacy_rows_unspent id free_sum [row "t" 5 "" "" 200 1] 10 1 ""); [by repeat constructor|vm_compute; reflexivity].
Defined.

Lemma series_exact_witness :
  ∃ bs, RequestVolumeSeries id rows4 0 (90 * Second) (5 * Second) "acme" "" no_filter = Some bs ∧
        60 * Second ∈ map vb_Timestamp bs.
Proof.
  destruct (series_exact id rows4 0 (90 * Second) (5 * Second) "acme" "" no_filter ltac:(vm_compute; reflexivity)) as (bs & H & _ & Hg).
  exists bs. split; [done|]. apply Hg. vm_compute. repeat split; discriminate.
Defined.

Lemma first_partial_bin_dropped_witness :
  ∃ bs st, RequestVolumeSeries id rows4 0 (90 * Second) (5 * Second) "acme" "" no_filter = Some bs ∧
           WindowStatsRange id rows4 0 (90 * Second) (5 * Second) "acme" "" no_filter = Some st ∧ volume bs < st_TotalRequests st.
Proof.
  apply (first_partial_bin_dropped id rows4 0 (90 * Second) (5 * Second) "acme" "" no_filter (row "t1" (10 * Second) "acme" "turn" 200 5)).
  - vm_compute. reflexivity.
  - vm_compute. discriminate.
  - by left.
  - vm_compute. reflexivity.
  - vm_compute. reflexivity.
Defined.

(** ** Placeholders *)

Fixpoint marks (s : string) : nat :=
  match s with "" => 0 | String c s' => (if Ascii.eqb c "?" then 1 else 0) + marks s' end.

Lemma marks_app s t : marks (s +:+ t) = (marks s + marks t)%nat.
Proof. induction s as [|c s IH]; [done|]. change (String c s +:+ t) with (String c (s +:+ t)). cbn [marks]. rewrite IH. lia. Qed.

Definition holes (p : pred) : nat :=
  match p with
  | PEq _ | POrgOrEmpty | PBefore | PSince => 1
  | PStatusOk | PStatusErr | PFalse => 0
  | PIn _ n => n
  | PLike cs => length cs
  end.

Lemma marks_Join l sep : marks sep = 0%nat → marks (Join l sep) = sum_list (map marks l).
Proof.
  intros Hs. induction l as [|x l IH]; [done|]. destruct l as [|y l]; [cbn; lia|].
  change (Join (x :: y :: l) sep) with (x +:+ sep +:+ Join (y :: l) sep). rewrite !marks_app, Hs, IH. cbn. lia.
Qed.

Lemma marks_render p : marks (render p) = holes p.
Proof.
  destruct p as [c| | | | | | |c n|cs]; try done; cbn [render holes].
  - by destruct c.
  - destruct n as [|n]; [done|]. unfold inClause. rewrite !marks_app, marks_Join by done.
    assert (marks (column_name c) = 0%nat) as -> by (by destruct c).
    change (marks " IN (") with 0%nat. change (marks ")") with 0%nat.
    induction n as [|n IH]; [done|]. change (replicate (S (S n)) "?") with ("?" :: replicate (S n) "?"). cbn [map sum_list]. cbn in IH |- *. lia.
  - rewrite !marks_app, marks_Join by done. change (marks "(") with 0%nat. change (marks ")") with 0%nat.
    induction cs as [|c cs IH]; [done|]. cbn [map sum_list length]. rewrite marks_app.
    assert (marks (column_name c) = 0%nat) as -> by (by destruct c). change (marks " LIKE ?") with 1%nat. cbn in IH |- *. lia.
Qed.

Definition all_holes (ps : list pred) : nat := sum_list (map holes ps).

Lemma marks_where ps : marks (Join (map render ps) " AND ") = all_holes ps.
Proof.
  rewrite marks_Join by done. unfold all_holes. induction ps as [|p ps IH]; [done|]. cbn [map sum_list]. by rewrite marks_render, IH.
Qed.

Lemma all_holes_app ps qs : all_holes (ps ++ qs)%list = (all_holes ps + all_holes qs)%nat.
Proof. unfold all_holes. by rewrite map_app, sum_list_with_app. Qed.

Lemma all_holes_when c p : all_holes (when c p) = if c then holes p else 0%nat.
Proof. destruct c; [|done]. unfold all_holes. cbn. lia. Qed.

Lemma length_when {A} c (x : A) : length (when c x) = if c then 1%nat else 0%nat.
Proof. by destruct c. Qed.

Lemma holes_org orgID : all_holes [fst (orgScopeClause orgID)] = length (snd (orgScopeClause orgID)).
Proof. unfold orgScopeClause. by destruct (String.eqb orgID DefaultOrgID). Qed.

Lemma holes_status f : all_holes (appendStatusConds f) = 0%nat.
Proof. unfold appendStatusConds. by destruct (effectiveStatusSlice f) as [[] []]. Qed.

Lemma holes_in c l : all_holes (in_pred c l) = length l.
Proof. destruct l as [|x l]; [done|]. unfold all_holes. cbn. lia. Qed.

Lemma holes_dims f skip : all_holes (fst (appendDimensionConds f skip)) = length (snd (appendDimensionConds f skip)).
Proof. unfold appendDimensionConds. cbn [fst snd]. by rewrite all_holes_app, !holes_in, length_app, !length_map. Qed.

Lemma marks_user userID : marks (user_filter userID) = if nonblank userID then 1%nat else 0%nat.
Proof. unfold user_filter, nonblank. by destruct (String.eqb userID ""). Qed.

(** Every statement has as many placeholders as arguments, whatever the filters, the
    bounds and the selections hold. *)
Theorem placeholders_match orgID userID before since limit f skip n selectCols :
  marks (buildTracePageQuery orgID userID before since f) = length (buildTracePageArgs orgID userID before since limit f) ∧
  marks (buildTurnPageQuery orgID userID before since) = length (buildTurnPageArgs orgID userID before since limit) ∧
  marks (buildDailySpendSummaryQuery userID) = length (buildSummaryArgs orgID since before since before userID) ∧
  marks (buildDailySpendByDayQuery userID) = length (buildDailySpendByDayArgs orgID since before userID) ∧
  marks (buildDailySpendBreakdownQuery userID) = length (buildDailySpendBreakdownArgs orgID since before userID) ∧
  marks (buildBucketedSeriesQuery selectCols orgID userID f skip) =
    (marks selectCols + length (buildBucketedSeriesArgs orgID userID before since n f skip))%nat.
Proof.
  split_and!.
  - unfold buildTracePageQuery, buildTracePageArgs, page_conds. rewrite !marks_app, marks_where, !all_holes_app, !length_app.
    rewrite holes_org, holes_status, !all_holes_when, !length_when.
    change (marks summary_select) with 0%nat. change (marks " WHERE ") with 0%nat.
    change (marks " ORDER BY timestamp DESC, trace_id DESC LIMIT ?") with 1%nat.
    destruct (nonblank (tf_Q f)); cbn [holes length]; lia.
  - unfold buildTurnPageQuery, buildTurnPageArgs, turn_conds. rewrite !marks_app, marks_where, !all_holes_app, !length_app.
    rewrite holes_org, !all_holes_when, !length_when. cbn [holes length].
    match goal with |- context [marks ?x] => change (marks x) with 0%nat end.
    change (marks " WHERE ") with 0%nat. change (marks " GROUP BY turn_group_key ORDER BY turn_last_at DESC LIMIT ?") with 1%nat. lia.
  - unfold buildDailySpendSummaryQuery, buildSummaryArgs. rewrite !marks_app, !marks_user. unfold nonblank.
    by destruct (String.eqb userID "").
  - unfold buildDailySpendByDayQuery, buildDailySpendByDayArgs. rewrite !marks_app, !marks_user, length_app, length_when.
    by destruct (nonblank userID).
  - unfold buildDailySpendBreakdownQuery, buildDailySpendBreakdownArgs. rewrite !marks_app, !marks_user, length_app, length_when.
    by destruct (nonblank userID).
  - unfold buildBucketedSeriesQuery, buildBucketedSeriesArgs, window_conds, window_args.
    rewrite !marks_app, marks_where, !all_holes_app. cbn [length]. rewrite !length_app.
    rewrite holes_org, holes_status, holes_dims, !all_holes_when, !length_when. cbn [holes length].
    change (all_holes [PSince; PBefore]) with 2%nat. change (marks " WHERE ") with 0%nat.
    repeat match goal with |- context [marks (String ?c ?x)] => let v := eval vm_compute in (marks (String c x)) in change (marks (String c x)) with v end.
    destruct (nonblank userID); lia.
Qed.
