(* ===== verification/Config.v ===== *)
(** * Config: src/internal/config/config.go, src/internal/config/routing.go

    The environment, the [.env] file read under it, every setting with its default,
    the choice of the mail transport and the route groups.  [os.Getenv] reads a map
    of the process; the file system, the host name and the random source are
    arguments.  Floating-point literals are [strconv.ParseFloat]'s and sender
    addresses [mail.ParseAddress]'s, both parameters. *)

From stdpp Require Import gmap pretty.
From S2P Require Import Prelude GoString Float64 FloatInt GoTime Json Net.
Local Open Scope string_scope.
Local Open Scope Z_scope.

(** ** strconv.ParseBool *)

Definition ParseBool (s : string) : option bool :=
  if existsb (String.eqb s) ["1"; "t"; "T"; "TRUE"; "true"; "True"] then Some true
  else if existsb (String.eqb s) ["0"; "f"; "F"; "FALSE"; "false"; "False"] then Some false
  else None.

(** ** time.ParseDuration *)

(** [leadingInt]: the digits at the front and the rest; [None] when the value
    exceeds [2^63]. *)
Fixpoint leadingInt (x : Z) (s : string) : option (Z * string) :=
  match s with
  | "" => Some (x, "")
  | String c s' =>
      match digit_val c with
      | None => Some (x, s)
      | Some d =>
          if 2 ^ 63 / 10 <? x then None
          else let x := x * 10 + d in if 2 ^ 63 <? x then None else leadingInt x s'
      end
  end.

(** [leadingFraction]: digits past the range of an [int64] are dropped. *)
Fixpoint leadingFraction (x : Z) (scale : float64) (overflow : bool) (s : string) : Z * float64 * string :=
  match s with
  | "" => (x, scale, "")
  | String c s' =>
      match digit_val c with
      | None => (x, scale, s)
      | Some d =>
          if overflow then leadingFraction x scale overflow s'
          else if (2 ^ 63 - 1) / 10 <? x then leadingFraction x scale true s'
          else let y := x * 10 + d in
               if 2 ^ 63 <? y then leadingFraction x scale true s'
               else leadingFraction y (fmul scale (of_Z 10)) false s'
      end
  end.

(** The text up to a digit or a point. *)
Fixpoint unit_prefix (s : string) : string * string :=
  match s with
  | "" => ("", "")
  | String c s' =>
      if Ascii.eqb c "." || match digit_val c with Some _ => true | None => false end then ("", s)
      else let '(u, r) := unit_prefix s' in (String c u, r)
  end.

Definition unitMap (u : string) : option Z :=
  if String.eqb u "ns" then Some 1
  else if String.eqb u "us" || String.eqb u (bytes [194; 181; 115]%nat) || String.eqb u (bytes [206; 188; 115]%nat) then Some 1000
  else if String.eqb u "ms" then Some Millisecond
  else if String.eqb u "s" then Some Second
  else if String.eqb u "m" then Some Minute
  else if String.eqb u "h" then Some Hour
  else None.

(** [uint64(x)] of a finite non-negative [x]: the integer part. *)
Definition trunc_float (x : float64) : Z :=
  match x with
  | S754_finite false m e => if 0 <=? e then Z.pos m * 2 ^ e else Z.pos m / 2 ^ (- e)
  | _ => 0
  end.

(** One number with its unit per turn; every turn takes a byte. *)
Fixpoint duration_terms (fuel : nat) (d : Z) (s : string) : option Z :=
  match fuel, s with
  | _, "" => Some d
  | O, _ => None
  | S fuel', String c _ =>
      if negb (Ascii.eqb c "." || match digit_val c with Some _ => true | None => false end) then None
      else
        match leadingInt 0 s with
        | None => None
        | Some (v, s1) =>
            let pre := negb (String.length s1 =? String.length s)%nat in
            let '(f, scale, s2, post) :=
              match s1 with
              | String c1 r =>
                  if Ascii.eqb c1 "." then
                    let '(f, scale, s2) := leadingFraction 0 (of_Z 1) false r in
                    (f, scale, s2, negb (String.length s2 =? String.length r)%nat)
                  else (0, of_Z 1, s1, false)
              | "" => (0, of_Z 1, s1, false)
              end in
            if negb (pre || post) then None
            else
              let '(u, s3) := unit_prefix s2 in
              if String.eqb u "" then None
              else
                match unitMap u with
                | None => None
                | Some unit =>
                    if 2 ^ 63 / unit <? v then None
                    else
                      let v := v * unit in
                      let v := if 0 <? f then v + trunc_float (fmul (of_Z f) (fdiv (of_Z unit) scale)) else v in
                      if 2 ^ 63 <? v then None
                      else let d := d + v in if 2 ^ 63 <? d then None else duration_terms fuel' d s3
                end
        end
  end.

Definition ParseDuration (s : string) : option Duration :=
  let '(neg, s) :=
    match s with
    | String c s' => if Ascii.eqb c "-" then (true, s') else if Ascii.eqb c "+" then (false, s') else (false, s)
    | "" => (false, s)
    end in
  if String.eqb s "0" then Some 0
  else if String.eqb s "" then None
  else
    match duration_terms (String.length s) 0 s with
    | None => None
    | Some d => if (neg : bool) then Some (wrap64 (- d)) else if 2 ^ 63 - 1 <? d then None else Some d
    end.

(** ** The environment *)

Abbreviation environ := (gmap string string).

Definition Getenv (e : environ) (key : string) : string := default "" (e !! key).

Definition env (e : environ) (key def : string) : string :=
  let v := TrimSpace (Getenv e key) in if String.eqb v "" then def else v.

Definition splitCSV (s : string) : list string :=
  if String.eqb s "" then []
  else List.filter (fun p => negb (String.eqb p "")) (map TrimSpace (Split s ",")).

(** The shape the typed readers share: unset, empty or unreadable is the default. *)
Definition env_by {A} (parse : string → option A) (e : environ) (key : string) (def : A) : A :=
  let v := Getenv e key in if String.eqb v "" then def else default def (parse v).

Definition envBool : environ → string → bool → bool := env_by ParseBool.
Definition envInt : environ → string → Z → Z := env_by Atoi.
Definition envDuration : environ → string → Duration → Duration := env_by ParseDuration.

Definition config_firstNonEmpty (values : list string) : string :=
  match List.filter (fun v => negb (String.eqb (TrimSpace v) "")) values with v :: _ => v | [] => "" end.

Definition firstDurNonZero (values : list Duration) : Duration :=
  match List.filter (fun v => 0 <? v) values with v :: _ => v | [] => 0 end.

(** ** The .env file *)

(** [bufio.ScanLines] without its carriage return; a line of 64 KiB or more ends
    the scan. *)
Definition drop_cr (line : string) : string :=
  match String.rev line with
  | String c r => if decide (c = byte 13) then String.rev r else line
  | "" => line
  end.

Fixpoint scan_tokens (lines : list string) : list string :=
  match lines with
  | [] => []
  | [""] => []
  | l :: rest => if 65536 <=? Z.of_nat (String.length l) then [] else drop_cr l :: scan_tokens rest
  end.

Definition scan_lines (file : string) : list string := scan_tokens (Split file (byte 10)).

Definition is_quote (c : ascii) : bool := Ascii.eqb c (byte 34) || Ascii.eqb c (byte 39).

Fixpoint trim_left_quotes (s : string) : string :=
  match s with String c s' => if is_quote c then trim_left_quotes s' else s | "" => "" end.

(** [strings.Trim] of both quotes. *)
Definition trim_quotes (s : string) : string := String.rev (trim_left_quotes (String.rev (trim_left_quotes s))).

(** One line: the pair it sets, if any. *)
Definition dotenv_line (raw : string) : option (string * string) :=
  let line := TrimSpace raw in
  if String.eqb line "" || HasPrefix line "#" then None
  else
    match Cut line "=" with
    | None => None
    | Some (key, val) =>
        let key := TrimSpace key in
        let val := trim_quotes (TrimSpace val) in
        if String.eqb key "" then None else Some (key, val)
    end.

(** [os.Setenv] refuses a NUL byte; its error is ignored. *)
Definition has_nul (s : string) : bool := match IndexByte s (byte 0) with Some _ => true | None => false end.

Definition Setenv (e : environ) (key val : string) : environ :=
  if has_nul key || has_nul val then e else <[key := val]> e.

Definition dotenv_step (e : environ) (raw : string) : environ :=
  match dotenv_line raw with
  | None => e
  | Some (key, val) => match e !! key with Some _ => e | None => Setenv e key val end
  end.

(** [loadDotEnv]; no file is [None]. *)
Definition loadDotEnv (file : option string) (e : environ) : environ :=
  match file with None => e | Some f => foldl dotenv_step e (scan_lines f) end.

(** ** The replica's name *)

Definition hex_digit (n : Z) : ascii := ascii_of_nat (Z.to_nat (if n <? 10 then 48 + n else 87 + n)).

Fixpoint hex_EncodeToString (b : list Z) : string :=
  match b with
  | [] => ""
  | x :: b' => String (hex_digit (x / 16)) (String (hex_digit (x mod 16)) (hex_EncodeToString b'))
  end.

(** [hostname] is [os.Hostname], [random] the four bytes of [rand.Read]; [None] is
    their error. *)
Definition defaultReplicaID (e : environ) (hostname : option string) (random : option (list Z)) : string :=
  let explicit := TrimSpace (env e "NEXUS_REPLICA_ID" "") in
  if negb (String.eqb explicit "") then explicit
  else
    let host := match hostname with Some h => if String.eqb h "" then "nexus" else h | None => "nexus" end in
    let host := match IndexByte host "." with Some (S n) => take_bytes (S n) host | _ => host end in
    match random with None => host +:+ "-node" | Some b => host +:+ "-" +:+ hex_EncodeToString b end.

(** ** The settings *)

Record SSOConfig := mkSSO { sso_Issuer : string; sso_ClientID : string; sso_ClientSecret : string; sso_RedirectURL : string; sso_Label : string }.

Record Config := mkConfig {
  cf_GatewayAddr : string;
  cf_ConsoleAddr : string;
  cf_PublicGatewayURL : string;
  cf_PublicBaseURL : string;
  cf_PublicWebOrigins : list string;
  cf_EgressTenantAllowedCIDRs : string;
  cf_EgressMode : string;
  cf_EgressProxyURL : string;
  cf_EgressInternalHosts : string;
  cf_PublicGrafanaURL : string;
  cf_DocsDir : string;
  cf_PostgresURL : string;
  cf_ClickHouseURL : string;
  cf_RedisURL : string;
  cf_LocalDB : bool;
  cf_LocalStateDir : string;
  cf_LocalDBBinaries : string;
  cf_LocalDBPort : Z;
  cf_OpenAIAPIKey : string;
  cf_OpenAIBaseURL : string;
  cf_AnthropicAPIKey : string;
  cf_GeminiAPIKey : string;
  cf_GroqAPIKey : string;
  cf_MistralAPIKey : string;
  cf_GridAPIKey : string;
  cf_MasterKey : string;
  cf_EvalEnabled : bool;
  cf_JudgeBaseURL : string;
  cf_JudgeModel : string;
  cf_JudgeAPIKey : string;
  cf_EvalSampleRate : float64;
  cf_EvalWorkers : Z;
  cf_EvalServiceURL : string;
  cf_EvalServiceMetrics : string;
  cf_EvalServiceTimeout : Duration;
  cf_PluginDir : string;
  cf_EvalPluginOnly : bool;
  cf_PurgeLegacyProfilesOnBoot : bool;
  cf_RouteGroups : string;
  cf_RouteWQuality : float64;
  cf_RouteWBench : float64;
  cf_RouteBenchHalfLife : Duration;
  cf_MaxConcurrentPerKey : Z;
  cf_RouteWCost : float64;
  cf_RouteWLatency : float64;
  cf_RouteWindow : Duration;
  cf_RouteRefresh : Duration;
  cf_GuardrailsEnabled : bool;
  cf_GuardrailBlockPIIIn : bool;
  cf_GuardrailRedactPIIOut : bool;
  cf_GuardrailMaxInputChrs : Z;
  cf_GuardrailDenyPatterns : string;
  cf_GuardrailValidateJSON : bool;
  cf_SelfCorrectionEnabled : bool;
  cf_SelfCorrectionMaxRetries : Z;
  cf_RouteLoadBalance : bool;
  cf_SemanticCacheEnabled : bool;
  cf_SemanticCacheTTL : Duration;
  cf_SemanticCacheThreshold : float64;
  cf_SemanticCacheMaxEntries : Z;
  cf_SemanticCacheExact : bool;
  cf_EmbeddingsURL : string;
  cf_EmbeddingsModel : string;
  cf_EmbeddingsAPIKey : string;
  cf_EmbeddingsTimeout : Duration;
  cf_OTLPEnabled : bool;
  cf_OTLPEndpoint : string;
  cf_MetricsAddr : string;
  cf_CaptureTraceContent : bool;
  cf_CaptureMCPContent : bool;
  cf_FailoverWebhookURL : string;
  cf_FailoverSlackURL : string;
  cf_FailoverAlertCooldown : Duration;
  cf_MetabaseURL : string;
  cf_MetabaseUser : string;
  cf_MetabasePassword : string;
  cf_MetabaseClickHouseURL : string;
  cf_MetabasePostgresURL : string;
  cf_MetabaseSeedDir : string;
  cf_MetabaseHealthTimeout : Duration;
  cf_MetabaseRequestTimeout : Duration;
  cf_EmailProvider : string;
  cf_EmailFromAddress : string;
  cf_EmailRequestTimeout : Duration;
  cf_ResendAPIKey : string;
  cf_ResendAPIBaseURL : string;
  cf_SMTPHost : string;
  cf_SMTPPort : Z;
  cf_SMTPUsername : string;
  cf_SMTPPassword : string;
  cf_SMTPEncryption : string;
  cf_EmailPublicBaseURL : string;
  cf_AutoMigrate : bool;
  cf_UpstreamTimeout : Duration;
  cf_KeyMode : string;
  cf_AllowSharedKeys : bool;
  cf_AdminEmail : string;
  cf_AdminPassword : string;
  cf_AllowSignup : bool;
  cf_EnterpriseCtaURL : string;
  cf_DevMode : bool;
  cf_SecureCookies : bool;
  cf_PublicDocs : bool;
  cf_SSO : SSOConfig;
  cf_ReplicaID : string;
  cf_DynamicModelSync : bool;
  cf_DynamicModelInterval : Duration;
  cf_DynamicModelMaxRetry : Z;
  cf_PricingCheck : bool;
  cf_PricingCheckInterval : Duration;
  cf_PricingCheckURL : string
}.

(** The assignments of [Load] and [ApplyLocalMode]. *)
Definition set_SecureCookies (v : bool) (c : Config) : Config :=
  {|
    cf_GatewayAddr := cf_GatewayAddr c; cf_ConsoleAddr := cf_ConsoleAddr c;
    cf_PublicGatewayURL := cf_PublicGatewayURL c; cf_PublicBaseURL := cf_PublicBaseURL c;
    cf_PublicWebOrigins := cf_PublicWebOrigins c; cf_EgressTenantAllowedCIDRs := cf_EgressTenantAllowedCIDRs c;
    cf_EgressMode := cf_EgressMode c; cf_EgressProxyURL := cf_EgressProxyURL c;
    cf_EgressInternalHosts := cf_EgressInternalHosts c; cf_PublicGrafanaURL := cf_PublicGrafanaURL c;
    cf_DocsDir := cf_DocsDir c; cf_PostgresURL := cf_PostgresURL c; cf_ClickHouseURL := cf_ClickHouseURL c;
    cf_RedisURL := cf_RedisURL c; cf_LocalDB := cf_LocalDB c; cf_LocalStateDir := cf_LocalStateDir c;
    cf_LocalDBBinaries := cf_LocalDBBinaries c; cf_LocalDBPort := cf_LocalDBPort c;
    cf_OpenAIAPIKey := cf_OpenAIAPIKey c; cf_OpenAIBaseURL := cf_OpenAIBaseURL c;
    cf_AnthropicAPIKey := cf_AnthropicAPIKey c; cf_GeminiAPIKey := cf_GeminiAPIKey c;
    cf_GroqAPIKey := cf_GroqAPIKey c; cf_MistralAPIKey := cf_MistralAPIKey c; cf_GridAPIKey := cf_GridAPIKey c;
    cf_MasterKey := cf_MasterKey c; cf_EvalEnabled := cf_EvalEnabled c; cf_JudgeBaseURL := cf_JudgeBaseURL c;
    cf_JudgeModel := cf_JudgeModel c; cf_JudgeAPIKey := cf_JudgeAPIKey c; cf_EvalSampleRate := cf_EvalSampleRate c;
    cf_EvalWorkers := cf_EvalWorkers c; cf_EvalServiceURL := cf_EvalServiceURL c;
    cf_EvalServiceMetrics := cf_EvalServiceMetrics c; cf_EvalServiceTimeout := cf_EvalServiceTimeout c;
    cf_PluginDir := cf_PluginDir c; cf_EvalPluginOnly := cf_EvalPluginOnly c;
    cf_PurgeLegacyProfilesOnBoot := cf_PurgeLegacyProfilesOnBoot c; cf_RouteGroups := cf_RouteGroups c;
    cf_RouteWQuality := cf_RouteWQuality c; cf_RouteWBench := cf_RouteWBench c;
    cf_RouteBenchHalfLife := cf_RouteBenchHalfLife c; cf_MaxConcurrentPerKey := cf_MaxConcurrentPerKey c;
    cf_RouteWCost := cf_RouteWCost c; cf_RouteWLatency := cf_RouteWLatency c; cf_RouteWindow := cf_RouteWindow c;
    cf_RouteRefresh := cf_RouteRefresh c; cf_GuardrailsEnabled := cf_GuardrailsEnabled c;
    cf_GuardrailBlockPIIIn := cf_GuardrailBlockPIIIn c; cf_GuardrailRedactPIIOut := cf_GuardrailRedactPIIOut c;
    cf_GuardrailMaxInputChrs := cf_GuardrailMaxInputChrs c; cf_GuardrailDenyPatterns := cf_GuardrailDenyPatterns c;
    cf_GuardrailValidateJSON := cf_GuardrailValidateJSON c; cf_SelfCorrectionEnabled := cf_SelfCorrectionEnabled c;
    cf_SelfCorrectionMaxRetries := cf_SelfCorrectionMaxRetries c; cf_RouteLoadBalance := cf_RouteLoadBalance c;
    cf_SemanticCacheEnabled := cf_SemanticCacheEnabled c; cf_SemanticCacheTTL := cf_SemanticCacheTTL c;
    cf_SemanticCacheThreshold := cf_SemanticCacheThreshold c;
    cf_SemanticCacheMaxEntries := cf_SemanticCacheMaxEntries c; cf_SemanticCacheExact := cf_SemanticCacheExact c;
    cf_EmbeddingsURL := cf_EmbeddingsURL c; cf_EmbeddingsModel := cf_EmbeddingsModel c;
    cf_EmbeddingsAPIKey := cf_EmbeddingsAPIKey c; cf_EmbeddingsTimeout := cf_EmbeddingsTimeout c;
    cf_OTLPEnabled := cf_OTLPEnabled c; cf_OTLPEndpoint := cf_OTLPEndpoint c; cf_MetricsAddr := cf_MetricsAddr c;
    cf_CaptureTraceContent := cf_CaptureTraceContent c; cf_CaptureMCPContent := cf_CaptureMCPContent c;
    cf_FailoverWebhookURL := cf_FailoverWebhookURL c; cf_FailoverSlackURL := cf_FailoverSlackURL c;
    cf_FailoverAlertCooldown := cf_FailoverAlertCooldown c; cf_MetabaseURL := cf_MetabaseURL c;
    cf_MetabaseUser := cf_MetabaseUser c; cf_MetabasePassword := cf_MetabasePassword c;
    cf_MetabaseClickHouseURL := cf_MetabaseClickHouseURL c; cf_MetabasePostgresURL := cf_MetabasePostgresURL c;
    cf_MetabaseSeedDir := cf_MetabaseSeedDir c; cf_MetabaseHealthTimeout := cf_MetabaseHealthTimeout c;
    cf_MetabaseRequestTimeout := cf_MetabaseRequestTimeout c; cf_EmailProvider := cf_EmailProvider c;
    cf_EmailFromAddress := cf_EmailFromAddress c; cf_EmailRequestTimeout := cf_EmailRequestTimeout c;
    cf_ResendAPIKey := cf_ResendAPIKey c; cf_ResendAPIBaseURL := cf_ResendAPIBaseURL c; cf_SMTPHost := cf_SMTPHost c;
    cf_SMTPPort := cf_SMTPPort c; cf_SMTPUsername := cf_SMTPUsername c; cf_SMTPPassword := cf_SMTPPassword c;
    cf_SMTPEncryption := cf_SMTPEncryption c; cf_EmailPublicBaseURL := cf_EmailPublicBaseURL c;
    cf_AutoMigrate := cf_AutoMigrate c; cf_UpstreamTimeout := cf_UpstreamTimeout c; cf_KeyMode := cf_KeyMode c;
    cf_AllowSharedKeys := cf_AllowSharedKeys c; cf_AdminEmail := cf_AdminEmail c;
    cf_AdminPassword := cf_AdminPassword c; cf_AllowSignup := cf_AllowSignup c;
    cf_EnterpriseCtaURL := cf_EnterpriseCtaURL c; cf_DevMode := cf_DevMode c; cf_SecureCookies := v;
    cf_PublicDocs := cf_PublicDocs c; cf_SSO := cf_SSO c; cf_ReplicaID := cf_ReplicaID c;
    cf_DynamicModelSync := cf_DynamicModelSync c; cf_DynamicModelInterval := cf_DynamicModelInterval c;
    cf_DynamicModelMaxRetry := cf_DynamicModelMaxRetry c; cf_PricingCheck := cf_PricingCheck c;
    cf_PricingCheckInterval := cf_PricingCheckInterval c; cf_PricingCheckURL := cf_PricingCheckURL c
  |}.

Definition set_local (postgresURL : string) (secure signup : bool) (c : Config) : Config :=
  {|
    cf_GatewayAddr := cf_GatewayAddr c; cf_ConsoleAddr := cf_ConsoleAddr c;
    cf_PublicGatewayURL := cf_PublicGatewayURL c; cf_PublicBaseURL := cf_PublicBaseURL c;
    cf_PublicWebOrigins := cf_PublicWebOrigins c; cf_EgressTenantAllowedCIDRs := cf_EgressTenantAllowedCIDRs c;
    cf_EgressMode := cf_EgressMode c; cf_EgressProxyURL := cf_EgressProxyURL c;
    cf_EgressInternalHosts := cf_EgressInternalHosts c; cf_PublicGrafanaURL := cf_PublicGrafanaURL c;
    cf_DocsDir := cf_DocsDir c; cf_PostgresURL := postgresURL; cf_ClickHouseURL := cf_ClickHouseURL c;
    cf_RedisURL := cf_RedisURL c; cf_LocalDB := true; cf_LocalStateDir := cf_LocalStateDir c;
    cf_LocalDBBinaries := cf_LocalDBBinaries c; cf_LocalDBPort := cf_LocalDBPort c;
    cf_OpenAIAPIKey := cf_OpenAIAPIKey c; cf_OpenAIBaseURL := cf_OpenAIBaseURL c;
    cf_AnthropicAPIKey := cf_AnthropicAPIKey c; cf_GeminiAPIKey := cf_GeminiAPIKey c;
    cf_GroqAPIKey := cf_GroqAPIKey c; cf_MistralAPIKey := cf_MistralAPIKey c; cf_GridAPIKey := cf_GridAPIKey c;
    cf_MasterKey := cf_MasterKey c; cf_EvalEnabled := cf_EvalEnabled c; cf_JudgeBaseURL := cf_JudgeBaseURL c;
    cf_JudgeModel := cf_JudgeModel c; cf_JudgeAPIKey := cf_JudgeAPIKey c; cf_EvalSampleRate := cf_EvalSampleRate c;
    cf_EvalWorkers := cf_EvalWorkers c; cf_EvalServiceURL := cf_EvalServiceURL c;
    cf_EvalServiceMetrics := cf_EvalServiceMetrics c; cf_EvalServiceTimeout := cf_EvalServiceTimeout c;
    cf_PluginDir := cf_PluginDir c; cf_EvalPluginOnly := cf_EvalPluginOnly c;
    cf_PurgeLegacyProfilesOnBoot := cf_PurgeLegacyProfilesOnBoot c; cf_RouteGroups := cf_RouteGroups c;
    cf_RouteWQuality := cf_RouteWQuality c; cf_RouteWBench := cf_RouteWBench c;
    cf_RouteBenchHalfLife := cf_RouteBenchHalfLife c; cf_MaxConcurrentPerKey := cf_MaxConcurrentPerKey c;
    cf_RouteWCost := cf_RouteWCost c; cf_RouteWLatency := cf_RouteWLatency c; cf_RouteWindow := cf_RouteWindow c;
    cf_RouteRefresh := cf_RouteRefresh c; cf_GuardrailsEnabled := cf_GuardrailsEnabled c;
    cf_GuardrailBlockPIIIn := cf_GuardrailBlockPIIIn c; cf_GuardrailRedactPIIOut := cf_GuardrailRedactPIIOut c;
    cf_GuardrailMaxInputChrs := cf_GuardrailMaxInputChrs c; cf_GuardrailDenyPatterns := cf_GuardrailDenyPatterns c;
    cf_GuardrailValidateJSON := cf_GuardrailValidateJSON c; cf_SelfCorrectionEnabled := cf_SelfCorrectionEnabled c;
    cf_SelfCorrectionMaxRetries := cf_SelfCorrectionMaxRetries c; cf_RouteLoadBalance := cf_RouteLoadBalance c;
    cf_SemanticCacheEnabled := cf_SemanticCacheEnabled c; cf_SemanticCacheTTL := cf_SemanticCacheTTL c;
    cf_SemanticCacheThreshold := cf_SemanticCacheThreshold c;
    cf_SemanticCacheMaxEntries := cf_SemanticCacheMaxEntries c; cf_SemanticCacheExact := cf_SemanticCacheExact c;
    cf_EmbeddingsURL := cf_EmbeddingsURL c; cf_EmbeddingsModel := cf_EmbeddingsModel c;
    cf_EmbeddingsAPIKey := cf_EmbeddingsAPIKey c; cf_EmbeddingsTimeout := cf_EmbeddingsTimeout c;
    cf_OTLPEnabled := cf_OTLPEnabled c; cf_OTLPEndpoint := cf_OTLPEndpoint c; cf_MetricsAddr := cf_MetricsAddr c;
    cf_CaptureTraceContent := cf_CaptureTraceContent c; cf_CaptureMCPContent := cf_CaptureMCPContent c;
    cf_FailoverWebhookURL := cf_FailoverWebhookURL c; cf_FailoverSlackURL := cf_FailoverSlackURL c;
    cf_FailoverAlertCooldown := cf_FailoverAlertCooldown c; cf_MetabaseURL := cf_MetabaseURL c;
    cf_MetabaseUser := cf_MetabaseUser c; cf_MetabasePassword := cf_MetabasePassword c;
    cf_MetabaseClickHouseURL := cf_MetabaseClickHouseURL c; cf_MetabasePostgresURL := cf_MetabasePostgresURL c;
    cf_MetabaseSeedDir := cf_MetabaseSeedDir c; cf_MetabaseHealthTimeout := cf_MetabaseHealthTimeout c;
    cf_MetabaseRequestTimeout := cf_MetabaseRequestTimeout c; cf_EmailProvider := cf_EmailProvider c;
    cf_EmailFromAddress := cf_EmailFromAddress c; cf_EmailRequestTimeout := cf_EmailRequestTimeout c;
    cf_ResendAPIKey := cf_ResendAPIKey c; cf_ResendAPIBaseURL := cf_ResendAPIBaseURL c; cf_SMTPHost := cf_SMTPHost c;
    cf_SMTPPort := cf_SMTPPort c; cf_SMTPUsername := cf_SMTPUsername c; cf_SMTPPassword := cf_SMTPPassword c;
    cf_SMTPEncryption := cf_SMTPEncryption c; cf_EmailPublicBaseURL := cf_EmailPublicBaseURL c;
    cf_AutoMigrate := true; cf_UpstreamTimeout := cf_UpstreamTimeout c; cf_KeyMode := cf_KeyMode c;
    cf_AllowSharedKeys := cf_AllowSharedKeys c; cf_AdminEmail := cf_AdminEmail c;
    cf_AdminPassword := cf_AdminPassword c; cf_AllowSignup := signup; cf_EnterpriseCtaURL := cf_EnterpriseCtaURL c;
    cf_DevMode := true; cf_SecureCookies := secure; cf_PublicDocs := cf_PublicDocs c; cf_SSO := cf_SSO c;
    cf_ReplicaID := cf_ReplicaID c; cf_DynamicModelSync := cf_DynamicModelSync c;
    cf_DynamicModelInterval := cf_DynamicModelInterval c; cf_DynamicModelMaxRetry := cf_DynamicModelMaxRetry c;
    cf_PricingCheck := cf_PricingCheck c; cf_PricingCheckInterval := cf_PricingCheckInterval c;
    cf_PricingCheckURL := cf_PricingCheckURL c
  |}.

Section Load.
(** [strconv.ParseFloat(_, 64)], [os.Hostname] and [rand.Read]. *)
Context (ParseFloat : string → option float64).
Context (hostname : option string) (random : option (list Z)).

Definition envFloat : environ → string → float64 → float64 := env_by ParseFloat.

Definition load (e : environ) : Config :=
  let emailFromAddress := config_firstNonEmpty [env e "NEXUS_EMAIL_FROM_ADDRESS" ""; env e "NEXUS_RESEND_FROM_ADDRESS" ""] in
  let emailTimeout := firstDurNonZero [envDuration e "NEXUS_EMAIL_REQUEST_TIMEOUT" (10 * Second); envDuration e "NEXUS_RESEND_REQUEST_TIMEOUT" 0] in
  {|
    cf_GatewayAddr := env e "NEXUS_GATEWAY_ADDR" ":8080";
    cf_ConsoleAddr := env e "NEXUS_CONSOLE_ADDR" ":8081";
    cf_PublicGatewayURL := env e "NEXUS_PUBLIC_GATEWAY_URL" "";
    cf_PublicBaseURL := env e "NEXUS_PUBLIC_BASE_URL" "";
    cf_PublicWebOrigins := splitCSV (env e "NEXUS_PUBLIC_WEB_ORIGINS" "");
    cf_EgressTenantAllowedCIDRs := env e "NEXUS_EGRESS_TENANT_ALLOWED_CIDRS" "";
    cf_EgressMode := env e "NEXUS_EGRESS_MODE" "";
    cf_EgressProxyURL := env e "HTTPS_PROXY" "";
    cf_EgressInternalHosts := env e "NEXUS_EGRESS_INTERNAL_HOSTS" "";
    cf_PublicGrafanaURL := env e "NEXUS_PUBLIC_GRAFANA_URL" "";
    cf_DocsDir := env e "NEXUS_DOCS_DIR" "";
    cf_PostgresURL := env e "NEXUS_POSTGRES_URL" "";
    cf_ClickHouseURL := env e "NEXUS_CLICKHOUSE_URL" "";
    cf_RedisURL := env e "NEXUS_REDIS_URL" "";
    cf_LocalDB := envBool e "NEXUS_LOCAL_DB" false;
    cf_LocalStateDir := env e "NEXUS_LOCAL_STATE_DIR" "";
    cf_LocalDBBinaries := env e "NEXUS_LOCAL_DB_BINARIES" "";
    cf_LocalDBPort := envInt e "NEXUS_LOCAL_DB_PORT" 0;
    cf_OpenAIAPIKey := env e "OPENAI_API_KEY" "";
    cf_OpenAIBaseURL := env e "OPENAI_BASE_URL" "https://api.openai.com/v1";
    cf_AnthropicAPIKey := env e "ANTHROPIC_API_KEY" "";
    cf_GeminiAPIKey := env e "GEMINI_API_KEY" "";
    cf_GroqAPIKey := env e "GROQ_API_KEY" "";
    cf_MistralAPIKey := env e "MISTRAL_API_KEY" "";
    cf_GridAPIKey := env e "GRID_API_KEY" "";
    cf_MasterKey := env e "NEXUS_MASTER_KEY" "";
    cf_EvalEnabled := envBool e "NEXUS_EVAL_ENABLED" true;
    cf_JudgeBaseURL := env e "NEXUS_JUDGE_BASE_URL" "";
    cf_JudgeModel := env e "NEXUS_JUDGE_MODEL" "qwen2.5:7b";
    cf_JudgeAPIKey := env e "NEXUS_JUDGE_API_KEY" "";
    cf_EvalSampleRate := envFloat e "NEXUS_EVAL_SAMPLE_RATE" (of_Z 1);
    cf_EvalWorkers := envInt e "NEXUS_EVAL_WORKERS" 4;
    cf_EvalServiceURL := env e "NEXUS_EVAL_SERVICE_URL" "";
    cf_EvalServiceMetrics := env e "NEXUS_EVAL_SERVICE_METRICS" "answer_relevancy,toxicity,bias";
    cf_EvalServiceTimeout := envDuration e "NEXUS_EVAL_SERVICE_TIMEOUT" (30 * Second);
    cf_PluginDir := env e "NEXUS_EVAL_PLUGIN_DIR" "/etc/nexus/eval-plugins";
    cf_EvalPluginOnly := envBool e "NEXUS_EVAL_PLUGIN_ONLY" false;
    cf_PurgeLegacyProfilesOnBoot := envBool e "NEXUS_EVAL_PURGE_LEGACY_PROFILES_ON_BOOT" false;
    cf_RouteGroups := env e "NEXUS_ROUTE_GROUPS" "";
    cf_RouteWQuality := envFloat e "NEXUS_ROUTE_W_QUALITY" (lit 6 10);
    cf_RouteWBench := envFloat e "NEXUS_ROUTE_W_BENCH" (lit 5 10);
    cf_RouteBenchHalfLife := envDuration e "NEXUS_ROUTE_BENCH_HALF_LIFE" (7 * 24 * Hour);
    cf_MaxConcurrentPerKey := envInt e "NEXUS_MAX_CONCURRENT_PER_KEY" 0;
    cf_RouteWCost := envFloat e "NEXUS_ROUTE_W_COST" (lit 2 10);
    cf_RouteWLatency := envFloat e "NEXUS_ROUTE_W_LATENCY" (lit 2 10);
    cf_RouteWindow := envDuration e "NEXUS_ROUTE_WINDOW" (Hour);
    cf_RouteRefresh := envDuration e "NEXUS_ROUTE_REFRESH" (30 * Second);
    cf_GuardrailsEnabled := envBool e "NEXUS_GUARDRAILS_ENABLED" false;
    cf_GuardrailBlockPIIIn := envBool e "NEXUS_GUARDRAILS_BLOCK_PII_INPUT" false;
    cf_GuardrailRedactPIIOut := envBool e "NEXUS_GUARDRAILS_REDACT_PII_OUTPUT" false;
    cf_GuardrailMaxInputChrs := envInt e "NEXUS_GUARDRAILS_MAX_INPUT_CHARS" 0;
    cf_GuardrailDenyPatterns := env e "NEXUS_GUARDRAILS_DENY_PATTERNS" "";
    cf_GuardrailValidateJSON := envBool e "NEXUS_GUARDRAILS_VALIDATE_JSON_OUTPUT" false;
    cf_SelfCorrectionEnabled := envBool e "NEXUS_SELF_CORRECTION_ENABLED" false;
    cf_SelfCorrectionMaxRetries := envInt e "NEXUS_SELF_CORRECTION_MAX_RETRIES" 1;
    cf_RouteLoadBalance := envBool e "NEXUS_ROUTE_LOAD_BALANCE" false;
    cf_SemanticCacheEnabled := envBool e "NEXUS_SEMANTIC_CACHE_ENABLED" false;
    cf_SemanticCacheTTL := envDuration e "NEXUS_SEMANTIC_CACHE_TTL" (24 * Hour);
    cf_SemanticCacheThreshold := envFloat e "NEXUS_SEMANTIC_CACHE_THRESHOLD" (lit 92 100);
    cf_SemanticCacheMaxEntries := envInt e "NEXUS_SEMANTIC_CACHE_MAX_ENTRIES" 500;
    cf_SemanticCacheExact := envBool e "NEXUS_SEMANTIC_CACHE_EXACT" false;
    cf_EmbeddingsURL := env e "NEXUS_EMBEDDINGS_URL" "";
    cf_EmbeddingsModel := env e "NEXUS_EMBEDDINGS_MODEL" "text-embedding-3-small";
    cf_EmbeddingsAPIKey := env e "NEXUS_EMBEDDINGS_API_KEY" "";
    cf_EmbeddingsTimeout := envDuration e "NEXUS_EMBEDDINGS_TIMEOUT" (15 * Second);
    cf_OTLPEnabled := envBool e "NEXUS_OTLP_ENABLED" false;
    cf_OTLPEndpoint := env e "NEXUS_OTLP_ENDPOINT" "";
    cf_MetricsAddr := env e "NEXUS_METRICS_ADDR" "";
    cf_CaptureTraceContent := envBool e "NEXUS_CAPTURE_TRACE_CONTENT" false;
    cf_CaptureMCPContent := envBool e "NEXUS_CAPTURE_MCP_CONTENT" false;
    cf_FailoverWebhookURL := env e "NEXUS_FAILOVER_WEBHOOK" "";
    cf_FailoverSlackURL := env e "NEXUS_FAILOVER_SLACK_WEBHOOK" "";
    cf_FailoverAlertCooldown := envDuration e "NEXUS_FAILOVER_ALERT_COOLDOWN" (0);
    cf_MetabaseURL := env e "NEXUS_METABASE_URL" "";
    cf_MetabaseUser := env e "NEXUS_METABASE_USER" "";
    cf_MetabasePassword := env e "NEXUS_METABASE_PASSWORD" "";
    cf_MetabaseClickHouseURL := env e "NEXUS_METABASE_CLICKHOUSE_URL" "";
    cf_MetabasePostgresURL := env e "NEXUS_METABASE_POSTGRES_URL" "";
    cf_MetabaseSeedDir := env e "NEXUS_METABASE_SEED_DIR" "";
    cf_MetabaseHealthTimeout := envDuration e "NEXUS_METABASE_HEALTH_TIMEOUT" (90 * Second);
    cf_MetabaseRequestTimeout := envDuration e "NEXUS_METABASE_REQUEST_TIMEOUT" (10 * Second);
    cf_EmailProvider := env e "NEXUS_EMAIL_PROVIDER" "";
    cf_EmailFromAddress := emailFromAddress;
    cf_EmailRequestTimeout := emailTimeout;
    cf_ResendAPIKey := env e "NEXUS_RESEND_API_KEY" "";
    cf_ResendAPIBaseURL := env e "NEXUS_RESEND_API_BASE_URL" "";
    cf_SMTPHost := env e "NEXUS_SMTP_HOST" "";
    cf_SMTPPort := envInt e "NEXUS_SMTP_PORT" 587;
    cf_SMTPUsername := env e "NEXUS_SMTP_USERNAME" "";
    cf_SMTPPassword := env e "NEXUS_SMTP_PASSWORD" "";
    cf_SMTPEncryption := env e "NEXUS_SMTP_ENCRYPTION" "starttls";
    cf_EmailPublicBaseURL := env e "NEXUS_EMAIL_PUBLIC_BASE_URL" "";
    cf_AutoMigrate := envBool e "NEXUS_AUTO_MIGRATE" false;
    cf_UpstreamTimeout := envDuration e "NEXUS_UPSTREAM_TIMEOUT" (120 * Second);
    cf_KeyMode := env e "NEXUS_KEY_MODE" "strict_byok";
    cf_AllowSharedKeys := envBool e "NEXUS_ALLOW_SHARED_KEYS" false;
    cf_AdminEmail := env e "NEXUS_ADMIN_EMAIL" "";
    cf_AdminPassword := env e "NEXUS_ADMIN_PASSWORD" "";
    cf_AllowSignup := envBool e "NEXUS_ALLOW_SIGNUP" false;
    cf_EnterpriseCtaURL := env e "NEXUS_ENTERPRISE_CTA_URL" "";
    cf_DevMode := envBool e "NEXUS_DEV_MODE" false;
    cf_SecureCookies := false;
    cf_PublicDocs := envBool e "NEXUS_PUBLIC_DOCS" false;
    cf_SSO := {| sso_Issuer := env e "NEXUS_SSO_ISSUER" ""; sso_ClientID := env e "NEXUS_SSO_CLIENT_ID" ""; sso_ClientSecret := env e "NEXUS_SSO_CLIENT_SECRET" ""; sso_RedirectURL := env e "NEXUS_SSO_REDIRECT_URL" ""; sso_Label := env e "NEXUS_SSO_LABEL" "" |};
    cf_ReplicaID := defaultReplicaID e hostname random;
    cf_DynamicModelSync := envBool e "NEXUS_DYNAMIC_MODEL_SYNC" false;
    cf_DynamicModelInterval := envDuration e "NEXUS_DYNAMIC_MODEL_INTERVAL" (30 * Minute);
    cf_DynamicModelMaxRetry := envInt e "NEXUS_DYNAMIC_MODEL_MAX_RETRY" 3;
    cf_PricingCheck := envBool e "NEXUS_PRICING_CHECK" true;
    cf_PricingCheckInterval := envDuration e "NEXUS_PRICING_CHECK_INTERVAL" (6 * Hour);
    cf_PricingCheckURL := env e "NEXUS_PRICING_CHECK_URL" ""
  |}.

(** [Load]. *)
Definition LoadConfig (file : option string) (e : environ) : Config :=
  let e := loadDotEnv file e in
  let c := load e in
  set_SecureCookies (envBool e "NEXUS_SECURE_COOKIES" (negb (cf_DevMode c))) c.
End Load.

(** [ApplyLocalMode]. *)
Definition ApplyLocalMode (e : environ) (postgresURL : string) (c : Config) : Config :=
  set_local postgresURL (envBool e "NEXUS_SECURE_COOKIES" false)
    (if String.eqb (cf_AdminEmail c) "" || String.eqb (cf_AdminPassword c) "" then true else cf_AllowSignup c) c.

(** ** Single sign-on *)

Definition SSO_Enabled (c : SSOConfig) : bool :=
  negb (String.eqb (sso_Issuer c) "") && negb (String.eqb (sso_ClientID c) "") &&
  negb (String.eqb (sso_ClientSecret c) "") && negb (String.eqb (sso_RedirectURL c) "").

Definition LabelOrDefault (c : SSOConfig) : string := if String.eqb (sso_Label c) "" then "SSO" else sso_Label c.

(** ** The mail transport *)

Inductive email_err := ErrNoResendKey | ErrNoSMTPHost | ErrUnknownProvider (p : string) | ErrNoSender | ErrBadSender (from : string).

Record email_mode := mkMode { em_mode : string; em_from : string; em_devOnly : bool }.

Section Email.
(** [mail.ParseAddress] without its value. *)
Context (ParseAddress : string → bool).

Definition EmailMode (c : Config) : res email_err email_mode :=
  let with_sender (mode : string) : res email_err email_mode :=
    let from := TrimSpace (cf_EmailFromAddress c) in
    if String.eqb from "" then Err ErrNoSender
    else if negb (ParseAddress from) then Err (ErrBadSender (cf_EmailFromAddress c))
    else Ok (mkMode mode from false) in
  let provider := ToLower (TrimSpace (cf_EmailProvider c)) in
  if String.eqb provider "resend" then
    if String.eqb (cf_ResendAPIKey c) "" then Err ErrNoResendKey else with_sender "resend"
  else if String.eqb provider "smtp" then
    if String.eqb (TrimSpace (cf_SMTPHost c)) "" then Err ErrNoSMTPHost else with_sender "smtp"
  else if String.eqb provider "noop" then Ok (mkMode "noop" "" true)
  else if String.eqb provider "" then
    if negb (String.eqb (TrimSpace (cf_ResendAPIKey c)) "") then with_sender "resend"
    else if negb (String.eqb (TrimSpace (cf_SMTPHost c)) "") then with_sender "smtp"
    else Ok (mkMode "" "" false)
  else Err (ErrUnknownProvider (cf_EmailProvider c)).

Definition EmailEnabled (c : Config) : bool :=
  match EmailMode c with
  | Err _ => false
  | Ok m =>
      if String.eqb (em_from m) "" then false
      else if em_devOnly m then cf_DevMode c
      else negb (String.eqb (em_mode m) "")
  end.
End Email.

(** ** Route groups *)

Abbreviation route_groups := (gmap string (list string)).

Definition trimmed_fields (s : string) (sep : ascii) : list string :=
  List.filter (fun p => negb (String.eqb p "")) (map TrimSpace (Split s sep)).

(** One group of the specification. *)
Definition parse_group (group : string) : option (string * list string) :=
  let group := TrimSpace group in
  if String.eqb group "" then None
  else
    match Cut group "=" with
    | None => None
    | Some (alias, list) =>
        let alias := TrimSpace alias in
        if String.eqb alias "" then None
        else match trimmed_fields list "," with [] => None | models => Some (alias, models) end
    end.

Definition ParseRouteGroups (spec : string) : route_groups :=
  foldl (fun m g => match parse_group g with Some (alias, models) => <[alias := models]> m | None => m end) ∅ (Split spec ";").

(** The map is walked in an order of Go's choice: [entries] lists it. *)
Definition format_group (g : string * list string) : list string :=
  match snd g with [] => [] | models => [fst g +:+ "=" +:+ Join models ","] end.

Definition FormatRouteGroups (entries : list (string * list string)) : string :=
  Join (concat (map format_group entries)) ";".
