(* ===== verification/ConfigProps.v ===== *)
(** * ConfigProps: what the settings hold

    A [.env] file only fills gaps; a switch that removes a protection is on only
    when its variable reads as true, cookies are Secure unless told otherwise; mail
    is sent only with a sender and a credential; route groups and durations survive
    the round trip through the console. *)

From stdpp Require Import gmap pretty.
From S2P Require Import Prelude GoString Float64 FloatInt GoTime Json JsonFacts Net IpPolicy Config.
Local Open Scope string_scope.
Local Open Scope Z_scope.

(** ** The .env file *)

(** The first line of the file that sets the key to something [os.Setenv] takes. *)
Definition file_value (k : string) (lines : list string) : option string :=
  head (omap (fun raw => match dotenv_line raw with
                         | Some (key, val) => if String.eqb key k && negb (has_nul key || has_nul val) then Some val else None
                         | None => None
                         end) lines).

Lemma dotenv_step_lookup e raw k :
  dotenv_step e raw !! k =
  match e !! k with
  | Some v => Some v
  | None => match dotenv_line raw with
            | Some (key, val) => if String.eqb key k && negb (has_nul key || has_nul val) then Some val else None
            | None => None
            end
  end.
Proof.
  unfold dotenv_step. destruct (dotenv_line raw) as [[key val]|]; [|by destruct (e !! k)].
  destruct (String.eqb_spec key k) as [->|Hne]; cbn [andb].
  - destruct (e !! k) eqn:E; [done|]. unfold Setenv. destruct (has_nul k || has_nul val); cbn [negb]; [done|]. by rewrite lookup_insert_eq.
  - destruct (e !! key); [by destruct (e !! k)|]. unfold Setenv. destruct (has_nul key || has_nul val); [by destruct (e !! k)|].
    rewrite lookup_insert_ne by done. by destruct (e !! k).
Qed.

(** The [.env] file never overrides the process: a variable keeps its value when it
    is set, even to the empty text, and otherwise takes the value of the first line
    that sets it. *)
Theorem dotenv_fills_gaps file e k :
  loadDotEnv (Some file) e !! k = match e !! k with Some v => Some v | None => file_value k (scan_lines file) end.
Proof.
  unfold loadDotEnv. generalize (scan_lines file) as lines. intros lines. revert e.
  induction lines as [|raw lines IH]; intros e; cbn [foldl]; [by destruct (e !! k)|]. rewrite IH, dotenv_step_lookup.
  destruct (e !! k); [done|]. unfold file_value. cbn.
  destruct (dotenv_line raw) as [[key val]|]; [|done]. by destruct (String.eqb key k && negb (has_nul key || has_nul val)).
Qed.

(** ** Switches *)

Definition reads (b : bool) (e : environ) (key : string) : Prop := ParseBool (Getenv e key) = Some b.

Lemma envBool_false e key : envBool e key false = true ↔ reads true e key.
Proof.
  unfold envBool, env_by, reads. destruct (String.eqb_spec (Getenv e key) "") as [->|]; [done|].
  destruct (ParseBool (Getenv e key)) as [[]|]; cbn; naive_solver.
Qed.

Lemma envBool_spec e key d :
  envBool e key d = match ParseBool (Getenv e key) with Some b => b | None => d end.
Proof.
  unfold envBool, env_by. destruct (String.eqb_spec (Getenv e key) "") as [->|]; [done|].
  by destruct (ParseBool (Getenv e key)).
Qed.

Section Load.
Context (ParseFloat : string → option float64) (hostname : option string) (random : option (list Z)).

(** Every switch that removes a protection is off unless its variable, in the
    process or else in the file, reads as true; the session cookie is Secure unless
    its variable reads as false, or reads as nothing while development mode is on. *)
Theorem protections_on_by_default file e :
  let c := LoadConfig ParseFloat hostname random file e in
  let v := loadDotEnv file e in
  (cf_DevMode c = true ↔ reads true v "NEXUS_DEV_MODE") ∧
  (cf_AllowSharedKeys c = true ↔ reads true v "NEXUS_ALLOW_SHARED_KEYS") ∧
  (cf_AllowSignup c = true ↔ reads true v "NEXUS_ALLOW_SIGNUP") ∧
  (cf_PublicDocs c = true ↔ reads true v "NEXUS_PUBLIC_DOCS") ∧
  (cf_CaptureTraceContent c = true ↔ reads true v "NEXUS_CAPTURE_TRACE_CONTENT") ∧
  (cf_CaptureMCPContent c = true ↔ reads true v "NEXUS_CAPTURE_MCP_CONTENT") ∧
  (cf_SecureCookies c = false ↔
     reads false v "NEXUS_SECURE_COOKIES" ∨
     (ParseBool (Getenv v "NEXUS_SECURE_COOKIES") = None ∧ reads true v "NEXUS_DEV_MODE")).
Proof.
  intros c v.
  assert (∀ key, envBool v key false = true ↔ reads true v key) as H by (intros; apply envBool_false).
  split_and!; try apply H.
  change (cf_SecureCookies c) with (envBool v "NEXUS_SECURE_COOKIES" (negb (envBool v "NEXUS_DEV_MODE" false))).
  rewrite envBool_spec, <- H. unfold reads.
  destruct (ParseBool (Getenv v "NEXUS_SECURE_COOKIES")) as [[]|]; destruct (envBool v "NEXUS_DEV_MODE" false); cbn; intuition congruence.
Qed.

(** A guard switched on by any other word than the six Go reads as true, [yes], [on]
    or a padded [true] included, stays off and nothing is said. *)
Theorem misspelt_guard_stays_off file e :
  let c := LoadConfig ParseFloat hostname random file e in
  let v := loadDotEnv file e in
  Getenv v "NEXUS_GUARDRAILS_ENABLED" ∉ ["1"; "t"; "T"; "TRUE"; "true"; "True"] → cf_GuardrailsEnabled c = false.
Proof.
  intros c v Hv. change (cf_GuardrailsEnabled c) with (envBool v "NEXUS_GUARDRAILS_ENABLED" false).
  apply not_true_is_false. intros H. apply envBool_false in H. apply Hv. revert H. unfold reads, ParseBool.
  destruct (existsb _ ["1"; "t"; "T"; "TRUE"; "true"; "True"]) eqn:E; [|by case_match].
  intros _. apply existsb_exists in E as (x & Hx & E). apply String.eqb_eq in E. rewrite E. by apply list_elem_of_In.
Qed.

(** The older name of the mail time-out is never read: the newer one defaults to ten
    seconds, which is already an answer. *)
Theorem legacy_timeout_ignored file e t :
  let v := loadDotEnv file e in
  Getenv v "NEXUS_EMAIL_REQUEST_TIMEOUT" = "" → Getenv v "NEXUS_RESEND_REQUEST_TIMEOUT" = t →
  cf_EmailRequestTimeout (LoadConfig ParseFloat hostname random file e) = 10 * Second.
Proof.
  intros v Hn Ht.
  change (cf_EmailRequestTimeout (LoadConfig ParseFloat hostname random file e)) with
    (firstDurNonZero [envDuration v "NEXUS_EMAIL_REQUEST_TIMEOUT" (10 * Second); envDuration v "NEXUS_RESEND_REQUEST_TIMEOUT" 0]).
  unfold envDuration at 1, env_by. by rewrite Hn.
Qed.
End Load.

(** ** Mail *)

Section Email.
Context (ParseAddress : string → bool).

(** Mail goes out only over a named transport with its credential or host and from
    a sender that parses as an address; an unknown transport is refused. *)
Theorem mail_needs_sender c m :
  EmailMode ParseAddress c = Ok m → em_mode m ≠ "" → em_mode m ≠ "noop" →
  (em_mode m = "resend" ∧ cf_ResendAPIKey c ≠ "" ∨ em_mode m = "smtp" ∧ TrimSpace (cf_SMTPHost c) ≠ "") ∧
  em_from m = TrimSpace (cf_EmailFromAddress c) ∧ em_from m ≠ "" ∧ ParseAddress (em_from m) = true.
Proof.
  unfold EmailMode. set (from := TrimSpace (cf_EmailFromAddress c)).
  set (p := Net.ToLower (TrimSpace (cf_EmailProvider c))).
  assert (∀ mode m, (if String.eqb from "" then Err ErrNoSender
    else if negb (ParseAddress from) then Err (ErrBadSender (cf_EmailFromAddress c)) else Ok (mkMode mode from false)) = Ok m →
    em_mode m = mode ∧ em_from m = from ∧ from ≠ "" ∧ ParseAddress from = true) as Hs.
  { intros mode m' H. destruct (String.eqb_spec from ""); [done|]. destruct (ParseAddress from); [|done]. by injection H as <-. }
  assert (TrimSpace "" = "") as Ht by reflexivity.
  repeat case_match; intros H' Hm Hn; try done; try (injection H' as <-; done);
    apply Hs in H' as (-> & -> & ? & ?); (split; [|done]);
    repeat match goal with H : String.eqb _ _ = false |- _ => apply String.eqb_neq in H
                         | H : negb (String.eqb _ _) = true |- _ => apply negb_true_iff, String.eqb_neq in H end;
    [left|right|left|right]; split; try done; intros E; congruence.
Qed.

(** The discarding transport is chosen outside development mode as well, and is never
    reported as a working one, in development mode neither. *)
Theorem noop_unguarded c :
  Net.ToLower (TrimSpace (cf_EmailProvider c)) = "noop" →
  EmailMode ParseAddress c = Ok (mkMode "noop" "" true) ∧ EmailEnabled ParseAddress c = false.
Proof. intros H. unfold EmailEnabled, EmailMode. rewrite H. done. Qed.
End Email.

(** ** Trimmed texts *)

(** No encoding of [encs] starts the text. *)
Definition no_lead (encs : list string) (s : string) : Prop := leading_space encs s = None.

Lemma no_lead_spec encs s : no_lead encs s ↔ ∀ e, e ∈ encs → HasPrefix s e = false.
Proof.
  unfold no_lead, leading_space. destruct (list_find _ encs) as [[i e]|] eqn:E.
  - apply list_find_Some in E as (Hi & He & _). split; [done|]. intros H. rewrite H in He; [done|]. by eapply list_elem_of_lookup_2.
  - apply list_find_None in E. split; [|done]. intros _ e He. rewrite Forall_forall in E. by apply not_true_is_false, E.
Qed.

Lemma trim_left_id n encs s : no_lead encs s → trim_left n encs s = s.
Proof. intros H. destruct n as [|n]; [done|]. cbn [trim_left]. by rewrite H. Qed.

Lemma drop_bytes_le n s : (String.length (drop_bytes n s) ≤ String.length s - n)%nat.
Proof. revert n. induction s as [|c s IH]; intros [|n]; cbn; try lia. specialize (IH n). lia. Qed.

Lemma length_trim_left n encs s : (String.length (trim_left n encs s) ≤ String.length s)%nat.
Proof.
  revert s. induction n as [|n IH]; intros s; [done|]. cbn [trim_left]. destruct (leading_space encs s) as [k|]; [|done].
  specialize (IH (drop_bytes k s)). pose proof (drop_bytes_le k s). lia.
Qed.

Lemma trim_left_fixed encs s :
  Forall (fun e => e ≠ "") encs → (String.length s ≤ String.length (trim_left (String.length s) encs s))%nat → no_lead encs s.
Proof.
  intros He H. destruct (leading_space encs s) as [k|] eqn:E; [|done]. exfalso. revert H.
  assert (1 ≤ k)%nat as Hk.
  { unfold leading_space in E. destruct (list_find _ encs) as [[i e]|] eqn:Ef; [|done]. injection E as <-.
    apply list_find_Some in Ef as (Hi & _ & _). rewrite Forall_forall in He. apply list_elem_of_lookup_2, He in Hi. destruct e; cbn; [done|lia]. }
  destruct s as [|c s]; [|].
  - unfold leading_space in E. destruct (list_find _ encs) as [[i e]|] eqn:Ef; [|done].
    apply list_find_Some in Ef as (Hi & Hp & _). rewrite Forall_forall in He. apply list_elem_of_lookup_2, He in Hi. by destruct e.
  - cbn [String.length trim_left]. rewrite E. pose proof (length_trim_left (String.length s) encs (drop_bytes k (String c s))).
    pose proof (drop_bytes_le k (String c s)). cbn [String.length] in *. lia.
Qed.

Lemma length_rev s : String.length (String.rev s) = String.length s.
Proof. induction s as [|c s IH]; [done|]. rewrite rev_cons, length_app_string, IH. cbn. lia. Qed.

(** A text that [TrimSpace] leaves alone has white space at neither end. *)
Definition trimmed (s : string) : Prop := no_lead space_encodings s ∧ no_lead (map String.rev space_encodings) (String.rev s).

Lemma TrimSpace_trimmed s : TrimSpace s = s ↔ trimmed s.
Proof.
  split.
  - unfold TrimSpace, TrimRightSpace, TrimLeftSpace. intros H.
    set (l := trim_left (String.length s) space_encodings s) in H.
    pose proof (length_trim_left (String.length s) space_encodings s) as H1. fold l in H1.
    pose proof (length_trim_left (String.length l) (map String.rev space_encodings) (String.rev l)) as H2. rewrite length_rev in H2.
    assert (String.length s ≤ String.length l)%nat as H3.
    { apply (f_equal String.length) in H. rewrite length_rev in H. lia. }
    assert (no_lead space_encodings s) as Hl by (apply trim_left_fixed; [by repeat constructor|done]).
    assert (l = s) as El by (by apply trim_left_id). rewrite El in *. split; [done|].
    apply trim_left_fixed; [by repeat constructor|]. rewrite length_rev.
    apply (f_equal String.length) in H. rewrite length_rev in H. lia.
  - intros [H1 H2]. unfold TrimSpace, TrimLeftSpace. rewrite trim_left_id by done. unfold TrimRightSpace.
    rewrite trim_left_id by done. apply rev_involutive_string.
Qed.

Lemma drop_bytes_suffix n s : ∃ t, s = t +:+ drop_bytes n s.
Proof.
  revert n. induction s as [|c s IH]; intros [|n]; [by exists ""|by exists ""|by exists ""|].
  destruct (IH n) as [t E]. exists (String c t). change (String c s = String c (t +:+ drop_bytes n s)). by rewrite <- E.
Qed.

Lemma trim_left_suffix k encs s : ∃ t, s = t +:+ trim_left k encs s.
Proof.
  revert s. induction k as [|k IH]; intros s; [by exists ""|]. cbn [trim_left]. destruct (leading_space encs s) as [n|]; [|by exists ""].
  destruct (IH (drop_bytes n s)) as [t Et]. destruct (drop_bytes_suffix n s) as [u Eu]. exists (u +:+ t).
  by rewrite app_assoc_string, <- Et.
Qed.

Lemma trim_left_done k encs s :
  Forall (fun e => e ≠ "") encs → (String.length s ≤ k)%nat → no_lead encs (trim_left k encs s).
Proof.
  intros He. revert s. induction k as [|k IH]; intros s Hk.
  - cbn [trim_left]. apply trim_left_fixed; [done|]. destruct s; [done|cbn in Hk; lia].
  - cbn [trim_left]. destruct (leading_space encs s) as [n|] eqn:E; [|done]. apply IH.
    assert (¬ no_lead encs s) as Hn by (unfold no_lead; congruence).
    assert (1 ≤ n)%nat.
    { unfold leading_space in E. destruct (list_find _ encs) as [[i e]|] eqn:Ef; [|done]. injection E as <-.
      apply list_find_Some in Ef as (Hi & _ & _). rewrite Forall_forall in He. apply list_elem_of_lookup_2, He in Hi. destruct e; cbn; [done|lia]. }
    pose proof (drop_bytes_le n s). destruct s; [|cbn in *; lia]. cbn in *. lia.
Qed.

Lemma TrimSpace_idem s : TrimSpace (TrimSpace s) = TrimSpace s.
Proof.
  apply TrimSpace_trimmed. unfold TrimSpace, TrimRightSpace, TrimLeftSpace.
  set (l := trim_left (String.length s) space_encodings s).
  set (x := trim_left (String.length l) (map String.rev space_encodings) (String.rev l)).
  split.
  - assert (no_lead space_encodings l) as Hl by (apply trim_left_done; [by repeat constructor|done]).
    destruct (trim_left_suffix (String.length l) (map String.rev space_encodings) (String.rev l)) as [t Et]. fold x in Et.
    apply (f_equal String.rev) in Et. rewrite rev_involutive_string, rev_app_string in Et.
    rewrite no_lead_spec in Hl |- *. intros e He. specialize (Hl e He). apply not_true_is_false. intros H.
    apply HasPrefix_spec in H as [r Hr]. rewrite Et, Hr, app_assoc_string, HasPrefix_app in Hl. done.
  - rewrite rev_involutive_string. apply trim_left_done; [by repeat constructor|]. by rewrite length_rev.
Qed.

Lemma prefix_before_sep sep a r e : ¬ byte_in sep e → HasPrefix (a +:+ String sep r) e = true → HasPrefix a e = true.
Proof.
  revert a. induction e as [|c e IH]; intros a Hn H; [by destruct a|]. destruct a as [|x a].
  - exfalso. apply Hn. change ("" +:+ String sep r) with (String sep r) in H. cbn in H |- *. destruct (decide (c = sep)); [by left|done].
  - rewrite append_cons in H. cbn in H |- *. destruct (decide (c = x)); [|done]. apply IH; [|done]. intros Hb. apply Hn. by right.
Qed.

Lemma no_lead_sep encs sep a r : Forall (fun e => ¬ byte_in sep e) encs → no_lead encs a → no_lead encs (a +:+ String sep r).
Proof.
  rewrite !no_lead_spec, Forall_forall. intros Hs Ha e He. specialize (Ha e He). apply not_true_is_false. intros H.
  apply prefix_before_sep in H; [congruence|by apply Hs].
Qed.

(** A separator that no white space has a byte of. *)
Definition clean (sep : ascii) : Prop :=
  Forall (fun e => ¬ byte_in sep e) space_encodings ∧ Forall (fun e => ¬ byte_in sep e) (map String.rev space_encodings).

#[export] Instance byte_in_dec c s : Decision (byte_in c s).
Proof. induction s as [|x s IH]; cbn [byte_in]; apply _. Defined.

Lemma clean_comma : clean ",". Proof. split; apply (bool_decide_unpack _); vm_compute; exact I. Qed.
Lemma clean_equals : clean "=". Proof. split; apply (bool_decide_unpack _); vm_compute; exact I. Qed.

Lemma trimmed_sep sep a b : clean sep → trimmed a → trimmed b → trimmed (a +:+ String sep b).
Proof.
  intros [H1 H2] [Ha _] [_ Hb]. split; [by apply no_lead_sep|].
  change (String sep b) with (String sep "" +:+ b). rewrite !rev_app_string. change (String.rev (String sep "")) with (String sep "").
  rewrite app_assoc_string. change (String sep "" +:+ String.rev a) with (String sep (String.rev a)). by apply no_lead_sep.
Qed.

(** ** Route groups *)

Definition plain (seps : list ascii) (s : string) : Prop := s ≠ "" ∧ TrimSpace s = s ∧ Forall (fun c => ¬ byte_in c s) seps.

Definition group_ok (g : string * list string) : Prop :=
  plain ["="%char; ";"%char] (fst g) ∧ snd g ≠ [] ∧ Forall (plain [","%char; ";"%char]) (snd g).

Lemma split_Join_sep sep l : l ≠ [] → Forall (fun s => ¬ byte_in sep s) l → Split (Join l (String sep "")) sep = l.
Proof.
  intros Hl. induction l as [|x l IH]; [done|]. intros [Hx Hr]%Forall_cons. destruct l as [|y l]; [by apply Split_one|].
  change (Join (x :: y :: l) (String sep "")) with (x +:+ String sep (Join (y :: l) (String sep ""))).
  rewrite Split_app by done. f_equal. by apply IH.
Qed.

Lemma trimmed_Join l : l ≠ [] → Forall trimmed l → trimmed (Join l ",").
Proof.
  intros Hl. induction l as [|x l IH]; [done|]. intros [Hx Hr]%Forall_cons. destruct l as [|y l]; [done|].
  change (Join (x :: y :: l) ",") with (x +:+ String "," (Join (y :: l) ",")). apply trimmed_sep; [apply clean_comma|done|]. by apply IH.
Qed.

Lemma fields_Join models :
  models ≠ [] → Forall (plain [","%char; ";"%char]) models → trimmed_fields (Join models ",") "," = models.
Proof.
  intros Hn H. unfold trimmed_fields. rewrite (split_Join_sep "," models); [|done|].
  - clear Hn. induction H as [|x l (Hx & Ht & _) _ IH]; [done|]. cbn. rewrite Ht. apply String.eqb_neq in Hx. rewrite Hx. cbn. by f_equal.
  - eapply Forall_impl; [exact H|]. intros s (_ & _ & Hs). by apply Forall_cons in Hs as [? _].
Qed.

Lemma parse_formatted g : group_ok g → parse_group (fst g +:+ "=" +:+ Join (snd g) ",") = Some g.
Proof.
  destruct g as [alias models]. intros ((Ha & Hta & Hsa) & Hm & Hms). cbn [fst snd] in *. unfold parse_group.
  change (alias +:+ "=" +:+ Join models ",") with (alias +:+ String "=" (Join models ",")).
  assert (TrimSpace (alias +:+ String "=" (Join models ",")) = alias +:+ String "=" (Join models ",")) as ->.
  { apply TrimSpace_trimmed, trimmed_sep; [apply clean_equals|by apply TrimSpace_trimmed|]. apply trimmed_Join; [done|].
    eapply Forall_impl; [exact Hms|]. intros s (_ & Hs & _). by apply TrimSpace_trimmed. }
  destruct (String.eqb_spec (alias +:+ String "=" (Join models ",")) "") as [E|_]; [by destruct alias|].
  apply Forall_cons in Hsa as [He _]. assert (Cut (alias +:+ String "=" (Join models ",")) "=" = Some (alias, Join models ",")) as ->.
  { by apply Cut_Some. }
  rewrite Hta. apply String.eqb_neq in Ha. rewrite Ha, fields_Join by done. by destruct models.
Qed.

Lemma byte_in_Join c l sep : ¬ byte_in c sep → Forall (fun s => ¬ byte_in c s) l → ¬ byte_in c (Join l sep).
Proof.
  intros Hs. induction l as [|x l IH]; [by intros _ []|]. intros [Hx Hr]%Forall_cons. destruct l as [|y l]; [done|].
  change (Join (x :: y :: l) sep) with (x +:+ sep +:+ Join (y :: l) sep). rewrite !byte_in_app. specialize (IH Hr). tauto.
Qed.

(** Route groups survive the console: printed in any order and parsed again they are
    the same groups, when aliases and models are trimmed, non-empty and free of the
    separators, and no group is empty. *)
Theorem route_groups_roundtrip (groups : route_groups) entries :
  entries ≡ₚ map_to_list groups → Forall group_ok entries → ParseRouteGroups (FormatRouteGroups entries) = groups.
Proof.
  intros Hp Hok.
  assert (NoDup (map fst entries)) as Hn by (rewrite Hp; apply NoDup_fst_map_to_list).
  assert (concat (map format_group entries) = map (fun g => fst g +:+ "=" +:+ Join (snd g) ",") entries) as E.
  { clear -Hok. induction Hok as [|[a ms] l (_ & Hm & _) _ IH]; [done|]. cbn [map concat]. rewrite IH. cbn in Hm. by destruct ms. }
  unfold FormatRouteGroups. rewrite E. clear E.
  assert (foldl (fun m g => match parse_group g with Some (alias, models) => <[alias := models]> m | None => m end) ∅
            (map (fun g => fst g +:+ "=" +:+ Join (snd g) ",") entries) = (list_to_map (rev entries) : route_groups)) as E.
  { clear -Hok. induction entries as [|[a ms] l IH] using rev_ind; [done|]. apply Forall_app in Hok as [Hl [Hg _]%Forall_cons].
    rewrite map_app, foldl_app, rev_app_distr. cbn [map foldl rev app]. rewrite (IH Hl), (parse_formatted (a, ms) Hg). done. }
  assert (list_to_map (rev entries) = groups) as Eg.
  { rewrite <- (list_to_map_to_list groups). apply list_to_map_proper; [by rewrite map_rev, <- Permutation_rev|].
    by rewrite <- Hp, <- Permutation_rev. }
  unfold ParseRouteGroups. destruct entries as [|g entries]; [by rewrite <- Eg|].
  rewrite (split_Join_sep ";"); [by rewrite E| done |].
  apply Forall_map. eapply Forall_impl; [exact Hok|]. intros [a ms] ((_ & _ & Ha) & _ & Hms). cbn [fst snd] in *.
  rewrite !byte_in_app. apply Forall_cons in Ha as [_ [Ha _]%Forall_cons].
  assert (¬ byte_in ";" (Join ms ",")).
  { apply byte_in_Join; [cbn; naive_solver|]. eapply Forall_impl; [exact Hms|]. intros s (_ & _ & Hs).
    by apply Forall_cons in Hs as [_ [? _]%Forall_cons]. }
  cbn. naive_solver.
Qed.

(** ** Concrete settings *)

Definition toy_env : environ := {[ "NEXUS_GUARDRAILS_ENABLED" := "yes"; "NEXUS_RESEND_REQUEST_TIMEOUT" := "45s" ]}.
Definition no_float (_ : string) : option float64 := None.

Example dotenv_example :
  dotenv_line "  NEXUS_DEV_MODE = 'true' " = Some ("NEXUS_DEV_MODE", "true") ∧ dotenv_line "# off" = None.
Proof. vm_compute. by split. Qed.

Example ParseDuration_examples :
  ParseDuration "1h30m" = Some (90 * Minute) ∧ ParseDuration "1.5s" = Some (1500 * Millisecond) ∧
  ParseDuration "-5m" = Some (-5 * Minute) ∧ ParseDuration "24" = None ∧ ParseDuration "0" = Some 0.
Proof. vm_compute. repeat split. Qed.

Lemma misspelt_guard_stays_off_witness :
  Getenv (loadDotEnv None toy_env) "NEXUS_GUARDRAILS_ENABLED" = "yes" ∧
  cf_GuardrailsEnabled (LoadConfig no_float None None None toy_env) = false.
Proof.
  split; [vm_compute; reflexivity|]. apply (misspelt_guard_stays_off no_float None None None toy_env).
  vm_compute. intros H. repeat (apply elem_of_cons in H as [H|H]; [discriminate H|]). by apply elem_of_nil in H.
Defined.

Lemma legacy_timeout_ignored_witness :
  Getenv (loadDotEnv None toy_env) "NEXUS_RESEND_REQUEST_TIMEOUT" = "45s" ∧
  cf_EmailRequestTimeout (LoadConfig no_float None None None toy_env) = 10 * Second.
Proof.
  split; [vm_compute; reflexivity|].
  apply (legacy_timeout_ignored no_float None None None toy_env "45s"); vm_compute; reflexivity.
Defined.

Definition mail_env : environ :=
  {[ "NEXUS_SMTP_HOST" := "mail.internal"; "NEXUS_EMAIL_FROM_ADDRESS" := "ops@example.com" ]}.
Definition has_at (s : string) : bool := match IndexByte s "@" with Some _ => true | None => false end.

Lemma mail_needs_sender_witness :
  let c := LoadConfig no_float None None None mail_env in
  EmailMode has_at c = Ok (mkMode "smtp" "ops@example.com" false) ∧ TrimSpace (cf_SMTPHost c) ≠ "".
Proof.
  intros c. assert (EmailMode has_at c = Ok (mkMode "smtp" "ops@example.com" false)) as E by (vm_compute; reflexivity).
  split; [exact E|].
  destruct (mail_needs_sender has_at c (mkMode "smtp" "ops@example.com" false) E ltac:(discriminate) ltac:(discriminate))
    as [[[H _]|[_ H]] _]; [discriminate H|exact H].
Defined.

Definition noop_env : environ := {[ "NEXUS_EMAIL_PROVIDER" := "noop" ]}.

Lemma noop_unguarded_witness :
  let c := LoadConfig no_float None None None noop_env in
  cf_DevMode c = false ∧ EmailMode has_at c = Ok (mkMode "noop" "" true) ∧ EmailEnabled has_at c = false.
Proof.
  intros c. split; [vm_compute; reflexivity|]. apply (noop_unguarded has_at c). vm_compute. reflexivity.
Defined.

Definition toy_groups : route_groups := {[ "fast" := ["gpt-4o-mini"; "gemini-2.5-flash"]; "smart" := ["gpt-4o"] ]}.

Lemma route_groups_roundtrip_witness :
  ParseRouteGroups (FormatRouteGroups [("smart", ["gpt-4o"]); ("fast", ["gpt-4o-mini"; "gemini-2.5-flash"])]) = toy_groups.
Proof.
  apply (route_groups_roundtrip toy_groups).
  - apply (bool_decide_unpack _). vm_compute. exact I.
  - repeat (apply Forall_cons; split; [|]); [..|apply Forall_nil; exact I];
      (split; [|split; [discriminate|]]); repeat (apply Forall_cons; split; [|]); try (apply Forall_nil; exact I);
      (split; [discriminate|split; [vm_compute; reflexivity|]]);
      repeat (apply Forall_cons; split; [apply (bool_decide_unpack _); vm_compute; exact I|]); apply Forall_nil; exact I.
Defined.
