(* ===== verification/Notify.v ===== *)
(** * Notify: src/internal/router/notifier.go, src/internal/router/webhook.go

    The failover alert sinks.  A notifier is a bounded queue and a worker that posts
    its events one at a time; whether a post was answered below 300, and the clock
    before and after it, are arguments of the step.  The JSON of the body is a
    parameter of the encoder; the Slack line is written out. *)

From stdpp Require Import list pretty.
From S2P Require Import Prelude GoString GoTime Gateway.
Local Open Scope string_scope.
Local Open Scope Z_scope.

(** ** Messages *)

Definition middle_dot : string := " " +:+ bytes [194; 183]%nat +:+ " ".
Definition arrow : string := " " +:+ bytes [226; 134; 146]%nat +:+ " ".

Definition replicaSuffix (id : string) : string := if String.eqb id "" then "" else middle_dot +:+ "replica=" +:+ id.

Definition slack_text (ev : FailoverEvent) : string :=
  ":warning: nexus failover" +:+ middle_dot +:+ fo_Primary ev +:+ arrow +:+ fo_Fallback ev +:+ middle_dot +:+
  "reason=" +:+ fo_Reason ev +:+ middle_dot +:+ "virtual_key=" +:+ fo_VirtualKeyID ev +:+ middle_dot +:+
  "alias=" +:+ fo_Alias ev +:+ replicaSuffix (fo_ReplicaID ev).

(** What a sink sends: the event's JSON, or the line above as Slack's [text]. *)
Inductive encoding := EncJSON | EncSlack.

(** ** The buffered notifier *)

Inductive worker_phase := Looping | Draining | Stopped.

Record bufferedNotifier := mkBuffered {
  bn_endpoint : string;
  bn_encode : encoding;
  bn_timeout : Duration;
  bn_buffer : nat;
  bn_cooldown : Duration;
  bn_ch : list FailoverEvent;
  bn_closing : bool;
  bn_phase : worker_phase;
  bn_lastSent : Time;
  bn_dropped : Z
}.

Record bufferedNotifierOptions := mkOptions {
  no_endpoint : string; no_encode : encoding; no_timeout : Duration; no_cooldown : Duration; no_buffer : nat
}.

(** [None] is the nil notifier of an empty endpoint. *)
Definition newBufferedNotifier (o : bufferedNotifierOptions) : option bufferedNotifier :=
  if String.eqb (no_endpoint o) "" then None
  else Some (mkBuffered (no_endpoint o) (no_encode o) (if no_timeout o =? 0 then 5 * Second else no_timeout o)
               (if decide (no_buffer o = 0%nat) then 256%nat else no_buffer o) (no_cooldown o) [] false Looping zero_time 0).

Definition NewWebhookNotifier (endpoint : string) : option bufferedNotifier :=
  newBufferedNotifier (mkOptions endpoint EncJSON 0 0 0).
Definition NewSlackNotifier (endpoint : string) : option bufferedNotifier :=
  newBufferedNotifier (mkOptions endpoint EncSlack 0 0 0).

Definition set_ch (ch : list FailoverEvent) (b : bufferedNotifier) : bufferedNotifier :=
  mkBuffered (bn_endpoint b) (bn_encode b) (bn_timeout b) (bn_buffer b) (bn_cooldown b) ch (bn_closing b) (bn_phase b) (bn_lastSent b) (bn_dropped b).
Definition set_phase (p : worker_phase) (b : bufferedNotifier) : bufferedNotifier :=
  mkBuffered (bn_endpoint b) (bn_encode b) (bn_timeout b) (bn_buffer b) (bn_cooldown b) (bn_ch b) (bn_closing b) p (bn_lastSent b) (bn_dropped b).
Definition set_lastSent (t : Time) (b : bufferedNotifier) : bufferedNotifier :=
  mkBuffered (bn_endpoint b) (bn_encode b) (bn_timeout b) (bn_buffer b) (bn_cooldown b) (bn_ch b) (bn_closing b) (bn_phase b) t (bn_dropped b).

(** [Notify] never blocks: a full queue drops the event. *)
Definition Notify (ev : FailoverEvent) (b : bufferedNotifier) : bufferedNotifier :=
  if decide (length (bn_ch b) < bn_buffer b)%nat then set_ch (bn_ch b ++ [ev]) b
  else mkBuffered (bn_endpoint b) (bn_encode b) (bn_timeout b) (bn_buffer b) (bn_cooldown b) (bn_ch b) (bn_closing b)
         (bn_phase b) (bn_lastSent b) (bn_dropped b + 1).

(** [Close] without its wait; closing twice panics. *)
Definition Notify_Close (b : bufferedNotifier) : option bufferedNotifier :=
  if bn_closing b then None
  else Some (mkBuffered (bn_endpoint b) (bn_encode b) (bn_timeout b) (bn_buffer b) (bn_cooldown b) (bn_ch b) true
               (bn_phase b) (bn_lastSent b) (bn_dropped b)).

(** One answer of the endpoint: the clock when the worker looks, whether the post was
    answered below 300, and the clock after it. *)
Record post_answer := mkPost { po_now : Time; po_ok : bool; po_after : Time }.

Definition cooling (b : bufferedNotifier) (now : Time) : bool :=
  (0 <? bn_cooldown b) && negb (IsZero (bn_lastSent b)) && (Sub now (bn_lastSent b) <? bn_cooldown b).

(** [sendOnce]: the event posted, if any, and the worker's clock after it. *)
Definition sendOnce (ev : FailoverEvent) (p : post_answer) (b : bufferedNotifier) : list FailoverEvent * bufferedNotifier :=
  if cooling b (po_now p) then ([], b)
  else ([ev], if po_ok p then set_lastSent (po_after p) b else b).

(** The worker and its callers, one event each.  While [done] is closed and events
    wait, the first [select] may take either. *)
Inductive event :=
| NNotify (ev : FailoverEvent)
| NClose
| NReceive (p : post_answer)
| NSeeDone
| NEmpty.

(** The step with the posts it makes; [None] where the step cannot be taken. *)
Definition nstep (b : bufferedNotifier) (e : event) : option (list FailoverEvent * bufferedNotifier) :=
  match e with
  | NNotify ev => Some ([], Notify ev b)
  | NClose => pair [] <$> Notify_Close b
  | NReceive p =>
      match bn_phase b, bn_ch b with
      | Stopped, _ | _, [] => None
      | _, ev :: rest => Some (sendOnce ev p (set_ch rest b))
      end
  | NSeeDone => match bn_phase b with Looping => if bn_closing b then Some ([], set_phase Draining b) else None | _ => None end
  | NEmpty => match bn_phase b, bn_ch b with Draining, [] => Some ([], set_phase Stopped b) | _, _ => None end
  end.

Fixpoint nrun (b : bufferedNotifier) (es : list event) : option (list FailoverEvent * bufferedNotifier) :=
  match es with
  | [] => Some ([], b)
  | e :: es' =>
      match nstep b e with
      | None => None
      | Some (out, b') => match nrun b' es' with Some (out', b'') => Some ((out ++ out')%list, b'') | None => None end
      end
  end.

(** ** The fan-out *)

Inductive Notifier := NoopNotifier | Buffered (b : bufferedNotifier).

(** [None] is a nil entry, and the nil notifier of an empty list. *)
Definition NewMultiNotifier (notifiers : list (option Notifier)) : option (list Notifier) :=
  match omap (fun n => match n with Some (Buffered b) => Some (Buffered b) | _ => None end) notifiers with
  | [] => None
  | kept => Some kept
  end.

Definition MultiNotify (ev : FailoverEvent) (m : list Notifier) : list Notifier :=
  map (fun n => match n with Buffered b => Buffered (Notify ev b) | NoopNotifier => NoopNotifier end) m.
