(* ===== verification/Runtime.v ===== *)
(** * Runtime: src/cmd/nexus/gateway_runtime.go, src/cmd/nexus/eval_runtime.go,
    src/internal/console/gateway_config.go, src/internal/console/eval_config.go

    The settings an administrator changes while the process runs.  A controller keeps
    the settings and pushes them to the running parts; applying a patch yields the
    parts as they are afterwards together with the answer, because an error stops the
    patch where it stands.  The snapshot's text is kept to the fields a patch can
    set. *)

From stdpp Require Import gmap pretty.
From S2P Require Import Prelude GoString Float64 GoTime ApiErr Guardrails SemCache Gateway Evals EvalWorker Router Config Notify.
Local Open Scope string_scope.
Local Open Scope Z_scope.

(** ** Durations as text *)

(** [formatDuration]; [dstring] is [d.String()], which prints what has a fraction of
    a second. *)
Definition formatDuration (dstring : Duration → string) (d : Duration) : string :=
  if d <=? 0 then "0s"
  else if d mod Minute =? 0 then
    if d mod Hour =? 0 then pretty (d / Hour) +:+ "h" else pretty (d / Minute) +:+ "m"
  else if d mod Second =? 0 then pretty (d / Second) +:+ "s"
  else dstring d.

Definition splitDenyPatterns (spec : string) : list string :=
  List.filter (fun p => negb (String.eqb p "")) (map TrimSpace (Split spec ";")).

(** ** The gateway's settings *)

(** The settings of [config.Config] this controller reads or writes. *)
Record gateway_cfg := mkGatewayCfg {
  gc_GuardrailsEnabled : bool;
  gc_BlockPIIIn : bool;
  gc_RedactPIIOut : bool;
  gc_MaxInputChrs : Z;
  gc_DenyPatterns : string;
  gc_ValidateJSON : bool;
  gc_SelfCorrectionEnabled : bool;
  gc_SelfCorrectionMaxRetries : Z;
  gc_CacheEnabled : bool;
  gc_CacheTTL : Duration;
  gc_CacheThreshold : float64;
  gc_CacheMaxEntries : Z;
  gc_CacheExact : bool;
  gc_FailoverWebhookURL : string;
  gc_FailoverSlackURL : string;
  gc_FailoverAlertCooldown : Duration
}.

Definition gateway_cfg_of (c : Config.Config) : gateway_cfg :=
  mkGatewayCfg (cf_GuardrailsEnabled c) (cf_GuardrailBlockPIIIn c) (cf_GuardrailRedactPIIOut c) (cf_GuardrailMaxInputChrs c)
    (cf_GuardrailDenyPatterns c) (cf_GuardrailValidateJSON c) (cf_SelfCorrectionEnabled c) (cf_SelfCorrectionMaxRetries c)
    (cf_SemanticCacheEnabled c) (cf_SemanticCacheTTL c) (cf_SemanticCacheThreshold c) (cf_SemanticCacheMaxEntries c)
    (cf_SemanticCacheExact c) (cf_FailoverWebhookURL c) (cf_FailoverSlackURL c) (cf_FailoverAlertCooldown c).

Record GuardrailsPatch := mkGuardrailsPatch {
  gp_Enabled : option bool; gp_BlockPIIInput : option bool; gp_RedactPIIOutput : option bool; gp_MaxInputChars : option Z;
  gp_DenyPatterns : option (list string); gp_ValidateJSONOutput : option bool; gp_SelfCorrectionEnabled : option bool;
  gp_SelfCorrectionMaxRetries : option Z
}.
Record SemanticCachePatch := mkCachePatch {
  cp_Enabled : option bool; cp_TTL : option string; cp_Threshold : option float64; cp_MaxEntries : option Z; cp_ExactMatch : option bool
}.
Record AlertingPatch := mkAlertingPatch { ap_FailoverWebhook : option string; ap_FailoverSlack : option string; ap_Cooldown : option string }.
Record GatewayConfigPatch := mkGatewayPatch {
  pt_Guardrails : option GuardrailsPatch; pt_SemanticCache : option SemanticCachePatch; pt_Alerting : option AlertingPatch
}.

(** What runs: the handler's guard, corrections, cache and alert sinks, the cache
    service's own settings, and how many alert workers were ever started.  None is
    ever closed. *)
Record gateway_live := mkLive {
  lv_guard : option Guard;
  lv_selfCorrectMax : Z;
  lv_cacheOn : bool;
  lv_sinks : option (list Notifier);
  lv_cacheCfg : option SemCache.Config;
  lv_workersStarted : nat
}.

(** [grc_handler] is [false] without a gateway handler, [grc_booted] when there was no
    cache at boot. *)
Record gatewayRuntimeController := mkGRC {
  grc_cfg : gateway_cfg;
  grc_handler : bool;
  grc_booted : bool;
  grc_live : gateway_live;
  grc_lastDiff : list string
}.

Definition with_cfg (c : gateway_cfg) (g : gatewayRuntimeController) : gatewayRuntimeController :=
  mkGRC c (grc_handler g) (grc_booted g) (grc_live g) (grc_lastDiff g).
Definition with_live (l : gateway_live) (g : gatewayRuntimeController) : gatewayRuntimeController :=
  mkGRC (grc_cfg g) (grc_handler g) (grc_booted g) l (grc_lastDiff g).
Definition with_diff (d : list string) (g : gatewayRuntimeController) : gatewayRuntimeController :=
  mkGRC (grc_cfg g) (grc_handler g) (grc_booted g) (grc_live g) d.

Definition named {A} (o : option A) (name : string) : list string := match o with Some _ => [name] | None => [] end.

Section GatewayRuntime.
(** [regexp.Compile]. *)
Context (compile : string → option compiled).

Definition patch_guardrails (p : GuardrailsPatch) (c : gateway_cfg) : gateway_cfg :=
  mkGatewayCfg (default (gc_GuardrailsEnabled c) (gp_Enabled p)) (default (gc_BlockPIIIn c) (gp_BlockPIIInput p))
    (default (gc_RedactPIIOut c) (gp_RedactPIIOutput p)) (default (gc_MaxInputChrs c) (gp_MaxInputChars p))
    (default (gc_DenyPatterns c) ((fun l => Join l ";") <$> gp_DenyPatterns p)) (default (gc_ValidateJSON c) (gp_ValidateJSONOutput p))
    (default (gc_SelfCorrectionEnabled c) (gp_SelfCorrectionEnabled p))
    (default (gc_SelfCorrectionMaxRetries c) (gp_SelfCorrectionMaxRetries p))
    (gc_CacheEnabled c) (gc_CacheTTL c) (gc_CacheThreshold c) (gc_CacheMaxEntries c) (gc_CacheExact c)
    (gc_FailoverWebhookURL c) (gc_FailoverSlackURL c) (gc_FailoverAlertCooldown c).

Definition guardrails_diff (p : GuardrailsPatch) : list string :=
  (named (gp_Enabled p) "guardrails.enabled" ++ named (gp_BlockPIIInput p) "guardrails.block_pii_input" ++
   named (gp_RedactPIIOutput p) "guardrails.redact_pii_output" ++ named (gp_MaxInputChars p) "guardrails.max_input_chars" ++
   named (gp_DenyPatterns p) "guardrails.deny_patterns" ++ named (gp_ValidateJSONOutput p) "guardrails.validate_json_output" ++
   named (gp_SelfCorrectionEnabled p) "guardrails.self_correction_enabled" ++
   named (gp_SelfCorrectionMaxRetries p) "guardrails.self_correction_max_retries")%list.

(** The guard the settings describe. *)
Definition guard_of (c : gateway_cfg) : option Guard :=
  Guardrails.New compile (Guardrails.mkConfig (gc_GuardrailsEnabled c) (gc_BlockPIIIn c) (gc_RedactPIIOut c) (gc_MaxInputChrs c)
    (splitDenyPatterns (gc_DenyPatterns c)) (gc_ValidateJSON c)).

Definition applyGuardrailsLocked (g : gatewayRuntimeController) : gatewayRuntimeController :=
  if negb (grc_handler g) then g
  else
    let c := grc_cfg g in
    let guard := guard_of c in
    let retries := if gc_SelfCorrectionEnabled c then gc_SelfCorrectionMaxRetries c else 0 in
    let l := grc_live g in
    with_live (mkLive (if Active guard then guard else None) (Z.max 0 retries) (lv_cacheOn l) (lv_sinks l) (lv_cacheCfg l)
                 (lv_workersStarted l)) g.

Definition applyFailoverLocked (g : gatewayRuntimeController) : gatewayRuntimeController :=
  if negb (grc_handler g) then g
  else
    let c := grc_cfg g in
    let l := grc_live g in
    let sinks :=
      ((if String.eqb (gc_FailoverWebhookURL c) "" then [] else [Buffered <$> NewWebhookNotifier (gc_FailoverWebhookURL c)]) ++
       (if String.eqb (gc_FailoverSlackURL c) "" then [] else [Buffered <$> NewSlackNotifier (gc_FailoverSlackURL c)]))%list in
    with_live (mkLive (lv_guard l) (lv_selfCorrectMax l) (lv_cacheOn l) (NewMultiNotifier sinks) (lv_cacheCfg l)
                 (lv_workersStarted l + length sinks)) g.

Definition set_cache_cfg (en : bool) (ttl : Duration) (th : float64) (mx : Z) (ex : bool) (c : gateway_cfg) : gateway_cfg :=
  mkGatewayCfg (gc_GuardrailsEnabled c) (gc_BlockPIIIn c) (gc_RedactPIIOut c) (gc_MaxInputChrs c) (gc_DenyPatterns c)
    (gc_ValidateJSON c) (gc_SelfCorrectionEnabled c) (gc_SelfCorrectionMaxRetries c) en ttl th mx ex
    (gc_FailoverWebhookURL c) (gc_FailoverSlackURL c) (gc_FailoverAlertCooldown c).

Definition set_alerting (wh sl : string) (cd : Duration) (c : gateway_cfg) : gateway_cfg :=
  mkGatewayCfg (gc_GuardrailsEnabled c) (gc_BlockPIIIn c) (gc_RedactPIIOut c) (gc_MaxInputChrs c) (gc_DenyPatterns c)
    (gc_ValidateJSON c) (gc_SelfCorrectionEnabled c) (gc_SelfCorrectionMaxRetries c) (gc_CacheEnabled c) (gc_CacheTTL c)
    (gc_CacheThreshold c) (gc_CacheMaxEntries c) (gc_CacheExact c) wh sl cd.

Inductive runtime_err := ErrCacheNeedsBoot | ErrDuration (s : string).

(** The cache part: the switch, which takes effect at once, then the time to live,
    which may fail, then the rest. *)
Definition patch_cache (p : SemanticCachePatch) (g : gatewayRuntimeController) : gatewayRuntimeController * res runtime_err (list string) :=
  let c := grc_cfg g in
  if (match cp_Enabled p with Some true => true | _ => false end) && negb (grc_booted g) then (g, Err ErrCacheNeedsBoot)
  else
    let g1 :=
      match cp_Enabled p with
      | None => g
      | Some en =>
          let g' := with_cfg (set_cache_cfg en (gc_CacheTTL c) (gc_CacheThreshold c) (gc_CacheMaxEntries c) (gc_CacheExact c) c) g in
          if grc_handler g
          then let l := grc_live g in
               with_live (mkLive (lv_guard l) (lv_selfCorrectMax l) (en && grc_booted g) (lv_sinks l) (lv_cacheCfg l) (lv_workersStarted l)) g'
          else g'
      end in
    let c1 := grc_cfg g1 in
    match match cp_TTL p with None => Some (gc_CacheTTL c1) | Some s => ParseDuration (TrimSpace s) end with
    | None => (g1, Err (ErrDuration (default "" (cp_TTL p))))
    | Some ttl =>
        let c2 := set_cache_cfg (gc_CacheEnabled c1) ttl (default (gc_CacheThreshold c1) (cp_Threshold p))
                    (default (gc_CacheMaxEntries c1) (cp_MaxEntries p)) (default (gc_CacheExact c1) (cp_ExactMatch p)) c1 in
        let g2 := with_cfg c2 g1 in
        let l := grc_live g2 in
        let g3 := if grc_booted g2 && gc_CacheEnabled c2
                  then with_live (mkLive (lv_guard l) (lv_selfCorrectMax l) (lv_cacheOn l) (lv_sinks l)
                         (Some (effectiveConfig (SemCache.mkConfig true (gc_CacheTTL c2) (gc_CacheThreshold c2) (gc_CacheMaxEntries c2) 0
                                                   (gc_CacheExact c2)))) (lv_workersStarted l)) g2
                  else g2 in
        (g3, Ok (named (cp_Enabled p) "semantic_cache.enabled" ++ named (cp_TTL p) "semantic_cache.ttl" ++
                 named (cp_Threshold p) "semantic_cache.threshold" ++ named (cp_MaxEntries p) "semantic_cache.max_entries" ++
                 named (cp_ExactMatch p) "semantic_cache.exact_match")%list)
    end.

Definition patch_alerting (p : AlertingPatch) (g : gatewayRuntimeController) : gatewayRuntimeController * res runtime_err (list string) :=
  let c := grc_cfg g in
  let wh := default (gc_FailoverWebhookURL c) (TrimSpace <$> ap_FailoverWebhook p) in
  let sl := default (gc_FailoverSlackURL c) (TrimSpace <$> ap_FailoverSlack p) in
  let g1 := with_cfg (set_alerting wh sl (gc_FailoverAlertCooldown c) c) g in
  match match ap_Cooldown p with None => Some (gc_FailoverAlertCooldown c) | Some s => ParseDuration (TrimSpace s) end with
  | None => (g1, Err (ErrDuration (default "" (ap_Cooldown p))))
  | Some d =>
      (applyFailoverLocked (with_cfg (set_alerting wh sl d c) g1),
       Ok (named (ap_FailoverWebhook p) "alerting.failover_webhook" ++ named (ap_FailoverSlack p) "alerting.failover_slack" ++
           named (ap_Cooldown p) "alerting.cooldown")%list)
  end.

Definition opt_part {P} (f : P → gatewayRuntimeController → gatewayRuntimeController * res runtime_err (list string))
    (p : option P) (g : gatewayRuntimeController) : gatewayRuntimeController * res runtime_err (list string) :=
  match p with None => (g, Ok []) | Some p => f p g end.

(** [gateway_Apply]: the parts in order; an error leaves what was done before it. *)
Definition gateway_Apply (patch : GatewayConfigPatch) (g : gatewayRuntimeController) : gatewayRuntimeController * res runtime_err gateway_cfg :=
  let '(g1, diff1) :=
    match pt_Guardrails patch with
    | None => (g, [])
    | Some p => (applyGuardrailsLocked (with_cfg (patch_guardrails p (grc_cfg g)) g), guardrails_diff p)
    end in
  match opt_part patch_cache (pt_SemanticCache patch) g1 with
  | (g2, Err e) => (g2, Err e)
  | (g2, Ok diff2) =>
      match opt_part patch_alerting (pt_Alerting patch) g2 with
      | (g3, Err e) => (g3, Err e)
      | (g3, Ok diff3) => let g4 := with_diff (diff1 ++ diff2 ++ diff3)%list g3 in (g4, Ok (grc_cfg g4))
      end
  end.

(** ** The console's request *)

Inductive config_reply := CfgUnavailable | CfgInvalid | CfgOK (snap : gateway_cfg).

(** [patchGatewayConfig] after the administrator check and the decoding: the
    controller, the reply and whether the audit line is written. *)
Definition patchGatewayConfig (patch : GatewayConfigPatch) (s : option gatewayRuntimeController)
    : option gatewayRuntimeController * config_reply * bool :=
  match s with
  | None => (None, CfgUnavailable, false)
  | Some g =>
      let bad_threshold :=
        match pt_SemanticCache patch with
        | Some p => match cp_Threshold p with Some t => flt t fzero || fgt t fone | None => false end
        | None => false
        end in
      let bad_ttl :=
        match pt_SemanticCache patch with
        | Some p => match cp_TTL p with Some t => match ParseDuration (TrimSpace t) with None => true | Some _ => false end | None => false end
        | None => false
        end in
      if bad_threshold || bad_ttl then (s, CfgInvalid, false)
      else match gateway_Apply patch g with
           | (g', Err _) => (Some g', CfgInvalid, false)
           | (g', Ok snap) => (Some g', CfgOK snap, true)
           end
  end.
End GatewayRuntime.

(** ** The evaluation and routing settings *)

Record EvalConfigPatchWeights := mkPatchWeights { pw_Quality : option float64; pw_Cost : option float64; pw_Latency : option float64 }.

(** The nested [routing] object with its optional [weights] is the last field. *)
Record EvalConfigPatch := mkEvalPatch {
  ep_SampleRate : option float64; ep_JudgeBaseURL : option string; ep_JudgeModel : option string; ep_JudgeAPIKey : option string;
  ep_EvalServiceURL : option string; ep_EvalServiceMetrics : option string; ep_RouteWQuality : option float64;
  ep_RouteWCost : option float64; ep_RouteWLatency : option float64; ep_RouteWindow : option string; ep_RouteGroups : option string;
  ep_Weights : option EvalConfigPatchWeights
}.

Definition nested_first (nested flat : option float64) : option float64 := match nested with Some v => Some v | None => flat end.
Definition RouteQualityWeight (p : EvalConfigPatch) : option float64 := nested_first (ep_Weights p ≫= pw_Quality) (ep_RouteWQuality p).
Definition RouteCostWeight (p : EvalConfigPatch) : option float64 := nested_first (ep_Weights p ≫= pw_Cost) (ep_RouteWCost p).
Definition RouteLatencyWeight (p : EvalConfigPatch) : option float64 := nested_first (ep_Weights p ≫= pw_Latency) (ep_RouteWLatency p).

Definition present {A} (o : option A) : bool := match o with Some _ => true | None => false end.

Definition patchTouchesEvalCompute (p : EvalConfigPatch) : bool :=
  present (ep_JudgeBaseURL p) || present (ep_JudgeModel p) || present (ep_JudgeAPIKey p) || present (ep_EvalServiceURL p) ||
  present (ep_EvalServiceMetrics p).

Section EvalRuntime.
Context {E : Type}.

Record evalRuntimeController := mkERC {
  erc_worker : option Worker;
  erc_router : option (Router E);
  erc_groups : option route_groups
}.

Inductive eval_runtime_err := ErrNoWorker | ErrPluginOnly | ErrRouteWindow (s : string).

(** The judge part: what the worker runs with now, overridden by the patch. *)
Definition patch_judges (p : EvalConfigPatch) (w : Worker) : Worker :=
  let judgeChanged := present (ep_JudgeBaseURL p) || present (ep_JudgeModel p) ||
    match ep_JudgeAPIKey p with Some k => negb (String.eqb (TrimSpace k) "") | None => false end in
  let remoteChanged := present (ep_EvalServiceURL p) || present (ep_EvalServiceMetrics p) in
  let judge := mkJudgeCfg (default (ew_judgeBaseURL w) (TrimSpace <$> ep_JudgeBaseURL p))
    (default (ew_judgeModel w) (TrimSpace <$> ep_JudgeModel p))
    (match ep_JudgeAPIKey p with Some k => if String.eqb (TrimSpace k) "" then "" else k | None => "" end) in
  let metrics :=
    match ep_EvalServiceMetrics p with
    | Some s => match trimmed_fields s "," with [] => None | l => Some l end
    | None => match ew_remoteMetrics w with [] => None | l => Some l end
    end in
  let remote := mkRemoteCfg (default (ew_remoteURL w) (TrimSpace <$> ep_EvalServiceURL p)) metrics (ew_remoteTimeout w) in
  if judgeChanged || remoteChanged then ConfigureJudges judge remote w else w.

(** The routing part; the error of the refresh is ignored. *)
Definition patch_router (p : EvalConfigPatch) (r : Router E) : Router E * option eval_runtime_err :=
  let w := weights r in
  let q := RouteQualityWeight p in
  let c := RouteCostWeight p in
  let l := RouteLatencyWeight p in
  let w' := mkWeights (default (WQuality w) q) (default (WCost w) c) (default (WLatency w) l) in
  let r1 := if present q || present c || present l then SetWeights r w' else r in
  match ep_RouteWindow p with
  | None => (r1, None)
  | Some s =>
      match ParseDuration (TrimSpace s) with
      | None => (r1, Some (ErrRouteWindow s))
      | Some d => (snd (Refresh (SetWindow r1 d)), None)
      end
  end.

Definition eval_Apply (p : EvalConfigPatch) (c : evalRuntimeController) : evalRuntimeController * option eval_runtime_err :=
  match erc_worker c with
  | None => (c, Some ErrNoWorker)
  | Some w =>
      if ew_pluginOnly w && patchTouchesEvalCompute p then (c, Some ErrPluginOnly)
      else
        let w1 := match ep_SampleRate p with Some s => SetJudgeSampleRate s w | None => w end in
        let w2 := patch_judges p w1 in
        let '(r', err) := match erc_router c with Some r => let '(r', e) := patch_router p r in (Some r', e) | None => (None, None) end in
        match err with
        | Some e => (mkERC (Some w2) r' (erc_groups c), Some e)
        | None =>
            let groups := match ep_RouteGroups p, erc_groups c with Some s, Some _ => Some (ParseRouteGroups s) | _, g => g end in
            (mkERC (Some w2) r' groups, None)
        end
  end.

(** [patchEvalConfig] after the administrator check and the decoding: accepted or
    not, and whether the audit line is written. *)
Definition patchEvalConfig (p : EvalConfigPatch) (c : option evalRuntimeController) : option evalRuntimeController * bool * bool :=
  match c with
  | None => (None, false, false)
  | Some c =>
      let bad_rate := match ep_SampleRate p with Some s => flt s fzero || fgt s fone | None => false end in
      let bad_window := match ep_RouteWindow p with Some s => match ParseDuration (TrimSpace s) with None => true | Some _ => false end | None => false end in
      if bad_rate || bad_window then (Some c, false, false)
      else match eval_Apply p c with
           | (c', Some _) => (Some c', false, false)
           | (c', None) => (Some c', true, true)
           end
  end.
End EvalRuntime.
