(* ===== verification/RuntimeProps.v ===== *)
(** * RuntimeProps: what changing the settings at run time does

    The guard always follows the settings; a rejected patch of the gateway may have
    switched it off unaudited, one of the evaluation settings changes nothing; alert
    cool-downs never reach a sink and alert workers are never stopped; a notifier
    posts what it accepted, in order; durations and deny patterns round trip. *)

From stdpp Require Import gmap pretty.
From S2P Require Import Prelude GoString Float64 GoTime ApiErr Json JsonFacts Net IpPolicy.
From S2P Require Import Guardrails SemCache Gateway Evals EvalWorker Router Config ConfigProps Notify Runtime.
Local Open Scope string_scope.
Local Open Scope Z_scope.

(** ** Durations *)

Lemma leadingInt_pretty_go x s : Z.of_N x ≤ 2 ^ 63 → leadingInt 0 (pretty_N_go x s) = leadingInt (Z.of_N x) s.
Proof.
  revert s. induction (N.lt_wf_0 x) as [x _ IH]; intros s Hb.
  destruct (decide (0 < x)%N) as [Hx|Hx].
  - rewrite pretty_N_go_step by done.
    pose proof (N.div_mod x 10 ltac:(done)) as Hd. pose proof (N.mod_lt x 10 ltac:(done)) as Hm.
    assert (x / 10 < x)%N as Hlt by (by apply N.div_lt). specialize (IH _ Hlt). revert Hd Hm IH. generalize (x / 10)%N (x mod 10)%N. intros q r Hd Hm IH. rewrite IH by lia.
    cbn [leadingInt].
    assert (∀ d, (d < 10)%N → digit_val (pretty_N_char d) = Some (Z.of_N d)) as Hv.
    { intros d H. destruct d as [|p]; [reflexivity|]. do 4 (destruct p as [p|p|]; try reflexivity; try lia). }
    rewrite Hv by done. change (2 ^ 63 / 10) with 922337203685477580. change (2 ^ 63) with 9223372036854775808 in *.
    destruct (Z.ltb_spec 922337203685477580 (Z.of_N q)); [lia|].
    replace (Z.of_N q * 10 + Z.of_N r) with (Z.of_N x) by lia.
    destruct (Z.ltb_spec 9223372036854775808 (Z.of_N x)); [lia|done].
  - assert (x = 0%N) as -> by lia. by rewrite pretty_N_go_0.
Qed.

Lemma pretty_N_go_tail x s t : pretty_N_go x s +:+ t = pretty_N_go x (s +:+ t).
Proof.
  revert s. induction (N.lt_wf_0 x) as [x _ IH]; intros s. destruct (decide (0 < x)%N) as [Hx|Hx].
  - rewrite !(pretty_N_go_step x) by done. by rewrite IH by (by apply N.div_lt).
  - assert (x = 0%N) as -> by lia. by rewrite !pretty_N_go_0.
Qed.

(** A unit [formatDuration] prints. *)
Definition format_unit (u : ascii) (unit : Z) : Prop := (u, unit) ∈ [("h"%char, Hour); ("m"%char, Minute); ("s"%char, Second)].

Lemma ParseDuration_unit n u unit :
  format_unit u unit → 0 < n → n * unit < 2 ^ 63 → ParseDuration (pretty n +:+ String u "") = Some (n * unit).
Proof.
  intros Hu Hn Hb. destruct n as [|p|]; [lia| |lia]. change (pretty (Z.pos p)) with (pretty (N.pos p)).
  assert (0 < unit ∧ unitMap (String u "") = Some unit ∧ digit_val u = None ∧ unit_prefix (String u "") = (String u "", "") ∧
          Ascii.eqb u "." = false) as (Hp & Hun & Hd & Hpr & Hdot).
  { unfold format_unit in Hu. repeat (apply elem_of_cons in Hu as [[= -> ->]|Hu]; [done|]). by apply elem_of_nil in Hu. }
  assert (leadingInt 0 (pretty (N.pos p) +:+ String u "") = Some (Z.pos p, String u "")) as Hl.
  { unfold pretty, pretty_N. case_decide; [done|].
    assert (pretty_N_go (N.pos p) "" +:+ String u "" = pretty_N_go (N.pos p) (String u "")) as -> by apply pretty_N_go_tail.
    rewrite leadingInt_pretty_go by (cbn; nia). cbn [leadingInt]. by rewrite Hd. }
  destruct (pretty_head_digit (N.pos p)) as (c & q & E & Hc). rewrite E in *. rewrite append_cons in *.
  unfold ParseDuration.
  assert (Ascii.eqb c "-" = false ∧ Ascii.eqb c "+" = false ∧ digit_val c ≠ None) as (Hm & Hpl & Hdv).
  { clear -Hc. destruct c as [[] [] [] [] [] [] [] []]; try discriminate Hc; done. }
  rewrite Hm, Hpl.
  assert (String.eqb (String c (q +:+ String u "")) "0" = false) as ->.
  { apply String.eqb_neq. intros H. injection H as _ H. by destruct q. }
  assert (String.eqb (String c (q +:+ String u "")) "" = false) as -> by done.
  cbn [String.length duration_terms]. rewrite length_app_string.
  destruct (digit_val c) as [dv|]; [|done]. rewrite orb_true_r. cbn [negb]. rewrite Hl.
  assert ((String.length (String u "") =? S (String.length q + String.length (String u "")))%nat = false) as ->.
  { apply Nat.eqb_neq. lia. }
  cbn [negb orb]. rewrite Hdot, Hpr. cbn [String.eqb]. rewrite Hun.
  change (2 ^ 63) with 9223372036854775808 in *.
  assert ((9223372036854775808 / unit <? Z.pos p) = false) as ->.
  { apply Z.ltb_ge. apply Z.div_le_lower_bound; lia. }
  change (0 <? 0) with false. cbn iota.
  destruct (Z.ltb_spec 9223372036854775808 (Z.pos p * unit)); [lia|].
  destruct (Z.ltb_spec 9223372036854775808 (0 + Z.pos p * unit)); [lia|].
  assert (∀ k d, duration_terms k d "" = Some d) as -> by (by intros []).
  destruct (Z.ltb_spec (9223372036854775808 - 1) (0 + Z.pos p * unit)); [lia|done].
Qed.

(** The duration the console shows reads back as itself: positive whole seconds
    survive being sent back unchanged. *)
Theorem shown_duration_roundtrip dstring d :
  0 < d < 2 ^ 63 → d mod Second = 0 → ParseDuration (formatDuration dstring d) = Some d.
Proof.
  intros [Hd Hb] Hs. unfold formatDuration. destruct (Z.leb_spec d 0); [lia|].
  assert (∀ u unit, format_unit u unit → d mod unit = 0 → ParseDuration (pretty (d / unit) +:+ String u "") = Some d) as H'.
  { intros u unit Hu Hm.
    assert (0 < unit) as Hp.
    { unfold format_unit in Hu. repeat (apply elem_of_cons in Hu as [[= -> ->]|Hu]; [done|]). by apply elem_of_nil in Hu. }
    pose proof (Z.div_mod d unit ltac:(lia)). rewrite (ParseDuration_unit _ u unit Hu); [f_equal; lia|nia|lia]. }
  destruct (Z.eqb_spec (d mod Minute) 0) as [Hm|_]; [destruct (Z.eqb_spec (d mod Hour) 0) as [Hh|_]|].
  - apply H'; [by left|done].
  - apply H'; [right; by left|done].
  - rewrite Hs. apply H'; [right; right; by left|done].
Qed.

(** ** Deny patterns *)

Lemma split_pieces sep s : Forall (fun p => ¬ byte_in sep p) (Split s sep).
Proof.
  induction s as [|c s IH]; [repeat constructor; by intros []|]. cbn [Split]. case_decide as E.
  - constructor; [by intros []|done].
  - destruct (Split s sep) as [|x xs]; [repeat constructor; cbn; naive_solver|].
    apply Forall_cons in IH as [Hx Hxs]. constructor; [cbn; naive_solver|done].
Qed.

Lemma byte_in_drop c n s : byte_in c (drop_bytes n s) → byte_in c s.
Proof. revert n. induction s as [|x s IH]; intros [|n] H; try done. right. by apply (IH n). Qed.

Lemma byte_in_trim c k encs s : byte_in c (trim_left k encs s) → byte_in c s.
Proof.
  revert s. induction k as [|k IH]; intros s; [done|]. cbn [trim_left]. destruct (leading_space encs s); [|done].
  intros H. apply IH in H. by apply byte_in_drop in H.
Qed.

Lemma byte_in_rev c s : byte_in c (String.rev s) ↔ byte_in c s.
Proof.
  induction s as [|x s IH]; [done|]. rewrite rev_cons, byte_in_app, IH. cbn. tauto.
Qed.

Lemma byte_in_TrimSpace c s : byte_in c (TrimSpace s) → byte_in c s.
Proof.
  unfold TrimSpace, TrimRightSpace, TrimLeftSpace. rewrite byte_in_rev. intros H.
  apply byte_in_trim in H. rewrite byte_in_rev in H. by apply byte_in_trim in H.
Qed.

Lemma deny_fields_clean s : Forall (fun p => ¬ byte_in ";" p) (splitDenyPatterns s).
Proof.
  unfold splitDenyPatterns. apply Forall_forall. intros p Hp. apply list_elem_of_In, filter_In in Hp as [Hp _].
  apply in_map_iff in Hp as (q & <- & Hq). intros H. apply byte_in_TrimSpace in H. revert H.
  pose proof (split_pieces ";" s) as Hs. rewrite Forall_forall in Hs. apply Hs. by apply list_elem_of_In.
Qed.

(** The deny patterns an administrator sends are the ones in force exactly when none
    is empty, padded or contains a semicolon; any other pattern, one with a bounded
    repetition of alternatives or a literal semicolon say, is cut into different ones. *)
Theorem deny_patterns_survive_iff l :
  splitDenyPatterns (Join l ";") = l ↔ Forall (fun p => p ≠ "" ∧ TrimSpace p = p ∧ ¬ byte_in ";" p) l.
Proof.
  split.
  - intros H. apply Forall_forall. intros p Hp. pose proof (deny_fields_clean (Join l ";")) as Hc. rewrite H in Hc.
    rewrite Forall_forall in Hc. specialize (Hc p Hp). rewrite <- H in Hp. unfold splitDenyPatterns in Hp.
    apply list_elem_of_In, filter_In in Hp as [Hp Hne]. apply negb_true_iff, String.eqb_neq in Hne. split_and!; [done| |done].
    apply in_map_iff in Hp as (q & <- & _). apply TrimSpace_idem.
  - intros H. unfold splitDenyPatterns. destruct l as [|x l]; [reflexivity|].
    change ";" with (String ";" ""). rewrite split_Join_sep; [|done|by eapply Forall_impl; [exact H|]; intros ? (_ & _ & ?)].
    induction H as [|p r (Hne & Ht & _) _ IH]; [done|]. cbn. rewrite Ht. apply String.eqb_neq in Hne. rewrite Hne. cbn. by f_equal.
Qed.

(** ** The gateway's settings *)

Section Gateway.
Context (compile : string → option compiled).

(** What the handler runs is what the settings say. *)
Definition guard_follows (g : gatewayRuntimeController) : Prop :=
  grc_handler g = true →
  lv_guard (grc_live g) = (if Active (guard_of compile (grc_cfg g)) then guard_of compile (grc_cfg g) else None) ∧
  lv_selfCorrectMax (grc_live g) =
    Z.max 0 (if gc_SelfCorrectionEnabled (grc_cfg g) then gc_SelfCorrectionMaxRetries (grc_cfg g) else 0).

(** Two controllers that agree on the guard, its settings and everything else but the
    cache and the alerts. *)
Definition same_guard (g g' : gatewayRuntimeController) : Prop :=
  grc_handler g' = grc_handler g ∧ lv_guard (grc_live g') = lv_guard (grc_live g) ∧
  lv_selfCorrectMax (grc_live g') = lv_selfCorrectMax (grc_live g) ∧
  guard_of compile (grc_cfg g') = guard_of compile (grc_cfg g) ∧
  gc_SelfCorrectionEnabled (grc_cfg g') = gc_SelfCorrectionEnabled (grc_cfg g) ∧
  gc_SelfCorrectionMaxRetries (grc_cfg g') = gc_SelfCorrectionMaxRetries (grc_cfg g).

#[local] Instance same_guard_preorder : PreOrder same_guard.
Proof. unfold same_guard. split; [by intros g|]. intros a b c. intuition congruence. Qed.

Lemma same_guard_follows g g' : same_guard g g' → guard_follows g → guard_follows g'.
Proof. intros (Hh & Hg & Hs & Hc & He & Hr) H. unfold guard_follows in *. rewrite Hh, Hg, Hs, Hc, He, Hr. exact H. Qed.

Lemma patch_cache_guard p g : same_guard g (fst (patch_cache p g)).
Proof. unfold patch_cache, same_guard. repeat case_match; done. Qed.

Lemma applyFailover_guard g : same_guard g (applyFailoverLocked g).
Proof. unfold applyFailoverLocked, same_guard. destruct g as [c [] bo l d]; done. Qed.

Lemma patch_alerting_guard p g : same_guard g (fst (patch_alerting p g)).
Proof.
  unfold patch_alerting. destruct (match ap_Cooldown p with None => Some (gc_FailoverAlertCooldown (grc_cfg g)) | Some s => ParseDuration (TrimSpace s) end) as [d|]; cbn [fst].
  - etrans; [|apply applyFailover_guard]. done.
  - done.
Qed.

Lemma opt_part_guard {P} (f : P → _ → _ * res runtime_err (list string)) p g :
  (∀ p g, same_guard g (fst (f p g))) → same_guard g (fst (opt_part f p g)).
Proof. intros H. destruct p; [apply H|done]. Qed.

Lemma applyGuardrails_follows g : guard_follows (applyGuardrailsLocked compile g).
Proof. unfold guard_follows, applyGuardrailsLocked. destruct g as [c [] bo l d]; done. Qed.

(** The guardrail part of a patch, done before anything can fail. *)
Definition after_guardrails (patch : GatewayConfigPatch) (g : gatewayRuntimeController) : gatewayRuntimeController :=
  match pt_Guardrails patch with
  | None => g
  | Some p => applyGuardrailsLocked compile (with_cfg (patch_guardrails p (grc_cfg g)) g)
  end.

Lemma gateway_Apply_guard patch g : same_guard (after_guardrails patch g) (fst (gateway_Apply compile patch g)).
Proof.
  unfold gateway_Apply, after_guardrails.
  assert (∀ g1 diff1, same_guard g1 (fst
    match opt_part patch_cache (pt_SemanticCache patch) g1 with
    | (g2, Err e) => (g2, Err e)
    | (g2, Ok diff2) =>
        match opt_part patch_alerting (pt_Alerting patch) g2 with
        | (g3, Err e) => (g3, Err e)
        | (g3, Ok diff3) => let g4 := with_diff (diff1 ++ diff2 ++ diff3)%list g3 in (g4, Ok (grc_cfg g4))
        end
    end)) as H.
  { intros g1 diff1. pose proof (opt_part_guard patch_cache (pt_SemanticCache patch) g1 patch_cache_guard) as H1.
    destruct (opt_part patch_cache (pt_SemanticCache patch) g1) as [g2 [d2|e]]; [|done]. cbn [fst] in H1.
    pose proof (opt_part_guard patch_alerting (pt_Alerting patch) g2 patch_alerting_guard) as H2.
    destruct (opt_part patch_alerting (pt_Alerting patch) g2) as [g3 [d3|e]]; cbn [fst] in *; (etrans; [exact H1|done]). }
  destruct (pt_Guardrails patch) as [p|]; apply H.
Qed.

(** The requests of a console, with any patch. *)
Definition patches (ps : list GatewayConfigPatch) (g : gatewayRuntimeController) : gatewayRuntimeController :=
  foldl (fun g p => fst (gateway_Apply compile p g)) g ps.

(** [C28] The guard and the correction limit of the handler are always those the settings
    describe, after any sequence of patches, accepted or refused. *)
Theorem guard_follows_settings ps g : guard_follows g → guard_follows (patches ps g).
Proof.
  revert g. induction ps as [|p ps IH]; intros g Hg; [done|]. apply IH.
  eapply same_guard_follows; [apply gateway_Apply_guard|]. unfold after_guardrails. destruct (pt_Guardrails p); [|done].
  apply applyGuardrails_follows.
Qed.

(** [C40] A patch that switches the guardrails off and names a cool-down that is no
    duration is answered as refused and leaves no audit line, yet the guard is off. *)
Theorem refused_patch_disarms_guard patch p a s g :
  grc_handler g = true → pt_Guardrails patch = Some p → gp_Enabled p = Some false →
  pt_SemanticCache patch = None → pt_Alerting patch = Some a → ap_Cooldown a = Some s → ParseDuration (TrimSpace s) = None →
  ∃ g', patchGatewayConfig compile patch (Some g) = (Some g', CfgInvalid, false) ∧ lv_guard (grc_live g') = None.
Proof.
  intros Hh Hp He Hc Ha Hs Hd. exists (fst (gateway_Apply compile patch g)). split.
  - unfold patchGatewayConfig, gateway_Apply. rewrite Hc, Hp, Ha. cbn [orb opt_part]. unfold patch_alerting. rewrite Hs, Hd. done.
  - destruct (gateway_Apply_guard patch g) as (_ & -> & _). unfold after_guardrails. rewrite Hp. unfold applyGuardrailsLocked.
    cbn [grc_handler with_cfg]. rewrite Hh. cbn [negb lv_guard grc_live with_live]. unfold guard_of, Guardrails.New.
    cbn [grc_cfg with_cfg patch_guardrails gc_GuardrailsEnabled]. by rewrite He.
Qed.

(** ** Alert sinks *)

Definition sink_cools (n : Notifier) : Prop := match n with Buffered b => bn_cooldown b ≠ 0 | NoopNotifier => False end.
Definition no_cooling (g : gatewayRuntimeController) : Prop :=
  match lv_sinks (grc_live g) with Some l => Forall (fun n => ¬ sink_cools n) l | None => True end.

Lemma patch_cache_sinks p g : lv_sinks (grc_live (fst (patch_cache p g))) = lv_sinks (grc_live g).
Proof. unfold patch_cache. repeat case_match; done. Qed.

Lemma multi_no_cooling l sinks :
  NewMultiNotifier sinks = Some l → Forall (fun o => match o with Some n => ¬ sink_cools n | None => True end) sinks →
  Forall (fun n => ¬ sink_cools n) l.
Proof.
  unfold NewMultiNotifier. intros E H. destruct (omap _ sinks) as [|x r] eqn:Eo; [done|]. injection E as <-. rewrite <- Eo. clear Eo.
  induction H as [|o os Ho _ IH]; [constructor|]. cbn. destruct o as [[|b]|]; [done| |done]. constructor; [exact Ho|done].
Qed.

Lemma built_sinks_never_cool e n : (n = NewWebhookNotifier e ∨ n = NewSlackNotifier e) →
  match Buffered <$> n with Some n => ¬ sink_cools n | None => True end.
Proof.
  intros [-> | ->]; unfold NewWebhookNotifier, NewSlackNotifier, newBufferedNotifier; cbn [no_endpoint];
    destruct (String.eqb e ""); cbn; tauto.
Qed.

Lemma applyFailover_no_cooling g : no_cooling g → no_cooling (applyFailoverLocked g).
Proof.
  intros H. unfold applyFailoverLocked. destruct (grc_handler g); [|done]. cbn [negb]. unfold no_cooling. cbn [grc_live with_live lv_sinks].
  destruct (NewMultiNotifier _) as [l|] eqn:E; [|done]. eapply multi_no_cooling; [exact E|]. apply Forall_app. split.
  - destruct (String.eqb (gc_FailoverWebhookURL (grc_cfg g)) ""); constructor; [|constructor]. eapply built_sinks_never_cool. by left.
  - destruct (String.eqb (gc_FailoverSlackURL (grc_cfg g)) ""); constructor; [|constructor]. eapply built_sinks_never_cool. by right.
Qed.

Lemma Apply_no_cooling patch g : no_cooling g → no_cooling (fst (gateway_Apply compile patch g)).
Proof.
  intros H. unfold gateway_Apply.
  destruct (match pt_Guardrails patch with
    | None => (g, [])
    | Some p => (applyGuardrailsLocked compile (with_cfg (patch_guardrails p (grc_cfg g)) g), guardrails_diff p)
    end) as [g1 diff1] eqn:E1.
  assert (no_cooling g1) as H1.
  { destruct (pt_Guardrails patch); injection E1 as <- _; [|done]. unfold applyGuardrailsLocked. by destruct (grc_handler (with_cfg _ g)). }
  assert (no_cooling (fst (opt_part patch_cache (pt_SemanticCache patch) g1))) as H2.
  { destruct (pt_SemanticCache patch); [|done]. unfold no_cooling, opt_part. by rewrite patch_cache_sinks. }
  destruct (opt_part patch_cache (pt_SemanticCache patch) g1) as [g2 [d2|e]]; [|done]. cbn [fst] in H2.
  assert (no_cooling (fst (opt_part patch_alerting (pt_Alerting patch) g2))) as H3.
  { destruct (pt_Alerting patch) as [a|]; [|done]. unfold opt_part, patch_alerting.
    destruct (match ap_Cooldown a with None => Some (gc_FailoverAlertCooldown (grc_cfg g2)) | Some s => ParseDuration (TrimSpace s) end); [|done].
    cbn [fst].  by apply applyFailover_no_cooling. }
  by destruct (opt_part patch_alerting (pt_Alerting patch) g2) as [g3 [d3|e]].
Qed.

(** The cool-down between alerts is stored and shown and reaches no sink: after any
    patches every sink sends each event it handles at once. *)
Theorem alert_cooldown_ignored ps g : no_cooling g → no_cooling (patches ps g).
Proof. revert g. induction ps as [|p ps IH]; intros g Hg; [done|]. apply IH. by apply Apply_no_cooling. Qed.

Definition nothing : GatewayConfigPatch := mkGatewayPatch None None (Some (mkAlertingPatch None None None)).

(** Saving the alert settings without a change starts new alert workers beside the
    running ones, none of which is ever closed: their number grows without bound. *)
Theorem alert_workers_accumulate n g :
  grc_handler g = true → gc_FailoverWebhookURL (grc_cfg g) ≠ "" →
  (lv_workersStarted (grc_live g) + n ≤ lv_workersStarted (grc_live (patches (replicate n nothing) g)))%nat.
Proof.
  revert g. induction n as [|n IH]; intros g Hh Hw; [cbn; lia|]. cbn [replicate patches foldl].
  set (g' := fst (gateway_Apply compile nothing g)). fold (patches (replicate n nothing) g').
  assert (grc_handler g' = true ∧ gc_FailoverWebhookURL (grc_cfg g') = gc_FailoverWebhookURL (grc_cfg g) ∧
          (S (lv_workersStarted (grc_live g)) ≤ lv_workersStarted (grc_live g'))%nat) as (H1 & H2 & H3).
  { unfold g', gateway_Apply, nothing. cbn [pt_Guardrails pt_SemanticCache pt_Alerting opt_part]. unfold patch_alerting.
    cbn [ap_Cooldown ap_FailoverWebhook ap_FailoverSlack]. unfold applyFailoverLocked. cbn [grc_handler with_cfg].
    rewrite Hh. cbn. split_and!; [done|done|]. apply String.eqb_neq in Hw. rewrite Hw, length_app. cbn. lia. }
  specialize (IH g' H1). rewrite H2 in IH. specialize (IH Hw). lia.
Qed.
End Gateway.

(** ** The evaluation settings *)

Section Eval.
Context {E : Type}.

Lemma patch_router_ok p (r : Router E) s :
  ep_RouteWindow p = Some s → ParseDuration (TrimSpace s) ≠ None → snd (patch_router p r) = None.
Proof. intros Hs Hd. unfold patch_router. rewrite Hs. by destruct (ParseDuration (TrimSpace s)). Qed.

(** A change of the evaluation and routing settings is all or nothing: refused, it
    leaves worker, router and groups as they were and no audit line; accepted, it is
    audited. *)
Theorem eval_patch_atomic p (c : evalRuntimeController) c' ok audited :
  patchEvalConfig (E := E) p (Some c) = (c', ok, audited) → audited = ok ∧ (ok = false → c' = Some c).
Proof.
  unfold patchEvalConfig. set (bad_rate := match ep_SampleRate p with Some s => _ | None => false end).
  set (bad_window := match ep_RouteWindow p with Some s => _ | None => false end).
  destruct (bad_rate || bad_window) eqn:Hb; [by intros [= <- <- <-]|]. apply orb_false_iff in Hb as [_ Hw].
  unfold eval_Apply. destruct (erc_worker c) as [w|]; [|by intros [= <- <- <-]].
  destruct (ew_pluginOnly w && patchTouchesEvalCompute p); [by intros [= <- <- <-]|].
  assert (∀ r : Router E, snd (patch_router p r) = None) as Hr.
  { intros r. unfold bad_window in Hw. destruct (ep_RouteWindow p) as [s|] eqn:Es; [|by unfold patch_router; rewrite Es].
    eapply patch_router_ok; [exact Es|]. by destruct (ParseDuration (TrimSpace s)). }
  destruct (erc_router c) as [r|].
  - specialize (Hr r). destruct (patch_router p r) as [r' e]. cbn in Hr. subst e. by intros [= <- <- <-].
  - by intros [= <- <- <-].
Qed.

(** On a pod that scores by plug-ins only no patch wires a judge or the evaluation
    service: whatever it asks, both stay as they were, with the key. *)
Theorem plugin_only_keeps_judges p (c : evalRuntimeController) w :
  erc_worker c = Some w → ew_pluginOnly w = true →
  ∃ w', erc_worker (fst (eval_Apply (E := E) p c)) = Some w' ∧
    ew_judges w' = ew_judges w ∧ ew_judgeAPIKey w' = ew_judgeAPIKey w ∧ ew_judgeBaseURL w' = ew_judgeBaseURL w ∧
    ew_remoteURL w' = ew_remoteURL w ∧ ew_pluginOnly w' = true.
Proof.
  intros Hw Hp. unfold eval_Apply. rewrite Hw, Hp. cbn [andb].
  destruct (patchTouchesEvalCompute p) eqn:Ht; [by exists w|].
  set (w1 := match ep_SampleRate p with Some s => SetJudgeSampleRate s w | None => w end).
  assert (patch_judges p w1 = w1) as Ej.
  { unfold patch_judges. revert Ht. unfold patchTouchesEvalCompute. rewrite !orb_false_iff. intros ((((H1 & H2) & H3) & H4) & H5).
    rewrite H1, H2, H4, H5. destruct (ep_JudgeAPIKey p); [done|]. done. }
  exists w1. split; [rewrite Ej; destruct (erc_router c) as [r|]; [destruct (patch_router p r) as [r' [e|]]|]; done|]. unfold w1. destruct (ep_SampleRate p); done.
Qed.

(** The list of remote metrics can be replaced but not cleared: a patch with an
    empty or blank list leaves the worker with the metrics it had. *)
Theorem metrics_not_clearable p (c : evalRuntimeController) w s :
  erc_worker c = Some w → ep_EvalServiceMetrics p = Some s → trimmed_fields s "," = [] →
  ∃ w', erc_worker (fst (eval_Apply (E := E) p c)) = Some w' ∧ ew_remoteMetrics w' = ew_remoteMetrics w.
Proof.
  intros Hw Hs Ht. unfold eval_Apply. rewrite Hw. destruct (ew_pluginOnly w && patchTouchesEvalCompute p); [by exists w|].
  set (w1 := match ep_SampleRate p with Some s => SetJudgeSampleRate s w | None => w end).
  exists (patch_judges p w1). split.
  - destruct (erc_router c) as [r|]; [destruct (patch_router p r) as [r' [e|]]|]; done.
  - unfold patch_judges. rewrite Hs, Ht.
    assert (ew_remoteMetrics w1 = ew_remoteMetrics w) as <- by (unfold w1; by destruct (ep_SampleRate p)).
    case_match; [|done]. unfold ConfigureJudges. by destruct (ew_pluginOnly w1).
Qed.
End Eval.

(** ** Notifiers *)

(** The events a run accepts. *)
Fixpoint accepted_events (b : bufferedNotifier) (es : list event) : list FailoverEvent :=
  match es with
  | [] => []
  | e :: es' =>
      (match e with NNotify ev => if decide (length (bn_ch b) < bn_buffer b)%nat then [ev] else [] | _ => [] end ++
       match nstep b e with Some (_, b') => accepted_events b' es' | None => [] end)%list
  end.

Lemma nstep_fifo b e out b' :
  bn_cooldown b = 0 → nstep b e = Some (out, b') →
  bn_cooldown b' = 0 ∧
  (bn_ch b ++ match e with NNotify ev => if decide (length (bn_ch b) < bn_buffer b)%nat then [ev] else [] | _ => [] end =
   out ++ bn_ch b')%list.
Proof.
  intros Hc. destruct e as [ev| |p| |]; cbn [nstep].
  - intros [= <- <-]. unfold Notify. destruct (decide _); cbn; [done|]. by rewrite app_nil_r.
  - unfold Notify_Close. destruct (bn_closing b); [done|]. intros [= <- <-]. cbn. by rewrite app_nil_r.
  - destruct (bn_phase b), (bn_ch b) as [|ev rest] eqn:Ech; try done; intros H; injection H as H; unfold sendOnce, cooling in H;
      cbn [set_ch bn_cooldown] in H; rewrite Hc in H; cbn [Z.ltb Z.compare andb] in H; injection H as <- <-;
      rewrite app_nil_r; by destruct (po_ok p).
  - destruct (bn_phase b); try done. destruct (bn_closing b); [|done]. intros [= <- <-]. cbn. by rewrite app_nil_r.
  - destruct (bn_phase b), (bn_ch b) eqn:Ech; try done. intros [= <- <-]. cbn. by rewrite Ech.
Qed.

(** Without a cool-down, as every sink is wired, a notifier posts the events it
    accepted in their order, each once, whatever the endpoint answers: what is posted
    and what still waits is what was there and what was accepted. *)
Theorem notifier_posts_in_order b es out b' :
  bn_cooldown b = 0 → nrun b es = Some (out, b') → (bn_ch b ++ accepted_events b es = out ++ bn_ch b')%list.
Proof.
  revert b out. induction es as [|e es IH]; intros b out Hc; cbn [nrun accepted_events].
  - intros [= <- <-]. by rewrite app_nil_r.
  - destruct (nstep b e) as [[o1 b1]|] eqn:Es; [|done]. destruct (nrun b1 es) as [[o2 b2]|] eqn:Er; [|done].
    intros [= <- <-]. destruct (nstep_fifo b e o1 b1 Hc Es) as [Hc1 H1]. specialize (IH b1 o2 Hc1 Er).
    rewrite app_assoc, H1, <- !app_assoc. by f_equal.
Qed.

(** A closed notifier ends: receiving its waiting events and seeing the queue empty
    stops the worker, and each waiting event has been posted. *)
Theorem notifier_close_drains b (posts : list post_answer) :
  bn_cooldown b = 0 → bn_closing b = true → bn_phase b = Looping → length posts = length (bn_ch b) →
  ∃ b', nrun b (NSeeDone :: map NReceive posts ++ [NEmpty])%list = Some (bn_ch b, b') ∧ bn_phase b' = Stopped ∧ bn_ch b' = [].
Proof.
  intros Hc Hcl Hp Hl. cbn [nrun nstep]. rewrite Hp, Hcl.
  assert (∀ posts b, bn_cooldown b = 0 → bn_phase b = Draining → length posts = length (bn_ch b) →
    ∃ b', nrun b (map NReceive posts ++ [NEmpty])%list = Some (bn_ch b, b') ∧ bn_phase b' = Stopped ∧ bn_ch b' = []) as H.
  { clear. induction posts as [|p posts IH]; intros b Hc Hp Hl.
    - destruct (bn_ch b) eqn:Ech; [|done]. cbn [map app nrun nstep]. rewrite Hp, Ech. by eexists.
    - destruct (bn_ch b) as [|ev rest] eqn:Ech; [done|]. cbn [map app nrun nstep]. rewrite Hp, Ech.
      unfold sendOnce, cooling. cbn [set_ch bn_cooldown]. rewrite Hc. cbn [Z.ltb Z.compare andb].
      set (b1 := if po_ok p then _ else _).
      destruct (IH b1) as (b' & Hr & Hs & He); [by unfold b1; destruct (po_ok p)..|unfold b1; destruct (po_ok p); cbn in *; lia|].
      rewrite Hr. exists b'. assert (bn_ch b1 = rest) as -> by (unfold b1; by destruct (po_ok p)). done. }
  destruct (H posts (set_phase Draining b)) as (b' & Hr & Hs & He); [done|done|done|]. rewrite Hr. by exists b'.
Qed.

(** ** Concrete patches *)

Lemma shown_duration_roundtrip_witness : ParseDuration (formatDuration (fun _ => "") (90 * Minute)) = Some (90 * Minute) ∧ formatDuration (fun _ => "") (90 * Minute) = "90m".
Proof. split; [apply (shown_duration_roundtrip (fun _ => "") (90 * Minute)); [by split|reflexivity]|vm_compute; reflexivity]. Defined.

Definition toy_cfg : gateway_cfg :=
  mkGatewayCfg true true false 0 "" false false 0 false (24 * Hour) fzero 500 false "https://alerts.internal/hook" "" 0.

Definition no_regexp (_ : string) : option compiled := None.

Definition toy_grc : gatewayRuntimeController :=
  applyFailoverLocked (applyGuardrailsLocked no_regexp (mkGRC toy_cfg true false (mkLive None 0 false None None 0) [])).

Definition disarm : GatewayConfigPatch :=
  mkGatewayPatch (Some (mkGuardrailsPatch (Some false) None None None None None None None)) None
    (Some (mkAlertingPatch None None (Some "5 minutes"))).

Lemma refused_patch_disarms_guard_witness :
  lv_guard (grc_live toy_grc) ≠ None ∧
  ∃ g', patchGatewayConfig no_regexp disarm (Some toy_grc) = (Some g', CfgInvalid, false) ∧ lv_guard (grc_live g') = None.
Proof.
  split; [vm_compute; discriminate|].
  apply (refused_patch_disarms_guard no_regexp disarm (mkGuardrailsPatch (Some false) None None None None None None None)
           (mkAlertingPatch None None (Some "5 minutes")) "5 minutes" toy_grc); vm_compute; reflexivity.
Defined.

Lemma guard_follows_settings_witness : guard_follows no_regexp (patches no_regexp [disarm; nothing] toy_grc).
Proof. apply (guard_follows_settings no_regexp [disarm; nothing] toy_grc). intros _. vm_compute. split; reflexivity. Defined.

Definition cool_down : GatewayConfigPatch := mkGatewayPatch None None (Some (mkAlertingPatch None None (Some "10m"))).

Lemma alert_cooldown_ignored_witness :
  gc_FailoverAlertCooldown (grc_cfg (patches no_regexp [cool_down] toy_grc)) = 10 * Minute ∧
  no_cooling (patches no_regexp [cool_down] toy_grc).
Proof.
  split; [vm_compute; reflexivity|]. apply (alert_cooldown_ignored no_regexp [cool_down] toy_grc).
  vm_compute. constructor; [intros H; by apply H|constructor].
Defined.

Lemma alert_workers_accumulate_witness :
  lv_workersStarted (grc_live toy_grc) = 1%nat ∧
  (1 + 5 ≤ lv_workersStarted (grc_live (patches no_regexp (replicate 5 nothing) toy_grc)))%nat.
Proof.
  split; [reflexivity|]. apply (alert_workers_accumulate no_regexp 5 toy_grc); [reflexivity|vm_compute; discriminate].
Defined.

Definition toy_worker (pluginOnly : bool) : Worker :=
  NewWorker (EvalWorker.mkOptions [] "" "" "sk-judge" "https://eval.internal" ["toxicity"] (30 * Second) fone 2 10 (25 * Second) pluginOnly false).

Definition clear_metrics : EvalConfigPatch :=
  mkEvalPatch None None None None None (Some " , ") None None None None None None.

Lemma metrics_not_clearable_witness :
  ∃ w', erc_worker (fst (eval_Apply (E := unit) clear_metrics (mkERC (Some (toy_worker false)) None None))) = Some w' ∧
        ew_remoteMetrics w' = ["toxicity"].
Proof.
  apply (metrics_not_clearable (E := unit) clear_metrics (mkERC (Some (toy_worker false)) None None) (toy_worker false) " , ");
    vm_compute; reflexivity.
Defined.

Definition set_judge : EvalConfigPatch :=
  mkEvalPatch None (Some "https://judge.evil") None None None None None None None None None None.

Lemma plugin_only_keeps_judges_witness :
  ∃ w', erc_worker (fst (eval_Apply (E := unit) set_judge (mkERC (Some (toy_worker true)) None None))) = Some w' ∧
        ew_judges w' = [].
Proof.
  destruct (plugin_only_keeps_judges (E := unit) set_judge (mkERC (Some (toy_worker true)) None None) (toy_worker true) eq_refl eq_refl)
    as (w' & H & Hj & _). exists w'. split; [exact H|exact Hj].
Defined.

Lemma eval_patch_atomic_witness :
  ∃ c', patchEvalConfig (E := unit) set_judge (Some (mkERC (Some (toy_worker true)) None None)) = (c', false, false) ∧
        c' = Some (mkERC (Some (toy_worker true)) None None).
Proof.
  eexists. split; [reflexivity|].
  by apply (eval_patch_atomic (E := unit) set_judge (mkERC (Some (toy_worker true)) None None) _ false false eq_refl).
Defined.

Definition alert (m : string) : FailoverEvent := mkFailover "acme" "vk" "fast" [m] m "backup" "upstream_5xx" 12 0 "".
Definition toy_sink : bufferedNotifier := mkBuffered "https://alerts.internal/hook" EncJSON (5 * Second) 256 0 [] false Looping zero_time 0.
Definition answered : post_answer := mkPost 5 true 6.

Lemma notifier_posts_in_order_witness :
  ∃ b', nrun toy_sink [NNotify (alert "a"); NNotify (alert "b"); NReceive answered] = Some ([alert "a"], b') ∧
        ([alert "a"; alert "b"] = [alert "a"] ++ bn_ch b')%list.
Proof.
  eexists. split; [reflexivity|].
  exact (notifier_posts_in_order toy_sink [NNotify (alert "a"); NNotify (alert "b"); NReceive answered] _ _ eq_refl eq_refl).
Defined.

Definition closing_sink : bufferedNotifier :=
  mkBuffered "https://alerts.internal/hook" EncJSON (5 * Second) 256 0 [alert "a"; alert "b"] true Looping zero_time 0.

Lemma notifier_close_drains_witness :
  ∃ b', nrun closing_sink [NSeeDone; NReceive answered; NReceive answered; NEmpty] = Some ([alert "a"; alert "b"], b') ∧ bn_phase b' = Stopped.
Proof.
  destruct (notifier_close_drains closing_sink [answered; answered] eq_refl eq_refl eq_refl eq_refl) as (b' & H & Hs & _).
  exists b'. split; [exact H|exact Hs].
Defined.
