(* ===== verification/EvalConsole.v ===== *)
(** * EvalConsole: src/internal/console/eval_profiles.go,
    src/internal/console/eval_plugins.go, src/internal/console/eval_plugin_keys.go,
    src/cmd/nexus/plugin_keys.go, src/cmd/nexus/plugin_source_adapter.go,
    src/internal/core/eval_plugin_keys.go

    The console's requests on evaluation profiles and plugins, and the vendor keys
    pasted for a plugin: a cache per replica over a table they share.  A handler
    yields its status, whether an audit line is written and the store afterwards;
    decoded bodies are arguments.  Plugins are kept in any [PluginStore]; the console
    runs with a database, so the theorems are about the table.  For the keys, whether
    the database answers is an argument; encryption is left out, it restores what was
    stored. *)

From stdpp Require Import gmap pretty.
From S2P Require Import Prelude GoString GoTime Float64 CoreStore GwTypes Evals Plugins PluginStores.
Local Open Scope string_scope.
Local Open Scope Z_scope.

(** ** Profiles *)

Record ProfilePatch := mkProfilePatch {
  pp_Name : option string; pp_Kind : option string; pp_Scope : option string; pp_OwnerUser : option string;
  pp_Endpoint : option EvalEndpoint; pp_Metrics : option (list string); pp_Threshold : option float64;
  pp_SampleRate : option float64; pp_Enabled : option bool
}.

Record caller := mkCaller { ca_ID : string; ca_OrgID : string; ca_Role : string }.
Definition is_admin (u : caller) : bool := String.eqb (ca_Role u) "admin".

Definition profileForOrg (orgID id : string) (m : ProfileMem) : option EvalProfile :=
  match profiles_Get id m with
  | Some p => if VisibleToOrg p orgID then Some p else None
  | None => None
  end.

Definition profileCallerCanSee (p : EvalProfile) (u : caller) : bool :=
  if String.eqb (ep_Scope p) ProfileScopeUser
  then is_admin u || (negb (String.eqb (ep_OwnerUserID p) "") && String.eqb (ep_OwnerUserID p) (ca_ID u))
  else true.

Definition profileCallerCanWrite (p : EvalProfile) (u : caller) : bool :=
  is_admin u || (String.eqb (ep_Scope p) ProfileScopeUser && String.eqb (ep_OwnerUserID p) (ca_ID u)).

Definition listEvalProfiles (u : caller) (m : ProfileMem) : list EvalProfile :=
  List.filter (fun p => VisibleToOrg p (ca_OrgID u) && profileCallerCanSee p u) (profiles_List (ca_OrgID u) (ca_ID u) m).

Definition applyProfilePatch (p : EvalProfile) (patch : ProfilePatch) : EvalProfile :=
  mkProfile (ep_ID p) (ep_OrgID p) (default (ep_Name p) (TrimSpace <$> pp_Name patch)) (default (ep_Kind p) (pp_Kind patch))
    (default (ep_Scope p) (pp_Scope patch)) (default (ep_OwnerUserID p) (pp_OwnerUser patch))
    (default (ep_Endpoint p) (pp_Endpoint patch)) (default (ep_Metrics p) (pp_Metrics patch))
    (default (ep_Threshold p) (pp_Threshold patch)) (default (ep_SampleRate p) (pp_SampleRate patch))
    (default (ep_Enabled p) (pp_Enabled patch)) (ep_CreatedAt p) (ep_UpdatedAt p).

Record reply := mkReply { rp_status : Z; rp_audited : bool }.

Section Profiles.
(** [egress.CheckConfiguredURL] for a tenant: which destinations are allowed. *)
Context (allowed : string → bool).
(** [Worker.PluginOnly]. *)
Context (plugin_only : bool).

Definition checkProfileEndpoint (p : EvalProfile) : bool :=
  let base := TrimSpace (ee_BaseURL (ep_Endpoint p)) in
  if String.eqb base "" || String.eqb (ee_KeySource (ep_Endpoint p)) KeySourceBuiltin then true else allowed base.

(** [SaveEvalProfile] of cmd/nexus/eval_runtime.go. *)
Definition SaveEvalProfile (now : Time) (p : EvalProfile) (m : ProfileMem) : res string EvalProfile * ProfileMem :=
  if plugin_only && (String.eqb (ep_Kind p) ProfileSLMJudge || String.eqb (ep_Kind p) ProfileRemoteEval)
  then (Err "eval plugin-only mode is on", m)
  else profiles_Save now p m.

(** The tail [create] and [patch] share: validation, destination, save. *)
Definition save_checked (now : Time) (p : EvalProfile) (ok_status : Z) (m : ProfileMem) : reply * ProfileMem :=
  match profile_Validate p with
  | Some _ => (mkReply 400 false, m)
  | None =>
      if negb (checkProfileEndpoint p) then (mkReply 400 false, m)
      else match SaveEvalProfile now p m with
           | (Ok _, m') => (mkReply ok_status true, m')
           | (Err _, m') => (mkReply 500 false, m')
           end
  end.

Definition createEvalProfile (now : Time) (u : caller) (body : EvalProfile) (m : ProfileMem) : reply * ProfileMem :=
  let owner := if String.eqb (ep_Scope body) ProfileScopeUser && String.eqb (ep_OwnerUserID body) "" && negb (is_admin u)
               then ca_ID u else ep_OwnerUserID body in
  let p := mkProfile "" (ca_OrgID u) (ep_Name body) (ep_Kind body) (ep_Scope body) owner (ep_Endpoint body) (ep_Metrics body)
             (ep_Threshold body) (ep_SampleRate body) (ep_Enabled body) (ep_CreatedAt body) (ep_UpdatedAt body) in
  save_checked now p 201 m.

Definition patchEvalProfile (now : Time) (u : caller) (id : string) (patch : ProfilePatch) (m : ProfileMem) : reply * ProfileMem :=
  match profileForOrg (ca_OrgID u) id m with
  | None => (mkReply 404 false, m)
  | Some p =>
      if negb (profileCallerCanWrite p u) then (mkReply 403 false, m)
      else save_checked now (applyProfilePatch p patch) 200 m
  end.

Definition deleteEvalProfile (u : caller) (id : string) (m : ProfileMem) : reply * ProfileMem :=
  match profileForOrg (ca_OrgID u) id m with
  | None => (mkReply 404 false, m)
  | Some p => if negb (profileCallerCanWrite p u) then (mkReply 403 false, m) else (mkReply 200 true, profiles_Delete id m)
  end.

(** The routes: creating asks for an administrator, the rest for a user. *)
Inductive profile_request :=
| ReqCreate (body : EvalProfile)
| ReqPatch (id : string) (patch : ProfilePatch)
| ReqDelete (id : string).

Definition handle_profile (now : Time) (u : caller) (q : profile_request) (m : ProfileMem) : reply * ProfileMem :=
  match q with
  | ReqCreate body => if is_admin u then createEvalProfile now u body m else (mkReply 403 false, m)
  | ReqPatch id patch => patchEvalProfile now u id patch m
  | ReqDelete id => deleteEvalProfile u id m
  end.
End Profiles.

(** ** cmd/nexus/plugin_source_adapter.go: the table of plugins and the registry over it *)

Record plugin_state (S : Type) := mkPluginState { ps_store : S; ps_reg : gmap string PRecord }.
Arguments mkPluginState {S}. Arguments ps_store {S}. Arguments ps_reg {S}.

Section Adapter.
(** [evalplugin.Decode] ([DecodeStrict] yields the same plugin and warns), and [json.Marshal] of a plugin. *)
Context (decode : string → option Plugin) (pluginToYAML : Plugin → string).
(** The [PluginStore] the adapter was made with. *)
Context {S : Type} `{PluginStore S}.
Abbreviation state := (plugin_state S).

Definition with_store (t : S) (s : state) : state := mkPluginState t (ps_reg s).

Definition decodes_spec (s : string) : bool := match decode s with Some _ => true | None => false end.

Definition identifyRecord (r : PluginRecord) : string * string :=
  (NormalizeOrgID (pw_OrgID r), match decode (pw_SpecYAML r) with Some p => pl_Name p | None => pw_Name r end).

Definition identify (id : string) (s : state) : (string * string) * state :=
  let '(found, t) := store_Get id (ps_store s) in
  (match found with Ok r => identifyRecord r | Err _ => ("", "") end, with_store t s).

Definition mergeIntoRegistry (r : PluginRecord) (reg : gmap string PRecord) : gmap string PRecord :=
  match decode (pw_SpecYAML r) with
  | None => reg
  | Some p => snd (Merge [Some (mkRecord p SourceDatabase (pw_ID r) (pw_Enabled r) (NormalizeOrgID (pw_OrgID r)))] reg)
  end.

Definition adapter_Save (now : Time) (uuid : string) (r : PluginRecord) (s : state) : res string PluginRecord * state :=
  let '(prev, s) := if String.eqb (TrimSpace (pw_ID r)) "" then (("", ""), s) else identify (pw_ID r) s in
  match store_Save decodes_spec now uuid r (ps_store s) with
  | (Err e, t) => (Err e, with_store t s)
  | (Ok r', t) =>
      let reg := mergeIntoRegistry r' (ps_reg s) in
      let reg := if negb (String.eqb (snd prev) "") && negb (String.eqb (snd (identifyRecord r')) (snd prev))
                 then snd (Remove (fst prev) (snd prev) reg) else reg in
      (Ok r', mkPluginState t reg)
  end.

Definition adapter_Delete (id : string) (s : state) : option string * state :=
  let '((org, name), s) := identify id s in
  match store_Delete id (ps_store s) with
  | (Some e, t) => (Some e, with_store t s)
  | (None, t) => (None, mkPluginState t (if String.eqb name "" then ps_reg s else snd (Remove org name (ps_reg s))))
  end.

(** [Lookup]: a live plugin is answered without its organisation and its id. *)
Definition adapter_Lookup (name : string) (s : state) : option PluginRecord * state :=
  match Lookup name (ps_reg s) with
  | Some rec => (Some (mkRow "" "" (rec_name rec) (pluginToYAML (pr_Plugin rec)) (pr_Enabled rec) zero_time zero_time), s)
  | None =>
      let '(all, t) := store_List "" (ps_store s) in
      (match all with Ok l => find (fun r => String.eqb (pw_Name r) name) l | Err _ => None end, with_store t s)
  end.

(** ** Plugins *)

Definition listEvalPlugins (u : caller) (s : state) : res Z (list PluginRecord) * state :=
  let '(all, t) := store_List (ca_OrgID u) (ps_store s) in
  (match all with Ok l => Ok l | Err _ => Err 500 end, with_store t s).

(** What a handler answers when [Save] returns. *)
Definition saved_reply (st : Z) (out : res string PluginRecord * state) : reply * state :=
  match out with (Ok _, s) => (mkReply st true, s) | (Err _, s) => (mkReply 500 false, s) end.

Definition createEvalPlugin (now : Time) (uuid : string) (u : caller) (name spec : string) (enabled : bool) (s : state) : reply * state :=
  if negb (decodes_spec spec) then (mkReply 400 false, s)
  else saved_reply 201 (adapter_Save now uuid (mkRow "" (NormalizeOrgID (ca_OrgID u)) name spec enabled zero_time zero_time) s).

Definition pluginByIDForOrg (orgID id : string) (s : state) : res lookup_err PluginRecord * state :=
  let '(found, t) := store_Get id (ps_store s) in
  (match found with
   | Ok r =>
       if negb (String.eqb (pw_OrgID r) "") && negb (String.eqb (NormalizeOrgID (pw_OrgID r)) (NormalizeOrgID orgID)) then Err ErrPluginNotFound
       else Ok r
   | Err e => Err e
   end, with_store t s).

(** The new manifest and the name it brings; [None] when it does not decode. *)
Definition patch_spec (spec : option string) (r : PluginRecord) : option PluginRecord :=
  match spec with
  | None => Some r
  | Some s =>
      p ← decode s;
      let n := TrimSpace (pl_Name p) in
      Some (mkRow (pw_ID r) (pw_OrgID r) (if String.eqb n "" then pw_Name r else n) s (pw_Enabled r) (pw_CreatedAt r) (pw_UpdatedAt r))
  end.

Definition patch_enabled (enabled : option bool) (r : PluginRecord) : PluginRecord :=
  mkRow (pw_ID r) (pw_OrgID r) (pw_Name r) (pw_SpecYAML r) (default (pw_Enabled r) enabled) (pw_CreatedAt r) (pw_UpdatedAt r).

Definition patchEvalPlugin (now : Time) (uuid : string) (u : caller) (id : string) (spec : option string) (enabled : option bool) (s : state)
    : reply * state :=
  match pluginByIDForOrg (ca_OrgID u) id s with
  | (Err ErrPluginNotFound, s) => (mkReply 404 false, s)
  | (Err (StoreOther _), s) => (mkReply 500 false, s)
  | (Ok r, s) =>
      match patch_spec spec r with
      | None => (mkReply 400 false, s)
      | Some r' => saved_reply 200 (adapter_Save now uuid (patch_enabled enabled r') s)
      end
  end.

Definition deleteEvalPlugin (u : caller) (id : string) (s : state) : reply * state :=
  match pluginByIDForOrg (ca_OrgID u) id s with
  | (Err _, s) => (mkReply 404 false, s)
  | (Ok _, s) =>
      match adapter_Delete id s with
      | (Some _, s) => (mkReply 500 false, s)
      | (None, s) => (mkReply 200 true, s)
      end
  end.

(** The routes ask for an administrator. *)
Inductive plugin_request :=
| PCreate (name spec : string) (enabled : bool)
| PPatch (id : string) (spec : option string) (enabled : option bool)
| PDelete (id : string).

Definition handle_plugin (now : Time) (uuid : string) (u : caller) (q : plugin_request) (s : state) : reply * state :=
  if negb (is_admin u) then (mkReply 403 false, s)
  else match q with
       | PCreate name spec enabled => createEvalPlugin now uuid u name spec enabled s
       | PPatch id spec enabled => patchEvalPlugin now uuid u id spec enabled s
       | PDelete id => deleteEvalPlugin u id s
       end.

(** Its only error is a plugin that is not found. *)
Definition lookupPluginForOrg (orgID name : string) (s : state) : option PluginRecord * state :=
  match adapter_Lookup name s with
  | (None, s) => (None, s)
  | (Some r, s) => (if negb (String.eqb (pw_OrgID r) "") && negb (String.eqb (pw_OrgID r) orgID) then None else Some r, s)
  end.
End Adapter.

(** ** Plugin keys *)

Abbreviation keymap := (gmap string string).

(** The vault is the table [eval_plugin_keys]; a plugin without rows is absent. *)
Abbreviation vault := (gmap string keymap).

Definition named_keys (kv : keymap) : keymap := base.filter (fun '(k, v) => k ≠ "" ∧ v ≠ "") kv.

(** [SaveEvalPluginKeys], one transaction; the name of the plugin is not empty. *)
Definition SaveEvalPluginKeys (plugin : string) (kv : keymap) (v : vault) : vault :=
  if decide (named_keys kv = ∅) then delete plugin v else <[plugin := named_keys kv]> v.
Definition LoadEvalPluginKeys (plugin : string) (v : vault) : keymap := default ∅ (v !! plugin).
Definition DeleteEvalPluginKeys (plugin : string) (v : vault) : vault := delete plugin v.

(** One replica's cache. *)
Abbreviation key_cache := (gmap string keymap).

Definition set_values (kv : keymap) : keymap := base.filter (fun '(_, v) => v ≠ "") kv.

(** [Set]; [db] tells whether the write reaches the table. *)
Definition keys_Set (db : bool) (plugin : string) (kv : keymap) (c : key_cache) (v : vault) : bool * key_cache * vault :=
  let set := set_values kv in
  let c' := if decide (set = ∅) then delete plugin c else <[plugin := set]> c in
  if db && negb (String.eqb plugin "") then (true, c', SaveEvalPluginKeys plugin set v) else (false, c', v).

Definition keys_cached (plugin : string) (c : key_cache) : option keymap :=
  match c !! plugin with Some kv => if decide (kv = ∅) then None else Some kv | None => None end.

(** [loadFromVault]: the answer, [None] for an error, and the cache after it. *)
Definition loadFromVault (db : bool) (plugin : string) (c : key_cache) (v : vault) : option keymap * key_cache :=
  if negb db then (None, c)
  else let kv := LoadEvalPluginKeys plugin v in
       if decide (kv = ∅) then (Some ∅, c) else (Some kv, <[plugin := kv]> c).

Definition keys_Get (db : bool) (plugin : string) (c : key_cache) (v : vault) : option keymap * key_cache :=
  match keys_cached plugin c with
  | Some kv => (Some kv, c)
  | None =>
      match loadFromVault db plugin c v with
      | (Some kv, c') => (if decide (kv = ∅) then None else Some kv, c')
      | (None, c') => (None, c')
      end
  end.

Definition keys_Clear (db : bool) (plugin : string) (c : key_cache) (v : vault) : bool * key_cache * vault :=
  (db, delete plugin c, if db then DeleteEvalPluginKeys plugin v else v).

(** [Hydrate] of a new replica, the table being readable. *)
Definition Hydrate (v : vault) (c : key_cache) : key_cache :=
  foldl (fun c name => let kv := LoadEvalPluginKeys name v in if decide (kv = ∅) then c else <[name := kv]> c) c
    (sort_Strings (map fst (map_to_list v))).

Definition splitKeyRef (keyRef : string) : list string :=
  List.filter (fun p => negb (String.eqb p "")) (map TrimSpace (Split keyRef "|")).

Inductive resolve_err := ErrNoSecretRef | ErrNoKeyRef (plugin : string) | ErrLoadKeys (plugin : string) | ErrNoKeys (plugin : string)
| ErrMissing (plugin : string) (keys : list string).

Definition key_value (kv : keymap) (k : string) : option string :=
  match kv !! k with Some v => if String.eqb v "" then None else Some v | None => None end.

(** [Resolve]. *)
Definition Resolve (db : bool) (auth : AuthSpec) (c : key_cache) (v : vault) : res resolve_err (list string) * key_cache :=
  if String.eqb (au_SecretRef auth) "" && String.eqb (au_KeyRef auth) "" then (Ok [], c)
  else if String.eqb (au_SecretRef auth) "" then (Err ErrNoSecretRef, c)
  else
    let plugin := au_SecretRef auth in
    match splitKeyRef (au_KeyRef auth) with
    | [] => (Err (ErrNoKeyRef plugin), c)
    | keys =>
        let '(stored, c') := match keys_cached plugin c with Some kv => (Some kv, c) | None => loadFromVault db plugin c v end in
        match stored with
        | None => (Err (ErrLoadKeys plugin), c')
        | Some kv =>
            if decide (kv = ∅) then (Err (ErrNoKeys plugin), c')
            else
              match sort_Strings (List.filter (fun k => match key_value kv k with None => true | Some _ => false end) keys) with
              | [] => (Ok (omap (key_value kv) keys), c')
              | missing => (Err (ErrMissing plugin missing), c')
              end
        end
    end.

(** [maskKey]. *)
Definition maskKey (v : string) : string :=
  let n := String.length v in
  let tail := drop_bytes (n - 4) v in
  if String.eqb v "" then ""
  else if (n <=? 8)%nat then "***"
  else match IndexByte v "-" with
       | Some (S i) => if (S i <? n - 4)%nat then take_bytes (S (S i)) v +:+ "***" +:+ tail else "***" +:+ tail
       | _ => "***" +:+ tail
       end.

(** ** eval_plugin_keys.go: the panel *)

Fixpoint trim_left_blanks (s : string) : string :=
  match s with
  | String c s' => if Ascii.eqb c " " || Ascii.eqb c "009" then trim_left_blanks s' else s
  | EmptyString => ""
  end.
Fixpoint trim_right_blanks (s : string) : string :=
  match s with
  | String c s' =>
      match trim_right_blanks s' with
      | EmptyString => if Ascii.eqb c " " || Ascii.eqb c "009" then "" else String c EmptyString
      | t => String c t
      end
  | EmptyString => ""
  end.
Definition trimSpaces (s : string) : string := trim_right_blanks (trim_left_blanks s).

(** The panel's own reading of a key reference. *)
Definition panel_splitKeyRef (keyRef : string) : list string :=
  List.filter (fun p => negb (String.eqb p "")) (map trimSpaces (Split keyRef "|")).

Record key_state (S : Type) := mkKeyState { kst_plugins : plugin_state S; kst_cache : key_cache; kst_vault : vault }.
Arguments mkKeyState {S}. Arguments kst_plugins {S}. Arguments kst_cache {S}. Arguments kst_vault {S}.

Record key_entry := mkKeyEntry { ke_Name : string; ke_Set : bool }.
Record keys_answer := mkKeysAnswer { ka_status : Z; ka_Configured : bool; ka_Keys : list key_entry; ka_Required : list string }.

Definition key_set (kv : keymap) (k : string) : bool := match key_value kv k with Some _ => true | None => false end.

Section Panel.
Context (decode : string → option Plugin) (pluginToYAML : Plugin → string).
Context {S : Type} `{PluginStore S}.

Definition requiredKeyNames (r : PluginRecord) : list string :=
  match decode (pw_SpecYAML r) with Some p => panel_splitKeyRef (au_KeyRef (ss_Auth (pl_Service p))) | None => [] end.

Definition getPluginKeys (db : bool) (u : caller) (name : string) (s : key_state S) : keys_answer * key_state S :=
  match lookupPluginForOrg pluginToYAML (ca_OrgID u) name (kst_plugins s) with
  | (None, ps) => (mkKeysAnswer 404 false [] [], mkKeyState ps (kst_cache s) (kst_vault s))
  | (Some r, ps) =>
      let required := requiredKeyNames r in
      let '(stored, c) := keys_Get db name (kst_cache s) (kst_vault s) in
      let s' := mkKeyState ps c (kst_vault s) in
      match stored with
      | None => (mkKeysAnswer 200 false (map (fun k => mkKeyEntry k false) required) required, s')
      | Some kv =>
          let extras := sort_Strings (List.filter (fun k => negb (existsb (String.eqb k) required)) (map fst (map_to_list kv))) in
          (mkKeysAnswer 200 true (map (fun k => mkKeyEntry k (key_set kv k)) (required ++ extras)) required, s')
      end
  end.

(** [body] is the object of keys, [None] when it is missing. *)
Definition putPluginKeys (db : bool) (u : caller) (name : string) (body : option keymap) (s : key_state S) : reply * key_state S :=
  match lookupPluginForOrg pluginToYAML (ca_OrgID u) name (kst_plugins s) with
  | (None, ps) => (mkReply 404 false, mkKeyState ps (kst_cache s) (kst_vault s))
  | (Some r, ps) =>
      let s := mkKeyState ps (kst_cache s) (kst_vault s) in
      match body with
      | None => (mkReply 400 false, s)
      | Some kv =>
          if (0 <? Z.of_nat (length (requiredKeyNames r))) && bool_decide (kv = ∅) then (mkReply 400 false, s)
          else let '(ok, c, v) := keys_Set db name kv (kst_cache s) (kst_vault s) in
               (if ok then mkReply 200 true else mkReply 500 false, mkKeyState (kst_plugins s) c v)
      end
  end.

Definition deletePluginKeys (db : bool) (u : caller) (name : string) (s : key_state S) : reply * key_state S :=
  match lookupPluginForOrg pluginToYAML (ca_OrgID u) name (kst_plugins s) with
  | (None, ps) => (mkReply 404 false, mkKeyState ps (kst_cache s) (kst_vault s))
  | (Some _, ps) =>
      let '(ok, c, v) := keys_Clear db name (kst_cache s) (kst_vault s) in
      (if ok then mkReply 200 true else mkReply 500 false, mkKeyState ps c v)
  end.
End Panel.
