(* ===== verification/EvalConsoleProps.v ===== *)
(** * EvalConsoleProps: what the console's requests on evaluations may change

    Writes to profiles and plugins stay within the caller's organisation and the
    shared rows, the registry follows the table, and a plugin's keys reach the
    manifests that name it.  The gaps: rows of the default organisation are
    everyone's, an owner can publish a profile, the panel of keys does not know whose
    a live plugin is, and caches of other replicas are never refreshed. *)

From stdpp Require Import gmap pretty.
From S2P Require Import Prelude GoString GoTime Float64 GoSort CoreStore GwTypes Regex Evals Plugins PluginStores PluginsProps EvalConsole.
Local Open Scope string_scope.
Local Open Scope Z_scope.

(** ** Profiles *)

Definition profile_ids_ok (m : ProfileMem) : Prop := map_Forall (fun k p => ep_ID p = k ∧ TrimSpace k ≠ "") (pm_profiles m).

Definition new_profile_id (now : Time) (m : ProfileMem) : string := "ep_" +:+ pretty now +:+ "_" +:+ pretty ((pm_counter m + 1) mod 2 ^ 64).

(** [Save] puts one row in place, its organisation the one it was handed. *)
Lemma profiles_Save_row now p m r m' :
  profiles_Save now p m = (r, m') →
  match r with
  | Err _ => m' = m
  | Ok p' =>
      pm_profiles m' = <[ep_ID p' := p']> (pm_profiles m) ∧ profile_Validate p = None ∧
      ep_ID p' = (if String.eqb (TrimSpace (ep_ID p)) "" then new_profile_id now m else ep_ID p) ∧
      ∃ c, p' = stamp_profile (ep_ID p') c now p
  end.
Proof.
  unfold profiles_Save. destruct (profile_Validate p) eqn:Ev; intros [= <- <-]; [done|]. cbn. unfold new_profile_id.
  destruct (String.eqb (TrimSpace (ep_ID p)) ""); (split_and!; [done|done|done|eexists; reflexivity]).
Qed.

(** One row may change hands: the row at [id], from [old] to [new]. *)
Definition only_row (id : string) (old new : option EvalProfile) (m m' : ProfileMem) : Prop :=
  pm_profiles m !! id = old ∧ pm_profiles m' !! id = new ∧ ∀ k, k ≠ id → pm_profiles m' !! k = pm_profiles m !! k.

Section Writes.
Context (allowed : string → bool) (plugin_only : bool).

Lemma save_checked_row now p st m r m' :
  save_checked allowed plugin_only now p st m = (r, m') →
  (rp_audited r = false ∧ m' = m) ∨
  (rp_audited r = true ∧ rp_status r = st ∧ checkProfileEndpoint allowed p = true ∧
   ∃ p', profiles_Save now p m = (Ok p', m')).
Proof.
  unfold save_checked. destruct (profile_Validate p); [intros [= <- <-]; by left|].
  destruct (checkProfileEndpoint allowed p) eqn:Ec; cbn [negb]; [|intros [= <- <-]; by left].
  unfold SaveEvalProfile. destruct (plugin_only && _); [intros [= <- <-]; by left|].
  destruct (profiles_Save now p m) as [[p'|e] m''] eqn:Es; intros [= <- <-].
  - right. split_and!; try done. by exists p'.
  - left. split; [done|]. by apply profiles_Save_row in Es.
Qed.

(** A request on profiles changes at most one row and says so in the audit log: a
    new row of the caller's own organisation, which only an administrator adds; or a
    row the caller's organisation shows and the caller may write, which stays in its
    organisation.  The endpoint of a row that is saved is an allowed destination. *)
Theorem profile_writes_confined (now : Time) (u : caller) (q : profile_request) (m m' : ProfileMem) (r : reply) :
  profile_ids_ok m → pm_profiles m !! new_profile_id now m = None →
  handle_profile allowed plugin_only now u q m = (r, m') →
  (rp_audited r = false ∧ m' = m) ∨
  (rp_audited r = true ∧ ∃ id old new, only_row id old new m m' ∧
    match old, new with
    | None, Some p' => is_admin u = true ∧ ep_OrgID p' = ca_OrgID u
    | Some p, Some p' => VisibleToOrg p (ca_OrgID u) = true ∧ profileCallerCanWrite p u = true ∧ ep_OrgID p' = ep_OrgID p
    | Some p, None => VisibleToOrg p (ca_OrgID u) = true ∧ profileCallerCanWrite p u = true
    | None, None => False
    end ∧ ∀ p', new = Some p' → checkProfileEndpoint allowed p' = true ∧ profile_Validate p' = None).
Proof.
  intros Hids Hfresh. destruct q as [body|id patch|id]; cbn [handle_profile].
  - destruct (is_admin u) eqn:Ea; [|intros [= <- <-]; by left]. unfold createEvalProfile. intros H.
    apply save_checked_row in H as [H|(Ha & _ & Hc & p' & Hs)]; [by left|]. right. split; [done|].
    apply profiles_Save_row in Hs as (Hm & Hv & Hid & c & Hp). cbn in Hid. rewrite Hid in Hm, Hp.
    exists (new_profile_id now m), None, (Some p'). split; [|split].
    + split_and!; [done|by rewrite Hm, lookup_insert_eq|intros k Hk; by rewrite Hm, lookup_insert_ne].
    + split; [done|]. by rewrite Hp.
    + intros ? [= <-]. rewrite Hp. by split.
  - unfold patchEvalProfile, profileForOrg, profiles_Get. destruct (pm_profiles m !! id) as [p|] eqn:Ep; [|intros [= <- <-]; by left].
    destruct (VisibleToOrg p (ca_OrgID u)) eqn:Ev; [|intros [= <- <-]; by left].
    destruct (profileCallerCanWrite p u) eqn:Ew; cbn [negb]; [|intros [= <- <-]; by left]. intros H.
    apply save_checked_row in H as [H|(Ha & _ & Hc & p' & Hs)]; [by left|]. right. split; [done|].
    destruct (Hids _ _ Ep) as [He Hb]. apply profiles_Save_row in Hs as (Hm & Hv & Hid & c & Hp).
    change (ep_ID (applyProfilePatch p patch)) with (ep_ID p) in Hid. rewrite He in Hid. destruct (String.eqb_spec (TrimSpace id) "") as [|_]; [done|]. rewrite Hid in Hm, Hp.
    exists id, (Some p), (Some p'). split; [|split].
    + split_and!; [done|by rewrite Hm, lookup_insert_eq|intros k Hk; by rewrite Hm, lookup_insert_ne].
    + split_and!; [done|done|]. by rewrite Hp.
    + intros ? [= <-]. rewrite Hp. by split.
  - unfold deleteEvalProfile, profileForOrg, profiles_Get. destruct (pm_profiles m !! id) as [p|] eqn:Ep; [|intros [= <- <-]; by left].
    destruct (VisibleToOrg p (ca_OrgID u)) eqn:Ev; [|intros [= <- <-]; by left].
    destruct (profileCallerCanWrite p u) eqn:Ew; cbn [negb]; [|intros [= <- <-]; by left]. intros [= <- <-]. right. split; [done|].
    exists id, (Some p), None. split; [|done].
    split_and!; [done|by cbn; rewrite lookup_delete_eq|intros k Hk; cbn; by rewrite lookup_delete_ne].
Qed.

(** A profile saved by an administrator of the default organisation is everyone's:
    it takes part in the traces of every organisation, and an administrator of any
    other organisation may patch or delete it. *)
Theorem default_org_profiles_are_shared (now later : Time) (u u' : caller) (body : EvalProfile) (m m' : ProfileMem) (r : reply) :
  is_admin u = true → ca_OrgID u = DefaultOrgID → is_admin u' = true →
  handle_profile allowed plugin_only now u (ReqCreate body) m = (r, m') → rp_audited r = true →
  let id := new_profile_id now m in
  ∃ p, pm_profiles m' !! id = Some p ∧ (∀ org, VisibleToOrg p org = true) ∧
       handle_profile allowed plugin_only later u' (ReqDelete id) m' = (mkReply 200 true, profiles_Delete id m') ∧
       ∀ patch, handle_profile allowed plugin_only later u' (ReqPatch id patch) m' = save_checked allowed plugin_only later (applyProfilePatch p patch) 200 m'.
Proof.
  intros Ha Ho Ha' H Hr. cbn [handle_profile] in *. rewrite Ha in H. unfold createEvalProfile in H.
  apply save_checked_row in H as [[H _]|(_ & _ & _ & p' & Hs)]; [congruence|].
  apply profiles_Save_row in Hs as (Hm & _ & Hid & c & Hp). cbn in Hid. rewrite Hid in Hm, Hp.
  assert (∀ org, VisibleToOrg p' org = true) as Hvis by (intros org; rewrite Hp; unfold VisibleToOrg; cbn; by rewrite Ho).
  assert (profileForOrg (ca_OrgID u') (new_profile_id now m) m' = Some p') as Hf.
  { unfold profileForOrg, profiles_Get. by rewrite Hm, lookup_insert_eq, Hvis. }
  assert (profileCallerCanWrite p' u' = true) as Hw by (unfold profileCallerCanWrite; by rewrite Ha').
  exists p'. split_and!; [by rewrite Hm, lookup_insert_eq|done| |].
  - unfold deleteEvalProfile. by rewrite Hf, Hw.
  - intros patch. unfold patchEvalProfile. by rewrite Hf, Hw.
Qed.

Lemma publish_valid p q :
  ep_Scope p = ProfileScopeUser → profile_Validate p = None → ep_Scope q = ProfileScopeOrg → ep_Name q = ep_Name p →
  ep_Kind q = ep_Kind p → ep_SampleRate q = ep_SampleRate p → ep_Endpoint q = ep_Endpoint p → profile_Validate q = None.
Proof.
  unfold profile_Validate. intros -> Hv -> -> -> -> ->. change (String.eqb ProfileScopeUser ProfileScopeOrg) with false in Hv.
  change (String.eqb ProfileScopeUser ProfileScopeUser) with true in Hv. change (String.eqb ProfileScopeOrg ProfileScopeUser) with false.
  change (String.eqb ProfileScopeOrg ProfileScopeOrg) with true. cbn [negb andb] in *.
  destruct (String.eqb (TrimSpace (ep_Name p)) ""); [done|]. destruct (validKind (ep_Kind p)); cbn [negb] in *; [|done].
  by destruct (String.eqb (TrimSpace (ep_OwnerUserID p)) "").
Qed.

(** The owner of a personal profile may publish it: a member's patch of the scope
    is saved, the profile then belongs to the organisation, and the member can no
    longer write it. *)
Theorem member_publishes_profile (now : Time) (u : caller) (id : string) (p : EvalProfile) (m : ProfileMem) :
  is_admin u = false → TrimSpace id ≠ "" → pm_profiles m !! id = Some p → ep_ID p = id →
  VisibleToOrg p (ca_OrgID u) = true → ep_Scope p = ProfileScopeUser → ep_OwnerUserID p = ca_ID u →
  profile_Validate p = None → checkProfileEndpoint allowed p = true → plugin_only = false →
  let patch := mkProfilePatch None None (Some ProfileScopeOrg) None None None None None None in
  ∃ p' m', handle_profile allowed plugin_only now u (ReqPatch id patch) m = (mkReply 200 true, m') ∧ pm_profiles m' !! id = Some p' ∧
           ep_Scope p' = ProfileScopeOrg ∧ ep_OrgID p' = ep_OrgID p ∧ ep_Endpoint p' = ep_Endpoint p ∧ ep_Enabled p' = ep_Enabled p ∧
           ∀ patch', handle_profile allowed plugin_only now u (ReqPatch id patch') m' = (mkReply 403 false, m').
Proof.
  intros Ha Hid Hp Heq Hv Hs Ho Hval Hc Hpo patch. cbn [handle_profile].
  assert (profile_Validate (applyProfilePatch p patch) = None) as Hval'.
  { by apply (publish_valid p). }
  unfold patchEvalProfile, profileForOrg, profiles_Get. rewrite Hp, Hv. unfold profileCallerCanWrite at 1. rewrite Ha, Hs, Ho, !String.eqb_refl. cbn [orb andb negb].
  unfold save_checked. rewrite Hval'.
  assert (checkProfileEndpoint allowed (applyProfilePatch p patch) = true) as -> by exact Hc. unfold SaveEvalProfile. rewrite Hpo. cbn [negb andb].
  destruct (profiles_Save now (applyProfilePatch p patch) m) as [[p'|e] m'] eqn:Es.
  - apply profiles_Save_row in Es as (Hm & _ & Hid' & c & Hp'). change (ep_ID (applyProfilePatch p patch)) with (ep_ID p) in Hid'. rewrite Heq in Hid'.
    destruct (String.eqb_spec (TrimSpace id) "") as [|_]; [done|]. rewrite Hid' in Hm, Hp'.
    exists p', m'. split_and!; [done|by rewrite Hm, lookup_insert_eq|by rewrite Hp'..|]. intros patch'. rewrite Hm, lookup_insert_eq.
    assert (VisibleToOrg p' (ca_OrgID u) = true) as -> by (rewrite Hp'; exact Hv).
    unfold profileCallerCanWrite. rewrite Ha, Hp'. cbn. done.
  - unfold profiles_Save in Es. rewrite Hval' in Es. done.
Qed.
End Writes.

(** What a list of profiles shows: rows of the caller's organisation or shared
    rows, of the personal ones the caller's own, for administrators too. *)
Theorem listed_profiles_exact (u : caller) (m : ProfileMem) (p : EvalProfile) :
  ca_ID u ≠ "" → ca_OrgID u ≠ "" →
  p ∈ listEvalProfiles u m ↔
  (∃ id, pm_profiles m !! id = Some p) ∧ VisibleToOrg p (ca_OrgID u) = true ∧
  (ep_Scope p = ProfileScopeUser → ep_OwnerUserID p = ca_ID u).
Proof.
  intros Hu Ho. unfold listEvalProfiles, profiles_List.
  rewrite !list_elem_of_In, !filter_In, in_map_iff.
  assert ((∃ x, snd x = p ∧ In x (map_to_list (pm_profiles m))) ↔ ∃ id, pm_profiles m !! id = Some p) as Hin.
  { split.
    - intros ([id p'] & Hp & Hi). cbn in Hp. subst p'. exists id. by apply elem_of_map_to_list, list_elem_of_In.
    - intros [id Hp]. exists (id, p). split; [done|]. by apply list_elem_of_In, elem_of_map_to_list. }
  rewrite Hin. apply String.eqb_neq in Hu, Ho. rewrite Ho, Hu. cbn [orb negb andb].
  unfold profileCallerCanSee. destruct (String.eqb_spec (ep_Scope p) ProfileScopeUser) as [Hs|Hs]; cbn [negb andb].
  - destruct (VisibleToOrg p (ca_OrgID u)); cbn [andb]; [|naive_solver].
    destruct (String.eqb_spec (ep_OwnerUserID p) (ca_ID u)) as [He|He]; cbn [negb andb]; [|naive_solver].
    rewrite He, Hu. cbn. rewrite orb_true_r. naive_solver.
  - destruct (VisibleToOrg p (ca_OrgID u)); naive_solver.
Qed.

(** ** Plugins: the table and the registry *)

Definition plugin_ids_ok (t : gmap string PluginRecord) : Prop := map_Forall (fun k r => pw_ID r = k ∧ TrimSpace k ≠ "") t.

Section PluginRequests.
Context (decode : string → option Plugin).
(** [Decode] yields plugins that [Validate] accepts. *)
Context (decode_valid : ∀ s p, decode s = Some p → plugin_Validate p = None).

Definition rows_decode (t : gmap string PluginRecord) : Prop := map_Forall (fun _ r => is_Some (decode (pw_SpecYAML r))) t.

Lemma Merge_one rec r :
  plugin_Validate (pr_Plugin rec) = None → pr_Source rec = SourceDatabase →
  snd (Merge [Some rec] r) =
    match r !! recordKey (pr_OrgID rec) (rec_name rec) with
    | Some ex => if decide (pr_Source ex = SourceHelm) then r else <[recordKey (pr_OrgID rec) (rec_name rec) := rec]> r
    | None => <[recordKey (pr_OrgID rec) (rec_name rec) := rec]> r
    end.
Proof. intros Hv Hs. cbn [Merge]. rewrite Hv, Hs. destruct (r !! _) as [ex|]; [|done]. by destruct (pr_Source ex). Qed.

Lemma Remove_lookup org name r k :
  snd (Remove org name r) !! k = if decide (k = recordKey org name) then None else r !! k.
Proof.
  unfold Remove. destruct (r !! recordKey org name) eqn:E; cbn [snd]; destruct (decide _) as [->|Hn]; try done.
  - by rewrite lookup_delete_eq.
  - by rewrite lookup_delete_ne.
Qed.

Lemma valid_not_empty p : plugin_Validate p = None → pl_Name p ≠ "".
Proof.
  unfold plugin_Validate. intros Hv He. rewrite He in Hv. destruct (String.eqb _ ""); [done|]. destruct (negb (one_of _ (pl_APIVersion p))); [done|].
  destruct (negb _); [done|]. change (String.eqb (TrimSpace "") "") with true in Hv. done.
Qed.

(** The places in the registry a request of [u] may touch. *)
Definition own_org (u : caller) (org : string) : Prop := org = "" ∨ org = NormalizeOrgID (ca_OrgID u).

Lemma Normalize_idem org : NormalizeOrgID (NormalizeOrgID org) = NormalizeOrgID org.
Proof. unfold NormalizeOrgID. by destruct (String.eqb_spec org "default"); [|rewrite (proj2 (String.eqb_neq _ _))]. Qed.

Lemma remove_foreign u org name (r : gmap string PRecord) k rec :
  reg_ok r → own_org u org → no_nul name → ¬ own_org u (pr_OrgID rec) → snd (Remove org name r) !! k = Some rec ↔ r !! k = Some rec.
Proof.
  intros Hr Ho Hn Hf. rewrite Remove_lookup. destruct (decide _) as [->|]; [|done]. split; [done|]. intros H.
  destruct (Hr _ _ H) as [Hk Hv]. apply recordKey_inj in Hk as [-> _]; [done|done|by apply valid_name_no_nul].
Qed.

Lemma merge_foreign u r (reg : gmap string PRecord) k rec :
  reg_ok reg → own_org u (NormalizeOrgID (pw_OrgID r)) → ¬ own_org u (pr_OrgID rec) →
  mergeIntoRegistry decode r reg !! k = Some rec ↔ reg !! k = Some rec.
Proof.
  intros Hr Ho Hf. unfold mergeIntoRegistry. destruct (decode (pw_SpecYAML r)) as [p|] eqn:Ep; [|done].
  pose proof (decode_valid _ _ Ep) as Hv. rewrite Merge_one by done. unfold rec_name. cbn [pr_OrgID pr_Plugin].
  set (key := recordKey _ _).
  assert (∀ ex, reg !! key = Some ex → own_org u (pr_OrgID ex)) as Hkey.
  { intros ex Hex. destruct (Hr _ _ Hex) as [Hk Hv']. apply recordKey_inj in Hk as [<- _]; [done|by apply valid_name_no_nul..]. }
  assert (<[key := mkRecord p SourceDatabase (pw_ID r) (pw_Enabled r) (NormalizeOrgID (pw_OrgID r))]> reg !! k = Some rec ↔ reg !! k = Some rec) as Hi.
  { destruct (decide (k = key)) as [->|Hne]; [|by rewrite lookup_insert_ne]. rewrite lookup_insert_eq. split.
    - intros [= <-]. by destruct Hf.
    - intros Hex. by destruct Hf; apply Hkey. }
  destruct (reg !! key) as [ex|]; [|exact Hi]. by destruct (decide _).
Qed.

(** Any store that keeps its promises. *)
Section AnyStore.
Context {S : Type} {ops : PluginStore S} {view : StoreView S} {laws : StoreLaws S}.
Abbreviation state := (plugin_state S).
Abbreviation table s := (rows (ps_store s)).

Definition unchanged (s s' : state) : Prop := table s' = table s ∧ ps_reg s' = ps_reg s.

Lemma unchanged_refl s : unchanged s s.
Proof using Type. done. Qed.

Lemma unchanged_trans s s1 s2 : unchanged s s1 → unchanged s1 s2 → unchanged s s2.
Proof using Type. intros [E1 R1] [E2 R2]. split; congruence. Qed.

Lemma identify_spec id s o s1 : identify decode id s = (o, s1) →
  unchanged s s1 ∧ (o = ("", "") ∨ ∃ r0, table s !! id = Some r0 ∧ o = identifyRecord decode r0).
Proof.
  unfold identify. destruct (store_Get id (ps_store s)) as [found t] eqn:E. apply Get_law in E as [Hr Hf]. intros [= <- <-]. split; [done|].
  destruct found as [r0|e]; [|by left]. right. exists r0. split; [by apply Hf|done].
Qed.

(** The address a row had in the registry before it is saved, when the store told. *)
Definition given_up (r : PluginRecord) (s : state) : string * string :=
  if String.eqb (TrimSpace (pw_ID r)) "" then ("", "") else fst (identify decode (pw_ID r) s).

Lemma given_up_spec r s :
  given_up r s = ("", "") ∨ TrimSpace (pw_ID r) ≠ "" ∧ ∃ r0, table s !! pw_ID r = Some r0 ∧ given_up r s = identifyRecord decode r0.
Proof.
  unfold given_up. destruct (String.eqb_spec (TrimSpace (pw_ID r)) "") as [Hb|Hb]; [by left|].
  destruct (identify decode (pw_ID r) s) as [o s1] eqn:E. apply identify_spec in E as [_ [->|?]]; [by left|by right].
Qed.

(** What [Save] does to the rows and, when it succeeds, to the registry: the manifest
    is merged, and the address the row had before is given up. *)
Lemma adapter_Save_spec now uuid r s x s' : adapter_Save decode now uuid r s = (x, s') →
  match x with
  | Err _ => unchanged s s'
  | Ok r' =>
      table s' = <[pw_ID r' := r']> (table s) ∧ is_Some (decode (pw_SpecYAML r)) ∧ saved_as r r' ∧
      (if String.eqb (TrimSpace (pw_ID r)) ""
       then pw_ID r' = assigned now uuid (ps_store s) ∨ ∃ old, table s !! pw_ID r' = Some old ∧ pw_OrgID old = pw_OrgID r ∧ pw_Name old = pw_Name r
       else pw_ID r' = pw_ID r) ∧
      ps_reg s' = (let reg := mergeIntoRegistry decode r' (ps_reg s) in
                   if negb (String.eqb (snd (given_up r s)) "") && negb (String.eqb (snd (identifyRecord decode r')) (snd (given_up r s)))
                   then snd (Remove (fst (given_up r s)) (snd (given_up r s)) reg) else reg)
  end.
Proof.
  unfold adapter_Save. destruct (if String.eqb _ _ then _ else _) as [prev s1] eqn:Ep.
  assert (unchanged s s1 ∧ prev = given_up r s ∧ (TrimSpace (pw_ID r) = "" → s1 = s)) as ([Hr Hreg] & -> & Hs1).
  { unfold given_up. destruct (String.eqb_spec (TrimSpace (pw_ID r)) "") as [Hb|Hb]; [by injection Ep as <- <-|]. rewrite Ep.
    apply identify_spec in Ep as [? _]. by split_and!. }
  destruct (store_Save _ _ _ _ _) as [[r'|e] t] eqn:Es; intros [= <- <-].
  - apply Save_law in Es as (E1 & E2 & E3 & E4). rewrite Hr in E1, E4. cbn [ps_store ps_reg]. rewrite Hreg.
    split_and!; [done| |done| |done].
    + unfold decodes_spec in E2. destruct (decode _); [by eexists|done].
    + destruct (String.eqb_spec (TrimSpace (pw_ID r)) "") as [Hb|Hb]; [|done]. by rewrite (Hs1 Hb) in E4.
  - apply Save_err_law in Es. split; cbn [with_store ps_store ps_reg]; [by rewrite Es|done].
Qed.

(** Saving a plugin takes effect at once: the row is stored, and the registry
    serves the manifest just saved under its organisation and name, unless a
    Helm-installed plugin holds that place; a name the row had before is given up
    when the store answered what it was. *)
Theorem plugin_save_live (now : Time) (uuid : string) (r r' : PluginRecord) (p : Plugin) (s s' : state) :
  rows_decode (table s) →
  adapter_Save decode now uuid r s = (Ok r', s') → decode (pw_SpecYAML r) = Some p →
  let key := recordKey (NormalizeOrgID (pw_OrgID r)) (pl_Name p) in
  table s' !! pw_ID r' = Some r' ∧ saved_as r r' ∧
  ps_reg s' !! key =
    match ps_reg s !! key with
    | Some ex => if decide (pr_Source ex = SourceHelm) then Some ex
                 else Some (mkRecord p SourceDatabase (pw_ID r') (pw_Enabled r) (NormalizeOrgID (pw_OrgID r)))
    | None => Some (mkRecord p SourceDatabase (pw_ID r') (pw_Enabled r) (NormalizeOrgID (pw_OrgID r)))
    end ∧
  (∀ r0 p0, TrimSpace (pw_ID r) ≠ "" → fst (store_Get (pw_ID r) (ps_store s)) = Ok r0 → decode (pw_SpecYAML r0) = Some p0 →
     pl_Name p0 ≠ pl_Name p → ps_reg s' !! recordKey (NormalizeOrgID (pw_OrgID r0)) (pl_Name p0) = None).
Proof.
  intros Hrows Hsave Hp key. apply adapter_Save_spec in Hsave as (Hrow & _ & (Ho & Hn & Hsp & Hen) & _ & Hreg).
  assert (plugin_Validate p = None) as Hv by by eapply decode_valid.
  assert (snd (identifyRecord decode r') = pl_Name p) as Hid by (unfold identifyRecord; by rewrite Hsp, Hp).
  pose proof (given_up_spec r s) as Hprev. set (prev := given_up r s) in *. cbn zeta in Hreg. rewrite Hid in Hreg. set (reg := mergeIntoRegistry decode r' (ps_reg s)) in *.
  split; [by rewrite Hrow, lookup_insert_eq|]. split; [by split_and!|]. split.
  - assert (reg !! key = match ps_reg s !! key with
      | Some ex => if decide (pr_Source ex = SourceHelm) then Some ex
                   else Some (mkRecord p SourceDatabase (pw_ID r') (pw_Enabled r) (NormalizeOrgID (pw_OrgID r)))
      | None => Some (mkRecord p SourceDatabase (pw_ID r') (pw_Enabled r) (NormalizeOrgID (pw_OrgID r))) end) as Hk.
    { unfold reg, mergeIntoRegistry. rewrite Hsp, Hp, Ho, Hen, Merge_one by done. unfold rec_name. cbn [pr_OrgID pr_Plugin]. fold key.
      destruct (ps_reg s !! key) as [ex|] eqn:Ek; [|by rewrite lookup_insert_eq]. destruct (decide _); [done|by rewrite lookup_insert_eq]. }
    rewrite <- Hk, Hreg. destruct (negb (String.eqb (snd prev) "") && negb (String.eqb (pl_Name p) (snd prev))) eqn:Eg; [|done].
    apply andb_true_iff in Eg as [_ Hne]. apply negb_true_iff, String.eqb_neq in Hne. rewrite Remove_lookup, decide_False; [done|]. intros Hc.
    assert (no_nul (snd prev)) as Hnul.
    { destruct Hprev as [->|(_ & r0 & E0 & ->)]; [by constructor|]. destruct (Hrows _ _ E0) as [p0 Hp0]. unfold identifyRecord. rewrite Hp0.
      by eapply valid_name_no_nul, decode_valid. }
    apply recordKey_inj in Hc as [_ ?]; [done|by eapply valid_name_no_nul|done].
  - intros r0 p0 Hb H0 Hp0 Hne. assert (prev = (NormalizeOrgID (pw_OrgID r0), pl_Name p0)) as ->.
    { subst prev. unfold given_up. rewrite (proj2 (String.eqb_neq _ _) Hb). unfold identify. destruct (store_Get _ _) as [found t]. cbn in *. subst found.
      unfold identifyRecord. by rewrite Hp0. }
    cbn [fst snd] in Hreg. assert (plugin_Validate p0 = None) as Hv0 by by eapply decode_valid.
    destruct (String.eqb_spec (pl_Name p0) "") as [He|_]; [by destruct (valid_not_empty _ Hv0)|].
    destruct (String.eqb_spec (pl_Name p) (pl_Name p0)) as [He|_]; [by destruct Hne|]. cbn [negb andb] in Hreg.
    by rewrite Hreg, Remove_lookup, decide_True.
Qed.
Lemma pluginByID_own u id s x s1 : pluginByIDForOrg (ca_OrgID u) id s = (x, s1) →
  unchanged s s1 ∧ ∀ r, x = Ok r → table s !! id = Some r ∧ own_org u (NormalizeOrgID (pw_OrgID r)).
Proof.
  unfold pluginByIDForOrg. destruct (store_Get id (ps_store s)) as [found t] eqn:E. apply Get_law in E as [Hr Hf]. intros [= <- <-]. split; [done|].
  intros r. destruct found as [r0|e]; [|done]. specialize (Hf r0 eq_refl).
  destruct (String.eqb_spec (pw_OrgID r0) "") as [He|He]; cbn [negb andb]; [intros [= ->]; split; [done|]; left; by rewrite He|].
  destruct (String.eqb_spec (NormalizeOrgID (pw_OrgID r0)) (NormalizeOrgID (ca_OrgID u))) as [Hn|]; cbn [negb]; intros [= ->].
  split; [done|by right].
Qed.

(** Of two states: rows and records of foreign organisations are the same. *)
Definition foreign_kept (u : caller) (s s' : state) : Prop :=
  (∀ k r, ¬ own_org u (NormalizeOrgID (pw_OrgID r)) → table s' !! k = Some r ↔ table s !! k = Some r) ∧
  (∀ k rec, ¬ own_org u (pr_OrgID rec) → ps_reg s' !! k = Some rec ↔ ps_reg s !! k = Some rec).

(** The rows are filed by their ids and decode, the registry by its addresses. *)
Definition well_formed (s : state) : Prop := reg_ok (ps_reg s) ∧ rows_decode (table s) ∧ plugin_ids_ok (table s).

Lemma unchanged_ok u s s' : unchanged s s' → well_formed s → well_formed s' ∧ foreign_kept u s s'.
Proof using Type. intros [E1 E2] (H1 & H2 & H3). unfold well_formed, foreign_kept. rewrite E1, E2. by split_and!. Qed.

Lemma Remove_ok org name (r : gmap string PRecord) : reg_ok r → reg_ok (snd (Remove org name r)).
Proof using Type. intros Hr k rec. rewrite Remove_lookup. destruct (decide _); [done|]. apply Hr. Qed.

Lemma identified_own u r0 : is_Some (decode (pw_SpecYAML r0)) → own_org u (NormalizeOrgID (pw_OrgID r0)) →
  own_org u (fst (identifyRecord decode r0)) ∧ no_nul (snd (identifyRecord decode r0)).
Proof using decode_valid. intros [p Hp] Ho. unfold identifyRecord. rewrite Hp. split; [done|]. by eapply valid_name_no_nul, decode_valid. Qed.

(** A row of the caller's organisation is saved over one of it, or as a new one. *)
Lemma adapter_Save_confined now uuid u r s r' s' :
  well_formed s → own_org u (NormalizeOrgID (pw_OrgID r)) →
  (TrimSpace (pw_ID r) = "" → table s !! assigned now uuid (ps_store s) = None ∧ TrimSpace (assigned now uuid (ps_store s)) ≠ "") →
  (∀ r0, TrimSpace (pw_ID r) ≠ "" → table s !! pw_ID r = Some r0 → own_org u (NormalizeOrgID (pw_OrgID r0))) →
  adapter_Save decode now uuid r s = (Ok r', s') → well_formed s' ∧ foreign_kept u s s'.
Proof.
  intros (Hreg & Hrows & Hids) Ho Hfresh Hold H'. apply adapter_Save_spec in H' as (Hm & Hdec & (Ho1 & Hn1 & Hs1 & _) & Hid & Hr).
  assert (TrimSpace (pw_ID r') ≠ "" ∧ ∀ old, table s !! pw_ID r' = Some old → own_org u (NormalizeOrgID (pw_OrgID old))) as [Hne Hown].
  { destruct (String.eqb_spec (TrimSpace (pw_ID r)) "") as [Hb|Hb].
    - destruct (Hfresh Hb) as [Hf Hf']. destruct Hid as [->|(old & Hq & Hqo & _)]; [split; [done|]; intros old Hc; congruence|].
      split; [by apply (Hids _ _ Hq)|]. intros old' Hc. rewrite Hq in Hc. injection Hc as <-. by rewrite Hqo.
    - rewrite Hid. split; [done|]. intros old. by apply Hold. }
  assert (reg_ok (mergeIntoRegistry decode r' (ps_reg s))) as Hmok.
  { unfold mergeIntoRegistry. destruct (decode (pw_SpecYAML r')); [by apply Merge_ok|done]. }
  pose proof (given_up_spec r s) as Hprev. cbn zeta in Hr. split; [split_and!|split].
  - rewrite Hr. destruct (negb _ && _); [by apply Remove_ok|done].
  - rewrite Hm. apply map_Forall_insert_2; [by rewrite Hs1|done].
  - rewrite Hm. by apply map_Forall_insert_2.
  - intros k row Hf. rewrite Hm. destruct (decide (k = pw_ID r')) as [->|Hk]; [|by rewrite lookup_insert_ne]. rewrite lookup_insert_eq. split.
    + intros [= ->]. by rewrite Ho1 in Hf.
    + intros Hrow. by destruct Hf; apply Hown.
  - intros k rec Hf. rewrite Hr.
    assert (mergeIntoRegistry decode r' (ps_reg s) !! k = Some rec ↔ ps_reg s !! k = Some rec) as <- by (apply (merge_foreign u); [done|by rewrite Ho1|done]).
    destruct (negb _ && _); [|done]. destruct Hprev as [->|(Hb & r0 & E0 & ->)]; [by apply (remove_foreign u); [done|left|constructor|done]|].
    destruct (identified_own u r0) as [? ?]; [by eapply Hrows|by apply Hold|]. by apply (remove_foreign u).
Qed.

Lemma saved_confined now uuid u r st s a s' :
  well_formed s → own_org u (NormalizeOrgID (pw_OrgID r)) →
  (TrimSpace (pw_ID r) = "" → table s !! assigned now uuid (ps_store s) = None ∧ TrimSpace (assigned now uuid (ps_store s)) ≠ "") →
  (∀ r0, TrimSpace (pw_ID r) ≠ "" → table s !! pw_ID r = Some r0 → own_org u (NormalizeOrgID (pw_OrgID r0))) →
  saved_reply st (adapter_Save decode now uuid r s) = (a, s') →
  well_formed s' ∧ foreign_kept u s s' ∧ (rp_audited a = false → unchanged s s').
Proof.
  intros Hw Ho Hf Hold. unfold saved_reply. destruct (adapter_Save decode now uuid r s) as [[r'|e] s2] eqn:Es; intros [= <- <-].
  - destruct (adapter_Save_confined _ _ _ _ _ _ _ Hw Ho Hf Hold Es). by split_and!.
  - apply adapter_Save_spec in Es. destruct (unchanged_ok u _ _ Es Hw). by split_and!.
Qed.

Lemma adapter_Delete_confined u id s x s' : well_formed s →
  (∀ r0, table s !! id = Some r0 → own_org u (NormalizeOrgID (pw_OrgID r0))) →
  adapter_Delete decode id s = (x, s') → well_formed s' ∧ foreign_kept u s s' ∧ (is_Some x → unchanged s s').
Proof.
  intros Hw Hold. pose proof Hw as (Hreg & Hrows & Hids). unfold adapter_Delete. destruct (identify decode id s) as [[org name] s1] eqn:Ei.
  apply identify_spec in Ei as [[E1 E2] Hprev]. destruct (store_Delete id (ps_store s1)) as [[e|] t] eqn:Ed; apply Delete_law in Ed; intros [= <- <-].
  - assert (unchanged s (with_store t s1)) as Hu by (split; cbn; congruence). destruct (unchanged_ok u _ _ Hu Hw). by split_and!.
  - rewrite E1 in Ed. unfold well_formed, foreign_kept. cbn [ps_store ps_reg]. rewrite Ed, E2. split_and!; [| | | | |by intros [? ?]].
    + destruct (String.eqb name ""); [done|by apply Remove_ok].
    + by apply map_Forall_delete.
    + by apply map_Forall_delete.
    + intros k row Hf. destruct (decide (k = id)) as [->|Hk]; [|by rewrite lookup_delete_ne]. rewrite lookup_delete_eq. split; [done|].
      intros Hrow. by destruct Hf; apply Hold.
    + intros k rec Hf. destruct (String.eqb_spec name "") as [|Hne]; [done|]. destruct Hprev as [[= -> ->]|(r0 & E0 & Eq)]; [done|].
      destruct (identified_own u r0) as [Ho Hn]; [by eapply Hrows|by apply Hold|]. rewrite <- Eq in Ho, Hn. by apply (remove_foreign u).
Qed.

Lemma requests_confined now uuid u q s s' a : well_formed s →
  table s !! assigned now uuid (ps_store s) = None → TrimSpace (assigned now uuid (ps_store s)) ≠ "" →
  handle_plugin decode now uuid u q s = (a, s') →
  well_formed s' ∧ foreign_kept u s s' ∧ (rp_audited a = false → unchanged s s').
Proof.
  intros Hw Hfresh Hne. assert (∀ s1, unchanged s s1 → well_formed s1 ∧ foreign_kept u s s1 ∧ unchanged s s1) as Hsame.
  { intros s1 Hu. destruct (unchanged_ok u _ _ Hu Hw). by split_and!. }
  unfold handle_plugin. destruct (is_admin u); cbn [negb]; [|intros [= <- <-]; by destruct (Hsame s) as (? & ? & ?)].
  destruct q as [name spec en|id spec en|id].
  - unfold createEvalPlugin. destruct (decodes_spec decode spec); cbn [negb]; [|intros [= <- <-]; by destruct (Hsame s) as (? & ? & ?)].
    apply saved_confined; [done| |done|].
    + cbn. right. by rewrite Normalize_idem.
    + intros r0 Hb. by destruct Hb.
  - unfold patchEvalPlugin. destruct (pluginByIDForOrg (ca_OrgID u) id s) as [x s1] eqn:Eb. apply pluginByID_own in Eb as [Hu Hr].
    destruct (Hsame s1 Hu) as (Hw1 & _ & _). destruct x as [r|[|e]]; [|intros [= <- <-]; by destruct (Hsame s1) as (? & ? & ?)..].
    destruct (Hr r eq_refl) as [Hg Ho]. pose proof Hw as (_ & _ & Hids). destruct (Hids _ _ Hg) as [Hid Hb].
    destruct (patch_spec decode spec r) as [r1|] eqn:Ep; [|intros [= <- <-]; by destruct (Hsame s1) as (? & ? & ?)].
    assert (pw_ID r1 = id ∧ pw_OrgID r1 = pw_OrgID r) as [Hid1 Ho1].
    { destruct spec as [sp|]; cbn in Ep; [|by injection Ep as <-]. destruct (decode sp); [|done]. by injection Ep as <-. }
    destruct Hu as [Hut Hur]. intros H'. apply (saved_confined now uuid u) in H' as (H1 & [H2 H3] & H4).
    + split_and!; [done| |]; [split; [intros k row Hf; by rewrite <- Hut; apply H2|intros k rec Hf; by rewrite <- Hur; apply H3]|].
      intros Ha. eapply unchanged_trans; [|by apply H4]. done.
    + done.
    + cbn. by rewrite Ho1.
    + cbn. rewrite Hid1. by intros.
    + cbn. rewrite Hid1, Hut. intros r0 _ H0. rewrite Hg in H0. by injection H0 as <-.
  - unfold deleteEvalPlugin. destruct (pluginByIDForOrg (ca_OrgID u) id s) as [x s1] eqn:Eb. apply pluginByID_own in Eb as [Hu Hr].
    destruct (Hsame s1 Hu) as (Hw1 & _ & _). destruct x as [r|e]; [|intros [= <- <-]; by destruct (Hsame s1) as (? & ? & ?)].
    destruct (Hr r eq_refl) as [Hg Ho]. destruct Hu as [Hut Hur]. destruct (adapter_Delete decode id s1) as [x2 s2] eqn:Ed.
    apply (adapter_Delete_confined u) in Ed as (H1 & [H2 H3] & H4); [|done|by intros r0; rewrite Hut, Hg; intros [= <-]].
    assert (foreign_kept u s s2) by (split; [intros k row Hf; by rewrite <- Hut; apply H2|intros k rec Hf; by rewrite <- Hur; apply H3]).
    destruct x2; intros [= <- <-]; split_and!; try done. intros _. eapply unchanged_trans; [|by apply H4]. done.
Qed.
End AnyStore.

(** [C29] No request on plugins reaches a foreign organisation.  Over the table behind
    any database answers, an administrator of one organisation who creates, patches or
    deletes, whatever the id, the name and the manifest, leaves the rows and the live
    records of the others as they were, and a request that is not audited (refused, or
    failed at any statement) changes no row and no live record.  The table and the
    registry stay well formed. *)
Theorem plugin_requests_confined (now : Time) (uuid : string) (u : caller) (q : plugin_request) (s s' : plugin_state PluginTable) (a : reply) :
  well_formed s → pt_rows (ps_store s) !! uuid = None → TrimSpace uuid ≠ "" →
  handle_plugin decode now uuid u q s = (a, s') →
  well_formed s' ∧ foreign_kept u s s' ∧ (rp_audited a = false → unchanged s s') ∧ (is_admin u = false → s' = s).
Proof.
  intros Hw Hf Hne H. destruct (requests_confined now uuid u q s s' a Hw Hf Hne H) as (? & ? & ?). split_and!; try done.
  intros Ha. unfold handle_plugin in H. rewrite Ha in H. by injection H as _ <-.
Qed.

(** A manifest pasted again under the name of a row takes the row over, but when it
    names its plugin otherwise the plugin of the old manifest stays live, with no row
    behind it: the name it had is looked up only for records that come with an id. *)
Theorem replaced_manifest_stays_live (now : Time) (uuid : string) (u : caller) (name spec id : string) (en : bool) (p : Plugin) (key : string) (rec : PRecord) (s s' : plugin_state PluginTable) :
  is_admin u = true → decode spec = Some p → pt_answers (ps_store s) = [] →
  id_of (NormalizeOrgID (ca_OrgID u)) name (ps_store s) = Some id →
  ps_reg s !! key = Some rec → key ≠ recordKey (NormalizeOrgID (ca_OrgID u)) (pl_Name p) →
  handle_plugin decode now uuid u (PCreate name spec en) s = (mkReply 201 true, s') →
  dom (pt_rows (ps_store s')) = dom (pt_rows (ps_store s)) ∧ (pw_SpecYAML <$> pt_rows (ps_store s') !! id) = Some spec ∧
  ps_reg s' !! key = Some rec.
Proof.
  intros Ha Hp Hans Hid Hkey Hne. unfold handle_plugin, createEvalPlugin, decodes_spec. rewrite Ha, Hp. cbn [negb].
  set (r := mkRow "" _ _ _ _ _ _). unfold saved_reply. destruct (adapter_Save decode now uuid r s) as [[r'|e] s1] eqn:Es; [|done]. intros [= <-].
  assert (pw_ID r' = id) as Hi.
  { revert Es. unfold adapter_Save. cbn [pw_ID r store_Save PostgresStore]. change (String.eqb (TrimSpace "") "") with true. cbv iota.
    destruct (table_Save _ _ _ _ _) as [[r1|e] t] eqn:Et; [|done]. intros [= <- _]. revert Et. unfold table_Save. cbn [pw_ID r].
    repeat (destruct (String.eqb _ ""); [done|]). destruct (negb _); [done|].
    change (String.eqb (TrimSpace "") "") with true. cbv iota. unfold statement. rewrite Hans. cbn [pw_OrgID pw_Name r]. rewrite Hid. cbn [default].
    intros H. by apply table_upsert_rows in H as (_ & ? & _). }
  apply adapter_Save_spec in Es as (Hm & _ & (Ho & Hn & Hs & _) & _ & Hr). cbn in Hm, Ho, Hs. cbn zeta in Hr.
  change (given_up r s) with ("", "") in Hr. cbn [fst snd] in Hr. change (String.eqb "" "") with true in Hr. cbn [negb andb] in Hr.
  apply id_of_some in Hid as (old' & Hold & _). pose proof (decode_valid _ _ Hp) as Hv. split_and!.
  - rewrite Hm, dom_insert_L, Hi. apply elem_of_dom_2 in Hold. set_solver.
  - rewrite Hm, Hi, lookup_insert_eq. cbn. by rewrite Hs.
  - rewrite Hr. unfold mergeIntoRegistry. rewrite Hs, Hp, Ho, Merge_one by done. unfold rec_name. cbn [pr_OrgID pr_Plugin r pw_OrgID].
    rewrite Normalize_idem. destruct (ps_reg s !! recordKey _ _); [destruct (decide _); [done|]|]; by rewrite lookup_insert_ne by congruence.
Qed.

(** Deleting a row takes the Helm-installed plugin of the same name with it: an
    administrator of the default organisation adds a row under the name of a
    cluster-wide Helm plugin, which leaves the live plugin as it was, and deleting
    that row evicts the Helm plugin from the registry.  (The database answers, and no
    row of the organisation has the name yet.) *)
Theorem shadowed_row_evicts_helm (now : Time) (uuid : string) (u : caller) (spec : string) (en : bool) (p : Plugin) (ex : PRecord) (s : plugin_state PluginTable) :
  is_admin u = true → NormalizeOrgID (ca_OrgID u) = "" → decode spec = Some p → TrimSpace spec ≠ "" →
  pt_answers (ps_store s) = [] → id_of "" (pl_Name p) (ps_store s) = None → name_taken uuid "" (pl_Name p) (ps_store s) = false →
  let key := recordKey "" (pl_Name p) in
  ps_reg s !! key = Some ex → pr_Source ex = SourceHelm →
  let created := handle_plugin decode now uuid u (PCreate (pl_Name p) spec en) s in
  let deleted := handle_plugin decode now uuid u (PDelete uuid) (snd created) in
  rp_status (fst created) = 201 ∧ ps_reg (snd created) = ps_reg s ∧ rp_status (fst deleted) = 200 ∧ ps_reg (snd deleted) = delete key (ps_reg s).
Proof.
  intros Ha Ho Hp Hsp Hans Hid Htaken key Hex Hhelm created deleted. pose proof (decode_valid _ _ Hp) as Hv.
  assert (TrimSpace (pl_Name p) ≠ "") as Hn.
  { intros He. unfold plugin_Validate in Hv. destruct (String.eqb _ ""); [done|]. destruct (negb (one_of _ (pl_APIVersion p))); [done|].
    destruct (negb _); [done|]. by rewrite He in Hv. }
  destruct s as [[t0 ans] reg]. cbn in Hans, Hex, Hid, Htaken. subst ans.
  assert (∃ row, created = (mkReply 201 true, mkPluginState (mkTable (<[uuid := row]> t0) []) reg) ∧
     pw_OrgID row = "" ∧ pw_SpecYAML row = spec) as (row & Hc & Horow & Hsrow).
  { unfold created, handle_plugin. rewrite Ha. cbn [negb]. unfold createEvalPlugin, decodes_spec. rewrite Hp. cbn [negb].
    unfold adapter_Save. cbn [pw_ID store_Save PostgresStore ps_store]. change (String.eqb (TrimSpace "") "") with true. cbv iota.
    unfold table_Save. cbn [pw_ID pw_Name pw_SpecYAML]. rewrite (proj2 (String.eqb_neq _ _) Hn), (proj2 (String.eqb_neq _ _) Hsp).
    unfold decodes_spec. rewrite Hp. change (String.eqb (TrimSpace "") "") with true. cbn [negb statement pt_answers pw_OrgID pw_Name ps_store]. rewrite Ho, Hid. cbn [default].
    unfold table_upsert. cbn [statement pt_answers pw_OrgID pw_Name]. rewrite Htaken. cbn [pt_rows pt_answers saved_reply ps_reg snd fst].
    change (String.eqb "" "") with true. cbn [negb andb].
    unfold mergeIntoRegistry. cbn [pw_SpecYAML pw_OrgID pw_ID pw_Enabled]. rewrite Hp, Merge_one by done. unfold rec_name. cbn [pr_OrgID pr_Plugin].
    change (NormalizeOrgID "") with "". fold key. rewrite Hex, decide_True by done. eexists. split; [reflexivity|done]. }
  unfold deleted. rewrite Hc. cbn [fst snd rp_status ps_reg].
  unfold handle_plugin. rewrite Ha. cbn [negb]. unfold deleteEvalPlugin, pluginByIDForOrg. cbn [store_Get PostgresStore ps_store].
  unfold table_Get. cbn [statement pt_answers pt_rows]. rewrite lookup_insert_eq, Horow. change (String.eqb "" "") with true. cbn [negb andb].
  unfold adapter_Delete, identify. cbn [store_Get PostgresStore ps_store with_store]. unfold table_Get. cbn [statement pt_answers pt_rows].
  rewrite lookup_insert_eq. unfold identifyRecord. rewrite Horow, Hsrow, Hp. cbn [store_Delete PostgresStore ps_store with_store]. unfold table_Delete.
  cbn [statement pt_answers pt_rows ps_store with_store]. change (NormalizeOrgID "") with "".
  destruct (String.eqb_spec (pl_Name p) "") as [He|_]; [by destruct (valid_not_empty _ Hv)|].
  cbn [ps_reg with_store snd fst]. unfold Remove. fold key. rewrite Hex. by split_and!.
Qed.
End PluginRequests.

(** ** Plugin keys *)

Lemma option_decide_same {A} (P Q : Prop) `{Decision P, Decision Q} (x y : A) : (P ↔ Q) → (if decide P then x else y) = (if decide Q then x else y).
Proof. intros HPQ. destruct (decide P), (decide Q); naive_solver. Qed.

(** What a replica answers for a plugin: its cache, else the table. *)
Definition stored_keys (plugin : string) (c : key_cache) (v : vault) : keymap := default (LoadEvalPluginKeys plugin v) (keys_cached plugin c).

Lemma keys_cached_some plugin c kv : keys_cached plugin c = Some kv → kv ≠ ∅.
Proof. unfold keys_cached. destruct (c !! plugin) as [kv'|]; [|done]. destruct (decide (kv' = ∅)); [done|]. by intros [= <-]. Qed.

Lemma missing_spec kv keys :
  (List.filter (fun k => match key_value kv k with None => true | Some _ => false end) keys = [] ↔ Forall (fun k => is_Some (key_value kv k)) keys).
Proof.
  induction keys as [|k keys IH]; cbn; [by split; [constructor|]|]. rewrite Forall_cons, <- IH. destruct (key_value kv k); [naive_solver|].
  split; [done|]. by intros [[? ?] _].
Qed.

Lemma all_present kv keys vals :
  Forall2 (fun k x => key_value kv k = Some x) keys vals ↔ Forall (fun k => is_Some (key_value kv k)) keys ∧ omap (key_value kv) keys = vals.
Proof.
  revert vals. induction keys as [|k keys IH]; intros vals; split.
  - intros H. by apply Forall2_nil_inv_l in H as ->.
  - intros [_ <-]. constructor.
  - intros (x & vals' & Hk & Hf & ->)%Forall2_cons_inv_l. apply IH in Hf as [Hf <-]. cbn. rewrite Hk. split; [|done].
    by constructor; [rewrite Hk|].
  - intros [Hk <-]. apply Forall_cons in Hk as [[x Hk] Hf]. cbn. rewrite Hk. constructor; [done|]. by apply IH.
Qed.

Lemma resolve_ok (plugin keyRef inline : string) (c : key_cache) (v : vault) (vals : list string) :
  plugin ≠ "" →
  fst (Resolve true (mkAuth plugin keyRef inline) c v) = Ok vals ↔
  splitKeyRef keyRef ≠ [] ∧ Forall2 (fun k x => key_value (stored_keys plugin c v) k = Some x) (splitKeyRef keyRef) vals.
Proof.
  intros Hp. unfold Resolve. cbn [au_SecretRef au_KeyRef]. rewrite (proj2 (String.eqb_neq _ _) Hp). cbn [andb].
  destruct (splitKeyRef keyRef) as [|k0 ks] eqn:Ek; [cbn; naive_solver|]. set (keys := k0 :: ks).
  assert (∃ c', (match keys_cached plugin c with Some kv => (Some kv, c) | None => loadFromVault true plugin c v end) = (Some (stored_keys plugin c v), c')) as [c' ->].
  { unfold stored_keys, loadFromVault. cbn [negb]. destruct (keys_cached plugin c); cbn; [by eexists|]. destruct (decide _) as [->|]; by eexists. }
  set (kv := stored_keys plugin c v). rewrite all_present, <- missing_spec.
  set (missing := List.filter _ keys). destruct (decide (kv = ∅)) as [He|He].
  - cbn. split; [done|]. intros (_ & Hm & _). unfold missing, keys in Hm. cbn in Hm. rewrite He in Hm. unfold key_value in Hm. by rewrite lookup_empty in Hm.
  - pose proof (sort_Strings_perm missing) as Hperm. destruct (sort_Strings missing) as [|x l] eqn:Es.
    + apply Permutation_nil_l in Hperm. cbn [fst]. rewrite <- Hperm. split; [intros [= <-]; by split_and!|by intros (_ & _ & <-)].
    + cbn [fst]. split; [done|]. intros (_ & Hm & _). rewrite Hm in Hperm. by apply Permutation_nil_r in Hperm.
Qed.

(** The credentials of a manifest are the values of the names its key reference
    lists, in that order, and there are any exactly when every name has a value that
    is not empty. *)
Theorem resolve_exact (plugin keyRef inline : string) (c : key_cache) (v : vault) (vals : list string) :
  plugin ≠ "" →
  fst (Resolve true (mkAuth plugin keyRef inline) c v) = Ok vals ↔
  splitKeyRef keyRef ≠ [] ∧ Forall2 (fun k x => key_value (stored_keys plugin c v) k = Some x) (splitKeyRef keyRef) vals.
Proof. apply resolve_ok. Qed.

Lemma named_set kv : kv !! "" = None → named_keys (set_values kv) = set_values kv.
Proof.
  intros Hb. apply map_filter_id. intros k x Hx. apply map_lookup_filter_Some in Hx as [Hk Hx].
  split; [|exact Hx]. intros ->. congruence.
Qed.

Lemma load_save plugin q kv v :
  LoadEvalPluginKeys q (SaveEvalPluginKeys plugin kv v) = if decide (q = plugin) then named_keys kv else LoadEvalPluginKeys q v.
Proof.
  unfold LoadEvalPluginKeys, SaveEvalPluginKeys. destruct (decide (named_keys kv = ∅)) as [He|He], (decide (q = plugin)) as [->|Hq].
  - by rewrite lookup_delete_eq, He.
  - by rewrite lookup_delete_ne.
  - by rewrite lookup_insert_eq.
  - by rewrite lookup_insert_ne.
Qed.

Lemma hydrate_fold (v : vault) (q : string) (l : list string) (c : key_cache) :
  foldl (fun (c : key_cache) name => let kv := LoadEvalPluginKeys name v in if decide (kv = ∅) then c else <[name := kv]> c) c l !! q =
  if decide (q ∈ l ∧ LoadEvalPluginKeys q v ≠ ∅) then Some (LoadEvalPluginKeys q v) else c !! q.
Proof.
  revert c. induction l as [|n l IH]; intros c; cbn [foldl].
  - rewrite decide_False; [done|]. intros [H _]. by apply not_elem_of_nil in H.
  - rewrite IH. cbv zeta. destruct (decide (LoadEvalPluginKeys n v = ∅)) as [He|He].
    + apply option_decide_same. set_solver.
    + destruct (decide (q = n)) as [->|Hq].
      * rewrite (decide_True (P := n ∈ n :: l ∧ _)) by (split; [by left|done]). destruct (decide _); [done|by rewrite lookup_insert_eq].
      * rewrite lookup_insert_ne by done. apply option_decide_same. set_solver.
Qed.

(** Keys pasted on one replica are the keys of all that have not cached others: on
    the replica itself, on any replica with nothing in its cache and on one that
    starts later; the keys of other plugins stay as they were. *)
Theorem pasted_keys_reach_replicas (plugin : string) (kv : keymap) (c c' c2 : key_cache) (v v' : vault) :
  plugin ≠ "" → kv !! "" = None → keys_Set true plugin kv c v = (true, c', v') → keys_cached plugin c2 = None →
  stored_keys plugin c' v' = set_values kv ∧ stored_keys plugin c2 v' = set_values kv ∧ stored_keys plugin (Hydrate v' ∅) ∅ = set_values kv ∧
  ∀ q, q ≠ plugin → LoadEvalPluginKeys q v' = LoadEvalPluginKeys q v ∧ keys_cached q c' = keys_cached q c.
Proof.
  intros Hpl Hb. unfold keys_Set. rewrite (proj2 (String.eqb_neq _ _) Hpl). intros [= <- <-] Hc2. unfold stored_keys. rewrite Hc2. cbn [default]. rewrite load_save, decide_True, (named_set kv Hb) by done.
  assert (∀ q, LoadEvalPluginKeys q (SaveEvalPluginKeys plugin (set_values kv) v) = if decide (q = plugin) then set_values kv else LoadEvalPluginKeys q v) as Hl.
  { intros q. by rewrite load_save, (named_set kv Hb). }
  split_and!.
  - unfold keys_cached. destruct (decide (set_values kv = ∅)) as [He|He]; [by rewrite lookup_delete_eq, He|]. by rewrite lookup_insert_eq, decide_False.
  - done.
  - unfold Hydrate, keys_cached. rewrite hydrate_fold, Hl, (decide_True (P := plugin = plugin)) by done.
    destruct (decide (_ ∧ _)) as [[_ Hne]|Hn].
    + by rewrite decide_False.
    + rewrite lookup_empty. cbn. unfold LoadEvalPluginKeys. rewrite lookup_empty. cbn. destruct (decide (set_values kv = ∅)) as [->|Hne]; [done|].
      destruct Hn. split; [|done]. rewrite sort_Strings_perm. apply list_elem_of_fmap. exists (plugin, set_values kv). split; [done|].
      apply elem_of_map_to_list. unfold SaveEvalPluginKeys. rewrite (named_set kv Hb), decide_False by done. by rewrite lookup_insert_eq.
  - intros q Hq. rewrite Hl, decide_False by done. split; [done|]. unfold keys_cached.
    destruct (decide (set_values kv = ∅)); [by rewrite lookup_delete_ne|by rewrite lookup_insert_ne].
Qed.

Inductive key_op := KSet (kv : keymap) | KClear.

(** Requests another replica serves, on its own cache and the shared table. *)
Definition other_replica (plugin : string) (st : key_cache * vault) (o : bool * key_op) : key_cache * vault :=
  let '(c, v) := st in
  match snd o with
  | KSet kv => let '(_, c', v') := keys_Set (fst o) plugin kv c v in (c', v')
  | KClear => let '(_, c', v') := keys_Clear (fst o) plugin c v in (c', v')
  end.

(** A replica never learns that keys were rotated or cleared elsewhere: once it
    has a plugin's keys in its cache it goes on resolving them, through any requests
    other replicas serve and whatever the table then holds. *)
Theorem cached_keys_outlive_clear (plugin keyRef inline : string) (kv : keymap) (c cA : key_cache) (v : vault)
    (ops : list (bool * key_op)) (db : bool) :
  keys_cached plugin c = Some kv →
  let v' := snd (foldl (other_replica plugin) (cA, v) ops) in
  Resolve db (mkAuth plugin keyRef inline) c v' = Resolve true (mkAuth plugin keyRef inline) c v ∧
  keys_Get db plugin c v' = (Some kv, c).
Proof. intros Hc v'. unfold Resolve, keys_Get. cbn [au_SecretRef au_KeyRef]. by rewrite Hc. Qed.

(** [C39] The panel of keys does not know whose a live plugin is: an administrator of any
    organisation replaces and clears the keys of a plugin that another organisation
    installed, where [LookupForOrg] would not even show it, whatever store is behind. *)
Theorem foreign_admin_writes_keys {S : Type} {ops : PluginStore S} (decode : string → option Plugin) (pluginToYAML : Plugin → string) (u : caller) (name : string)
    (rec : PRecord) (kv : keymap) (s : key_state S) :
  name ≠ "" → Lookup name (ps_reg (kst_plugins s)) = Some rec → pr_OrgID rec ≠ "" → pr_OrgID rec ≠ ca_OrgID u → kv ≠ ∅ →
  (∃ s', putPluginKeys decode pluginToYAML true u name (Some kv) s = (mkReply 200 true, s') ∧
         LoadEvalPluginKeys name (kst_vault s') = named_keys (set_values kv)) ∧
  (∃ s', deletePluginKeys pluginToYAML true u name s = (mkReply 200 true, s') ∧ LoadEvalPluginKeys name (kst_vault s') = ∅).
Proof.
  intros Hn Hl Ho Hne Hkv.
  assert (∃ row, lookupPluginForOrg pluginToYAML (ca_OrgID u) name (kst_plugins s) = (Some row, kst_plugins s)) as [row Hrow].
  { unfold lookupPluginForOrg, adapter_Lookup. rewrite Hl. by eexists. }
  unfold putPluginKeys, deletePluginKeys. unfold keys_Set.
  rewrite Hrow, bool_decide_false, andb_false_r, (proj2 (String.eqb_neq _ _) Hn) by done. split; cbn; eexists; (split; [reflexivity|]); cbn.
  - by rewrite load_save, decide_True.
  - unfold LoadEvalPluginKeys, DeleteEvalPluginKeys. by rewrite lookup_delete_eq.
Qed.

(** Whoever may write a manifest may spend any plugin's keys: the credentials
    handed to an adapter are looked up under the name [secretRef] gives, so a manifest
    of one organisation that names another's plugin sends that plugin's keys to its
    own endpoint. *)
Theorem secret_ref_reaches_any_keys (adapters : list string) (execute : string → Trace → option string) (c : key_cache) (v : vault)
    (t : Trace) (p : Plugin) (tg : Target) (payload : gmap string payload_value) (victim : string) :
  let resolver := fun a => match fst (Resolve true a c v) with Ok vals => Some vals | Err _ => None end in
  au_SecretRef (ss_Auth (pl_Service p)) = victim → victim ≠ "" →
  Dispatch adapters execute (Some resolver) t p = Some (tg, payload) →
  tg_Endpoint tg = ss_Endpoint (pl_Service p) ∧
  Forall2 (fun k x => key_value (stored_keys victim c v) k = Some x) (splitKeyRef (au_KeyRef (ss_Auth (pl_Service p)))) (tg_Auth tg).
Proof.
  intros resolver Hs Hv H. unfold Dispatch in H. destruct (negb _); [done|]. destruct (renderPayload _ _ _); [|done].
  destruct (resolveAuth _ p) as [creds|] eqn:Er; [|done]. injection H as <- _. cbn. split; [done|].
  unfold resolveAuth, resolver in Er. rewrite Hs, (proj2 (String.eqb_neq _ _) Hv) in Er. cbn [andb] in Er.
  destruct (ss_Auth (pl_Service p)) as [sr kr ik]. cbn in *. subst sr.
  destruct (fst (Resolve true (mkAuth victim kr ik) c v)) as [vals|] eqn:Ev; [|done]. injection Er as <-. 
  apply resolve_ok in Ev; [|done]. by destruct Ev.
Qed.

(** ** Witnesses *)

Definition toy_admin (org : string) : caller := mkCaller "root" org "admin".
Definition toy_member : caller := mkCaller "u1" "acme" "member".
Definition toy_row_profile (org scope owner : string) : EvalProfile :=
  mkProfile "p1" org "mine" ProfileSLMJudge scope owner (mkEndpoint "https://judge.acme.example" "m" KeySourceOrg "") [] fzero fone true 1 1.
Definition toy_profiles : ProfileMem := mkProfileMem {["p1" := toy_row_profile "acme" ProfileScopeUser "u1"]} 0.
Definition toy_hosts (url : string) : bool := String.eqb url "https://judge.acme.example".

Lemma profile_writes_confined_witness :
  let res := handle_profile toy_hosts false 5 toy_member (ReqDelete "p1") toy_profiles in
  rp_audited (fst res) = true ∧
  ((rp_audited (fst res) = false ∧ snd res = toy_profiles) ∨
   (rp_audited (fst res) = true ∧ ∃ id old new, only_row id old new toy_profiles (snd res) ∧
    match old, new with
    | None, Some p' => is_admin toy_member = true ∧ ep_OrgID p' = ca_OrgID toy_member
    | Some p, Some p' => VisibleToOrg p (ca_OrgID toy_member) = true ∧ profileCallerCanWrite p toy_member = true ∧ ep_OrgID p' = ep_OrgID p
    | Some p, None => VisibleToOrg p (ca_OrgID toy_member) = true ∧ profileCallerCanWrite p toy_member = true
    | None, None => False
    end ∧ ∀ p', new = Some p' → checkProfileEndpoint toy_hosts p' = true ∧ profile_Validate p' = None)).
Proof.
  split; [vm_compute; reflexivity|].
  apply (profile_writes_confined toy_hosts false 5 toy_member (ReqDelete "p1") toy_profiles).
  - apply map_Forall_singleton. split; [reflexivity|vm_compute; discriminate].
  - vm_compute. reflexivity.
  - apply surjective_pairing.
Defined.

Lemma default_org_profiles_are_shared_witness :
  let res := handle_profile toy_hosts false 5 (toy_admin "default") (ReqCreate (toy_row_profile "acme" ProfileScopeOrg "")) toy_profiles in
  let id := new_profile_id 5 toy_profiles in
  ∃ p, pm_profiles (snd res) !! id = Some p ∧ (∀ org, VisibleToOrg p org = true) ∧
       handle_profile toy_hosts false 6 (toy_admin "acme") (ReqDelete id) (snd res) = (mkReply 200 true, profiles_Delete id (snd res)) ∧
       ∀ patch, handle_profile toy_hosts false 6 (toy_admin "acme") (ReqPatch id patch) (snd res) =
                save_checked toy_hosts false 6 (applyProfilePatch p patch) 200 (snd res).
Proof.
  apply (default_org_profiles_are_shared toy_hosts false 5 6 (toy_admin "default") (toy_admin "acme") (toy_row_profile "acme" ProfileScopeOrg "") toy_profiles
    (snd (handle_profile toy_hosts false 5 (toy_admin "default") (ReqCreate (toy_row_profile "acme" ProfileScopeOrg "")) toy_profiles))
    (fst (handle_profile toy_hosts false 5 (toy_admin "default") (ReqCreate (toy_row_profile "acme" ProfileScopeOrg "")) toy_profiles)));
    [reflexivity..|apply surjective_pairing|vm_compute; reflexivity].
Defined.

Lemma member_publishes_profile_witness :
  let patch := mkProfilePatch None None (Some ProfileScopeOrg) None None None None None None in
  let p := toy_row_profile "acme" ProfileScopeUser "u1" in
  ∃ p' m', handle_profile toy_hosts false 5 toy_member (ReqPatch "p1" patch) toy_profiles = (mkReply 200 true, m') ∧ pm_profiles m' !! "p1" = Some p' ∧
           ep_Scope p' = ProfileScopeOrg ∧ ep_OrgID p' = ep_OrgID p ∧ ep_Endpoint p' = ep_Endpoint p ∧ ep_Enabled p' = ep_Enabled p ∧
           ∀ patch', handle_profile toy_hosts false 5 toy_member (ReqPatch "p1" patch') m' = (mkReply 403 false, m').
Proof.
  apply (member_publishes_profile toy_hosts false 5 toy_member "p1" (toy_row_profile "acme" ProfileScopeUser "u1") toy_profiles);
    [reflexivity|vm_compute; discriminate|vm_compute; reflexivity..].
Defined.

Lemma listed_profiles_exact_witness :
  toy_row_profile "acme" ProfileScopeUser "u1" ∈ listEvalProfiles toy_member toy_profiles.
Proof.
  apply (listed_profiles_exact toy_member toy_profiles); [discriminate|discriminate|]. split; [|split; reflexivity].
  exists "p1". vm_compute. reflexivity.
Defined.

Definition toy_plugin_row : PluginRecord := mkRow "plg_1" "beta" "vendor" "good" false 1 1.
Definition toy_plugins : plugin_state PluginTable := mkPluginState (mkTable {["plg_1" := toy_plugin_row]} []) toy_stored.

Lemma toy_plugins_ok : well_formed toy_decode toy_plugins.
Proof.
  split_and!; [apply Merge_ok, toy_reg_ok|apply map_Forall_singleton; by eexists|].
  apply map_Forall_singleton. split; [reflexivity|vm_compute; discriminate].
Qed.

Lemma plugin_save_live_witness :
  let res := adapter_Save toy_decode 5 "u-1" toy_plugin_row toy_plugins in
  ps_reg (snd res) !! recordKey "beta" "vendor" =
  Some (mkRecord (toy_plugin "https://store.example" TriggerOnTrace) SourceDatabase "plg_1" false "beta").
Proof.
  cbv zeta. set (res := adapter_Save toy_decode 5 "u-1" toy_plugin_row toy_plugins).
  destruct (plugin_save_live toy_decode toy_decode_valid 5 "u-1" toy_plugin_row (mkRow "plg_1" "beta" "vendor" "good" false 1 5)
    (toy_plugin "https://store.example" TriggerOnTrace) toy_plugins (snd res)) as (_ & _ & Hk & _).
  - apply toy_plugins_ok.
  - vm_compute. reflexivity.
  - reflexivity.
  - etransitivity; [exact Hk|]. vm_compute. reflexivity.
Defined.

(** The first statement fails, so the second replica's request is answered 500. *)
Definition toy_shaky : plugin_state PluginTable := mkPluginState (mkTable {["plg_1" := toy_plugin_row]} [DbOk; DbBreaksOff; DbFails]) toy_stored.

Lemma plugin_requests_confined_witness :
  let res := handle_plugin toy_decode 5 "u-1" (toy_admin "beta") (PPatch "plg_1" None (Some true)) toy_shaky in
  fst res = mkReply 500 false ∧
  well_formed toy_decode (snd res) ∧ foreign_kept (toy_admin "beta") toy_shaky (snd res) ∧ (rp_audited (fst res) = false → unchanged toy_shaky (snd res)) ∧
  (is_admin (toy_admin "beta") = false → snd res = toy_shaky).
Proof.
  split; [vm_compute; reflexivity|].
  apply (plugin_requests_confined toy_decode toy_decode_valid 5 "u-1" (toy_admin "beta") (PPatch "plg_1" None (Some true)) toy_shaky);
    [apply toy_plugins_ok|vm_compute; reflexivity|vm_compute; discriminate|apply surjective_pairing].
Defined.

(** Installing a name again takes over its row, only within the organisation. *)
Example reinstall_adopts :
  map fst (map_to_list (pt_rows (ps_store (snd (handle_plugin toy_decode 5 "u-1" (toy_admin "beta") (PCreate "vendor" "good" true) toy_plugins))))) = ["plg_1"] ∧
  length (map_to_list (pt_rows (ps_store (snd (handle_plugin toy_decode 5 "u-1" (toy_admin "acme") (PCreate "vendor" "good" true) toy_plugins))))) = 2%nat.
Proof. split; vm_compute; reflexivity. Qed.

Definition toy_renamed : string → option Plugin :=
  fun s => if String.eqb s "other" then Some (mkPlugin PluginAPIVersion pluginKindExpected "newname" (pl_Service (toy_plugin "https://x.example" TriggerOnTrace))
    (pl_Send (toy_plugin "https://x.example" TriggerOnTrace)) (pl_Collect (toy_plugin "https://x.example" TriggerOnTrace)) 0 []) else toy_decode s.

Lemma toy_renamed_valid s p : toy_renamed s = Some p → plugin_Validate p = None.
Proof. unfold toy_renamed. destruct (String.eqb s "other"); [intros [= <-]; vm_compute; reflexivity|apply toy_decode_valid]. Qed.

Lemma replaced_manifest_stays_live_witness :
  let s0 := snd (handle_plugin toy_renamed 4 "u-0" (toy_admin "beta") (PPatch "plg_1" None (Some true)) toy_plugins) in
  let s1 := snd (handle_plugin toy_renamed 5 "u-1" (toy_admin "beta") (PCreate "vendor" "other" true) s0) in
  (pr_Ref <$> ps_reg s1 !! recordKey "beta" "vendor") = Some "plg_1" ∧ dom (pt_rows (ps_store s1)) = dom (pt_rows (ps_store s0)) ∧
  (pw_SpecYAML <$> pt_rows (ps_store s1) !! "plg_1") = Some "other".
Proof.
  cbv zeta. set (s0 := snd (handle_plugin toy_renamed 4 _ _ _ _)). set (s1 := snd (handle_plugin toy_renamed 5 _ _ _ s0)).
  assert (∃ rec, ps_reg s0 !! recordKey "beta" "vendor" = Some rec ∧ pr_Ref rec = "plg_1") as (rec & Hrec & Href) by (eexists; split; vm_compute; reflexivity).
  destruct (replaced_manifest_stays_live toy_renamed toy_renamed_valid 5 "u-1" (toy_admin "beta") "vendor" "other" "plg_1" true
    _ (recordKey "beta" "vendor") rec s0 s1 eq_refl eq_refl) as (H1 & H2 & H3);
    [vm_compute; reflexivity|vm_compute; reflexivity|exact Hrec|vm_compute; discriminate|vm_compute; reflexivity|].
  split_and!; [rewrite H3; cbn; by rewrite Href|exact H1|exact H2].
Defined.

Lemma shadowed_row_evicts_helm_witness :
  let created := handle_plugin toy_decode 5 "u-1" (toy_admin "default") (PCreate "vendor" "good" true) toy_plugins in
  let deleted := handle_plugin toy_decode 5 "u-1" (toy_admin "default") (PDelete "u-1") (snd created) in
  ps_reg (snd deleted) = delete (recordKey "" "vendor") (ps_reg toy_plugins).
Proof.
  apply (shadowed_row_evicts_helm toy_decode toy_decode_valid 5 "u-1" (toy_admin "default") "good" true (toy_plugin "https://store.example" TriggerOnTrace)
    (toy_rec "" "https://all.example" TriggerOnTrace SourceHelm) toy_plugins);
    [reflexivity..|vm_compute; discriminate|reflexivity|vm_compute; reflexivity|vm_compute; reflexivity|vm_compute; reflexivity|reflexivity].
Defined.

Definition toy_kv : keymap := {["public_key" := "pk-1"; "secret_key" := "sk-1"; "spare" := ""]}.
Definition toy_vault : vault := {["langfuse" := {["public_key" := "pk-1"; "secret_key" := "sk-1"]}]}.

Lemma resolve_exact_witness :
  fst (Resolve true (mkAuth "langfuse" "secret_key | public_key" "") ∅ toy_vault) = Ok ["sk-1"; "pk-1"].
Proof.
  apply (resolve_exact "langfuse" "secret_key | public_key" "" ∅ toy_vault ["sk-1"; "pk-1"]); [discriminate|].
  split; [vm_compute; discriminate|]. vm_compute. repeat constructor.
Defined.

Lemma pasted_keys_reach_replicas_witness :
  let res := keys_Set true "langfuse" toy_kv ∅ ∅ in
  stored_keys "langfuse" (Hydrate (snd res) ∅) ∅ = set_values toy_kv.
Proof.
  cbv zeta. destruct (pasted_keys_reach_replicas "langfuse" toy_kv ∅ (snd (fst (keys_Set true "langfuse" toy_kv ∅ ∅))) ∅ ∅
    (snd (keys_Set true "langfuse" toy_kv ∅ ∅))) as (_ & _ & H & _); [discriminate|vm_compute; reflexivity|reflexivity|vm_compute; reflexivity|exact H].
Defined.

Lemma cached_keys_outlive_clear_witness :
  let c := <["langfuse" := {["public_key" := "pk-1"; "secret_key" := "sk-1"]}]> ∅ in
  let v' := snd (foldl (other_replica "langfuse") (∅, toy_vault) [(true, KClear)]) in
  Resolve false (mkAuth "langfuse" "secret_key" "") c v' = Resolve true (mkAuth "langfuse" "secret_key" "") c toy_vault ∧
  keys_Get false "langfuse" c v' = (Some {["public_key" := "pk-1"; "secret_key" := "sk-1"]}, c).
Proof.
  apply (cached_keys_outlive_clear "langfuse" "secret_key" "" {["public_key" := "pk-1"; "secret_key" := "sk-1"]}
    (<["langfuse" := {["public_key" := "pk-1"; "secret_key" := "sk-1"]}]> ∅) ∅ toy_vault [(true, KClear)] false).
  vm_compute. reflexivity.
Defined.

Lemma foreign_admin_writes_keys_witness :
  let reg := snd (Merge [Some (toy_rec "acme" "https://acme.example" TriggerOnTrace SourceHelm)] ∅) in
  let s := mkKeyState (mkPluginState (mkTable ∅ []) reg) ∅ toy_vault in
  (∃ s', putPluginKeys toy_decode (fun _ => "") true (toy_admin "rival") "vendor" (Some toy_kv) s = (mkReply 200 true, s') ∧
         LoadEvalPluginKeys "vendor" (kst_vault s') = named_keys (set_values toy_kv)) ∧
  (∃ s', deletePluginKeys (fun _ => "") true (toy_admin "rival") "vendor" s = (mkReply 200 true, s') ∧ LoadEvalPluginKeys "vendor" (kst_vault s') = ∅).
Proof.
  cbv zeta.
  apply (foreign_admin_writes_keys toy_decode (fun _ => "") (toy_admin "rival") "vendor" (toy_rec "acme" "https://acme.example" TriggerOnTrace SourceHelm) toy_kv);
    [discriminate|vm_compute; reflexivity|discriminate|discriminate|apply (bool_decide_unpack _); vm_compute; exact I].
Defined.

Lemma secret_ref_reaches_any_keys_witness :
  let resolver := fun a => match fst (Resolve true a ∅ toy_vault) with Ok vals => Some vals | Err _ => None end in
  let p := mkPlugin PluginAPIVersion pluginKindExpected "thief"
    (mkService "webhook" "https://thief.example" (mkAuth "langfuse" "secret_key" "") "" ∅)
    (mkSend TriggerOnTrace fone ∅ []) (mkCollect "webhook" "" Second (mkMapping "" "score" "" "" "" "")) 0 [] in
  ∃ tg payload, Dispatch ["webhook"] (fun _ _ => None) (Some resolver) (toy_ptrace "rival") p = Some (tg, payload) ∧
    tg_Endpoint tg = "https://thief.example" ∧
    Forall2 (fun k x => key_value (stored_keys "langfuse" ∅ toy_vault) k = Some x) (splitKeyRef "secret_key") (tg_Auth tg).
Proof.
  cbv zeta. eexists _, _. split; [vm_compute; reflexivity|].
  refine (secret_ref_reaches_any_keys ["webhook"] (fun _ _ => None) ∅ toy_vault (toy_ptrace "rival")
    (mkPlugin PluginAPIVersion pluginKindExpected "thief"
      (mkService "webhook" "https://thief.example" (mkAuth "langfuse" "secret_key" "") "" ∅)
      (mkSend TriggerOnTrace fone ∅ []) (mkCollect "webhook" "" Second (mkMapping "" "score" "" "" "" "")) 0 []) _ _ "langfuse" _ _ _);
    [reflexivity|discriminate|vm_compute; reflexivity].
Defined.
