(* ===== verification/Mail.v ===== *)
(** * Mail: src/internal/console/smtp.go, src/internal/console/envelope.go,
    src/internal/console/resend.go, src/internal/console/mailer.go,
    src/cmd/nexus/email_boot.go

    The transports of invitation mail.  [net/smtp]'s client is modelled as the state
    it keeps and the lines it puts on the wire; the relay at the other end is a
    parameter that sees every line and answers as it likes.  The egress dialer, TLS,
    base64, the random bytes and the clock are parameters. *)

From S2P Require Import Prelude GoString GoTime Net Config.
Local Open Scope string_scope.
Local Open Scope Z_scope.

Definition cr_char : ascii := "013".
Definition lf_char : ascii := "010".
Definition crlf : string := String cr_char (String lf_char "").

(** [strings.ContainsAny] of a carriage return and a line feed. *)
Fixpoint has_crlf (s : string) : bool :=
  match s with
  | String c s' => Ascii.eqb c cr_char || Ascii.eqb c lf_char || has_crlf s'
  | EmptyString => false
  end.

(** ** [net/smtp] *)

(** A conversation: the lines sent, oldest first, and whether under TLS. *)
Abbreviation conversation := (list (bool * string)).

(** A relay: whether it greets, completes the TLS handshake, gives the reply wanted
    to the last line of a conversation, and the extensions it then announces. *)
Record Relay := mkRelay {
  rl_greets : bool;
  rl_handshake : bool;
  rl_accepts : conversation → bool;
  rl_extensions : conversation → list string
}.

Record smtp_client := mkClient {
  sc_localName : string;
  sc_didHello : bool;
  sc_helloOk : bool;
  sc_tls : bool;
  sc_ext : list string;
  sc_wire : conversation
}.

Inductive mail_err :=
| ErrSMTPNotConfigured
| ErrBareCRLF (what : string)
| ErrUnknownEncryption (enc : string)
| ErrPort (port : Z)
| ErrCleartext
| ErrDial
| ErrClient
| ErrHello
| ErrHelloTwice
| ErrNoStartTLS
| ErrTLS
| ErrAuthWithoutTLS
| ErrHalfCredentials
| ErrAuth
| ErrMailFrom
| ErrRcptTo
| ErrData
| ErrConfig
| ErrPost (e : string)
| ErrStatus (code : Z) (msg : string)
| ErrDecode.

Section Smtp.
Context (rl : Relay).

Definition with_wire (w : conversation) (c : smtp_client) : smtp_client :=
  mkClient (sc_localName c) (sc_didHello c) (sc_helloOk c) (sc_tls c) (sc_ext c) w.

(** [cmd]: one line and whether the reply was the one expected. *)
Definition smtp_cmd (line : string) (c : smtp_client) : bool * smtp_client :=
  let w := (sc_wire c ++ [(sc_tls c, line)])%list in (rl_accepts rl w, with_wire w c).

Definition ehlo (c : smtp_client) : bool * smtp_client :=
  let '(ok, c) := smtp_cmd ("EHLO " +:+ sc_localName c) c in
  (ok, if ok then mkClient (sc_localName c) (sc_didHello c) (sc_helloOk c) (sc_tls c) (rl_extensions rl (sc_wire c)) (sc_wire c) else c).

Definition helo (c : smtp_client) : bool * smtp_client :=
  smtp_cmd ("HELO " +:+ sc_localName c) (mkClient (sc_localName c) (sc_didHello c) (sc_helloOk c) (sc_tls c) [] (sc_wire c)).

(** [hello]: once, the outcome remembered. *)
Definition hello (c : smtp_client) : bool * smtp_client :=
  if sc_didHello c then (sc_helloOk c, c)
  else
    let c := mkClient (sc_localName c) true true (sc_tls c) (sc_ext c) (sc_wire c) in
    let '(ok, c) := ehlo c in
    let '(ok, c) := if ok then (true, c) else helo c in
    (ok, mkClient (sc_localName c) true ok (sc_tls c) (sc_ext c) (sc_wire c)).

(** [Hello], which must come before any other method. *)
Definition Hello (name : string) (c : smtp_client) : option mail_err * smtp_client :=
  if has_crlf name then (Some ErrHello, c)
  else if sc_didHello c then (Some ErrHelloTwice, c)
  else
    let '(ok, c) := hello (mkClient name (sc_didHello c) (sc_helloOk c) (sc_tls c) (sc_ext c) (sc_wire c)) in
    (if ok then None else Some ErrHello, c).

(** [ext] is in capitals already. *)
Definition Extension (ext : string) (c : smtp_client) : bool * smtp_client :=
  let '(ok, c) := hello c in (ok && existsb (String.eqb ext) (sc_ext c), c).

(** [StartTLS]; the handshake takes place when the next line is sent. *)
Definition StartTLS (c : smtp_client) : bool * smtp_client :=
  let '(ok, c) := hello c in
  if negb ok then (false, c)
  else
    let '(ok, c) := smtp_cmd "STARTTLS" c in
    if negb ok then (false, c)
    else
      let c := mkClient (sc_localName c) (sc_didHello c) (sc_helloOk c) true (sc_ext c) (sc_wire c) in
      if negb (rl_handshake rl) then (false, c) else ehlo c.

(** [Auth] with [PlainAuth]; [plain] is the encoded answer. *)
Definition smtp_Auth (plain : string) (c : smtp_client) : bool * smtp_client :=
  let '(ok, c) := hello c in if negb ok then (false, c) else smtp_cmd ("AUTH PLAIN " +:+ plain) c.

Definition smtp_Mail (from : string) (c : smtp_client) : bool * smtp_client :=
  if has_crlf from then (false, c)
  else
    let '(ok, c) := hello c in
    if negb ok then (false, c)
    else
      let ext e := if existsb (String.eqb e) (sc_ext c) then true else false in
      smtp_cmd ("MAIL FROM:<" +:+ from +:+ ">" +:+ (if ext "8BITMIME" then " BODY=8BITMIME" else "") +:+
           (if ext "SMTPUTF8" then " SMTPUTF8" else "")) c.

Definition Rcpt (to : string) (c : smtp_client) : bool * smtp_client :=
  if has_crlf to then (false, c) else smtp_cmd ("RCPT TO:<" +:+ to +:+ ">") c.

Definition Quit (c : smtp_client) : smtp_client :=
  let '(ok, c) := hello c in if ok then snd (smtp_cmd "QUIT" c) else c.

(** [textproto]'s [DotWriter]: its states, one byte and [Close]. *)
Inductive dot_state := DBegin | DBeginLine | DCR | DData.

Definition dot_byte (st : dot_state) (c : ascii) : string * dot_state :=
  let data := if Ascii.eqb c cr_char then (String c "", DCR)
              else if Ascii.eqb c lf_char then (String cr_char (String c ""), DBeginLine)
              else (String c "", DData) in
  match st with
  | DBegin | DBeginLine => let '(out, st') := data in ((if Ascii.eqb c "." then "." +:+ out else out), st')
  | DData => data
  | DCR => (String c "", if Ascii.eqb c lf_char then DBeginLine else DData)
  end.

Fixpoint dot_text (st : dot_state) (s : string) : string * dot_state :=
  match s with
  | EmptyString => ("", st)
  | String c s' => let '(out, st1) := dot_byte st c in let '(rest, st2) := dot_text st1 s' in (out +:+ rest, st2)
  end.

Definition dot_close (st : dot_state) : string :=
  match st with
  | DBeginLine => "." +:+ crlf
  | DCR => String lf_char ("." +:+ crlf)
  | DBegin | DData => crlf +:+ "." +:+ crlf
  end.

Definition DotWriter (s : string) : string := let '(out, st) := dot_text DBegin s in out +:+ dot_close st.

(** [Data], the writes and [Close] of the writer. *)
Definition Data (text : string) (c : smtp_client) : bool * smtp_client :=
  let '(ok, c) := smtp_cmd "DATA" c in if negb ok then (false, c) else smtp_cmd (DotWriter text) c.

(** ** envelope.go *)

Record envelopeClient := mkEnvelope { en_client : smtp_client; en_tls : bool; en_serverName : string }.

Definition fresh_client (tls : bool) : smtp_client := mkClient "localhost" false true tls [] [].

(** The error or the client, and what has been sent. *)
Definition newEnvelopeClient (host mode : string) : res mail_err envelopeClient * smtp_client :=
  if String.eqb mode "starttls" then
    let c := fresh_client false in
    if negb (rl_greets rl) then (Err ErrClient, c)
    else match Hello "nexus.local" c with
    | (Some e, c) => (Err e, c)
    | (None, c) =>
        let '(ok, c) := Extension "STARTTLS" c in
        if negb ok then (Err ErrNoStartTLS, c)
        else
          let '(ok, c) := StartTLS c in
          if negb ok then (Err ErrTLS, c)
          else match Hello "nexus.local" c with
               | (Some e, c) => (Err e, c)
               | (None, c) => (Ok (mkEnvelope c true host), c)
               end
    end
  else if String.eqb mode "tls" then
    let c := fresh_client true in
    if negb (rl_handshake rl) then (Err ErrTLS, c)
    else if negb (rl_greets rl) then (Err ErrClient, c)
    else match Hello "nexus.local" c with
         | (Some e, c) => (Err e, c)
         | (None, c) => (Ok (mkEnvelope c true host), c)
         end
  else if String.eqb mode "none" then
    let c := fresh_client false in
    if negb (rl_greets rl) then (Err ErrClient, c)
    else match Hello "nexus.local" c with
         | (Some e, c) => (Err e, c)
         | (None, c) => (Ok (mkEnvelope c false host), c)
         end
  else (Err (ErrUnknownEncryption mode), fresh_client false).

(** [authPlain]; [PlainAuth] sends nothing without TLS to a host that is not local. *)
Definition authPlain (encode : string → string) (username password : string) (e : envelopeClient) : bool * smtp_client :=
  if String.eqb (TrimSpace username) "" || String.eqb password "" then (false, en_client e)
  else
    let '(ok, c) := hello (en_client e) in
    let local := existsb (String.eqb (en_serverName e)) ["localhost"; "127.0.0.1"; "::1"] in
    if negb ok then (false, c)
    else if negb (sc_tls c) && negb local then (false, Quit c)
    else smtp_Auth (encode (bytes [0%nat] +:+ username +:+ bytes [0%nat] +:+ password)) c.
End Smtp.

(** ** smtp.go *)

Record SMTPMailer := mkSMTP {
  sm_Host : string; sm_Port : Z; sm_Username : string; sm_Password : string; sm_From : string; sm_Encryption : string; sm_Timeout : Duration
}.

Definition NewSMTPMailer (host : string) (port : Z) (username password fromAddr encryption : string) (timeout : Duration) : res mail_err SMTPMailer :=
  if String.eqb (TrimSpace host) "" || String.eqb fromAddr "" then Err ErrSMTPNotConfigured
  else if has_crlf fromAddr then Err (ErrBareCRLF fromAddr)
  else
    let timeout := if timeout <=? 0 then 10 * Second else timeout in
    let enc := ToLower (TrimSpace encryption) in
    let make enc := Ok (mkSMTP host port username password fromAddr enc timeout) in
    if String.eqb enc "" || String.eqb enc "starttls" then make "starttls"
    else if String.eqb enc "tls" || String.eqb enc "starttlsimplicit" then make "tls"
    else if String.eqb enc "none" then make "none"
    else Err (ErrUnknownEncryption encryption).

Definition truncateForHeader (s : string) (n : nat) : string := if (String.length s <=? n)%nat then s else take_bytes n s.

(** [random] is the hexadecimal text of four random bytes. *)
Definition buildMessageID (random idempotencyKey host : string) : string :=
  let k := TrimSpace idempotencyKey in
  let suffix := if String.eqb k "" then "" else "-" +:+ random +:+ "-" +:+ truncateForHeader k 8 in
  "<nexus-invite" +:+ suffix +:+ "@" +:+ host +:+ ">".

Definition header_lines (date from to subject messageID : string) : list string :=
  ["From: " +:+ from; "To: " +:+ to; "Subject: " +:+ subject; "Date: " +:+ date; "MIME-Version: 1.0"; "Message-ID: " +:+ messageID;
   "X-Nexus-Source: nexus-console"; "X-Nexus-Invite: 1"].

(** Lines, each with its end. *)
Definition crlf_lines (l : list string) : string := Join (l ++ [""]) crlf.

Definition composeHeaders (date from to subject messageID : string) : string := crlf_lines (header_lines date from to subject messageID).

Definition buildMIME (body contentType : string) : string :=
  crlf_lines ["Content-Type: " +:+ contentType; "Content-Transfer-Encoding: quoted-printable"; ""] +:+ body.

Section Send.
Context (rl : Relay) (dials : string → Z → bool) (encode : string → string) (random date : string).

(** The text written between [DATA] and its end. *)
Definition smtp_text (s : SMTPMailer) (to subject html idempotencyKey : string) : string :=
  composeHeaders date (sm_From s) to subject (buildMessageID random idempotencyKey (sm_Host s)) +:+ crlf +:+
  buildMIME html "text/html; charset=utf-8".

(** [Send]: the outcome and the conversation. *)
Definition SMTP_Send (s : SMTPMailer) (to subject html idempotencyKey : string) : res mail_err string * conversation :=
  if String.eqb (sm_Host s) "" then (Err ErrSMTPNotConfigured, [])
  else if has_crlf to then (Err (ErrBareCRLF to), [])
  else if negb (dials (sm_Host s) (sm_Port s)) then (Err ErrDial, [])
  else
    match newEnvelopeClient rl (sm_Host s) (sm_Encryption s) with
    | (Err e, c) => (Err e, sc_wire c)
    | (Ok en, _) =>
        let fail e c := (Err e, sc_wire (Quit rl c)) in
        let auth :=
          if String.eqb (sm_Username s) "" && String.eqb (sm_Password s) "" then (None, en_client en)
          else if negb (String.eqb (sm_Username s) "") && negb (String.eqb (sm_Password s) "") then
            if negb (en_tls en) then (Some ErrAuthWithoutTLS, en_client en)
            else let '(ok, c) := authPlain rl encode (sm_Username s) (sm_Password s) en in (if ok then None else Some ErrAuth, c)
          else (Some ErrHalfCredentials, en_client en) in
        match auth with
        | (Some e, c) => fail e c
        | (None, c) =>
            let '(ok, c) := smtp_Mail rl (sm_From s) c in
            if negb ok then fail ErrMailFrom c
            else
              let '(ok, c) := Rcpt rl to c in
              if negb ok then fail ErrRcptTo c
              else
                let '(ok, c) := Data rl (smtp_text s to subject html idempotencyKey) c in
                if negb ok then fail ErrData c
                else (Ok (buildMessageID random idempotencyKey (sm_Host s)), sc_wire (Quit rl c))
        end
    end.
End Send.

(** ** resend.go *)

Record ResendClient := mkResend { rs_APIKey : string; rs_From : string; rs_BaseURL : string; rs_Endpoint : string; rs_Timeout : Duration }.

Definition NewResendClient (apiKey fromAddr baseURL : string) (timeout : Duration) : ResendClient :=
  let base := if String.eqb baseURL "" then "https://api.resend.com" else baseURL in
  mkResend apiKey fromAddr base (base +:+ "/emails") (if timeout <=? 0 then 10 * Second else timeout).

Record resendSendRequest := mkResendRequest { rr_From : string; rr_To : list string; rr_Subject : string; rr_HTML : string }.
Record resend_call := mkResendCall { rc_URL : string; rc_Authorization : string; rc_IdempotencyKey : string; rc_Body : resendSendRequest }.

(** What the exchange yields: no answer, or a status with the id or the message its body decodes to. *)
Inductive resend_answer := RFailed (e : string) | RAnswer (code : Z) (status : string) (id message : option string).

Definition Resend_Send (post : resend_call → resend_answer) (c : ResendClient) (to subject html idempotencyKey : string)
    : res mail_err string * list resend_call :=
  if String.eqb (rs_APIKey c) "" then (Err ErrConfig, [])
  else
    let call := mkResendCall (rs_Endpoint c) ("Bearer " +:+ rs_APIKey c) idempotencyKey (mkResendRequest (rs_From c) [to] subject html) in
    (match post call with
     | RFailed e => Err (ErrPost e)
     | RAnswer code status id message =>
         if (200 <=? code) && (code <? 300) then match id with Some i => Ok i | None => Err ErrDecode end
         else Err (ErrStatus code (let m := default "" message in if String.eqb m "" then status else m))
     end, [call]).

(** ** mailer.go and email_boot.go *)

Inductive Mailer := MSMTP (m : SMTPMailer) | MResend (c : ResendClient) | MNoop.

Definition Noop_Send (idempotencyKey : string) : res mail_err string := Ok ("noop:" +:+ idempotencyKey).

Definition constructSMTP (cfg : Config) (from : string) : res mail_err SMTPMailer :=
  if String.eqb (TrimSpace (cf_SMTPHost cfg)) "" then Err ErrSMTPNotConfigured
  else if (cf_SMTPPort cfg <=? 0) || (65535 <? cf_SMTPPort cfg) then Err (ErrPort (cf_SMTPPort cfg))
  else
    let enc := ToLower (TrimSpace (cf_SMTPEncryption cfg)) in
    if String.eqb enc "none" && negb (cf_DevMode cfg) then Err ErrCleartext
    else NewSMTPMailer (cf_SMTPHost cfg) (cf_SMTPPort cfg) (cf_SMTPUsername cfg) (cf_SMTPPassword cfg) from enc (cf_EmailRequestTimeout cfg).

Definition installEmailTransport (ParseAddress : string → bool) (cfg : Config) : Mailer :=
  match EmailMode ParseAddress cfg with
  | Err _ => MNoop
  | Ok m =>
      if String.eqb (em_mode m) "smtp" then
        match constructSMTP cfg (em_from m) with Ok s => MSMTP s | Err _ => MNoop end
      else if String.eqb (em_mode m) "resend" then
        MResend (NewResendClient (cf_ResendAPIKey cfg) (em_from m) (cf_ResendAPIBaseURL cfg) (cf_EmailRequestTimeout cfg))
      else MNoop
  end.
