(* ===== verification/MailProps.v ===== *)
(** * MailProps: what leaves for a relay, and what arrives

    Credentials are sent under TLS only and nothing can be slipped into a header; the
    recipient reads every line that was written.  The gaps: a transport that uses
    STARTTLS gives up before the first envelope, and the type of the body is not
    among the headers. *)

From S2P Require Import Prelude GoString GoTime Json JsonFacts Net Config ConfigProps Mail.
Local Open Scope string_scope.
Local Open Scope Z_scope.

(** ** Conversations *)

Section Relay.
Context (rl : Relay).
(** A property of the lines that the greetings and the leave-taking have. *)
Context (P : bool * string → Prop).
Context (greeting_P : ∀ t n, P (t, "EHLO " +:+ n) ∧ P (t, "HELO " +:+ n)).
Context (quit_P : ∀ t, P (t, "QUIT")).

Abbreviation all_P c := (Forall P (sc_wire c)).

Lemma smtp_cmd_P line c ok c' : smtp_cmd rl line c = (ok, c') → all_P c → P (sc_tls c, line) → all_P c'.
Proof using. unfold smtp_cmd. intros [= <- <-] Hw Hl. apply Forall_app. split; [done|]. by constructor. Qed.

Lemma smtp_cmd_same line c ok c' :
  smtp_cmd rl line c = (ok, c') → sc_tls c' = sc_tls c ∧ sc_didHello c' = sc_didHello c ∧ sc_helloOk c' = sc_helloOk c.
Proof using. unfold smtp_cmd. by intros [= <- <-]. Qed.

Lemma hello_spec c ok c' :
  hello rl c = (ok, c') → sc_didHello c' = true ∧ sc_helloOk c' = ok ∧ sc_tls c' = sc_tls c ∧ (all_P c → all_P c').
Proof using greeting_P.
  unfold hello. destruct (sc_didHello c) eqn:Ed; [by intros [= <- <-]|].
  unfold ehlo, helo. cbn [sc_localName sc_wire]. set (c0 := mkClient _ _ _ _ _ _).
  destruct (smtp_cmd rl ("EHLO " +:+ sc_localName c) c0) as [ok1 c1] eqn:E1.
  pose proof (smtp_cmd_same _ _ _ _ E1) as (Ht1 & _ & _).
  assert (all_P c → all_P c1) as Ha1 by (intros Hw; eapply smtp_cmd_P; [exact E1|exact Hw|apply greeting_P]).
  destruct ok1; [by intros [= <- <-]; split_and!|].
  destruct (smtp_cmd rl ("HELO " +:+ sc_localName c1) _) as [ok2 c2] eqn:E2. intros [= <- <-]. cbn.
  pose proof (smtp_cmd_same _ _ _ _ E2) as (Ht2 & _ & _). split_and!; [done|done|by rewrite Ht2|].
  intros Hw. eapply smtp_cmd_P; [exact E2|by apply Ha1|apply greeting_P].
Qed.

Lemma hello_done c : sc_didHello c = true → hello rl c = (sc_helloOk c, c).
Proof using. unfold hello. by intros ->. Qed.

Lemma Hello_spec name c r c' :
  Hello rl name c = (r, c') →
  sc_tls c' = sc_tls c ∧ (all_P c → all_P c') ∧
  match r with None => sc_didHello c' = true ∧ sc_helloOk c' = true ∧ sc_didHello c = false | Some _ => True end.
Proof using greeting_P.
  unfold Hello. destruct (has_crlf name); [by intros [= <- <-]|]. destruct (sc_didHello c) eqn:Ed; [by intros [= <- <-]|].
  destruct (hello rl _) as [ok c1] eqn:Eh. apply hello_spec in Eh as (Hd & Hk & Ht & Ha). intros [= <- <-].
  destruct ok; by split_and!.
Qed.

Lemma Quit_P c : all_P c → all_P (Quit rl c).
Proof using greeting_P quit_P.
  intros Hw. unfold Quit. destruct (hello rl c) as [ok c1] eqn:Eh. apply hello_spec in Eh as (_ & _ & _ & Ha).
  destruct ok; [|by apply Ha]. cbn. apply Forall_app. split; [by apply Ha|]. by constructor.
Qed.

Lemma StartTLS_spec c ok c' :
  (∀ t, P (t, "STARTTLS")) → StartTLS rl c = (ok, c') →
  sc_didHello c' = true ∧ (ok = true → sc_tls c' = true) ∧ (all_P c → all_P c').
Proof using greeting_P.
  intros Hst. unfold StartTLS. destruct (hello rl c) as [ok1 c1] eqn:Eh. apply hello_spec in Eh as (Hd & _ & _ & Ha).
  destruct ok1; cbn [negb]; [|by intros [= <- <-]]. destruct (smtp_cmd rl "STARTTLS" c1) as [ok2 c2] eqn:E2.
  pose proof (smtp_cmd_same _ _ _ _ E2) as (_ & Hd2 & _). rewrite Hd in Hd2.
  assert (all_P c → all_P c2) as Ha2 by (intros Hw; eapply smtp_cmd_P; [exact E2|by apply Ha|apply Hst]).
  destruct ok2; cbn [negb]; [|by intros [= <- <-]]. destruct (rl_handshake rl); cbn [negb]; [|by intros [= <- <-]].
  unfold ehlo. cbn [sc_localName]. destruct (smtp_cmd rl ("EHLO " +:+ sc_localName c2) _) as [ok3 c3] eqn:E3.
  pose proof (smtp_cmd_same _ _ _ _ E3) as (Ht3 & Hd3 & _). cbn in Ht3, Hd3.
  assert (all_P c → all_P c3) as Ha3 by (intros Hw; eapply smtp_cmd_P; [exact E3|by apply Ha2|apply greeting_P]).
  intros [= <- <-]. destruct ok3; cbn; split_and!; by rewrite ?Hd3, ?Ht3.
Qed.

Lemma Extension_spec ext c ok c' :
  Extension rl ext c = (ok, c') → sc_didHello c' = true ∧ sc_tls c' = sc_tls c ∧ (all_P c → all_P c').
Proof using greeting_P.
  unfold Extension. destruct (hello rl c) as [ok1 c1] eqn:Eh. apply hello_spec in Eh as (? & _ & ? & ?). by intros [= <- <-].
Qed.

(** Under STARTTLS the second greeting is refused, whatever the relay does. *)
Lemma starttls_no_client host :
  (∀ t, P (t, "STARTTLS")) → ∃ e c, newEnvelopeClient rl host "starttls" = (Err e, c) ∧ all_P c.
Proof using greeting_P.
  intros Hst. unfold newEnvelopeClient. change (String.eqb "starttls" "starttls") with true. cbv iota.
  destruct (rl_greets rl); cbn [negb]; [|by eexists _, _].
  destruct (Hello rl "nexus.local" (fresh_client false)) as [[e|] c1] eqn:E1; apply Hello_spec in E1 as (_ & Ha1 & _); cbn in Ha1.
  { eexists _, _. split; [done|]. by apply Ha1. }
  destruct (Extension rl "STARTTLS" c1) as [ok2 c2] eqn:E2. apply Extension_spec in E2 as (_ & _ & Ha2).
  destruct ok2; cbn [negb]; [|eexists _, _; split; [done|]; by apply Ha2, Ha1].
  destruct (StartTLS rl c2) as [ok3 c3] eqn:E3. apply StartTLS_spec in E3 as (Hd3 & _ & Ha3); [|done].
  destruct ok3; cbn [negb]; [|eexists _, _; split; [done|]; by apply Ha3, Ha2, Ha1].
  unfold Hello. change (has_crlf "nexus.local") with false. cbv iota. rewrite Hd3.
  eexists _, _. split; [done|]. by apply Ha3, Ha2, Ha1.
Qed.

(** A client is up only over implicit TLS or without any TLS. *)
Lemma client_modes host mode en c :
  (∀ t, P (t, "STARTTLS")) → newEnvelopeClient rl host mode = (Ok en, c) →
  (mode = "tls" ∨ mode = "none") ∧ en_tls en = String.eqb mode "tls" ∧ sc_tls (en_client en) = en_tls en ∧ all_P (en_client en) ∧
  sc_didHello (en_client en) = true ∧ sc_helloOk (en_client en) = true ∧ en_serverName en = host.
Proof using greeting_P.
  intros Hst. destruct (String.eqb_spec mode "starttls") as [->|Hn].
  { destruct (starttls_no_client host Hst) as (e & c0 & -> & _). done. }
  unfold newEnvelopeClient. rewrite (proj2 (String.eqb_neq _ _) Hn). destruct (String.eqb_spec mode "tls") as [->|Hn2].
  - destruct (rl_handshake rl); cbn [negb]; [|done]. destruct (rl_greets rl); cbn [negb]; [|done].
    destruct (Hello rl "nexus.local" (fresh_client true)) as [[e|] c1] eqn:E1; [done|]. apply Hello_spec in E1 as (Ht & Ha & Hd & Hk & _).
    intros [= <- <-]. cbn. split_and!; [by left|done|done|by apply Ha|done|done|done].
  - destruct (String.eqb_spec mode "none") as [->|]; [|done]. destruct (rl_greets rl); cbn [negb]; [|done].
    destruct (Hello rl "nexus.local" (fresh_client false)) as [[e|] c1] eqn:E1; [done|]. apply Hello_spec in E1 as (Ht & Ha & Hd & Hk & _).
    intros [= <- <-]. cbn. split_and!; [by right|done|done|by apply Ha|done|done|done].
Qed.

Lemma client_error_P host mode e c : (∀ t, P (t, "STARTTLS")) → newEnvelopeClient rl host mode = (Err e, c) → all_P c.
Proof using greeting_P.
  intros Hst. destruct (String.eqb_spec mode "starttls") as [->|Hn].
  { destruct (starttls_no_client host Hst) as (e' & c0 & -> & Hc). by intros [= _ <-]. }
  unfold newEnvelopeClient. rewrite (proj2 (String.eqb_neq _ _) Hn). destruct (String.eqb mode "tls").
  - destruct (rl_handshake rl); cbn [negb]; [|by intros [= _ <-]]. destruct (rl_greets rl); cbn [negb]; [|by intros [= _ <-]].
    destruct (Hello rl "nexus.local" (fresh_client true)) as [[?|] c1] eqn:E1; [|done]. apply Hello_spec in E1 as (_ & Ha & _).
    intros [= _ <-]. by apply Ha.
  - destruct (String.eqb mode "none"); [|by intros [= _ <-]]. destruct (rl_greets rl); cbn [negb]; [|by intros [= _ <-]].
    destruct (Hello rl "nexus.local" (fresh_client false)) as [[?|] c1] eqn:E1; [|done]. apply Hello_spec in E1 as (_ & Ha & _).
    intros [= _ <-]. by apply Ha.
Qed.
End Relay.

(** ** Whole deliveries *)

Definition is_auth (line : string) : bool := HasPrefix line "AUTH ".
Definition is_envelope (line : string) : bool := HasPrefix line "MAIL FROM:".

Lemma dot_text_head c s : ∃ r, fst (dot_text DBegin (String c s)) = (if Ascii.eqb c "." then "." else "") +:+ (if Ascii.eqb c lf_char then String cr_char "" else "") +:+ String c r.
Proof.
  cbn [dot_text]. unfold dot_byte. destruct (Ascii.eqb_spec c cr_char) as [->|Hcr].
  - cbn. destruct (dot_text DCR s) as [rest st2]. exists rest. done.
  - destruct (Ascii.eqb_spec c lf_char) as [->|Hlf].
    + cbn. destruct (dot_text DBeginLine s) as [rest st2]. exists rest. done.
    + destruct (dot_text DData s) as [rest st2]. exists rest. destruct (Ascii.eqb c "."); done.
Qed.

Section Deliveries.
Context (rl : Relay) (dials : string → Z → bool) (encode : string → string) (random date : string).
Abbreviation Send := (SMTP_Send rl dials encode random date).

(** The lines of a delivery: greetings, credentials under TLS, the envelope, the text. *)
Inductive delivery_line (s : SMTPMailer) (to text : string) : bool * string → Prop :=
| dl_greeting t n : delivery_line s to text (t, "EHLO " +:+ n)
| dl_helo t n : delivery_line s to text (t, "HELO " +:+ n)
| dl_starttls t : delivery_line s to text (t, "STARTTLS")
| dl_quit t : delivery_line s to text (t, "QUIT")
| dl_auth plain : sm_Encryption s = "tls" → delivery_line s to text (true, "AUTH PLAIN " +:+ plain)
| dl_mail t rest : sm_Encryption s ≠ "starttls" → delivery_line s to text (t, "MAIL FROM:<" +:+ sm_From s +:+ ">" +:+ rest)
| dl_rcpt t : delivery_line s to text (t, "RCPT TO:<" +:+ to +:+ ">")
| dl_data t : delivery_line s to text (t, "DATA")
| dl_text t : delivery_line s to text (t, DotWriter text).

Lemma Mail_P (P : bool * string → Prop) from c ok c' :
  (∀ t n, P (t, "EHLO " +:+ n) ∧ P (t, "HELO " +:+ n)) → smtp_Mail rl from c = (ok, c') → sc_didHello c = true → Forall P (sc_wire c) →
  (∀ rest, P (sc_tls c, "MAIL FROM:<" +:+ from +:+ ">" +:+ rest)) → Forall P (sc_wire c').
Proof using.
  intros Hg. unfold smtp_Mail. destruct (has_crlf from); [by intros [= <- <-]|]. intros H Hd Hw Hm. rewrite hello_done in H by done.
  destruct (sc_helloOk c); cbn [negb] in H; [|by injection H as <- <-]. eapply smtp_cmd_P; [exact H|done|]. apply Hm.
Qed.

Lemma Send_lines s to subject html key r w :
  Send s to subject html key = (r, w) →
  Forall (delivery_line s to (smtp_text random date s to subject html key)) w.
Proof using.
  set (text := smtp_text random date s to subject html key). set (P := delivery_line s to text).
  assert (∀ t n, P (t, "EHLO " +:+ n) ∧ P (t, "HELO " +:+ n)) as Hg by (split; [apply dl_greeting|apply dl_helo]).
  assert (∀ t, P (t, "QUIT")) as Hq by apply dl_quit. assert (∀ t, P (t, "STARTTLS")) as Hst by apply dl_starttls.
  unfold SMTP_Send. fold text. destruct (String.eqb (sm_Host s) ""); [by intros [= _ <-]|]. destruct (has_crlf to); [by intros [= _ <-]|].
  destruct (dials _ _); cbn [negb]; [|by intros [= _ <-]].
  destruct (newEnvelopeClient rl (sm_Host s) (sm_Encryption s)) as [[en|e] c0] eqn:En.
  2:{ intros [= _ <-]. by eapply client_error_P. }
  destruct (client_modes rl P Hg _ _ _ _ Hst En) as (Hmode & Htls & Hct & Hall & Hd & Hk & _).
  assert (∀ c, Forall P (sc_wire c) → Forall P (sc_wire (Quit rl c))) as HQ by (intros c; by apply Quit_P).
  set (auth := if _ && _ then _ else _).
  assert (match auth with (_, c) => Forall P (sc_wire c) ∧ sc_didHello c = true ∧ sc_tls c = sc_tls (en_client en) end) as Ha.
  { unfold auth. destruct (_ && _); [done|]. destruct (_ && _); [|done]. destruct (en_tls en) eqn:Et; cbn [negb]; [|done].
    destruct (authPlain rl encode (sm_Username s) (sm_Password s) en) as [ok c] eqn:Ea. unfold authPlain in Ea.
    destruct (_ || _); [by injection Ea as <- <-|]. rewrite (hello_done rl _ Hd), Hk, Hct in Ea. cbn [negb andb] in Ea.
    unfold smtp_Auth in Ea. rewrite (hello_done rl _ Hd), Hk in Ea. cbn [negb] in Ea.
    pose proof (smtp_cmd_same rl _ _ _ _ Ea) as (Ht & Hd' & _). split_and!; [|by rewrite Hd'|done].
    eapply smtp_cmd_P; [exact Ea|done|]. rewrite Hct. apply dl_auth. symmetry in Htls. by apply String.eqb_eq in Htls. }
  destruct auth as [[e|] c1]; destruct Ha as (Ha & Hd1 & Ht1); [intros [= _ <-]; by apply HQ|].
  destruct (smtp_Mail rl (sm_From s) c1) as [ok c2] eqn:Em.
  assert (Forall P (sc_wire c2)) as H2.
  { eapply (Mail_P P); [exact Hg|exact Em|exact Hd1|exact Ha|]. intros rest. apply dl_mail. destruct Hmode as [->| ->]; done. }
  destruct ok; cbn [negb]; [|intros [= _ <-]; by apply HQ].
  destruct (Rcpt rl to c2) as [ok c3] eqn:Er.
  assert (Forall P (sc_wire c3)) as H3.
  { unfold Rcpt in Er. destruct (has_crlf to); [by injection Er as _ <-|]. eapply smtp_cmd_P; [exact Er|done|apply dl_rcpt]. }
  destruct ok; cbn [negb]; [|intros [= _ <-]; by apply HQ].
  destruct (Data rl text c3) as [ok c4] eqn:Ed.
  assert (Forall P (sc_wire c4)) as H4.
  { unfold Data in Ed. destruct (smtp_cmd rl "DATA" c3) as [ok5 c5] eqn:E5.
    assert (Forall P (sc_wire c5)) as H5 by (eapply smtp_cmd_P; [exact E5|done|apply dl_data]).
    destruct ok5; cbn [negb] in Ed; [|by injection Ed as _ <-]. eapply smtp_cmd_P; [exact Ed|done|apply dl_text]. }
  destruct ok; cbn [negb]; intros [= _ <-]; by apply HQ.
Qed.

Lemma text_not_auth s to subject html key : is_auth (DotWriter (smtp_text random date s to subject html key)) = false.
Proof using.
  assert (∃ t, smtp_text random date s to subject html key = String "F" t) as [t ->] by (eexists; reflexivity).
  unfold DotWriter. destruct (dot_text_head "F" t) as [r Hr]. destruct (dot_text DBegin (String "F" t)) as [out st]. cbn in Hr. by subst out.
Qed.

(** Credentials cross the wire under TLS only, and then only over implicit TLS,
    whatever the relay announces, answers or strips. *)
Theorem credentials_only_over_tls (s : SMTPMailer) (to subject html key : string) :
  Forall (fun l => is_auth (snd l) = true → fst l = true ∧ sm_Encryption s = "tls") (snd (Send s to subject html key)).
Proof using.
  destruct (Send s to subject html key) as [r w] eqn:E. apply Send_lines in E. cbn [snd]. eapply Forall_impl; [exact E|].
  intros l Hl Ha. destruct Hl; try discriminate Ha; [by split|]. cbn [snd] in Ha. by rewrite text_not_auth in Ha.
Qed.

(** A transport that uses STARTTLS delivers nothing, whatever the relay does: the
    client greets again after the handshake, which [net/smtp] refuses, so every send
    fails before an envelope is opened. *)
Theorem starttls_never_delivers (s : SMTPMailer) (to subject html key : string) :
  sm_Encryption s = "starttls" →
  (∃ e, fst (Send s to subject html key) = Err e) ∧ Forall (fun l => is_envelope (snd l) = false) (snd (Send s to subject html key)).
Proof using.
  intros Hs. split.
  - unfold SMTP_Send. rewrite Hs. destruct (String.eqb (sm_Host s) ""); [by eexists|]. destruct (has_crlf to); [by eexists|].
    destruct (dials _ _); cbn [negb]; [|by eexists].
    destruct (starttls_no_client rl (fun _ => True) ltac:(done) (sm_Host s) ltac:(done)) as (e & c & -> & _). by eexists.
  - destruct (Send s to subject html key) as [r w] eqn:E. apply Send_lines in E. cbn [snd]. eapply Forall_impl; [exact E|].
    intros l Hl. destruct Hl; try reflexivity; [done|]. cbn [snd].
    assert (∃ m, smtp_text random date s to subject html key = String "F" m) as [m ->] by (eexists; reflexivity).
    unfold DotWriter. destruct (dot_text_head "F" m) as [r0 Hr]. destruct (dot_text DBegin (String "F" m)) as [out st]. cbn in Hr. by subst out.
Qed.

(** Over implicit TLS a relay that agrees to everything gets the whole delivery:
    one greeting, the credentials if there are any, the envelope, the text and the
    farewell, in this order, all under TLS, and the send reports the message id. *)
Theorem implicit_tls_delivers (s : SMTPMailer) (to subject html key : string) :
  sm_Encryption s = "tls" → sm_Host s ≠ "" → has_crlf to = false → has_crlf (sm_From s) = false →
  rl_greets rl = true → rl_handshake rl = true → (∀ w, rl_accepts rl w = true) → (∀ w, rl_extensions rl w = []) →
  dials (sm_Host s) (sm_Port s) = true →
  (sm_Username s = "" ∧ sm_Password s = "" ∨ TrimSpace (sm_Username s) ≠ "" ∧ sm_Password s ≠ "") →
  Send s to subject html key =
    (Ok (buildMessageID random key (sm_Host s)),
     map (pair true) (["EHLO nexus.local"] ++
       (if String.eqb (sm_Password s) "" then []
        else ["AUTH PLAIN " +:+ encode (bytes [0%nat] +:+ sm_Username s +:+ bytes [0%nat] +:+ sm_Password s)]) ++
       ["MAIL FROM:<" +:+ sm_From s +:+ ">"; "RCPT TO:<" +:+ to +:+ ">"; "DATA";
        DotWriter (smtp_text random date s to subject html key); "QUIT"])%list).
Proof using.
  intros Henc Hh Hto Hf Hg Hs Hacc Hext Hd Hcred. unfold SMTP_Send. rewrite (proj2 (String.eqb_neq _ _) Hh), Hto, Hd, Henc. cbn [negb].
  set (text := smtp_text random date s to subject html key).
  set (c0 := mkClient "nexus.local" true true true [] [(true, "EHLO nexus.local")]).
  assert (newEnvelopeClient rl (sm_Host s) "tls" = (Ok (mkEnvelope c0 true (sm_Host s)), c0)) as ->.
  { unfold newEnvelopeClient. change (String.eqb "tls" "starttls") with false. change (String.eqb "tls" "tls") with true. cbv iota.
    rewrite Hs, Hg. cbn [negb]. unfold Hello, fresh_client. change (has_crlf "nexus.local") with false. cbn [sc_didHello sc_localName sc_helloOk sc_tls sc_ext sc_wire].
    unfold hello, ehlo, smtp_cmd, with_wire. cbn [sc_didHello sc_localName sc_helloOk sc_tls sc_ext sc_wire app]. rewrite Hacc. cbn. by rewrite Hext. }
  cbn [en_tls en_client]. set (plain := encode _).
  assert (∀ w line, smtp_cmd rl line (mkClient "nexus.local" true true true [] w) =
                    (true, mkClient "nexus.local" true true true [] (w ++ [(true, line)])%list)) as Hcmd.
  { intros w line. unfold smtp_cmd, with_wire. cbn [sc_didHello sc_localName sc_helloOk sc_tls sc_ext sc_wire]. by rewrite Hacc. }
  assert (∀ w, sc_wire (Quit rl (mkClient "nexus.local" true true true [] w)) = (w ++ [(true, "QUIT")])%list) as HQ.
  { intros w. unfold Quit. rewrite (hello_done rl) by done. cbn [sc_helloOk]. by rewrite Hcmd. }
  set (auth := if String.eqb (sm_Username s) "" && String.eqb (sm_Password s) "" then _ else _).
  set (w1 := ([(true, "EHLO nexus.local")] ++ map (pair true) (if String.eqb (sm_Password s) "" then [] else ["AUTH PLAIN " +:+ plain]))%list).
  assert (auth = (None, mkClient "nexus.local" true true true [] w1)) as ->.
  { unfold auth, w1. destruct Hcred as [[Hu Hp]|[Hu Hp]].
    - by rewrite Hu, Hp.
    - assert (sm_Username s ≠ "") as Hu' by (intros He; rewrite He in Hu; by apply Hu).
      rewrite (proj2 (String.eqb_neq _ _) Hu'), (proj2 (String.eqb_neq _ _) Hp). cbn [andb negb]. unfold authPlain.
      rewrite (proj2 (String.eqb_neq _ _) Hu), (proj2 (String.eqb_neq _ _) Hp). cbn [orb en_client en_serverName].
      unfold smtp_Auth. rewrite !(hello_done rl c0) by done. cbn [sc_helloOk c0 sc_tls negb andb]. unfold c0. by rewrite Hcmd. }
  cbv beta iota. unfold smtp_Mail at 1. rewrite Hf, hello_done by done. cbn [sc_helloOk negb sc_ext existsb]. rewrite Hcmd. cbn [negb].
  unfold Rcpt at 1. rewrite Hto, Hcmd. cbn [negb]. unfold Data at 1. rewrite Hcmd. cbn [negb]. rewrite Hcmd. cbn [negb]. rewrite HQ.
  unfold w1. rewrite !map_app, <- !app_assoc. cbn [app map String.append]. reflexivity.
Qed.
End Deliveries.

(** ** What the recipient reads *)

(** The lines of a text on the wire, and the reading of a message up to the line
    with a single dot (RFC 5321). *)
Fixpoint split_crlf (s : string) : list string :=
  match s with
  | EmptyString => [""]
  | String c s1 =>
      let more := match split_crlf s1 with l :: ls => String c l :: ls | [] => [String c ""] end in
      match s1 with
      | String d s2 => if Ascii.eqb c cr_char && Ascii.eqb d lf_char then "" :: split_crlf s2 else more
      | EmptyString => more
      end
  end.

Fixpoint read_dotted (lines : list string) : option (list string) :=
  match lines with
  | [] => None
  | l :: rest => if String.eqb l "." then Some [] else (cons (TrimPrefix l ".")) <$> read_dotted rest
  end.

Definition read_mail (wire : string) : option (list string) := read_dotted (split_crlf wire).

(** Headers end at the first blank line. *)
Fixpoint header_block (lines : list string) : list string :=
  match lines with [] => [] | l :: rest => if String.eqb l "" then [] else l :: header_block rest end.
Fixpoint body_of (lines : list string) : list string :=
  match lines with [] => [] | l :: rest => if String.eqb l "" then rest else body_of rest end.

Definition clean (l : string) : Prop := has_crlf l = false.
Definition stuff (l : string) : string := if HasPrefix l "." then "." +:+ l else l.

Lemma cons_app c s t : String c s +:+ t = String c (s +:+ t).
Proof. done. Qed.

Lemma clean_cons c l : clean (String c l) ↔ c ≠ cr_char ∧ c ≠ lf_char ∧ clean l.
Proof.
  unfold clean. cbn [has_crlf]. rewrite !orb_false_iff, !Ascii.eqb_neq. tauto.
Qed.

Lemma clean_app a b : clean (a +:+ b) ↔ clean a ∧ clean b.
Proof.
  induction a as [|c a IH]; [change ("" +:+ b) with b; unfold clean; cbn; tauto|]. rewrite cons_app, !clean_cons, IH. tauto.
Qed.

Lemma split_clean l s : clean l → split_crlf (l +:+ crlf +:+ s) = l :: split_crlf s.
Proof.
  induction l as [|c l IH]; intros Hl; [reflexivity|]. apply clean_cons in Hl as (Hc & _ & Hl). specialize (IH Hl).
  rewrite cons_app. change (split_crlf (String c ?x)) with
    (let more := match split_crlf x with l :: ls => String c l :: ls | [] => [String c ""] end in
     match x with String d s2 => if Ascii.eqb c cr_char && Ascii.eqb d lf_char then "" :: split_crlf s2 else more | EmptyString => more end).
  rewrite IH. cbv zeta. destruct (l +:+ crlf +:+ s); [done|]. by rewrite (proj2 (Ascii.eqb_neq _ _) Hc).
Qed.

Lemma dot_text_app st a b :
  dot_text st (a +:+ b) = (fst (dot_text st a) +:+ fst (dot_text (snd (dot_text st a)) b), snd (dot_text (snd (dot_text st a)) b)).
Proof.
  revert st. induction a as [|c a IH]; intros st; [change ("" +:+ b) with b; cbn [dot_text fst snd]; by destruct (dot_text st b)|]. rewrite cons_app. cbn [dot_text].
  destruct (dot_byte st c) as [out st1]. rewrite IH. destruct (dot_text st1 a) as [r1 st2]. cbn [fst snd].
  destruct (dot_text st2 b) as [r2 st3]. cbn [fst snd]. by rewrite app_assoc_string.
Qed.

Lemma dot_data l : clean l → dot_text DData l = (l, DData).
Proof.
  induction l as [|c l IH]; intros Hl; [done|]. apply clean_cons in Hl as (Hc & Hn & Hl). cbn [dot_text]. unfold dot_byte.
  rewrite (proj2 (Ascii.eqb_neq _ _) Hc), (proj2 (Ascii.eqb_neq _ _) Hn), (IH Hl). done.
Qed.

Definition at_start (st : dot_state) : bool := match st with DBegin | DBeginLine => true | _ => false end.

(** One line with either end of line. *)
Lemma dot_line st l (nl : bool) :
  at_start st = true → clean l → dot_text st (l +:+ (if nl then String lf_char "" else crlf)) = (stuff l +:+ crlf, DBeginLine).
Proof.
  intros Hst Hl. destruct l as [|c l].
  - destruct st; try done; by destruct nl.
  - apply clean_cons in Hl as (Hc & Hn & Hl). rewrite cons_app. cbn [dot_text].
    assert (dot_byte st c = (if Ascii.eqb c "." then "." +:+ String c "" else String c "", DData)) as ->.
    { destruct st; try done; unfold dot_byte; by rewrite (proj2 (Ascii.eqb_neq _ _) Hc), (proj2 (Ascii.eqb_neq _ _) Hn). }
    rewrite dot_text_app, (dot_data l Hl). cbn [fst snd]. unfold stuff. cbn [HasPrefix].
    destruct (Ascii.eqb_spec c ".") as [->|Hd].
    + rewrite decide_True by done. by destruct nl.
    + rewrite decide_False by (by intros <-). by destruct nl.
Qed.

Fixpoint wire_lines (ls : list (string * bool)) : string :=
  match ls with [] => "" | (l, nl) :: rest => l +:+ (if nl then String lf_char "" else crlf) +:+ wire_lines rest end.
Fixpoint stuffed (ls : list string) (s : string) : string :=
  match ls with [] => s | l :: rest => stuff l +:+ crlf +:+ stuffed rest s end.

Definition after_lines {A} (ls : list A) (st : dot_state) : dot_state := match ls with [] => st | _ => DBeginLine end.

Lemma dot_lines st ls t :
  at_start st = true → Forall (fun x => clean (fst x)) ls →
  fst (dot_text st (wire_lines ls +:+ t)) = stuffed (map fst ls) (fst (dot_text (after_lines ls st) t)) ∧
  snd (dot_text st (wire_lines ls +:+ t)) = snd (dot_text (after_lines ls st) t).
Proof.
  intros Hst Hls. revert st Hst. induction Hls as [|[l nl] ls Hl Hls IH]; intros st Hst; [done|].
  cbn [wire_lines map fst stuffed]. rewrite !app_assoc_string, <- (app_assoc_string l), dot_text_app, (dot_line st l nl Hst Hl). cbn [fst snd].
  destruct (IH DBeginLine eq_refl) as [-> ->]. rewrite app_assoc_string. by destruct ls.
Qed.

Lemma stuff_read l rest : clean l → read_dotted (stuff l :: rest) = cons l <$> read_dotted rest.
Proof.
  intros _. cbn [read_dotted]. unfold stuff, TrimPrefix. destruct l as [|c l]; [done|]. cbn [HasPrefix].
  destruct (decide ("."%char = c)) as [<-|Hc].
  - destruct l; done.
  - cbn [HasPrefix]. destruct (String.eqb_spec (String c l) ".") as [[= -> _]|_]; [done|]. by rewrite decide_False.
Qed.

Lemma stuff_clean l : clean l → clean (stuff l).
Proof. unfold stuff. destruct (HasPrefix l "."); [|done]. intros Hl. by apply clean_cons. Qed.

Lemma read_stuffed ls s : Forall clean ls → read_mail (stuffed ls s) = app ls <$> read_mail s.
Proof.
  unfold read_mail. induction 1 as [|l ls Hl Hls IH]; cbn [stuffed]; [by destruct (read_dotted (split_crlf s))|].
  rewrite split_clean by (by apply stuff_clean). rewrite stuff_read by done. rewrite IH, <- option_fmap_compose. done.
Qed.

(** Every line that is written is read, in order, and a line of a single dot does not
    end the message; [t] is what follows the last end of line. *)
Lemma read_back ls t :
  Forall (fun x => clean (fst x)) ls → clean t → t ≠ "" →
  read_mail (DotWriter (wire_lines ls +:+ t)) = Some (map fst ls ++ [t])%list.
Proof.
  intros Hls Ht Hne. unfold DotWriter. destruct (dot_text DBegin (wire_lines ls +:+ t)) as [out st] eqn:E.
  destruct (dot_lines DBegin ls t eq_refl Hls) as [H1 H2]. rewrite E in H1, H2. cbn [fst snd] in H1, H2. subst out st.
  set (st0 := after_lines ls DBegin). assert (at_start st0 = true) as Hst by (unfold st0; by destruct ls).
  assert (fst (dot_text st0 t) = stuff t ∧ snd (dot_text st0 t) = DData) as [-> ->].
  { destruct t as [|c t]; [done|]. apply clean_cons in Ht as (Hc & Hn & Ht). cbn [dot_text].
    assert (dot_byte st0 c = (if Ascii.eqb c "." then "." +:+ String c "" else String c "", DData)) as ->.
    { destruct st0; try done; unfold dot_byte; by rewrite (proj2 (Ascii.eqb_neq _ _) Hc), (proj2 (Ascii.eqb_neq _ _) Hn). }
    rewrite (dot_data t Ht). cbn [fst snd]. split; [|done]. unfold stuff. cbn [HasPrefix].
    destruct (Ascii.eqb_spec c ".") as [->|Hd]; [by rewrite decide_True|]. by rewrite decide_False by (by intros <-). }
  cbn [dot_close].
  assert (∀ ls s u, stuffed ls s +:+ u = stuffed ls (s +:+ u)) as Happ.
  { clear. induction ls as [|l ls IH]; intros s u; cbn [stuffed]; [done|]. by rewrite !app_assoc_string, IH. }
  rewrite Happ, read_stuffed by (apply Forall_map; exact Hls). unfold read_mail.
  change (crlf +:+ "." +:+ crlf) with (crlf +:+ ("." +:+ crlf)).
  rewrite split_clean by (by apply stuff_clean). rewrite stuff_read by done. reflexivity.
Qed.

(** ** Messages *)

Lemma crlf_lines_wire l : crlf_lines l = wire_lines (map (fun x => (x, false)) l).
Proof.
  unfold crlf_lines. induction l as [|x l IH]; [done|]. cbn [map wire_lines]. rewrite <- IH. cbn [app]. destruct l; done.
Qed.

Lemma wire_lines_app a b : wire_lines (a ++ b)%list = wire_lines a +:+ wire_lines b.
Proof. induction a as [|[l nl] a IH]; cbn [wire_lines app]; [done|]. by rewrite IH, !app_assoc_string. Qed.

Lemma clean_take n s : clean s → clean (take_bytes n s).
Proof. revert s. induction n as [|n IH]; intros [|c s] H; try done. cbn [take_bytes]. apply clean_cons in H as (? & ? & ?). apply clean_cons. auto. Qed.

Lemma clean_message_id random key host : clean random → clean (TrimSpace key) → clean host → clean (buildMessageID random key host).
Proof.
  intros Hr Hk Hh. unfold buildMessageID, truncateForHeader.
  destruct (String.eqb (TrimSpace key) ""), (Nat.leb (String.length (TrimSpace key)) 8); rewrite ?clean_app;
    split_and!; try done; by apply clean_take.
Qed.

Definition mail_lines (date random : string) (s : SMTPMailer) (to subject key : string) : list string :=
  (header_lines date (sm_From s) to subject (buildMessageID random key (sm_Host s)) ++
   [""; "Content-Type: text/html; charset=utf-8"; "Content-Transfer-Encoding: quoted-printable"; ""])%list.

Lemma message_read (random date : string) (s : SMTPMailer) (to subject key : string) (hl : list (string * bool)) (t : string) :
  clean date → clean random → clean (sm_From s) → clean (sm_Host s) → clean to → clean subject → clean (TrimSpace key) →
  Forall (fun x => clean (fst x)) hl → clean t → t ≠ "" →
  read_mail (DotWriter (smtp_text random date s to subject (wire_lines hl +:+ t) key)) =
    Some (mail_lines date random s to subject key ++ map fst hl ++ [t])%list.
Proof.
  intros Hd Hr Hf Hh Hto Hs Hk Hhl Ht Hne. pose proof (clean_message_id random key (sm_Host s) Hr Hk Hh) as Hid.
  assert (smtp_text random date s to subject (wire_lines hl +:+ t) key =
          wire_lines (map (fun x => (x, false)) (mail_lines date random s to subject key) ++ hl) +:+ t) as ->.
  { unfold smtp_text, composeHeaders, buildMIME, mail_lines. rewrite !crlf_lines_wire, wire_lines_app, map_app, wire_lines_app, !app_assoc_string. done. }
  rewrite read_back; [|apply Forall_app; split; [|done]|done|done].
  - by rewrite map_app, map_map, map_id, app_assoc.
  - apply Forall_map. unfold mail_lines, header_lines. repeat constructor; cbn [fst]; rewrite ?clean_app; try (split; [done|assumption]); done.
Qed.

Lemma mailer_from_clean host port user pw from enc timeout s :
  NewSMTPMailer host port user pw from enc timeout = Ok s → sm_From s = from ∧ sm_Host s = host ∧ clean from ∧ from ≠ "".
Proof.
  unfold NewSMTPMailer. destruct (String.eqb (TrimSpace host) ""); cbn [orb]; [done|]. destruct (String.eqb_spec from ""); [done|].
  destruct (has_crlf from) eqn:E; [done|]. intros H. repeat case_match; simplify_eq/=; done.
Qed.

(** No value slips a line into the headers: of a message built for an accepted
    sender and a recipient, a subject, a host, an invitation and a clock without line
    ends, the recipient's headers are the eight written, one line each, and every line
    of the page is read after them as it was written, those that start with a dot
    included. *)
Theorem headers_not_injectable (random date host user pw from enc to subject key : string) (port : Z) (timeout : Duration)
    (s : SMTPMailer) (hl : list (string * bool)) (t : string) :
  NewSMTPMailer host port user pw from enc timeout = Ok s →
  clean date → clean random → clean host → clean to → clean subject → clean (TrimSpace key) →
  Forall (fun x => clean (fst x)) hl → clean t → t ≠ "" →
  ∃ lines, read_mail (DotWriter (smtp_text random date s to subject (wire_lines hl +:+ t) key)) = Some lines ∧
    header_block lines = header_lines date from to subject (buildMessageID random key host) ∧
    ∃ type, body_of lines = (type ++ map fst hl ++ [t])%list ∧ length type = 3%nat.
Proof.
  intros Hm Hd Hr Hh Hto Hs Hk Hhl Ht Hne. destruct (mailer_from_clean _ _ _ _ _ _ _ _ Hm) as (Ef & Eh & Hf & Hf').
  eexists. split; [apply message_read; by rewrite ?Ef, ?Eh|]. unfold mail_lines. rewrite Ef, Eh. split; [reflexivity|].
  exists ["Content-Type: text/html; charset=utf-8"; "Content-Transfer-Encoding: quoted-printable"; ""]. split; reflexivity.
Qed.

(** The page arrives as text: a blank line is written before the type of the body,
    so the headers of a message say nothing of HTML, and what the recipient sees
    starts with the two lines that were meant to. *)
Theorem html_arrives_as_text (random date to subject key : string) (s : SMTPMailer) (hl : list (string * bool)) (t : string) :
  clean date → clean random → clean (sm_From s) → clean (sm_Host s) → clean to → clean subject → clean (TrimSpace key) →
  Forall (fun x => clean (fst x)) hl → clean t → t ≠ "" →
  ∃ lines, read_mail (DotWriter (smtp_text random date s to subject (wire_lines hl +:+ t) key)) = Some lines ∧
    Forall (fun l => HasPrefix l "Content-" = false) (header_block lines) ∧
    take 2 (body_of lines) = ["Content-Type: text/html; charset=utf-8"; "Content-Transfer-Encoding: quoted-printable"].
Proof.
  intros Hd Hr Hf Hh Hto Hs Hk Hhl Ht Hne. eexists. split; [by apply message_read|]. split; [|reflexivity].
  change (header_block _) with (header_lines date (sm_From s) to subject (buildMessageID random key (sm_Host s))).
  unfold header_lines. repeat constructor.
Qed.

(** ** The transport started at boot *)

Lemma lower_byte_not_letter c : ¬ (97 <= Z.of_nat (nat_of_ascii (lower_byte c)) <= 122) → lower_byte c = c.
Proof.
  unfold lower_byte. destruct (_ && _)%nat eqn:E; [|done]. apply andb_true_iff in E as [H1%Nat.leb_le H2%Nat.leb_le].
  rewrite nat_ascii_embedding by lia. lia.
Qed.

Lemma lower_byte_idem c : lower_byte (lower_byte c) = lower_byte c.
Proof.
  unfold lower_byte at 2 3. destruct ((65 <=? nat_of_ascii c) && (nat_of_ascii c <=? 90))%nat eqn:E.
  - apply andb_true_iff in E as [H1%Nat.leb_le H2%Nat.leb_le]. unfold lower_byte. rewrite nat_ascii_embedding by lia.
    destruct (_ && _)%nat eqn:E'; [|done]. apply andb_true_iff in E' as [?%Nat.leb_le ?%Nat.leb_le]. lia.
  - unfold lower_byte. by rewrite E.
Qed.

Lemma ToLower_idem s : ToLower (ToLower s) = ToLower s.
Proof. induction s as [|c s IH]; cbn [ToLower]; [done|]. by rewrite lower_byte_idem, IH. Qed.

Lemma ToLower_app s t : ToLower (s +:+ t) = ToLower s +:+ ToLower t.
Proof. induction s as [|c s IH]; [done|]. rewrite cons_app. cbn [ToLower]. by rewrite IH. Qed.

Fixpoint no_letters (s : string) : bool :=
  match s with "" => true | String c s' => negb ((97 <=? Z.of_nat (nat_of_ascii c)) && (Z.of_nat (nat_of_ascii c) <=? 122)) && no_letters s' end.

Lemma HasPrefix_lower s e : no_letters e = true → HasPrefix (ToLower s) e = true → HasPrefix s e = true.
Proof.
  revert s. induction e as [|x e IH]; intros s He; [done|]. destruct s as [|c s]; [done|]. cbn [ToLower HasPrefix]. cbn [no_letters] in He.
  apply andb_true_iff in He as [Hx He]. destruct (decide (x = lower_byte c)) as [->|]; [|done]. intros H.
  rewrite (lower_byte_not_letter c) by (apply negb_true_iff, andb_false_iff in Hx as [?%Z.leb_gt|?%Z.leb_gt]; lia).
  rewrite decide_True by done. by apply IH.
Qed.

Lemma rev_lower s : String.rev (ToLower s) = ToLower (String.rev s).
Proof. induction s as [|c s IH]; [done|]. cbn [ToLower]. by rewrite !rev_cons, IH, ToLower_app. Qed.

Lemma trimmed_lower s : trimmed s → trimmed (ToLower s).
Proof.
  assert (∀ encs r, forallb no_letters encs = true → no_lead encs r → no_lead encs (ToLower r)) as H.
  { intros encs r Hl. rewrite !no_lead_spec. intros Hr e He. apply not_true_is_false. intros Hp. apply HasPrefix_lower in Hp; [by rewrite (Hr e He) in Hp|].
    rewrite forallb_forall in Hl. apply Hl. by apply list_elem_of_In. }
  unfold trimmed. rewrite rev_lower. intros [H1 H2]. split; apply H; try done; vm_compute; reflexivity.
Qed.

(** Normalising a setting twice is normalising it once. *)
Lemma normal_idem s : ToLower (TrimSpace (ToLower (TrimSpace s))) = ToLower (TrimSpace s).
Proof.
  assert (TrimSpace (ToLower (TrimSpace s)) = ToLower (TrimSpace s)) as ->; [|apply ToLower_idem].
  apply TrimSpace_trimmed, trimmed_lower, TrimSpace_trimmed, TrimSpace_idem.
Qed.

(** The transport started at boot speaks in the clear only in development mode, to
    a port that exists and from a sender that is one line; and unless the setting
    asks for implicit TLS outside development it is one that uses STARTTLS. *)
Theorem no_cleartext_outside_dev (ParseAddress : string → bool) (cfg : Config) (s : SMTPMailer) :
  installEmailTransport ParseAddress cfg = MSMTP s →
  let enc := ToLower (TrimSpace (cf_SMTPEncryption cfg)) in
  (sm_Encryption s = "none" → cf_DevMode cfg = true) ∧
  (cf_DevMode cfg = false → sm_Encryption s = if String.eqb enc "tls" || String.eqb enc "starttlsimplicit" then "tls" else "starttls") ∧
  1 <= sm_Port s <= 65535 ∧ sm_Host s = cf_SMTPHost cfg ∧ TrimSpace (sm_Host s) ≠ "" ∧ clean (sm_From s) ∧ 0 < sm_Timeout s.
Proof.
  intros H enc. unfold installEmailTransport in H. destruct (EmailMode ParseAddress cfg) as [m|]; [|done].
  destruct (String.eqb (em_mode m) "smtp"); [|by destruct (String.eqb _ _)].
  destruct (constructSMTP cfg (em_from m)) as [s'|] eqn:Ec; [|done]. injection H as ->. unfold constructSMTP in Ec.
  destruct (String.eqb_spec (TrimSpace (cf_SMTPHost cfg)) "") as [|Hh]; [done|].
  destruct ((cf_SMTPPort cfg <=? 0) || (65535 <? cf_SMTPPort cfg)) eqn:Ep; [done|]. apply orb_false_iff in Ep as [Ep1 Ep2].
  apply Z.leb_gt in Ep1. apply Z.ltb_ge in Ep2. fold enc in Ec.
  destruct (String.eqb enc "none" && negb (cf_DevMode cfg)) eqn:Ed; [done|].
  unfold NewSMTPMailer in Ec. rewrite (proj2 (String.eqb_neq _ _) Hh) in Ec. cbn [orb] in Ec.
  destruct (String.eqb (em_from m) ""); [done|]. destruct (has_crlf (em_from m)) eqn:Ef; [done|].
  unfold enc in Ec at 1 2 3 4 5. rewrite normal_idem in Ec. fold enc in Ec.
  assert (0 < (if cf_EmailRequestTimeout cfg <=? 0 then 10 * Second else cf_EmailRequestTimeout cfg)) as Hto.
  { destruct (Z.leb_spec (cf_EmailRequestTimeout cfg) 0); [by vm_compute|lia]. }
  set (timeout := if cf_EmailRequestTimeout cfg <=? 0 then _ else _) in *.
  destruct (String.eqb enc "tls" || String.eqb enc "starttlsimplicit") eqn:Et.
  - assert (String.eqb enc "" || String.eqb enc "starttls" = false) as Es.
    { apply orb_true_iff in Et as [->%String.eqb_eq| ->%String.eqb_eq]; reflexivity. }
    rewrite Es in Ec. injection Ec as <-. cbn. split_and!; try done; lia.
  - destruct (String.eqb enc "" || String.eqb enc "starttls").
    + injection Ec as <-. cbn. split_and!; try done; lia.
    + destruct (String.eqb enc "none"); [|done]. injection Ec as <-. cbn in *. destruct (cf_DevMode cfg); [|done]. split_and!; try done; lia.
Qed.

(** ** Witnesses *)

Definition toy_smtp : SMTPMailer := mkSMTP "mail.acme.example" 465 "nexus" "secret" "nexus@acme.example" "tls" (10 * Second).
Definition toy_relay : Relay := mkRelay true true (fun _ => true) (fun _ => []).
Definition toy_encode : string → string := fun s => s.

Lemma starttls_never_delivers_witness :
  let s := mkSMTP "mail.acme.example" 587 "nexus" "secret" "nexus@acme.example" "starttls" (10 * Second) in
  let relay := mkRelay true true (fun _ => true) (fun _ => ["STARTTLS"; "AUTH"]) in
  let res := SMTP_Send relay (fun _ _ => true) toy_encode "0a1b2c3d" "today" s "bob@acme.example" "Hello" "page" "nexus-invite-1" in
  map snd (snd res) = ["EHLO nexus.local"; "STARTTLS"; "EHLO nexus.local"] ∧ (∃ e, fst res = Err e) ∧
  Forall (fun l => is_envelope (snd l) = false) (snd res).
Proof.
  cbv zeta. split; [vm_compute; reflexivity|].
  apply (starttls_never_delivers (mkRelay true true (fun _ => true) (fun _ => ["STARTTLS"; "AUTH"])) (fun _ _ => true) toy_encode "0a1b2c3d" "today"
    (mkSMTP "mail.acme.example" 587 "nexus" "secret" "nexus@acme.example" "starttls" (10 * Second)) "bob@acme.example" "Hello" "page" "nexus-invite-1").
  reflexivity.
Defined.

Lemma implicit_tls_delivers_witness :
  fst (SMTP_Send toy_relay (fun _ _ => true) toy_encode "0a1b2c3d" "today" toy_smtp "bob@acme.example" "Hello" "page" "nexus-invite-1")
    = Ok "<nexus-invite-0a1b2c3d-nexus-in@mail.acme.example>".
Proof.
  rewrite (implicit_tls_delivers toy_relay (fun _ _ => true) toy_encode "0a1b2c3d" "today" toy_smtp "bob@acme.example" "Hello" "page" "nexus-invite-1");
    [vm_compute; reflexivity|reflexivity|discriminate|reflexivity|reflexivity|reflexivity|reflexivity|reflexivity|reflexivity|reflexivity|].
  right. split; vm_compute; discriminate.
Defined.

Definition toy_page : list (string * bool) := [("<html>", true); (".dotted", true); (".", false)].

Lemma headers_not_injectable_witness :
  ∃ lines, read_mail (DotWriter (smtp_text "0a1b2c3d" "today"
      (mkSMTP "mail.acme.example" 465 "" "" "nexus@acme.example" "tls" (10 * Second))
      "bob@acme.example" "Hello" (wire_lines toy_page +:+ "</html>") "nexus-invite-1")) = Some lines ∧
    header_block lines = header_lines "today" "nexus@acme.example" "bob@acme.example" "Hello"
      (buildMessageID "0a1b2c3d" "nexus-invite-1" "mail.acme.example") ∧
    ∃ type, body_of lines = (type ++ ["<html>"; ".dotted"; "."] ++ ["</html>"])%list ∧ length type = 3%nat.
Proof.
  apply (headers_not_injectable "0a1b2c3d" "today" "mail.acme.example" "" "" "nexus@acme.example" "tls" "bob@acme.example" "Hello" "nexus-invite-1"
    465 0 (mkSMTP "mail.acme.example" 465 "" "" "nexus@acme.example" "tls" (10 * Second)) toy_page "</html>");
    [vm_compute; reflexivity|reflexivity|reflexivity|reflexivity|reflexivity|reflexivity|vm_compute; reflexivity|repeat constructor|reflexivity|discriminate].
Defined.

Lemma html_arrives_as_text_witness :
  ∃ lines, read_mail (DotWriter (smtp_text "0a1b2c3d" "today" toy_smtp "bob@acme.example" "Hello" (wire_lines toy_page +:+ "</html>") "nexus-invite-1")) = Some lines ∧
    Forall (fun l => HasPrefix l "Content-" = false) (header_block lines) ∧
    take 2 (body_of lines) = ["Content-Type: text/html; charset=utf-8"; "Content-Transfer-Encoding: quoted-printable"].
Proof.
  apply (html_arrives_as_text "0a1b2c3d" "today" "bob@acme.example" "Hello" "nexus-invite-1" toy_smtp toy_page "</html>");
    [reflexivity|reflexivity|reflexivity|reflexivity|reflexivity|reflexivity|vm_compute; reflexivity|repeat constructor|reflexivity|discriminate].
Defined.

Lemma no_cleartext_outside_dev_witness :
  ∃ s, installEmailTransport has_at (LoadConfig no_float None None None mail_env) = MSMTP s ∧ sm_Encryption s = "starttls".
Proof.
  eexists. split; [vm_compute; reflexivity|].
  rewrite (proj1 (proj2 (no_cleartext_outside_dev has_at (LoadConfig no_float None None None mail_env) _ ltac:(vm_compute; reflexivity))));
    vm_compute; reflexivity.
Defined.
