(* ===== verification/EvalBatch.v ===== *)
(** * EvalBatch: src/internal/evalbatch, src/cmd/nexus-evalbatch/main.go,
    src/internal/console/benchmark_quality_gate.go,
    src/internal/console/benchmark_leaderboard.go

    The gates of a release: the batch that scores a data set with concurrent workers
    and compares the means with a stored report, the console's quality gate over
    benchmark results, and the leaderboard they are read from.  Decoding of a case,
    the evaluator, the gateway that fills in missing outputs, [math.Exp] and the
    benchmark snapshot are parameters; flags, files and printing are left out. *)

From stdpp Require Import gmap.
From S2P Require Import Prelude GoString GoTime GoSort Float64 CoreStore GwTypes Evals Router.
Local Open Scope string_scope.
Local Open Scope Z_scope.

(** ** dataset.go *)

Record case_message := mkCaseMessage { ms_Role : string; ms_Content : string }.
Record Case := mkCase {
  cs_ID : string; cs_Model : string; cs_Input : string; cs_Messages : list case_message; cs_Output : string; cs_Reference : string;
  cs_Contexts : list string
}.

Definition ChatMessages (c : Case) : list case_message :=
  match cs_Messages c with
  | [] => if String.eqb (cs_Input c) "" then [] else [mkCaseMessage "user" (cs_Input c)]
  | ms => ms
  end.

Inductive dataset_err := ErrLine (line : nat) | ErrNoInput (line : nat) | ErrScan | ErrEmpty.

Definition with_id (id : string) (c : Case) : Case :=
  mkCase id (cs_Model c) (cs_Input c) (cs_Messages c) (cs_Output c) (cs_Reference c) (cs_Contexts c).

(** One line after [n] lines and the cases [acc]; [decode] is [json.Unmarshal]. *)
Definition dataset_line (decode : string → option Case) (n : nat) (text : string) (acc : list Case) : res dataset_err (list Case) :=
  let raw := TrimSpace text in
  if String.eqb raw "" || HasPrefix raw "#" then Ok acc
  else match decode raw with
  | None => Err (ErrLine n)
  | Some c =>
      if String.eqb (cs_Input c) "" && (match cs_Messages c with [] => true | _ => false end) then Err (ErrNoInput n)
      else Ok (acc ++ [if String.eqb (cs_ID c) "" then with_id ("case-" +:+ Itoa (length acc + 1)) c else c])%list
  end.

Fixpoint dataset_lines (decode : string → option Case) (n : nat) (lines : list string) (acc : list Case) : res dataset_err (list Case) :=
  match lines with
  | [] => Ok acc
  | l :: rest => match dataset_line decode n l acc with Ok acc' => dataset_lines decode (S n) rest acc' | Err e => Err e end
  end.

(** [parseDataset] of the lines the scanner gave; [scanned] tells it met no error. *)
Definition parseDataset (decode : string → option Case) (lines : list string) (scanned : bool) : res dataset_err (list Case) :=
  match dataset_lines decode 1 lines [] with
  | Err e => Err e
  | Ok cases => if negb scanned then Err ErrScan else match cases with [] => Err ErrEmpty | _ => Ok cases end
  end.

(** ** runner.go *)

Record CaseResult := mkResult { cr_ID : string; cr_Model : string; cr_Scores : list Score; cr_Error : string }.

Definition evalCase (evaluate : Case → res string (list Score)) (c : Case) : CaseResult :=
  match evaluate c with
  | Err e => mkResult (cs_ID c) (cs_Model c) [] e
  | Ok scores => mkResult (cs_ID c) (cs_Model c) scores ""
  end.

(** A goroutine of the pool: waiting for a job, at one, or returned. *)
Inductive batch_worker := Waiting | Evaluating (i : nat) | Returned.

(** [run_next] is the index the producer hands over next; at the end the channel is closed. *)
Record runner := mkRunner { run_next : nat; run_workers : list batch_worker; run_results : list (option CaseResult) }.

Section Run.
Context (evaluate : Case → res string (list Score)) (cases : list Case).

Definition pool_size (concurrency : Z) : nat :=
  let conc := if concurrency <=? 0 then 1 else concurrency in
  if Z.of_nat (length cases) <? conc then length cases else Z.to_nat conc.

Definition start_run (concurrency : Z) : runner :=
  mkRunner 0 (replicate (pool_size concurrency) Waiting) (replicate (length cases) None).

(** The channel is not buffered: a job goes to a worker that waits. *)
Inductive pool_step : runner → runner → Prop :=
| rs_hand w r :
    run_workers r !! w = Some Waiting → (run_next r < length cases)%nat →
    pool_step r (mkRunner (S (run_next r)) (<[w := Evaluating (run_next r)]> (run_workers r)) (run_results r))
| rs_eval w i c r :
    run_workers r !! w = Some (Evaluating i) → cases !! i = Some c →
    pool_step r (mkRunner (run_next r) (<[w := Waiting]> (run_workers r)) (<[i := Some (evalCase evaluate c)]> (run_results r)))
| rs_exit w r :
    run_workers r !! w = Some Waiting → (length cases <= run_next r)%nat →
    pool_step r (mkRunner (run_next r) (<[w := Returned]> (run_workers r)) (run_results r)).

(** [wg.Wait] is over, every job having been handed over before. *)
Definition run_over (r : runner) : Prop := run_next r = length cases ∧ Forall (fun w => w = Returned) (run_workers r).
End Run.

(** ** heuristic.go *)

Definition HeuristicEvaluate (now : Time) (t : Trace) : res string (list Score) := Ok (PIIEvaluate now t ++ CompletenessEvaluate now t)%list.

(** ** report.go *)

Record acc := mkAcc { ac_count : Z; ac_sum : float64; ac_min : float64; ac_max : float64; ac_passes : Z }.

Definition add_score (by_ : gmap string acc) (s : Score) : gmap string acc :=
  let x := sc_Score s in
  let a := default (mkAcc 0 fzero x x 0) (by_ !! sc_Metric s) in
  <[sc_Metric s := mkAcc (ac_count a + 1) (fadd (ac_sum a) x) (if flt x (ac_min a) then x else ac_min a)
                     (if fgt x (ac_max a) then x else ac_max a) (if sc_Passed s then ac_passes a + 1 else ac_passes a)]> by_.

Record MetricSummary := mkMetricSummary { mt_Count : Z; mt_MeanScore : float64; mt_MinScore : float64; mt_MaxScore : float64; mt_PassRate : float64 }.
Record Report := mkReport {
  rep_Dataset : string; rep_NumCases : nat; rep_NumErrors : nat; rep_Metrics : gmap string MetricSummary; rep_Cases : list CaseResult
}.

Definition summary (a : acc) : MetricSummary :=
  mkMetricSummary (ac_count a) (fdiv (ac_sum a) (of_Z (ac_count a))) (ac_min a) (ac_max a) (fdiv (of_Z (ac_passes a)) (of_Z (ac_count a))).

Definition accumulate (results : list CaseResult) : gmap string acc := fold_left add_score (concat (map cr_Scores results)) ∅.

Definition BuildReport (dataset : string) (results : list CaseResult) (includeCases : bool) : Report :=
  mkReport dataset (length results) (length (List.filter (fun r => negb (String.eqb (cr_Error r) "")) results))
    (summary <$> accumulate results) (if includeCases then results else []).

Record Regression := mkRegression { rg_Metric : string; rg_BaselineMean : float64; rg_CurrentMean : float64; rg_Delta : float64 }.

Definition regression_of (rep : Report) (tolerance : float64) (m : string) (base : MetricSummary) : option Regression :=
  let cur := match rep_Metrics rep !! m with Some s => mt_MeanScore s | None => fzero end in
  let delta := fsub cur (mt_MeanScore base) in
  if flt delta (fopp tolerance) then Some (mkRegression m (mt_MeanScore base) cur delta) else None.

Definition metric_less (a b : Regression) : bool := String.ltb (rg_Metric a) (rg_Metric b).

(** The metrics are distinct, so the order of the sort is the only one. *)
Definition CompareBaseline (rep baseline : Report) (tolerance : float64) : list Regression :=
  SliceStable metric_less (omap (fun '(m, base) => regression_of rep tolerance m base) (map_to_list (rep_Metrics baseline))).

(** ** cmd/nexus-evalbatch/main.go *)

(** The outputs asked of the gateway; the first failure ends the command. *)
Fixpoint generate_missing (generate : Case → res string string) (cases : list Case) : res string (list Case) :=
  match cases with
  | [] => Ok []
  | c :: rest =>
      if negb (String.eqb (cs_Output c) "") then
        match generate_missing generate rest with Ok l => Ok (c :: l) | Err e => Err e end
      else match generate c with
      | Err e => Err e
      | Ok out =>
          match generate_missing generate rest with
          | Ok l => Ok (mkCase (cs_ID c) (cs_Model c) (cs_Input c) (cs_Messages c) out (cs_Reference c) (cs_Contexts c) :: l)
          | Err e => Err e
          end
      end
  end.

(** The exit status once the report is built; a baseline that cannot be read is 2. *)
Definition exit_status (rep : Report) (baseline : option (option Report)) (tolerance : float64) : Z :=
  match baseline with
  | None => 0
  | Some None => 2
  | Some (Some base) => match CompareBaseline rep base tolerance with [] => 0 | _ => 1 end
  end.

(** ** benchmark_quality_gate.go *)

Record benchmarkQualityGateRequest := mkGateRequest { gr_Models : list string; gr_MinAvgScore : float64; gr_MaxStaleDays : float64; gr_DryRun : bool }.
Record benchmarkQualityGateResult := mkGateResult {
  gs_Model : string; gs_AvgScore : float64; gs_CompletedAt : Time; gs_StaleDays : float64; gs_Freshness : float64; gs_Pass : bool;
  gs_Reasons : list string
}.
Record benchmarkQualityGateSummary := mkGateSummary { gm_Total : nat; gm_Passed : nat; gm_Failed : nat; gm_Skipped : nat }.
Record benchmarkQualityGateResponse := mkGateResponse {
  ga_OK : bool; ga_Summary : benchmarkQualityGateSummary; ga_Results : list benchmarkQualityGateResult
}.

Section Gate.
Context (exp : float64 → float64) (negLn2 : float64).
(** The snapshot the router blends and its half-life. *)
Context (snap : gmap string BenchmarkStats) (halfLife : Duration) (now : Time).

Definition stale_days (b : BenchmarkStats) : float64 := fdiv (Hours (Sub now (CompletedAt b))) (of_Z 24).

Definition gate_reasons (minAvg maxStale : float64) (b : BenchmarkStats) : list string :=
  ((if fgt minAvg fzero && flt (AvgScore b) minAvg then ["below_min_avg_score"] else []) ++
   (if fgt (stale_days b) maxStale then ["stale_beyond_max"] else []) ++
   (if fle (Freshness exp negLn2 b halfLife now) fzero then ["freshness_zero"] else []))%list.

Definition gate_one (minAvg maxStale : float64) (m : string) : benchmarkQualityGateResult :=
  match snap !! m with
  | None => mkGateResult m fzero zero_time fzero fzero false ["no_settled_benchmark"]
  | Some b =>
      let reasons := gate_reasons minAvg maxStale b in
      mkGateResult m (AvgScore b) (CompletedAt b) (stale_days b) (Freshness exp negLn2 b halfLife now)
        (match reasons with [] => true | _ => false end) reasons
  end.

Definition count_result (s : benchmarkQualityGateSummary) (r : benchmarkQualityGateResult) : benchmarkQualityGateSummary :=
  if gs_Pass r then mkGateSummary (gm_Total s + 1) (gm_Passed s + 1) (gm_Failed s) (gm_Skipped s)
  else mkGateSummary (gm_Total s + 1) (gm_Passed s) (gm_Failed s + 1) (gm_Skipped s).

(** The answer, and whether a failure is handed to [AuditGate]; [auditor] tells
    whether the runner has that method. *)
Definition benchmarkQualityGate (lineup : list string) (auditor : bool) (req : benchmarkQualityGateRequest) : benchmarkQualityGateResponse * bool :=
  let maxStale := if feq (gr_MaxStaleDays req) fzero then of_Z 30 else gr_MaxStaleDays req in
  let targets := match gr_Models req with [] => lineup | ms => ms end in
  let results := map (gate_one (gr_MinAvgScore req) maxStale) targets in
  let s := fold_left count_result results (mkGateSummary 0 0 0 0) in
  let ok := (gm_Failed s =? 0)%nat in
  (mkGateResponse ok s results, negb (gr_DryRun req) && negb ok && auditor).

(** ** benchmark_leaderboard.go *)

(** What the latest settled run of the caller's organisation tells. *)
Record settled_run := mkSettledRun { sr_ID : string; sr_MinScore : option float64; sr_MaxScore : option float64; sr_TotalSamples : option Z }.

Record benchmarkLeaderboardRow := mkBoardRow {
  lr_Model : string; lr_LatestRunID : string; lr_AvgScore : float64; lr_MinScore : float64; lr_MaxScore : float64; lr_CompletedAt : Time;
  lr_TotalSamples : Z; lr_Freshness : float64; lr_Effective : float64; lr_BlendedIn : bool; lr_StaleAgeDays : float64
}.

Definition board_row (benchmarkWeight : float64) (latest : string → option settled_run) (m : string) : benchmarkLeaderboardRow :=
  match snap !! m with
  | None => mkBoardRow m "" fzero fzero fzero zero_time 0 fzero fzero false fzero
  | Some b =>
      let fresh := Freshness exp negLn2 b halfLife now in
      let run := latest m in
      mkBoardRow m (from_option sr_ID "" run) (AvgScore b) (default fzero (run ≫= sr_MinScore)) (default fzero (run ≫= sr_MaxScore))
        (CompletedAt b) (default 0 (run ≫= sr_TotalSamples)) fresh (fmul (AvgScore b) fresh) (fgt benchmarkWeight fzero && fgt fresh fzero)
        (stale_days b)
  end.

Definition board_less (a b : benchmarkLeaderboardRow) : bool :=
  if negb (feq (lr_Effective a) (lr_Effective b)) then fgt (lr_Effective a) (lr_Effective b) else (lr_CompletedAt b <? lr_CompletedAt a).

(** [sort.Slice] leaves rows of equal rank in some order; a stable one stands for it. *)
Definition benchmarkLeaderboard (lineup : list string) (benchmarkWeight : float64) (latest : string → option settled_run)
    : list benchmarkLeaderboardRow :=
  SliceStable board_less (map (board_row benchmarkWeight latest) lineup).
End Gate.
