(* ===== verification/EvalBatchProps.v ===== *)
(** * EvalBatchProps: what the release gates promise

    The batch scores every case once whatever the schedule, a comparison reports
    exactly the metrics that fell, the quality gate passes exactly the models within
    its limits.  The gaps: cases that fail to evaluate do not weigh on the gate, and
    a gate with no model to look at passes. *)

From stdpp Require Import gmap sorting.
From S2P Require Import Prelude GoString GoTime GoSort Float64 CoreStore GwTypes Evals Router EvalBatch.
Local Open Scope string_scope.
Local Open Scope Z_scope.

(** ** The pool *)

Section Pool.
Context (evaluate : Case → res string (list Score)) (cases : list Case) (concurrency : Z).

Record run_inv (r : runner) : Prop := {
  ri_next : (run_next r ≤ length cases)%nat;
  ri_workers : length (run_workers r) = pool_size cases concurrency;
  ri_results : length (run_results r) = length cases;
  ri_busy : ∀ w i, run_workers r !! w = Some (Evaluating i) → (i < run_next r)%nat;
  ri_returned : ∀ w, run_workers r !! w = Some Returned → run_next r = length cases;
  ri_done : ∀ i c, cases !! i = Some c → (i < run_next r)%nat →
    run_results r !! i = Some (Some (evalCase evaluate c)) ∨ ∃ w, run_workers r !! w = Some (Evaluating i)
}.

Lemma start_inv : run_inv (start_run cases concurrency).
Proof.
  split; cbn; [lia|by rewrite length_replicate|by rewrite length_replicate| | |lia].
  - intros w i H. by apply lookup_replicate in H as [? _].
  - intros w H. by apply lookup_replicate in H as [? _].
Qed.

Lemma step_inv r r' : pool_step evaluate cases r r' → run_inv r → run_inv r'.
Proof.
  intros Hs [Hn Hw Hr Hb Hret Hd]. destruct Hs as [w r Hw0 Hlt|w i c r Hw0 Hc|w r Hw0 Hge]; (split; cbn; [try lia|by rewrite length_insert| | | |]).
  - done.
  - intros w' i. destruct (decide (w = w')) as [<-|Hne]; [rewrite list_lookup_insert_eq by (by eapply lookup_lt_Some); intros [= <-]; lia|].
    rewrite list_lookup_insert_ne by done. intros H. apply Hb in H. lia.
  - intros w'. destruct (decide (w = w')) as [<-|Hne]; [by rewrite list_lookup_insert_eq by (by eapply lookup_lt_Some)|].
    rewrite list_lookup_insert_ne by done. intros H. apply Hret in H. lia.
  - intros i c Hc Hi. destruct (decide (i = run_next r)) as [->|Hne].
    + right. exists w. rewrite list_lookup_insert_eq; [done|by eapply lookup_lt_Some].
    + destruct (Hd i c Hc ltac:(lia)) as [H|[w' H]]; [by left|]. right. exists w'. rewrite list_lookup_insert_ne; [done|]. intros <-. congruence.
  - by rewrite length_insert.
  - intros w' i'. destruct (decide (w = w')) as [<-|Hne]; [by rewrite list_lookup_insert_eq by (by eapply lookup_lt_Some)|].
    rewrite list_lookup_insert_ne by done. apply Hb.
  - intros w'. destruct (decide (w = w')) as [<-|Hne]; [by rewrite list_lookup_insert_eq by (by eapply lookup_lt_Some)|].
    rewrite list_lookup_insert_ne by done. apply Hret.
  - intros i' c' Hc' Hi'. destruct (decide (i = i')) as [<-|Hne].
    + left. rewrite Hc in Hc'. injection Hc' as <-. rewrite list_lookup_insert_eq; [done|]. rewrite Hr. by eapply lookup_lt_Some.
    + rewrite list_lookup_insert_ne by done. destruct (Hd i' c' Hc' Hi') as [H|[w' H]]; [by left|]. right. exists w'.
      rewrite list_lookup_insert_ne; [done|]. intros <-. congruence.
  - done.
  - intros w' i'. destruct (decide (w = w')) as [<-|Hne]; [by rewrite list_lookup_insert_eq by (by eapply lookup_lt_Some)|].
    rewrite list_lookup_insert_ne by done. apply Hb.
  - intros w'. destruct (decide (w = w')) as [<-|Hne]; [intros _; lia|]. rewrite list_lookup_insert_ne by done. apply Hret.
  - intros i c Hc Hi. destruct (Hd i c Hc Hi) as [H|[w' H]]; [by left|]. right. exists w'. rewrite list_lookup_insert_ne; [done|]. intros <-. congruence.
Qed.

Lemma reachable_inv r : rtc (pool_step evaluate cases) (start_run cases concurrency) r → run_inv r.
Proof.
  intros H. cut (∀ a b, rtc (pool_step evaluate cases) a b → run_inv a → run_inv b); [intros Hc; exact (Hc _ _ H start_inv)|].
  induction 1; [done|]. eauto using step_inv.
Qed.

#[local] Instance batch_worker_eq_dec : EqDecision batch_worker.
Proof. solve_decision. Defined.

(** Each step uses up one unit: two for a case not handed over, two for a worker at one. *)
Definition worker_weight (w : batch_worker) : nat := match w with Waiting => 1 | Evaluating _ => 2 | Returned => 0 end.
Definition run_weight (r : runner) : nat := 2 * (length cases - run_next r) + sum_list_with worker_weight (run_workers r).

Lemma worker_weight_insert w x (l : list batch_worker) y :
  l !! w = Some y → (sum_list_with worker_weight (<[w := x]> l) + worker_weight y = sum_list_with worker_weight l + worker_weight x)%nat.
Proof.
  revert w. induction l as [|z l IH]; intros [|w] Hw; try done; simpl.
  - injection Hw as ->. lia.
  - specialize (IH w Hw). lia.
Qed.

Lemma step_weight r r' : pool_step evaluate cases r r' → run_inv r → run_weight r = S (run_weight r').
Proof.
  intros Hs Hi. pose proof (ri_next r Hi) as Hn. destruct Hs as [w r Hw Hlt|w i c r Hw Hc|w r Hw Hge]; unfold run_weight; cbn [run_next run_workers].
  - pose proof (worker_weight_insert w (Evaluating (run_next r)) _ _ Hw) as H. cbn [worker_weight] in H. lia.
  - pose proof (worker_weight_insert w Waiting _ _ Hw) as H. cbn [worker_weight] in H. lia.
  - pose proof (worker_weight_insert w Returned _ _ Hw) as H. cbn [worker_weight] in H. lia.
Qed.

Lemma pool_nonempty : cases ≠ [] → (0 < pool_size cases concurrency)%nat.
Proof.
  intros Hne. assert (0 < length cases)%nat as Hl by (destruct cases; [done|cbn; lia]). unfold pool_size. cbv zeta.
  destruct (Z.leb_spec concurrency 0); [destruct (Z.ltb_spec (Z.of_nat (length cases)) 1)|destruct (Z.ltb_spec (Z.of_nat (length cases)) concurrency)]; lia.
Qed.

(** Until it is over the pool can move. *)
Lemma run_progress r : run_inv r → run_over cases r ∨ ∃ r', pool_step evaluate cases r r'.
Proof.
  intros Hi. destruct (decide (Forall (fun w => w = Returned) (run_workers r))) as [He|He].
  - left. split; [|done]. destruct (decide (cases = [])) as [Hc|Hc]; [pose proof (ri_next r Hi) as Hn; rewrite Hc in *; cbn in *; lia|].
    pose proof (pool_nonempty Hc) as Hp. rewrite <- (ri_workers r Hi) in Hp. destruct (lookup_lt_is_Some_2 _ 0%nat Hp) as [x Hx].
    pose proof (Forall_lookup_1 _ _ _ _ He Hx) as ->. by apply (ri_returned r Hi) in Hx.
  - right. apply not_Forall_Exists in He; [|apply _]. apply Exists_exists in He as (x & Hx & Hne). apply list_elem_of_lookup in Hx as [w Hw].
    destruct x as [|i|]; [| |by destruct Hne].
    + destruct (decide (run_next r < length cases)%nat) as [Hlt|Hge]; eexists; [by eapply rs_hand|eapply rs_exit; [exact Hw|lia]].
    + pose proof (ri_busy r Hi w i Hw) as Hb. pose proof (ri_next r Hi) as Hn.
      destruct (lookup_lt_is_Some_2 cases i ltac:(lia)) as [c Hc]. eexists. by eapply rs_eval.
Qed.
End Pool.

(** Every case is evaluated once, whatever the number of workers and the schedule: a
    run takes at most two steps a case and one a worker, it never stops before it is
    over, and then the results are those of the cases, in the order of the data set. *)
Theorem batch_run_exact (evaluate : Case → res string (list Score)) (cases : list Case) (concurrency : Z) (k : nat) (r : runner) :
  nsteps (pool_step evaluate cases) k (start_run cases concurrency) r →
  (k ≤ 2 * length cases + pool_size cases concurrency)%nat ∧
  (run_over cases r ∨ ∃ r', pool_step evaluate cases r r') ∧
  (run_over cases r → run_results r = Some <$> (evalCase evaluate <$> cases)).
Proof.
  intros H. assert (run_inv evaluate cases concurrency r) as Hi by (apply reachable_inv, rtc_nsteps; eauto).
  split_and!; [|by eapply run_progress|].
  - assert (∀ k a b, nsteps (pool_step evaluate cases) k a b → run_inv evaluate cases concurrency a → (run_weight cases a = k + run_weight cases b)%nat) as Hk.
    { clear. induction 1 as [|n x y z Hs Hn IH]; intros Hi; [done|]. rewrite (step_weight _ _ _ _ _ Hs Hi), IH; [lia|]. eauto using step_inv. }
    specialize (Hk _ _ _ H (start_inv evaluate cases concurrency)). unfold run_weight in Hk at 1. cbn [start_run run_next run_workers] in Hk.
    assert (sum_list_with worker_weight (replicate (pool_size cases concurrency) Waiting) = pool_size cases concurrency) as Hs.
    { generalize (pool_size cases concurrency). induction n as [|n IHn]; [done|]. simpl. by rewrite IHn. }
    rewrite Hs in Hk. lia.
  - intros [Hn Hret]. apply list_eq. intros i. rewrite !list_lookup_fmap. destruct (cases !! i) as [c|] eqn:Ec.
    + destruct (ri_done _ _ _ r Hi i c Ec) as [Hd|[w Hw]]; [rewrite Hn; by eapply lookup_lt_Some|by rewrite Hd|].
      apply (Forall_lookup_1 _ _ _ _ Hret) in Hw. done.
    + cbn. apply lookup_ge_None_2. rewrite (ri_results _ _ _ r Hi). by apply lookup_ge_None_1.
Qed.

(** ** Reports *)

(** Cases whose evaluation failed weigh nothing: the metrics of a report, and with
    them the verdict against a baseline, are those of the cases that were evaluated,
    however few they are. *)
Theorem failing_cases_weigh_nothing (evaluate : Case → res string (list Score)) (cases : list Case) (dataset : string) (detail : bool)
    (baseline : option (option Report)) (tolerance : float64) :
  let evaluated := List.filter (fun c => match evaluate c with Ok _ => true | Err _ => false end) cases in
  let rep := BuildReport dataset (map (evalCase evaluate) cases) detail in
  let rep' := BuildReport dataset (map (evalCase evaluate) evaluated) detail in
  rep_Metrics rep = rep_Metrics rep' ∧ exit_status rep baseline tolerance = exit_status rep' baseline tolerance ∧
  rep_NumCases rep = length cases.
Proof.
  intros evaluated rep rep'. assert (rep_Metrics rep = rep_Metrics rep') as Hm.
  { unfold rep, rep', BuildReport. cbn [rep_Metrics]. f_equal. unfold accumulate. f_equal. unfold evaluated. clear.
    induction cases as [|c cs IH]; [done|]. cbn [map concat List.filter]. assert (cr_Scores (evalCase evaluate c) = match evaluate c with Ok l => l | Err _ => [] end) as -> by (unfold evalCase; by destruct (evaluate c)).
    destruct (evaluate c) as [l|e] eqn:E; cbn [app].
    - cbn [map concat]. assert (evalCase evaluate c = mkResult (cs_ID c) (cs_Model c) l "") as -> by (unfold evalCase; by rewrite E). cbn [cr_Scores]. by rewrite IH.
    - exact IH. }
  split_and!; [done| |by unfold rep, BuildReport; cbn; rewrite length_map]. unfold exit_status. destruct baseline as [[base|]|]; [|done..].
  assert (CompareBaseline rep base tolerance = CompareBaseline rep' base tolerance) as ->; [|done].
  unfold CompareBaseline, regression_of. by rewrite Hm.
Qed.

(** The accumulator of a metric is folded over its own scores. *)
Definition step_acc (a : option acc) (s : Score) : option acc :=
  let x := sc_Score s in
  let a := default (mkAcc 0 fzero x x 0) a in
  Some (mkAcc (ac_count a + 1) (fadd (ac_sum a) x) (if flt x (ac_min a) then x else ac_min a)
          (if fgt x (ac_max a) then x else ac_max a) (if sc_Passed s then ac_passes a + 1 else ac_passes a)).

Definition of_metric (m : string) (l : list Score) : list Score := List.filter (fun s => String.eqb (sc_Metric s) m) l.

Lemma fold_lookup (l : list Score) (m : string) (by_ : gmap string acc) :
  fold_left add_score l by_ !! m = fold_left step_acc (of_metric m l) (by_ !! m).
Proof.
  revert by_. induction l as [|s l IH]; intros by_; [done|]. cbn [fold_left]. rewrite IH. unfold of_metric. cbn [List.filter].
  unfold add_score. destruct (String.eqb_spec (sc_Metric s) m) as [<-|Hne].
  - by rewrite lookup_insert_eq.
  - by rewrite lookup_insert_ne.
Qed.

Definition acc_ok (l : list Score) (a : acc) : Prop :=
  ac_count a = Z.of_nat (length l) ∧ ac_passes a = Z.of_nat (length (List.filter sc_Passed l)) ∧
  is_NaN (ac_min a) = false ∧ is_NaN (ac_max a) = false ∧
  Forall (fun s => fle (ac_min a) (sc_Score s) = true ∧ fle (sc_Score s) (ac_max a) = true) l ∧
  (∃ s, s ∈ l ∧ sc_Score s = ac_min a) ∧ (∃ s, s ∈ l ∧ sc_Score s = ac_max a).

Lemma step_ok l a s :
  is_NaN (sc_Score s) = false → match a with None => l = [] | Some a0 => acc_ok l a0 end →
  ∃ a', step_acc a s = Some a' ∧ acc_ok (l ++ [s]) a'.
Proof.
  intros Hx Ha. set (x := sc_Score s) in *. eexists. split; [reflexivity|]. unfold acc_ok. cbn [ac_count ac_passes ac_min ac_max]. fold x.
  rewrite length_app, List.filter_app, length_app. cbn [length List.filter].
  assert (∀ P : Score → Prop, Forall P l → P s → Forall P (l ++ [s])%list) as Happ by (intros P ? ?; apply Forall_app; split; [done|by constructor]).
  assert (s ∈ (l ++ [s])%list) as Hs by (apply elem_of_app; right; by left).
  destruct a as [a|]; cbn [from_option]; change (@id acc) with (fun x : acc => x) in *; cbv beta.
  - destruct Ha as (Hc & Hp & Hmin & Hmax & Hall & (s1 & Hs1 & E1) & (s2 & Hs2 & E2)).
    assert (∀ y, y ∈ l → y ∈ (l ++ [s])%list) as Hin by (intros; apply elem_of_app; by left).
    split_and!.
    + lia.
    + destruct (sc_Passed s); cbn; lia.
    + by destruct (flt x (ac_min a)).
    + by destruct (fgt x (ac_max a)).
    + apply Happ.
      * eapply Forall_impl; [exact Hall|]. intros y [H1 H2]. split.
        -- destruct (flt x (ac_min a)) eqn:E; [|done]. eapply fle_trans; [by apply flt_fle|done].
        -- destruct (fgt x (ac_max a)) eqn:E; [|done]. eapply fle_trans; [done|]. by apply flt_fle.
      * fold x. split.
        -- destruct (flt x (ac_min a)) eqn:E; [by apply fle_refl|]. by rewrite fle_not_flt, E.
        -- destruct (fgt x (ac_max a)) eqn:E; [by apply fle_refl|]. change (flt (ac_max a) x = false) in E. by rewrite fle_not_flt, E.
    + destruct (flt x (ac_min a)); [by exists s|]. exists s1. auto.
    + destruct (fgt x (ac_max a)); [by exists s|]. exists s2. auto.
  - subst l. cbn [ac_count ac_passes ac_min ac_max app length List.filter]. unfold fgt. rewrite !flt_irrefl. split_and!; try done.
    + by destruct (sc_Passed s).
    + constructor; [|done]. split; by apply fle_refl.
    + by exists s.
    + by exists s.
Qed.

Lemma fold_ok l2 l1 a :
  Forall (fun s => is_NaN (sc_Score s) = false) l2 → match a with None => l1 = [] | Some a0 => acc_ok l1 a0 end →
  match fold_left step_acc l2 a with None => (l1 ++ l2)%list = [] | Some a0 => acc_ok (l1 ++ l2) a0 end.
Proof.
  revert l1 a. induction l2 as [|s l2 IH]; intros l1 a Hn Ha; cbn [fold_left]; [by rewrite app_nil_r|].
  apply Forall_cons in Hn as [Hx Hn]. destruct (step_ok l1 a s Hx Ha) as (a' & -> & Ha'). specialize (IH (l1 ++ [s])%list (Some a') Hn Ha').
  by rewrite <- app_assoc in IH.
Qed.

(** The summary of a metric stands for its scores: it is there exactly when a case
    was scored by the metric, its count and pass rate are those of the scores, and
    the least and the greatest score are scores that bound all others. *)
Theorem summary_bounds (dataset : string) (results : list CaseResult) (detail : bool) (m : string) :
  let scores := of_metric m (concat (map cr_Scores results)) in
  Forall (fun s => is_NaN (sc_Score s) = false) scores →
  match rep_Metrics (BuildReport dataset results detail) !! m with
  | None => scores = []
  | Some t =>
      mt_Count t = Z.of_nat (length scores) ∧ 0 < mt_Count t ∧
      mt_PassRate t = fdiv (of_Z (Z.of_nat (length (List.filter sc_Passed scores)))) (of_Z (mt_Count t)) ∧
      (∃ s, s ∈ scores ∧ sc_Score s = mt_MinScore t) ∧ (∃ s, s ∈ scores ∧ sc_Score s = mt_MaxScore t) ∧
      Forall (fun s => fle (mt_MinScore t) (sc_Score s) = true ∧ fle (sc_Score s) (mt_MaxScore t) = true) scores
  end.
Proof.
  intros scores Hn. unfold BuildReport, accumulate. cbn [rep_Metrics]. rewrite lookup_fmap, fold_lookup, lookup_empty. fold scores.
  pose proof (fold_ok scores [] None Hn eq_refl) as H. destruct (fold_left step_acc scores None) as [a|]; [|exact H].
  cbn. destruct H as (Hc & Hp & _ & _ & Hall & Hmin & Hmax). cbn [app] in *. split_and!; try done.
  - destruct Hmin as (s & Hs & _). rewrite Hc. destruct scores; [by apply not_elem_of_nil in Hs|cbn; lia].
  - by rewrite Hp.
Qed.

Lemma string_ltb_leb s t : String.ltb s t = negb (String.leb t s).
Proof. unfold String.ltb, String.leb. pose proof (String.compare_antisym s t) as H. destruct (String.compare s t), (String.compare t s); done. Qed.

Lemma string_ltb_asymm s t : String.ltb s t = true → String.ltb t s = false.
Proof.
  rewrite !string_ltb_leb. intros H. apply negb_true_iff in H. apply negb_false_iff. destruct (String.leb_total s t) as [|H']; [done|congruence].
Qed.

Lemma string_ltb_weak x y z : String.ltb x z = true → String.ltb x y = true ∨ String.ltb y z = true.
Proof.
  rewrite !string_ltb_leb, !negb_true_iff. intros H. destruct (String.leb y x) eqn:E1; [|by left]. destruct (String.leb z y) eqn:E2; [|by right].
  assert (String.le z x) as Hz by (transitivity y; apply Is_true_true; assumption). apply Is_true_true in Hz. congruence.
Qed.

(** A comparison reports exactly the metrics of the baseline that fell by more than
    the tolerance, a metric without a score counting as zero, each once and in the
    order of their names. *)
Theorem regressions_exact (rep base : Report) (tolerance : float64) (g : Regression) :
  (g ∈ CompareBaseline rep base tolerance ↔ ∃ m b, rep_Metrics base !! m = Some b ∧ regression_of rep tolerance m b = Some g) ∧
  StronglySorted (fun a b => String.ltb (rg_Metric b) (rg_Metric a) = false) (CompareBaseline rep base tolerance) ∧
  NoDup (map rg_Metric (CompareBaseline rep base tolerance)).
Proof.
  set (l := omap (fun '(m, b) => regression_of rep tolerance m b) (map_to_list (rep_Metrics base))).
  assert (CompareBaseline rep base tolerance ≡ₚ l) as Hp by apply SliceStable_perm. split_and!.
  - rewrite Hp. unfold l. rewrite list_elem_of_omap. split.
    + intros ([m b] & Hin & Hr). exists m, b. split; [by apply elem_of_map_to_list|done].
    + intros (m & b & Hb & Hr). exists (m, b). split; [by apply elem_of_map_to_list|done].
  - unfold CompareBaseline. apply (SliceStable_sorted metric_less (fun _ => True)); [| |by apply Forall_true].
    + intros x y. unfold metric_less. apply string_ltb_asymm.
    + intros x y z _ _ _. unfold metric_less. apply string_ltb_weak.
  - rewrite Hp. unfold l. assert (∀ (k : list (string * MetricSummary)), NoDup (map fst k) →
      NoDup (map rg_Metric (omap (fun '(m, b) => regression_of rep tolerance m b) k)) ∧
      ∀ x, x ∈ map rg_Metric (omap (fun '(m, b) => regression_of rep tolerance m b) k) → x ∈ map fst k) as H.
    { clear. induction k as [|[m b] k IH]; intros Hk; [split; [constructor|done]|]. cbn [map fst] in Hk. apply NoDup_cons in Hk as [Hm Hk].
      destruct (IH Hk) as [IH1 IH2]. cbn. destruct (regression_of rep tolerance m b) as [g|] eqn:E.
      - assert (rg_Metric g = m) as <- by (unfold regression_of in E; destruct (flt _ _); [by injection E as <-|done]). cbn. split.
        + apply NoDup_cons. split; [|done]. intros Hin. by apply Hm, IH2.
        + intros x Hx. apply elem_of_cons in Hx as [->|Hx]; [by left|]. right. by apply IH2.
      - split; [done|]. intros x Hx. right. by apply IH2. }
    apply H. apply NoDup_fst_map_to_list.
Qed.

(** ** Equality of floats, for the leaderboard *)

Lemma feq_rank x y : is_NaN x = false → is_NaN y = false → feq x y = true ↔ rank x = rank y.
Proof.
  intros Hx Hy. pose proof (SFcompare_rank x y Hx Hy) as R. unfold feq, SFeqb.
  destruct (SFcompare x y) as [[]|]; [done| | |done]; (split; [done|]); intros E; rewrite E in R; by apply lex_lt_irrefl in R.
Qed.

Lemma feq_NaN x y : feq x y = true → is_NaN x = false ∧ is_NaN y = false.
Proof. unfold feq, SFeqb. destruct x as [?|?| |[]], y as [?|?| |[]]; cbn; done. Qed.

Lemma feq_sym x y : feq x y = true → feq y x = true.
Proof. intros H. destruct (feq_NaN _ _ H) as [Hx Hy]. apply feq_rank in H; [|done..]. by apply feq_rank. Qed.

Lemma feq_not_gt x y : feq x y = true → fgt x y = false.
Proof.
  intros H. destruct (feq_NaN _ _ H) as [Hx Hy]. apply feq_rank in H; [|done..]. apply not_true_is_false. intros L.
  change (flt y x = true) in L. apply flt_rank in L; [|done..]. rewrite H in L. by apply lex_lt_irrefl in L.
Qed.

Lemma board_asymm a b : board_less a b = true → board_less b a = false.
Proof.
  unfold board_less. destruct (feq (lr_Effective a) (lr_Effective b)) eqn:E.
  - rewrite (feq_sym _ _ E). cbn [negb]. intros H%Z.ltb_lt. apply Z.ltb_ge. lia.
  - cbn [negb]. intros H. assert (feq (lr_Effective b) (lr_Effective a) = false) as -> by (apply not_true_is_false; intros H'%feq_sym; congruence).
    cbn [negb]. by apply flt_asymm.
Qed.

Lemma board_weak a b c :
  is_NaN (lr_Effective a) = false → is_NaN (lr_Effective b) = false → is_NaN (lr_Effective c) = false →
  board_less a c = true → board_less a b = true ∨ board_less b c = true.
Proof.
  intros Ha Hb Hc.
  assert (∀ x y, is_NaN (lr_Effective x) = false → is_NaN (lr_Effective y) = false →
    board_less x y = true ↔ lex_lt (rank (lr_Effective y)) (rank (lr_Effective x)) ∨
      (rank (lr_Effective x) = rank (lr_Effective y) ∧ lr_CompletedAt y < lr_CompletedAt x)) as H.
  { clear. intros x y Hx Hy. unfold board_less. destruct (feq (lr_Effective x) (lr_Effective y)) eqn:E; cbn [negb].
    - apply feq_rank in E; [|done..]. rewrite E, Z.ltb_lt. split; [by right|]. intros [L|[_ L]]; [by apply lex_lt_irrefl in L|done].
    - unfold fgt. change (flt (lr_Effective y) (lr_Effective x) = true ↔ lex_lt (rank (lr_Effective y)) (rank (lr_Effective x)) ∨
        (rank (lr_Effective x) = rank (lr_Effective y) ∧ lr_CompletedAt y < lr_CompletedAt x)). rewrite flt_rank by done.
      split; [by left|]. intros [L|[L _]]; [done|]. apply feq_rank in L; [congruence|done..]. }
  rewrite !H by done. destruct (rank (lr_Effective a)) as [[? ?] ?], (rank (lr_Effective b)) as [[? ?] ?], (rank (lr_Effective c)) as [[? ?] ?].
  cbn [lex_lt]. intros Hl.
  assert (∀ a1 a2 a3 b1 b2 b3 : Z, (a1, a2, a3) = (b1, b2, b3) ↔ a1 = b1 ∧ a2 = b2 ∧ a3 = b3) as Ht by (intros; split; [by intros [= -> -> ->]|by intros (-> & -> & ->)]).
  rewrite !Ht in *. lia.
Qed.

(** ** The quality gate and the leaderboard *)

Section Gate.
Context (exp : float64 → float64) (negLn2 : float64) (snap : gmap string BenchmarkStats) (halfLife : Duration) (now : Time).

Lemma count_fold rs s :
  let s' := fold_left count_result rs s in
  gm_Total s' = (gm_Total s + length rs)%nat ∧ gm_Passed s' = (gm_Passed s + length (List.filter gs_Pass rs))%nat ∧
  gm_Failed s' = (gm_Failed s + length (List.filter (fun r => negb (gs_Pass r)) rs))%nat ∧ gm_Skipped s' = gm_Skipped s.
Proof using.
  revert s. induction rs as [|r rs IH]; intros s; cbn [fold_left length List.filter]; [split_and!; lia|].
  destruct (IH (count_result s r)) as (H1 & H2 & H3 & H4). cbv zeta in *. rewrite H1, H2, H3, H4. unfold count_result.
  destruct (gs_Pass r); cbn; split_and!; lia.
Qed.

(** A gate passes exactly when every model it is asked about, or every model of the
    line-up if it names none, has a settled benchmark within all limits; its summary
    counts every model once, and a failure is handed to the audit only by a run that
    is not a rehearsal. *)
Theorem gate_exact (lineup : list string) (auditor : bool) (req : benchmarkQualityGateRequest) :
  let '(resp, audited) := benchmarkQualityGate exp negLn2 snap halfLife now lineup auditor req in
  let targets := match gr_Models req with [] => lineup | ms => ms end in
  let maxStale := if feq (gr_MaxStaleDays req) fzero then of_Z 30 else gr_MaxStaleDays req in
  (ga_OK resp = true ↔ ∀ m, m ∈ targets → ∃ b, snap !! m = Some b ∧
     (fgt (gr_MinAvgScore req) fzero = true → flt (AvgScore b) (gr_MinAvgScore req) = false) ∧
     fgt (stale_days now b) maxStale = false ∧ fle (Freshness exp negLn2 b halfLife now) fzero = false) ∧
  map gs_Model (ga_Results resp) = targets ∧
  gm_Total (ga_Summary resp) = length targets ∧
  (gm_Passed (ga_Summary resp) + gm_Failed (ga_Summary resp) = length targets)%nat ∧ gm_Skipped (ga_Summary resp) = 0%nat ∧
  audited = negb (gr_DryRun req) && negb (ga_OK resp) && auditor.
Proof using.
  unfold benchmarkQualityGate. set (targets := match gr_Models req with [] => lineup | ms => ms end).
  set (maxStale := if feq (gr_MaxStaleDays req) fzero then _ else _). set (one := gate_one exp negLn2 snap halfLife now (gr_MinAvgScore req) maxStale).
  destruct (count_fold (map one targets) (mkGateSummary 0 0 0 0)) as (H1 & H2 & H3 & H4). cbv zeta in *. cbn [ga_OK ga_Summary ga_Results].
  rewrite H1, H2, H3, H4, length_map. cbn [gm_Total gm_Passed gm_Failed gm_Skipped Nat.add].
  assert (∀ m, gs_Pass (one m) = true ↔ ∃ b, snap !! m = Some b ∧
     (fgt (gr_MinAvgScore req) fzero = true → flt (AvgScore b) (gr_MinAvgScore req) = false) ∧
     fgt (stale_days now b) maxStale = false ∧ fle (Freshness exp negLn2 b halfLife now) fzero = false) as Hone.
  { intros m. unfold one, gate_one. destruct (snap !! m) as [b|]; [|by split; [done|intros (? & ? & _)]]. cbn [gs_Pass]. unfold gate_reasons.
    destruct (fgt (gr_MinAvgScore req) fzero) eqn:E1, (flt (AvgScore b) (gr_MinAvgScore req)) eqn:E2, (fgt (stale_days now b) maxStale) eqn:E3,
      (fle (Freshness exp negLn2 b halfLife now) fzero) eqn:E4; cbn; (split; [intros Hp; try discriminate Hp; by exists b; split_and!|]);
      intros (b' & [= <-] & Ha & Hb & Hc); rewrite ?E2, ?E3, ?E4 in *; try discriminate; try done; by specialize (Ha eq_refl). }
  split_and!; [|by rewrite map_map; unfold one, gate_one; rewrite <- (map_id targets) at 2; apply map_ext; intros m; destruct (snap !! m)| | |done|done].
  - rewrite Nat.eqb_eq, length_zero_iff_nil. split.
    + intros Hf m Hm. apply Hone. apply not_false_is_true. intros Hp.
      assert (one m ∈ List.filter (fun r => negb (gs_Pass r)) (map one targets)) as Hin.
      { apply list_elem_of_In, filter_In. split; [apply in_map; by apply list_elem_of_In|by rewrite Hp]. }
      rewrite Hf in Hin. by apply not_elem_of_nil in Hin.
    + intros Hall. destruct (List.filter (fun r => negb (gs_Pass r)) (map one targets)) as [|r rs] eqn:E; [reflexivity|]. exfalso.
      assert (r ∈ List.filter (fun r => negb (gs_Pass r)) (map one targets)) as Hin by (rewrite E; by left).
      apply list_elem_of_In, filter_In in Hin as [Hin Hp]. apply in_map_iff in Hin as (m & <- & Hm).
      apply list_elem_of_In in Hm. rewrite (proj2 (Hone m) (Hall m Hm)) in Hp. done.
  - lia.
  - clear. induction targets as [|m ms IH]; [done|]. cbn [map List.filter]. destruct (gs_Pass (one m)); cbn [negb length]; lia.
Qed.

(** A gate that has nothing to look at passes: with no model named and none on the
    line-up, as before the first refresh of the router, the answer is OK. *)
Theorem empty_gate_passes (auditor : bool) (req : benchmarkQualityGateRequest) :
  gr_Models req = [] →
  ga_OK (fst (benchmarkQualityGate exp negLn2 snap halfLife now [] auditor req)) = true ∧
  ga_Results (fst (benchmarkQualityGate exp negLn2 snap halfLife now [] auditor req)) = [].
Proof using. unfold benchmarkQualityGate. by intros ->. Qed.

(** The leaderboard has one row a model of the line-up, and a row stands above another
    when the router leans on it harder, or as hard on a later run; what a row shows of
    a run is of the caller's organisation, whatever the score blended. *)
Theorem leaderboard_exact (lineup : list string) (weight : float64) (latest : string → option settled_run) :
  let rows := benchmarkLeaderboard exp negLn2 snap halfLife now lineup weight latest in
  Forall (fun r => is_NaN (lr_Effective r) = false) rows →
  rows ≡ₚ map (board_row exp negLn2 snap halfLife now weight latest) lineup ∧
  StronglySorted (fun a b => fgt (lr_Effective b) (lr_Effective a) = false ∧
    (feq (lr_Effective b) (lr_Effective a) = true → lr_CompletedAt b <= lr_CompletedAt a)) rows.
Proof using.
  intros rows Hn. assert (rows ≡ₚ map (board_row exp negLn2 snap halfLife now weight latest) lineup) as Hp by apply SliceStable_perm.
  split; [done|].
  assert (StronglySorted (fun a b => board_less b a = false) rows) as Hs.
  { apply (SliceStable_sorted board_less (fun r => is_NaN (lr_Effective r) = false)).
    - intros a b. unfold board_less. apply board_asymm.
    - apply board_weak.
    - by rewrite <- Hp. }
  clear Hp. induction Hs as [|a l Hs IH Ha]; constructor.
  - apply IH. by apply Forall_cons in Hn as [_ Hn].
  - eapply Forall_impl; [exact Ha|]. intros b Hb. unfold board_less in Hb.
    destruct (feq (lr_Effective b) (lr_Effective a)) eqn:E; cbn [negb] in Hb.
    + split; [by apply feq_not_gt|]. intros _. by apply Z.ltb_ge in Hb.
    + split; [done|]. by intros [=].
Qed.
End Gate.

(** ** Witnesses *)

Definition demo_case (id out : string) : Case := mkCase id "m" "question" [] out "" [].
Definition demo_score (x : float64) (ok : bool) : Score :=
  mkScore "t" "" "" "" zero_time "heuristic" "completeness" x ok "" "".
(** An evaluator that fails on a case without an output. *)
Definition demo_evaluate (c : Case) : res string (list Score) :=
  if String.eqb (cs_Output c) "" then Err "no output" else Ok [demo_score fone true].

Lemma batch_run_exact_witness :
  let cases := [demo_case "a" "x"] in
  let r := mkRunner 1 [Returned] [Some (evalCase demo_evaluate (demo_case "a" "x"))] in
  (3 ≤ 2 * length cases + pool_size cases 4)%nat ∧
  (run_over cases r ∨ ∃ r', pool_step demo_evaluate cases r r') ∧
  (run_over cases r → run_results r = Some <$> (evalCase demo_evaluate <$> cases)).
Proof.
  intros cases r. apply (batch_run_exact demo_evaluate cases 4 3 r).
  apply (nsteps_l _ 2 _ (mkRunner 1 [Evaluating 0] [None])); [by apply (rs_hand demo_evaluate cases 0); [|cbn; lia]|].
  apply (nsteps_l _ 1 _ (mkRunner 1 [Waiting] (run_results r))); [by apply (rs_eval demo_evaluate cases 0 0 (demo_case "a" "x"))|].
  apply (nsteps_l _ 0 _ r); [by apply (rs_exit demo_evaluate cases 0)|]. constructor.
Defined.

Lemma summary_bounds_witness :
  let results := [evalCase demo_evaluate (demo_case "a" "x"); evalCase demo_evaluate (demo_case "b" "");
                  mkResult "c" "m" [demo_score fzero false] ""] in
  let scores := of_metric "completeness" (concat (map cr_Scores results)) in
  match rep_Metrics (BuildReport "set" results false) !! "completeness" with
  | None => scores = []
  | Some t =>
      mt_Count t = Z.of_nat (length scores) ∧ 0 < mt_Count t ∧
      mt_PassRate t = fdiv (of_Z (Z.of_nat (length (List.filter sc_Passed scores)))) (of_Z (mt_Count t)) ∧
      (∃ s, s ∈ scores ∧ sc_Score s = mt_MinScore t) ∧ (∃ s, s ∈ scores ∧ sc_Score s = mt_MaxScore t) ∧
      Forall (fun s => fle (mt_MinScore t) (sc_Score s) = true ∧ fle (sc_Score s) (mt_MaxScore t) = true) scores
  end.
Proof.
  intros results scores. apply (summary_bounds "set" results false "completeness"). repeat (constructor; [reflexivity|]). constructor.
Defined.

Lemma empty_gate_passes_witness :
  let req := mkGateRequest [] (lit 9 10) fzero false in
  ga_OK (fst (benchmarkQualityGate (fun x => x) fone ∅ 0 0 [] true req)) = true ∧
  ga_Results (fst (benchmarkQualityGate (fun x => x) fone ∅ 0 0 [] true req)) = [].
Proof. intros req. exact (empty_gate_passes (fun x => x) fone ∅ 0 0 true req eq_refl). Defined.

Lemma leaderboard_exact_witness :
  let rows := benchmarkLeaderboard (fun x => x) fone {[ "a" := mkBench (lit 1 2) 5; "b" := mkBench (lit 3 4) 5 ]} 0 9 ["a"; "b"; "c"] fone (fun _ => None) in
  rows ≡ₚ map (board_row (fun x => x) fone {[ "a" := mkBench (lit 1 2) 5; "b" := mkBench (lit 3 4) 5 ]} 0 9 fone (fun _ => None)) ["a"; "b"; "c"] ∧
  StronglySorted (fun a b => fgt (lr_Effective b) (lr_Effective a) = false ∧
    (feq (lr_Effective b) (lr_Effective a) = true → lr_CompletedAt b <= lr_CompletedAt a)) rows.
Proof.
  intros rows. apply leaderboard_exact. vm_compute. repeat (constructor; [reflexivity|]). constructor.
Defined.
