(* ===== verification/BenchConsole.v ===== *)
(** * BenchConsole: src/internal/console/benchmarks.go, benchmark_history.go,
    benchmark_push_report.go and src/internal/core/recent_benchmarks.go

    The requests of the console about benchmark runs, the credential of their
    provider, the history of a model and the reports of pushed environments.  The life
    cycle of a run behind them is [Bench]; bodies arrive decoded, [None] standing for
    a body that does not decode. *)

From stdpp Require Import gmap.
From S2P Require Import Prelude GoString GoTime GoSort Float64 ApiErr Net CoreStore Console Bench Router EvalConsole.
Local Open Scope string_scope.
Local Open Scope Z_scope.

(** ** Errors *)

Definition benchmarkErrStatus (e : bench_err) : Z :=
  match e with
  | BenchNotFound => 404
  | ErrConflict => 409
  | ErrNoToken | ErrInvalidRequest _ => 400
  | BenchOther _ => 500
  end.

Definition benchmarkErrCode (e : bench_err) : Code :=
  match e with
  | BenchNotFound => CodeNotFound
  | ErrConflict => CodeConflict
  | ErrNoToken | ErrInvalidRequest _ => CodeInvalidRequest
  | BenchOther _ => CodeInternalError
  end.

(** The texts of an error and of what it wraps, from the outside in. *)
Definition error_chain (e : bench_err) : list string :=
  match e with
  | ErrInvalidRequest _ => [err_text e; "benchmark: invalid request"]
  | _ => [err_text e]
  end.

Fixpoint stripWrappedLeaf (chain : list string) : string :=
  match chain with
  | [] => ""
  | s :: rest =>
      match LastIndex s ": " with
      | Some i =>
          let cand := TrimSpace (drop_bytes (i + 2) s) in
          if String.eqb cand "" then stripWrappedLeaf rest else cand
      | None => stripWrappedLeaf rest
      end
  end.

Definition benchmarkErrMessage (e : bench_err) : string :=
  match e with
  | BenchNotFound => "the requested benchmark run was not found"
  | ErrConflict => "the benchmark run is already in a terminal state"
  | ErrNoToken => "a benchmark provider credential is not configured"
  | ErrInvalidRequest _ =>
      let leaf := stripWrappedLeaf (error_chain e) in
      if String.eqb leaf "" then "the benchmark input is invalid" else leaf
  | BenchOther _ => ""
  end.

(** ** Answers *)

Inductive bench_body :=
| BError (msg : string)
| BPublic (b : Body)
| BRuns (runs : list BenchmarkRun) (routing : bool) (cap : Z)
| BRun (run : BenchmarkRun)
| BRefused (run : option BenchmarkRun)
| BDone
| BLogs (text : string)
| BUpdated (n : Z)
| BProbe (warning : option string)
| BCredential (configured : bool) (team : string).

Record bench_reply := mkBReply { bp_status : Z; bp_body : bench_body }.

(** A line handed to the audit, before it is scrubbed. *)
Record bench_audit := mkBAudit { ba_actor : string; ba_org : string; ba_action : string; ba_target : string; ba_detail : string }.

(** [failBenchmark]; the console puts no request id into the context, and [resp.HTTP]
    makes one up. *)
Definition failBenchmark (made_up : string) (e : bench_err) : bench_reply :=
  let msg := benchmarkErrMessage e in
  let code := benchmarkErrCode e in
  mkBReply (benchmarkErrStatus e)
    (BPublic (if String.eqb msg "" then mkBody code (defaultMessage code) made_up else mkBody code (Message code msg) "")).

Definition not_configured : bench_reply :=
  mkBReply 503 (BError "benchmarks are not configured: this deployment has no control-plane database").
Definition bad_json : bench_reply := mkBReply 400 (BError "invalid JSON").

Record launchBenchmarkRequest := mkLaunchBody {
  lb_Name : string; lb_Environments : list string; lb_Model : string; lb_NumExamples : Z; lb_Rollouts : Z; lb_TimeoutMinutes : Z;
  lb_ViaGateway : bool
}.

(** ** Runs *)

Section Runs.
(** What the runner meets, its drift watcher, the request id made up for an error,
    the request and the administrator who sent it. *)
Context (E : benv) (watch : RunLite → option DriftAlert) (made_up : string) (r : Request) (u : User).

Definition bresult : Type := bench_reply * option bench_audit * bworld.

Definition org_of_request : string := orgID r (Some u).

Definition audited (action target detail : string) : option bench_audit :=
  Some (mkBAudit (u_ID u) org_of_request action target detail).

Definition GatewayRoutingAvailable : bool := negb (String.eqb (be_gateway E) "").

(** [benchmarkOrg]. *)
Definition benchmarkOrg : string := if String.eqb (u_OrgID u) "" then org_of_request else u_OrgID u.

Definition listBenchmarks (limit : string) (w : bworld) : bresult :=
  (mkBReply 200 (BRuns (ListBenchmarkRuns org_of_request (default 0 (Atoi limit)) (bw_runs w)) GatewayRoutingAvailable MaxTotalSamples), None, w).

Definition or_else (dflt n : Z) : Z := if n =? 0 then dflt else n.

Definition launch_spec (b : launchBenchmarkRequest) : LaunchSpec :=
  mkSpec benchmarkOrg (u_ID u) (lb_Name b) "" (lb_Environments b) (lb_Model b) (or_else 5 (lb_NumExamples b)) (or_else 1 (lb_Rollouts b))
    (lb_TimeoutMinutes b) (lb_ViaGateway b).

Definition launchBenchmark (body : option launchBenchmarkRequest) (w : bworld) : bresult :=
  match body with
  | None => (bad_json, None, w)
  | Some b =>
      let '(run, e, w) := Launch E (launch_spec b) w in
      match e with
      | Some e => (mkBReply (benchmarkErrStatus e) (BRefused (if String.eqb (br_ID run) "" then None else Some run)), None, w)
      | None => (mkBReply 201 (BRun run), audited "benchmark.launch" (br_ID run) (br_Model run), w)
      end
  end.

(** [ownedBenchmark]: the answer written, or the run. *)
Definition ownedBenchmark (w : bworld) : bench_reply + BenchmarkRun :=
  match GetBenchmarkRun (rq_Param r) (bw_runs w) with
  | None => inl (failBenchmark made_up BenchNotFound)
  | Some run =>
      if String.eqb (orgOr (br_OrgID run)) org_of_request then inr run else inl (mkBReply 404 (BError "benchmark run not found"))
  end.

Definition getBenchmark (w : bworld) : bresult :=
  match ownedBenchmark w with inl p => (p, None, w) | inr run => (mkBReply 200 (BRun run), None, w) end.

Definition acted (action : string) (run : BenchmarkRun) (x : option bench_err * bworld) : bresult :=
  match x with
  | (Some e, w) => (failBenchmark made_up e, None, w)
  | (None, w) => (mkBReply 200 BDone, audited action (br_ID run) "", w)
  end.

Definition cancelBenchmark (w : bworld) : bresult :=
  match ownedBenchmark w with inl p => (p, None, w) | inr run => acted "benchmark.cancel" run (Cancel E (br_ID run) w) end.

Definition deleteBenchmark (w : bworld) : bresult :=
  match ownedBenchmark w with inl p => (p, None, w) | inr run => acted "benchmark.delete" run (bench_Delete E (br_ID run) w) end.

Definition benchmarkLogs (w : bworld) : bresult :=
  match ownedBenchmark w with
  | inl p => (p, None, w)
  | inr run => (match bench_Logs E (br_ID run) w with Err e => failBenchmark made_up e | Ok l => mkBReply 200 (BLogs l) end, None, w)
  end.

Definition refreshBenchmarks (w : bworld) : bresult :=
  let '(n, _, w) := PollOnce E watch w in (mkBReply 200 (BUpdated n), None, w).

Definition dryRunBenchmark (body : option (list string * string * Z)) (w : bworld) : bresult :=
  match body with
  | None => (bad_json, None, w)
  | Some (envs, model, minutes) =>
      match bench_DryRun E (mkSpec "" "" "" "" envs model 0 0 minutes false) with
      | Err e => (mkBReply (benchmarkErrStatus e) (BRefused None), None, w)
      | Ok warning => (mkBReply 200 (BProbe (if String.eqb warning "" then None else Some warning)), None, w)
      end
  end.

(** The requests of the group [/eval/benchmarks] that concern runs. *)
Inductive run_request :=
| RList (limit : string) | RLaunch (body : option launchBenchmarkRequest) | RGet | RCancel | RDelete | RLogs | RRefresh
| RValidate (body : option (list string * string * Z)).

(** [ready] tells whether the runner is wired. *)
Definition handle_run (ready : bool) (q : run_request) (w : bworld) : bresult :=
  if negb ready then (not_configured, None, w)
  else match q with
  | RList limit => listBenchmarks limit w
  | RLaunch body => launchBenchmark body w
  | RGet => getBenchmark w
  | RCancel => cancelBenchmark w
  | RDelete => deleteBenchmark w
  | RLogs => benchmarkLogs w
  | RRefresh => refreshBenchmarks w
  | RValidate body => dryRunBenchmark body w
  end.
End Runs.

(** ** The provider's credential

    One entry of the vault of plugin keys under a reserved name; [db] tells whether
    the table can be reached. *)

Definition CredentialName : string := "benchmark-primeintellect".
Definition CredentialKey : string := "api_key".
Definition CredentialTeamIDKey : string := "team_id".

Definition credential_value (name : string) (stored : option keymap) : string := default "" (stored ≫= fun kv => kv !! name).

(** [benchmarkTokens] of cmd/nexus/benchmarks.go: what the runner is given. *)
Definition credential_Token (db : bool) (provider : string) (c : key_cache) (v : vault) : string :=
  if negb (String.eqb provider ProviderPrime) then "" else credential_value CredentialKey (fst (keys_Get db CredentialName c v)).
Definition credential_TeamID (db : bool) (provider : string) (c : key_cache) (v : vault) : string :=
  if negb (String.eqb provider ProviderPrime) then "" else credential_value CredentialTeamIDKey (fst (keys_Get db CredentialName c v)).

Definition cred_result : Type := bench_reply * option bench_audit * key_cache * vault.

Definition storage_not_wired : bench_reply := mkBReply 503 (BError "credential storage is not wired").

Section Credential.
Context (made_up : string) (r : Request) (u : User) (db : bool).

Definition getBenchmarkCredential (c : key_cache) (v : vault) : cred_result :=
  let '(has, c) := keys_Get db CredentialName c v in
  let '(stored, c) := keys_Get db CredentialName c v in
  (mkBReply 200 (BCredential (match has with Some _ => true | None => false end) (credential_value CredentialTeamIDKey stored)), None, c, v).

(** The entry a body makes of the one there was; [None] when it has no key. *)
Definition merged_credential (stored : option keymap) (api_key team : string) : option keymap :=
  let kv := default ∅ stored in
  let apiKey := TrimSpace api_key in
  let kv := if String.eqb apiKey "" then kv else <[CredentialKey := apiKey]> kv in
  if String.eqb (default "" (kv !! CredentialKey)) "" then None
  else let team := TrimSpace team in Some (if String.eqb team "" then delete CredentialTeamIDKey kv else <[CredentialTeamIDKey := team]> kv).

(** The body is the key and the team. *)
Definition putBenchmarkCredential (body : option (string * string)) (c : key_cache) (v : vault) : cred_result :=
  match body with
  | None => (bad_json, None, c, v)
  | Some (api_key, team) =>
      let '(stored, c) := keys_Get db CredentialName c v in
      match merged_credential stored api_key team with
      | None => (mkBReply 400 (BError "api_key is required"), None, c, v)
      | Some kv =>
          match keys_Set db CredentialName kv c v with
          | (false, c, v) => (failBenchmark made_up (BenchOther "the key was not stored"), None, c, v)
          | (true, c, v) =>
              (mkBReply 200 (BCredential true (default "" (kv !! CredentialTeamIDKey))), audited r u "benchmark.credential.set" ProviderPrime "", c, v)
          end
      end
  end.

Definition deleteBenchmarkCredential (c : key_cache) (v : vault) : cred_result :=
  match keys_Clear db CredentialName c v with
  | (false, c, v) => (failBenchmark made_up (BenchOther "the key was not cleared"), None, c, v)
  | (true, c, v) => (mkBReply 200 (BCredential false ""), audited r u "benchmark.credential.clear" ProviderPrime "", c, v)
  end.
End Credential.

(** ** recent_benchmarks.go *)

Record RecentBenchmarkRun := mkRecent {
  rb_ID : string; rb_Model : string; rb_AvgScore : option float64; rb_MinScore : option float64; rb_MaxScore : option float64;
  rb_TotalSamples : option Z; rb_CompletedAt : option Time
}.

Definition recent_of (r : BenchmarkRun) : RecentBenchmarkRun :=
  mkRecent (br_ID r) (br_Model r) (br_AvgScore r) (br_MinScore r) (br_MaxScore r) (br_TotalSamples r) (br_CompletedAt r).

Definition recent_limit (limit : Z) : nat := Z.to_nat (if limit <=? 0 then 5 else if 200 <? limit then 200 else limit).

(** The condition of the statement; no [org] asks for every organisation's. *)
Definition settled_of (org model : string) (r : BenchmarkRun) : bool :=
  String.eqb (br_Model r) model && String.eqb (br_Status r) StatusCompleted &&
  match br_AvgScore r, br_CompletedAt r with Some _, Some _ => true | _, _ => false end &&
  (String.eqb org "" || String.eqb (orgOr (br_OrgID r)) org).

Definition completed_time (t : option Time) : Time := default zero_time t.

Definition ListRecentSettledByModel (org model : string) (limit : Z) (t : runs_table) : res bench_err (list RecentBenchmarkRun) :=
  if String.eqb model "" then Err (BenchOther "core: model is required")
  else Ok (map recent_of (firstn (recent_limit limit)
    (SliceStable (fun a b => completed_time (br_CompletedAt b) <? completed_time (br_CompletedAt a))
      (List.filter (settled_of org model) (map snd (map_to_list t)))))).

Definition GetLatestSettledByModel (org model : string) (t : runs_table) : res bench_err BenchmarkRun :=
  if String.eqb model "" then Err (ErrInvalidRequest "model is required")
  else match ListRecentSettledByModel org model 1 t with
  | Err e => Err e
  | Ok [] => Err BenchNotFound
  | Ok (head :: _) => match GetBenchmarkRun (rb_ID head) t with None => Err BenchNotFound | Some run => Ok run end
  end.

(** ** benchmark_history.go *)

Record benchmarkHistoryEntry := mkEntry {
  he_RunID : string; he_AvgScore : float64; he_MinScore : float64; he_MaxScore : float64; he_CompletedAt : Time; he_TotalSamples : Z;
  he_DeltaPrev : float64; he_FreshnessWeight : float64
}.
Record benchmarkHistoryTrend := mkTrend { tr_Direction : string; tr_AvgLast5 : float64; tr_AvgPrev5 : float64; tr_Delta : float64 }.

Definition benchmarkHistoryLimitDefault : Z := 50.

Definition mean (xs : list float64) : float64 :=
  match xs with [] => fzero | _ => fdiv (fold_left fadd xs fzero) (of_Z (Z.of_nat (length xs))) end.

Definition splitWindows (rows : list benchmarkHistoryEntry) : list float64 * list float64 :=
  (map he_AvgScore (firstn 5 rows), map he_AvgScore (firstn 5 (skipn 5 rows))).

Definition trend_of (rows : list benchmarkHistoryEntry) : benchmarkHistoryTrend :=
  let '(last, prevWindow) := splitWindows rows in
  let a := mean last in
  let b := mean prevWindow in
  let delta := fsub a b in
  mkTrend (if fgt delta (lit 1 100) then "up" else if flt delta (fopp (lit 1 100)) then "down" else "flat") a b delta.

Section History.
(** [math.Exp], its constant, the half-life and the clock. *)
Context (exp : float64 → float64) (negLn2 : float64) (halfLife : Duration) (now : Time).

Definition history_entry (prev : option float64) (row : RecentBenchmarkRun) : benchmarkHistoryEntry :=
  let avg := default fzero (rb_AvgScore row) in
  let at_ := completed_time (rb_CompletedAt row) in
  mkEntry (rb_ID row) avg (default fzero (rb_MinScore row)) (default fzero (rb_MaxScore row)) at_ (default 0 (rb_TotalSamples row))
    (match prev with Some p => fsub avg p | None => fzero end) (Freshness exp negLn2 (mkBench avg at_) halfLife now).

Fixpoint history_entries (prev : option float64) (rows : list RecentBenchmarkRun) : list benchmarkHistoryEntry :=
  match rows with
  | [] => []
  | row :: rest => let e := history_entry prev row in e :: history_entries (Some (he_AvgScore e)) rest
  end.

Definition newer_run (a b : RecentBenchmarkRun) : bool := completed_time (rb_CompletedAt b) <? completed_time (rb_CompletedAt a).

(** The rows and the trend, or a status. *)
Definition benchmarkHistory (ready : bool) (org model : string) (t : runs_table) : Z + list benchmarkHistoryEntry * benchmarkHistoryTrend :=
  if negb ready then inl 503
  else if String.eqb model "" then inl 400
  else match ListRecentSettledByModel org model benchmarkHistoryLimitDefault t with
  | Err _ => inl 500
  | Ok rows => let entries := history_entries None (SliceStable newer_run rows) in inr (entries, trend_of entries)
  end.
End History.

(** ** benchmark_push_report.go *)

Definition pushReportTTL : Duration := 24 * Hour.
Definition maxPushReports : nat := 256.

Record PushReport := mkPush { pr_Slug : string; pr_OK : bool; pr_CompletedAt : Time; pr_ReceivedAt : Time }.
Abbreviation pushReportStore := (gmap string PushReport).

Definition push_expired (now : Time) (p : PushReport) : Prop := pushReportTTL < Sub now (pr_ReceivedAt p).
#[global] Instance push_expired_dec now p : Decision (push_expired now p) := Z_lt_dec _ _.

Definition pruneLocked (now : Time) (m : pushReportStore) : pushReportStore := base.filter (fun '(_, p) => ¬ push_expired now p) m.

Section Push.
(** The order in which a pass over the map meets its entries. *)
Context (ord : pushReportStore → list (string * PushReport)).

Definition older_of (best : string * Time) (x : string * PushReport) : string * Time :=
  let '(oldestSlug, oldest) := best in
  if String.eqb oldestSlug "" || (pr_ReceivedAt (snd x) <? oldest) then (fst x, pr_ReceivedAt (snd x)) else best.

Definition dropOldestLocked (m : pushReportStore) : pushReportStore :=
  let '(oldestSlug, _) := fold_left older_of (ord m) ("", zero_time) in
  if String.eqb oldestSlug "" then m else delete oldestSlug m.

Definition put_report (rep : PushReport) (now : Time) (m : pushReportStore) : pushReportStore :=
  let m := pruneLocked now m in
  let m := if (maxPushReports <=? size m)%nat then match m !! pr_Slug rep with Some _ => m | None => dropOldestLocked m end else m in
  <[pr_Slug rep := rep]> m.

Definition list_reports (now : Time) (m : pushReportStore) : list PushReport * pushReportStore :=
  let m := pruneLocked now m in
  (SliceStable (fun a b => pr_ReceivedAt b <? pr_ReceivedAt a) (map snd (ord m)), m).

(** The body is the slug, the verdict when there is one and the time of the push, which
    [parse] reads. *)
Definition reportEnvPush (parse : string → option Time) (now : Time) (body : option (string * option bool * string)) (m : pushReportStore) :
    Z * pushReportStore :=
  match body with
  | None => (400, m)
  | Some (raw, ok, at_) =>
      let slug := TrimSpace raw in
      if String.eqb slug "" then (400, m)
      else match ok with
      | None => (400, m)
      | Some ok =>
          let completed := if String.eqb at_ "" then now else default now (parse at_) in
          (200, put_report (mkPush slug ok completed now) now m)
      end
  end.

Definition listEnvPushReports (now : Time) (m : pushReportStore) : list PushReport * pushReportStore := list_reports now m.
End Push.
