(* ===== verification/BenchConsoleProps.v ===== *)
(** * BenchConsoleProps: what the console promises about benchmarks

    An administrator's requests reach the runs of the own organisation only, the
    history of a model is that of its runs, the reports of pushes stay bounded, a
    stored credential is the one the runner uses.  The gaps: the answers for a run of
    another organisation and for none differ, deleting forgets a job that still runs, a
    refused credential is used all the same, one window of history reads as a rise. *)

From stdpp Require Import gmap sorting.
From S2P Require Import Prelude GoString GoTime GoSort Float64 ApiErr Net CoreStore Console Bench Router EvalConsole BenchConsole.
Local Open Scope string_scope.
Local Open Scope Z_scope.

(** ** Runs *)

Section Runs.
Context (E : benv) (watch : RunLite → option DriftAlert) (made_up : string) (r : Request) (u : User).

#[local] Abbreviation org := (org_of_request r u).

Lemma org_not_empty : org ≠ "".
Proof using.
  unfold org_of_request, orgID. destruct (String.eqb_spec (u_OrgID u) "") as [|Hne]; [|done].
  destruct (String.eqb_spec (TrimSpace (header r "X-Org-Id")) "") as [|Hne]; done.
Qed.

Lemma benchmarkOrg_is_org : benchmarkOrg r u = org.
Proof using. unfold benchmarkOrg, org_of_request, orgID. by destruct (String.eqb (u_OrgID u) ""). Qed.

(** The rows of other ids are as they were, and a row there was keeps its organisation. *)
Definition only_touches (id : string) (w w' : bworld) : Prop := ∀ id', id' ≠ id → bw_runs w' !! id' = bw_runs w !! id'.

Lemma only_touches_refl id w : only_touches id w w.
Proof. done. Qed.
Lemma only_touches_trans id w1 w2 w3 : only_touches id w1 w2 → only_touches id w2 w3 → only_touches id w1 w3.
Proof. intros H1 H2 id' Hne. by rewrite H2, H1. Qed.

Lemma revoke_leaves_rows run w : bw_runs (bench_revokeKey E run w) = bw_runs w.
Proof. unfold bench_revokeKey. by destruct (_ || _). Qed.

Lemma revoke_touches id run w : only_touches id w (bench_revokeKey E run w).
Proof. intros id' _. by rewrite revoke_leaves_rows. Qed.

Lemma update_touches row w w' : update E row w = Ok w' → only_touches (br_ID row) w w'.
Proof.
  unfold update, UpdateBenchmarkRunProgress. intros H id' Hne. repeat case_match; try discriminate.
  injection H as <-. simplify_eq. cbn. by rewrite lookup_insert_ne.
Qed.

Lemma clear_touches id w : only_touches id w (clear E id w).
Proof. intros id' Hne. unfold clear, ClearBenchmarkRunVKey. case_match; [|done]. cbn. by rewrite lookup_alter_ne. Qed.

Lemma settles_touches run w : only_touches (br_ID run) w (snd (cancel_settles E run w)).
Proof.
  unfold cancel_settles. destruct (update E _ _) as [w'|e] eqn:Hu; cbn [snd].
  - apply update_touches in Hu. cbn [br_ID set_outcome no_run] in Hu.
    eapply only_touches_trans; [apply (revoke_touches _ run)|]. eapply only_touches_trans; [exact Hu|apply clear_touches].
  - apply revoke_touches.
Qed.

(** Rows are stored under their id. *)
Definition keyed (w : bworld) : Prop := ∀ id row, bw_runs w !! id = Some row → br_ID row = id.

Lemma cancel_touches id w : keyed w → only_touches id w (snd (Cancel E id w)).
Proof.
  intros Hk. unfold Cancel, GetBenchmarkRun. destruct (bw_runs w !! id) as [run|] eqn:Hr; [|done]. rewrite <- (Hk _ _ Hr).
  repeat case_match; try done; apply settles_touches.
Qed.

Lemma delete_touches id w : keyed w → only_touches id w (snd (bench_Delete E id w)).
Proof.
  intros Hk. unfold bench_Delete, GetBenchmarkRun. destruct (bw_runs w !! id) as [run|] eqn:Hr; [|done].
  set (w1 := if Settled (br_Status run) then w else _). assert (only_touches id w w1) as H1 by (unfold w1; destruct (Settled _); [done|by apply cancel_touches]).
  unfold DeleteBenchmarkRun. destruct (bw_runs (bench_revokeKey E run w1) !! id); cbn [snd].
  - intros id' Hne. cbn. rewrite lookup_delete_ne by done. rewrite revoke_leaves_rows. by apply H1.
  - eapply only_touches_trans; [exact H1|apply revoke_touches].
Qed.

(** A launch adds at most a row, under the new id, which belongs to the organisation
    asked for. *)
Lemma launch_touches spec w :
  (∀ id row, bw_runs w !! id = Some row → bw_runs (snd (Launch E spec w)) !! id = Some row) ∧
  (∀ id row, bw_runs w !! id = None → bw_runs (snd (Launch E spec w)) !! id = Some row → br_OrgID row = sp_OrgID spec) ∧
  (snd (fst (Launch E spec w)) = None ∨ br_ID (fst (fst (Launch E spec w))) ≠ "" → br_OrgID (fst (fst (Launch E spec w))) = sp_OrgID spec).
Proof.
  assert (∀ token req vk w, br_ID (new_run E spec vk) = be_uuid E ∧
    (∀ id row, bw_runs w !! id = Some row → bw_runs (snd (launch_recorded E token req (new_run E spec vk) w)) !! id = Some row) ∧
    (∀ id row, bw_runs w !! id = None → bw_runs (snd (launch_recorded E token req (new_run E spec vk) w)) !! id = Some row → br_OrgID row = sp_OrgID spec) ∧
    (snd (fst (launch_recorded E token req (new_run E spec vk) w)) = None ∨ br_ID (fst (fst (launch_recorded E token req (new_run E spec vk) w))) ≠ "" → br_OrgID (fst (fst (launch_recorded E token req (new_run E spec vk) w))) = sp_OrgID spec)) as H.
  { clear w. intros token req vk w. split; [done|]. unfold launch_recorded.
    destruct (if be_create E then CreateBenchmarkRun (be_now E) (new_run E spec vk) (bw_runs w) else _) as [t|e] eqn:Hc.
    2: { cbn [fst snd]. rewrite revoke_leaves_rows. split_and!; [done|congruence|by intros [|]]. }
    destruct (be_create E); [|done].
    assert (bw_runs w !! be_uuid E = None ∧ ∃ row, t = <[be_uuid E := row]> (bw_runs w) ∧ br_OrgID row = sp_OrgID spec) as (Hnew & row0 & -> & Horg).
    { unfold CreateBenchmarkRun in Hc. repeat case_match; try discriminate. injection Hc as <-. split; [done|]. eexists. by split. }
    assert (∀ run' w', br_ID run' = be_uuid E → update E run' (with_runs (<[be_uuid E := row0]> (bw_runs w)) w) = Ok w' →
      ∃ row1, bw_runs w' = <[be_uuid E := row1]> (bw_runs w) ∧ br_OrgID row1 = sp_OrgID spec) as Hup.
    { intros run' w' Hid Hu. unfold update, UpdateBenchmarkRunProgress in Hu. repeat case_match; try discriminate. injection Hu as <-.
      simplify_eq. cbn in *. rewrite Hid, lookup_insert_eq in *. simplify_eq. rewrite insert_insert_eq. eexists. by split. }
    assert (∀ run' w1, br_ID run' = be_uuid E →
      w1 = (match update E run' (with_runs (<[be_uuid E := row0]> (bw_runs w)) w) with Ok w' => w' | Err _ => with_runs (<[be_uuid E := row0]> (bw_runs w)) w end) →
      ∃ row1, bw_runs w1 = <[be_uuid E := row1]> (bw_runs w) ∧ br_OrgID row1 = sp_OrgID spec) as Hw1.
    { intros run' w1 Hid ->. destruct (update E run' _) as [w'|e] eqn:Hu; [by apply (Hup run')|]. cbn. eauto. }
    assert (∀ w1 row1, bw_runs w1 = <[be_uuid E := row1]> (bw_runs w) → br_OrgID row1 = sp_OrgID spec →
      (∀ id row, bw_runs w !! id = Some row → bw_runs w1 !! id = Some row) ∧
      (∀ id row, bw_runs w !! id = None → bw_runs w1 !! id = Some row → br_OrgID row = sp_OrgID spec)) as Hfin.
    { intros w1 row1 -> Ho. split; intros id row Hr; [rewrite lookup_insert_ne; [done|congruence]|].
      intros Hs. apply lookup_insert_Some in Hs as [[_ <-]|[_ Hs]]; [done|congruence]. }
    destruct (client_Launch _ _ _) as [out [e|]]; cbn [fst snd].
    - edestruct (Hw1 (set_outcome StatusFailed "" (ls_EvaluationID out) (err_text e) (new_run E spec vk))) as (row1 & Hr1 & Ho1); [done|reflexivity|].
      rewrite revoke_leaves_rows. destruct (Hfin _ _ Hr1 Ho1) as [Ha Hb]. by split_and!.
    - edestruct (Hw1 (set_outcome (NormalizeStatus (ls_Status out)) (ls_Status out) (ls_EvaluationID out)
        (if String.eqb (NormalizeStatus (ls_Status out)) StatusFailed && negb (String.eqb (TrimSpace (ls_Error out)) "") then TrimSpace (ls_Error out) else "")
        (new_run E spec vk))) as (row1 & Hr1 & Ho1); [done|reflexivity|]. destruct (Hfin _ _ Hr1 Ho1) as [Ha Hb]. by split_and!. }
  unfold Launch. repeat (case_match; try (cbn [fst snd]; split_and!; [done|congruence|by intros [|]])).
  all: match goal with |- context [launch_recorded _ ?token ?req (new_run _ _ ?vk) ?w0] => exact (proj2 (H token req vk w0)) end.
Qed.

(** What an answer shows of runs. *)
Definition shown (b : bench_body) : list BenchmarkRun :=
  match b with BRuns l _ _ => l | BRun run => [run] | BRefused (Some run) => [run] | _ => [] end.

Lemma owned_run_org w run : ownedBenchmark made_up r u w = inr run → bw_runs w !! rq_Param r = Some run ∧ orgOr (br_OrgID run) = org.
Proof using.
  unfold ownedBenchmark, GetBenchmarkRun. destruct (bw_runs w !! rq_Param r) as [x|]; [|done].
  destruct (String.eqb_spec (orgOr (br_OrgID x)) org) as [Ho|]; [|done]. by intros [= <-].
Qed.

Lemma owned_none w p : ownedBenchmark made_up r u w = inl p → shown (bp_body p) = [].
Proof using. unfold ownedBenchmark, failBenchmark. repeat case_match; by intros [= <-]. Qed.

Lemma orgOr_org : orgOr org = org.
Proof using. pose proof org_not_empty. unfold orgOr. by destruct (String.eqb_spec org ""). Qed.

(** Requests stay within the organisation of the caller: an answer shows runs of it
    alone, and the rows of other organisations are left as they are by every request
    but the refresh, which polls all of them; a row that appears is the caller's. *)
Theorem runs_confined (ready : bool) (q : run_request) (w : bworld) (id : string) (row : BenchmarkRun) :
  keyed w →
  let '(p, _, w') := handle_run E watch made_up r u ready q w in
  (∀ run, run ∈ shown (bp_body p) → orgOr (br_OrgID run) = org) ∧
  (q ≠ RRefresh → bw_runs w !! id = Some row → orgOr (br_OrgID row) ≠ org → bw_runs w' !! id = Some row) ∧
  (q ≠ RRefresh → bw_runs w !! id = None → bw_runs w' !! id = Some row → orgOr (br_OrgID row) = org).
Proof using.
  intros Hk. destruct (handle_run E watch made_up r u ready q w) as [[p a] w'] eqn:Hh.
  assert (∀ l : list BenchmarkRun, l = [] → ∀ run, run ∈ l → orgOr (br_OrgID run) = org) as Hnil by (intros ? -> ? Hin; by apply not_elem_of_nil in Hin).
  assert (bw_runs w !! id = None → bw_runs w !! id = Some row → orgOr (br_OrgID row) = org) as Hno by congruence.
  assert (∀ p' a', (p', a', w) = (p, a, w') → shown (bp_body p') = [] →
    (∀ run, run ∈ shown (bp_body p) → orgOr (br_OrgID run) = org) ∧
    (q ≠ RRefresh → bw_runs w !! id = Some row → orgOr (br_OrgID row) ≠ org → bw_runs w' !! id = Some row) ∧
    (q ≠ RRefresh → bw_runs w !! id = None → bw_runs w' !! id = Some row → orgOr (br_OrgID row) = org)) as Hsame.
  { intros p' a' [= -> -> <-] Hs. split_and!; [by apply Hnil|done|by intros _]. }
  unfold handle_run in Hh. destruct ready; cbn [negb] in Hh; [|by eapply Hsame].
  assert (∀ run (f : bworld → option bench_err * bworld) action, ownedBenchmark made_up r u w = inr run → acted made_up r u action run (f w) = (p, a, w') →
    only_touches (rq_Param r) w (snd (f w)) →
    (∀ run, run ∈ shown (bp_body p) → orgOr (br_OrgID run) = org) ∧
    (q ≠ RRefresh → bw_runs w !! id = Some row → orgOr (br_OrgID row) ≠ org → bw_runs w' !! id = Some row) ∧
    (q ≠ RRefresh → bw_runs w !! id = None → bw_runs w' !! id = Some row → orgOr (br_OrgID row) = org)) as Hact.
  { intros run f action Ho Ha Ht. apply owned_run_org in Ho as [Hr Ho]. assert (w' = snd (f w) ∧ shown (bp_body p) = []) as [-> Hs].
    { unfold acted, failBenchmark in Ha. destruct (f w) as [[e|] w1]; injection Ha as <- <- <-; done. }
    split_and!; [by apply Hnil| |].
    - intros _ Hrow Hne. destruct (decide (id = rq_Param r)) as [->|Hd]; [congruence|]. by rewrite Ht.
    - intros _ Hrow Hnew. destruct (decide (id = rq_Param r)) as [->|Hd]; [congruence|]. rewrite Ht in Hnew by done. congruence. }
  destruct q as [limit|body| | | | | |body]; cbn iota in Hh.
  - unfold listBenchmarks in Hh. injection Hh as <- <- <-. cbn [bp_body shown]. split_and!; auto.
    intros run Hin. unfold ListBenchmarkRuns in Hin. apply elem_of_take in Hin as (i & Hin & _). apply list_elem_of_lookup_2 in Hin.
    rewrite SliceStable_perm in Hin. apply list_elem_of_In, filter_In in Hin as [_ Hf]. pose proof org_not_empty as Hne.
    destruct (String.eqb_spec org ""); [done|]. cbn [orb] in Hf. apply String.eqb_eq in Hf. rewrite Hf. apply orgOr_org.
  - unfold launchBenchmark in Hh. destruct body as [b|]; [|by eapply Hsame].
    destruct (launch_touches (launch_spec r u b) w) as (H1 & H2 & H3). destruct (Launch E (launch_spec r u b) w) as [[run e] w1]. cbn [fst snd] in *.
    assert (sp_OrgID (launch_spec r u b) = org) as Hso by apply benchmarkOrg_is_org. rewrite Hso in *.
    assert (w' = w1 ∧ ∀ x, x ∈ shown (bp_body p) → x = run ∧ (e = None ∨ br_ID run ≠ "")) as [-> Hs].
    { destruct e as [e|]; injection Hh as <- <- <-; (split; [done|]); cbn [bp_body shown]; intros x Hx.
      - destruct (String.eqb_spec (br_ID run) ""); [by apply not_elem_of_nil in Hx|]. apply list_elem_of_singleton in Hx as ->. eauto.
      - apply list_elem_of_singleton in Hx as ->. eauto. }
    split_and!; [|auto|intros _ Hn Hr'; rewrite (H2 id row Hn Hr'); apply orgOr_org].
    intros x Hx. apply Hs in Hx as [-> Hx]. rewrite H3 by tauto. apply orgOr_org.
  - unfold getBenchmark in Hh. destruct (ownedBenchmark made_up r u w) as [p'|run] eqn:Ho; [eapply Hsame; [exact Hh|by apply owned_none in Ho]|].
    injection Hh as <- <- <-. apply owned_run_org in Ho as [_ Ho]. split_and!; auto. cbn [bp_body shown]. by intros x ->%list_elem_of_singleton.
  - unfold cancelBenchmark in Hh. destruct (ownedBenchmark made_up r u w) as [p'|run] eqn:Ho; [eapply Hsame; [exact Hh|by apply owned_none in Ho]|].
    eapply (Hact run (fun w => Cancel E (br_ID run) w)); [done|exact Hh|]. apply owned_run_org in Ho as [Hr _]. rewrite (Hk _ _ Hr). by apply cancel_touches.
  - unfold deleteBenchmark in Hh. destruct (ownedBenchmark made_up r u w) as [p'|run] eqn:Ho; [eapply Hsame; [exact Hh|by apply owned_none in Ho]|].
    eapply (Hact run (fun w => bench_Delete E (br_ID run) w)); [done|exact Hh|]. apply owned_run_org in Ho as [Hr _]. rewrite (Hk _ _ Hr). by apply delete_touches.
  - unfold benchmarkLogs in Hh. destruct (ownedBenchmark made_up r u w) as [p'|run] eqn:Ho; (eapply Hsame; [exact Hh|]); [by apply owned_none in Ho|].
    by destruct (bench_Logs E (br_ID run) w).
  - unfold refreshBenchmarks in Hh. destruct (PollOnce E watch w) as [[n al] w1]. injection Hh as <- <- <-. split_and!; [by apply Hnil|done|done].
  - unfold dryRunBenchmark in Hh. destruct body as [[[envs model] minutes]|]; [|by eapply Hsame].
    destruct (bench_DryRun E _); by eapply Hsame.
Qed.

(** A request for an id is answered 404 both when no run has it and when a run of
    another organisation does, but with different bodies: whoever tries ids learns
    which exist. *)
Theorem foreign_run_told_apart (w : bworld) (row : BenchmarkRun) (free : bworld) :
  bw_runs w !! rq_Param r = Some row → orgOr (br_OrgID row) ≠ org → bw_runs free !! rq_Param r = None →
  let foreign := fst (fst (getBenchmark made_up r u w)) in
  let absent := fst (fst (getBenchmark made_up r u free)) in
  bp_status foreign = 404 ∧ bp_status absent = 404 ∧ bp_body foreign ≠ bp_body absent.
Proof using.
  intros Hr Hne Hf. unfold getBenchmark, ownedBenchmark, GetBenchmarkRun. rewrite Hr, Hf.
  destruct (String.eqb_spec (orgOr (br_OrgID row)) org); [done|]. by split_and!.
Qed.

(** Deleting a run that is still going when the provider's key is missing answers 200
    and drops the row: the job goes on at the provider with nothing that follows it. *)
Theorem delete_forgets_job (w : bworld) (row : BenchmarkRun) :
  bw_runs w !! rq_Param r = Some row → br_ID row = rq_Param r → orgOr (br_OrgID row) = org →
  Settled (br_Status row) = false → br_ExternalID row ≠ "" → be_token E = Some "" →
  let '(p, _, w') := deleteBenchmark E made_up r u w in
  bp_status p = 200 ∧ bw_runs w' = delete (rq_Param r) (bw_runs w).
Proof using.
  intros Hr Hid Ho Hs Hx Ht. unfold deleteBenchmark, ownedBenchmark, GetBenchmarkRun. rewrite Hr, Ho, String.eqb_refl.
  rewrite Hid. unfold bench_Delete, GetBenchmarkRun. rewrite Hr, Hs.
  assert (Cancel E (rq_Param r) w = (Some ErrNoToken, w)) as ->.
  { unfold Cancel, GetBenchmarkRun. rewrite Hr, Hs. destruct (String.eqb_spec (br_ExternalID row) ""); [done|]. by rewrite Ht. }
  cbn [snd]. unfold DeleteBenchmarkRun. rewrite !revoke_leaves_rows, Hr. by unfold acted.
Qed.

(** ** Rows stay under their ids *)

Lemma keyed_revoke run w : keyed w → keyed (bench_revokeKey E run w).
Proof using. intros Hk id row. rewrite revoke_leaves_rows. apply Hk. Qed.

Lemma keyed_update row w : keyed w → keyed (match update E row w with Ok w' => w' | Err _ => w end).
Proof using.
  intros Hk. destruct (update E row w) as [w'|e] eqn:Hu; [|done]. unfold update, UpdateBenchmarkRunProgress in Hu.
  repeat case_match; try discriminate. injection Hu as <-. intros id' row' Hl. simplify_eq. cbn in Hl.
  apply lookup_insert_Some in Hl as [[<- <-]|[_ Hl]]; [|by apply Hk]. cbn. by apply Hk.
Qed.

Lemma keyed_clear id w : keyed w → keyed (clear E id w).
Proof using.
  intros Hk. unfold clear, ClearBenchmarkRunVKey. destruct (be_clear E); [|done]. intros id' row' Hl. cbn in Hl.
  apply lookup_alter_Some in Hl as [(-> & x & Hx & ->)|[_ Hl]]; [cbn; by apply Hk|by apply Hk].
Qed.

Lemma keyed_settles run w : keyed w → keyed (snd (cancel_settles E run w)).
Proof using.
  intros Hk. unfold cancel_settles. pose proof (keyed_update (set_outcome StatusCancelled (br_ExternalStatus run) "" "" (no_run (br_ID run))) _ (keyed_revoke run w Hk)) as H.
  destruct (update E _ _); cbn [snd]; [by apply keyed_clear|done].
Qed.

Lemma keyed_cancel id w : keyed w → keyed (snd (Cancel E id w)).
Proof using. intros Hk. unfold Cancel. repeat case_match; try done; by apply keyed_settles. Qed.

Lemma keyed_delete id w : keyed w → keyed (snd (bench_Delete E id w)).
Proof using.
  intros Hk. unfold bench_Delete. destruct (GetBenchmarkRun id (bw_runs w)) as [run|]; [|done]. cbv zeta.
  set (w1 := if Settled (br_Status run) then w else _). assert (keyed (bench_revokeKey E run w1)) as H1.
  { apply keyed_revoke. unfold w1. destruct (Settled _); [done|by apply keyed_cancel]. }
  unfold DeleteBenchmarkRun. destruct (bw_runs (bench_revokeKey E run w1) !! id); [|done]. cbn [snd]. intros id' row' Hl. cbn in Hl. apply lookup_delete_Some in Hl as [_ Hl]. by apply H1.
Qed.

Lemma keyed_launch spec w : keyed w → keyed (snd (Launch E spec w)).
Proof using.
  assert (∀ token req run w, keyed w → keyed (snd (launch_recorded E token req run w))) as H.
  { clear w. intros token req run w Hk. unfold launch_recorded.
    destruct (if be_create E then CreateBenchmarkRun (be_now E) run (bw_runs w) else _) as [t|e] eqn:Hc; [|by apply keyed_revoke].
    assert (keyed (with_runs t w)) as Ht.
    { destruct (be_create E); [|done]. unfold CreateBenchmarkRun in Hc. repeat case_match; try discriminate. injection Hc as <-.
      intros id row Hl. cbn in Hl. apply lookup_insert_Some in Hl as [[<- <-]|[_ Hl]]; [done|by apply Hk]. }
    destruct (client_Launch _ _ _) as [out [e|]]; cbn [snd]; [apply keyed_revoke|]; by apply keyed_update. }
  intros Hk. unfold Launch. repeat (case_match; try done); by apply H.
Qed.

Lemma keyed_apply run ev w : keyed w → keyed (snd (applyStatus E run ev w)).
Proof using.
  intros Hk. unfold applyStatus. cbv zeta. set (w1 := if _ && _ then _ else _).
  assert (keyed w1) as H1 by (unfold w1; case_match; [by apply keyed_clear, keyed_revoke|done]).
  pose proof (keyed_update (status_row run ev) w1 H1) as H2. by destruct (update E (status_row run ev) w1).
Qed.

Lemma keyed_poll runs changed alerts w : keyed w → keyed (snd (poll_loop E watch runs changed alerts w)).
Proof using.
  revert changed alerts w. induction runs as [|run runs IH]; intros changed alerts w Hk; [done|]. cbn [poll_loop].
  destruct (vd_status _ _) as [ev|]; [|by apply IH]. pose proof (keyed_apply run ev w Hk) as H.
  destruct (applyStatus E run ev w) as [[[[] lite] st] w1]; by apply IH.
Qed.

(** Every request keeps the rows under their own ids. *)
Theorem rows_stay_keyed (ready : bool) (q : run_request) (w : bworld) :
  keyed w → keyed (snd (handle_run E watch made_up r u ready q w)).
Proof using.
  intros Hk. unfold handle_run. destruct ready; [cbn [negb]|done].
  assert (∀ action run (x : option bench_err * bworld), keyed (snd x) → keyed (snd (acted made_up r u action run x))) as Ha by (by intros action run [[e|] w']).
  destruct q as [limit|body| | | | | |body]; cbn iota.
  - done.
  - unfold launchBenchmark. destruct body as [b|]; [|done]. pose proof (keyed_launch (launch_spec r u b) w Hk) as H.
    destruct (Launch E (launch_spec r u b) w) as [[run [e|]] w1]; done.
  - unfold getBenchmark. by case_match.
  - unfold cancelBenchmark. case_match; [done|]. by apply Ha, keyed_cancel.
  - unfold deleteBenchmark. case_match; [done|]. by apply Ha, keyed_delete.
  - unfold benchmarkLogs. by case_match.
  - unfold refreshBenchmarks, PollOnce. destruct (ListUnsettledBenchmarkRuns _ _) as [|x l]; [done|]. destruct (be_token E) as [token|]; [|done].
    destruct (String.eqb token ""); [done|]. pose proof (keyed_poll (x :: l) 0 [] w Hk) as H. by destruct (poll_loop E watch (x :: l) 0 [] w) as [[n al] w1].
  - unfold dryRunBenchmark. by repeat case_match.
Qed.
End Runs.

(** ** Reasons *)

Lemma LastIndex_wrap why i :
  LastIndex why ": " = i →
  LastIndex ("benchmark: invalid request: " +:+ why) ": " = Some (match i with Some j => 28 + j | None => 26 end)%nat.
Proof.
  intros Hi. cbv [String.append]. cbn [LastIndex]. rewrite Hi. destruct i as [j|]; [reflexivity|].
  cbn [HasPrefix]. destruct (HasPrefix (String " " why) ": ") eqn:E; [by cbn in E|]. reflexivity.
Qed.

(** The reason of a refused request reaches the caller whole when it holds no colon
    followed by a blank, and is cut to what follows the last one when it does. *)
Theorem reason_shown_from_last_colon (made_up why : string) :
  let leaf := TrimSpace (match LastIndex why ": " with Some i => drop_bytes (i + 2) why | None => why end) in
  leaf ≠ "" →
  bp_status (failBenchmark made_up (ErrInvalidRequest why)) = 400 ∧
  bp_body (failBenchmark made_up (ErrInvalidRequest why)) = BPublic (mkBody CodeInvalidRequest (Message CodeInvalidRequest leaf) "").
Proof.
  intros leaf Hl. split; [done|]. assert (benchmarkErrMessage (ErrInvalidRequest why) = leaf) as Hm.
  { unfold benchmarkErrMessage. cbn [error_chain err_text stripWrappedLeaf]. rewrite (LastIndex_wrap why _ eq_refl).
    assert (TrimSpace (drop_bytes (match LastIndex why ": " with Some j => 28 + j | None => 26 end + 2) ("benchmark: invalid request: " +:+ why)) = leaf) as ->.
    { unfold leaf. cbv [String.append]. by destruct (LastIndex why ": "). }
    destruct (String.eqb_spec leaf ""); [done|]. by destruct (String.eqb_spec leaf ""). }
  unfold failBenchmark. rewrite Hm. destruct (String.eqb_spec leaf ""); [done|]. done.
Qed.

(** ** The credential *)

Lemma stored_after_set (kv : keymap) (c : key_cache) (v : vault) (ok : bool) c' v' (db : bool) k x :
  keys_Set db CredentialName kv c v = (ok, c', v') → kv !! k = Some x → x ≠ "" →
  credential_value k (fst (keys_Get db CredentialName c' v')) = x.
Proof.
  intros Hs Hk Hx. unfold keys_Set in Hs. assert (set_values kv !! k = Some x) as Hset by (by apply map_lookup_filter_Some).
  assert (set_values kv ≠ ∅) as Hne by (intros He; rewrite He in Hset; by rewrite lookup_empty in Hset).
  rewrite decide_False in Hs by done. cbv zeta in Hs.
  assert (c' = <[CredentialName := set_values kv]> c) as -> by (destruct (db && _); congruence).
  unfold keys_Get, keys_cached. rewrite lookup_insert_eq, decide_False by done. cbn. by rewrite Hset.
Qed.

(** The key an administrator stores is the one the runner asks the provider with from
    then on, together with the team of the same form; this holds also when the table
    could not be written and the request was answered 500. *)
Theorem stored_credential_is_used (made_up : string) (r : Request) (u : User) (db : bool) (api_key team : string) (c : key_cache) (v : vault) :
  TrimSpace api_key ≠ "" →
  let '(p, _, c', v') := putBenchmarkCredential made_up r u db (Some (api_key, team)) c v in
  credential_Token db ProviderPrime c' v' = TrimSpace api_key ∧ credential_TeamID db ProviderPrime c' v' = TrimSpace team ∧
  bp_status p = (if db then 200 else 500).
Proof.
  intros Hne. unfold putBenchmarkCredential. destruct (keys_Get db CredentialName c v) as [stored c0].
  unfold merged_credential. destruct (String.eqb_spec (TrimSpace api_key) ""); [done|]. rewrite lookup_insert_eq.
  change (default "" (Some (TrimSpace api_key))) with (TrimSpace api_key). destruct (String.eqb_spec (TrimSpace api_key) ""); [done|]. set (kv0 := <[CredentialKey := TrimSpace api_key]> _).
  set (kv := if String.eqb (TrimSpace team) "" then _ else _).
  assert (kv !! CredentialKey = Some (TrimSpace api_key)) as Hk by (unfold kv; case_match; [rewrite lookup_delete_ne by done|rewrite lookup_insert_ne by done]; apply lookup_insert_eq).
  destruct (keys_Set db CredentialName kv c0 v) as [[ok c'] v'] eqn:Hs. pose proof (stored_after_set kv c0 v ok c' v' db _ _ Hs Hk Hne) as Ht.
  assert (credential_TeamID db ProviderPrime c' v' = TrimSpace team) as Hteam.
  { unfold credential_TeamID. cbn [negb]. destruct (String.eqb_spec (TrimSpace team) "") as [He|Hte].
    - rewrite He. unfold keys_Set in Hs. assert (set_values kv !! CredentialKey = Some (TrimSpace api_key)) as Hset by (by apply map_lookup_filter_Some).
      assert (set_values kv ≠ ∅) as Hse by (intros He'; rewrite He' in Hset; by rewrite lookup_empty in Hset).
      rewrite decide_False in Hs by done. cbv zeta in Hs. assert (c' = <[CredentialName := set_values kv]> c0) as -> by (destruct (db && _); congruence).
      unfold keys_Get, keys_cached. rewrite lookup_insert_eq, decide_False by done. cbn. replace (set_values kv !! CredentialTeamIDKey) with (@None string); [done|].
      symmetry. apply map_lookup_filter_None. left. unfold kv. apply lookup_delete_eq.
    - assert (kv !! CredentialTeamIDKey = Some (TrimSpace team)) as Hkt by (unfold kv; apply lookup_insert_eq).
      exact (stored_after_set kv c0 v ok c' v' db _ _ Hs Hkt Hte). }
  assert (ok = db) as -> by (unfold keys_Set in Hs; destruct db; cbn in Hs; congruence).
  unfold credential_Token. cbn [negb]. destruct db; by split_and!.
Qed.

(** ** The history of a model *)

(** Sorting by a time, the latest first. *)
Lemma latest_first {A} (f : A → Time) (l : list A) :
  StronglySorted (fun a b => f b <= f a) (SliceStable (fun a b => f b <? f a) l).
Proof.
  assert (StronglySorted (fun a b => (f a <? f b) = false) (SliceStable (fun a b => f b <? f a) l)) as H.
  { apply (SliceStable_sorted (fun a b => f b <? f a) (fun _ => True)); [| |by apply Forall_true].
    - intros x y H%Z.ltb_lt. apply Z.ltb_ge. lia.
    - intros x y z _ _ _ H%Z.ltb_lt. rewrite !Z.ltb_lt. lia. }
  induction H as [|a m _ IH Ha]; constructor; [done|]. eapply Forall_impl; [exact Ha|]. intros b Hb. by apply Z.ltb_ge in Hb.
Qed.

Section History.
Context (exp : float64 → float64) (negLn2 : float64) (halfLife : Duration) (now : Time).

#[local] Abbreviation entry := (history_entry exp negLn2 halfLife now).
#[local] Abbreviation entries_of := (history_entries exp negLn2 halfLife now).

Lemma entries_lookup prev rows i :
  entries_of prev rows !! i = (fun row => entry (match i with O => prev | S j => he_AvgScore <$> entries_of prev rows !! j end) row) <$> rows !! i.
Proof using.
  revert prev i. induction rows as [|row rows IH]; intros prev [|i]; try done. cbn [history_entries lookup list_lookup]. 
  change (entries_of (Some (he_AvgScore (entry prev row))) rows !! i = (fun row0 => entry (he_AvgScore <$> (entry prev row :: entries_of (Some (he_AvgScore (entry prev row))) rows) !! i) row0) <$> rows !! i).
  rewrite IH. destruct i; [done|]. done.
Qed.

Lemma entries_length prev rows : length (entries_of prev rows) = length rows.
Proof using. revert prev. induction rows as [|row rows IH]; intros prev; [done|]. cbn. by rewrite IH. Qed.

(** The history of a model is that of the caller's organisation: the newest fifty runs
    of the model it completed with a score, newest first, each with its own score and
    time; the change shown beside a run is its score less that of the next newer run. *)
Theorem history_exact (org model : string) (t : runs_table) :
  org ≠ "" → model ≠ "" →
  ∃ entries, benchmarkHistory exp negLn2 halfLife now true org model t = inr (entries, trend_of entries) ∧
  length entries = Nat.min 50 (length (List.filter (settled_of org model) (map snd (map_to_list t)))) ∧
  (∀ e, e ∈ entries → ∃ id row, t !! id = Some row ∧ br_Model row = model ∧ orgOr (br_OrgID row) = org ∧ br_Status row = StatusCompleted ∧
     he_RunID e = br_ID row ∧ br_AvgScore row = Some (he_AvgScore e) ∧ br_CompletedAt row = Some (he_CompletedAt e)) ∧
  StronglySorted (fun a b => he_CompletedAt b <= he_CompletedAt a) entries ∧
  (∀ i a b, entries !! i = Some a → entries !! S i = Some b → he_DeltaPrev b = fsub (he_AvgScore b) (he_AvgScore a)).
Proof using.
  intros Ho Hm. unfold benchmarkHistory, ListRecentSettledByModel. cbn [negb]. destruct (String.eqb_spec model ""); [done|].
  set (l := List.filter (settled_of org model) (map snd (map_to_list t))). change (recent_limit benchmarkHistoryLimitDefault) with 50%nat.
  set (s := SliceStable _ l). set (rows := map recent_of (firstn 50 s)).
  assert (∀ row, row ∈ rows → ∃ id x, t !! id = Some x ∧ settled_of org model x = true ∧ row = recent_of x) as Hrows.
  { intros row Hin. unfold rows in Hin. apply list_elem_of_In, in_map_iff in Hin as (x & <- & Hx). apply list_elem_of_In, elem_of_take in Hx as (i & Hx & _).
    apply list_elem_of_lookup_2 in Hx. unfold s in Hx. rewrite SliceStable_perm in Hx. apply list_elem_of_In, filter_In in Hx as [Hx Hs].
    apply in_map_iff in Hx as ([id y] & <- & Hy). apply list_elem_of_In, elem_of_map_to_list in Hy. cbn in *. eauto. }
  set (sorted := SliceStable newer_run rows). assert (sorted ≡ₚ rows) as Hp by apply SliceStable_perm.
  exists (entries_of None sorted). split; [done|]. split_and!.
  - rewrite entries_length, Hp. unfold rows. rewrite length_map, length_take. unfold s. by rewrite SliceStable_perm.
  - intros e He. apply list_elem_of_lookup in He as [i He]. rewrite entries_lookup in He. apply fmap_Some in He as (row & Hrow & ->).
    apply list_elem_of_lookup_2 in Hrow. rewrite Hp in Hrow. apply Hrows in Hrow as (id & x & Hx & Hs & ->). exists id, x.
    unfold settled_of in Hs. destruct (br_AvgScore x) as [avg|] eqn:Ea; [|by rewrite andb_false_r in Hs].
    destruct (br_CompletedAt x) as [at_|] eqn:Ec; [|by rewrite andb_false_r in Hs].
    apply andb_prop in Hs as [Hs Horg]. apply andb_prop in Hs as [Hs _]. apply andb_prop in Hs as [Hmod Hst].
    apply String.eqb_eq in Hmod, Hst. destruct (String.eqb_spec org ""); [done|]. cbn [orb] in Horg. apply String.eqb_eq in Horg.
    split_and!; try done; unfold history_entry, recent_of; cbn; by rewrite ?Ea, ?Ec.
  - pose proof (latest_first (fun r => completed_time (rb_CompletedAt r)) rows) as Hs. change (SliceStable _ rows) with sorted in Hs.
    clear Hp. generalize (@None float64). induction Hs as [|a rest Hs IH Ha]; intros prev; [constructor|]. cbn [history_entries]. constructor; [apply IH|].
    apply Forall_forall. intros e He. apply list_elem_of_lookup in He as [i He]. rewrite entries_lookup in He. apply fmap_Some in He as (row & Hrow & ->).
    apply list_elem_of_lookup_2 in Hrow. rewrite Forall_forall in Ha. exact (Ha _ Hrow).
  - intros i a b Ha Hb. rewrite entries_lookup in Hb. apply fmap_Some in Hb as (row & _ & ->). by rewrite Ha.
Qed.

(** With one window of runs or less there is nothing to compare with, and the trend is
    taken against zero: any score above a hundredth reads as a rise. *)
Theorem one_window_reads_up (entries : list benchmarkHistoryEntry) :
  (length entries ≤ 5)%nat → fgt (fsub (mean (map he_AvgScore entries)) fzero) (lit 1 100) = true →
  tr_AvgPrev5 (trend_of entries) = fzero ∧ tr_Direction (trend_of entries) = "up".
Proof using.
  intros Hl Hup. unfold trend_of, splitWindows. rewrite skipn_all2, firstn_all2 by lia. cbn [firstn map mean]. by rewrite Hup.
Qed.
End History.

(** ** Reports of pushes *)

Section Push.
Context (ord : pushReportStore → list (string * PushReport)) (ord_perm : ∀ m, ord m ≡ₚ map_to_list m) (parse : string → option Time).

(** At most [maxPushReports] reports, each under its own name. *)
Definition push_ok (m : pushReportStore) : Prop := (size m ≤ maxPushReports)%nat ∧ ∀ slug p, m !! slug = Some p → pr_Slug p = slug ∧ slug ≠ "".

Lemma oldest_spec l best :
  fst best ≠ "" → Forall (fun x => fst x ≠ "") l →
  let '(slug, t) := fold_left older_of l best in
  slug ≠ "" ∧ t <= snd best ∧ Forall (fun x => t <= pr_ReceivedAt (snd x)) l ∧
  ((slug, t) = best ∨ ∃ x, x ∈ l ∧ slug = fst x ∧ t = pr_ReceivedAt (snd x)).
Proof using.
  revert best. induction l as [|x l IH]; intros [slug0 t0] Hb Hl; [cbn; split_and!; [done|lia|done|by left]|].
  apply Forall_cons in Hl as [Hx Hl]. cbn [fold_left]. cbn in Hb. unfold older_of at 2. destruct (String.eqb_spec slug0 ""); [done|]. cbn [orb].
  destruct (Z.ltb_spec (pr_ReceivedAt (snd x)) t0) as [Hlt|Hge].
  - specialize (IH (fst x, pr_ReceivedAt (snd x)) Hx Hl). destruct (fold_left older_of l _) as [slug t]. destruct IH as (H1 & H2 & H3 & H4). cbn [snd] in *.
    split_and!; [done|lia|by constructor|]. right. destruct H4 as [[= -> ->]|(y & Hy & -> & ->)]; [exists x; split_and!; [by left|done|done]|exists y; split_and!; [by right|done|done]].
  - specialize (IH (slug0, t0) Hb Hl). destruct (fold_left older_of l _) as [slug t]. destruct IH as (H1 & H2 & H3 & H4). cbn [snd] in *.
    split_and!; [done|done|constructor; [lia|done]|]. destruct H4 as [H4|(y & Hy & -> & ->)]; [by left|]. right. exists y. split_and!; [by right|done|done].
Qed.

Lemma drop_spec m :
  (∀ slug p, m !! slug = Some p → slug ≠ "") → m ≠ ∅ →
  ∃ slug p, m !! slug = Some p ∧ dropOldestLocked ord m = delete slug m ∧ ∀ slug' p', m !! slug' = Some p' → pr_ReceivedAt p <= pr_ReceivedAt p'.
Proof using ord_perm.
  intros Hs Hne. unfold dropOldestLocked.
  assert (∀ x, x ∈ ord m → m !! fst x = Some (snd x)) as Hin by (intros [k p] Hx; rewrite ord_perm in Hx; by apply elem_of_map_to_list in Hx).
  assert (∀ k p, m !! k = Some p → (k, p) ∈ ord m) as Hin' by (intros k p Hx; rewrite ord_perm; by apply elem_of_map_to_list).
  destruct (ord m) as [|x l] eqn:E.
  { destruct Hne. apply map_empty. intros k. destruct (m !! k) as [p|] eqn:Ek; [|done]. apply Hin' in Ek. by apply not_elem_of_nil in Ek. }
  assert (fst x ≠ "") as Hx by (eapply Hs, Hin; by left). cbn [fold_left]. change (older_of ("", zero_time) x) with (fst x, pr_ReceivedAt (snd x)).
  assert (Forall (fun x => fst x ≠ "") l) as Hl by (apply Forall_forall; intros y Hy; eapply Hs, Hin; by right).
  pose proof (oldest_spec l (fst x, pr_ReceivedAt (snd x)) Hx Hl) as H. destruct (fold_left older_of l _) as [slug t].
  destruct H as (H1 & H2 & H3 & H4). cbn [snd] in H2. destruct (String.eqb_spec slug ""); [done|].
  assert (∃ y, y ∈ x :: l ∧ slug = fst y ∧ t = pr_ReceivedAt (snd y)) as (y & Hy & -> & ->).
  { destruct H4 as [[= -> ->]|(y & Hy & -> & ->)]; [exists x; split_and!; [by left|done|done]|exists y; split_and!; [by right|done|done]]. }
  exists (fst y), (snd y). split_and!; [by apply Hin|done|]. intros slug' p' Hp'. apply Hin' in Hp'. apply elem_of_cons in Hp' as [<-|Hp']; [done|].
  rewrite Forall_forall in H3. by apply (H3 _ Hp').
Qed.

Lemma prune_sub now m slug p : pruneLocked now m !! slug = Some p → m !! slug = Some p ∧ ¬ push_expired now p.
Proof using. unfold pruneLocked. rewrite map_lookup_filter_Some. done. Qed.

Lemma put_ok rep now m : pr_Slug rep ≠ "" → push_ok m → push_ok (put_report ord rep now m).
Proof using ord_perm.
  intros Hr [Hsz Hk]. unfold put_report. cbv zeta. set (m1 := pruneLocked now m).
  assert (push_ok m1) as [Hsz1 Hk1].
  { split; [|intros slug p Hp; apply prune_sub in Hp as [Hp _]; by apply Hk]. etransitivity; [|exact Hsz]. apply map_size_filter. }
  assert (∀ m2, (∀ slug p, m2 !! slug = Some p → pr_Slug p = slug ∧ slug ≠ "") → (m2 !! pr_Slug rep ≠ None ∧ size m2 ≤ maxPushReports ∨ size m2 < maxPushReports)%nat →
    push_ok (<[pr_Slug rep := rep]> m2)) as Hins.
  { intros m2 Hk2 Hs2. split.
    - rewrite map_size_insert. destruct (m2 !! pr_Slug rep); [|destruct Hs2 as [[? _]|]; [done|cbn in *; lia]]. unfold id; destruct Hs2 as [[_ ?]|?]; lia.
    - intros slug p Hp. apply lookup_insert_Some in Hp as [[<- <-]|[_ Hp]]; [done|by apply Hk2]. }
  destruct (Nat.leb_spec maxPushReports (size m1)) as [Hge|Hlt]; [|apply Hins; [done|by right]].
  destruct (m1 !! pr_Slug rep) eqn:Er; [apply Hins; [done|left; split; [by rewrite Er|done]]|].
  destruct (drop_spec m1) as (slug & p & Hp & -> & _); [intros ? ? H; by apply Hk1 in H as [_ H]|intros He; rewrite He, map_size_empty in Hge; unfold maxPushReports in Hge; lia|].
  apply Hins; [intros ? ? [_ H]%lookup_delete_Some; by apply Hk1|]. right. rewrite map_size_delete_Some by eauto. 
  assert (0 < size m1)%nat by (unfold maxPushReports in Hge; lia). lia.
Qed.

(** The requests about pushes, at the times they arrive. *)
Inductive push_request := PReport (body : option (string * option bool * string)) | PList.

Definition push_step (m : pushReportStore) (q : Time * push_request) : pushReportStore :=
  match snd q with
  | PReport body => snd (reportEnvPush ord parse (fst q) body m)
  | PList => snd (listEnvPushReports ord (fst q) m)
  end.

Lemma push_step_ok m q : push_ok m → push_ok (push_step m q).
Proof using ord_perm.
  intros Hm. unfold push_step. destruct q as [now [[[[raw ok] at_]|]|]]; cbn [fst snd]; [|done|].
  - unfold reportEnvPush. cbv zeta. destruct (String.eqb_spec (TrimSpace raw) ""); [done|]. destruct ok as [ok|]; [|done]. cbn [snd]. by apply put_ok.
  - destruct Hm as [Hsz Hk]. split; [|intros slug p Hp; apply prune_sub in Hp as [Hp _]; by apply Hk]. etransitivity; [|exact Hsz]. apply map_size_filter.
Qed.

(** However many reports arrive, at most 256 are held.  A listing shows each report of
    the last day once, the latest first, and none that is older; a report that is
    accepted is listed from then on, and when it displaces another one that is the
    oldest. *)
Theorem push_reports_bounded (history : list (Time * push_request)) (now : Time) (slug : string) (ok : bool) (at_ : string) :
  let m := fold_left push_step history ∅ in
  let '(shown, _) := listEnvPushReports ord now m in
  let '(status, m') := reportEnvPush ord parse now (Some (slug, Some ok, at_)) m in
  (size m ≤ 256)%nat ∧ (length shown ≤ 256)%nat ∧ NoDup (map pr_Slug shown) ∧
  StronglySorted (fun a b => pr_ReceivedAt b <= pr_ReceivedAt a) shown ∧
  (∀ p, p ∈ shown ↔ m !! pr_Slug p = Some p ∧ Sub now (pr_ReceivedAt p) <= 24 * Hour) ∧
  (TrimSpace slug ≠ "" → status = 200 ∧ (∃ p, m' !! TrimSpace slug = Some p ∧ pr_OK p = ok ∧ pr_ReceivedAt p = now) ∧
     ∀ p, p ∈ shown → pr_Slug p ≠ TrimSpace slug → m' !! pr_Slug p = None → ∀ p', p' ∈ shown → pr_ReceivedAt p <= pr_ReceivedAt p').
Proof using ord_perm.
  intros m. assert (push_ok m) as Hm.
  { unfold m. clear -ord_perm. assert (∀ l m0, push_ok m0 → push_ok (fold_left push_step l m0)) as H; [|apply H; by split; [rewrite map_size_empty; lia|]].
    induction l as [|q l IH]; intros m0 H0; [done|]. cbn. by apply IH, push_step_ok. }
  destruct Hm as [Hsz Hk]. unfold listEnvPushReports, list_reports. set (m1 := pruneLocked now m).
  set (shown := SliceStable _ (map snd (ord m1))). assert (shown ≡ₚ map snd (map_to_list m1)) as Hp.
  { unfold shown. rewrite SliceStable_perm. by rewrite (ord_perm m1). }
  assert (∀ p, p ∈ shown ↔ m1 !! pr_Slug p = Some p) as Hshown.
  { intros p. rewrite Hp. rewrite list_elem_of_In, in_map_iff. split.
    - intros ([k q] & <- & Hq). apply list_elem_of_In, elem_of_map_to_list in Hq. cbn. pose proof Hq as Hq'. apply prune_sub in Hq as [Hq _]. apply Hk in Hq as [-> _]. done.
    - intros Hl. exists (pr_Slug p, p). split; [done|]. by apply list_elem_of_In, elem_of_map_to_list. }
  assert (length shown = size m1) as Hlen by (rewrite Hp, length_map; apply length_map_to_list).
  assert (size m1 ≤ size m)%nat as Hs1 by apply map_size_filter.
  destruct (reportEnvPush ord parse now (Some (slug, Some ok, at_)) m) as [status m'] eqn:Hrep. split_and!.
  - exact Hsz.
  - unfold maxPushReports in Hsz. lia.
  - rewrite Hp. assert (map pr_Slug (map snd (map_to_list m1)) = map fst (map_to_list m1)) as ->; [|apply NoDup_fst_map_to_list].
    rewrite map_map. apply map_ext_in. intros [k q] Hq. apply list_elem_of_In, elem_of_map_to_list, prune_sub in Hq as [Hq _]. apply Hk in Hq as [Hq _]. exact Hq.
  - apply latest_first.
  - intros p. rewrite Hshown. unfold m1, pruneLocked. rewrite map_lookup_filter_Some. unfold push_expired, pushReportTTL. rewrite Z.nlt_ge. done.
  - intros Hslug. unfold reportEnvPush in Hrep. cbv zeta in Hrep. destruct (String.eqb_spec (TrimSpace slug) ""); [done|]. injection Hrep as <- <-.
    split; [done|]. unfold put_report. cbv zeta. cbn [pr_Slug]. fold m1. split; [eexists; split; [apply lookup_insert_eq|done]|].
    intros p Hin Hne. rewrite lookup_insert_ne by done. apply Hshown in Hin.
    destruct (Nat.leb_spec maxPushReports (size m1)) as [Hge|]; [|congruence]. destruct (m1 !! TrimSpace slug); [congruence|].
    destruct (drop_spec m1) as (s0 & p0 & H0 & -> & Hmin); [intros ? ? [H _]%prune_sub; by apply Hk in H as [_ H]|intros He; rewrite He, map_size_empty in Hge; unfold maxPushReports in Hge; lia|].
    intros Hd p' Hin'. apply lookup_delete_None in Hd as [->|Hd]; [|congruence]. apply Hshown in Hin'. rewrite H0 in Hin. injection Hin as <-. by eapply Hmin.
Qed.
End Push.

(** ** Witnesses *)

Definition demo_provider : vendor :=
  mkVendor (fun _ _ => Ok "env") (fun _ => Ok (mkLaunchResult "ev1" "PENDING" "")) (fun _ => Ok tt) (fun _ => Err "down") (fun _ => Ok "log").
Definition demo_benv (token : string) : benv := mkBenv 7 "run9" (Some token) (Some "") demo_provider "" true true true true true.
Definition demo_get (id : string) : Request := mkRequest "GET" "/" "nexus.example" "" [] None id "".
Definition demo_admin (org : string) : User := mkUser "u1" org "a@example.com" "admin" false zero_time None.
Definition demo_run_row (id org status : string) : BenchmarkRun :=
  mkRun id org ProviderPrime "ev0" "" ["a/b"] "m" 1 1 false "" status "" (Some (lit 1 2)) None None (Some 4) "" "" "" "u0" 0 0 None (Some 5) "".
Definition demo_world : bworld :=
  mkBW {[ "r1" := demo_run_row "r1" "acme" StatusRunning; "r2" := demo_run_row "r2" "other" StatusRunning ]} ∅ 0.

Lemma demo_keyed : keyed demo_world.
Proof.
  intros id row H. cbn in H. apply lookup_insert_Some in H as [[<- <-]|[_ H]]; [done|]. by apply lookup_singleton_Some in H as [<- <-].
Qed.

Lemma runs_confined_witness :
  let '(p, _, w') := handle_run (demo_benv "tok") (fun _ => None) "id" (demo_get "r2") (demo_admin "acme") true RDelete demo_world in
  (∀ run, run ∈ shown (bp_body p) → orgOr (br_OrgID run) = org_of_request (demo_get "r2") (demo_admin "acme")) ∧
  (RDelete ≠ RRefresh → bw_runs demo_world !! "r2" = Some (demo_run_row "r2" "other" StatusRunning) →
     orgOr "other" ≠ org_of_request (demo_get "r2") (demo_admin "acme") → bw_runs w' !! "r2" = Some (demo_run_row "r2" "other" StatusRunning)) ∧
  (RDelete ≠ RRefresh → bw_runs demo_world !! "r2" = None → bw_runs w' !! "r2" = Some (demo_run_row "r2" "other" StatusRunning) →
     orgOr "other" = org_of_request (demo_get "r2") (demo_admin "acme")).
Proof.
  exact (runs_confined (demo_benv "tok") (fun _ => None) "id" (demo_get "r2") (demo_admin "acme") true RDelete demo_world "r2"
    (demo_run_row "r2" "other" StatusRunning) demo_keyed).
Defined.

Lemma foreign_run_told_apart_witness :
  let foreign := fst (fst (getBenchmark "id" (demo_get "r2") (demo_admin "acme") demo_world)) in
  let absent := fst (fst (getBenchmark "id" (demo_get "r2") (demo_admin "acme") (mkBW ∅ ∅ 0))) in
  bp_status foreign = 404 ∧ bp_status absent = 404 ∧ bp_body foreign ≠ bp_body absent.
Proof.
  apply (foreign_run_told_apart "id" (demo_get "r2") (demo_admin "acme") demo_world (demo_run_row "r2" "other" StatusRunning) (mkBW ∅ ∅ 0)).
  - reflexivity.
  - vm_compute. discriminate.
  - reflexivity.
Defined.

Lemma delete_forgets_job_witness :
  let '(p, _, w') := deleteBenchmark (demo_benv "") "id" (demo_get "r1") (demo_admin "acme") demo_world in
  bp_status p = 200 ∧ bw_runs w' = delete "r1" (bw_runs demo_world).
Proof.
  apply (delete_forgets_job (demo_benv "") "id" (demo_get "r1") (demo_admin "acme") demo_world (demo_run_row "r1" "acme" StatusRunning));
    [reflexivity..|discriminate|reflexivity].
Defined.

Lemma rows_stay_keyed_witness :
  keyed (snd (handle_run (demo_benv "tok") (fun _ => None) "id" (demo_get "r1") (demo_admin "acme") true RCancel demo_world)).
Proof. exact (rows_stay_keyed (demo_benv "tok") (fun _ => None) "id" (demo_get "r1") (demo_admin "acme") true RCancel demo_world demo_keyed). Defined.

Lemma reason_shown_from_last_colon_witness :
  bp_status (failBenchmark "id" (ErrInvalidRequest "slug a: b must be owner/name")) = 400 ∧
  bp_body (failBenchmark "id" (ErrInvalidRequest "slug a: b must be owner/name")) =
    BPublic (mkBody CodeInvalidRequest (Message CodeInvalidRequest "b must be owner/name") "").
Proof. exact (reason_shown_from_last_colon "id" "slug a: b must be owner/name" ltac:(vm_compute; discriminate)). Defined.

Lemma stored_credential_is_used_witness :
  let '(p, _, c', v') := putBenchmarkCredential "id" (demo_get "") (demo_admin "acme") false (Some (" key ", "")) ∅ ∅ in
  credential_Token false ProviderPrime c' v' = "key" ∧ credential_TeamID false ProviderPrime c' v' = "" ∧ bp_status p = 500.
Proof. exact (stored_credential_is_used "id" (demo_get "") (demo_admin "acme") false " key " "" ∅ ∅ ltac:(vm_compute; discriminate)). Defined.

Lemma history_exact_witness :
  let t := {[ "r1" := demo_run_row "r1" "acme" StatusCompleted; "r2" := demo_run_row "r2" "other" StatusCompleted ]} in
  ∃ entries, benchmarkHistory (fun x => x) fone 0 9 true "acme" "m" t = inr (entries, trend_of entries) ∧
  length entries = Nat.min 50 (length (List.filter (settled_of "acme" "m") (map snd (map_to_list t)))) ∧
  (∀ e, e ∈ entries → ∃ id row, t !! id = Some row ∧ br_Model row = "m" ∧ orgOr (br_OrgID row) = "acme" ∧ br_Status row = StatusCompleted ∧
     he_RunID e = br_ID row ∧ br_AvgScore row = Some (he_AvgScore e) ∧ br_CompletedAt row = Some (he_CompletedAt e)) ∧
  StronglySorted (fun a b => he_CompletedAt b <= he_CompletedAt a) entries ∧
  (∀ i a b, entries !! i = Some a → entries !! S i = Some b → he_DeltaPrev b = fsub (he_AvgScore b) (he_AvgScore a)).
Proof. intros t. exact (history_exact (fun x => x) fone 0 9 "acme" "m" t ltac:(discriminate) ltac:(discriminate)). Defined.

Lemma one_window_reads_up_witness :
  let e := mkEntry "r" (lit 1 2) fzero fzero 5 1 fzero fone in
  tr_AvgPrev5 (trend_of [e]) = fzero ∧ tr_Direction (trend_of [e]) = "up".
Proof. intros e. apply one_window_reads_up; [cbn; lia|vm_compute; reflexivity]. Defined.

Lemma push_reports_bounded_witness :
  let ord := (fun m : pushReportStore => map_to_list m) in
  let m := fold_left (push_step ord (fun _ => None)) [(3, PReport (Some ("a/b", Some true, ""))); (4, PList)] ∅ in
  let '(shown, _) := listEnvPushReports ord 9 m in
  let '(status, m') := reportEnvPush ord (fun _ => None) 9 (Some ("c/d", Some false, "")) m in
  (size m ≤ 256)%nat ∧ (length shown ≤ 256)%nat ∧ NoDup (map pr_Slug shown) ∧
  StronglySorted (fun a b => pr_ReceivedAt b <= pr_ReceivedAt a) shown ∧
  (∀ p, p ∈ shown ↔ m !! pr_Slug p = Some p ∧ Sub 9 (pr_ReceivedAt p) <= 24 * Hour) ∧
  (TrimSpace "c/d" ≠ "" → status = 200 ∧ (∃ p, m' !! TrimSpace "c/d" = Some p ∧ pr_OK p = false ∧ pr_ReceivedAt p = 9) ∧
     ∀ p, p ∈ shown → pr_Slug p ≠ TrimSpace "c/d" → m' !! pr_Slug p = None → ∀ p', p' ∈ shown → pr_ReceivedAt p <= pr_ReceivedAt p').
Proof.
  intros ord m. exact (push_reports_bounded ord (fun m => Permutation_refl (map_to_list m)) (fun _ => None)
    [(3, PReport (Some ("a/b", Some true, ""))); (4, PList)] 9 "c/d" false "").
Defined.
